(* ===== verification/_CoqProject ===== *)
-Q . S2P
Prelude.v
Slice.v
SliceDiff.v
Undo.v
GoFloat.v
Values.v
PbTypes.v
Details.v
Calendar.v
Filter.v
Order.v
Text.v
TextBlock.v
StateTree.v
StateChecks.v
StateNormalize.v
StateDetails.v
StateStore.v
StateApply.v
Changes.v
ChangeRuns.v
ChangeReplay.v
ChangeStructure.v
ChangeBlocks.v
ChangeLog.v
ChangeSync.v
ChangeTypes.v
ChangeDetails.v
ChangeInst.v
Table.v
TableEditor.v
TableView.v
TableColumns.v
TableShape.v
TableNormal.v
TableInst.v
HistoryOps.v
Basic.v
BasicMove.v
BasicCopy.v
BasicInst.v
Dataview.v
DataviewDiff.v
DataviewReplay.v
DataviewEdits.v
DataviewInst.v
SubCache.v
SubContext.v
SubDep.v
SubSorted.v
SubTracking.v
SubBatch.v
SubKinds.v
SubService.v
SubServed.v
SubSpace.v
SubRace.v
SubInst.v
