(* ===== verification/Prelude.v ===== *)
(** * Anytype Heart: a verification development

    Anytype Heart is the middleware of Anytype: it keeps the objects of a user's
    spaces, lets clients edit them block by block, queries them and synchronises
    them between devices.  This development models the parts of it that carry the
    logic of objects and proves what makes them correct.  The network, the storage
    engine and the RPC layer are outside.

    ** The program's parts and how they meet

    An object has _details_ (values by relation key), a _tree of blocks_ and a _store_
    of nested values.
    - [core/domain] defines the values and the map of details; [util/pbtypes] the
      protobuf form in which clients and peers send them.
    - [core/block/editor/state] holds one object: a state is a layer of changes over
      its parent state.  An edit works on the top layer; [apply] normalises it, moves
      it into the parent, and returns the events for the clients, the action for the
      undo history and the changes for the log.  Another device builds the object by
      applying the log ([change.go]).
    - [core/block/simple/text] is the most used kind of block; its offsets are in
      UTF-16 units ([util/text]), as clients count them.
    - [core/block/editor/basic] and [core/block/editor/table] are the editors of the
      clients: they change a state through the operations of [state].
    - [core/block/simple/dataview] is the block that shows the objects of a set; its
      views hold the filters and sorts that become queries.
    - [core/block/undo] records the applied edits of an object; [basic/history.go]
      undoes and redoes them through states that are applied again.
    - [pkg/lib/database] compiles the filters and sorts of a client's query and
      evaluates them on details; date filters go through [util/time].
    - [core/subscription] keeps the results of queries up to date while objects
      change, for any number of clients' lists over one cache.
    - [util/slice] has the list operations all of these call, among them the diff
      that turns a list into the list of changes sent to clients.

    ** Files, in dependency order

    Foundations.
    - [Prelude]: errors ([res]), list lemmas, 32-bit integers, hints.
    - [Slice] ([util/slice/slice.go]): search, set operations, in-place compaction
      on the shared backing array.
    - [SliceDiff] ([util/slice/diff.go]): [Diff] and [ApplyChanges].
    - [Undo] ([core/block/undo/undo.go]): the bounded history, over any block type.
    - [GoFloat]: [float64] comparison and the theory of three-way comparisons.
    - [Values], [PbTypes], [Details] ([core/domain/value.go], [genericmap.go],
      [details.go], [util/pbtypes]): values, their order and equality, the map of
      details with its nil pointer, [StructDiff], the protobuf and store encodings,
      normalisation of structs, relation links.

    Queries.
    - [Calendar] ([util/time]): days, ISO weeks, months and years around an instant.
    - [Filter] ([pkg/lib/database/filter.go], [quickoptions.go], [database.go]):
      requests, their compilation and the filters' meaning.
    - [Order] ([order.go], [ordermap.go], [database.go]): sort orders, with the
      cache of names they fill while comparing.

    Text.
    - [Text] ([util/text/text.go]): UTF-16 offsets and truncation.
    - [TextBlock] ([core/block/simple/text/text.go], [utils.go], and the range cut
      of [core/block/editor/clipboard/clipboard.go]): text content and its marks.

    The state of an object ([core/block/editor/state]).
    - [StateTree] ([state.go], [position.go], the change builder of [change.go]):
      layers, walks, parents, unlinking, insertion.  [StateChecks]: validation and
      selections.
    - [StateNormalize] ([normalize.go]): the repairs before a state is applied.
    - [StateDetails] ([details.go]) and [StateStore] (the store, notifications,
      devices and file of [state.go] and [fileinfo.go]): the other layers.
    - [StateApply]: [apply], with its events and its undo action.

    The log of changes ([change.go], [event.go]).
    - [Changes]: what [apply] records and what applying a change does.
    - [ChangeRuns], [ChangeReplay], [ChangeStructure], [ChangeBlocks], [ChangeLog]:
      the structure changes as runs of insertions, their replay, removals and updates,
      and what a whole [apply] writes.
    - [ChangeSync]: replicas converge; [ChangeTypes]: blocks stay under their ids;
      [ChangeDetails]: details, types and the store; [ChangeInst]: examples, and two
      states that no replica can follow.

    Editors.
    - [Table], [TableEditor] ([core/block/editor/table]): computations on a state
      through pointers to blocks; the parts of a table, its normalisation and every
      operation on rows, columns and cells.  [TableView]: running computations, edits
      of the top layer.  [TableColumns]: the order of the cells, moving columns.
      [TableShape], [TableNormal]: normalisation.  [TableInst]: a document.
    - [HistoryOps] ([basic/history.go]): undo and redo of applied states.
    - [Basic] ([basic/basic.go]): creating, copying, moving, unlinking and replacing
      blocks.  [BasicMove], [BasicCopy]: their theorems.  [BasicInst]: a document.
    - [Dataview] ([core/block/simple/dataview], [editor/dataview]): the content of a
      dataview and every operation on it.  [DataviewDiff]: its messages.
      [DataviewReplay], [DataviewEdits]: what they carry, the requests of clients.
      [DataviewInst]: a set of tasks, and messages that lose a filter.

    Subscriptions ([core/subscription]).
    - [SubCache], [SubContext] ([cache.go], [diff.go], [context.go]): the shared cache,
      the operations of a batch and the events they become.
    - [SubDep], [SubSorted], [SubKinds] ([dep.go], [simple.go], [sorted.go], [ids.go],
      [group.go], [core/kanban/group_tag.go]): the kinds of subscriptions.
    - [SubService] ([service.go]): requests, batches, cancellations.
    - [SubTracking], [SubBatch], [SubServed], [SubSpace]: the guarantees of a list, of
      a batch, of one client and of all clients of a space.  [SubRace]: changes while
      a request is answered.  [SubInst]: a space.

    Go functions are Rocq functions of the same name; a method's receiver is its
    first argument and its updated value part of the result.  Names that clash with
    another component carry a prefix ([d_Get], [so_Compare], [cb_Move]), loops of a
    function are separate fixpoints ([diff_inserts], [take_out]).  A pointer that may
    be nil is an [option], an [error] a [res] or an [option string], a panic [None]
    (or [Err nil_deref] in [Details]).  The editors are computations in a monad [M] of
    a state, a counter of generated ids, errors and panics.  Maps are finite maps;
    where Go ranges over one, the theorems do not depend on the order.  Where several
    Go values share memory and the code relies on it or suffers from it, the sharing is
    modelled (the backing arrays of [Slice], the entries of the subscriptions' cache, the
    pointers of [Table]).

    ** What is proved

    - _Replicas._  The changes that [apply] records, applied by a replica that holds the
      old blocks, give the new ones, for one state ([log_replays]) and for a session
      of any length ([session_replays]); so do the changes of details, types and the
      store ([details_log_replays], [store_log_replays]).  The logs must be [safe_log]:
      no block is put before one that moves in the same log, and no moved block is
      above another one of the same change; [unsafe_logs_diverge] shows what happens
      otherwise.  [changes_keep_keys]: no change stores a block under another id.
    - _Applying._  [apply_commits]: the parent gets exactly the reachable blocks, and
      the undo action says what changed; [apply_events_replay]: the events lead a client
      there; [undo_redo_restore]: undo and redo lead back and forth, where normalisation
      has nothing to repair ([normalize_settles]: in plain documents).  It
      makes any acyclic document a tree ([removeDuplicates_correct]) and takes
      out divs without losing blocks ([CleanupLayouts_correct]).
    - _The block tree._  The layers behave as one map with copy on write, of which
      [CleanupBlock] deletes the nearest copy of a block ([layers_refine_map]); [Iterate]
      terminates on every state and walks exactly the reachable blocks
      ([Iterate_correct]); parents and ancestors are found
      ([parents_correct]); [Unlink] and [InsertTo] change the tree as the relation
      [tree_edit] says, for every position, and keep it a tree
      ([Unlink_correct], [InsertTo_correct]); [Validate] accepts exactly the trees
      ([Validate_correct]); [setInStore_correct]: what a change of the store leaves at every
      path, values it loses included.
    - _Editing._  [Move_correct], [Duplicate_correct]: moving is one tree edit, a copy is
      a tree of its own with fresh ids; [Move_into_own_subtree] shows the targets that
      are wrongly accepted.  Tables: [Normalize_correct] makes a table whose lists hold
      no divs proper and loses nothing, [ColumnMove_correct] moves one column with its cells.
    - _Dataviews._  The messages about a changed dataview lead a replica to it
      ([dataview_replays]), after any requests that keep ids apart ([requests_replay]);
      [removed_link_drops_filter] is an undo that replicas follow wrongly.
    - _Subscriptions._  [subscription_tracks]: the list of one subscription holds exactly
      the objects that pass its filter, in order, after every sequence of batches that
      leave the anchor of its window alone ([resent_anchor_empties_window] is one that
      does not); [subscribe_serves]: what the client of a first request is sent;
      [session_in_sync]: any number of subscriptions from the top of their lists, batches
      and cancellations; [change_during_subscribe], [failed_subscription_panics],
      [cancelled_output_panics]: what the sessions leave out.  All of these are about
      sorted subscriptions without dependent objects.
    - _Text._  Marks are read as the set of units they cover: pasting, cutting,
      splitting, merging and normalising keep every unit's marks and the text
      ([paste_replaces], [cut_paste_roundtrip], [split_merge_roundtrip],
      [normalize_correct]); a truncated text fits if its ending does ([Truncate_fits]).
    - _Differences, undo, values._  [Diff_roundtrip]; the history is a zipper of past
      and future ([history_refines_zipper]) and never panics
      ([history_reachable_safe]); [Compare_total_preorder].
    - _Queries._  Sort orders are total preorders, whatever their caches have loaded
      ([so_Compare_preorder]); days, months and years tile the time line, and weeks but
      for changes of the clock ([calendar_units_tile], [weeks_with_clock_changes]).
    The files prove more than these, among them the meaning of the filters, the
    differences of details, links and texts, and further deviations of the code
    ([Add_group_undone], [explicit_archived_overlooked], [nested_mark_truncated]).

    Every theorem with hypotheses has a witness on a concrete input, next to it or
    in a module of examples ([TreeInst], [ChangeInst], [TableInst], [BasicInst], ...).

    ** Fuel and bounds

    - [iter_fuel] is the number of blocks plus one: a path of [Iterate] has no
      repetition, so it is never longer; the same bounds the climbs of [IsChild] and
      [PickTableRootBlock] and the depth of [copyBlocks] ([copyable_tree]).
    - [normalize_fuel n] is [(n+1)^2+1]: each merge removes a mark and restarts.
    - [makeFilter] recurses on the rest of a dotted relation key: the length of the
      key plus one.  [Intersection] advances one of two lists in each step.
    - Theorems on text offsets assume lengths below [2^30] ([max_off]), under which
      no [int32] sum of two offsets wraps; the operations themselves wrap.
    - Marks are assumed [tidy] (not empty, no overlap of equal marks), the form in
      which the theorems show every operation leaves them.

    ** Parameters

    Code of other modules is a class with the documented laws as a second class,
    instantiated in the witnesses: [LoUniqBy], [SamberLo] and [LoIntersect]
    ([samber/lo]), [Mb0Diff] ([mb0/diff]), [SkipList] ([huandu/skiplist]), [SubQueue]
    (the queue of changed records), [AnyEnc] (the store's value encoding), [QuerySem] (its
    queries), [Collator], [FilterStore], [OrderStore] and [SubStore] (the object store),
    [DateIds], [GoUnicode], [GoArch] (conversion of floats out of range),
    [SortMarks] and [RowSorter] ([sort.Sort], which is not stable), [MsgCodec] (the
    bytes of a message), [MapOrder] (the order of ranging over a map), [PbCompare]
    ([types.Value.Compare]), [ProtoEqual] ([proto.Equal]), [md5hex], and the generators
    of new ids.
    Code of the repository that is only called is a parameter too: [DetailsHandler]
    (blocks bound to details), the snippet of a page, the list of local relations,
    [Kanban], [SubOrder], [TextPayload], [TextColour], [BlockValidate] and [FileImport]
    (what other kinds of blocks do), [SortText] (numbers and collation of cells), and the
    normalisation of links in [SetText].

    ** Not modelled

    Network and storage ([space], [core/files], any-sync), RPC and HTTP glue,
    generated code, import and export formats, and the smartblock around a state: it
    locks the object, checks restrictions, runs hooks and stores the log.  Within the
    modelled files: printing and logging, store queries (only [negateFilter]) and sort
    keys, the guess of a missing root id, alignment and restrictions of blocks, text blocks bound to details, snapshots,
    the cleaning of all tables when an object is closed, the templates of new dataviews,
    and in [basic.go] the settings of divs, relations and formulas.  These are either
    plain assignments, or they need the libraries named above.  In the log of a state
    an update replaces the content of a block as a whole; the messages of dataviews are
    modelled on their content alone.

    ** What could follow

    The editor of texts ([stext]) over [Basic] and [TextBlock]; dataviews as blocks of a
    state, so that [session_replays] covers their messages; the remaining table
    operations against the notion of a [valid] table of [TableColumns]; the building of
    a document from a tree of changes ([core/block/source]). *)

From stdpp Require Export base tactics numbers option list strings gmap sorting.
From Stdlib Require Export ZArith Lia ZifyBool.

(** ** Errors

    A Go function that returns [(T, error)] is modelled by [res T].  The
    message of the error is kept, as the code's callers print it. *)

Inductive res (A : Type) : Type :=
| Ok (a : A)
| Err (e : string).
Arguments Ok {A} a.
Arguments Err {A} e.

#[export] Instance res_ret : MRet res := fun A a => Ok a.
#[export] Instance res_bind : MBind res := fun A B f m =>
  match m with Ok a => f a | Err e => Err e end.
#[export] Instance res_fmap : FMap res := fun A B f m =>
  match m with Ok a => Ok (f a) | Err e => Err e end.

Definition is_ok {A} (r : res A) : bool :=
  match r with Ok _ => true | Err _ => false end.

(** ** Generic list lemmas *)

Lemma filter_all {A} (P : A → Prop) `{∀ x, Decision (P x)} (l : list A) :
  (∀ x, x ∈ l → P x) → filter P l = l.
Proof.
  induction l as [|x l IH]; intros Hl; [done|].
  rewrite filter_cons_True by (apply Hl; by left).
  f_equal. apply IH. intros y Hy. apply Hl. by right.
Qed.

Lemma filter_none {A} (P : A → Prop) `{∀ x, Decision (P x)} (l : list A) :
  (∀ x, x ∈ l → ¬ P x) → filter P l = [].
Proof.
  induction l as [|x l IH]; intros Hl; [done|].
  rewrite filter_cons_False by (apply Hl; by left).
  apply IH. intros y Hy. apply Hl. by right.
Qed.

Lemma filter_ext_elem {A} (P Q : A → Prop)
    `{∀ x, Decision (P x), ∀ x, Decision (Q x)} (l : list A) :
  (∀ x, x ∈ l → P x ↔ Q x) → filter P l = filter Q l.
Proof.
  induction l as [|x l IH]; intros Hl; [done|].
  rewrite !filter_cons, IH by (intros y Hy; apply Hl; by right).
  destruct (Hl x) as [H1 H2]; [by left|].
  repeat case_decide; tauto.
Qed.

Lemma list_find_first {A} (P : A → Prop) `{∀ x, Decision (P x)} (l : list A) :
  (∀ x, x ∈ l → ¬ P x) ∨ ∃ l1 x l2, l = l1 ++ x :: l2 ∧ P x ∧ ∀ y, y ∈ l1 → ¬ P y.
Proof.
  induction l as [|x l IH]; [left; intros y Hy; by apply elem_of_nil in Hy|].
  destruct (decide (P x)) as [Hx|Hx].
  - right. exists [], x, l. split_and!; [done..|]. intros y Hy. by apply elem_of_nil in Hy.
  - destruct IH as [Hn|(l1 & z & l2 & -> & Hz & Hl)].
    + left. intros y [->|Hy]%elem_of_cons; auto.
    + right. exists (x :: l1), z, l2. split_and!; [done..|].
      intros y [->|Hy]%elem_of_cons; auto.
Qed.

Lemma Forall2_diag_elem {A} (Q : A → A → Prop) (l : list A) x :
  Forall2 Q l l → x ∈ l → Q x x.
Proof.
  induction l as [|y l IH]; intros Hf Hx; [by apply elem_of_nil in Hx|].
  apply Forall2_cons in Hf as [? ?]. apply elem_of_cons in Hx as [->|?]; auto.
Qed.

(** The loop that rewrites the first element satisfying a test and stops;
    [None] when there is none. *)
Fixpoint replace_first {A} (p : A → bool) (f : A → A) (l : list A) : option (list A) :=
  match l with
  | [] => None
  | x :: l => if p x then Some (f x :: l) else cons x <$> replace_first p f l
  end.

Lemma replace_first_spec {A} (p : A → bool) (f : A → A) l :
  match replace_first p f l with
  | None => ∀ x, x ∈ l → p x = false
  | Some l' => ∃ l1 x l2, l = l1 ++ x :: l2 ∧ l' = l1 ++ f x :: l2 ∧ p x = true ∧
                 ∀ y, y ∈ l1 → p y = false
  end.
Proof.
  induction l as [|x l IH]; simpl; [intros x Hx; by apply elem_of_nil in Hx|].
  destruct (p x) eqn:Ex.
  - exists [], x, l. split_and!; [done..|]. intros y Hy. by apply elem_of_nil in Hy.
  - destruct (replace_first p f l) as [l'|]; simpl.
    + destruct IH as (l1 & z & l2 & -> & -> & Hz & Hl). exists (x :: l1), z, l2.
      split_and!; [done..|]. intros y [->|Hy]%elem_of_cons; auto.
    + intros y [->|Hy]%elem_of_cons; auto.
Qed.

(** Pairwise relations that do not depend on the order. *)

Lemma FOP_cons {A} (R : A → A → Prop) x l : ForallOrdPairs R (x :: l) ↔ Forall (R x) l ∧ ForallOrdPairs R l.
Proof. split; [by inversion 1|]. intros [? ?]. by constructor. Qed.

Lemma FOP_app {A} (R : A → A → Prop) l1 l2 :
  ForallOrdPairs R (l1 ++ l2) ↔
  ForallOrdPairs R l1 ∧ ForallOrdPairs R l2 ∧ ∀ x y, x ∈ l1 → y ∈ l2 → R x y.
Proof.
  induction l1 as [|z l1 IH]; simpl.
  - split; [intros H; split_and!; [constructor|done|intros x y Hx; by apply elem_of_nil in Hx]|tauto].
  - rewrite !FOP_cons, IH, Forall_app, (Forall_forall (R z) l2). setoid_rewrite elem_of_cons. naive_solver.
Qed.

Lemma FOP_perm {A} (R : A → A → Prop) l1 l2 :
  (∀ x y, R x y → R y x) → l1 ≡ₚ l2 → ForallOrdPairs R l1 → ForallOrdPairs R l2.
Proof.
  intros Hsym. induction 1 as [|x l l' Hp IH|x y l|l l' l'' _ IH1 _ IH2]; [done| | |by auto].
  - rewrite !FOP_cons. intros [Hx Hl]. split; [by rewrite <- Hp|by apply IH].
  - rewrite !FOP_cons, !Forall_cons. naive_solver.
Qed.

Lemma FOP_elem {A} (R : A → A → Prop) l x y :
  (∀ x y, R x y → R y x) → ForallOrdPairs R l → x ∈ l → y ∈ l → x = y ∨ R x y.
Proof.
  intros Hsym. induction 1 as [|z l Hz _ IH]; [by intros ?%elem_of_nil|].
  rewrite Forall_forall in Hz. rewrite !elem_of_cons. naive_solver.
Qed.

Lemma FOP_flat_map {A B} (R : A → A → Prop) (S : B → B → Prop) (f : A → list B) l :
  (∀ x, x ∈ l → ForallOrdPairs S (f x)) →
  (∀ x y a b, x ∈ l → y ∈ l → R x y → a ∈ f x → b ∈ f y → S a b) →
  ForallOrdPairs R l → ForallOrdPairs S (flat_map f l).
Proof.
  intros Hone Htwo HR. revert Hone Htwo. induction HR as [|x l Hx _ IH]; intros Hone Htwo; simpl; [constructor|].
  rewrite FOP_app. split_and!.
  - apply Hone. by left.
  - apply IH; [intros; apply Hone; by right|intros x' y' a b ? ?; apply Htwo; by right].
  - intros a b Ha Hb. apply list_elem_of_In, in_flat_map in Hb as (y & Hy & Hb).
    rewrite Forall_forall in Hx. apply list_elem_of_In in Hy, Hb.
    apply (Htwo x y); [by left|by right|by apply Hx|done|done].
Qed.

Lemma map_flat_map {A B} (f : A → B) l : map f l = flat_map (λ x, [f x]) l.
Proof. induction l as [|x l IH]; simpl; [done|by rewrite IH]. Qed.

(** ** Machine integers

    A Go [int32] is a [Z] kept in range by [i32] after every operation that can
    leave it; [i32] is the two's-complement wrap-around. *)

Definition i32 (z : Z) : Z := ((z + 2 ^ 31) mod 2 ^ 32 - 2 ^ 31)%Z.

Definition in_i32 (z : Z) : Prop := (- 2 ^ 31 ≤ z < 2 ^ 31)%Z.

Lemma i32_id z : in_i32 z → i32 z = z.
Proof. unfold in_i32, i32. intros. rewrite Z.mod_small; lia. Qed.

Lemma i32_range z : in_i32 (i32 z).
Proof. unfold in_i32, i32. pose proof (Z.mod_pos_bound (z + 2 ^ 31) (2 ^ 32)). lia. Qed.

Create HintDb heart discriminated.
#[export] Hint Resolve i32_range : heart.
