(* ===== verification/Slice.v ===== *)
(** * Slices ([util/slice/slice.go])

    The generic slice helpers every other component calls.  A Go slice is a
    list; a helper that writes through the slice it was given ([RemoveMut],
    [RemoveIndex], [FilterMut], [ReplaceFirstBy]) is modelled as the loop over
    the shared backing array, which reads cell [i] and writes cell [n], and the
    theorems show that the clobbering never loses an element.  A Go [int] that
    is used as an index is a [Z]. *)

From S2P Require Import Prelude.

(** ** Ordered element types ([constraints.Ordered]) *)

Class GoOrdered (K : Type) := {
  go_le : relation K;
  #[global] go_le_dec :: RelDecision go_le;
  #[global] go_le_po :: PartialOrder go_le;
  #[global] go_le_total :: Total go_le;
}.

#[export] Instance string_ordered : GoOrdered string := {| go_le := String.le |}.
#[export] Program Instance Z_ordered : GoOrdered Z := {| go_le := Z.le |}.

(** [slices.Sort]: the sorted permutation, which is unique for a total order. *)
Definition go_sort `{GoOrdered K} (l : list K) : list K := merge_sort go_le l.

Section ordered.
Context `{GoOrdered K}.

Lemma go_sort_Sorted (l : list K) : StronglySorted go_le (go_sort l).
Proof. apply StronglySorted_merge_sort; apply _. Qed.

Lemma go_sort_perm (l : list K) : go_sort l ≡ₚ l.
Proof. apply merge_sort_Permutation. Qed.

Lemma go_sort_elem_of (x : K) (l : list K) : x ∈ go_sort l ↔ x ∈ l.
Proof. by rewrite go_sort_perm. Qed.

Lemma go_sort_eq_iff (l1 l2 : list K) : go_sort l1 = go_sort l2 ↔ l1 ≡ₚ l2.
Proof.
  split.
  - intros E. by rewrite <- (go_sort_perm l1), E, go_sort_perm.
  - intros E. apply (StronglySorted_unique go_le);
      [apply go_sort_Sorted..|]. by rewrite !go_sort_perm.
Qed.
End ordered.

(** ** Searching *)

Section search.
Context {T : Type}.

(** [FindPos], [Find] and the unexported [findPos] of diff.go are the same
    loop with a different test. *)
Fixpoint find_loop (cond : T → bool) (i : Z) (s : list T) : Z :=
  match s with
  | [] => -1
  | sv :: s => if cond sv then i else find_loop cond (i + 1) s
  end.

Definition Find (s : list T) (cond : T → bool) : Z := find_loop cond 0 s.

Definition FindPos `{EqDecision T} (s : list T) (v : T) : Z :=
  find_loop (λ sv, bool_decide (sv = v)) 0 s.

Lemma find_loop_absent cond i s :
  (0 ≤ i)%Z → find_loop cond i s = (-1)%Z ↔ (∀ x, x ∈ s → cond x = false).
Proof.
  revert i. induction s as [|y s IH]; simpl; intros i Hi.
  { split; [intros _ x Hx; by apply elem_of_nil in Hx|done]. }
  destruct (cond y) eqn:Ec.
  - split; [lia|]. intros Hall. specialize (Hall y (list_elem_of_here _ _)). congruence.
  - rewrite IH by lia. split.
    + intros Hall x [->|Hx]%elem_of_cons; auto.
    + intros Hall x Hx. apply Hall. by right.
Qed.

Lemma find_loop_spec cond i s :
  (∀ x, x ∈ s → cond x = false) ∨
  ∃ l x r, s = l ++ x :: r ∧ cond x = true ∧ (∀ y, y ∈ l → cond y = false) ∧
           find_loop cond i s = (i + Z.of_nat (length l))%Z.
Proof.
  revert i. induction s as [|y s IH]; intros i; simpl.
  { left. intros x Hx. by apply elem_of_nil in Hx. }
  destruct (cond y) eqn:Ec.
  - right. exists [], y, s. split_and!; [done..| |simpl; lia].
    intros x Hx. by apply elem_of_nil in Hx.
  - destruct (IH (i + 1)%Z) as [Hall|(l & x & r & -> & ? & Hall & Hf)].
    { left. intros x [->|Hx]%elem_of_cons; auto. }
    right. exists (y :: l), x, r. split_and!; [done..| |].
    + intros z [->|Hz]%elem_of_cons; auto.
    + rewrite Hf. simpl. lia.
Qed.

Context `{EqDecision T}.

Lemma FindPos_absent (s : list T) v : (FindPos s v = -1)%Z ↔ v ∉ s.
Proof.
  unfold FindPos. rewrite find_loop_absent by lia. split.
  - intros Hf Hv. by apply Hf, bool_decide_eq_false in Hv.
  - intros Hv x Hx. apply bool_decide_eq_false. congruence.
Qed.

Lemma FindPos_present (s : list T) v :
  v ∈ s → ∃ l r, s = l ++ v :: r ∧ v ∉ l ∧ FindPos s v = Z.of_nat (length l).
Proof.
  intros Hv. destruct (find_loop_spec (λ sv, bool_decide (sv = v)) 0 s)
    as [Hf|(l & x & r & -> & Hx & Hl & Hf)].
  - by apply Hf, bool_decide_eq_false in Hv.
  - apply bool_decide_eq_true in Hx as ->. exists l, r. split_and!; [done| |done].
    intros Hin. by apply Hl, bool_decide_eq_false in Hin.
Qed.

Lemma FindPos_bounds (s : list T) v : (-1 ≤ FindPos s v < Z.of_nat (length s))%Z.
Proof.
  destruct (decide (v ∈ s)) as [Hv|Hv].
  - destruct (FindPos_present s v Hv) as (l & r & -> & _ & ->).
    rewrite length_app. simpl. lia.
  - apply FindPos_absent in Hv. rewrite Hv. lia.
Qed.
End search.

(** ** Set-like operations on string slices *)

Definition Union (a b : list string) : list string :=
  let set : gset string := foldl (λ acc v, {[v]} ∪ acc) ∅ a in
  foldl (λ a v, if bool_decide (v ∈ set) then a else a ++ [v]) a b.

Definition DifferenceRemovedAdded (a b : list string) : list string * list string :=
  let amap : gset string := foldl (λ m item, {[item]} ∪ m) ∅ a in
  let '(added, bmap) :=
    foldl (λ '(added, bmap) item,
             (if bool_decide (item ∈ amap) then added else added ++ [item],
              {[item]} ∪ bmap))
          ([], ∅ : gset string) b in
  let removed :=
    foldl (λ removed item,
             if bool_decide (item ∈ bmap) then removed else removed ++ [item]) [] a in
  (removed, added).

Definition Difference (a b : list string) : list string :=
  foldl (λ diff a1, if bool_decide (FindPos b a1 = -1)%Z then diff ++ [a1] else diff) [] a.

Lemma foldl_set_elem_of (l : list string) (acc : gset string) x :
  x ∈ foldl (λ m v, {[v]} ∪ m) acc l ↔ x ∈ l ∨ x ∈ acc.
Proof.
  revert acc. induction l as [|y l IH]; intros acc; simpl; [set_solver|].
  rewrite IH. set_solver.
Qed.

Lemma foldl_append_filter {T} (P : T → Prop) `{∀ x, Decision (P x)} (f : T → bool) acc l :
  (∀ x, f x = bool_decide (P x)) →
  foldl (λ acc x, if f x then acc ++ [x] else acc) acc l = acc ++ filter P l.
Proof.
  intros Hf. revert acc. induction l as [|x l IH]; intros acc; simpl.
  - by rewrite app_nil_r.
  - rewrite IH, Hf, filter_cons. case_bool_decide; case_decide; try done.
    by rewrite <- app_assoc.
Qed.

Lemma foldl_append_filter_neg {T} (P : T → Prop) `{∀ x, Decision (P x)} (f : T → bool) acc l :
  (∀ x, f x = bool_decide (P x)) →
  foldl (λ acc x, if f x then acc else acc ++ [x]) acc l = acc ++ filter (λ x, ¬ P x) l.
Proof.
  intros Hf. revert acc. induction l as [|x l IH]; intros acc; simpl.
  - by rewrite app_nil_r.
  - rewrite IH, Hf, filter_cons. case_bool_decide; case_decide; try tauto.
    by rewrite <- app_assoc.
Qed.

Lemma Union_spec a b : Union a b = a ++ filter (λ v, v ∉ a) b.
Proof.
  unfold Union.
  rewrite (foldl_append_filter_neg (λ v, v ∈ a)
             (λ v, bool_decide (v ∈ foldl (λ (m : gset string) v, {[v]} ∪ m) ∅ a))).
  - done.
  - intros x. apply bool_decide_ext. rewrite foldl_set_elem_of. set_solver.
Qed.

Lemma Difference_spec a b : Difference a b = filter (λ v, v ∉ b) a.
Proof.
  unfold Difference. rewrite (foldl_append_filter (λ v, v ∉ b)); [done|].
  intros x. apply bool_decide_ext, FindPos_absent.
Qed.

Lemma DifferenceRemovedAdded_spec a b :
  DifferenceRemovedAdded a b = (filter (λ v, v ∉ b) a, filter (λ v, v ∉ a) b).
Proof.
  unfold DifferenceRemovedAdded.
  assert (∀ (added : list string) (bmap amap : gset string),
    foldl (λ '(added, bmap) item,
             (if bool_decide (item ∈ amap) then added else added ++ [item],
              {[item]} ∪ bmap)) (added, bmap) b
    = (added ++ filter (λ v, v ∉ amap) b, foldl (λ m v, {[v]} ∪ m) bmap b)) as Hf.
  { intros added bmap amap. revert added bmap.
    induction b as [|x b IH]; intros; simpl; [by rewrite app_nil_r|].
    rewrite IH, filter_cons. case_bool_decide; case_decide; try done.
    by rewrite <- app_assoc. }
  rewrite Hf. simpl. f_equal.
  - rewrite (foldl_append_filter_neg (λ v, v ∈ b)); [done|].
    intros x. apply bool_decide_ext. rewrite foldl_set_elem_of. set_solver.
  - apply list_filter_iff. intros x. rewrite foldl_set_elem_of. set_solver.
Qed.

(** ** Insertion

    A negative position makes the slice expression [s[:pos]] panic: [None]. *)

Definition Insert {T} (s : list T) (pos : Z) (v : list T) : option (list T) :=
  if (Z.of_nat (length s) <=? pos)%Z then Some (s ++ v)
  else if (pos =? 0)%Z then Some (v ++ s)
  else if (pos <? 0)%Z then None
  else Some (take (Z.to_nat pos) s ++ v ++ drop (Z.to_nat pos) s).

Lemma Insert_at {T} (l r v : list T) :
  Insert (l ++ r) (Z.of_nat (length l)) v = Some (l ++ v ++ r).
Proof.
  unfold Insert. rewrite length_app. destruct r as [|y r].
  - rewrite Nat.add_0_r, Z.leb_refl, !app_nil_r. done.
  - replace (Z.of_nat (length l + length (y :: r)) <=? Z.of_nat (length l))%Z with false
      by (simpl; symmetry; apply Z.leb_gt; lia).
    destruct l as [|x l]; [done|].
    replace (Z.of_nat (length (x :: l)) =? 0)%Z with false by (simpl length; lia).
    replace (Z.of_nat (length (x :: l)) <? 0)%Z with false by (simpl length; lia).
    by rewrite Nat2Z.id, take_app_length, drop_app_length.
Qed.

Lemma Insert_perm {T} (s : list T) pos v s' :
  Insert s pos v = Some s' → s' ≡ₚ v ++ s.
Proof.
  unfold Insert. repeat case_match; intros; simplify_eq.
  - apply Permutation_app_comm.
  - done.
  - rewrite (Permutation_app_comm _ (v ++ _)), <- app_assoc, (Permutation_app_comm (drop _ _)).
    by rewrite take_drop.
Qed.

Lemma Insert_Some {T} (s : list T) pos v : (0 ≤ pos)%Z → is_Some (Insert s pos v).
Proof. intros. unfold Insert. repeat case_match; eauto. lia. Qed.

(** ** In-place compaction

    [RemoveMut], [RemoveIndex] and [FilterMut] share one loop: cell [i] of the
    backing array is read, and when it is kept it is written to cell [n], with
    [n <= i].  The result is the slice [s[:n]] of the clobbered array. *)

Section compaction.
Context {T : Type}.
Implicit Types (s buf : list T) (keep : nat → T → bool).

Fixpoint compact_loop keep (todo i n : nat) (buf : list T) : list T * nat :=
  match todo with
  | O => (buf, n)
  | S todo =>
      match buf !! i with
      | None => (buf, n)
      | Some x =>
          if keep i x then compact_loop keep todo (S i) (S n) (<[n := x]> buf)
          else compact_loop keep todo (S i) n buf
      end
  end.

Definition compact keep s : list T :=
  let '(buf, n) := compact_loop keep (length s) 0 0 s in take n buf.

(** The reference: an order-preserving filter that sees the index. *)
Fixpoint ifilter keep (i : nat) s : list T :=
  match s with
  | [] => []
  | x :: s => if keep i x then x :: ifilter keep (S i) s else ifilter keep (S i) s
  end.

Lemma compact_loop_spec keep done dead rest :
  length done ≤ length done + length dead →
  let '(buf, n) := compact_loop keep (length rest) (length done + length dead)
                     (length done) (done ++ dead ++ rest) in
  take n buf = done ++ ifilter keep (length done + length dead) rest ∧
  length buf = length done + length dead + length rest.
Proof.
  intros _. revert done dead. induction rest as [|x rest IH]; intros done dead; simpl.
  { rewrite !app_nil_r, take_app_length, length_app. split; [done|lia]. }
  rewrite (assoc_L (++)), lookup_app_r by (rewrite length_app; lia).
  rewrite length_app, Nat.sub_diag. simpl. destruct (keep _ x).
  - destruct dead as [|d dead]; simpl.
    + rewrite app_nil_r, Nat.add_0_r.
      rewrite insert_app_r_alt, Nat.sub_diag by lia. simpl.
      specialize (IH (done ++ [x]) []). simpl in IH.
      rewrite length_app, Nat.add_1_r, Nat.add_0_r, <- app_assoc in IH. simpl in IH.
      destruct (compact_loop _ _ _ _ _). rewrite <- app_assoc in IH.
      destruct IH as [-> ->]. simpl. split; [done|lia].
    + rewrite <- app_assoc, insert_app_r_alt, Nat.sub_diag by lia. simpl.
      specialize (IH (done ++ [x]) (dead ++ [x])).
      rewrite !length_app, !Nat.add_1_r, <- !app_assoc in IH. simpl in IH.
      replace (S (length done + S (length dead))) with (S (length done) + S (length dead)) by lia.
      destruct (compact_loop _ _ _ _ _). destruct IH as [-> ->]. split; [done|lia].
  - specialize (IH done (dead ++ [x])).
    rewrite length_app, Nat.add_1_r, <- !app_assoc in IH. simpl in IH.
    rewrite <- app_assoc. rewrite Nat.add_succ_r in IH.
    destruct (compact_loop _ _ _ _ _). destruct IH as [-> ->]. split; [done|lia].
Qed.

Lemma compact_ifilter keep s : compact keep s = ifilter keep 0 s.
Proof.
  unfold compact. pose proof (compact_loop_spec keep [] [] s) as H. simpl in H.
  destruct (compact_loop _ _ _ _ _). by apply H.
Qed.

Lemma ifilter_filter (P : T → Prop) `{∀ x, Decision (P x)} keep i s :
  (∀ i x, keep i x = bool_decide (P x)) → ifilter keep i s = filter P s.
Proof.
  intros Hk. revert i. induction s as [|x s IH]; intros i; simpl; [done|].
  rewrite Hk, filter_cons. case_bool_decide; case_decide; try done; by rewrite IH.
Qed.

(** [Remove] writes into a clone: the elements read are the original ones. *)
Fixpoint clone_loop (keep : T → bool) s (n : nat) (sc : list T) : list T * nat :=
  match s with
  | [] => (sc, n)
  | x :: s => if keep x then clone_loop keep s (S n) (<[n := x]> sc)
              else clone_loop keep s n sc
  end.

Lemma clone_loop_spec (keep : T → bool) s n sc :
  n + length s ≤ length sc →
  let '(sc', n') := clone_loop keep s n sc in
  take n' sc' = take n sc ++ filter keep s.
Proof.
  revert n sc. induction s as [|x s IH]; intros n sc Hlen; simpl in *.
  { by rewrite app_nil_r. }
  rewrite filter_cons. destruct (keep x); case_decide; try done.
  - specialize (IH (S n) (<[n:=x]> sc)). rewrite length_insert in IH.
    destruct (clone_loop _ _ _ _). rewrite IH by lia.
    rewrite (take_S_r _ _ x) by (apply list_lookup_insert_eq; lia).
    rewrite take_insert_ge by lia. by rewrite <- app_assoc.
  - specialize (IH n sc). destruct (clone_loop _ _ _ _). apply IH. lia.
Qed.

Definition FilterMut s (cond : T → bool) : list T := compact (λ _ x, cond x) s.

Definition Filter s (cond : T → bool) : list T :=
  foldl (λ result x, if cond x then result ++ [x] else result) [] s.

Definition RemoveIndex s (idx : Z) : list T :=
  compact (λ i _, negb (Z.of_nat i =? idx)%Z) s.

Context `{EqDecision T}.

Definition RemoveMut s (v : T) : list T := compact (λ _ x, bool_decide (x ≠ v)) s.

Definition Remove s (v : T) : list T :=
  let '(sc, n) := clone_loop (λ x, bool_decide (x ≠ v)) s 0 s in take n sc.

Definition RemoveN s (vs : list T) : list T :=
  match vs with
  | [] => s
  | _ => let '(sc, n) := clone_loop (λ x, negb (existsb (λ v, bool_decide (x = v)) vs)) s 0 s in
         take n sc
  end.

Lemma FilterMut_spec s cond : FilterMut s cond = filter cond s.
Proof.
  unfold FilterMut. rewrite compact_ifilter. apply ifilter_filter.
  intros _ x. by destruct (cond x).
Qed.

Lemma Filter_spec s cond : Filter s cond = filter cond s.
Proof.
  unfold Filter. rewrite (foldl_append_filter cond cond); [done|].
  intros x. by destruct (cond x).
Qed.

Lemma RemoveMut_spec s v : RemoveMut s v = filter (λ x, x ≠ v) s.
Proof. unfold RemoveMut. rewrite compact_ifilter. by apply ifilter_filter. Qed.

Lemma Remove_spec s v : Remove s v = filter (λ x, x ≠ v) s.
Proof.
  unfold Remove. pose proof (clone_loop_spec (λ x, bool_decide (x ≠ v)) s 0 s) as H.
  destruct (clone_loop _ _ _ _). rewrite H by lia. simpl.
  apply list_filter_iff. intros x. apply bool_decide_spec.
Qed.

Lemma RemoveN_spec s vs : RemoveN s vs = filter (λ x, x ∉ vs) s.
Proof.
  unfold RemoveN. destruct vs as [|v vs].
  { symmetry. apply filter_all. set_solver. }
  set (keep := λ x, _). pose proof (clone_loop_spec keep s 0 s) as H.
  destruct (clone_loop _ _ _ _). rewrite H by lia. simpl.
  apply list_filter_iff. intros x. unfold keep.
  rewrite negb_True. apply not_iff_compat.
  rewrite Is_true_true, existsb_exists. setoid_rewrite bool_decide_eq_true.
  setoid_rewrite <- list_elem_of_In. naive_solver.
Qed.

Lemma RemoveIndex_spec s idx :
  RemoveIndex s idx =
    if (idx <? 0)%Z then s else take (Z.to_nat idx) s ++ drop (S (Z.to_nat idx)) s.
Proof.
  unfold RemoveIndex. rewrite compact_ifilter.
  assert (∀ i, ifilter (λ i _, negb (Z.of_nat i =? idx)%Z) i s =
    if (idx <? Z.of_nat i)%Z then s
    else take (Z.to_nat idx - i) s ++ drop (S (Z.to_nat idx - i)) s) as Hg.
  { induction s as [|x s IH]; intros i; simpl.
    { by case_match; rewrite ?take_nil, ?drop_nil. }
    destruct (Z.eqb_spec (Z.of_nat i) idx) as [<-|Hne]; simpl.
    - rewrite IH, Z.ltb_irrefl, Nat2Z.id, Nat.sub_diag. simpl. case_match; [done|lia].
    - rewrite IH. destruct (Z.ltb_spec idx (Z.of_nat i)), (Z.ltb_spec idx (Z.of_nat (S i))); try lia; [done|].
      replace (Z.to_nat idx - i) with (S (Z.to_nat idx - S i)) by lia. done. }
  rewrite Hg. by rewrite Nat.sub_0_r.
Qed.
End compaction.

(** ** Comparisons *)

Section comparisons.
Context `{GoOrdered K, EqDecision K}.

(** The index loop [for i := range s1 { if s1[i] != s2[i] ... }]; the guard on
    the lengths makes [s2[i]] defined. *)
Fixpoint sorted_equals_loop (s1 s2 : list K) : bool :=
  match s1, s2 with
  | x :: s1, y :: s2 => if bool_decide (x ≠ y) then false else sorted_equals_loop s1 s2
  | _, _ => true
  end.

Definition SortedEquals (s1 s2 : list K) : bool :=
  if bool_decide (length s1 ≠ length s2) then false else sorted_equals_loop s1 s2.

Definition UnsortedEqual (s1 s2 : list K) : bool :=
  if bool_decide (length s1 ≠ length s2) then false
  else SortedEquals (go_sort s1) (go_sort s2).

Lemma SortedEquals_spec s1 s2 : SortedEquals s1 s2 = true ↔ s1 = s2.
Proof.
  unfold SortedEquals. case_bool_decide as Hlen; [naive_solver|].
  assert (length s1 = length s2) as E by (by destruct (decide (length s1 = length s2))).
  clear Hlen. revert s2 E.
  induction s1 as [|x s1 IH]; intros [|y s2] E; simplify_eq/=; try done.
  case_bool_decide; [naive_solver|]. rewrite IH by done. naive_solver.
Qed.

Lemma UnsortedEqual_spec s1 s2 : UnsortedEqual s1 s2 = true ↔ s1 ≡ₚ s2.
Proof.
  unfold UnsortedEqual. case_bool_decide as Hlen.
  - split; [done|]. intros E%Permutation_length. done.
  - by rewrite SortedEquals_spec, go_sort_eq_iff.
Qed.
End comparisons.

Fixpoint has_prefix_loop (value prefix : list string) : bool :=
  match prefix, value with
  | p :: prefix, v :: value => if bool_decide (v ≠ p) then false else has_prefix_loop value prefix
  | _, _ => true
  end.

Definition HasPrefix (value prefix : list string) : bool :=
  if bool_decide (length value < length prefix) then false else has_prefix_loop value prefix.

Lemma HasPrefix_spec value prefix : HasPrefix value prefix = true ↔ prefix `prefix_of` value.
Proof.
  unfold HasPrefix. case_bool_decide as Hlen.
  - split; [done|]. intros [k ->]. rewrite length_app in Hlen. lia.
  - assert (∀ p v, length p ≤ length v → has_prefix_loop v p = true ↔ p `prefix_of` v).
    { induction p as [|x p IH]; intros [|y v] Hl; simpl in *; try lia.
      - split; [intros; apply prefix_nil|done].
      - split; [intros; apply prefix_nil|done].
      - case_bool_decide.
        + split; [done|]. intros [k ?]. simplify_eq/=.
        + rewrite IH by lia. assert (y = x) as -> by (by destruct (decide (y = x))).
          split; [apply prefix_cons|apply prefix_cons_inv_2]. }
    destruct (decide (length prefix ≤ length value)) as [?|?]; auto. lia.
Qed.

(** [sort.Strings] sorts both arguments in place; the merge loop then walks the
    two sorted slices.  The result lists the loop's output and the two clobbered
    arguments. *)
Fixpoint intersection_loop (steps : nat) (a b : list string) : list string :=
  match steps with
  | O => []
  | S steps =>
      match a, b with
      | x :: a', y :: b' =>
          match String.compare x y with
          | Eq => x :: intersection_loop steps a' b'
          | Lt => intersection_loop steps a' b
          | Gt => intersection_loop steps a b'
          end
      | _, _ => []
      end
  end.

Definition Intersection (a b : list string) : list string * list string * list string :=
  let a := go_sort a in
  let b := go_sort b in
  (intersection_loop (length a + length b) a b, a, b).

Lemma compare_lt_not_le x y : String.compare x y = Lt → ¬ String.le y x.
Proof.
  unfold String.le, String.leb. rewrite (String.compare_antisym y x). intros ->. simpl. tauto.
Qed.

Lemma compare_gt_not_le x y : String.compare x y = Gt → ¬ String.le x y.
Proof. unfold String.le, String.leb. intros ->. simpl. tauto. Qed.

Lemma sorted_head_not_elem_of (x y : string) l :
  ¬ String.le y x → StronglySorted String.le (y :: l) → x ∉ y :: l.
Proof.
  intros Hle Hs [->|Hx]%elem_of_cons; [by apply Hle|].
  apply StronglySorted_cons in Hs as [Hall _].
  rewrite Forall_forall in Hall. by apply Hle, Hall.
Qed.

Lemma intersection_loop_elem_of steps a b x :
  length a + length b ≤ steps →
  StronglySorted String.le a → StronglySorted String.le b →
  x ∈ intersection_loop steps a b ↔ x ∈ a ∧ x ∈ b.
Proof.
  revert a b. induction steps as [|steps IH]; intros a b Hlen Ha Hb; simpl.
  { destruct a, b; simpl in Hlen; try lia. set_solver. }
  destruct a as [|y a]; [set_solver|]. destruct b as [|z b]; [set_solver|].
  pose proof Ha as [_ Ha']%StronglySorted_cons. pose proof Hb as [_ Hb']%StronglySorted_cons.
  simpl in Hlen. destruct (String.compare y z) eqn:Hc.
  - apply String.compare_eq_iff in Hc as ->. rewrite elem_of_cons, IH by (done || lia).
    rewrite !elem_of_cons. naive_solver.
  - rewrite IH by (done || (simpl; lia)). apply compare_lt_not_le in Hc.
    pose proof (sorted_head_not_elem_of _ _ _ Hc Hb). set_solver.
  - rewrite IH by (done || (simpl; lia)). apply compare_gt_not_le in Hc.
    pose proof (sorted_head_not_elem_of _ _ _ Hc Ha). set_solver.
Qed.

Lemma Intersection_elem_of a b x :
  x ∈ (Intersection a b).1.1 ↔ x ∈ a ∧ x ∈ b.
Proof.
  unfold Intersection. simpl. rewrite intersection_loop_elem_of, !go_sort_elem_of;
    [done|lia|exact (go_sort_Sorted a)|exact (go_sort_Sorted b)].
Qed.

(** ** Merging and replacing *)

Fixpoint ReplaceFirstBy {T} (s : list T) (el : T) (pred : T → bool) : list T :=
  match s with
  | [] => []
  | el2 :: s => if pred el2 then el :: s else el2 :: ReplaceFirstBy s el pred
  end.

Definition MergeUniqBy {T} (s1 s2 : list T) (equal : T → T → bool) : list T :=
  foldl (λ result v2,
           if negb (existsb (λ v1, equal v1 v2) s1) then result ++ [v2] else result) s1 s2.

(** A Go [iter.Seq] is the sequence of values it yields; the callback stops it
    by returning [false]. *)
Fixpoint ContainsBySeq {T} `{EqDecision T} (seq : list T) (v1 : T) : bool :=
  match seq with
  | [] => false
  | v2 :: seq => if bool_decide (v1 = v2) then true else ContainsBySeq seq v1
  end.

Lemma ContainsBySeq_spec `{EqDecision T} (l : list T) v : ContainsBySeq l v = true ↔ v ∈ l.
Proof.
  induction l as [|x l IH]; simpl; [set_solver|].
  case_bool_decide; rewrite ?IH; set_solver.
Qed.

Lemma MergeUniqBy_spec `{EqDecision T} (s1 s2 : list T) equal :
  (∀ x y, equal x y = true ↔ x = y) →
  MergeUniqBy s1 s2 equal = s1 ++ filter (λ v, v ∉ s1) s2.
Proof.
  intros He. unfold MergeUniqBy. rewrite (foldl_append_filter (λ v, v ∉ s1)); [done|].
  intros x. destruct (existsb (λ v1, equal v1 x) s1) eqn:E; simpl; symmetry.
  - apply bool_decide_eq_false. apply existsb_exists in E as (y & Hy & Ey).
    apply He in Ey as ->. rewrite <- list_elem_of_In in Hy. tauto.
  - apply bool_decide_eq_true. intros Hx.
    assert (existsb (λ v1, equal v1 x) s1 = true); [|congruence].
    apply existsb_exists. exists x. rewrite <- list_elem_of_In. split; [done|]. by apply He.
Qed.

Lemma MergeUniqBy_NoDup `{EqDecision T} (s1 s2 : list T) equal :
  (∀ x y, equal x y = true ↔ x = y) → NoDup s1 → NoDup s2 → NoDup (MergeUniqBy s1 s2 equal).
Proof.
  intros He H1 H2. rewrite MergeUniqBy_spec by done. apply NoDup_app. split_and!; [done| |].
  - intros x Hx [? _]%list_elem_of_filter. done.
  - by apply NoDup_filter.
Qed.

(** ** Properties *)

(** The removals that compact the backing array in place and those that
    write into a clone compute the same slices: the elements that are kept, in
    their order, with the prefix of the overwritten array as the result. *)
Theorem compactions_equiv {T} `{EqDecision T} (s : list T) (v : T) (vs : list T)
    (cond : T → bool) (idx : Z) :
  FilterMut s cond = Filter s cond ∧ Filter s cond = filter cond s ∧
  RemoveMut s v = Remove s v ∧ Remove s v = filter (λ x, x ≠ v) s ∧
  RemoveN s vs = filter (λ x, x ∉ vs) s ∧
  RemoveIndex s idx =
    (if (idx <? 0)%Z then s else take (Z.to_nat idx) s ++ drop (S (Z.to_nat idx)) s).
Proof.
  rewrite FilterMut_spec, Filter_spec, RemoveMut_spec, Remove_spec, RemoveN_spec, RemoveIndex_spec.
  done.
Qed.

(** The sort-based comparisons are set operations: [UnsortedEqual] decides
    equality up to order (counting repetitions), [Intersection] returns exactly the
    common elements (and sorts the arguments it is given in place), and removing
    what [DifferenceRemovedAdded] removed and adding what it added leads from the
    elements of the first slice to those of the second. *)
Theorem slice_set_operations (a b : list string) (x : string) :
  (UnsortedEqual a b = true ↔ a ≡ₚ b) ∧
  (x ∈ (Intersection a b).1.1 ↔ x ∈ a ∧ x ∈ b) ∧
  (Intersection a b).1.2 ≡ₚ a ∧ (Intersection a b).2 ≡ₚ b ∧
  (let '(removed, added) := DifferenceRemovedAdded a b in
   (x ∈ RemoveN a removed ++ added ↔ x ∈ b) ∧ (x ∈ removed → x ∉ b) ∧ (x ∈ added → x ∉ a)).
Proof.
  split_and!; [apply UnsortedEqual_spec|apply Intersection_elem_of|apply go_sort_perm|apply go_sort_perm|].
  rewrite DifferenceRemovedAdded_spec, RemoveN_spec. rewrite elem_of_app, !list_elem_of_filter.
  destruct (decide (x ∈ a)), (decide (x ∈ b)); tauto.
Qed.
