(* ===== verification/SliceDiff.v ===== *)
(** * Slice diffs ([util/slice/diff.go])

    [Diff] computes the changes that turn one slice into another and
    [ApplyChanges] replays them; the dataview and store components send these
    changes to clients and to other devices.  Two functions of third-party
    packages are parameters with their documented behaviour as laws:
    [lo.UniqBy] and [diff.Diff] of [github.com/mb0/diff].  The main theorem is
    the round trip [ApplyChanges o (Diff o c) = c]. *)

From S2P Require Import Prelude Slice.

(** ** Third-party interfaces *)

(** [lo.UniqBy] keeps the first element of each key, in order. *)
Class LoUniqBy := lo_UniqBy : ∀ T, (T → string) → list T → list T.
#[global] Arguments lo_UniqBy {_ T} _ _.

Class LoUniqByOk `{!LoUniqBy} := {
  UniqBy_nil : ∀ T (key : T → string), lo_UniqBy key [] = [];
  UniqBy_cons : ∀ T (key : T → string) x l,
    lo_UniqBy key (x :: l) = x :: lo_UniqBy key (filter (λ y, key y ≠ key x) l);
}.

(** One edit of the [mb0/diff] package: at position [eA] of the first and [eB]
    of the second sequence, [eDel] deletions and [eIns] insertions. *)
Record EditChange := { eA : nat; eB : nat; eDel : nat; eIns : nat }.

(** A sequence of edits in increasing positions, everything between two edits
    (at least one element) being equal pairs.  The flag says that an edit may
    start here. *)
Inductive edit_script (eq : nat → nat → bool) (n m : nat) :
    bool → nat → nat → list EditChange → Prop :=
| es_end b : edit_script eq n m b n m []
| es_match b x y cs :
    x < n → y < m → eq x y = true →
    edit_script eq n m true (S x) (S y) cs → edit_script eq n m b x y cs
| es_edit x y d i cs :
    x + d ≤ n → y + i ≤ m →
    edit_script eq n m false (x + d) (y + i) cs →
    edit_script eq n m true x y ({| eA := x; eB := y; eDel := d; eIns := i |} :: cs).

(** [diff.Diff(n, m, data)] with [data.Equal] as a function. *)
Class Mb0Diff := mb0_Diff : nat → nat → (nat → nat → bool) → list EditChange.
Class Mb0DiffOk `{!Mb0Diff} :=
  mb0_Diff_script : ∀ n m eq, edit_script eq n m true 0 0 (mb0_Diff n m eq).

(** ** Changes *)

Inductive Change (T : Type) : Type :=
| ChangeAdd (Items : list T) (AfterID : string)
| ChangeRemove (IDs : list string)
| ChangeMove (IDs : list string) (AfterID : string)
| ChangeReplace (Item : T) (ID : string).
Arguments ChangeAdd {T} _ _.
Arguments ChangeRemove {T} _.
Arguments ChangeMove {T} _ _.
Arguments ChangeReplace {T} _ _.

(** The zero [Change], all four pointers nil, is [None]. *)
Definition Change_Len {T} (c : option (Change T)) : nat :=
  match c with
  | Some (ChangeAdd items _) => length items
  | Some (ChangeRemove ids) => length ids
  | Some (ChangeMove ids _) => length ids
  | Some (ChangeReplace _ _) => 1
  | None => 0
  end.

Definition UnwrapChanges {T R} (changes : list (Change T))
    (add : string → list T → R) (remove : list string → R)
    (move : string → list string → R) (update : string → T → R) : list R :=
  foldl (λ res c, res ++
    match c with
    | ChangeAdd items afterID => [add afterID items]
    | ChangeRemove ids => [remove ids]
    | ChangeMove ids afterID => [move afterID ids]
    | ChangeReplace item id => [update id item]
    end) [] changes.

(** ** Diff *)

Section diff.
Context `{!LoUniqBy, !Mb0Diff} {T : Type} (getID : T → string).
Implicit Types (A B R : list T) (D : gset string).

Definition subslice (l : list T) (a n : nat) : list T := take n (drop a l).

Definition MixedInput_Equal A B (a b : nat) : bool :=
  match A !! a, B !! b with
  | Some x, Some y => bool_decide (getID x = getID y)
  | _, _ => false
  end.

Definition flush (oneCh : option (Change T)) (result : list (Change T)) : list (Change T) :=
  match oneCh with
  | Some c => if bool_decide (0 < Change_Len oneCh) then result ++ [c] else result
  | None => result
  end.

Fixpoint diff_inserts (inserts : list T) (afterID : string) (oneCh : option (Change T))
    (delMap : gset string) (result : list (Change T)) : list (Change T) * gset string :=
  match inserts with
  | [] => (flush oneCh result, delMap)
  | it :: inserts =>
      let id := getID it in
      if bool_decide (id ∈ delMap) then
        let '(mv, result) :=
          match oneCh with
          | Some (ChangeMove ids a) => (ChangeMove (ids ++ [id]) a, result)
          | _ => (ChangeMove [id] afterID, flush oneCh result)
          end in
        diff_inserts inserts id (Some mv) (delMap ∖ {[id]}) result
      else
        let '(add, result) :=
          match oneCh with
          | Some (ChangeAdd items a) => (ChangeAdd (items ++ [it]) a, result)
          | _ => (ChangeAdd [it] afterID, flush oneCh result)
          end in
        diff_inserts inserts id (Some add) delMap result
  end.

Definition diff_after A (c : EditChange) : string :=
  if bool_decide (0 < eA c) then from_option getID "" (A !! (eA c - 1)) else "".

Definition diff_change A B (st : list (Change T) * gset string) (c : EditChange) :
    list (Change T) * gset string :=
  if bool_decide (eIns c ≤ 0) then st
  else diff_inserts (subslice B (eB c) (eIns c)) (diff_after A c) None st.2 st.1.

Definition diff_deleted A (changes : list EditChange) : gset string :=
  foldl (λ D c, if bool_decide (eDel c ≤ 0) then D
                else foldl (λ D it, {[getID it]} ∪ D) D (subslice A (eA c) (eDel c)))
        ∅ changes.

Definition diff_replaces (equal : T → T → bool) A B : list (Change T) :=
  let changedMap : gmap string T := foldl (λ m c, <[getID c := c]> m) ∅ B in
  foldl (λ result c,
           match changedMap !! getID c with
           | None => result
           | Some v => if negb (equal c v) then result ++ [ChangeReplace v (getID c)] else result
           end) [] A.

Definition Diff (equal : T → T → bool) (origin changed : list T) : list (Change T) :=
  let A := lo_UniqBy getID origin in
  let B := lo_UniqBy getID changed in
  let changes := mb0_Diff (length A) (length B) (MixedInput_Equal A B) in
  let '(result, delMap) :=
    foldl (diff_change A B) (diff_replaces equal A B, diff_deleted A changes) changes in
  if bool_decide (0 < size delMap)
  then result ++ [ChangeRemove (go_sort (elements delMap))] else result.

(** ** Apply *)

Definition findPos (s : list T) (id : string) : Z :=
  find_loop (λ sv, bool_decide (getID sv = id)) 0 s.

Definition after_pos (s : list T) (afterID : string) : Z :=
  if bool_decide (afterID ≠ "") then findPos s afterID else (-1)%Z.

Definition apply_change (st : list T * gmap string T) (ch : Change T) :
    option (list T * gmap string T) :=
  let '(res, itemsMap) := st in
  match ch with
  | ChangeAdd items afterID =>
      res ← Insert res (after_pos res afterID + 1) items;
      Some (res, itemsMap)
  | ChangeMove ids afterID =>
      let res := FilterMut res (λ x, bool_decide (FindPos ids (getID x) < 0)%Z) in
      let items := foldl (λ items id,
                      match itemsMap !! id with Some v => items ++ [v] | None => items end) [] ids in
      res ← Insert res (after_pos res afterID + 1) items;
      Some (res, itemsMap)
  | ChangeRemove ids =>
      Some (FilterMut res (λ x, bool_decide (FindPos ids (getID x) < 0)%Z), itemsMap)
  | ChangeReplace item id =>
      let pos := findPos res id in
      Some (if bool_decide (0 ≤ pos < Z.of_nat (length res))%Z
            then <[Z.to_nat pos := item]> res else res,
            <[id := item]> itemsMap)
  end.

Fixpoint apply_changes (st : list T * gmap string T) (changes : list (Change T)) :
    option (list T * gmap string T) :=
  match changes with
  | [] => Some st
  | ch :: changes => st ← apply_change st ch; apply_changes st changes
  end.

Definition ApplyChanges (origin : list T) (changes : list (Change T)) : option (list T) :=
  let itemsMap : gmap string T := foldl (λ m it, <[getID it := it]> m) ∅ origin in
  fst <$> apply_changes (lo_UniqBy getID origin, itemsMap) changes.
End diff.

(** ** Replaying insertions

    [live D R] is the part of [R] that is not waiting for its deletion. *)

Section replay.
Context {T : Type} (getID : T → string).
Implicit Types (R items : list T) (D : gset string) (M : gmap string T).

Notation ids := (fmap (M := list) getID).
Notation live D R := (filter (λ x : T, getID x ∉ D) R).

Lemma split_unique (l r l' r' : list string) a :
  NoDup (l ++ a :: r) → l ++ a :: r = l' ++ a :: r' → l = l' ∧ r = r'.
Proof.
  revert l'. induction l as [|x l IH]; intros [|y l'] Hn E; simplify_eq/=.
  - done.
  - apply NoDup_cons in Hn as [Hn _]. set_solver.
  - apply NoDup_cons in Hn as [Hn _]. set_solver.
  - apply NoDup_cons in Hn as [_ Hn]. destruct (IH l' Hn) as [-> ->]; done.
Qed.

Lemma findPos_split R id :
  id ∈ ids R → ∃ l x r, R = l ++ x :: r ∧ getID x = id ∧ findPos getID R id = Z.of_nat (length l).
Proof.
  intros Hin. destruct (find_loop_spec (λ sv, bool_decide (getID sv = id)) 0 R)
    as [Hf|(l & x & r & -> & Hx & _ & Hf)].
  - apply list_elem_of_fmap in Hin as (x & -> & Hx). apply Hf in Hx.
    by rewrite bool_decide_eq_false in Hx.
  - apply bool_decide_eq_true in Hx. by exists l, x, r.
Qed.

Lemma ids_live_elem_of D R i : i ∈ ids (live D R) ↔ i ∈ ids R ∧ i ∉ D.
Proof. rewrite !list_elem_of_fmap. setoid_rewrite list_elem_of_filter. naive_solver. Qed.

Lemma NoDup_ids_filter (P : T → Prop) `{∀ x, Decision (P x)} R :
  NoDup (ids R) → NoDup (ids (filter P R)).
Proof.
  intros Hn. eapply sublist_NoDup; [done|]. apply fmap_sublist, sublist_filter.
Qed.

(** The anchor of an insertion point after the ids [p]. *)
Definition anchor (a : string) (p : list string) : Prop :=
  (p = [] ∧ a = "") ∨ last p = Some a.

Lemma insert_after D R items a p s :
  NoDup (ids R) → "" ∉ ids R → ids (live D R) = p ++ s → anchor a p →
  (∀ i, i ∈ ids items → i ∉ D) →
  ∃ R', Insert R (after_pos getID R a + 1) items = Some R' ∧
        ids (live D R') = p ++ ids items ++ s ∧ R' ≡ₚ items ++ R.
Proof.
  intros Hn He Hl Ha Hi.
  assert (live D items = items) as Hli.
  { apply filter_all. intros x Hx. apply Hi. apply list_elem_of_fmap. eauto. }
  unfold after_pos. destruct Ha as [[-> ->]|(p' & ->)%last_Some].
  - exists (items ++ R). rewrite bool_decide_eq_false_2 by tauto. split_and!.
    + exact (Insert_at [] R items).
    + by rewrite filter_app, fmap_app, Hl, Hli.
    + done.
  - assert (a ∈ ids R) as Hin.
    { apply (proj1 (ids_live_elem_of D R a)). rewrite Hl. set_solver. }
    rewrite bool_decide_eq_true_2 by (intros ->; done).
    destruct (findPos_split R a Hin) as (l & x & r & -> & <- & ->).
    exists (l ++ x :: items ++ r). split_and!.
    + pose proof (Insert_at (l ++ [x]) r items) as HI.
      rewrite length_app, <- !app_assoc in HI. simpl in HI.
      rewrite <- HI. f_equal. lia.
    + assert (getID x ∉ D) as Hx.
      { eapply ids_live_elem_of. rewrite Hl. set_solver. }
      rewrite filter_app, filter_cons_True in Hl |- * by done.
      rewrite filter_app, Hli. rewrite fmap_app, fmap_cons, <- app_assoc in Hl. simpl in Hl.
      assert (NoDup (ids (live D l) ++ getID x :: ids (live D r))) as Hnd.
      { apply (NoDup_ids_filter (λ x, getID x ∉ D)) in Hn.
        by rewrite filter_app, filter_cons_True, fmap_app, fmap_cons in Hn. }
      pose proof (split_unique _ _ _ _ _ Hnd Hl) as [E1 E2].
      rewrite fmap_app, fmap_cons, fmap_app, E1, E2. by rewrite <- app_assoc.
    + rewrite <- Permutation_middle, (Permutation_app_comm l), <- app_assoc.
      by rewrite (Permutation_app_comm r l), Permutation_middle, Permutation_middle.
Qed.

Lemma apply_changes_app st cs1 cs2 :
  apply_changes getID st (cs1 ++ cs2) =
    st' ← apply_changes getID st cs1; apply_changes getID st' cs2.
Proof.
  revert st. induction cs1 as [|c cs1 IH]; intros st; simpl; [done|].
  destruct (apply_change getID st c); simpl; auto.
Qed.

Lemma filter_not_in_ids (q : list string) R :
  FilterMut R (λ x, bool_decide (FindPos q (getID x) < 0)%Z) =
    filter (λ x, getID x ∉ q) R.
Proof.
  rewrite FilterMut_spec. apply list_filter_iff. intros x. rewrite bool_decide_spec.
  pose proof (FindPos_bounds q (getID x)). rewrite <- FindPos_absent. lia.
Qed.

Lemma collect_items M (q : list string) acc :
  (∀ i, i ∈ q → ∃ v, M !! i = Some v ∧ getID v = i) →
  ∃ items, foldl (λ items id, match M !! id with Some v => items ++ [v] | None => items end)
             acc q = acc ++ items ∧ ids items = q ∧
           (∀ v, v ∈ items → ∃ i, M !! i = Some v).
Proof.
  revert acc. induction q as [|i q IH]; intros acc Hq; simpl.
  { exists []. rewrite app_nil_r. set_solver. }
  destruct (Hq i) as (v & Hv & <-); [by left|]. rewrite Hv.
  destruct (IH (acc ++ [v])) as (items & -> & <- & Hi); [intros j Hj; apply Hq; by right|].
  exists (v :: items). rewrite <- app_assoc. split_and!; [done..|].
  intros w [->|Hw]%elem_of_cons; eauto.
Qed.

(** [sim] relates a replayed element to the element of the target [B] with
    the same id. *)
Context (B : list T) (sim : T → T → Prop) (sim_refl : ∀ x y, x ∈ B → y ∈ B → getID x = getID y → sim x y).

Record good D R M (p s : list string) : Prop := {
  good_nodup : NoDup (ids R);
  good_ne : "" ∉ ids R;
  good_live : ids (live D R) = p ++ s;
  good_vals : ∀ r b, r ∈ R → b ∈ B → getID r = getID b → sim r b;
  good_items : ∀ i v, M !! i = Some v → getID v = i ∧ ∀ b, b ∈ B → getID b = i → sim v b;
  good_dels : ∀ i, i ∈ D → i ∈ ids B → is_Some (M !! i);
}.

Lemma good_elem_of D R M p s i : good D R M p s → i ∈ ids R → i ∈ p ++ s ∨ i ∈ D.
Proof.
  intros Hg Hi. destruct (decide (i ∈ D)) as [?|Hd]; [by right|left].
  rewrite <- (good_live _ _ _ _ _ Hg). by apply ids_live_elem_of.
Qed.

Lemma add_run D R M p s items a :
  good D R M p s → anchor a p → items ⊆ B → NoDup (ids items) → "" ∉ ids items →
  (∀ i, i ∈ ids items → i ∉ ids R ∧ i ∉ D) →
  ∃ R', apply_change getID (R, M) (ChangeAdd items a) = Some (R', M) ∧
        good D R' M (p ++ ids items) s.
Proof.
  intros Hg Ha HB Hn He Hf. pose proof Hg as [H1 H2 H3 H4 H5 H6].
  destruct (insert_after D R items a p s) as (R' & HI & Hl & Hp); try done; [naive_solver|].
  exists R'. simpl. rewrite HI. split; [done|]. split; try done.
  - rewrite Hp, fmap_app. apply NoDup_app. split_and!; naive_solver.
  - rewrite Hp. set_solver.
  - by rewrite Hl, <- app_assoc.
  - intros r b. rewrite Hp, elem_of_app. intros [Hr|Hr]; auto.
Qed.

Lemma move_run D R M p s (q : list string) a :
  good (D ∪ list_to_set q) R M p s → anchor a p → NoDup q → "" ∉ q →
  (∀ i, i ∈ q → i ∉ D) → q ⊆ ids B →
  ∃ R', apply_change getID (R, M) (ChangeMove q a) = Some (R', M) ∧
        good D R' M (p ++ q) s.
Proof.
  intros [H1 H2 H3 H4 H5 H6] Ha Hn He Hq HqB. simpl. rewrite filter_not_in_ids.
  destruct (collect_items M q []) as (items & -> & Hids & Hit).
  { intros i Hi. destruct (H6 i) as [v Hv]; [set_solver|by apply HqB|]. exists v. naive_solver. }
  set (R1 := filter (λ x, getID x ∉ q) R). simpl.
  assert (NoDup (ids R1)) as Hn1 by by apply NoDup_ids_filter.
  assert (∀ i, i ∈ ids R1 → i ∈ ids R ∧ i ∉ q) as Hin1.
  { intros i (x & -> & [??]%list_elem_of_filter)%list_elem_of_fmap.
    split; [apply list_elem_of_fmap; eauto|done]. }
  destruct (insert_after D R1 items a p s) as (R' & HI & Hl & Hp); try done.
  - intros Hc. by apply Hin1 in Hc as [? _].
  - rewrite <- H3. f_equal. unfold R1. rewrite list_filter_filter.
    apply list_filter_iff. set_solver.
  - rewrite Hids. auto.
  - exists R'. rewrite HI. simpl. split; [done|]. rewrite Hids in Hl. split.
    + rewrite Hp, fmap_app, Hids. apply NoDup_app. split_and!; naive_solver.
    + rewrite Hp, fmap_app, Hids, not_elem_of_app. split; [done|].
      intros Hc. by apply Hin1 in Hc as [? _].
    + by rewrite Hl, <- app_assoc.
    + intros r b. rewrite Hp, elem_of_app. intros [Hr|Hr] Hb E.
      * destruct (Hit r Hr) as [i Hi]. destruct (H5 i r Hi) as [<- Hs]. auto.
      * apply list_elem_of_filter in Hr as [_ Hr]. auto.
    + done.
    + intros i Hi. apply H6. set_solver.
Qed.

(** The run that the loop is collecting: its items [q] have been consumed but
    not replayed. *)
Inductive pending D R M (p s : list string) : option (Change T) → list T → string → Prop :=
| pending_none a : good D R M p s → anchor a p → pending D R M p s None [] a
| pending_move q a a' :
    good (D ∪ list_to_set (ids q)) R M p s → anchor a p →
    last (ids q) = Some a' → q ⊆ B → (∀ i, i ∈ ids q → i ∉ D) →
    pending D R M p s (Some (ChangeMove (ids q) a)) q a'
| pending_add q a a' :
    good D R M p s → anchor a p →
    last (ids q) = Some a' → q ⊆ B → (∀ i, i ∈ ids q → i ∉ D) →
    pending D R M p s (Some (ChangeAdd q a)) q a'.

Lemma anchor_last p q a : last q = Some a → anchor a (p ++ q).
Proof. intros Hq. right. by rewrite last_app, Hq. Qed.

Lemma flush_ok st0 result D R M p s oneCh q a :
  apply_changes getID st0 result = Some (R, M) →
  pending D R M p s oneCh q a → NoDup (p ++ ids q ++ s) → "" ∉ ids q →
  ∃ R', apply_changes getID st0 (flush oneCh result) = Some (R', M) ∧
        good D R' M (p ++ ids q) s ∧ anchor a (p ++ ids q).
Proof.
  intros Hap Hpe Hnd Hne. apply NoDup_app in Hnd as (_ & Hpq & [Hq [Hqs _]]%NoDup_app).
  destruct Hpe as [a Hg Ha|q a a' Hg Ha Hl HB Hd|q a a' Hg Ha Hl HB Hd].
  - exists R. simpl. rewrite app_nil_r. eauto.
  - destruct (move_run D R M p s (ids q) a) as (R' & HR & Hg'); try done.
    { intros i (x & -> & Hx)%list_elem_of_fmap. by apply list_elem_of_fmap_2, HB. }
    exists R'. split_and!; [|done|by apply anchor_last].
    unfold flush. rewrite bool_decide_eq_true_2, apply_changes_app, Hap; cbn -[apply_change]; [by rewrite HR|].
    destruct q; simpl in *; [done|lia].
  - destruct (add_run D R M p s q a) as (R' & HR & Hg'); try done.
    { intros i Hi. split; [|auto]. intros HiR.
      destruct (good_elem_of _ _ _ _ _ _ Hg HiR) as [Hps|?]; [|by eapply Hd].
      apply elem_of_app in Hps as [Hps|Hps]; [|by eapply Hqs].
      eapply Hpq; [done|]. set_solver. }
    exists R'. split_and!; [|done|by apply anchor_last].
    unfold flush. rewrite bool_decide_eq_true_2, apply_changes_app, Hap; cbn -[apply_change]; [by rewrite HR|].
    destruct q; simpl in *; [done|lia].
Qed.

Lemma pending_single_move D R M p s id it :
  good D R M p s → id ∈ D → it ∈ B → getID it = id → ∀ a, anchor a p →
  pending (D ∖ {[id]}) R M p s (Some (ChangeMove [id] a)) [it] id.
Proof.
  intros Hg Hid HB <- a Ha. apply (pending_move _ _ _ _ _ [it]); [|done|done|set_solver|set_solver].
  simpl. replace (D ∖ {[getID it]} ∪ ({[getID it]} ∪ ∅)) with D; [done|].
  apply set_eq. intros i. destruct (decide (i = getID it)); set_solver.
Qed.

Lemma pending_snoc_move D R M p s ids0 a q it a' :
  pending D R M p s (Some (ChangeMove ids0 a)) q a' → getID it ∈ D → it ∈ B →
  pending (D ∖ {[getID it]}) R M p s (Some (ChangeMove (ids0 ++ [getID it]) a)) (q ++ [it]) (getID it).
Proof.
  intros Hp Hid HitB. inversion Hp as [|q' a1 a2 Hg Ha Hl HB Hd|]; subst.
  replace (ids q ++ [getID it]) with (ids (q ++ [it])) by by rewrite fmap_app.
  apply pending_move; [|done|rewrite fmap_app; apply last_snoc|set_solver|].
  - replace (D ∖ {[getID it]} ∪ list_to_set (ids (q ++ [it])))
      with (D ∪ list_to_set (ids q)); [done|].
    rewrite fmap_app, list_to_set_app_L. simpl.
    apply set_eq. intros i. destruct (decide (i = getID it)); set_solver.
  - rewrite fmap_app. intros i [Hi|Hi]%elem_of_app; set_solver.
Qed.

Lemma diff_inserts_ok st0 inserts result oneCh D R M p s q a :
  apply_changes getID st0 result = Some (R, M) →
  pending D R M p s oneCh q a → inserts ⊆ B →
  NoDup (p ++ ids q ++ ids inserts ++ s) → "" ∉ ids (q ++ inserts) →
  ∃ R' result' D', diff_inserts getID inserts a oneCh D result = (result', D') ∧
    apply_changes getID st0 result' = Some (R', M) ∧
    good D' R' M (p ++ ids q ++ ids inserts) s.
Proof.
  revert result oneCh D R p q a. induction inserts as [|it inserts IH];
    intros result oneCh D R p q a Hap Hpe HB Hnd Hne; simpl.
  { destruct (flush_ok st0 result D R M p s oneCh q a) as (R' & ? & ? & ?); try done.
    { rewrite app_nil_r in Hne. done. }
    exists R', (flush oneCh result), D. rewrite !app_nil_r. done. }
  assert (flush_first : ∃ R1, apply_changes getID st0 (flush oneCh result) = Some (R1, M) ∧
      good D R1 M (p ++ ids q) s ∧ anchor a (p ++ ids q)).
  { eapply flush_ok; [done..| |].
    - eapply sublist_NoDup; [exact Hnd|]. apply sublist_app; [done|].
      apply sublist_app; [done|]. by apply sublist_inserts_l.
    - rewrite fmap_app in Hne. set_solver. }
  destruct flush_first as (R1 & Hap1 & Hg1 & Ha1).
  assert (Hnd1 : NoDup ((p ++ ids q) ++ ids [it] ++ ids inserts ++ s))
    by by rewrite <- app_assoc.
  assert (Hit : it ∈ B) by set_solver. assert (HB' : inserts ⊆ B) by set_solver.
  assert (Hne1 : "" ∉ ids ([it] ++ inserts)) by (rewrite fmap_app in Hne; set_solver).
  assert (Happ : p ++ ids q ++ getID it :: ids inserts = (p ++ ids q) ++ ids [it] ++ ids inserts)
    by by rewrite <- app_assoc.
  case_bool_decide as Hin.
  - assert (Hs : pending (D ∖ {[getID it]}) R1 M (p ++ ids q) s
        (Some (ChangeMove [getID it] a)) [it] (getID it)).
    { by eapply pending_single_move. }
    destruct (IH _ _ _ _ _ _ _ Hap1 Hs HB' Hnd1 Hne1) as (R' & r' & D' & E & ? & ?).
    rewrite <- Happ in *.
    destruct oneCh as [[]|]; cbv beta iota zeta; try by exists R', r', D'.
    clear dependent R' r' D'.
    pose proof (pending_snoc_move _ _ _ _ _ _ _ _ it _ Hpe Hin Hit) as Hm.
    destruct (IH _ _ _ _ _ _ _ Hap Hm HB') as (R' & r' & D' & -> & ? & Hg).
    + by rewrite fmap_app, <- app_assoc.
    + by rewrite <- app_assoc.
    + exists R', r', D'. rewrite fmap_app, <- app_assoc in Hg. done.
  - assert (Hs : pending D R1 M (p ++ ids q) s (Some (ChangeAdd [it] a)) [it] (getID it)).
    { apply pending_add; [done..|set_solver|set_solver]. }
    destruct (IH _ _ _ _ _ _ _ Hap1 Hs HB' Hnd1 Hne1) as (R' & r' & D' & E & ? & ?).
    rewrite <- Happ in *.
    destruct oneCh as [[]|]; cbv beta iota zeta; try by exists R', r', D'.
    clear dependent R' r' D'.
    inversion Hpe as [| |q' a1 a2 Hg Ha Hl HqB Hd]; subst.
    assert (Hm : pending D R M p s (Some (ChangeAdd (q ++ [it]) AfterID)) (q ++ [it]) (getID it)).
    { apply pending_add; [done|done|rewrite fmap_app; apply last_snoc|set_solver|].
      rewrite fmap_app. set_solver. }
    destruct (IH _ _ _ _ _ _ _ Hap Hm HB') as (R' & r' & D' & -> & ? & Hg').
    + by rewrite fmap_app, <- app_assoc.
    + by rewrite <- app_assoc.
    + exists R', r', D'. rewrite fmap_app, <- app_assoc in Hg'. done.
Qed.
End replay.

(** ** Edit scripts as segments *)

Inductive seg (T : Type) : Type :=
| SKeep (a b : T)
| SEdit (dels ins : list T).
Arguments SKeep {T} _ _.
Arguments SEdit {T} _ _.

Section segments.
Context {T : Type} (getID : T → string).
Implicit Types (sg : seg T) (segs : list (seg T)).
Notation ids := (fmap (M := list) getID).

Fixpoint aside segs : list T :=
  match segs with
  | [] => []
  | SKeep a _ :: segs => a :: aside segs
  | SEdit d _ :: segs => d ++ aside segs
  end.
Fixpoint bside segs : list T :=
  match segs with
  | [] => []
  | SKeep _ b :: segs => b :: bside segs
  | SEdit _ i :: segs => i ++ bside segs
  end.
Fixpoint keepb segs : list T :=
  match segs with
  | [] => []
  | SKeep _ b :: segs => b :: keepb segs
  | SEdit _ _ :: segs => keepb segs
  end.
Fixpoint dels segs : list T :=
  match segs with
  | [] => []
  | SKeep _ _ :: segs => dels segs
  | SEdit d _ :: segs => d ++ dels segs
  end.

Fixpoint seg_changes (x y : nat) segs : list EditChange :=
  match segs with
  | [] => []
  | SKeep _ _ :: segs => seg_changes (S x) (S y) segs
  | SEdit d i :: segs =>
      {| eA := x; eB := y; eDel := length d; eIns := length i |}
      :: seg_changes (x + length d) (y + length i) segs
  end.

Definition seg_ok sg : Prop :=
  match sg with SKeep a b => getID a = getID b | SEdit _ _ => True end.

Fixpoint alternating (b : bool) segs : Prop :=
  match segs with
  | [] => True
  | SKeep _ _ :: segs => alternating true segs
  | SEdit _ _ :: segs => b = true ∧ alternating false segs
  end.

Lemma script_segs (A B : list T) b x y cs :
  edit_script (MixedInput_Equal getID A B) (length A) (length B) b x y cs →
  ∃ segs, drop x A = aside segs ∧ drop y B = bside segs ∧ cs = seg_changes x y segs ∧
          Forall seg_ok segs ∧ alternating b segs.
Proof.
  induction 1 as [b|b x y cs Hx Hy He _ (segs & EA & EB & -> & Hok & Hal)
                 |x y d i cs Hx Hy _ (segs & EA & EB & -> & Hok & Hal)].
  - exists []. rewrite !drop_all. done.
  - unfold MixedInput_Equal in He.
    destruct (A !! x) as [xa|] eqn:HA; [|done]. destruct (B !! y) as [yb|] eqn:HB; [|done].
    apply bool_decide_eq_true in He. exists (SKeep xa yb :: segs).
    rewrite (drop_S _ _ _ HA), (drop_S _ _ _ HB), EA, EB. by repeat constructor.
  - exists (SEdit (take d (drop x A)) (take i (drop y B)) :: segs). split_and!.
    + simpl. by rewrite <- EA, <- drop_drop, take_drop.
    + simpl. by rewrite <- EB, <- drop_drop, take_drop.
    + simpl. rewrite !length_take, !length_drop, !Nat.min_l by lia. done.
    + by constructor.
    + done.
Qed.

Lemma aside_perm segs : Forall seg_ok segs → ids (aside segs) ≡ₚ ids (keepb segs) ++ ids (dels segs).
Proof.
  induction 1 as [|[a b|d i] segs Hok _ IH]; simpl in *; [done|..].
  - rewrite Hok. by rewrite IH.
  - rewrite !fmap_app, IH. by rewrite !(assoc_L (++)), (Permutation_app_comm (ids d)).
Qed.

Lemma keepb_sublist segs : keepb segs `sublist_of` bside segs.
Proof.
  induction segs as [|[a b|d i] segs IH]; simpl; [done|by constructor|by apply sublist_inserts_l].
Qed.

Lemma aside_live segs (D : gset string) :
  Forall seg_ok segs →
  (∀ i, i ∈ ids (keepb segs) → i ∉ D) → (∀ i, i ∈ ids (dels segs) → i ∈ D) →
  filter (λ i, i ∉ D) (ids (aside segs)) = ids (keepb segs).
Proof.
  induction 1 as [|[a b|d i] segs Hok _ IH]; intros Hk Hd; simpl in *; [done|..].
  - rewrite filter_cons_True by (rewrite Hok; apply Hk; by left).
    rewrite Hok. f_equal. apply IH; [|done]. intros j Hj. apply Hk. by right.
  - rewrite fmap_app in Hd |- *. rewrite filter_app, filter_none.
    + apply IH; [done|]. set_solver.
    + set_solver.
Qed.

Lemma seg_deleted A A1 segs (D : gset string) i y :
  A = A1 ++ aside segs →
  i ∈ foldl (λ D c, if bool_decide (eDel c ≤ 0) then D
               else foldl (λ D it, {[getID it]} ∪ D) D (subslice A (eA c) (eDel c)))
        D (seg_changes (length A1) y segs)
  ↔ i ∈ ids (dels segs) ∨ i ∈ D.
Proof.
  revert A1 D y. induction segs as [|[a b|d ins] segs IH]; intros A1 D y HA; simpl.
  { set_solver. }
  - replace (S (length A1)) with (length (A1 ++ [a])) by (rewrite length_app; simpl; lia).
    rewrite IH; [done|]. by rewrite <- app_assoc.
  - replace (length A1 + length d) with (length (A1 ++ d)) by by rewrite length_app.
    rewrite IH by by rewrite <- app_assoc.
    rewrite fmap_app.
    case_bool_decide as Hd; [destruct d; simpl in *; [set_solver|lia]|].
    assert (subslice A (length A1) (length d) = d) as ->.
    { unfold subslice. rewrite HA, drop_app_length.
      simpl. by rewrite take_app_length. }
    assert (∀ E : gset string, i ∈ foldl (λ D it, {[getID it]} ∪ D) E d ↔ i ∈ ids d ∨ i ∈ E) as ->.
    { clear. induction d as [|x d IH]; intros E; simpl; [set_solver|]. rewrite IH. set_solver. }
    set_solver.
Qed.
End segments.

(** ** Round trip *)

Section roundtrip.
Context `{!LoUniqBy, !LoUniqByOk, !Mb0Diff, !Mb0DiffOk}.
Context {T : Type} (getID : T → string) (equal : T → T → bool).
Notation ids := (fmap (M := list) getID).

(** What [equal] lets the replay keep. *)
Definition same (r b : T) : Prop := r = b ∨ equal r b = true.

Lemma UniqBy_props (l : list T) :
  NoDup (ids (lo_UniqBy getID l)) ∧ lo_UniqBy getID l ⊆ l ∧
  ∀ i, i ∈ ids (lo_UniqBy getID l) ↔ i ∈ ids l.
Proof.
  induction l as [l IH] using (well_founded_induction (Wf_nat.well_founded_ltof _ length)).
  destruct l as [|x l]; [rewrite UniqBy_nil; by repeat constructor|].
  rewrite UniqBy_cons. destruct (IH (filter (λ y, getID y ≠ getID x) l)) as (Hn & Hs & Hi).
  { unfold Wf_nat.ltof. simpl. pose proof (length_filter (λ y, getID y ≠ getID x) l). lia. }
  split_and!.
  - simpl. constructor; [|done]. rewrite Hi. intros (y & ? & [? _]%list_elem_of_filter)%list_elem_of_fmap.
    congruence.
  - intros y [->|Hy]%elem_of_cons; [by left|right].
    by apply Hs, list_elem_of_filter in Hy as [_ ?].
  - intros i. rewrite !fmap_cons, !elem_of_cons, Hi, !list_elem_of_fmap.
    setoid_rewrite list_elem_of_filter. split; [naive_solver|].
    intros [?|(y & -> & Hy)]; [by left|].
    destruct (decide (getID y = getID x)); [by left|right; eauto].
Qed.

Lemma foldl_items_lookup (l : list T) (M : gmap string T) c :
  (∀ x y, x ∈ l → y ∈ l → getID x = getID y → x = y) → c ∈ l →
  foldl (λ m it, <[getID it := it]> m) M l !! getID c = Some c.
Proof.
  revert M. induction l as [|x l IH]; intros M Hc Hin; simpl; [by apply elem_of_nil in Hin|].
  destruct (decide (getID c ∈ ids l)) as [(y & E & Hy)%list_elem_of_fmap|Hl].
  { assert (c = y) as -> by (apply Hc; [done|by right|done]).
    apply IH; [|done]. intros z z' Hz Hz'. apply Hc; by right. }
  apply elem_of_cons in Hin as [->|Hin]; [|by destruct Hl; apply list_elem_of_fmap_2].
  assert (∀ y, y ∈ l → getID y ≠ getID x) as Hne.
  { intros y Hy E. apply Hl. rewrite <- E. by apply list_elem_of_fmap_2. }
  clear -Hne. assert (∀ m : gmap string T, m !! getID x = Some x →
    foldl (λ m it, <[getID it := it]> m) m l !! getID x = Some x) as Hg.
  { induction l as [|y l IH]; intros m Hm; simpl; [done|].
    apply IH; [intros z Hz; apply Hne; by right|].
    rewrite lookup_insert_ne; [done|]. apply Hne. by left. }
  apply Hg, lookup_insert_eq.
Qed.

Lemma foldl_items_Some (l : list T) (M : gmap string T) i v :
  foldl (λ m it, <[getID it := it]> m) M l !! i = Some v →
  (v ∈ l ∧ getID v = i) ∨ M !! i = Some v.
Proof.
  revert M. induction l as [|x l IH]; intros M; simpl; [by right|].
  intros [[? ?]|Hi]%IH; [left; split; [by right|done]|].
  apply lookup_insert_Some in Hi as [[<- <-]|[_ ?]]; [left; split; [by left|done]|by right].
Qed.

(** *** The replacement phase *)

Definition upd (CM : gmap string T) (c : T) : T :=
  match CM !! getID c with Some v => if equal c v then c else v | None => c end.
Definition rep (CM : gmap string T) (c : T) : list (Change T) :=
  match CM !! getID c with
  | Some v => if equal c v then [] else [ChangeReplace v (getID c)]
  | None => []
  end.

Lemma diff_replaces_rep A B :
  diff_replaces getID equal A B =
    flat_map (rep (foldl (λ m c, <[getID c := c]> m) ∅ B)) A.
Proof.
  unfold diff_replaces. set (CM := foldl _ ∅ B).
  enough (∀ acc, foldl (λ result c, match CM !! getID c with
      | None => result
      | Some v => if negb (equal c v) then result ++ [ChangeReplace v (getID c)] else result
      end) acc A = acc ++ flat_map (rep CM) A) as -> by done.
  induction A as [|c A IH]; intros acc; simpl; [by rewrite app_nil_r|].
  rewrite IH. unfold rep at 2. destruct (CM !! getID c) as [v|]; [|done].
  destruct (equal c v); simpl; [done|]. by rewrite <- app_assoc.
Qed.

Lemma replace_one (CM : gmap string T) A1 A2 c v (M : gmap string T) :
  (∀ x, getID (upd CM x) = getID x) → NoDup (ids (A1 ++ c :: A2)) →
  ∃ M1, apply_changes getID (map (upd CM) A1 ++ c :: A2, M) [ChangeReplace v (getID c)]
          = Some (map (upd CM) A1 ++ v :: A2, M1) ∧
        M1 !! getID c = Some v ∧ ∀ i, i ≠ getID c → M1 !! i = M !! i.
Proof.
  intros Hid Hnd. exists (<[getID c := v]> M). simpl.
  assert (findPos getID (map (upd CM) A1 ++ c :: A2) (getID c) = Z.of_nat (length A1)) as ->.
  { assert (getID c ∈ ids (map (upd CM) A1 ++ c :: A2)) as Hin by (rewrite fmap_app; set_solver).
    destruct (findPos_split getID _ _ Hin) as (l & x & r & El & Ex & ->). f_equal.
    assert (ids l ++ getID x :: ids r = ids A1 ++ getID c :: ids A2) as E.
    { rewrite <- fmap_cons, <- fmap_app, <- El, fmap_app, fmap_cons. f_equal.
      clear -Hid. induction A1 as [|y A1 IH]; [done|]. simpl. f_equal; [apply Hid|exact IH]. }
    rewrite Ex in E. 
    assert (NoDup (ids l ++ getID c :: ids r)) as Hnl
      by (rewrite E; by rewrite fmap_app, fmap_cons in Hnd).
    destruct (split_unique _ _ _ _ _ Hnl E) as [E1 _].
    apply (f_equal length) in E1. by rewrite !length_fmap in E1. }
  rewrite bool_decide_eq_true_2 by (rewrite length_app, length_map; simpl; lia).
  rewrite Nat2Z.id. split_and!.
  - f_equal. f_equal. rewrite insert_app_r_alt by (by rewrite length_map).
    by rewrite length_map, Nat.sub_diag.
  - apply lookup_insert_eq.
  - intros i Hi. by apply lookup_insert_ne.
Qed.

Lemma replaces_ok (CM : gmap string T) A1 A2 (M : gmap string T) :
  (∀ i v, CM !! i = Some v → getID v = i) →
  NoDup (ids (A1 ++ A2)) →
  (∀ c, c ∈ A1 → M !! getID c = Some (upd CM c)) →
  (∀ c, c ∈ A2 → M !! getID c = Some c) →
  (∀ i, i ∉ ids (A1 ++ A2) → M !! i = None) →
  ∃ M', apply_changes getID (map (upd CM) A1 ++ A2, M) (flat_map (rep CM) A2)
          = Some (map (upd CM) (A1 ++ A2), M') ∧
        (∀ c, c ∈ A1 ++ A2 → M' !! getID c = Some (upd CM c)) ∧
        (∀ i, i ∉ ids (A1 ++ A2) → M' !! i = None).
Proof.
  intros HCM. revert A1 M. induction A2 as [|c A2 IH]; intros A1 M Hnd K1 K2 K3.
  { exists M. rewrite !app_nil_r in *. done. }
  assert (Hid : ∀ x, getID (upd CM x) = getID x).
  { intros x. unfold upd. destruct (CM !! getID x) eqn:E; [|done]. case_match; eauto. }
  assert (Hnotin : getID c ∉ ids A1 ∧ getID c ∉ ids A2).
  { rewrite fmap_app, fmap_cons in Hnd. apply NoDup_app in Hnd as (_ & Hd & [? _]%NoDup_cons).
    split; [|done]. intros Hc. eapply Hd; [done|by left]. }
  assert (Happ : A1 ++ c :: A2 = (A1 ++ [c]) ++ A2) by by rewrite <- app_assoc.
  enough (∃ M1, apply_changes getID (map (upd CM) A1 ++ c :: A2, M) (rep CM c)
            = Some (map (upd CM) (A1 ++ [c]) ++ A2, M1) ∧
            M1 !! getID c = Some (upd CM c) ∧ ∀ i, i ≠ getID c → M1 !! i = M !! i)
    as (M1 & HM1 & Hc & Hother).
  { simpl. rewrite apply_changes_app, HM1. simpl. rewrite Happ in *.
    apply IH; [done|..].
    - intros x [Hx|Hx%list_elem_of_singleton]%elem_of_app; [|by subst].
      rewrite Hother; [auto|]. intros E. apply (proj1 Hnotin). rewrite <- E.
      by apply list_elem_of_fmap_2.
    - intros x Hx. rewrite Hother; [apply K2; by right|]. intros E.
      apply (proj2 Hnotin). rewrite <- E. by apply list_elem_of_fmap_2.
    - intros i Hi. rewrite Hother; [auto|]. intros ->. apply Hi.
      rewrite !fmap_app. set_solver. }
  rewrite map_app, <- app_assoc. simpl. unfold rep.
  destruct (CM !! getID c) as [v|] eqn:Ecm; [destruct (equal c v) eqn:Eeq|].
  - assert (upd CM c = c) as -> by (unfold upd; by rewrite Ecm, Eeq).
    exists M. simpl. split_and!; [done|apply K2; by left|done].
  - assert (upd CM c = v) as -> by (unfold upd; by rewrite Ecm, Eeq).
    by apply replace_one.
  - assert (upd CM c = c) as -> by (unfold upd; by rewrite Ecm).
    exists M. simpl. split_and!; [done|apply K2; by left|done].
Qed.

(** *** The insertion phase *)

Lemma segs_ok B A st0 (M : gmap string T) segs A1 B1 b result (D : gset string) R :
  NoDup (ids B) → "" ∉ ids B →
  (∀ x y, x ∈ B → y ∈ B → getID x = getID y → same x y) →
  A = A1 ++ aside segs → B = B1 ++ bside segs → Forall (seg_ok getID) segs → alternating b segs →
  (b = true → (A1 = [] ∧ B1 = []) ∨
     ∃ a' b', last A1 = Some a' ∧ last B1 = Some b' ∧ getID a' = getID b') →
  apply_changes getID st0 result = Some (R, M) →
  good getID B same D R M (ids B1) (ids (keepb segs)) →
  ∃ R' r' D', foldl (diff_change getID A B) (result, D)
                 (seg_changes (length A1) (length B1) segs) = (r', D') ∧
    apply_changes getID st0 r' = Some (R', M) ∧ good getID B same D' R' M (ids B) [].
Proof.
  intros HnB HeB Hsim. revert A1 B1 b result D R.
  induction segs as [|[a' b'|d i] segs IH]; intros A1 B1 b result D R HA HB Hok Hal Hb Hap Hg; simpl in *.
  - rewrite app_nil_r in HB. subst B1. by exists R, result, D.
  - inversion Hok as [|? ? Hid Hok']; subst.
    destruct (IH (A1 ++ [a']) (B1 ++ [b']) true result D R) as (R' & r' & D' & E & ?).
    + by rewrite <- app_assoc.
    + by rewrite <- app_assoc.
    + done.
    + done.
    + intros _. right. exists a', b'. by rewrite !last_snoc.
    + done.
    + rewrite fmap_app. destruct Hg. split; try done. by rewrite <- app_assoc.
    + exists R', r', D'. rewrite !length_app, !Nat.add_1_r in E. done.
  - inversion Hok as [|? ? _ Hok']; subst. destruct Hal as [-> Hal].
    assert (Hnext : ∀ D1 R1 r1, apply_changes getID st0 r1 = Some (R1, M) →
        good getID (B1 ++ i ++ bside segs) same D1 R1 M (ids B1 ++ ids i) (ids (keepb segs)) →
        ∃ R' r' D', foldl (diff_change getID (A1 ++ d ++ aside segs) (B1 ++ i ++ bside segs)) (r1, D1)
           (seg_changes (length A1 + length d) (length B1 + length i) segs) = (r', D') ∧
          apply_changes getID st0 r' = Some (R', M) ∧
          good getID (B1 ++ i ++ bside segs) same D' R' M (ids (B1 ++ i ++ bside segs)) []).
    { intros D1 R1 r1 Hap1 Hg1. rewrite <- !length_app.
      apply (IH (A1 ++ d) (B1 ++ i) false r1 D1 R1); try done; [by rewrite <- app_assoc..|].
      by rewrite fmap_app. }
    unfold diff_change at 2. simpl. case_bool_decide as Hi.
    { destruct i; simpl in *; [|lia]. apply (Hnext D R result); [done|]. by rewrite app_nil_r. }
    assert (subslice (B1 ++ i ++ bside segs) (length B1) (length i) = i) as ->.
    { unfold subslice. by rewrite drop_app_length, take_app_length. }
    destruct (diff_inserts_ok getID (B1 ++ i ++ bside segs) same Hsim st0 i result None D R M
                (ids B1) (ids (keepb segs)) []
                (diff_after getID (A1 ++ d ++ aside segs)
                   {| eA := length A1; eB := length B1; eDel := length d; eIns := length i |}))
      as (R1 & r1 & D1 & -> & Hap1 & Hg1).
    + done.
    + constructor; [done|]. unfold diff_after, anchor. simpl.
      destruct (Hb eq_refl) as [[-> ->]|(a' & b' & Ha & Hb' & E)]; [left; done|right].
      apply last_Some in Ha as [A1' ->]. apply last_Some in Hb' as [B1' ->].
      rewrite bool_decide_eq_true_2 by (rewrite length_app; simpl; lia).
      rewrite length_app. simpl. replace (length A1' + 1 - 1) with (length A1') by lia.
      rewrite <- (assoc_L (++)), lookup_app_r, Nat.sub_diag by lia. simpl.
      rewrite fmap_app, E. apply last_snoc.
    + set_solver.
    + simpl. rewrite !fmap_app in HnB. eapply sublist_NoDup; [exact HnB|].
      apply sublist_app; [done|]. apply sublist_app; [done|]. apply fmap_sublist, keepb_sublist.
    + rewrite !fmap_app in HeB. set_solver.
    + apply (Hnext D1 R1 r1); done.
Qed.

Lemma same_ids_Forall2 (R B : list T) :
  ids R = ids B → (∀ r b, r ∈ R → b ∈ B → getID r = getID b → same r b) →
  Forall2 (λ r b, getID r = getID b ∧ same r b) R B.
Proof.
  revert B. induction R as [|r R IH]; intros [|b B] E Hs; simplify_eq/=; [done|].
  constructor; [split; [done|apply Hs; [by left|by left|done]]|].
  apply IH; [done|]. intros x y Hx Hy. apply Hs; by right.
Qed.

Lemma ids_live (D : gset string) (R : list T) :
  ids (filter (λ x, getID x ∉ D) R) = filter (λ i, i ∉ D) (ids R).
Proof.
  induction R as [|x R IH]; [done|]. rewrite fmap_cons, !filter_cons.
  case_decide; [rewrite fmap_cons|]; by rewrite IH.
Qed.

Lemma ids_upd (CM : gmap string T) A :
  (∀ x, getID (upd CM x) = getID x) → ids (map (upd CM) A) = ids A.
Proof. intros Hid. induction A as [|y A IH]; [done|]. simpl. f_equal; [apply Hid|exact IH]. Qed.

Lemma remove_ok st0 result (D : gset string) R M B :
  apply_changes getID st0 result = Some (R, M) →
  good getID B same D R M (ids B) [] →
  ∃ R', fst <$> apply_changes getID st0
          (if bool_decide (0 < size D) then result ++ [ChangeRemove (go_sort (elements D))]
           else result) = Some R' ∧ Forall2 (λ r b, getID r = getID b ∧ same r b) R' B.
Proof.
  intros Hap [_ _ Hl Hv _ _]. rewrite app_nil_r in Hl.
  exists (filter (λ x, getID x ∉ D) R). split.
  - case_bool_decide as Hs.
    + rewrite apply_changes_app, Hap. simpl. f_equal. rewrite filter_not_in_ids.
      apply list_filter_iff. intros x. by rewrite go_sort_elem_of, elem_of_elements.
    + rewrite Hap. simpl. f_equal. symmetry. apply filter_all. intros x _.
      assert (D ≡ ∅) as -> by (apply size_empty_inv; lia). set_solver.
  - apply same_ids_Forall2; [done|]. intros r b [_ ?]%list_elem_of_filter. auto.
Qed.

Lemma NoDup_ids_inj (B : list T) :
  NoDup (ids B) → ∀ x y, x ∈ B → y ∈ B → getID x = getID y → x = y.
Proof.
  intros HnB x y [n Hx]%list_elem_of_lookup [k Hy]%list_elem_of_lookup E.
  assert (n = k) as ->; [|by simplify_eq].
  eapply (NoDup_lookup (ids B)); [done|..]; rewrite list_lookup_fmap; [by rewrite Hx|].
  rewrite Hy. simpl. by rewrite E.
Qed.

Lemma deleted_dels A segs i :
  A = aside segs → i ∈ diff_deleted getID A (seg_changes 0 0 segs) ↔ i ∈ ids (dels segs).
Proof.
  intros EA. unfold diff_deleted. rewrite (seg_deleted getID A [] segs ∅ i 0) by done. set_solver.
Qed.

Lemma UniqBy_id (l : list T) : NoDup (ids l) → lo_UniqBy getID l = l.
Proof.
  induction l as [|x l IH]; intros Hn; [apply UniqBy_nil|]. apply NoDup_cons in Hn as [Hx Hn].
  rewrite UniqBy_cons, filter_all; [by rewrite IH|]. intros y Hy E. apply Hx. rewrite <- E.
  by apply list_elem_of_fmap_2.
Qed.

(** The changes may be replayed on a slice that lost elements meanwhile, as long
    as the changed slice has none of those. *)
Lemma Diff_replays (P : T → Prop) `{∀ x, Decision (P x)} (origin origin' changed : list T) :
  "" ∉ ids origin → "" ∉ ids changed →
  (∀ x y, x ∈ origin → y ∈ origin → getID x = getID y → x = y) →
  origin' ⊆ origin → lo_UniqBy getID origin' = filter P (lo_UniqBy getID origin) →
  (∀ x, x ∈ origin → getID x ∈ ids changed → P x) →
  ∃ res, ApplyChanges getID origin' (Diff getID equal origin changed) = Some res ∧
         Forall2 (λ r b, getID r = getID b ∧ same r b) res (lo_UniqBy getID changed).
Proof.
  intros HeO HeC Hcons Hsub HU HP. unfold Diff, ApplyChanges. rewrite HU.
  destruct (UniqBy_props origin) as (HnA & HsA & HiA).
  destruct (UniqBy_props changed) as (HnB & HsB & HiB).
  assert (HsA' : filter P (lo_UniqBy getID origin) ⊆ origin').
  { rewrite <- HU. apply UniqBy_props. }
  assert (HiA' : ∀ i, i ∈ ids origin' → i ∈ ids (filter P (lo_UniqBy getID origin))).
  { intros i. rewrite <- HU. apply UniqBy_props. }
  clear HU.
  set (A := lo_UniqBy getID origin) in *. set (B := lo_UniqBy getID changed) in *.
  set (A' := filter P A) in *.
  assert (HAA' : ∀ c, c ∈ A' ↔ P c ∧ c ∈ A) by (intros c; apply list_elem_of_filter).
  assert (HnA' : NoDup (ids A')) by by apply NoDup_ids_filter.
  pose proof (mb0_Diff_script (length A) (length B) (MixedInput_Equal getID A B)) as Hscr.
  apply script_segs in Hscr as (segs & EA & EB & -> & Hok & Hal).
  rewrite !drop_0 in EA, EB.
  rewrite diff_replaces_rep. set (CM := foldl _ ∅ B).
  set (M0 := foldl _ ∅ origin').
  pose proof (NoDup_ids_inj B HnB) as HBinj.
  assert (HCM : ∀ b, b ∈ B → CM !! getID b = Some b) by (intros b Hb; by apply foldl_items_lookup).
  assert (HCMs : ∀ i v, CM !! i = Some v → getID v = i ∧ i ∈ ids B).
  { intros i v [[Hv <-]|?]%foldl_items_Some; [split; [done|by apply list_elem_of_fmap_2]|by simplify_map_eq]. }
  assert (Hupd : ∀ x, getID (upd CM x) = getID x).
  { intros x. unfold upd. destruct (CM !! getID x) eqn:E; [|done]. case_match; [done|by apply HCMs]. }
  assert (HinP : ∀ c, c ∈ A → getID c ∈ ids B → c ∈ A').
  { intros c Hc Hi. apply HAA'. split; [|done]. apply HP; [by apply HsA|by apply HiB]. }
  assert (flat_map (rep CM) A = flat_map (rep CM) A') as ->.
  { assert (∀ c, c ∈ A → ¬ P c → rep CM c = []) as Hrep.
    { intros c Hc Hn. unfold rep. destruct (CM !! getID c) eqn:E; [|done].
      apply HCMs in E as [_ E]. by apply HinP, HAA' in E as [? _]. }
    clear -Hrep. unfold A'. clearbody A. induction A as [|c A IH]; [done|].
    rewrite filter_cons. case_decide as Hc; simpl; rewrite IH by (intros; apply Hrep; [by right|done]); [done|].
    rewrite Hrep; [done|by left|done]. }
  destruct (replaces_ok CM [] A' M0) as (M & HM & HMA & HMn); try done.
  { intros i v Hv. by apply HCMs. }
  { set_solver. }
  { intros c Hc. apply foldl_items_lookup; [|by apply HsA'].
    intros x y Hx Hy. apply Hcons; by apply Hsub. }
  { intros i Hi. destruct (M0 !! i) as [v|] eqn:E; [|done].
    apply foldl_items_Some in E as [[Hv <-]|?]; [|by simplify_map_eq].
    destruct Hi. apply HiA'. by apply list_elem_of_fmap_2. }
  simpl in HM, HMA, HMn.
  assert (HMs : ∀ i v, M !! i = Some v → ∃ c, c ∈ A' ∧ getID c = i ∧ v = upd CM c).
  { intros i v Hv. destruct (decide (i ∈ ids A')) as [(c & -> & Hc)%list_elem_of_fmap|Hi].
    - exists c. split_and!; [done..|]. rewrite HMA in Hv by done. congruence.
    - rewrite HMn in Hv by done. done. }
  assert (Hsim : ∀ c b, b ∈ B → getID c = getID b → same (upd CM c) b).
  { intros c b Hb E. unfold upd, same. rewrite E, HCM by done.
    destruct (equal c b) eqn:Eq; auto. }
  pose proof (λ i, deleted_dels A segs i EA) as HD.
  pose proof (aside_perm getID segs Hok) as Hperm.
  assert (HkB : ∀ i, i ∈ ids (keepb segs) → i ∈ ids B).
  { intros i Hi. rewrite EB. eapply elem_of_submseteq; [exact Hi|].
    apply sublist_submseteq, fmap_sublist, keepb_sublist. }
  destruct (segs_ok B A (A', M0) M segs [] [] true (flat_map (rep CM) A')
              (diff_deleted getID A (seg_changes 0 0 segs)) (map (upd CM) A'))
    as (R' & r' & D' & E & Hap & Hg); try done.
  - by rewrite HiB.
  - intros x y Hx Hy Exy. left. by apply HBinj.
  - by left.
  - assert (Hdisj : ∀ i, i ∈ ids (keepb segs) → i ∉ ids (dels segs)).
    { intros i Hk Hd. rewrite EA, Hperm in HnA.
      apply NoDup_app in HnA as (_ & Hx & _). by eapply Hx. }
    split.
    + by rewrite ids_upd.
    + rewrite ids_upd by done. intros (c & E & [_ Hc]%HAA')%list_elem_of_fmap. apply HeO. rewrite E.
      by apply list_elem_of_fmap_2, HsA.
    + rewrite ids_live, ids_upd by done. simpl.
      rewrite <- (aside_live getID segs (diff_deleted getID A (seg_changes 0 0 segs)) Hok);
        [|intros i; rewrite HD; auto..].
      replace (ids (aside segs)) with (ids A) by (by rewrite <- EA).
      rewrite <- !ids_live. f_equal. unfold A'. rewrite list_filter_filter. apply filter_ext_elem.
      intros c Hc. split; [tauto|]. intros Hn. enough (P c) by tauto. apply HAA', HinP; [done|]. apply HkB.
      assert (getID c ∈ ids (aside segs)) as Hi by (rewrite <- EA; by apply list_elem_of_fmap_2).
      rewrite Hperm, elem_of_app in Hi. rewrite HD in Hn. tauto.
    + intros r b (c & <- & Hc)%list_elem_of_In%in_map_iff Hb Er. rewrite Hupd in Er. auto.
    + intros i v (c & Hc & <- & ->)%HMs. split; [done|]. auto.
    + intros i Hi HiB'. rewrite HD in Hi.
      assert (i ∈ ids A) as (c & -> & Hc)%list_elem_of_fmap.
      { rewrite EA, Hperm. set_solver. }
      rewrite HMA by by apply HinP. eauto.
  - simpl in E. rewrite E. by apply (remove_ok (A', M0) r' D' R' M B).
Qed.

Lemma Diff_ApplyChanges (origin changed : list T) :
  "" ∉ ids origin → "" ∉ ids changed →
  (∀ x y, x ∈ origin → y ∈ origin → getID x = getID y → x = y) →
  ∃ res, ApplyChanges getID origin (Diff getID equal origin changed) = Some res ∧
         Forall2 (λ r b, getID r = getID b ∧ same r b) res (lo_UniqBy getID changed).
Proof.
  intros HeO HeC Hcons. apply (Diff_replays (λ _, True)); [done..| |done].
  symmetry. by apply filter_all.
Qed.
End roundtrip.

(** ** Instances of the third-party interfaces *)

Module Instances.

Fixpoint uniq_by_fuel {T} (fuel : nat) (key : T → string) (l : list T) : list T :=
  match fuel, l with
  | S fuel, x :: l => x :: uniq_by_fuel fuel key (filter (λ y, key y ≠ key x) l)
  | _, _ => []
  end.

#[local] Instance uniq_by : LoUniqBy := λ T key l, uniq_by_fuel (length l) key l.

Lemma uniq_by_fuel_enough {T} (key : T → string) n m l :
  length l ≤ n → length l ≤ m → uniq_by_fuel n key l = uniq_by_fuel m key l.
Proof.
  revert m l. induction n as [|n IH]; intros [|m] [|x l] Hn Hm; simpl in *; try done; try lia.
  f_equal. pose proof (length_filter (λ y, key y ≠ key x) l). apply IH; lia.
Qed.

#[local] Instance uniq_by_ok : LoUniqByOk.
Proof.
  split; [done|]. intros T key x l. unfold lo_UniqBy, uniq_by. simpl. f_equal.
  apply uniq_by_fuel_enough; [apply length_filter|done].
Qed.

(** The common prefix is kept and the rest is replaced. *)
Fixpoint prefix_diff_loop (fuel x y n m : nat) (eq : nat → nat → bool) : list EditChange :=
  match fuel with
  | O => []
  | S fuel =>
      if bool_decide (x < n ∧ y < m) && eq x y then prefix_diff_loop fuel (S x) (S y) n m eq
      else if bool_decide (x = n ∧ y = m) then []
      else [{| eA := x; eB := y; eDel := n - x; eIns := m - y |}]
  end.

#[local] Instance prefix_diff : Mb0Diff := λ n m eq, prefix_diff_loop (S n) 0 0 n m eq.

Lemma prefix_diff_loop_script fuel x y n m eq :
  x ≤ n → y ≤ m → n - x < fuel →
  edit_script eq n m true x y (prefix_diff_loop fuel x y n m eq).
Proof.
  revert x y. induction fuel as [|fuel IH]; intros x y Hx Hy Hf; simpl; [lia|].
  case_bool_decide as Hxy; simpl; [destruct (eq x y) eqn:E|].
  - constructor; [lia|lia|done|]. apply IH; lia.
  - rewrite bool_decide_eq_false_2 by lia. constructor; [lia..|].
    replace (x + (n - x)) with n by lia. replace (y + (m - y)) with m by lia. constructor.
  - case_bool_decide as Hend; [destruct Hend as [-> ->]; constructor|].
    constructor; [lia..|].
    replace (x + (n - x)) with n by lia. replace (y + (m - y)) with m by lia. constructor.
Qed.

#[local] Instance prefix_diff_ok : Mb0DiffOk.
Proof. intros n m eq. apply prefix_diff_loop_script; lia. Qed.

End Instances.

(** ** Properties *)

(** C12. Replaying the changes that [Diff] computes on the slice they were
    computed for succeeds (no slice index panics) and gives the changed slice:
    the same ids in the same order, every element being the changed one or one
    that [equal] accepts for it; with an [equal] that only accepts identical
    elements the result is exactly the changed slice.  Ids are non-empty, and
    two elements of the original slice with one id are the same element. *)
Theorem Diff_roundtrip `{!LoUniqBy, !LoUniqByOk, !Mb0Diff, !Mb0DiffOk} {T}
    (getID : T → string) (equal : T → T → bool) (origin changed : list T) :
  "" ∉ getID <$> origin → "" ∉ getID <$> changed →
  (∀ x y, x ∈ origin → y ∈ origin → getID x = getID y → x = y) →
  ∃ res, ApplyChanges getID origin (Diff getID equal origin changed) = Some res ∧
    Forall2 (λ r b, getID r = getID b ∧ same equal r b) res (lo_UniqBy getID changed) ∧
    ((∀ x y, equal x y = true → x = y) → res = lo_UniqBy getID changed).
Proof.
  intros HO HC Hcons.
  destruct (Diff_ApplyChanges getID equal origin changed HO HC Hcons) as (res & Hap & Hf).
  exists res. split_and!; [done..|]. intros Heq.
  clear Hap. induction Hf as [|r b R B [_ [->|Es%Heq]] Hf IH]; [done|..]; [by rewrite IH|].
  subst r. by rewrite IH.
Qed.

Section witness.
Import Instances.
#[local] Existing Instances uniq_by uniq_by_ok prefix_diff prefix_diff_ok.

Lemma Diff_roundtrip_witness :
  ∃ res, ApplyChanges (λ x : string, x) ["a"; "b"; "c"]
      (Diff (λ x, x) (λ x y, bool_decide (x = y)) ["a"; "b"; "c"] ["a"; "c"; "d"; "b"]) = Some res ∧
    Forall2 (λ r b, r = b ∧ same (λ x y, bool_decide (x = y)) r b) res
      (lo_UniqBy (λ x, x) ["a"; "c"; "d"; "b"]) ∧
    ((∀ x y : string, bool_decide (x = y) = true → x = y) →
      res = lo_UniqBy (λ x, x) ["a"; "c"; "d"; "b"]).
Proof.
  apply (Diff_roundtrip (λ x, x) (λ x y, bool_decide (x = y))); [set_solver..|done].
Defined.
End witness.
