(* ===== verification/Undo.v ===== *)
(** * Undo history ([core/block/undo/undo.go])

    The bounded undo/redo stack of a document.  Blocks are opaque up to their
    id ([Model().Id]); details, relation links and object types of an action
    are opaque values of which only the presence is tested.  Indexing a slice
    out of range panics in Go and is [None] here; the invariant theorem shows
    that no reachable history panics. *)

From S2P Require Import Prelude.

Section undo.
Context {Blk : Type} (blk_id : Blk → string).
Context {Det Links Types : Type}.

(** ** Data *)

Record BChange := { ch_Before : Blk; ch_After : Blk }.

Record CarriageState := { cs_BlockID : string; cs_RangeFrom : Z; cs_RangeTo : Z }.

Definition zero_carriage : CarriageState :=
  {| cs_BlockID := ""; cs_RangeFrom := 0; cs_RangeTo := 0 |}.

Definition CarriageState_IsEmpty (cs : CarriageState) : bool :=
  bool_decide (cs_BlockID cs = "") && (cs_RangeTo cs =? 0)%Z && (cs_RangeFrom cs =? 0)%Z.

Record CarriageInfo := { ci_Before : CarriageState; ci_After : CarriageState }.

Record Action := {
  ac_Add : list Blk;
  ac_Change : list BChange;
  ac_Remove : list Blk;
  ac_Details : option Det;
  ac_RelationLinks : option Links;
  ac_Group : string;
  ac_ObjectTypes : option Types;
  ac_CarriageInfo : CarriageInfo;
}.

Definition with_Add (a : Action) (add : list Blk) : Action :=
  {| ac_Add := add; ac_Change := ac_Change a; ac_Remove := ac_Remove a;
     ac_Details := ac_Details a; ac_RelationLinks := ac_RelationLinks a;
     ac_Group := ac_Group a; ac_ObjectTypes := ac_ObjectTypes a;
     ac_CarriageInfo := ac_CarriageInfo a |}.

Definition with_Change (a : Action) (ch : list BChange) : Action :=
  {| ac_Add := ac_Add a; ac_Change := ch; ac_Remove := ac_Remove a;
     ac_Details := ac_Details a; ac_RelationLinks := ac_RelationLinks a;
     ac_Group := ac_Group a; ac_ObjectTypes := ac_ObjectTypes a;
     ac_CarriageInfo := ac_CarriageInfo a |}.

Definition with_CarriageInfo (a : Action) (ci : CarriageInfo) : Action :=
  {| ac_Add := ac_Add a; ac_Change := ac_Change a; ac_Remove := ac_Remove a;
     ac_Details := ac_Details a; ac_RelationLinks := ac_RelationLinks a;
     ac_Group := ac_Group a; ac_ObjectTypes := ac_ObjectTypes a;
     ac_CarriageInfo := ci |}.

Definition Action_IsEmpty (a : Action) : bool :=
  (length (ac_Add a) + length (ac_Change a) + length (ac_Remove a) =? 0) &&
  bool_decide (ac_Details a = None) && bool_decide (ac_ObjectTypes a = None) &&
  bool_decide (ac_RelationLinks a = None).

(** One iteration of the loop of [Merge] over [b.Change]. *)
Definition merge_change (a : Action) (changeB : BChange) : Action :=
  let idB := blk_id (ch_After changeB) in
  match replace_first (λ addA, bool_decide (blk_id addA = idB))
          (λ _, ch_After changeB) (ac_Add a) with
  | Some add => with_Add a add
  | None =>
      match replace_first (λ changeA, bool_decide (blk_id (ch_After changeA) = idB))
              (λ changeA, {| ch_Before := ch_Before changeA; ch_After := ch_After changeB |})
              (ac_Change a) with
      | Some ch => with_Change a ch
      | None => with_Change a (ac_Change a ++ [changeB])
      end
  end.

Definition Merge (a b : Action) : Action := foldl merge_change a (ac_Change b).

(** ** History *)

Definition defaultLimit : Z := 300.

Record history := {
  h_limit : Z;
  h_actions : list Action;
  h_pointer : Z;
  h_beforeState : CarriageState;
  h_afterState : CarriageState;
}.

Definition NewHistory (limit : Z) : history :=
  {| h_limit := if (limit <=? 0)%Z then defaultLimit else limit;
     h_actions := []; h_pointer := 0;
     h_beforeState := zero_carriage; h_afterState := zero_carriage |}.

(** [applyGroup] merges into the first action of the group, wherever it is. *)
Definition applyGroup (h : history) (b : Action) : option history :=
  acts ← replace_first (λ a, bool_decide (ac_Group a = ac_Group b)) (λ a, Merge a b) (h_actions h);
  Some {| h_limit := h_limit h; h_actions := acts; h_pointer := h_pointer h;
          h_beforeState := h_beforeState h; h_afterState := h_afterState h |}.

Definition slice_to {A} (l : list A) (n : Z) : option (list A) :=
  if bool_decide (0 ≤ n ≤ Z.of_nat (length l))%Z then Some (take (Z.to_nat n) l) else None.

Definition push (h : history) (a : Action) : option history :=
  actions ← (if negb (Z.of_nat (length (h_actions h)) =? h_pointer h)%Z
             then slice_to (h_actions h) (h_pointer h) else Some (h_actions h));
  let before := if CarriageState_IsEmpty (h_beforeState h)
                then h_afterState h else h_beforeState h in
  let a := with_CarriageInfo a {| ci_Before := before; ci_After := h_afterState h |} in
  let actions := actions ++ [a] in
  let pointer := Z.of_nat (length actions) in
  Some (if (h_limit h <? pointer)%Z
        then {| h_limit := h_limit h; h_actions := drop 1 actions; h_pointer := pointer - 1;
                h_beforeState := zero_carriage; h_afterState := h_afterState h |}
        else {| h_limit := h_limit h; h_actions := actions; h_pointer := pointer;
                h_beforeState := zero_carriage; h_afterState := h_afterState h |}).

Definition Add (h : history) (a : Action) : option history :=
  if Action_IsEmpty a then Some h
  else match (if bool_decide (ac_Group a ≠ "") then applyGroup h a else None) with
       | Some h => Some h
       | None => push h a
       end.

Definition Len (h : history) : Z := h_pointer h.

Definition with_pointer (h : history) (p : Z) : history :=
  {| h_limit := h_limit h; h_actions := h_actions h; h_pointer := p;
     h_beforeState := h_beforeState h; h_afterState := h_afterState h |}.

(** Reading [h.actions[i]]. *)
Definition action_at (h : history) (i : Z) : option Action :=
  if (i <? 0)%Z then None else h_actions h !! Z.to_nat i.

Definition ErrNoHistory : string := "no history".

Definition Previous (h : history) : option (res Action * history) :=
  if (0 <? h_pointer h)%Z then
    let h := with_pointer h (h_pointer h - 1) in
    a ← action_at h (h_pointer h);
    Some (Ok a, h)
  else Some (Err ErrNoHistory, h).

Definition Next (h : history) : option (res Action * history) :=
  if (h_pointer h <? Z.of_nat (length (h_actions h)))%Z then
    action ← action_at h (h_pointer h);
    Some (Ok action, with_pointer h (h_pointer h + 1))
  else Some (Err ErrNoHistory, h).

Definition Reset (h : history) : history :=
  {| h_limit := h_limit h; h_actions := []; h_pointer := 0;
     h_beforeState := h_beforeState h; h_afterState := h_afterState h |}.

Definition Counters (h : history) : Z * Z :=
  (i32 (h_pointer h), i32 (Z.of_nat (length (h_actions h)) - h_pointer h)).

Definition SetCarriageState (h : history) (st : CarriageState) : history :=
  {| h_limit := h_limit h; h_actions := h_actions h; h_pointer := h_pointer h;
     h_beforeState := h_beforeState h; h_afterState := st |}.

Definition SetCarriageBeforeState (h : history) (st : CarriageState) : history :=
  {| h_limit := h_limit h; h_actions := h_actions h; h_pointer := h_pointer h;
     h_beforeState := st; h_afterState := h_afterState h |}.

(** ** Steps and the invariant *)

Inductive op :=
| OpAdd (a : Action)
| OpPrevious
| OpNext
| OpReset
| OpCarriage (st : CarriageState)
| OpCarriageBefore (st : CarriageState).

Definition run_op (h : history) (o : op) : option history :=
  match o with
  | OpAdd a => Add h a
  | OpPrevious => snd <$> Previous h
  | OpNext => snd <$> Next h
  | OpReset => Some (Reset h)
  | OpCarriage st => Some (SetCarriageState h st)
  | OpCarriageBefore st => Some (SetCarriageBeforeState h st)
  end.

Fixpoint run_ops (h : history) (ops : list op) : option history :=
  match ops with
  | [] => Some h
  | o :: ops => h ← run_op h o; run_ops h ops
  end.

Definition wf (h : history) : Prop :=
  (0 < h_limit h)%Z ∧ (0 ≤ h_pointer h ≤ Z.of_nat (length (h_actions h)))%Z ∧
  (Z.of_nat (length (h_actions h)) ≤ h_limit h)%Z.

Lemma NewHistory_wf limit : wf (NewHistory limit).
Proof. unfold wf, NewHistory, defaultLimit. simpl. case_match; lia. Qed.

Lemma slice_to_wf h :
  wf h →
  (if negb (Z.of_nat (length (h_actions h)) =? h_pointer h)%Z
   then slice_to (h_actions h) (h_pointer h) else Some (h_actions h))
  = Some (take (Z.to_nat (h_pointer h)) (h_actions h)).
Proof.
  intros (? & ? & ?). case_match eqn:E.
  - unfold slice_to. by rewrite bool_decide_eq_true_2 by lia.
  - rewrite take_ge by lia. done.
Qed.

Lemma push_wf h a : wf h → ∃ h', push h a = Some h' ∧ wf h' ∧ h_limit h' = h_limit h.
Proof.
  intros Hwf. unfold push. rewrite (slice_to_wf h Hwf). simpl. destruct Hwf as (? & ? & ?).
  eexists. split; [done|]. unfold wf.
  rewrite length_app, length_take. simpl.
  case_match; simpl; rewrite ?length_drop, ?length_app, ?length_take; simpl; split; lia.
Qed.

Lemma applyGroup_wf h a h' : wf h → applyGroup h a = Some h' → wf h' ∧ h_limit h' = h_limit h.
Proof.
  unfold applyGroup. intros Hwf Hg.
  pose proof (replace_first_spec (λ a', bool_decide (ac_Group a' = ac_Group a))
                (λ a', Merge a' a) (h_actions h)) as Hs.
  destruct (replace_first _ _ _) as [acts|]; simplify_eq/=.
  destruct Hs as (l1 & x & l2 & El & -> & _). unfold wf in *. simpl.
  rewrite El in Hwf. rewrite !length_app in *. simpl in *. lia.
Qed.

Lemma Add_wf h a : wf h → ∃ h', Add h a = Some h' ∧ wf h' ∧ h_limit h' = h_limit h.
Proof.
  intros Hwf. unfold Add. destruct (Action_IsEmpty a); [eauto|].
  case_bool_decide; [|by apply push_wf].
  destruct (applyGroup h a) as [h'|] eqn:E; [|by apply push_wf].
  apply applyGroup_wf in E; [eauto|done].
Qed.

Lemma action_at_Some h i :
  (0 ≤ i < Z.of_nat (length (h_actions h)))%Z → is_Some (action_at h i).
Proof.
  intros. unfold action_at. case_match; [lia|]. apply lookup_lt_is_Some. lia.
Qed.

Lemma Previous_wf h :
  wf h → ∃ r h', Previous h = Some (r, h') ∧ wf h' ∧ h_limit h' = h_limit h.
Proof.
  intros (? & ? & ?). unfold Previous. case_match; [|unfold wf; eauto 10].
  destruct (action_at_Some (with_pointer h (h_pointer h - 1)) (h_pointer h - 1)) as [a Ha].
  { simpl. lia. }
  simpl in *. rewrite Ha. simpl. eexists _, _. split; [done|]. unfold wf. simpl. lia.
Qed.

Lemma Next_wf h : wf h → ∃ r h', Next h = Some (r, h') ∧ wf h' ∧ h_limit h' = h_limit h.
Proof.
  intros (? & ? & ?). unfold Next. case_match; [|unfold wf; eauto 10].
  destruct (action_at_Some h (h_pointer h)) as [a Ha]; [lia|].
  rewrite Ha. simpl. eexists _, _. split; [done|]. unfold wf. simpl. lia.
Qed.

Lemma run_op_wf h o : wf h → ∃ h', run_op h o = Some h' ∧ wf h' ∧ h_limit h' = h_limit h.
Proof.
  intros Hwf. destruct o; simpl.
  - by apply Add_wf.
  - destruct (Previous_wf h Hwf) as (r & h' & -> & ?). simpl. eauto.
  - destruct (Next_wf h Hwf) as (r & h' & -> & ?). simpl. eauto.
  - exists (Reset h). unfold wf in *. simpl. split; [done|lia].
  - eexists. split; [done|]. unfold wf in *. simpl. lia.
  - eexists. split; [done|]. unfold wf in *. simpl. lia.
Qed.

(** ** Abstract specification: a zipper of actions *)

Record zipper := {
  z_past : list Action;
  z_future : list Action;
  z_before : CarriageState;
  z_after : CarriageState;
}.

Definition abs (h : history) : zipper :=
  {| z_past := take (Z.to_nat (h_pointer h)) (h_actions h);
     z_future := drop (Z.to_nat (h_pointer h)) (h_actions h);
     z_before := h_beforeState h; z_after := h_afterState h |}.

Definition last_n {A} (n : nat) (l : list A) : list A := drop (length l - n) l.

Definition spec_merge (past future : list Action) (b : Action) : option (list Action * list Action) :=
  let repl := replace_first (λ a, bool_decide (ac_Group a = ac_Group b)) (λ a, Merge a b) in
  match repl past with
  | Some past => Some (past, future)
  | None => pair past <$> repl future
  end.

Definition spec_add (limit : nat) (z : zipper) (a : Action) : zipper :=
  if Action_IsEmpty a then z
  else match (if bool_decide (ac_Group a ≠ "") then spec_merge (z_past z) (z_future z) a else None) with
       | Some (past, future) =>
           {| z_past := past; z_future := future; z_before := z_before z; z_after := z_after z |}
       | None =>
           let before := if CarriageState_IsEmpty (z_before z) then z_after z else z_before z in
           let a := with_CarriageInfo a {| ci_Before := before; ci_After := z_after z |} in
           {| z_past := last_n limit (z_past z ++ [a]); z_future := [];
              z_before := zero_carriage; z_after := z_after z |}
       end.

Definition spec_undo (z : zipper) : res Action * zipper :=
  match last (z_past z) with
  | None => (Err ErrNoHistory, z)
  | Some a => (Ok a, {| z_past := removelast (z_past z); z_future := a :: z_future z;
                        z_before := z_before z; z_after := z_after z |})
  end.

Definition spec_redo (z : zipper) : res Action * zipper :=
  match z_future z with
  | [] => (Err ErrNoHistory, z)
  | a :: future => (Ok a, {| z_past := z_past z ++ [a]; z_future := future;
                             z_before := z_before z; z_after := z_after z |})
  end.

Lemma replace_first_app {A} (p : A → bool) f l1 l2 :
  replace_first p f (l1 ++ l2) =
    match replace_first p f l1 with
    | Some l1' => Some (l1' ++ l2)
    | None => app l1 <$> replace_first p f l2
    end.
Proof.
  induction l1 as [|x l1 IH]; simpl; [by destruct (replace_first p f l2)|].
  destruct (p x); [done|]. rewrite IH.
  destruct (replace_first p f l1), (replace_first p f l2); done.
Qed.

Lemma replace_first_length {A} (p : A → bool) f l l' :
  replace_first p f l = Some l' → length l' = length l.
Proof.
  revert l'. induction l as [|x l IH]; intros l' E; simplify_eq/=.
  destruct (p x); simplify_eq/=; [done|].
  destruct (replace_first p f l); simplify_eq/=. by rewrite (IH l0).
Qed.

Lemma applyGroup_abs h b :
  wf h →
  match applyGroup h b with
  | Some h' => spec_merge (z_past (abs h)) (z_future (abs h)) b
                 = Some (z_past (abs h'), z_future (abs h')) ∧
               h_beforeState h' = h_beforeState h ∧ h_afterState h' = h_afterState h
  | None => spec_merge (z_past (abs h)) (z_future (abs h)) b = None
  end.
Proof.
  intros (_ & Hp & _). unfold applyGroup, spec_merge. set (n := Z.to_nat (h_pointer h)).
  set (p := λ a, bool_decide (ac_Group a = ac_Group b)). set (f := λ a, Merge a b).
  assert (n ≤ length (h_actions h)) as Hn by lia.
  pose proof (replace_first_app p f (take n (h_actions h)) (drop n (h_actions h))) as E.
  rewrite take_drop in E. rewrite E. simpl. fold n.
  destruct (replace_first p f (take n (h_actions h))) as [past|] eqn:E1; simpl.
  - apply replace_first_length in E1. rewrite length_take, Nat.min_l in E1 by done.
    split; [|done]. unfold n in *. rewrite <- E1. by rewrite take_app_length, drop_app_length.
  - destruct (replace_first p f (drop n (h_actions h))) as [fut|]; simpl; [|done].
    split; [|done]. assert (length (take n (h_actions h)) = n) as El by (rewrite length_take; lia).
    fold n. by rewrite take_app_le, take_take, Nat.min_id, drop_app_ge, El, Nat.sub_diag, drop_0 by lia.
Qed.

Lemma push_abs h a :
  wf h → ∃ h', push h a = Some h' ∧ abs h' =
    let z := abs h in
    let before := if CarriageState_IsEmpty (z_before z) then z_after z else z_before z in
    let a := with_CarriageInfo a {| ci_Before := before; ci_After := z_after z |} in
    {| z_past := last_n (Z.to_nat (h_limit h)) (z_past z ++ [a]); z_future := [];
       z_before := zero_carriage; z_after := z_after z |}.
Proof.
  intros Hwf. unfold push. rewrite (slice_to_wf h Hwf). simpl. destruct Hwf as (Hl & Hp & Hle).
  set (n := Z.to_nat (h_pointer h)). set (acts := take n (h_actions h)).
  assert (length acts = n) as En by (unfold acts; rewrite length_take; lia).
  eexists. split; [done|]. unfold abs, last_n. rewrite length_app, En. simpl.
  set (x := with_CarriageInfo _ _).
  case_match eqn:Elim; simpl.
  - replace (n + 1 - Z.to_nat (h_limit h)) with 1 by lia. f_equal.
    + apply take_ge. rewrite length_drop, length_app, En. simpl. lia.
    + apply drop_ge. rewrite length_drop, length_app, En. simpl. lia.
  - replace (n + 1 - Z.to_nat (h_limit h)) with 0 by lia. rewrite drop_0. f_equal.
    + apply take_ge. rewrite length_app, En. simpl. lia.
    + apply drop_ge. rewrite length_app, En. simpl. lia.
Qed.

Lemma Add_abs h a :
  wf h → ∃ h', Add h a = Some h' ∧ abs h' = spec_add (Z.to_nat (h_limit h)) (abs h) a.
Proof.
  intros Hwf. unfold Add, spec_add. destruct (Action_IsEmpty a); [eauto|].
  pose proof (applyGroup_abs h a Hwf) as Hg. pose proof (push_abs h a Hwf) as Hp.
  case_bool_decide; [|done]. destruct (applyGroup h a) as [h'|].
  - destruct Hg as (-> & Eb & Ea). exists h'. split; [done|]. simpl. by rewrite <- Eb, <- Ea.
  - by rewrite Hg.
Qed.

Lemma Previous_abs h :
  wf h → ∃ r h', Previous h = Some (r, h') ∧ (r, abs h') = spec_undo (abs h).
Proof.
  intros (Hl & Hp & Hle). unfold Previous, spec_undo. simpl.
  destruct (Z.ltb_spec 0 (h_pointer h)) as [Hpos|Hz].
  - set (n := Z.to_nat (h_pointer h - 1)).
    assert (Z.to_nat (h_pointer h) = S n) as -> by lia.
    destruct (lookup_lt_is_Some_2 (h_actions h) n) as [a Ha]; [lia|].
    unfold action_at. simpl. case_match; [lia|]. fold n. rewrite Ha. simpl.
    rewrite (take_S_r _ _ _ Ha), last_snoc, removelast_last.
    eexists _, _. split; [done|]. unfold abs. simpl. fold n. by rewrite <- (drop_S _ _ _ Ha).
  - assert (h_pointer h = 0%Z) as -> by lia. simpl. eauto.
Qed.

Lemma Next_abs h :
  wf h → ∃ r h', Next h = Some (r, h') ∧ (r, abs h') = spec_redo (abs h).
Proof.
  intros (Hl & Hp & Hle). unfold Next, spec_redo. simpl.
  destruct (Z.ltb_spec (h_pointer h) (Z.of_nat (length (h_actions h)))) as [Hlt|Hge].
  - set (n := Z.to_nat (h_pointer h)).
    destruct (lookup_lt_is_Some_2 (h_actions h) n) as [a Ha]; [lia|].
    unfold action_at. case_match; [lia|]. fold n. rewrite Ha. simpl.
    rewrite (drop_S _ _ _ Ha). eexists _, _. split; [done|]. unfold abs. simpl.
    replace (Z.to_nat (h_pointer h + 1)) with (S n) by lia. by rewrite (take_S_r _ _ _ Ha).
  - rewrite (drop_ge (h_actions h)) by lia. eauto.
Qed.

(** ** Merging grouped actions *)

(** The block an action leaves behind for an id. *)
Definition after_of (a : Action) (i : string) : option Blk :=
  match List.find (λ b, bool_decide (blk_id b = i)) (ac_Add a) with
  | Some b => Some b
  | None => ch_After <$> List.find (λ c, bool_decide (blk_id (ch_After c) = i)) (ac_Change a)
  end.

Lemma find_replace_first {A} (g : A → Blk) (f : A → A) (v : Blk) l l' i :
  (∀ x, g (f x) = v) →
  replace_first (λ x, bool_decide (blk_id (g x) = blk_id v)) f l = Some l' →
  g <$> List.find (λ x, bool_decide (blk_id (g x) = i)) l' =
    if bool_decide (blk_id v = i) then Some v
    else g <$> List.find (λ x, bool_decide (blk_id (g x) = i)) l.
Proof.
  intros Hf. revert l'. induction l as [|x l IH]; intros l' E; simplify_eq/=.
  case_bool_decide as Ex; simplify_eq/=.
  - rewrite Hf, Ex. by case_bool_decide; simpl; rewrite ?Hf.
  - destruct (replace_first _ f l) as [l2|] eqn:E2; simplify_eq/=.
    destruct (decide (blk_id (g x) = i)) as [Ei|Ei].
    + rewrite !(bool_decide_eq_true_2 (blk_id (g x) = i)) by done. simpl.
      by rewrite bool_decide_eq_false_2 by congruence.
    + rewrite !(bool_decide_eq_false_2 (blk_id (g x) = i)) by done. by apply IH.
Qed.

Lemma find_None_elem {A} (p : A → bool) l : (∀ x, x ∈ l → p x = false) → List.find p l = None.
Proof.
  induction l as [|x l IH]; intros Hl; simpl; [done|].
  rewrite (Hl x) by by left. apply IH. intros y Hy. apply Hl. by right.
Qed.

Lemma find_snoc {A} (p : A → bool) l x :
  List.find p (l ++ [x]) =
    match List.find p l with Some y => Some y | None => if p x then Some x else None end.
Proof. induction l as [|y l IH]; simpl; [done|]. by destruct (p y). Qed.

Lemma merge_change_after a c i :
  after_of (merge_change a c) i =
    if bool_decide (blk_id (ch_After c) = i) then Some (ch_After c) else after_of a i.
Proof.
  unfold merge_change. set (v := ch_After c).
  pose proof (replace_first_spec (λ addA, bool_decide (blk_id addA = blk_id v)) (λ _, v) (ac_Add a)) as HA.
  destruct (replace_first _ (λ _, v) (ac_Add a)) as [add|] eqn:EA.
  { pose proof (find_replace_first (λ x, x) (λ _, v) v (ac_Add a) add i (λ _, eq_refl) EA) as Hf.
    rewrite !option_fmap_id in Hf. unfold after_of, with_Add. simpl. rewrite Hf.
    by case_bool_decide. }
  pose proof (replace_first_spec (λ x, bool_decide (blk_id (ch_After x) = blk_id v))
                (λ x, {| ch_Before := ch_Before x; ch_After := v |}) (ac_Change a)) as HC.
  assert (Hadd : blk_id v = i → List.find (λ b, bool_decide (blk_id b = i)) (ac_Add a) = None)
    by (intros <-; by apply find_None_elem).
  unfold after_of, with_Change.
  destruct (replace_first _ _ (ac_Change a)) as [ch|] eqn:EC; simpl.
  - rewrite (find_replace_first ch_After (λ x, {| ch_Before := ch_Before x; ch_After := v |})
               v _ _ i (λ _, eq_refl) EC).
    case_bool_decide as Ei; [by rewrite Hadd|done].
  - rewrite find_snoc. fold v. case_bool_decide as Ei.
    + rewrite Hadd, find_None_elem by (rewrite ?Ei in *; subst; done). done.
    + destruct (List.find _ (ac_Change a)); done.
Qed.

Lemma Merge_after_foldl cs a i :
  after_of (foldl merge_change a cs) i =
    match last (filter (λ c, blk_id (ch_After c) = i) cs) with
    | Some c => Some (ch_After c)
    | None => after_of a i
    end.
Proof.
  induction cs as [|c cs IH] using rev_ind; [done|].
  rewrite foldl_app, filter_app. simpl. rewrite merge_change_after, filter_cons, filter_nil.
  case_bool_decide; case_decide; try done.
  - by rewrite last_snoc.
  - rewrite app_nil_r. apply IH.
Qed.

(** ** Properties *)

(** C40. No sequence of operations on a new history panics, and in every
    reachable history the pointer stays within the recorded actions, of which
    there are at most [limit]; the counters shown to the client are exact when
    the limit fits an [int32]. *)
Theorem history_reachable_safe (limit : Z) (ops : list op) :
  ∃ h, run_ops (NewHistory limit) ops = Some h ∧ wf h ∧
       h_limit h = h_limit (NewHistory limit) ∧
       ((limit < 2 ^ 31)%Z →
        Counters h = (Len h, (Z.of_nat (length (h_actions h)) - Len h)%Z)).
Proof.
  assert (∀ h, wf h → ∃ h', run_ops h ops = Some h' ∧ wf h' ∧ h_limit h' = h_limit h) as Hrun.
  { induction ops as [|o ops IH]; intros h Hwf; simpl; [eauto|].
    destruct (run_op_wf h o Hwf) as (h1 & -> & Hwf1 & E1). simpl.
    destruct (IH h1 Hwf1) as (h2 & ? & ? & ?). exists h2. split_and!; [done..|congruence]. }
  destruct (Hrun _ (NewHistory_wf limit)) as (h & Hr & Hwf & El). exists h. split_and!; [done..|].
  intros Hlim. unfold Counters, Len. destruct Hwf as (? & ? & Hle).
  rewrite El in Hle. unfold NewHistory, defaultLimit in Hle. simpl in Hle.
  rewrite !i32_id; [done|..]; unfold in_i32; case_match; lia.
Qed.

(** C31. The array-and-pointer history implements a zipper of past and future
    actions: every operation succeeds on a well-formed history, [Add] either
    merges into the first action of the group or pushes, forgets the redo
    tail and keeps the last [limit] actions, [Previous] and [Next] move one
    action across, and fail exactly on an empty side. *)
Theorem history_refines_zipper (h : history) :
  wf h →
  (∀ a, ∃ h', Add h a = Some h' ∧ abs h' = spec_add (Z.to_nat (h_limit h)) (abs h) a) ∧
  (∃ r h', Previous h = Some (r, h') ∧ (r, abs h') = spec_undo (abs h)) ∧
  (∃ r h', Next h = Some (r, h') ∧ (r, abs h') = spec_redo (abs h)).
Proof.
  intros Hwf. split_and!; [intros a; by apply Add_abs|by apply Previous_abs|by apply Next_abs].
Qed.

(** Redo is the inverse of undo: after a successful [Previous], [Next]
    returns the same action and restores the history, and conversely. *)
Theorem undo_redo_inverse (h h' : history) (a : Action) :
  wf h →
  (Previous h = Some (Ok a, h') → Next h' = Some (Ok a, h)) ∧
  (Next h = Some (Ok a, h') → Previous h' = Some (Ok a, h)).
Proof.
  intros (Hl & Hp & Hle). unfold Previous, Next. split.
  - destruct (Z.ltb_spec 0 (h_pointer h)); [|done]. simpl.
    destruct (action_at _ _) as [a'|] eqn:E; intros; simplify_eq/=.
    rewrite (proj2 (Z.ltb_lt _ _)) by lia. unfold action_at in *. simpl in *. rewrite E. simpl.
    unfold with_pointer. simpl. rewrite Z.sub_add. by destruct h.
  - destruct (Z.ltb_spec (h_pointer h) (Z.of_nat (length (h_actions h)))); [|done].
    destruct (action_at _ _) as [a'|] eqn:E; intros; simplify_eq/=.
    rewrite (proj2 (Z.ltb_lt _ _)) by lia. rewrite Z.add_simpl_r.
    unfold action_at in *. simpl in *. rewrite E. simpl.
    unfold with_pointer. simpl. by destruct h.
Qed.

(** Merging a grouped action keeps one state per block: the merged action
    leaves each block as the last change of the second action says, and as
    the first action left it when the second does not change it. *)
Theorem Merge_after (a b : Action) (i : string) :
  after_of (Merge a b) i =
    match last (filter (λ c, blk_id (ch_After c) = i) (ac_Change b)) with
    | Some c => Some (ch_After c)
    | None => after_of a i
    end.
Proof. apply Merge_after_foldl. Qed.

(** A grouped action whose group was undone is recorded only in the redo
    tail: the list of actions that can be undone does not change, so the new
    edit cannot be undone, and the redo tail is not discarded. *)
Theorem Add_group_undone (h : history) (a : Action) :
  wf h → Action_IsEmpty a = false → ac_Group a ≠ "" →
  (∀ x, x ∈ z_past (abs h) → ac_Group x ≠ ac_Group a) →
  (∃ x, x ∈ z_future (abs h) ∧ ac_Group x = ac_Group a) →
  ∃ h', Add h a = Some h' ∧ z_past (abs h') = z_past (abs h) ∧
        length (z_future (abs h')) = length (z_future (abs h)).
Proof.
  intros Hwf Hne Hg Hpast (x & Hx & Ex).
  destruct (Add_abs h a Hwf) as (h' & HA & Ez). exists h'. split; [done|]. rewrite Ez.
  unfold spec_add. rewrite Hne, bool_decide_eq_true_2 by done. unfold spec_merge.
  set (p := λ a', bool_decide (ac_Group a' = ac_Group a)). set (f := λ a', Merge a' a).
  pose proof (replace_first_spec p f (z_past (abs h))) as H1.
  destruct (replace_first p f (z_past (abs h))) as [past|].
  { destruct H1 as (l1 & y & l2 & El & _ & Hy & _). unfold p in Hy.
    apply bool_decide_eq_true in Hy. exfalso. apply (Hpast y); [rewrite El; set_solver|done]. }
  pose proof (replace_first_spec p f (z_future (abs h))) as H2.
  destruct (replace_first p f (z_future (abs h))) as [fut|] eqn:E; simpl.
  - by apply replace_first_length in E.
  - apply H2 in Hx. unfold p in Hx. by apply bool_decide_eq_false in Hx.
Qed.
End undo.

(** ** Witnesses *)

Section witnesses.
Definition w_act (g : string) (b : string) : @Action string unit unit unit :=
  {| ac_Add := []; ac_Change := [{| ch_Before := "x"; ch_After := b |}]; ac_Remove := [];
     ac_Details := None; ac_RelationLinks := None; ac_Group := g; ac_ObjectTypes := None;
     ac_CarriageInfo := {| ci_Before := zero_carriage; ci_After := zero_carriage |} |}.

(** One action that can be undone and one that was undone. *)
Definition w_hist : @history string unit unit unit :=
  {| h_limit := 3; h_actions := [w_act "" "a"; w_act "g" "b"]; h_pointer := 1;
     h_beforeState := zero_carriage; h_afterState := zero_carriage |}.

Lemma history_refines_zipper_witness :
  wf w_hist ∧
  ((∀ a, ∃ h', Add (λ x, x) w_hist a = Some h' ∧
      abs h' = spec_add (λ x, x) (Z.to_nat (h_limit w_hist)) (abs w_hist) a) ∧
   (∃ r h', Previous w_hist = Some (r, h') ∧ (r, abs h') = spec_undo (abs w_hist)) ∧
   (∃ r h', Next w_hist = Some (r, h') ∧ (r, abs h') = spec_redo (abs w_hist))).
Proof.
  assert (wf w_hist) as Hwf by (unfold wf; simpl; lia).
  split; [done|]. apply (history_refines_zipper (λ x, x)). done.
Defined.

Lemma undo_redo_inverse_witness :
  Next (with_pointer w_hist 0) = Some (Ok (w_act "" "a"), w_hist).
Proof.
  apply (undo_redo_inverse w_hist); [unfold wf; simpl; lia|reflexivity].
Defined.

Lemma Add_group_undone_witness :
  ∃ h', Add (λ x, x) w_hist (w_act "g" "c") = Some h' ∧ z_past (abs h') = z_past (abs w_hist) ∧
        length (z_future (abs h')) = length (z_future (abs w_hist)).
Proof.
  apply (Add_group_undone (λ x, x)); [unfold wf; simpl; lia|reflexivity|done|..].
  - intros x Hx. apply list_elem_of_In in Hx. simpl in Hx. destruct Hx as [<-|[]]. done.
  - exists (w_act "g" "b"). split; [apply list_elem_of_In; simpl; auto|done].
Defined.
End witnesses.
