(* ===== verification/GoFloat.v ===== *)
(** * Go floats and comparison functions

    A Go [float64] is an IEEE 754 datum ([spec_float] of the Standard Library);
    [==] and [<] are the IEEE comparisons, so NaN is unordered and the two zeros
    are equal.  The second half is the theory of three-way comparison functions
    (results -1, 0, 1) that the value and sort orders share. *)

From Stdlib Require Import SpecFloat.
From S2P Require Import Prelude.

(** ** Floats *)

Abbreviation float64 := spec_float.

Definition f_zero : float64 := S754_zero false.

Definition f_eq (x y : float64) : bool :=
  match SFcompare x y with Some Eq => true | _ => false end.
Definition f_lt (x y : float64) : bool :=
  match SFcompare x y with Some Lt => true | _ => false end.

Definition is_nan (x : float64) : bool := match x with S754_nan => true | _ => false end.

(** The conversion [float64(v)] of an integer: round to nearest even. *)
Definition float_of_Z (z : Z) : float64 := binary_normalize 53 1024 z 0 false.

(** The conversion [int64(f)] truncates towards zero; the language leaves the
    result of a value that does not fit (NaN and the infinities included) to the
    implementation. *)
Class GoArch := int64_out_of_range : float64 → Z.

Definition trunc_float (f : float64) : option Z :=
  match f with
  | S754_zero _ => Some 0%Z
  | S754_finite s m e =>
      let a := if (0 <=? e)%Z then (Z.pos m * 2 ^ e)%Z else (Z.pos m / 2 ^ (- e))%Z in
      Some (if s then - a else a)%Z
  | _ => None
  end.

Definition int64_of_float `{!GoArch} (f : float64) : Z :=
  match trunc_float f with
  | Some z => if ((- 2 ^ 63 <=? z) && (z <? 2 ^ 63))%Z then z else int64_out_of_range f
  | None => int64_out_of_range f
  end.

(** A total order on the non-NaN floats as a lexicographic rank. *)
Definition frank (f : float64) : Z * Z * Z :=
  match f with
  | S754_zero _ | S754_nan => (0, 0, 0)%Z
  | S754_infinity false => (2, 0, 0)%Z
  | S754_infinity true => (-2, 0, 0)%Z
  | S754_finite false m e => (1, e, Z.pos m)%Z
  | S754_finite true m e => (-1, - e, - Z.pos m)%Z
  end.

Definition lex3 (x y : Z * Z * Z) : comparison :=
  let '(a1, b1, c1) := x in
  let '(a2, b2, c2) := y in
  match (a1 ?= a2)%Z with
  | Eq => match (b1 ?= b2)%Z with Eq => (c1 ?= c2)%Z | c => c end
  | c => c
  end.

Lemma SFcompare_frank x y :
  is_nan x = false → is_nan y = false → SFcompare x y = Some (lex3 (frank x) (frank y)).
Proof.
  destruct x as [s|s| |s m e]; destruct y as [s'|s'| |s' m' e']; simpl; try done; intros _ _;
    f_equal; destruct s; try destruct s'; simpl; try done.
  - rewrite Z.compare_opp, (Z.compare_antisym e e'). by destruct (e ?= e')%Z.
Qed.

(** ** Three-way comparison results *)

(** Results of comparing [x] with [y], [y] with [z] and [x] with [z] that are
    compatible with a total preorder, in both directions. *)
Definition trans3 (p q r : Z) : Prop :=
  ((p ≤ 0 → q ≤ 0 → r ≤ 0 ∧ (p < 0 ∨ q < 0 → r < 0)) ∧
   (0 ≤ p → 0 ≤ q → 0 ≤ r ∧ (0 < p ∨ 0 < q → 0 < r)))%Z.

(** The first comparison decides unless it is a tie. *)
Definition chain (r1 r2 : Z) : Z := if (r1 =? 0)%Z then r2 else r1.

Lemma trans3_chain p1 q1 r1 p2 q2 r2 :
  trans3 p1 q1 r1 → (p1 = 0 → q1 = 0 → trans3 p2 q2 r2)%Z →
  trans3 (chain p1 p2) (chain q1 q2) (chain r1 r2).
Proof. unfold trans3, chain. intros H1 H2. repeat case_match; lia. Qed.

Lemma chain_opp p q : chain (- p) (- q) = (- chain p q)%Z.
Proof. unfold chain. repeat case_match; lia. Qed.

Lemma chain_zero p q : chain p q = 0%Z ↔ p = 0%Z ∧ q = 0%Z.
Proof. unfold chain. case_match; lia. Qed.

Lemma trans3_zero : trans3 0 0 0.
Proof. unfold trans3. lia. Qed.

Definition Zcmp (x y : Z) : Z := if (x <? y)%Z then -1 else if (y <? x)%Z then 1 else 0.

Lemma Zcmp_antisym x y : Zcmp x y = (- Zcmp y x)%Z.
Proof. unfold Zcmp. repeat case_match; lia. Qed.
Lemma Zcmp_trans3 x y z : trans3 (Zcmp x y) (Zcmp y z) (Zcmp x z).
Proof. unfold Zcmp, trans3. repeat case_match; lia. Qed.
Lemma Zcmp_zero x y : Zcmp x y = 0%Z ↔ x = y.
Proof. unfold Zcmp. repeat case_match; lia. Qed.

(** A comparison function all of whose results come from a total preorder on
    the elements satisfying [P]. *)
Record cmp_on {A} (P : A → Prop) (c : A → A → Z) : Prop := {
  cmp_antisym : ∀ x y, P x → P y → c x y = (- c y x)%Z;
  cmp_trans3 : ∀ x y z, P x → P y → P z → trans3 (c x y) (c y z) (c x z);
}.

(** [strings.Compare] and [cmp.Compare] on floats. *)
Definition strings_Compare (x y : string) : Z :=
  match String.compare x y with Lt => -1 | Eq => 0 | Gt => 1 end.

Definition float_Compare (x y : float64) : Z :=
  if is_nan x then (if is_nan y then 0 else -1)
  else if is_nan y then 1
  else if f_lt x y then -1 else if f_lt y x then 1 else 0.

(** The comparison of two floats by [<] and [>] alone. *)
Definition float_ltgt (x y : float64) : Z :=
  if f_lt x y then -1 else if f_lt y x then 1 else 0.

(** [slices.Compare]: lexicographic, a proper prefix being smaller. *)
Fixpoint slices_Compare {A} (c : A → A → Z) (s1 s2 : list A) : Z :=
  match s1, s2 with
  | [], [] => 0
  | [], _ => -1
  | _, [] => 1
  | x :: s1, y :: s2 => chain (c x y) (slices_Compare c s1 s2)
  end.

Lemma string_compare_refl x : String.compare x x = Eq.
Proof.
  induction x as [|a x IH]; simpl; [done|]. unfold Ascii.compare. by rewrite N.compare_refl.
Qed.

Lemma strings_Compare_zero x y : strings_Compare x y = 0%Z ↔ x = y.
Proof.
  unfold strings_Compare. split.
  - destruct (String.compare x y) eqn:E; try done. intros _. by apply String.compare_eq_iff.
  - intros ->. by rewrite string_compare_refl.
Qed.

Lemma strings_Compare_le x y : (strings_Compare x y ≤ 0)%Z ↔ String.le x y.
Proof.
  unfold strings_Compare, String.le, String.leb.
  destruct (String.compare x y); split; intros Hc; simpl in *; first [done|lia|by destruct Hc].
Qed.

Lemma strings_Compare_antisym x y : strings_Compare x y = (- strings_Compare y x)%Z.
Proof.
  unfold strings_Compare. rewrite String.compare_antisym.
  by destruct (String.compare y x).
Qed.

Lemma strings_cmp_on : cmp_on (λ _, True) strings_Compare.
Proof.
  split; [intros; apply strings_Compare_antisym|]. intros x y z _ _ _.
  assert (∀ x y z, (strings_Compare x y ≤ 0 → strings_Compare y z ≤ 0 →
             strings_Compare x z ≤ 0)%Z) as Ht.
  { intros a b c. rewrite !strings_Compare_le. apply transitivity. }
  pose proof (Ht x y z). pose proof (Ht z y x). pose proof (Ht z x y). pose proof (Ht y z x).
  pose proof (Ht x z y). pose proof (Ht y x z).
  pose proof (strings_Compare_antisym x y). pose proof (strings_Compare_antisym y z).
  pose proof (strings_Compare_antisym x z). unfold trans3. lia.
Qed.

Lemma float_ltgt_frank x y :
  is_nan x = false → is_nan y = false →
  float_ltgt x y = let '(a1, b1, c1) := frank x in let '(a2, b2, c2) := frank y in
                   chain (Zcmp a1 a2) (chain (Zcmp b1 b2) (Zcmp c1 c2)).
Proof.
  intros Hx Hy. unfold float_ltgt, f_lt. rewrite !SFcompare_frank by done.
  destruct (frank x) as [[a1 b1] c1], (frank y) as [[a2 b2] c2]. simpl. unfold chain, Zcmp.
  rewrite (Z.compare_antisym a1 a2), (Z.compare_antisym b1 b2), (Z.compare_antisym c1 c2).
  destruct (Z.compare_spec a1 a2), (Z.compare_spec b1 b2), (Z.compare_spec c1 c2); simpl;
    repeat case_match; lia.
Qed.

Definition not_nan (f : float64) : Prop := is_nan f = false.

Lemma float_cmp_on : cmp_on not_nan float_ltgt.
Proof.
  split.
  - intros x y Hx Hy. rewrite !float_ltgt_frank by done.
    destruct (frank x) as [[a1 b1] c1], (frank y) as [[a2 b2] c2].
    by rewrite (Zcmp_antisym a1), (Zcmp_antisym b1), (Zcmp_antisym c1), !chain_opp.
  - intros x y z Hx Hy Hz. rewrite !float_ltgt_frank by done.
    destruct (frank x) as [[a1 b1] c1], (frank y) as [[a2 b2] c2], (frank z) as [[a3 b3] c3].
    apply trans3_chain; [apply Zcmp_trans3|]. intros _ _.
    apply trans3_chain; [apply Zcmp_trans3|]. intros _ _. apply Zcmp_trans3.
Qed.

Lemma lex3_antisym x y : lex3 y x = CompOpp (lex3 x y).
Proof.
  destruct x as [[a1 b1] c1], y as [[a2 b2] c2]. simpl.
  rewrite (Z.compare_antisym a1 a2), (Z.compare_antisym b1 b2), (Z.compare_antisym c1 c2).
  by destruct (a1 ?= a2)%Z, (b1 ?= b2)%Z, (c1 ?= c2)%Z.
Qed.

Lemma f_eq_ltgt x y : not_nan x → not_nan y → f_eq x y = true ↔ float_ltgt x y = 0%Z.
Proof.
  intros Hx Hy. unfold f_eq, float_ltgt, f_lt. rewrite !SFcompare_frank by done.
  rewrite (lex3_antisym (frank x)). by destruct (lex3 (frank x) (frank y)).
Qed.

Lemma float_Compare_ltgt x y :
  not_nan x → not_nan y → float_Compare x y = float_ltgt x y.
Proof. unfold not_nan, float_Compare. by intros -> ->. Qed.

Lemma chain_antisym p1 q1 p2 q2 :
  p1 = (- q1)%Z → (p1 = 0%Z → p2 = (- q2)%Z) → chain p1 p2 = (- chain q1 q2)%Z.
Proof. unfold chain. intros. repeat case_match; lia. Qed.

Lemma slices_antisym {A} (c : A → A → Z) l k :
  (∀ x y, x ∈ l → y ∈ k → c x y = (- c y x)%Z) →
  slices_Compare c l k = (- slices_Compare c k l)%Z.
Proof.
  revert k. induction l as [|x l IH]; intros [|y k] Hc; simpl; try done.
  apply chain_antisym; [apply Hc; by left|]. intros _.
  apply IH. intros a b Ha Hb. apply Hc; by right.
Qed.

Lemma slices_trans3 {A} (c : A → A → Z) l k m :
  (∀ x y z, x ∈ l → y ∈ k → z ∈ m → trans3 (c x y) (c y z) (c x z)) →
  trans3 (slices_Compare c l k) (slices_Compare c k m) (slices_Compare c l m).
Proof.
  revert k m. induction l as [|x l IH]; intros [|y k] [|z m] Hc; simpl;
    try (unfold trans3, chain; repeat case_match; lia).
  apply trans3_chain; [apply Hc; by left|]. intros _ _.
  apply IH. intros a b d Ha Hb Hd. apply Hc; by right.
Qed.

Lemma slices_cmp_on {A} (P : A → Prop) c : cmp_on P c → cmp_on (Forall P) (slices_Compare c).
Proof.
  intros [Ha Ht]. split; intros until 0; rewrite !Forall_forall; intros.
  - apply slices_antisym; auto.
  - apply slices_trans3; auto.
Qed.

Lemma slices_Compare_zero {A} (c : A → A → Z) (e : A → A → bool) l k :
  (∀ x y, x ∈ l → y ∈ k → c x y = 0%Z ↔ e x y = true) →
  slices_Compare c l k = 0%Z ↔ Forall2 (λ x y, e x y = true) l k.
Proof.
  revert k. induction l as [|x l IH]; intros [|y k] Hc; simpl.
  - split; [constructor|done].
  - split; [done|]. inversion 1.
  - split; [done|]. inversion 1.
  - assert (c x y = 0%Z ↔ e x y = true) as Hxy by (apply Hc; by left).
    assert (slices_Compare c l k = 0%Z ↔ Forall2 (λ x y, e x y = true) l k) as Hlk.
    { apply IH. intros a b Hxa Hb. apply Hc; by right. }
    rewrite Forall2_cons, <- Hxy, <- Hlk. unfold chain. case_match; lia.
Qed.

(** ** Converted integers are numbers *)

Lemma iter_shr_1_nonneg p mrs : (0 ≤ shr_m mrs → 0 ≤ shr_m (SpecFloat.iter_pos shr_1 p mrs))%Z.
Proof.
  assert (∀ x, 0 ≤ shr_m x → 0 ≤ shr_m (shr_1 x))%Z as H1.
  { intros [m r s]. simpl. destruct m as [|[p'|p'|]|[p'|p'|]]; simpl; lia. }
  revert mrs. induction p as [p IH|p IH|]; intros mrs Hm; simpl; auto.
Qed.

Lemma shr_fexp_nonneg prec emax m e l : (0 ≤ m → 0 ≤ shr_m (shr_fexp prec emax m e l).1)%Z.
Proof.
  intros Hm. unfold shr_fexp, shr.
  assert (0 ≤ shr_m (shr_record_of_loc m l))%Z by (destruct l as [|[]]; done).
  destruct (_ - e)%Z; simpl; try done. by apply iter_shr_1_nonneg.
Qed.

Lemma binary_round_aux_not_nan prec emax sx m e l :
  (0 ≤ m)%Z → not_nan (binary_round_aux prec emax sx m e l).
Proof.
  intros Hm. unfold binary_round_aux. pose proof (shr_fexp_nonneg prec emax m e l Hm) as H1.
  destruct (shr_fexp prec emax m e l) as [mrs1 e1]. simpl in H1.
  set (m2 := round_nearest_even _ _).
  assert (0 ≤ m2)%Z as Hm2.
  { subst m2. unfold round_nearest_even. destruct (loc_of_shr_record mrs1) as [|[]]; try case_match; lia. }
  pose proof (shr_fexp_nonneg prec emax m2 e1 loc_Exact Hm2) as H2.
  destruct (shr_fexp prec emax m2 e1 loc_Exact) as [mrs2 e2]. simpl in H2.
  destruct (shr_m mrs2); [done| |lia]. by case_match.
Qed.

Lemma float_of_Z_not_nan z : not_nan (float_of_Z z).
Proof.
  unfold float_of_Z, binary_normalize, binary_round.
  destruct z; [done| |]; destruct (shl_align _ _ _); by apply binary_round_aux_not_nan.
Qed.

(** A comparison pulled back along a function, reversed, or restricted. *)
Lemma cmp_on_map {A B} (f : A → B) (P : A → Prop) (Q : B → Prop) c :
  (∀ x, P x → Q (f x)) → cmp_on Q c → cmp_on P (λ x y, c (f x) (f y)).
Proof. intros Hf [Ha Ht]. split; auto. Qed.

Lemma cmp_on_opp {A} (P : A → Prop) c : cmp_on P c → cmp_on P (λ x y, - c x y)%Z.
Proof.
  intros [Ha Ht]. split.
  - intros x y Hx Hy. by rewrite (Ha x y).
  - intros x y z Hx Hy Hz. pose proof (Ht x y z Hx Hy Hz) as [? ?]. unfold trans3. lia.
Qed.

Lemma cmp_on_chain {A} (P : A → Prop) c1 c2 :
  cmp_on P c1 →
  (∀ x y, P x → P y → c1 x y = 0%Z → c2 x y = (- c2 y x)%Z) →
  (∀ x y z, P x → P y → P z → c1 x y = 0%Z → c1 y z = 0%Z → trans3 (c2 x y) (c2 y z) (c2 x z)) →
  cmp_on P (λ x y, chain (c1 x y) (c2 x y)).
Proof.
  intros [Ha Ht] Ha2 Ht2. split.
  - intros x y Hx Hy. apply chain_antisym; auto.
  - intros x y z Hx Hy Hz. apply trans3_chain; auto.
Qed.

Lemma cmp_on_ext {A} (P : A → Prop) c1 c2 :
  (∀ x y, P x → P y → c1 x y = c2 x y) → cmp_on P c1 → cmp_on P c2.
Proof.
  intros He [Ha Ht]. split.
  - intros x y Hx Hy. rewrite <- !He by done. auto.
  - intros x y z Hx Hy Hz. rewrite <- !He by done. auto.
Qed.

Lemma cmp_on_impl {A} (P Q : A → Prop) c : (∀ x, P x → Q x) → cmp_on Q c → cmp_on P c.
Proof. intros Hi [Ha Ht]. split; auto. Qed.

Lemma cmp_on_Z {A} (P : A → Prop) (f : A → Z) : cmp_on P (λ x y, Zcmp (f x) (f y)).
Proof. split; intros; [apply Zcmp_antisym|apply Zcmp_trans3]. Qed.

Lemma cmp_on_refl {A} (P : A → Prop) c x : cmp_on P c → P x → c x x = 0%Z.
Proof. intros [Ha _] Hx. pose proof (Ha x x Hx Hx). lia. Qed.
