(* ===== verification/Values.v ===== *)
(** * Dynamic values ([core/domain/value.go])

    The value of an object's relation: a tagged union of scalars, lists and
    nested maps.  [ok = false] is [VInvalid].  The comparison is the one that
    filters and sorts use; the equality is the one that decides whether a detail
    changed. *)

From S2P Require Import Prelude Slice GoFloat.

(** ** Data *)

Inductive Value : Type :=
| VInvalid
| VNull
| VBool (b : bool)
| VString (s : string)
| VFloat (f : float64)
| VStringList (l : list string)
| VFloatList (l : list float64)
| VMap (m : gmap string Value).

Abbreviation ValueMap := (gmap string Value).

(** [ValueType] constants in their order. *)
Inductive ValueType :=
| ValueTypeNone | ValueTypeNull | ValueTypeBool | ValueTypeString | ValueTypeFloat
| ValueTypeStringList | ValueTypeFloatList | ValueTypeMap.

Definition ValueType_int (t : ValueType) : Z :=
  match t with
  | ValueTypeNone => 0 | ValueTypeNull => 1 | ValueTypeBool => 2 | ValueTypeString => 3
  | ValueTypeFloat => 4 | ValueTypeStringList => 5 | ValueTypeFloatList => 6 | ValueTypeMap => 7
  end.

(** ** Constructors *)

Definition Invalid : Value := VInvalid.
Definition Null : Value := VNull.
Definition Int64 (v : Z) : Value := VFloat (float_of_Z v).
Definition Int64List (v : list Z) : Value := VFloatList (map float_of_Z v).
Definition Float64 (v : float64) : Value := VFloat v.
Definition Bool (v : bool) : Value := VBool v.
Definition String (v : string) : Value := VString v.
Definition StringList (v : list string) : Value := VStringList v.
Definition Float64List (v : list float64) : Value := VFloatList v.
Definition NewValueMap (m : ValueMap) : Value := VMap m.

(** ** Accessors.  [(T, bool)] results are options. *)

Definition Value_Ok (v : Value) : bool := match v with VInvalid => false | _ => true end.
Definition IsStringList (v : Value) : bool := match v with VStringList _ => true | _ => false end.
Definition IsFloat64List (v : Value) : bool := match v with VFloatList _ => true | _ => false end.
Definition IsNull (v : Value) : bool := match v with VNull => true | _ => false end.
Definition IsBool (v : Value) : bool := match v with VBool _ => true | _ => false end.
Definition IsString (v : Value) : bool := match v with VString _ => true | _ => false end.
Definition IsFloat64 (v : Value) : bool := match v with VFloat _ => true | _ => false end.
Definition IsInt64 (v : Value) : bool := IsFloat64 v.
Definition IsInt64List (v : Value) : bool := IsFloat64List v.
Definition IsMapValue (v : Value) : bool := match v with VMap _ => true | _ => false end.

Definition TryBool (v : Value) : option bool := match v with VBool b => Some b | _ => None end.
Definition GetBool (v : Value) : bool := default false (TryBool v).
Definition TryString (v : Value) : option string := match v with VString s => Some s | _ => None end.
Definition GetString (v : Value) : string := default "" (TryString v).
Definition TryFloat64 (v : Value) : option float64 := match v with VFloat f => Some f | _ => None end.
Definition GetFloat64 (v : Value) : float64 := default f_zero (TryFloat64 v).
Definition TryStringList (v : Value) : option (list string) :=
  match v with VStringList l => Some l | _ => None end.
Definition GetStringList (v : Value) : list string := default [] (TryStringList v).
Definition TryFloat64List (v : Value) : option (list float64) :=
  match v with VFloatList l => Some l | _ => None end.
Definition GetFloat64List (v : Value) : list float64 := default [] (TryFloat64List v).
Definition TryMapValue (v : Value) : option ValueMap := match v with VMap m => Some m | _ => None end.

Section int64.
Context `{!GoArch}.

Definition TryInt64 (v : Value) : option Z := int64_of_float <$> TryFloat64 v.
Definition GetInt64 (v : Value) : Z := default 0%Z (TryInt64 v).
Definition TryInt64List (v : Value) : option (list Z) :=
  match v with VFloatList l => Some (map int64_of_float l) | _ => None end.
Definition GetInt64List (v : Value) : list Z := default [] (TryInt64List v).
End int64.

(** A string is wrapped, the empty string to the empty list. *)
Definition TryWrapToStringList (v : Value) : option (list string) :=
  match TryStringList v with
  | Some l => Some l
  | None =>
      match TryString v with
      | Some s => if bool_decide (s = "") then Some [] else Some [s]
      | None => None
      end
  end.
Definition WrapToStringList (v : Value) : list string := default [] (TryWrapToStringList v).

Definition TryListValues (v : Value) : option (list Value) :=
  match TryStringList v with
  | Some l => Some (map String l)
  | None =>
      match TryFloat64List v with
      | Some l => Some (map Float64 l)
      | None => None
      end
  end.

Definition TryWrapToList (v : Value) : res (list Value) :=
  match TryString v with
  | Some s => Ok [String s]
  | None =>
      match TryFloat64 v with
      | Some f => Ok [Float64 f]
      | None =>
          match TryListValues v with
          | Some l => Ok l
          | None => Err "unsupported type"
          end
      end
  end.
Definition WrapToList (v : Value) : list Value :=
  match TryWrapToList v with Ok l => l | Err _ => [] end.

Definition ValueList (vs : list Value) : Value :=
  match vs with
  | [] => StringList []
  | v0 :: _ =>
      if IsString v0 then StringList (map GetString vs)
      else if IsFloat64 v0 then Float64List (map GetFloat64 vs)
      else StringList []
  end.

Definition Value_Type (v : Value) : ValueType :=
  match v with
  | VInvalid => ValueTypeNone
  | VNull => ValueTypeNull
  | VBool _ => ValueTypeBool
  | VString _ => ValueTypeString
  | VFloat _ => ValueTypeFloat
  | VStringList _ => ValueTypeStringList
  | VFloatList _ => ValueTypeFloatList
  | VMap _ => ValueTypeMap
  end.

(** [Match] calls the callback of the value's type; [IsEmpty] is written with
    it.  A float value fires both the [Float64] and the [Int64] callback, of
    which [IsEmpty] sets only the first. *)
Definition IsEmpty (v : Value) : bool :=
  match v with
  | VInvalid => true
  | VNull => true
  | VBool b => negb b
  | VFloat f => f_eq f f_zero
  | VString s => bool_decide (s = "")
  | VStringList l => bool_decide (length l = 0)
  | VFloatList l => bool_decide (length l = 0)
  | VMap m => bool_decide (size m = 0)
  end.

(** ** Comparison *)

Definition sorted_keys (m : ValueMap) : list string := go_sort (map_to_list m).*1.

Definition bool_cmp (v1 v2 : bool) : Z :=
  if negb v1 && v2 then -1 else if Bool.eqb v1 v2 then 0 else 1.

(** The loop over [keysA] of [compareMaps], with the comparison of each entry
    of [a] already closed over it; [Get] of an absent key is invalid. *)
Fixpoint compare_keys (keys : list string) (ca : gmap string (Value → Z))
    (cinv : Value → Z) (b : ValueMap) : Z :=
  match keys with
  | [] => 0
  | k :: keys =>
      chain (default cinv (ca !! k) (default VInvalid (b !! k))) (compare_keys keys ca cinv b)
  end.

Fixpoint Compare (v other : Value) {struct v} : Z :=
  match v, other with
  | VInvalid, VInvalid => 0
  | VInvalid, _ => -1
  | _, VInvalid => 1
  | _, _ =>
      if (ValueType_int (Value_Type v) <? ValueType_int (Value_Type other))%Z then -1
      else if (ValueType_int (Value_Type other) <? ValueType_int (Value_Type v))%Z then 1
      else
        match v, other with
        | VNull, _ => 0
        | VBool v1, VBool v2 => bool_cmp v1 v2
        | VString v1, VString v2 => strings_Compare v1 v2
        | VFloat v1, VFloat v2 => float_ltgt v1 v2
        | VStringList v1, VStringList v2 => slices_Compare strings_Compare v1 v2
        | VFloatList v1, VFloatList v2 => slices_Compare float_Compare v1 v2
        | VMap a, VMap b =>
            if (Z.of_nat (size a) <? Z.of_nat (size b))%Z then -1
            else if (Z.of_nat (size b) <? Z.of_nat (size a))%Z then 1
            else
              chain (slices_Compare strings_Compare (sorted_keys a) (sorted_keys b))
                (compare_keys (sorted_keys a) (Compare <$> a)
                   (λ w, match w with VInvalid => 0 | _ => -1 end)%Z b)
        | _, _ => 0
        end
  end.

(** ** Equality *)

Definition slices_Equal {A} (e : A → A → bool) (l k : list A) : bool :=
  (length l =? length k) && forallb (λ '(x, y), e x y) (zip l k).

Fixpoint Equal (v other : Value) {struct v} : bool :=
  match v, other with
  | VInvalid, VInvalid => true
  | VNull, VNull => true
  | VBool v1, VBool v2 => Bool.eqb v1 v2
  | VString v1, VString v2 => bool_decide (v1 = v2)
  | VFloat v1, VFloat v2 => f_eq v1 v2
  | VStringList v1, VStringList v2 => slices_Equal (λ x y, bool_decide (x = y)) v1 v2
  | VFloatList v1, VFloatList v2 => slices_Equal f_eq v1 v2
  | VMap a, VMap b =>
      if negb (size a =? size b) then false
      else map_fold (λ _ r acc, r && acc) true
             (map_imap (λ k (e : Value → bool),
                          Some (match b !! k with Some w => e w | None => false end))
                       (Equal <$> a))
  | _, _ => false
  end.

(** ** Induction on values *)

Fixpoint vsize (v : Value) : nat :=
  match v with
  | VMap m => S (map_fold (λ _ v n, vsize v + n) 0 m)
  | _ => 0
  end.

Lemma vsize_child (m : ValueMap) k v : m !! k = Some v → vsize v < vsize (VMap m).
Proof.
  intros Hk. simpl. rewrite <- (insert_delete_id m k v Hk).
  rewrite (map_fold_insert_L (λ _ v n, vsize v + n)); [lia| |apply lookup_delete_eq].
  intros. lia.
Qed.

Lemma value_ind' (P : Value → Prop) :
  P VInvalid → P VNull → (∀ b, P (VBool b)) → (∀ s, P (VString s)) → (∀ f, P (VFloat f)) →
  (∀ l, P (VStringList l)) → (∀ l, P (VFloatList l)) →
  (∀ m, (∀ k v, m !! k = Some v → P v) → P (VMap m)) → ∀ v, P v.
Proof.
  intros H1 H2 H3 H4 H5 H6 H7 H8 v.
  induction v as [v IH] using (well_founded_induction (Wf_nat.well_founded_ltof _ vsize)).
  destruct v; auto. apply H8. intros k v Hk. apply IH. by eapply vsize_child.
Qed.

(** Values that hold no NaN, at any depth. *)
Inductive nan_free : Value → Prop :=
| nf_invalid : nan_free VInvalid
| nf_null : nan_free VNull
| nf_bool b : nan_free (VBool b)
| nf_string s : nan_free (VString s)
| nf_float f : not_nan f → nan_free (VFloat f)
| nf_strings l : nan_free (VStringList l)
| nf_floats l : Forall not_nan l → nan_free (VFloatList l)
| nf_map (m : ValueMap) : (∀ k v, m !! k = Some v → nan_free v) → nan_free (VMap m).

(** ** The comparison of maps as a comparison of value lists *)

Definition get_or_invalid (m : ValueMap) (k : string) : Value := default VInvalid (m !! k).

Lemma sorted_keys_elem_of m k : k ∈ sorted_keys m ↔ is_Some (m !! k).
Proof.
  unfold sorted_keys. rewrite go_sort_elem_of, list_elem_of_fmap. split.
  - intros ([k' v] & -> & Hin%elem_of_map_to_list). simpl. eauto.
  - intros [v Hv]. exists (k, v). split; [done|]. by apply elem_of_map_to_list.
Qed.

Lemma compare_keys_vals keys (a b : ValueMap) cinv :
  (∀ k, k ∈ keys → is_Some (a !! k)) →
  compare_keys keys (Compare <$> a) cinv b =
    slices_Compare Compare (map (get_or_invalid a) keys) (map (get_or_invalid b) keys).
Proof.
  induction keys as [|k keys IH]; intros Hk; simpl; [done|].
  rewrite lookup_fmap. destruct (Hk k) as [v Hv]; [by left|].
  unfold get_or_invalid at 1 3. rewrite Hv. simpl. f_equal.
  apply IH. intros k' Hk'. apply Hk. by right.
Qed.

Definition map_cmp (a b : ValueMap) : Z :=
  chain (Zcmp (Z.of_nat (size a)) (Z.of_nat (size b)))
    (chain (slices_Compare strings_Compare (sorted_keys a) (sorted_keys b))
       (slices_Compare Compare (map (get_or_invalid a) (sorted_keys a))
          (map (get_or_invalid b) (sorted_keys a)))).

Lemma Compare_map a b : Compare (VMap a) (VMap b) = map_cmp a b.
Proof.
  unfold map_cmp. cbn -[Z.of_nat]. rewrite compare_keys_vals by (intros k; apply sorted_keys_elem_of).
  unfold Zcmp. unfold chain at 2. repeat case_match; try done; lia.
Qed.

Lemma sorted_keys_cmp_zero a b :
  slices_Compare strings_Compare (sorted_keys a) (sorted_keys b) = 0%Z ↔ sorted_keys a = sorted_keys b.
Proof.
  rewrite (slices_Compare_zero _ (λ x y, bool_decide (x = y))).
  - split.
    + intros Hf. apply list_eq_Forall2. eapply Forall2_impl; [done|].
      intros x y. apply bool_decide_eq_true.
    + intros ->. apply Forall_Forall2_diag, Forall_forall. intros x _. by apply bool_decide_eq_true.
  - intros x y _ _. by rewrite strings_Compare_zero, bool_decide_eq_true.
Qed.

Lemma get_or_invalid_in m keys v :
  v ∈ map (get_or_invalid m) keys → v = VInvalid ∨ ∃ k, m !! k = Some v.
Proof.
  rewrite list_elem_of_In, in_map_iff. intros (k & <- & _). unfold get_or_invalid.
  destruct (m !! k) eqn:E; simpl; eauto.
Qed.

(** ** Order and equality laws *)

Definition same_type_cmp (v w : Value) : Z :=
  match v, w with
  | VBool v1, VBool v2 => bool_cmp v1 v2
  | VString v1, VString v2 => strings_Compare v1 v2
  | VFloat v1, VFloat v2 => float_ltgt v1 v2
  | VStringList v1, VStringList v2 => slices_Compare strings_Compare v1 v2
  | VFloatList v1, VFloatList v2 => slices_Compare float_Compare v1 v2
  | VMap a, VMap b => map_cmp a b
  | _, _ => 0
  end.

Definition type_cmp (v w : Value) : Z :=
  Zcmp (ValueType_int (Value_Type v)) (ValueType_int (Value_Type w)).

Lemma Compare_by_type v w : Compare v w = chain (type_cmp v w) (same_type_cmp v w).
Proof.
  destruct v, w; try reflexivity. rewrite Compare_map. reflexivity.
Qed.

Lemma type_cmp_zero v w : type_cmp v w = 0%Z → Value_Type v = Value_Type w.
Proof. unfold type_cmp. rewrite Zcmp_zero. by destruct v, w. Qed.

Lemma float_Compare_cmp_on : cmp_on not_nan float_Compare.
Proof.
  destruct float_cmp_on as [Ha Ht]. split; intros; rewrite !float_Compare_ltgt by done; auto.
Qed.

Lemma bool_cmp_antisym a b : bool_cmp a b = (- bool_cmp b a)%Z.
Proof. by destruct a, b. Qed.
Lemma bool_cmp_trans3 a b c : trans3 (bool_cmp a b) (bool_cmp b c) (bool_cmp a c).
Proof. unfold trans3, bool_cmp. destruct a, b, c; simpl; lia. Qed.

Lemma strings_list_antisym l k :
  slices_Compare strings_Compare l k = (- slices_Compare strings_Compare k l)%Z.
Proof. apply slices_antisym. intros. apply strings_Compare_antisym. Qed.

Lemma strings_list_trans3 l k m :
  trans3 (slices_Compare strings_Compare l k) (slices_Compare strings_Compare k m)
         (slices_Compare strings_Compare l m).
Proof. apply slices_trans3. intros. by apply (cmp_trans3 _ _ strings_cmp_on). Qed.

Lemma Compare_antisym_aux v w :
  nan_free v → nan_free w → Compare v w = (- Compare w v)%Z.
Proof.
  revert w. induction v as [| |b|s|f|l|l|m IH] using value_ind'; intros w Hv Hw;
    rewrite (Compare_by_type w), Compare_by_type;
    (apply chain_antisym; [apply Zcmp_antisym|intros E%type_cmp_zero]);
    destruct w; simplify_eq/=; inversion Hv; inversion Hw; subst; try done.
  - apply bool_cmp_antisym.
  - apply strings_Compare_antisym.
  - by apply float_cmp_on.
  - apply strings_list_antisym.
  - by apply (slices_cmp_on _ _ float_Compare_cmp_on).
  - unfold map_cmp. apply chain_antisym; [apply Zcmp_antisym|]. intros _.
    apply chain_antisym; [apply strings_list_antisym|]. intros E1%sorted_keys_cmp_zero.
    rewrite <- E1. apply slices_antisym. intros x y Hx Hy.
    apply get_or_invalid_in in Hx as [->|[k Hx]]; [by destruct y|].
    apply get_or_invalid_in in Hy as [->|[k' Hy]]; [by destruct x|]. eauto.
Qed.

Lemma Compare_trans3_aux v w u :
  nan_free v → nan_free w → nan_free u → trans3 (Compare v w) (Compare w u) (Compare v u).
Proof.
  revert w u. induction v as [| |b|s|f|l|l|m IH] using value_ind'; intros w u Hv Hw Hu;
    rewrite (Compare_by_type w u), (Compare_by_type _ u), (Compare_by_type _ w);
    (apply trans3_chain; [apply Zcmp_trans3|intros E1%type_cmp_zero E2%type_cmp_zero]);
    destruct w, u; simplify_eq/=; inversion Hv; inversion Hw; inversion Hu; subst;
    try apply trans3_zero.
  - apply bool_cmp_trans3.
  - by apply (cmp_trans3 _ _ strings_cmp_on).
  - by apply (cmp_trans3 _ _ float_cmp_on).
  - apply strings_list_trans3.
  - by apply (cmp_trans3 _ _ (slices_cmp_on _ _ float_Compare_cmp_on)).
  - unfold map_cmp. apply trans3_chain; [apply Zcmp_trans3|]. intros _ _.
    apply trans3_chain; [apply strings_list_trans3|].
    intros K1%sorted_keys_cmp_zero K2%sorted_keys_cmp_zero. rewrite <- K1.
    apply slices_trans3. intros x y z Hx Hy Hz.
    assert (∀ (n : ValueMap) keys w, (∀ k v, n !! k = Some v → nan_free v) →
      w ∈ map (get_or_invalid n) keys → nan_free w) as Hn.
    { intros n keys w Hall [->|[k ?]]%get_or_invalid_in; [constructor|eauto]. }
    apply get_or_invalid_in in Hx as [->|[k Hx]]; [|by eapply IH; eauto].
    rewrite (Compare_by_type y z), (Compare_by_type _ z), (Compare_by_type _ y).
    apply trans3_chain; [apply Zcmp_trans3|]. intros F1%type_cmp_zero F2%type_cmp_zero.
    destruct y, z; simplify_eq/=; apply trans3_zero.
Qed.

Lemma map_fold_andb (m : gmap string bool) :
  map_fold (λ _ r acc, r && acc) true m = true ↔ map_Forall (λ _ r, r = true) m.
Proof.
  induction m as [|k r m Hk IH] using map_ind.
  - rewrite map_fold_empty. split; [intros _; apply map_Forall_empty|done].
  - rewrite map_fold_insert_L; [|intros; by rewrite !andb_assoc, (andb_comm z1)|done].
    rewrite map_Forall_insert by done. rewrite andb_true_iff, IH. done.
Qed.

Lemma Equal_map (a b : ValueMap) :
  Equal (VMap a) (VMap b) = true ↔
  size a = size b ∧ ∀ k v, a !! k = Some v → ∃ w, b !! k = Some w ∧ Equal v w = true.
Proof.
  cbn -[Nat.eqb]. destruct (Nat.eqb_spec (size a) (size b)) as [Es|]; simpl; [|naive_solver].
  rewrite map_fold_andb. split.
  - intros Hall. split; [done|]. intros k v Hk.
    specialize (Hall k (match b !! k with Some w => Equal v w | None => false end)).
    destruct (b !! k) as [w|] eqn:Eb; [exists w; split; [done|]|]; (apply Hall || discriminate Hall);
      rewrite map_lookup_imap, lookup_fmap, Hk; simpl; by rewrite Eb.
  - intros [_ Hall] k r. rewrite map_lookup_imap, lookup_fmap.
    destruct (a !! k) as [v|] eqn:Hk; simpl; [|done].
    destruct (Hall k v Hk) as (w & -> & Hw). congruence.
Qed.

Lemma sorted_keys_eq (a b : ValueMap) :
  (∀ k, is_Some (a !! k) ↔ is_Some (b !! k)) → sorted_keys a = sorted_keys b.
Proof.
  intros Hk. apply go_sort_eq_iff, NoDup_Permutation; [apply NoDup_fst_map_to_list..|].
  intros k. pose proof (sorted_keys_elem_of a k) as Ha. pose proof (sorted_keys_elem_of b k) as Hb.
  unfold sorted_keys in Ha, Hb. rewrite go_sort_elem_of in Ha, Hb. by rewrite Ha, Hb.
Qed.

Lemma subdom_same_size (a b : ValueMap) :
  size a = size b → (∀ k, is_Some (a !! k) → is_Some (b !! k)) →
  ∀ k, is_Some (a !! k) ↔ is_Some (b !! k).
Proof.
  intros Es Hs k. split; [apply Hs|].
  assert (dom a = dom b) as Ed.
  { apply set_eq_subseteq. assert (dom a ⊆ dom b) as Hsub.
    { intros i. rewrite !elem_of_dom. apply Hs. }
    split; [done|]. apply set_subseteq_size_eq in Hsub; [|by rewrite !size_dom, Es].
    by rewrite Hsub. }
  by rewrite <- !elem_of_dom, Ed.
Qed.

Lemma slices_Equal_Forall2 {A} (e : A → A → bool) l k :
  slices_Equal e l k = true ↔ Forall2 (λ x y, e x y = true) l k.
Proof.
  unfold slices_Equal. revert k. induction l as [|x l IH]; intros [|y k]; simpl.
  - split; [constructor|done].
  - split; [done|]. inversion 1.
  - split; [done|]. inversion 1.
  - rewrite Forall2_cons, <- IH. rewrite !andb_true_iff. tauto.
Qed.

Lemma Equal_Compare_zero v w :
  nan_free v → nan_free w → Equal v w = true ↔ Compare v w = 0%Z.
Proof.
  revert w. induction v as [| |b|s|f|l|l|m IH] using value_ind'; intros w Hv Hw;
    destruct w as [| |b'|s'|f'|l'|l'|m']; try done; inversion Hv; inversion Hw; subst.
  - by destruct b, b'.
  - simpl. by rewrite strings_Compare_zero, bool_decide_eq_true.
  - simpl. by apply f_eq_ltgt.
  - simpl. rewrite slices_Equal_Forall2. symmetry. apply slices_Compare_zero.
    intros x y _ _. by rewrite strings_Compare_zero, bool_decide_eq_true.
  - simpl. rewrite slices_Equal_Forall2. symmetry. apply slices_Compare_zero.
    intros x y Hx Hy. rewrite Forall_forall in *. rewrite float_Compare_ltgt by auto.
    symmetry. apply f_eq_ltgt; auto.
  - rewrite Equal_map, Compare_map. unfold map_cmp. rewrite chain_zero, Zcmp_zero, chain_zero,
      sorted_keys_cmp_zero, (slices_Compare_zero _ Equal).
    + split.
      * intros [Es Hall]. split; [lia|].
        assert (∀ k, is_Some (m !! k) ↔ is_Some (m' !! k)) as Hd.
        { apply subdom_same_size; [done|]. intros k [v Hk]. destruct (Hall k v Hk) as (u & -> & _). eauto. }
        split; [by apply sorted_keys_eq|]. apply Forall2_fmap, Forall_Forall2_diag, Forall_forall.
        intros k [v Hk]%sorted_keys_elem_of. destruct (Hall k v Hk) as (u & Hu & ?).
        unfold get_or_invalid. by rewrite Hk, Hu.
      * intros (Es & Ek & Hall). split; [lia|]. intros k v Hk.
        assert (k ∈ sorted_keys m) as Hin by (apply sorted_keys_elem_of; eauto).
        pose proof Hin as Hin'. rewrite Ek in Hin'. apply sorted_keys_elem_of in Hin' as [u Hu].
        exists u. split; [done|]. apply (Forall2_fmap (get_or_invalid m) (get_or_invalid m')) in Hall.
        apply (Forall2_diag_elem _ _ k) in Hall; [|done].
        unfold get_or_invalid in Hall. by rewrite Hk, Hu in Hall.
    + intros x y Hx Hy. apply get_or_invalid_in in Hx as [->|[k Hx]]; [by destruct y|].
      apply get_or_invalid_in in Hy as [->|[k' Hy]]; [by destruct x|]. symmetry. eauto.
Qed.

(** ** Properties *)

(** C38. On values without NaN [Compare] is the three-way comparison of a total
    preorder (antisymmetric, transitive, strict when one step is strict), so
    sorting and range filters are well defined, and its ties are exactly the
    pairs [Equal] identifies: filters, sorts and change detection agree. *)
Theorem Compare_total_preorder (v w u : Value) :
  nan_free v → nan_free w → nan_free u →
  Compare v w = (- Compare w v)%Z ∧
  ((Compare v w ≤ 0 → Compare w u ≤ 0 → Compare v u ≤ 0)%Z) ∧
  ((Compare v w < 0 → Compare w u ≤ 0 → Compare v u < 0)%Z) ∧
  (Equal v w = true ↔ Compare v w = 0%Z).
Proof.
  intros Hv Hw Hu. pose proof (Compare_trans3_aux v w u Hv Hw Hu) as [Ht _].
  split_and!; [by apply Compare_antisym_aux|naive_solver|naive_solver lia|by apply Equal_Compare_zero].
Qed.

Lemma Compare_total_preorder_witness :
  let v := VMap {["a" := VFloatList [float_of_Z 1]]} in
  let w := VMap {["a" := VFloatList [float_of_Z 2]]} in
  let u := VMap {["b" := VNull; "c" := VString "x"]} in
  Compare v w = (- Compare w v)%Z ∧
  ((Compare v w ≤ 0 → Compare w u ≤ 0 → Compare v u ≤ 0)%Z) ∧
  ((Compare v w < 0 → Compare w u ≤ 0 → Compare v u < 0)%Z) ∧
  (Equal v w = true ↔ Compare v w = 0%Z).
Proof.
  intros v w u. apply Compare_total_preorder; constructor; intros k x Hk;
    repeat (apply lookup_insert_Some in Hk as [[<- <-]|[_ Hk]]); simplify_map_eq;
    repeat constructor.
Defined.
