(* ===== verification/PbTypes.v ===== *)
(** * Protobuf structs ([util/pbtypes])

    [types.Value] and [types.Struct] of the protobuf runtime are plain data: a
    kind and a map of fields.  A nil [*types.Value] is [PNil] and a value whose
    [Kind] is nil is [PNoKind].  Covered: the list and scalar constructors, the
    normalisation and validation of incoming structs and relation links. *)

From S2P Require Import Prelude Slice GoFloat.

Inductive PbValue : Type :=
| PNil
| PNoKind
| PNull
| PBool (b : bool)
| PString (s : string)
| PNumber (f : float64)
| PStruct (m : gmap string PbValue)
| PList (l : list PbValue).

(** ** Constructors and readers *)

Definition pb_Int64 (v : Z) : PbValue := PNumber (float_of_Z v).
Definition pb_Float64 (v : float64) : PbValue := PNumber v.
Definition pb_Null : PbValue := PNull.
Definition pb_String (v : string) : PbValue := PString v.
Definition pb_Bool (v : bool) : PbValue := PBool v.
Definition pb_StringList (s : list string) : PbValue := PList (map pb_String s).
Definition pb_IntList (ints : list Z) : PbValue := PList (map pb_Int64 ints).
Definition pb_Float64List (floats : list float64) : PbValue := PList (map pb_Float64 floats).

Definition NilToNullWrapper (v : PbValue) : PbValue :=
  match v with PNil | PNoKind => pb_Null | _ => v end.

Definition ListValueToStrings (l : list PbValue) : list string :=
  foldl (λ acc v, match v with PString s => acc ++ [s] | _ => acc end) [] l.

Definition ListValueToFloats (l : list PbValue) : list float64 :=
  foldl (λ acc v, match v with PNumber f => acc ++ [f] | _ => acc end) [] l.

(** ** Normalisation

    The functions write in place; here they return the rewritten value with the
    [wasNormalized] flag.  A nil kind is replaced without raising the flag. *)

Fixpoint NormalizeValue (t : PbValue) : PbValue * bool :=
  match t with
  | PStruct m =>
      let m' := (λ v, match v with PNil => (PNull, true) | _ => NormalizeValue v end) <$> m in
      (PStruct (fst <$> m'), map_fold (λ _ r acc, r.2 || acc) false m')
  | PList l =>
      let l' := map (λ v, match v with PNil => (PNull, true) | _ => NormalizeValue v end) l in
      (PList (map fst l'), existsb snd l')
  | PNoKind => (PNull, false)
  | _ => (t, false)
  end.

Definition NormalizeStruct (m : gmap string PbValue) : gmap string PbValue * bool :=
  match NormalizeValue (PStruct m) with
  | (PStruct m', b) => (m', b)
  | (_, b) => (m, b)
  end.

(** ** Validation: [None] is the nil error. *)

Fixpoint ValidateValue (t : PbValue) : option string :=
  match t with
  | PStruct m =>
      map_fold (λ _ r acc, match r with Some e => Some e | None => acc end) None
        ((λ v, match v with PNil => Some "map value is nil" | _ => ValidateValue v end) <$> m)
  | PList l =>
      fold_right (λ r acc, match r with Some e => Some e | None => acc end) None
        (map (λ v, match v with PNil => Some "list value is nil" | _ => ValidateValue v end) l)
  | PNoKind => Some "value Kind is nil"
  | _ => None
  end.

Definition ValidateStruct (m : gmap string PbValue) : option string := ValidateValue (PStruct m).

(** ** Relation links ([relationlink.go]) *)

Record RelationLink := { rl_Key : string; rl_Format : Z }.

Fixpoint rl_Get (rl : list RelationLink) (key : string) : option RelationLink :=
  match rl with
  | [] => None
  | l :: rl => if bool_decide (rl_Key l = key) then Some l else rl_Get rl key
  end.

Fixpoint rl_Has (rl : list RelationLink) (key : string) : bool :=
  match rl with
  | [] => false
  | l :: rl => if bool_decide (rl_Key l = key) then true else rl_Has rl key
  end.

Definition rl_Append (rl : list RelationLink) (l : RelationLink) : list RelationLink := rl ++ [l].

(** Compacts the receiver's backing array in place. *)
Definition rl_Remove (rl : list RelationLink) (keys : list string) : list RelationLink :=
  compact (λ _ x, negb (bool_decide (rl_Key x ∈ keys))) rl.

Definition rl_Copy (rl : list RelationLink) : list RelationLink :=
  foldl (λ res l, res ++ [{| rl_Key := rl_Key l; rl_Format := rl_Format l |}]) [] rl.

Definition rl_Diff (rl prev : list RelationLink) : list RelationLink * list string :=
  let '(added, common) :=
    foldl (λ '(added, common) l,
             if negb (rl_Has prev (rl_Key l)) then (added ++ [l], common)
             else (added, {[rl_Key l]} ∪ common)) ([], ∅ : gset string) rl in
  let removed :=
    foldl (λ removed l, if bool_decide (rl_Key l ∈ common) then removed
                        else removed ++ [rl_Key l]) [] prev in
  (added, removed).

(** ** Induction *)

Fixpoint psize (v : PbValue) : nat :=
  match v with
  | PStruct m => S (map_fold (λ _ v n, psize v + n) 0 m)
  | PList l => S (fold_right (λ v n, psize v + n) 0 l)
  | _ => 0
  end.

Lemma psize_field (m : gmap string PbValue) k v : m !! k = Some v → psize v < psize (PStruct m).
Proof.
  intros Hk. simpl. rewrite <- (insert_delete_id m k v Hk).
  rewrite (map_fold_insert_L (λ _ v n, psize v + n)); [lia| |apply lookup_delete_eq].
  intros. lia.
Qed.

Lemma psize_item l v : v ∈ l → psize v < psize (PList l).
Proof.
  simpl. induction l as [|x l IH]; intros Hv; [by apply elem_of_nil in Hv|].
  simpl. apply elem_of_cons in Hv as [->|Hv]; [lia|]. specialize (IH Hv). lia.
Qed.

Lemma pb_ind' (P : PbValue → Prop) :
  (∀ v, (∀ m, v ≠ PStruct m) → (∀ l, v ≠ PList l) → P v) →
  (∀ m, (∀ k v, m !! k = Some v → P v) → P (PStruct m)) →
  (∀ l, (∀ v, v ∈ l → P v) → P (PList l)) → ∀ v, P v.
Proof.
  intros H1 H2 H3 v.
  induction v as [v IH] using (well_founded_induction (Wf_nat.well_founded_ltof _ psize)).
  destruct v; try (apply H1; done).
  - apply H2. intros k v Hk. apply IH. by eapply psize_field.
  - apply H3. intros v Hv. apply IH. by apply psize_item.
Qed.

(** ** Lemmas *)

Lemma ListValueToStrings_foldl l acc :
  foldl (λ acc v, match v with PString s => acc ++ [s] | _ => acc end) acc (map pb_String l) = acc ++ l.
Proof.
  revert acc. induction l as [|s l IH]; intros acc; simpl; [by rewrite app_nil_r|].
  by rewrite IH, <- app_assoc.
Qed.

Lemma ListValueToStrings_of_strings l : ListValueToStrings (map pb_String l) = l.
Proof. apply ListValueToStrings_foldl. Qed.

Lemma ListValueToFloats_of_floats l : ListValueToFloats (map pb_Float64 l) = l.
Proof.
  unfold ListValueToFloats. enough (∀ acc, foldl (λ acc v, match v with PNumber f => acc ++ [f]
    | _ => acc end) acc (map pb_Float64 l) = acc ++ l) as -> by done.
  induction l as [|s l IH]; intros acc; simpl; [by rewrite app_nil_r|]. by rewrite IH, <- app_assoc.
Qed.

Lemma ListValueToFloats_of_strings l : ListValueToFloats (map pb_String l) = [].
Proof.
  unfold ListValueToFloats. enough (∀ acc, foldl (λ acc v, match v with PNumber f => acc ++ [f]
    | _ => acc end) acc (map pb_String l) = acc) as -> by done.
  induction l as [|s l IH]; intros acc; simpl; [done|]. apply IH.
Qed.

(** A nested value is an element of a container: a nil pointer is an error of
    the container. *)
Definition valid_item (msg : string) (v : PbValue) : option string :=
  match v with PNil => Some msg | _ => ValidateValue v end.

Lemma valid_item_None msg v : valid_item msg v = None ↔ v ≠ PNil ∧ ValidateValue v = None.
Proof. destruct v; naive_solver. Qed.

Lemma first_error_None (m : gmap string (option string)) :
  map_fold (λ _ r acc, match r with Some e => Some e | None => acc end) None m = None ↔
  ∀ k r, m !! k = Some r → r = None.
Proof.
  apply (map_fold_weak_ind (λ acc m, acc = None ↔ ∀ k r, m !! k = Some r → r = None)).
  - split; [|done]. intros _ k r Hk. by rewrite lookup_empty in Hk.
  - intros k r m' acc Hk IH. split.
    + destruct r; [done|]. intros Hacc j s.
      rewrite lookup_insert_Some. intros [[<- <-]|[_ Hj]]; [done|]. rewrite IH in Hacc. eauto.
    + intros Hall. rewrite (Hall k r) by apply lookup_insert_eq. apply IH. intros j s Hj.
      apply (Hall j). rewrite lookup_insert_ne; [done|]. congruence.
Qed.

Lemma ValidateStruct_None (m : gmap string PbValue) :
  ValidateValue (PStruct m) = None ↔ ∀ k v, m !! k = Some v → v ≠ PNil ∧ ValidateValue v = None.
Proof.
  change (ValidateValue (PStruct m)) with
    (map_fold (λ _ r acc, match r with Some e => Some e | None => acc end) None
       (valid_item "map value is nil" <$> m)).
  rewrite first_error_None. setoid_rewrite lookup_fmap. split.
  - intros Hall k v Hk. specialize (Hall k). rewrite Hk in Hall.
    by eapply valid_item_None, Hall.
  - intros Hall k r. destruct (m !! k) as [v|] eqn:Hk; simpl; [|done].
    intros [= <-]. apply valid_item_None. eauto.
Qed.

Lemma ValidateList_None (l : list PbValue) :
  ValidateValue (PList l) = None ↔ ∀ v, v ∈ l → v ≠ PNil ∧ ValidateValue v = None.
Proof.
  induction l as [|x l IH].
  { split; [|done]. intros _ v Hv. by apply elem_of_nil in Hv. }
  change (ValidateValue (PList (x :: l))) with
    (match valid_item "list value is nil" x with Some e => Some e | None => ValidateValue (PList l) end).
  setoid_rewrite elem_of_cons. destruct (valid_item _ x) as [e|] eqn:Ex.
  - split; [done|]. intros Hall. assert (valid_item "list value is nil" x = None); [|congruence].
    apply valid_item_None. auto.
  - apply valid_item_None in Ex. rewrite IH. naive_solver.
Qed.

Lemma NormalizeValue_ne_nil v : v ≠ PNil → (NormalizeValue v).1 ≠ PNil.
Proof. by destruct v. Qed.

Lemma NormalizeValue_valid v : ValidateValue (NormalizeValue v).1 = None.
Proof.
  induction v as [v Hs Hl|m IH|l IH] using pb_ind'.
  - destruct v; try done; [by destruct (Hs m)|by destruct (Hl l)].
  - cbn [NormalizeValue fst]. apply ValidateStruct_None. intros k v.
    rewrite !lookup_fmap. destruct (m !! k) as [x|] eqn:Hk; simpl; [|done].
    intros [= <-]. specialize (IH k x Hk). by destruct x.
  - cbn [NormalizeValue fst]. apply ValidateList_None. intros v Hv.
    rewrite map_map, list_elem_of_In, in_map_iff in Hv. destruct Hv as (x & <- & Hx).
    specialize (IH x). rewrite list_elem_of_In in IH. specialize (IH Hx). by destruct x.
Qed.

(** A value that validates is left alone. *)
Lemma NormalizeValue_fixed v : ValidateValue v = None → NormalizeValue v = (v, false).
Proof.
  induction v as [v Hs Hl|m IH|l IH] using pb_ind'.
  - destruct v; try done; [by destruct (Hs m)|by destruct (Hl l)].
  - rewrite ValidateStruct_None. intros Hm.
    assert (∀ k x, m !! k = Some x →
      match x with PNil => (PNull, true) | _ => NormalizeValue x end = (x, false)) as Hx.
    { intros k x Hk. destruct (Hm k x Hk) as [Hn Hv]. rewrite <- (IH k x Hk Hv). by destruct x. }
    cbn [NormalizeValue]. f_equal.
    + f_equal. apply map_eq. intros k. rewrite !lookup_fmap.
      destruct (m !! k) as [x|] eqn:Hk; simpl; [|done]. by rewrite (Hx k x Hk).
    + assert (∀ k r, ((λ v, match v with PNil => (PNull, true) | _ => NormalizeValue v end) <$> m)
                       !! k = Some r → r.2 = false) as Hf.
      { intros k r. rewrite lookup_fmap. destruct (m !! k) as [x|] eqn:Hk; simpl; [|done].
        rewrite (Hx k x Hk). by intros [= <-]. }
      revert Hf. generalize ((λ v, match v with PNil => (PNull, true) | _ => NormalizeValue v end) <$> m).
      intros m'. apply (map_fold_weak_ind (λ acc m', (∀ k r, m' !! k = Some r → r.2 = false) → acc = false)).
      * done.
      * intros k r m1 acc Hk IHm Hall. rewrite (Hall k r) by apply lookup_insert_eq. apply IHm.
        intros j s Hj. apply (Hall j). rewrite lookup_insert_ne; [done|]. congruence.
  - rewrite ValidateList_None. intros Hm. cbn [NormalizeValue].
    assert (map (λ v, match v with PNil => (PNull, true) | _ => NormalizeValue v end) l
            = map (λ v, (v, false)) l) as ->.
    { apply map_ext_in. intros x Hx. rewrite <- list_elem_of_In in Hx.
      destruct (Hm x Hx) as [Hn Hv]. rewrite <- (IH x Hx Hv). by destruct x. }
    rewrite map_map. simpl. f_equal.
    + f_equal. apply map_id.
    + clear. by induction l.
Qed.

(** ** Properties *)

(** Normalising a struct makes it acceptable to the validation, whatever
    nil pointers and missing kinds it holds, and changes nothing (and reports
    nothing) when the struct was already valid. *)
Theorem NormalizeStruct_valid (m : gmap string PbValue) :
  ValidateStruct (NormalizeStruct m).1 = None ∧
  (ValidateStruct m = None → NormalizeStruct m = (m, false)).
Proof.
  unfold ValidateStruct, NormalizeStruct. split.
  - pose proof (NormalizeValue_valid (PStruct m)) as Hv. by simpl in *.
  - intros Hv. by rewrite (NormalizeValue_fixed _ Hv).
Qed.

Lemma NormalizeStruct_valid_witness :
  ValidateStruct (NormalizeStruct {["a" := PList [PString "x"]]}).1 = None ∧
  NormalizeStruct {["a" := PList [PString "x"]]} = ({["a" := PList [PString "x"]]}, false).
Proof.
  split; [apply NormalizeStruct_valid|]. apply NormalizeStruct_valid. reflexivity.
Defined.

(** The [wasNormalized] flag misses a replaced nil kind: there is a struct
    that normalisation changes although it reports that it did not. *)
Theorem NormalizeStruct_flag_misses_nil_kind :
  ∃ m, (NormalizeStruct m).2 = false ∧ (NormalizeStruct m).1 ≠ m.
Proof.
  exists {["a" := PNoKind]}. split; [reflexivity|].
  intros E. apply (f_equal (λ m, m !! "a")) in E. vm_compute in E. discriminate.
Qed.

(** ** Relation links *)

Lemma rl_Has_keys rl key : rl_Has rl key = true ↔ key ∈ rl_Key <$> rl.
Proof.
  induction rl as [|l rl IH]; simpl; [split; [done|by intros ?%elem_of_nil]|].
  case_bool_decide; rewrite elem_of_cons, ?IH; naive_solver.
Qed.

Lemma rl_Diff_spec rl prev :
  rl_Diff rl prev = (filter (λ l, rl_Key l ∉ rl_Key <$> prev) rl,
                     filter (λ k, k ∉ rl_Key <$> rl) (rl_Key <$> prev)).
Proof.
  unfold rl_Diff.
  assert (∀ added (common : gset string), foldl (λ '(added, common) l,
      if negb (rl_Has prev (rl_Key l)) then (added ++ [l], common)
      else (added, {[rl_Key l]} ∪ common)) (added, common) rl
    = (added ++ filter (λ l, rl_Key l ∉ rl_Key <$> prev) rl,
       list_to_set (filter (λ k, k ∈ rl_Key <$> prev) (rl_Key <$> rl)) ∪ common)) as ->.
  { induction rl as [|l rl IH]; intros added common.
    { simpl. rewrite app_nil_r, (left_id_L ∅ (∪)). done. }
    simpl. pose proof (rl_Has_keys prev (rl_Key l)) as Hk.
    rewrite !filter_cons. destruct (rl_Has prev (rl_Key l)); simpl; rewrite IH.
    - rewrite decide_False, decide_True by naive_solver. f_equal. simpl. set_solver.
    - rewrite decide_True, decide_False by naive_solver. f_equal. by rewrite <- app_assoc. }
  f_equal. rewrite (right_id_L ∅ (∪)).
  set (common := list_to_set _). enough (∀ acc, foldl (λ removed l,
      if bool_decide (rl_Key l ∈ common) then removed else removed ++ [rl_Key l]) acc prev
    = acc ++ filter (λ k, k ∉ common) (rl_Key <$> prev)) as ->.
  { simpl. apply filter_ext_elem. intros k Hk. unfold common.
    rewrite elem_of_list_to_set, list_elem_of_filter. naive_solver. }
  generalize common. clear. intros common.
  induction prev as [|l prev IH]; intros acc; simpl; [by rewrite app_nil_r|].
  rewrite IH, filter_cons. case_bool_decide; case_decide; try done. by rewrite <- app_assoc.
Qed.

Lemma rl_Remove_spec rl keys : rl_Remove rl keys = filter (λ l, rl_Key l ∉ keys) rl.
Proof.
  unfold rl_Remove. rewrite compact_ifilter. apply ifilter_filter.
  intros _ x. case_bool_decide; case_bool_decide; tauto.
Qed.

(** The difference of two lists of relation links carries one into the
    other: removing the removed keys from the previous list and appending the
    added links gives exactly the keys of the new list, without touching the
    common links. *)
Theorem rl_Diff_patch (rl prev : list RelationLink) :
  let '(added, removed) := rl_Diff rl prev in
  (∀ key, rl_Has (rl_Remove prev removed ++ added) key = rl_Has rl key) ∧
  (∀ l, l ∈ prev → rl_Has rl (rl_Key l) = true → l ∈ rl_Remove prev removed ++ added).
Proof.
  rewrite rl_Diff_spec. split.
  - intros key. apply eq_true_iff_eq. rewrite !rl_Has_keys, fmap_app, elem_of_app.
    rewrite rl_Remove_spec, !list_elem_of_fmap. setoid_rewrite list_elem_of_filter.
    setoid_rewrite list_elem_of_filter. split.
    + intros [(l & -> & Hn & Hl)|(l & -> & _ & Hl)]; [|eauto].
      destruct (decide (rl_Key l ∈ rl_Key <$> rl)) as [Hin|Hin];
        [by apply list_elem_of_fmap in Hin|].
      exfalso. apply Hn. split; [done|]. by apply list_elem_of_fmap_2.
    + intros (l & -> & Hl). destruct (decide (rl_Key l ∈ rl_Key <$> prev)) as [Hin|Hin].
      * left. apply list_elem_of_fmap in Hin as (l' & E & Hl'). exists l'. split; [done|].
        split; [|done]. rewrite <- E. intros [Hc _]. by apply Hc, list_elem_of_fmap_2.
      * right. exists l. eauto.
  - intros l Hl Hk%rl_Has_keys. apply elem_of_app. left. rewrite rl_Remove_spec.
    apply list_elem_of_filter. split; [|done]. rewrite list_elem_of_filter. tauto.
Qed.
