(* ===== verification/Details.v ===== *)
(** * Details of an object ([core/domain/genericmap.go], [details.go])

    [GenericMap] is a pointer to a struct with one map, so a value of type
    [Details] is [None] for the nil pointer.  Methods that only read accept nil;
    methods that write through it panic, which is [Err].  A [range] over the map
    has an unspecified order: it is [map_to_list] here, and the theorems do not
    depend on that order.  The [anyenc] encoding belongs to another module and is
    an interface ([AnyEnc]) with the laws its documentation gives. *)

From S2P Require Import Prelude Slice GoFloat Values PbTypes.

Definition Details := option (gmap string Value).

Definition nil_deref : string := "nil pointer dereference".

(** ** Writing *)

Definition NewDetails : Details := Some ∅.
Definition NewDetailsFromMap (m : gmap string Value) : Details := Some m.
Definition NewDetailsWithSize (size : Z) : Details := Some ∅.

Definition d_Set (d : Details) (key : string) (value : Value) : res Details :=
  match d with Some m => Ok (Some (<[key := value]> m)) | None => Err nil_deref end.
Definition d_SetNull (d : Details) key : res Details := d_Set d key Null.
Definition d_SetBool (d : Details) key (value : bool) : res Details := d_Set d key (Bool value).
Definition d_SetString (d : Details) key (value : string) : res Details := d_Set d key (String value).
Definition d_SetInt64 (d : Details) key (value : Z) : res Details := d_Set d key (Int64 value).
Definition d_SetFloat64 (d : Details) key (value : float64) : res Details := d_Set d key (Float64 value).
Definition d_SetStringList (d : Details) key (value : list string) : res Details :=
  d_Set d key (StringList value).
Definition d_SetFloat64List (d : Details) key (value : list float64) : res Details :=
  d_Set d key (Float64List value).
Definition d_SetInt64List (d : Details) key (value : list Z) : res Details :=
  d_Set d key (Int64List value).
Definition d_Delete (d : Details) (key : string) : res Details :=
  match d with Some m => Ok (Some (delete key m)) | None => Err nil_deref end.

(** ** Reading *)

Definition d_Len (d : Details) : Z := match d with None => 0 | Some m => Z.of_nat (size m) end.

Definition d_Iterate (d : Details) : list (string * Value) :=
  match d with None => [] | Some m => map_to_list m end.
Definition d_Keys (d : Details) : list string := (d_Iterate d).*1.
Definition d_IterateKeys (d : Details) : list string := (d_Iterate d).*1.

(** Keys are collected and sorted, then each is looked up. *)
Definition d_IterateSorted (d : Details) : list (string * Value) :=
  match d with
  | None => []
  | Some m => map (λ k, (k, default Invalid (m !! k))) (go_sort (d_Keys d))
  end.

Definition d_TryGet (d : Details) (key : string) : Value * bool :=
  match d with
  | None => (Invalid, false)
  | Some m => match m !! key with Some v => (v, true) | None => (Invalid, false) end
  end.
Definition d_Get (d : Details) (key : string) : Value :=
  match d with None => Invalid | Some m => default Invalid (m !! key) end.
Definition d_Has (d : Details) (key : string) : bool :=
  match d with None => false | Some m => bool_decide (is_Some (m !! key)) end.

Definition d_GetNull (d : Details) key : bool := IsNull (d_Get d key).
Definition d_TryBool (d : Details) key : option bool := TryBool (d_Get d key).
Definition d_GetBool (d : Details) key : bool := GetBool (d_Get d key).
Definition d_TryString (d : Details) key : option string := TryString (d_Get d key).
Definition d_GetString (d : Details) key : string := GetString (d_Get d key).
Definition d_TryFloat64 (d : Details) key : option float64 := TryFloat64 (d_Get d key).
Definition d_GetFloat64 (d : Details) key : float64 := GetFloat64 (d_Get d key).
Definition d_TryStringList (d : Details) key : option (list string) := TryStringList (d_Get d key).
Definition d_GetStringList (d : Details) key : list string := GetStringList (d_Get d key).
Definition d_WrapToStringList (d : Details) key : list string := WrapToStringList (d_Get d key).
Definition d_TryFloat64List (d : Details) key : option (list float64) := TryFloat64List (d_Get d key).
Definition d_GetFloat64List (d : Details) key : list float64 := GetFloat64List (d_Get d key).
Definition d_TryMapValue (d : Details) key : option ValueMap := TryMapValue (d_Get d key).
Definition d_TryInt64 `{!GoArch} (d : Details) key : option Z := TryInt64 (d_Get d key).
Definition d_GetInt64 `{!GoArch} (d : Details) key : Z := GetInt64 (d_Get d key).
Definition d_TryInt64List `{!GoArch} (d : Details) key : option (list Z) := TryInt64List (d_Get d key).
Definition d_GetInt64List `{!GoArch} (d : Details) key : list Z := GetInt64List (d_Get d key).

(** ** Copies, equality, merge *)

Definition d_Copy (d : Details) : Details :=
  match d with
  | None => NewDetails
  | Some m => Some (foldl (λ acc '(k, v), <[k := v]> acc) ∅ (map_to_list m))
  end.

Definition d_CopyWithoutKeys (d : Details) (keys : list string) : Details :=
  match d with
  | None => NewDetails
  | Some m =>
      Some (foldl (λ acc '(k, v), if negb (bool_decide (k ∈ keys)) then <[k := v]> acc else acc)
                  ∅ (map_to_list m))
  end.

Definition d_CopyOnlyKeys (d : Details) (keys : list string) : Details :=
  match d with
  | None => NewDetails
  | Some m =>
      Some (foldl (λ acc '(k, v), if bool_decide (k ∈ keys) then <[k := v]> acc else acc)
                  ∅ (map_to_list m))
  end.

Definition d_Equal (d other : Details) : bool :=
  match d, other with
  | None, None => true
  | Some m, Some n =>
      if negb (d_Len d =? d_Len other)%Z then false
      else forallb (λ '(k, v), match n !! k with Some w => Equal v w | None => false end)
                   (map_to_list m)
  | _, _ => false
  end.

(** [res.Set] is only called on the fresh copy, which is never nil. *)
Definition d_Merge (d other : Details) : Details :=
  match d with
  | None => d_Copy other
  | Some _ =>
      foldl (λ res '(k, v), (<[k := v]>) <$> res) (d_Copy d) (d_Iterate other)
  end.

(** ** The difference of two details *)

Definition struct_diff_changed (st1 : Details) (m2 : gmap string Value) : Details :=
  foldl (λ diff '(k2, v2),
           let v1 := d_Get st1 k2 in
           if negb (Value_Ok v1) || negb (Equal v1 v2)
           then Some (<[k2 := v2]> (default ∅ diff))
           else diff) None (map_to_list m2).

Definition StructDiff (st1 st2 : Details) : Details * list string :=
  match st1, st2 with
  | None, _ => (st2, [])
  | Some _, None => (None, foldl (λ acc k, acc ++ [k]) [] (d_IterateKeys st1))
  | Some _, Some m2 =>
      (struct_diff_changed st1 m2,
       foldl (λ acc k, if negb (d_Has st2 k) then acc ++ [k] else acc) [] (d_IterateKeys st1))
  end.

(** ** Protobuf *)

Fixpoint ValueFromProto (value : PbValue) : Value :=
  match value with
  | PNil => Null
  | PNull => Null
  | PBool b => Bool b
  | PString s => String s
  | PNumber f => Float64 f
  | PStruct m => NewValueMap (ValueFromProto <$> m)
  | PList l =>
      let floats := ListValueToFloats l in
      if negb (length floats =? 0) then Float64List floats else StringList (ListValueToStrings l)
  | PNoKind => Null
  end.

Fixpoint ToProto (v : Value) : PbValue :=
  match v with
  | VInvalid => pb_Null
  | VNull => pb_Null
  | VBool b => pb_Bool b
  | VString s => pb_String s
  | VFloat f => pb_Float64 f
  | VStringList l => pb_StringList l
  | VFloatList l => pb_Float64List l
  | VMap m => PStruct (ToProto <$> m)
  end.

Definition d_ToProto (d : Details) : gmap string PbValue :=
  match d with None => ∅ | Some m => ToProto <$> m end.

Definition d_SetProtoValue (d : Details) (key : string) (value : PbValue) : res Details :=
  d_Set d key (ValueFromProto value).

Definition NewDetailsFromProto (st : gmap string PbValue) : Details :=
  Some (foldl (λ acc '(k, v), <[k := ValueFromProto v]> acc) ∅ (map_to_list st)).

Definition DetailsListToProtos (dets : list Details) : list (gmap string PbValue) :=
  foldl (λ res d, res ++ [d_ToProto d]) [] dets.

(** ** The [anyenc] encoding *)

Inductive AnyEncType :=
| TypeNull | TypeNumber | TypeString | TypeTrue | TypeFalse | TypeArray | TypeObject.

#[export] Instance AnyEncType_eq_dec : EqDecision AnyEncType.
Proof. solve_decision. Defined.

Class AnyEnc (V : Type) := {
  ae_NewNull : V;
  ae_NewString : string → V;
  ae_NewNumberFloat64 : float64 → V;
  ae_NewTrue : V;
  ae_NewFalse : V;
  ae_NewArray : V;
  ae_NewObject : V;
  ae_SetArrayItem : V → nat → V → V;
  ae_Set : V → string → V → V;
  ae_Type : V → AnyEncType;
  ae_Float64 : V → res float64;
  ae_StringBytes : V → res string;
  ae_Array : V → res (list V);
  ae_Object : V → res (list (string * V));
}.

(** What the encoding documents: a value has the type it was made with and is
    read back by the getter of its type; setting the item after the last one
    appends it; setting an absent key adds it. *)
Class AnyEncOk (V : Type) `{!AnyEnc V} := {
  ae_null_type : ae_Type ae_NewNull = TypeNull;
  ae_true_type : ae_Type ae_NewTrue = TypeTrue;
  ae_false_type : ae_Type ae_NewFalse = TypeFalse;
  ae_string_type s : ae_Type (ae_NewString s) = TypeString;
  ae_string_get s : ae_StringBytes (ae_NewString s) = Ok s;
  ae_number_type f : ae_Type (ae_NewNumberFloat64 f) = TypeNumber;
  ae_number_get f : ae_Float64 (ae_NewNumberFloat64 f) = Ok f;
  ae_array_type : ae_Type ae_NewArray = TypeArray;
  ae_array_empty : ae_Array ae_NewArray = Ok [];
  ae_array_set_type a i x : ae_Type a = TypeArray → ae_Type (ae_SetArrayItem a i x) = TypeArray;
  ae_array_set a l x : ae_Array a = Ok l → ae_Array (ae_SetArrayItem a (length l) x) = Ok (l ++ [x]);
  ae_object_empty : ae_Object ae_NewObject = Ok [];
  ae_object_set o l k x : ae_Object o = Ok l → k ∉ l.*1 → ae_Object (ae_Set o k x) = Ok (l ++ [(k, x)]);
}.

Section anyenc.
Context {V : Type} `{!AnyEnc V}.

(** The loop [for i, it := range v { lst.SetArrayItem(i, mk(it)) }]. *)
Definition array_of {A} (mk : A → V) (l : list A) : V :=
  (foldl (λ '(lst, i) it, (ae_SetArrayItem lst i (mk it), S i)) (ae_NewArray, 0) l).1.

Definition ToAnyEnc (v : Value) : V :=
  match v with
  | VNull => ae_NewNull
  | VString s => ae_NewString s
  | VFloat f => ae_NewNumberFloat64 f
  | VBool b => if b then ae_NewTrue else ae_NewFalse
  | VStringList l => array_of ae_NewString l
  | VFloatList l => array_of ae_NewNumberFloat64 l
  | VInvalid | VMap _ => ae_NewNull
  end.

Definition d_ToAnyEnc (d : Details) : V :=
  foldl (λ obj '(k, v), ae_Set obj k (ToAnyEnc v)) ae_NewObject (d_Iterate d).

(** The type of the first number or string of the array; [TypeNull] is the
    zero value of [anyenc.Type] and stands for "none". *)
Fixpoint array_type (l : list V) : AnyEncType :=
  match l with
  | [] => TypeNull
  | x :: l => match ae_Type x with
              | TypeNumber => TypeNumber
              | TypeString => TypeString
              | _ => array_type l
              end
  end.

(** The items of the wanted type, others being skipped with a log line. *)
Fixpoint array_items {A} (want : AnyEncType) (get : V → res A) (l : list V) : res (list A) :=
  match l with
  | [] => Ok []
  | x :: l =>
      if bool_decide (ae_Type x = want)
      then v ← get x; rest ← array_items want get l; mret (v :: rest)
      else array_items want get l
  end.

Definition setValueFromAnyEnc (d : Details) (key : string) (val : V) : res Details :=
  match ae_Type val with
  | TypeNumber => v ← ae_Float64 val; d_SetFloat64 d key v
  | TypeString => v ← ae_StringBytes val; d_SetString d key v
  | TypeTrue => d_SetBool d key true
  | TypeFalse => d_SetBool d key false
  | TypeArray =>
      arrVals ← ae_Array val;
      if length arrVals =? 0 then d_SetStringList d key []
      else match array_type arrVals with
           | TypeString =>
               l ← array_items TypeString ae_StringBytes arrVals; d_SetStringList d key l
           | TypeNumber =>
               l ← array_items TypeNumber ae_Float64 arrVals; d_SetFloat64List d key l
           | _ => d_SetStringList d key []
           end
  | _ => d_Set d key Null
  end.

(** [Visit] runs over all entries; after an error the remaining ones are
    skipped. *)
Definition NewDetailsFromAnyEnc (v : V) : res Details :=
  obj ← ae_Object v;
  foldl (λ acc '(k, x), d ← acc; setValueFromAnyEnc d k x)
        (Ok (NewDetailsWithSize (Z.of_nat (length obj)))) obj.
End anyenc.

(** ** Loops over a map *)

Section map_loops.
Context {A B : Type} (g : string → A → option B).

Definition set_some (acc : gmap string B) (kv : string * A) : gmap string B :=
  match g kv.1 kv.2 with Some w => <[kv.1 := w]> acc | None => acc end.

Lemma foldl_set_some_lookup (l : list (string * A)) (acc : gmap string B) k :
  NoDup l.*1 →
  foldl set_some acc l !! k =
    match list_to_map (M := gmap string A) l !! k with
    | Some v => match g k v with Some w => Some w | None => acc !! k end
    | None => acc !! k
    end.
Proof.
  revert acc. induction l as [|[k' v] l IH]; intros acc Hnd; [done|].
  apply NoDup_cons in Hnd as [Hk' Hnd]. cbn [foldl list_to_map foldr uncurry].
  rewrite IH by done. unfold set_some at 1 2. cbn [fst snd].
  destruct (decide (k = k')) as [->|Hne].
  - rewrite lookup_insert_eq, not_elem_of_list_to_map_1 by done.
    destruct (g k' v); [by rewrite lookup_insert_eq|done].
  - rewrite lookup_insert_ne by done.
    destruct (g k' v); [by rewrite lookup_insert_ne|done].
Qed.

Lemma range_set_some_lookup (m : gmap string A) (acc : gmap string B) k :
  foldl set_some acc (map_to_list m) !! k =
    match m !! k with
    | Some v => match g k v with Some w => Some w | None => acc !! k end
    | None => acc !! k
    end.
Proof.
  rewrite foldl_set_some_lookup by apply NoDup_fst_map_to_list. by rewrite list_to_map_to_list.
Qed.
End map_loops.

Lemma foldl_ext_fun {A B} (f g : A → B → A) acc l :
  (∀ a b, f a b = g a b) → foldl f acc l = foldl g acc l.
Proof. intros Hfg. revert acc. induction l as [|x l IH]; intros acc; simpl; [done|]. by rewrite Hfg. Qed.

Lemma d_Copy_spec d : d_Copy d = Some (default ∅ d).
Proof.
  destruct d as [m|]; simpl; [|done]. f_equal. apply map_eq. intros k.
  rewrite (foldl_ext_fun _ (set_some (λ _ v, Some v))) by (by intros ? []).
  rewrite range_set_some_lookup, lookup_empty. by destruct (m !! k).
Qed.

Lemma d_CopyWithoutKeys_lookup d keys :
  d_CopyWithoutKeys d keys = Some (filter (λ kv, kv.1 ∉ keys) (default ∅ d)).
Proof.
  destruct d as [m|]; simpl; [|by rewrite map_filter_empty]. f_equal. apply map_eq. intros k.
  rewrite (foldl_ext_fun _ (set_some (λ k v, if negb (bool_decide (k ∈ keys)) then Some v else None)))
    by (intros ? [k' ?]; unfold set_some; simpl; by case_bool_decide).
  rewrite range_set_some_lookup, lookup_empty, map_lookup_filter.
  destruct (m !! k); simpl; [|done]. destruct (decide (k ∈ keys)).
  - rewrite bool_decide_eq_true_2 by done. by rewrite option_guard_False by naive_solver.
  - rewrite bool_decide_eq_false_2 by done. by rewrite option_guard_True.
Qed.

Lemma d_CopyOnlyKeys_lookup d keys :
  d_CopyOnlyKeys d keys = Some (filter (λ kv, kv.1 ∈ keys) (default ∅ d)).
Proof.
  destruct d as [m|]; simpl; [|by rewrite map_filter_empty]. f_equal. apply map_eq. intros k.
  rewrite (foldl_ext_fun _ (set_some (λ k v, if bool_decide (k ∈ keys) then Some v else None)))
    by (intros ? [k' ?]; unfold set_some; simpl; by case_bool_decide).
  rewrite range_set_some_lookup, lookup_empty, map_lookup_filter.
  destruct (m !! k); simpl; [|done]. destruct (decide (k ∈ keys)).
  - rewrite bool_decide_eq_true_2 by done. by rewrite option_guard_True.
  - rewrite bool_decide_eq_false_2 by done. by rewrite option_guard_False.
Qed.

Lemma foldl_fmap_insert (acc : gmap string Value) l :
  foldl (λ (res : Details) '(k, v), (<[k := v]>) <$> res) (Some acc) l =
  Some (foldl (set_some (λ _ v, Some v)) acc l).
Proof. revert acc. induction l as [|[k v] l IH]; intros acc; simpl; [done|]. apply IH. Qed.

Lemma d_Merge_spec d other : d_Merge d other = Some (default ∅ other ∪ default ∅ d).
Proof.
  destruct d as [m|].
  - unfold d_Merge. rewrite d_Copy_spec, foldl_fmap_insert. f_equal. apply map_eq. intros k.
    destruct other as [n|]; simpl; [|by rewrite map_empty_union].
    rewrite range_set_some_lookup, lookup_union. by destruct (n !! k), (m !! k).
  - simpl. rewrite d_Copy_spec. by rewrite (right_id_L ∅ (∪)).
Qed.

Lemma d_Equal_spec d other :
  d_Equal d other = true ↔
  match d, other with
  | None, None => True
  | Some m, Some n => Equal (VMap m) (VMap n) = true
  | _, _ => False
  end.
Proof.
  destruct d as [m|], other as [n|]; try (simpl; naive_solver). rewrite Equal_map. unfold d_Equal, d_Len.
  destruct (Z.eqb_spec (Z.of_nat (size m)) (Z.of_nat (size n))) as [E|E]; simpl.
  - rewrite <- Is_true_true, forallb_True, Forall_forall. split.
    + intros Hall. split; [lia|]. intros k v Hk. apply elem_of_map_to_list in Hk.
      specialize (Hall _ Hk). simpl in Hall. destruct (n !! k); [|done]. eexists. split; [done|].
      by apply Is_true_true.
    + intros [_ Hall] [k v] Hk%elem_of_map_to_list. destruct (Hall k v Hk) as (w & -> & ->). done.
  - split; [done|]. intros [? _]. lia.
Qed.

(** ** [StructDiff] *)

Lemma struct_diff_changed_lookup st1 m2 k :
  default ∅ (struct_diff_changed st1 m2) !! k =
    match m2 !! k with
    | Some v2 => if negb (Value_Ok (d_Get st1 k)) || negb (Equal (d_Get st1 k) v2)
                 then Some v2 else None
    | None => None
    end.
Proof.
  unfold struct_diff_changed.
  assert (∀ l acc, default ∅ (foldl (λ (diff : Details) '(k2, v2),
      let v1 := d_Get st1 k2 in
      if negb (Value_Ok v1) || negb (Equal v1 v2)
      then Some (<[k2 := v2]> (default ∅ diff)) else diff) acc l) =
    foldl (set_some (λ k v, if negb (Value_Ok (d_Get st1 k)) || negb (Equal (d_Get st1 k) v)
                            then Some v else None)) (default ∅ acc) l) as Hf.
  { induction l as [|[k' v'] l IH]; intros acc; [done|]. cbn [foldl]. rewrite IH. f_equal.
    unfold set_some. cbn. by destruct (negb _ || negb _). }
  rewrite Hf, range_set_some_lookup. simpl. rewrite lookup_empty.
  destruct (m2 !! k); [|done]. by destruct (negb _ || negb _).
Qed.

Lemma foldl_snoc_id {A} (acc l : list A) : foldl (λ acc k, acc ++ [k]) acc l = acc ++ l.
Proof.
  revert acc. induction l as [|x l IH]; intros acc; simpl; [by rewrite app_nil_r|].
  by rewrite IH, <- app_assoc.
Qed.

Lemma d_Iterate_keys_elem_of d k : k ∈ d_IterateKeys d ↔ d_Has d k = true.
Proof.
  unfold d_IterateKeys. destruct d as [m|]; simpl; [|by rewrite elem_of_nil].
  rewrite bool_decide_eq_true, list_elem_of_fmap. split.
  - intros ([k' v] & -> & Hin%elem_of_map_to_list). simpl. eauto.
  - intros [v Hv]. exists (k, v). split; [done|]. by apply elem_of_map_to_list.
Qed.

Lemma StructDiff_absent st1 st2 k :
  k ∈ (StructDiff st1 st2).2 ↔ d_Has st1 k = true ∧ d_Has st2 k = false.
Proof.
  destruct st1 as [m1|]; [|simpl; rewrite elem_of_nil; naive_solver].
  destruct st2 as [m2|]; cbn [StructDiff snd].
  - rewrite (foldl_append_filter (λ k, d_Has (Some m2) k = false) (λ k, negb (d_Has (Some m2) k))).
    + cbn [app]. rewrite list_elem_of_filter, d_Iterate_keys_elem_of. tauto.
    + intros x. by destruct (d_Has _ _).
  - rewrite foldl_snoc_id, app_nil_l, d_Iterate_keys_elem_of. simpl. tauto.
Qed.

Definition d_lookup (d : Details) (k : string) : option Value := default ∅ d !! k.

Lemma d_Has_lookup d k : d_Has d k = bool_decide (is_Some (d_lookup d k)).
Proof. by destruct d. Qed.

Lemma d_Get_lookup d k : d_Get d k = default Invalid (d_lookup d k).
Proof. by destruct d. Qed.

Lemma d_TryGet_lookup d k : d_TryGet d k = (d_Get d k, d_Has d k).
Proof. destruct d as [m|]; simpl; [|done]. by destruct (m !! k). Qed.

Definition detail_changed (v1 v2 : Value) : bool := negb (Value_Ok v1) || negb (Equal v1 v2).

Lemma StructDiff_diff_lookup st1 st2 k :
  d_lookup (StructDiff st1 st2).1 k =
    match st1, d_lookup st2 k with
    | None, r => r
    | Some _, Some v2 => if detail_changed (d_Get st1 k) v2 then Some v2 else None
    | Some _, None => None
    end.
Proof.
  destruct st1 as [m1|], st2 as [m2|]; try done. unfold d_lookup. simpl.
  by rewrite struct_diff_changed_lookup.
Qed.

Lemma StructDiff_patched_lookup st1 st2 k :
  let '(diff, absent) := StructDiff st1 st2 in
  d_lookup (d_Merge (d_CopyWithoutKeys st1 absent) diff) k =
    match d_lookup st2 k with
    | Some v2 => if detail_changed (d_Get st1 k) v2 then Some v2 else Some (d_Get st1 k)
    | None => None
    end.
Proof.
  pose proof (StructDiff_absent st1 st2 k) as Habs.
  pose proof (StructDiff_diff_lookup st1 st2 k) as Hdiff.
  destruct (StructDiff st1 st2) as [diff absent]. cbn [fst snd] in *.
  rewrite d_CopyWithoutKeys_lookup, d_Merge_spec. unfold d_lookup at 1. cbn [default from_option id].
  rewrite lookup_union, map_lookup_filter. change (default ∅ diff !! k) with (d_lookup diff k).
  change (default ∅ st1 !! k) with (d_lookup st1 k). rewrite Hdiff.
  rewrite !d_Has_lookup, bool_decide_eq_true, bool_decide_eq_false, <- eq_None_not_Some in Habs.
  unfold detail_changed. rewrite !d_Get_lookup.
  destruct (d_lookup st2 k) as [v2|]; destruct (d_lookup st1 k) as [v1|] eqn:E1;
    destruct st1 as [m1|]; try done; simpl; try (by destruct (negb _ || negb _)).
  - rewrite option_guard_True by naive_solver. by destruct (negb _ || negb _).
  - rewrite option_guard_False by naive_solver. done.
Qed.

(** [StructDiff] is a correct and minimal patch.  Removing the absent keys
    from the old details and merging the difference over the rest gives details
    with exactly the keys of the new ones and values equal to the new ones (up to
    [Equal], which identifies the two zeros); the difference holds only entries of
    the new details that are new or changed, and the absent keys are exactly the
    keys that went away. *)
Theorem StructDiff_patch (st1 st2 : Details) (k : string) :
  let '(diff, absent) := StructDiff st1 st2 in
  let patched := d_Merge (d_CopyWithoutKeys st1 absent) diff in
  d_Has patched k = d_Has st2 k ∧
  (d_Get patched k = d_Get st2 k ∨ Equal (d_Get patched k) (d_Get st2 k) = true) ∧
  (d_Has diff k = true ↔
     d_Has st2 k = true ∧
     (st1 = None ∨ d_Get st1 k = Invalid ∨ Equal (d_Get st1 k) (d_Get st2 k) = false)) ∧
  (d_Has diff k = true → d_Get diff k = d_Get st2 k) ∧
  (k ∈ absent ↔ d_Has st1 k = true ∧ d_Has st2 k = false).
Proof.
  pose proof (StructDiff_absent st1 st2 k) as Habs.
  pose proof (StructDiff_diff_lookup st1 st2 k) as Hdiff.
  pose proof (StructDiff_patched_lookup st1 st2 k) as Hpat.
  destruct (StructDiff st1 st2) as [diff absent]. cbn [fst snd] in *. cbv zeta.
  set (patched := d_Merge _ _) in *.
  rewrite (d_Has_lookup patched), (d_Get_lookup patched), Hpat.
  rewrite (d_Has_lookup diff), (d_Get_lookup diff), Hdiff.
  rewrite (d_Has_lookup st2), (d_Get_lookup st2) in *.
  unfold detail_changed in *. destruct (d_lookup st2 k) as [v2|]; simpl.
  - split_and!; [by destruct (_ || _)| | | |done].
    + destruct (negb _ || negb (Equal _ v2)) eqn:E; [by left|].
      right. apply orb_false_iff in E as [_ E%negb_false_iff]. exact E.
    + destruct st1 as [m1|]; [|by split; auto].
      destruct (negb _ || negb (Equal _ v2)) eqn:E.
      * split; [intros _; split; [done|]|done]. right.
        apply orb_true_iff in E as [E|E%negb_true_iff]; [left|by right].
        destruct (d_Get (Some m1) k); done || discriminate E.
      * apply orb_false_iff in E as [E1%negb_false_iff E2%negb_false_iff].
        split; [done|]. intros (_ & [?|[Hi|?]]); [done| |congruence]. by rewrite Hi in E1.
    + destruct st1 as [m1|]; [|done]. by destruct (negb _ || negb (Equal _ v2)).
  - destruct st1; simpl; split_and!; try done; try (by left); split; [done|by intros [? _]|done|by intros [? _]].
Qed.

(** ** Round trips *)

(** What a value becomes in protobuf: an invalid value is null there, and a list
    with no number is read as a list of strings. *)
Fixpoint proto_image (v : Value) : Value :=
  match v with
  | VInvalid => VNull
  | VFloatList [] => VStringList []
  | VMap m => VMap (proto_image <$> m)
  | _ => v
  end.

Lemma ValueFromProto_ToProto v : ValueFromProto (ToProto v) = proto_image v.
Proof.
  induction v as [| |b|s|f|l|l|m IH] using value_ind'; try done.
  - cbn. unfold ValueFromProto, pb_StringList. rewrite ListValueToFloats_of_strings. simpl.
    by rewrite ListValueToStrings_of_strings.
  - cbn. unfold pb_Float64List. rewrite ListValueToFloats_of_floats. by destruct l.
  - cbn. unfold NewValueMap. f_equal. rewrite <- map_fmap_compose. apply map_fmap_ext.
    intros k v Hk. cbn. by eapply IH.
Qed.

(** Details survive the trip through protobuf: what [NewDetailsFromProto]
    reads back from [ToProto] is the same map, except that an invalid value is
    null and an empty number list is an empty string list, at any depth. *)
Theorem details_proto_roundtrip (d : Details) :
  NewDetailsFromProto (d_ToProto d) = Some (proto_image <$> default ∅ d).
Proof.
  unfold NewDetailsFromProto. f_equal. apply map_eq. intros k.
  rewrite (foldl_ext_fun _ (set_some (λ _ v, Some (ValueFromProto v)))) by (by intros ? []).
  rewrite range_set_some_lookup, lookup_empty, lookup_fmap.
  destruct d as [m|]; simpl; [|by rewrite lookup_empty]. rewrite lookup_fmap.
  destruct (m !! k); simpl; [|done]. by rewrite ValueFromProto_ToProto.
Qed.

(** What a value becomes in the store: nested maps are not stored. *)
Definition anyenc_image (v : Value) : Value :=
  match v with
  | VInvalid | VMap _ => VNull
  | VFloatList [] => VStringList []
  | _ => v
  end.

Section anyenc_roundtrip.
Context {V : Type} `{!AnyEnc V, !AnyEncOk V}.

Lemma array_of_spec {A} (mk : A → V) (l : list A) :
  ae_Type (array_of mk l) = TypeArray ∧ ae_Array (array_of mk l) = Ok (map mk l).
Proof.
  unfold array_of.
  assert (∀ l lst done, ae_Type lst = TypeArray → ae_Array lst = Ok (map mk done) →
    let r := (foldl (λ '(lst, i) it, (ae_SetArrayItem lst i (mk it), S i)) (lst, length done) l).1 in
    ae_Type r = TypeArray ∧ ae_Array r = Ok (map mk (done ++ l))) as Haux.
  { clear l. induction l as [|x l IH]; intros lst pre Ht Ha; cbn [foldl].
    - by rewrite app_nil_r.
    - assert (S (length pre) = length (pre ++ [x])) as -> by (rewrite length_app; simpl; lia).
      replace (pre ++ x :: l) with ((pre ++ [x]) ++ l) by (by rewrite <- app_assoc).
      apply IH; [by apply ae_array_set_type|].
      rewrite map_app. simpl. rewrite <- (length_map mk). by apply ae_array_set. }
  apply (Haux l ae_NewArray []); [apply ae_array_type|apply ae_array_empty].
Qed.

Lemma array_items_all {A} want (get : V → res A) (mk : A → V) (l : list A) :
  (∀ x, ae_Type (mk x) = want) → (∀ x, get (mk x) = Ok x) →
  array_items want get (map mk l) = Ok l.
Proof.
  intros Ht Hg. induction l as [|x l IH]; simpl; [done|].
  rewrite bool_decide_eq_true_2 by done. rewrite Hg. simpl. by rewrite IH.
Qed.

Lemma setValueFromAnyEnc_ToAnyEnc m k v :
  setValueFromAnyEnc (Some m) k (ToAnyEnc v) = Ok (Some (<[k := anyenc_image v]> m)).
Proof.
  unfold setValueFromAnyEnc. destruct v as [| |b|s|f|l|l|n]; cbn [ToAnyEnc].
  - by rewrite ae_null_type.
  - by rewrite ae_null_type.
  - destruct b; [by rewrite ae_true_type|by rewrite ae_false_type].
  - by rewrite ae_string_type, ae_string_get.
  - by rewrite ae_number_type, ae_number_get.
  - destruct (array_of_spec ae_NewString l) as [-> ->]. cbn. rewrite length_map.
    destruct l as [|x l]; [done|]. cbn -[array_items]. rewrite ae_string_type.
    change (ae_NewString x :: map ae_NewString l) with (map ae_NewString (x :: l)).
    rewrite (array_items_all _ _ ae_NewString (x :: l)); auto using ae_string_type, ae_string_get.
  - destruct (array_of_spec ae_NewNumberFloat64 l) as [-> ->]. cbn. rewrite length_map.
    destruct l as [|x l]; [done|]. cbn -[array_items]. rewrite ae_number_type.
    change (ae_NewNumberFloat64 x :: map ae_NewNumberFloat64 l) with (map ae_NewNumberFloat64 (x :: l)).
    rewrite (array_items_all _ _ ae_NewNumberFloat64 (x :: l));
      auto using ae_number_type, ae_number_get.
  - by rewrite ae_null_type.
Qed.

Lemma d_ToAnyEnc_entries (l : list (string * Value)) (o : V) pre :
  ae_Object o = Ok pre → NoDup (pre.*1 ++ l.*1) →
  ae_Object (foldl (λ obj '(k, v), ae_Set obj k (ToAnyEnc v)) o l) =
    Ok (pre ++ map (λ '(k, v), (k, ToAnyEnc v)) l).
Proof.
  revert o pre. induction l as [|[k v] l IH]; intros o pre Ho Hnd; cbn [foldl].
  - by rewrite app_nil_r.
  - rewrite (IH _ (pre ++ [(k, ToAnyEnc v)])).
    + by rewrite <- app_assoc.
    + apply ae_object_set; [done|]. intros Hin. apply NoDup_app in Hnd as (_ & Hd & _).
      apply (Hd k Hin). by left.
    + by rewrite fmap_app, <- app_assoc.
Qed.

Lemma read_entries (l : list (string * Value)) m :
  foldl (λ acc '(k, x), d ← acc; setValueFromAnyEnc d k x) (Ok (Some m))
    (map (λ '(k, v), (k, ToAnyEnc v)) l) =
  Ok (Some (foldl (set_some (λ _ v, Some (anyenc_image v))) m l)).
Proof.
  revert m. induction l as [|[k v] l IH]; intros m; [done|].
  cbn [map foldl]. cbn [mbind res_bind]. rewrite setValueFromAnyEnc_ToAnyEnc. apply IH.
Qed.

(** Details survive the trip through the store's encoding: reading back
    what [ToAnyEnc] wrote never fails and gives the same map, except that
    invalid values and nested maps come back as null and an empty number list as
    an empty string list. *)
Theorem details_anyenc_roundtrip (d : Details) :
  NewDetailsFromAnyEnc (d_ToAnyEnc d) = Ok (Some (anyenc_image <$> default ∅ d)).
Proof.
  unfold NewDetailsFromAnyEnc, d_ToAnyEnc.
  rewrite (d_ToAnyEnc_entries _ _ []); [|apply ae_object_empty|].
  - cbn [mbind res_bind app]. unfold NewDetailsWithSize. rewrite read_entries.
    do 2 f_equal. apply map_eq. intros k. destruct d as [m|]; simpl; [|by rewrite fmap_empty].
    rewrite range_set_some_lookup, lookup_fmap, lookup_empty. by destruct (m !! k).
  - destruct d as [m|]; simpl; [apply NoDup_fst_map_to_list|constructor].
Qed.
End anyenc_roundtrip.

(** An instance of the encoding, as a tree. *)
Module TreeEnc.
Inductive tree :=
| tnull | tstr (s : string) | tnum (f : float64) | ttrue | tfalse
| tarr (l : list tree) | tobj (l : list (string * tree)).

Definition set_item (l : list tree) (i : nat) (x : tree) : list tree :=
  if decide (i < length l) then <[i := x]> l else l ++ replicate (i - length l) tnull ++ [x].

#[export] Instance tree_enc : AnyEnc tree := {|
  ae_NewNull := tnull; ae_NewString := tstr; ae_NewNumberFloat64 := tnum;
  ae_NewTrue := ttrue; ae_NewFalse := tfalse; ae_NewArray := tarr []; ae_NewObject := tobj [];
  ae_SetArrayItem a i x := match a with tarr l => tarr (set_item l i x) | _ => a end;
  ae_Set o k x := match o with
                  | tobj l => tobj (match replace_first (λ e, bool_decide (e.1 = k)) (λ _, (k, x)) l with
                                    | Some l' => l' | None => l ++ [(k, x)] end)
                  | _ => o end;
  ae_Type t := match t with tnull => TypeNull | tstr _ => TypeString | tnum _ => TypeNumber
               | ttrue => TypeTrue | tfalse => TypeFalse | tarr _ => TypeArray | tobj _ => TypeObject end;
  ae_Float64 t := match t with tnum f => Ok f | _ => Err "not a number" end;
  ae_StringBytes t := match t with tstr s => Ok s | _ => Err "not a string" end;
  ae_Array t := match t with tarr l => Ok l | _ => Err "not an array" end;
  ae_Object t := match t with tobj l => Ok l | _ => Err "not an object" end;
|}.

#[export] Instance tree_enc_ok : AnyEncOk tree.
Proof.
  split; try done.
  - intros a i x. by destruct a.
  - intros [] ? x; simpl; try done. intros [= ->]. unfold set_item.
    rewrite decide_False by lia. by rewrite Nat.sub_diag.
  - intros [] l' k x; simpl; try done. intros [= ->] Hk. f_equal.
    pose proof (replace_first_spec (λ e, bool_decide (e.1 = k)) (λ _, (k, x)) l') as Hr.
    destruct (replace_first _ _ _); [|done]. destruct Hr as (l1 & y & l2 & -> & _ & Hy & _).
    apply bool_decide_eq_true in Hy. destruct Hk. rewrite fmap_app. simpl. rewrite <- Hy.
    apply elem_of_app. right. by left.
Qed.
End TreeEnc.
Import TreeEnc.

Lemma details_anyenc_roundtrip_witness :
  NewDetailsFromAnyEnc (V := TreeEnc.tree)
    (d_ToAnyEnc (Some {["name" := VString "a"; "tags" := VStringList ["x"; "y"]; "n" := VFloatList []]})) =
  Ok (Some (anyenc_image <$>
    ({["name" := VString "a"; "tags" := VStringList ["x"; "y"]; "n" := VFloatList []]} : gmap string Value))).
Proof. exact (details_anyenc_roundtrip (V := TreeEnc.tree) _). Defined.
