(* ===== verification/Calendar.v ===== *)
(** * The calendar of date filters ([util/time/calendar.go], [util/time/time.go])

    An instant ([time.Time]) is its nanoseconds since the Unix epoch with its
    location.  A location is a list of changes of the clock, as in the time zone
    database, so days and weeks with a change to or from summer time are covered.
    The part of Go's [time] package that the calendar uses is written over the
    proleptic Gregorian calendar, as that package documents it: [Date] normalises
    months and days out of range and looks the offset up twice, [AddDate] goes through
    [Date], and weeks are ISO 8601 weeks. *)

From S2P Require Import Prelude.

Local Open Scope Z_scope.

(** ** The Gregorian calendar *)

(** Years are counted from the first of March, so that the leap day is their
    last; days are counted from 1970-01-01.  The first day of such a year: *)
Definition year_start (y : Z) : Z := 365 * y + y / 4 - y / 100 + y / 400 - 719468.

(** The year of a day, by cycles of 400, 100, 4 years and 1 year. *)
Definition march_year (days : Z) : Z :=
  let z := days + 719468 in
  let n400 := z / 146097 in
  let r := z mod 146097 in
  let n100 := r / 36524 - r / 36524 / 4 in
  let r := r - n100 * 36524 in
  let n4 := r / 1461 in
  let r := r - n4 * 1461 in
  let n := r / 365 - r / 365 / 4 in
  400 * n400 + 100 * n100 + 4 * n4 + n.

(** The date of a day, and the day of a date whose month is in 1..12. *)
Definition civil_from_days (days : Z) : Z * Z * Z :=
  let y := march_year days in
  let doy := days - year_start y in
  let mp := (5 * doy + 2) / 153 in
  let d := doy - (153 * mp + 2) / 5 + 1 in
  if mp <? 10 then (y, mp + 3, d) else (y + 1, mp - 9, d).

Definition days_from_civil (y m d : Z) : Z :=
  let '(y', mp) := if 2 <? m then (y, m - 3) else (y - 1, m + 9) in
  year_start y' + (153 * mp + 2) / 5 + d - 1.

(** [time.Date] carries a month out of range into the year. *)
Definition norm_days (y m d : Z) : Z :=
  days_from_civil (y + (m - 1) / 12) ((m - 1) mod 12 + 1) 1 + d - 1.

Definition weekday (days : Z) : Z := (days + 4) mod 7.

(** ** Locations *)

Definition day_secs : Z := 86400.
Definition sec_ns : Z := 1000000000.

(** The offset before the first change of the clock, and the changes: the second from
    which on, and the offset from then on. *)
Record Location := { l_first : Z; l_tx : list (Z * Z) }.
Definition FixedZone (off : Z) : Location := {| l_first := off; l_tx := [] |}.

Definition UTC : Location := FixedZone 0.

(** The offset in force at a second, and from when until when it is ([lookup] of
    [time.Location]). *)
Fixpoint lookup_tx (off : Z) (start : option Z) (tx : list (Z * Z)) (sec : Z) : Z * option Z * option Z :=
  match tx with
  | [] => (off, start, None)
  | (w, off') :: tx => if sec <? w then (off, start, Some w) else lookup_tx off' (Some w) tx sec
  end.
Definition loc_lookup (l : Location) (sec : Z) : Z * option Z * option Z := lookup_tx (l_first l) None (l_tx l) sec.
Definition offset_at (l : Location) (sec : Z) : Z := (loc_lookup l sec).1.1.

Definition in_zone (start stop : option Z) (sec : Z) : bool :=
  match start with Some s => s <=? sec | None => true end && match stop with Some e => sec <? e | None => true end.

(** The second at which the clock shows [local], as [time.Date] finds it: the offset is
    looked up as if the local time were UTC, and looked up again when the instant this
    gives lies behind a change of the clock. *)
Definition to_unix (l : Location) (local : Z) : Z :=
  let '(off, start, stop) := loc_lookup l local in
  let utc := local - off in
  if in_zone start stop utc then utc else local - offset_at l utc.

(** ** Instants *)

Record Time := { t_ns : Z; t_loc : Location }.

Definition t_Unix (t : Time) : Z := t_ns t / sec_ns.
Definition t_Location (t : Time) : Location := t_loc t.
Definition t_off (t : Time) : Z := offset_at (t_loc t) (t_Unix t).
Definition t_days (t : Time) : Z := (t_Unix t + t_off t) / day_secs.
Definition t_secs (t : Time) : Z := (t_Unix t + t_off t) mod day_secs.
Definition t_Date (t : Time) : Z * Z * Z := civil_from_days (t_days t).
Definition t_Year (t : Time) : Z := (t_Date t).1.1.
Definition t_Month (t : Time) : Z := (t_Date t).1.2.
Definition t_Day (t : Time) : Z := (t_Date t).2.
Definition t_Weekday (t : Time) : Z := weekday (t_days t).

Definition time_Unix (sec : Z) (loc : Location) : Time := {| t_ns := sec * sec_ns; t_loc := loc |}.

Definition time_Date (year month day hour min sec nsec : Z) (loc : Location) : Time :=
  {| t_ns := to_unix loc (norm_days year month day * day_secs + hour * 3600 + min * 60 + sec) * sec_ns + nsec;
     t_loc := loc |}.

Definition t_AddDate (t : Time) (years months days : Z) : Time :=
  let '(y, m, d) := t_Date t in
  time_Date (y + years) (m + months) (d + days) 0 0 (t_secs t) (t_ns t mod sec_ns) (t_loc t).

Definition t_Add (t : Time) (d : Z) : Time := {| t_ns := t_ns t + d; t_loc := t_loc t |}.

(** The year and the number of the week, both of the week's Thursday. *)
Definition iso_thursday (days : Z) : Z :=
  let d := 4 - weekday days in days + (if d =? 4 then -3 else d).

Definition iso_week (days : Z) : Z * Z :=
  let th := iso_thursday days in
  let year := (civil_from_days th).1.1 in
  (year, (th - days_from_civil year 1 1) / 7 + 1).

Definition t_ISOWeek (t : Time) : Z * Z := iso_week (t_days t).

(** ** [calendar.go] *)

Definition Day : Z := 24 * 3600 * sec_ns.
Definition Week : Z := Day * 7.

Record Calendar := { c_t : Time; c_loc : Location }.

(** [local] is the location of [time.Now()], used when [loc] is nil. *)
Definition NewCalendar (local : Location) (t : Time) (loc : option Location) : Calendar :=
  {| c_t := t; c_loc := default local loc |}.

Definition DayNumStart (c : Calendar) (dayNum : Z) : Time :=
  let '(year, month, day) := t_Date (c_t c) in
  time_Date year month (day + dayNum) 0 0 0 0 (c_loc c).

Definition DayNumEnd (c : Calendar) (dayNum : Z) : Time :=
  let '(year, month, day) := t_Date (c_t c) in
  time_Date year month (day + dayNum) 23 59 59 0 (c_loc c).

Definition WeekNumStart (c : Calendar) (weekNum : Z) : Time :=
  let '(year, week) := t_ISOWeek (c_t c) in
  let week := week + weekNum in
  let t := time_Date year 7 1 0 0 0 0 (c_loc c) in
  let wd := t_Weekday t in
  let t := if wd =? 0 then t_AddDate t 0 0 (-6) else t_AddDate t 0 0 (- wd + 1) in
  let w := (t_ISOWeek t).2 in
  t_AddDate t 0 0 ((week - w) * 7).

Definition WeekNumEnd (c : Calendar) (weekNum : Z) : Time :=
  t_Add (t_Add (WeekNumStart c weekNum) Week) (-1).

Definition MonthNumStart (c : Calendar) (monthNum : Z) : Time :=
  let needMonth := t_Month (c_t c) + monthNum in
  time_Date (t_Year (c_t c)) needMonth 1 0 0 0 0 (c_loc c).

Definition MonthNumEnd (c : Calendar) (monthNum : Z) : Time :=
  let firstDay := MonthNumStart c monthNum in
  t_Add (t_AddDate firstDay 0 1 0) (-1).

Definition YearNumStart (c : Calendar) (yearDelta : Z) : Time :=
  let needYear := t_Year (c_t c) + yearDelta in
  time_Date needYear 1 1 0 0 0 0 (c_loc c).

Definition YearNumEnd (c : Calendar) (yearDelta : Z) : Time :=
  let firstDay := YearNumStart c yearDelta in
  t_Add (t_AddDate firstDay 1 0 0) (-1).

Definition CutToDay (t : Time) : Time :=
  time_Date (t_Year t) (t_Month t) (t_Day t) 0 0 0 0 (t_Location t).

(** ** Facts of the calendar *)

(** [lia] with the quotients and remainders by constants. *)
Ltac cal := Z.to_euclidean_division_equations; lia.

Lemma year_start_step y : year_start y + 365 ≤ year_start (y + 1) ≤ year_start y + 366.
Proof. unfold year_start. cal. Qed.

Lemma year_start_mono x y : x ≤ y → year_start x ≤ year_start y.
Proof.
  intros Hle. pattern y. apply (Zlt_lower_bound_ind _ x); [|done]. intros z IH Hz.
  destruct (decide (z = x)) as [->|]; [lia|].
  specialize (IH (z - 1)). pose proof (year_start_step (z - 1)) as Hs.
  replace (z - 1 + 1) with z in Hs by lia. lia.
Qed.

Lemma march_year_bounds d : year_start (march_year d) ≤ d < year_start (march_year d + 1).
Proof. unfold march_year, year_start. cal. Qed.

Lemma march_year_unique d y : year_start y ≤ d < year_start (y + 1) → march_year d = y.
Proof.
  intros Hd. pose proof (march_year_bounds d).
  destruct (Z.lt_trichotomy (march_year d) y) as [Hlt|[?|Hlt]]; [|done|].
  - pose proof (year_start_mono (march_year d + 1) y). lia.
  - pose proof (year_start_mono (y + 1) (march_year d)). lia.
Qed.

(** Reading a date off a day of a known year. *)
Lemma civil_in_year y doy :
  0 ≤ doy → year_start y + doy < year_start (y + 1) →
  civil_from_days (year_start y + doy) =
    let mp := (5 * doy + 2) / 153 in
    let d := doy - (153 * mp + 2) / 5 + 1 in
    if mp <? 10 then (y, mp + 3, d) else (y + 1, mp - 9, d).
Proof.
  intros H0 H1. unfold civil_from_days. rewrite (march_year_unique _ y) by lia.
  by replace (year_start y + doy - year_start y) with doy by lia.
Qed.

Lemma civil_days d :
  let '(y, m, dd) := civil_from_days d in
  1 ≤ m ≤ 12 ∧ 1 ≤ dd ∧ days_from_civil y m dd = d.
Proof.
  pose proof (march_year_bounds d) as Hb. pose proof (year_start_step (march_year d)) as Hs.
  unfold civil_from_days. generalize dependent (march_year d). intros y **.
  remember (d - year_start y) as doy eqn:Edoy. remember ((5 * doy + 2) / 153) as mp eqn:Emp.
  assert (0 ≤ mp ≤ 11 ∧ (153 * mp + 2) / 5 ≤ doy) as [Hmp Hd] by cal.
  destruct (Z.ltb_spec mp 10); unfold days_from_civil; (split; [lia|split; [lia|]]).
  - destruct (Z.ltb_spec 2 (mp + 3)); [|lia]. replace (mp + 3 - 3) with mp by lia. lia.
  - destruct (Z.ltb_spec 2 (mp - 9)); [lia|]. replace (mp - 9 + 9) with mp by lia.
    replace (y + 1 - 1) with y by lia. lia.
Qed.

(** The first of a month is a day with that date. *)
Lemma civil_first y m : 1 ≤ m ≤ 12 → civil_from_days (days_from_civil y m 1) = (y, m, 1).
Proof.
  intros Hm. unfold days_from_civil. destruct (Z.ltb_spec 2 m).
  - pose proof (year_start_step y).
    replace (year_start y + (153 * (m - 3) + 2) / 5 + 1 - 1)
      with (year_start y + (153 * (m - 3) + 2) / 5) by lia.
    rewrite civil_in_year by cal. cbv zeta.
    replace ((5 * ((153 * (m - 3) + 2) / 5) + 2) / 153) with (m - 3) by cal.
    destruct (Z.ltb_spec (m - 3) 10); [|lia]. f_equal; [f_equal|]; lia.
  - pose proof (year_start_step (y - 1)).
    replace (year_start (y - 1) + (153 * (m + 9) + 2) / 5 + 1 - 1)
      with (year_start (y - 1) + (153 * (m + 9) + 2) / 5) by lia.
    rewrite civil_in_year by cal. cbv zeta.
    replace ((5 * ((153 * (m + 9) + 2) / 5) + 2) / 153) with (m + 9) by cal.
    destruct (Z.ltb_spec (m + 9) 10); [lia|]. f_equal; [f_equal|]; lia.
Qed.

Lemma norm_days_valid y m d : 1 ≤ m ≤ 12 → norm_days y m d = days_from_civil y m d.
Proof.
  intros Hm. unfold norm_days. rewrite Z.div_small, Z.mod_small by lia.
  replace (m - 1 + 1) with m by lia. rewrite Z.add_0_r.
  unfold days_from_civil. destruct (2 <? m); lia.
Qed.

Lemma norm_days_add y m d k : norm_days y m (d + k) = norm_days y m d + k.
Proof. unfold norm_days. lia. Qed.

Lemma norm_days_civil d : let '(y, m, dd) := civil_from_days d in norm_days y m dd = d.
Proof.
  pose proof (civil_days d) as Hd. destruct (civil_from_days d) as [[y m] dd].
  destruct Hd as (Hm & _ & Hd). by rewrite norm_days_valid.
Qed.

(** A day lies in its month and in its year. *)
Lemma day_in_month d :
  let '(y, m, _) := civil_from_days d in norm_days y m 1 ≤ d < norm_days y (m + 1) 1.
Proof.
  pose proof (march_year_bounds d) as Hb. pose proof (year_start_step (march_year d)) as Hs.
  unfold civil_from_days. generalize dependent (march_year d). intros y **.
  remember (d - year_start y) as doy eqn:Edoy. remember ((5 * doy + 2) / 153) as mp eqn:Emp.
  assert (0 ≤ mp ≤ 11 ∧ (153 * mp + 2) / 5 ≤ doy < (153 * (mp + 1) + 2) / 5) as [Hmp Hd] by cal.
  assert (∀ y mp, 0 ≤ mp < 10 → norm_days y (mp + 3) 1 = year_start y + (153 * mp + 2) / 5) as Hlo.
  { intros y' mp' ?. rewrite norm_days_valid by lia. unfold days_from_civil.
    destruct (Z.ltb_spec 2 (mp' + 3)); [|lia]. replace (mp' + 3 - 3) with mp' by lia. lia. }
  assert (∀ y mp, 10 ≤ mp < 12 → norm_days (y + 1) (mp - 9) 1 = year_start y + (153 * mp + 2) / 5) as Hhi.
  { intros y' mp' ?. rewrite norm_days_valid by lia. unfold days_from_civil.
    destruct (Z.ltb_spec 2 (mp' - 9)); [lia|]. replace (mp' - 9 + 9) with mp' by lia.
    replace (y' + 1 - 1) with y' by lia. lia. }
  assert (∀ y m, norm_days y (m + 12) 1 = norm_days (y + 1) m 1) as Hcarry.
  { intros y' m'. unfold norm_days. replace (m' + 12 - 1) with (m' - 1 + 1 * 12) by lia.
    rewrite Z.div_add, Z.mod_add by lia. do 3 f_equal. lia. }
  destruct (Z.ltb_spec mp 10).
  - rewrite Hlo by lia. destruct (decide (mp = 9)) as [E|].
    + replace (mp + 3 + 1) with (1 + 12) by lia. rewrite Hcarry.
      pose proof (Hhi y 10) as H10. rewrite E in *. change (10 - 9) with 1 in H10. cal.
    + replace (mp + 3 + 1) with ((mp + 1) + 3) by lia. rewrite Hlo by lia. lia.
  - rewrite Hhi by lia. destruct (decide (mp = 10)) as [E|].
    + replace (mp - 9 + 1) with (11 - 9) by lia. rewrite Hhi by lia. rewrite E in *. cal.
    + replace (mp - 9 + 1) with (0 + 3) by lia. rewrite Hlo by lia. cal.
Qed.

Lemma day_in_year d :
  let '(y, _, _) := civil_from_days d in days_from_civil y 1 1 ≤ d < days_from_civil (y + 1) 1 1.
Proof.
  pose proof (march_year_bounds d) as Hb. pose proof (year_start_step (march_year d)) as Hs.
  pose proof (year_start_step (march_year d - 1)) as Hp.
  replace (march_year d - 1 + 1) with (march_year d) in Hp by lia.
  unfold civil_from_days. generalize dependent (march_year d). intros y **.
  remember (d - year_start y) as doy eqn:Edoy.
  destruct (Z.ltb_spec ((5 * doy + 2) / 153) 10); unfold days_from_civil; cbn -[year_start Z.mul].
  - replace (y + 1 - 1) with y by lia. cal.
  - replace (y + 1 + 1 - 1) with (y + 1) by lia. replace (y + 1 - 1) with y by lia. cal.
Qed.

Lemma around_july y k : -3 ≤ k ≤ 3 → (civil_from_days (days_from_civil y 7 1 + k)).1.1 = y.
Proof.
  intros Hk. pose proof (year_start_step y).
  assert (days_from_civil y 7 1 + k = year_start y + (122 + k)) as ->.
  { unfold days_from_civil. change (2 <? 7) with true. cbv iota.
    change ((153 * (7 - 3) + 2) / 5) with 122. lia. }
  rewrite civil_in_year by lia. cbv zeta. destruct (Z.ltb_spec ((5 * (122 + k) + 2) / 153) 10); [done|].
  exfalso. cal.
Qed.

(** ** Changes of the clock *)

(** A change of the clock inside a day: before and after it the clock shows the same day,
    and not its first second. *)
Definition day_change (off w off' : Z) : bool :=
  (- day_secs <? off) && (off <? day_secs) && (- day_secs <? off') && (off' <? day_secs) &&
  ((w + off) / day_secs =? (w + off') / day_secs) && (0 <? (w + off) mod day_secs) && (0 <? (w + off') mod day_secs).
(** Changes are two days apart at least. *)
Definition spaced (prev : option Z) (w : Z) : bool := match prev with Some w0 => w0 + 2 * day_secs <=? w | None => true end.
Fixpoint regular_tx (off : Z) (prev : option Z) (tx : list (Z * Z)) : bool :=
  match tx with
  | [] => true
  | (w, off') :: tx => spaced prev w && day_change off w off' && regular_tx off' (Some w) tx
  end.
Definition regular (l : Location) : bool := regular_tx (l_first l) None (l_tx l).

(** The offsets of a location, with the seconds from and until which they are in force. *)
Inductive zone : Z → option Z → list (Z * Z) → Z → option Z → option Z → Prop :=
| zone_here off start tx : zone off start tx off start (fst <$> head tx)
| zone_later off start w off' tx o s e : zone off' (Some w) tx o s e → zone off start ((w, off') :: tx) o s e.

Lemma spaced_le prev w : spaced prev w = true → match prev with Some w0 => w0 + 2 * day_secs <= w | None => True end.
Proof. unfold spaced. destruct prev; [|done]. lia. Qed.

Lemma lookup_zone tx : ∀ off start x, match start with Some s => s ≤ x | None => True end →
  ∃ o s e, lookup_tx off start tx x = (o, s, e) ∧ zone off start tx o s e ∧ in_zone s e x = true.
Proof.
  induction tx as [|[w off'] tx IH]; intros off start x Hs; cbn [lookup_tx].
  - exists off, start, None. split_and!; [done|constructor|]. unfold in_zone. destruct start; [|done]. lia.
  - destruct (Z.ltb_spec x w) as [Hw|Hw].
    + exists off, start, (Some w). split_and!; [done|constructor|]. unfold in_zone. destruct start; lia.
    + destruct (IH off' (Some w) x Hw) as (o & s & e & E & Hz & Hi). exists o, s, e. split_and!; [done|by constructor|done].
Qed.

Lemma zone_from tx : ∀ off start o s e x, regular_tx off start tx = true → zone off start tx o s e → in_zone s e x = true →
  match start with Some s0 => s0 ≤ x | None => True end.
Proof.
  intros off start o s e x Hr Hz. revert x Hr. induction Hz as [off start tx|off start w off' tx o s e Hz IH]; intros x Hr Hi.
  - unfold in_zone in Hi. destruct start; lia.
  - simpl in Hr. specialize (IH x ltac:(lia) Hi). simpl in IH. assert (spaced start w = true) as Ha%spaced_le by lia.
    unfold day_secs in *. destruct start; lia.
Qed.

Lemma zone_lookup off start tx o s e x :
  regular_tx off start tx = true → zone off start tx o s e → in_zone s e x = true → lookup_tx off start tx x = (o, s, e).
Proof.
  intros Hr Hz. revert Hr. induction Hz as [off start tx|off start w off' tx o s e Hz IH]; intros Hr Hi.
  - destruct tx as [|[w off'] tx]; [done|]. cbn in *. unfold in_zone in Hi. destruct (Z.ltb_spec x w); [done|]. destruct start; lia.
  - simpl in Hr. cbn. assert (regular_tx off' (Some w) tx = true) as Hr' by lia. pose proof (zone_from _ _ _ _ _ _ _ Hr' Hz Hi).
    destruct (Z.ltb_spec x w); [simpl in *; lia|by apply IH].
Qed.

Lemma zone_next off start tx o s w :
  regular_tx off start tx = true → zone off start tx o s (Some w) →
  ∃ o' e', zone off start tx o' (Some w) e' ∧ day_change o w o' = true ∧ (∀ w', e' = Some w' → w + 2 * day_secs ≤ w').
Proof.
  intros Hr Hz. remember (Some w) as e eqn:Ee. revert Hr Ee. induction Hz as [off start tx|off start w0 off' tx o s e Hz IH]; intros Hr Ee.
  - destruct tx as [|[w' off'] tx]; [done|]. injection Ee as ->. simpl in Hr. exists off', (fst <$> head tx). split_and!.
    + constructor. constructor.
    + lia.
    + intros w1 Ew. destruct tx as [|[w2 o2] tx]; [done|]. injection Ew as ->. simpl in Hr. lia.
  - simpl in Hr. destruct (IH ltac:(lia) Ee) as (o' & e' & H1 & H2 & H3). exists o', e'. split_and!; [by constructor|done|done].
Qed.

Lemma zone_prev off start tx o w e :
  regular_tx off start tx = true → zone off start tx o (Some w) e → (start = Some w ∧ o = off) ∨
  ∃ o' s', zone off start tx o' s' (Some w) ∧ day_change o' w o = true ∧ (∀ w', s' = Some w' → w' + 2 * day_secs ≤ w).
Proof.
  intros Hr Hz. remember (Some w) as s eqn:Es. revert Hr Es. induction Hz as [off start tx|off start w0 off' tx o s e Hz IH]; intros Hr Es.
  - by left.
  - right. simpl in Hr. destruct (IH ltac:(lia) Es) as [[Ew ->]|(o' & s' & H1 & H2 & H3)].
    + subst s. injection Ew as ->. exists off, start. split_and!; [apply (zone_here off start ((w, off') :: tx))|lia|].
      intros w' ->. simpl in Hr. lia.
    + exists o', s'. split_and!; [by constructor|done|done].
Qed.

(** Seconds of the wall clock that no change of the clock skips or repeats. *)
Definition plain_sec (L : Z) : Prop := ∃ d, L = d * day_secs ∨ L = d * day_secs - 1.
Lemma plain_change L off w off' : plain_sec L → day_change off w off' = true → L < w + off ↔ L < w + off'.
Proof. unfold plain_sec, day_change, day_secs. intros (d & Hd) Hc. assert ((w + off) / 86400 = (w + off') / 86400 ∧ 0 < (w + off) mod 86400 ∧ 0 < (w + off') mod 86400) by lia. cal. Qed.
Lemma change_range off w off' : day_change off w off' = true → - day_secs < off < day_secs ∧ - day_secs < off' < day_secs.
Proof. unfold day_change, day_secs. lia. Qed.

Section resolved.
Context (l : Location) (Hreg : regular l = true).
Abbreviation Zone := (zone (l_first l) None (l_tx l)).

Lemma offset_zone o s e x : Zone o s e → in_zone s e x = true → loc_lookup l x = (o, s, e).
Proof. intros. unfold loc_lookup. by apply zone_lookup. Qed.

(** [time.Date] finds the instant at which the clock shows such a second. *)
Lemma to_unix_reads L : plain_sec L → to_unix l L + offset_at l (to_unix l L) = L.
Proof.
  intros HL. unfold to_unix. destruct (lookup_zone (l_tx l) (l_first l) None L) as (o & s & e & E & Hz & Hi); [done|].
  change (loc_lookup l L = (o, s, e)) in E. rewrite E. cbv zeta.
  destruct (in_zone s e (L - o)) eqn:Ein; [unfold offset_at; rewrite (offset_zone o s e) by done; simpl; lia|].
  assert ((∃ w, s = Some w ∧ w ≤ L ∧ L - o < w) ∨ (∃ w, e = Some w ∧ L < w ∧ w ≤ L - o)) as [(w & -> & H1 & H2)|(w & -> & H1 & H2)].
  { unfold in_zone in *. destruct s as [s|], e as [e|]; try lia;
      [destruct (Z.leb_spec s (L - o)); [right; exists e|left; exists s]|left; exists s|right; exists e]; (split; [done|lia]). }
  - destruct (zone_prev _ _ _ _ _ _ Hreg Hz) as [[? _]|(o1 & s1 & Hz1 & Hc & Hsp)]; [done|].
    destruct (change_range _ _ _ Hc). pose proof (plain_change L _ _ _ HL Hc).
    assert (∀ x, w - 2 * day_secs ≤ x < w → loc_lookup l x = (o1, s1, Some w)) as Hx.
    { intros x ?. apply offset_zone; [done|]. unfold in_zone. destruct s1 as [w1|]; [specialize (Hsp w1 eq_refl)|]; lia. }
    unfold offset_at. rewrite (Hx (L - o)) by (unfold day_secs in *; lia). cbn [fst]. rewrite (Hx (L - o1)) by (unfold day_secs in *; lia). simpl. lia.
  - destruct (zone_next _ _ _ _ _ _ Hreg Hz) as (o1 & e1 & Hz1 & Hc & Hsp).
    destruct (change_range _ _ _ Hc). pose proof (plain_change L _ _ _ HL Hc).
    assert (∀ x, w ≤ x < w + 2 * day_secs → loc_lookup l x = (o1, Some w, e1)) as Hx.
    { intros x ?. apply offset_zone; [done|]. unfold in_zone. destruct e1 as [w1|]; [specialize (Hsp w1 eq_refl)|]; lia. }
    unfold offset_at. rewrite (Hx (L - o)) by (unfold day_secs in *; lia). cbn [fst]. rewrite (Hx (L - o1)) by (unfold day_secs in *; lia). simpl. lia.
Qed.
End resolved.

(** The clock does not go back over such a second. *)
Lemma tx_forward L tx : plain_sec L → ∀ off start u1 u2, regular_tx off start tx = true → u1 < u2 →
  L ≤ u1 + (lookup_tx off start tx u1).1.1 → L < u2 + (lookup_tx off start tx u2).1.1.
Proof.
  intros HL. induction tx as [|[w off'] tx IH]; intros off start u1 u2 Hr Hlt; cbn [lookup_tx].
  { simpl. lia. }
  simpl in Hr. assert (day_change off w off' = true) as Hc by lia. assert (regular_tx off' (Some w) tx = true) as Hr' by lia.
  pose proof (plain_change L _ _ _ HL Hc). destruct (Z.ltb_spec u1 w), (Z.ltb_spec u2 w); cbn [fst]; [lia| |lia|by apply IH].
  intros Hle. assert ((lookup_tx off' (Some w) tx w).1.1 = off') as Hw.
  { destruct tx as [|[w2 o2] tx]; [done|]. simpl in Hr' |- *. destruct (Z.ltb_spec w w2); [done|]. unfold day_secs in *. lia. }
  destruct (decide (u2 = w)) as [->|]; [rewrite Hw; lia|]. apply (IH off' (Some w) w u2 Hr'); [lia|]. rewrite Hw. lia.
Qed.

(** ** Local midnights *)

Definition midnight (d : Z) (loc : Location) : Time := {| t_ns := to_unix loc (d * day_secs) * sec_ns; t_loc := loc |}.

Lemma midnight_Unix d loc : t_Unix (midnight d loc) = to_unix loc (d * day_secs).
Proof. unfold t_Unix, midnight, sec_ns. simpl. by rewrite Z.div_mul. Qed.

Lemma time_Date_midnight y m d loc : time_Date y m d 0 0 0 0 loc = midnight (norm_days y m d) loc.
Proof. unfold time_Date, midnight. f_equal. rewrite !Z.add_0_r. done. Qed.

Lemma in_day t : t_days t * day_secs ≤ t_Unix t + t_off t < (t_days t + 1) * day_secs.
Proof. unfold t_days, day_secs. cal. Qed.

Section midnights.
Context (loc : Location) (Hreg : regular loc = true).

Lemma midnight_reads d : t_Unix (midnight d loc) + t_off (midnight d loc) = d * day_secs.
Proof. unfold t_off. rewrite midnight_Unix. apply to_unix_reads; [done|]. exists d. by left. Qed.

Lemma midnight_days d : t_days (midnight d loc) = d.
Proof. unfold t_days. rewrite midnight_reads. by rewrite Z.div_mul. Qed.

(** The instants of a day are those from its midnight on. *)
Lemma midnight_first d u : t_Unix (midnight d loc) ≤ u ↔ d * day_secs ≤ u + offset_at loc u.
Proof.
  pose proof (midnight_reads d) as Hm. unfold t_off in Hm. cbn [t_loc midnight] in Hm.
  assert (plain_sec (d * day_secs)) as HL by (exists d; by left).
  assert (∀ u1 u2, u1 < u2 → d * day_secs ≤ u1 + offset_at loc u1 → d * day_secs < u2 + offset_at loc u2) as Hf
    by (intros u1 u2; by apply tx_forward).
  split; intros H.
  - destruct (decide (t_Unix (midnight d loc) = u)) as [<-|]; [lia|]. apply Z.lt_le_incl, (Hf (t_Unix (midnight d loc))); lia.
  - destruct (Z.le_gt_cases (t_Unix (midnight d loc)) u) as [|Hlt]; [done|]. specialize (Hf _ _ Hlt H). lia.
Qed.

Lemma midnight_mono d d' : d ≤ d' → t_Unix (midnight d loc) ≤ t_Unix (midnight d' loc).
Proof.
  intros Hd. apply midnight_first. pose proof (midnight_reads d') as H. unfold t_off in H. cbn [t_loc midnight] in H.
  rewrite H. unfold day_secs. lia.
Qed.

(** An instant lies between the midnights around it. *)
Lemma between_midnights t d : t_loc t = loc →
  (d ≤ t_days t → t_Unix (midnight d loc) ≤ t_Unix t) ∧ (t_days t < d → t_Unix t < t_Unix (midnight d loc)).
Proof.
  intros Hl. pose proof (in_day t) as Hd. unfold t_off in Hd. rewrite Hl in Hd. pose proof (midnight_first d (t_Unix t)) as Hm.
  unfold day_secs in *. split; intros; [apply Hm; lia|]. apply Z.nle_gt. rewrite Hm. lia.
Qed.

(** The last second of a day. *)
Lemma last_second d : to_unix loc (d * day_secs - 1) + 1 = t_Unix (midnight d loc).
Proof.
  assert (plain_sec (d * day_secs - 1)) as HL by (exists d; by right). set (u := to_unix loc (d * day_secs - 1)).
  assert (u + offset_at loc u = d * day_secs - 1) as Hu by (by apply to_unix_reads).
  pose proof (midnight_first d u). pose proof (midnight_first d (u + 1)).
  assert (d * day_secs - 1 < u + 1 + offset_at loc (u + 1)) by (apply (tx_forward _ _ HL _ None u (u + 1) Hreg); [lia|]; fold (loc_lookup loc u); fold (offset_at loc u); lia).
  lia.
Qed.

Lemma midnight_AddDate d years months days :
  t_AddDate (midnight d loc) years months days =
    let '(y, m, dd) := civil_from_days d in midnight (norm_days (y + years) (m + months) (dd + days)) loc.
Proof.
  unfold t_AddDate, t_Date. rewrite midnight_days. destruct (civil_from_days d) as [[y m] dd].
  assert (t_secs (midnight d loc) = 0) as -> by (unfold t_secs; rewrite midnight_reads; by rewrite Z.mod_mul).
  assert (t_ns (midnight d loc) mod sec_ns = 0) as -> by (simpl; by rewrite Z.mod_mul).
  by rewrite time_Date_midnight.
Qed.

Lemma midnight_add_days d k : t_AddDate (midnight d loc) 0 0 k = midnight (d + k) loc.
Proof.
  rewrite midnight_AddDate. pose proof (norm_days_civil d) as Hd.
  destruct (civil_from_days d) as [[y m] dd]. by rewrite !Z.add_0_r, norm_days_add, Hd.
Qed.

(** One nanosecond before a midnight is in the last second of the day before. *)
Lemma before_midnight_Unix d : t_Unix (t_Add (midnight d loc) (-1)) = t_Unix (midnight d loc) - 1.
Proof. rewrite midnight_Unix. unfold t_Unix, t_Add, midnight, sec_ns. simpl. cal. Qed.
End midnights.

(** ** Where the calendar's instants are *)

Lemma DayNumStart_midnight c n : DayNumStart c n = midnight (t_days (c_t c) + n) (c_loc c).
Proof.
  unfold DayNumStart, t_Date. pose proof (norm_days_civil (t_days (c_t c))) as Hd.
  destruct (civil_from_days _) as [[y m] dd]. by rewrite time_Date_midnight, norm_days_add, Hd.
Qed.

Lemma DayNumEnd_Unix c n :
  regular (c_loc c) = true → t_Unix (DayNumEnd c n) + 1 = t_Unix (midnight (t_days (c_t c) + n + 1) (c_loc c)).
Proof.
  intros Hreg. unfold DayNumEnd, t_Date. pose proof (norm_days_civil (t_days (c_t c))) as Hd.
  destruct (civil_from_days _) as [[y m] dd]. unfold t_Unix at 1, time_Date. cbn [t_ns].
  rewrite norm_days_add, Hd, Z.add_0_r, Z.div_mul by done. rewrite <- last_second by done. do 2 f_equal. unfold day_secs. lia.
Qed.

Definition monday (d : Z) : Z := iso_thursday d - 3.

Lemma iso_thursday_bounds d : iso_thursday d - 3 ≤ d ≤ iso_thursday d + 3.
Proof. unfold iso_thursday, weekday. destruct (Z.eqb_spec (4 - (d + 4) mod 7) 4); cal. Qed.

Lemma iso_thursday_weekday d : weekday (iso_thursday d) = 4.
Proof. unfold iso_thursday, weekday. destruct (Z.eqb_spec (4 - (d + 4) mod 7) 4); cal. Qed.

(** The Thursday is the only one within three days. *)
Lemma iso_thursday_unique d th : weekday th = 4 → th - 3 ≤ d ≤ th + 3 → iso_thursday d = th.
Proof.
  intros Hw Hd. pose proof (iso_thursday_bounds d). pose proof (iso_thursday_weekday d).
  unfold weekday in *. cal.
Qed.

(** Two days of weeks whose Thursdays are in the same year. *)
Lemma iso_week_diff d1 d2 :
  (iso_week d1).1 = (iso_week d2).1 →
  7 * ((iso_week d1).2 - (iso_week d2).2) = iso_thursday d1 - iso_thursday d2.
Proof.
  unfold iso_week. cbn [fst snd]. intros ->.
  pose proof (iso_thursday_weekday d1) as H1. pose proof (iso_thursday_weekday d2) as H2.
  unfold weekday in *. cal.
Qed.

Lemma WeekNumStart_midnight c n :
  regular (c_loc c) = true → WeekNumStart c n = midnight (monday (t_days (c_t c)) + 7 * n) (c_loc c).
Proof.
  intros Hreg. unfold WeekNumStart, t_ISOWeek. set (d := t_days (c_t c)).
  pose proof (iso_week_diff d) as Hdiff. destruct (iso_week d) as [year week]. cbn [fst snd] in Hdiff.
  rewrite time_Date_midnight. unfold t_Weekday. rewrite midnight_days by done. rewrite norm_days_valid by lia.
  set (j := days_from_civil year 7 1).
  set (t := if weekday j =? 0 then _ else _).
  assert (t = midnight (monday j) (c_loc c)) as ->.
  { subst t. rewrite !midnight_add_days by done. unfold monday, iso_thursday.
    destruct (Z.eqb_spec (weekday j) 0) as [E|E]; f_equal; [rewrite E; change (4 - 0 =? 4) with true; cbv iota; lia|].
    pose proof (Z.mod_pos_bound (j + 4) 7). unfold weekday in *.
    destruct (Z.eqb_spec (4 - (j + 4) mod 7) 4); lia. }
  rewrite midnight_days, midnight_add_days by done.
  assert (iso_thursday (monday j) = iso_thursday j) as Eth
    by (apply iso_thursday_unique; [apply iso_thursday_weekday|unfold monday; lia]).
  specialize (Hdiff (monday j)). unfold iso_week in *. rewrite Eth in *. cbn [fst snd] in *.
  assert ((civil_from_days (iso_thursday j)).1.1 = year) as Ey.
  { pose proof (iso_thursday_bounds j). subst j.
    rewrite <- (around_july year (iso_thursday (days_from_civil year 7 1) - days_from_civil year 7 1)) at 2
      by lia. do 3 f_equal. lia. }
  rewrite Ey in *. f_equal. unfold monday at 1. specialize (Hdiff eq_refl).
  unfold monday. lia.
Qed.

(** A week ends 168 hours after its start. *)
Lemma WeekNumEnd_Unix c n :
  regular (c_loc c) = true → t_Unix (WeekNumEnd c n) + 1 = t_Unix (WeekNumStart c n) + 7 * day_secs.
Proof.
  intros Hreg. unfold WeekNumEnd. rewrite WeekNumStart_midnight by done. rewrite midnight_Unix.
  unfold t_Unix, t_Add, midnight, Week, Day, day_secs, sec_ns. simpl. cal.
Qed.

Lemma norm_days_carry y m k : norm_days (y + k) m 1 = norm_days y (m + 12 * k) 1.
Proof.
  unfold norm_days. replace (m + 12 * k - 1) with (m - 1 + k * 12) by lia.
  rewrite Z.div_add, Z.mod_add by lia. do 3 f_equal. lia.
Qed.

(** From the first of a month, [AddDate] reaches the first of another. *)
Lemma first_AddDate y m loc years months :
  regular loc = true →
  t_AddDate (midnight (norm_days y m 1) loc) years months 0 =
  midnight (norm_days (y + years) (m + months) 1) loc.
Proof.
  intros Hreg. rewrite midnight_AddDate by done. unfold norm_days at 1.
  replace (days_from_civil (y + (m - 1) / 12) ((m - 1) mod 12 + 1) 1 + 1 - 1)
    with (days_from_civil (y + (m - 1) / 12) ((m - 1) mod 12 + 1) 1) by lia.
  rewrite civil_first by (pose proof (Z.mod_pos_bound (m - 1) 12); lia).
  f_equal. replace (y + (m - 1) / 12 + years) with (y + years + (m - 1) / 12) by lia.
  rewrite norm_days_carry.
  f_equal. pose proof (Z.div_mod (m - 1) 12). lia.
Qed.

Lemma MonthNumStart_midnight c n :
  MonthNumStart c n = midnight (norm_days (t_Year (c_t c)) (t_Month (c_t c) + n) 1) (c_loc c).
Proof. apply time_Date_midnight. Qed.

Lemma YearNumStart_midnight c n :
  YearNumStart c n = midnight (norm_days (t_Year (c_t c) + n) 1 1) (c_loc c).
Proof. apply time_Date_midnight. Qed.

(** ** Properties *)

(** The four units of the quick date filters. *)
Inductive unit_of_time := UDay | UWeek | UMonth | UYear.

Definition unit_start (u : unit_of_time) : Calendar → Z → Time :=
  match u with UDay => DayNumStart | UWeek => WeekNumStart | UMonth => MonthNumStart | UYear => YearNumStart end.
Definition unit_end (u : unit_of_time) : Calendar → Z → Time :=
  match u with UDay => DayNumEnd | UWeek => WeekNumEnd | UMonth => MonthNumEnd | UYear => YearNumEnd end.

(** The change of the clock during a week. *)
Definition clock_change (u : unit_of_time) (c : Calendar) (n : Z) : Z :=
  match u with UWeek => t_off (WeekNumStart c (n + 1)) - t_off (WeekNumStart c n) | _ => 0 end.

Lemma unit_abut u c n : regular (c_loc c) = true →
  t_Unix (unit_end u c n) + 1 = t_Unix (unit_start u c (n + 1)) + clock_change u c n.
Proof.
  intros Hreg. destruct u; cbn [unit_start unit_end clock_change]; rewrite ?Z.add_0_r.
  - rewrite DayNumEnd_Unix, DayNumStart_midnight by done. do 2 f_equal. lia.
  - rewrite WeekNumEnd_Unix, !WeekNumStart_midnight by done.
    pose proof (midnight_reads (c_loc c) Hreg (monday (t_days (c_t c)) + 7 * n)).
    pose proof (midnight_reads (c_loc c) Hreg (monday (t_days (c_t c)) + 7 * (n + 1))). unfold day_secs in *. lia.
  - unfold MonthNumEnd. rewrite !MonthNumStart_midnight, first_AddDate, before_midnight_Unix by done.
    rewrite Z.add_0_r. replace (t_Month (c_t c) + n + 1) with (t_Month (c_t c) + (n + 1)) by lia. lia.
  - unfold YearNumEnd. rewrite !YearNumStart_midnight, first_AddDate, before_midnight_Unix by done.
    rewrite Z.add_0_r. replace (t_Year (c_t c) + n + 1) with (t_Year (c_t c) + (n + 1)) by lia. lia.
Qed.

(** The unit of the calendar's own instant starts at its first day or before, and the
    next one after it. *)
Lemma unit_around u c : regular (c_loc c) = true → c_loc c = t_Location (c_t c) →
  t_Unix (unit_start u c 0) ≤ t_Unix (c_t c) < t_Unix (unit_start u c 1).
Proof.
  intros Hreg Hloc. assert (∀ d d', d ≤ t_days (c_t c) → t_days (c_t c) < d' →
    t_Unix (midnight d (c_loc c)) ≤ t_Unix (c_t c) < t_Unix (midnight d' (c_loc c))) as Hb.
  { intros d d' ? ?. split; apply between_midnights; done. }
  destruct u; cbn [unit_start].
  - rewrite !DayNumStart_midnight. apply Hb; lia.
  - rewrite !WeekNumStart_midnight by done. pose proof (iso_thursday_bounds (t_days (c_t c))). unfold monday. apply Hb; lia.
  - rewrite !MonthNumStart_midnight, Z.add_0_r. unfold t_Year, t_Month, t_Date.
    pose proof (day_in_month (t_days (c_t c))) as Hm. destruct (civil_from_days _) as [[y m] dd]. cbn [fst snd]. apply Hb; lia.
  - rewrite !YearNumStart_midnight, Z.add_0_r. unfold t_Year, t_Date.
    pose proof (day_in_year (t_days (c_t c))) as Hy. destruct (civil_from_days _) as [[y m] dd].
    cbn [fst snd]. rewrite !norm_days_valid by lia. apply Hb; lia.
Qed.

(** C39. In a location whose clock is changed inside days (and the changes are two days
    apart at least, as summer time is in Europe and America) the days, months and years
    of the quick date filters tile the time line: the last second of each is followed by
    the first second of the next one.  ISO weeks start where they should, but end 168
    hours later: a week in which the clock is changed ends by the change too early or too
    late.  The current unit starts at the calendar's instant or before, and the next one
    after it. *)
Theorem calendar_units_tile (u : unit_of_time) (c : Calendar) (n : Z) :
  regular (c_loc c) = true → c_loc c = t_Location (c_t c) →
  t_Unix (unit_end u c n) + 1 = t_Unix (unit_start u c (n + 1)) + clock_change u c n ∧
  t_Unix (unit_start u c 0) ≤ t_Unix (c_t c) < t_Unix (unit_start u c 1).
Proof. intros Hreg Hloc. split; [by apply unit_abut|by apply unit_around]. Qed.

(** Central Europe in 2024 and 2025. *)
Definition Berlin : Location :=
  {| l_first := 3600; l_tx := [(1711846800, 7200); (1729990800, 3600); (1743296400, 7200); (1761440400, 3600)] |}.

(** 2024-12-31 12:00:00, in the first ISO week of 2025. *)
Lemma calendar_units_tile_witness :
  let c := NewCalendar UTC (time_Unix 1735642800 Berlin) (Some Berlin) in
  t_Date (c_t c) = (2024, 12, 31) ∧ t_ISOWeek (c_t c) = (2025, 1) ∧
  t_Unix (unit_end UWeek c 0) + 1 = t_Unix (unit_start UWeek c (0 + 1)) + clock_change UWeek c 0 ∧ clock_change UWeek c 0 = 0 ∧
  t_Unix (unit_start UWeek c 0) ≤ t_Unix (c_t c) < t_Unix (unit_start UWeek c 1).
Proof.
  intros c. split; [reflexivity|]. split; [reflexivity|].
  destruct (calendar_units_tile UWeek c 0) as [H1 H2]; [vm_compute; reflexivity|reflexivity|].
  split; [exact H1|]. split; [vm_compute; reflexivity|exact H2].
Defined.

(** Sunday 2025-10-26, 23:30, after the change to winter time: the instant is in the
    current day but behind the end of the current week and before the next one.  Half an
    hour after the Monday of 2025-03-31 has begun, the week before has not ended. *)
Theorem weeks_with_clock_changes :
  let sunday := NewCalendar UTC (time_Unix 1761517800 Berlin) (Some Berlin) in
  let monday := NewCalendar UTC (time_Unix 1743373800 Berlin) (Some Berlin) in
  t_Date (c_t sunday) = (2025, 10, 26) ∧ t_Date (c_t monday) = (2025, 3, 31) ∧
  t_Unix (DayNumStart sunday 0) ≤ t_Unix (c_t sunday) ≤ t_Unix (DayNumEnd sunday 0) ∧
  t_Unix (WeekNumEnd sunday 0) < t_Unix (c_t sunday) < t_Unix (WeekNumStart sunday 1) ∧
  t_Unix (WeekNumStart monday 0) ≤ t_Unix (c_t monday) ≤ t_Unix (WeekNumEnd monday (-1)).
Proof. vm_compute. repeat split; discriminate. Qed.

(** [CutToDay] is the start of the instant's own day. *)
Lemma CutToDay_midnight t : CutToDay t = midnight (t_days t) (t_loc t).
Proof.
  unfold CutToDay, t_Year, t_Month, t_Day, t_Date, t_Location.
  pose proof (norm_days_civil (t_days t)) as Hd. destruct (civil_from_days _) as [[y m] dd].
  cbn [fst snd]. by rewrite time_Date_midnight, Hd.
Qed.

Lemma CutToDay_mono s1 s2 loc : regular loc = true →
  s1 ≤ s2 → t_Unix (CutToDay (time_Unix s1 loc)) ≤ t_Unix (CutToDay (time_Unix s2 loc)).
Proof.
  intros Hreg Hs. rewrite !CutToDay_midnight. cbn [t_loc time_Unix].
  destruct (Z.le_gt_cases (t_days (time_Unix s1 loc)) (t_days (time_Unix s2 loc))) as [|Hlt]; [by apply midnight_mono|].
  destruct (between_midnights loc Hreg (time_Unix s2 loc) (t_days (time_Unix s1 loc)) eq_refl) as [_ H2].
  destruct (between_midnights loc Hreg (time_Unix s1 loc) (t_days (time_Unix s1 loc)) eq_refl) as [H1 _].
  specialize (H2 Hlt). specialize (H1 ltac:(lia)). unfold t_Unix, time_Unix, sec_ns in H1, H2. cbn [t_ns] in H1, H2.
  rewrite Z.div_mul in H1, H2 by done. lia.
Qed.
