(* ===== verification/Filter.v ===== *)
(** * Object filters ([pkg/lib/database/filter.go], [quickoptions.go], [database.go])

    A filter request of a client (a tree of conditions) is compiled to a filter,
    which is then evaluated on the details of objects.  The object store and the
    libraries ([samber/lo], the case folding of [strings], the textual date ids of
    [util/dateutil]) are parameters with the laws the code relies on.  A nil
    filter is [None]; [time.Now()] is the parameter [now], whose location is the
    local one. *)

From S2P Require Import Prelude Slice GoFloat Values PbTypes Details Calendar.

(** ** Enumerations of the protocol *)

Inductive Operator := Op_No | Op_Or | Op_And.

Inductive Condition :=
| Cond_None | Cond_Equal | Cond_NotEqual | Cond_Greater | Cond_Less | Cond_GreaterOrEqual
| Cond_LessOrEqual | Cond_Like | Cond_NotLike | Cond_In | Cond_NotIn | Cond_Empty | Cond_NotEmpty
| Cond_AllIn | Cond_NotAllIn | Cond_ExactIn | Cond_NotExactIn | Cond_Exists.

Inductive QuickOption :=
| ExactDate | Yesterday | Today | Tomorrow | LastWeek | CurrentWeek | NextWeek | LastMonth
| CurrentMonth | NextMonth | NumberOfDaysAgo | NumberOfDaysNow | LastYear | CurrentYear | NextYear.

Inductive RelationFormat :=
| RF_longtext | RF_shorttext | RF_number | RF_status | RF_tag | RF_date | RF_file | RF_checkbox
| RF_url | RF_email | RF_phone | RF_emoji | RF_object | RF_relations.

#[export] Instance Operator_eq_dec : EqDecision Operator.
Proof. solve_decision. Defined.
#[export] Instance Condition_eq_dec : EqDecision Condition.
Proof. solve_decision. Defined.
#[export] Instance QuickOption_eq_dec : EqDecision QuickOption.
Proof. solve_decision. Defined.
#[export] Instance RelationFormat_eq_dec : EqDecision RelationFormat.
Proof. solve_decision. Defined.

(** Relation keys of the bundle and a layout number. *)
Definition RelationKeyId : string := "id".
Definition RelationKeyType : string := "type".
Definition RelationKeySpaceId : string := "spaceId".
Definition RelationKeyIsArchived : string := "isArchived".
Definition RelationKeyIsDeleted : string := "isDeleted".
Definition RelationKeyResolvedLayout : string := "resolvedLayout".
Definition RelationKeyRelationKey : string := "relationKey".
Definition ObjectType_space : Z := 10.

(** ** Requests *)

Inductive FilterRequest := {
  fr_Id : string;
  fr_Operator : Operator;
  fr_RelationKey : string;
  fr_RelationProperty : string;
  fr_Condition : Condition;
  fr_Value : Value;
  fr_QuickOption : QuickOption;
  fr_Format : RelationFormat;
  fr_IncludeTime : bool;
  fr_NestedFilters : list FilterRequest;
}.

(** A composite literal that sets only the key, the condition and the value. *)
Definition leaf_request (key : string) (cond : Condition) (v : Value) : FilterRequest :=
  {| fr_Id := ""; fr_Operator := Op_No; fr_RelationKey := key; fr_RelationProperty := "";
     fr_Condition := cond; fr_Value := v; fr_QuickOption := ExactDate; fr_Format := RF_longtext;
     fr_IncludeTime := false; fr_NestedFilters := [] |}.

Definition group_request (op : Operator) (nested : list FilterRequest) : FilterRequest :=
  {| fr_Id := ""; fr_Operator := op; fr_RelationKey := ""; fr_RelationProperty := "";
     fr_Condition := Cond_None; fr_Value := Invalid; fr_QuickOption := ExactDate; fr_Format := RF_longtext;
     fr_IncludeTime := false; fr_NestedFilters := nested |}.

Definition with_key (r : FilterRequest) (key : string) : FilterRequest :=
  {| fr_Id := fr_Id r; fr_Operator := fr_Operator r; fr_RelationKey := key;
     fr_RelationProperty := fr_RelationProperty r; fr_Condition := fr_Condition r; fr_Value := fr_Value r;
     fr_QuickOption := fr_QuickOption r; fr_Format := fr_Format r; fr_IncludeTime := fr_IncludeTime r;
     fr_NestedFilters := fr_NestedFilters r |}.

Definition with_condition (r : FilterRequest) (c : Condition) : FilterRequest :=
  {| fr_Id := fr_Id r; fr_Operator := fr_Operator r; fr_RelationKey := fr_RelationKey r;
     fr_RelationProperty := fr_RelationProperty r; fr_Condition := c; fr_Value := fr_Value r;
     fr_QuickOption := fr_QuickOption r; fr_Format := fr_Format r; fr_IncludeTime := fr_IncludeTime r;
     fr_NestedFilters := fr_NestedFilters r |}.

Definition with_value (r : FilterRequest) (v : Value) : FilterRequest :=
  {| fr_Id := fr_Id r; fr_Operator := fr_Operator r; fr_RelationKey := fr_RelationKey r;
     fr_RelationProperty := fr_RelationProperty r; fr_Condition := fr_Condition r; fr_Value := v;
     fr_QuickOption := fr_QuickOption r; fr_Format := fr_Format r; fr_IncludeTime := fr_IncludeTime r;
     fr_NestedFilters := fr_NestedFilters r |}.

Definition with_nested (r : FilterRequest) (l : list FilterRequest) : FilterRequest :=
  {| fr_Id := fr_Id r; fr_Operator := fr_Operator r; fr_RelationKey := fr_RelationKey r;
     fr_RelationProperty := fr_RelationProperty r; fr_Condition := fr_Condition r; fr_Value := fr_Value r;
     fr_QuickOption := fr_QuickOption r; fr_Format := fr_Format r; fr_IncludeTime := fr_IncludeTime r;
     fr_NestedFilters := l |}.

(** ** Filters *)

Inductive Filter : Type :=
| FiltersAnd (fs : list Filter)
| FiltersOr (fs : list Filter)
| FilterNot (f : option Filter)
| FilterEq (key : string) (cond : Condition) (value : Value)
| FilterHasPrefix (key prefix : string)
| FilterIn (key : string) (value : list Value)
| FilterLike (key value : string)
| FilterExists (key : string)
| FilterEmpty (key : string)
| FilterAllIn (key : string) (strs : list string) (floats : list float64)
| FilterOptionsEqual (key : string) (value : list string) (options : gset string)
| FilterNestedIn (key : string) (nested : option Filter) (ids : list string)
| FilterNestedNotIn (key : string) (nested : option Filter) (ids : list string)
| Filter2ValuesComp (key1 key2 : string) (cond : Condition).

(** ** Libraries *)

(** [strings.ToLower] depends on the Unicode tables. *)
Class GoUnicode := ToLower : string → string.

(** [lo.Every] and [lo.Filter]; the equality is Go's [==] of the element type. *)
Class SamberLo := {
  lo_Every : ∀ {T}, (T → T → bool) → list T → list T → bool;
  lo_Filter : ∀ {T}, list T → (T → Z → bool) → list T;
}.
Class SamberLoOk `{!SamberLo} := {
  lo_Every_spec {T} (eqb : T → T → bool) (collection subset : list T) :
    lo_Every eqb collection subset = true ↔
    ∀ x, x ∈ subset → ∃ y, y ∈ collection ∧ eqb y x = true;
  lo_Filter_spec {T} (l : list T) (p : T → bool) :
    lo_Filter l (λ x _, p x) = List.filter p l;
}.

(** [strings.HasPrefix] and [strings.Contains]. *)
Definition strings_HasPrefix (s prefix : string) : bool := String.prefix prefix s.
Definition strings_Contains (s sub : string) : bool :=
  match String.index 0 sub s with Some _ => true | None => false end.

(** ** Evaluation *)

(** [FilterEq.filterObject] on a value that is compared as a whole. *)
Definition eq_scalar (fv : Value) (cond : Condition) (v : Value) : bool :=
  let comp := Compare fv v in
  match cond with
  | Cond_Equal => (comp =? 0)%Z
  | Cond_Greater => (comp =? -1)%Z
  | Cond_GreaterOrEqual => (comp <=? 0)%Z
  | Cond_Less => (comp =? 1)%Z
  | Cond_LessOrEqual => (comp >=? 0)%Z
  | Cond_NotEqual => negb (comp =? 0)%Z
  | _ => false
  end.

(** A scalar condition holds of a list when it holds of one of its elements; the
    recursive calls of the code are on scalars. *)
Definition eq_filterObject (fv : Value) (cond : Condition) (v : Value) : bool :=
  let isFilterValueScalar := negb (IsStringList fv) && negb (IsFloat64List fv) in
  if isFilterValueScalar then
    match v with
    | VFloatList l => existsb (λ lv, eq_scalar fv cond (Float64 lv)) l
    | VStringList l => existsb (λ lv, eq_scalar fv cond (String lv)) l
    | _ => eq_scalar fv cond v
    end
  else eq_scalar fv cond v.

Definition allIn_FilterObject `{!SamberLo} (key : string) (strs : list string) (floats : list float64)
    (g : Details) : bool :=
  if negb (Value_Ok (d_Get g key)) then false
  else if 0 <? length strs then
    match d_TryString g key, strs with
    | Some val, [s] => bool_decide (s = val)
    | _, _ =>
        match d_TryStringList g key with
        | Some val => lo_Every (λ x y, bool_decide (x = y)) val strs
        | None => false
        end
    end
  else if 0 <? length floats then
    match d_TryFloat64 g key, floats with
    | Some val, [f] => f_eq f val
    | _, _ =>
        match d_TryFloat64List g key with
        | Some val => lo_Every f_eq val floats
        | None => false
        end
    end
  else true.

Definition optionsEqual_FilterObject `{!SamberLo} (key : string) (value : list string)
    (options : gset string) (g : Details) : bool :=
  if length value =? 0 then false
  else
    match d_TryString g key with
    | Some val => if negb (bool_decide (val ∈ options)) then false else bool_decide (val ∈ value)
    | None =>
        match d_TryStringList g key with
        | Some val =>
            let onlyOptions := lo_Filter val (λ v _, bool_decide (v ∈ options)) in
            if negb (length onlyOptions =? length value) then false
            else lo_Every (λ x y, bool_decide (x = y)) onlyOptions value
        | None => false
        end
    end.

Definition hasPrefix_FilterObject (key prefix : string) (g : Details) : bool :=
  let val := d_Get g key in
  if strings_HasPrefix (GetString val) prefix then true
  else existsb (λ v, strings_HasPrefix v prefix) (GetStringList val).

Definition in_FilterObject (key : string) (value : list Value) (g : Details) : bool :=
  existsb (λ v, eq_filterObject v Cond_Equal (d_Get g key)) value.

Definition like_FilterObject `{!GoUnicode} (key value : string) (g : Details) : bool :=
  match d_TryString g key with
  | None => false
  | Some val => strings_Contains (ToLower val) (ToLower value)
  end.

Definition nestedIn_FilterObject (key : string) (ids : list string) (g : Details) : bool :=
  existsb (λ id, eq_filterObject (String id) Cond_Equal (d_Get g key)) ids.

Definition nestedNotIn_FilterObject (key : string) (ids : list string) (g : Details) : bool :=
  forallb (λ id, negb (eq_filterObject (String id) Cond_Equal (d_Get g key))) ids.

Definition twoValues_FilterObject (key1 key2 : string) (cond : Condition) (g : Details) : bool :=
  eq_filterObject (d_Get g key2) cond (d_Get g key1).

(** The composed filters; [ev] evaluates a filter on the object. *)
Definition and_FilterObject (ev : Filter → bool) (fs : list Filter) : bool := forallb ev fs.

Definition or_FilterObject (ev : Filter → bool) (fs : list Filter) : bool :=
  if length fs =? 0 then true else existsb ev fs.

Definition not_FilterObject (ev : Filter → bool) (f : option Filter) : bool :=
  match f with None => false | Some f => negb (ev f) end.

Fixpoint FilterObject `{!GoUnicode, !SamberLo} (f : Filter) (g : Details) : bool :=
  match f with
  | FiltersAnd fs => and_FilterObject (λ f, FilterObject f g) fs
  | FiltersOr fs => or_FilterObject (λ f, FilterObject f g) fs
  | FilterNot f => not_FilterObject (λ f, FilterObject f g) f
  | FilterEq key cond value => eq_filterObject value cond (d_Get g key)
  | FilterHasPrefix key prefix => hasPrefix_FilterObject key prefix g
  | FilterIn key value => in_FilterObject key value g
  | FilterLike key value => like_FilterObject key value g
  | FilterExists key => d_Has g key
  | FilterEmpty key => IsEmpty (d_Get g key)
  | FilterAllIn key strs floats => allIn_FilterObject key strs floats g
  | FilterOptionsEqual key value options => optionsEqual_FilterObject key value options g
  | FilterNestedIn key _ ids => nestedIn_FilterObject key ids g
  | FilterNestedNotIn key _ ids => nestedNotIn_FilterObject key ids g
  | Filter2ValuesComp key1 key2 cond => twoValues_FilterObject key1 key2 cond g
  end.

(** ** Date filters ([quickoptions.go]) *)

Section quick_options.
Context `{!GoArch}.

Definition getDateRange (f : FilterRequest) (now : Time) : Time * Time :=
  let local := t_Location now in
  let calendar := NewCalendar local now (Some (t_Location now)) in
  match fr_QuickOption f with
  | Yesterday => (DayNumStart calendar (-1), DayNumEnd calendar (-1))
  | Today => (DayNumStart calendar 0, DayNumEnd calendar 0)
  | Tomorrow => (DayNumStart calendar 1, DayNumEnd calendar 1)
  | LastWeek => (WeekNumStart calendar (-1), WeekNumEnd calendar (-1))
  | CurrentWeek => (WeekNumStart calendar 0, WeekNumEnd calendar 0)
  | NextWeek => (WeekNumStart calendar 1, WeekNumEnd calendar 1)
  | LastMonth => (MonthNumStart calendar (-1), MonthNumEnd calendar (-1))
  | CurrentMonth => (MonthNumStart calendar 0, MonthNumEnd calendar 0)
  | NextMonth => (MonthNumStart calendar 1, MonthNumEnd calendar 1)
  | NumberOfDaysAgo =>
      let daysCnt := GetInt64 (fr_Value f) in
      (DayNumStart calendar (- daysCnt), DayNumEnd calendar (- daysCnt))
  | NumberOfDaysNow =>
      let daysCnt := GetInt64 (fr_Value f) in
      (DayNumStart calendar daysCnt, DayNumEnd calendar daysCnt)
  | LastYear => (YearNumStart calendar (-1), YearNumEnd calendar (-1))
  | CurrentYear => (YearNumStart calendar 0, YearNumEnd calendar 0)
  | NextYear => (YearNumStart calendar 1, YearNumEnd calendar 1)
  | ExactDate =>
      let timestamp := GetInt64 (fr_Value f) in
      let t := time_Unix timestamp local in
      let calendar := NewCalendar local t None in
      (DayNumStart calendar 0, DayNumEnd calendar 0)
  end.

Definition transformDateFilter (protoFilter : FilterRequest) (now : Time) : list FilterRequest :=
  if negb (bool_decide (fr_Format protoFilter = RF_date)) then [protoFilter]
  else if bool_decide (fr_QuickOption protoFilter = ExactDate) && fr_IncludeTime protoFilter
  then [protoFilter]
  else
    let '(from, to) := getDateRange protoFilter now in
    let key := fr_RelationKey protoFilter in
    match fr_Condition protoFilter with
    | Cond_Equal | Cond_In =>
        [leaf_request key Cond_LessOrEqual (Int64 (t_Unix to));
         leaf_request key Cond_GreaterOrEqual (Int64 (t_Unix from))]
    | Cond_Less => [with_value protoFilter (Int64 (t_Unix from))]
    | Cond_Greater => [with_value protoFilter (Int64 (t_Unix to))]
    | Cond_LessOrEqual => [with_value protoFilter (Int64 (t_Unix to))]
    | Cond_GreaterOrEqual => [with_value protoFilter (Int64 (t_Unix from))]
    | _ => [protoFilter]
    end.
End quick_options.

(** ** Compilation of requests *)

Record RelationOption := { opt_Id : string; opt_Text : string; opt_OrderId : string }.

(** The part of the object store that filters use. *)
Record FilterStore := {
  os_QueryRaw : option Filter → res (list Details);
  os_ListRelationOptions : string → res (list RelationOption);
}.

(** The id of the day of a date object, when the string is the id of one
    ([BuildDateObjectFromId] and [NewDateObject(t, false).Id()]). *)
Class DateIds := date_day_id : string → option string.

(** [strings.SplitN(key, ".", 2)] when it has two parts. *)
Definition dot : Ascii.ascii := Ascii.ascii_of_nat 46.

Fixpoint split_dot (s : string) : option (string * string) :=
  match s with
  | "" => None
  | String.String c s =>
      if Ascii.eqb c dot then Some ("", s)
      else match split_dot s with
           | Some (a, b) => Some (String.String c a, b)
           | None => None
           end
  end.

Definition NestedRelationKey (base nested : string) : string := (base +:+ "." +:+ nested)%string.

Definition wrapValueToStringList (val : Value) : res (list string) :=
  match TryString val with
  | Some v => Ok [v]
  | None => match TryStringList val with Some v => Ok v | None => Err "unsupported type" end
  end.

Definition wrapValueToFloatList (val : Value) : res (list float64) :=
  match TryFloat64 val with
  | Some v => Ok [v]
  | None => match TryFloat64List val with Some v => Ok v | None => Err "unsupported type" end
  end.

Definition makeComplexFilter (rawFilter : FilterRequest) (s : ValueMap) : res Filter :=
  let filterType := d_GetString (Some s) RelationKeyType in
  if bool_decide (filterType = "valueFromRelation") then
    Ok (Filter2ValuesComp (fr_RelationKey rawFilter) (d_GetString (Some s) RelationKeyRelationKey)
          (fr_Condition rawFilter))
  else Err "unsupported type of complex filter".

Definition optionsToMap (store : FilterStore) (key : string) : gset string :=
  match os_ListRelationOptions store key with
  | Err _ => ∅
  | Ok options => foldl (λ result opt, {[opt_Id opt]} ∪ result) ∅ options
  end.

(** The two rewritings of checkbox conditions at the start of
    [makeFilterByCondition], in their order. *)
Definition checkbox_request (rawFilter : FilterRequest) (cond : Condition) : FilterRequest :=
  {| fr_Id := ""; fr_Operator := Op_No; fr_RelationKey := fr_RelationKey rawFilter;
     fr_RelationProperty := fr_RelationProperty rawFilter; fr_Condition := cond; fr_Value := Bool true;
     fr_QuickOption := ExactDate; fr_Format := RF_longtext; fr_IncludeTime := false;
     fr_NestedFilters := [] |}.

Definition rewrite_checkbox (rawFilter : FilterRequest) : FilterRequest :=
  let rawFilter :=
    if bool_decide (fr_Condition rawFilter = Cond_Equal)
    then match TryBool (fr_Value rawFilter) with
         | Some false => checkbox_request rawFilter Cond_NotEqual
         | _ => rawFilter
         end
    else rawFilter in
  if bool_decide (fr_Condition rawFilter = Cond_NotEqual)
  then match TryBool (fr_Value rawFilter) with
       | Some false => checkbox_request rawFilter Cond_Equal
       | _ => rawFilter
       end
  else rawFilter.

Definition AllIn_of (rawFilter : FilterRequest) : res Filter :=
  match wrapValueToStringList (fr_Value rawFilter) with
  | Ok l => Ok (FilterAllIn (fr_RelationKey rawFilter) l [])
  | Err _ =>
      match wrapValueToFloatList (fr_Value rawFilter) with
      | Ok l => Ok (FilterAllIn (fr_RelationKey rawFilter) [] l)
      | Err _ => Err "unsupported type"
      end
  end.

Definition ErrValueMustBeListSupporting : string := "value must be list supporting".

Definition ExactIn_of (store : FilterStore) (rawFilter : FilterRequest) : res Filter :=
  match wrapValueToStringList (fr_Value rawFilter) with
  | Err _ => Err ErrValueMustBeListSupporting
  | Ok l => Ok (FilterOptionsEqual (fr_RelationKey rawFilter) l
                  (optionsToMap store (fr_RelationKey rawFilter)))
  end.

Definition negated (f : Filter) : Filter := FilterNot (Some f).

Definition In_of (rawFilter : FilterRequest) : res Filter :=
  match TryWrapToList (fr_Value rawFilter) with
  | Err _ => Err ErrValueMustBeListSupporting
  | Ok l => Ok (FilterIn (fr_RelationKey rawFilter) l)
  end.

(** The switch on the condition. *)
Definition filter_by_condition `{!DateIds} (store : FilterStore) (rawFilter : FilterRequest) : res Filter :=
  let key := fr_RelationKey rawFilter in
  match fr_Condition rawFilter with
  | Cond_Equal | Cond_Greater | Cond_Less | Cond_GreaterOrEqual | Cond_LessOrEqual | Cond_NotEqual =>
      Ok (FilterEq key (fr_Condition rawFilter) (fr_Value rawFilter))
  | Cond_Like => Ok (FilterLike key (GetString (fr_Value rawFilter)))
  | Cond_NotLike => Ok (negated (FilterLike key (GetString (fr_Value rawFilter))))
  | Cond_In =>
      match date_day_id (GetString (fr_Value rawFilter)) with
      | Some prefix => Ok (FilterHasPrefix key prefix)
      | None => In_of rawFilter
      end
  | Cond_NotIn => negated <$> In_of rawFilter
  | Cond_Empty => Ok (FilterEmpty key)
  | Cond_NotEmpty => Ok (negated (FilterEmpty key))
  | Cond_AllIn => AllIn_of rawFilter
  | Cond_NotAllIn => negated <$> AllIn_of rawFilter
  | Cond_ExactIn => ExactIn_of store rawFilter
  | Cond_NotExactIn => negated <$> ExactIn_of store rawFilter
  | Cond_Exists => Ok (FilterExists key)
  | Cond_None => Err "unexpected filter cond"
  end.

(** [makeFilterByCondition] on a key without a dot. *)
Definition makePlainFilter `{!DateIds} (store : FilterStore) (rawFilter : FilterRequest) : res Filter :=
  let rawFilter := rewrite_checkbox rawFilter in
  match TryMapValue (fr_Value rawFilter) with
  | Some str =>
      match makeComplexFilter rawFilter str with
      | Ok filter => Ok filter
      | Err _ => filter_by_condition store rawFilter
      end
  | None => filter_by_condition store rawFilter
  end.

Definition negativeConditionToPositive (cond : Condition) : res Condition :=
  match cond with
  | Cond_NotEqual => Ok Cond_Equal
  | Cond_NotIn => Ok Cond_In
  | _ => Err "condition is not supported"
  end.

Definition record_ids (records : list Details) : list string :=
  foldl (λ ids rec, ids ++ [d_GetString rec RelationKeyId]) [] records.

(** [mk] is the recursive call of [MakeFilter]. *)
Definition makeFilterNestedIn (store : FilterStore) (mk : FilterRequest → res (option Filter))
    (rawFilter : FilterRequest) (relationKey nestedRelationKey : string) : res Filter :=
  nestedFilter ← mk (with_key rawFilter nestedRelationKey);
  records ← os_QueryRaw store nestedFilter;
  mret (FilterNestedIn relationKey nestedFilter (record_ids records)).

Definition makeFilterNestedNotIn (store : FilterStore) (mk : FilterRequest → res (option Filter))
    (rawFilter : FilterRequest) (relationKey nestedRelationKey : string) : res Filter :=
  cond ← negativeConditionToPositive (fr_Condition rawFilter);
  subQueryFilter ← mk (with_condition (with_key rawFilter nestedRelationKey) cond);
  records ← os_QueryRaw store subQueryFilter;
  nestedFilter ← mk (with_key rawFilter nestedRelationKey);
  mret (FilterNestedNotIn relationKey nestedFilter (record_ids records)).

Definition makeFilterByCondition `{!DateIds} (store : FilterStore)
    (mk : FilterRequest → res (option Filter)) (rawFilter : FilterRequest) : res Filter :=
  match split_dot (fr_RelationKey rawFilter) with
  | Some (relationKey, nestedRelationKey) =>
      if bool_decide (fr_Condition rawFilter = Cond_NotEqual) || bool_decide (fr_Condition rawFilter = Cond_NotIn)
      then makeFilterNestedNotIn store mk rawFilter relationKey nestedRelationKey
      else makeFilterNestedIn store mk rawFilter relationKey nestedRelationKey
  | None => makePlainFilter store rawFilter
  end.

(** Runs the calls in order, stopping at the first error. *)
Definition res_traverse {A B} (f : A → res B) : list A → res (list B) :=
  fix go l := match l with
              | [] => Ok []
              | x :: l => y ← f x; rest ← go l; mret (y :: rest)
              end.

Section make_filters.
Context `{!GoArch, !DateIds} (store : option FilterStore) (now : Time).

(** A key with n dots nests n times; a request that reaches [makeFilter] has no
    operator, so [MakeFilter] on its nested request is [makeFilter]. *)
Fixpoint makeFilter_fuel (fuel : nat) (rawFilter : FilterRequest) : res (option Filter) :=
  match fuel with
  | O => Err "out of fuel"
  | S fuel =>
      match store with
      | None => Err "objectStore dependency is nil"
      | Some store =>
          if bool_decide (fr_Condition rawFilter = Cond_None) then Ok None
          else
            let rawFilters := transformDateFilter rawFilter now in
            match rawFilters with
            | [r] => Some <$> makeFilterByCondition store (makeFilter_fuel fuel) r
            | _ => (λ fs, Some (FiltersAnd fs)) <$>
                     res_traverse (makeFilterByCondition store (makeFilter_fuel fuel)) rawFilters
            end
      end
  end.

Definition makeFilter (rawFilter : FilterRequest) : res (option Filter) :=
  makeFilter_fuel (S (String.length (fr_RelationKey rawFilter))) rawFilter.

Fixpoint MakeFilter (protoFilter : FilterRequest) : res (option Filter) :=
  match fr_Operator protoFilter with
  | Op_No => makeFilter protoFilter
  | op =>
      filters ← res_traverse MakeFilter (fr_NestedFilters protoFilter);
      let filters := omap id filters in
      match op with
      | Op_Or => Ok (Some (FiltersOr filters))
      | _ => Ok (Some (FiltersAnd filters))
      end
  end.

Definition MakeFilters (protoFilters : list FilterRequest) : res (option Filter) :=
  match protoFilters with
  | [f] =>
      if (0 <? length (fr_NestedFilters f)) && negb (bool_decide (fr_Operator f = Op_No))
      then MakeFilter f
      else MakeFilter (group_request Op_And protoFilters)
  | _ => MakeFilter (group_request Op_And protoFilters)
  end.
End make_filters.

Definition getSpaceIDFromFilters (filters : list FilterRequest) : string :=
  match List.find (λ f, bool_decide (fr_RelationKey f = RelationKeySpaceId)) filters with
  | Some f => GetString (fr_Value f)
  | None => ""
  end.

(** ** Default filters ([database.go]) *)

(** The scan of one level; a filter with nested ones at any position ends it with
    the scan [first] of the nested filters of the first filter. *)
Fixpoint scan_default (first : bool * bool * bool) (acc : bool * bool * bool) (filters : list FilterRequest)
    : bool * bool * bool :=
  match filters with
  | [] => acc
  | f :: filters =>
      if 0 <? length (fr_NestedFilters f) then first
      else
        let '(archived, deleted, type) := acc in
        let key := fr_RelationKey f in
        scan_default first
          (archived || bool_decide (key = RelationKeyIsArchived),
           deleted || bool_decide (key = RelationKeyIsDeleted),
           type || bool_decide (key = RelationKeyResolvedLayout)) filters
  end.

(** The scan of the filters nested in one request. *)
Fixpoint has_default_in (f : FilterRequest) : bool * bool * bool :=
  match fr_NestedFilters f with
  | [] => (false, false, false)
  | (g :: _) as nested => scan_default (has_default_in g) (false, false, false) nested
  end.

Definition hasDefaultFilters (filters : list FilterRequest) : bool * bool * bool :=
  match filters with
  | [] => (false, false, false)
  | f :: _ => scan_default (has_default_in f) (false, false, false) filters
  end.

Definition addDefaultFilters (filters : list FilterRequest) (hasArchived hasDeleted hasType : bool)
    : list FilterRequest :=
  let filters := if negb hasArchived
    then filters ++ [leaf_request RelationKeyIsArchived Cond_NotEqual (Bool true)] else filters in
  let filters := if negb hasDeleted
    then filters ++ [leaf_request RelationKeyIsDeleted Cond_NotEqual (Bool true)] else filters in
  if negb hasType
  then filters ++ [leaf_request RelationKeyType Cond_NotIn (Int64 ObjectType_space)] else filters.

(** Only called with a first filter. *)
Definition addDefaultFiltersToNested (f : FilterRequest) (rest : list FilterRequest)
    (hasArchived hasDeleted hasType : bool) : list FilterRequest :=
  if bool_decide (fr_Operator f = Op_And)
  then with_nested f (addDefaultFilters (fr_NestedFilters f) hasArchived hasDeleted hasType) :: rest
  else [group_request Op_And (addDefaultFilters (f :: rest) hasArchived hasDeleted hasType)].

Definition injectDefaultFilters (filters : list FilterRequest) : list FilterRequest :=
  let '(hasArchived, hasDeleted, hasType) := hasDefaultFilters filters in
  match filters with
  | f :: rest =>
      if 0 <? length (fr_NestedFilters f)
      then addDefaultFiltersToNested f rest hasArchived hasDeleted hasType
      else addDefaultFilters filters hasArchived hasDeleted hasType
  | [] => addDefaultFilters filters hasArchived hasDeleted hasType
  end.

(** ** Queries of the store ([negateFilter])

    [query.Filter] belongs to the store's module.  A query is a tree of the
    combinators the code takes apart, with opaque leaves; what [Ok] means on the
    combinators is an interface. *)

Inductive QFilter (A : Type) :=
| QAnd (l : list (QFilter A))
| QOr (l : list (QFilter A))
| QKey (path : list string) (f : QFilter A)
| QNot (f : QFilter A)
| QLeaf (a : A).
Arguments QAnd {A} l.
Arguments QOr {A} l.
Arguments QKey {A} path f.
Arguments QNot {A} f.
Arguments QLeaf {A} a.

Fixpoint negateFilter {A} (filter : QFilter A) : QFilter A :=
  match filter with
  | QAnd v => QOr (map negateFilter v)
  | QOr v => QAnd (map negateFilter v)
  | QKey path (QNot nested) => QKey path nested
  | QKey path f => QKey path (QNot f)
  | f => QNot f
  end.

Class QuerySem (A D : Type) := {
  q_ok : QFilter A → D → bool;
  q_get : list string → D → D;
}.

(** Groups are not empty in these laws: what an empty group means is not used. *)
Class QuerySemOk (A D : Type) `{!QuerySem A D} := {
  q_ok_and l d : l ≠ [] → q_ok (QAnd l) d = forallb (λ f, q_ok f d) l;
  q_ok_or l d : l ≠ [] → q_ok (QOr l) d = existsb (λ f, q_ok f d) l;
  q_ok_not f d : q_ok (QNot f) d = negb (q_ok f d);
  q_ok_key p f d : q_ok (QKey p f) d = q_ok f (q_get p d);
}.

(** No group of the query is empty. *)
Fixpoint q_nonempty {A} (f : QFilter A) : bool :=
  match f with
  | QAnd l | QOr l => negb (length l =? 0) && forallb q_nonempty l
  | QKey _ f | QNot f => q_nonempty f
  | QLeaf _ => true
  end.

Fixpoint qsize {A} (f : QFilter A) : nat :=
  match f with
  | QAnd l | QOr l => S (fold_right (λ f n, qsize f + n) 0 l)
  | QKey _ f | QNot f => S (qsize f)
  | QLeaf _ => 0
  end.

Lemma qsize_item {A} (l : list (QFilter A)) f :
  f ∈ l → qsize f < S (fold_right (λ f n, qsize f + n) 0 l).
Proof.
  induction l as [|x l IH]; intros Hf; [by apply elem_of_nil in Hf|].
  simpl. apply elem_of_cons in Hf as [->|Hf]; [lia|]. specialize (IH Hf). lia.
Qed.

Lemma forallb_map_neg {A} (p : A → bool) (n : A → A) l :
  (∀ x, x ∈ l → p (n x) = negb (p x)) →
  existsb p (map n l) = negb (forallb p l) ∧ forallb p (map n l) = negb (existsb p l).
Proof.
  induction l as [|x l IH]; intros Hn; simpl; [done|].
  destruct IH as [-> ->]; [intros y Hy; apply Hn; by right|]. rewrite Hn by (by left).
  by rewrite negb_andb, negb_orb.
Qed.

(** The negation of a store query is its logical negation: the De Morgan
    rewriting over groups and the cancellation of a negated key accept exactly the
    documents the query rejects. *)
Theorem negateFilter_ok {A D} `{!QuerySem A D, !QuerySemOk A D} (f : QFilter A) (d : D) :
  q_nonempty f = true → q_ok (negateFilter f) d = negb (q_ok f d).
Proof.
  revert d. induction f as [f IH] using (well_founded_induction (Wf_nat.well_founded_ltof _ qsize)).
  intros d Hf. destruct f as [l|l|p f|f|a]; cbn [negateFilter].
  - simpl in Hf. apply andb_true_iff in Hf as [Hl Hf]. rewrite forallb_forall in Hf.
    rewrite q_ok_or, q_ok_and; [|by destruct l|by destruct l].
    apply forallb_map_neg. intros x Hx. apply IH; [by apply qsize_item|].
    apply Hf. by apply list_elem_of_In.
  - simpl in Hf. apply andb_true_iff in Hf as [Hl Hf]. rewrite forallb_forall in Hf.
    rewrite q_ok_or, q_ok_and; [|by destruct l|by destruct l].
    apply forallb_map_neg. intros x Hx. apply IH; [by apply qsize_item|].
    apply Hf. by apply list_elem_of_In.
  - destruct f; rewrite ?q_ok_key, ?q_ok_not, ?q_ok_key, ?negb_involutive; done.
  - by rewrite q_ok_not.
  - by rewrite q_ok_not.
Qed.

(** Documents are trees of keys with a list of words at each node; a leaf asks
    for a word. *)
Module QueryTree.
Inductive doc := Doc (words : list string) (fields : list (string * doc)).

Definition empty_doc : doc := Doc [] [].

Fixpoint get (p : list string) (d : doc) : doc :=
  match p with
  | [] => d
  | k :: p => match d with
              | Doc _ fields =>
                  match List.find (λ f, bool_decide (f.1 = k)) fields with
                  | Some f => get p f.2
                  | None => empty_doc
                  end
              end
  end.

Fixpoint ok (f : QFilter string) (d : doc) : bool :=
  match f with
  | QAnd l => forallb (λ f, ok f d) l
  | QOr l => existsb (λ f, ok f d) l
  | QKey p f => ok f (get p d)
  | QNot f => negb (ok f d)
  | QLeaf w => match d with Doc words _ => bool_decide (w ∈ words) end
  end.

#[export] Instance sem : QuerySem string doc := {| q_ok := ok; q_get := get |}.
#[export] Instance sem_ok : QuerySemOk string doc.
Proof. by split. Qed.
End QueryTree.

Lemma negateFilter_ok_witness :
  let f := QAnd [QKey ["a"] (QLeaf "x"); QOr [QKey ["b"] (QNot (QLeaf "y")); QLeaf "z"]] in
  let d := QueryTree.Doc [] [("a", QueryTree.Doc ["x"] [])] in
  q_nonempty f = true ∧
  QueryTree.ok (negateFilter f) d = negb (QueryTree.ok f d).
Proof.
  intros f d. split; [reflexivity|].
  exact (negateFilter_ok (QuerySem0 := QueryTree.sem) (QuerySemOk0 := QueryTree.sem_ok) f d eq_refl).
Defined.

(** ** Lemmas on the comparison with one value *)

Definition points_to (v : Value) (id : string) : bool :=
  match v with
  | VString s => bool_decide (id = s)
  | VStringList l => bool_decide (id ∈ l)
  | _ => false
  end.

Lemma existsb_false {A} (p : A → bool) l : (∀ x, p x = false) → existsb p l = false.
Proof. intros Hp. induction l as [|x l IH]; simpl; [done|]. by rewrite Hp. Qed.

Lemma existsb_eq_elem `{EqDecision A} (x : A) l :
  existsb (λ y, bool_decide (x = y)) l = bool_decide (x ∈ l).
Proof.
  apply eq_bool_prop_intro. rewrite !Is_true_true, bool_decide_eq_true, existsb_exists. split.
  - intros (y & Hy & ->%bool_decide_eq_true). by apply list_elem_of_In.
  - intros Hx. exists x. split; [by apply list_elem_of_In|by apply bool_decide_eq_true].
Qed.

Lemma eq_scalar_string s t : eq_scalar (String s) Cond_Equal (String t) = bool_decide (s = t).
Proof.
  unfold eq_scalar. simpl. apply eq_bool_prop_intro.
  rewrite !Is_true_true, bool_decide_eq_true, Z.eqb_eq. apply strings_Compare_zero.
Qed.

Lemma existsb_ext_all {A} (p q : A → bool) l : (∀ x, p x = q x) → existsb p l = existsb q l.
Proof. intros Hp. induction l as [|x l IH]; simpl; [done|]. by rewrite Hp, IH. Qed.

Lemma eq_filterObject_string id v : eq_filterObject (String id) Cond_Equal v = points_to v id.
Proof.
  unfold eq_filterObject. simpl. destruct v as [| |b|s|f|l|l|m]; try done.
  - apply eq_scalar_string.
  - unfold points_to. rewrite <- existsb_eq_elem. apply existsb_ext_all. intros s. apply eq_scalar_string.
  - simpl. by apply existsb_false.
Qed.

(** ** Enough fuel *)

Lemma split_dot_shorter s a b : split_dot s = Some (a, b) → String.length b < String.length s.
Proof.
  revert a b. induction s as [|c s IH]; intros a b; simpl; [done|].
  destruct (Ascii.eqb c dot); [intros [= <- <-]; lia|].
  destruct (split_dot s) as [[a' b']|]; [|done]. intros [= <- <-].
  specialize (IH a' b' eq_refl). lia.
Qed.

Lemma transformDateFilter_key `{!GoArch} r now x :
  x ∈ transformDateFilter r now → fr_RelationKey x = fr_RelationKey r.
Proof.
  unfold transformDateFilter. intros Hx.
  repeat case_match; repeat (apply elem_of_cons in Hx as [->|Hx]; [done|]); by apply elem_of_nil in Hx.
Qed.

Lemma makeFilterByCondition_ext `{!DateIds} store mk1 mk2 r :
  (∀ r', String.length (fr_RelationKey r') < String.length (fr_RelationKey r) → mk1 r' = mk2 r') →
  makeFilterByCondition store mk1 r = makeFilterByCondition store mk2 r.
Proof.
  intros Hmk. unfold makeFilterByCondition.
  destruct (split_dot _) as [[a b]|] eqn:E; [|done]. apply split_dot_shorter in E.
  unfold makeFilterNestedNotIn, makeFilterNestedIn.
  rewrite (Hmk (with_key r b)) by done. case_match; [|done].
  destruct (negativeConditionToPositive _); simpl; [|done]. by rewrite Hmk.
Qed.

Lemma res_traverse_ext {A B} (f g : A → res B) l :
  (∀ x, x ∈ l → f x = g x) → res_traverse f l = res_traverse g l.
Proof.
  induction l as [|x l IH]; intros Hl; simpl; [done|].
  rewrite Hl by (by left). destruct (g x); simpl; [|done].
  by rewrite IH by (intros y Hy; apply Hl; by right).
Qed.

Lemma makeFilter_fuel_enough `{!GoArch, !DateIds} store now n m r :
  String.length (fr_RelationKey r) < n → String.length (fr_RelationKey r) < m →
  makeFilter_fuel store now n r = makeFilter_fuel store now m r.
Proof.
  revert m r. induction n as [|n IH]; intros [|m] r Hn Hm; try lia. simpl.
  destruct store as [st|]; [|done]. case_bool_decide; [done|].
  assert (∀ x, x ∈ transformDateFilter r now →
    makeFilterByCondition st (makeFilter_fuel (Some st) now n) x =
    makeFilterByCondition st (makeFilter_fuel (Some st) now m) x) as Heq.
  { intros x Hx%transformDateFilter_key. apply makeFilterByCondition_ext.
    rewrite Hx. intros r' Hr'. apply IH; lia. }
  destruct (transformDateFilter r now) as [|x [|y l]]; [done| |by erewrite res_traverse_ext].
  by rewrite Heq by (by left).
Qed.

Lemma makeFilter_unfold `{!GoArch, !DateIds} st now r :
  makeFilter (Some st) now r =
    if bool_decide (fr_Condition r = Cond_None) then Ok None
    else match transformDateFilter r now with
         | [x] => Some <$> makeFilterByCondition st (makeFilter (Some st) now) x
         | l => (λ fs, Some (FiltersAnd fs)) <$>
                  res_traverse (makeFilterByCondition st (makeFilter (Some st) now)) l
         end.
Proof.
  unfold makeFilter at 1. cbn [makeFilter_fuel]. case_bool_decide; [done|].
  assert (∀ x, x ∈ transformDateFilter r now →
    makeFilterByCondition st (makeFilter_fuel (Some st) now (String.length (fr_RelationKey r))) x =
    makeFilterByCondition st (makeFilter (Some st) now) x) as Heq.
  { intros x Hx%transformDateFilter_key. apply makeFilterByCondition_ext.
    rewrite Hx. intros r' Hr'. apply makeFilter_fuel_enough; lia. }
  destruct (transformDateFilter r now) as [|x [|y l]]; [done| |by erewrite res_traverse_ext].
  by rewrite Heq by (by left).
Qed.

(** ** Nested relations *)

(** The store answers a query with the objects that match it. *)
Definition answers `{!GoUnicode, !SamberLo} (st : FilterStore) (objs : list Details) : Prop :=
  ∀ f, os_QueryRaw st (Some f) = Ok (List.filter (FilterObject f) objs).

Lemma record_ids_map l : record_ids l = map (λ o, d_GetString o RelationKeyId) l.
Proof.
  unfold record_ids.
  assert (∀ acc, foldl (λ ids rec, ids ++ [d_GetString rec RelationKeyId]) acc l =
    acc ++ map (λ o, d_GetString o RelationKeyId) l) as H; [|apply H].
  induction l as [|x l IH]; intros acc; simpl; [by rewrite app_nil_r|]. by rewrite IH, <- app_assoc.
Qed.

Lemma existsb_filter_map {A B} (p : A → bool) (f : A → B) (q : B → bool) l :
  existsb q (map f (List.filter p l)) = existsb (λ x, p x && q (f x)) l.
Proof. induction l as [|x l IH]; simpl; [done|]. destruct (p x); simpl; by rewrite IH. Qed.

Lemma forallb_negb_existsb {A} (p : A → bool) l : forallb (λ x, negb (p x)) l = negb (existsb p l).
Proof. induction l as [|x l IH]; simpl; [done|]. by rewrite IH, negb_orb. Qed.

Section nested.
Context `{!GoArch, !DateIds, !GoUnicode, !SamberLo}.

(** A condition on a relation of related objects ("assignee.name") means
    what it says: when the nested condition compiles to [nested], the filter
    accepts an object iff its relation points (as a string or in a list of
    strings) to an object of the store that [nested] accepts; for the negated
    conditions, iff it points to no object accepted by the positive one. *)
Theorem nested_filter_sem (st : FilterStore) (objs : list Details) (now : Time)
    (r : FilterRequest) (rel sub : string) (nested : Filter) :
  answers st objs →
  split_dot (fr_RelationKey r) = Some (rel, sub) →
  let negative := bool_decide (fr_Condition r = Cond_NotEqual ∨ fr_Condition r = Cond_NotIn) in
  let positive := if bool_decide (fr_Condition r = Cond_NotEqual) then Cond_Equal
                  else if bool_decide (fr_Condition r = Cond_NotIn) then Cond_In else fr_Condition r in
  makeFilter (Some st) now (with_condition (with_key r sub) positive) = Ok (Some nested) →
  is_ok (makeFilter (Some st) now (with_key r sub)) = true →
  ∃ f, makeFilterByCondition st (makeFilter (Some st) now) r = Ok f ∧
    ∀ g, FilterObject f g =
      xorb negative
        (existsb (λ o, FilterObject nested o && points_to (d_Get g rel) (d_GetString o RelationKeyId)) objs).
Proof.
  intros Hst Hkey negative positive Hnested Hok. unfold makeFilterByCondition. rewrite Hkey.
  subst negative positive.
  destruct (decide (fr_Condition r = Cond_NotEqual ∨ fr_Condition r = Cond_NotIn)) as [Hc|Hc].
  - assert (negativeConditionToPositive (fr_Condition r) =
      Ok (if bool_decide (fr_Condition r = Cond_NotEqual) then Cond_Equal
          else if bool_decide (fr_Condition r = Cond_NotIn) then Cond_In else fr_Condition r)) as Hpos
      by (destruct Hc as [-> | ->]; done).
    rewrite (bool_decide_eq_true_2 _ Hc).
    replace (bool_decide (fr_Condition r = Cond_NotEqual) || bool_decide (fr_Condition r = Cond_NotIn))
      with true by (destruct Hc as [-> | ->]; done).
    unfold makeFilterNestedNotIn. rewrite Hpos. cbn [mbind res_bind]. rewrite Hnested.
    cbn [mbind res_bind]. rewrite Hst. cbn [mbind res_bind].
    destruct (makeFilter (Some st) now (with_key r sub)) as [nf|]; [|done].
    eexists. split; [reflexivity|]. intros g. cbn [FilterObject xorb]. unfold nestedNotIn_FilterObject.
    rewrite (forallb_negb_existsb (λ id, eq_filterObject (String id) Cond_Equal (d_Get g rel))).
    rewrite record_ids_map, existsb_filter_map. unfold xorb.
    destruct (existsb _ _) eqn:E; rewrite (existsb_ext_all _ (λ o, FilterObject nested o &&
      points_to (d_Get g rel) (d_GetString o RelationKeyId))) in E
      by (intros o; by rewrite eq_filterObject_string); by rewrite E.
  - apply Decidable.not_or in Hc as [Hc1 Hc2].
    rewrite (bool_decide_eq_false_2 _ Hc1), (bool_decide_eq_false_2 _ Hc2) in *. cbn [orb].
    rewrite (bool_decide_eq_false_2 (_ ∨ _)) by tauto.
    unfold makeFilterNestedIn.
    replace (with_condition (with_key r sub) (fr_Condition r)) with (with_key r sub) in Hnested by done.
    rewrite Hnested. cbn [mbind res_bind]. rewrite Hst. cbn [mbind res_bind].
    eexists. split; [reflexivity|]. intros g. cbn [FilterObject]. unfold nestedIn_FilterObject. rewrite xorb_false_l.
    rewrite record_ids_map, existsb_filter_map. apply existsb_ext_all.
    intros o. by rewrite eq_filterObject_string.
Qed.
End nested.

(** Instances of the parameters, for evaluating on examples: [lo]'s functions as
    loops, case folding of nothing, no date ids, an amd64 conversion. *)
Module FilterInst.
#[export] Instance lo : SamberLo := {|
  lo_Every T eqb collection subset := forallb (λ x, existsb (λ y, eqb y x) collection) subset;
  lo_Filter T l p := (fix go i l := match l with
                      | [] => []
                      | x :: l => if p x i then x :: go (i + 1)%Z l else go (i + 1)%Z l
                      end) 0%Z l;
|}.
#[export] Instance lo_ok : SamberLoOk.
Proof.
  split.
  - intros T eqb collection subset. cbn. rewrite forallb_forall. setoid_rewrite existsb_exists.
    setoid_rewrite list_elem_of_In. done.
  - intros T l p. cbn. generalize 0%Z. induction l as [|x l IH]; intros i; simpl; [done|].
    by destruct (p x); rewrite IH.
Qed.
#[export] Instance lower : GoUnicode := λ s, s.
#[export] Instance no_dates : DateIds := λ _, None.
#[export] Instance amd64 : GoArch := λ _, (- 2 ^ 63)%Z.

Definition mk_store (objs : list Details) (options : list RelationOption) : FilterStore := {|
  os_QueryRaw f := match f with
                   | Some f => Ok (List.filter (FilterObject f) objs)
                   | None => Err "filter cannot be nil or unitialized"
                   end;
  os_ListRelationOptions _ := Ok options;
|}.
End FilterInst.
Import FilterInst.

Lemma nested_filter_sem_witness :
  let people : list Details :=
    [Some {["id" := VString "p1"; "name" := VString "Ann"]};
     Some {["id" := VString "p2"; "name" := VString "Bob"]}] in
  let r := leaf_request "assignee.name" Cond_NotEqual (VString "Ann") in
  let nested := FilterEq "name" Cond_Equal (VString "Ann") in
  ∃ f, makeFilterByCondition (mk_store people []) (makeFilter (Some (mk_store people [])) (time_Unix 0 UTC)) r = Ok f ∧
    ∀ g, FilterObject f g =
      xorb true (existsb (λ o, FilterObject nested o &&
                   points_to (d_Get g "assignee") (d_GetString o RelationKeyId)) people).
Proof.
  intros people r nested.
  apply (nested_filter_sem (mk_store people []) people (time_Unix 0 UTC) r "assignee" "name" nested).
  - intros f. reflexivity.
  - reflexivity.
  - reflexivity.
  - reflexivity.
Defined.

(** ** Checkboxes *)

Lemma eq_scalar_true v :
  eq_scalar (VBool true) Cond_Equal v = GetBool v ∧ eq_scalar (VBool true) Cond_NotEqual v = negb (GetBool v).
Proof. destruct v as [| |b|s|f|l|l|m]; try done. by destruct b. Qed.

(** A checkbox that was never touched counts as unchecked: a condition
    [= b] or [<> b] on a plain relation compiles, and the filter accepts an object
    whose value is not a list iff the value, with anything but [true] read as
    [false], equals (differs from) [b]. *)
Theorem checkbox_filter_sem `{!GoUnicode, !SamberLo, !DateIds} (st : FilterStore) (r : FilterRequest) (b eq : bool) :
  fr_Condition r = (if eq then Cond_Equal else Cond_NotEqual) →
  fr_Value r = VBool b →
  ∃ f, makePlainFilter st r = Ok f ∧
    ∀ g, IsStringList (d_Get g (fr_RelationKey r)) = false →
         IsFloat64List (d_Get g (fr_RelationKey r)) = false →
         FilterObject f g = Bool.eqb eq (Bool.eqb b (GetBool (d_Get g (fr_RelationKey r)))).
Proof.
  destruct r as [i op key prop cond val q fmt it nested]. cbn. intros -> ->.
  assert (∀ c g, IsStringList (d_Get g key) = false → IsFloat64List (d_Get g key) = false →
    FilterObject (FilterEq key c (VBool true)) g = eq_scalar (VBool true) c (d_Get g key)) as Hf.
  { intros c g Hn1 Hn2. cbn. unfold eq_filterObject. cbn. by destruct (d_Get g key). }
  destruct eq, b; (eexists; split; [reflexivity|]); intros g Hn1 Hn2;
    (etransitivity; [apply Hf; done|]);
    destruct (eq_scalar_true (d_Get g key)) as [E1 E2]; cbn -[eq_scalar]; rewrite ?E1, ?E2;
    by destruct (GetBool _).
Qed.

Lemma checkbox_filter_sem_witness :
  ∃ f, makePlainFilter (mk_store [] []) (leaf_request "done" Cond_Equal (VBool false)) = Ok f ∧
    ∀ g, IsStringList (d_Get g "done") = false → IsFloat64List (d_Get g "done") = false →
         FilterObject f g = Bool.eqb true (Bool.eqb false (GetBool (d_Get g "done"))).
Proof.
  apply (checkbox_filter_sem (mk_store [] []) (leaf_request "done" Cond_Equal (VBool false)) false true);
    reflexivity.
Defined.

(** ** Conditions on lists of options *)

Lemma List_filter_stdpp {A} (P : A → Prop) `{∀ x, Decision (P x)} l :
  List.filter (λ x, bool_decide (P x)) l = filter P l.
Proof.
  induction l as [|x l IH]; simpl; [done|]. rewrite filter_cons, IH.
  by case_bool_decide; case_decide.
Qed.

Lemma NoDup_subset_same_length (k l : list string) :
  NoDup k → (∀ x, x ∈ k → x ∈ l) → length l = length k → l ≡ₚ k.
Proof.
  intros Hk Hsub Hlen. symmetry. apply submseteq_length_Permutation; [|lia].
  apply NoDup_submseteq; [done|]. intros x Hx. auto.
Qed.

(** On a relation that holds a list of strings the list conditions are the
    set relations they are named after: [In] is a non-empty intersection, [AllIn]
    inclusion, and [ExactIn] equality with the options of the object that still
    exist (deleted options are ignored). *)
Theorem option_conditions_sem `{!GoUnicode, !SamberLo, !SamberLoOk}
    (key : string) (wanted have : list string) (options : gset string) (g : Details) :
  d_Get g key = VStringList have → wanted ≠ [] →
  (FilterObject (FilterIn key (map String wanted)) g = true ↔ ∃ x, x ∈ wanted ∧ x ∈ have) ∧
  (FilterObject (FilterAllIn key wanted []) g = true ↔ ∀ x, x ∈ wanted → x ∈ have) ∧
  (NoDup wanted →
   FilterObject (FilterOptionsEqual key wanted options) g = true ↔ filter (λ x, x ∈ options) have ≡ₚ wanted).
Proof.
  intros Hg Hw. split_and!.
  - cbn [FilterObject]. unfold in_FilterObject. rewrite existsb_exists. rewrite Hg. split.
    + intros (v & (x & <- & Hx)%in_map_iff & Hv). rewrite eq_filterObject_string in Hv.
      apply bool_decide_eq_true in Hv. exists x. split; [by apply list_elem_of_In|done].
    + intros (x & Hx & Hh). exists (String x). split; [by apply in_map, list_elem_of_In|].
      rewrite eq_filterObject_string. by apply bool_decide_eq_true.
  - cbn [FilterObject]. unfold allIn_FilterObject, d_TryString, d_TryStringList. rewrite Hg. simpl.
    destruct wanted as [|w wanted]; [done|].
    replace (0 <? length (w :: wanted)) with true by done.
    rewrite lo_Every_spec. setoid_rewrite bool_decide_eq_true. split.
    + intros Hall x Hx. by destruct (Hall x Hx) as (y & Hy & ->).
    + intros Hall x Hx. exists x. auto.
  - intros Hnd. cbn [FilterObject]. unfold optionsEqual_FilterObject, d_TryString, d_TryStringList.
    rewrite Hg. cbn [TryString TryStringList].
    replace (length wanted =? 0) with false by (by destruct wanted).
    rewrite (lo_Filter_spec have (λ v, bool_decide (v ∈ options))), List_filter_stdpp.
    destruct (Nat.eqb_spec (length (filter (λ x, x ∈ options) have)) (length wanted)) as [E|E]; simpl.
    + rewrite lo_Every_spec. setoid_rewrite bool_decide_eq_true. split.
      * intros Hall. apply NoDup_subset_same_length; [done| |done].
        intros x Hx. by destruct (Hall x Hx) as (y & Hy & ->).
      * intros Hp x Hx. exists x. split; [by rewrite Hp|done].
    + split; [done|]. intros Hp. by rewrite Hp in E.
Qed.

Lemma option_conditions_sem_witness :
  let g : Details := Some {["tag" := VStringList ["b"; "gone"; "a"]]} in
  (FilterObject (FilterIn "tag" (map String ["a"; "b"])) g = true ↔
     ∃ x, x ∈ ["a"; "b"] ∧ x ∈ ["b"; "gone"; "a"]) ∧
  (FilterObject (FilterAllIn "tag" ["a"; "b"] []) g = true ↔
     ∀ x, x ∈ ["a"; "b"] → x ∈ ["b"; "gone"; "a"]) ∧
  (NoDup ["a"; "b"] →
   FilterObject (FilterOptionsEqual "tag" ["a"; "b"] {["a"; "b"; "c"]}) g = true ↔
     filter (λ x, x ∈ ({["a"; "b"; "c"]} : gset string)) ["b"; "gone"; "a"] ≡ₚ ["a"; "b"]).
Proof.
  intros g. apply (option_conditions_sem "tag" ["a"; "b"] ["b"; "gone"; "a"] {["a"; "b"; "c"]} g);
    [reflexivity|discriminate].
Defined.

(** ** Default filters *)

Definition explicit (key : string) (fs : list FilterRequest) : bool :=
  existsb (λ r, bool_decide (fr_RelationKey r = key)) fs.

Definition flat (fs : list FilterRequest) : Prop := Forall (λ r, fr_NestedFilters r = []) fs.

Lemma scan_default_flat first fs a d t :
  flat fs →
  scan_default first (a, d, t) fs =
    (a || explicit RelationKeyIsArchived fs, d || explicit RelationKeyIsDeleted fs,
     t || explicit RelationKeyResolvedLayout fs).
Proof.
  revert a d t. induction fs as [|r fs IH]; intros a d t Hf; simpl.
  - by rewrite !orb_false_r.
  - apply Forall_cons in Hf as [Hr Hf]. rewrite Hr. cbn [length Nat.ltb]. rewrite IH by done.
    by rewrite !orb_assoc.
Qed.

Lemma hasDefaultFilters_flat fs :
  flat fs →
  hasDefaultFilters fs = (explicit RelationKeyIsArchived fs, explicit RelationKeyIsDeleted fs,
                          explicit RelationKeyResolvedLayout fs).
Proof. intros Hf. destruct fs as [|r fs]; [done|]. unfold hasDefaultFilters. by rewrite scan_default_flat. Qed.

Lemma injectDefaultFilters_flat fs :
  flat fs →
  injectDefaultFilters fs =
    addDefaultFilters fs (explicit RelationKeyIsArchived fs) (explicit RelationKeyIsDeleted fs)
      (explicit RelationKeyResolvedLayout fs).
Proof.
  intros Hf. unfold injectDefaultFilters. rewrite hasDefaultFilters_flat by done.
  destruct fs as [|r fs]; [done|]. apply Forall_cons in Hf as [Hr _]. by rewrite Hr.
Qed.

Section defaults.
Context {arch : GoArch} {dates : DateIds} {unicode : GoUnicode} {lo : SamberLo}.
Context (st : FilterStore) (now : Time).

Lemma MakeFilters_group fs :
  flat fs →
  MakeFilters (Some st) now fs =
    (λ l, Some (FiltersAnd (omap id l))) <$> res_traverse (MakeFilter (Some st) now) fs.
Proof.
  intros Hf.
  assert (MakeFilters (Some st) now fs = MakeFilter (Some st) now (group_request Op_And fs)) as ->.
  { destruct fs as [|r [|]]; try done. apply Forall_cons in Hf as [Hr _]. cbn. by rewrite Hr. }
  cbn. by destruct (res_traverse _ _).
Qed.

Lemma res_traverse_app {A B} (f : A → res B) l k :
  res_traverse f (l ++ k) = x ← res_traverse f l; y ← res_traverse f k; mret (x ++ y).
Proof.
  induction l as [|a l IH]; simpl; [by destruct (res_traverse f k)|].
  destruct (f a); simpl; [|done]. rewrite IH. destruct (res_traverse f l); simpl; [|done].
  by destruct (res_traverse f k).
Qed.

Lemma forallb_app_bool {A} (p : A → bool) l k : forallb p (l ++ k) = forallb p l && forallb p k.
Proof. apply forallb_app. Qed.

(** Appending one compiled condition to a flat request. *)
Lemma MakeFilters_snoc fs r f fr :
  flat fs → fr_NestedFilters r = [] →
  MakeFilters (Some st) now fs = Ok (Some f) → MakeFilter (Some st) now r = Ok (Some fr) →
  ∃ f', MakeFilters (Some st) now (fs ++ [r]) = Ok (Some f') ∧
    ∀ g, FilterObject f' g = FilterObject f g && FilterObject fr g.
Proof.
  intros Hf Hr H1 H2. rewrite MakeFilters_group in H1 by done.
  rewrite MakeFilters_group by (apply Forall_app; split; [done|by repeat constructor]).
  rewrite res_traverse_app. destruct (res_traverse _ fs) as [l|]; simplify_eq/=.
  rewrite H2. cbn. eexists. split; [reflexivity|]. intros g. cbn [FilterObject]. unfold and_FilterObject.
  rewrite omap_app, forallb_app_bool. cbn. by rewrite andb_true_r.
Qed.

Lemma makeFilter_flag key :
  split_dot key = None →
  MakeFilter (Some st) now (leaf_request key Cond_NotEqual (Bool true)) =
    Ok (Some (FilterEq key Cond_NotEqual (Bool true))).
Proof.
  intros Hk. set (r := leaf_request key Cond_NotEqual (Bool true)).
  change (MakeFilter (Some st) now r) with (makeFilter (Some st) now r).
  rewrite makeFilter_unfold. change (transformDateFilter r now) with [r].
  rewrite bool_decide_eq_false_2 by done. unfold makeFilterByCondition.
  change (fr_RelationKey r) with key. rewrite Hk. reflexivity.
Qed.

(** One step of [addDefaultFilters]. *)
Lemma MakeFilters_default fs f (c : bool) r fr :
  flat fs → MakeFilters (Some st) now fs = Ok (Some f) →
  fr_NestedFilters r = [] → MakeFilter (Some st) now r = Ok (Some fr) →
  ∃ f', flat (if negb c then fs ++ [r] else fs) ∧
    MakeFilters (Some st) now (if negb c then fs ++ [r] else fs) = Ok (Some f') ∧
    ∀ g, FilterObject f' g = FilterObject f g && (c || FilterObject fr g).
Proof.
  intros Hfl Hm Hr Hmr. destruct c; simpl.
  - exists f. split_and!; [done..|]. intros g. by rewrite andb_true_r.
  - destruct (MakeFilters_snoc fs r f fr) as (f2 & ? & ?); [done..|]. exists f2.
    split_and!; [apply Forall_app; split; [done|by repeat constructor]|done..].
Qed.

(** The default conditions of a search without nested groups: the injected
    request compiles when the client's does, and accepts what the client's
    accepts less the archived objects, the deleted objects and the objects whose
    type is the number of the space layout, each unless the client has a
    condition on archived, deleted and layout of its own. *)
Theorem injectDefaultFilters_sem (fs : list FilterRequest) (f : Filter) :
  flat fs →
  MakeFilters (Some st) now fs = Ok (Some f) →
  ∃ f', MakeFilters (Some st) now (injectDefaultFilters fs) = Ok (Some f') ∧
    ∀ g, FilterObject f' g =
      FilterObject f g
      && (explicit RelationKeyIsArchived fs || eq_filterObject (Bool true) Cond_NotEqual (d_Get g RelationKeyIsArchived))
      && (explicit RelationKeyIsDeleted fs || eq_filterObject (Bool true) Cond_NotEqual (d_Get g RelationKeyIsDeleted))
      && (explicit RelationKeyResolvedLayout fs
          || negb (eq_filterObject (Int64 ObjectType_space) Cond_Equal (d_Get g RelationKeyType))).
Proof.
  intros Hf H0. rewrite injectDefaultFilters_flat by done. unfold addDefaultFilters.
  destruct (MakeFilters_default fs f (explicit RelationKeyIsArchived fs)
    (leaf_request RelationKeyIsArchived Cond_NotEqual (Bool true)) _ Hf H0 eq_refl
    (makeFilter_flag RelationKeyIsArchived eq_refl)) as (f1 & Hf1 & H1 & E1).
  destruct (MakeFilters_default _ f1 (explicit RelationKeyIsDeleted fs)
    (leaf_request RelationKeyIsDeleted Cond_NotEqual (Bool true)) _ Hf1 H1 eq_refl
    (makeFilter_flag RelationKeyIsDeleted eq_refl)) as (f2 & Hf2 & H2 & E2).
  destruct (MakeFilters_default _ f2 (explicit RelationKeyResolvedLayout fs)
    (leaf_request RelationKeyType Cond_NotIn (Int64 ObjectType_space)) _ Hf2 H2 eq_refl eq_refl)
    as (f3 & _ & H3 & E3).
  exists f3. split; [exact H3|]. intros g. rewrite E3, E2, E1. do 2 f_equal.
  cbn. by rewrite orb_false_r.
Qed.
End defaults.

Lemma injectDefaultFilters_sem_witness :
  let fs := [leaf_request "name" Cond_Equal (VString "x")] in
  ∃ f', MakeFilters (Some (mk_store [] [])) (time_Unix 0 UTC) (injectDefaultFilters fs) = Ok (Some f') ∧
    ∀ g, FilterObject f' g =
      FilterObject (FiltersAnd [FilterEq "name" Cond_Equal (VString "x")]) g
      && (explicit RelationKeyIsArchived fs || eq_filterObject (Bool true) Cond_NotEqual (d_Get g RelationKeyIsArchived))
      && (explicit RelationKeyIsDeleted fs || eq_filterObject (Bool true) Cond_NotEqual (d_Get g RelationKeyIsDeleted))
      && (explicit RelationKeyResolvedLayout fs
          || negb (eq_filterObject (Int64 ObjectType_space) Cond_Equal (d_Get g RelationKeyType))).
Proof.
  intros fs.
  apply (injectDefaultFilters_sem (mk_store [] []) (time_Unix 0 UTC) fs
           (FiltersAnd [FilterEq "name" Cond_Equal (VString "x")])).
  - repeat constructor.
  - reflexivity.
Defined.

(** An explicit condition on archived objects is overlooked when a group
    follows it: asking for the archived objects together with an "or" group still
    gets the default "not archived" condition, and the compiled filter accepts no
    object whose flag is a checkbox, while the client's own request does. *)
Theorem explicit_archived_overlooked `{!GoArch, !DateIds, !GoUnicode, !SamberLo} (st : FilterStore) (now : Time) :
  let fs := [leaf_request RelationKeyIsArchived Cond_Equal (Bool true);
             group_request Op_Or [leaf_request "name" Cond_Equal (String "x");
                                  leaf_request "name" Cond_Equal (String "y")]] in
  ∃ f f', MakeFilters (Some st) now fs = Ok (Some f) ∧
    MakeFilters (Some st) now (injectDefaultFilters fs) = Ok (Some f') ∧
    FilterObject f (Some {[RelationKeyIsArchived := VBool true; "name" := VString "x"]}) = true ∧
    ∀ g b, d_Get g RelationKeyIsArchived = VBool b → FilterObject f' g = false.
Proof.
  intros fs.
  set (group := FiltersOr [FilterEq "name" Cond_Equal (String "x"); FilterEq "name" Cond_Equal (String "y")]).
  exists (FiltersAnd [FilterEq RelationKeyIsArchived Cond_Equal (Bool true); group]).
  exists (FiltersAnd [FilterEq RelationKeyIsArchived Cond_Equal (Bool true); group;
                      FilterEq RelationKeyIsArchived Cond_NotEqual (Bool true);
                      FilterEq RelationKeyIsDeleted Cond_NotEqual (Bool true);
                      negated (FilterIn RelationKeyType [Int64 ObjectType_space])]).
  split_and!; [reflexivity|reflexivity|reflexivity|].
  intros g b Hg. cbn [FilterObject and_FilterObject forallb]. rewrite Hg.
  destruct b; cbn -[group FilterObject]; [by rewrite !andb_false_r|done].
Qed.

(** A relative date on a related object is resolved twice: for the condition
    "due more than three days ago" the plain relation compares with the start of
    that day, but through a relation ("task.due") the resolved timestamp is taken
    again for a number of days, and the comparison is with a time more than four
    million years ago. *)
Theorem nested_relative_date_resolved_twice `{!GoArch, !DateIds} (st : FilterStore) :
  (∀ f, os_QueryRaw st (Some f) = Ok []) →
  let now := time_Unix 1718452800 UTC in
  let due key := {| fr_Id := ""; fr_Operator := Op_No; fr_RelationKey := key; fr_RelationProperty := "";
                    fr_Condition := Cond_Less; fr_Value := Int64 3; fr_QuickOption := NumberOfDaysAgo;
                    fr_Format := RF_date; fr_IncludeTime := false; fr_NestedFilters := [] |} in
  makeFilter (Some st) now (due "due") = Ok (Some (FilterEq "due" Cond_Less (Int64 1718150400))) ∧
  makeFilter (Some st) now (due "task.due") =
    Ok (Some (FilterNestedIn "task" (Some (FilterEq "due" Cond_Less (Int64 (-148446476150400)))) [])).
Proof.
  intros Hst now due. split; [vm_compute; reflexivity|].
  set (r := with_value (due "task.due") (Int64 1718150400)).
  rewrite makeFilter_unfold. rewrite bool_decide_eq_false_2 by done.
  assert (transformDateFilter (due "task.due") now = [r]) as -> by (vm_compute; reflexivity).
  unfold makeFilterByCondition. change (split_dot (fr_RelationKey r)) with (Some ("task", "due")).
  cbv iota. change (bool_decide _ || bool_decide _) with false. cbv iota. unfold makeFilterNestedIn.
  assert (makeFilter (Some st) now (with_key r "due") =
    Ok (Some (FilterEq "due" Cond_Less (Int64 (-148446476150400))))) as -> by (vm_compute; reflexivity).
  cbn [mbind res_bind]. rewrite Hst. reflexivity.
Qed.

Lemma nested_relative_date_resolved_twice_witness :
  makeFilter (Some (mk_store [] [])) (time_Unix 1718452800 UTC)
    {| fr_Id := ""; fr_Operator := Op_No; fr_RelationKey := "task.due"; fr_RelationProperty := "";
       fr_Condition := Cond_Less; fr_Value := Int64 3; fr_QuickOption := NumberOfDaysAgo;
       fr_Format := RF_date; fr_IncludeTime := false; fr_NestedFilters := [] |} =
  Ok (Some (FilterNestedIn "task" (Some (FilterEq "due" Cond_Less (Int64 (-148446476150400)))) [])).
Proof.
  apply (nested_relative_date_resolved_twice (mk_store [] [])). intros f. reflexivity.
Defined.
