(* ===== verification/Order.v ===== *)
(** * Sort orders ([pkg/lib/database/order.go], [ordermap.go], [database.go])

    An order compares the details of two objects.  The order of a relation that
    points to other objects goes through an [OrderMap], a cache of the names and
    order ids of the targets, which [Compare] fills on demand: comparison is
    therefore state passing over the orders.  The collator and the object store are
    parameters.  A byte buffer is a string of bytes. *)

From S2P Require Import Prelude Slice GoFloat Values PbTypes Details Calendar Filter.

Inductive SortType := Sort_Asc | Sort_Desc | Sort_Custom.
Inductive EmptyType := Empty_NotSpecified | Empty_Start | Empty_End.

#[export] Instance SortType_eq_dec : EqDecision SortType.
Proof. solve_decision. Defined.
#[export] Instance EmptyType_eq_dec : EqDecision EmptyType.
Proof. solve_decision. Defined.

Definition RelationKeyName : string := "name".
Definition RelationKeySnippet : string := "snippet".
Definition RelationKeyOrderId : string := "orderId".
Definition RelationKeySpaceOrder : string := "spaceOrder".
Definition RecordScoreField : string := "_score".
Definition ObjectType_note : Z := 9.

Record SortRequest := {
  sr_RelationKey : string;
  sr_Type : SortType;
  sr_CustomOrder : list Value;
  sr_Format : RelationFormat;
  sr_IncludeTime : bool;
  sr_Id : string;
  sr_EmptyPlacement : EmptyType;
  sr_NoCollate : bool;
}.

(** ** Libraries and the store *)

(** [golang.org/x/text/collate]: comparison, and the key whose bytes compare the
    same way. *)
Class Collator := {
  CompareString : string → string → Z;
  KeyFromString : string → string;
}.
Class CollatorOk `{!Collator} := {
  collate_preorder : cmp_on (λ _, True) CompareString;
}.

(** [QueryIterate] visits objects and may end with an error. *)
Class OrderStore := {
  st_Query : list FilterRequest → res (list Details);
  st_QueryIterate : list FilterRequest → list Details * bool;
  st_ListRelationOptions : string → res (list RelationOption);
  st_GetRelationFormatByKey : string → res RelationFormat;
}.
(** [Query] for ids answers with the objects of the store that have them. *)
Class OrderStoreOk `{!OrderStore} := {
  st_objects : gmap string Details;
  st_objects_id id d : st_objects !! id = Some d → d_GetString d RelationKeyId = id;
  st_Query_ids ids : ∃ records, st_Query [leaf_request RelationKeyId Cond_In (StringList ids)] = Ok records ∧
    ∀ d, d ∈ records ↔ ∃ id, id ∈ ids ∧ st_objects !! id = Some d;
}.

(** ** The order map *)

(** The store and the collator of the struct are the parameters; [idsBuffer] is
    scratch space. *)
Record OrderMap := { om_sortKeys : list string; om_data : gmap string Details }.

Definition with_data (m : OrderMap) (d : gmap string Details) : OrderMap :=
  {| om_sortKeys := om_sortKeys m; om_data := d |}.

Section ordermap.
Context `{!GoArch, !Collator, !OrderStore}.

Definition collate (str : string) : string := KeyFromString str.

(** The layout is converted from int64 to the 32-bit enumeration. *)
Definition is_note (details : Details) : bool :=
  bool_decide (i32 (d_GetInt64 details RelationKeyResolvedLayout) = ObjectType_note).

Definition getName (details : Details) : string :=
  let name := d_GetString details RelationKeyName in
  let name := if bool_decide (name = "") && is_note details
              then d_GetString details RelationKeySnippet else name in
  collate name.

Definition setOrders (m : OrderMap) (ids : list string) : OrderMap :=
  let idsBuffer :=
    foldl (λ buf id, if negb (bool_decide (is_Some (om_data m !! id))) && negb (bool_decide (id = ""))
                     then buf ++ [id] else buf) [] ids in
  if length idsBuffer =? 0 then m
  else
    match st_Query [leaf_request RelationKeyId Cond_In (StringList idsBuffer)] with
    | Err _ => m
    | Ok records =>
        with_data m
          (foldl (λ data record,
                    <[d_GetString record RelationKeyId :=
                      NewDetailsFromMap (<[RelationKeyName := String (getName record)]>
                                         {[RelationKeyOrderId := d_Get record RelationKeyOrderId]})]> data)
                 (om_data m) records)
    end.

(** The loops of [BuildOrder] after [setOrders]. *)
Definition build_key (m : OrderMap) (ids : list string) : string :=
  foldl (λ buf key,
           foldl (λ buf id, match om_data m !! id with
                            | Some details => (buf +:+ d_GetString details key)%string
                            | None => buf
                            end) buf ids) "" (om_sortKeys m).

Definition BuildOrder (m : option OrderMap) (ids : list string) : option OrderMap * string :=
  match m with
  | None => (None, "")
  | Some m =>
      if size (om_data m) =? 0 then (Some m, "")
      else let m := setOrders m ids in (Some m, build_key m ids)
  end.

(** One iteration of [Update]; the details in the map are updated in place. *)
Definition update_one (data : gmap string Details) (det : Details) : gmap string Details * bool :=
  let id := d_GetString det RelationKeyId in
  match data !! id with
  | None => (data, false)
  | Some existing =>
      let orderId := d_GetString det RelationKeyOrderId in
      let '(existing, updated) :=
        if negb (bool_decide (d_GetString existing RelationKeyOrderId = orderId))
        then ((<[RelationKeyOrderId := String orderId]>) <$> existing, true) else (existing, false) in
      let name := getName det in
      let '(existing, updated) :=
        if negb (bool_decide (d_GetString existing RelationKeyName = name))
        then ((<[RelationKeyName := String name]>) <$> existing, true) else (existing, updated) in
      (<[id := existing]> data, updated)
  end.

Definition Update (m : option OrderMap) (details : list Details) : option OrderMap * bool :=
  match m with
  | None => (None, false)
  | Some m =>
      if size (om_data m) =? 0 then (Some m, false)
      else
        let '(data, anyUpdated) :=
          foldl (λ '(data, any) det, let '(data, u) := update_one data det in
                                     (data, if u : bool then true else any))
                (om_data m, false) details in
        (Some (with_data m data), anyUpdated)
  end.

Definition collectObjectNames (m : OrderMap) (key : string) : OrderMap :=
  let '(visited, err) := st_QueryIterate [leaf_request key Cond_NotEmpty Invalid] in
  let targetIdsMap : gset string :=
    foldl (λ s details, foldl (λ s id, {[id]} ∪ s) s (d_GetStringList details key)) ∅ visited in
  if (err : bool) then m
  else
    let targetIds := elements targetIdsMap in
    let '(visited, _) := st_QueryIterate [leaf_request RelationKeyId Cond_In (StringList targetIds)] in
    with_data m
      (foldl (λ data details,
                <[d_GetString details RelationKeyId :=
                  NewDetailsFromMap {[RelationKeyName := String (getName details)]}]> data)
             (om_data m) visited).

Definition collectOptionOrders (m : OrderMap) (key : string) : OrderMap :=
  match st_ListRelationOptions key with
  | Err _ => m
  | Ok options =>
      with_data m
        (foldl (λ data opt,
                  <[opt_Id opt :=
                    NewDetailsFromMap (<[RelationKeyName := String (collate (opt_Text opt))]>
                                       {[RelationKeyOrderId := String (opt_OrderId opt)]})]> data)
               (om_data m) options)
  end.

Definition BuildOrderMap (key : string) (format : RelationFormat) : OrderMap :=
  let om := {| om_sortKeys := []; om_data := ∅ |} in
  match format with
  | RF_object | RF_file =>
      {| om_sortKeys := [RelationKeyName]; om_data := om_data (collectObjectNames om key) |}
  | RF_tag | RF_status =>
      {| om_sortKeys := [RelationKeyOrderId; RelationKeyName]; om_data := om_data (collectOptionOrders om key) |}
  | _ => om
  end.
End ordermap.

(** ** The order of one relation *)

Record keyOrder := {
  ko_key : string;
  ko_sortType : SortType;
  ko_emptyPlacement : EmptyType;
  ko_relationFormat : RelationFormat;
  ko_includeTime : bool;
  ko_orderMap : option OrderMap;
  ko_disableCollator : bool;
}.

Definition with_orderMap (ko : keyOrder) (m : option OrderMap) : keyOrder :=
  {| ko_key := ko_key ko; ko_sortType := ko_sortType ko; ko_emptyPlacement := ko_emptyPlacement ko;
     ko_relationFormat := ko_relationFormat ko; ko_includeTime := ko_includeTime ko; ko_orderMap := m;
     ko_disableCollator := ko_disableCollator ko |}.

Definition with_includeTime (ko : keyOrder) (b : bool) : keyOrder :=
  {| ko_key := ko_key ko; ko_sortType := ko_sortType ko; ko_emptyPlacement := ko_emptyPlacement ko;
     ko_relationFormat := ko_relationFormat ko; ko_includeTime := b; ko_orderMap := ko_orderMap ko;
     ko_disableCollator := ko_disableCollator ko |}.

Definition isObjectFormat (format : RelationFormat) : bool :=
  match format with RF_object | RF_file | RF_tag | RF_status => true | _ => false end.

Section keyorder.
Context `{!GoArch, !Collator, !OrderStore} (local : Location).

Definition NewKeyOrder (sort : SortRequest) : keyOrder :=
  let format := match st_GetRelationFormatByKey (sr_RelationKey sort) with
                | Ok f => f | Err _ => sr_Format sort end in
  let orderMap := if isObjectFormat format then Some (BuildOrderMap (sr_RelationKey sort) format) else None in
  {| ko_key := sr_RelationKey sort; ko_sortType := sr_Type sort;
     ko_emptyPlacement := sr_EmptyPlacement sort; ko_relationFormat := format;
     ko_includeTime := false; ko_orderMap := orderMap;
     ko_disableCollator := sr_NoCollate sort || bool_decide (sr_RelationKey sort = RelationKeyOrderId)
                           || bool_decide (sr_RelationKey sort = RelationKeySpaceOrder) |}.

(** [None] is the result [(_, false)]. *)
Definition tryCompareEmptyValues (ko : keyOrder) (aIsEmpty bIsEmpty : bool) : option Z :=
  if aIsEmpty && bIsEmpty then Some 0%Z
  else
    match ko_emptyPlacement ko with
    | Empty_NotSpecified => None
    | placement =>
        if aIsEmpty then Some (if bool_decide (placement = Empty_Start) then -1 else 1)%Z
        else if bIsEmpty then Some (if bool_decide (placement = Empty_Start) then 1 else -1)%Z
        else None
    end.

Definition directed (ko : keyOrder) (comp : Z) : Z :=
  if bool_decide (ko_sortType ko = Sort_Desc) then (- comp)%Z else comp.

Definition string_empty (v : Value) : bool :=
  match TryString v with Some s => bool_decide (s = "") | None => true end.

Definition compareStrings (ko : keyOrder) (av bv : Value) : Z :=
  match tryCompareEmptyValues ko (string_empty av) (string_empty bv) with
  | Some comp => comp
  | None =>
      directed ko (if ko_disableCollator ko then Compare av bv
                   else CompareString (GetString av) (GetString bv))
  end.

Definition compareBool (ko : keyOrder) (av bv : Value) : Z :=
  let av := if negb (Value_Ok av) then Bool false else av in
  let bv := if negb (Value_Ok bv) then Bool false else bv in
  directed ko (Compare av bv).

Definition compareNumbers (ko : keyOrder) (av bv : Value) : Z :=
  match tryCompareEmptyValues ko (negb (IsFloat64 av)) (negb (IsFloat64 bv)) with
  | Some comp => comp
  | None => directed ko (Compare av bv)
  end.

Definition cut_value (v : Value) : Value :=
  match TryInt64 v with
  | Some s => Int64 (t_Unix (CutToDay (time_Unix s local)))
  | None => v
  end.

Definition compareDates (ko : keyOrder) (av bv : Value) : Z :=
  if negb (ko_includeTime ko) then compareNumbers ko (cut_value av) (cut_value bv)
  else compareNumbers ko av bv.

Definition list_empty (v : Value) : bool :=
  match TryWrapToStringList v with Some l => length l =? 0 | None => true end.

Definition compareObjectValues (ko : keyOrder) (av bv : Value) : keyOrder * Z :=
  let aList := WrapToStringList av in
  let bList := WrapToStringList bv in
  match tryCompareEmptyValues ko (list_empty av) (list_empty bv) with
  | Some comp => (ko, comp)
  | None =>
      let '(om, keyA) := BuildOrder (ko_orderMap ko) aList in
      let '(om, keyB) := BuildOrder om bList in
      let comp := strings_Compare keyA keyB in
      let comp := if (comp =? 0)%Z then
                    if (length aList <? length bList)%nat then -1
                    else if (length bList <? length aList)%nat then 1 else comp
                  else comp in
      (with_orderMap ko om, directed ko comp)
  end%Z.

Definition trySubstituteSnippet (ko : keyOrder) (details : Details) (value : Value) : Value :=
  if bool_decide (ko_key ko = RelationKeyName) && is_note details then
    match d_TryString details RelationKeyName with
    | Some _ => value
    | None => d_Get details RelationKeySnippet
    end
  else value.

Definition ko_Compare (ko : keyOrder) (a b : Details) : keyOrder * Z :=
  let av := d_Get a (ko_key ko) in
  let bv := d_Get b (ko_key ko) in
  match ko_relationFormat ko with
  | RF_checkbox => (ko, compareBool ko av bv)
  | RF_date => (ko, compareDates ko av bv)
  | RF_number => (ko, compareNumbers ko av bv)
  | RF_shorttext | RF_longtext =>
      (ko, compareStrings ko (trySubstituteSnippet ko a av) (trySubstituteSnippet ko b bv))
  | RF_object | RF_file | RF_tag | RF_status => compareObjectValues ko av bv
  | _ => (ko, compareStrings ko av bv)
  end.

Definition ko_UpdateOrderMap (ko : keyOrder) (depDetails : list Details) : keyOrder * bool :=
  let '(m, updated) := Update (ko_orderMap ko) depDetails in (with_orderMap ko m, updated).
End keyorder.

(** ** Orders *)

(** [Order] values are key orders, custom orders or lists of orders; [setOrder]s
    hold the first two. *)
Inductive Order :=
| OKey (ko : keyOrder)
| OCustom (key : string) (needOrderMap : gmap string Z) (keyOrd : keyOrder).

Section orders.
Context {V : Type} `{!AnyEnc V, !GoArch, !Collator, !OrderStore} (MarshalTo : V → string) (local : Location).

Definition getStringVal (val : Value) : string := MarshalTo (ToAnyEnc val).

Definition o_Compare (o : Order) (a b : Details) : Order * Z :=
  match o with
  | OKey ko => let '(ko, c) := ko_Compare local ko a b in (OKey ko, c)
  | OCustom key need ko =>
      match need !! getStringVal (d_Get a key), need !! getStringVal (d_Get b key) with
      | Some aID, Some bID =>
          (o, if (aID =? bID)%Z then 0 else if (aID <? bID)%Z then -1 else 1)%Z
      | Some _, None => (o, -1)%Z
      | None, Some _ => (o, 1)%Z
      | None, None => let '(ko, c) := ko_Compare local ko a b in (OCustom key need ko, c)
      end
  end.

(** Stops at the first order that is not a tie. *)
Fixpoint so_Compare (so : list Order) (a b : Details) : list Order * Z :=
  match so with
  | [] => ([], 0%Z)
  | o :: so =>
      let '(o, comp) := o_Compare o a b in
      if negb (comp =? 0)%Z then (o :: so, comp)
      else let '(so, comp) := so_Compare so a b in (o :: so, comp)
  end.

Definition o_UpdateOrderMap (o : Order) (depDetails : list Details) : Order * bool :=
  match o with
  | OKey ko => let '(ko, u) := ko_UpdateOrderMap ko depDetails in (OKey ko, u)
  | OCustom key need ko => let '(ko, u) := ko_UpdateOrderMap ko depDetails in (OCustom key need ko, u)
  end.

Fixpoint so_UpdateOrderMap (so : list Order) (depDetails : list Details) : list Order * bool :=
  match so with
  | [] => ([], false)
  | o :: so =>
      let '(o, u) := o_UpdateOrderMap o depDetails in
      let '(so, u') := so_UpdateOrderMap so depDetails in (o :: so, u || u')
  end.

Definition isSingleDateSort (sorts : list SortRequest) : bool :=
  match sorts with [s] => bool_decide (sr_Format s = RF_date) | _ => false end.

Definition isIncludeTime (sorts : list SortRequest) (s : SortRequest) : bool :=
  if isSingleDateSort sorts then true else sr_IncludeTime s.

Definition appendCustomOrder (sort : SortRequest) (orders : list Order) (order : keyOrder) : list Order :=
  if bool_decide (sr_Type sort = Sort_Custom) && (0 <? length (sr_CustomOrder sort)) then
    let '(idsIndices, _) :=
      foldl (λ '(m, idx) it,
               let raw := MarshalTo (ToAnyEnc it) in
               if negb (bool_decide (raw = "")) then (<[raw := idx]> m, (idx + 1)%Z) else (m, idx))
            (∅ : gmap string Z, 0%Z) (sr_CustomOrder sort) in
    orders ++ [OCustom (sr_RelationKey sort) idsIndices order]
  else orders ++ [OKey order].

Definition extractOrder (sorts : list SortRequest) : list Order :=
  foldl (λ order sort,
           let ko := with_includeTime (NewKeyOrder sort) (isIncludeTime sorts sort) in
           appendCustomOrder sort order ko) [] sorts.

Definition injectDefaultOrder (textQuery : string) (sorts : list SortRequest) : list SortRequest :=
  if bool_decide (textQuery = "") then sorts
  else
    let hasScoreSort := existsb (λ s, bool_decide (sr_RelationKey s = RecordScoreField)) sorts in
    if negb hasScoreSort then
      {| sr_RelationKey := RecordScoreField; sr_Type := Sort_Desc; sr_CustomOrder := [];
         sr_Format := RF_longtext; sr_IncludeTime := false; sr_Id := "";
         sr_EmptyPlacement := Empty_NotSpecified; sr_NoCollate := false |} :: sorts
    else sorts.
End orders.

(** ** Comparisons that put empty values first, last or nowhere *)

Section empties.
Context {A : Type} (ko : keyOrder) (empty : A → bool) (c : A → A → Z) (P : A → Prop).

(** The shape of [compareStrings], [compareNumbers] and [compareObjectValues]. *)
Definition empty_cmp (x y : A) : Z :=
  match tryCompareEmptyValues ko (empty x) (empty y) with
  | Some comp => comp
  | None => directed ko (c x y)
  end.

Lemma directed_cmp_on : cmp_on P c → cmp_on P (λ x y, directed ko (c x y)).
Proof. intros Hc. unfold directed. case_bool_decide; [by apply cmp_on_opp|done]. Qed.

Definition rank (x : A) : Z := if empty x then 0 else 1.

Lemma ranked_cmp_on (neg : bool) :
  cmp_on (λ x, P x ∧ empty x = false) c →
  cmp_on P (λ x y, chain (if neg then - Zcmp (rank x) (rank y) else Zcmp (rank x) (rank y))%Z
                         (if empty x then 0 else directed ko (c x y))%Z).
Proof.
  intros Hc.
  assert (cmp_on (λ x, P x ∧ empty x = false) (λ x y, directed ko (c x y))) as [Ha Ht].
  { unfold directed. case_bool_decide; [by apply cmp_on_opp|done]. }
  assert (∀ x y, (if neg then - Zcmp (rank x) (rank y) else Zcmp (rank x) (rank y))%Z = 0%Z →
    empty x = empty y) as Hr.
  { intros x y E. assert (Zcmp (rank x) (rank y) = 0%Z) as E' by (destruct neg; lia).
    apply Zcmp_zero in E'. unfold rank in E'. by destruct (empty x), (empty y). }
  apply cmp_on_chain.
  - destruct neg; [apply cmp_on_opp|]; apply cmp_on_Z.
  - intros x y Hx Hy E%Hr. rewrite E. destruct (empty y) eqn:Ey; [done|]. apply Ha; split; done.
  - intros x y z Hx Hy Hz E1%Hr E2%Hr. rewrite E1, E2 in *.
    destruct (empty z) eqn:Ez; [apply trans3_zero|]. apply Ht; split; congruence.
Qed.

(** With a placement the values need only be comparable when not empty. *)
Lemma empty_cmp_placed :
  ko_emptyPlacement ko ≠ Empty_NotSpecified →
  cmp_on (λ x, P x ∧ empty x = false) c → cmp_on P empty_cmp.
Proof.
  intros Hp Hc.
  apply (cmp_on_ext _ (λ x y,
    chain (if bool_decide (ko_emptyPlacement ko = Empty_End) then - Zcmp (rank x) (rank y)
           else Zcmp (rank x) (rank y))%Z
          (if empty x then 0 else directed ko (c x y))%Z)); [|by apply ranked_cmp_on].
  intros x y _ _. unfold empty_cmp, tryCompareEmptyValues, rank.
  destruct (ko_emptyPlacement ko); [done|..]; destruct (empty x), (empty y); done.
Qed.

(** Without one they must be comparable among each other, empty values either
    being ties of each other or below all others. *)
Lemma empty_cmp_unplaced :
  ko_emptyPlacement ko = Empty_NotSpecified →
  cmp_on P c → (∀ x y, P x → P y → empty x = true → empty y = true → c x y = 0%Z) →
  cmp_on P empty_cmp.
Proof.
  intros Hp Hc He. apply (cmp_on_ext _ (λ x y, directed ko (c x y))); [|by apply directed_cmp_on].
  intros x y Hx Hy. unfold empty_cmp, tryCompareEmptyValues. rewrite Hp.
  destruct (empty x) eqn:Ex, (empty y) eqn:Ey; try done. simpl. rewrite He by done.
  unfold directed. by case_bool_decide.
Qed.

Lemma empty_cmp_low :
  ko_emptyPlacement ko = Empty_NotSpecified →
  cmp_on P c →
  (∀ x y, P x → P y → empty x = true → empty y = false → c x y = (-1)%Z) →
  cmp_on P empty_cmp.
Proof.
  intros Hp Hc Hlow.
  apply (cmp_on_ext _ (λ x y,
    chain (if bool_decide (ko_sortType ko = Sort_Desc) then - Zcmp (rank x) (rank y)
           else Zcmp (rank x) (rank y))%Z
          (if empty x then 0 else directed ko (c x y))%Z)).
  - intros x y Hx Hy. unfold empty_cmp, tryCompareEmptyValues, rank. rewrite Hp.
    destruct (empty x) eqn:Ex, (empty y) eqn:Ey; simpl.
    + by case_bool_decide.
    + rewrite Hlow by done. unfold directed. by case_bool_decide.
    + rewrite (cmp_antisym _ _ Hc x y), (Hlow y x) by done. unfold directed. by case_bool_decide.
    + by case_bool_decide.
  - apply ranked_cmp_on. eapply cmp_on_impl; [|exact Hc]. by intros x [].
Qed.
End empties.

(** ** Key orders are total preorders *)

Lemma Compare_cmp_on : cmp_on nan_free Compare.
Proof. split; [apply Compare_antisym_aux|apply Compare_trans3_aux]. Qed.

(** Values on which an order is consistent: no NaN, and, when empty values have no
    place of their own, no value of a type that sorts above the relation's. *)
Definition sortable (ko : keyOrder) (v : Value) : Prop :=
  nan_free v ∧
  (ko_emptyPlacement ko = Empty_NotSpecified →
   match ko_relationFormat ko with
   | RF_checkbox | RF_object | RF_file | RF_tag | RF_status => True
   | RF_number | RF_date =>
       match v with VStringList _ | VFloatList _ | VMap _ => False | _ => True end
   | _ => ko_disableCollator ko = true →
          match v with VInvalid | VNull | VBool _ | VString _ => True | _ => False end
   end).

Section keyorder_laws.
Context `{!GoArch, !Collator, !CollatorOk, !OrderStore, !OrderStoreOk} (local : Location).

Lemma compareStrings_cmp_on ko :
  (match ko_relationFormat ko with
   | RF_checkbox | RF_number | RF_date | RF_object | RF_file | RF_tag | RF_status => False
   | _ => True end) →
  cmp_on (sortable ko) (compareStrings ko).
Proof.
  intros Hf.
  set (c := λ av bv, if ko_disableCollator ko then Compare av bv
                     else CompareString (GetString av) (GetString bv)).
  change (compareStrings ko) with (empty_cmp ko string_empty c).
  assert (cmp_on (sortable ko) c) as Hc.
  { subst c. destruct (ko_disableCollator ko).
    - eapply cmp_on_impl; [|exact Compare_cmp_on]. by intros v [].
    - apply (cmp_on_map GetString _ (λ _, True)); [done|apply collate_preorder]. }
  destruct (decide (ko_emptyPlacement ko = Empty_NotSpecified)) as [Hp|Hp].
  - destruct (ko_disableCollator ko) eqn:Ed.
    + apply empty_cmp_low; [done|done|]. intros x y [_ Hx] [_ Hy] Ex Ey. subst c. rewrite ?Ed. cbv beta.
      specialize (Hx Hp). rewrite Ed in Hx.
      destruct y; try done. unfold string_empty in Ex, Ey. simpl in Ey.
      destruct x; try done; [|destruct (ko_relationFormat ko); by try destruct (Hx eq_refl)..].
      simpl in Ex. apply bool_decide_eq_true in Ex as ->. simpl. unfold strings_Compare.
      destruct s; [done|]. done.
    + apply empty_cmp_unplaced; [done|done|]. intros x y _ _ Ex Ey. subst c. rewrite ?Ed. cbv beta.
      assert (∀ v, string_empty v = true → GetString v = "") as He.
      { intros v. unfold string_empty, GetString. destruct (TryString v); [|done].
        intros ->%bool_decide_eq_true. done. }
      rewrite !He by done. by apply (cmp_on_refl _ _ _ collate_preorder).
  - apply empty_cmp_placed; [done|]. eapply cmp_on_impl; [|exact Hc]. by intros v [].
Qed.

Lemma compareNumbers_cmp_on ko :
  ko_relationFormat ko = RF_number ∨ ko_relationFormat ko = RF_date →
  cmp_on (sortable ko) (compareNumbers ko).
Proof.
  intros Hf. change (compareNumbers ko) with (empty_cmp ko (λ v, negb (IsFloat64 v)) Compare).
  assert (cmp_on (sortable ko) Compare) as Hc.
  { eapply cmp_on_impl; [|exact Compare_cmp_on]. by intros v []. }
  destruct (decide (ko_emptyPlacement ko = Empty_NotSpecified)) as [Hp|Hp].
  - apply empty_cmp_low; [done|done|]. intros x y [_ Hx] _ Ex Ey. specialize (Hx Hp).
    destruct y; try done. destruct x; try done; destruct Hf as [Hf|Hf]; rewrite Hf in Hx; done.
  - apply empty_cmp_placed; [done|]. eapply cmp_on_impl; [|exact Hc]. by intros v [].
Qed.

Lemma cut_value_sortable ko v :
  ko_relationFormat ko = RF_date → sortable ko v → sortable ko (cut_value local v).
Proof.
  unfold cut_value, TryInt64. destruct v; simpl; try done. intros Hf [_ _]. split.
  - constructor. apply float_of_Z_not_nan.
  - by rewrite Hf.
Qed.

Lemma compareBool_cmp_on ko : cmp_on (sortable ko) (compareBool ko).
Proof.
  apply (directed_cmp_on ko (λ av bv, Compare (if negb (Value_Ok av) then Bool false else av)
                                              (if negb (Value_Ok bv) then Bool false else bv))).
  apply (cmp_on_map (λ v, if negb (Value_Ok v) then Bool false else v) _ nan_free);
    [|apply Compare_cmp_on]. intros v [Hv _]. destruct v; try done. constructor.
Qed.

(** *** Relations to objects *)

(** The entry of an object in the cache. *)
Definition target_entry (record : Details) : Details :=
  NewDetailsFromMap (<[RelationKeyName := String (getName record)]> {[RelationKeyOrderId := d_Get record RelationKeyOrderId]}).
(** What the cache shows of an object: its entry, or the one it gets from the store
    when the object is asked for. *)
Definition fetched (id : string) : option Details :=
  if bool_decide (id = "") then None else target_entry <$> st_objects !! id.
Definition om_entry (m : OrderMap) (id : string) : option Details :=
  match om_data m !! id with Some d => Some d | None => fetched id end.

Lemma fetch_fold records id : ∀ data : gmap string Details, (∀ d, d ∈ records → st_objects !! d_GetString d RelationKeyId = Some d) →
  foldl (λ data record, <[d_GetString record RelationKeyId := target_entry record]> data) data records !! id =
    if decide (id ∈ (λ d, d_GetString d RelationKeyId) <$> records) then target_entry <$> st_objects !! id else data !! id.
Proof.
  induction records as [|x records IH]; intros data Hs; [done|]. cbn [foldl]. rewrite IH by (intros d ?; apply Hs; by right).
  rewrite fmap_cons. destruct (decide (id ∈ (λ d, d_GetString d RelationKeyId) <$> records)) as [Hin|Hin].
  - rewrite decide_True by (by right). done.
  - destruct (decide (id = d_GetString x RelationKeyId)) as [->|Hne].
    + rewrite decide_True by left. rewrite lookup_insert_eq, Hs by left. done.
    + rewrite decide_False by (by apply not_elem_of_cons). by rewrite lookup_insert_ne.
Qed.

(** Asking for objects loads the entries that are missing. *)
Lemma setOrders_spec m ids :
  om_sortKeys (setOrders m ids) = om_sortKeys m ∧
  ∀ id, om_data (setOrders m ids) !! id = match om_data m !! id with
    | Some d => Some d | None => if decide (id ∈ ids) then fetched id else None end.
Proof.
  unfold setOrders. rewrite (foldl_append_filter (λ id, om_data m !! id = None ∧ id ≠ "")
    (λ id, negb (bool_decide (is_Some (om_data m !! id))) && negb (bool_decide (id = "")))); cbn [app].
  2:{ intros id. destruct (om_data m !! id) as [d|] eqn:E.
      - rewrite (bool_decide_eq_true_2 (is_Some _)) by eauto. cbn [negb andb]. symmetry. apply bool_decide_eq_false_2. by intros [? _].
      - rewrite (bool_decide_eq_false_2 (is_Some _)) by (by intros [? ?]). cbn [negb andb].
        rewrite <- bool_decide_not. apply bool_decide_ext. naive_solver. }
  set (buf := filter _ ids).
  assert (∀ id, om_data m !! id = None → id ∈ ids → id ∉ buf → fetched id = None) as Hnone.
  { intros id E Hin Hb. unfold fetched. case_bool_decide as He; [done|]. destruct Hb. by apply list_elem_of_filter. }
  destruct (length buf =? 0) eqn:El.
  { apply Nat.eqb_eq, nil_length_inv in El. split; [done|]. intros id. destruct (om_data m !! id) eqn:E; [done|].
    destruct (decide (id ∈ ids)); [|done]. symmetry. apply Hnone; [done..|]. rewrite El. set_solver. }
  destruct (st_Query_ids buf) as (records & -> & Hrec).
  assert (∀ d, d ∈ records → st_objects !! d_GetString d RelationKeyId = Some d) as Hs.
  { intros d (id & _ & E)%Hrec. by rewrite (st_objects_id id d E). }
  split; [done|]. intros id. cbn [om_data with_data].
  change (foldl _ (om_data m) records) with (foldl (λ data record, <[d_GetString record RelationKeyId := target_entry record]> data) (om_data m) records).
  rewrite fetch_fold by done. destruct (decide (id ∈ _ <$> records)) as [(d & -> & Hd)%list_elem_of_fmap|Hn].
  - pose proof (Hs d Hd) as E. apply Hrec in Hd as (id & Hin & E'). pose proof (st_objects_id id d E') as <-.
    apply list_elem_of_filter in Hin as [[E0 Hne] Hin]. rewrite E0, decide_True by done. unfold fetched.
    by rewrite bool_decide_eq_false_2.
  - destruct (om_data m !! id) eqn:E; [done|]. destruct (decide (id ∈ ids)) as [Hin|]; [|done].
    destruct (decide (id ∈ buf)) as [Hb|Hb]; [|by rewrite Hnone]. unfold fetched. case_bool_decide; [done|].
    destruct (st_objects !! id) as [d|] eqn:Ed; [|done]. destruct Hn. apply list_elem_of_fmap. exists d.
    split; [by rewrite (st_objects_id id d Ed)|]. apply Hrec. by exists id.
Qed.

(** Caches that show the same. *)
#[export] Instance OrderMap_equiv : Equiv OrderMap := λ m m',
  om_sortKeys m = om_sortKeys m' ∧ (om_data m = ∅ ↔ om_data m' = ∅) ∧ ∀ id, om_entry m id = om_entry m' id.
#[export] Instance OrderMap_equivalence : Equivalence (≡@{OrderMap}).
Proof.
  split.
  - by intros m.
  - intros m m' (? & ? & ?). by split_and!.
  - intros m1 m2 m3 (? & ? & E1) (? & ? & E2). split_and!; [congruence|naive_solver|]. intros id. by rewrite E1.
Qed.

Lemma setOrders_equiv m ids : om_data m ≠ ∅ → m ≡ setOrders m ids.
Proof.
  intros Hne. destruct (setOrders_spec m ids) as [E1 E2]. split_and!; [done| |].
  - split; [done|]. intros E. exfalso. apply Hne, map_empty. intros id. specialize (E2 id). rewrite E, lookup_empty in E2.
    by destruct (om_data m !! id).
  - intros id. unfold om_entry. rewrite E2. destruct (om_data m !! id); [done|]. destruct (decide _); [|done]. by destruct (fetched id).
Qed.

(** The key of a list of objects, whatever is in the cache. *)
Definition entry_key (m : OrderMap) (ids : list string) : string :=
  foldl (λ buf key,
           foldl (λ buf id, match om_entry m id with
                            | Some details => (buf +:+ d_GetString details key)%string
                            | None => buf
                            end) buf ids) "" (om_sortKeys m).
Definition ids_key (m : option OrderMap) (ids : list string) : string :=
  match m with Some m => if decide (om_data m = ∅) then "" else entry_key m ids | None => "" end.

#[export] Instance ids_key_proper : Proper ((≡@{option OrderMap}) ==> (=) ==> (=)) ids_key.
Proof.
  intros m m' Hm ids ? <-. destruct Hm as [m m' (E1 & E2 & E3)|]; [|done]. unfold ids_key, entry_key. rewrite <- E1.
  rewrite (decide_ext _ _ _ _ E2). case_decide; [done|]. clear E1 E2.
  generalize "". induction (om_sortKeys m) as [|key keys IH]; intros buf; [done|]. cbn [foldl]. rewrite IH. f_equal.
  clear -E3. revert buf. induction ids as [|id ids IH]; intros buf; [done|]. cbn [foldl]. by rewrite E3, IH.
Qed.

Lemma build_key_entries m ids : build_key (setOrders m ids) ids = entry_key m ids.
Proof.
  destruct (setOrders_spec m ids) as [E1 E2]. unfold build_key, entry_key. rewrite E1.
  assert (∀ id, id ∈ ids → om_data (setOrders m ids) !! id = om_entry m id) as He.
  { intros id Hin. rewrite E2. unfold om_entry. by rewrite decide_True. }
  clear E1 E2. generalize "". induction (om_sortKeys m) as [|key keys IH]; intros buf; [done|]. cbn [foldl]. rewrite IH. f_equal. clear IH.
  generalize dependent (om_data (setOrders m ids)). intros data He. revert buf. induction ids as [|id ids IH]; intros buf; [done|]. cbn [foldl].
  rewrite He by left. apply IH. intros id' ?. apply He. by right.
Qed.

Lemma BuildOrder_spec m ids : (BuildOrder m ids).2 = ids_key m ids ∧ m ≡ (BuildOrder m ids).1.
Proof.
  unfold BuildOrder, ids_key. destruct m as [m|]; [|done]. destruct (decide (om_data m = ∅)) as [E|E].
  - rewrite E, map_size_empty. done.
  - assert ((size (om_data m) =? 0) = false) as -> by (by apply Nat.eqb_neq; intros ?%map_size_empty_inv).
    split; [apply build_key_entries|]. constructor. by apply setOrders_equiv.
Qed.

Definition object_cmp (m : option OrderMap) (av bv : Value) : Z :=
  chain (strings_Compare (ids_key m (WrapToStringList av)) (ids_key m (WrapToStringList bv)))
        (Zcmp (Z.of_nat (length (WrapToStringList av))) (Z.of_nat (length (WrapToStringList bv)))).

Lemma object_cmp_on m P : cmp_on P (object_cmp m).
Proof.
  apply cmp_on_chain.
  - apply (cmp_on_map (λ v, ids_key m (WrapToStringList v)) _ (λ _, True)); [done|apply strings_cmp_on].
  - intros. apply Zcmp_antisym.
  - intros. apply Zcmp_trans3.
Qed.

(** Key orders that differ in what their caches hold at most. *)
#[export] Instance keyOrder_equiv : Equiv keyOrder := λ ko ko',
  with_orderMap ko None = with_orderMap ko' None ∧ ko_orderMap ko ≡ ko_orderMap ko'.
#[export] Instance keyOrder_equivalence : Equivalence (≡@{keyOrder}).
Proof.
  split.
  - by intros ko.
  - intros ko ko' [? ?]. by split.
  - intros k1 k2 k3 [? ?] [? ?]. split; etrans; done.
Qed.

Lemma compareObjectValues_spec ko av bv :
  (compareObjectValues ko av bv).2 = empty_cmp ko list_empty (object_cmp (ko_orderMap ko)) av bv ∧ ko ≡ (compareObjectValues ko av bv).1.
Proof.
  unfold compareObjectValues, empty_cmp. destruct (tryCompareEmptyValues _ _ _); [done|].
  destruct (BuildOrder_spec (ko_orderMap ko) (WrapToStringList av)) as [Ea Ha]. destruct (BuildOrder (ko_orderMap ko) _) as [om keyA]. cbn [fst snd] in Ea, Ha.
  destruct (BuildOrder_spec om (WrapToStringList bv)) as [Eb Hb]. destruct (BuildOrder om _) as [om' keyB]. cbn [fst snd] in Eb, Hb |- *. rewrite <- Ha in Eb. subst keyA keyB.
  split; [|split; [done|]; simpl; by etrans].
  f_equal. unfold object_cmp, chain, Zcmp. set (k := strings_Compare _ _). set (n := length _). set (n' := length _).
  destruct (Z.eqb_spec k 0) as [E|E]; [|done]. rewrite E.
  destruct (Nat.ltb_spec n n'), (Nat.ltb_spec n' n), (Z.ltb_spec (Z.of_nat n) (Z.of_nat n')),
    (Z.ltb_spec (Z.of_nat n') (Z.of_nat n)); lia.
Qed.

Lemma objects_cmp_on ko P : cmp_on P (empty_cmp ko list_empty (object_cmp (ko_orderMap ko))).
Proof.
  destruct (decide (ko_emptyPlacement ko = Empty_NotSpecified)) as [Hp|Hp].
  - apply empty_cmp_unplaced; [done|apply object_cmp_on|]. intros x y _ _ Ex Ey.
    assert (∀ v, list_empty v = true → WrapToStringList v = []) as He.
    { intros v. unfold list_empty, WrapToStringList. destruct (TryWrapToStringList v) as [[]|]; done. }
    unfold object_cmp. rewrite !He by done. apply chain_zero. split; [by apply strings_Compare_zero|done].
  - apply empty_cmp_placed; [done|]. apply object_cmp_on.
Qed.

(** *** All formats *)

Definition sort_value (ko : keyOrder) (d : Details) : Value :=
  match ko_relationFormat ko with
  | RF_shorttext | RF_longtext => trySubstituteSnippet ko d (d_Get d (ko_key ko))
  | _ => d_Get d (ko_key ko)
  end.

(** Details a key order compares consistently. *)
Definition orderable (ko : keyOrder) (d : Details) : Prop := sortable ko (sort_value ko d).

(** A comparison may load the cache, and what was loaded does not change its result. *)
Lemma ko_Compare_equiv ko a b : ko ≡ (ko_Compare local ko a b).1.
Proof. unfold ko_Compare. destruct (ko_relationFormat ko); try done; apply compareObjectValues_spec. Qed.

#[export] Instance ko_Compare_proper : Proper ((≡) ==> (=) ==> (=) ==> (=)) (λ ko a b, (ko_Compare local ko a b).2).
Proof.
  intros ko ko' [E Hm] a ? <- b ? <-. destruct ko as [k1 k2 k3 k4 k5 m k7], ko' as [k1' k2' k3' k4' k5' m' k7'].
  unfold with_orderMap in E. simpl in E, Hm. injection E as -> -> -> -> -> ->. unfold ko_Compare. cbn [ko_relationFormat ko_key].
  assert (∀ ids, ids_key m ids = ids_key m' ids) as Hk by (intros; by rewrite Hm).
  destruct k4'; try done; rewrite !(proj1 (compareObjectValues_spec _ _ _)); unfold empty_cmp, object_cmp; cbn [ko_orderMap]; by rewrite !Hk.
Qed.

Lemma ko_Compare_cmp_on ko :
  cmp_on (orderable ko) (λ a b, (ko_Compare local ko a b).2).
Proof.
  unfold ko_Compare.
  assert (∀ c, cmp_on (sortable ko) c →
    cmp_on (orderable ko) (λ a b, c (sort_value ko a) (sort_value ko b))) as Hlift.
  { intros c Hc. by apply (cmp_on_map (sort_value ko) _ (sortable ko)). }
  assert (cmp_on (orderable ko) (λ a b, empty_cmp ko list_empty (object_cmp (ko_orderMap ko)) (sort_value ko a) (sort_value ko b))) as Hobj
    by apply Hlift, objects_cmp_on.
  destruct (ko_relationFormat ko) eqn:Hf; cbn [snd].
  all: try (eapply cmp_on_ext; [|apply Hlift, compareStrings_cmp_on; by rewrite Hf];
            intros x y _ _; unfold sort_value; by rewrite Hf).
  all: try (eapply cmp_on_ext; [|exact Hobj]; intros x y _ _;
            destruct (compareObjectValues_spec ko (d_Get x (ko_key ko)) (d_Get y (ko_key ko))) as [-> _]; unfold sort_value; by rewrite Hf).
  - eapply cmp_on_ext; [|apply Hlift, compareNumbers_cmp_on; by left].
    intros x y _ _. unfold sort_value. by rewrite Hf.
  - unfold compareDates. destruct (ko_includeTime ko); simpl.
    + eapply cmp_on_ext; [|apply Hlift, compareNumbers_cmp_on; by right].
      intros x y _ _. unfold sort_value. by rewrite Hf.
    + eapply cmp_on_ext; [|apply Hlift, (cmp_on_map (cut_value local) _ (sortable ko));
        [intros v; by apply cut_value_sortable|apply compareNumbers_cmp_on; by right]].
      intros x y _ _. unfold sort_value. by rewrite Hf.
  - eapply cmp_on_ext; [|apply Hlift, compareBool_cmp_on].
    intros x y _ _. unfold sort_value. by rewrite Hf.
Qed.
End keyorder_laws.

(** ** Lists of orders *)

Definition o_ko (o : Order) : keyOrder := match o with OKey ko | OCustom _ _ ko => ko end.

Section order_laws.
Context {V : Type} {enc : AnyEnc V} {arch : GoArch} {coll : Collator} {coll_ok : CollatorOk}
  {st : OrderStore} {st_ok : OrderStoreOk} (MarshalTo : V → string) (local : Location).

#[export] Instance Order_equiv : Equiv Order := λ o o',
  match o, o' with
  | OKey ko, OKey ko' => ko ≡ ko'
  | OCustom key need ko, OCustom key' need' ko' => key = key' ∧ need = need' ∧ ko ≡ ko'
  | _, _ => False
  end.
#[export] Instance Order_equivalence : Equivalence (≡@{Order}).
Proof.
  split.
  - by intros [].
  - intros [ko|] [ko'|]; try done; [intros Hk; change (ko' ≡ ko); by symmetry|]. intros (? & ? & ?). by split_and!.
  - intros [k1|] [k2|] [k3|]; try done; [intros H1 H2; change (k1 ≡ k3); by trans k2|].
    intros (? & ? & ?) (? & ? & ?). split_and!; by etrans.
Qed.

Lemma o_Compare_equiv o a b : o ≡ (o_Compare MarshalTo local o a b).1.
Proof.
  destruct o as [ko|key need ko]; cbn [o_Compare].
  - pose proof (ko_Compare_equiv local ko a b). by destruct (ko_Compare local ko a b).
  - destruct (need !! _), (need !! _); try done. pose proof (ko_Compare_equiv local ko a b). by destruct (ko_Compare local ko a b).
Qed.
#[export] Instance o_Compare_proper : Proper ((≡) ==> (=) ==> (=) ==> (=)) (λ o a b, (o_Compare MarshalTo local o a b).2).
Proof.
  intros [ko|key need ko] [ko'|key' need' ko'] Ho a ? <- b ? <-; try done; cbn [o_Compare].
  - pose proof (ko_Compare_proper local ko ko' Ho a a eq_refl b b eq_refl) as E. simpl in E.
    by destruct (ko_Compare local ko a b), (ko_Compare local ko' a b).
  - destruct Ho as (<- & <- & Ho). destruct (need !! _), (need !! _); try done.
    pose proof (ko_Compare_proper local ko ko' Ho a a eq_refl b b eq_refl) as E. simpl in E.
    by destruct (ko_Compare local ko a b), (ko_Compare local ko' a b).
Qed.

Lemma o_Compare_cmp_on o :
  cmp_on (orderable (o_ko o)) (λ a b, (o_Compare MarshalTo local o a b).2).
Proof.
  destruct o as [ko|key need ko]; simpl.
  - eapply cmp_on_ext; [|apply (ko_Compare_cmp_on local ko)]. intros a b _ _. simpl.
    by destruct (ko_Compare local ko a b).
  - set (pos := λ d, need !! getStringVal MarshalTo (d_Get d key)).
    apply (cmp_on_ext _ (λ a b,
      chain (Zcmp (if pos a then 0 else 1) (if pos b then 0 else 1))%Z
        (chain (Zcmp (default 0 (pos a)) (default 0 (pos b)))%Z
           (match pos a with Some _ => 0%Z | None => (ko_Compare local ko a b).2 end)))).
    + intros a b _ _. unfold getStringVal in *. fold (pos a) (pos b). unfold chain, Zcmp.
      destruct (pos a) as [i|], (pos b) as [j|]; simpl; try done.
      * destruct (Z.eqb_spec i j) as [->|]; [by rewrite Z.ltb_irrefl|].
        destruct (Z.ltb_spec i j); [done|]. destruct (Z.ltb_spec j i); [done|lia].
      * by destruct (ko_Compare local ko a b).
    + destruct (ko_Compare_cmp_on local ko) as [Ha Ht].
      assert (∀ a b, Zcmp (if pos a then 0 else 1) (if pos b then 0 else 1) = 0%Z →
        pos a = None ↔ pos b = None) as Hr.
      { intros a b. rewrite Zcmp_zero. by destruct (pos a), (pos b). }
      apply cmp_on_chain; [apply cmp_on_Z|..].
      * intros a b Hoa Hob E%Hr. apply chain_antisym; [apply Zcmp_antisym|]. intros _.
        destruct (pos a), (pos b); [done|naive_solver|naive_solver|by apply Ha].
      * intros a b c Hoa Hob Hoc E1%Hr E2%Hr. apply trans3_chain; [apply Zcmp_trans3|]. intros _ _.
        destruct (pos a), (pos b), (pos c); try (by apply trans3_zero); try (by apply Ht);
          exfalso; clear -E1 E2; naive_solver.
Qed.

Definition all_orderable (so : list Order) (d : Details) : Prop :=
  Forall (λ o, orderable (o_ko o) d) so.

Lemma so_Compare_equiv so a b : so ≡ (so_Compare MarshalTo local so a b).1.
Proof.
  induction so as [|o so IH]; [done|]. cbn [so_Compare]. pose proof (o_Compare_equiv o a b) as Ho.
  destruct (o_Compare _ _ o a b) as [o' c]. cbn [fst] in Ho. destruct (negb _); [by constructor|].
  destruct (so_Compare _ _ so a b) as [so' c']. by constructor.
Qed.
Lemma so_Compare_proper so so' a b : so ≡ so' → (so_Compare MarshalTo local so a b).2 = (so_Compare MarshalTo local so' a b).2.
Proof.
  induction 1 as [|o o' so so' Ho Hs IH]; [done|]. cbn [so_Compare].
  pose proof (o_Compare_proper o o' Ho a a eq_refl b b eq_refl) as E. simpl in E.
  destruct (o_Compare _ _ o a b) as [o1 c1], (o_Compare _ _ o' a b) as [o2 c2]. cbn [snd] in E. subst c2.
  destruct (negb _); [done|]. by destruct (so_Compare _ _ so a b), (so_Compare _ _ so' a b).
Qed.

(** The orders after another comparison, which may have loaded their caches. *)
Definition after_compare (so so' : list Order) : Prop := ∃ x y, so' = (so_Compare MarshalTo local so x y).1.
Lemma after_compare_equiv so so' : rtc after_compare so so' → so ≡ so'.
Proof. induction 1 as [|so so1 so' [x [y ->]] _ IH]; [done|]. etrans; [apply so_Compare_equiv|exact IH]. Qed.

Lemma so_Compare_cmp_on so :
  cmp_on (all_orderable so) (λ a b, (so_Compare MarshalTo local so a b).2).
Proof.
  induction so as [|o so IH]; [split; intros; [done|apply trans3_zero]|].
  apply (cmp_on_ext _ (λ a b, chain (o_Compare MarshalTo local o a b).2
                                    (so_Compare MarshalTo local so a b).2)).
  - intros a b _ _. simpl. destruct (o_Compare _ _ o a b) as [o' c]. unfold chain. simpl.
    destruct (c =? 0)%Z; simpl; [|done]. by destruct (so_Compare _ _ so a b).
  - destruct IH as [Ha Ht]. apply cmp_on_chain.
    + eapply cmp_on_impl; [|apply o_Compare_cmp_on]. intros d Hd. by apply Forall_cons in Hd as [? _].
    + intros a b Hoa Hob _. apply Forall_cons in Hoa as [_ ?]. apply Forall_cons in Hob as [_ ?]. auto.
    + intros a b c Hoa Hob Hoc _ _. apply Forall_cons in Hoa as [_ ?].
      apply Forall_cons in Hob as [_ ?]. apply Forall_cons in Hoc as [_ ?]. auto.
Qed.

(** C30. A list of sort orders (of every relation format, ascending or descending, with
    any placement of empty values, and custom orders) compares objects as a total
    preorder, and always with the same result: the comparisons made before, which load
    the caches of names and order ids from the store, do not change it.  The values of
    the objects contain no NaN and, where empty values have no place of their own, none
    of a type that sorts above the type of the relation; the store answers queries for
    ids. *)
Theorem so_Compare_preorder (so so' : list Order) (a b c : Details) :
  all_orderable so a → all_orderable so b → all_orderable so c → rtc after_compare so so' →
  let cmp x y := (so_Compare MarshalTo local so x y).2 in
  (so_Compare MarshalTo local so' a b).2 = cmp a b ∧
  cmp a b = (- cmp b a)%Z ∧
  ((cmp a b ≤ 0 → cmp b c ≤ 0 → cmp a c ≤ 0)%Z) ∧
  ((cmp a b < 0 → cmp b c ≤ 0 → cmp a c < 0)%Z).
Proof.
  intros Ha Hb Hc Hs cmp. destruct (so_Compare_cmp_on so) as [Hanti Ht].
  destruct (Ht a b c Ha Hb Hc) as [Ht1 _].
  split_and!; [symmetry; by apply so_Compare_proper, after_compare_equiv|by apply Hanti|..]; subst cmp; naive_solver lia.
Qed.
End order_laws.

(** A store of one object, and the byte order as collation. *)
Module OrderInst.
#[export] Instance bytes_collator : Collator :=
  {| CompareString := strings_Compare; KeyFromString := λ s, s |}.
#[export] Instance bytes_collator_ok : CollatorOk := {| collate_preorder := strings_cmp_on |}.
Definition t3 : Details := Some {["id" := VString "t3"; "name" := VString "someday"; "orderId" := VString "c"]}.
#[export] Instance small_store : OrderStore := {|
  st_Query fs := match fs with
                 | [f] => Ok (if bool_decide ("t3" ∈ GetStringList (fr_Value f)) then [t3] else [])
                 | _ => Err "not a query for ids"
                 end;
  st_QueryIterate _ := ([], false);
  st_ListRelationOptions _ := Ok [{| opt_Id := "t1"; opt_Text := "urgent"; opt_OrderId := "b" |};
                                  {| opt_Id := "t2"; opt_Text := "later"; opt_OrderId := "a" |}];
  st_GetRelationFormatByKey k := if bool_decide (k = "tag") then Ok RF_tag else Ok RF_number;
|}.
#[export] Instance small_store_ok : OrderStoreOk.
Proof.
  refine {| st_objects := {["t3" := t3]} |}.
  - by intros id d [<- <-]%lookup_singleton_Some.
  - intros ids. eexists. split; [reflexivity|]. intros d. cbn [fr_Value leaf_request GetStringList StringList].
    setoid_rewrite lookup_singleton_Some. case_bool_decide; rewrite ?list_elem_of_singleton; set_solver.
Qed.
Definition marshal (t : TreeEnc.tree) : string :=
  match t with TreeEnc.tstr s => s | _ => "" end.

Definition sorts : list SortRequest :=
  [{| sr_RelationKey := "tag"; sr_Type := Sort_Desc; sr_CustomOrder := []; sr_Format := RF_longtext;
      sr_IncludeTime := false; sr_Id := ""; sr_EmptyPlacement := Empty_End; sr_NoCollate := false |};
   {| sr_RelationKey := "rank"; sr_Type := Sort_Asc; sr_CustomOrder := []; sr_Format := RF_number;
      sr_IncludeTime := false; sr_Id := ""; sr_EmptyPlacement := Empty_NotSpecified; sr_NoCollate := false |}].
End OrderInst.
Import FilterInst TreeEnc OrderInst.

Definition is_cached (so : list Order) (id : string) : bool :=
  match so with OKey ko :: _ => bool_decide (is_Some (m ← ko_orderMap ko; om_data m !! id)) | _ => false end.

(** The comparison before this one has loaded [t3], which is no option of the tag. *)
Lemma so_Compare_preorder_witness :
  let so := extractOrder marshal sorts in
  let a : Details := Some {["tag" := VStringList ["t1"]; "rank" := VFloat (float_of_Z 1)]} in
  let b : Details := Some {["tag" := VString "t3"]} in
  let c : Details := Some {["rank" := VFloat (float_of_Z 3)]} in
  let so' := (so_Compare marshal UTC so a b).1 in
  let cmp x y := (so_Compare marshal UTC so x y).2 in
  cmp a b = 1%Z ∧ is_cached so "t3" = false ∧ is_cached so' "t3" = true ∧
  (so_Compare marshal UTC so' a b).2 = cmp a b ∧
  cmp a b = (- cmp b a)%Z ∧
  ((cmp a b ≤ 0 → cmp b c ≤ 0 → cmp a c ≤ 0)%Z) ∧
  ((cmp a b < 0 → cmp b c ≤ 0 → cmp a c < 0)%Z).
Proof.
  intros so a b c so' cmp. split; [vm_compute; reflexivity|]. split; [vm_compute; reflexivity|]. split; [vm_compute; reflexivity|].
  apply (so_Compare_preorder marshal UTC so so' a b c);
    try (apply Forall_cons; split; [|apply Forall_cons; split; [|constructor]]; (split; [repeat constructor|try done])).
  apply rtc_once. exists a, b. reflexivity.
Defined.

(** ** Updating the order map *)

(** Every entry is a details object, never nil. *)
Definition om_wf (data : gmap string Details) : Prop := map_Forall (λ _ d, is_Some d) data.

Section update_laws.
Context `{!GoArch, !Collator}.

Definition set_if_changed (d : Details) (key s : string) : Details * bool :=
  if negb (bool_decide (d_GetString d key = s))
  then ((<[key := String s]>) <$> d, true) else (d, false).

Lemma set_if_changed_spec m key s :
  ∃ m', (set_if_changed (Some m) key s).1 = Some m' ∧ d_GetString (Some m') key = s ∧
    (∀ k, k ≠ key → m' !! k = m !! k) ∧
    ((set_if_changed (Some m) key s).2 = false → m' = m).
Proof.
  unfold set_if_changed. destruct (decide (d_GetString (Some m) key = s)) as [E|E].
  - rewrite bool_decide_eq_true_2 by done. exists m. by split_and!.
  - rewrite bool_decide_eq_false_2 by done. exists (<[key := String s]> m).
    split_and!; [done| |intros; by rewrite lookup_insert_ne|done].
    unfold d_GetString, d_Get. by rewrite lookup_insert_eq.
Qed.

(** One step on an entry that exists. *)
Lemma update_one_spec data det id m :
  id = d_GetString det RelationKeyId → data !! id = Some (Some m : Details) →
  ∃ m', update_one data det = (<[id := Some m']> data, (update_one data det).2) ∧
    d_GetString (Some m') RelationKeyOrderId = d_GetString det RelationKeyOrderId ∧
    d_GetString (Some m') RelationKeyName = getName det ∧
    ((update_one data det).2 = false → m' = m).
Proof.
  intros -> Hid. unfold update_one. cbv zeta. rewrite Hid.
  destruct (set_if_changed_spec m RelationKeyOrderId (d_GetString det RelationKeyOrderId))
    as (m1 & E1 & G1 & _ & U1). unfold set_if_changed in E1, U1.
  destruct (if negb (bool_decide (d_GetString (Some m) RelationKeyOrderId = _)) then _ else _) as [d1 u1].
  cbn [fst snd] in *. subst d1.
  destruct (set_if_changed_spec m1 RelationKeyName (getName det)) as (m2 & E2 & G2 & O2 & U2).
  unfold set_if_changed in E2, U2.
  destruct (negb (bool_decide (d_GetString (Some m1) RelationKeyName = getName det))) eqn:E.
  - cbn [fst snd] in *. exists m2. rewrite E2. split_and!; [done| |done|done].
    unfold d_GetString, d_Get. rewrite O2 by done. exact G1.
  - cbn [fst snd] in *. exists m1. simplify_eq. split_and!; [done|done|done|done].
Qed.

Lemma update_one_absent data det :
  data !! d_GetString det RelationKeyId = None → update_one data det = (data, false).
Proof. intros E. unfold update_one. cbv zeta. by rewrite E. Qed.

Definition update_loop (acc : gmap string Details * bool) (dets : list Details) :=
  foldl (λ '(data, any) det, let '(data, u) := update_one data det in
                             (data, if u : bool then true else any)) acc dets.

Lemma update_one_wf data det :
  om_wf data → om_wf (update_one data det).1 ∧ dom (update_one data det).1 = dom data ∧
    ((update_one data det).2 = false → (update_one data det).1 = data).
Proof.
  intros Hwf. destruct (data !! d_GetString det RelationKeyId) as [d|] eqn:E.
  - destruct (Hwf _ _ E) as [m ->].
    destruct (update_one_spec data det _ m eq_refl E) as (m' & Eu & _ & _ & Hu).
    rewrite Eu. cbn [fst snd]. split_and!.
    + apply map_Forall_insert_2; [eauto|done].
    + apply dom_insert_lookup_L. eauto.
    + intros H1. rewrite (Hu H1). by apply insert_id.
  - by rewrite update_one_absent.
Qed.

Lemma update_loop_wf data any dets :
  om_wf data →
  om_wf (update_loop (data, any) dets).1 ∧ dom (update_loop (data, any) dets).1 = dom data ∧
  ((update_loop (data, any) dets).2 = false → (update_loop (data, any) dets).1 = data ∧ any = false).
Proof.
  revert data any. induction dets as [|det dets IH]; intros data any Hwf; [done|].
  unfold update_loop. cbn [foldl]. fold update_loop.
  destruct (update_one_wf data det Hwf) as (H1 & H2 & H3).
  destruct (update_one data det) as [data' u]. cbn [fst snd] in *.
  destruct (IH data' (if u then true else any) H1) as (H4 & H5 & H6).
  split_and!; [done|by rewrite <- H2|]. intros Hf. destruct (H6 Hf) as [H7 H8].
  destruct u; [done|]. split; [|done]. rewrite <- H3 by done. exact H7.
Qed.

(** Updating the order map keeps its objects (none is added, removed or
    nil), reports no change only when nothing changed, and gives the object of
    the last details it is fed, when it is in the map, that name and order id. *)
Theorem Update_refreshes (m : OrderMap) (dets : list Details) (det : Details) :
  om_wf (om_data m) → om_data m ≠ ∅ →
  ∃ m', Update (Some m) (dets ++ [det]) = (Some m', (Update (Some m) (dets ++ [det])).2) ∧
    om_wf (om_data m') ∧ dom (om_data m') = dom (om_data m) ∧
    ((Update (Some m) (dets ++ [det])).2 = false → m' = m) ∧
    (d_GetString det RelationKeyId ∈ dom (om_data m) →
     ∃ d, om_data m' !! d_GetString det RelationKeyId = Some d ∧
       d_GetString d RelationKeyName = getName det ∧
       d_GetString d RelationKeyOrderId = d_GetString det RelationKeyOrderId).
Proof.
  intros Hwf Hne. unfold Update.
  assert ((size (om_data m) =? 0) = false) as ->.
  { apply Nat.eqb_neq. intros E%map_size_empty_inv. done. }
  fold (update_loop (om_data m, false) (dets ++ [det])).
  destruct (update_loop_wf (om_data m) false (dets ++ [det]) Hwf) as (H1 & H2 & H3).
  assert (d_GetString det RelationKeyId ∈ dom (om_data m) →
    ∃ d, (update_loop (om_data m, false) (dets ++ [det])).1 !! d_GetString det RelationKeyId = Some d ∧
       d_GetString d RelationKeyName = getName det ∧
       d_GetString d RelationKeyOrderId = d_GetString det RelationKeyOrderId) as Hlast.
  { intros Hin. unfold update_loop. rewrite foldl_app. cbn [foldl].
    fold (update_loop (om_data m, false) dets).
    destruct (update_loop_wf (om_data m) false dets Hwf) as (Hw & Hd & _).
    destruct (update_loop (om_data m, false) dets) as [data any]. cbn [fst] in *.
    rewrite <- Hd in Hin. apply elem_of_dom in Hin as [d Hd'].
    destruct (Hw _ _ Hd') as [m0 ->].
    destruct (update_one_spec data det _ m0 eq_refl Hd') as (m1 & Eu & G1 & G2 & _).
    rewrite Eu. cbn [fst]. exists (Some m1). by rewrite lookup_insert_eq. }
  destruct (update_loop (om_data m, false) (dets ++ [det])) as [data any]. cbn [fst snd] in *.
  exists (with_data m data). split_and!; [done..| |done].
  intros Hf. destruct (H3 Hf) as [-> _]. by destruct m.
Qed.
End update_laws.

Lemma Update_refreshes_witness :
  let m := BuildOrderMap "tag" RF_tag in
  let det : Details := Some {["id" := VString "t1"; "name" := VString "soon"; "orderId" := VString "c"]} in
  ∃ m', Update (Some m) ([] ++ [det]) = (Some m', (Update (Some m) ([] ++ [det])).2) ∧
    om_wf (om_data m') ∧ dom (om_data m') = dom (om_data m) ∧
    ((Update (Some m) ([] ++ [det])).2 = false → m' = m) ∧
    (d_GetString det RelationKeyId ∈ dom (om_data m) →
     ∃ d, om_data m' !! d_GetString det RelationKeyId = Some d ∧
       d_GetString d RelationKeyName = getName det ∧
       d_GetString d RelationKeyOrderId = d_GetString det RelationKeyOrderId).
Proof.
  intros m det. apply (Update_refreshes m [] det).
  - intros k d. cbn -[lookup]. intros Hd.
    repeat (apply lookup_insert_Some in Hd as [[_ <-]|[_ Hd]]; [eexists; reflexivity|]).
    by rewrite lookup_empty in Hd.
  - intros E. apply (f_equal (λ d, bool_decide (is_Some (d !! "t1")))) in E. vm_compute in E. discriminate E.
Defined.
