(* ===== verification/Text.v ===== *)
(** * UTF-16 text ([util/text/text.go])

    Clients address text by UTF-16 code units while the program stores UTF-8
    strings.  A (valid) string is modelled by its runes, a list of Unicode scalar
    values; a slice of UTF-16 units is a list of numbers below 2^16.  The functions
    of [unicode/utf16] that the file uses are written as that package documents
    them. *)

From S2P Require Import Prelude.

Local Open Scope Z_scope.

Abbreviation runes := (list Z).

(** ** [unicode/utf16] *)

Definition scalar (r : Z) : Prop := (0 ≤ r < 55296) ∨ (57344 ≤ r < 1114112).

Definition replacementChar : Z := 65533.

Definition RuneLen (r : Z) : Z :=
  if (0 <=? r) && (r <? 55296) || (57344 <=? r) && (r <? 65536) then 1
  else if (65536 <=? r) && (r <? 1114112) then 2 else -1.

Definition encode_rune (r : Z) : list Z :=
  if (0 <=? r) && (r <? 55296) || (57344 <=? r) && (r <? 65536) then [r]
  else if (65536 <=? r) && (r <? 1114112) then [55296 + (r - 65536) / 1024; 56320 + (r - 65536) mod 1024]
  else [replacementChar].

Definition Encode (s : runes) : list Z := flat_map encode_rune s.

Definition is_high (u : Z) : bool := (55296 <=? u) && (u <? 56320).
Definition is_low (u : Z) : bool := (56320 <=? u) && (u <? 57344).

(** A high surrogate followed by a low one is a rune; any other surrogate is
    replaced. *)
Fixpoint Decode (b : list Z) : runes :=
  match b with
  | [] => []
  | u :: b' =>
      if is_high u then
        match b' with
        | v :: b'' => if is_low v then (u - 55296) * 1024 + (v - 56320) + 65536 :: Decode b''
                      else replacementChar :: Decode b'
        | [] => [replacementChar]
        end
      else if is_low u then replacementChar :: Decode b'
      else u :: Decode b'
  end.

(** ** [text.go] *)

Definition UTF16RuneCountString (str : runes) : Z := foldl (λ n s, n + RuneLen s) 0 str.
Definition StrToUTF16 (str : runes) : list Z := Encode str.
Definition UTF16ToStr (b : list Z) : runes := Decode b.

Fixpoint utf16_le_loop (str : runes) (n maxLen : Z) : bool :=
  match str with
  | [] => true
  | s :: str => let n := n + RuneLen s in if maxLen <? n then false else utf16_le_loop str n maxLen
  end.

Definition isUtf16LengthLessOrEqual (str : runes) (maxLen : Z) : bool := utf16_le_loop str 0 maxLen.

(** [unicode.IsSpace]. *)
Definition IsSpace (r : Z) : bool :=
  ((9 <=? r) && (r <=? 13)) || (r =? 32) || (r =? 133) || (r =? 160) || (r =? 5760)
  || ((8192 <=? r) && (r <=? 8202)) || (r =? 8232) || (r =? 8233) || (r =? 8239) || (r =? 8287) || (r =? 12288).

(** The loop of [Truncate]; byte offsets of rune starts are rune indices here.
    [None] when the loop runs to the end. *)
Fixpoint truncate_loop (str : runes) (i : nat) (utf16Len maxLen : Z) (lastWordIndex lastNonSpace : nat)
    : option nat :=
  match str with
  | [] => None
  | r :: str =>
      let '(lastWordIndex, lastNonSpace) :=
        if IsSpace r then (lastNonSpace, lastNonSpace) else (lastWordIndex, S i) in
      let utf16Len := utf16Len + RuneLen r in
      if maxLen <? utf16Len then Some (if (lastWordIndex =? 0)%nat then i else lastWordIndex)
      else truncate_loop str (S i) utf16Len maxLen lastWordIndex lastNonSpace
  end.

Definition Truncate (str : runes) (maxLen : Z) (ending : runes) : runes :=
  if isUtf16LengthLessOrEqual str maxLen then str
  else
    let maxLen := maxLen - UTF16RuneCountString ending in
    match truncate_loop str 0 0 maxLen 0 0 with
    | Some runeEnd => if bool_decide (ending = []) then take runeEnd str else take runeEnd str ++ ending
    | None => str
    end.

Definition TruncateEllipsis : runes := [32; 8230].
Definition TruncateEllipsized (text : runes) (length : Z) : runes := Truncate text length TruncateEllipsis.

(** ** Lengths *)

Lemma scalar_cases r :
  scalar r →
  (RuneLen r = 1 ∧ encode_rune r = [r] ∧ is_high r = false ∧ is_low r = false) ∨
  (RuneLen r = 2 ∧ 65536 ≤ r < 1114112 ∧
   encode_rune r = [55296 + (r - 65536) / 1024; 56320 + (r - 65536) mod 1024]).
Proof.
  unfold scalar, RuneLen, encode_rune, is_high, is_low. intros Hr.
  destruct (decide (r < 65536)).
  - left. replace ((0 <=? r) && (r <? 55296) || (57344 <=? r) && (r <? 65536)) with true by lia.
    split_and!; [done|done|lia|lia].
  - right. replace ((0 <=? r) && (r <? 55296) || (57344 <=? r) && (r <? 65536)) with false by lia.
    replace ((65536 <=? r) && (r <? 1114112)) with true by lia. split_and!; [done|lia|lia|done].
Qed.

Lemma RuneLen_pos r : scalar r → 1 ≤ RuneLen r ≤ 2.
Proof. intros [[-> _]|[-> _]]%scalar_cases; lia. Qed.

Lemma count_foldl str n : foldl (λ n s, n + RuneLen s) n str = n + UTF16RuneCountString str.
Proof.
  unfold UTF16RuneCountString. revert n. induction str as [|r str IH]; intros n; cbn [foldl]; [lia|].
  rewrite IH, (IH (0 + RuneLen r)). lia.
Qed.

Lemma count_cons r str : UTF16RuneCountString (r :: str) = RuneLen r + UTF16RuneCountString str.
Proof. unfold UTF16RuneCountString. simpl. rewrite count_foldl. unfold UTF16RuneCountString. lia. Qed.

Lemma count_nil : UTF16RuneCountString [] = 0.
Proof. done. Qed.

Lemma count_app s t : UTF16RuneCountString (s ++ t) = UTF16RuneCountString s + UTF16RuneCountString t.
Proof. induction s as [|r s IH]; [done|]. cbn [app]. rewrite !count_cons, IH. lia. Qed.

Lemma count_nonneg str : Forall scalar str → 0 ≤ UTF16RuneCountString str.
Proof.
  induction 1 as [|r str Hr _ IH]; [done|]. rewrite count_cons. pose proof (RuneLen_pos r Hr). lia.
Qed.

Lemma Encode_length str : Forall scalar str → Z.of_nat (length (Encode str)) = UTF16RuneCountString str.
Proof.
  induction 1 as [|r str Hr _ IH]; [done|]. rewrite count_cons. simpl. rewrite length_app, Nat2Z.inj_add, IH.
  destruct (scalar_cases r Hr) as [(-> & -> & _)|(-> & _ & ->)]; simpl; lia.
Qed.

Lemma Decode_Encode str rest :
  Forall scalar str → Decode (Encode str ++ rest) = str ++ Decode rest.
Proof.
  induction 1 as [|r str Hr _ IH]; [done|].
  cbn [Encode flat_map]. fold (Encode str). rewrite <- app_assoc.
  destruct (scalar_cases r Hr) as [(_ & -> & Hh & Hl)|(_ & Hb & ->)].
  - cbn [app Decode]. by rewrite Hh, Hl, IH.
  - cbn [app Decode].
    pose proof (Z.mod_pos_bound (r - 65536) 1024). pose proof (Z.div_mod (r - 65536) 1024).
    assert (0 ≤ (r - 65536) / 1024 < 1024)
      by (split; [apply Z.div_pos; lia|apply Z.div_lt_upper_bound; lia]).
    unfold is_high, is_low.
    replace ((55296 <=? 55296 + (r - 65536) / 1024) && (55296 + (r - 65536) / 1024 <? 56320)) with true by lia.
    replace ((56320 <=? 56320 + (r - 65536) mod 1024) && (56320 + (r - 65536) mod 1024 <? 57344))
      with true by lia.
    rewrite IH. cbn [app]. f_equal. lia.
Qed.

Lemma UTF16_roundtrip str : Forall scalar str → UTF16ToStr (StrToUTF16 str) = str.
Proof.
  intros Hs. pose proof (Decode_Encode str [] Hs) as H. rewrite !app_nil_r in H. exact H.
Qed.

Lemma Encode_app s t : Encode (s ++ t) = Encode s ++ Encode t.
Proof. apply flat_map_app. Qed.

(** A position between two runes: splitting the units there splits the runes. *)
Definition boundary (str : runes) (pos : Z) : Prop :=
  ∃ l r, str = l ++ r ∧ UTF16RuneCountString l = pos.

Lemma boundary_take str pos :
  Forall scalar str → boundary str pos →
  ∃ l r, str = l ++ r ∧ UTF16RuneCountString l = pos ∧ Forall scalar l ∧ Forall scalar r ∧
    take (Z.to_nat pos) (StrToUTF16 str) = Encode l ∧ drop (Z.to_nat pos) (StrToUTF16 str) = Encode r.
Proof.
  intros Hs (l & r & -> & Hl). apply Forall_app in Hs as [Hsl Hsr]. exists l, r.
  pose proof (Encode_length l Hsl). unfold StrToUTF16. rewrite Encode_app.
  replace (Z.to_nat pos) with (length (Encode l)) by lia.
  rewrite take_app_length, drop_app_length. done.
Qed.

(** ** Truncation *)

Lemma utf16_le_loop_spec str n maxLen :
  Forall scalar str → n ≤ maxLen →
  utf16_le_loop str n maxLen = (n + UTF16RuneCountString str <=? maxLen).
Proof.
  intros Hs. revert n. induction Hs as [|r str Hr Hs IH]; intros n Hn; simpl.
  - unfold UTF16RuneCountString. simpl. lia.
  - rewrite count_cons. pose proof (RuneLen_pos r Hr). pose proof (count_nonneg str Hs).
    destruct (Z.ltb_spec maxLen (n + RuneLen r)); [lia|]. rewrite IH by lia. lia.
Qed.

Lemma short_spec str maxLen :
  Forall scalar str →
  isUtf16LengthLessOrEqual str maxLen = true ↔ str = [] ∨ UTF16RuneCountString str ≤ maxLen.
Proof.
  intros Hs. unfold isUtf16LengthLessOrEqual. destruct (decide (0 ≤ maxLen)).
  - rewrite utf16_le_loop_spec by done. split; [intros ?; right; lia|].
    intros [->|?]; [unfold UTF16RuneCountString; simpl; lia|lia].
  - destruct str as [|r str]; [simpl; naive_solver|]. apply Forall_cons in Hs as [Hr Hs].
    pose proof (RuneLen_pos r Hr). pose proof (count_nonneg str Hs). cbn [utf16_le_loop]. cbv zeta.
    destruct (Z.ltb_spec maxLen (0 + RuneLen r)); [|lia].
    split; [discriminate|]. intros [?|Hc]; [done|]. rewrite count_cons in Hc. lia.
Qed.

(** The cut is inside the text and what stays fits; a text that is too long is
    always cut. *)
Lemma truncate_loop_spec pre str maxLen lw ln :
  Forall scalar pre → Forall scalar str → (lw ≤ ln)%nat → (ln ≤ length pre)%nat →
  (0 ≤ maxLen → UTF16RuneCountString pre ≤ maxLen) →
  (maxLen < 0 → pre = []) →
  match truncate_loop str (length pre) (UTF16RuneCountString pre) maxLen lw ln with
  | Some n => (n ≤ length (pre ++ str))%nat ∧
              UTF16RuneCountString (take n (pre ++ str)) ≤ Z.max 0 maxLen
  | None => str = [] ∨ UTF16RuneCountString (pre ++ str) ≤ maxLen
  end.
Proof.
  intros Hp Hs. revert pre lw ln Hp. induction Hs as [|r str Hr Hs IH]; intros pre lw ln Hp Hw Hn H0 H1.
  { simpl. by left. }
  cbn [truncate_loop].
  set (lw' := if IsSpace r then ln else lw). set (ln' := if IsSpace r then ln else S (length pre)).
  replace (if IsSpace r then (ln, ln) else (lw, S (length pre))) with (lw', ln')
    by (subst lw' ln'; by destruct (IsSpace r)).
  assert (lw' ≤ ln')%nat by (subst lw' ln'; destruct (IsSpace r); lia).
  assert (ln' ≤ S (length pre))%nat by (subst ln'; destruct (IsSpace r); lia).
  assert (lw' ≤ length pre)%nat by (subst lw'; destruct (IsSpace r); lia).
  pose proof (RuneLen_pos r Hr).
  assert (UTF16RuneCountString (pre ++ [r]) = UTF16RuneCountString pre + RuneLen r) as Epre
    by (rewrite count_app, count_cons, count_nil; lia).
  destruct (Z.ltb_spec maxLen (UTF16RuneCountString pre + RuneLen r)).
  - set (n := if (lw' =? 0)%nat then length pre else lw').
    assert (n ≤ length pre)%nat by (subst n; case_match; lia).
    split; [rewrite length_app; lia|]. rewrite take_app_le by lia.
    rewrite <- (take_drop n pre) in H0. rewrite count_app in H0.
    assert (0 ≤ UTF16RuneCountString (drop n pre)) by (apply count_nonneg, Forall_drop, Hp).
    destruct (decide (0 ≤ maxLen)); [lia|]. rewrite H1 by lia. rewrite take_nil.
    unfold UTF16RuneCountString. simpl. lia.
  - specialize (IH (pre ++ [r]) lw' ln'). rewrite Epre in IH. rewrite length_app in IH. cbn [length] in IH.
    replace (length pre + 1)%nat with (S (length pre)) in IH by lia. rewrite <- app_assoc in IH. cbn [app] in IH.
    pose proof (count_nonneg pre Hp).
    specialize (IH ltac:(apply Forall_app; split; [done|by constructor]) ltac:(done) ltac:(done)
                   ltac:(intros; lia) ltac:(intros; lia)).
    destruct (truncate_loop _ _ _ _ _ _); [done|]. destruct IH as [->|?]; right; [|done].
    rewrite count_app, count_cons, count_nil. lia.
Qed.

Lemma count_zero str : Forall scalar str → UTF16RuneCountString str ≤ 0 → str = [].
Proof.
  destruct 1 as [|r str Hr Hs]; [done|]. rewrite count_cons. pose proof (RuneLen_pos r Hr). pose proof (count_nonneg str Hs). lia.
Qed.

(** C35. Truncation returns a text that fits unchanged, and otherwise a prefix of it
    followed by the ending, counting UTF-16 units as clients do: when the ending alone
    fits in the limit the result does too, and when it does not the result is the bare
    ending, which is longer than the limit. *)
Theorem Truncate_fits (str ending : runes) (maxLen : Z) :
  Forall scalar str → Forall scalar ending →
  (UTF16RuneCountString str ≤ maxLen → Truncate str maxLen ending = str) ∧
  (str ≠ [] → maxLen < UTF16RuneCountString str →
   ∃ n, Truncate str maxLen ending = take n str ++ ending ∧ (n ≤ length str)%nat ∧
        (UTF16RuneCountString ending ≤ maxLen → UTF16RuneCountString (Truncate str maxLen ending) ≤ maxLen) ∧
        (maxLen < UTF16RuneCountString ending → Truncate str maxLen ending = ending)).
Proof.
  intros Hs He. pose proof (count_nonneg ending He) as Hn.
  unfold Truncate. pose proof (short_spec str maxLen Hs) as Hshort. split.
  - intros Hle. destruct (isUtf16LengthLessOrEqual str maxLen); [done|]. naive_solver.
  - intros Hne Hlt. destruct (isUtf16LengthLessOrEqual str maxLen) eqn:E.
    { destruct (proj1 Hshort eq_refl); [done|lia]. }
    cbv zeta. set (max' := maxLen - UTF16RuneCountString ending).
    pose proof (truncate_loop_spec [] str max' 0 0) as Hl.
    change (UTF16RuneCountString []) with 0 in Hl. cbn [length app] in Hl.
    specialize (Hl ltac:(constructor) Hs ltac:(lia) ltac:(lia) ltac:(done) ltac:(done)).
    destruct (truncate_loop str 0 0 max' 0 0) as [n|].
    + destruct Hl as [Hlen Hc]. exists n.
      assert ((if bool_decide (ending = []) then take n str else take n str ++ ending) = take n str ++ ending)
        as -> by (case_bool_decide as Eb; [by rewrite Eb, app_nil_r|done]).
      assert (UTF16RuneCountString (take n str) ≤ Z.max max' 0) as Htake by (subst max'; lia).
      split_and!; [done|done|rewrite count_app; subst max'; lia|]. intros Hlong.
      rewrite (count_zero (take n str)); [done|by apply Forall_take|]. subst max'. lia.
    + destruct Hl as [?|?]; [done|]. subst max'. lia.
Qed.

Lemma Truncate_fits_witness :
  let str := [104; 101; 108; 108; 111; 32; 128512; 128512] in
  Truncate str 8 TruncateEllipsis = [104; 101; 108; 108; 111] ++ TruncateEllipsis ∧
  ∃ n, Truncate str 8 TruncateEllipsis = take n str ++ TruncateEllipsis ∧ (n ≤ length str)%nat ∧
       (UTF16RuneCountString TruncateEllipsis ≤ 8 → UTF16RuneCountString (Truncate str 8 TruncateEllipsis) ≤ 8) ∧
       (8 < UTF16RuneCountString TruncateEllipsis → Truncate str 8 TruncateEllipsis = TruncateEllipsis).
Proof.
  intros str. split; [reflexivity|].
  apply (Truncate_fits str TruncateEllipsis 8); try done; repeat constructor; unfold scalar; lia.
Defined.
