(* ===== verification/TextBlock.v ===== *)
(** * Text blocks ([core/block/simple/text/text.go], [utils.go])

    The content of a text block with its inline marks.  Positions are [int32]
    offsets in UTF-16 units; arithmetic on them wraps ([i32]).  Marks always have
    a range here (the code dereferences it).  [sort.Sort] is any function that
    returns a sorted permutation, since it is not stable.  The normalisation of
    links ([util/uri]) is a parameter. *)

From S2P Require Import Prelude Text.

Local Open Scope Z_scope.

(** ** Data *)

Record Mark := { mk_Type : Z; mk_Param : string; mk_From : Z; mk_To : Z }.

#[export] Instance Mark_eq_dec : EqDecision Mark.
Proof. solve_decision. Defined.

Definition Mark_Bold : Z := 3.
Definition Mark_Link : Z := 5.
Definition Mark_Mention : Z := 8.
Definition Mark_Object : Z := 10.
Definition Style_Paragraph : Z := 0.
Definition Style_Code : Z := 6.

Record TextBlock := {
  tb_Text : runes;
  tb_Style : Z;
  tb_Marks : list Mark;
  tb_Checked : bool;
  tb_Color : string;
  tb_IconEmoji : string;
  tb_IconImage : string;
  tb_BackgroundColor : string;
  tb_Align : Z;
  tb_VerticalAlign : Z;
}.

Definition with_text (t : TextBlock) (text : runes) : TextBlock :=
  {| tb_Text := text; tb_Style := tb_Style t; tb_Marks := tb_Marks t; tb_Checked := tb_Checked t;
     tb_Color := tb_Color t; tb_IconEmoji := tb_IconEmoji t; tb_IconImage := tb_IconImage t;
     tb_BackgroundColor := tb_BackgroundColor t; tb_Align := tb_Align t; tb_VerticalAlign := tb_VerticalAlign t |}.
Definition with_marks (t : TextBlock) (marks : list Mark) : TextBlock :=
  {| tb_Text := tb_Text t; tb_Style := tb_Style t; tb_Marks := marks; tb_Checked := tb_Checked t;
     tb_Color := tb_Color t; tb_IconEmoji := tb_IconEmoji t; tb_IconImage := tb_IconImage t;
     tb_BackgroundColor := tb_BackgroundColor t; tb_Align := tb_Align t; tb_VerticalAlign := tb_VerticalAlign t |}.
Definition with_style (t : TextBlock) (style : Z) : TextBlock :=
  {| tb_Text := tb_Text t; tb_Style := style; tb_Marks := tb_Marks t; tb_Checked := tb_Checked t;
     tb_Color := tb_Color t; tb_IconEmoji := tb_IconEmoji t; tb_IconImage := tb_IconImage t;
     tb_BackgroundColor := tb_BackgroundColor t; tb_Align := tb_Align t; tb_VerticalAlign := tb_VerticalAlign t |}.
Definition with_checked (t : TextBlock) (v : bool) : TextBlock :=
  {| tb_Text := tb_Text t; tb_Style := tb_Style t; tb_Marks := tb_Marks t; tb_Checked := v;
     tb_Color := tb_Color t; tb_IconEmoji := tb_IconEmoji t; tb_IconImage := tb_IconImage t;
     tb_BackgroundColor := tb_BackgroundColor t; tb_Align := tb_Align t; tb_VerticalAlign := tb_VerticalAlign t |}.
Definition with_color (t : TextBlock) (color : string) : TextBlock :=
  {| tb_Text := tb_Text t; tb_Style := tb_Style t; tb_Marks := tb_Marks t; tb_Checked := tb_Checked t;
     tb_Color := color; tb_IconEmoji := tb_IconEmoji t; tb_IconImage := tb_IconImage t;
     tb_BackgroundColor := tb_BackgroundColor t; tb_Align := tb_Align t; tb_VerticalAlign := tb_VerticalAlign t |}.
Definition with_emoji (t : TextBlock) (emoji : string) : TextBlock :=
  {| tb_Text := tb_Text t; tb_Style := tb_Style t; tb_Marks := tb_Marks t; tb_Checked := tb_Checked t;
     tb_Color := tb_Color t; tb_IconEmoji := emoji; tb_IconImage := tb_IconImage t;
     tb_BackgroundColor := tb_BackgroundColor t; tb_Align := tb_Align t; tb_VerticalAlign := tb_VerticalAlign t |}.
Definition with_image (t : TextBlock) (image : string) : TextBlock :=
  {| tb_Text := tb_Text t; tb_Style := tb_Style t; tb_Marks := tb_Marks t; tb_Checked := tb_Checked t;
     tb_Color := tb_Color t; tb_IconEmoji := tb_IconEmoji t; tb_IconImage := image;
     tb_BackgroundColor := tb_BackgroundColor t; tb_Align := tb_Align t; tb_VerticalAlign := tb_VerticalAlign t |}.
Definition with_background (t : TextBlock) (color : string) : TextBlock :=
  {| tb_Text := tb_Text t; tb_Style := tb_Style t; tb_Marks := tb_Marks t; tb_Checked := tb_Checked t;
     tb_Color := tb_Color t; tb_IconEmoji := tb_IconEmoji t; tb_IconImage := tb_IconImage t;
     tb_BackgroundColor := color; tb_Align := tb_Align t; tb_VerticalAlign := tb_VerticalAlign t |}.

(** A new block made from text content; fields that are not given are zero. *)
Definition new_text_block (text : runes) (style : Z) (marks : list Mark) (checked : bool)
    (color background : string) (align : Z) : TextBlock :=
  {| tb_Text := text; tb_Style := style; tb_Marks := marks; tb_Checked := checked; tb_Color := color;
     tb_IconEmoji := ""; tb_IconImage := ""; tb_BackgroundColor := background; tb_Align := align;
     tb_VerticalAlign := 0 |}.

Definition text_len (t : TextBlock) : Z := UTF16RuneCountString (tb_Text t).

(** ** Sorting marks ([utils.go]) *)

(** [sortedMarks.Less] and its reflexive closure. *)
Definition marks_Less (a b : Mark) : bool :=
  if mk_Type a =? mk_Type b then mk_From a <? mk_From b else mk_Type a <? mk_Type b.
Definition marks_le (a b : Mark) : Prop := marks_Less b a = false.

Class SortMarks := sort_marks : list Mark → list Mark.
Class SortMarksOk `{!SortMarks} := {
  sort_marks_perm l : sort_marks l ≡ₚ l;
  sort_marks_sorted l : StronglySorted marks_le (sort_marks l);
}.

Definition markEq (m1 m2 : Mark) : bool :=
  if negb (mk_Type m1 =? mk_Type m2) then false
  else if negb (bool_decide (mk_Param m1 = mk_Param m2)) then false
  else if negb ((mk_From m1 =? mk_From m2) && (mk_To m1 =? mk_To m2)) then false
  else true.

(** Both slices are sorted in place when they have the same length. *)
Definition marksEq `{!SortMarks} (s1 s2 : list Mark) : bool * list Mark * list Mark :=
  if negb (Z.of_nat (length s1) =? Z.of_nat (length s2)) then (false, s1, s2)
  else
    let s1 := sort_marks s1 in
    let s2 := sort_marks s2 in
    (forallb (λ '(v, w), markEq v w) (zip s1 s2), s1, s2).

(** ** Normalisation *)

Definition mergeable (m sm : Mark) : bool :=
  (mk_Type m =? mk_Type sm) && bool_decide (mk_Param m = mk_Param sm) && (mk_From sm <=? mk_To m).

Definition with_to (m : Mark) (to : Z) : Mark :=
  {| mk_Type := mk_Type m; mk_Param := mk_Param m; mk_From := mk_From m; mk_To := to |}.

(** The loop over the index; a merge shortens the slice and restarts at 0. *)
Fixpoint normalize_loop (fuel : nat) (i : nat) (marks : list Mark) : option (list Mark) :=
  match fuel with
  | O => None
  | S fuel =>
      if (length marks <=? i)%nat then Some marks
      else if (i + 1 =? length marks)%nat then Some marks
      else
        match marks !! i, marks !! (i + 1)%nat with
        | Some m, Some sm =>
            if mergeable m sm
            then normalize_loop fuel 0 (take i marks ++ with_to m (mk_To sm) :: drop (i + 2) marks)
            else normalize_loop fuel (S i) marks
        | _, _ => Some marks
        end
  end.

Definition normalize_fuel (n : nat) : nat := (S n * S n + 1)%nat.

Definition normalizeMarksPure `{!SortMarks} (marks : list Mark) : list Mark :=
  let outputMarks := sort_marks marks in
  default outputMarks (normalize_loop (normalize_fuel (length outputMarks)) 0 outputMarks).

Definition normalizeMarks `{!SortMarks} (t : TextBlock) : TextBlock :=
  with_marks t (normalizeMarksPure (tb_Marks t)).

(** ** Splitting marks *)

Definition mk_mark (m : Mark) (from to : Z) : Mark :=
  {| mk_Type := mk_Type m; mk_Param := mk_Param m; mk_From := from; mk_To := to |}.

(** One iteration: the marks appended to the top and to the bottom. *)
Definition split_mark (rFrom rTo newTextLen : Z) (m : Mark) : list Mark * list Mark :=
  let from := mk_From m in
  let to := mk_To m in
  let shift x := i32 (i32 (x - i32 (rTo - rFrom)) + newTextLen) in
  if (from <? rFrom) && (to <=? rFrom) then ([mk_mark m from to], [])
  else if (from <? rFrom) && (rFrom <? to) && (to <? rTo) then ([mk_mark m from rFrom], [])
  else if (rFrom <=? from) && (to <=? rTo) then ([], [])
  else if (from <? rFrom) && (rTo <? to) then
    ([mk_mark m from rFrom], [mk_mark m (i32 (rFrom + newTextLen)) (shift to)])
  else if rTo <=? from then ([], [mk_mark m (shift from) (shift to)])
  else if (rFrom <=? from) && (rTo <=? to) then ([], [mk_mark m (i32 (rFrom + newTextLen)) (shift to)])
  else if (from <? rFrom) && (rFrom <? to) && (to <=? rTo) then ([mk_mark m from rFrom], [])
  else if from <? rTo then ([mk_mark m (i32 (rFrom + newTextLen)) (shift to)], [])
  else ([], []).

Definition splitMarks (marks : list Mark) (rFrom rTo newTextLen : Z) : list Mark * list Mark :=
  foldl (λ '(top, bot) m, let '(t, b) := split_mark rFrom rTo newTextLen m in (top ++ t, bot ++ b))
        ([], []) marks.

Definition SplitMarks (t : TextBlock) (rFrom rTo : Z) (newMarks : list Mark) (newText : runes) : list Mark :=
  let addLen := i32 (UTF16RuneCountString newText) in
  let '(leftMarks, rightMarks) := splitMarks (tb_Marks t) rFrom rTo addLen in
  map (λ m, mk_mark m (i32 (mk_From m + rFrom)) (i32 (mk_To m + rFrom))) newMarks ++ leftMarks ++ rightMarks.

(** ** Operations on the block *)

Definition ErrOutOfRange : string := "out of range".

Definition SetStyle (t : TextBlock) (style : Z) : TextBlock := with_style t style.
Definition SetChecked (t : TextBlock) (v : bool) : TextBlock := with_checked t v.
Definition GetChecked (t : TextBlock) : bool := tb_Checked t.
Definition SetTextColor (t : TextBlock) (color : string) : TextBlock := with_color t color.
Definition SetIconEmoji (t : TextBlock) (emoji : string) : TextBlock := with_emoji t emoji.
Definition SetIconImage (t : TextBlock) (imageHash : string) : TextBlock := with_image t imageHash.
Definition GetText (t : TextBlock) : runes := tb_Text t.

Definition FillFileHashes (t : TextBlock) (hashes : list string) : list string :=
  if negb (bool_decide (tb_IconImage t = "")) then hashes ++ [tb_IconImage t] else hashes.

Definition is_smart (m : Mark) : bool := (mk_Type m =? Mark_Mention) || (mk_Type m =? Mark_Object).

Definition ReplaceLinkIds (replacer : string → string) (t : TextBlock) : TextBlock :=
  with_marks t (map (λ m, if is_smart m && negb (bool_decide (mk_Param m = ""))
                          then {| mk_Type := mk_Type m; mk_Param := replacer (mk_Param m);
                                  mk_From := mk_From m; mk_To := mk_To m |}
                          else m) (tb_Marks t)).

Definition MigrateFile (migrateFunc : string → string) (t : TextBlock) : TextBlock :=
  let t := if negb (bool_decide (tb_IconImage t = "")) then with_image t (migrateFunc (tb_IconImage t)) else t in
  ReplaceLinkIds migrateFunc t.

Definition FillSmartIds (t : TextBlock) (ids : list string) : list string :=
  foldl (λ ids m, if is_smart m && negb (bool_decide (mk_Param m = "")) then ids ++ [mk_Param m] else ids)
        ids (tb_Marks t).

Definition HasSmartIds (t : TextBlock) : bool := existsb is_smart (tb_Marks t).

Definition isIncompatibleType (firstType secondType : Z) : bool :=
  ((firstType =? Mark_Link) && (secondType =? Mark_Object))
  || ((secondType =? Mark_Link) && (firstType =? Mark_Object)).

Definition SetMarkForAllText (t : TextBlock) (mark : Mark) : TextBlock :=
  let to := i32 (text_len t) in
  let filteredMarks :=
    foldl (λ acc m, if negb (mk_Type m =? mk_Type mark) && negb (isIncompatibleType (mk_Type m) (mk_Type mark))
                    then acc ++ [m] else acc) [] (tb_Marks t) in
  with_marks t (filteredMarks ++ [mk_mark mark 0 to]).

Definition RemoveMarkType (t : TextBlock) (markType : Z) : TextBlock :=
  with_marks t (foldl (λ acc m, if negb (mk_Type m =? markType) then acc ++ [m] else acc) [] (tb_Marks t)).

Definition HasMarkForAllText (t : TextBlock) (mark : Mark) : bool :=
  let to := i32 (text_len t) in
  existsb (λ m, (mk_Type m =? mk_Type mark) && bool_decide (mk_Param m = mk_Param mark)
                && ((mk_From m =? 0) && (to <=? mk_To m))) (tb_Marks t).

Definition IsEmpty (t : TextBlock) : bool :=
  bool_decide (tb_Text t = []) && negb (tb_Checked t) && bool_decide (tb_Color t = "")
  && (tb_Style t =? 0) && bool_decide (tb_IconEmoji t = "") && bool_decide (tb_IconImage t = "")
  && bool_decide (tb_Marks t = []) && bool_decide (tb_BackgroundColor t = "")
  && (tb_Align t =? 0) && (tb_VerticalAlign t =? 0).

Section text_ops.
Context `{!SortMarks}.

(** [marks = None] is the nil pointer. *)
Definition SetText (NormalizeURI : string → res string) (t : TextBlock) (text : runes)
    (marks : option (list Mark)) : TextBlock :=
  let marks := match marks with
               | None => []
               | Some marks =>
                   map (λ m, if mk_Type m =? Mark_Link then
                               match NormalizeURI (mk_Param m) with
                               | Ok p => {| mk_Type := mk_Type m; mk_Param := p; mk_From := mk_From m; mk_To := mk_To m |}
                               | Err _ => m
                               end
                             else m) marks
               end in
  normalizeMarks (with_marks (with_text t text) marks).

(** One iteration of [Split]: the marks of the new and of the old part. *)
Definition split_at (pos : Z) (m : Mark) : list Mark * list Mark :=
  if pos <=? mk_From m then ([mk_mark m (i32 (mk_From m - pos)) (i32 (mk_To m - pos))], [])
  else if mk_To m <=? pos then ([], [m])
  else ([mk_mark m 0 (i32 (mk_To m - pos))], [with_to m pos]).

(** Returns the new block (the text before [pos]) and the rest of the receiver. *)
Definition Split (t : TextBlock) (pos : Z) : res (TextBlock * TextBlock) :=
  if (pos <? 0) || (text_len t <? pos) then Err ErrOutOfRange
  else
    let units := StrToUTF16 (tb_Text t) in
    let '(newMarks, oldMarks) :=
      foldl (λ '(nm, om) m, let '(a, b) := split_at pos m in (nm ++ a, om ++ b)) ([], []) (tb_Marks t) in
    let newBlock := new_text_block (UTF16ToStr (take (Z.to_nat pos) units)) (tb_Style t) oldMarks
                      (tb_Checked t) (tb_Color t) (tb_BackgroundColor t) (tb_Align t) in
    Ok (newBlock, with_marks (with_text t (UTF16ToStr (drop (Z.to_nat pos) units))) newMarks).

Definition check_range (t : TextBlock) (from to : Z) : bool :=
  (0 <=? from) && (from <=? text_len t) && (0 <=? to) && (to <=? text_len t) && (from <=? to).

Definition subunits (t : TextBlock) (from to : Z) : list Z :=
  take (Z.to_nat (to - from)) (drop (Z.to_nat from) (StrToUTF16 (tb_Text t))).

Definition RangeSplit (t : TextBlock) (from to : Z) (top : bool) : res (TextBlock * TextBlock) :=
  if negb (check_range t from to) then Err ErrOutOfRange
  else
    let units := StrToUTF16 (tb_Text t) in
    let '(old, new) := splitMarks (tb_Marks t) from to 0 in
    let oldMarks := normalizeMarksPure old in
    let newMarks := map (λ m, mk_mark m (i32 (mk_From m - from)) (i32 (mk_To m - from))) (normalizeMarksPure new) in
    let background := if tb_Style t =? Style_Code then "" else tb_BackgroundColor t in
    let before := UTF16ToStr (take (Z.to_nat from) units) in
    let after := UTF16ToStr (drop (Z.to_nat to) units) in
    if top then
      Ok (new_text_block before (tb_Style t) oldMarks false (tb_Color t) background (tb_Align t),
          with_checked (with_marks (with_text t after) newMarks) false)
    else
      Ok (new_text_block after (tb_Style t) newMarks false (tb_Color t) background (tb_Align t),
          with_marks (with_text t before) oldMarks).

(** Returns the cut part and what is left; the cut part's marks keep their
    offsets in the original text. *)
Definition RangeCut (t : TextBlock) (from to : Z) : res (TextBlock * TextBlock) :=
  if negb (check_range t from to) then Err ErrOutOfRange
  else
    let units := StrToUTF16 (tb_Text t) in
    let '(cut, _) := splitMarks (tb_Marks t) to to 0 in
    let '(_, cut) := splitMarks cut from from 0 in
    let initial := UTF16ToStr (take (Z.to_nat from) units) ++ UTF16ToStr (drop (Z.to_nat to) units) in
    Ok (with_marks (with_text t (UTF16ToStr (subunits t from to))) cut,
        with_marks (with_text t initial) (SplitMarks t from to [] [])).

Definition RangeTextPaste (t : TextBlock) (rangeFrom rangeTo : Z) (copied : TextBlock) (copyStyle : bool)
    : res (TextBlock * Z) :=
  let copyFrom := 0 in
  let copyTo := i32 (text_len copied) in
  let textLen := text_len t in
  if (rangeFrom <? 0) || (textLen <? rangeFrom) then Err "out of range: range.from is not correct"
  else if (rangeTo <? 0) || (textLen <? rangeTo) then Err "out of range: range.to is not correct"
  else if rangeTo <? rangeFrom then Err "out of range: range.from > range.to"
  else
    let ifFullTextCopied := (rangeFrom =? 0) && (rangeTo =? i32 textLen) in
    let isFullReplace := ifFullTextCopied && (0 <? textLen) in
    let isPlaceInEmptyParagraph := ifFullTextCopied && (textLen =? 0) && (tb_Style t =? Style_Paragraph) in
    let t := if (isFullReplace || isPlaceInEmptyParagraph) && copyStyle
             then with_background (with_color (with_style t (tb_Style copied)) (tb_Color copied))
                    (tb_BackgroundColor copied)
             else t in
    let '(marks, _) := splitMarks (tb_Marks copied) copyTo copyTo 0 in
    let '(_, marks) := splitMarks marks copyFrom copyFrom 0 in
    let marks := map (λ m, mk_mark m (i32 (mk_From m - copyFrom)) (i32 (mk_To m - copyFrom))) marks in
    let units := StrToUTF16 (tb_Text t) in
    let first := take (Z.to_nat rangeFrom) units in
    let middle := subunits copied copyFrom copyTo in
    let last := drop (Z.to_nat rangeTo) units in
    let combined := SplitMarks t rangeFrom rangeTo marks (UTF16ToStr middle) in
    let t := with_marks t (normalizeMarksPure combined) in
    Ok (with_text t (UTF16ToStr first ++ UTF16ToStr middle ++ UTF16ToStr last),
        i32 (rangeFrom + i32 (copyTo - copyFrom))).

(** What the clipboard does with the parts of a cut ([clipboard.go], [Cut]): the
    block keeps the rest of the text and the cut part's marks are moved to its
    own start. *)
Definition clipboard_cut (NormalizeURI : string → res string) (t : TextBlock) (from to : Z)
    : res (TextBlock * TextBlock) :=
  match RangeCut t from to with
  | Err e => Err e
  | Ok (cutBlock, initialBlock) =>
      Ok (with_marks cutBlock
            (map (λ m, mk_mark m (i32 (mk_From m - from)) (i32 (mk_To m - from))) (tb_Marks cutBlock)),
          SetText NormalizeURI t (tb_Text initialBlock) (Some (tb_Marks initialBlock)))
  end.

(** [b = None] is a block that is not a plain text block.  The style is adopted
    before the type of the argument is checked; [None] is the resulting panic. *)
Definition Merge (t : TextBlock) (b : option TextBlock) (dontSetStyle : bool) : option (res TextBlock) :=
  let adopt := negb dontSetStyle && bool_decide (tb_Text t = []) && (tb_Style t =? 0) in
  match b with
  | None => if adopt then None else Some (Err "unexpected block type for merge")
  | Some text =>
      let t := if adopt then with_background (SetStyle t (tb_Style text)) (tb_BackgroundColor text) else t in
      let curLen := i32 (text_len t) in
      let marks := tb_Marks t ++
        map (λ m, mk_mark m (i32 (mk_From m + curLen)) (i32 (mk_To m + curLen))) (tb_Marks text) in
      Some (Ok (normalizeMarks (with_marks (with_text t (tb_Text t ++ tb_Text text)) marks)))
  end.

(** ** Differences *)

(** [EventBlockSetText]: a field that is nil does not change. *)
Record SetTextEvent := {
  ev_Text : option runes;
  ev_Style : option Z;
  ev_Marks : option (list Mark);
  ev_Checked : option bool;
  ev_Color : option string;
  ev_IconImage : option string;
  ev_IconEmoji : option string;
}.

Definition changed {A} `{EqDecision A} (old new : A) : option A :=
  if negb (bool_decide (old = new)) then Some new else None.

(** The part of [Diff] about the text content, with the two blocks as the
    comparison of the marks leaves them. *)
Definition Diff (t text : TextBlock) : option SetTextEvent * TextBlock * TextBlock :=
  let '(eq, m1, m2) := marksEq (tb_Marks t) (tb_Marks text) in
  let ev := {| ev_Text := changed (tb_Text t) (tb_Text text);
               ev_Style := changed (tb_Style t) (tb_Style text);
               ev_Checked := changed (tb_Checked t) (tb_Checked text);
               ev_Marks := if negb eq then Some m2 else None;
               ev_Color := changed (tb_Color t) (tb_Color text);
               ev_IconImage := changed (tb_IconImage t) (tb_IconImage text);
               ev_IconEmoji := changed (tb_IconEmoji t) (tb_IconEmoji text) |} in
  let hasChanges := bool_decide (is_Some (ev_Text ev)) || bool_decide (is_Some (ev_Style ev))
    || bool_decide (is_Some (ev_Checked ev)) || bool_decide (is_Some (ev_Marks ev))
    || bool_decide (is_Some (ev_Color ev)) || bool_decide (is_Some (ev_IconImage ev))
    || bool_decide (is_Some (ev_IconEmoji ev)) in
  (if hasChanges then Some ev else None, with_marks t m1, with_marks text m2).

Definition ApplyEvent (t : TextBlock) (e : SetTextEvent) : TextBlock :=
  let t := match ev_Style e with Some v => with_style t v | None => t end in
  let t := match ev_Text e with Some v => with_text t v | None => t end in
  let t := match ev_Marks e with Some v => with_marks t v | None => t end in
  let t := match ev_Checked e with Some v => with_checked t v | None => t end in
  let t := match ev_Color e with Some v => with_color t v | None => t end in
  let t := match ev_IconImage e with Some v => with_image t v | None => t end in
  match ev_IconEmoji e with Some v => with_emoji t v | None => t end.
End text_ops.

(** ** What marks cover *)

Definition mark_covers (m : Mark) (ty : Z) (p : string) (k : Z) : Prop :=
  mk_Type m = ty ∧ mk_Param m = p ∧ mk_From m ≤ k < mk_To m.

(** Some mark of this type and parameter covers the unit at offset [k]. *)
Definition covers (ms : list Mark) (ty : Z) (p : string) (k : Z) : Prop :=
  ∃ m, m ∈ ms ∧ mark_covers m ty p k.

Lemma covers_nil ty p k : ¬ covers [] ty p k.
Proof. intros (m & Hm & _). by apply elem_of_nil in Hm. Qed.

Lemma covers_cons m ms ty p k : covers (m :: ms) ty p k ↔ mark_covers m ty p k ∨ covers ms ty p k.
Proof.
  unfold covers. setoid_rewrite elem_of_cons. split.
  - intros (x & [->|Hx] & Hc); eauto.
  - intros [Hc|(x & Hx & Hc)]; eauto.
Qed.

Lemma covers_app l1 l2 ty p k : covers (l1 ++ l2) ty p k ↔ covers l1 ty p k ∨ covers l2 ty p k.
Proof.
  induction l1 as [|m l1 IH]; simpl.
  - split; [by right|]. intros [H|H]; [by apply covers_nil in H|done].
  - rewrite !covers_cons, IH. tauto.
Qed.

Lemma covers_perm l1 l2 ty p k : l1 ≡ₚ l2 → covers l1 ty p k ↔ covers l2 ty p k.
Proof. intros Hp. unfold covers. by setoid_rewrite Hp. Qed.

Lemma covers_singleton m ty p k : covers [m] ty p k ↔ mark_covers m ty p k.
Proof. rewrite covers_cons. split; [intros [?|?%covers_nil]; done|by left]. Qed.

Lemma covers_nil_iff ty p k : covers [] ty p k ↔ False.
Proof. split; [apply covers_nil|done]. Qed.

(** Offsets small enough that no arithmetic on them wraps. *)
Definition max_off : Z := 2 ^ 30.
Definition off_ok (x : Z) : Prop := 0 ≤ x < max_off.
Definition mark_ok (m : Mark) : Prop := off_ok (mk_From m) ∧ off_ok (mk_To m).

Lemma i32_small x : - max_off ≤ x < 2 * max_off → i32 x = x.
Proof. unfold max_off. intros. apply i32_id. unfold in_i32. lia. Qed.

(** Distributing a function over the marks, in both splitting loops. *)
Lemma foldl_pairs (f : Mark → list Mark * list Mark) ms a b :
  foldl (λ '(x, y) m, let '(t, u) := f m in (x ++ t, y ++ u)) (a, b) ms =
  (a ++ flat_map (λ m, (f m).1) ms, b ++ flat_map (λ m, (f m).2) ms).
Proof.
  revert a b. induction ms as [|m ms IH]; intros a b; simpl; [by rewrite !app_nil_r|].
  destruct (f m) as [t u]. rewrite IH. simpl. by rewrite <- !app_assoc.
Qed.

Lemma covers_flat_map (f : Mark → list Mark) ms ty p k :
  covers (flat_map f ms) ty p k ↔ ∃ m, m ∈ ms ∧ covers (f m) ty p k.
Proof.
  induction ms as [|m ms IH]; simpl.
  - split; [intros H; by apply covers_nil in H|]. intros (m & Hm & _). by apply elem_of_nil in Hm.
  - rewrite covers_app, IH. setoid_rewrite elem_of_cons. naive_solver.
Qed.

Lemma covers_map_mark (f g : Z → Z) ms ty p k k' :
  (∀ m, m ∈ ms → (f (mk_From m) ≤ k < g (mk_To m)) ↔ (mk_From m ≤ k' < mk_To m)) →
  covers (map (λ m, mk_mark m (f (mk_From m)) (g (mk_To m))) ms) ty p k ↔ covers ms ty p k'.
Proof.
  induction ms as [|m ms IH]; intros Hm; simpl; [by split; intros ?%covers_nil|].
  rewrite !covers_cons, IH by (intros x Hx; apply Hm; by right).
  unfold mark_covers. simpl. specialize (Hm m ltac:(by left)). tauto.
Qed.

(** ** Splitting follows the text *)

Lemma split_mark_covers rFrom rTo n m ty p k :
  off_ok rFrom → off_ok rTo → off_ok n → rFrom ≤ rTo → mark_ok m →
  (covers (split_mark rFrom rTo n m).1 ty p k ↔ mark_covers m ty p k ∧ k < rFrom) ∧
  (covers (split_mark rFrom rTo n m).2 ty p k ↔
     rFrom + n ≤ k ∧ mark_covers m ty p (k - n + (rTo - rFrom))).
Proof.
  unfold mark_ok, off_ok, max_off. intros Hf Ht Hn Hle [Hmf Hmt]. unfold split_mark.
  destruct m as [ty' p' from to]. cbn [mk_From mk_To] in *.
  assert (∀ x, off_ok x → rTo ≤ x →
    i32 (i32 (x - i32 (rTo - rFrom)) + n) = x - (rTo - rFrom) + n) as Hshift.
  { unfold off_ok, max_off. intros x Hx Hx'.
    rewrite (i32_small (rTo - rFrom)), (i32_small (x - _)), i32_small; unfold max_off; lia. }
  rewrite (i32_small (rFrom + n)) by (unfold max_off; lia). unfold off_ok, max_off in Hshift.
  destruct (Z.ltb_spec from rFrom), (Z.leb_spec to rFrom), (Z.ltb_spec rFrom to), (Z.ltb_spec to rTo),
    (Z.leb_spec rFrom from), (Z.leb_spec to rTo), (Z.ltb_spec rTo to), (Z.leb_spec rTo from),
    (Z.leb_spec rTo to), (Z.ltb_spec from rTo); try lia; cbn [andb fst snd];
    rewrite ?covers_singleton, ?covers_nil_iff; unfold mark_covers;
    cbn [mk_mark mk_Type mk_Param mk_From mk_To]; rewrite ?Hshift by lia; clear Hshift; intuition lia.
Qed.

Lemma splitMarks_flat ms rFrom rTo n :
  splitMarks ms rFrom rTo n =
    (flat_map (λ m, (split_mark rFrom rTo n m).1) ms, flat_map (λ m, (split_mark rFrom rTo n m).2) ms).
Proof. unfold splitMarks. by rewrite foldl_pairs. Qed.

Lemma splitMarks_covers_aux ms rFrom rTo n ty p k :
  off_ok rFrom → off_ok rTo → off_ok n → rFrom ≤ rTo → Forall mark_ok ms →
  (covers (splitMarks ms rFrom rTo n).1 ty p k ↔ covers ms ty p k ∧ k < rFrom) ∧
  (covers (splitMarks ms rFrom rTo n).2 ty p k ↔ rFrom + n ≤ k ∧ covers ms ty p (k - n + (rTo - rFrom))).
Proof.
  intros Hf Ht Hn Hle Hms. rewrite splitMarks_flat. cbn [fst snd]. rewrite !covers_flat_map.
  rewrite Forall_forall in Hms. unfold covers at 2 4. split.
  - split.
    + intros (m & Hm & Hc). apply split_mark_covers in Hc as [? ?]; auto. split; eauto.
    + intros [(m & Hm & Hc) Hk]. exists m. split; [done|]. apply split_mark_covers; auto.
  - split.
    + intros (m & Hm & Hc). apply split_mark_covers in Hc as [? ?]; auto. split; eauto.
    + intros [Hk (m & Hm & Hc)]. exists m. split; [done|]. apply split_mark_covers; auto.
Qed.

(** ** The normalisation loop *)

(** What holds of the list and survives a merge holds of the result; the result
    has no neighbours to merge; the fuel is enough. *)
Lemma normalize_loop_spec (I : list Mark → Prop) fuel i ms :
  (∀ l1 m sm l2, I (l1 ++ m :: sm :: l2) → mergeable m sm = true →
     I (l1 ++ with_to m (mk_To sm) :: l2)) →
  (length ms * length ms + length ms - i < fuel)%nat → (i ≤ length ms)%nat →
  (∀ l1 m sm l2, ms = l1 ++ m :: sm :: l2 → (length l1 < i)%nat → mergeable m sm = false) →
  I ms →
  ∃ r, normalize_loop fuel i ms = Some r ∧ I r ∧
    ∀ l1 m sm l2, r = l1 ++ m :: sm :: l2 → mergeable m sm = false.
Proof.
  intros Hstep. revert i ms. induction fuel as [|fuel IH]; intros i ms Hf Hi Hpre HI; [lia|].
  cbn [normalize_loop]. destruct (Nat.leb_spec (length ms) i).
  { exists ms. split_and!; [done..|]. intros l1 m sm l2 E. apply (Hpre l1 m sm l2 E).
    rewrite E, length_app in H. simpl in H. lia. }
  destruct (Nat.eqb_spec (i + 1) (length ms)) as [E1|E1].
  { exists ms. split_and!; [done..|]. intros l1 m sm l2 E. apply (Hpre l1 m sm l2 E).
    rewrite E, length_app in E1. simpl in E1. lia. }
  destruct (lookup_lt_is_Some_2 ms i) as [m Hm]; [lia|].
  destruct (lookup_lt_is_Some_2 ms (i + 1)) as [sm Hsm]; [lia|]. rewrite Hm, Hsm.
  assert (ms = take i ms ++ m :: sm :: drop (i + 2) ms) as Ems.
  { rewrite <- (take_drop i ms) at 1. f_equal. rewrite (drop_S _ _ _ Hm). f_equal.
    replace (S i) with (i + 1)%nat by lia. rewrite (drop_S _ _ _ Hsm). do 2 f_equal. lia. }
  assert (length (take i ms) = i) as Elen by (rewrite length_take; lia).
  destruct (mergeable m sm) eqn:Emg.
  - assert (length (take i ms ++ with_to m (mk_To sm) :: drop (i + 2) ms) = length ms - 1)%nat as El.
    { rewrite length_app, Elen. simpl. rewrite length_drop. lia. }
    apply IH; rewrite ?El; [nia|lia|intros; lia|]. apply (Hstep _ m sm); [|done]. by rewrite <- Ems.
  - apply IH; [nia|lia| |done]. intros l1 m' sm' l2 E Hl.
    destruct (decide (length l1 = i)) as [El|]; [|apply (Hpre l1 m' sm' l2 E); lia].
    rewrite E in Hm, Hsm. rewrite lookup_app_r in Hm by lia. rewrite El, Nat.sub_diag in Hm.
    rewrite lookup_app_r in Hsm by lia. replace (i + 1 - length l1)%nat with 1%nat in Hsm by lia.
    simplify_eq/=. done.
Qed.

Lemma normalizeMarksPure_spec `{!SortMarks} (I : list Mark → Prop) ms :
  (∀ l1 m sm l2, I (l1 ++ m :: sm :: l2) → mergeable m sm = true →
     I (l1 ++ with_to m (mk_To sm) :: l2)) →
  I (sort_marks ms) →
  I (normalizeMarksPure ms) ∧
  ∀ l1 m sm l2, normalizeMarksPure ms = l1 ++ m :: sm :: l2 → mergeable m sm = false.
Proof.
  intros Hstep HI. unfold normalizeMarksPure.
  destruct (normalize_loop_spec I (normalize_fuel (length (sort_marks ms))) 0 (sort_marks ms) Hstep)
    as (r & -> & HIr & Hr); [unfold normalize_fuel; nia|lia|intros; lia|done|]. done.
Qed.

(** *** Order and coverage *)

Definition same_key (m1 m2 : Mark) : Prop := mk_Type m1 = mk_Type m2 ∧ mk_Param m1 = mk_Param m2.

(** No mark of a type and parameter lies strictly inside another one. *)
Definition non_nested (ms : list Mark) : Prop :=
  ∀ m1 m2, m1 ∈ ms → m2 ∈ ms → same_key m1 m2 → mk_From m1 ≤ mk_From m2 → mk_To m1 ≤ mk_To m2.

Lemma marks_le_same a b : mk_Type a = mk_Type b → marks_le a b ↔ mk_From a ≤ mk_From b.
Proof. intros E. unfold marks_le, marks_Less. rewrite E, Z.eqb_refl. lia. Qed.

Lemma marks_le_with_to_l m to x : marks_le (with_to m to) x ↔ marks_le m x.
Proof. done. Qed.
Lemma marks_le_with_to_r m to x : marks_le x (with_to m to) ↔ marks_le x m.
Proof. done. Qed.

Lemma StronglySorted_app_cons (R : Mark → Mark → Prop) l1 x l2 :
  StronglySorted R (l1 ++ x :: l2) ↔
  StronglySorted R l1 ∧ StronglySorted R l2 ∧ Forall (R x) l2 ∧ Forall (λ y, R y x ∧ Forall (R y) l2) l1.
Proof.
  induction l1 as [|y l1 IH]; simpl.
  - rewrite StronglySorted_cons. split; [|tauto]. intros [? ?]. split_and!; try done; constructor.
  - rewrite !StronglySorted_cons, IH, Forall_app, !Forall_cons. split; intros; destruct_and!; tauto.
Qed.

(** What the loop needs of two marks in list order: sorted, and the later mark
    of a type and parameter reaches at least as far. *)
Definition norm_rel (a b : Mark) : Prop := marks_le a b ∧ (same_key a b → mk_To a ≤ mk_To b).

(** The invariant of the loop: ordered, and covering the same. *)
Definition norm_inv (ty : Z) (p : string) (k : Z) (C : Prop) (ms : list Mark) : Prop :=
  StronglySorted norm_rel ms ∧ (covers ms ty p k ↔ C).

Lemma mergeable_spec m sm :
  mergeable m sm = true ↔ same_key m sm ∧ mk_From sm ≤ mk_To m.
Proof.
  unfold mergeable, same_key. rewrite !andb_true_iff, Z.eqb_eq, bool_decide_eq_true, Z.leb_le. tauto.
Qed.

Lemma norm_rel_merge_l m sm x : same_key m sm → norm_rel m x → norm_rel sm x → norm_rel (with_to m (mk_To sm)) x.
Proof.
  intros [Ht Hp] [Hm _] [_ Hsm]. split; [done|]. intros [Ht' Hp']. apply Hsm. simpl in *. split; congruence.
Qed.

Lemma norm_rel_merge_r m sm x : same_key m sm → norm_rel x m → norm_rel x sm → norm_rel x (with_to m (mk_To sm)).
Proof.
  intros [Ht Hp] [Hm _] [_ Hsm]. split; [done|]. intros [Ht' Hp']. apply Hsm. simpl in *. split; congruence.
Qed.

Lemma mark_covers_merge m sm ty p k :
  same_key m sm → mk_From m ≤ mk_From sm ≤ mk_To m → mk_To m ≤ mk_To sm →
  mark_covers (with_to m (mk_To sm)) ty p k ↔ mark_covers m ty p k ∨ mark_covers sm ty p k.
Proof.
  intros [Ht Hp] Hf Hto. unfold mark_covers. simpl. rewrite <- Ht, <- Hp. split.
  - intros (? & ? & ?). destruct (decide (k < mk_To m)); [left|right]; split_and!; try done; lia.
  - intros [(? & ? & ?)|(? & ? & ?)]; split_and!; try done; lia.
Qed.

Lemma norm_sorted_step l1 m sm l2 :
  StronglySorted norm_rel (l1 ++ m :: sm :: l2) → same_key m sm →
  StronglySorted norm_rel (l1 ++ with_to m (mk_To sm) :: l2) ∧ norm_rel m sm.
Proof.
  intros Hs Hk. apply StronglySorted_app_cons in Hs as (Hs1 & Hs2 & Hm & Hl1).
  apply StronglySorted_cons in Hs2 as [Hsm Hs2]. apply Forall_cons in Hm as [Hmsm Hm].
  split; [|done]. apply StronglySorted_app_cons. split_and!; [done|done| |].
  - rewrite Forall_forall in Hm, Hsm |- *. intros x Hx. by apply norm_rel_merge_l; auto.
  - eapply Forall_impl; [exact Hl1|]. intros y [Hy1 Hy2]. apply Forall_cons in Hy2 as [Hy2 Hy3].
    split; [by apply norm_rel_merge_r|done].
Qed.

Lemma norm_inv_step ty p k C l1 m sm l2 :
  norm_inv ty p k C (l1 ++ m :: sm :: l2) → mergeable m sm = true →
  norm_inv ty p k C (l1 ++ with_to m (mk_To sm) :: l2).
Proof.
  intros (Hs & Hc) [Hk Hto]%mergeable_spec.
  destruct (norm_sorted_step _ _ _ _ Hs Hk) as [Hs' [Hle Htos]]. split; [done|].
  apply marks_le_same in Hle; [|apply Hk].
  rewrite <- Hc, !covers_app, !covers_cons, (mark_covers_merge m sm) by auto with lia. tauto.
Qed.

Lemma sorted_norm_rel ms : StronglySorted marks_le ms → non_nested ms → StronglySorted norm_rel ms.
Proof.
  induction ms as [|m ms IH]; intros Hs Hn; [constructor|].
  apply StronglySorted_cons in Hs as [Hm Hs]. constructor.
  - apply IH; [done|]. intros x y Hx Hy. apply Hn; by right.
  - rewrite Forall_forall in Hm |- *. intros x Hx. split; [by apply Hm|]. intros Hk.
    apply Hn; [by left|by right|done|]. apply (marks_le_same m x); [apply Hk|by apply Hm].
Qed.

(** *** Tidy marks: not empty, and two of a type and parameter never overlap *)

Definition nonempty (m : Mark) : Prop := mk_From m < mk_To m.
Definition apart (a b : Mark) : Prop := same_key a b → mk_To a ≤ mk_From b ∨ mk_To b ≤ mk_From a.
Definition tidy (ms : list Mark) : Prop := Forall nonempty ms ∧ ForallOrdPairs apart ms.

Lemma apart_sym a b : apart a b → apart b a.
Proof. unfold apart, same_key. intros H [? ?]. destruct H; [done|by right|by left]. Qed.

Lemma tidy_perm l1 l2 : l1 ≡ₚ l2 → tidy l1 → tidy l2.
Proof. intros Hp [Hn Ha]. split; [by rewrite <- Hp|]. by apply (FOP_perm apart l1); [apply apart_sym|..]. Qed.

Lemma tidy_app l1 l2 : tidy (l1 ++ l2) ↔ tidy l1 ∧ tidy l2 ∧ ∀ x y, x ∈ l1 → y ∈ l2 → apart x y.
Proof. unfold tidy. rewrite Forall_app, FOP_app. tauto. Qed.

(** In sorted order a later mark of the same type and parameter starts after. *)
Definition tidy_rel (a b : Mark) : Prop := marks_le a b ∧ (same_key a b → mk_To a ≤ mk_From b).

Lemma sorted_tidy_rel ms : StronglySorted marks_le ms → tidy ms → StronglySorted tidy_rel ms.
Proof.
  intros Hs [Hn Ha]. revert Hn Ha. induction Hs as [|m ms Hs IH Hm]; intros Hn Ha; [constructor|].
  apply Forall_cons in Hn as [Hn Hns]. apply FOP_cons in Ha as [Ha Has]. constructor; [by apply IH|].
  rewrite Forall_forall in Hm, Hns, Ha |- *. intros x Hx. split; [by apply Hm|]. intros Hk.
  pose proof (proj1 (marks_le_same m x ltac:(apply Hk)) (Hm x Hx)). specialize (Ha x Hx Hk).
  specialize (Hns x Hx). unfold nonempty in *. lia.
Qed.

Lemma tidy_rel_tidy ms : StronglySorted tidy_rel ms → Forall nonempty ms → tidy ms.
Proof.
  intros Hs Hn. split; [done|]. induction Hs as [|m ms _ IH Hm]; [constructor|].
  apply Forall_cons in Hn as [_ Hn]. constructor; [|by apply IH].
  eapply Forall_impl; [exact Hm|]. intros x [_ Hx] Hk. left. by apply Hx.
Qed.

Lemma tidy_non_nested ms : tidy ms → non_nested ms.
Proof.
  intros [Hn Ha] x y Hx Hy Hk Hf. rewrite Forall_forall in Hn. pose proof (Hn x Hx). pose proof (Hn y Hy).
  unfold nonempty in *. destruct (FOP_elem apart ms x y apart_sym Ha Hx Hy) as [->|Hd]; [lia|].
  specialize (Hd Hk). lia.
Qed.

(** Marks that lie between two offsets. *)
Definition within (lo hi : Z) (m : Mark) : Prop := lo ≤ mk_From m ∧ mk_To m ≤ hi.

Section normalize_facts.
Context `{SM : !SortMarks, SMO : !SortMarksOk}.

Lemma covers_sort ms ty p k : covers (sort_marks ms) ty p k ↔ covers ms ty p k.
Proof. apply covers_perm, sort_marks_perm. Qed.

Lemma normalize_covers ms ty p k :
  non_nested ms → covers (normalizeMarksPure ms) ty p k ↔ covers ms ty p k.
Proof.
  intros Hn. apply (normalizeMarksPure_spec (norm_inv ty p k (covers ms ty p k)) ms).
  - intros l1 m sm l2. apply norm_inv_step.
  - split; [|apply covers_sort]. apply sorted_norm_rel; [apply sort_marks_sorted|].
    intros x y. rewrite !sort_marks_perm. apply Hn.
Qed.

Lemma normalize_sorted ms : non_nested ms → StronglySorted norm_rel (normalizeMarksPure ms).
Proof.
  intros Hn. apply (normalizeMarksPure_spec (StronglySorted norm_rel) ms).
  - intros l1 m sm l2 Hs [Hk _]%mergeable_spec. by apply norm_sorted_step.
  - apply sorted_norm_rel; [apply sort_marks_sorted|]. intros x y. rewrite !sort_marks_perm. apply Hn.
Qed.

Lemma normalize_within lo hi ms : Forall (within lo hi) ms → Forall (within lo hi) (normalizeMarksPure ms).
Proof.
  intros Hw. apply (normalizeMarksPure_spec (Forall (within lo hi)) ms).
  - intros l1 m sm l2. rewrite !Forall_app, !Forall_cons. unfold within. simpl. intros. destruct_and!. tauto.
  - by rewrite sort_marks_perm.
Qed.

Lemma tidy_step l1 m sm l2 :
  StronglySorted tidy_rel (l1 ++ m :: sm :: l2) ∧ Forall nonempty (l1 ++ m :: sm :: l2) →
  mergeable m sm = true →
  StronglySorted tidy_rel (l1 ++ with_to m (mk_To sm) :: l2) ∧ Forall nonempty (l1 ++ with_to m (mk_To sm) :: l2).
Proof.
  intros [Hs Hn] [Hk _]%mergeable_spec. apply StronglySorted_app_cons in Hs as (Hs1 & Hs2 & Hm & Hl1).
  apply StronglySorted_cons in Hs2 as [Hsm Hs2]. apply Forall_cons in Hm as [[Hmsm Hto] Hm].
  specialize (Hto Hk). rewrite Forall_app, !Forall_cons in Hn. destruct Hn as (Hn1 & Hnm & Hnsm & Hn2).
  split.
  - apply StronglySorted_app_cons. split_and!; [done|done| |].
    + rewrite Forall_forall in Hm, Hsm |- *. intros x Hx. destruct (Hm x Hx) as [Hle _], (Hsm x Hx) as [_ Hx'].
      split; [done|]. intros [Ht Hp]. apply Hx'. destruct Hk. simpl in *. split; congruence.
    + eapply Forall_impl; [exact Hl1|]. intros y [Hy1 Hy2]. apply Forall_cons in Hy2 as [_ Hy3]. by split.
  - rewrite Forall_app, Forall_cons. split_and!; try done. unfold nonempty in *. simpl. lia.
Qed.

Lemma normalize_tidy ms : tidy ms → tidy (normalizeMarksPure ms).
Proof.
  intros Ht.
  destruct (normalizeMarksPure_spec (λ l, StronglySorted tidy_rel l ∧ Forall nonempty l) ms) as [[Hs Hn] _].
  - apply tidy_step.
  - split; [|by rewrite sort_marks_perm; apply Ht]. apply sorted_tidy_rel; [apply sort_marks_sorted|].
    by apply (tidy_perm ms); [symmetry; apply sort_marks_perm|].
  - by apply tidy_rel_tidy.
Qed.
End normalize_facts.

(** *** The pieces of a mark *)

Definition left_piece (rFrom : Z) (m : Mark) : list Mark :=
  if mk_From m <? rFrom then [mk_mark m (mk_From m) (Z.min (mk_To m) rFrom)] else [].
Definition right_piece (rFrom rTo n : Z) (m : Mark) : list Mark :=
  if rTo <? mk_To m
  then [mk_mark m (Z.max (mk_From m) rTo - (rTo - rFrom) + n) (mk_To m - (rTo - rFrom) + n)] else [].

Lemma split_mark_pieces rFrom rTo n m :
  off_ok rFrom → off_ok rTo → off_ok n → rFrom ≤ rTo → mark_ok m → nonempty m →
  split_mark rFrom rTo n m = (left_piece rFrom m, right_piece rFrom rTo n m).
Proof.
  unfold mark_ok, off_ok, nonempty, max_off. intros Hf Ht Hn Hle [Hmf Hmt] Hne.
  unfold split_mark, left_piece, right_piece. destruct m as [ty' p' from to]. cbn [mk_From mk_To] in *.
  assert (∀ x, off_ok x → rTo ≤ x →
    i32 (i32 (x - i32 (rTo - rFrom)) + n) = x - (rTo - rFrom) + n) as Hshift.
  { unfold off_ok, max_off. intros x Hx Hx'.
    rewrite (i32_small (rTo - rFrom)), (i32_small (x - _)), i32_small; unfold max_off; lia. }
  rewrite (i32_small (rFrom + n)) by (unfold max_off; lia). unfold off_ok, max_off in Hshift.
  destruct (Z.ltb_spec from rFrom), (Z.leb_spec to rFrom), (Z.ltb_spec rFrom to), (Z.ltb_spec to rTo),
    (Z.leb_spec rFrom from), (Z.leb_spec to rTo), (Z.ltb_spec rTo to), (Z.leb_spec rTo from),
    (Z.leb_spec rTo to), (Z.ltb_spec from rTo); try lia; cbn [andb]; rewrite ?Hshift by lia;
    repeat f_equal; lia.
Qed.

Lemma splitMarks_pieces ms rFrom rTo n :
  off_ok rFrom → off_ok rTo → off_ok n → rFrom ≤ rTo → Forall mark_ok ms → Forall nonempty ms →
  splitMarks ms rFrom rTo n = (flat_map (left_piece rFrom) ms, flat_map (right_piece rFrom rTo n) ms).
Proof.
  intros Hf Ht Hn Hle Hok Hne. rewrite splitMarks_flat.
  induction ms as [|m ms IH]; [done|]. apply Forall_cons in Hok as [Hm Hok]. apply Forall_cons in Hne as [Hn' Hne].
  specialize (IH Hok Hne). injection IH as IH1 IH2. cbn [flat_map]. by rewrite IH1, IH2, split_mark_pieces.
Qed.

Lemma elem_of_flat_map (f : Mark → list Mark) ms x : x ∈ flat_map f ms ↔ ∃ m, m ∈ ms ∧ x ∈ f m.
Proof. rewrite list_elem_of_In, in_flat_map. by setoid_rewrite list_elem_of_In. Qed.

Lemma elem_of_left_piece rFrom m x :
  x ∈ left_piece rFrom m ↔ mk_From m < rFrom ∧ x = mk_mark m (mk_From m) (Z.min (mk_To m) rFrom).
Proof.
  unfold left_piece. destruct (Z.ltb_spec (mk_From m) rFrom); rewrite ?list_elem_of_singleton, ?elem_of_nil; intuition lia.
Qed.

Lemma elem_of_right_piece rFrom rTo n m x :
  x ∈ right_piece rFrom rTo n m ↔
  rTo < mk_To m ∧ x = mk_mark m (Z.max (mk_From m) rTo - (rTo - rFrom) + n) (mk_To m - (rTo - rFrom) + n).
Proof.
  unfold right_piece. destruct (Z.ltb_spec rTo (mk_To m)); rewrite ?list_elem_of_singleton, ?elem_of_nil; intuition lia.
Qed.

Lemma left_pieces_tidy rFrom ms :
  tidy ms → tidy (flat_map (left_piece rFrom) ms) ∧
  ∀ lo hi, Forall (within lo hi) ms → Forall (within lo (Z.min hi rFrom)) (flat_map (left_piece rFrom) ms).
Proof.
  intros [Hn Ha]. split; [split|].
  - rewrite Forall_forall in Hn |- *. intros x (m & Hm & [Hlt ->]%elem_of_left_piece)%elem_of_flat_map.
    specialize (Hn m Hm). unfold nonempty in *. simpl. lia.
  - apply (FOP_flat_map apart); [..|exact Ha].
    + intros m _. unfold left_piece. case_match; repeat constructor.
    + intros x y a b _ _ Hxy [? ->]%elem_of_left_piece [? ->]%elem_of_left_piece Hk.
      specialize (Hxy Hk). simpl. lia.
  - intros lo hi Hw. rewrite Forall_forall in Hw |- *.
    intros x (m & Hm & [Hlt ->]%elem_of_left_piece)%elem_of_flat_map.
    specialize (Hw m Hm). unfold within in *. simpl. lia.
Qed.

Lemma right_pieces_tidy rFrom rTo n ms :
  tidy ms → tidy (flat_map (right_piece rFrom rTo n) ms) ∧
  ∀ lo hi, Forall (within lo hi) ms →
    Forall (within (rFrom + n) (hi - (rTo - rFrom) + n)) (flat_map (right_piece rFrom rTo n) ms).
Proof.
  intros [Hn Ha]. split; [split|].
  - rewrite Forall_forall in Hn |- *. intros x (m & Hm & [Hlt ->]%elem_of_right_piece)%elem_of_flat_map.
    specialize (Hn m Hm). unfold nonempty in *. simpl. lia.
  - apply (FOP_flat_map apart); [..|exact Ha].
    + intros m _. unfold right_piece. case_match; repeat constructor.
    + intros x y a b _ _ Hxy [? ->]%elem_of_right_piece [? ->]%elem_of_right_piece Hk.
      specialize (Hxy Hk). simpl. lia.
  - intros lo hi Hw. rewrite Forall_forall in Hw |- *.
    intros x (m & Hm & [Hlt ->]%elem_of_right_piece)%elem_of_flat_map.
    specialize (Hw m Hm). unfold within in *. simpl. lia.
Qed.

Lemma shift_tidy d ms :
  tidy ms → tidy (map (λ m, mk_mark m (mk_From m + d) (mk_To m + d)) ms).
Proof.
  intros [Hn Ha]. split.
  - apply Forall_map. eapply Forall_impl; [exact Hn|]. unfold nonempty. simpl. intros. lia.
  - rewrite map_flat_map. apply (FOP_flat_map apart); [..|exact Ha].
    + intros. repeat constructor.
    + intros x y a b _ _ Hxy ->%list_elem_of_singleton ->%list_elem_of_singleton Hk.
      specialize (Hxy Hk). simpl. lia.
Qed.

(** Marks in order for a text of [L] units: tidy and inside the text. *)
Definition good_marks (L : Z) (ms : list Mark) : Prop := tidy ms ∧ Forall (within 0 L) ms.

Lemma good_marks_ok L ms : L < max_off → good_marks L ms → Forall mark_ok ms.
Proof.
  intros HL [[Hn _] Hw]. rewrite Forall_forall in *. intros m Hm. specialize (Hn m Hm). specialize (Hw m Hm).
  unfold mark_ok, off_ok, nonempty, within in *. lia.
Qed.

Lemma good_marks_normalize `{!SortMarks, !SortMarksOk} L ms :
  good_marks L ms →
  good_marks L (normalizeMarksPure ms) ∧
  ∀ ty p k, covers (normalizeMarksPure ms) ty p k ↔ covers ms ty p k.
Proof.
  intros [Ht Hw]. split; [split|].
  - by apply normalize_tidy.
  - by apply normalize_within.
  - intros ty p k. by apply normalize_covers, tidy_non_nested.
Qed.

Lemma within_impl lo hi lo' hi' ms : lo' ≤ lo → hi ≤ hi' → Forall (within lo hi) ms → Forall (within lo' hi') ms.
Proof. intros ? ? Hw. eapply Forall_impl; [exact Hw|]. unfold within. intros. lia. Qed.

(** Marks that end before others start are apart from them. *)
Lemma within_apart lo1 hi1 lo2 hi2 l1 l2 :
  Forall (within lo1 hi1) l1 → Forall (within lo2 hi2) l2 → hi1 ≤ lo2 →
  ∀ x y, x ∈ l1 → y ∈ l2 → apart x y.
Proof.
  rewrite !Forall_forall. intros H1 H2 Hle x y Hx Hy _. specialize (H1 x Hx). specialize (H2 y Hy).
  unfold within in *. lia.
Qed.

(** *** Replacing a range: the marks follow the text *)

Lemma map_i32_shift d ms :
  off_ok d → Forall mark_ok ms →
  map (λ m, mk_mark m (i32 (mk_From m + d)) (i32 (mk_To m + d))) ms =
  map (λ m, mk_mark m (mk_From m + d) (mk_To m + d)) ms.
Proof.
  intros Hd Hok. apply map_ext_in. intros m Hm. apply list_elem_of_In in Hm. rewrite Forall_forall in Hok.
  destruct (Hok m Hm) as [H1 H2]. unfold off_ok, max_off in *. rewrite !i32_small by (unfold max_off; lia). done.
Qed.

Lemma covers_shift d ms ty p k :
  covers (map (λ m, mk_mark m (mk_From m + d) (mk_To m + d)) ms) ty p k ↔ covers ms ty p (k - d).
Proof. apply (covers_map_mark (λ x, x + d) (λ x, x + d)). intros. lia. Qed.

Lemma SplitMarks_spec t from to news newText :
  let n := UTF16RuneCountString newText in
  0 ≤ n → 0 ≤ from ≤ to → to ≤ text_len t → text_len t < max_off → n < max_off →
  good_marks (text_len t) (tb_Marks t) → good_marks n news →
  good_marks (text_len t - (to - from) + n) (SplitMarks t from to news newText) ∧
  ∀ ty p k, covers (SplitMarks t from to news newText) ty p k ↔
    (k < from ∧ covers (tb_Marks t) ty p k) ∨ covers news ty p (k - from) ∨
    (from + n ≤ k ∧ covers (tb_Marks t) ty p (k - n + (to - from))).
Proof.
  intros n Hn Hf Hto HL Hnm Hg Hgn.
  pose proof (good_marks_ok _ _ HL Hg) as Hok. pose proof (good_marks_ok _ _ Hnm Hgn) as Hokn.
  unfold SplitMarks. fold n. rewrite (i32_small n) by (unfold max_off in *; lia).
  destruct (splitMarks (tb_Marks t) from to n) as [l r] eqn:E.
  rewrite map_i32_shift by (unfold off_ok; auto with lia).
  split; [|intros ty p k].
  - rewrite splitMarks_pieces in E by (try done; unfold off_ok; try lia; apply Hg). injection E as <- <-.
    destruct Hg as [Ht Hw], Hgn as [Htn Hwn].
    destruct (left_pieces_tidy from _ Ht) as [Hlt Hlw]. destruct (right_pieces_tidy from to n _ Ht) as [Hrt Hrw].
    specialize (Hlw _ _ Hw). specialize (Hrw _ _ Hw).
    assert (Forall (within from (from + n)) (map (λ m, mk_mark m (mk_From m + from) (mk_To m + from)) news)) as Hsw.
    { apply Forall_map. eapply Forall_impl; [exact Hwn|]. unfold within. simpl. intros. lia. }
    split.
    + rewrite !tidy_app. split_and!; [by apply shift_tidy|done|done| |].
      * apply (within_apart _ _ _ _ _ _ Hlw Hrw). lia.
      * intros x y Hx [Hy|Hy]%elem_of_app.
        { apply apart_sym, (within_apart _ _ _ _ _ _ Hlw Hsw); [lia|done|done]. }
        { apply (within_apart _ _ _ _ _ _ Hsw Hrw); [lia|done|done]. }
    + rewrite !Forall_app. split_and!; eapply within_impl; [..|exact Hsw| | |exact Hlw| | |exact Hrw]; lia.
  - rewrite !covers_app, covers_shift.
    pose proof (splitMarks_covers_aux (tb_Marks t) from to n ty p k) as Hs. rewrite E in Hs. cbn [fst snd] in Hs.
    destruct Hs as [H1 H2]; [unfold off_ok; lia..|done|]. rewrite H1, H2. tauto.
Qed.

(** ** Cutting and pasting *)

Lemma flat_map_id (f : Mark → list Mark) ms : (∀ m, m ∈ ms → f m = [m]) → flat_map f ms = ms.
Proof.
  induction ms as [|m ms IH]; intros H; [done|]. cbn [flat_map]. rewrite H by (by left).
  rewrite IH by (intros; apply H; by right). done.
Qed.

(** Marks of the copied text that lie inside it are not trimmed. *)
Lemma trim_id n ms :
  0 ≤ n < max_off → good_marks n ms →
  (splitMarks ms n n 0).1 = ms ∧ (splitMarks ms 0 0 0).2 = ms.
Proof.
  intros Hn Hg. pose proof (good_marks_ok n ms ltac:(lia) Hg) as Hok. destruct Hg as [[Hne Ha] Hw].
  rewrite !splitMarks_pieces by (try done; unfold off_ok, max_off in *; lia). cbn [fst snd].
  rewrite Forall_forall in Hne, Hw. unfold nonempty, within in *.
  split; apply flat_map_id; intros m Hm; specialize (Hne m Hm); specialize (Hw m Hm); destruct m as [ty p f u];
    unfold left_piece, right_piece, mk_mark; cbn [mk_From mk_To mk_Type mk_Param] in *.
  - destruct (Z.ltb_spec f n); [|lia]. repeat f_equal; lia.
  - destruct (Z.ltb_spec 0 u); [|lia]. repeat f_equal; lia.
Qed.

(** The units of the three parts of a text. *)
Lemma units_parts (t : TextBlock) l mid r :
  tb_Text t = l ++ mid ++ r → Forall scalar (tb_Text t) →
  let from := UTF16RuneCountString l in
  let to := from + UTF16RuneCountString mid in
  UTF16ToStr (take (Z.to_nat from) (StrToUTF16 (tb_Text t))) = l ∧
  UTF16ToStr (drop (Z.to_nat to) (StrToUTF16 (tb_Text t))) = r ∧
  UTF16ToStr (subunits t from to) = mid ∧
  0 ≤ from ≤ to ∧ to ≤ text_len t ∧ text_len t = to + UTF16RuneCountString r.
Proof.
  intros E Hs from to. unfold subunits, text_len. rewrite E in *. apply Forall_app in Hs as [Hl Hmr].
  apply Forall_app in Hmr as [Hm Hr]. unfold StrToUTF16. rewrite !Encode_app, !count_app.
  pose proof (Encode_length l Hl). pose proof (Encode_length mid Hm). pose proof (count_nonneg r Hr).
  pose proof (count_nonneg mid Hm). pose proof (count_nonneg l Hl).
  replace (Z.to_nat from) with (length (Encode l)) by lia.
  replace (Z.to_nat to) with (length (Encode l ++ Encode mid)) by (rewrite length_app; lia).
  replace (Z.to_nat (to - from)) with (length (Encode mid)) by lia.
  rewrite take_app_length, drop_app_length, take_app_length, app_assoc, drop_app_length.
  split_and!; try lia; by apply UTF16_roundtrip.
Qed.

Section paste.
Context `{SM : !SortMarks, SMO : !SortMarksOk}.

Lemma RangeTextPaste_Ok t l mid r copied copyStyle :
  tb_Text t = l ++ mid ++ r → Forall scalar (tb_Text t) → Forall scalar (tb_Text copied) →
  text_len t < max_off → text_len copied < max_off →
  good_marks (text_len copied) (tb_Marks copied) →
  let from := UTF16RuneCountString l in
  let to := from + UTF16RuneCountString mid in
  ∃ t', RangeTextPaste t from to copied copyStyle = Ok (t', from + text_len copied) ∧
    tb_Text t' = l ++ tb_Text copied ++ r ∧
    tb_Marks t' = normalizeMarksPure (SplitMarks t from to (tb_Marks copied) (tb_Text copied)).
Proof.
  intros E Hs Hsc HL HLc Hgc from to.
  destruct (units_parts t l mid r E Hs) as (E1 & E2 & _ & Hf & Hto & _). fold from to in E1, E2, Hf, Hto.
  pose proof (count_nonneg _ Hsc) as Hn. fold (text_len copied) in Hn.
  unfold RangeTextPaste. rewrite (i32_small (text_len copied)) by (unfold max_off in *; lia).
  destruct (Z.ltb_spec from 0), (Z.ltb_spec (text_len t) from), (Z.ltb_spec to 0), (Z.ltb_spec (text_len t) to),
    (Z.ltb_spec to from); try lia. cbn [orb]. cbv zeta.
  destruct (trim_id (text_len copied) (tb_Marks copied)) as [T1 T2]; [lia|done|].
  destruct (splitMarks (tb_Marks copied) (text_len copied) (text_len copied) 0) as [ms ms'].
  cbn [fst] in T1. subst ms.
  destruct (splitMarks (tb_Marks copied) 0 0 0) as [ms ms'']. cbn [snd] in T2. subst ms''.
  assert (map (λ m, mk_mark m (i32 (mk_From m - 0)) (i32 (mk_To m - 0))) (tb_Marks copied) = tb_Marks copied) as ->.
  { transitivity (map (λ m : Mark, m) (tb_Marks copied)); [|apply map_id]. apply map_ext_in. intros m Hm.
    apply list_elem_of_In in Hm. pose proof (good_marks_ok _ _ HLc Hgc) as Hok. rewrite Forall_forall in Hok.
    destruct (Hok m Hm) as [? ?]. unfold off_ok, max_off in *. rewrite !i32_small by (unfold max_off; lia).
    destruct m. unfold mk_mark. simpl. by rewrite !Z.sub_0_r. }
  assert (UTF16ToStr (subunits copied 0 (text_len copied)) = tb_Text copied) as ->.
  { destruct (units_parts copied [] (tb_Text copied) []) as (_ & _ & Hm & _); [by rewrite app_nil_r|done|].
    exact Hm. }
  rewrite Z.sub_0_r, (i32_small (text_len copied)) by (unfold max_off in *; lia).
  rewrite (i32_small (from + text_len copied)) by (unfold max_off in *; lia).
  destruct (_ && copyStyle); eexists; (split; [reflexivity|]); cbn [tb_Text tb_Marks with_text with_marks
    with_background with_color with_style]; by rewrite E1, E2.
Qed.

(** Pasting over a range of a text block: the range is replaced by the copied
    text, the caret is put behind it, every unit of the result carries exactly the
    marks it carried before (in the block or in the copied text), and the marks
    stay inside the text and never overlap. *)
Theorem paste_replaces t l mid r copied copyStyle :
  tb_Text t = l ++ mid ++ r → Forall scalar (tb_Text t) → Forall scalar (tb_Text copied) →
  text_len t < max_off → text_len copied < max_off →
  good_marks (text_len t) (tb_Marks t) → good_marks (text_len copied) (tb_Marks copied) →
  let from := UTF16RuneCountString l in
  let to := from + UTF16RuneCountString mid in
  let n := text_len copied in
  ∃ t', RangeTextPaste t from to copied copyStyle = Ok (t', from + n) ∧
    tb_Text t' = l ++ tb_Text copied ++ r ∧ good_marks (text_len t') (tb_Marks t') ∧
    ∀ ty p k, covers (tb_Marks t') ty p k ↔
      (k < from ∧ covers (tb_Marks t) ty p k) ∨ covers (tb_Marks copied) ty p (k - from) ∨
      (from + n ≤ k ∧ covers (tb_Marks t) ty p (k - n + (to - from))).
Proof.
  intros E Hs Hsc HL HLc Hg Hgc from to n.
  destruct (RangeTextPaste_Ok t l mid r copied copyStyle) as (t' & E1 & E2 & E3); [done..|].
  fold from to n in E1, E3. exists t'. split_and!; [done|done| |].
  all: destruct (units_parts t l mid r E Hs) as (_ & _ & _ & Hf & Hto & Hlen); fold from to in Hf, Hto, Hlen;
    pose proof (count_nonneg _ Hsc) as Hn;
    destruct (SplitMarks_spec t from to (tb_Marks copied) (tb_Text copied)) as [Hgood Hcov];
    [done|done|done|done|done|done|done|]; rewrite E3;
    apply good_marks_normalize in Hgood as [Hgood Hnorm].
  - assert (text_len t' = text_len t - (to - from) + n) as ->; [|done].
    unfold n, text_len in *. rewrite E2, !count_app. subst to. lia.
  - intros ty p k. rewrite Hnorm. apply Hcov.
Qed.

Lemma cut_pieces t from to :
  0 ≤ from ≤ to → to ≤ text_len t → text_len t < max_off → good_marks (text_len t) (tb_Marks t) →
  let cut := (splitMarks (splitMarks (tb_Marks t) to to 0).1 from from 0).2 in
  tidy cut ∧ Forall (within from to) cut ∧
  ∀ ty p k, covers cut ty p k ↔ from ≤ k < to ∧ covers (tb_Marks t) ty p k.
Proof.
  intros Hf Hto HL Hg cut. pose proof (good_marks_ok _ _ HL Hg) as Hok.
  assert (cut = flat_map (right_piece from from 0) (flat_map (left_piece to) (tb_Marks t)) ∧
          good_marks to (flat_map (left_piece to) (tb_Marks t)) ∧
          (splitMarks (tb_Marks t) to to 0).1 = flat_map (left_piece to) (tb_Marks t)) as (Ecut & Hgl & El).
  { assert ((splitMarks (tb_Marks t) to to 0).1 = flat_map (left_piece to) (tb_Marks t)) as El.
    { rewrite splitMarks_pieces by (try done; unfold off_ok, max_off in *; try lia; apply Hg). done. }
    destruct (left_pieces_tidy to (tb_Marks t)) as [Htl Hwl]; [apply Hg|].
    assert (good_marks to (flat_map (left_piece to) (tb_Marks t))) as Hgl.
    { split; [done|]. eapply within_impl; [..|apply (Hwl 0 (text_len t)), Hg]; lia. }
    split_and!; [|done|done]. unfold cut. rewrite El.
    rewrite splitMarks_pieces; [done|unfold off_ok; lia..|reflexivity| |apply Htl].
    apply (good_marks_ok to); [lia|done]. }
  split_and!.
  - rewrite Ecut. apply right_pieces_tidy, Hgl.
  - rewrite Ecut. eapply within_impl; [..|apply (proj2 (right_pieces_tidy from from 0 _ (proj1 Hgl)) 0 to), Hgl]; lia.
  - intros ty p k. unfold cut. rewrite El.
    rewrite (proj2 (splitMarks_covers_aux _ from from 0 ty p k ltac:(unfold off_ok; lia) ltac:(unfold off_ok; lia)
      ltac:(unfold off_ok, max_off; lia) ltac:(lia) (good_marks_ok to _ ltac:(lia) Hgl))).
    rewrite <- El.
    rewrite (proj1 (splitMarks_covers_aux _ to to 0 ty p _ ltac:(unfold off_ok; lia) ltac:(unfold off_ok; lia)
      ltac:(unfold off_ok, max_off; lia) ltac:(lia) Hok)).
    replace (k - 0 + (from - from)) with k by lia. rewrite Z.add_0_r. intuition lia.
Qed.

(** A link whose parameter [NormalizeURI] leaves alone. *)
Definition link_normal (NormalizeURI : string → res string) (m : Mark) : Prop :=
  mk_Type m = Mark_Link → NormalizeURI (mk_Param m) = Ok (mk_Param m).

Lemma SetText_normal N t text ms :
  Forall (link_normal N) ms → SetText N t text (Some ms) = normalizeMarks (with_marks (with_text t text) ms).
Proof.
  intros Hl. unfold SetText. f_equal. f_equal. transitivity (map (λ m : Mark, m) ms); [|apply map_id].
  apply map_ext_in. intros m Hm. apply list_elem_of_In in Hm. rewrite Forall_forall in Hl. specialize (Hl m Hm).
  unfold link_normal in Hl. destruct (Z.eqb_spec (mk_Type m) Mark_Link); [|done]. rewrite Hl by done. by destruct m.
Qed.

(** A split keeps the parameters of the marks. *)
Lemma splitMarks_keys ms from to n x :
  x ∈ (splitMarks ms from to n).1 ∨ x ∈ (splitMarks ms from to n).2 → ∃ m, m ∈ ms ∧ same_key x m.
Proof.
  rewrite splitMarks_flat. cbn [fst snd]. rewrite !elem_of_flat_map.
  intros [(m & Hm & Hx)|(m & Hm & Hx)]; exists m; (split; [done|]); unfold split_mark in Hx;
    repeat (case_match; cbn [fst snd] in Hx); rewrite ?list_elem_of_singleton, ?elem_of_nil in Hx;
    try done; subst x; done.
Qed.

Lemma clipboard_cut_Ok N t l mid r :
  tb_Text t = l ++ mid ++ r → Forall scalar (tb_Text t) → text_len t < max_off →
  good_marks (text_len t) (tb_Marks t) → Forall (link_normal N) (tb_Marks t) →
  let from := UTF16RuneCountString l in
  let to := from + UTF16RuneCountString mid in
  ∃ cut rest, clipboard_cut N t from to = Ok (cut, rest) ∧
    tb_Text cut = mid ∧ tb_Text rest = l ++ r ∧
    good_marks (text_len cut) (tb_Marks cut) ∧ good_marks (text_len rest) (tb_Marks rest) ∧
    (∀ ty p k, covers (tb_Marks cut) ty p k ↔ 0 ≤ k < to - from ∧ covers (tb_Marks t) ty p (k + from)) ∧
    (∀ ty p k, covers (tb_Marks rest) ty p k ↔
       (k < from ∧ covers (tb_Marks t) ty p k) ∨ (from ≤ k ∧ covers (tb_Marks t) ty p (k + (to - from)))).
Proof.
  intros E Hs HL Hg Hlk from to.
  destruct (units_parts t l mid r E Hs) as (E1 & E2 & E3 & Hf & Hto & Hlen). fold from to in E1, E2, E3, Hf, Hto, Hlen.
  destruct (cut_pieces t from to) as (Hct & Hcw & Hcc); [done..|].
  destruct (SplitMarks_spec t from to [] []) as [Hrg Hrc];
    [rewrite ?count_nil; unfold max_off in *; lia..|done|split; [split|]; constructor|].
  assert (Forall (link_normal N) (SplitMarks t from to [] [])) as Hrl.
  { unfold SplitMarks. destruct (splitMarks (tb_Marks t) from to _) as [a b] eqn:Es. cbn [map app].
    rewrite Forall_forall in Hlk |- *. intros x Hx%elem_of_app.
    destruct (splitMarks_keys (tb_Marks t) from to (i32 (UTF16RuneCountString [])) x) as (m & Hm & [Ht Hp]).
    { by rewrite Es. }
    intros Hty. rewrite Hp. apply (Hlk m Hm). congruence. }
  unfold clipboard_cut, RangeCut, check_range.
  destruct (Z.leb_spec 0 from), (Z.leb_spec from (text_len t)), (Z.leb_spec 0 to), (Z.leb_spec to (text_len t)),
    (Z.leb_spec from to); try lia. cbn [andb negb].
  destruct (splitMarks (tb_Marks t) to to 0) as [c0 c1]. cbn [fst] in Hct, Hcw, Hcc.
  destruct (splitMarks c0 from from 0) as [c2 cut]. cbn [snd] in Hct, Hcw, Hcc.
  do 2 eexists. split; [reflexivity|]. cbn [tb_Text tb_Marks with_text with_marks].
  rewrite SetText_normal by done. rewrite E3, E1, E2.
  unfold normalizeMarks. cbn [tb_Text tb_Marks with_text with_marks].
  apply good_marks_normalize in Hrg as [Hrg Hrn].
  assert (map (λ m, mk_mark m (i32 (mk_From m - from)) (i32 (mk_To m - from))) cut =
          map (λ m, mk_mark m (mk_From m + - from) (mk_To m + - from)) cut) as ->.
  { apply map_ext_in. intros m Hm. apply list_elem_of_In in Hm. destruct Hct as [Hne _].
    rewrite Forall_forall in Hcw, Hne. specialize (Hcw m Hm). specialize (Hne m Hm). unfold within, nonempty in *.
    unfold mk_mark. f_equal; apply i32_small; unfold max_off in *; lia. }
  split_and!; [done|done| | | |].
  - split; [by apply shift_tidy|]. apply Forall_map. eapply Forall_impl; [exact Hcw|]. unfold within, text_len.
    cbn [tb_Text]. simpl. intros. lia.
  - replace (text_len _) with (text_len t - (to - from) + UTF16RuneCountString []); [done|].
    rewrite count_nil, Hlen. unfold text_len. cbn [tb_Text with_text with_marks]. rewrite count_app. lia.
  - intros ty p k. rewrite covers_shift, Hcc. replace (k - - from) with (k + from) by lia. intuition lia.
  - intros ty p k. rewrite Hrn, Hrc, covers_nil_iff, count_nil.
    replace (k - 0 + (to - from)) with (k + (to - from)) by lia. rewrite Z.add_0_r. tauto.
Qed.

(** C32. Cutting a range to the clipboard and pasting it back in place gives the
    text back, puts the caret behind it, and every unit carries the marks it had. *)
Theorem cut_paste_roundtrip N t l mid r :
  tb_Text t = l ++ mid ++ r → Forall scalar (tb_Text t) → text_len t < max_off →
  good_marks (text_len t) (tb_Marks t) → Forall (link_normal N) (tb_Marks t) →
  let from := UTF16RuneCountString l in
  let to := from + UTF16RuneCountString mid in
  ∃ cut rest t', clipboard_cut N t from to = Ok (cut, rest) ∧ tb_Text cut = mid ∧ tb_Text rest = l ++ r ∧
    RangeTextPaste rest from from cut false = Ok (t', to) ∧
    tb_Text t' = tb_Text t ∧ ∀ ty p k, covers (tb_Marks t') ty p k ↔ covers (tb_Marks t) ty p k.
Proof.
  intros E Hs HL Hg Hlk from to.
  destruct (clipboard_cut_Ok N t l mid r) as (cut & rest & Ec & Tc & Tr & Gc & Gr & Cc & Cr); [done..|].
  fold from to in Ec, Cc, Cr. exists cut, rest.
  destruct (units_parts t l mid r E Hs) as (_ & _ & _ & Hf & Hto & Hlen). fold from to in Hf, Hto, Hlen.
  rewrite E, !Forall_app in Hs. destruct Hs as (Hsl & Hsm & Hsr).
  assert (text_len cut = to - from) as Lc by (unfold text_len; rewrite Tc; subst to; lia).
  pose proof (count_nonneg _ Hsm). pose proof (count_nonneg _ Hsr).
  assert (text_len rest < max_off) as Lr by (unfold text_len; rewrite Tr, count_app; subst from to; lia).
  destruct (RangeTextPaste_Ok rest l [] r cut false) as (t' & P1 & P2 & P3);
    [done|by rewrite Tr, Forall_app|by rewrite Tc|done|lia|done|].
  fold from in P1, P3. rewrite count_nil, Z.add_0_r in P1, P3. exists t'. split_and!; try done.
  - rewrite P1, Lc. do 2 f_equal. lia.
  - by rewrite P2, Tc.
  - intros ty p k. destruct (SplitMarks_spec rest from from (tb_Marks cut) (tb_Text cut)) as [G1 C1];
      try (unfold text_len in *; rewrite ?Tc, ?Tr, ?count_app in *; subst from to; lia); [done|done|].
    apply good_marks_normalize in G1 as [_ N1]. rewrite P3, N1, C1, Cc, !Cr.
    fold (text_len cut). rewrite Lc.
    replace (k - (to - from) + (from - from) + (to - from)) with k by lia. replace (k - from + from) with k by lia.
    split; [|intros Hk; destruct (decide (k < from)), (decide (k < to)); intuition lia].
    intuition; try lia; eauto.
Qed.
End paste.

(** ** Splitting and merging *)

Lemma split_at_pieces pos m :
  off_ok pos → mark_ok m → nonempty m →
  split_at pos m =
    (map (λ m, mk_mark m (mk_From m - pos) (mk_To m - pos)) (right_piece pos pos 0 m), left_piece pos m).
Proof.
  unfold mark_ok, off_ok, nonempty, max_off. intros Hp [Hf Ht] Hn. unfold split_at, right_piece, left_piece, with_to.
  destruct m as [ty p f u]. cbn [mk_From mk_To mk_Type mk_Param] in *. unfold mk_mark.
  rewrite (i32_small (u - pos)) by (unfold max_off; lia).
  destruct (Z.leb_spec pos f), (Z.leb_spec u pos), (Z.ltb_spec f pos), (Z.ltb_spec pos u); try lia;
    cbn [map mk_Type mk_Param mk_From mk_To]; rewrite ?(i32_small (f - pos)) by (unfold max_off; lia);
    repeat f_equal; lia.
Qed.

Lemma Split_Ok t l r :
  tb_Text t = l ++ r → Forall scalar (tb_Text t) → text_len t < max_off → good_marks (text_len t) (tb_Marks t) →
  let pos := UTF16RuneCountString l in
  Split t pos =
    Ok (new_text_block l (tb_Style t) (flat_map (left_piece pos) (tb_Marks t)) (tb_Checked t) (tb_Color t)
          (tb_BackgroundColor t) (tb_Align t),
        with_marks (with_text t r)
          (map (λ m, mk_mark m (mk_From m - pos) (mk_To m - pos)) (flat_map (right_piece pos pos 0) (tb_Marks t)))).
Proof.
  intros E Hs HL Hg pos. destruct (units_parts t l [] r E Hs) as (E1 & E2 & _ & Hf & Hto & _).
  rewrite count_nil, Z.add_0_r in E2, Hf, Hto. fold pos in E1, E2, Hf, Hto.
  unfold Split. destruct (Z.ltb_spec pos 0), (Z.ltb_spec (text_len t) pos); try lia. cbn [orb].
  cbv zeta. rewrite foldl_pairs, E1, E2. cbn [app].
  pose proof (good_marks_ok _ _ HL Hg) as Hok. destruct Hg as [[Hne _] _].
  assert (flat_map (λ m, (split_at pos m).2) (tb_Marks t) = flat_map (left_piece pos) (tb_Marks t) ∧
          flat_map (λ m, (split_at pos m).1) (tb_Marks t) =
            map (λ m, mk_mark m (mk_From m - pos) (mk_To m - pos)) (flat_map (right_piece pos pos 0) (tb_Marks t)))
    as [-> ->]; [|done].
  induction (tb_Marks t) as [|m ms IH]; [done|]. apply Forall_cons in Hok as [Hm Hok].
  apply Forall_cons in Hne as [Hn Hne]. destruct (IH Hne Hok) as [I1 I2]. cbn [flat_map].
  rewrite map_app, I1, I2, split_at_pieces by (try done; unfold off_ok; lia). done.
Qed.

Section merge.
Context `{SM : !SortMarks, SMO : !SortMarksOk}.

Lemma Merge_Ok t b dontSetStyle :
  Forall scalar (tb_Text t) → Forall scalar (tb_Text b) → text_len t < max_off → text_len b < max_off →
  good_marks (text_len t) (tb_Marks t) → good_marks (text_len b) (tb_Marks b) →
  ∃ t', Merge t (Some b) dontSetStyle = Some (Ok t') ∧ tb_Text t' = tb_Text t ++ tb_Text b ∧
    good_marks (text_len t') (tb_Marks t') ∧
    (tb_Checked t' = tb_Checked t ∧ tb_Color t' = tb_Color t ∧ tb_Align t' = tb_Align t) ∧
    (if negb dontSetStyle && bool_decide (tb_Text t = []) && (tb_Style t =? Style_Paragraph)
     then tb_Style t' = tb_Style b ∧ tb_BackgroundColor t' = tb_BackgroundColor b
     else tb_Style t' = tb_Style t ∧ tb_BackgroundColor t' = tb_BackgroundColor t) ∧
    ∀ ty p k, covers (tb_Marks t') ty p k ↔
      covers (tb_Marks t) ty p k ∨ covers (tb_Marks b) ty p (k - text_len t).
Proof.
  intros Hs Hb HL HLb Hg Hgb. pose proof (count_nonneg _ Hs) as Hn. fold (text_len t) in Hn.
  pose proof (count_nonneg _ Hb) as Hnb. fold (text_len b) in Hnb.
  unfold Merge. cbv zeta. change (tb_Style t =? 0) with (tb_Style t =? Style_Paragraph).
  set (adopt := negb dontSetStyle && bool_decide (tb_Text t = []) && (tb_Style t =? Style_Paragraph)).
  set (u := if adopt then _ else t).
  assert (tb_Text u = tb_Text t ∧ tb_Marks u = tb_Marks t ∧ tb_Checked u = tb_Checked t ∧
          tb_Color u = tb_Color t ∧ tb_Align u = tb_Align t) as (U1 & U2 & U3 & U4 & U5)
    by (subst u; by destruct adopt).
  assert (text_len u = text_len t) as U6 by (unfold text_len; by rewrite U1).
  rewrite U6, U2, (i32_small (text_len t)) by (unfold max_off in *; lia).
  rewrite map_i32_shift; [|unfold off_ok; lia|by apply (good_marks_ok (text_len b))].
  set (ms := tb_Marks t ++ _).
  assert (good_marks (text_len t + text_len b) ms) as Hms.
  { destruct Hg as [Ht Hw], Hgb as [Htb Hwb].
    assert (Forall (within (text_len t) (text_len t + text_len b))
              (map (λ m, mk_mark m (mk_From m + text_len t) (mk_To m + text_len t)) (tb_Marks b))) as Hwb'.
    { apply Forall_map. eapply Forall_impl; [exact Hwb|]. unfold within. simpl. intros. lia. }
    split.
    - apply tidy_app. split_and!; [done|by apply shift_tidy|]. by apply (within_apart _ _ _ _ _ _ Hw Hwb').
    - apply Forall_app. split; eapply within_impl; [..|exact Hw| | |exact Hwb']; lia. }
  apply good_marks_normalize in Hms as [Hms Hc].
  eexists. split; [reflexivity|]. unfold normalizeMarks, text_len. cbn [tb_Text tb_Marks tb_Checked tb_Color
    tb_Align tb_Style tb_BackgroundColor with_marks with_text]. rewrite U1.
  split_and!; try done.
  - by rewrite count_app.
  - subst u. by destruct adopt.
  - intros ty p k. rewrite Hc. subst ms. by rewrite covers_app, covers_shift.
Qed.

(** C33. Splitting a text block between two characters and merging the parts again
    gives back the text, the style, the colours, the alignment and, on every unit,
    the marks. *)
Theorem split_merge_roundtrip t l r dontSetStyle :
  tb_Text t = l ++ r → Forall scalar (tb_Text t) → text_len t < max_off → good_marks (text_len t) (tb_Marks t) →
  ∃ first rest t', Split t (UTF16RuneCountString l) = Ok (first, rest) ∧
    tb_Text first = l ∧ tb_Text rest = r ∧ Merge first (Some rest) dontSetStyle = Some (Ok t') ∧
    tb_Text t' = tb_Text t ∧ tb_Style t' = tb_Style t ∧ tb_Checked t' = tb_Checked t ∧
    tb_Color t' = tb_Color t ∧ tb_BackgroundColor t' = tb_BackgroundColor t ∧ tb_Align t' = tb_Align t ∧
    ∀ ty p k, covers (tb_Marks t') ty p k ↔ covers (tb_Marks t) ty p k.
Proof.
  intros E Hs HL Hg. rewrite (Split_Ok t l r) by done. set (pos := UTF16RuneCountString l).
  do 2 eexists. destruct (units_parts t l [] r E Hs) as (_ & _ & _ & Hf & Hto & Hlen).
  rewrite count_nil, Z.add_0_r in Hf, Hto, Hlen. fold pos in Hf, Hto, Hlen.
  rewrite E, Forall_app in Hs. destruct Hs as [Hsl Hsr]. pose proof (count_nonneg _ Hsr).
  pose proof (good_marks_ok _ _ HL Hg) as Hok. destruct (left_pieces_tidy pos (tb_Marks t)) as [Tl Wl]; [apply Hg|].
  destruct (right_pieces_tidy pos pos 0 (tb_Marks t)) as [Tr Wr]; [apply Hg|].
  edestruct (Merge_Ok (new_text_block l (tb_Style t) (flat_map (left_piece pos) (tb_Marks t)) (tb_Checked t)
    (tb_Color t) (tb_BackgroundColor t) (tb_Align t))
    (with_marks (with_text t r) (map (λ m, mk_mark m (mk_From m - pos) (mk_To m - pos))
      (flat_map (right_piece pos pos 0) (tb_Marks t)))) dontSetStyle)
    as (t' & M1 & M2 & M3 & (M4 & M5 & M6) & M7 & M8);
    unfold text_len; cbn [tb_Text tb_Marks with_marks with_text new_text_block]; fold pos; [done|done|lia|lia| | |].
  - split; [done|]. eapply within_impl; [..|apply (Wl 0 (text_len t)), Hg]; lia.
  - split; [by apply (shift_tidy (- pos))|]. apply Forall_map.
    eapply Forall_impl; [apply (Wr 0 (text_len t)), Hg|]. unfold within. simpl. intros. lia.
  - exists t'. split_and!; [done|done|done|done|by rewrite M2, E| |done|done| |done|].
    1,2: case_match; apply M7.
    intros ty p k. rewrite M8. unfold text_len. cbn [tb_Text tb_Marks with_marks with_text new_text_block]. fold pos.
    pose proof (covers_shift (- pos) (flat_map (right_piece pos pos 0) (tb_Marks t)) ty p (k - pos)) as Hsh.
    cbn beta in Hsh.
    rewrite Hsh. pose proof (splitMarks_covers_aux (tb_Marks t) pos pos 0 ty p k) as Hc.
    rewrite splitMarks_pieces in Hc by (try done; unfold off_ok, max_off in *; try lia; apply Hg).
    cbn [fst snd] in Hc. destruct Hc as [C1 C2]; [unfold off_ok, max_off in *; lia..|done|].
    replace (k - pos - - pos) with k by lia. rewrite C1, C2.
    replace (k - 0 + (pos - pos)) with k by lia.
    destruct (decide (k < pos)); intuition lia.
Qed.
End merge.

(** ** Normalisation *)

Section normalisation.
Context `{SM : !SortMarks, SMO : !SortMarksOk}.

(** C34. Normalising the marks of a block always ends and leaves no two neighbours
    that could be merged; when no mark lies strictly inside another one of the same
    type and parameter, the result is sorted by type and start and every unit of
    the text carries exactly the marks it carried before. *)
Theorem normalize_correct ms :
  (∃ r, normalize_loop (normalize_fuel (length (sort_marks ms))) 0 (sort_marks ms) = Some r ∧
        normalizeMarksPure ms = r ∧
        ∀ l1 m sm l2, r = l1 ++ m :: sm :: l2 → mergeable m sm = false) ∧
  (non_nested ms →
     StronglySorted marks_le (normalizeMarksPure ms) ∧
     ∀ ty p k, covers (normalizeMarksPure ms) ty p k ↔ covers ms ty p k).
Proof.
  split.
  - destruct (normalize_loop_spec (λ _, True) (normalize_fuel (length (sort_marks ms))) 0 (sort_marks ms))
      as (r & E & _ & Hr); [try done; try (unfold normalize_fuel; nia); intros; lia..|].
    exists r. split_and!; [done| |done]. unfold normalizeMarksPure. by rewrite E.
  - intros Hn. split; [|intros; by apply normalize_covers].
    pose proof (normalize_sorted ms Hn) as Hs. induction Hs as [|x l _ IH Hx]; [constructor|].
    constructor; [exact IH|]. eapply Forall_impl; [exact Hx|]. by intros y [? _].
Qed.

(** Two marks of one type in order of their start stay in order. *)
Lemma sort_two a b : mk_Type a = mk_Type b → mk_From a < mk_From b → sort_marks [a; b] = [a; b].
Proof.
  intros Ht Hf. pose proof (sort_marks_perm [a; b]) as Hp. pose proof (sort_marks_sorted [a; b]) as Hs.
  destruct (Permutation_length_2_inv (Permutation_sym Hp)) as [E|E]; rewrite E in *; [done|].
  apply StronglySorted_cons in Hs as [Hs _]. apply Forall_cons in Hs as [Hs _].
  apply marks_le_same in Hs; [lia|done].
Qed.

(** A mark strictly inside another mark of the same type and parameter cuts
    the outer one off at its own end: the units behind it lose the mark. *)
Theorem nested_mark_truncated ty p f t f' t' :
  f < f' ≤ t' → t' < t →
  let outer := {| mk_Type := ty; mk_Param := p; mk_From := f; mk_To := t |} in
  let inner := {| mk_Type := ty; mk_Param := p; mk_From := f'; mk_To := t' |} in
  normalizeMarksPure [outer; inner] = [{| mk_Type := ty; mk_Param := p; mk_From := f; mk_To := t' |}] ∧
  ∀ k, t' ≤ k < t → covers [outer; inner] ty p k ∧ ¬ covers (normalizeMarksPure [outer; inner]) ty p k.
Proof.
  intros Hf Ht outer inner.
  assert (normalizeMarksPure [outer; inner] = [{| mk_Type := ty; mk_Param := p; mk_From := f; mk_To := t' |}]) as E.
  { unfold normalizeMarksPure. rewrite (sort_two outer inner) by (done || (simpl; lia)).
    assert (mergeable outer inner = true) as Hm by (apply mergeable_spec; simpl; split; [done|lia]).
    change (normalize_fuel (length [outer; inner])) with 10%nat. cbn [normalize_loop]. cbn.
    rewrite Hm. done. }
  split; [done|]. intros k Hk. split.
  - rewrite covers_cons. left. unfold mark_covers. simpl. split_and!; try done; lia.
  - rewrite E, covers_singleton. unfold mark_covers. simpl. lia.
Qed.
End normalisation.

(** ** Differences *)

Lemma markEq_spec a b : markEq a b = true → a = b.
Proof.
  unfold markEq. destruct (Z.eqb_spec (mk_Type a) (mk_Type b)); [|done]. case_bool_decide; [|done].
  destruct (Z.eqb_spec (mk_From a) (mk_From b)), (Z.eqb_spec (mk_To a) (mk_To b)); try done.
  destruct a, b; simpl in *; congruence.
Qed.

Lemma zip_markEq l1 l2 : length l1 = length l2 → forallb (λ '(v, w), markEq v w) (zip l1 l2) = true → l1 = l2.
Proof.
  revert l2. induction l1 as [|a l1 IH]; intros [|b l2] Hl H; try done.
  simpl in H. apply andb_true_iff in H as [H1 H2]. f_equal; [by apply markEq_spec|apply IH; [by injection Hl|done]].
Qed.

Lemma changed_default {A} `{EqDecision A} (old new : A) : default old (changed old new) = new.
Proof. unfold changed. by case_bool_decide. Qed.

Lemma changed_None {A} `{EqDecision A} (old new : A) : changed old new = None → old = new.
Proof. unfold changed. by case_bool_decide. Qed.

Lemma ApplyEvent_fields t e :
  tb_Text (ApplyEvent t e) = default (tb_Text t) (ev_Text e) ∧
  tb_Style (ApplyEvent t e) = default (tb_Style t) (ev_Style e) ∧
  tb_Marks (ApplyEvent t e) = default (tb_Marks t) (ev_Marks e) ∧
  tb_Checked (ApplyEvent t e) = default (tb_Checked t) (ev_Checked e) ∧
  tb_Color (ApplyEvent t e) = default (tb_Color t) (ev_Color e) ∧
  tb_IconImage (ApplyEvent t e) = default (tb_IconImage t) (ev_IconImage e) ∧
  tb_IconEmoji (ApplyEvent t e) = default (tb_IconEmoji t) (ev_IconEmoji e).
Proof. destruct e as [[] [] [] [] [] [] []]; done. Qed.

(** The text content of two blocks is the same. *)
Definition same_content (a b : TextBlock) : Prop :=
  tb_Text a = tb_Text b ∧ tb_Style a = tb_Style b ∧ tb_Marks a = tb_Marks b ∧ tb_Checked a = tb_Checked b ∧
  tb_Color a = tb_Color b ∧ tb_IconImage a = tb_IconImage b ∧ tb_IconEmoji a = tb_IconEmoji b.

Section differences.
Context `{SM : !SortMarks, SMO : !SortMarksOk}.

Lemma marksEq_spec s1 s2 :
  let '(eq, m1, m2) := marksEq s1 s2 in m1 ≡ₚ s1 ∧ m2 ≡ₚ s2 ∧ (eq = true → m1 = m2).
Proof.
  unfold marksEq. destruct (Z.eqb_spec (Z.of_nat (length s1)) (Z.of_nat (length s2))); cbn [negb]; [|done].
  split_and!; [apply sort_marks_perm|apply sort_marks_perm|]. apply zip_markEq.
  pose proof (sort_marks_perm s1) as H1%Permutation_length. pose proof (sort_marks_perm s2) as H2%Permutation_length.
  lia.
Qed.

(** The event computed from two versions of a text block turns the content of
    the old one into the content of the new one; when no event is produced the
    contents already agree.  The comparison only reorders marks. *)
Theorem text_Diff_ApplyEvent t text :
  let '(ev, t1, text1) := Diff t text in
  t1 = with_marks t (tb_Marks t1) ∧ tb_Marks t1 ≡ₚ tb_Marks t ∧
  text1 = with_marks text (tb_Marks text1) ∧ tb_Marks text1 ≡ₚ tb_Marks text ∧
  same_content (match ev with Some e => ApplyEvent t1 e | None => t1 end) text1.
Proof.
  unfold Diff. pose proof (marksEq_spec (tb_Marks t) (tb_Marks text)) as Hm.
  destruct (marksEq (tb_Marks t) (tb_Marks text)) as [[eq m1] m2]. destruct Hm as (H1 & H2 & Heq).
  cbv zeta. split_and!; [done|done|done|done|]. unfold same_content.
  set (ev := {| ev_Text := _ |}). destruct (_ || _) eqn:Ech.
  - destruct (ApplyEvent_fields (with_marks t m1) ev) as (-> & -> & -> & -> & -> & -> & ->).
    subst ev. cbn [tb_Text tb_Style tb_Marks tb_Checked tb_Color tb_IconImage tb_IconEmoji with_marks
      ev_Text ev_Style ev_Marks ev_Checked ev_Color ev_IconImage ev_IconEmoji].
    rewrite !changed_default. split_and!; try done. destruct eq; [by apply Heq|done].
  - rewrite !orb_false_iff, !bool_decide_eq_false, <- !eq_None_not_Some in Ech.
    destruct Ech as ((((((E1 & E2) & E3) & E4) & E5) & E6) & E7). subst ev. cbn [tb_Text tb_Style tb_Marks
      tb_Checked tb_Color tb_IconImage tb_IconEmoji with_marks ev_Text ev_Style ev_Marks ev_Checked ev_Color
      ev_IconImage ev_IconEmoji] in *.
    apply changed_None in E1, E2, E3, E5, E6, E7. split_and!; try done. destruct eq; [by apply Heq|done].
Qed.
End differences.

(** ** Merging with a block of another kind *)

(** Merging text blocks appends the text and moves the marks with it, keeps
    colour, alignment and the check, and adopts the style and background of the
    argument exactly when the receiver is an empty paragraph and styles may change.
    A block that is not a plain text block is refused with an error, but in the
    case where the style would be adopted it is read before its type is checked,
    and the call panics ([None]). *)
Theorem Merge_correct `{!SortMarks, !SortMarksOk} t dontSetStyle :
  let adopts := negb dontSetStyle && bool_decide (tb_Text t = []) && (tb_Style t =? Style_Paragraph) in
  (∀ b, Forall scalar (tb_Text t) → Forall scalar (tb_Text b) → text_len t < max_off → text_len b < max_off →
   good_marks (text_len t) (tb_Marks t) → good_marks (text_len b) (tb_Marks b) →
   ∃ t', Merge t (Some b) dontSetStyle = Some (Ok t') ∧ tb_Text t' = tb_Text t ++ tb_Text b ∧
    good_marks (text_len t') (tb_Marks t') ∧
    (tb_Checked t' = tb_Checked t ∧ tb_Color t' = tb_Color t ∧ tb_Align t' = tb_Align t) ∧
    (if adopts
     then tb_Style t' = tb_Style b ∧ tb_BackgroundColor t' = tb_BackgroundColor b
     else tb_Style t' = tb_Style t ∧ tb_BackgroundColor t' = tb_BackgroundColor t) ∧
    ∀ ty p k, covers (tb_Marks t') ty p k ↔
      covers (tb_Marks t) ty p k ∨ covers (tb_Marks b) ty p (k - text_len t)) ∧
  (Merge t None dontSetStyle = None ↔ adopts = true) ∧
  (adopts = false → Merge t None dontSetStyle = Some (Err "unexpected block type for merge")).
Proof.
  intros adopts. split_and!.
  - intros b. apply Merge_Ok.
  - unfold Merge. fold adopts. change (tb_Style t =? 0) with (tb_Style t =? Style_Paragraph). fold adopts.
    by destruct adopts.
  - intros Ha. unfold Merge. change (tb_Style t =? 0) with (tb_Style t =? Style_Paragraph). fold adopts. by rewrite Ha.
Qed.

(** ** A sort, and the theorems on examples *)

Module TextInst.

#[export] Instance marks_le_dec a b : Decision (marks_le a b).
Proof. unfold marks_le. apply _. Defined.

Lemma marks_Less_lex a b :
  marks_le a b ↔ mk_Type a < mk_Type b ∨ (mk_Type a = mk_Type b ∧ mk_From a ≤ mk_From b).
Proof.
  unfold marks_le, marks_Less. destruct (Z.eqb_spec (mk_Type b) (mk_Type a)); [rewrite Z.ltb_ge|rewrite Z.ltb_ge]; lia.
Qed.

#[export] Instance marks_le_trans : Transitive marks_le.
Proof. intros a b c. rewrite !marks_Less_lex. lia. Qed.

#[export] Instance marks_le_total : Total marks_le.
Proof. intros a b. rewrite !marks_Less_lex. lia. Qed.

#[export] Instance sort_inst : SortMarks := merge_sort marks_le.

#[export] Instance sort_ok : SortMarksOk.
Proof. split; intros l; [apply merge_sort_Permutation|apply (StronglySorted_merge_sort marks_le)]. Qed.

Definition bold (f t : Z) : Mark := {| mk_Type := Mark_Bold; mk_Param := ""; mk_From := f; mk_To := t |}.
Definition link (p : string) (f t : Z) : Mark := {| mk_Type := Mark_Link; mk_Param := p; mk_From := f; mk_To := t |}.

(** "ab😀cd", bold on "b😀c" and linked on "a". *)
Definition sample : TextBlock :=
  new_text_block [97; 98; 128512; 99; 100] 2 [bold 1 5; link "http://a" 0 1] true "red" "grey" 1.
Definition pasted : TextBlock := new_text_block [120; 121] 0 [bold 0 2] false "" "" 0.

Definition good_b (L : Z) (ms : list Mark) : bool :=
  forallb (λ m, (mk_From m <? mk_To m) && (0 <=? mk_From m) && (mk_To m <=? L)) ms &&
  (fix go ms := match ms with
                | [] => true
                | m :: ms => forallb (λ x, negb ((mk_Type m =? mk_Type x) && bool_decide (mk_Param m = mk_Param x))
                                           || (mk_To m <=? mk_From x) || (mk_To x <=? mk_From m)) ms && go ms
                end) ms.

Lemma good_b_spec L ms : good_b L ms = true → good_marks L ms.
Proof.
  unfold good_b. intros [H1 H2]%andb_true_iff. rewrite forallb_forall in H1. setoid_rewrite <- list_elem_of_In in H1.
  split; [split|].
  - rewrite Forall_forall. intros m Hm. specialize (H1 m Hm). unfold nonempty. lia.
  - clear H1. induction ms as [|m ms IH]; [constructor|]. apply andb_true_iff in H2 as [H2 H3]. constructor; [|by apply IH].
    rewrite forallb_forall in H2. rewrite Forall_forall. intros x Hx. apply list_elem_of_In in Hx. specialize (H2 x Hx).
    intros [Ht Hp]. rewrite Ht, Hp, Z.eqb_refl, bool_decide_true in H2 by done. simpl in H2. lia.
  - rewrite Forall_forall. intros m Hm. specialize (H1 m Hm). unfold within. lia.
Qed.

Lemma scalars_b ms : forallb (λ r, (0 <=? r) && (r <? 55296)
  || (57344 <=? r) && (r <? 1114112)) ms = true → Forall scalar ms.
Proof.
  rewrite forallb_forall, Forall_forall. intros H r Hr. apply list_elem_of_In in Hr. specialize (H r Hr).
  unfold scalar. lia.
Qed.

Lemma paste_replaces_witness :
  RangeTextPaste sample 1 4 pasted true = Ok (with_marks (with_text sample [97; 120; 121; 99; 100])
    [bold 1 4; link "http://a" 0 1], 3) ∧
  ∃ t', RangeTextPaste sample 1 4 pasted true = Ok (t', 1 + 2) ∧
    tb_Text t' = [97] ++ tb_Text pasted ++ [99; 100] ∧ good_marks (text_len t') (tb_Marks t') ∧
    ∀ ty p k, covers (tb_Marks t') ty p k ↔
      (k < 1 ∧ covers (tb_Marks sample) ty p k) ∨ covers (tb_Marks pasted) ty p (k - 1) ∨
      (1 + 2 ≤ k ∧ covers (tb_Marks sample) ty p (k - 2 + (4 - 1))).
Proof.
  split; [vm_compute; reflexivity|].
  apply (paste_replaces sample [97] [98; 128512] [99; 100] pasted true);
    [done|by apply scalars_b|by apply scalars_b|done|done|by apply good_b_spec|by apply good_b_spec].
Defined.

Lemma cut_paste_roundtrip_witness :
  ∃ cut rest t', clipboard_cut (λ p, Ok p) sample 1 4 = Ok (cut, rest) ∧ tb_Text cut = [98; 128512] ∧
    tb_Text rest = [97; 99; 100] ∧ RangeTextPaste rest 1 1 cut false = Ok (t', 4) ∧
    tb_Text t' = tb_Text sample ∧ ∀ ty p k, covers (tb_Marks t') ty p k ↔ covers (tb_Marks sample) ty p k.
Proof.
  apply (cut_paste_roundtrip (λ p, Ok p) sample [97] [98; 128512] [99; 100]);
    [done|by apply scalars_b|done|by apply good_b_spec|repeat constructor].
Defined.

Lemma split_merge_roundtrip_witness :
  ∃ first rest t', Split sample 4 = Ok (first, rest) ∧
    tb_Text first = [97; 98; 128512] ∧ tb_Text rest = [99; 100] ∧ Merge first (Some rest) false = Some (Ok t') ∧
    tb_Text t' = tb_Text sample ∧ tb_Style t' = 2 ∧ tb_Checked t' = true ∧ tb_Color t' = "red" ∧
    tb_BackgroundColor t' = "grey" ∧ tb_Align t' = 1 ∧
    ∀ ty p k, covers (tb_Marks t') ty p k ↔ covers (tb_Marks sample) ty p k.
Proof.
  apply (split_merge_roundtrip sample [97; 98; 128512] [99; 100] false);
    [done|by apply scalars_b|done|by apply good_b_spec].
Defined.

Lemma normalize_correct_witness :
  let ms := [bold 5 10; link "http://a" 0 1; bold 0 5] in
  normalizeMarksPure ms = [bold 0 10; link "http://a" 0 1] ∧
  StronglySorted marks_le (normalizeMarksPure ms) ∧
  ∀ ty p k, covers (normalizeMarksPure ms) ty p k ↔ covers ms ty p k.
Proof.
  intros ms. split; [vm_compute; reflexivity|].
  apply (normalize_correct ms), tidy_non_nested, (good_b_spec 10). reflexivity.
Defined.

Lemma nested_mark_truncated_witness :
  normalizeMarksPure [bold 0 10; bold 2 5] = [bold 0 5] ∧
  ∀ k, 5 ≤ k < 10 → covers [bold 0 10; bold 2 5] Mark_Bold "" k ∧
    ¬ covers (normalizeMarksPure [bold 0 10; bold 2 5]) Mark_Bold "" k.
Proof. apply (nested_mark_truncated Mark_Bold "" 0 10 2 5); lia. Defined.

Definition empty_paragraph : TextBlock := new_text_block [] Style_Paragraph [] false "" "" 0.

Lemma Merge_correct_witness :
  Merge empty_paragraph None false = None ∧
  ∃ t', Merge empty_paragraph (Some sample) false = Some (Ok t') ∧ tb_Text t' = tb_Text sample ∧
    tb_Style t' = 2 ∧ ∀ ty p k, covers (tb_Marks t') ty p k ↔ covers (tb_Marks sample) ty p k.
Proof.
  destruct (Merge_correct empty_paragraph false) as (H1 & H2 & _). split; [by apply H2|].
  destruct (H1 sample) as (t' & E & E2 & _ & _ & [E3 _] & E4);
    [by apply scalars_b|by apply scalars_b|done|done|by apply good_b_spec|by apply good_b_spec|].
  exists t'. split_and!; [done|done|done|]. intros ty p k. rewrite E4. cbn [tb_Marks empty_paragraph new_text_block].
  rewrite covers_nil_iff. change (text_len empty_paragraph) with 0. rewrite Z.sub_0_r. tauto.
Defined.

Lemma text_Diff_ApplyEvent_witness :
  let '(ev, t1, text1) := Diff sample pasted in
  is_Some ev ∧ t1 = with_marks sample (tb_Marks t1) ∧ tb_Marks t1 ≡ₚ tb_Marks sample ∧
  text1 = with_marks pasted (tb_Marks text1) ∧ tb_Marks text1 ≡ₚ tb_Marks pasted ∧
  same_content (match ev with Some e => ApplyEvent t1 e | None => t1 end) text1.
Proof. split; [by eexists|]. apply (text_Diff_ApplyEvent sample pasted). Defined.
End TextInst.
