(* ===== verification/StateTree.v ===== *)
(** * The block tree of an object ([core/block/editor/state/state.go])

    A state is a layer of blocks over the layers of its parents: [Pick] reads
    through the layers, [Get] copies a block into the top layer before it is
    changed.  Blocks refer to each other by id, so the layers together describe a
    graph from the root block; [Iterate] walks it depth first and refuses cycles.

    A parent chain is the list of the parents' block maps, nearest first.  A block
    carries what this component reads of it: its id, its children, its content, its fields
    and its background colour.  The
    root id is known ([NewDoc] with an id); the guess of [RootId] for an empty root
    id picks a block by map iteration order and is not used here. *)

From S2P Require Import Prelude Slice GoFloat PbTypes.

Local Open Scope Z_scope.

(** ** Data *)

Inductive LayoutStyle := LRow | LColumn | LDiv | LHeader | LTableRows | LTableColumns.

Inductive FileState := FileEmpty | FileUploading | FileDone | FileError.

(** The content of a block: layouts are inspected, other kinds carry a payload.
    [CNone] is a nil content, [CSmartblockNil] a smartblock content without its
    message. *)
Inductive Content :=
| CLayout (style : LayoutStyle)
| CText (payload : string)
| CTable
| CTableColumn
| CTableRow (isHeader : bool)
| CSmartblock
| CSmartblockNil
| CNone
| CFile (state : FileState) (payload : string)
| COther (kind payload : string).

#[export] Instance LayoutStyle_eq_dec : EqDecision LayoutStyle.
Proof. solve_decision. Defined.
#[export] Instance FileState_eq_dec : EqDecision FileState.
Proof. solve_decision. Defined.
#[export] Instance Content_eq_dec : EqDecision Content.
Proof. solve_decision. Defined.

(** A value of the fields of a block: a number by the bits of its [float64]. *)
Inductive FieldValue := FNumber (bits : Z) | FOther (payload : string).

#[export] Instance FieldValue_eq_dec : EqDecision FieldValue.
Proof. solve_decision. Defined.

Record Block := {
  b_Id : string;
  b_ChildrenIds : list string;
  b_Content : Content;
  b_Fields : gmap string FieldValue;
  b_BackgroundColor : string;
}.

#[export] Instance Block_eq_dec : EqDecision Block.
Proof. solve_decision. Defined.

Definition with_children (b : Block) (ids : list string) : Block :=
  {| b_Id := b_Id b; b_ChildrenIds := ids; b_Content := b_Content b; b_Fields := b_Fields b; b_BackgroundColor := b_BackgroundColor b |}.

Abbreviation Blocks := (gmap string Block).

Inductive BlockPosition := PNone | PTop | PBottom | PLeft | PRight | PInner | PReplace | PInnerFirst.

#[export] Instance BlockPosition_eq_dec : EqDecision BlockPosition.
Proof. solve_decision. Defined.

(** ** Messages about blocks, and the changes of the log *)

Inductive BlockMsg :=
| BAdd (blocks : list Block)
| BDelete (ids : list string)
| BSetChildrenIds (id : string) (ids : list string)
| BSetFields (id : string) (fields : gmap string FieldValue)
| BSetBackgroundColor (id color : string)
| BSetContent (id : string) (content : Content).

#[export] Instance BlockMsg_eq_dec : EqDecision BlockMsg.
Proof. solve_decision. Defined.

Inductive NotificationStatus := Created | Shown | Read | Replied.
#[export] Instance NotificationStatus_eq_dec : EqDecision NotificationStatus.
Proof. solve_decision. Defined.
(** The rest of a notification is only passed on. *)
Record Notification := { nt_Id : string; nt_Status : NotificationStatus; nt_payload : string }.
Record DeviceInfo := { dv_Id : string; dv_Name : string; dv_AddDate : Z }.
(** [model.FileInfo]: the keys with their paths. *)
Record FileInfoModel := { fm_FileId : string; fm_EncryptionKeys : list (string * string) }.

Inductive StoreSliceOp :=
| SliceAdd (ids : list string) (afterId : string)
| SliceRemove (ids : list string)
| SliceMove (ids : list string) (afterId : string).

(** [pb.ChangeContent]. *)
Inductive Change :=
| ChMove (target : string) (pos : BlockPosition) (ids : list string)
| ChCreate (target : string) (pos : BlockPosition) (blocks : list Block)
| ChRemove (ids : list string)
| ChUpdate (events : list BlockMsg)
| ChDetailsSet (key : string) (value : PbValue)
| ChDetailsUnset (key : string)
| ChRelationAdd (links : list RelationLink)
| ChRelationRemove (keys : list string)
| ChObjectTypeAdd (url key : string)
| ChObjectTypeRemove (url key : string)
| ChStoreKeySet (path : list string) (value : PbValue)
| ChStoreKeyUnset (path : list string)
| ChStoreSliceUpdate (key : string) (op : option StoreSliceOp)
| ChOriginalCreatedTimestampSet (ts : Z)
| ChSetFileInfo (info : option FileInfoModel)
| ChNotificationCreate (n : Notification)
| ChNotificationUpdate (id : string) (status : NotificationStatus)
| ChDeviceAdd (d : DeviceInfo)
| ChDeviceUpdate (id name : string)
| ChUnknown.

Record State := {
  st_rootId : string;
  st_blocks : Blocks;
  st_parents : list Blocks;
  st_changes : list Change;
  st_ignoreIds : list string;
}.

Definition with_blocks (s : State) (bs : Blocks) : State :=
  {| st_rootId := st_rootId s; st_blocks := bs; st_parents := st_parents s; st_changes := st_changes s;
     st_ignoreIds := st_ignoreIds s |}.

Definition NewDoc (rootId : string) (blocks : Blocks) : State :=
  {| st_rootId := rootId; st_blocks := blocks; st_parents := []; st_changes := []; st_ignoreIds := [] |}.

Definition NewState (s : State) : State :=
  {| st_rootId := st_rootId s; st_blocks := ∅; st_parents := st_blocks s :: st_parents s; st_changes := [];
     st_ignoreIds := [] |}.

(** ** Reading and writing blocks *)

Fixpoint pick_layers (layers : list Blocks) (id : string) : option Block :=
  match layers with
  | [] => None
  | l :: layers => match l !! id with Some b => Some b | None => pick_layers layers id end
  end.

Definition Pick (s : State) (id : string) : option Block := pick_layers (st_blocks s :: st_parents s) id.

Definition Exists (s : State) (id : string) : bool := bool_decide (is_Some (Pick s id)).
Definition InState (s : State) (id : string) : bool := bool_decide (is_Some (st_blocks s !! id)).
Definition PickOrigin (s : State) (id : string) : option Block := pick_layers (st_parents s) id.

(** The block returned lives in the top layer, as a copy if need be. *)
Definition Get (s : State) (id : string) : option Block * State :=
  match st_blocks s !! id with
  | Some b => (Some b, s)
  | None =>
      match st_parents s with
      | [] => (None, s)
      | _ => match Pick s id with
             | Some b => (Some b, with_blocks s (<[id:=b]> (st_blocks s)))
             | None => (None, s)
             end
      end
  end.

(** Writing through the pointer that [Get] returned. *)
Definition setChildrenIds (s : State) (id : string) (ids : list string) : State :=
  match st_blocks s !! id with
  | Some b => with_blocks s (<[id:=with_children b ids]> (st_blocks s))
  | None => s
  end.

Definition Add (s : State) (b : Block) : bool * State :=
  match Pick s (b_Id b) with
  | None => (true, with_blocks s (<[b_Id b:=b]> (st_blocks s)))
  | Some _ => (false, s)
  end.

Definition Set_ (s : State) (b : Block) : State :=
  if Exists s (b_Id b) then with_blocks s (<[b_Id b:=b]> (st_blocks s)) else (Add s b).2.

(** Removes the block from the nearest layer that has it. *)
Fixpoint cleanup_layers (layers : list Blocks) (id : string) : bool * list Blocks :=
  match layers with
  | [] => (false, [])
  | l :: layers =>
      match l !! id with
      | Some _ => (true, delete id l :: layers)
      | None => let '(ok, layers) := cleanup_layers layers id in (ok, l :: layers)
      end
  end.

Definition CleanupBlock (s : State) (id : string) : bool * State :=
  match cleanup_layers (st_blocks s :: st_parents s) id with
  | (ok, bs :: ps) =>
      (ok, {| st_rootId := st_rootId s; st_blocks := bs; st_parents := ps; st_changes := st_changes s;
              st_ignoreIds := st_ignoreIds s |})
  | (ok, []) => (ok, s)
  end.

(** ** Walking the tree *)

(** The accumulator, whether to continue, and the error of a cycle. *)
Abbreviation IterResult A := (A * bool * option string)%type.

Definition err_cycle : string := "cycle reference".

Section iterate.
Context {A : Type} (pick : string → option Block) (f : A → Block → A * bool).

(** The loop over the children. *)
Fixpoint iter_children (iter : string → A → option (IterResult A)) (ids : list string) (acc : A)
    : option (IterResult A) :=
  match ids with
  | [] => Some (acc, true, None)
  | cid :: ids =>
      match iter cid acc with
      | None => None
      | Some (acc, isContinue, err) =>
          if negb isContinue || bool_decide (is_Some err) then Some (acc, isContinue, err)
          else iter_children iter ids acc
      end
  end.

(** [parentIds] is the path from the root. *)
Fixpoint iter (fuel : nat) (parentIds : list string) (id : string) (acc : A) : option (IterResult A) :=
  match fuel with
  | O => None
  | S fuel =>
      if negb (FindPos parentIds id =? -1) then Some (acc, false, Some err_cycle)
      else
        match pick id with
        | None => Some (acc, true, None)
        | Some b =>
            let '(acc, isContinue) := f acc b in
            if negb isContinue then Some (acc, false, None)
            else iter_children (iter fuel (parentIds ++ [id])) (b_ChildrenIds b) acc
        end
  end.
End iterate.

(** What all layers show together. *)
Definition view (s : State) : Blocks := foldr union ∅ (st_blocks s :: st_parents s).

(** A path without repetition is no longer than the number of blocks. *)
Definition iter_fuel (s : State) : nat := S (size (view s)).

Definition Iterate {A} (s : State) (f : A → Block → A * bool) (acc : A) : option (IterResult A) :=
  iter (Pick s) f (iter_fuel s) [] (st_rootId s) acc.

(** The caller ignores the error. *)
Definition iterated {A} (acc : A) (r : option (IterResult A)) : A :=
  match r with Some (acc, _, _) => acc | None => acc end.

(** ** Parents *)

Definition has_child (b : Block) (id : string) : bool := negb (FindPos (b_ChildrenIds b) id =? -1).

Definition PickParentOf (s : State) (id : string) : option Block :=
  iterated None (Iterate s (λ r b, if has_child b id then (Some b, false) else (r, true)) None).

Definition GetParentOf (s : State) (id : string) : option Block * State :=
  match PickParentOf s id with
  | Some parent => Get s (b_Id parent)
  | None => (None, s)
  end.

Definition removeChildren (s : State) (parent : Block) (childrenId : string) : State :=
  setChildrenIds s (b_Id parent) (RemoveMut (b_ChildrenIds parent) childrenId).

Definition Unlink (s : State) (blockId : string) : bool * State :=
  match GetParentOf s blockId with
  | (Some parent, s) => (true, removeChildren s parent blockId)
  | (None, s) => (false, s)
  end.

Definition IsParentOf (s : State) (parentId childId : string) : bool :=
  match Pick s parentId with
  | None => false
  | Some p => has_child p childId
  end.

(** [IsChild] and [HasParent] climb the parents; [None] when the climb does not
    end within the fuel. *)
Fixpoint climb (fuel : nat) (s : State) (parentId childId : string) : option bool :=
  match fuel with
  | O => None
  | S fuel =>
      match PickParentOf s childId with
      | None => Some false
      | Some parent => if bool_decide (b_Id parent = parentId) then Some true else climb fuel s parentId (b_Id parent)
      end
  end.

Definition IsChild (s : State) (parentId childId : string) : option bool := climb (iter_fuel s) s parentId childId.
Definition HasParent (s : State) (id parentId : string) : option bool := IsChild s parentId id.

(** ** Inserting blocks ([position.go]) *)

Record changeBuilder := {
  cb_changes : list Change;
  cb_isLastAdd : bool;
  cb_lastTargetId : string;
  cb_lastPosition : BlockPosition;
  cb_lastIds : list string;
  cb_lastBlocks : list Block;
}.

Definition new_changeBuilder (changes : list Change) : changeBuilder :=
  {| cb_changes := changes; cb_isLastAdd := false; cb_lastTargetId := ""; cb_lastPosition := PNone;
     cb_lastIds := []; cb_lastBlocks := [] |}.

Definition cb_Flush (cb : changeBuilder) : changeBuilder :=
  if bool_decide (cb_lastTargetId cb = "") then cb
  else
    let changes :=
      if cb_isLastAdd cb && negb (bool_decide (cb_lastBlocks cb = []))
      then cb_changes cb ++ [ChCreate (cb_lastTargetId cb) (cb_lastPosition cb) (cb_lastBlocks cb)]
      else if negb (cb_isLastAdd cb) && negb (bool_decide (cb_lastIds cb = []))
      then cb_changes cb ++ [ChMove (cb_lastTargetId cb) (cb_lastPosition cb) (cb_lastIds cb)]
      else cb_changes cb in
    {| cb_changes := changes; cb_isLastAdd := cb_isLastAdd cb; cb_lastTargetId := "";
       cb_lastPosition := cb_lastPosition cb; cb_lastIds := []; cb_lastBlocks := [] |}.

Definition cb_Move (cb : changeBuilder) (targetId : string) (pos : BlockPosition) (id : string) : changeBuilder :=
  let cb := if cb_isLastAdd cb || negb (bool_decide (cb_lastTargetId cb = targetId))
               || negb (bool_decide (cb_lastPosition cb = pos)) then cb_Flush cb else cb in
  {| cb_changes := cb_changes cb; cb_isLastAdd := false; cb_lastTargetId := targetId; cb_lastPosition := pos;
     cb_lastIds := cb_lastIds cb ++ [id]; cb_lastBlocks := cb_lastBlocks cb |}.

Definition cb_Add (cb : changeBuilder) (targetId : string) (pos : BlockPosition) (m : Block) : changeBuilder :=
  let cb := if negb (cb_isLastAdd cb) || negb (bool_decide (cb_lastTargetId cb = targetId))
               || negb (bool_decide (cb_lastPosition cb = pos)) then cb_Flush cb else cb in
  {| cb_changes := cb_changes cb; cb_isLastAdd := true; cb_lastTargetId := targetId; cb_lastPosition := pos;
     cb_lastIds := cb_lastIds cb; cb_lastBlocks := cb_lastBlocks cb ++ [with_children m []] |}.

Definition cb_Build (cb : changeBuilder) : list Change := cb_changes (cb_Flush cb).

Definition with_changes (s : State) (changes : list Change) : State :=
  {| st_rootId := st_rootId s; st_blocks := st_blocks s; st_parents := st_parents s; st_changes := changes;
     st_ignoreIds := st_ignoreIds s |}.
Definition ignore_ids (s : State) (ids : list string) : State :=
  {| st_rootId := st_rootId s; st_blocks := st_blocks s; st_parents := st_parents s; st_changes := st_changes s;
     st_ignoreIds := st_ignoreIds s ++ ids |}.

Inductive operation := operationNone | operationAdd | operationMove.

#[export] Instance operation_eq_dec : EqDecision operation.
Proof. solve_decision. Defined.

(** The loop over [ids]; the state changes because [Get] copies blocks. *)
Fixpoint side_moving_loop (s : State) (cb : changeBuilder) (targetID : string) (pos : BlockPosition)
    (lastTargetID : string) (lastOperation : operation) (ids : list string) : changeBuilder * State :=
  match ids with
  | [] => (cb, s)
  | id :: ids =>
      if bool_decide (is_Some (PickOrigin s id)) then
        let '(targetID, pos) :=
          if bool_decide (lastOperation = operationAdd) then (lastTargetID, PBottom) else (targetID, pos) in
        side_moving_loop s (cb_Move cb targetID pos id) targetID pos id operationMove ids
      else
        match Get s id with
        | (Some blockToAdd, s) =>
            let '(targetID, pos) :=
              if bool_decide (lastOperation = operationMove) then (lastTargetID, PBottom) else (targetID, pos) in
            side_moving_loop s (cb_Add cb targetID pos blockToAdd) targetID pos id operationAdd ids
        | (None, s) => side_moving_loop s cb targetID pos lastTargetID lastOperation ids
        end
  end.

Definition addChangesForSideMoving (s : State) (targetID : string) (pos : BlockPosition) (ids : list string) : State :=
  let '(cb, s) := side_moving_loop s (new_changeBuilder (st_changes s)) targetID pos targetID operationNone ids in
  with_changes s (cb_Build cb).

Definition layout_block (id : string) (children : list string) (style : LayoutStyle) : Block :=
  {| b_Id := id; b_ChildrenIds := children; b_Content := CLayout style; b_Fields := ∅; b_BackgroundColor := "" |}.

(** These return the new block and whether it entered the state: [Add] leaves a
    block that already exists alone, and the returned block is then detached. *)
Definition addNewColumn (s : State) (opId : string) (ids : list string) : Block * bool * State :=
  let column := layout_block ("cd-" +:+ opId) ids LColumn in
  let '(ok, s) := Add s column in (column, ok, s).
Definition addNewColumnToRow (s : State) (opId : string) (column : Block) : Block * bool * State :=
  let row := layout_block ("r-" +:+ opId) [b_Id column] LRow in
  let '(ok, s) := Add s row in (row, ok, s).
Definition addNewBlockAndWrapToColumn (s : State) (opId : string) (b : Block) : Block * bool * State :=
  let column := layout_block ("ct-" +:+ opId) [b_Id b] LColumn in
  let '(ok, s) := Add s column in (column, ok, s).

Definition insertChildrenIds (s : State) (id : string) (pos : Z) (ids : list string) : option State :=
  match st_blocks s !! id with
  | None => Some s
  | Some b => match Insert (b_ChildrenIds b) pos ids with
              | None => None
              | Some ch => Some (setChildrenIds s id ch)
              end
  end.
Definition prependChildrenIds (s : State) (id : string) (ids : list string) : State :=
  match st_blocks s !! id with
  | None => s
  | Some b => setChildrenIds s id (b_ChildrenIds b ++ ids)
  end.
Definition appendChildrenIds (s : State) (id : string) (ids : list string) : State :=
  match st_blocks s !! id with
  | None => s
  | Some b => setChildrenIds s id (ids ++ b_ChildrenIds b)
  end.

(** The row, whether it is in the state, or an error. *)
Definition wrapToRow (s : State) (opId : string) (parent b : Block) : res (Block * bool) * State :=
  let '(column, _, s) := addNewBlockAndWrapToColumn s opId b in
  let '(row, ok, s) := addNewColumnToRow s opId column in
  let pos := FindPos (b_ChildrenIds parent) (b_Id b) in
  if pos =? -1 then (Err "creating row: can't find child in given parent", s)
  else (Ok (row, ok), setChildrenIds s (b_Id parent) (<[Z.to_nat pos := b_Id row]> (b_ChildrenIds parent))).

Definition is_row (b : Block) : bool := bool_decide (b_Content b = CLayout LRow).

(** An operation that can fail, or panic ([None]), and leaves a state. *)
Abbreviation outcome := (option (option string * State)).

Section insert.
(** [makeOpId] hashes with [crypto/md5]. *)
Context (md5hex : string → string).

(** [binary.Write] of the position, an [int32], little endian. *)
Definition pos_code (pos : BlockPosition) : nat :=
  match pos with PNone => 0 | PTop => 1 | PBottom => 2 | PLeft => 3 | PRight => 4 | PInner => 5
               | PReplace => 6 | PInnerFirst => 7 end%nat.
Definition pos_bytes (pos : BlockPosition) : string :=
  String (Ascii.ascii_of_nat (pos_code pos)) (String Ascii.zero (String Ascii.zero (String Ascii.zero ""))).

Definition makeOpId (target : string) (pos : BlockPosition) (ids : list string) : string :=
  md5hex (target +:+ "-" +:+ pos_bytes pos +:+ "-" +:+ foldr (λ id acc, id +:+ "-" +:+ acc) "" ids).

Definition moveFromSide (s : State) (target : Block) (parent : option Block) (pos : BlockPosition) (ids : list string)
    : outcome :=
  let s := addChangesForSideMoving s (b_Id target) pos ids in
  let opId := makeOpId (b_Id target) pos ids in
  match parent with
  | None => Some (Some "target block has not parent", s)
  | Some row =>
      if Exists s ("cd-" +:+ opId) then Some (Some "nothing to do", s)
      else
        let '(r, s) :=
          if is_row row then (Ok (row, true, Some target), s)
          else
            let s := ignore_ids s [b_Id row] in
            match wrapToRow s opId row target with
            | (Err e, s) => (Err e, s)
            | (Ok (row, ok), s) =>
                let '(target, s) := Get s (hd "" (b_ChildrenIds row)) in (Ok (row, ok, target), s)
            end in
        match r with
        | Err e => Some (Some e, s)
        | Ok (_, _, None) => None
        | Ok (row, attached, Some target) =>
            let '(column, _, s) := addNewColumn s opId ids in
            let targetPos := FindPos (b_ChildrenIds row) (b_Id target) in
            if targetPos =? -1 then Some (Some "target is not a child of row", s)
            else
              let columnPos := if bool_decide (pos = PRight) then targetPos + 1 else targetPos in
              match Insert (b_ChildrenIds row) columnPos [b_Id column] with
              | None => None
              | Some ch =>
                  let s := if attached then setChildrenIds s (b_Id row) ch else s in
                  Some (None, ignore_ids s ["cd-" +:+ opId; "ct-" +:+ opId; "r-" +:+ opId; b_Id row])
              end
        end
  end.

(** A missing first block is dereferenced: a panic. *)
Definition insertReplace (s : State) (targetId parentId : string) (targetPos : Z) (ids : list string) : option State :=
  match ids with
  | [] => Some s
  | id0 :: _ =>
      match Get s id0 with
      | (None, _) => None
      | (Some id0Block, s) =>
          let canInheritChildren := match b_Content id0Block with CText _ => true | _ => false end in
          let pos := if canInheritChildren then targetPos + 1 else targetPos in
          let targetChild := match st_blocks s !! targetId with Some t => b_ChildrenIds t | None => [] end in
          let noOwn := bool_decide (b_ChildrenIds id0Block = []) in
          let targetHasChildren := noOwn && negb (bool_decide (targetChild = [])) in
          let idsIsChild := targetHasChildren && existsb (λ id, negb (FindPos targetChild id =? -1)) ids in
          let s := if noOwn && negb idsIsChild && canInheritChildren
                   then setChildrenIds s id0 targetChild else s in
          match insertChildrenIds s parentId pos ids with
          | None => None
          | Some s => if canInheritChildren || negb targetHasChildren then Some (Unlink s targetId).2 else Some s
          end
      end
  end.

Definition contains_id (ids : list string) (id : string) : bool := negb (FindPos ids id =? -1).

(** The switch over the position, with the target (and its parent) in the state. *)
Definition insert_at (s : State) (target : Block) (targetParentM : option Block) (targetPos : Z)
    (reqPos : BlockPosition) (ids : list string) : outcome :=
  let ok (s : option State) : outcome := match s with None => None | Some s => Some (None, s) end in
  match reqPos, targetParentM with
  | PBottom, Some p => ok (insertChildrenIds s (b_Id p) (targetPos + 1) ids)
  | PTop, Some p => ok (insertChildrenIds s (b_Id p) targetPos ids)
  | (PLeft | PRight), Some p => let '(parent, s) := Get s (b_Id p) in moveFromSide s target parent reqPos ids
  | PInner, _ => ok (Some (prependChildrenIds s (b_Id target) ids))
  | PReplace, Some p => ok (insertReplace s (b_Id target) (b_Id p) targetPos ids)
  | PInnerFirst, _ => ok (Some (appendChildrenIds s (b_Id target) ids))
  | _, _ => Some (Some "unexpected position", s)
  end.

Definition InsertTo (s : State) (targetId : string) (reqPos : BlockPosition) (ids : list string) : outcome :=
  if bool_decide (ids = []) then Some (None, s)
  else if bool_decide (targetId = "") then
    match Get s (st_rootId s) with
    | (None, s) => Some (Some "target (root) block not found", s)
    | (Some target, s) =>
        insert_at s target None 0 (if bool_decide (reqPos = PInnerFirst) then PInnerFirst else PInner) ids
    end
  else
    match Get s targetId with
    | (None, s) => Some (Some "target block not found", s)
    | (Some target, s) =>
        let inner := bool_decide (reqPos = PInner) || bool_decide (reqPos = PInnerFirst) in
        let '(parent, s) := if inner then (None, s) else GetParentOf s targetId in
        match parent with
        | None =>
            if negb inner then Some (Some "target without parent", s)
            else if contains_id ids targetId then Some (Some "blockIds contains target", s)
            else insert_at s target None 0 reqPos ids
        | Some p =>
            let targetPos := FindPos (b_ChildrenIds p) (b_Id target) in
            if contains_id ids targetId then Some (Some "blockIds contains target", s)
            else if contains_id ids (b_Id p) then Some (Some "blockIds contains parent", s)
            else if targetPos =? -1 then Some (Some "target is not a child of parent", s)
            else insert_at s target (Some p) targetPos reqPos ids
        end
    end.
End insert.

(** ** Layers and their view *)

Lemma pick_layers_view layers id : pick_layers layers id = foldr union (∅ : Blocks) layers !! id.
Proof.
  induction layers as [|l layers IH]; simpl; [by rewrite lookup_empty|].
  rewrite lookup_union, IH. destruct (l !! id); simpl; [by destruct (foldr _ _ _ !! id)|].
  by destruct (foldr _ _ _ !! id).
Qed.

Lemma Pick_view s id : Pick s id = view s !! id.
Proof. apply pick_layers_view. Qed.

Lemma view_with_blocks s bs : view (with_blocks s bs) = bs ∪ foldr union ∅ (st_parents s).
Proof. done. Qed.

Lemma view_insert s id b : view (with_blocks s (<[id:=b]> (st_blocks s))) = <[id:=b]> (view s).
Proof. rewrite view_with_blocks, <- insert_union_l. done. Qed.

(** The view is kept, and so are the layers below. *)
Definition same_below (s s' : State) : Prop := st_rootId s' = st_rootId s ∧ st_parents s' = st_parents s.

Lemma same_below_refl s : same_below s s.
Proof. done. Qed.
Lemma same_below_trans s1 s2 s3 : same_below s1 s2 → same_below s2 s3 → same_below s1 s3.
Proof. unfold same_below. intros [] []. split; congruence. Qed.
#[export] Hint Resolve same_below_refl : heart.

Lemma Get_spec s id :
  (Get s id).1 = view s !! id ∧ view (Get s id).2 = view s ∧ same_below s (Get s id).2 ∧
  st_blocks (Get s id).2 !! id = view s !! id.
Proof.
  unfold Get. rewrite <- Pick_view. destruct (st_blocks s !! id) as [b|] eqn:Eb.
  { cbn [fst snd]. rewrite Pick_view. unfold view. simpl. rewrite lookup_union, Eb.
    destruct (foldr _ _ _ !! id); split_and!; auto with heart. }
  destruct (st_parents s) as [|p ps] eqn:Ep.
  { cbn [fst snd]. unfold Pick. rewrite Ep. simpl. rewrite Eb. split_and!; auto with heart. }
  destruct (Pick s id) as [b|] eqn:Epk; cbn [fst snd]; [|split_and!; auto with heart].
  rewrite view_insert, insert_id by (by rewrite <- Pick_view). split_and!; [done|done|by split|].
  simpl. by rewrite lookup_insert_eq.
Qed.

Lemma setChildrenIds_view s id b ids :
  st_blocks s !! id = Some b →
  view (setChildrenIds s id ids) = <[id:=with_children b ids]> (view s) ∧
  same_below s (setChildrenIds s id ids) ∧ st_blocks (setChildrenIds s id ids) = <[id:=with_children b ids]> (st_blocks s).
Proof. intros E. unfold setChildrenIds. rewrite E, view_insert. split_and!; [done|by split|done]. Qed.

Lemma Add_spec s b :
  (Add s b).1 = bool_decide (view s !! b_Id b = None) ∧ same_below s (Add s b).2 ∧
  view (Add s b).2 = match view s !! b_Id b with None => <[b_Id b:=b]> (view s) | Some _ => view s end.
Proof.
  unfold Add. rewrite Pick_view. destruct (view s !! b_Id b) eqn:E; cbn [fst snd].
  - split_and!; auto with heart.
  - rewrite view_insert. split_and!; [done|by split|done].
Qed.

Lemma Set_spec s b : view (Set_ s b) = <[b_Id b:=b]> (view s) ∧ same_below s (Set_ s b).
Proof.
  unfold Set_, Exists. rewrite Pick_view. case_bool_decide as E.
  - rewrite view_insert. by split.
  - destruct (Add_spec s b) as (_ & Hb & ->). apply eq_None_not_Some in E. by rewrite E.
Qed.

Lemma FindPos_path (path : list string) id : negb (FindPos path id =? -1) = bool_decide (id ∈ path).
Proof.
  pose proof (FindPos_absent path id) as H. case_bool_decide as Hin.
  - destruct (Z.eqb_spec (FindPos path id) (-1)); [|done]. tauto.
  - destruct (Z.eqb_spec (FindPos path id) (-1)); [done|]. tauto.
Qed.

(** ** Walks *)

Section walk.
Context (pick : string → option Block).

Fixpoint walk_children (w : string → option (list Block * bool)) (ids : list string) : option (list Block * bool) :=
  match ids with
  | [] => Some ([], false)
  | c :: ids =>
      match w c with
      | None => None
      | Some (l, true) => Some (l, true)
      | Some (l, false) => match walk_children w ids with
                           | None => None
                           | Some (l', cyc) => Some (l ++ l', cyc)
                           end
      end
  end.

(** The blocks in depth-first order, up to the first cycle. *)
Fixpoint walk (fuel : nat) (path : list string) (id : string) : option (list Block * bool) :=
  match fuel with
  | O => None
  | S fuel =>
      if bool_decide (id ∈ path) then Some ([], true)
      else match pick id with
           | None => Some ([], false)
           | Some b => match walk_children (walk fuel (path ++ [id])) (b_ChildrenIds b) with
                       | None => None
                       | Some (l, cyc) => Some (b :: l, cyc)
                       end
           end
  end.

(** A left fold that stops when the function says so. *)
Fixpoint fold_stop {A} (f : A → Block → A * bool) (acc : A) (l : list Block) : A * bool :=
  match l with
  | [] => (acc, true)
  | b :: l => let '(acc, go) := f acc b in if go then fold_stop f acc l else (acc, false)
  end.

Lemma fold_stop_app {A} (f : A → Block → A * bool) acc l1 l2 :
  fold_stop f acc (l1 ++ l2) =
    let '(acc', go) := fold_stop f acc l1 in if go then fold_stop f acc' l2 else (acc', false).
Proof.
  revert acc. induction l1 as [|b l1 IH]; intros acc; simpl; [done|].
  destruct (f acc b) as [acc' []]; [apply IH|done].
Qed.

(** How a fold over a walk ends. *)
Definition finish {A} (r : A * bool) (cyc : bool) : IterResult A :=
  let '(acc, go) := r in
  if go then (acc, negb cyc, if cyc then Some err_cycle else None) else (acc, false, None).

Lemma iter_children_walk {A} (f : A → Block → A * bool) w it ids :
  (∀ c l cyc acc, w c = Some (l, cyc) → it c acc = Some (finish (fold_stop f acc l) cyc)) →
  ∀ l cyc acc, walk_children w ids = Some (l, cyc) →
    iter_children it ids acc = Some (finish (fold_stop f acc l) cyc).
Proof.
  intros Hw. induction ids as [|c ids IH]; intros l cyc acc E; simpl in *; [by simplify_eq/=|].
  destruct (w c) as [[lc cc]|] eqn:Ec; [|done]. rewrite (Hw c lc cc acc Ec). unfold finish at 1.
  destruct (fold_stop f acc lc) as [acc' go] eqn:Ef. destruct cc.
  - simplify_eq/=. rewrite Ef. by destruct go.
  - destruct (walk_children w ids) as [[l' cyc']|]; [|done]. simplify_eq/=. rewrite fold_stop_app, Ef.
    destruct go; [|done]. simpl. by apply IH.
Qed.

Lemma iter_walk {A} (f : A → Block → A * bool) fuel path id l cyc acc :
  walk fuel path id = Some (l, cyc) → iter pick f fuel path id acc = Some (finish (fold_stop f acc l) cyc).
Proof.
  revert path id l cyc acc. induction fuel as [|fuel IH]; intros path id l cyc acc; [done|].
  cbn [walk iter]. rewrite FindPos_path. case_bool_decide; [intros; by simplify_eq/=|].
  destruct (pick id) as [b|]; [|intros; by simplify_eq/=].
  destruct (walk_children (walk fuel (path ++ [id])) (b_ChildrenIds b)) as [[lc cc]|] eqn:Ew; [|done].
  intros [= <- <-]. cbn [fold_stop]. destruct (f acc b) as [acc' []]; cbn [negb]; [|done].
  apply (iter_children_walk f (walk fuel (path ++ [id]))); [|done]. intros. by apply IH.
Qed.
End walk.

(** ** Reachability *)

Inductive reach (V : Blocks) (root : string) : string → Prop :=
| reach_root : reach V root root
| reach_child p b c : reach V root p → V !! p = Some b → c ∈ b_ChildrenIds b → reach V root c.

(** The path of a walk: every element is a child of the one before. *)
Inductive chain (V : Blocks) (root : string) : list string → string → Prop :=
| chain_root : chain V root [] root
| chain_child path p b c :
    chain V root path p → V !! p = Some b → c ∈ b_ChildrenIds b → chain V root (path ++ [p]) c.

Lemma reach_trans V r m id : reach V r m → reach V m id → reach V r id.
Proof. intros H1 H2. induction H2; [done|]. by eapply reach_child. Qed.

Lemma reach_step V id b c : V !! id = Some b → c ∈ b_ChildrenIds b → reach V id c.
Proof. intros. eapply reach_child; [constructor|done|done]. Qed.

Lemma reach_mono V V' r x :
  (∀ q b, V !! q = Some b → ∃ b', V' !! q = Some b' ∧ b_ChildrenIds b ⊆ b_ChildrenIds b') →
  reach V r x → reach V' r x.
Proof.
  intros Hm. induction 1 as [|q b c Hq IH Hb Hc]; [constructor|]. destruct (Hm q b Hb) as (b' & Hb' & Hs).
  eapply reach_child; [done|exact Hb'|by apply Hs].
Qed.

Lemma reach_inv_first V r id : reach V r id → id = r ∨ ∃ b c, V !! r = Some b ∧ c ∈ b_ChildrenIds b ∧ reach V c id.
Proof.
  induction 1 as [|p b c Hp IH Hb Hc]; [by left|]. right. destruct IH as [->|(b' & c' & H1 & H2 & H3)].
  - exists b, c. split_and!; [done|done|constructor].
  - exists b', c'. split_and!; [done|done|]. by eapply reach_child.
Qed.

Section walks.
Context (V : Blocks).
Abbreviation wk := (walk (λ id, V !! id)).

Lemma walk_children_total w ids : (∀ c, c ∈ ids → is_Some (w c)) → is_Some (walk_children w ids).
Proof.
  induction ids as [|c ids IH]; intros H; simpl; [done|].
  destruct (H c ltac:(by left)) as [[l []] ->]; [done|].
  destruct IH as [[l' cyc'] ->]; [intros; apply H; by right|done].
Qed.

(** The fuel is enough: the blocks of a path are distinct. *)
Lemma walk_total fuel path id :
  NoDup path → (∀ p, p ∈ path → is_Some (V !! p)) → (size V < fuel + length path)%nat →
  is_Some (wk fuel path id).
Proof.
  revert path id. induction fuel as [|fuel IH]; intros path id Hnd Hdom Hf.
  - assert (length path ≤ size V)%nat; [|lia].
    rewrite <- size_dom, <- (size_list_to_set (C:=gset string) path Hnd). apply subseteq_size.
    intros p [b Hb]%elem_of_list_to_set%Hdom. by apply elem_of_dom.
  - cbn [walk]. case_bool_decide as Hin; [done|]. destruct (V !! id) as [b|] eqn:Eb; [|done].
    destruct (walk_children_total (wk fuel (path ++ [id])) (b_ChildrenIds b)) as [[l cyc] ->]; [|done].
    intros c _. apply IH.
    + apply NoDup_app. split_and!; [done| |apply NoDup_singleton]. by intros x Hx ->%list_elem_of_singleton.
    + intros p [Hp| ->%list_elem_of_singleton]%elem_of_app; [by apply Hdom|by eexists].
    + rewrite length_app. simpl. lia.
Qed.

Lemma walk_children_sound w ids l cyc b :
  walk_children w ids = Some (l, cyc) → b ∈ l → ∃ c lc cc, c ∈ ids ∧ w c = Some (lc, cc) ∧ b ∈ lc.
Proof.
  revert l. induction ids as [|c ids IH]; intros l E Hb; simpl in E; [simplify_eq; by apply elem_of_nil in Hb|].
  destruct (w c) as [[lc []]|] eqn:Ec; [| |done].
  - simplify_eq. exists c, l, true. split_and!; [by left|done|done].
  - destruct (walk_children w ids) as [[l' cyc']|]; [|done]. simplify_eq.
    apply elem_of_app in Hb as [Hb|Hb]; [exists c, lc, false; split_and!; [by left|done|done]|].
    destruct (IH l' eq_refl Hb) as (c' & lc' & cc' & ? & ? & ?). exists c', lc', cc'. split_and!; [by right|done|done].
Qed.

(** Only reachable blocks are visited. *)
Lemma walk_sound fuel path id l cyc b :
  wk fuel path id = Some (l, cyc) → b ∈ l → ∃ id', V !! id' = Some b ∧ reach V id id'.
Proof.
  revert path id l cyc. induction fuel as [|fuel IH]; intros path id l cyc E Hb; [done|].
  cbn [walk] in E. case_bool_decide; [simplify_eq; by apply elem_of_nil in Hb|].
  destruct (V !! id) as [b0|] eqn:E0; [|simplify_eq; by apply elem_of_nil in Hb].
  destruct (walk_children _ _) as [[l' cyc']|] eqn:Ew; [|done]. simplify_eq.
  apply elem_of_cons in Hb as [->|Hb]; [exists id; split; [done|constructor]|].
  destruct (walk_children_sound _ _ _ _ _ Ew Hb) as (c & lc & cc & Hc & Ec & Hbc).
  destruct (IH _ _ _ _ Ec Hbc) as (id' & Hid & Hr). exists id'. split; [done|].
  eapply reach_trans; [by eapply reach_step|done].
Qed.

Lemma walk_children_complete w ids l :
  walk_children w ids = Some (l, false) → ∀ c, c ∈ ids → ∃ lc, w c = Some (lc, false) ∧ lc ⊆ l.
Proof.
  revert l. induction ids as [|c ids IH]; intros l E c' Hc; simpl in E; [by apply elem_of_nil in Hc|].
  destruct (w c) as [[lc []]|] eqn:Ec; [done| |done].
  destruct (walk_children w ids) as [[l' cyc']|] eqn:Ew; [|done]. simplify_eq.
  apply elem_of_cons in Hc as [->|Hc].
  - exists lc. split; [done|]. intros x Hx. apply elem_of_app. by left.
  - destruct (IH l' eq_refl c' Hc) as (lc' & ? & Hs). exists lc'. split; [done|]. intros x Hx.
    apply elem_of_app. right. by apply Hs.
Qed.

(** A walk without a cycle visits every reachable block. *)
Lemma walk_complete fuel path id l id' b :
  wk fuel path id = Some (l, false) → reach V id id' → V !! id' = Some b → b ∈ l.
Proof.
  revert path id l. induction fuel as [|fuel IH]; intros path id l E Hr Hb; [done|].
  cbn [walk] in E. case_bool_decide; [done|]. apply reach_inv_first in Hr.
  destruct (V !! id) as [b0|] eqn:E0.
  - destruct (walk_children _ _) as [[l' cyc']|] eqn:Ew; [|done]. simplify_eq.
    destruct Hr as [->|(b1 & c & Hb1 & Hc & Hr)]; simplify_eq; [by left|]. right.
    destruct (walk_children_complete _ _ _ Ew c Hc) as (lc & Ec & Hs). apply Hs. by eapply IH.
  - destruct Hr as [->|(b1 & c & Hb1 & _)]; congruence.
Qed.

Lemma walk_children_acyclic w ids l cyc :
  (∀ c lc cc, c ∈ ids → w c = Some (lc, cc) → cc = false) → walk_children w ids = Some (l, cyc) → cyc = false.
Proof.
  revert l cyc. induction ids as [|c ids IH]; intros l cyc H E; simpl in E; [by simplify_eq|].
  destruct (w c) as [[lc cc]|] eqn:Ec; [|done]. assert (cc = false) as -> by (eapply H; [by left|done]).
  destruct (walk_children w ids) as [[l' cyc']|] eqn:Ew; [|done]. simplify_eq.
  eapply IH; [|done]. intros c' lc' cc' ?. eapply H. by right.
Qed.
End walks.

(** ** Well-formed forests

    What is reachable from a list of roots: ids match keys, nobody has two
    parents, children are listed once, and no root is a child. *)

Definition reachable (V : Blocks) (roots : list string) (id : string) : Prop := ∃ r, r ∈ roots ∧ reach V r id.

Record wf (V : Blocks) (roots : list string) : Prop := {
  wf_keys id b : V !! id = Some b → b_Id b = id;
  wf_roots : NoDup roots;
  wf_uniq p1 b1 p2 b2 c :
    reachable V roots p1 → reachable V roots p2 →
    V !! p1 = Some b1 → V !! p2 = Some b2 → c ∈ b_ChildrenIds b1 → c ∈ b_ChildrenIds b2 → p1 = p2;
  wf_nodup p b : reachable V roots p → V !! p = Some b → NoDup (b_ChildrenIds b);
  wf_root p b r : reachable V roots p → V !! p = Some b → r ∈ roots → r ∉ b_ChildrenIds b;
}.

Lemma reachable_root V roots r : r ∈ roots → reachable V roots r.
Proof. intros. exists r. split; [done|constructor]. Qed.

Lemma reachable_child V roots p b c : reachable V roots p → V !! p = Some b → c ∈ b_ChildrenIds b → reachable V roots c.
Proof. intros (r & Hr & Hp) Hb Hc. exists r. split; [done|by eapply reach_child]. Qed.

Lemma reachable_trans V roots p x : reachable V roots p → reach V p x → reachable V roots x.
Proof. intros (r & Hr & Hp) Hx. exists r. split; [done|by eapply reach_trans]. Qed.

#[export] Hint Resolve reachable_root reachable_child reachable_trans : heart.

Lemma chain_reach V root path id : chain V root path id → ∀ x, x ∈ path ++ [id] → reach V root x.
Proof.
  induction 1 as [|path p b c Hc IH Hb Hin]; intros x Hx.
  - apply list_elem_of_singleton in Hx as ->. constructor.
  - apply elem_of_app in Hx as [Hx| ->%list_elem_of_singleton]; [by apply IH|].
    eapply reach_child; [|done|done]. apply IH, elem_of_app. right. by left.
Qed.

Lemma chain_reach_end V root path id : chain V root path id → reach V root id.
Proof. intros Hc. apply (chain_reach _ _ _ _ Hc), elem_of_app. right. by left. Qed.

Lemma reach_chain V root id : reach V root id → ∃ path, chain V root path id.
Proof.
  induction 1 as [|p b c _ [path Hp] Hb Hc]; [exists []; constructor|].
  exists (path ++ [p]). by eapply chain_child.
Qed.

(** No cycle is found where no path returns to itself. *)
Lemma walk_fresh V root fuel path id l cyc :
  (∀ path id, chain V root path id → id ∉ path) →
  chain V root path id → walk (λ i, V !! i) fuel path id = Some (l, cyc) → cyc = false.
Proof.
  intros Hfresh. revert path id l cyc. induction fuel as [|fuel IH]; intros path id l cyc Hc E; [done|].
  cbn [walk] in E. rewrite bool_decide_eq_false_2 in E by (by apply (Hfresh path id)).
  destruct (V !! id) as [b|] eqn:Eb; [|by simplify_eq].
  destruct (walk_children _ _) as [[l' cyc']|] eqn:Ew; [|done]. simplify_eq.
  eapply walk_children_acyclic; [|exact Ew]. intros c lc cc Hcin. apply IH. by eapply chain_child.
Qed.

Section wf_facts.
Context (V : Blocks) (roots : list string) (Hwf : wf V roots) (root : string) (Hroot : root ∈ roots).

Lemma reachable_of x : reach V root x → reachable V roots x.
Proof. intros Hx. by exists root. Qed.
Hint Resolve reachable_of : core.

Lemma chain_parent path id x :
  chain V root path id → x ∈ path ++ [id] → x = root ∨ ∃ q b, q ∈ path ∧ V !! q = Some b ∧ x ∈ b_ChildrenIds b.
Proof.
  intros Hc. revert x. induction Hc as [|path p b c Hc IH Hb Hin]; intros x Hx.
  - apply list_elem_of_singleton in Hx as ->. by left.
  - apply elem_of_app in Hx as [Hx| ->%list_elem_of_singleton].
    + destruct (IH x Hx) as [->|(q & bq & Hq & ? & ?)]; [by left|]. right. exists q, bq.
      split_and!; [apply elem_of_app; by left|done|done].
    + right. exists p, b. split_and!; [apply elem_of_app; right; by left|done|done].
Qed.

Lemma chain_fresh path id : chain V root path id → id ∉ path ∧ NoDup path ∧ ∀ p, p ∈ path → is_Some (V !! p).
Proof.
  induction 1 as [|path p b c Hc (IH1 & IH2 & IH3) Hb Hin].
  - split_and!; [by intros ?%elem_of_nil|constructor|by intros p ?%elem_of_nil].
  - assert (reach V root p) as Hp by (by eapply chain_reach_end). split_and!.
    + intros Hcin. destruct (chain_parent path p c Hc Hcin) as [->|(q & bq & Hq & Hbq & Hcq)].
      { by destruct (wf_root V roots Hwf p b root (reachable_of p Hp) Hb Hroot). }
      assert (q = p) as ->; [|done]. apply (wf_uniq V roots Hwf q bq p b c); try done; apply reachable_of; [|done].
      eapply chain_reach; [exact Hc|]. apply elem_of_app. by left.
    + apply NoDup_app. split_and!; [done| |apply NoDup_singleton]. by intros x Hx ->%list_elem_of_singleton.
    + intros x [Hx| ->%list_elem_of_singleton]%elem_of_app; [by apply IH3|by eexists].
Qed.

Lemma walk_acyclic fuel l cyc : walk (λ i, V !! i) fuel [] root = Some (l, cyc) → cyc = false.
Proof. intros E. eapply (walk_fresh V root); [apply chain_fresh|constructor|exact E]. Qed.

(** Everything that reaches a block, from a root on, is on the path to it. *)
Lemma reach_on_path path id c :
  chain V root path id → reachable V roots c → reach V c id → c ∈ path ++ [id].
Proof.
  intros Hc Hcr. revert c Hcr. induction Hc as [|path p b x Hc IH Hb Hin]; intros c Hcr Hr.
  - inversion Hr as [|p b ? Hp Hb Hin]; subst; [by left|].
    by destruct (wf_root V roots Hwf p b root ltac:(eauto with heart) Hb Hroot).
  - inversion Hr as [|p' b' ? Hr' Hb' Hin']; subst; [apply elem_of_app; right; by left|].
    assert (p' = p) as ->; [|apply elem_of_app; left; by apply IH].
    eapply (wf_uniq V roots Hwf p' b' p b x); eauto with heart. apply reachable_of. by eapply chain_reach_end.
Qed.

Lemma reach_comparable a b x :
  reachable V roots a → reachable V roots b → reach V a x → reach V b x → reach V a b ∨ reach V b a.
Proof.
  intros Hra Hrb Ha. revert b Hrb. induction Ha as [|p bp c Hp IH Hbp Hc]; intros b Hrb Hb; [by right|].
  inversion Hb as [|p' b' ? Hp' Hb' Hc']; subst; [left; by eapply reach_child|].
  assert (p' = p) as -> by (eapply (wf_uniq V roots Hwf p' b' p bp c); eauto with heart). by apply IH.
Qed.

(** Siblings have nothing in common below them. *)
Lemma siblings_disjoint path id b c1 c2 x :
  chain V root path id → V !! id = Some b → c1 ∈ b_ChildrenIds b → c2 ∈ b_ChildrenIds b → c1 ≠ c2 →
  reach V c1 x → ¬ reach V c2 x.
Proof.
  intros Hc Hb H1 H2 Hne Hr1 Hr2. assert (reachable V roots id) as Hid by (apply reachable_of; by eapply chain_reach_end).
  assert (∀ d1 d2, d1 ∈ b_ChildrenIds b → d2 ∈ b_ChildrenIds b → d1 ≠ d2 → ¬ reach V d1 d2) as Hno.
  { intros d1 d2 Hd1 Hd2 Hd Hr.
    assert (chain V root (path ++ [id]) d1) as Hc1 by (by eapply chain_child).
    assert (chain V root (path ++ [id]) d2) as Hc2 by (by eapply chain_child).
    apply (reach_on_path _ _ _ Hc2) in Hr; [|by eapply reachable_child].
    apply elem_of_app in Hr as [Hr| ->%list_elem_of_singleton]; [|done].
    by apply chain_fresh in Hc1 as [? _]. }
  destruct (reach_comparable c1 c2 x) as [Hr|Hr];
    [by eapply reachable_child|by eapply reachable_child|done|done|by apply (Hno c1 c2)|].
  apply (Hno c2 c1); auto.
Qed.

Lemma walk_children_NoDup w ids l cyc :
  NoDup ids → (∀ c lc cc, c ∈ ids → w c = Some (lc, cc) → NoDup lc) →
  (∀ c1 c2 l1 l2 cc1 cc2 x, c1 ∈ ids → c2 ∈ ids → c1 ≠ c2 → w c1 = Some (l1, cc1) → w c2 = Some (l2, cc2) →
     x ∈ l1 → x ∉ l2) →
  walk_children w ids = Some (l, cyc) → NoDup l.
Proof.
  revert l cyc. induction ids as [|c ids IH]; intros l cyc Hnd H1 H2 E; simpl in E; [simplify_eq; constructor|].
  apply NoDup_cons in Hnd as [Hc Hnd]. destruct (w c) as [[lc []]|] eqn:Ec; [| |done].
  { simplify_eq. eapply H1; [by left|done]. }
  destruct (walk_children w ids) as [[l' cyc']|] eqn:Ew; [|done]. simplify_eq. apply NoDup_app. split_and!.
  - eapply H1; [by left|done].
  - intros x Hx Hx'. destruct (walk_children_sound _ _ _ _ _ Ew Hx') as (c' & lc' & cc' & Hc' & Ec' & Hxc).
    eapply (H2 c c'); [by left|by right|by intros ->|done|done|done|done].
  - eapply IH; [done| | |done].
    + intros c' lc' cc' ?. eapply H1. by right.
    + intros c1 c2 l1 l2 cc1 cc2 x ? ?. eapply H2; by right.
Qed.

Lemma walk_NoDup fuel path id l cyc :
  chain V root path id → walk (λ i, V !! i) fuel path id = Some (l, cyc) → NoDup l.
Proof.
  revert path id l cyc. induction fuel as [|fuel IH]; intros path id l cyc Hc E; [done|].
  cbn [walk] in E. case_bool_decide; [simplify_eq; constructor|].
  destruct (V !! id) as [b|] eqn:Eb; [|simplify_eq; constructor].
  destruct (walk_children _ _) as [[l' cyc']|] eqn:Ew; [|done]. simplify_eq.
  assert (reachable V roots id) as Hid by (apply reachable_of; by eapply chain_reach_end). constructor.
  - intros Hin. destruct (walk_children_sound _ _ _ _ _ Ew Hin) as (c & lc & cc & Hcin & Ec & Hb).
    destruct (walk_sound V _ _ _ _ _ _ Ec Hb) as (id' & Hid' & Hr).
    assert (id' = id) as -> by (rewrite <- (wf_keys V roots Hwf id' b Hid'); by apply (wf_keys V roots Hwf)).
    apply (reach_on_path _ _ _ Hc) in Hr; [|by eapply reachable_child].
    assert (chain V root (path ++ [id]) c) as Hcc by (by eapply chain_child).
    by apply chain_fresh in Hcc as [? _].
  - eapply walk_children_NoDup; [by apply (wf_nodup V roots Hwf id)| | |exact Ew].
    + intros c lc cc Hcin. apply IH. by eapply chain_child.
    + intros c1 c2 l1 l2 cc1 cc2 x H1 H2 Hne E1 E2 Hx1 Hx2.
      destruct (walk_sound V _ _ _ _ _ _ E1 Hx1) as (i1 & Hi1 & Hr1).
      destruct (walk_sound V _ _ _ _ _ _ E2 Hx2) as (i2 & Hi2 & Hr2).
      assert (i1 = i2) as -> by (transitivity (b_Id x); [symmetry|]; by eapply (wf_keys V roots Hwf)).
      by eapply (siblings_disjoint path id b c1 c2).
Qed.
End wf_facts.

(** *** The order of a walk *)

(** A block comes after those above it. *)
Definition not_over (V : Blocks) (b b' : Block) : Prop := ¬ reach V (b_Id b') (b_Id b).

Lemma walk_children_sorted (R : relation Block) w ids l cyc :
  NoDup ids → (∀ c lc cc, c ∈ ids → w c = Some (lc, cc) → StronglySorted R lc) →
  (∀ c1 c2 l1 l2 cc1 cc2 x y, c1 ∈ ids → c2 ∈ ids → c1 ≠ c2 → w c1 = Some (l1, cc1) → w c2 = Some (l2, cc2) → x ∈ l1 → y ∈ l2 → R x y) →
  walk_children w ids = Some (l, cyc) → StronglySorted R l.
Proof.
  revert l cyc. induction ids as [|c ids IH]; intros l cyc Hnd H1 H2 E; simpl in E; [simplify_eq; constructor|].
  apply NoDup_cons in Hnd as [Hc Hnd]. destruct (w c) as [[lc []]|] eqn:Ec; [| |done].
  { simplify_eq. eapply H1; [by left|done]. }
  destruct (walk_children w ids) as [[l' cyc']|] eqn:Ew; [|done]. simplify_eq. apply StronglySorted_app_2.
  - intros x y Hx Hy. destruct (walk_children_sound _ _ _ _ _ Ew Hy) as (c' & lc' & cc' & Hc' & Ec' & Hyc).
    eapply (H2 c c'); [by left|by right|by intros ->|done..].
  - eapply H1; [by left|done].
  - eapply IH; [done| | |done].
    + intros c' lc' cc' ?. eapply H1. by right.
    + intros c1 c2 l1 l2 cc1 cc2 x y ? ?. eapply H2; by right.
Qed.

Lemma walk_down V roots root fuel path id l cyc :
  wf V roots → root ∈ roots → chain V root path id → walk (λ i, V !! i) fuel path id = Some (l, cyc) → StronglySorted (not_over V) l.
Proof.
  intros Hwf Hroot. revert path id l cyc. induction fuel as [|fuel IH]; intros path id l cyc Hc E; [done|].
  cbn [walk] in E. case_bool_decide; [simplify_eq; constructor|].
  destruct (V !! id) as [b|] eqn:Eb; [|simplify_eq; constructor].
  destruct (walk_children _ _) as [[l' cyc']|] eqn:Ew; [|done]. simplify_eq.
  assert (reachable V roots id) as Hid by (exists root; split; [done|by eapply chain_reach_end]).
  assert (b_Id b = id) as Ebi by (by apply (wf_keys V roots Hwf)). constructor.
  - eapply walk_children_sorted; [by apply (wf_nodup V roots Hwf id)| | |exact Ew].
    + intros c lc cc Hcin. apply IH. by eapply chain_child.
    + intros c1 c2 l1 l2 cc1 cc2 x y H1 H2 Hne E1 E2 Hx Hy Hr.
      destruct (walk_sound V _ _ _ _ _ _ E1 Hx) as (i1 & Hi1 & Hr1). destruct (walk_sound V _ _ _ _ _ _ E2 Hy) as (i2 & Hi2 & Hr2).
      rewrite (wf_keys V roots Hwf i1 x Hi1), (wf_keys V roots Hwf i2 y Hi2) in Hr.
      eapply (siblings_disjoint V roots Hwf root Hroot path id b c1 c2 i1); try done. by eapply reach_trans.
  - apply List.Forall_forall. intros x Hin%list_elem_of_In Hr. rewrite Ebi in Hr.
    destruct (walk_children_sound _ _ _ _ _ Ew Hin) as (c & lc & cc & Hcin & Ec & Hb).
    destruct (walk_sound V _ _ _ _ _ _ Ec Hb) as (id' & Hid' & Hrc). rewrite (wf_keys V roots Hwf id' x Hid') in Hr.
    assert (reach V c id) as Hcid by (by eapply reach_trans).
    apply (reach_on_path V roots Hwf root Hroot _ _ _ Hc) in Hcid; [|by eapply reachable_child].
    assert (chain V root (path ++ [id]) c) as Hcc by (by eapply chain_child).
    by apply (chain_fresh V roots Hwf root Hroot) in Hcc as [? _].
Qed.

(** ** Walking a state *)

Lemma walk_ext pick1 pick2 fuel path id :
  (∀ i, pick1 i = pick2 i) → walk pick1 fuel path id = walk pick2 fuel path id.
Proof.
  intros Hp. revert path id. induction fuel as [|fuel IH]; intros path id; [done|]. cbn [walk].
  case_bool_decide; [done|]. rewrite Hp. destruct (pick2 id) as [b|]; [|done].
  replace (walk_children (walk pick1 fuel (path ++ [id])) (b_ChildrenIds b))
    with (walk_children (walk pick2 fuel (path ++ [id])) (b_ChildrenIds b)); [done|].
  induction (b_ChildrenIds b) as [|c ids IHc]; [done|]. cbn [walk_children]. by rewrite IH, IHc.
Qed.

Lemma Iterate_walk s :
  ∃ l cyc, walk (λ i, view s !! i) (iter_fuel s) [] (st_rootId s) = Some (l, cyc) ∧
    ∀ A (f : A → Block → A * bool) acc, Iterate s f acc = Some (finish (fold_stop f acc l) cyc).
Proof.
  destruct (walk_total (view s) (iter_fuel s) [] (st_rootId s)) as [[l cyc] E].
  - constructor.
  - by intros p ?%elem_of_nil.
  - unfold iter_fuel. simpl. lia.
  - exists l, cyc. split; [done|]. intros A f acc. apply iter_walk. rewrite <- E. apply walk_ext. intros i.
    apply Pick_view.
Qed.

(** C26. Walking the tree always ends: in any state [Iterate] is a left fold, with
    early stop, over a list of reachable blocks, and reports a cycle only if the
    fold is not stopped before; without a cycle every reachable block is visited,
    and in a well-formed state there is no cycle and no block is visited twice. *)
Theorem Iterate_correct s :
  ∃ l cyc, (∀ A (f : A → Block → A * bool) acc, Iterate s f acc = Some (finish (fold_stop f acc l) cyc)) ∧
    (∀ b, b ∈ l → ∃ id, view s !! id = Some b ∧ reach (view s) (st_rootId s) id) ∧
    (cyc = false → ∀ id b, reach (view s) (st_rootId s) id → view s !! id = Some b → b ∈ l) ∧
    (wf (view s) [st_rootId s] → cyc = false ∧ NoDup l).
Proof.
  destruct (Iterate_walk s) as (l & cyc & E & H). exists l, cyc. split_and!; [done| | |].
  - intros b Hb. by eapply walk_sound.
  - intros -> id b Hr Hb. by eapply walk_complete.
  - intros Hwf. assert (st_rootId s ∈ [st_rootId s]) by (by left).
    split; [by eapply walk_acyclic|]. eapply walk_NoDup; try done. constructor.
Qed.

(** ** Parents *)

Lemma has_child_spec b id : has_child b id = true ↔ id ∈ b_ChildrenIds b.
Proof. unfold has_child. rewrite FindPos_path. apply bool_decide_eq_true. Qed.

Lemma fold_find (P : Block → bool) (r : option Block) l :
  match (fold_stop (λ r b, if P b then (Some b, false) else (r, true)) r l) with
  | (r', true) => r' = r ∧ ∀ b, b ∈ l → P b = false
  | (r', false) => ∃ b, r' = Some b ∧ b ∈ l ∧ P b = true
  end.
Proof.
  induction l as [|b l IH]; simpl; [split; [done|by intros b ?%elem_of_nil]|].
  destruct (P b) eqn:Eb; [exists b; split_and!; [done|by left|done]|].
  destruct (fold_stop _ r l) as [r' []].
  - destruct IH as [-> IH]. split; [done|]. intros b' [->|?]%elem_of_cons; auto.
  - destruct IH as (b' & ? & ? & ?). exists b'. split_and!; [done|by right|done].
Qed.

Section parents.
Context (s : State) (others : list string) (Hwf : wf (view s) (st_rootId s :: others)).

Lemma Hroot_in : st_rootId s ∈ st_rootId s :: others.
Proof. by left. Qed.

Lemma PickParentOf_spec id p :
  PickParentOf s id = Some p ↔
  reach (view s) (st_rootId s) (b_Id p) ∧ view s !! b_Id p = Some p ∧ id ∈ b_ChildrenIds p.
Proof.
  destruct (Iterate_walk s) as (l & cyc & E & HI). unfold PickParentOf. rewrite HI.
  assert (cyc = false) as -> by (eapply (walk_acyclic _ _ Hwf); [apply Hroot_in|done]).
  pose proof (fold_find (λ b, has_child b id) None l) as Hf.
  destruct (fold_stop _ None l) as [r []]; cbn [finish iterated].
  - destruct Hf as [-> Hno]. split; [done|]. intros (Hr & Hp & Hin).
    assert (p ∈ l) as Hpl by (by eapply walk_complete). apply Hno in Hpl.
    apply has_child_spec in Hin. congruence.
  - destruct Hf as (b & -> & Hb & Hc%has_child_spec). destruct (walk_sound _ _ _ _ _ _ _ E Hb) as (i & Hi & Hri).
    assert (b_Id b = i) as Eid by (by eapply (wf_keys _ _ Hwf)). split.
    + intros [= <-]. by rewrite Eid.
    + intros (Hr & Hp & Hin).
      assert (i = b_Id p) as Eip by (eapply (wf_uniq _ _ Hwf i b (b_Id p) p id); try done; (eexists; split; [by left|done])).
      subst i. rewrite Eip in Hi. congruence.
Qed.

Lemma PickParentOf_None id :
  PickParentOf s id = None ↔ ∀ p b, reach (view s) (st_rootId s) p → view s !! p = Some b → id ∉ b_ChildrenIds b.
Proof.
  split.
  - intros E p b Hr Hb Hin. assert (b_Id b = p) as Eid by (by eapply (wf_keys _ _ Hwf)).
    assert (PickParentOf s id = Some b) as E'; [|congruence]. apply PickParentOf_spec. by rewrite Eid.
  - intros Hno. destruct (PickParentOf s id) as [p|] eqn:E; [|done]. apply PickParentOf_spec in E as (Hr & Hp & Hin).
    by destruct (Hno _ _ Hr Hp).
Qed.

(** Climbing follows the path from the root backwards. *)
Lemma climb_path fuel a path id :
  chain (view s) (st_rootId s) path id → (length path < fuel)%nat → climb fuel s a id = Some (bool_decide (a ∈ path)).
Proof.
  intros Hc. revert fuel. induction Hc as [|path p b c Hc IH Hb Hin]; intros fuel Hf; (destruct fuel as [|fuel]; [lia|]);
    cbn [climb].
  - assert (PickParentOf s (st_rootId s) = None) as ->.
    { apply PickParentOf_None. intros p b Hr Hb. eapply (wf_root _ _ Hwf p b); [|done|apply Hroot_in].
      eexists. split; [by left|done]. }
    done.
  - assert (b_Id b = p) as Eid by (by eapply (wf_keys _ _ Hwf)).
    assert (PickParentOf s c = Some b) as ->.
    { apply PickParentOf_spec. rewrite Eid. split_and!; [by eapply chain_reach_end|done|done]. }
    rewrite Eid. destruct (decide (p = a)) as [->|Ea].
    + rewrite !bool_decide_eq_true_2; [done| |done]. apply elem_of_app. right. by left.
    + rewrite (bool_decide_eq_false_2 (p = a)) by done. rewrite length_app in Hf. simpl in Hf. rewrite IH by lia. f_equal. apply bool_decide_ext.
      rewrite elem_of_app, list_elem_of_singleton. split; [by left|]. by intros [?| ->].
Qed.

Lemma path_length path id : chain (view s) (st_rootId s) path id → (length path < iter_fuel s)%nat.
Proof.
  intros Hc. apply (chain_fresh _ _ Hwf _ Hroot_in) in Hc as (_ & Hnd & Hdom). unfold iter_fuel.
  assert (length path ≤ size (view s))%nat; [|lia].
  rewrite <- size_dom, <- (size_list_to_set (C:=gset string) path Hnd). apply subseteq_size.
  intros p [b Hb]%elem_of_list_to_set%Hdom. by apply elem_of_dom.
Qed.

Lemma path_ancestors path id a :
  chain (view s) (st_rootId s) path id →
  a ∈ path ↔ a ≠ id ∧ reach (view s) (st_rootId s) a ∧ reach (view s) a id.
Proof.
  intros Hc. pose proof (chain_fresh _ _ Hwf _ Hroot_in _ _ Hc) as [Hid _]. split.
  - intros Ha. split_and!; [by intros ->|eapply chain_reach; [exact Hc|apply elem_of_app; by left]|].
    clear Hid. induction Hc as [|path p b c Hc IH Hb Hin]; [by apply elem_of_nil in Ha|].
    eapply reach_child; [|done|done]. apply elem_of_app in Ha as [Ha| ->%list_elem_of_singleton]; [by apply IH|constructor].
  - intros (Hne & Ha & Hr). apply (reach_on_path _ _ Hwf _ Hroot_in _ _ _ Hc) in Hr.
    + apply elem_of_app in Hr as [?| ->%list_elem_of_singleton]; done.
    + eexists. split; [by left|done].
Qed.
End parents.

Lemma IsChild_spec s (Hwf : wf (view s) [st_rootId s]) (a id : string) :
  let V := view s in let root := st_rootId s in
  ∃ r, IsChild s a id = Some r ∧ (r = true ↔ a ≠ id ∧ reach V root a ∧ reach V root id ∧ reach V a id).
Proof.
  intros V root. unfold IsChild. destruct (PickParentOf s id) as [p|] eqn:Ep.
  - pose proof (proj1 (PickParentOf_spec s [] Hwf id p) Ep) as (Hr & Hp & Hin).
    assert (reach V root id) as Hid by (by eapply reach_child). destruct (reach_chain _ _ _ Hid) as [path Hc].
    rewrite (climb_path s [] Hwf _ a path id Hc) by (by eapply path_length). eexists. split; [done|].
    rewrite bool_decide_eq_true, (path_ancestors s [] Hwf path id a Hc). tauto.
  - exists false. unfold iter_fuel. cbn [climb]. rewrite Ep. split; [done|].
    split; [done|]. intros (Hne & Ha & Hid & Hr). pose proof (proj1 (PickParentOf_None s [] Hwf id) Ep) as Hno.
    inversion Hr as [|p b ? Hp Hb Hin]; subst; [done|]. destruct (Hno p b); [by apply (reach_trans _ _ a)|done|done].
Qed.

(** In a well-formed state a block found by [PickParentOf] is the one reachable
    block that lists the id, every listed id has one, and climbing the parents
    ([IsChild], [HasParent]) ends and decides the proper-ancestor relation. *)
Theorem parents_correct s (Hwf : wf (view s) [st_rootId s]) (a id : string) :
  let V := view s in let root := st_rootId s in
  (∀ p, PickParentOf s id = Some p ↔ reach V root (b_Id p) ∧ V !! b_Id p = Some p ∧ id ∈ b_ChildrenIds p) ∧
  (PickParentOf s id = None ↔ ∀ p b, reach V root p → V !! p = Some b → id ∉ b_ChildrenIds b) ∧
  ∃ r, IsChild s a id = Some r ∧ HasParent s id a = Some r ∧
    (r = true ↔ a ≠ id ∧ reach V root a ∧ reach V root id ∧ reach V a id).
Proof.
  intros V root. split_and!; [intros p; by eapply PickParentOf_spec|by eapply PickParentOf_None|].
  destruct (IsChild_spec s Hwf a id) as (r & E & Hr). exists r. by split_and!.
Qed.

(** A parent is found also where the tree is only free of cycles. *)
Lemma PickParentOf_unique s id p b :
  (∀ path id, chain (view s) (st_rootId s) path id → id ∉ path) →
  reach (view s) (st_rootId s) p → view s !! p = Some b → id ∈ b_ChildrenIds b →
  (∀ q bq, reach (view s) (st_rootId s) q → view s !! q = Some bq → id ∈ b_ChildrenIds bq → q = p) →
  PickParentOf s id = Some b.
Proof.
  intros Hfresh Hr Hb Hin Huniq. destruct (Iterate_walk s) as (l & cyc & E & HI). unfold PickParentOf. rewrite HI.
  assert (cyc = false) as -> by (eapply walk_fresh; [done|constructor|done]).
  pose proof (fold_find (λ b, has_child b id) None l) as Hf.
  destruct (fold_stop _ None l) as [r []]; cbn [finish iterated].
  - destruct Hf as [_ Hno]. assert (b ∈ l) as Hbl by (by eapply walk_complete). apply Hno in Hbl.
    apply has_child_spec in Hin. congruence.
  - destruct Hf as (b' & -> & Hb' & Hc%has_child_spec). destruct (walk_sound _ _ _ _ _ _ _ E Hb') as (i & Hi & Hri).
    assert (i = p) as -> by (by apply (Huniq i b')). congruence.
Qed.

(** ** Edits of a forest *)

Lemma wf_perm V roots roots' : roots ≡ₚ roots' → wf V roots → wf V roots'.
Proof.
  intros Hp [Hk Hr Hu Hn Hc].
  assert (∀ x, reachable V roots' x → reachable V roots x) as Hre.
  { intros x (r & Hin & ?). exists r. by rewrite Hp. }
  split; [done|by rewrite <- Hp|..].
  - intros p1 b1 p2 b2 c H1 H2. apply Hu; auto.
  - intros p b H1. apply Hn; auto.
  - intros p b r H1 H2 H3. rewrite <- Hp in H3. apply (Hc p b r); auto.
Qed.

Lemma wf_drop V r roots : wf V (r :: roots) → wf V roots.
Proof.
  intros [Hk Hr Hu Hn Hc].
  assert (∀ x, reachable V roots x → reachable V (r :: roots) x) as Hre.
  { intros x (r' & Hin & ?). exists r'. split; [by right|done]. }
  split; [done|by apply NoDup_cons in Hr as [_ ?]|..].
  - intros p1 b1 p2 b2 c H1 H2. apply Hu; auto.
  - intros p b H1. apply Hn; auto.
  - intros p b r' H1 H2 H3. apply (Hc p b r'); auto. by right.
Qed.

Lemma lookup_update (V : Blocks) p b q bq :
  <[p:=b]> V !! q = Some bq → (q = p ∧ bq = b) ∨ (q ≠ p ∧ V !! q = Some bq).
Proof.
  destruct (decide (q = p)) as [->|Hne]; [rewrite lookup_insert_eq|rewrite lookup_insert_ne by done]; naive_solver.
Qed.

(** Hanging roots under a block: they are roots no more. *)
Lemma wf_insert V roots ids p bp l r :
  wf V (ids ++ roots) → V !! p = Some bp → b_ChildrenIds bp = l ++ r →
  wf (<[p:=with_children bp (l ++ ids ++ r)]> V) roots.
Proof.
  intros Hwf Hp Hch. pose proof (wf_roots _ _ Hwf) as Hnd. apply NoDup_app in Hnd as (Hndi & Hdis & Hndr).
  assert (∀ x, reachable (<[p:=with_children bp (l ++ ids ++ r)]> V) roots x → reachable V (ids ++ roots) x) as Hre'.
  { intros x (r0 & Hr0 & Hx). induction Hx as [|q b c Hq IH Hb Hc].
    - apply reachable_root, elem_of_app. by right.
    - apply lookup_update in Hb as [[-> ->]|[Hne Hb]]; [|eauto with heart].
      cbn [with_children b_ChildrenIds] in Hc. rewrite !elem_of_app in Hc.
      destruct Hc as [Hc|[Hc|Hc]]; [|apply reachable_root, elem_of_app; by left|];
        (eapply reachable_child; [exact IH|exact Hp|rewrite Hch; apply elem_of_app; tauto]). }
  assert (∀ c, c ∈ l ++ ids ++ r ↔ c ∈ b_ChildrenIds bp ∨ c ∈ ids) as Hcs.
  { intros c. rewrite Hch, !elem_of_app. tauto. }
  assert (∀ q b c, reachable V (ids ++ roots) q → V !! q = Some b → c ∈ ids → c ∉ b_ChildrenIds b) as Hids.
  { intros q b c Hq Hb Hc. apply (wf_root _ _ Hwf q b c Hq Hb), elem_of_app. by left. }
  split; [|done|..].
  - intros id b [[-> ->]|[_ Hb]]%lookup_update; [by apply (wf_keys _ _ Hwf p bp)|by apply (wf_keys _ _ Hwf)].
  - intros p1 b1 p2 b2 c H1%Hre' H2%Hre' Hb1 Hb2 Hc1 Hc2.
    apply lookup_update in Hb1 as [[-> ->]|[Hn1 Hb1]], Hb2 as [[-> ->]|[Hn2 Hb2]]; [done| | |].
    + apply Hcs in Hc1 as [Hc1|Hc1]; [by eapply (wf_uniq _ _ Hwf p bp p2 b2 c)|by destruct (Hids p2 b2 c)].
    + apply Hcs in Hc2 as [Hc2|Hc2]; [by eapply (wf_uniq _ _ Hwf p1 b1 p bp c)|by destruct (Hids p1 b1 c)].
    + by eapply (wf_uniq _ _ Hwf p1 b1 p2 b2 c).
  - intros q b Hq%Hre' [[-> ->]|[_ Hb]]%lookup_update; [|by apply (wf_nodup _ _ Hwf q)].
    cbn [with_children b_ChildrenIds]. pose proof (wf_nodup _ _ Hwf p bp Hq Hp) as Hn. rewrite Hch in Hn.
    rewrite (Permutation_app_comm ids r), app_assoc. apply NoDup_app. split_and!; [done| |done].
    intros c Hc Hci. rewrite <- Hch in Hc. by apply (Hids p bp c Hq Hp Hci).
  - intros q b c Hq%Hre' [[-> ->]|[_ Hb]]%lookup_update Hc Hin.
    + apply Hcs in Hin as [Hin|Hin]; [|by apply (Hdis c)].
      eapply (wf_root _ _ Hwf p bp c); [done|done|apply elem_of_app; by right|done].
    + eapply (wf_root _ _ Hwf q b c); [done|done|apply elem_of_app; by right|done].
Qed.

(** Taking a child away makes it a root. *)
Lemma wf_remove V roots p bp c l r :
  wf V roots → reachable V roots p → V !! p = Some bp → b_ChildrenIds bp = l ++ c :: r →
  wf (<[p:=with_children bp (l ++ r)]> V) (c :: roots).
Proof.
  intros Hwf Hp Hbp Hch.
  assert (c ∈ b_ChildrenIds bp) as Hcin by (rewrite Hch; apply elem_of_app; right; by left).
  assert (∀ x, x ∈ l ++ r → x ∈ b_ChildrenIds bp) as Hsub.
  { intros x. rewrite Hch, !elem_of_app, elem_of_cons. tauto. }
  assert (c ∉ l ++ r) as Hclr.
  { pose proof (wf_nodup _ _ Hwf p bp Hp Hbp) as Hn. rewrite Hch, <- Permutation_middle in Hn.
    by apply NoDup_cons in Hn as [? _]. }
  assert (∀ x, reachable (<[p:=with_children bp (l ++ r)]> V) (c :: roots) x → reachable V roots x) as Hre.
  { intros x (r0 & Hr0 & Hx). induction Hx as [|q b y Hq IH Hb Hy].
    - apply elem_of_cons in Hr0 as [->|Hr0]; eauto with heart.
    - apply lookup_update in Hb as [[-> ->]|[Hne Hb]]; [|eauto with heart]. eapply reachable_child; eauto. }
  split.
  - intros id b [[-> ->]|[_ Hb]]%lookup_update; [by apply (wf_keys _ _ Hwf p bp)|by apply (wf_keys _ _ Hwf)].
  - constructor; [|apply (wf_roots _ _ Hwf)]. intros Hc. by apply (wf_root _ _ Hwf p bp c).
  - intros p1 b1 p2 b2 x H1%Hre H2%Hre Hb1 Hb2 Hx1 Hx2.
    apply lookup_update in Hb1 as [[-> ->]|[Hn1 Hb1]], Hb2 as [[-> ->]|[Hn2 Hb2]]; [done|..];
      cbn [with_children b_ChildrenIds] in *; eapply (wf_uniq _ _ Hwf _ _ _ _ x); eauto.
  - intros q b Hq%Hre [[-> ->]|[_ Hb]]%lookup_update; [|by apply (wf_nodup _ _ Hwf q)].
    pose proof (wf_nodup _ _ Hwf p bp Hp Hbp) as Hn. rewrite Hch, <- Permutation_middle in Hn.
    by apply NoDup_cons in Hn as [_ ?].
  - intros q b x Hq%Hre Hb [->|Hx]%elem_of_cons Hin.
    + apply lookup_update in Hb as [[-> ->]|[Hne Hb]]; [done|].
      apply Hne. by eapply (wf_uniq _ _ Hwf q b p bp c).
    + apply lookup_update in Hb as [[-> ->]|[Hne Hb]]; eapply (wf_root _ _ Hwf _ _ x); eauto.
Qed.

(** A new block without children. *)
Lemma wf_new V roots x b :
  wf V roots → V !! x = None → x ∉ roots → (∀ p bp, reachable V roots p → V !! p = Some bp → x ∉ b_ChildrenIds bp) →
  b_Id b = x → b_ChildrenIds b = [] → wf (<[x:=b]> V) (x :: roots).
Proof.
  intros Hwf Hx Hxr Hxc Hid Hch.
  assert (∀ y, reachable (<[x:=b]> V) (x :: roots) y → y = x ∨ reachable V roots y ∧ y ≠ x) as Hre.
  { intros y (r & Hr & Hy). induction Hy as [|q bq c Hq IH Hb Hc].
    - apply elem_of_cons in Hr as [->|Hr]; [by left|]. right. split; [eauto with heart|by intros ->].
    - apply lookup_update in Hb as [[-> ->]|[Hne Hb]]; [rewrite Hch in Hc; by apply elem_of_nil in Hc|].
      destruct IH as [->|[IH _]]; [done|]. right. split; [eauto with heart|]. intros ->. by apply (Hxc q bq). }
  assert (∀ q bq c, reachable (<[x:=b]> V) (x :: roots) q → <[x:=b]> V !! q = Some bq → c ∈ b_ChildrenIds bq →
    reachable V roots q ∧ V !! q = Some bq) as Hin.
  { intros q bq c Hq Hb Hc. apply lookup_update in Hb as [[-> ->]|[Hne Hb]]; [rewrite Hch in Hc; by apply elem_of_nil in Hc|].
    by destruct (Hre q Hq) as [->|[? _]]. }
  split.
  - intros id b' [[-> ->]|[_ Hb]]%lookup_update; [done|by apply (wf_keys _ _ Hwf)].
  - constructor; [done|apply (wf_roots _ _ Hwf)].
  - intros p1 b1 p2 b2 c H1 H2 Hb1 Hb2 Hc1 Hc2.
    destruct (Hin p1 b1 c H1 Hb1 Hc1), (Hin p2 b2 c H2 Hb2 Hc2). by eapply (wf_uniq _ _ Hwf p1 b1 p2 b2 c).
  - intros q bq Hq Hb. destruct (b_ChildrenIds bq) as [|c cs] eqn:Eq; [constructor|].
    destruct (Hin q bq c Hq Hb) as [Hq' Hb']; [rewrite Eq; by left|]. rewrite <- Eq. by apply (wf_nodup _ _ Hwf q).
  - intros q bq r Hq Hb Hr Hc. destruct (Hin q bq r Hq Hb Hc) as [Hq' Hb'].
    apply elem_of_cons in Hr as [->|Hr]; [by apply (Hxc q bq)|by apply (wf_root _ _ Hwf q bq r)].
Qed.

(** A new block over some of the roots. *)
Lemma wf_new_parent V roots x cs b :
  wf V (cs ++ roots) → V !! x = None → x ∉ cs ++ roots →
  (∀ p bp, reachable V (cs ++ roots) p → V !! p = Some bp → x ∉ b_ChildrenIds bp) →
  b_Id b = x → b_ChildrenIds b = cs → wf (<[x:=b]> V) (x :: roots).
Proof.
  intros Hwf Hx Hxr Hxc Hid Hch.
  pose proof (wf_new V (cs ++ roots) x (with_children b []) Hwf Hx Hxr Hxc Hid eq_refl) as H1.
  apply (wf_perm _ _ (cs ++ x :: roots)) in H1; [|by rewrite Permutation_middle].
  pose proof (wf_insert _ (x :: roots) cs x (with_children b []) [] [] H1) as H2.
  rewrite lookup_insert_eq in H2. specialize (H2 eq_refl eq_refl). rewrite insert_insert_eq in H2.
  destruct b as [i c k]. simpl in *. subst. by rewrite app_nil_r in H2.
Qed.

(** A childless root takes over the children of another root. *)
Lemma wf_transfer V roots t bt x bx :
  wf V (t :: x :: roots) → V !! t = Some bt → V !! x = Some bx → b_ChildrenIds bx = [] →
  wf (<[x:=with_children bx (b_ChildrenIds bt)]> V) (x :: roots).
Proof.
  intros Hwf Ht Hx Hch. pose proof (wf_roots _ _ Hwf) as Hnd. apply NoDup_cons in Hnd as [Htx Hnd].
  assert (t ≠ x) as Hne by (intros ->; apply Htx; by left).
  assert (reachable V (t :: x :: roots) t) as Htr by (apply reachable_root; by left).
  assert (∀ y, reachable (<[x:=with_children bx (b_ChildrenIds bt)]> V) (x :: roots) y →
            y ≠ t ∧ reachable V (t :: x :: roots) y) as Hre.
  { intros y (r & Hr & Hy). induction Hy as [|q b c Hq [IH1 IH2] Hb Hc].
    - split; [by intros ->|]. apply reachable_root. by right.
    - assert (∃ q' bq', reachable V (t :: x :: roots) q' ∧ V !! q' = Some bq' ∧ c ∈ b_ChildrenIds bq') as (q' & bq' & ? & ? & ?).
      { apply lookup_update in Hb as [[-> ->]|[_ Hb]]; [exists t, bt|exists q, b]; done. }
      split; [|eauto with heart]. intros ->. by eapply (wf_root _ _ Hwf q' bq' t); [..|by left|]. }
  (* the owner of a child before the transfer *)
  assert (∀ q b c, q ≠ t → reachable V (t :: x :: roots) q →
    <[x:=with_children bx (b_ChildrenIds bt)]> V !! q = Some b → c ∈ b_ChildrenIds b →
    ∃ b', V !! (if decide (q = x) then t else q) = Some b' ∧ c ∈ b_ChildrenIds b' ∧
          reachable V (t :: x :: roots) (if decide (q = x) then t else q)) as Hown.
  { intros q b c Hqt Hq Hb Hc. apply lookup_update in Hb as [[-> ->]|[Hn Hb]].
    - rewrite decide_True by done. exists bt. done.
    - rewrite decide_False by done. exists b. done. }
  split.
  - intros id b [[-> ->]|[_ Hb]]%lookup_update; [by apply (wf_keys _ _ Hwf x bx)|by apply (wf_keys _ _ Hwf)].
  - done.
  - intros p1 b1 p2 b2 c H1 H2 Hb1 Hb2 Hc1 Hc2. apply Hre in H1 as [Hn1 H1], H2 as [Hn2 H2].
    destruct (Hown p1 b1 c Hn1 H1 Hb1 Hc1) as (b1' & E1 & C1 & R1). destruct (Hown p2 b2 c Hn2 H2 Hb2 Hc2) as (b2' & E2 & C2 & R2).
    pose proof (wf_uniq _ _ Hwf _ b1' _ b2' c R1 R2 E1 E2 C1 C2). repeat case_decide; congruence.
  - intros q b Hq [[-> ->]|[_ Hb]]%lookup_update; [by apply (wf_nodup _ _ Hwf t bt)|].
    apply (wf_nodup _ _ Hwf q); [by apply Hre|done].
  - intros q b r Hq Hb Hr Hc. apply Hre in Hq as [Hn Hq]. destruct (Hown q b r Hn Hq Hb Hc) as (b' & E & C & R).
    eapply (wf_root _ _ Hwf _ b' r R E); [by right|done].
Qed.

(** ** Operations on the tree *)

Lemma reach_not_other V root others x : wf V (root :: others) → reach V root x → x ∉ others.
Proof.
  intros Hwf Hx Hin. pose proof (wf_roots _ _ Hwf) as Hnd. apply NoDup_cons in Hnd as [Hnr _].
  inversion Hx as [|p b ? Hp Hb Hc]; subst; [done|].
  eapply (wf_root _ _ Hwf p b x); [|done|by right|done]. exists root. split; [by left|done].
Qed.

Lemma RemoveMut_middle (l r : list string) c : c ∉ l ++ r → RemoveMut (l ++ c :: r) c = l ++ r.
Proof.
  intros Hc. rewrite RemoveMut_spec, filter_app, filter_cons_False by (intros H; by apply H).
  rewrite !filter_all; [done|..]; intros x Hx ->; apply Hc, elem_of_app; tauto.
Qed.

Lemma Unlink_parent s c bp l r :
  PickParentOf s c = Some bp → view s !! b_Id bp = Some bp → b_ChildrenIds bp = l ++ c :: r → c ∉ l ++ r →
  ∃ s', Unlink s c = (true, s') ∧ view s' = <[b_Id bp:=with_children bp (l ++ r)]> (view s) ∧ same_below s s'.
Proof.
  intros Hp Hb Hch Hc. unfold Unlink, GetParentOf. rewrite Hp.
  destruct (Get_spec s (b_Id bp)) as (G1 & G2 & G3 & G4).
  destruct (Get s (b_Id bp)) as [o s1]. cbn [fst snd] in *. rewrite Hb in G1, G4. subst o.
  unfold removeChildren. rewrite Hch, RemoveMut_middle by done.
  destruct (setChildrenIds_view s1 (b_Id bp) bp (l ++ r) G4) as (V1 & V2 & _).
  eexists. split_and!; [done|by rewrite V1, G2|by eapply same_below_trans].
Qed.

(** C27. Unlinking a block of a well-formed state takes it out of its parent and
    nothing else: it becomes the root of its own tree beside the rest, the order of
    its siblings is kept and the parent states are not touched; unlinking what no
    reachable block lists does nothing. *)
Theorem Unlink_correct s (Hwf : wf (view s) [st_rootId s]) (c : string) :
  (∀ p bp l r, reach (view s) (st_rootId s) p → view s !! p = Some bp → b_ChildrenIds bp = l ++ c :: r →
     ∃ s', Unlink s c = (true, s') ∧ view s' = <[p:=with_children bp (l ++ r)]> (view s) ∧
       wf (view s') [c; st_rootId s] ∧ same_below s s') ∧
  ((∀ p b, reach (view s) (st_rootId s) p → view s !! p = Some b → c ∉ b_ChildrenIds b) → Unlink s c = (false, s)).
Proof.
  split.
  - intros p bp l r Hr Hp Hch. assert (b_Id bp = p) as Eid by (by eapply (wf_keys _ _ Hwf)).
    assert (reachable (view s) [st_rootId s] p) as Hrp by (exists (st_rootId s); split; [by left|done]).
    assert (c ∉ l ++ r) as Hc.
    { pose proof (wf_nodup _ _ Hwf p bp Hrp Hp) as Hn. rewrite Hch, <- Permutation_middle in Hn.
      by apply NoDup_cons in Hn as [? _]. }
    destruct (Unlink_parent s c bp l r) as (s' & E & V' & B'); [|by rewrite Eid|done|done|].
    { apply (PickParentOf_spec s [] Hwf). rewrite Eid, Hch. split_and!; [done|done|]. apply elem_of_app. right. by left. }
    rewrite Eid in V'. exists s'. split_and!; [done|done| |done]. rewrite V'. by apply wf_remove.
  - intros Hno. unfold Unlink, GetParentOf. by rewrite (proj2 (PickParentOf_None s [] Hwf c) Hno).
Qed.

(** *** Where blocks are inserted: the intended effect on the tree *)

Section tree_edit.
Context (V : Blocks) (root : string) (opId : string) (ids : list string) (t : string).

(** [t] is listed by the reachable block [p]. *)
Definition listed (p : string) (bp : Block) (l r : list string) : Prop :=
  reach V root p ∧ V !! p = Some bp ∧ b_ChildrenIds bp = l ++ t :: r ∧ is_Some (V !! t).

Definition is_text (b : Block) : bool := match b_Content b with CText _ => true | _ => false end.

Inductive tree_edit : BlockPosition → Blocks → Prop :=
| te_top p bp l r : listed p bp l r → tree_edit PTop (<[p:=with_children bp (l ++ ids ++ t :: r)]> V)
| te_bottom p bp l r : listed p bp l r → tree_edit PBottom (<[p:=with_children bp (l ++ t :: ids ++ r)]> V)
| te_inner bt : reach V root t → V !! t = Some bt →
    tree_edit PInner (<[t:=with_children bt (b_ChildrenIds bt ++ ids)]> V)
| te_inner_first bt : reach V root t → V !! t = Some bt →
    tree_edit PInnerFirst (<[t:=with_children bt (ids ++ b_ChildrenIds bt)]> V)
(** a text block without children inherits those of the block it replaces *)
| te_replace_inherit p bp l r bt i0 rest b0 :
    listed p bp l r → V !! t = Some bt → ids = i0 :: rest → V !! i0 = Some b0 → is_text b0 = true →
    b_ChildrenIds b0 = [] →
    tree_edit PReplace
      (<[p:=with_children bp (l ++ ids ++ r)]> (<[i0:=with_children b0 (b_ChildrenIds bt)]> V))
| te_replace_own p bp l r bt i0 rest b0 :
    listed p bp l r → V !! t = Some bt → ids = i0 :: rest → V !! i0 = Some b0 →
    b_ChildrenIds b0 ≠ [] ∨ (is_text b0 = false ∧ b_ChildrenIds bt = []) →
    tree_edit PReplace (<[p:=with_children bp (l ++ ids ++ r)]> V)
(** a block that cannot inherit leaves a target with children in place *)
| te_replace_keep p bp l r bt i0 rest b0 :
    listed p bp l r → V !! t = Some bt → ids = i0 :: rest → V !! i0 = Some b0 → is_text b0 = false →
    b_ChildrenIds b0 = [] → b_ChildrenIds bt ≠ [] →
    tree_edit PReplace (<[p:=with_children bp (l ++ ids ++ t :: r)]> V)
(** beside a column of a row: a new column *)
| te_side_row pos p bp l r :
    listed p bp l r → is_row bp = true → pos = PLeft ∨ pos = PRight →
    tree_edit pos
      (<[p:=with_children bp (l ++ (if decide (pos = PRight) then [t; "cd-" +:+ opId] else ["cd-" +:+ opId; t]) ++ r)]>
        (<["cd-" +:+ opId:=layout_block ("cd-" +:+ opId) ids LColumn]> V))
(** beside any other block: a new row of two columns in its place *)
| te_side_wrap pos p bp l r :
    listed p bp l r → is_row bp = false → pos = PLeft ∨ pos = PRight →
    tree_edit pos
      (<["r-" +:+ opId:=layout_block ("r-" +:+ opId)
           (if decide (pos = PRight) then ["ct-" +:+ opId; "cd-" +:+ opId] else ["cd-" +:+ opId; "ct-" +:+ opId]) LRow]>
        (<["cd-" +:+ opId:=layout_block ("cd-" +:+ opId) ids LColumn]>
          (<["ct-" +:+ opId:=layout_block ("ct-" +:+ opId) [t] LColumn]>
            (<[p:=with_children bp (l ++ ("r-" +:+ opId) :: r)]> V)))).
End tree_edit.

(** The ids of the layout blocks of a side move are new. *)
Definition fresh_op (V : Blocks) (root opId : string) (ids : list string) : Prop :=
  ∀ x, x ∈ ["cd-" +:+ opId; "ct-" +:+ opId; "r-" +:+ opId] →
    V !! x = None ∧ x ∉ root :: ids ∧ ∀ p b, V !! p = Some b → x ∉ b_ChildrenIds b.

Lemma op_ids_distinct opId :
  "cd-" +:+ opId ≠ "ct-" +:+ opId ∧ "cd-" +:+ opId ≠ "r-" +:+ opId ∧ "ct-" +:+ opId ≠ "r-" +:+ opId.
Proof. by split_and!. Qed.

Section tree_edit_wf.
Context (V : Blocks) (root opId : string) (ids : list string) (t : string) (Hwf : wf V (root :: ids)).

Lemma wf_ids_root : wf V (ids ++ [root]).
Proof. apply (wf_perm _ (root :: ids)); [|done]. apply Permutation_cons_append. Qed.

Lemma listed_facts p bp l r :
  listed V root t p bp l r →
  reachable V (root :: ids) p ∧ b_Id bp = p ∧ t ∉ l ++ r ∧ p ∉ ids ∧ t ∉ ids ∧ p ≠ t ∧ reach V root t.
Proof.
  intros (Hr & Hp & Hch & Ht). assert (reachable V (root :: ids) p) as Hrp by (exists root; split; [by left|done]).
  assert (t ∈ b_ChildrenIds bp) as Htc by (rewrite Hch; apply elem_of_app; right; by left).
  assert (reach V root t) as Hrt by (by eapply reach_child). split_and!.
  - done.
  - by eapply (wf_keys _ _ Hwf).
  - pose proof (wf_nodup _ _ Hwf p bp Hrp Hp) as Hn. rewrite Hch, <- Permutation_middle in Hn.
    by apply NoDup_cons in Hn as [? _].
  - by eapply reach_not_other.
  - by eapply reach_not_other.
  - intros ->. destruct (reach_chain _ _ _ Hr) as [path Hc].
    pose proof (chain_fresh _ _ Hwf root ltac:(by left) _ _ (chain_child V root path t bp t Hc Hp Htc)) as [Hf _].
    apply Hf, elem_of_app. right. by left.
  - done.
Qed.

Lemma side_row_wf pos p bp l r :
  fresh_op V root opId ids → listed V root t p bp l r →
  let cd := "cd-" +:+ opId in
  wf (<[p:=with_children bp (l ++ (if decide (pos = PRight) then [t; cd] else [cd; t]) ++ r)]>
        (<[cd:=layout_block cd ids LColumn]> V)) [root].
Proof.
  intros Hfr Hl cd. destruct (Hfr cd ltac:(by left)) as (F1 & F2 & F3). destruct Hl as (Hr & Hp & Hch & Ht).
  assert (wf (<[cd:=layout_block cd ids LColumn]> V) ([cd] ++ [root])) as H1.
  { apply (wf_new_parent _ _ _ ids); [apply wf_ids_root|done| |by intros q b _; apply F3|done|done].
    intros Hin. apply F2. by rewrite Permutation_cons_append. }
  assert (p ≠ cd) as Hne by (intros ->; congruence).
  assert (<[cd:=layout_block cd ids LColumn]> V !! p = Some bp) as Hp' by (by rewrite lookup_insert_ne).
  case_decide.
  - pose proof (wf_insert _ _ _ p bp (l ++ [t]) r H1 Hp') as H2. rewrite <- !app_assoc in H2. by apply H2.
  - by apply (wf_insert _ _ _ p bp l (t :: r) H1 Hp').
Qed.

Lemma side_wrap_wf pos p bp l r :
  fresh_op V root opId ids → listed V root t p bp l r →
  let cd := "cd-" +:+ opId in let ct := "ct-" +:+ opId in let ro := "r-" +:+ opId in
  wf (<[ro:=layout_block ro (if decide (pos = PRight) then [ct; cd] else [cd; ct]) LRow]>
       (<[cd:=layout_block cd ids LColumn]> (<[ct:=layout_block ct [t] LColumn]>
          (<[p:=with_children bp (l ++ ro :: r)]> V)))) [root].
Proof.
  intros Hfr Hl cd ct ro. pose proof (listed_facts _ _ _ _ Hl) as (Hrp & Hid & Htlr & Hpi & Hti & Hpt & Hrt).
  destruct Hl as (Hr & Hp & Hch & [bt Ht]). destruct (op_ids_distinct opId) as (D1 & D2 & D3). fold cd ct ro in D1, D2, D3.
  destruct (Hfr cd ltac:(by left)) as (C1 & C2 & C3), (Hfr ct ltac:(by right; left)) as (T1 & T2 & T3),
    (Hfr ro ltac:(by right; right; left)) as (R1 & R2 & R3).
  assert (∀ q, q ∈ [cd; ct; ro] → q ≠ p ∧ q ≠ t) as Hnew.
  { intros q Hq. destruct (Hfr q Hq) as (Hq' & _). split; intros ->; congruence. }
  destruct (Hnew cd ltac:(by left)), (Hnew ct ltac:(by right; left)), (Hnew ro ltac:(by right; right; left)).
  (* unlink the target *)
  assert (wf (<[p:=with_children bp (l ++ r)]> V) ([t] ++ root :: ids)) as W1 by (by apply wf_remove).
  set (V1 := <[p:=with_children bp (l ++ r)]> V) in *.
  assert (∀ x, x ∈ [cd; ct; ro] → V1 !! x = None ∧ x ∉ root :: ids ∧ ∀ q b, V1 !! q = Some b → x ∉ b_ChildrenIds b) as F1.
  { intros x Hx. destruct (Hfr x Hx) as (X1 & X2 & X3), (Hnew x Hx). split_and!; [|done|].
    - subst V1. by rewrite lookup_insert_ne.
    - intros q b [[-> ->]|[_ Hb]]%lookup_update; [|by apply (X3 q)].
      intros Hin. apply (X3 p bp Hp). rewrite Hch. cbn in Hin. rewrite elem_of_app in *. rewrite elem_of_cons. tauto. }
  (* the column of the target *)
  assert (wf (<[ct:=layout_block ct [t] LColumn]> V1) (ct :: root :: ids)) as W2.
  { destruct (F1 ct ltac:(by right; left)) as (X1 & X2 & X3). apply (wf_new_parent _ _ _ [t]); try done.
    - simpl. rewrite elem_of_cons. naive_solver.
    - intros q b _. apply X3. }
  set (V2 := <[ct:=layout_block ct [t] LColumn]> V1) in *.
  (* the column of the moved blocks *)
  assert (wf (<[cd:=layout_block cd ids LColumn]> V2) (cd :: [ct; root])) as W3.
  { destruct (F1 cd ltac:(by left)) as (X1 & X2 & X3). apply (wf_new_parent _ _ _ ids); try done.
    - eapply wf_perm; [|exact W2]. rewrite (Permutation_app_comm ids). done.
    - subst V2. by rewrite lookup_insert_ne.
    - rewrite elem_of_app, !elem_of_cons, elem_of_nil in *. naive_solver.
    - intros q b _ [[-> ->]|[_ Hb]]%lookup_update; [|by apply (X3 q)]. simpl. rewrite list_elem_of_singleton. done. }
  set (V3 := <[cd:=layout_block cd ids LColumn]> V2) in *.
  (* the row *)
  assert (∀ cs, cs ≡ₚ [cd; ct] → wf (<[ro:=layout_block ro cs LRow]> V3) ([ro] ++ [root])) as W4.
  { intros cs Hcs. destruct (F1 ro ltac:(by right; right; left)) as (X1 & X2 & X3).
    apply (wf_new_parent _ _ _ cs); try done.
    - eapply wf_perm; [|exact W3]. by rewrite Hcs.
    - subst V3 V2. by rewrite !lookup_insert_ne.
    - rewrite Hcs. rewrite !elem_of_app, !elem_of_cons, !elem_of_nil in *. naive_solver.
    - intros q b _ [[-> ->]|[_ Hb]]%lookup_update; [simpl; rewrite elem_of_cons in X2; tauto|].
      apply lookup_update in Hb as [[-> ->]|[_ Hb]]; [|by apply (X3 q)]. simpl. by rewrite list_elem_of_singleton. }
  (* the row in the place of the target *)
  assert (∀ cs, cs ≡ₚ [cd; ct] →
    wf (<[ro:=layout_block ro cs LRow]> (<[cd:=layout_block cd ids LColumn]> (<[ct:=layout_block ct [t] LColumn]>
          (<[p:=with_children bp (l ++ ro :: r)]> V)))) [root]) as W5.
  { intros cs Hcs. pose proof (wf_insert _ _ _ p (with_children bp (l ++ r)) l r (W4 cs Hcs)) as W6.
    assert (<[ro:=layout_block ro cs LRow]> V3 !! p = Some (with_children bp (l ++ r))) as Hp'.
    { subst V3 V2 V1. rewrite !lookup_insert_ne by done. by rewrite lookup_insert_eq. }
    specialize (W6 Hp' eq_refl). cbn [app with_children b_Id b_Content] in W6. subst V3 V2 V1.
    rewrite !(insert_insert_ne _ p) in W6 by done. by rewrite insert_insert_eq in W6. }
  case_decide; apply W5; [|done]. apply perm_swap.
Qed.

Lemma replace_inherit_wf p bp l r bt i0 rest b0 :
  listed V root t p bp l r → V !! t = Some bt → ids = i0 :: rest → V !! i0 = Some b0 → b_ChildrenIds b0 = [] →
  wf (<[p:=with_children bp (l ++ ids ++ r)]> (<[i0:=with_children b0 (b_ChildrenIds bt)]> V)) [root].
Proof.
  intros Hl Ht Eids H0 Hc0. pose proof (listed_facts _ _ _ _ Hl) as (Hrp & Hid & Htlr & Hpi & Hti & Hpt & Hrt).
  destruct Hl as (Hr & Hp & Hch & _). assert (i0 ∈ ids) as Hi0 by (rewrite Eids; by left).
  assert (i0 ≠ p ∧ i0 ≠ t) as [Hip Hit] by (split; intros ->; done).
  assert (wf (<[p:=with_children bp (l ++ r)]> V) (t :: i0 :: rest ++ [root])) as W1.
  { eapply wf_perm; [|by eapply wf_remove]. rewrite Eids. constructor.
    by rewrite (Permutation_app_comm rest [root]), <- perm_swap. }
  set (V1 := <[p:=with_children bp (l ++ r)]> V) in *.
  assert (wf (<[i0:=with_children b0 (b_ChildrenIds bt)]> V1) (ids ++ [root])) as W2.
  { rewrite Eids. apply (wf_transfer V1 _ t bt i0 b0 W1); try done; subst V1; by rewrite lookup_insert_ne. }
  pose proof (wf_insert _ _ _ p (with_children bp (l ++ r)) l r W2) as W3.
  assert (<[i0:=with_children b0 (b_ChildrenIds bt)]> V1 !! p = Some (with_children bp (l ++ r))) as Hp'.
  { subst V1. rewrite lookup_insert_ne by done. by rewrite lookup_insert_eq. }
  specialize (W3 Hp' eq_refl). subst V1. rewrite (insert_insert_ne _ p i0) in W3 by done.
  by rewrite insert_insert_eq, <- (insert_insert_ne _ p i0) in W3 by done.
Qed.

Lemma replace_wf p bp l r :
  listed V root t p bp l r → wf (<[p:=with_children bp (l ++ ids ++ r)]> V) [root].
Proof.
  intros Hl. pose proof (listed_facts _ _ _ _ Hl) as (Hrp & _). destruct Hl as (Hr & Hp & Hch & _).
  assert (wf (<[p:=with_children bp (l ++ r)]> V) (t :: ids ++ [root])) as W1.
  { eapply wf_perm; [|by eapply wf_remove]. by rewrite <- Permutation_cons_append. }
  apply wf_drop in W1. pose proof (wf_insert _ _ _ p (with_children bp (l ++ r)) l r W1) as W2.
  rewrite lookup_insert_eq, insert_insert_eq in W2. by apply W2.
Qed.

(** Every intended edit keeps the tree well-formed. *)
Lemma tree_edit_wf pos V' :
  fresh_op V root opId ids → tree_edit V root opId ids t pos V' → wf V' [root].
Proof.
  intros Hfr [p bp l r Hl|p bp l r Hl|bt Hr Ht|bt Hr Ht|p bp l r bt i0 rest b0 Hl Ht Ei H0 Htx Hc
    |p bp l r bt i0 rest b0 Hl Ht Ei H0 Hc|p bp l r bt i0 rest b0 Hl Ht Ei H0 Htx Hc Hct
    |pos' p bp l r Hl Hrow Hpos|pos' p bp l r Hl Hrow Hpos].
  - destruct Hl as (Hr & Hp & Hch & _). by eapply wf_insert; [apply wf_ids_root|..].
  - destruct Hl as (Hr & Hp & Hch & _). pose proof (wf_insert V [root] ids p bp (l ++ [t]) r wf_ids_root Hp) as W.
    rewrite <- !app_assoc in W. by apply W.
  - pose proof (wf_insert V [root] ids t bt (b_ChildrenIds bt) [] wf_ids_root Ht) as W.
    rewrite !app_nil_r in W. by apply W.
  - apply (wf_insert V [root] ids t bt [] (b_ChildrenIds bt) wf_ids_root Ht eq_refl).
  - by eapply replace_inherit_wf.
  - by eapply replace_wf.
  - destruct Hl as (Hr & Hp & Hch & _). by eapply wf_insert; [apply wf_ids_root|..].
  - by apply side_row_wf.
  - by apply side_wrap_wf.
Qed.
End tree_edit_wf.

(** ** Insertion implements the edits *)

Lemma FindPos_middle (l r : list string) t : t ∉ l → FindPos (l ++ t :: r) t = Z.of_nat (length l).
Proof.
  intros Hl. destruct (FindPos_present (l ++ t :: r) t) as (l' & r' & E & Hl' & ->).
  { apply elem_of_app. right. by left. }
  f_equal. revert l' E Hl'. induction l as [|x l IH]; intros [|y l'] E Hl'; simplify_eq/=.
  - done.
  - exfalso. apply Hl'. by left.
  - exfalso. apply Hl. by left.
  - f_equal. rewrite not_elem_of_cons in Hl, Hl'. apply IH; tauto.
Qed.

Lemma Get_keeps s id i b : st_blocks s !! i = Some b → st_blocks (Get s id).2 !! i = Some b.
Proof.
  intros Hb. unfold Get. destruct (st_blocks s !! id) eqn:Eid; [done|].
  destruct (st_parents s); [done|]. destruct (Pick s id); [|done]. simpl.
  rewrite lookup_insert_ne; [done|]. intros ->. congruence.
Qed.

(** A state that shows the same blocks, over the same parents, with at least the
    same copies in its own layer. *)
Definition same_view (s s' : State) : Prop :=
  view s' = view s ∧ same_below s s' ∧ ∀ i b, st_blocks s !! i = Some b → st_blocks s' !! i = Some b.

Lemma same_view_refl s : same_view s s.
Proof. split_and!; auto with heart. Qed.
Lemma same_view_trans s1 s2 s3 : same_view s1 s2 → same_view s2 s3 → same_view s1 s3.
Proof.
  intros (V1 & B1 & K1) (V2 & B2 & K2). split_and!; [congruence|by eapply same_below_trans|auto].
Qed.

Lemma Get_same_view s id : same_view s (Get s id).2.
Proof.
  destruct (Get_spec s id) as (_ & ? & ? & _). split_and!; [done|done|]. intros i b. apply Get_keeps.
Qed.

Lemma Get_some s id b :
  view s !! id = Some b → ∃ s', Get s id = (Some b, s') ∧ same_view s s' ∧ st_blocks s' !! id = Some b.
Proof.
  intros Hb. pose proof (Get_spec s id) as (G1 & _ & _ & G4). pose proof (Get_same_view s id) as Hs.
  destruct (Get s id) as [o s']. cbn [fst snd] in *. rewrite Hb in *. subst o. by exists s'.
Qed.

Lemma side_moving_same_view s cb targetID pos lastT lastO ids :
  same_view s (side_moving_loop s cb targetID pos lastT lastO ids).2.
Proof.
  revert s cb targetID pos lastT lastO. induction ids as [|id ids IH]; intros s cb targetID pos lastT lastO;
    cbn [side_moving_loop]; [apply same_view_refl|]. case_bool_decide.
  - case_match; apply IH.
  - pose proof (Get_same_view s id) as Hs. destruct (Get s id) as [[b|] s1]; cbn [snd] in Hs.
    + case_match; (eapply same_view_trans; [exact Hs|apply IH]).
    + eapply same_view_trans; [exact Hs|apply IH].
Qed.

Lemma addChanges_same_view s targetID pos ids : same_view s (addChangesForSideMoving s targetID pos ids).
Proof.
  unfold addChangesForSideMoving.
  pose proof (side_moving_same_view s (new_changeBuilder (st_changes s)) targetID pos targetID operationNone ids) as H.
  destruct (side_moving_loop _ _ _ _ _ _ _) as [cb s']. exact H.
Qed.

Section insert_to.
Context (md5hex : string → string) (s : State) (ids : list string) (t : string).
Context (Hwf : wf (view s) (st_rootId s :: ids)) (Hids : ids ≠ []) (Ht0 : t ≠ "").

Lemma contains_id_false id : id ∉ ids → contains_id ids id = false.
Proof. intros H. unfold contains_id. rewrite FindPos_path. by apply bool_decide_eq_false. Qed.

Lemma InsertTo_listed p bp bt l r pos :
  listed (view s) (st_rootId s) t p bp l r → view s !! t = Some bt → pos ≠ PInner → pos ≠ PInnerFirst →
  ∃ s2, same_view s s2 ∧ st_blocks s2 !! t = Some bt ∧ st_blocks s2 !! p = Some bp ∧
    InsertTo md5hex s t pos ids = insert_at md5hex s2 bt (Some bp) (Z.of_nat (length l)) pos ids.
Proof.
  intros Hl Hbt Hp1 Hp2. pose proof (listed_facts _ _ _ _ Hwf _ _ _ _ Hl) as (Hrp & Hid & Htlr & Hpi & Hti & Hpt & Hrt).
  destruct Hl as (Hr & Hp & Hch & _).
  destruct (Get_some s t bt Hbt) as (s1 & G1 & S1 & B1). destruct S1 as (V1 & W1 & K1).
  assert (PickParentOf s1 t = Some bp) as HP.
  { apply (PickParentOf_spec s1 ids).
    - by rewrite V1, (proj1 W1).
    - rewrite V1, (proj1 W1), Hid, Hch. split_and!; [done|done|]. apply elem_of_app. right. by left. }
  destruct (Get_some s1 p bp) as (s2 & G2 & S2 & B2); [by rewrite V1|].
  exists s2. split_and!; [eapply same_view_trans; [|exact S2]; by split_and!|by apply S2|done|].
  assert (b_Id bt = t) as Eidt by (by eapply (wf_keys _ _ Hwf)).
  unfold InsertTo. rewrite !bool_decide_eq_false_2 by done. rewrite G1. cbn [orb].
  unfold GetParentOf. rewrite HP, Hid, G2. rewrite !contains_id_false by (rewrite ?Hid; done).
  rewrite Eidt, Hch, FindPos_middle by (intros Hin; apply Htlr, elem_of_app; by left).
  destruct (Z.eqb_spec (Z.of_nat (length l)) (-1)); [lia|done].
Qed.

Lemma InsertTo_inner bt pos :
  reach (view s) (st_rootId s) t → view s !! t = Some bt → pos = PInner ∨ pos = PInnerFirst →
  ∃ s1, same_view s s1 ∧ st_blocks s1 !! t = Some bt ∧
    InsertTo md5hex s t pos ids = insert_at md5hex s1 bt None 0 pos ids.
Proof.
  intros Hr Hbt Hpos. destruct (Get_some s t bt Hbt) as (s1 & G1 & S1 & B1). exists s1. split_and!; [done|done|].
  unfold InsertTo. rewrite !bool_decide_eq_false_2 by done. rewrite G1.
  assert (bool_decide (pos = PInner) || bool_decide (pos = PInnerFirst) = true) as ->.
  { apply orb_true_iff. rewrite !bool_decide_eq_true. done. }
  cbn [negb]. rewrite contains_id_false; [done|]. by eapply reach_not_other.
Qed.

(** Updating the children of a block in the top layer. *)
Lemma set_view s2 id b cs :
  same_view s s2 → st_blocks s2 !! id = Some b →
  view (setChildrenIds s2 id cs) = <[id:=with_children b cs]> (view s) ∧ same_below s (setChildrenIds s2 id cs).
Proof.
  intros (V2 & W2 & K2) Hb. destruct (setChildrenIds_view s2 id b cs Hb) as (-> & W3 & _).
  split; [by rewrite V2|by eapply same_below_trans].
Qed.

Lemma insertChildren_at s2 p bp l r :
  same_view s s2 → st_blocks s2 !! p = Some bp → b_ChildrenIds bp = l ++ r →
  ∃ s3, insertChildrenIds s2 p (Z.of_nat (length l)) ids = Some s3 ∧
    s3 = setChildrenIds s2 p (l ++ ids ++ r) ∧
    view s3 = <[p:=with_children bp (l ++ ids ++ r)]> (view s) ∧ same_below s s3.
Proof.
  intros S2 Hb Hch. unfold insertChildrenIds. rewrite Hb, Hch, Insert_at. eexists. split; [done|]. split; [done|].
  by apply set_view.
Qed.
End insert_to.

(** While a text block inherits the children of the block it replaces, both list
    them; folding the two blocks into one shows that there is no cycle. *)
Section inherit.
Context (V : Blocks) (root : string) (ids : list string) (t : string) (Hwf : wf V (root :: ids)).
Context (p : string) (bp bt b0 : Block) (l r : list string) (i0 : string) (rest : list string).
Context (Hl : listed V root t p bp l r) (Ht : V !! t = Some bt) (Eids : ids = i0 :: rest).
Context (H0 : V !! i0 = Some b0) (Hc0 : b_ChildrenIds b0 = []).

Let V1 : Blocks := <[i0:=with_children b0 (b_ChildrenIds bt)]> V.
Let V'' : Blocks := <[p:=with_children bp ((l ++ [t]) ++ ids ++ r)]> V1.
Let V' : Blocks := <[p:=with_children bp (l ++ ids ++ r)]> V1.
Let φ (x : string) : string := if decide (x = t) then i0 else x.

Lemma inherit_facts :
  i0 ≠ p ∧ i0 ≠ t ∧ p ≠ t ∧ root ≠ t ∧ t ∉ ids ∧ t ∉ l ++ r ∧ t ∉ b_ChildrenIds bt ∧
  ∀ q b, reachable V (root :: ids) q → V !! q = Some b → t ∈ b_ChildrenIds b → q = p.
Proof.
  pose proof (listed_facts _ _ _ _ Hwf _ _ _ _ Hl) as (Hrp & Hid & Htlr & Hpi & Hti & Hpt & Hrt).
  destruct Hl as (Hr & Hp & Hch & _). assert (i0 ∈ ids) as Hi0 by (rewrite Eids; by left).
  assert (t ∈ b_ChildrenIds bp) as Htc by (rewrite Hch; apply elem_of_app; right; by left).
  assert (∀ q b, reachable V (root :: ids) q → V !! q = Some b → t ∈ b_ChildrenIds b → q = p) as Hq.
  { intros q b Hq Hb Hc. by eapply (wf_uniq _ _ Hwf q b p bp t). }
  split_and!; try done; try (by intros ->).
  - intros ->. by eapply (wf_root _ _ Hwf p bp t); [..|by left|].
  - intros Hc. apply Hpt. symmetry. eapply Hq; [|exact Ht|done]. exists root. split; [by left|done].
Qed.

Lemma inherit_chain path x :
  chain V'' root path x → reachable V (root :: ids) x ∧ chain V' root (map φ path) (φ x).
Proof.
  destruct inherit_facts as (N1 & N2 & N3 & N4 & N5 & N6 & N7 & Hq). destruct Hl as (Hr & Hp & Hch & _).
  assert (∀ y, y ≠ t → φ y = y) as Hφ by (intros y Hy; unfold φ; by rewrite decide_False).
  assert (φ t = i0) as Hφt by (unfold φ; by rewrite decide_True).
  assert (reachable V (root :: ids) t) as Hrt.
  { exists root. split; [by left|]. eapply reach_child; [exact Hr|exact Hp|]. rewrite Hch. apply elem_of_app. right. by left. }
  assert (V' !! p = Some (with_children bp (l ++ ids ++ r))) as Vp by (subst V'; by rewrite lookup_insert_eq).
  assert (V' !! i0 = Some (with_children b0 (b_ChildrenIds bt))) as Vi.
  { subst V' V1. rewrite lookup_insert_ne by done. by rewrite lookup_insert_eq. }
  induction 1 as [|path q b c Hc [IHr IHc] Hb Hin].
  { split; [apply reachable_root; by left|]. simpl. rewrite Hφ by done. constructor. }
  rewrite map_app. cbn [map]. subst V''. apply lookup_update in Hb as [[-> ->]|[Hnp Hb]].
  { cbn [with_children b_ChildrenIds] in Hin. rewrite !elem_of_app, list_elem_of_singleton in Hin. split.
    - destruct Hin as [[Hin| ->]|[Hin|Hin]]; [|done|apply reachable_root; by right|];
        (eapply reachable_child; [exact IHr|exact Hp|]); rewrite Hch, elem_of_app, elem_of_cons; tauto.
    - eapply chain_child; [exact IHc|rewrite Hφ by done; exact Vp|]. cbn [with_children b_ChildrenIds].
      rewrite !elem_of_app in *. destruct (decide (c = t)) as [->|Hct].
      + rewrite Hφt, Eids. right; left. by left.
      + rewrite Hφ by done. tauto. }
  subst V1. apply lookup_update in Hb as [[-> ->]|[Hni Hb]].
  { cbn [with_children b_ChildrenIds] in Hin. assert (c ≠ t) by (by intros ->). split; [by apply (reachable_child _ _ t bt)|].
    eapply chain_child; [exact IHc|rewrite Hφ by done; exact Vi|]. by rewrite Hφ. }
  split; [by eapply reachable_child|]. destruct (decide (q = t)) as [->|Hqt].
  - simplify_eq. assert (c ≠ t) by (by intros ->). eapply chain_child; [exact IHc|rewrite Hφt; exact Vi|]. by rewrite Hφ.
  - assert (c ≠ t) by (intros ->; by apply Hnp, (Hq q b)).
    eapply chain_child; [exact IHc| |rewrite Hφ by done; exact Hin]. rewrite Hφ by done.
    subst V'. by rewrite !lookup_insert_ne.
Qed.

Lemma inherit_parent s5 :
  view s5 = V'' → st_rootId s5 = root → PickParentOf s5 t = Some (with_children bp ((l ++ [t]) ++ ids ++ r)).
Proof.
  intros EV ER. destruct inherit_facts as (N1 & N2 & N3 & N4 & N5 & N6 & N7 & Hq).
  pose proof (replace_inherit_wf V root ids t Hwf p bp l r bt i0 rest b0 Hl Ht Eids H0 Hc0) as W.
  destruct Hl as (Hr & Hp & Hch & _).
  apply (PickParentOf_unique s5 t p); rewrite ?EV, ?ER.
  - intros path x Hc Hin. apply inherit_chain in Hc as [_ Hc].
    apply (chain_fresh _ _ W root ltac:(by left)) in Hc as [Hf _]. apply Hf. by apply list_elem_of_In, in_map, list_elem_of_In.
  - eapply reach_mono; [|exact Hr]. intros q b Hb. subst V'' V1. destruct (decide (q = p)) as [->|Hqp].
    + rewrite lookup_insert_eq. eexists. split; [done|]. cbn [with_children b_ChildrenIds].
      rewrite Hp in Hb. simplify_eq. intros c. rewrite Hch, !elem_of_app, elem_of_cons, list_elem_of_singleton. tauto.
    + rewrite lookup_insert_ne by done. destruct (decide (q = i0)) as [->|Hqi].
      * rewrite lookup_insert_eq. eexists. split; [done|]. rewrite H0 in Hb. simplify_eq. rewrite Hc0. by intros c ?%elem_of_nil.
      * rewrite lookup_insert_ne by done. by exists b.
  - subst V''. by rewrite lookup_insert_eq.
  - cbn [with_children b_ChildrenIds]. rewrite !elem_of_app. left; right. by left.
  - intros q b Hrq Hb Hc. unfold V'' in Hb. apply lookup_update in Hb as [[-> ->]|[Hnp Hb]]; [done|].
    assert (reachable V (root :: ids) q) as Hrq'.
    { destruct (reach_chain _ _ _ Hrq) as [path Hch']. by apply inherit_chain in Hch' as [? _]. }
    unfold V1 in Hb. apply lookup_update in Hb as [[-> ->]|[Hni Hb]]; [done|]. by eapply Hq.
Qed.
End inherit.

Section insert_cases.
Context (md5hex : string → string) (s : State) (ids : list string) (t : string).
Context (Hwf : wf (view s) (st_rootId s :: ids)).

(** What the replacing block finds: its own children and those of the target. *)
Lemma insertReplace_start s2 p bp bt l r i0 rest b0 :
  listed (view s) (st_rootId s) t p bp l r → view s !! t = Some bt → ids = i0 :: rest → view s !! i0 = Some b0 →
  same_view s s2 → st_blocks s2 !! t = Some bt → st_blocks s2 !! p = Some bp →
  ∃ s3, same_view s s3 ∧ st_blocks s3 !! p = Some bp ∧ st_blocks s3 !! i0 = Some b0 ∧
    insertReplace s2 t p (Z.of_nat (length l)) ids =
      let keeps := bool_decide (b_ChildrenIds b0 = []) && negb (bool_decide (b_ChildrenIds bt = [])) in
      match insertChildrenIds (if bool_decide (b_ChildrenIds b0 = []) && is_text b0
                               then setChildrenIds s3 i0 (b_ChildrenIds bt) else s3)
              p (if is_text b0 then Z.of_nat (length l) + 1 else Z.of_nat (length l)) ids with
      | None => None
      | Some s4 => if is_text b0 || negb keeps then Some (Unlink s4 t).2 else Some s4
      end.
Proof.
  intros Hl Hbt Eids H0 S2 Bt Bp. pose proof (listed_facts _ _ _ _ Hwf _ _ _ _ Hl) as (_ & _ & _ & _ & _ & _ & Hrt).
  destruct (Get_some s2 i0 b0) as (s3 & G & S3 & B3); [by rewrite (proj1 S2)|].
  exists s3. split_and!; [by eapply same_view_trans|by apply S3|done|].
  assert (existsb (λ id, negb (FindPos (b_ChildrenIds bt) id =? -1)) ids = false) as Hno.
  { apply not_true_iff_false. rewrite existsb_exists. intros (id & Hin%list_elem_of_In & Hf). revert Hf.
    rewrite FindPos_path, bool_decide_eq_true. eapply (wf_root _ _ Hwf t bt); [|done|by right]. exists (st_rootId s). split; [by left|done]. }
  unfold insertReplace. rewrite Eids at 1. rewrite G. cbv zeta.
  assert (st_blocks s3 !! t = Some bt) as -> by (by apply S3). rewrite Hno, andb_false_r, andb_true_r.
  unfold is_text. by destruct (b_Content b0).
Qed.

Context (Hids : ids ≠ []) (Ht0 : t ≠ "").

(** Inserting beside the target and unlinking it then. *)
Lemma insert_unlink_ok s3 p bp l m r' :
  (∃ r, listed (view s) (st_rootId s) t p bp l r) → same_view s s3 → st_blocks s3 !! p = Some bp →
  b_ChildrenIds bp = (l ++ m) ++ r' →
  ∃ s4, insertChildrenIds s3 p (Z.of_nat (length (l ++ m))) ids = Some s4 ∧
    ∀ cs1 cs2, (l ++ m) ++ ids ++ r' = cs1 ++ t :: cs2 →
      view (Unlink s4 t).2 = <[p:=with_children bp (cs1 ++ cs2)]> (view s) ∧ same_below s (Unlink s4 t).2.
Proof.
  intros [r Hl] S3 B3 Hch. pose proof (listed_facts _ _ _ _ Hwf _ _ _ _ Hl) as (Hrp & Hid & _ & _ & _ & _ & _).
  destruct Hl as (Hr & Hp & _ & _).
  destruct (insertChildren_at s ids s3 p bp (l ++ m) r' S3 B3 Hch) as (s4 & E4 & _ & V4 & W4).
  exists s4. split; [done|]. intros cs1 cs2 Ecs. rewrite Ecs in V4.
  assert (wf (view s4) [st_rootId s4]) as Hw4.
  { rewrite (proj1 W4), V4, <- Ecs. apply wf_insert; [by apply wf_ids_root|done|done]. }
  assert (view s4 !! p = Some (with_children bp (cs1 ++ t :: cs2))) as Hp4 by (rewrite V4; by rewrite lookup_insert_eq).
  assert (reach (view s4) (st_rootId s4) p) as Hr4.
  { rewrite (proj1 W4). eapply reach_mono; [|exact Hr]. intros q b Hb. rewrite V4.
    destruct (decide (q = p)) as [->|Hne]; [|rewrite lookup_insert_ne by done; by exists b].
    rewrite lookup_insert_eq. eexists. split; [done|]. cbn [with_children b_ChildrenIds]. simplify_eq.
    rewrite <- Ecs, Hch. intros c. rewrite !elem_of_app. tauto. }
  assert (t ∉ cs1 ++ cs2) as Hcs.
  { pose proof (wf_nodup _ _ Hw4 p _ ltac:(by eexists; split; [by left|exact Hr4]) Hp4) as Hn.
    cbn [with_children b_ChildrenIds] in Hn. rewrite <- Permutation_middle in Hn. by apply NoDup_cons in Hn as [? _]. }
  destruct (Unlink_parent s4 t (with_children bp (cs1 ++ t :: cs2)) cs1 cs2) as (s5 & -> & V5 & W5).
  - apply (PickParentOf_spec s4 [] Hw4). cbn [with_children b_Id b_ChildrenIds]. rewrite Hid.
    split_and!; [done|done|]. apply elem_of_app. right. by left.
  - cbn [with_children b_Id]. by rewrite Hid.
  - done.
  - done.
  - cbn [snd]. rewrite V5, V4. cbn [with_children b_Id b_Content]. rewrite Hid, insert_insert_eq.
    split; [done|by eapply same_below_trans].
Qed.

Lemma insert_replace_ok p bp l r bt i0 rest b0 V' :
  listed (view s) (st_rootId s) t p bp l r → view s !! t = Some bt → ids = i0 :: rest → view s !! i0 = Some b0 →
  (is_text b0 = true ∧ b_ChildrenIds b0 = [] ∧
     V' = <[p:=with_children bp (l ++ ids ++ r)]> (<[i0:=with_children b0 (b_ChildrenIds bt)]> (view s))) ∨
  ((b_ChildrenIds b0 ≠ [] ∨ (is_text b0 = false ∧ b_ChildrenIds bt = [])) ∧
     V' = <[p:=with_children bp (l ++ ids ++ r)]> (view s)) ∨
  (is_text b0 = false ∧ b_ChildrenIds b0 = [] ∧ b_ChildrenIds bt ≠ [] ∧
     V' = <[p:=with_children bp (l ++ ids ++ t :: r)]> (view s)) →
  ∃ s', InsertTo md5hex s t PReplace ids = Some (None, s') ∧ view s' = V' ∧ same_below s s'.
Proof.
  intros Hl Hbt Eids H0 Hcase.
  destruct (InsertTo_listed md5hex s ids t Hwf Hids Ht0 p bp bt l r PReplace Hl Hbt) as (s2 & S2 & B2t & B2p & ->); [done..|].
  pose proof (listed_facts _ _ _ _ Hwf _ _ _ _ Hl) as (Hrp & Hid & Htlr & Hpi & Hti & Hpt & Hrt).
  pose proof Hl as (Hr & Hp & Hch & _). assert (b_Id bt = t) as Eidt by (by eapply (wf_keys _ _ Hwf)).
  assert (i0 ≠ p) as Nip by (intros ->; apply Hpi; rewrite Eids; by left).
  destruct (insertReplace_start s2 p bp bt l r i0 rest b0) as (s3 & S3 & B3p & B3i & E); [done..|].
  cbn [insert_at]. rewrite Eidt, Hid, E. clear E. cbv zeta.
  destruct Hcase as [(Htx & Hc0 & ->)|[[Hc ->]|(Htx & Hc0 & Hct & ->)]].
  - rewrite Htx, Hc0. cbn [orb andb]. rewrite bool_decide_eq_true_2 by done. cbn [andb].
    destruct (set_view s s3 i0 b0 (b_ChildrenIds bt) S3 B3i) as [V4 W4].
    destruct (setChildrenIds_view s3 i0 b0 (b_ChildrenIds bt) B3i) as (_ & _ & B4).
    set (s4 := setChildrenIds s3 i0 (b_ChildrenIds bt)) in *.
    assert (st_blocks s4 !! p = Some bp) as B4p by (rewrite B4; by rewrite lookup_insert_ne).
    destruct (insertChildren_at s4 ids s4 p bp (l ++ [t]) r) as (s5 & E5 & _ & V5 & W5);
      [apply same_view_refl|done|by rewrite Hch, <- app_assoc|].
    rewrite length_app in E5. cbn [length] in E5.
    replace (Z.of_nat (length l + 1)) with (Z.of_nat (length l) + 1) in E5 by lia. rewrite E5. rewrite V4 in V5.
    assert (st_rootId s5 = st_rootId s) as R5 by (rewrite (proj1 W5); apply W4).
    pose proof (inherit_parent (view s) (st_rootId s) ids t Hwf p bp bt b0 l r i0 rest Hl Hbt Eids H0 Hc0 s5 V5 R5) as HP.
    destruct (Unlink_parent s5 t _ l (ids ++ r) HP) as (s6 & -> & V6 & W6).
    + cbn [with_children b_Id]. rewrite Hid, V5. by rewrite lookup_insert_eq.
    + cbn [with_children b_ChildrenIds]. by rewrite <- app_assoc.
    + rewrite !elem_of_app in *. tauto.
    + exists s6. split_and!; [done| |eapply same_below_trans; [exact W4|]; eapply same_below_trans; [exact W5|exact W6]].
      rewrite V6, V5. cbn [with_children b_Id b_Content]. by rewrite Hid, insert_insert_eq.
  - replace (bool_decide (b_ChildrenIds b0 = []) && is_text b0) with false.
    2: { symmetry. apply andb_false_iff. rewrite bool_decide_eq_false. destruct Hc as [?|[? _]]; [by left|by right]. }
    replace (bool_decide (b_ChildrenIds b0 = []) && negb (bool_decide (b_ChildrenIds bt = []))) with false.
    2: { symmetry. apply andb_false_iff. rewrite negb_false_iff, bool_decide_eq_false, bool_decide_eq_true.
      destruct Hc as [?|[_ ?]]; [by left|by right]. }
    rewrite orb_true_r. destruct (is_text b0).
    + destruct (insert_unlink_ok s3 p bp l [t] r (ex_intro _ r Hl) S3 B3p) as (s5 & E5 & Hun); [by rewrite Hch, <- app_assoc|].
      rewrite length_app in E5. cbn [length] in E5.
      replace (Z.of_nat (length l + 1)) with (Z.of_nat (length l) + 1) in E5 by lia. rewrite E5.
      destruct (Hun l (ids ++ r)) as [V6 W6]; [by rewrite <- app_assoc|].
      eexists. split; [done|]. by rewrite V6.
    + destruct (insert_unlink_ok s3 p bp l [] (t :: r) (ex_intro _ r Hl) S3 B3p) as (s5 & E5 & Hun); [by rewrite Hch, app_nil_r|].
      rewrite app_nil_r in E5. rewrite E5.
      destruct (Hun (l ++ ids) r) as [V6 W6]; [by rewrite app_nil_r, <- app_assoc|].
      rewrite <- app_assoc in V6. eexists. split; [done|]. by rewrite V6.
  - rewrite Htx, Hc0, andb_false_r. rewrite bool_decide_eq_true_2, bool_decide_eq_false_2 by done. cbn [andb negb orb].
    destruct (insertChildren_at s ids s3 p bp l (t :: r) S3 B3p Hch) as (s4 & -> & _ & V4 & W4).
    exists s4. by split_and!.
Qed.
End insert_cases.

(** Writing a block into the top layer. *)
Definition put (s : State) (b : Block) : State := with_blocks s (<[b_Id b:=b]> (st_blocks s)).

Lemma view_put s b : view (put s b) = <[b_Id b:=b]> (view s).
Proof. apply view_insert. Qed.
Lemma below_put s b : same_below s (put s b).
Proof. by split. Qed.
Lemma put_lookup s b i : st_blocks (put s b) !! i = if decide (i = b_Id b) then Some b else st_blocks s !! i.
Proof. simpl. case_decide as E; [rewrite E; by rewrite lookup_insert_eq|by rewrite lookup_insert_ne]. Qed.

Lemma Add_put s b : view s !! b_Id b = None → Add s b = (true, put s b).
Proof. intros H. unfold Add. by rewrite Pick_view, H. Qed.

Lemma setChildrenIds_put s id b cs :
  st_blocks s !! id = Some b → b_Id b = id → setChildrenIds s id cs = put s (with_children b cs).
Proof. intros H <-. unfold setChildrenIds. by rewrite H. Qed.

Lemma view_ignore s ids : view (ignore_ids s ids) = view s.
Proof. done. Qed.

Lemma hd_insert_middle (l r : list string) t x : <[length l := x]> (l ++ t :: r) = l ++ x :: r.
Proof. rewrite <- (Nat.add_0_r (length l)), insert_app_r. done. Qed.

Section side_cases.
Context (md5hex : string → string) (s : State) (ids : list string) (t : string) (pos : BlockPosition).
Context (Hwf : wf (view s) (st_rootId s :: ids)) (Hids : ids ≠ []) (Ht0 : t ≠ "") (Hpos : pos = PLeft ∨ pos = PRight).

Let opId := makeOpId md5hex t pos ids.
Let cd := "cd-" +:+ opId.
Let ct := "ct-" +:+ opId.
Let ro := "r-" +:+ opId.
Context (Hfr : fresh_op (view s) (st_rootId s) opId ids).

(** Up to the test whether the target is in a row already. *)
Lemma side_start p bp l r :
  listed (view s) (st_rootId s) t p bp l r →
  ∃ bt s4, view s !! t = Some bt ∧ same_view s s4 ∧ st_blocks s4 !! p = Some bp ∧
    InsertTo md5hex s t pos ids =
      let '(r0, s5) :=
        if is_row bp then (Ok (bp, true, Some bt), s4)
        else match wrapToRow (ignore_ids s4 [p]) opId bp bt with
             | (Err e, s5) => (Err e, s5)
             | (Ok (row, ok), s5) => let '(target, s6) := Get s5 (hd "" (b_ChildrenIds row)) in (Ok (row, ok, target), s6)
             end in
      match r0 with
      | Err e => Some (Some e, s5)
      | Ok (_, _, None) => None
      | Ok (row, attached, Some target) =>
          let '(column, _, s6) := addNewColumn s5 opId ids in
          let targetPos := FindPos (b_ChildrenIds row) (b_Id target) in
          if targetPos =? -1 then Some (Some "target is not a child of row", s6)
          else
            let columnPos := if bool_decide (pos = PRight) then targetPos + 1 else targetPos in
            match Insert (b_ChildrenIds row) columnPos [b_Id column] with
            | None => None
            | Some ch =>
                let s7 := if attached then setChildrenIds s6 (b_Id row) ch else s6 in
                Some (None, ignore_ids s7 ["cd-" +:+ opId; "ct-" +:+ opId; "r-" +:+ opId; b_Id row])
            end
      end.
Proof.
  intros Hl. pose proof (listed_facts _ _ _ _ Hwf _ _ _ _ Hl) as (_ & Hid & _). pose proof Hl as (_ & Hp & _ & [bt Hbt]).
  assert (b_Id bt = t) as Eidt by (by eapply (wf_keys _ _ Hwf)).
  destruct (InsertTo_listed md5hex s ids t Hwf Hids Ht0 p bp bt l r pos Hl Hbt) as (s2 & S2 & B2t & B2p & ->);
    [by destruct Hpos as [-> | ->]..|].
  destruct (Get_some s2 p bp) as (s3 & G3 & S3 & B3); [by rewrite (proj1 S2)|].
  pose proof (addChanges_same_view s3 t pos ids) as S4. set (s4 := addChangesForSideMoving s3 t pos ids) in *.
  assert (same_view s s4) as S by (eapply same_view_trans; [exact S2|by eapply same_view_trans]).
  exists bt, s4. split_and!; [done|done|by apply S4|].
  assert (insert_at md5hex s2 bt (Some bp) (Z.of_nat (length l)) pos ids = moveFromSide md5hex s3 bt (Some bp) pos ids) as ->.
  { unfold insert_at. rewrite Hid, G3. by destruct Hpos as [-> | ->]. }
  unfold moveFromSide. rewrite Eidt, Hid. fold s4 opId.
  replace (Exists s4 ("cd-" +:+ opId)) with false; [done|]. symmetry. unfold Exists. apply bool_decide_eq_false.
  destruct (Hfr cd ltac:(by left)) as (F & _). fold cd. rewrite Pick_view, (proj1 S), F. by intros [? ?].
Qed.

Lemma insert_side_row p bp l r :
  listed (view s) (st_rootId s) t p bp l r → is_row bp = true →
  ∃ s', InsertTo md5hex s t pos ids = Some (None, s') ∧ same_below s s' ∧
    view s' = <[p:=with_children bp (l ++ (if decide (pos = PRight) then [t; cd] else [cd; t]) ++ r)]>
                (<[cd:=layout_block cd ids LColumn]> (view s)).
Proof.
  intros Hl Hrow. destruct (side_start p bp l r Hl) as (bt & s4 & Hbt & S4 & B4 & ->). rewrite Hrow.
  pose proof (listed_facts _ _ _ _ Hwf _ _ _ _ Hl) as (_ & Hid & Htlr & _). destruct Hl as (_ & Hp & Hch & _).
  assert (b_Id bt = t) as -> by (by eapply (wf_keys _ _ Hwf)). destruct (Hfr cd ltac:(by left)) as (F1 & _).
  assert (p ≠ cd) as Hne by (intros ->; congruence). unfold addNewColumn. fold cd.
  rewrite Add_put by (cbn [layout_block b_Id]; by rewrite (proj1 S4)).
  rewrite Hch, FindPos_middle by (intros Hin; apply Htlr, elem_of_app; by left).
  destruct (Z.eqb_spec (Z.of_nat (length l)) (-1)); [lia|]. cbv zeta. cbn [layout_block b_Id].
  fold (layout_block cd ids LColumn).
  assert (Insert (l ++ t :: r) (if bool_decide (pos = PRight) then Z.of_nat (length l) + 1 else Z.of_nat (length l)) [cd] =
          Some (l ++ (if decide (pos = PRight) then [t; cd] else [cd; t]) ++ r)) as ->.
  { case_decide as Epos; [rewrite bool_decide_eq_true_2 by done|rewrite bool_decide_eq_false_2 by done].
    - pose proof (Insert_at (l ++ [t]) r [cd]) as E. rewrite length_app, <- !app_assoc in E. cbn [length] in E.
      replace (Z.of_nat (length l + 1)) with (Z.of_nat (length l) + 1) in E by lia. exact E.
    - apply (Insert_at l (t :: r) [cd]). }
  eexists. split; [reflexivity|]. rewrite Hid, (setChildrenIds_put _ p bp); [|rewrite put_lookup, decide_False by done; done|done].
  split; [eapply same_below_trans; [apply S4|]; by split|].
  rewrite view_ignore, !view_put. cbn [with_children layout_block b_Id b_Content]. by rewrite Hid, (proj1 S4).
Qed.

Lemma insert_side_wrap p bp l r :
  listed (view s) (st_rootId s) t p bp l r → is_row bp = false →
  ∃ s', InsertTo md5hex s t pos ids = Some (None, s') ∧ same_below s s' ∧
    view s' = <[ro:=layout_block ro (if decide (pos = PRight) then [ct; cd] else [cd; ct]) LRow]>
                (<[cd:=layout_block cd ids LColumn]> (<[ct:=layout_block ct [t] LColumn]>
                  (<[p:=with_children bp (l ++ ro :: r)]> (view s)))).
Proof.
  intros Hl Hrow. destruct (side_start p bp l r Hl) as (bt & s4 & Hbt & S4 & B4 & ->). rewrite Hrow.
  pose proof (listed_facts _ _ _ _ Hwf _ _ _ _ Hl) as (_ & Hid & Htlr & _). destruct Hl as (_ & Hp & Hch & _).
  assert (b_Id bt = t) as Eidt by (by eapply (wf_keys _ _ Hwf)).
  destruct (op_ids_distinct opId) as (D1 & D2 & D3). fold cd ct ro in D1, D2, D3.
  destruct (Hfr cd ltac:(by left)) as (C1 & _), (Hfr ct ltac:(by right; left)) as (T1 & _),
    (Hfr ro ltac:(by right; right; left)) as (R1 & _).
  assert (p ≠ cd ∧ p ≠ ct ∧ p ≠ ro) as (N1 & N2 & N3) by (split_and!; intros ->; congruence).
  set (s5 := ignore_ids s4 [p]).
  assert (view s5 = view s) as V5 by (apply S4). assert (st_blocks s5 !! p = Some bp) as B5 by done.
  assert (same_below s s5) as W5 by (apply S4). clearbody s5.
  unfold wrapToRow, addNewBlockAndWrapToColumn, addNewColumnToRow. cbn [layout_block b_Id]. fold ct ro. rewrite Eidt, Hid.
  fold (layout_block ct [t] LColumn) (layout_block ro [ct] LRow).
  rewrite Add_put by (cbn [layout_block b_Id]; by rewrite V5).
  rewrite Add_put by (rewrite view_put; cbn [layout_block b_Id]; rewrite lookup_insert_ne, V5 by done; done).
  rewrite Hch, FindPos_middle by (intros Hin; apply Htlr, elem_of_app; by left).
  destruct (Z.eqb_spec (Z.of_nat (length l)) (-1)); [lia|]. rewrite Nat2Z.id, hd_insert_middle.
  rewrite (setChildrenIds_put _ p bp) by (rewrite ?put_lookup; cbn [layout_block b_Id]; rewrite ?decide_False by done; done).
  set (s6 := put (put (put s5 _) _) _).
  assert (view s6 = <[p:=with_children bp (l ++ ro :: r)]> (<[ro:=layout_block ro [ct] LRow]>
            (<[ct:=layout_block ct [t] LColumn]> (view s)))) as V6.
  { subst s6. rewrite !view_put. cbn [with_children layout_block b_Id]. by rewrite Hid, V5. }
  assert (st_blocks s6 !! ct = Some (layout_block ct [t] LColumn) ∧ st_blocks s6 !! ro = Some (layout_block ro [ct] LRow))
    as [B6c B6r].
  { subst s6. rewrite !put_lookup. cbn [with_children layout_block b_Id]. rewrite Hid.
    split; repeat case_decide; congruence. }
  assert (same_below s s6) as W6 by (eapply same_below_trans; [exact W5|]; by split). clearbody s6.
  cbn [layout_block b_ChildrenIds hd]. change (b_Id (layout_block ct [t] LColumn)) with ct. unfold Get. rewrite B6c. unfold addNewColumn. fold cd.
  rewrite Add_put.
  2: { rewrite V6. cbn [layout_block b_Id]. by rewrite !lookup_insert_ne. }
  cbn [layout_block b_Id b_ChildrenIds]. fold (layout_block cd ids LColumn) (layout_block ro [ct] LRow).
  assert (FindPos [ct] ct = 0) as -> by (apply (FindPos_middle [] [] ct); by intros ?%elem_of_nil).
  change (0 =? -1) with false. cbv zeta.
  assert (Insert [ct] (if bool_decide (pos = PRight) then 0 + 1 else 0) [cd] =
          Some (if decide (pos = PRight) then [ct; cd] else [cd; ct])) as ->.
  { case_decide as Epos; [rewrite bool_decide_eq_true_2 by done|rewrite bool_decide_eq_false_2 by done]; done. }
  eexists. split; [reflexivity|].
  rewrite (setChildrenIds_put _ ro (layout_block ro [ct] LRow));
    [|rewrite put_lookup; cbn [layout_block b_Id]; rewrite decide_False by done; done|done].
  split; [eapply same_below_trans; [exact W6|]; by split|].
  rewrite view_ignore, !view_put, V6. cbn [with_children layout_block b_Id b_Content].
  fold (layout_block cd ids LColumn) (layout_block ct [t] LColumn).
  rewrite (insert_insert_ne _ p ro), (insert_insert_ne _ p ct), (insert_insert_ne _ cd ro), insert_insert_eq by done. done.
Qed.
End side_cases.

Lemma InsertTo_edit md5hex s ids t pos V' :
  let root := st_rootId s in
  let opId := makeOpId md5hex t pos ids in
  wf (view s) (root :: ids) → fresh_op (view s) root opId ids → ids ≠ [] → t ≠ "" →
  tree_edit (view s) root opId ids t pos V' →
  ∃ s', InsertTo md5hex s t pos ids = Some (None, s') ∧ view s' = V' ∧ wf (view s') [root] ∧ same_below s s'.
Proof.
  intros root opId Hwf Hfr Hids Ht0 Hed. pose proof (tree_edit_wf _ _ _ _ _ Hwf _ _ Hfr Hed) as Hwf'.
  enough (∃ s', InsertTo md5hex s t pos ids = Some (None, s') ∧ view s' = V' ∧ same_below s s') as (s' & E & EV & B).
  { exists s'. split_and!; [done|done|by rewrite EV|done]. }
  inversion Hed as [p bp l r Hl E1 E2|p bp l r Hl E1 E2|bt Hr Ht E1 E2|bt Hr Ht E1 E2
    |p bp l r bt i0 rest b0 Hl Ht Ei H0 Htx Hc E1 E2|p bp l r bt i0 rest b0 Hl Ht Ei H0 Hc E1 E2
    |p bp l r bt i0 rest b0 Hl Ht Ei H0 Htx Hc Hct E1 E2
    |pos' p bp l r Hl Hrow Hpos E1 E2|pos' p bp l r Hl Hrow Hpos E1 E2]; subst pos V'.
  - pose proof Hl as (_ & _ & Hch & [bt Hbt]).
    destruct (InsertTo_listed md5hex s ids t Hwf Hids Ht0 p bp bt l r PTop Hl Hbt) as (s2 & S2 & _ & B2 & ->); [done..|].
    destruct (insertChildren_at s ids s2 p bp l (t :: r) S2 B2 Hch) as (s3 & E3 & _ & V3 & W3).
    pose proof (listed_facts _ _ _ _ Hwf _ _ _ _ Hl) as (_ & Hid & _). cbn [insert_at]. rewrite Hid, E3. by exists s3.
  - pose proof Hl as (_ & _ & Hch & [bt Hbt]).
    destruct (InsertTo_listed md5hex s ids t Hwf Hids Ht0 p bp bt l r PBottom Hl Hbt) as (s2 & S2 & _ & B2 & ->); [done..|].
    destruct (insertChildren_at s ids s2 p bp (l ++ [t]) r S2 B2) as (s3 & E3 & _ & V3 & W3); [by rewrite Hch, <- app_assoc|].
    pose proof (listed_facts _ _ _ _ Hwf _ _ _ _ Hl) as (_ & Hid & _). cbn [insert_at]. rewrite Hid.
    rewrite length_app in E3. cbn [length] in E3.
    replace (Z.of_nat (length l + 1)) with (Z.of_nat (length l) + 1) in E3 by lia. rewrite E3.
    rewrite <- app_assoc in V3. by exists s3.
  - destruct (InsertTo_inner md5hex s ids t Hwf Hids Ht0 bt PInner Hr Ht) as (s1 & S1 & B1 & ->); [by left|].
    assert (b_Id bt = t) as Eid by (by eapply (wf_keys _ _ Hwf)). cbn [insert_at]. unfold prependChildrenIds.
    rewrite Eid, B1. eexists. split; [done|]. by apply set_view.
  - destruct (InsertTo_inner md5hex s ids t Hwf Hids Ht0 bt PInnerFirst Hr Ht) as (s1 & S1 & B1 & ->); [by right|].
    assert (b_Id bt = t) as Eid by (by eapply (wf_keys _ _ Hwf)). cbn [insert_at]. unfold appendChildrenIds.
    rewrite Eid, B1. eexists. split; [done|]. by apply set_view.
  - eapply (insert_replace_ok md5hex s ids t); eauto.
  - eapply (insert_replace_ok md5hex s ids t); eauto.
  - eapply (insert_replace_ok md5hex s ids t); eauto 7.
  - destruct (insert_side_row md5hex s ids t pos' Hwf Hids Ht0 Hpos Hfr p bp l r Hl Hrow) as (s' & E & B & EV).
    by exists s'.
  - destruct (insert_side_wrap md5hex s ids t pos' Hwf Hids Ht0 Hpos Hfr p bp l r Hl Hrow) as (s' & E & B & EV).
    by exists s'.
Qed.


(** ** The layers as one map *)

Lemma cleanup_layers_spec layers id :
  (cleanup_layers layers id).1 = bool_decide (is_Some (pick_layers layers id)) ∧
  length (cleanup_layers layers id).2 = length layers ∧
  (∀ i, i ≠ id → pick_layers (cleanup_layers layers id).2 i = pick_layers layers i).
Proof.
  induction layers as [|l layers IH]; cbn [cleanup_layers pick_layers].
  { split_and!; [|done|done]. by rewrite bool_decide_eq_false_2 by (by intros [? ?]). }
  destruct (l !! id) as [b|] eqn:El.
  - cbn [fst snd length pick_layers]. split_and!; [by rewrite bool_decide_eq_true_2 by eauto|done|].
    intros i Hi. by rewrite lookup_delete_ne.
  - destruct (cleanup_layers layers id) as [ok ls]. cbn [fst snd length pick_layers] in *.
    destruct IH as (-> & IH2 & IH3). split_and!; [done|by f_equal|]. intros i Hi. by rewrite IH3.
Qed.

(** The nearest layer that has the block loses it. *)
Lemma cleanup_layers_nearest pre l post id :
  Forall (λ m : Blocks, m !! id = None) pre → is_Some (l !! id) →
  cleanup_layers (pre ++ l :: post) id = (true, pre ++ delete id l :: post).
Proof.
  intros Hpre [b Hb]. induction Hpre as [|m pre Hm _ IH]; cbn [app cleanup_layers]; [by rewrite Hb|]. by rewrite Hm, IH.
Qed.
Lemma pick_layers_skip pre post id : Forall (λ m : Blocks, m !! id = None) pre → pick_layers (pre ++ post) id = pick_layers post id.
Proof. induction 1 as [|m pre Hm _ IH]; [done|]. cbn [app pick_layers]. by rewrite Hm. Qed.
Lemma cleanup_layers_absent layers id : pick_layers layers id = None → cleanup_layers layers id = (false, layers).
Proof.
  induction layers as [|l layers IH]; [done|]. cbn [cleanup_layers pick_layers]. destruct (l !! id); [done|]. intros H. by rewrite IH.
Qed.

Definition layers_of (s : State) : list Blocks := st_blocks s :: st_parents s.

(** C28. A state with its parents behaves as one map of blocks: a child state starts
    with the same map, reading copies a block up without changing the map, writing
    changes one key of the map, and none of these touches the states below.
    [CleanupBlock] removes a block from the nearest layer that has it, of the state or of
    a parent, so that the copy of the next layer shows, if there is one; the other
    layers and the other blocks stay as they are, and it says whether it found one. *)
Theorem layers_refine_map s b id :
  let V := view s in
  (∀ i, Pick s i = V !! i) ∧ view (NewState s) = V ∧ (∀ i, PickOrigin (NewState s) i = V !! i) ∧
  ((Get s id).1 = V !! id ∧ view (Get s id).2 = V ∧ same_below s (Get s id).2 ∧
   InState (Get s id).2 id = bool_decide (is_Some (V !! id))) ∧
  (view (Set_ s b) = <[b_Id b:=b]> V ∧ same_below s (Set_ s b)) ∧
  ((Add s b).1 = bool_decide (V !! b_Id b = None) ∧ same_below s (Add s b).2 ∧
   view (Add s b).2 = if decide (V !! b_Id b = None) then <[b_Id b:=b]> V else V) ∧
  (V !! id = None → CleanupBlock s id = (false, s)) ∧
  (∀ pre l post, layers_of s = pre ++ l :: post → Forall (λ m, m !! id = None) pre → is_Some (l !! id) →
     (CleanupBlock s id).1 = true ∧ layers_of (CleanupBlock s id).2 = pre ++ delete id l :: post ∧
     Pick (CleanupBlock s id).2 id = pick_layers post id ∧
     ∀ i, i ≠ id → view (CleanupBlock s id).2 !! i = V !! i).
Proof.
  intros V. split_and!.
  - intros i. apply Pick_view.
  - unfold view, NewState. simpl. rewrite (left_id_L ∅ (∪)). done.
  - intros i. apply pick_layers_view.
  - apply Get_spec.
  - apply Get_spec.
  - apply Get_spec.
  - unfold InState. destruct (Get_spec s id) as (_ & _ & _ & ->). done.
  - apply Set_spec.
  - apply Set_spec.
  - apply Add_spec.
  - apply Add_spec.
  - destruct (Add_spec s b) as (_ & _ & ->). subst V. by destruct (view s !! b_Id b).
  - unfold V. rewrite <- Pick_view. unfold Pick, CleanupBlock. intros ->%cleanup_layers_absent. by destruct s.
  - intros pre l post El Hpre Hl. destruct (cleanup_layers_spec (layers_of s) id) as (_ & _ & Hother).
    rewrite El, cleanup_layers_nearest in Hother by done. cbn [snd] in Hother. rewrite <- El in Hother.
    unfold CleanupBlock. fold (layers_of s). rewrite El, cleanup_layers_nearest by done.
    destruct (pre ++ delete id l :: post) as [|bs ps] eqn:E; [by destruct pre|]. cbn [fst snd]. split_and!; [done|done| |].
    + unfold Pick. cbn [st_blocks st_parents]. rewrite <- E, pick_layers_skip by done. cbn [pick_layers]. by rewrite lookup_delete_eq.
    + intros i Hi. unfold V. rewrite <- !Pick_view. by apply Hother.
Qed.

(** ** Deciding well-formedness, and the theorems on examples *)

Definition all_children (V : Blocks) : list string :=
  concat (map (λ kb, b_ChildrenIds kb.2) (map_to_list V)).

Definition wf_b (V : Blocks) (roots : list string) : bool :=
  bool_decide (NoDup (roots ++ all_children V)) && forallb (λ kb, bool_decide (b_Id kb.2 = kb.1)) (map_to_list V).

Lemma concat_owner (L : list (string * Block)) p1 b1 p2 b2 c :
  NoDup (concat (map (λ kb, b_ChildrenIds kb.2) L)) → (p1, b1) ∈ L → (p2, b2) ∈ L →
  c ∈ b_ChildrenIds b1 → c ∈ b_ChildrenIds b2 → (p1, b1) = (p2, b2).
Proof.
  assert (∀ L' p b, (p, b) ∈ L' → c ∈ b_ChildrenIds b → c ∈ concat (map (λ kb : string * Block, b_ChildrenIds kb.2) L')) as Hin.
  { intros L' p b HL Hc. apply list_elem_of_In, in_concat. exists (b_ChildrenIds b).
    split; [|by apply list_elem_of_In]. apply in_map_iff. exists (p, b). split; [done|by apply list_elem_of_In]. }
  induction L as [|[p b] L IH]; intros Hnd H1 H2 Hc1 Hc2; [by apply elem_of_nil in H1|].
  simpl in Hnd. apply NoDup_app in Hnd as (Hn1 & Hdis & Hn2).
  apply elem_of_cons in H1 as [H1|H1], H2 as [H2|H2]; simplify_eq; [done| | |by apply IH].
  - destruct (Hdis c Hc1). by eapply Hin.
  - destruct (Hdis c Hc2). by eapply Hin.
Qed.

Lemma wf_b_spec V roots : wf_b V roots = true → wf V roots.
Proof.
  unfold wf_b. intros [Hnd%bool_decide_eq_true Hk]%andb_true_iff. apply NoDup_app in Hnd as (Hr & Hdis & Hc).
  rewrite forallb_forall in Hk.
  assert (∀ p b c, V !! p = Some b → c ∈ b_ChildrenIds b → c ∈ all_children V) as Hall.
  { intros p b c Hb Hin. unfold all_children. apply list_elem_of_In, in_concat. exists (b_ChildrenIds b).
    split; [|by apply list_elem_of_In]. apply in_map_iff. exists (p, b). split; [done|].
    by apply list_elem_of_In, elem_of_map_to_list. }
  split; [|done|..].
  - intros id b Hb. specialize (Hk (id, b)). apply elem_of_map_to_list, list_elem_of_In in Hb. simpl in Hk.
    by apply Hk, bool_decide_eq_true in Hb.
  - intros p1 b1 p2 b2 c _ _ H1 H2 Hc1 Hc2. apply elem_of_map_to_list in H1, H2.
    by assert ((p1, b1) = (p2, b2)) by (by eapply concat_owner); simplify_eq.
  - intros p b _ Hb. apply elem_of_map_to_list in Hb. unfold all_children in Hc. clear Hall Hdis Hk.
    induction (map_to_list V) as [|kb L IH]; [by apply elem_of_nil in Hb|]. simpl in Hc.
    apply NoDup_app in Hc as (Hn1 & _ & Hn2). apply elem_of_cons in Hb as [<-|Hb]; [done|by apply IH].
  - intros p b r _ Hb Hin Hrc. apply (Hdis r Hin). by eapply Hall.
Qed.

Definition fresh_b (V : Blocks) (root opId : string) (ids : list string) : bool :=
  forallb (λ x, bool_decide (V !! x = None) && bool_decide (x ∉ root :: ids) && bool_decide (x ∉ all_children V))
    ["cd-" +:+ opId; "ct-" +:+ opId; "r-" +:+ opId].

Lemma fresh_b_spec V root opId ids : fresh_b V root opId ids = true → fresh_op V root opId ids.
Proof.
  unfold fresh_b. rewrite forallb_forall. intros H x Hx. apply list_elem_of_In, H in Hx.
  apply andb_true_iff in Hx as [[H1%bool_decide_eq_true H2%bool_decide_eq_true]%andb_true_iff H3%bool_decide_eq_true].
  split_and!; [done|done|]. intros p b Hb Hin. apply H3. unfold all_children. apply list_elem_of_In, in_concat.
  exists (b_ChildrenIds b). split; [|by apply list_elem_of_In]. apply in_map_iff. exists (p, b). split; [done|].
  by apply list_elem_of_In, elem_of_map_to_list.
Qed.

Module TreeInst.
Definition text (id : string) (children : list string) : Block :=
  {| b_Id := id; b_ChildrenIds := children; b_Content := CText ""; b_Fields := ∅; b_BackgroundColor := "" |}.
Definition root_block : Block := 
  {| b_Id := "root"; b_ChildrenIds := ["a"; "b"]; b_Content := CSmartblock; b_Fields := ∅; b_BackgroundColor := "" |}.

(** A document, and a child state in which two blocks were added. *)
Definition doc : State :=
  NewDoc "root" (list_to_map [("root", root_block); ("a", text "a" ["c"]); ("b", text "b" []); ("c", text "c" [])]).
Definition child : State := (Add (Add (NewState doc) (text "x" [])).2 (text "y" [])).2.

Lemma parents_correct_witness :
  PickParentOf doc "c" = Some (text "a" ["c"]) ∧
  ∃ r, IsChild doc "root" "c" = Some r ∧ HasParent doc "c" "root" = Some r ∧
    (r = true ↔ "root" ≠ "c" ∧ reach (view doc) "root" "root" ∧ reach (view doc) "root" "c" ∧ reach (view doc) "root" "c").
Proof.
  split; [vm_compute; reflexivity|].
  apply (parents_correct doc (wf_b_spec _ _ (eq_refl true <: wf_b (view doc) ["root"] = true)) "root" "c").
Defined.

Lemma Unlink_correct_witness :
  ∃ s', Unlink child "a" = (true, s') ∧
    view s' = <["root":=with_children root_block ([] ++ ["b"])]> (view child) ∧
    wf (view s') ["a"; "root"] ∧ same_below child s'.
Proof.
  apply (proj1 (Unlink_correct child (wf_b_spec _ _ (eq_refl true <: wf_b (view child) ["root"] = true)) "a"));
    [constructor|vm_compute; reflexivity|reflexivity].
Defined.

End TreeInst.
