(* ===== verification/StateChecks.v ===== *)
(** * Checks and queries on the block tree ([core/block/editor/state/state.go])

    [Validate], which accepts a state whose blocks form a tree, [Len], and
    [SelectRoots], which reduces a selection of blocks to the topmost ones. *)

From S2P Require Import Prelude Slice StateTree.

Local Open Scope Z_scope.

(** ** Validation *)

(** The callback of [Validate]: the parents seen so far and [err2]. *)
Abbreviation validate_acc := (gmap string string * option string)%type.

Fixpoint validate_children (s : State) (id : string) (cids : list string) (acc : validate_acc) : validate_acc * bool :=
  match cids with
  | [] => (acc, true)
  | cid :: cids =>
      match acc.1 !! cid with
      | Some _ => ((acc.1, Some "two children with same id"), false)
      | None =>
          let acc := (<[cid:=id]> acc.1, acc.2) in
          if Exists s cid then validate_children s id cids acc else ((acc.1, Some "missed block"), false)
      end
  end.

Definition Validate (s : State) : option (option string) :=
  match Iterate s (λ acc b, validate_children s (b_Id b) (b_ChildrenIds b) acc) (∅, None) with
  | None => None
  | Some (_, _, Some err) => Some (Some err)
  | Some (acc, _, None) => Some acc.2
  end.

Definition Len (s : State) : option Z :=
  match Iterate s (λ l _, (l + 1, true)) 0 with None => None | Some (l, _, _) => Some l end.

(** ** Selections *)

(** The inner loop for the listed block [ai]: which others it discards. *)
Fixpoint discard_children (s : State) (ai : string) (i j : nat) (ids : list string) (discarded : list bool)
    : option (list bool) :=
  match ids, discarded with
  | aj :: ids, d :: discarded =>
      let next (d' : bool) := match discard_children s ai i (S j) ids discarded with
                              | None => None
                              | Some ds => Some (d' :: ds)
                              end in
      if (i =? j)%nat then next d
      else if d then next d
      else match IsChild s ai aj with
           | None => None
           | Some c => next c
           end
  | _, _ => Some []
  end.

(** The outer loop; [todo] are the ids from position [i] on. *)
Fixpoint select_loop (s : State) (ids : list string) (todo : list string) (i : nat) (discarded : list bool)
    : option (list bool) :=
  match todo with
  | [] => Some discarded
  | ai :: todo =>
      if default false (discarded !! i) then select_loop s ids todo (S i) discarded
      else
        let discarded := if Exists s ai then discarded else <[i:=true]> discarded in
        match discard_children s ai i 0 ids discarded with
        | None => None
        | Some discarded => select_loop s ids todo (S i) discarded
        end
  end.

(** The code also counts the capacity of the result ([resCount]); every decrement
    goes with a flag that turns true, so it stays the number of kept positions. *)
Definition SelectRoots (s : State) (ids : list string) : option (list string) :=
  match select_loop s ids ids 0 (replicate (length ids) false) with
  | None => None
  | Some discarded => Some (map fst (filter (λ p, p.2 = false) (zip ids discarded)))
  end.

(** ** Validation accepts the trees *)

Lemma chain_starts V root path id : chain V root path id → path = [] ∨ root ∈ path.
Proof.
  induction 1 as [|path p b c Hc IH Hb Hin]; [by left|]. right. apply elem_of_app.
  destruct IH as [->|IH]; [|by left]. right. inversion Hc as [|path' p' b' c' Hc' Hb' Hin' E]; [by left|].
  by destruct path'.
Qed.

Lemma chain_prefix V root path id x :
  chain V root path id → x ∈ path → ∃ p1 p2, path = p1 ++ x :: p2 ∧ chain V root p1 x.
Proof.
  induction 1 as [|path p b c Hc IH Hb Hin]; [by intros ?%elem_of_nil|].
  intros [Hx| ->%list_elem_of_singleton]%elem_of_app; [|by exists path, []].
  destruct (IH Hx) as (p1 & p2 & -> & Hc1). exists p1, (p2 ++ [p]). by rewrite <- app_assoc.
Qed.

(** A walk without a cycle walks every path. *)
Lemma walk_false_chain V root fuel l path id :
  walk (λ i, V !! i) fuel [] root = Some (l, false) → chain V root path id → id ∉ path.
Proof.
  intros E Hc.
  enough (∃ fuel' l', walk (λ i, V !! i) fuel' path id = Some (l', false)) as (fuel' & l' & E').
  { destruct fuel' as [|fuel']; [done|]. cbn [walk] in E'. by case_bool_decide. }
  induction Hc as [|path p b c Hc IH Hb Hin]; [by exists fuel, l|]. destruct IH as (fuel' & l' & E').
  destruct fuel' as [|fuel']; [done|]. cbn [walk] in E'. case_bool_decide; [done|]. rewrite Hb in E'.
  destruct (walk_children _ _) as [[lc cc]|] eqn:Ew; [|done]. simplify_eq.
  destruct (walk_children_complete _ _ _ Ew c Hin) as (lc' & Ec & _). by exists fuel', lc'.
Qed.

Definition children_of (l : list Block) : list string := concat (map b_ChildrenIds l).

Lemma elem_of_children_of l c : c ∈ children_of l ↔ ∃ b, b ∈ l ∧ c ∈ b_ChildrenIds b.
Proof.
  unfold children_of. rewrite list_elem_of_In, in_concat. split.
  - intros (cs & (b & <- & Hb)%in_map_iff & Hc). exists b. by rewrite !list_elem_of_In.
  - intros (b & Hb & Hc). exists (b_ChildrenIds b). rewrite !list_elem_of_In in *. split; [by apply in_map|done].
Qed.

(** One block passes iff its children are new, different and exist. *)
Lemma validate_children_spec s id cids m :
  if (validate_children s id cids (m, None)).2
  then (validate_children s id cids (m, None)).1.2 = None ∧ NoDup cids ∧
       (∀ c, c ∈ cids → m !! c = None ∧ Exists s c = true) ∧
       (∀ c, (validate_children s id cids (m, None)).1.1 !! c = None ↔ m !! c = None ∧ c ∉ cids)
  else is_Some (validate_children s id cids (m, None)).1.2 ∧
       ¬ (NoDup cids ∧ ∀ c, c ∈ cids → m !! c = None ∧ Exists s c = true).
Proof.
  revert m. induction cids as [|cid cids IH]; intros m; cbn [validate_children fst snd].
  { split_and!; [done|constructor|by intros c ?%elem_of_nil|]. intros c. split; [|tauto].
    intros ?. split; [done|by intros ?%elem_of_nil]. }
  destruct (m !! cid) as [p|] eqn:Em; cbn [fst snd].
  { split; [done|]. intros [_ H]. destruct (H cid ltac:(by left)). congruence. }
  destruct (Exists s cid) eqn:Ex; cbn [fst snd].
  2: { split; [done|]. intros [_ H]. destruct (H cid ltac:(by left)). congruence. }
  specialize (IH (<[cid:=id]> m)). destruct (validate_children s id cids (<[cid:=id]> m, None)) as [acc []]; cbn [fst snd] in *.
  - destruct IH as (E & Hnd & Hc & Hm). split_and!; [done| | |].
    + constructor; [|done]. intros Hin. destruct (Hc cid Hin) as [Hn _]. by rewrite lookup_insert_eq in Hn.
    + intros c [->|Hin]%elem_of_cons; [done|]. destruct (Hc c Hin) as [Hn Hx]. split; [|done].
      rewrite lookup_insert_ne in Hn; [done|]. intros ->. by rewrite lookup_insert_eq in Hn.
    + intros c. rewrite Hm, not_elem_of_cons. destruct (decide (c = cid)) as [->|Hne].
      * rewrite lookup_insert_eq. naive_solver.
      * rewrite lookup_insert_ne by done. tauto.
  - destruct IH as [E Hno]. split; [done|]. intros [Hnd Hc]. apply Hno. apply NoDup_cons in Hnd as [Hni Hnd].
    split; [done|]. intros c Hin. destruct (Hc c ltac:(by right)). split; [|done].
    rewrite lookup_insert_ne; [done|]. by intros ->.
Qed.

Lemma validate_fold s l m :
  let r := fold_stop (λ acc b, validate_children s (b_Id b) (b_ChildrenIds b) acc) (m, None) l in
  (r.1.2 = None ↔ r.2 = true) ∧
  (r.2 = true ↔ NoDup (children_of l) ∧ ∀ c, c ∈ children_of l → m !! c = None ∧ Exists s c = true).
Proof.
  revert m. induction l as [|b l IH]; intros m; cbn [fold_stop].
  { cbn. split; [done|]. split; [|done]. intros _. split; [constructor|by intros c ?%elem_of_nil]. }
  pose proof (validate_children_spec s (b_Id b) (b_ChildrenIds b) m) as Hb.
  destruct (validate_children s (b_Id b) (b_ChildrenIds b) (m, None)) as [[m' e] []]; cbn [fst snd] in *.
  - destruct Hb as (-> & Hnd & Hc & Hm). destruct (IH m') as [IH1 IH2]. split; [done|]. rewrite IH2.
    change (children_of (b :: l)) with (b_ChildrenIds b ++ children_of l). rewrite NoDup_app.
    setoid_rewrite elem_of_app. split.
    + intros (Hnd' & Hall). split_and!; [done| |done|].
      * intros c Hc1 Hc2. destruct (Hall c Hc2) as [Hn%Hm _]. tauto.
      * intros c [Hin|Hin]; [by apply Hc|]. destruct (Hall c Hin) as [Hn%Hm ?]. tauto.
    + intros ((_ & Hdis & Hnd') & Hall). split; [done|]. intros c Hin. destruct (Hall c ltac:(by right)). split; [|done].
      apply Hm. split; [done|]. intros Hin'. by apply (Hdis c).
  - destruct Hb as [[e' ->] Hno]. split; [done|]. split; [done|]. intros [Hnd Hall]. exfalso. apply Hno.
    change (children_of (b :: l)) with (b_ChildrenIds b ++ children_of l) in Hnd, Hall.
    apply NoDup_app in Hnd as (Hnd & _ & _). split; [done|]. intros c Hin. apply Hall, elem_of_app. by left.
Qed.

Lemma children_of_owner l b1 b2 c :
  NoDup (children_of l) → b1 ∈ l → b2 ∈ l → c ∈ b_ChildrenIds b1 → c ∈ b_ChildrenIds b2 → b1 = b2.
Proof.
  induction l as [|b l IH]; intros Hnd H1 H2 Hc1 Hc2; [by apply elem_of_nil in H1|].
  change (children_of (b :: l)) with (b_ChildrenIds b ++ children_of l) in Hnd. apply NoDup_app in Hnd as (_ & Hdis & Hnd).
  apply elem_of_cons in H1 as [->|H1], H2 as [->|H2]; [done| | |by apply IH].
  - destruct (Hdis c Hc1). apply elem_of_children_of. by exists b2.
  - destruct (Hdis c Hc2). apply elem_of_children_of. by exists b1.
Qed.

Lemma children_of_NoDup l :
  NoDup l → (∀ b, b ∈ l → NoDup (b_ChildrenIds b)) →
  (∀ b1 b2 c, b1 ∈ l → b2 ∈ l → c ∈ b_ChildrenIds b1 → c ∈ b_ChildrenIds b2 → b1 = b2) → NoDup (children_of l).
Proof.
  induction 1 as [|b l Hb Hnd IH]; intros H1 H2; [constructor|].
  change (children_of (b :: l)) with (b_ChildrenIds b ++ children_of l). apply NoDup_app. split_and!.
  - apply H1. by left.
  - intros c Hc (b' & Hb' & Hc')%elem_of_children_of. assert (b = b') as -> by (eapply H2; [by left|by right|done|done]). done.
  - apply IH; [intros b' Hb'; apply H1; by right|]. intros b1 b2 c ? ?. apply H2; by right.
Qed.

Lemma children_of_each l b : NoDup (children_of l) → b ∈ l → NoDup (b_ChildrenIds b).
Proof.
  induction l as [|b' l IH]; intros Hnd Hb; [by apply elem_of_nil in Hb|].
  change (children_of (b' :: l)) with (b_ChildrenIds b' ++ children_of l) in Hnd. apply NoDup_app in Hnd as (H1 & _ & H2).
  apply elem_of_cons in Hb as [->|Hb]; [done|by apply IH].
Qed.

Lemma reachable_single V root x : reachable V [root] x ↔ reach V root x.
Proof.
  split; [intros (r & ->%list_elem_of_singleton & H); done|]. intros H. exists root. split; [by left|done].
Qed.

(** C29. [Validate] terminates and accepts a state exactly when its blocks form a
    tree from the root: no block is listed twice, none is its own ancestor, and
    every listed block exists. *)
Theorem Validate_correct s :
  (∀ id b, view s !! id = Some b → b_Id b = id) →
  ∃ r, Validate s = Some r ∧
    (r = None ↔ wf (view s) [st_rootId s] ∧
       ∀ p b c, reach (view s) (st_rootId s) p → view s !! p = Some b → c ∈ b_ChildrenIds b → is_Some (view s !! c)).
Proof.
  intros Hkeys. destruct (Iterate_walk s) as (l & cyc & E & HI). unfold Validate. rewrite HI.
  pose proof (validate_fold s l ∅) as Hv.
  set (r := fold_stop _ (∅, None) l) in *. destruct r as [acc go]. cbn [fst snd] in Hv. destruct Hv as [Hv1 Hv2].
  assert (∀ c, Exists s c = true ↔ is_Some (view s !! c)) as Hex.
  { intros c. unfold Exists. by rewrite bool_decide_eq_true, Pick_view. }
  assert (wf (view s) [st_rootId s] → cyc = false ∧ NoDup l) as Hw.
  { intros Hwf. assert (st_rootId s ∈ [st_rootId s]) by (by left).
    split; [by eapply walk_acyclic|]. eapply walk_NoDup; try done. constructor. }
  exists (if go && cyc then Some err_cycle else acc.2). split; [by destruct go, cyc|].
  transitivity (go = true ∧ cyc = false).
  { rewrite <- Hv1. destruct go, cyc; cbn [andb]; [|tauto|split; [|tauto]..].
    - split; [done|by intros [_ ?]].
    - intros Hn. by apply Hv1 in Hn.
    - intros Hn. by apply Hv1 in Hn. }
  split.
  - intros [-> ->]. destruct (proj1 Hv2 eq_refl) as [Hnd Hall].
    assert (∀ p b, reach (view s) (st_rootId s) p → view s !! p = Some b → b ∈ l) as Hin.
    { intros p b Hr Hb. by eapply walk_complete. }
    split; [split|].
    + done.
    + apply NoDup_singleton.
    + intros p1 b1 p2 b2 c H1%reachable_single H2%reachable_single Hb1 Hb2 Hc1 Hc2.
      rewrite <- (Hkeys p1 b1 Hb1), <- (Hkeys p2 b2 Hb2). f_equal. eapply (children_of_owner l); eauto.
    + intros p b Hr%reachable_single Hb. eapply children_of_each; eauto.
    + intros p b r' Hr%reachable_single Hb ->%list_elem_of_singleton Hc.
      destruct (reach_chain _ _ _ Hr) as [path Hch].
      assert (chain (view s) (st_rootId s) (path ++ [p]) (st_rootId s)) as Hch' by (by eapply chain_child).
      apply (walk_false_chain _ _ _ _ _ _ E Hch').
      destruct (chain_starts _ _ _ _ Hch') as [Hnil|?]; [by destruct path|done].
    + intros p b c Hr Hb Hc. apply Hex, Hall, elem_of_children_of. exists b. split; [by eapply Hin|done].
  - intros [Hwf Hexist]. destruct (Hw Hwf) as [-> Hndl]. split; [|done]. apply Hv2.
    assert (∀ b, b ∈ l → reach (view s) (st_rootId s) (b_Id b) ∧ view s !! b_Id b = Some b) as Hin.
    { intros b Hb. destruct (walk_sound _ _ _ _ _ _ _ E Hb) as (p & Hp & Hr). by rewrite (Hkeys p b Hp). }
    split.
    + apply children_of_NoDup; [done| |].
      * intros b [Hr Hb]%Hin. apply (wf_nodup _ _ Hwf (b_Id b)); [by apply reachable_single|done].
      * intros b1 b2 c [Hr1 Hb1]%Hin [Hr2 Hb2]%Hin Hc1 Hc2.
        assert (b_Id b1 = b_Id b2) as Eid by (eapply (wf_uniq _ _ Hwf _ b1 _ b2 c); try done; by apply reachable_single).
        rewrite Eid in Hb1. congruence.
    + intros c (b & [Hr Hb]%Hin & Hc)%elem_of_children_of. split; [apply lookup_empty|]. apply Hex. by eapply Hexist.
Qed.

(** ** Selections keep the topmost blocks *)

Section select.
Context (s : State) (Hwf : wf (view s) [st_rootId s]).

(** [IsChild] as a relation: it is decided, transitive and irreflexive. *)
Definition is_child (a c : string) : bool := default false (IsChild s a c).

Lemma is_child_spec a c :
  IsChild s a c = Some (is_child a c) ∧
  (is_child a c = true ↔ a ≠ c ∧ reach (view s) (st_rootId s) a ∧ reach (view s) (st_rootId s) c ∧ reach (view s) a c).
Proof. destruct (IsChild_spec s Hwf a c) as (r & E & Hr). unfold is_child. rewrite E. done. Qed.

Lemma is_child_irrefl a : is_child a a = false.
Proof. apply not_true_iff_false. intros H%is_child_spec. by destruct H. Qed.

Lemma is_child_trans a b c : is_child a b = true → is_child b c = true → is_child a c = true.
Proof.
  intros (N1 & R1 & R2 & R3)%is_child_spec (N2 & _ & R4 & R5)%is_child_spec. apply is_child_spec.
  split_and!; [|done|done|by eapply reach_trans]. intros ->.
  destruct (reach_chain _ _ _ R2) as [path Hc]. assert (st_rootId s ∈ [st_rootId s]) as Hroot by (by left).
  pose proof (reach_on_path _ _ Hwf _ Hroot _ _ c Hc ltac:(by apply reachable_single) R3) as Hin.
  apply elem_of_app in Hin as [Hin| ->%list_elem_of_singleton]; [|done].
  destruct (chain_prefix _ _ _ _ _ Hc Hin) as (p1 & p2 & -> & Hc1).
  pose proof (reach_on_path _ _ Hwf _ Hroot _ _ b Hc1 ltac:(by apply reachable_single) R5) as Hb.
  destruct (chain_fresh _ _ Hwf _ Hroot _ _ Hc) as [Hf _]. apply Hf.
  rewrite elem_of_app, elem_of_cons. apply elem_of_app in Hb as [?| ->%list_elem_of_singleton]; tauto.
Qed.

Lemma is_child_exists a c : is_child a c = true → Exists s a = true.
Proof.
  intros (Hne & _ & _ & Hr)%is_child_spec. unfold Exists. rewrite bool_decide_eq_true, Pick_view.
  apply reach_inv_first in Hr as [->|(b & x & Hb & _)]; [done|by eexists].
Qed.

(** What the inner loop does to one flag. *)
Lemma discard_children_spec ai i j ids ds :
  length ds = length ids →
  ∃ ds', discard_children s ai i j ids ds = Some ds' ∧ length ds' = length ids ∧
    ∀ k a d, ids !! k = Some a → ds !! k = Some d →
      ds' !! k = Some (if (i =? j + k)%nat then d else d || is_child ai a).
Proof.
  revert j ds. induction ids as [|aj ids IH]; intros j [|d ds] Hlen; try done.
  { exists []. split_and!; [done|done|]. intros k a d. by rewrite lookup_nil. }
  cbn [discard_children]. destruct (IH (S j) ds) as (ds' & E & Hl & Hk); [by injection Hlen|]. rewrite E.
  assert (∀ d', (∀ a0, aj = a0 → d' = (if (i =? j)%nat then d else d || is_child ai a0)) →
    length (d' :: ds') = length (aj :: ids) ∧
    ∀ k a d0, (aj :: ids) !! k = Some a → (d :: ds) !! k = Some d0 →
      (d' :: ds') !! k = Some (if (i =? j + k)%nat then d0 else d0 || is_child ai a)) as Hd.
  { intros d' Hd'. split; [simpl; congruence|]. intros [|k] a d0 Ha Hd0; simpl in *.
    - simplify_eq. rewrite Nat.add_0_r. f_equal. by apply Hd'.
    - rewrite (Hk k a d0 Ha Hd0). by replace (j + S k)%nat with (S j + k)%nat by lia. }
  destruct (is_child_spec ai aj) as [-> _].
  destruct (Nat.eqb_spec i j); [|destruct d]; eexists; (split; [reflexivity|]); apply Hd; intros a0 <-; done.
Qed.

Context (ids : list string).

(** The flag of position [j] when the positions below [i] are processed. *)
Definition flag (i j : nat) (a : string) : bool :=
  ((j <? i)%nat && negb (Exists s a)) || existsb (λ a', is_child a' a) (take i ids).

Definition flags_ok (i : nat) (ds : list bool) : Prop :=
  length ds = length ids ∧ ∀ j a, ids !! j = Some a → ds !! j = Some (flag i j a).

Lemma flag_S i ai j a :
  ids !! i = Some ai →
  flag (S i) j a = flag i j a || ((j =? i)%nat && negb (Exists s a)) || is_child ai a.
Proof.
  intros Hi. unfold flag. rewrite (take_S_r _ _ _ Hi), existsb_app. cbn [existsb]. rewrite orb_false_r.
  destruct (Nat.ltb_spec j (S i)), (Nat.ltb_spec j i), (Nat.eqb_spec j i); try lia; cbn [andb orb];
    destruct (Exists s a), (existsb _ _), (is_child ai a); done.
Qed.

Lemma select_step i ai ds :
  ids !! i = Some ai → flags_ok i ds →
  ∃ ds', (if default false (ds !! i) then Some ds
          else discard_children s ai i 0 ids (if Exists s ai then ds else <[i:=true]> ds)) = Some ds' ∧
    flags_ok (S i) ds'.
Proof.
  intros Hi [Hlen Hds]. rewrite (Hds i ai Hi). cbn [default id]. destruct (flag i i ai) eqn:Ef.
  - exists ds. split; [done|]. split; [done|]. intros j a Ha. rewrite (Hds j a Ha), (flag_S i ai j a Hi). f_equal.
    assert (∃ a', a' ∈ take i ids ∧ is_child a' ai = true) as (a' & Hin & Ha').
    { unfold flag in Ef. rewrite Nat.ltb_irrefl in Ef. cbn [andb orb] in Ef. apply existsb_exists in Ef as (a' & Hin & ?).
      exists a'. by rewrite list_elem_of_In. }
    destruct (is_child ai a) eqn:Ec.
    + rewrite orb_true_r. unfold flag. apply orb_true_iff. right. apply existsb_exists. exists a'.
      split; [by apply list_elem_of_In|by eapply is_child_trans].
    + rewrite orb_false_r. destruct (Nat.eqb_spec j i) as [->|]; cbn [andb]; [|by rewrite orb_false_r].
      rewrite Hi in Ha. simplify_eq. by rewrite Ef.
  - destruct (discard_children_spec ai i 0 ids (if Exists s ai then ds else <[i:=true]> ds)) as (ds' & -> & Hl & Hk).
    { destruct (Exists s ai); [done|]. by rewrite length_insert. }
    exists ds'. split; [done|]. split; [done|]. intros j a Ha.
    assert (i < length ds)%nat as Hilt by (rewrite Hlen; by eapply lookup_lt_Some).
    rewrite (Hk j a (flag i j a || ((j =? i)%nat && negb (Exists s a))) Ha).
    + rewrite (flag_S i ai j a Hi), Nat.add_0_l, (Nat.eqb_sym i j). destruct (Nat.eqb_spec j i) as [->|]; [|done].
      rewrite Hi in Ha. simplify_eq. by rewrite is_child_irrefl, orb_false_r.
    + destruct (Nat.eqb_spec j i) as [->|Hne]; cbn [andb].
      * rewrite Hi in Ha. simplify_eq. rewrite Ef. destruct (Exists s a); cbn [negb orb].
        { by rewrite (Hds i a Hi), Ef. }
        { by rewrite list_lookup_insert_eq. }
      * rewrite orb_false_r. destruct (Exists s ai); [by apply Hds|].
        rewrite list_lookup_insert_ne by done. by apply Hds.
Qed.

Lemma select_loop_spec todo i ds :
  drop i ids = todo → flags_ok i ds → ∃ ds', select_loop s ids todo i ds = Some ds' ∧ flags_ok (length ids) ds'.
Proof.
  revert i ds. induction todo as [|ai todo IH]; intros i ds Hd Hf; cbn [select_loop].
  - exists ds. split; [done|]. destruct Hf as [Hl Hf]. split; [done|]. intros j a Ha. rewrite (Hf j a Ha). f_equal.
    assert (length ids ≤ i)%nat as Hge by (apply (f_equal length) in Hd; rewrite length_drop in Hd; simpl in Hd; lia). unfold flag.
    rewrite !take_ge by lia. pose proof (lookup_lt_Some _ _ _ Ha).
    destruct (Nat.ltb_spec j i), (Nat.ltb_spec j (length ids)); try lia; done.
  - assert (ids !! i = Some ai) as Hi by (rewrite <- (Nat.add_0_r i), <- lookup_drop, Hd; done).
    assert (drop (S i) ids = todo) as Hd' by (rewrite (drop_S _ _ _ Hi) in Hd; congruence).
    destruct (select_step i ai ds Hi Hf) as (ds' & E & Hf').
    destruct (default false (ds !! i)); [injection E as <-; by apply IH|]. cbv zeta. rewrite E. by apply IH.
Qed.
End select.

Lemma zip_filter (l : list string) (ds : list bool) (g : string → bool) :
  length ds = length l → (∀ j a, l !! j = Some a → ds !! j = Some (g a)) →
  map fst (filter (λ p, p.2 = false) (zip l ds)) = List.filter (λ a, negb (g a)) l.
Proof.
  revert ds. induction l as [|a l IH]; intros [|d ds] Hl Hd; try done. specialize (Hd 0%nat a eq_refl) as H0. simpl in H0.
  injection H0 as ->. cbn [zip zip_with List.filter]. rewrite filter_cons. cbn [snd].
  assert (map fst (filter (λ p, p.2 = false) (zip l ds)) = List.filter (λ a, negb (g a)) l) as IH'.
  { apply IH; [by injection Hl|]. intros j x Hx. by apply (Hd (S j) x). }
  destruct (g a); case_decide; try done. cbn [map fst negb]. by f_equal.
Qed.

(** [SelectRoots] terminates and returns, in the order of the request, exactly
    the listed blocks that exist and have no proper ancestor in the list.  An id
    that is listed twice is returned twice. *)
Theorem SelectRoots_correct s (Hwf : wf (view s) [st_rootId s]) ids :
  let V := view s in let root := st_rootId s in
  ∃ keep : string → bool, SelectRoots s ids = Some (List.filter keep ids) ∧
    ∀ id, keep id = true ↔
      is_Some (V !! id) ∧ ¬ ∃ a, a ∈ ids ∧ a ≠ id ∧ reach V root a ∧ reach V root id ∧ reach V a id.
Proof.
  intros V root. set (g := λ a, negb (Exists s a) || existsb (λ a', is_child s a' a) ids).
  exists (λ a, negb (g a)).
  destruct (select_loop_spec s Hwf ids ids 0 (replicate (length ids) false)) as (ds & E & Hl & Hds); [done| |].
  { split; [apply length_replicate|]. intros j a Ha. unfold flag. simpl.
    apply lookup_replicate_2. by eapply lookup_lt_Some. }
  split.
  - unfold SelectRoots. rewrite E. f_equal. apply zip_filter; [done|]. intros j a Ha. rewrite (Hds j a Ha). f_equal.
    unfold flag. rewrite take_ge by done. pose proof (lookup_lt_Some _ _ _ Ha).
    by destruct (Nat.ltb_spec j (length ids)); [|lia].
  - intros id. subst g. cbv beta. rewrite negb_true_iff, orb_false_iff, negb_false_iff. unfold Exists at 1.
    rewrite bool_decide_eq_true, Pick_view, <- not_true_iff_false, existsb_exists.
    assert ((∃ x, In x ids ∧ is_child s x id = true) ↔
      ∃ a, a ∈ ids ∧ a ≠ id ∧ reach V root a ∧ reach V root id ∧ reach V a id) as ->; [|done].
    split; intros (a & Hin & Ha); exists a; (split; [by apply list_elem_of_In|]); by apply (is_child_spec s Hwf).
Qed.

(** ** The theorems on examples *)

Module ChecksInst.
Import TreeInst.

Lemma Validate_correct_witness :
  Validate doc = Some None ∧
  Validate (NewDoc "root" (list_to_map [("root", root_block); ("a", text "a" ["b"]); ("b", text "b" [])])) =
    Some (Some "two children with same id") ∧
  ∃ r, Validate doc = Some r ∧
    (r = None ↔ wf (view doc) ["root"] ∧
       ∀ p b c, reach (view doc) "root" p → view doc !! p = Some b → c ∈ b_ChildrenIds b → is_Some (view doc !! c)).
Proof.
  split; [vm_compute; reflexivity|]. split; [vm_compute; reflexivity|]. apply (Validate_correct doc).
  apply (wf_keys _ ["root"]), wf_b_spec. vm_compute. reflexivity.
Defined.

Lemma SelectRoots_correct_witness :
  SelectRoots doc ["c"; "a"; "b"; "z"; "b"] = Some ["a"; "b"; "b"] ∧
  ∃ keep : string → bool, SelectRoots doc ["c"; "a"; "b"; "z"; "b"] = Some (List.filter keep ["c"; "a"; "b"; "z"; "b"]) ∧
    ∀ id, keep id = true ↔
      is_Some (view doc !! id) ∧ ¬ ∃ a, a ∈ ["c"; "a"; "b"; "z"; "b"] ∧ a ≠ id ∧ reach (view doc) "root" a ∧
        reach (view doc) "root" id ∧ reach (view doc) a id.
Proof.
  split; [vm_compute; reflexivity|]. apply (SelectRoots_correct doc), wf_b_spec. vm_compute. reflexivity.
Defined.
End ChecksInst.
