(* ===== verification/StateNormalize.v ===== *)
(** * Normalisation of the block tree ([core/block/editor/state/normalize.go])

    Before a state is applied its tree is repaired: children that do not exist are
    dropped, a block listed twice keeps one place, empty rows and columns go, and
    long lists of children are cut into divs.  Each repair works on the top layer
    through the operations of [StateTree].

    The code ranges over the map of the top layer while it inserts into it: the
    order in which Go visits the ids is a parameter, any list; an id that is not in
    the layer when its turn comes is not visited.  The ids of new divs come from a
    generator ([bson.NewObjectId]), a function of a counter. *)

From S2P Require Import Prelude Slice StateTree StateChecks.

Local Open Scope Z_scope.

(** ** Missing children *)

(** The block is one of the top layer; the recursion restarts after each removal. *)
Fixpoint normalizeChildren_loop (fuel : nat) (s : State) (id : string) : option State :=
  match fuel with
  | O => None
  | S fuel =>
      match st_blocks s !! id with
      | None => Some s
      | Some b =>
          match filter (λ c, Exists s c = false) (b_ChildrenIds b) with
          | [] => Some s
          | c :: _ => normalizeChildren_loop fuel (removeChildren s b c) id
          end
      end
  end.

(** Every round but the last one shortens the list. *)
Definition normalizeChildren (s : State) (id : string) : option State :=
  normalizeChildren_loop (S match st_blocks s !! id with Some b => length (b_ChildrenIds b) | None => O end) s id.

(** The loop over the map of the top layer. *)
Definition range_blocks (f : State → string → option State) (order : list string) (s : State) : option State :=
  foldl (λ s id, match s with
                 | None => None
                 | Some s => if InState s id then f s id else Some s
                 end) (Some s) order.

(** ** Blocks listed twice *)

Record dedup := { dd_state : State; dd_children : gset string; dd_handled : gset string }.

(** The indices of the children seen before, and the children seen after. *)
Fixpoint dup_indices (i : nat) (seen : gset string) (ids : list string) : list nat * gset string :=
  match ids with
  | [] => ([], seen)
  | cid :: ids =>
      if bool_decide (cid ∈ seen)
      then let '(l, seen) := dup_indices (S i) seen ids in (i :: l, seen)
      else dup_indices (S i) ({[cid]} ∪ seen) ids
  end.

(** [append(chIds[:idx], chIds[idx+1:]...)], the [i]-th index shifted by [i]. *)
Fixpoint delete_indices (i : nat) (delIdx : list nat) (chIds : list string) : list string :=
  match delIdx with
  | [] => chIds
  | idx :: delIdx => delete_indices (S i) delIdx (take (idx - i) chIds ++ drop (S (idx - i)) chIds)
  end.

Definition dedup_visit (a : dedup) (b : Block) : dedup :=
  if bool_decide (b_Id b ∈ dd_handled a) then a
  else
    let '(delIdx, children) := dup_indices 0 (dd_children a) (b_ChildrenIds b) in
    let s :=
      match delIdx with
      | [] => dd_state a
      | _ => match Get (dd_state a) (b_Id b) with
             | (Some b, s) => setChildrenIds s (b_Id b) (delete_indices 0 delIdx (b_ChildrenIds b))
             | (None, s) => s
             end
      end in
    {| dd_state := s; dd_children := children; dd_handled := {[b_Id b]} ∪ dd_handled a |}.

(** The children of the block [b] picked before the callback ran, after it: the
    same object when it was in the top layer already, and otherwise the parent's,
    which keeps its old list. *)
Definition loop_children (before after : State) (id : string) (b : Block) : list string :=
  match st_blocks before !! id, st_blocks after !! id with
  | Some _, Some b => b_ChildrenIds b
  | _, _ => b_ChildrenIds b
  end.

(** [Iterate] with this callback. *)
Fixpoint dedup_iter (fuel : nat) (parentIds : list string) (id : string) (a : dedup) : option (IterResult dedup) :=
  match fuel with
  | O => None
  | S fuel =>
      if negb (FindPos parentIds id =? -1) then Some (a, false, Some err_cycle)
      else
        match Pick (dd_state a) id with
        | None => Some (a, true, None)
        | Some b =>
            let a' := dedup_visit a b in
            iter_children (dedup_iter fuel (parentIds ++ [id])) (loop_children (dd_state a) (dd_state a') id b) a'
        end
  end.

(** The error of the walk is ignored. *)
Definition removeDuplicates (s : State) : option State :=
  match dedup_iter (iter_fuel s) [] (st_rootId s) {| dd_state := s; dd_children := ∅; dd_handled := ∅ |} with
  | None => None
  | Some (a, _, _) => Some (dd_state a)
  end.

(** *** What a visit keeps *)

Fixpoint first_seen (seen : gset string) (ids : list string) : list string :=
  match ids with
  | [] => []
  | c :: ids => if bool_decide (c ∈ seen) then first_seen seen ids else c :: first_seen ({[c]} ∪ seen) ids
  end.

Lemma delete_dup_indices i k seen ids pre :
  (length pre + k = i)%nat →
  delete_indices k (dup_indices i seen ids).1 (pre ++ ids) = pre ++ first_seen seen ids.
Proof.
  revert i k seen pre. induction ids as [|c ids IH]; intros i k seen pre Hi; [done|]. cbn [dup_indices first_seen].
  case_bool_decide.
  - pose proof (IH (S i) (S k) seen pre ltac:(lia)) as IH'. destruct (dup_indices (S i) seen ids) as [l seen'].
    cbn [fst delete_indices] in *. replace (i - k)%nat with (length pre) by lia.
    assert (drop (S (length pre)) (pre ++ c :: ids) = ids) as ->.
    { change (c :: ids) with ([c] ++ ids). rewrite app_assoc. apply drop_app_length'. rewrite length_app. simpl. lia. }
    by rewrite take_app_length.
  - specialize (IH (S i) k ({[c]} ∪ seen) (pre ++ [c])). rewrite length_app in IH. simpl in IH.
    rewrite <- !app_assoc in IH. apply IH. lia.
Qed.

Lemma dup_indices_seen i seen ids c : c ∈ (dup_indices i seen ids).2 ↔ c ∈ seen ∨ c ∈ ids.
Proof.
  revert i seen. induction ids as [|x ids IH]; intros i seen; cbn [dup_indices]; [rewrite elem_of_nil; naive_solver|].
  rewrite elem_of_cons. case_bool_decide as Hx.
  - specialize (IH (S i) seen). destruct (dup_indices (S i) seen ids) as [l s']. simpl in *. rewrite IH. naive_solver.
  - rewrite IH. set_solver.
Qed.

Lemma first_seen_elem seen ids c : c ∈ first_seen seen ids ↔ c ∈ ids ∧ c ∉ seen.
Proof.
  revert seen. induction ids as [|x ids IH]; intros seen; cbn [first_seen]; [rewrite elem_of_nil; naive_solver|].
  case_bool_decide as Hx; [rewrite IH, elem_of_cons; naive_solver|].
  rewrite !elem_of_cons, IH. destruct (decide (c = x)) as [->|]; [naive_solver|]. set_solver.
Qed.

Lemma first_seen_NoDup seen ids : NoDup (first_seen seen ids).
Proof.
  revert seen. induction ids as [|x ids IH]; intros seen; cbn [first_seen]; [constructor|].
  case_bool_decide; [done|]. constructor; [|done]. rewrite first_seen_elem. set_solver.
Qed.

Lemma first_seen_sublist seen ids : first_seen seen ids `sublist_of` ids.
Proof.
  revert seen. induction ids as [|x ids IH]; intros seen; cbn [first_seen]; [done|].
  case_bool_decide; [by apply sublist_cons|by apply sublist_skip].
Qed.

Lemma dup_indices_none i seen ids : (dup_indices i seen ids).1 = [] → first_seen seen ids = ids.
Proof.
  revert i seen. induction ids as [|x ids IH]; intros i seen; cbn [dup_indices first_seen]; [done|].
  case_bool_decide; [by destruct (dup_indices _ _ _)|]. intros E. f_equal. by eapply IH.
Qed.

(** The callback on a block that was not handled, seen through the layers. *)
Lemma dedup_visit_fresh a b :
  view (dd_state a) !! b_Id b = Some b → b_Id b ∉ dd_handled a →
  let a' := dedup_visit a b in
  view (dd_state a') = <[b_Id b:=with_children b (first_seen (dd_children a) (b_ChildrenIds b))]> (view (dd_state a)) ∧
  same_below (dd_state a) (dd_state a') ∧
  (∀ c, c ∈ dd_children a' ↔ c ∈ dd_children a ∨ c ∈ b_ChildrenIds b) ∧
  dd_handled a' = {[b_Id b]} ∪ dd_handled a ∧
  (is_Some (st_blocks (dd_state a) !! b_Id b) →
   st_blocks (dd_state a') !! b_Id b = Some (with_children b (first_seen (dd_children a) (b_ChildrenIds b)))).
Proof.
  intros Hb Hh. unfold dedup_visit. rewrite bool_decide_eq_false_2 by done.
  pose proof (delete_dup_indices 0 0 (dd_children a) (b_ChildrenIds b) [] eq_refl) as Hdel.
  pose proof (dup_indices_seen 0 (dd_children a) (b_ChildrenIds b)) as Hseen.
  pose proof (dup_indices_none 0 (dd_children a) (b_ChildrenIds b)) as Hnone.
  destruct (dup_indices 0 (dd_children a) (b_ChildrenIds b)) as [delIdx children]. cbn [fst snd] in *.
  simpl in Hdel. destruct delIdx as [|i delIdx].
  - cbn [dd_state dd_children dd_handled]. rewrite Hnone by done.
    assert (with_children b (b_ChildrenIds b) = b) as -> by (by destruct b).
    split_and!; [by rewrite insert_id|apply same_below_refl|done|done|].
    intros [b' Hb']. rewrite <- Pick_view in Hb. unfold Pick in Hb. simpl in Hb. by rewrite Hb' in Hb |- *.
  - destruct (Get_some (dd_state a) (b_Id b) b Hb) as (s' & Hg & (Hv & Hs & _) & Hk). rewrite Hg, Hdel.
    destruct (setChildrenIds_view s' (b_Id b) b (first_seen (dd_children a) (b_ChildrenIds b)) Hk) as (Hv2 & Hs2 & Hb2).
    cbn [dd_state dd_children dd_handled]. rewrite Hv2, Hv, Hb2. split_and!; try done.
    + by eapply same_below_trans.
    + intros _. apply lookup_insert_eq.
Qed.

Lemma sublist_same_elems (l1 l2 : list string) :
  l1 `sublist_of` l2 → NoDup l2 → (∀ c, c ∈ l2 → c ∈ l1) → l1 = l2.
Proof.
  intros Hs Hnd Hall. assert (length l2 ≤ length l1)%nat as Hlen by (by apply submseteq_length, NoDup_submseteq).
  clear Hnd Hall. induction Hs as [|x l1 l2 Hs IH|x l1 l2 Hs IH]; [done| |]; simpl in Hlen.
  - f_equal. apply IH. lia.
  - apply sublist_length in Hs. lia.
Qed.

Section dedup_walk.
Context (s0 : State) (Hkeys : ∀ id b, view s0 !! id = Some b → b_Id b = id).
Context (Hacyclic : ∀ path id, chain (view s0) (st_rootId s0) path id → id ∉ path).
Abbreviation V0 := (view s0).
Abbreviation root := (st_rootId s0).
Abbreviation vw a := (view (dd_state a)).

(** Handled blocks own disjoint lists that together are the children seen; the
    others are as at the start.  Handled blocks are reachable through handled
    blocks, whatever happens to the rest. *)
Record dd_inv (a : dedup) : Prop := {
  di_below : same_below s0 (dd_state a);
  di_old id : id ∉ dd_handled a → vw a !! id = V0 !! id;
  di_none id : V0 !! id = None → vw a !! id = None;
  di_sub id b : V0 !! id = Some b → ∃ ids, vw a !! id = Some (with_children b ids) ∧ ids `sublist_of` b_ChildrenIds b;
  di_handled id : id ∈ dd_handled a → is_Some (V0 !! id);
  di_claim p b : p ∈ dd_handled a → V0 !! p = Some b → ∀ c, c ∈ b_ChildrenIds b → c ∈ dd_children a;
  di_owner c : c ∈ dd_children a → ∃ p b, p ∈ dd_handled a ∧ vw a !! p = Some b ∧ c ∈ b_ChildrenIds b;
  di_seen p b c : p ∈ dd_handled a → vw a !! p = Some b → c ∈ b_ChildrenIds b → c ∈ dd_children a;
  di_uniq p1 b1 p2 b2 c : p1 ∈ dd_handled a → p2 ∈ dd_handled a → vw a !! p1 = Some b1 → vw a !! p2 = Some b2 →
    c ∈ b_ChildrenIds b1 → c ∈ b_ChildrenIds b2 → p1 = p2;
  di_nodup p b : p ∈ dd_handled a → vw a !! p = Some b → NoDup (b_ChildrenIds b);
  di_reach V' : (∀ p, p ∈ dd_handled a → V' !! p = vw a !! p) → ∀ x, x ∈ dd_handled a → reach V' root x;
}.

Lemma di_key a id b : dd_inv a → vw a !! id = Some b → b_Id b = id.
Proof.
  intros Hi Hb. destruct (V0 !! id) as [b0|] eqn:E0; [|by rewrite (di_none a Hi id E0) in Hb].
  destruct (di_sub a Hi id b0 E0) as (ids & Hv & _). simplify_eq. simpl. by apply Hkeys.
Qed.

Lemma dedup_visit_inv a id b :
  dd_inv a → vw a !! id = Some b → id = root ∨ id ∈ dd_children a → dd_inv (dedup_visit a b).
Proof.
  intros Hi Hb Hid. pose proof (di_key a id b Hi Hb) as Hk. destruct (decide (id ∈ dd_handled a)) as [Hh|Hh].
  { unfold dedup_visit. by rewrite Hk, bool_decide_eq_true_2. }
  pose proof (di_old a Hi id Hh) as Hold. rewrite Hb in Hold. symmetry in Hold. subst id.
  destruct (dedup_visit_fresh a b Hb Hh) as (Hv & Hs & Hc & Hhd & _).
  pose proof (λ c, first_seen_elem (dd_children a) (b_ChildrenIds b) c) as Hfs.
  set (fs := first_seen (dd_children a) (b_ChildrenIds b)) in *.
  assert (∀ p, p ∈ dd_handled a → vw (dedup_visit a b) !! p = vw a !! p) as Hsame.
  { intros p Hp. rewrite Hv, lookup_insert_ne; [done|]. intros E. by rewrite <- E in Hp. }
  assert (∀ p bp, p ∈ dd_handled (dedup_visit a b) → vw (dedup_visit a b) !! p = Some bp →
    (p = b_Id b ∧ bp = with_children b fs) ∨ (p ∈ dd_handled a ∧ vw a !! p = Some bp)) as Hcase.
  { intros p bp Hp Hbp. rewrite Hhd in Hp. apply elem_of_union in Hp as [->%elem_of_singleton|Hp].
    - left. rewrite Hv, lookup_insert_eq in Hbp. by simplify_eq.
    - right. by rewrite <- (Hsame p Hp). }
  split.
  - eapply same_below_trans; [apply (di_below a Hi)|done].
  - intros i Hn. rewrite Hhd in Hn. rewrite Hv, lookup_insert_ne by set_solver. apply (di_old a Hi). set_solver.
  - intros i Hn. rewrite Hv, lookup_insert_ne by congruence. by apply (di_none a Hi).
  - intros i bi Hbi. rewrite Hv. destruct (decide (i = b_Id b)) as [->|].
    + simplify_eq. exists fs. rewrite lookup_insert_eq. split; [done|apply first_seen_sublist].
    + rewrite lookup_insert_ne by done. by apply (di_sub a Hi).
  - intros i Hin. rewrite Hhd in Hin. apply elem_of_union in Hin as [->%elem_of_singleton|Hin]; [by eexists|].
    by apply (di_handled a Hi).
  - intros p bp Hp Hbp c Hcin. rewrite Hhd in Hp. apply Hc.
    apply elem_of_union in Hp as [->%elem_of_singleton|Hp]; [simplify_eq; by right|].
    left. by eapply (di_claim a Hi).
  - intros c Hcin. apply Hc in Hcin. destruct (decide (c ∈ dd_children a)) as [Hca|Hca].
    + destruct (di_owner a Hi c Hca) as (p & bp & Hp & Hbp & Hcp). exists p, bp. rewrite Hhd, (Hsame p Hp). set_solver.
    + exists (b_Id b), (with_children b fs). rewrite Hhd, Hv, lookup_insert_eq.
      split_and!; [set_solver|done|apply Hfs; tauto].
  - intros p bp c Hp Hbp Hcin. apply Hc. destruct (Hcase p bp Hp Hbp) as [(-> & ->)|(Hp' & Hb')].
    + right. by apply Hfs.
    + left. by eapply (di_seen a Hi).
  - intros p1 b1 p2 b2 c H1 H2 Hb1 Hb2 Hc1 Hc2.
    destruct (Hcase p1 b1 H1 Hb1) as [(-> & ->)|(H1' & Hb1')], (Hcase p2 b2 H2 Hb2) as [(-> & ->)|(H2' & Hb2')]; [done| | |].
    + apply Hfs in Hc1 as [_ []]. by eapply (di_seen a Hi).
    + apply Hfs in Hc2 as [_ []]. by eapply (di_seen a Hi).
    + by eapply (di_uniq a Hi).
  - intros p bp Hp Hbp. destruct (Hcase p bp Hp Hbp) as [(-> & ->)|(Hp' & Hb')]; [apply first_seen_NoDup|].
    by eapply (di_nodup a Hi).
  - intros V' HV' x Hx. rewrite Hhd in Hx.
    assert (∀ y, y ∈ dd_handled a → reach V' root y) as Hold'.
    { apply (di_reach a Hi). intros p Hp. rewrite HV' by (rewrite Hhd; set_solver). by apply Hsame. }
    apply elem_of_union in Hx as [->%elem_of_singleton|Hx]; [|by apply Hold'].
    destruct Hid as [->|Hin]; [constructor|]. destruct (di_owner a Hi _ Hin) as (p & bp & Hp & Hbp & Hcp).
    eapply reach_child; [by apply Hold'| |exact Hcp]. rewrite HV' by (rewrite Hhd; set_solver). by rewrite Hsame.
Qed.

(** What a part of the walk leaves: handled blocks stay as they are, and the ones
    it handled have their existing children handled too. *)
Record dd_post (a a' : dedup) : Prop := {
  dp_handled : dd_handled a ⊆ dd_handled a';
  dp_children : dd_children a ⊆ dd_children a';
  dp_same p : p ∈ dd_handled a → vw a' !! p = vw a !! p;
  dp_closed p b c : p ∈ dd_handled a' → p ∉ dd_handled a → vw a' !! p = Some b → c ∈ b_ChildrenIds b →
    is_Some (V0 !! c) → c ∈ dd_handled a';
}.

Lemma dd_post_refl a : dd_post a a.
Proof. by split. Qed.

Lemma dd_post_trans a1 a2 a3 : dd_post a1 a2 → dd_post a2 a3 → dd_post a1 a3.
Proof.
  intros [H1 C1 S1 D1] [H2 C2 S2 D2]. split; [set_solver|set_solver| |].
  - intros p Hp. rewrite S2; auto.
  - intros p b c Hp Hn Hb Hc Hs. destruct (decide (p ∈ dd_handled a2)) as [Hp2|]; [|by eapply D2].
    rewrite S2 in Hb by done. apply H2. by eapply D1.
Qed.

(** The list the loop runs over, and what the callback did. *)
Lemma dedup_visit_post a id b :
  dd_inv a → vw a !! id = Some b →
  let a' := dedup_visit a b in
  let ids := loop_children (dd_state a) (dd_state a') id b in
  id ∈ dd_handled a' ∧ dd_handled a ⊆ dd_handled a' ∧ dd_children a ⊆ dd_children a' ∧
  (∀ p, p ∈ dd_handled a' → p ≠ id → p ∈ dd_handled a) ∧
  (∀ p, p ∈ dd_handled a → vw a' !! p = vw a !! p) ∧
  (∀ c, c ∈ ids → c ∈ b_ChildrenIds b) ∧
  (∀ b', vw a' !! id = Some b' → ∀ c, c ∈ b_ChildrenIds b' → c ∈ ids).
Proof.
  intros Hi Hb. pose proof (di_key a id b Hi Hb) as Hk. subst id.
  destruct (decide (b_Id b ∈ dd_handled a)) as [Hh|Hh].
  - unfold dedup_visit. rewrite bool_decide_eq_true_2 by done. cbv zeta.
    assert (loop_children (dd_state a) (dd_state a) (b_Id b) b = b_ChildrenIds b) as ->.
    { unfold loop_children. rewrite <- Pick_view in Hb. unfold Pick in Hb. simpl in Hb.
      destruct (st_blocks (dd_state a) !! b_Id b) as [b'|] eqn:E; [|done]. by simplify_eq. }
    rewrite Hb. split_and!; try done. intros b' [= <-]. done.
  - destruct (dedup_visit_fresh a b Hb Hh) as (Hv & Hs & Hc & Hhd & Htop).
    pose proof (first_seen_elem (dd_children a) (b_ChildrenIds b)) as Hfs. unfold loop_children. cbv zeta.
    assert (∀ c, c ∈ first_seen (dd_children a) (b_ChildrenIds b) → c ∈ b_ChildrenIds b) as Hsub by (intros c; rewrite Hfs; tauto).
    split_and!.
    + rewrite Hhd. set_solver.
    + rewrite Hhd. set_solver.
    + intros c Hcin. apply Hc. by left.
    + intros p. rewrite Hhd. set_solver.
    + intros p Hp. rewrite Hv, lookup_insert_ne; [done|]. intros E. by rewrite <- E in Hp.
    + destruct (st_blocks (dd_state a) !! b_Id b) as [b1|] eqn:E; [|done]. rewrite Htop by done. exact Hsub.
    + intros b'. rewrite Hv, lookup_insert_eq. intros [= <-] c Hin. simpl in Hin.
      destruct (st_blocks (dd_state a) !! b_Id b) as [b1|] eqn:E; [|by apply Hsub]. by rewrite Htop.
Qed.

Lemma dedup_children_spec (it : string → dedup → option (IterResult dedup)) ids a :
  (∀ c a, c ∈ ids → dd_inv a → c ∈ dd_children a →
     ∃ a', it c a = Some (a', true, None) ∧ dd_inv a' ∧ dd_post a a' ∧ (is_Some (V0 !! c) → c ∈ dd_handled a')) →
  dd_inv a → (∀ c, c ∈ ids → c ∈ dd_children a) →
  ∃ a', iter_children it ids a = Some (a', true, None) ∧ dd_inv a' ∧ dd_post a a' ∧
    ∀ c, c ∈ ids → is_Some (V0 !! c) → c ∈ dd_handled a'.
Proof.
  revert a. induction ids as [|c ids IH]; intros a Hit Hi Hc.
  { exists a. split_and!; [done|done|apply dd_post_refl|by intros c ?%elem_of_nil]. }
  destruct (Hit c a) as (a1 & E1 & Hi1 & Hp1 & Hh1); [by left|done|apply Hc; by left|].
  destruct (IH a1) as (a2 & E2 & Hi2 & Hp2 & Hh2).
  - intros c' a' Hc'. apply Hit. by right.
  - done.
  - intros c' Hc'. apply (dp_children _ _ Hp1), Hc. by right.
  - exists a2. cbn [iter_children]. rewrite E1. cbn [negb orb]. rewrite bool_decide_eq_false_2 by (by intros []).
    split_and!; [done|done|by eapply dd_post_trans|].
    intros c' [->|Hc']%elem_of_cons Hs; [|by apply Hh2]. by apply (dp_handled _ _ Hp2), Hh1.
Qed.

Lemma dedup_iter_spec fuel path id a :
  dd_inv a → chain V0 root path id → id = root ∨ id ∈ dd_children a →
  NoDup path → (∀ p, p ∈ path → is_Some (V0 !! p)) → (size V0 < fuel + length path)%nat →
  ∃ a', dedup_iter fuel path id a = Some (a', true, None) ∧ dd_inv a' ∧ dd_post a a' ∧
    (is_Some (V0 !! id) → id ∈ dd_handled a').
Proof.
  revert path id a. induction fuel as [|fuel IH]; intros path id a Hi Hch Hid Hnd Hdom Hf.
  { exfalso. assert (length path ≤ size V0)%nat; [|lia].
    rewrite <- size_dom, <- (size_list_to_set (C:=gset string) path Hnd). apply subseteq_size.
    intros p [b Hb]%elem_of_list_to_set%Hdom. by apply elem_of_dom. }
  cbn [dedup_iter]. rewrite FindPos_path, bool_decide_eq_false_2 by (by apply Hacyclic).
  rewrite Pick_view. destruct (V0 !! id) as [b0|] eqn:E0.
  2:{ rewrite (di_none a Hi id E0). exists a. split_and!; [done|done|apply dd_post_refl|by intros []]. }
  destruct (di_sub a Hi id b0 E0) as (ids0 & Hb & Hsub). rewrite Hb. set (b := with_children b0 ids0) in *.
  pose proof (dedup_visit_inv a id b Hi Hb Hid) as Hi1.
  destruct (dedup_visit_post a id b Hi Hb) as (Hin & Hh & Hcs & Hnew & Hsame & Hids & Hall). cbv zeta in *.
  set (a1 := dedup_visit a b) in *. set (ids := loop_children (dd_state a) (dd_state a1) id b) in *.
  assert (∀ c, c ∈ ids → c ∈ b_ChildrenIds b0) as Hids0.
  { intros c Hc. apply Hids in Hc. simpl in Hc. by eapply (sublist_subseteq _ _ Hsub). }
  destruct (dedup_children_spec (dedup_iter fuel (path ++ [id])) ids a1) as (a2 & E2 & Hi2 & Hp2 & Hh2).
  - intros c a' Hc Hi' Hca. apply IH; try done; [|by right| | |].
    + eapply chain_child; [done|exact E0|by apply Hids0].
    + apply NoDup_app. split_and!; [done| |apply NoDup_singleton].
      intros x Hx ->%list_elem_of_singleton. by apply (Hacyclic path id).
    + intros p [Hp| ->%list_elem_of_singleton]%elem_of_app; [by apply Hdom|by eexists].
    + rewrite length_app. simpl. lia.
  - done.
  - intros c Hc. eapply (di_claim a1 Hi1 id b0); [done|done|by apply Hids0].
  - exists a2. split_and!; [done|done| |intros _; by apply (dp_handled _ _ Hp2)]. split.
    + etrans; [exact Hh|apply (dp_handled _ _ Hp2)].
    + etrans; [exact Hcs|apply (dp_children _ _ Hp2)].
    + intros p Hp. rewrite (dp_same _ _ Hp2) by (by apply Hh). by apply Hsame.
    + intros p bp c Hp Hn Hbp Hc Hex. destruct (decide (p ∈ dd_handled a1)) as [Hp1|]; [|by eapply (dp_closed _ _ Hp2)].
      destruct (decide (p = id)) as [->|Hne]; [|by destruct Hn; apply Hnew].
      rewrite (dp_same _ _ Hp2) in Hbp by done. apply Hh2; [|done]. by eapply Hall.
Qed.

Definition dd_start : dedup := {| dd_state := s0; dd_children := ∅; dd_handled := ∅ |}.

Lemma dd_start_inv : dd_inv dd_start.
Proof.
  split; try done; try (intros; set_solver). intros id b Hb. exists (b_ChildrenIds b). split; [|done].
  simpl. rewrite Hb. by destruct b.
Qed.

(** The whole walk: what is handled is closed, and is what can be reached. *)
Lemma dedup_run :
  ∃ a, removeDuplicates s0 = Some (dd_state a) ∧ dd_inv a ∧
    (∀ p b c, p ∈ dd_handled a → vw a !! p = Some b → c ∈ b_ChildrenIds b → is_Some (V0 !! c) → c ∈ dd_handled a) ∧
    (is_Some (V0 !! root) → root ∈ dd_handled a).
Proof.
  destruct (dedup_iter_spec (iter_fuel s0) [] root dd_start) as (a & E & Hi & Hp & Hr).
  - apply dd_start_inv.
  - constructor.
  - by left.
  - constructor.
  - by intros p ?%elem_of_nil.
  - unfold iter_fuel. simpl. lia.
  - exists a. unfold removeDuplicates. unfold dd_start in E. rewrite E. split_and!; [done|done| |done].
    intros p b c Hpa. apply (dp_closed _ _ Hp); [done|]. simpl. set_solver.
Qed.

Section run.
Context (a : dedup) (Hi : dd_inv a) (Hroot : is_Some (V0 !! root) → root ∈ dd_handled a).
Context (Hclosed : ∀ p b c, p ∈ dd_handled a → vw a !! p = Some b → c ∈ b_ChildrenIds b → is_Some (V0 !! c) →
  c ∈ dd_handled a).

Lemma dd_lookup p b : vw a !! p = Some b → ∃ b0, V0 !! p = Some b0 ∧ b_ChildrenIds b `sublist_of` b_ChildrenIds b0.
Proof.
  intros Hb. destruct (V0 !! p) as [b0|] eqn:E0; [|by rewrite (di_none a Hi p E0) in Hb].
  destruct (di_sub a Hi p b0 E0) as (ids & Hv & Hs). exists b0. split; [done|]. by simplify_eq.
Qed.

Lemma dd_reach_handled x : reach (vw a) root x → is_Some (V0 !! x) → x ∈ dd_handled a.
Proof.
  induction 1 as [|p b c Hp IH Hb Hc]; intros Hx; [by apply Hroot|].
  destruct (dd_lookup p b Hb) as (b0 & H0 & _). eapply Hclosed; [apply IH; by eexists|done|done|done].
Qed.

Lemma dd_reach x : reach (vw a) root x ↔ reach V0 root x.
Proof.
  split.
  - apply reach_mono. intros q b Hb. destruct (dd_lookup q b Hb) as (b0 & H0 & Hs). exists b0.
    split; [done|]. by apply sublist_subseteq.
  - induction 1 as [|p b0 c Hp IH H0 Hc]; [constructor|].
    assert (p ∈ dd_handled a) as Hh by (apply dd_reach_handled; [done|by eexists]).
    destruct (di_owner a Hi c (di_claim a Hi p b0 Hh H0 c Hc)) as (q & bq & Hq & Hbq & Hcq).
    eapply reach_child; [|exact Hbq|exact Hcq]. by apply (di_reach a Hi (vw a)).
Qed.

Lemma dd_root_free p b : reach V0 root p → V0 !! p = Some b → root ∉ b_ChildrenIds b.
Proof.
  intros [path Hc]%reach_chain Hb Hin. pose proof (chain_child _ _ _ _ _ _ Hc Hb Hin) as Hc'.
  apply (Hacyclic _ _ Hc'). clear Hc' Hin. revert b Hb. induction Hc as [|path p' b' c Hc IH Hb' Hin]; intros b Hb; [by left|].
  apply elem_of_app. left. by eapply IH.
Qed.

Lemma dd_wf : wf (vw a) [root].
Proof.
  assert (∀ p b, reachable (vw a) [root] p → vw a !! p = Some b → p ∈ dd_handled a) as Hh.
  { intros p b (r & ->%list_elem_of_singleton & Hr) Hb. destruct (dd_lookup p b Hb) as (b0 & H0 & _).
    apply dd_reach_handled; [done|by eexists]. }
  split.
  - intros id b. by apply di_key.
  - apply NoDup_singleton.
  - intros p1 b1 p2 b2 c H1 H2 Hb1 Hb2. eapply (di_uniq a Hi); try done; by eapply Hh.
  - intros p b Hp Hb. eapply (di_nodup a Hi); [by eapply Hh|done].
  - intros p b r (r' & ->%list_elem_of_singleton & Hr) Hb ->%list_elem_of_singleton Hin.
    destruct (dd_lookup p b Hb) as (b0 & H0 & Hs). apply dd_reach in Hr.
    apply (dd_root_free p b0 Hr H0). by eapply sublist_subseteq.
Qed.

Lemma dd_unreachable id : ¬ reach V0 root id → vw a !! id = V0 !! id.
Proof.
  intros Hn. apply (di_old a Hi). intros Hin. apply Hn, dd_reach. by apply (di_reach a Hi (vw a)).
Qed.

Lemma dd_wf_same : wf V0 [root] → vw a = V0.
Proof.
  intros Hwf. apply map_eq. intros id. destruct (decide (id ∈ dd_handled a)) as [Hh|]; [|by apply (di_old a Hi)].
  assert (reach V0 root id) as Hr by (apply dd_reach; by apply (di_reach a Hi (vw a))).
  destruct (di_handled a Hi id Hh) as [b0 H0]. destruct (di_sub a Hi id b0 H0) as (ids & Hv & Hs). rewrite Hv, H0.
  f_equal. rewrite (sublist_same_elems ids (b_ChildrenIds b0)); [by destruct b0|done| |].
  - eapply (wf_nodup _ _ Hwf id); [|done]. exists root. split; [by left|done].
  - intros c Hc. destruct (di_owner a Hi c (di_claim a Hi id b0 Hh H0 c Hc)) as (q & bq & Hq & Hbq & Hcq).
    destruct (dd_lookup q bq Hbq) as (q0 & Hq0 & Hsq).
    assert (q = id) as ->.
    { eapply (wf_uniq _ _ Hwf q q0 id b0 c); try done.
      - exists root. split; [by left|]. apply dd_reach. by apply (di_reach a Hi (vw a)).
      - exists root. split; [by left|done].
      - by eapply sublist_subseteq. }
    rewrite Hv in Hbq. by simplify_eq.
Qed.
End run.
End dedup_walk.

(** The graph below the root has no cycle. *)
Definition acyclic (s : State) : Prop := ∀ path id, chain (view s) (st_rootId s) path id → id ∉ path.

(** C9. [removeDuplicates] repairs any document without cycles, through any number
    of layers: it ends, afterwards every block has one place (the tree is
    well-formed), the same blocks are reachable, a block keeps its content and a
    subsequence of its children, what is unreachable is not touched, and a
    well-formed document is not changed. *)
Theorem removeDuplicates_correct s :
  (∀ id b, view s !! id = Some b → b_Id b = id) → acyclic s →
  ∃ s', removeDuplicates s = Some s' ∧ same_below s s' ∧ wf (view s') [st_rootId s'] ∧
    (∀ x, reach (view s') (st_rootId s) x ↔ reach (view s) (st_rootId s) x) ∧
    (∀ id b, view s !! id = Some b →
       ∃ ids, view s' !! id = Some (with_children b ids) ∧ ids `sublist_of` b_ChildrenIds b) ∧
    (∀ id, ¬ reach (view s) (st_rootId s) id → view s' !! id = view s !! id) ∧
    (wf (view s) [st_rootId s] → view s' = view s).
Proof.
  intros Hkeys Hac. destruct (dedup_run s Hkeys Hac) as (a & E & Hi & Hcl & Hr). exists (dd_state a).
  pose proof (di_below s a Hi) as Hb. pose proof Hb as [-> _].
  split_and!; [done|done| | |apply (di_sub s a Hi)| |].
  - by apply dd_wf.
  - by apply dd_reach.
  - by apply dd_unreachable.
  - by apply dd_wf_same.
Qed.

(** ** Removing the divs of a document *)

Definition isDivLayout (b : Block) : bool := bool_decide (b_Content b = CLayout LDiv).

Section cleanup_loop.
Context (cleanup : string → State * Z → option (list string * (State * Z))).

(** The loop over the children, with the state and [removedCount]. *)
Fixpoint cleanup_children (ids : list string) (result : list string) (a : State * Z)
    : option (list string * (State * Z)) :=
  match ids with
  | [] => Some (result, a)
  | chId :: ids =>
      match Pick a.1 chId with
      | None => cleanup_children ids result a
      | Some chB =>
          if isDivLayout chB then
            match cleanup chId (a.1, a.2 + 1) with
            | None => None
            | Some (l, a) => cleanup_children ids (result ++ l) a
            end
          else
            match cleanup chId a with
            | None => None
            | Some (_, a) => cleanup_children ids (result ++ [chId]) a
            end
      end
  end.
End cleanup_loop.

Fixpoint cleanup (fuel : nat) (id : string) (a : State * Z) : option (list string * (State * Z)) :=
  match fuel with
  | O => None
  | S fuel =>
      match Get a.1 id with
      | (None, s) => Some ([], (s, a.2))
      | (Some b, s) =>
          match cleanup_children (cleanup fuel) (b_ChildrenIds b) [] (s, a.2) with
          | None => None
          | Some (result, (s, n)) => Some (result, (setChildrenIds s (b_Id b) result, n))
          end
      end
  end.

(** The recursion has no guard against cycles; a path without one fits the fuel. *)
Definition CleanupLayouts (s : State) : option (Z * State) :=
  match cleanup (iter_fuel s) (st_rootId s) (s, 0) with
  | None => None
  | Some (_, (s, n)) => Some (n, s)
  end.

(** The children a reader sees: divs are replaced by what they hold, children that
    do not exist are skipped. *)
Inductive flat (V : Blocks) : list string → list string → Prop :=
| flat_nil : flat V [] []
| flat_missing c ids l : V !! c = None → flat V ids l → flat V (c :: ids) l
| flat_div c b ids l1 l2 :
    V !! c = Some b → isDivLayout b = true → flat V (b_ChildrenIds b) l1 → flat V ids l2 → flat V (c :: ids) (l1 ++ l2)
| flat_block c b ids l :
    V !! c = Some b → isDivLayout b = false → flat V ids l → flat V (c :: ids) (c :: l).

Section cleanup.
Context (V : Blocks) (root : string) (Hwf : wf V [root]).

(** What is below some of the ids. *)
Definition below (ids : list string) (x : string) : Prop := ∃ c, c ∈ ids ∧ reach V c x.

(** The part of a state below the ids is flattened, the rest is kept. *)
Definition cleaned (ids : list string) (s s' : State) : Prop :=
  (same_below s s' ∧ ∀ x, is_Some (st_blocks s !! x) → is_Some (st_blocks s' !! x)) ∧
  (∀ x, ¬ below ids x → view s' !! x = view s !! x) ∧
  (∀ x, below ids x → V !! x = None → view s' !! x = None) ∧
  ∀ x b, below ids x → V !! x = Some b →
    ∃ l, flat V (b_ChildrenIds b) l ∧ view s' !! x = Some (with_children b l).

Definition intact (ids : list string) (s : State) : Prop := ∀ x, below ids x → view s !! x = V !! x.

Lemma below_cons c ids x : below (c :: ids) x ↔ reach V c x ∨ below ids x.
Proof. unfold below. setoid_rewrite elem_of_cons. naive_solver. Qed.

Lemma cleaned_cons c ids s s1 s2 :
  cleaned [c] s s1 → cleaned ids s1 s2 → (∀ x, reach V c x → ¬ below ids x) → cleaned (c :: ids) s s2.
Proof.
  intros (B1 & K1 & N1 & F1) (B2 & K2 & N2 & F2) Hd.
  assert (∀ x, below [c] x ↔ reach V c x) as Hc by (intros x; rewrite below_cons; unfold below; set_solver).
  split_and!.
  - eapply same_below_trans; [apply B1|apply B2].
  - intros x Hx. by apply B2, B1.
  - intros x Hx. rewrite below_cons in Hx. rewrite K2, K1; [done| |]; rewrite ?Hc; tauto.
  - intros x [Hx|Hx]%below_cons HV; [|by apply N2]. rewrite K2 by (by apply Hd). apply N1; [by apply Hc|done].
  - intros x b [Hx|Hx]%below_cons HV; [|by apply F2]. rewrite K2 by (by apply Hd). apply F1; [by apply Hc|done].
Qed.

Lemma cleaned_nil s : cleaned [] s s.
Proof.
  split_and!; [apply same_below_refl|done|done|..].
  - by intros x (c & ?%elem_of_nil & _).
  - by intros x b (c & ?%elem_of_nil & _).
Qed.

Lemma intact_after c ids s s' :
  cleaned [c] s s' → intact (c :: ids) s → (∀ x, reach V c x → ¬ below ids x) → intact ids s'.
Proof.
  intros (_ & K & _) Hi Hd x Hx. rewrite K; [apply Hi, below_cons; by right|].
  intros (c' & ->%list_elem_of_singleton & Hr). by apply (Hd x).
Qed.

Lemma intact_head c ids s : intact (c :: ids) s → intact [c] s.
Proof. intros Hi x (c' & ->%list_elem_of_singleton & Hr). apply Hi, below_cons. by left. Qed.

(** What [cleanup] promises for one id. *)
Definition cleanup_ok (id : string) (a : State * Z) (r : option (list string * (State * Z))) : Prop :=
  ∃ l s' n, r = Some (l, (s', n)) ∧ cleaned [id] a.1 s' ∧ ∀ b, V !! id = Some b → flat V (b_ChildrenIds b) l.

Lemma cleanup_children_spec (f : string → State * Z → option (list string * (State * Z))) ids result a :
  (∀ c a, c ∈ ids → intact [c] a.1 → cleanup_ok c a (f c a)) →
  NoDup ids → (∀ c1 c2 x, c1 ∈ ids → c2 ∈ ids → c1 ≠ c2 → reach V c1 x → ¬ reach V c2 x) →
  intact ids a.1 →
  ∃ l s' n, cleanup_children f ids result a = Some (result ++ l, (s', n)) ∧ flat V ids l ∧ cleaned ids a.1 s'.
Proof.
  revert result a. induction ids as [|c ids IH]; intros result a Hf Hnd Hdis Hint.
  { exists [], a.1, a.2. rewrite app_nil_r. split_and!; [by destruct a|constructor|apply cleaned_nil]. }
  apply NoDup_cons in Hnd as [Hc Hnd].
  assert (∀ x, reach V c x → ¬ below ids x) as Hd.
  { intros x Hx (c' & Hc' & Hx'). apply (Hdis c c' x); [by left|by right|congruence|done|done]. }
  assert (∀ result a', cleaned [c] a.1 a'.1 → ∃ l s' n,
    cleanup_children f ids result a' = Some (result ++ l, (s', n)) ∧ flat V ids l ∧ cleaned (c :: ids) a.1 s') as Hrest.
  { intros result' a' Hcl. destruct (IH result' a') as (l & s' & n & E & Hfl & Hcl').
    - intros c' a'' Hc'. apply Hf. by right.
    - done.
    - intros c1 c2 x ? ?. apply Hdis; by right.
    - by eapply intact_after.
    - exists l, s', n. split_and!; [done|done|]. by eapply cleaned_cons. }
  assert (view a.1 !! c = V !! c) as Hcv by (apply Hint, below_cons; left; constructor).
  cbn [cleanup_children]. rewrite Pick_view, Hcv. destruct (V !! c) as [b|] eqn:Eb.
  - destruct (isDivLayout b) eqn:Ed.
    + destruct (Hf c (a.1, a.2 + 1)) as (l1 & s1 & n1 & -> & Hcl & Hfl); [by left|by eapply intact_head|].
      destruct (Hrest (result ++ l1) (s1, n1) Hcl) as (l & s' & n & -> & Hfl2 & Hcl2).
      exists (l1 ++ l), s', n. rewrite app_assoc. split_and!; [done| |done]. by apply (flat_div V c b); auto.
    + destruct (Hf c a) as (l1 & s1 & n1 & -> & Hcl & _); [by left|by eapply intact_head|].
      destruct (Hrest (result ++ [c]) (s1, n1) Hcl) as (l & s' & n & -> & Hfl2 & Hcl2).
      exists (c :: l), s', n. rewrite <- app_assoc. split_and!; [done| |done]. by apply (flat_block V c b).
  - destruct (Hrest result a) as (l & s' & n & -> & Hfl2 & Hcl2).
    { split_and!; [apply same_below_refl|done|done| |].
      - intros x (c' & ->%list_elem_of_singleton & Hx) HV. rewrite Hint; [done|]. apply below_cons. by left.
      - intros x b (c' & ->%list_elem_of_singleton & Hx) HV.
        apply reach_inv_first in Hx as [->|(b' & ? & ? & _)]; congruence. }
    exists l, s', n. split_and!; [done| |done]. by apply flat_missing.
Qed.

Lemma cleanup_spec fuel path id a :
  chain V root path id → (size V < fuel + length path)%nat → intact [id] a.1 → cleanup_ok id a (cleanup fuel id a).
Proof.
  revert path id a. induction fuel as [|fuel IH]; intros path id a Hch Hf Hint.
  { exfalso. destruct (chain_fresh V [root] Hwf root ltac:(by left) path id Hch) as (_ & Hnd & Hdom).
    assert (length path ≤ size V)%nat; [|lia].
    rewrite <- size_dom, <- (size_list_to_set (C:=gset string) path Hnd). apply subseteq_size.
    intros p [b Hb]%elem_of_list_to_set%Hdom. by apply elem_of_dom. }
  cbn [cleanup].
  assert (view a.1 !! id = V !! id) as Hv by (apply Hint; exists id; split; [by left|constructor]).
  destruct (V !! id) as [b|] eqn:Eb.
  2:{ pose proof (Get_spec a.1 id) as (G1 & G2 & G3 & _).
      pose proof (Get_keeps a.1 id) as Hkeep. destruct (Get a.1 id) as [o s']. cbn [fst snd] in *.
      rewrite Hv in G1. subst o. exists [], s', a.2. split_and!; [done| |intros b; congruence].
      split_and!; [done|intros x [bx Hx]; eexists; by apply Hkeep|by rewrite G2| |].
      - intros x Hx HV. rewrite G2, Hint; done.
      - intros x b (c' & ->%list_elem_of_singleton & Hx) HV. apply reach_inv_first in Hx as [->|(b' & ? & ? & _)]; congruence. }
  destruct (Get_some a.1 id b Hv) as (s1 & -> & (Hv1 & Hb1 & Ht1) & Hk1).
  pose proof (wf_keys _ _ Hwf id b Eb) as Hid.
  assert (reachable V [root] id) as Hre by (exists root; split; [by left|by eapply chain_reach_end]).
  assert (∀ c, c ∈ b_ChildrenIds b → chain V root (path ++ [id]) c) as Hchc by (intros c Hc; by eapply chain_child).
  assert (¬ below (b_ChildrenIds b) id) as Hself.
  { intros (c & Hc & Hr). destruct (chain_fresh V [root] Hwf root ltac:(by left) _ _ (Hchc c Hc)) as (Hn & _ & _).
    apply Hn. eapply (reach_on_path V [root] Hwf root); [by left|done|by eapply reachable_child|done]. }
  destruct (cleanup_children_spec (cleanup fuel) (b_ChildrenIds b) [] (s1, a.2)) as (l & s2 & n & E & Hfl & Hcl).
  - intros c a' Hc Hi. apply (IH (path ++ [id])); [by apply Hchc| |done]. rewrite length_app. simpl. lia.
  - by eapply (wf_nodup _ _ Hwf id b).
  - intros c1 c2 x. by apply (siblings_disjoint V [root] Hwf root ltac:(by left) path id b).
  - intros x (c & Hc & Hx). cbn [fst]. rewrite Hv1. apply Hint. exists id. split; [by left|].
    eapply reach_trans; [by eapply reach_step|done].
  - rewrite E. simpl app. destruct Hcl as (B & K & N & F). cbn [fst] in *.
    assert (view s2 !! id = Some b) as Hv2 by (rewrite K, Hv1; done).
    exists l, (setChildrenIds s2 (b_Id b) l), n. split_and!; [done| |intros b' Hb'; rewrite Eb in Hb'; by simplify_eq].
    assert (st_blocks s2 !! id = Some b) as Hk2.
    { destruct (proj2 B id ltac:(by eexists)) as [b' Hb']. rewrite Hb'. rewrite <- Hv2, <- Pick_view. unfold Pick. simpl.
      by rewrite Hb'. }
    rewrite Hid. destruct (setChildrenIds_view s2 id b l Hk2) as (Hv3 & Hs3 & Hb3).
    assert (∀ x, below [id] x ↔ x = id ∨ below (b_ChildrenIds b) x) as Hbelow.
    { intros x. split.
      - intros (c & ->%list_elem_of_singleton & [->|(b' & c' & ? & ? & ?)]%reach_inv_first); [by left|].
        right. simplify_eq. by exists c'.
      - intros [->|(c & Hc & Hx)]; exists id; (split; [by left|]); [constructor|].
        eapply reach_trans; [by eapply reach_step|done]. }
    split_and!.
    + eapply same_below_trans; [exact Hb1|]. eapply same_below_trans; [apply B|done].
    + intros x [bx Hx]. rewrite Hb3. destruct (decide (x = id)) as [->|]; [by rewrite lookup_insert_eq|].
      rewrite lookup_insert_ne by done. apply B. eexists. by apply Ht1.
    + intros x Hx. rewrite Hbelow in Hx. rewrite Hv3, lookup_insert_ne by (intros ->; tauto). rewrite K, Hv1; tauto.
    + intros x Hx HV. apply Hbelow in Hx as [->|Hx]; [congruence|].
      rewrite Hv3, lookup_insert_ne by (intros ->; done). by apply N.
    + intros x bx Hx HV. rewrite Hv3. apply Hbelow in Hx as [->|Hx].
      * rewrite lookup_insert_eq. simplify_eq. by exists l.
      * rewrite lookup_insert_ne by (intros ->; done). by apply F.
Qed.
End cleanup.

(** *** The flattened tree is a tree *)

(** Reached from the ids through divs only. *)
Inductive via (V : Blocks) (ids : list string) : string → Prop :=
| via_here c : c ∈ ids → via V ids c
| via_div d b c : via V ids d → V !! d = Some b → isDivLayout b = true → c ∈ b_ChildrenIds b → via V ids c.

Lemma via_inv_first V ids c :
  via V ids c → c ∈ ids ∨ ∃ d b, d ∈ ids ∧ V !! d = Some b ∧ isDivLayout b = true ∧ via V (b_ChildrenIds b) c.
Proof.
  induction 1 as [c Hc|d b c _ IH Hd Hdiv Hc]; [by left|]. right.
  destruct IH as [Hin|(d' & b' & Hin & Hd' & Hdiv' & Hv)].
  - exists d, b. split_and!; try done. by apply via_here.
  - exists d', b'. split_and!; try done. by eapply via_div.
Qed.

Lemma via_under V ids d b c : d ∈ ids → V !! d = Some b → isDivLayout b = true → via V (b_ChildrenIds b) c → via V ids c.
Proof.
  intros Hin Hd Hdiv. induction 1 as [c Hc|d' b' c _ IH Hd' Hdiv' Hc]; [|by eapply via_div].
  eapply via_div; [by apply via_here|done|done|done].
Qed.

Lemma via_nil V c : ¬ via V [] c.
Proof. by intros [?%elem_of_nil|(? & ? & ?%elem_of_nil & _)]%via_inv_first. Qed.

Lemma via_cons V x ids c :
  via V (x :: ids) c ↔
  c = x ∨ (∃ b, V !! x = Some b ∧ isDivLayout b = true ∧ via V (b_ChildrenIds b) c) ∨ via V ids c.
Proof.
  split.
  - intros [[->|Hc]%elem_of_cons|(d & b & [->|Hin]%elem_of_cons & Hb & Hd & Hv)]%via_inv_first; [by left| | |].
    + right. right. by apply via_here.
    + right. left. by exists b.
    + right. right. by eapply via_under.
  - intros [->|[(b & Hb & Hd & Hv)|Hv]]; [apply via_here; by left|eapply via_under; [by left|done..]|].
    apply via_inv_first in Hv as [Hin|(d & b & Hin & Hb & Hd & Hv)]; [apply via_here; by right|].
    eapply via_under; [by right|done..].
Qed.

Lemma flat_via V ids l c :
  flat V ids l → c ∈ l ↔ via V ids c ∧ ∃ b, V !! c = Some b ∧ isDivLayout b = false.
Proof.
  induction 1 as [|x ids l Hx _ IH|x b ids l1 l2 Hx Hd _ IH1 _ IH2|x b ids l Hx Hd _ IH].
  - rewrite elem_of_nil. split; [done|]. by intros [?%via_nil _].
  - rewrite IH, via_cons. split; [intros [? ?]; split; [tauto|done]|].
    intros [[->|[(b & ? & ? & ?)|Hv]] Hs]; [destruct Hs as (b & ? & ?); congruence|congruence|done].
  - rewrite elem_of_app, IH1, IH2, via_cons. split.
    + intros [[Hv Hs]|[Hv Hs]]; (split; [|done]); [right; left; by exists b|tauto].
    + intros [[->|[(b' & ? & ? & ?)|Hv]] Hs]; [destruct Hs as (b' & ? & ?); congruence|simplify_eq; by left|by right].
  - rewrite elem_of_cons, IH, via_cons. split.
    + intros [->|[Hv Hs]]; [split; [by left|by exists b]|tauto].
    + intros [[->|[(b' & ? & ? & ?)|Hv]] Hs]; [by left|congruence|by right].
Qed.

Section flat_tree.
Context (V : Blocks) (root : string) (Hwf : wf V [root]).
Abbreviation rch := (reachable V [root]).

Lemma via_parent p b c :
  rch p → V !! p = Some b → via V (b_ChildrenIds b) c →
  rch c ∧ ∃ q bq, rch q ∧ V !! q = Some bq ∧ c ∈ b_ChildrenIds bq ∧ (q = p ∨ via V (b_ChildrenIds b) q ∧ isDivLayout bq = true).
Proof.
  intros Hp Hb. induction 1 as [c Hc|d bd c Hv [IH _] Hd Hdiv Hc].
  - split; [by eapply reachable_child|]. exists p, b. split_and!; try done. by left.
  - split; [by eapply reachable_child|]. exists d, bd. split_and!; try done. by right.
Qed.

Lemma via_not_root p b : rch p → V !! p = Some b → ¬ via V (b_ChildrenIds b) root.
Proof.
  intros Hp Hb Hv. destruct (via_parent p b root Hp Hb Hv) as (_ & q & bq & Hq & Hbq & Hin & _).
  by apply (wf_root _ _ Hwf q bq root Hq Hbq); [left|].
Qed.

(** Blocks that are shown themselves: the root, and what is not a div. *)
Definition shown (p : string) : Prop := p = root ∨ ∃ b, V !! p = Some b ∧ isDivLayout b = false.

Lemma via_owner p1 b1 p2 b2 c :
  rch p1 → rch p2 → shown p1 → shown p2 → V !! p1 = Some b1 → V !! p2 = Some b2 →
  via V (b_ChildrenIds b1) c → via V (b_ChildrenIds b2) c → p1 = p2.
Proof.
  intros H1 H2 S1 S2 Hb1 Hb2 Hv1. induction Hv1 as [c Hc|d bd c Hv1 IH Hd Hdiv Hc]; intros Hv2.
  - destruct (via_parent p2 b2 c H2 Hb2 Hv2) as (_ & q & bq & Hq & Hbq & Hin & Hor).
    assert (q = p1) as -> by (by eapply (wf_uniq _ _ Hwf q bq p1 b1 c)). destruct Hor as [->|[Hvq Hdq]]; [done|].
    destruct S1 as [->|(b' & ? & ?)]; [by destruct (via_not_root p2 b2)|congruence].
  - assert (rch d) as Hrd by (by destruct (via_parent p1 b1 d H1 Hb1 Hv1)).
    destruct (via_parent p2 b2 c H2 Hb2 Hv2) as (_ & q & bq & Hq & Hbq & Hin & Hor).
    assert (q = d) as -> by (by eapply (wf_uniq _ _ Hwf q bq d bd c)). destruct Hor as [->|[Hvq Hdq]]; [|by apply IH].
    destruct S2 as [->|(b' & ? & ?)]; [by destruct (via_not_root p1 b1)|congruence].
Qed.

Lemma via_reach ids c : via V ids c → ∃ c0, c0 ∈ ids ∧ reach V c0 c.
Proof.
  induction 1 as [c Hc|d b c _ (c0 & Hc0 & Hr) Hd _ Hc]; [exists c; split; [done|constructor]|].
  exists c0. split; [done|]. by eapply reach_child.
Qed.

Lemma flat_NoDup ids l :
  flat V ids l → (∀ c, c ∈ ids → rch c) → NoDup ids →
  (∀ c1 c2 x, c1 ∈ ids → c2 ∈ ids → c1 ≠ c2 → reach V c1 x → ¬ reach V c2 x) → NoDup l.
Proof.
  induction 1 as [|x ids l Hx _ IH|x b ids l1 l2 Hx Hd Hf1 IH1 Hf2 IH2|x b ids l Hx Hd Hf IH]; intros Hr Hnd Hdis;
    [constructor|apply NoDup_cons in Hnd as [Hn Hnd]..].
  - apply IH; [intros; apply Hr; by right|done|intros c1 c2 y ? ?; apply Hdis; by right].
  - assert (rch x) as Hrx by (apply Hr; by left).
    apply NoDup_app. split_and!.
    + apply IH1; [intros; by eapply reachable_child|by eapply (wf_nodup _ _ Hwf x)|].
      destruct Hrx as (r & ->%list_elem_of_singleton & Hrx). destruct (reach_chain _ _ _ Hrx) as [path Hch].
      intros c1 c2 y. by apply (siblings_disjoint V [root] Hwf root ltac:(by left) path x b).
    + intros c [Hv1 _]%(flat_via _ _ _ _ Hf1) [Hv2 _]%(flat_via _ _ _ _ Hf2).
      apply via_reach in Hv1 as (c1 & Hc1 & Hr1). apply via_reach in Hv2 as (c2 & Hc2 & Hr2).
      apply (Hdis x c2 c); [by left|by right|congruence| |done]. eapply reach_trans; [by eapply reach_step|done].
    + apply IH2; [intros; apply Hr; by right|done|intros c1 c2 y ? ?; apply Hdis; by right].
  - constructor.
    + intros [Hv _]%(flat_via _ _ _ _ Hf). apply via_reach in Hv as (c2 & Hc2 & Hr2).
      apply (Hdis x c2 x); [by left|by right|congruence|constructor|done].
    + apply IH; [intros; apply Hr; by right|done|intros c1 c2 y ? ?; apply Hdis; by right].
Qed.

Context (V' : Blocks).
Context (Hflat : ∀ p b, reach V root p → V !! p = Some b →
  ∃ l, flat V (b_ChildrenIds b) l ∧ V' !! p = Some (with_children b l)).
Context (Hkeep : ∀ p, ¬ reach V root p → V' !! p = V !! p) (Hnone : ∀ p, V !! p = None → V' !! p = None).

Lemma rch_reach p : rch p ↔ reach V root p.
Proof. split; [by intros (r & ->%list_elem_of_singleton & ?)|]. intros. exists root. split; [by left|done]. Qed.

Lemma flat_child p b' c :
  reach V root p → V' !! p = Some b' → c ∈ b_ChildrenIds b' →
  ∃ b, V !! p = Some b ∧ via V (b_ChildrenIds b) c ∧ ∃ bc, V !! c = Some bc ∧ isDivLayout bc = false.
Proof.
  intros Hp Hb' Hc. destruct (V !! p) as [b|] eqn:Eb; [|by rewrite Hnone in Hb'].
  destruct (Hflat p b Hp Eb) as (l & Hfl & Hl). simplify_eq. simpl in Hc. exists b. split; [done|]. by eapply flat_via.
Qed.

Lemma flat_reach_sound x : reach V' root x → reach V root x ∧ shown x.
Proof.
  induction 1 as [|p b' c _ [IH _] Hb Hc]; [split; [constructor|by left]|].
  destruct (flat_child p b' c IH Hb Hc) as (b & Hb0 & Hv & Hs). split; [|by right].
  apply rch_reach. by destruct (via_parent p b c (proj2 (rch_reach p) IH) Hb0 Hv).
Qed.

Lemma flat_reach_complete x : reach V root x → shown x → reach V' root x.
Proof.
  intros Hx Hs. enough (x = root ∨ ∃ q bq, reach V' root q ∧ reach V root q ∧ V !! q = Some bq ∧ via V (b_ChildrenIds bq) x) as Hq.
  { destruct Hq as [->|(q & bq & Hr' & Hr & Hbq & Hv)]; [constructor|].
    destruct Hs as [->|Hs]; [constructor|]. destruct (Hflat q bq Hr Hbq) as (l & Hfl & Hl).
    eapply reach_child; [done|exact Hl|]. by apply (flat_via _ _ _ _ Hfl). }
  clear Hs. induction Hx as [|p b c Hp IH Hb Hc]; [by left|]. right.
  destruct (decide (p = root)) as [->|Hne].
  { exists root, b. split_and!; [constructor|constructor|done|by apply via_here]. }
  destruct IH as [->|(q & bq & Hr' & Hr & Hbq & Hv)]; [done|].
  destruct (isDivLayout b) eqn:Ed; [exists q, bq; split_and!; try done; by eapply via_div|].
  destruct (Hflat q bq Hr Hbq) as (l & Hfl & Hl). exists p, b. split_and!; [|done|done|by apply via_here].
  eapply reach_child; [done|exact Hl|]. apply (flat_via _ _ _ _ Hfl). split; [done|]. by exists b.
Qed.

Lemma flat_wf : wf V' [root].
Proof.
  assert (∀ p, reachable V' [root] p → reach V root p ∧ shown p) as Hr.
  { intros p (r & ->%list_elem_of_singleton & Hr). by apply flat_reach_sound. }
  split.
  - intros id b Hb. destruct (V !! id) as [b0|] eqn:E0; [|by rewrite Hnone in Hb].
    pose proof (wf_keys _ _ Hwf id b0 E0) as Hk. destruct (decide (b = b0)) as [->|Hne]; [done|].
    destruct (decide (b_Id b = id)) as [|Hid]; [done|]. exfalso. apply Hne.
    assert (¬ reach V root id) as Hn; [|rewrite (Hkeep id Hn) in Hb; congruence].
    intros Hre. destruct (Hflat id b0 Hre E0) as (l & _ & Hl). by simplify_eq.
  - apply NoDup_singleton.
  - intros p1 b1 p2 b2 c [H1 S1]%Hr [H2 S2]%Hr Hb1 Hb2 Hc1 Hc2.
    destruct (flat_child p1 b1 c H1 Hb1 Hc1) as (b1' & H1' & Hv1 & _), (flat_child p2 b2 c H2 Hb2 Hc2) as (b2' & H2' & Hv2 & _).
    eapply (via_owner p1 b1' p2 b2' c); try done; by apply rch_reach.
  - intros p b [Hp _]%Hr Hb. destruct (V !! p) as [b0|] eqn:E0; [|by rewrite Hnone in Hb].
    destruct (Hflat p b0 Hp E0) as (l & Hfl & Hl). simplify_eq. cbn [b_ChildrenIds with_children].
    destruct (reach_chain _ _ _ Hp) as [path Hch]. apply rch_reach in Hp.
    eapply flat_NoDup; [done|intros; by eapply reachable_child|by eapply (wf_nodup _ _ Hwf p)|].
    intros c1 c2 y. by apply (siblings_disjoint V [root] Hwf root ltac:(by left) path p b0).
  - intros p b r [Hp _]%Hr Hb ->%list_elem_of_singleton Hin.
    destruct (flat_child p b root Hp Hb Hin) as (b0 & H0 & Hv & _). apply rch_reach in Hp. by apply (via_not_root p b0).
Qed.
End flat_tree.

(** C10. [CleanupLayouts] on a well-formed document ends and flattens it: every
    reachable block gets exactly the children a reader sees, in order (divs replaced
    by what they hold, missing children skipped), the rest of the state is not
    touched, the blocks reachable afterwards are the root and the old ones that are
    not divs, and the tree is still well-formed. *)
Theorem CleanupLayouts_correct s :
  wf (view s) [st_rootId s] →
  ∃ n s', CleanupLayouts s = Some (n, s') ∧ same_below s s' ∧ wf (view s') [st_rootId s] ∧
    (∀ p b, reach (view s) (st_rootId s) p → view s !! p = Some b →
       ∃ l, flat (view s) (b_ChildrenIds b) l ∧ view s' !! p = Some (with_children b l)) ∧
    (∀ p, ¬ reach (view s) (st_rootId s) p → view s' !! p = view s !! p) ∧
    (∀ x, reach (view s') (st_rootId s) x ↔
       reach (view s) (st_rootId s) x ∧ (x = st_rootId s ∨ ∃ b, view s !! x = Some b ∧ isDivLayout b = false)).
Proof.
  intros Hwf. destruct (cleanup_spec (view s) (st_rootId s) Hwf (iter_fuel s) [] (st_rootId s) (s, 0))
    as (l & s' & n & E & ((HB & _) & HK & HN & HF) & _).
  - constructor.
  - unfold iter_fuel. simpl. lia.
  - by intros x _.
  - exists n, s'. unfold CleanupLayouts. rewrite E. cbn [fst] in *.
    assert (∀ x, below (view s) [st_rootId s] x ↔ reach (view s) (st_rootId s) x) as Hbl.
    { intros x. unfold below. split; [by intros (c & ->%list_elem_of_singleton & ?)|]. intros. eexists. split; [by left|done]. }
    assert (∀ p, ¬ reach (view s) (st_rootId s) p → view s' !! p = view s !! p) as Hkeep.
    { intros p Hp. apply HK. by rewrite Hbl. }
    assert (∀ p, view s !! p = None → view s' !! p = None) as Hnone.
    { intros p Hp. destruct (view s' !! p) as [b|] eqn:Ep; [exfalso|done].
      assert (¬ reach (view s) (st_rootId s) p) as Hn; [|rewrite (Hkeep p Hn) in Ep; congruence].
      intros Hr%Hbl. rewrite (HN p Hr Hp) in Ep. congruence. }
    assert (∀ p b, reach (view s) (st_rootId s) p → view s !! p = Some b →
      ∃ l, flat (view s) (b_ChildrenIds b) l ∧ view s' !! p = Some (with_children b l)) as Hflat.
    { intros p b Hp. apply HF. by apply Hbl. }
    split_and!; [done|done|by eapply flat_wf|done|done|]. intros x. split.
    + by eapply flat_reach_sound.
    + intros [Hr Hs]. by eapply flat_reach_complete.
Qed.

(** ** Children that exist *)

Definition existing (s : State) (ids : list string) : list string := filter (λ c, Exists s c = true) ids.

Lemma Exists_spec s id : Exists s id = true ↔ is_Some (view s !! id).
Proof. unfold Exists. by rewrite bool_decide_eq_true, Pick_view. Qed.

Lemma existing_RemoveMut s ids c : Exists s c = false → existing s (RemoveMut ids c) = existing s ids.
Proof.
  intros Hc. rewrite RemoveMut_spec. unfold existing. rewrite list_filter_filter. apply filter_ext_elem.
  intros x _. split; [tauto|]. intros Hx. split; [done|]. intros ->. congruence.
Qed.

Lemma normalizeChildren_loop_spec fuel s id b :
  st_blocks s !! id = Some b → b_Id b = id → (length (b_ChildrenIds b) < fuel)%nat →
  ∃ s', normalizeChildren_loop fuel s id = Some s' ∧ same_below s s' ∧
    st_blocks s' = <[id:=with_children b (existing s (b_ChildrenIds b))]> (st_blocks s).
Proof.
  revert s b. induction fuel as [|fuel IH]; intros s b Hb Hid Hf; [lia|]. cbn [normalizeChildren_loop]. rewrite Hb.
  destruct (filter (λ c, Exists s c = false) (b_ChildrenIds b)) as [|c l] eqn:El.
  - exists s. split_and!; [done|apply same_below_refl|]. unfold existing. rewrite filter_all.
    + rewrite insert_id; [done|]. rewrite Hb. by destruct b.
    + intros c Hc. apply not_false_iff_true. intros Hn.
      assert (c ∈ filter (λ c, Exists s c = false) (b_ChildrenIds b)) as Hin by (by apply list_elem_of_filter).
      rewrite El in Hin. by apply elem_of_nil in Hin.
  - assert (Exists s c = false ∧ c ∈ b_ChildrenIds b) as [Hc Hin].
    { apply (list_elem_of_filter (λ c, Exists s c = false)). rewrite El. by left. }
    unfold removeChildren. rewrite Hid.
    destruct (setChildrenIds_view s id b (RemoveMut (b_ChildrenIds b) c) Hb) as (Hv & Hs & Ht).
    destruct (IH (setChildrenIds s id (RemoveMut (b_ChildrenIds b) c)) (with_children b (RemoveMut (b_ChildrenIds b) c)))
      as (s' & E & Hs' & Ht').
    + by rewrite Ht, lookup_insert_eq.
    + done.
    + cbn [b_ChildrenIds with_children]. rewrite RemoveMut_spec.
      pose proof (length_filter_lt (λ x, x ≠ c) (b_ChildrenIds b) c Hin ltac:(tauto)). lia.
    + assert (∀ l, existing (setChildrenIds s id (RemoveMut (b_ChildrenIds b) c)) l = existing s l) as Hex.
      { intros l'. unfold existing. apply filter_ext_elem. intros x _. rewrite !Exists_spec, Hv.
        destruct (decide (x = id)) as [->|]; [|by rewrite lookup_insert_ne].
        rewrite lookup_insert_eq, <- Pick_view. unfold Pick. simpl. rewrite Hb. split; intros _; by eexists. }
      exists s'. rewrite E, Ht', Ht, insert_insert_eq, Hex. cbn [b_ChildrenIds with_children].
      rewrite existing_RemoveMut by done. split_and!; [done|by eapply same_below_trans|done].
Qed.

(** The blocks of the top layer with their existing children. *)
Definition prune (s : State) (b : Block) : Block := with_children b (existing s (b_ChildrenIds b)).

Lemma same_dom_existing s s' l :
  (∀ x, is_Some (view s' !! x) ↔ is_Some (view s !! x)) → existing s' l = existing s l.
Proof. intros Hd. unfold existing. apply filter_ext_elem. intros x _. by rewrite !Exists_spec, Hd. Qed.

Lemma normalizeChildren_spec s id b :
  st_blocks s !! id = Some b → b_Id b = id →
  ∃ s', normalizeChildren s id = Some s' ∧ same_below s s' ∧ st_blocks s' = <[id:=prune s b]> (st_blocks s).
Proof.
  intros Hb Hid. unfold normalizeChildren. rewrite Hb. apply normalizeChildren_loop_spec; [done|done|lia].
Qed.

(** "remove invalid children": the first loop of [normalize]. *)
Definition normalizeAllChildren (order : list string) (s : State) : option State := range_blocks normalizeChildren order s.

Lemma normalizeAll_spec order s :
  (∀ id b, st_blocks s !! id = Some b → b_Id b = id) → NoDup order →
  ∃ s', normalizeAllChildren order s = Some s' ∧ same_below s s' ∧
    (∀ id, id ∉ order → st_blocks s' !! id = st_blocks s !! id) ∧
    (∀ id, id ∈ order → st_blocks s' !! id = prune s <$> st_blocks s !! id).
Proof.
  unfold normalizeAllChildren, range_blocks. revert s. induction order as [|x order IH]; intros s Hk Hnd.
  { exists s. split_and!; [done|apply same_below_refl|done|by intros ? ?%elem_of_nil]. }
  apply NoDup_cons in Hnd as [Hx Hnd]. cbn [foldl]. unfold InState at 2.
  destruct (st_blocks s !! x) as [b|] eqn:Eb.
  - rewrite bool_decide_eq_true_2 by done. destruct (normalizeChildren_spec s x b Eb (Hk x b Eb)) as (s1 & -> & B1 & T1).
    assert (∀ y, is_Some (view s1 !! y) ↔ is_Some (view s !! y)) as Hdom.
    { intros y. rewrite <- !Pick_view. unfold Pick. destruct B1 as [_ ->]. simpl. rewrite T1.
      destruct (decide (y = x)) as [->|]; [rewrite lookup_insert_eq, Eb; split; intros _; by eexists|].
      by rewrite lookup_insert_ne. }
    destruct (IH s1) as (s' & E & B & K & P).
    + intros id b'. rewrite T1. destruct (decide (id = x)) as [->|]; [rewrite lookup_insert_eq|rewrite lookup_insert_ne by done; apply Hk].
      intros [= <-]. exact (Hk x b Eb).
    + done.
    + exists s'. rewrite E. split_and!; [done|by eapply same_below_trans| |].
      * intros id [? ?]%not_elem_of_cons. rewrite K, T1 by done. by rewrite lookup_insert_ne.
      * intros id [->|Hin]%elem_of_cons; [rewrite K, T1, lookup_insert_eq, Eb by done; done|].
        rewrite P by done. rewrite T1, lookup_insert_ne by congruence. destruct (st_blocks s !! id) as [b'|]; [|done].
        simpl. unfold prune. by rewrite (same_dom_existing s s1).
  - rewrite bool_decide_eq_false_2 by (by intros []). destruct (IH s Hk Hnd) as (s' & E & B & K & P). exists s'.
    split_and!; [done|done| |].
    + intros id [? ?]%not_elem_of_cons. by apply K.
    + intros id [->|Hin]%elem_of_cons; [by rewrite K, Eb|by apply P].
Qed.

(** ** Rows and columns *)

Definition removeEmptyLayout (s : State) (id : string) : option State :=
  match st_blocks s !! id with
  | Some b =>
      match b_Content b with
      | CLayout (LRow | LColumn | LDiv) =>
          let s := if bool_decide (b_ChildrenIds b = []) then (Unlink s (b_Id b)).2 else s in
          Some (GetParentOf s (b_Id b)).2
      | _ => Some s
      end
  | None => Some s
  end.

Definition removeEmptyLayoutBlocks (order : list string) (s : State) : option State :=
  range_blocks removeEmptyLayout order s.

(** The reset of the widths of the columns; a missing child is dereferenced. *)
Definition reset_width (s : State) (chId : string) : option State :=
  match Get s chId with
  | (None, _) => None
  | (Some b, s) =>
      match b_Fields b !! "width" with
      | None => Some s
      | Some _ =>
          Some (with_blocks s (<[chId:={| b_Id := b_Id b; b_ChildrenIds := b_ChildrenIds b; b_Content := b_Content b;
                                         b_Fields := <["width":=FNumber 0]> (b_Fields b); b_BackgroundColor := b_BackgroundColor b |}]> (st_blocks s)))
      end
  end.

Section layouts.
Context (md5hex : string → string).

(** The block is one of the top layer. *)
Definition normalizeLayoutRow (s : State) (id : string) : option State :=
  match st_blocks s !! id with
  | None => Some s
  | Some b =>
      if negb (is_row b) then Some s
      else
        match b_ChildrenIds b with
        | [] => Some (Unlink s (b_Id b)).2
        | [chId] =>
            match Get s chId with
            | (None, _) => None
            | (Some column, s) =>
                let removeColumn := bool_decide (b_Content column = CLayout LColumn) in
                let contentIds := if removeColumn then b_ChildrenIds column else [b_Id column] in
                match InsertTo md5hex s (b_Id b) PReplace contentIds with
                | None => None
                | Some (_, s) =>
                    let s := if removeColumn then (Unlink s (b_Id column)).2 else s in
                    Some (Unlink s (b_Id b)).2
                end
            end
        | ids =>
            match PickOrigin s (b_Id b) with
            | Some orig =>
                if negb (length (b_ChildrenIds orig) =? length ids)%nat
                then foldl (λ s chId, match s with None => None | Some s => reset_width s chId end) (Some s) ids
                else Some s
            | None => Some s
            end
        end
  end.

Definition normalizeLayout (order1 order2 : list string) (s : State) : option State :=
  match removeEmptyLayoutBlocks order1 s with
  | None => None
  | Some s => range_blocks normalizeLayoutRow order2 s
  end.
End layouts.

(** ** Divs

    [newDiv] takes its id from a generator; the counter is threaded. *)

Definition maxChildrenThreshold : Z := 40.

Section divs.
Context (md5hex : string → string) (NewObjectId : nat → string).

(** The state and the number of ids taken from the generator. *)
Abbreviation genstate := (State * nat)%type.

Definition newDiv (n : nat) : Block := layout_block ("div-" +:+ NewObjectId n) [] LDiv.

Definition pickNextDiv (s : State) (id : string) : option (option Block) :=
  match PickParentOf s id with
  | None => Some None
  | Some pm =>
      let pos := FindPos (b_ChildrenIds pm) id in
      if negb (pos =? -1) && (pos <? Z.of_nat (length (b_ChildrenIds pm)) - 1) then
        match b_ChildrenIds pm !! Z.to_nat (pos + 1) with
        | None => Some None
        | Some next => match Pick s next with
                       | None => None
                       | Some b => Some (if isDivLayout b then Some b else None)
                       end
        end
      else Some None
  end.

(** [None]: the block after the div is missing, a panic. *)
Definition getNextDiv (s : State) (id : string) : option (option Block * State) :=
  match pickNextDiv s id with
  | None => None
  | Some (Some b) => Some (Get s (b_Id b))
  | Some None => Some (None, s)
  end.

(** [d1] and [d2] are blocks of the top layer. *)
Definition divBalance (s : State) (d1 d2 : string) : bool * State :=
  match st_blocks s !! d1, st_blocks s !! d2 with
  | Some b1, Some b2 =>
      let all := b_ChildrenIds b1 ++ b_ChildrenIds b2 in
      let sum := Z.of_nat (length all) in
      let div := if sum >? maxChildrenThreshold * 2 then maxChildrenThreshold / 2 else sum / 2 in
      let s := setChildrenIds s d2 (drop (Z.to_nat div) all) in
      let s := setChildrenIds s d1 (take (Z.to_nat div) all) in
      (Z.of_nat (length (drop (Z.to_nat div) all)) >? maxChildrenThreshold, s)
  | _, _ => (false, s)
  end.

(** The next div of [parent] in the top layer, a new one when there is none or it
    is longer than [parent]; whether one was created. *)
Definition nextDivFor (s : genstate) (parent : string) (len : nat) : option (string * bool * genstate) :=
  match getNextDiv s.1 parent with
  | None => None
  | Some (next, s1) =>
      let overflow := maxChildrenThreshold - Z.of_nat len in
      match next with
      | Some d => if Z.of_nat (length (b_ChildrenIds d)) + overflow >? maxChildrenThreshold
                  then let d := newDiv s.2 in
                       match InsertTo md5hex (Add s1 d).2 parent PBottom [b_Id d] with
                       | None => None
                       | Some (_, s1) => Some (b_Id d, true, (s1, S s.2))
                       end
                  else Some (b_Id d, false, (s1, s.2))
      | None => let d := newDiv s.2 in
                match InsertTo md5hex (Add s1 d).2 parent PBottom [b_Id d] with
                | None => None
                | Some (_, s1) => Some (b_Id d, true, (s1, S s.2))
                end
      end
  end.

Definition children_len (s : State) (id : string) : nat :=
  match st_blocks s !! id with Some b => length (b_ChildrenIds b) | None => O end.

(** [for s.divBalance(parent, nextDiv)]; the last parent and whether divs were
    created. *)
Fixpoint balance_loop (fuel : nat) (s : genstate) (parent nextDiv : string) (changes : bool)
    : option (string * bool * genstate) :=
  match fuel with
  | O => None
  | S fuel =>
      let '(over, s1) := divBalance s.1 parent nextDiv in
      if over then
        match nextDivFor (s1, s.2) nextDiv (children_len s1 nextDiv) with
        | None => None
        | Some (next, created, s) => balance_loop fuel s nextDiv next (changes || created)
        end
      else Some (parent, changes, (s1, s.2))
  end.

(** Every round moves at most [maxChildrenThreshold] children on. *)
Definition balance_fuel (s : State) : nat := S (sum_list_with (λ kb, length (b_ChildrenIds kb.2)) (map_to_list (view s))).

Definition wrapChildrenToDiv (s : genstate) (id : string) : option (string * genstate) :=
  match Get s.1 id with
  | (None, _) => None
  | (Some parent, s1) =>
      if isDivLayout parent then
        match nextDivFor (s1, s.2) (b_Id parent) (length (b_ChildrenIds parent)) with
        | None => None
        | Some (nextDiv, created, s2) =>
            match balance_loop (balance_fuel s2.1) s2 (b_Id parent) nextDiv created with
            | None => None
            | Some (last, changes, s3) =>
                if changes
                then match PickParentOf s3.1 last with None => None | Some p => Some (b_Id p, s3) end
                else Some ("", s3)
            end
        end
      else
        let div := with_children (newDiv s.2) (b_ChildrenIds parent) in
        let s2 := (Add s1 div).2 in
        Some (b_Id parent, (setChildrenIds s2 (b_Id parent) [b_Id div], S s.2))
  end.

(** [parent.ChildrenIds] is read after [wrapChildrenToDiv] through the block picked
    before it. *)
Fixpoint normalizeTreeBranch (fuel : nat) (s : genstate) (id : string) : option genstate :=
  match fuel with
  | O => None
  | S fuel =>
      match Pick s.1 id with
      | None => Some s
      | Some parentB =>
          match b_Content parentB with
          | CLayout (LTableRows | LTableColumns) | CTableRow _ => Some s
          | _ =>
              let branches (s : genstate) (ids : list string) : option genstate :=
                foldl (λ s chId, match s with None => None | Some s => normalizeTreeBranch fuel s chId end) (Some s) ids in
              if Z.of_nat (length (b_ChildrenIds parentB)) >? maxChildrenThreshold then
                match wrapChildrenToDiv s id with
                | None => None
                | Some (nextId, s2) =>
                    if negb (bool_decide (nextId = "")) then normalizeTreeBranch fuel s2 nextId
                    else branches s2 (loop_children s.1 s2.1 id parentB)
                end
              else branches s (b_ChildrenIds parentB)
          end
      end
  end.

Definition headerId : string := "header".

(** A missing root is dereferenced when there is a header: a panic. *)
Definition normalizeTree (fuel : nat) (s : genstate) : option genstate :=
  match normalizeTreeBranch fuel s (st_rootId s.1) with
  | None => None
  | Some (s, n) =>
      match Pick s headerId with
      | None => Some (s, n)
      | Some _ =>
          match Pick s (st_rootId s) with
          | None => None
          | Some rootB =>
              if FindPos (b_ChildrenIds rootB) headerId =? 0 then Some (s, n)
              else
                match Get (Unlink s headerId).2 (st_rootId s) with
                | (None, _) => None
                | (Some root, s) => Some (setChildrenIds s (b_Id root) (headerId :: b_ChildrenIds root), n)
                end
          end
      end
  end.
End divs.

(** ** The whole normalisation *)

(** [isBlockEmpty] asserts the type of the content: [None] is the panic on a root
    with another content. *)
Definition isBlockEmpty (b : Block) : option bool :=
  match b_Content b with
  | CNone | CSmartblockNil => Some true
  | CSmartblock => Some false
  | _ => None
  end.

Definition normalizeSmartBlock (s : State) (b : Block) : option State :=
  match isBlockEmpty b with
  | None => None
  | Some false => Some s
  | Some true =>
      Some (with_blocks s (<[b_Id b:={| b_Id := b_Id b; b_ChildrenIds := b_ChildrenIds b; b_Content := CSmartblock;
                                       b_Fields := b_Fields b; b_BackgroundColor := b_BackgroundColor b |}]> (st_blocks s)))
  end.

Section normalize.
Context (md5hex : string → string) (NewObjectId : nat → string).
(** Blocks with a normalisation of their own ([Normalizable]): [None] for the
    others. *)
Context (Normalizable : Block → option (State → option (res State))).

(** The orders in which the five loops see the map, the first id of the generator,
    the fuel for the descent. *)
Record schedule := {
  sc_children : list string; sc_custom : list string; sc_empty : list string; sc_rows : list string;
  sc_nextId : nat; sc_fuel : nat;
}.

Definition normalizeSize (s : State) : option (res State) :=
  match Iterate s (λ (u : unit) _, (u, true)) tt with
  | None => None
  | Some (_, _, Some err) => Some (Err err)
  | Some (_, _, None) => Some (Ok s)
  end.

Fixpoint doCustomBlockNormalizations (order : list string) (s : State) : option (res State) :=
  match order with
  | [] => Some (Ok s)
  | id :: order =>
      match st_blocks s !! id with
      | None => doCustomBlockNormalizations order s
      | Some b =>
          let r := match Normalizable b with Some n => n s | None => Some (Ok s) end in
          match r with
          | None => None
          | Some (Err e) => Some (Err ("failed to do custom normalization for block " +:+ b_Id b +:+ ": " +:+ e))
          | Some (Ok s) =>
              match (if bool_decide (b_Id b = st_rootId s)
                     then match st_blocks s !! id with Some b => normalizeSmartBlock s b | None => Some s end
                     else Some s) with
              | None => None
              | Some s => doCustomBlockNormalizations order s
              end
          end
      end
  end.

Definition normalize (sc : schedule) (withLayouts : bool) (s : State) : option (res State) :=
  match normalizeSize s with
  | None => None
  | Some (Err e) => Some (Err e)
  | Some (Ok s) =>
      match normalizeAllChildren (sc_children sc) s with
      | None => None
      | Some s =>
          match doCustomBlockNormalizations (sc_custom sc) s with
          | None => None
          | Some (Err e) => Some (Err e)
          | Some (Ok s) =>
              match normalizeLayout md5hex (sc_empty sc) (sc_rows sc) s with
              | None => None
              | Some s =>
                  if withLayouts then
                    match normalizeTree md5hex NewObjectId (sc_fuel sc) (s, sc_nextId sc) with
                    | None => None
                    | Some (s, _) => Some (Ok s)
                    end
                  else Some (Ok s)
              end
          end
      end
  end.
End normalize.

(** ** Examples *)

Module NormalizeInst.
Import TreeInst.

Definition acyclic_b (s : State) : bool :=
  match Iterate s (λ (u : unit) _, (u, true)) tt with Some (_, _, None) => true | _ => false end.

Lemma acyclic_b_spec s : acyclic_b s = true → acyclic s.
Proof.
  unfold acyclic_b. destruct (Iterate_walk s) as (l & cyc & E & HI). rewrite HI.
  assert (∀ acc, fold_stop (λ (u : unit) (_ : Block), (u, true)) acc l = (acc, true)) as Hf.
  { clear. induction l as [|b l IH]; intros acc; [done|]. apply IH. }
  rewrite Hf. destruct cyc; cbn [finish]; [done|]. intros _ path id. by eapply walk_false_chain.
Qed.

(** "c" is listed by "a" and "b", "d" twice by "b". *)
Definition shared : State :=
  NewState (NewDoc "root" (list_to_map [("root", root_block); ("a", text "a" ["c"]); ("b", text "b" ["d"; "c"; "d"]);
                                        ("c", text "c" []); ("d", text "d" [])])).

Lemma removeDuplicates_correct_witness :
  ∃ s', removeDuplicates shared = Some s' ∧ view s' !! "b" = Some (text "b" ["d"]) ∧ wf (view s') [st_rootId s'].
Proof.
  destruct (removeDuplicates_correct shared) as (s' & E & _ & Hwf & _).
  - apply (bool_decide_eq_true (map_Forall (λ id b, b_Id b = id) (view shared))). vm_compute. reflexivity.
  - apply acyclic_b_spec. vm_compute. reflexivity.
  - exists s'. split; [exact E|]. split; [|exact Hwf]. vm_compute in E. injection E as <-. vm_compute. reflexivity.
Defined.

Definition divs : State :=
  NewState (NewDoc "root" (list_to_map
    [("root", root_block); ("a", layout_block "a" ["c"; "e"] LDiv); ("b", layout_block "b" ["d"] LDiv);
     ("c", layout_block "c" ["f"; "missing"] LDiv); ("d", text "d" []); ("e", text "e" []); ("f", text "f" [])])).

Lemma CleanupLayouts_correct_witness :
  ∃ n s', CleanupLayouts divs = Some (n, s') ∧ n = 3 ∧ b_ChildrenIds <$> view s' !! "root" = Some ["f"; "e"; "d"] ∧
    wf (view s') ["root"].
Proof.
  destruct (CleanupLayouts_correct divs) as (n & s' & E & _ & Hwf & _).
  - apply wf_b_spec. vm_compute. reflexivity.
  - exists n, s'. split; [exact E|]. vm_compute in E. injection E as <- <-. split; [reflexivity|].
    split; [vm_compute; reflexivity|exact Hwf].
Defined.

(** "a" is listed below itself, and later "b" lists "c" twice. *)
Definition cyclic : State :=
  NewDoc "root" (list_to_map [("root", root_block); ("a", text "a" ["e"]); ("e", text "e" ["a"]); ("b", text "b" ["c"; "c"]);
                              ("c", text "c" [])]).

(** A cycle is repaired in a document of one layer, and the walk goes on behind
    it; in a state over that document the walk still follows the removed edge,
    stops with the error that is ignored, and the duplicates behind the cycle stay. *)
Theorem removeDuplicates_stops_at_cycle :
  (b_ChildrenIds <$> (removeDuplicates cyclic ≫= λ s, Pick s "b")) = Some ["c"] ∧
  (b_ChildrenIds <$> (removeDuplicates (NewState cyclic) ≫= λ s, Pick s "b")) = Some ["c"; "c"].
Proof. vm_compute. split; reflexivity. Qed.
End NormalizeInst.
