(* ===== verification/StateDetails.v ===== *)
(** * The details of a state ([core/block/editor/state/details.go])

    Like its blocks, the details, local details, relation links and object types of
    a state are layers: a nil value means "as in the parent".  Setters copy the
    inherited value into the top layer before they change it, and keep the keys of
    local and derived relations ([bundle.LocalAndDerivedRelationKeys], a list the
    bundle package computes when it is loaded) out of the details. *)

From S2P Require Import Prelude Slice Values PbTypes Details StateTree.

Local Open Scope Z_scope.

(** ** Layers *)

Record FileInfo := { fi_FileId : string; fi_EncryptionKeys : gmap string string }.

(** What a state holds besides its blocks. *)
Record Layer := {
  ly_details : Details;
  ly_localDetails : Details;
  ly_relationLinks : option (list RelationLink);
  ly_objectTypeKeys : option (list string);
  ly_changeId : string;
  ly_migrationVersion : Z;
  ly_uniqueKeyInternal : string;
  ly_originalCreatedTimestamp : Z;
  ly_fileInfo : FileInfo;
  ly_fileKeys : list string;
  ly_store : option (gmap string PbValue);
  ly_storeLastChangeIdByPath : option (gmap string string);
  ly_storeKeyRemoved : option (gset string);
  ly_notifications : option (gmap string Notification);
  ly_deviceStore : option (gmap string DeviceInfo);
}.

(** A state with its parents, nearest first; [dc_tree] holds the blocks of all. *)
Record Doc := { dc_tree : State; dc_top : Layer; dc_below : list Layer }.

Definition with_tree (d : Doc) (t : State) : Doc := {| dc_tree := t; dc_top := dc_top d; dc_below := dc_below d |}.
Definition with_top (d : Doc) (l : Layer) : Doc := {| dc_tree := dc_tree d; dc_top := l; dc_below := dc_below d |}.

Definition set_details (l : Layer) (d : Details) : Layer :=
  {| ly_details := d; ly_localDetails := ly_localDetails l; ly_relationLinks := ly_relationLinks l;
     ly_objectTypeKeys := ly_objectTypeKeys l; ly_changeId := ly_changeId l; ly_migrationVersion := ly_migrationVersion l;
     ly_uniqueKeyInternal := ly_uniqueKeyInternal l; ly_originalCreatedTimestamp := ly_originalCreatedTimestamp l;
     ly_fileInfo := ly_fileInfo l; ly_fileKeys := ly_fileKeys l; ly_store := ly_store l;
     ly_storeLastChangeIdByPath := ly_storeLastChangeIdByPath l; ly_storeKeyRemoved := ly_storeKeyRemoved l;
     ly_notifications := ly_notifications l; ly_deviceStore := ly_deviceStore l |}.
Definition set_localDetails (l : Layer) (d : Details) : Layer :=
  {| ly_details := ly_details l; ly_localDetails := d; ly_relationLinks := ly_relationLinks l;
     ly_objectTypeKeys := ly_objectTypeKeys l; ly_changeId := ly_changeId l; ly_migrationVersion := ly_migrationVersion l;
     ly_uniqueKeyInternal := ly_uniqueKeyInternal l; ly_originalCreatedTimestamp := ly_originalCreatedTimestamp l;
     ly_fileInfo := ly_fileInfo l; ly_fileKeys := ly_fileKeys l; ly_store := ly_store l;
     ly_storeLastChangeIdByPath := ly_storeLastChangeIdByPath l; ly_storeKeyRemoved := ly_storeKeyRemoved l;
     ly_notifications := ly_notifications l; ly_deviceStore := ly_deviceStore l |}.
Definition set_relationLinks (l : Layer) (r : option (list RelationLink)) : Layer :=
  {| ly_details := ly_details l; ly_localDetails := ly_localDetails l; ly_relationLinks := r;
     ly_objectTypeKeys := ly_objectTypeKeys l; ly_changeId := ly_changeId l; ly_migrationVersion := ly_migrationVersion l;
     ly_uniqueKeyInternal := ly_uniqueKeyInternal l; ly_originalCreatedTimestamp := ly_originalCreatedTimestamp l;
     ly_fileInfo := ly_fileInfo l; ly_fileKeys := ly_fileKeys l; ly_store := ly_store l;
     ly_storeLastChangeIdByPath := ly_storeLastChangeIdByPath l; ly_storeKeyRemoved := ly_storeKeyRemoved l;
     ly_notifications := ly_notifications l; ly_deviceStore := ly_deviceStore l |}.
Definition set_objectTypeKeys (l : Layer) (o : option (list string)) : Layer :=
  {| ly_details := ly_details l; ly_localDetails := ly_localDetails l; ly_relationLinks := ly_relationLinks l;
     ly_objectTypeKeys := o; ly_changeId := ly_changeId l; ly_migrationVersion := ly_migrationVersion l;
     ly_uniqueKeyInternal := ly_uniqueKeyInternal l; ly_originalCreatedTimestamp := ly_originalCreatedTimestamp l;
     ly_fileInfo := ly_fileInfo l; ly_fileKeys := ly_fileKeys l; ly_store := ly_store l;
     ly_storeLastChangeIdByPath := ly_storeLastChangeIdByPath l; ly_storeKeyRemoved := ly_storeKeyRemoved l;
     ly_notifications := ly_notifications l; ly_deviceStore := ly_deviceStore l |}.

(** The first value that is not nil. *)
Fixpoint inherited {A} (f : Layer → option A) (ls : list Layer) : option A :=
  match ls with
  | [] => None
  | l :: ls => match f l with Some a => Some a | None => inherited f ls end
  end.

Definition doc_Details (d : Doc) : Details := inherited ly_details (dc_top d :: dc_below d).
Definition doc_LocalDetails (d : Doc) : Details := inherited ly_localDetails (dc_top d :: dc_below d).
Definition doc_CombinedDetails (d : Doc) : Details := d_Merge (doc_Details d) (doc_LocalDetails d).
Definition doc_ObjectTypeKeys (d : Doc) : option (list string) := inherited ly_objectTypeKeys (dc_top d :: dc_below d).
Definition doc_ObjectTypeKey (d : Doc) : string := hd "" (default [] (doc_ObjectTypeKeys d)).
Definition parent_Details (d : Doc) : Details := inherited ly_details (dc_below d).
Definition parent_LocalDetails (d : Doc) : Details := inherited ly_localDetails (dc_below d).
Definition doc_SetObjectTypeKeys (d : Doc) (keys : option (list string)) : Doc :=
  with_top d (set_objectTypeKeys (dc_top d) keys).

(** [iterateKeys], [AllRelationKeys], [HasRelation]. *)
Definition iterateKeys (d : Doc) : list string :=
  d_IterateKeys (doc_Details d) ++ d_IterateKeys (doc_LocalDetails d).
Definition AllRelationKeys (d : Doc) : list string := iterateKeys d.
Definition HasRelation (d : Doc) (key : string) : bool := existsb (λ k, bool_decide (k = key)) (iterateKeys d).

(** The links of this state, copied from the parent on first use. *)
Definition getRelationLinks (d : Doc) : list RelationLink * Doc :=
  match ly_relationLinks (dc_top d), dc_below d with
  | Some links, _ => (links, d)
  | None, [] => ([], d)
  | None, below =>
      let links := rl_Copy (default [] (inherited ly_relationLinks below)) in
      (links, with_top d (set_relationLinks (dc_top d) (Some links)))
  end.

(** ** Setters *)

Section setters.
Context (LocalAndDerivedRelationKeys : list string).

Definition SetLocalDetails (d : Doc) (v : Details) : Doc := with_top d (set_localDetails (dc_top d) v).

(** The copy-on-write of [SetDetail] and [SetLocalDetail]: the value to change, or
    nothing to do. *)
Definition own_details (own inheritedD : Details) (hasParent : bool) (key : string) (value : Value) : option Details :=
  match own with
  | Some m => Some (Some (<[key:=value]> m))
  | None =>
      if hasParent && bool_decide (is_Some inheritedD) then
        let prev := d_Get inheritedD key in
        if Value_Ok prev && Equal prev value then None
        else Some (match d_Copy inheritedD with Some m => Some (<[key:=value]> m) | None => None end)
      else Some (Some {[key := value]})
  end.

Definition SetLocalDetail (d : Doc) (key : string) (value : Value) : Doc :=
  match own_details (ly_localDetails (dc_top d)) (parent_LocalDetails d) (negb (bool_decide (dc_below d = []))) key value with
  | None => d
  | Some v => SetLocalDetails d v
  end.

Definition SetDetail (d : Doc) (key : string) (value : Value) : Doc :=
  if FindPos LocalAndDerivedRelationKeys key >? -1 then SetLocalDetail d key value
  else
    match own_details (ly_details (dc_top d)) (parent_Details d) (negb (bool_decide (dc_below d = []))) key value with
    | None => d
    | Some v => with_top d (set_details (dc_top d) v)
    end.

Definition SetDetails (d : Doc) (v : Details) : Doc :=
  let local := d_CopyOnlyKeys v LocalAndDerivedRelationKeys in
  if d_Len local >? 0 then
    let d := foldl (λ d '(k, x), SetLocalDetail d k x) d (d_Iterate local) in
    with_top d (set_details (dc_top d) (d_CopyWithoutKeys v LocalAndDerivedRelationKeys))
  else with_top d (set_details (dc_top d) v).

Definition AddDetails (d : Doc) (details : Details) : Doc :=
  foldl (λ d '(k, x), SetDetail d k x) d (d_Iterate details).
Definition AddLocalDetails (d : Doc) (localDetails : Details) : Doc :=
  foldl (λ d '(k, x), SetDetail d k x) d (d_Iterate localDetails).

(** ** Removers *)

(** Deletes the keys that are there; whether there was one. *)
Definition delete_keys (det : Details) (keys : list string) : bool * Details :=
  match det with
  | None => (false, None)
  | Some m => foldl (λ acc key, match acc.2 with
                                | Some m => if d_Has (Some m) key then (true, Some (delete key m)) else acc
                                | None => acc
                                end) (false, Some m) keys
  end.

Definition RemoveLocalDetail (d : Doc) (keys : list string) : bool * Doc :=
  let '(ok, det) := delete_keys (d_Copy (doc_LocalDetails d)) keys in
  (ok, if ok then SetLocalDetails d det else d).

Definition RemoveDetail (d : Doc) (keys : list string) : bool * Doc :=
  let '(ok, det) := delete_keys (d_Copy (doc_Details d)) keys in
  let d := if ok then SetDetails d det else d in
  let '(okL, d) := RemoveLocalDetail d keys in
  (okL || ok, d).

Definition RelationKeyFeaturedRelations : string := "featuredRelations".

Definition RemoveRelation (d : Doc) (keys : list string) : Doc :=
  let '(relLinks, d) := getRelationLinks d in
  let relLinksFiltered := List.filter (λ link, negb (FindPos keys (rl_Key link) >=? 0)) relLinks in
  let d := with_top d (set_relationLinks (dc_top d) (Some relLinksFiltered)) in
  let d := (RemoveDetail d keys).2 in
  let featured := d_GetStringList (doc_Details d) RelationKeyFeaturedRelations in
  let featuredList := List.filter (λ s, FindPos keys s =? -1) featured in
  let foundInFeatured := existsb (λ s, negb (FindPos keys s =? -1)) featured in
  if foundInFeatured then SetDetail d RelationKeyFeaturedRelations (StringList featuredList) else d.
End setters.

(** ** What the setters do *)

(** The details after a key was set: equal values may be kept as they are. *)
Definition same_value (v value : Value) : Prop := v = value ∨ Equal v value = true.
Definition key_set (old new : Details) (key : string) (value : Value) : Prop :=
  (∀ k, k ≠ key → d_lookup new k = d_lookup old k) ∧ ∃ v, d_lookup new key = Some v ∧ same_value v value.

Lemma FindPos_gt (l : list string) k : (FindPos l k >? -1) = bool_decide (k ∈ l).
Proof.
  pose proof (FindPos_absent l k) as Ha. pose proof (FindPos_bounds l k) as Hb.
  rewrite Z.gtb_ltb. destruct (decide (k ∈ l)) as [Hin|Hin].
  - rewrite bool_decide_eq_true_2 by done. apply Z.ltb_lt. destruct (decide (FindPos l k = -1)); [|lia]. tauto.
  - rewrite bool_decide_eq_false_2 by done. apply Z.ltb_ge. tauto || (apply Ha in Hin; lia).
Qed.

Lemma FindPos_eqb (l : list string) k : (FindPos l k =? -1) = negb (bool_decide (k ∈ l)).
Proof.
  pose proof (FindPos_gt l k) as Hg. pose proof (FindPos_bounds l k) as Hb. rewrite <- Hg. rewrite Z.gtb_ltb. lia.
Qed.

Lemma own_details_spec own inh hasParent key value :
  let old := match own with Some _ => own | None => if hasParent : bool then inh else None end in
  match own_details own inh hasParent key value with
  | None => own = None ∧ key_set old old key value
  | Some new => is_Some new ∧ key_set old new key value
  end.
Proof.
  assert (∀ m, key_set (Some m) (Some (<[key:=value]> m)) key value) as Hins.
  { intros m. split; [intros k Hk; unfold d_lookup; simpl; by rewrite lookup_insert_ne|].
    exists value. unfold d_lookup, same_value. simpl. rewrite lookup_insert_eq. auto. }
  unfold own_details. destruct own as [m|]; [split; [by eexists|apply Hins]|]. cbv zeta.
  destruct hasParent; [|split; [by eexists|apply (Hins ∅)]]. cbn [andb].
  destruct inh as [m|]; [rewrite bool_decide_eq_true_2 by (by eexists)|
    rewrite bool_decide_eq_false_2 by (by intros []); split; [by eexists|apply (Hins ∅)]].
  destruct (Value_Ok _ && Equal _ value) eqn:E.
  - apply andb_true_iff in E as [E1 E2]. split; [done|]. split; [done|]. rewrite !d_Get_lookup in *.
    destruct (d_lookup (Some m) key) as [v|] eqn:Ev; [|done]. exists v. split; [done|]. by right.
  - rewrite d_Copy_spec. simpl. split; [by eexists|apply Hins].
Qed.

Section details_facts.
Context (Local : list string).

(** Everything but the details and the local details. *)
Definition same_rest (d d' : Doc) : Prop :=
  dc_tree d' = dc_tree d ∧ dc_below d' = dc_below d ∧ ly_relationLinks (dc_top d') = ly_relationLinks (dc_top d) ∧
  ly_objectTypeKeys (dc_top d') = ly_objectTypeKeys (dc_top d).

Lemma same_rest_refl d : same_rest d d.
Proof. by split_and!. Qed.
Lemma same_rest_trans d1 d2 d3 : same_rest d1 d2 → same_rest d2 d3 → same_rest d1 d3.
Proof. intros (?&?&?&?) (?&?&?&?). split_and!; congruence. Qed.

Lemma own_old (f : Layer → Details) (d : Doc) :
  match f (dc_top d) with
  | Some _ => f (dc_top d)
  | None => if negb (bool_decide (dc_below d = [])) then inherited f (dc_below d) else None
  end = inherited f (dc_top d :: dc_below d).
Proof. simpl. destruct (f (dc_top d)); [done|]. destruct (dc_below d); [done|]. by rewrite bool_decide_eq_false_2. Qed.

Lemma SetLocalDetail_spec d key value :
  let d' := SetLocalDetail d key value in
  same_rest d d' ∧ ly_details (dc_top d') = ly_details (dc_top d) ∧
  key_set (doc_LocalDetails d) (doc_LocalDetails d') key value.
Proof.
  unfold SetLocalDetail. pose proof (own_details_spec (ly_localDetails (dc_top d)) (parent_LocalDetails d)
    (negb (bool_decide (dc_below d = []))) key value) as H.
  unfold parent_LocalDetails in *. rewrite own_old in H. fold (doc_LocalDetails d) in H.
  destruct (own_details _ _ _ _ _) as [new|]; cbv zeta.
  - destruct H as [[m ->] H]. split_and!; [by split_and!|done|]. exact H.
  - destruct H as [_ H]. split_and!; [apply same_rest_refl|done|done].
Qed.

Lemma same_top_details d d' :
  same_rest d d' → ly_details (dc_top d') = ly_details (dc_top d) → doc_Details d' = doc_Details d.
Proof. intros (_ & Hb & _) Ht. unfold doc_Details. simpl. by rewrite Hb, Ht. Qed.

Lemma SetDetail_spec d key value :
  let d' := SetDetail Local d key value in
  same_rest d d' ∧
  (key ∈ Local → doc_Details d' = doc_Details d ∧ key_set (doc_LocalDetails d) (doc_LocalDetails d') key value) ∧
  (key ∉ Local → doc_LocalDetails d' = doc_LocalDetails d ∧ key_set (doc_Details d) (doc_Details d') key value).
Proof.
  unfold SetDetail. rewrite FindPos_gt. destruct (decide (key ∈ Local)) as [Hin|Hin].
  - rewrite bool_decide_eq_true_2 by done. destruct (SetLocalDetail_spec d key value) as (H1 & H2 & H3). cbv zeta in *.
    split_and!; [done| |done]. intros _. split; [by apply same_top_details|done].
  - rewrite bool_decide_eq_false_2 by done. pose proof (own_details_spec (ly_details (dc_top d)) (parent_Details d)
      (negb (bool_decide (dc_below d = []))) key value) as H.
    unfold parent_Details in *. rewrite own_old in H. fold (doc_Details d) in H.
    destruct (own_details _ _ _ _ _) as [new|]; cbv zeta.
    + destruct H as [[m ->] H]. split_and!; [by split_and!|done|]. intros _. split; [done|exact H].
    + destruct H as [_ H]. split_and!; [apply same_rest_refl|done|done].
Qed.

(** Local keys never get into the details. *)
Definition no_local (d : Doc) : Prop := ∀ k, k ∈ Local → d_lookup (doc_Details d) k = None.

(** Several keys set in the local details. *)
Lemma SetLocal_fold (l : list (string * Value)) d :
  NoDup l.*1 →
  let d' := foldl (λ d '(k, x), SetLocalDetail d k x) d l in
  same_rest d d' ∧ ly_details (dc_top d') = ly_details (dc_top d) ∧
  (∀ k, k ∉ l.*1 → d_lookup (doc_LocalDetails d') k = d_lookup (doc_LocalDetails d) k) ∧
  (∀ k x, (k, x) ∈ l → ∃ v, d_lookup (doc_LocalDetails d') k = Some v ∧ same_value v x).
Proof.
  revert d. induction l as [|[k x] l IH]; intros d Hnd.
  { split_and!; [apply same_rest_refl|done|done|by intros ? ? ?%elem_of_nil]. }
  apply NoDup_cons in Hnd as [Hk Hnd]. cbn [foldl]. destruct (SetLocalDetail_spec d k x) as (H1 & H2 & H3 & H4).
  destruct (IH (SetLocalDetail d k x) Hnd) as (I1 & I2 & I3 & I4). cbv zeta in *. split_and!.
  - by eapply same_rest_trans.
  - congruence.
  - intros k' [Hne Hn]%not_elem_of_cons. rewrite I3 by done. by apply H3.
  - intros k' x' [[= -> ->]|Hin]%elem_of_cons; [|by apply I4]. rewrite I3 by done. exact H4.
Qed.

Lemma SetDetails_spec d m :
  let d' := SetDetails Local d (Some m) in
  same_rest d d' ∧
  (∀ k, d_lookup (doc_Details d') k = if decide (k ∈ Local) then None else m !! k) ∧
  (∀ k, k ∉ Local ∨ m !! k = None → d_lookup (doc_LocalDetails d') k = d_lookup (doc_LocalDetails d) k) ∧
  (∀ k x, k ∈ Local → m !! k = Some x → ∃ v, d_lookup (doc_LocalDetails d') k = Some v ∧ same_value v x).
Proof.
  unfold SetDetails. rewrite d_CopyOnlyKeys_lookup, d_CopyWithoutKeys_lookup. cbn [default from_option id].
  set (local := filter (λ kv : string * Value, kv.1 ∈ Local) m).
  assert (∀ k x, local !! k = Some x ↔ m !! k = Some x ∧ k ∈ Local) as Hl.
  { intros k x. unfold local. rewrite map_lookup_filter_Some. tauto. }
  destruct (d_Len (Some local) >? 0) eqn:Elen.
  - assert (NoDup (d_Iterate (Some local)).*1) as Hnd by apply NoDup_fst_map_to_list.
    destruct (SetLocal_fold (d_Iterate (Some local)) d Hnd) as (H1 & H2 & H3 & H4). cbv zeta in *.
    set (d1 := foldl _ d _) in *. split_and!.
    + destruct H1 as (?&?&?&?). by split_and!.
    + intros k. unfold d_lookup, doc_Details. simpl. rewrite map_lookup_filter.
      case_decide; destruct (m !! k); simpl; try done;
        [by rewrite option_guard_False by naive_solver|by rewrite option_guard_True].
    + intros k Hk. transitivity (d_lookup (doc_LocalDetails d1) k); [reflexivity|].
      apply H3. intros ((k' & x) & -> & Hin%elem_of_map_to_list%Hl)%list_elem_of_fmap. simpl in *. destruct Hk; [tauto|].
      destruct Hin. congruence.
    + intros k x Hk Hx. apply (H4 k x). apply elem_of_map_to_list, Hl. done.
  - assert (local = ∅) as Hem.
    { apply map_size_empty_inv. unfold d_Len in Elen. lia. }
    assert (∀ k, k ∈ Local → m !! k = None) as Hno.
    { intros k Hk. destruct (m !! k) as [x|] eqn:Ex; [|done].
      assert (local !! k = Some x) as Hc by (by apply Hl). by rewrite Hem, lookup_empty in Hc. }
    split_and!; [by split_and!| |done|].
    + intros k. unfold d_lookup, doc_Details. simpl. case_decide; [by apply Hno|done].
    + intros k x Hk. rewrite Hno; done.
Qed.

Lemma delete_keys_spec m keys :
  delete_keys (Some m) keys =
    (existsb (λ k, bool_decide (is_Some (m !! k))) keys, Some (filter (λ kv, kv.1 ∉ keys) m)).
Proof.
  unfold delete_keys. enough (∀ b0, foldl (λ acc key, match acc.2 with
      | Some m => if d_Has (Some m) key then (true, Some (delete key m)) else acc | None => acc end) (b0, Some m) keys =
    (b0 || existsb (λ k, bool_decide (is_Some (m !! k))) keys, Some (filter (λ kv, kv.1 ∉ keys) m))) as H by apply H.
  revert m. induction keys as [|k keys IH]; intros m b0.
  { simpl. rewrite orb_false_r. do 2 f_equal. symmetry. apply map_filter_id. by intros ? ? _ ?%elem_of_nil. }
  cbn [foldl snd existsb]. rewrite d_Has_lookup. unfold d_lookup. simpl.
  case_bool_decide as Hk; cbn [orb].
  - rewrite IH. rewrite orb_true_r. simpl. f_equal. f_equal. apply map_eq. intros i. apply option_eq. intros x.
    rewrite !map_lookup_filter_Some, lookup_delete_Some, not_elem_of_cons. simpl.
    split; [intros [[? ?] ?]|intros (? & ? & ?)]; by split_and!.
  - rewrite IH. do 2 f_equal. apply map_eq. intros i. apply option_eq. intros x.
    rewrite !map_lookup_filter_Some, not_elem_of_cons. simpl.
    split; [|intros (? & ? & ?); by split_and!].
    intros [Hx Hn]. split_and!; [done| |done]. intros ->. apply Hk. by exists x.
Qed.

Lemma RemoveLocalDetail_spec d keys :
  let '(ok, d') := RemoveLocalDetail d keys in
  same_rest d d' ∧ doc_Details d' = doc_Details d ∧
  (∀ k, d_lookup (doc_LocalDetails d') k = if decide (k ∈ keys) then None else d_lookup (doc_LocalDetails d) k) ∧
  (ok = true ↔ ∃ k, k ∈ keys ∧ is_Some (d_lookup (doc_LocalDetails d) k)).
Proof.
  unfold RemoveLocalDetail. rewrite d_Copy_spec, delete_keys_spec.
  change (default ∅ (doc_LocalDetails d) !! ?k) with (d_lookup (doc_LocalDetails d) k).
  set (m := default ∅ (doc_LocalDetails d)). assert (∀ k, m !! k = d_lookup (doc_LocalDetails d) k) as Hm by done.
  assert (existsb (λ k, bool_decide (is_Some (m !! k))) keys = true ↔
          ∃ k, k ∈ keys ∧ is_Some (d_lookup (doc_LocalDetails d) k)) as Hok.
  { rewrite existsb_exists. split.
    - intros (k & Hk%list_elem_of_In & Hb%bool_decide_eq_true). by exists k.
    - intros (k & Hk%list_elem_of_In & Hb). exists k. split; [done|]. by apply bool_decide_eq_true. }
  destruct (existsb _ keys) eqn:E; split_and!; try done.
  - intros k. unfold d_lookup at 1, doc_LocalDetails at 1. simpl. rewrite map_lookup_filter, Hm.
    case_decide; destruct (d_lookup (doc_LocalDetails d) k); simpl; try done;
      [by rewrite option_guard_False by naive_solver|by rewrite option_guard_True].
  - intros k. case_decide as Hk; [|done]. destruct (d_lookup (doc_LocalDetails d) k) as [v|] eqn:Ev; [|done].
    destruct Hok as [_ Hok]. discriminate Hok. exists k. by rewrite Ev.
Qed.

Lemma RemoveDetail_spec d keys :
  no_local d →
  let '(ok, d') := RemoveDetail Local d keys in
  same_rest d d' ∧ no_local d' ∧
  (∀ k, d_lookup (doc_Details d') k = if decide (k ∈ keys) then None else d_lookup (doc_Details d) k) ∧
  (∀ k, d_lookup (doc_LocalDetails d') k = if decide (k ∈ keys) then None else d_lookup (doc_LocalDetails d) k) ∧
  (ok = true ↔ ∃ k, k ∈ keys ∧ HasRelation d k = true).
Proof.
  intros Hno. unfold RemoveDetail. rewrite d_Copy_spec, delete_keys_spec. set (m := default ∅ (doc_Details d)).
  assert (∀ k, m !! k = d_lookup (doc_Details d) k) as Hm by done.
  set (ok := existsb _ keys). set (d1 := if ok then _ else d).
  assert (ok = true ↔ ∃ k, k ∈ keys ∧ is_Some (d_lookup (doc_Details d) k)) as Hok.
  { unfold ok. rewrite existsb_exists. split.
    - intros (k & Hk%list_elem_of_In & Hb%bool_decide_eq_true). by exists k.
    - intros (k & Hk%list_elem_of_In & Hb). exists k. split; [done|]. by apply bool_decide_eq_true. }
  assert (same_rest d d1 ∧ (∀ k, d_lookup (doc_LocalDetails d1) k = d_lookup (doc_LocalDetails d) k) ∧
    ∀ k, d_lookup (doc_Details d1) k = if decide (k ∈ keys) then None else d_lookup (doc_Details d) k) as (R1 & L1 & D1).
  { unfold d1. destruct ok.
    - destruct (SetDetails_spec d (filter (λ kv, kv.1 ∉ keys) m)) as (S1 & S2 & S3 & _). cbv zeta in *.
      split_and!; [done| |].
      + intros k. apply S3. destruct (decide (k ∈ Local)) as [Hl|]; [right|by left].
        rewrite map_lookup_filter, Hm, Hno by done. done.
      + intros k. rewrite S2, map_lookup_filter, Hm. destruct (decide (k ∈ Local)) as [Hl|].
        * rewrite Hno by done. by case_decide.
        * case_decide; destruct (d_lookup (doc_Details d) k); simpl; try done;
            [by rewrite option_guard_False by naive_solver|by rewrite option_guard_True].
    - split_and!; [apply same_rest_refl|done|]. intros k. case_decide as Hk; [|done].
      destruct (d_lookup (doc_Details d) k) as [v|] eqn:Ev; [|done]. destruct Hok as [_ Hok].
      discriminate Hok. exists k. by rewrite Ev. }
  pose proof (RemoveLocalDetail_spec d1 keys) as HL. destruct (RemoveLocalDetail d1 keys) as [okL d2].
  destruct HL as (R2 & D2 & L2 & Hok2). split_and!.
  - by eapply same_rest_trans.
  - intros k Hk. rewrite D2, D1, Hno by done. by case_decide.
  - intros k. by rewrite D2, D1.
  - intros k. by rewrite L2, L1.
  - assert (∀ k, HasRelation d k = true ↔ is_Some (d_lookup (doc_Details d) k) ∨ is_Some (d_lookup (doc_LocalDetails d) k)) as HH.
    { intros k. unfold HasRelation, iterateKeys. rewrite existsb_exists. split.
      - intros (k' & Hk%list_elem_of_In & ->%bool_decide_eq_true). apply elem_of_app in Hk.
        rewrite !d_Iterate_keys_elem_of, !d_Has_lookup, !bool_decide_eq_true in Hk. done.
      - intros Hk. exists k. split; [|by apply bool_decide_eq_true]. apply list_elem_of_In, elem_of_app.
        by rewrite !d_Iterate_keys_elem_of, !d_Has_lookup, !bool_decide_eq_true. }
    rewrite orb_true_iff, Hok, Hok2. setoid_rewrite HH. setoid_rewrite L1. naive_solver.
Qed.
End details_facts.

Lemma slices_Equal_eq (l1 l2 : list string) : slices_Equal (λ x y, bool_decide (x = y)) l1 l2 = true → l1 = l2.
Proof.
  rewrite slices_Equal_Forall2. induction 1 as [|x y l1 l2 H%bool_decide_eq_true _ IH]; [done|]. by rewrite H, IH.
Qed.

Lemma filter_of_bool {A} (f : A → bool) (P : A → Prop) `{∀ x, Decision (P x)} l :
  (∀ x, f x = true ↔ P x) → List.filter f l = filter P l.
Proof.
  intros Hf. induction l as [|x l IH]; simpl; [done|]. rewrite filter_cons, IH.
  destruct (decide (P x)) as [Hp|Hp], (f x) eqn:E; try done; [apply Hf in Hp; congruence|apply Hf in E; done].
Qed.

Lemma same_value_list v l : same_value v (StringList l) → GetStringList v = l.
Proof. intros [->|H]; [done|]. destruct v; try done. simpl in H. by apply slices_Equal_eq in H as ->. Qed.

(** Setting details, through the layers: a key of a local or derived relation
    goes to the local details and any other key to the details; the key then has the
    new value (or one equal to it), no other key changes, and the parents, the
    blocks, the links and the types of the state are untouched.  Details that hold
    no local key still hold none. *)
Theorem SetDetail_correct Local d key value :
  let d' := SetDetail Local d key value in
  same_rest d d' ∧ (no_local Local d → no_local Local d') ∧
  (key ∈ Local → doc_Details d' = doc_Details d ∧ key_set (doc_LocalDetails d) (doc_LocalDetails d') key value) ∧
  (key ∉ Local → doc_LocalDetails d' = doc_LocalDetails d ∧ key_set (doc_Details d) (doc_Details d') key value).
Proof.
  destruct (SetDetail_spec Local d key value) as (H1 & H2 & H3). cbv zeta in *. split_and!; [done| |done|done].
  intros Hno k Hk. destruct (decide (key ∈ Local)) as [Hin|Hin].
  - rewrite (proj1 (H2 Hin)). by apply Hno.
  - destruct (H3 Hin) as [_ [Hk' _]]. rewrite Hk' by congruence. by apply Hno.
Qed.

Lemma getRelationLinks_spec d :
  let '(links, d') := getRelationLinks d in
  dc_tree d' = dc_tree d ∧ dc_below d' = dc_below d ∧ ly_details (dc_top d') = ly_details (dc_top d) ∧
  ly_localDetails (dc_top d') = ly_localDetails (dc_top d) ∧ (getRelationLinks d').1 = links.
Proof.
  unfold getRelationLinks. destruct (ly_relationLinks (dc_top d)) as [links|] eqn:E; [by rewrite E|].
  destruct (dc_below d) as [|b bs] eqn:Eb; [rewrite E, Eb; by split_and!|]. by split_and!.
Qed.

(** Removing relations removes every trace of them and nothing else: the keys
    are gone from the details, the local details and the relation links, the list of
    featured relations loses them, every other detail and link stays, in order. *)
Theorem RemoveRelation_correct Local d keys :
  no_local Local d → RelationKeyFeaturedRelations ∉ Local →
  let d' := RemoveRelation Local d keys in
  dc_tree d' = dc_tree d ∧ dc_below d' = dc_below d ∧ no_local Local d' ∧
  (∀ k, k ∈ keys → d_lookup (doc_Details d') k = None ∧ d_lookup (doc_LocalDetails d') k = None) ∧
  (∀ k, k ∉ keys → d_lookup (doc_LocalDetails d') k = d_lookup (doc_LocalDetails d) k ∧
     (k ≠ RelationKeyFeaturedRelations → d_lookup (doc_Details d') k = d_lookup (doc_Details d) k)) ∧
  (RelationKeyFeaturedRelations ∉ keys → d_GetStringList (doc_Details d') RelationKeyFeaturedRelations =
     filter (λ k, k ∉ keys) (d_GetStringList (doc_Details d) RelationKeyFeaturedRelations)) ∧
  (getRelationLinks d').1 = filter (λ l, rl_Key l ∉ keys) (getRelationLinks d).1.
Proof.
  intros Hno Hfl. unfold RemoveRelation. pose proof (getRelationLinks_spec d) as HR.
  destruct (getRelationLinks d) as [links d0] eqn:ER. destruct HR as (T0 & B0 & D0 & L0 & _).
  set (linksF := List.filter _ links). set (d1 := with_top d0 (set_relationLinks (dc_top d0) (Some linksF))).
  assert (doc_Details d1 = doc_Details d) as HD1 by (unfold doc_Details; simpl; by rewrite D0, B0).
  assert (doc_LocalDetails d1 = doc_LocalDetails d) as HL1 by (unfold doc_LocalDetails; simpl; by rewrite L0, B0).
  assert (linksF = filter (λ l, rl_Key l ∉ keys) links) as HlF.
  { apply filter_of_bool. intros x. rewrite negb_true_iff. pose proof (FindPos_gt keys (rl_Key x)) as Hg.
    pose proof (FindPos_bounds keys (rl_Key x)). rewrite <- (bool_decide_eq_false (rl_Key x ∈ keys)), <- Hg.
    rewrite Z.geb_leb, Z.gtb_ltb. lia. }
  assert (no_local Local d1) as Hno1 by (intros k Hk; rewrite HD1; by apply Hno).
  pose proof (RemoveDetail_spec Local d1 keys Hno1) as H2. destruct (RemoveDetail Local d1 keys) as [ok d2].
  destruct H2 as ((T2 & B2 & R2 & _) & Hno2 & HD2 & HL2 & _). cbn [snd]. rewrite HD1 in HD2. rewrite HL1 in HL2.
  set (old := d_GetStringList (doc_Details d2) RelationKeyFeaturedRelations).
  set (new := List.filter _ old).
  assert (new = filter (λ k, k ∉ keys) old) as Hnew.
  { apply filter_of_bool. intros x. rewrite FindPos_eqb, negb_true_iff. apply bool_decide_eq_false. }
  assert (old = if decide (RelationKeyFeaturedRelations ∈ keys) then []
                else d_GetStringList (doc_Details d) RelationKeyFeaturedRelations) as Hold.
  { unfold old, d_GetStringList. rewrite !d_Get_lookup, HD2. by case_decide. }
  set (d3 := if existsb _ old then _ else d2).
  assert (dc_tree d3 = dc_tree d2 ∧ dc_below d3 = dc_below d2 ∧ ly_relationLinks (dc_top d3) = ly_relationLinks (dc_top d2) ∧
    doc_LocalDetails d3 = doc_LocalDetails d2 ∧
    (∀ k, k ≠ RelationKeyFeaturedRelations → d_lookup (doc_Details d3) k = d_lookup (doc_Details d2) k) ∧
    (RelationKeyFeaturedRelations ∈ keys → doc_Details d3 = doc_Details d2) ∧
    d_GetStringList (doc_Details d3) RelationKeyFeaturedRelations = new) as (T3 & B3 & R3 & L3 & D3 & K3 & F3).
  { unfold d3. destruct (existsb _ old) eqn:Eex.
    - destruct (SetDetail_spec Local d2 RelationKeyFeaturedRelations (StringList new)) as ((T & B & R & _) & _ & Hs). cbv zeta in *.
      destruct (Hs Hfl) as [HL [Hk (v & Hv & Hsv)]]. split_and!; try done.
      + intros Hin. rewrite decide_True in Hold by done. by rewrite Hold in Eex.
      + unfold d_GetStringList. rewrite d_Get_lookup, Hv. by apply same_value_list.
    - split_and!; try done. fold old. rewrite Hnew. symmetry. apply filter_all. intros x Hx.
      destruct (decide (x ∈ keys)) as [Hin|]; [|done]. exfalso.
      assert (existsb (λ s, negb (FindPos keys s =? -1)) old = true) as Hc; [|congruence].
      apply existsb_exists. exists x. split; [by apply list_elem_of_In|].
      rewrite FindPos_eqb, negb_involutive. by apply bool_decide_eq_true. }
  split_and!.
  - by rewrite T3, T2.
  - by rewrite B3, B2.
  - intros k Hk. rewrite D3 by congruence. by apply Hno2.
  - intros k Hk. rewrite L3, HL2, decide_True by done. split; [|done].
    destruct (decide (k = RelationKeyFeaturedRelations)) as [->|]; [rewrite K3 by done|rewrite D3 by done];
      by rewrite HD2, decide_True.
  - intros k Hk. rewrite L3, HL2, decide_False by done. split; [done|]. intros Hne.
    by rewrite D3, HD2, decide_False by done.
  - intros Hf. rewrite F3, Hnew, Hold. by rewrite decide_False.
  - unfold getRelationLinks at 1. rewrite R3, R2. simpl. done.
Qed.

(** ** Recommended relations of a type ([normalize.go]) *)

Definition RelationKeyRecommendedRelations : string := "recommendedRelations".
Definition RelationKeyRecommendedFeaturedRelations : string := "recommendedFeaturedRelations".
Definition RelationKeyRecommendedHiddenRelations : string := "recommendedHiddenRelations".

Definition recommended (m : gmap string Value) : gmap string Value :=
  let recRelations := d_GetStringList (Some m) RelationKeyRecommendedRelations in
  let recFeatRelations := d_GetStringList (Some m) RelationKeyRecommendedFeaturedRelations in
  let recHiddenRelations := d_GetStringList (Some m) RelationKeyRecommendedHiddenRelations in
  let recHiddenRelations := RemoveN recHiddenRelations recFeatRelations in
  let recHiddenRelations := RemoveN recHiddenRelations recRelations in
  let recRelations := RemoveN recRelations recFeatRelations in
  <[RelationKeyRecommendedHiddenRelations:=StringList recHiddenRelations]>
    (<[RelationKeyRecommendedRelations:=StringList recRelations]> m).

(** Details that are inherited from the parent are changed there, in place. *)
Definition normalizeRecommendedRelations (d : Doc) : Doc :=
  match ly_details (dc_top d), dc_below d with
  | Some m, _ => with_top d (set_details (dc_top d) (Some (recommended m)))
  | None, l :: below =>
      match ly_details l with
      | Some m => {| dc_tree := dc_tree d; dc_top := dc_top d; dc_below := set_details l (Some (recommended m)) :: below |}
      | None => d
      end
  | None, [] => d
  end.

Definition TypeKeyObjectType : string := "objectType".

Definition normalizeDetails (d : Doc) : Doc :=
  if bool_decide (doc_ObjectTypeKey d = TypeKeyObjectType) then normalizeRecommendedRelations d else d.

Lemma recommended_lists m :
  let rec := d_GetStringList (Some m) RelationKeyRecommendedRelations in
  let feat := d_GetStringList (Some m) RelationKeyRecommendedFeaturedRelations in
  let hidden := d_GetStringList (Some m) RelationKeyRecommendedHiddenRelations in
  d_GetStringList (Some (recommended m)) RelationKeyRecommendedRelations = filter (λ x, x ∉ feat) rec ∧
  d_GetStringList (Some (recommended m)) RelationKeyRecommendedFeaturedRelations = feat ∧
  d_GetStringList (Some (recommended m)) RelationKeyRecommendedHiddenRelations =
    filter (λ x, x ∉ rec) (filter (λ x, x ∉ feat) hidden).
Proof.
  unfold recommended, d_GetStringList, d_Get. cbv zeta. rewrite !RemoveN_spec.
  rewrite (lookup_insert_eq _ RelationKeyRecommendedHiddenRelations).
  rewrite !(lookup_insert_ne _ RelationKeyRecommendedHiddenRelations) by done.
  rewrite lookup_insert_eq, !(lookup_insert_ne _ RelationKeyRecommendedRelations) by done. by split_and!.
Qed.

(** The relations recommended by a type: when the state or its parent has
    details, the three lists are afterwards pairwise disjoint, every relation that
    was in one of them is still in one, the featured list is as before, the others
    only lose entries, and doing it again changes nothing. *)
Theorem normalizeRecommendedRelations_correct d m :
  ly_details (dc_top d) = Some m ∨ ly_details (dc_top d) = None ∧ ly_details <$> head (dc_below d) = Some (Some m) →
  let list (d : Doc) (key : string) := d_GetStringList (doc_Details d) key in
  let d' := normalizeRecommendedRelations d in
  let rec' := list d' RelationKeyRecommendedRelations in
  let feat' := list d' RelationKeyRecommendedFeaturedRelations in
  let hidden' := list d' RelationKeyRecommendedHiddenRelations in
  (∀ x, (x ∈ rec' → x ∉ feat') ∧ (x ∈ rec' → x ∉ hidden') ∧ (x ∈ feat' → x ∉ hidden')) ∧
  (∀ x, x ∈ rec' ++ feat' ++ hidden' ↔
        x ∈ list d RelationKeyRecommendedRelations ++ list d RelationKeyRecommendedFeaturedRelations ++
            list d RelationKeyRecommendedHiddenRelations) ∧
  feat' = list d RelationKeyRecommendedFeaturedRelations ∧
  rec' `sublist_of` list d RelationKeyRecommendedRelations ∧
  hidden' `sublist_of` list d RelationKeyRecommendedHiddenRelations ∧
  (∀ key, list (normalizeRecommendedRelations d') key = list d' key).
Proof.
  intros Hm. assert (doc_Details d = Some m ∧ doc_Details (normalizeRecommendedRelations d) = Some (recommended m) ∧
    doc_Details (normalizeRecommendedRelations (normalizeRecommendedRelations d)) = Some (recommended (recommended m)))
    as (H0 & H1 & H2).
  { unfold doc_Details, normalizeRecommendedRelations. destruct Hm as [Hm|[Hm Hb]].
    - simpl. by rewrite Hm.
    - rewrite Hm. destruct (dc_below d) as [|l below] eqn:Eb; simpl in Hb; [done|]. simplify_eq. rewrite Hb. simpl.
      rewrite Hm. simpl. rewrite Hm. simpl. rewrite Hb. by split_and!. }
  cbv beta zeta. rewrite H0, H1, H2. destruct (recommended_lists m) as (R1 & R2 & R3).
  destruct (recommended_lists (recommended m)) as (S1 & S2 & S3). cbv zeta in *. rewrite R1, R2, R3.
  set (rec := d_GetStringList (Some m) RelationKeyRecommendedRelations) in *.
  set (feat := d_GetStringList (Some m) RelationKeyRecommendedFeaturedRelations) in *.
  set (hidden := d_GetStringList (Some m) RelationKeyRecommendedHiddenRelations) in *.
  split_and!; [| |done|apply sublist_filter|etrans; [apply sublist_filter|apply sublist_filter]|].
  - intros x. rewrite !list_elem_of_filter. naive_solver.
  - intros x. rewrite !elem_of_app, !list_elem_of_filter.
    destruct (decide (x ∈ feat)), (decide (x ∈ rec)); naive_solver.
  - intros key. unfold d_GetStringList, d_Get in *.
    destruct (decide (key = RelationKeyRecommendedRelations)) as [->|N1].
    { rewrite S1, R1, R2. apply filter_all. intros x. rewrite list_elem_of_filter. tauto. }
    destruct (decide (key = RelationKeyRecommendedHiddenRelations)) as [->|N2].
    { rewrite S3, R1, R2, R3. rewrite filter_all; [apply filter_all|]; intros x; rewrite !list_elem_of_filter; tauto. }
    unfold recommended at 1. cbv zeta. by rewrite !lookup_insert_ne by done.
Qed.

Module DetailsInst.
Definition layer (details localDetails : Details) : Layer :=
  {| ly_details := details; ly_localDetails := localDetails; ly_relationLinks := Some [{| rl_Key := "due"; rl_Format := 4 |}; {| rl_Key := "name"; rl_Format := 0 |}];
     ly_objectTypeKeys := None; ly_changeId := ""; ly_migrationVersion := 0; ly_uniqueKeyInternal := "";
     ly_originalCreatedTimestamp := 0; ly_fileInfo := {| fi_FileId := ""; fi_EncryptionKeys := ∅ |}; ly_fileKeys := []; ly_store := None;
     ly_storeLastChangeIdByPath := None; ly_storeKeyRemoved := None; ly_notifications := None; ly_deviceStore := None |}.

Definition base_details : Details :=
  Some (list_to_map [("name", String "n"); ("due", Null); ("featuredRelations", StringList ["type"; "due"]);
                     ("recommendedRelations", StringList ["a"; "b"]);
                     ("recommendedFeaturedRelations", StringList ["b"]);
                     ("recommendedHiddenRelations", StringList ["a"; "b"; "c"])]).

Definition d0 : Doc :=
  {| dc_tree := TreeInst.child; dc_top := layer None None; dc_below := [layer base_details (Some {["lastOpened" := Null]})] |}.

Definition local_keys : list string := ["lastOpened"; "backlinks"].

Lemma no_local_b_spec Local d : forallb (λ k, negb (d_Has (doc_Details d) k)) Local = true → no_local Local d.
Proof.
  intros H k Hk. rewrite forallb_forall in H. apply list_elem_of_In in Hk. specialize (H k Hk).
  apply negb_true_iff in H. rewrite d_Has_lookup in H. apply bool_decide_eq_false in H.
  destruct (d_lookup (doc_Details d) k); [destruct H; by eexists|done].
Qed.

Lemma RemoveRelation_correct_witness :
  let d' := RemoveRelation local_keys d0 ["due"; "lastOpened"] in
  d_GetStringList (doc_Details d') "featuredRelations" = ["type"] ∧
  (∀ k, k ∈ ["due"; "lastOpened"] → d_lookup (doc_Details d') k = None ∧ d_lookup (doc_LocalDetails d') k = None).
Proof.
  split; [vm_compute; reflexivity|]. apply (RemoveRelation_correct local_keys d0 ["due"; "lastOpened"]).
  - apply no_local_b_spec. vm_compute. reflexivity.
  - by apply (bool_decide_unpack (RelationKeyFeaturedRelations ∉ local_keys)).
Defined.

Lemma normalizeRecommendedRelations_correct_witness :
  let d' := normalizeRecommendedRelations d0 in
  d_GetStringList (doc_Details d') "recommendedHiddenRelations" = ["c"] ∧
  d_GetStringList (doc_Details d') "recommendedFeaturedRelations" =
    d_GetStringList (doc_Details d0) "recommendedFeaturedRelations".
Proof.
  split; [vm_compute; reflexivity|].
  apply (normalizeRecommendedRelations_correct d0 (default ∅ base_details)). right. split; reflexivity.
Defined.
End DetailsInst.
