(* ===== verification/StateStore.v ===== *)
(** * The store, notifications, devices and file of a state ([core/block/editor/state/state.go], [fileinfo.go])

    Beside blocks and details a state has a store of nested protobuf structs (the
    collections of an object, its settings), the notifications and devices of an
    account object, and the keys of a file.  Like the details they are layers that are
    copied from the parent on the first change.  Changes of the store are recorded as
    they are made.

    A nil [*types.Value] is [PNil]; writing it removes the key.  The map of the last
    changes by path is shared by reference between a state and its parents: all layers
    that have it see a write. *)

From S2P Require Import Prelude Slice SliceDiff GoFloat Values PbTypes Details StateTree StateDetails.

Local Open Scope Z_scope.

(** ** Layers *)

Definition set_rest (l : Layer) (ts : Z) (info : FileInfo) (store : option (gmap string PbValue))
    (last : option (gmap string string)) (removed : option (gset string))
    (notifications : option (gmap string Notification)) (devices : option (gmap string DeviceInfo)) : Layer :=
  {| ly_details := ly_details l; ly_localDetails := ly_localDetails l; ly_relationLinks := ly_relationLinks l;
     ly_objectTypeKeys := ly_objectTypeKeys l; ly_changeId := ly_changeId l; ly_migrationVersion := ly_migrationVersion l;
     ly_uniqueKeyInternal := ly_uniqueKeyInternal l; ly_originalCreatedTimestamp := ts; ly_fileInfo := info;
     ly_fileKeys := ly_fileKeys l; ly_store := store; ly_storeLastChangeIdByPath := last; ly_storeKeyRemoved := removed;
     ly_notifications := notifications; ly_deviceStore := devices |}.
Definition set_store (l : Layer) (store : option (gmap string PbValue)) (last : option (gmap string string))
    (removed : option (gset string)) : Layer :=
  set_rest l (ly_originalCreatedTimestamp l) (ly_fileInfo l) store last removed (ly_notifications l) (ly_deviceStore l).
Definition set_notifications (l : Layer) (n : option (gmap string Notification)) : Layer :=
  set_rest l (ly_originalCreatedTimestamp l) (ly_fileInfo l) (ly_store l) (ly_storeLastChangeIdByPath l) (ly_storeKeyRemoved l)
    n (ly_deviceStore l).
Definition set_deviceStore (l : Layer) (v : option (gmap string DeviceInfo)) : Layer :=
  set_rest l (ly_originalCreatedTimestamp l) (ly_fileInfo l) (ly_store l) (ly_storeLastChangeIdByPath l) (ly_storeKeyRemoved l)
    (ly_notifications l) v.
Definition set_fileInfo (l : Layer) (info : FileInfo) : Layer :=
  set_rest l (ly_originalCreatedTimestamp l) info (ly_store l) (ly_storeLastChangeIdByPath l) (ly_storeKeyRemoved l)
    (ly_notifications l) (ly_deviceStore l).
Definition set_timestamp (l : Layer) (ts : Z) : Layer :=
  set_rest l ts (ly_fileInfo l) (ly_store l) (ly_storeLastChangeIdByPath l) (ly_storeKeyRemoved l)
    (ly_notifications l) (ly_deviceStore l).

Definition record (d : Doc) (chs : list Change) : Doc :=
  with_tree d (with_changes (dc_tree d) (st_changes (dc_tree d) ++ chs)).

(** ** Nested structs *)

(** [pbtypes.GetStruct]. *)
Definition GetStruct (s : gmap string PbValue) (name : string) : option (gmap string PbValue) :=
  match s !! name with Some (PStruct m) => Some m | _ => None end.

(** The value at a path; [PNil] where there is none. *)
Fixpoint store_at (store : gmap string PbValue) (path : list string) : PbValue :=
  match path with
  | [] => PNil
  | [key] => default PNil (store !! key)
  | key :: path => match GetStruct store key with Some m => store_at m path | None => PNil end
  end.

(** The loops of [setInStore]: structs on the way are made when they are missing, and
    removed again when the removal of a key has left them empty. *)
Fixpoint store_put (store : gmap string PbValue) (path : list string) (value : PbValue) : gmap string PbValue :=
  match path with
  | [] => store
  | [key] => match value with PNil => delete key store | _ => <[key:=value]> store end
  | key :: path =>
      let nested := store_put (default ∅ (GetStruct store key)) path value in
      match value with
      | PNil => if (size nested =? 0)%nat then delete key store else <[key:=PStruct nested]> store
      | _ => <[key:=PStruct nested]> store
      end
  end.

(** [strings.Join]. *)
Fixpoint Join (elems : list string) (sep : string) : string :=
  match elems with
  | [] => ""
  | [e] => e
  | e :: elems => e +:+ sep +:+ Join elems sep
  end.
Definition collectionKeysRemovedSeparator : string := "-".

(** ** The store *)

(** [Compare] of two protobuf values (gogo/protobuf). *)
Class PbCompare := pb_Compare : PbValue → PbValue → Z.
(** It gives 0 for equal values only, of those that can be compared (a NaN cannot). *)
Class PbCompareOk `{!PbCompare} := {
  pb_comparable : PbValue → Prop;
  pb_Compare_eq a b : pb_comparable a → pb_comparable b → pb_Compare a b = 0 → a = b;
}.

Definition doc_Store (d : Doc) : option (gmap string PbValue) := inherited ly_store (dc_top d :: dc_below d).
Definition StoreKeysRemoved (d : Doc) : option (gset string) := inherited ly_storeKeyRemoved (dc_top d :: dc_below d).
Definition StoreLastChangeIdByPath (d : Doc) : option (gmap string string) :=
  inherited ly_storeLastChangeIdByPath (dc_top d :: dc_below d).
Definition StoreChangeIdForPath (d : Doc) (path : string) : string :=
  default "" (default ∅ (StoreLastChangeIdByPath d) !! path).

Definition share_last (m : gmap string string) (l : Layer) : Layer :=
  match ly_storeLastChangeIdByPath l with
  | Some _ => set_store l (ly_store l) (Some m) (ly_storeKeyRemoved l)
  | None => l
  end.
Definition setStoreChangeId (d : Doc) (path changeId : string) : Doc :=
  let m := <[path:=changeId]> (default ∅ (StoreLastChangeIdByPath d)) in
  {| dc_tree := dc_tree d; dc_top := set_store (dc_top d) (ly_store (dc_top d)) (Some m) (ly_storeKeyRemoved (dc_top d));
     dc_below := share_last m <$> dc_below d |}.

(** The removed keys are copied and then dropped. *)
Definition createOrCopyStoreFromParent (d : Doc) : Doc :=
  match ly_store (dc_top d) with
  | Some _ => d
  | None => with_top d (set_store (dc_top d) (Some (default ∅ (doc_Store d))) (ly_storeLastChangeIdByPath (dc_top d)) (Some ∅))
  end.

Section store.
Context `{!PbCompare}.

(** [None] is a panic: a write into a nil map of removed keys. *)
Definition setInStore (d : Doc) (path : list string) (value : PbValue) : option (bool * Doc) :=
  match path with
  | [] => Some (false, d)
  | _ =>
      let d := createOrCopyStoreFromParent d in
      let store := default ∅ (ly_store (dc_top d)) in
      let pathJoined := Join path collectionKeysRemovedSeparator in
      let put : Doc := with_top d (set_store (dc_top d) (Some (store_put store path value)) (ly_storeLastChangeIdByPath (dc_top d))
                               (ly_storeKeyRemoved (dc_top d))) in
      let removed r (d : Doc) : Doc := with_top d (set_store (dc_top d) (ly_store (dc_top d)) (ly_storeLastChangeIdByPath (dc_top d)) r) in
      match value with
      | PNil =>
          match ly_storeKeyRemoved (dc_top d) with
          | None => None
          | Some r => Some (true, setStoreChangeId (removed (Some ({[pathJoined]} ∪ r)) put) pathJoined (ly_changeId (dc_top d)))
          end
      | _ =>
          Some (negb (pb_Compare (store_at store path) value =? 0),
                removed ((λ r, r ∖ {[pathJoined]}) <$> ly_storeKeyRemoved (dc_top d))
                  (setStoreChangeId put pathJoined (ly_changeId (dc_top d))))
      end
  end.

Definition SetInStore (d : Doc) (path : list string) (value : PbValue) : option (bool * Doc) :=
  match setInStore d path value with
  | None => None
  | Some (false, d) => Some (false, d)
  | Some (true, d) => Some (true, record d [match value with PNil => ChStoreKeyUnset path | _ => ChStoreKeySet path value end])
  end.

Definition ContainsInStore (d : Doc) (path : list string) : bool :=
  match path, doc_Store d with
  | [], _ | _, None => false
  | _, Some store => match store_at store path with PNil => false | _ => true end
  end.
Definition removeFromStore (d : Doc) (path : list string) : option (bool * Doc) :=
  if ContainsInStore d path then prod_map (λ _, true) id <$> setInStore d path PNil else Some (false, d).
Definition RemoveFromStore (d : Doc) (path : list string) : option (bool * Doc) :=
  match removeFromStore d path with
  | None => None
  | Some (false, d) => Some (false, d)
  | Some (true, d) => Some (true, record d [ChStoreKeyUnset path])
  end.

(** Every value on the path must be a struct: [None] is the panic of the type
    assertion. *)
Fixpoint has_path (store : gmap string PbValue) (path : list string) : option bool :=
  match path with
  | [] => Some true
  | key :: path =>
      match store !! key with
      | None => Some false
      | Some (PStruct m) => has_path m path
      | Some _ => None
      end
  end.
Definition HasInStore (d : Doc) (path : list string) : option bool :=
  match doc_Store d with None => Some false | Some store => has_path store path end.

Definition GetSubObjectCollection (d : Doc) (collectionName : string) : option (gmap string PbValue) :=
  store ← doc_Store d; GetStruct store collectionName.

(** [pbtypes.GetStringListValue]. *)
Definition GetStringListValue (v : PbValue) : list string :=
  match v with
  | PList l => ListValueToStrings l
  | PString s => if bool_decide (s = "") then [] else [s]
  | _ => []
  end.
Definition pb_GetStringList (s : option (gmap string PbValue)) (name : string) : list string :=
  match s with
  | None => []
  | Some m => match m !! name with Some v => GetStringListValue v | None => [] end
  end.
Definition GetStoreSlice (d : Doc) (collectionName : string) : list string :=
  match doc_Store d with
  | None => []
  | Some store => match store !! collectionName with Some (PList l) => ListValueToStrings l | _ => [] end
  end.

Definition SettingsStoreKey : string := "settings".
Definition GetSetting (d : Doc) (name : string) : PbValue :=
  match doc_Store d with
  | None => PNil
  | Some store => match store !! SettingsStoreKey with Some (PStruct m) => default PNil (m !! name) | _ => PNil end
  end.
Definition SetSetting (d : Doc) (name : string) (val : PbValue) : option (bool * Doc) := SetInStore d [SettingsStoreKey; name] val.

(** *** Lists of the store *)

Context `{!LoUniqBy, !Mb0Diff}.

Definition equal_ids (x y : string) : bool := bool_decide (x = y).
(** The handler of replacements is nil, so one would be a panic ([None]). *)
Definition slice_ops (diff : list (SliceDiff.Change string)) : option (list StoreSliceOp) :=
  mapM id (UnwrapChanges diff (λ afterID items, Some (SliceAdd items afterID)) (λ items, Some (SliceRemove items))
             (λ afterID items, Some (SliceMove items afterID)) (λ _ _, None)).
Definition UpdateStoreSlice (d : Doc) (key : string) (val : list string) : option Doc :=
  let old := GetStoreSlice d key in
  '(_, d) ← setInStore d [key] (pb_StringList val);
  ops ← slice_ops (Diff id equal_ids old val);
  Some (record d ((λ op, ChStoreSliceUpdate key (Some op)) <$> ops)).
End store.

(** ** Notifications *)

Definition ListNotifications (ls : list Layer) : option (gmap string Notification) := inherited ly_notifications ls.
Definition GetNotificationById (ls : list Layer) (id : string) : option Notification :=
  default ∅ (ListNotifications ls) !! id.
(** The notifications of the parent that are missing here are copied. *)
Definition copy_missing {A} (f : A → string) (own : gmap string A) (parent : option (gmap string A)) : gmap string A :=
  foldl (λ m kv, match m !! f kv.2 with Some _ => m | None => <[f kv.2:=kv.2]> m end) own (map_to_list (default ∅ parent)).
Definition AddNotification (d : Doc) (n : Notification) : Doc :=
  let own := copy_missing nt_Id (default ∅ (ly_notifications (dc_top d))) (ListNotifications (dc_below d)) in
  with_top d (set_notifications (dc_top d) (Some (<[nt_Id n:=n]> own))).

(** ** Devices *)

Definition ListDevices (ls : list Layer) : option (gmap string DeviceInfo) := inherited ly_deviceStore ls.
Definition GetDevice (ls : list Layer) (id : string) : option DeviceInfo := default ∅ (ListDevices ls) !! id.
Definition AddDevice (d : Doc) (device : DeviceInfo) : Doc :=
  let own := copy_missing dv_Id (default ∅ (ly_deviceStore (dc_top d))) (ListDevices (dc_below d)) in
  with_top d (set_deviceStore (dc_top d) (Some (match own !! dv_Id device with Some _ => own | None => <[dv_Id device:=device]> own end))).
(** [now] is the time of the call. *)
Definition SetDeviceName (now : Z) (d : Doc) (id name : string) : Doc :=
  let own := copy_missing dv_Id (default ∅ (ly_deviceStore (dc_top d))) (ListDevices (dc_below d)) in
  let device := match own !! id with
                | None => {| dv_Id := id; dv_Name := name; dv_AddDate := now |}
                | Some v => {| dv_Id := dv_Id v; dv_Name := name; dv_AddDate := dv_AddDate v |}
                end in
  with_top d (set_deviceStore (dc_top d) (Some (<[id:=device]> own))).

(** ** The file of an object *)

(** A key that is missing on the other side reads as an empty string. *)
Definition fi_Equals (f other : FileInfo) : bool :=
  bool_decide (fi_FileId f = fi_FileId other) &&
  (size (fi_EncryptionKeys f) =? size (fi_EncryptionKeys other))%nat &&
  forallb (λ '(k, v), bool_decide (default "" (fi_EncryptionKeys other !! k) = v)) (map_to_list (fi_EncryptionKeys f)).
Definition fi_ToModel (f : FileInfo) : option FileInfoModel :=
  if bool_decide (fi_FileId f = "") then None
  else Some {| fm_FileId := fi_FileId f; fm_EncryptionKeys := map_to_list (fi_EncryptionKeys f) |}.
Definition setFileInfoFromModel (d : Doc) (info : option FileInfoModel) : Doc :=
  match info with
  | None => d
  | Some m =>
      let keys := foldl (λ keys '(path, key), <[path:=key]> keys) (∅ : gmap string string) (fm_EncryptionKeys m) in
      with_top d (set_fileInfo (dc_top d) {| fi_FileId := fm_FileId m; fi_EncryptionKeys := keys |})
  end.

(** ** What is in the store after a change *)

Lemma store_at_cons store k k' path : store_at store (k :: k' :: path) =
  match GetStruct store k with Some m => store_at m (k' :: path) | None => PNil end.
Proof. done. Qed.
Lemma store_put_cons store k k' path v : store_put store (k :: k' :: path) v =
  let nested := store_put (default ∅ (GetStruct store k)) (k' :: path) v in
  match v with
  | PNil => if (size nested =? 0)%nat then delete k store else <[k:=PStruct nested]> store
  | _ => <[k:=PStruct nested]> store
  end.
Proof. done. Qed.
Lemma store_at_empty path : store_at ∅ path = PNil.
Proof. destruct path as [|k [|k' path]]; [done|..]; cbn; [by rewrite lookup_empty|]. unfold GetStruct. by rewrite lookup_empty. Qed.
Lemma store_at_default store k k' path : store_at (default ∅ (GetStruct store k)) (k' :: path) = store_at store (k :: k' :: path).
Proof. rewrite store_at_cons. destruct (GetStruct store k); [done|apply store_at_empty]. Qed.

(** The struct under a key after a change below it. *)
Lemma store_put_struct store k k' path v k1 path1 :
  store_at (store_put store (k :: k' :: path) v) (k :: k1 :: path1) = store_at (store_put (default ∅ (GetStruct store k)) (k' :: path) v) (k1 :: path1).
Proof.
  rewrite store_put_cons, store_at_cons. set (nested := store_put _ _ v). cbv zeta.
  assert (∀ s, GetStruct (<[k:=PStruct nested]> s) k = Some nested) as Hin by (intros s; unfold GetStruct; by rewrite lookup_insert_eq).
  destruct v; try (by rewrite Hin). destruct (size nested =? 0)%nat eqn:E; [|by rewrite Hin].
  apply Nat.eqb_eq, map_size_empty_inv in E. unfold GetStruct. by rewrite lookup_delete_eq, E, store_at_empty.
Qed.
Lemma store_put_other store k path v k1 : k1 ≠ k → store_put store (k :: path) v !! k1 = store !! k1.
Proof.
  intros Hne. destruct path as [|k' path]; [cbn; destruct v; by rewrite ?lookup_delete_ne, ?lookup_insert_ne|]. rewrite store_put_cons. cbv zeta.
  destruct v; rewrite ?lookup_insert_ne by done; try done. case_match; by rewrite ?lookup_delete_ne, ?lookup_insert_ne.
Qed.
Lemma store_at_other store store' k path : store !! k = store' !! k → store_at store (k :: path) = store_at store' (k :: path).
Proof. intros E. destruct path as [|k' path]; cbn; [by rewrite E|]. unfold GetStruct. by rewrite E. Qed.

Lemma store_put_at path : ∀ store v, path ≠ [] → store_at (store_put store path v) path = v.
Proof.
  induction path as [|k [|k' path] IH]; intros store v Hne; [done|..].
  - cbn. destruct v; rewrite ?lookup_delete_eq, ?lookup_insert_eq; done.
  - rewrite store_put_struct. by apply IH.
Qed.
Lemma store_put_apart path : ∀ store v path', ¬ path `prefix_of` path' → ¬ path' `prefix_of` path →
  store_at (store_put store path v) path' = store_at store path'.
Proof.
  induction path as [|k path IH]; intros store v path' H1 H2; [destruct H1; apply prefix_nil|].
  destruct path' as [|k1 path']; [destruct H2; apply prefix_nil|]. destruct (decide (k1 = k)) as [->|Hk].
  - destruct path as [|k' path]; [destruct H1; by exists path'|]. destruct path' as [|k1' path']; [destruct H2; by exists (k' :: path)|].
    rewrite store_put_struct, IH; [apply store_at_default|..]; intros [e E]; [apply H1|apply H2]; exists e; by rewrite E.
  - by apply store_at_other, store_put_other.
Qed.
(** Below the path is what the value holds there, nothing after a removal. *)
Lemma store_put_below path : ∀ store v k path', path ≠ [] →
  store_at (store_put store path v) (path ++ k :: path') = match v with PStruct m => store_at m (k :: path') | _ => PNil end.
Proof.
  induction path as [|k [|k' path] IH]; intros store v k1 path' Hne; [done|..].
  - cbn [app store_put]. rewrite store_at_cons. unfold GetStruct. destruct v; by rewrite ?lookup_delete_eq, ?lookup_insert_eq.
  - cbn [app]. rewrite store_put_struct. by apply (IH (default ∅ (GetStruct store k)) v k1 path').
Qed.

(** The fields of the struct at a path, none when there is something else. *)
Definition fields_at (store : gmap string PbValue) (path : list string) : gmap string PbValue :=
  match store_at store path with PStruct m => m | _ => ∅ end.
Lemma fields_at_struct store k : fields_at store [k] = default ∅ (GetStruct store k).
Proof. unfold fields_at, GetStruct. cbn. by destruct (store !! k) as [[]|]. Qed.
Lemma fields_at_default store k k' path : fields_at (default ∅ (GetStruct store k)) (k' :: path) = fields_at store (k :: k' :: path).
Proof. unfold fields_at. by rewrite store_at_default. Qed.

(** On the way to the path is the struct with the value put into it, or nothing when a
    removal has left the struct empty: another value that was there is lost. *)
Lemma store_put_above pre : ∀ store v rest, pre ≠ [] → rest ≠ [] →
  store_at (store_put store (pre ++ rest) v) pre =
    let fields := store_put (fields_at store pre) rest v in
    match v with PNil => if (size fields =? 0)%nat then PNil else PStruct fields | _ => PStruct fields end.
Proof.
  induction pre as [|k [|k' pre] IH]; intros store v rest Hp Hr; [done|..].
  - destruct rest as [|k1 rest]; [done|]. cbn [app]. rewrite store_put_cons, <- fields_at_struct. cbv zeta.
    set (fields := store_put _ _ v). cbn [store_at].
    destruct v; rewrite ?lookup_insert_eq; try done. by destruct (size fields =? 0)%nat; rewrite ?lookup_delete_eq, ?lookup_insert_eq.
  - cbn [app]. rewrite store_put_struct. rewrite <- fields_at_default. by apply (IH (default ∅ (GetStruct store k)) v rest).
Qed.

(** No struct of the store is empty. *)
Inductive tidy : PbValue → Prop :=
| tidy_struct m : m ≠ ∅ → (∀ k v, m !! k = Some v → tidy v) → tidy (PStruct m)
| tidy_flat v : (∀ m, v ≠ PStruct m) → tidy v.
Lemma tidy_inv m : tidy (PStruct m) → map_Forall (λ _, tidy) m.
Proof. intros Ht. inversion Ht as [? _ Hm|? Hf]; subst; [exact Hm|by destruct (Hf m)]. Qed.
Lemma store_put_tidy path : ∀ store v, map_Forall (λ _, tidy) store → tidy v → map_Forall (λ _, tidy) (store_put store path v).
Proof.
  assert (∀ (s : gmap string PbValue) k x, map_Forall (λ _, tidy) s → tidy x → map_Forall (λ _, tidy) (<[k:=x]> s)) as Hins.
  { intros s k x Hs Hx. by apply map_Forall_insert_2. }
  assert (∀ (s : gmap string PbValue) k, map_Forall (λ _, tidy) s → map_Forall (λ _, tidy) (delete k s)) as Hdel.
  { intros s k Hs i x [_ Hx]%lookup_delete_Some. by apply (Hs i). }
  induction path as [|k [|k' path] IH]; intros store v Hs Hv; [done|..].
  - cbn. destruct v; auto.
  - rewrite store_put_cons. set (nested := store_put _ _ v).
    assert (map_Forall (λ _, tidy) nested) as Hn.
    { apply IH; [|done]. unfold GetStruct. destruct (store !! k) as [[]|] eqn:E; try apply map_Forall_empty. apply Hs in E. by apply tidy_inv. }
    assert (v ≠ PNil → nested ≠ ∅) as Hne.
    { intros Hv0 E. pose proof (store_put_at (k' :: path) (default ∅ (GetStruct store k)) v ltac:(done)) as Hat. fold nested in Hat.
      rewrite E, store_at_empty in Hat. by subst v. }
    assert (nested ≠ ∅ → map_Forall (λ _, tidy) (<[k:=PStruct nested]> store)) as Hput by (intros; apply Hins; [done|by apply tidy_struct]).
    cbv zeta. clearbody nested. destruct v; try (by apply Hput, Hne).
    destruct (size nested =? 0)%nat eqn:E; [by apply Hdel|]. apply Hput. intros En. by rewrite En, map_size_empty in E.
Qed.

(** The store after [setInStore]. *)
Section set_store.
Context `{!PbCompare}.

(** The removed keys of the layer a change is made in: those of the parent are dropped
    when the store is copied from it. *)
Definition own_removed (d : Doc) : gset string :=
  match ly_store (dc_top d) with Some _ => default ∅ (ly_storeKeyRemoved (dc_top d)) | None => ∅ end.

(** C16. What [setInStore] makes of the value at every path: at the path there is the new
    value (nothing after a removal) and below it what the value holds; on the way to it
    there is the struct with the change made in it, or nothing when a removal has left it
    empty, and a value there that was no struct is lost, by a removal too; every other
    path has the value it had.  No empty struct is left behind.  The key joins the
    removed keys of the layer or leaves them, and those of the parents are dropped when
    the layer had no store.  The call panics only for a removal in a layer that has a
    store and no map of removed keys. *)
Theorem setInStore_correct d path v : path ≠ [] →
  (setInStore d path v = None ↔ v = PNil ∧ is_Some (ly_store (dc_top d)) ∧ ly_storeKeyRemoved (dc_top d) = None) ∧
  ∀ ch d', setInStore d path v = Some (ch, d') →
    let old := default ∅ (doc_Store d) in let key := Join path collectionKeysRemovedSeparator in
    ∃ store, doc_Store d' = Some store ∧ store_at store path = v ∧
    (∀ k rest, store_at store (path ++ k :: rest) = match v with PStruct m => store_at m (k :: rest) | _ => PNil end) ∧
    (∀ pre rest, path = pre ++ rest → pre ≠ [] → rest ≠ [] →
       let fields := store_put (fields_at old pre) rest v in
       store_at store pre = match v with PNil => if (size fields =? 0)%nat then PNil else PStruct fields | _ => PStruct fields end) ∧
    (∀ path', ¬ path `prefix_of` path' → ¬ path' `prefix_of` path → store_at store path' = store_at old path') ∧
    (map_Forall (λ _, tidy) old → tidy v → map_Forall (λ _, tidy) store) ∧
    default ∅ (ly_storeKeyRemoved (dc_top d')) = match v with PNil => {[key]} ∪ own_removed d | _ => own_removed d ∖ {[key]} end ∧
    dc_tree d' = dc_tree d.
Proof.
  intros Hp. unfold setInStore. destruct path as [|k path]; [done|]. set (p := k :: path) in *. set (j := Join p collectionKeysRemovedSeparator).
  set (d0 := createOrCopyStoreFromParent d). set (store := default ∅ (ly_store (dc_top d0))).
  assert (store = default ∅ (doc_Store d)) as Es.
  { unfold store, d0, createOrCopyStoreFromParent, doc_Store. destruct (ly_store (dc_top d)) as [m|] eqn:Em; cbn; [by rewrite Em|done]. }
  assert (default ∅ (ly_storeKeyRemoved (dc_top d0)) = own_removed d) as Er0.
  { unfold d0, createOrCopyStoreFromParent, own_removed. by destruct (ly_store (dc_top d)). }
  split.
  { unfold d0, createOrCopyStoreFromParent. destruct (ly_store (dc_top d)) as [m|] eqn:Em; cbn.
    - destruct v; try (split; [done|by intros (? & _)]). destruct (ly_storeKeyRemoved (dc_top d)); split; try done. by intros (_ & _ & ?).
    - split; [by destruct v|]. by intros (_ & [? ?] & _). }
  intros ch d' E. cbv zeta. assert (doc_Store d' = Some (store_put store p v) ∧ dc_tree d' = dc_tree d ∧
    default ∅ (ly_storeKeyRemoved (dc_top d')) = match v with PNil => {[j]} ∪ own_removed d | _ => own_removed d ∖ {[j]} end) as (S1 & S2 & S3).
  { assert (dc_tree d0 = dc_tree d) as Et by (unfold d0, createOrCopyStoreFromParent; by destruct (ly_store (dc_top d))).
    rewrite <- Er0. destruct v; try (injection E as <- <-; split_and!; [done|done|]; cbn;
      destruct (ly_storeKeyRemoved (dc_top d0)); cbn; set_solver).
    destruct (ly_storeKeyRemoved (dc_top d0)) as [r|] eqn:Er; [|done]. injection E as <- <-. done. }
  exists (store_put store p v). rewrite <- Es. split_and!; [done|by apply store_put_at|..|done|done].
  - intros k' rest. by apply store_put_below.
  - intros pre rest -> ? ?. by apply store_put_above.
  - intros path' H1 H2. by apply store_put_apart.
  - apply store_put_tidy.
Qed.
End set_store.
