(* ===== verification/StateApply.v ===== *)
(** * Applying a state to its parent ([core/block/editor/state/state.go], [apply])

    [apply] normalises a state, compares it with its parent, and moves the result
    into the parent: blocks that are no longer reachable are dropped, new and changed
    blocks are written, details, relation links and types replace the parent's.  It
    returns the events for the clients and the action for the undo history.

    A document here is a tree with the layers of [StateDetails].  Text blocks bound
    to a detail take part through an interface ([DetailsHandler] of
    [core/block/simple/simple.go]); the order in which Go ranges over a map is a
    parameter, as is the encoding of messages, generated code. *)

From S2P Require Import Prelude Slice Undo Values PbTypes Details StateTree StateChecks StateDetails.

Local Open Scope Z_scope.

(** ** Events *)

Inductive Msg :=
| MBlock (m : BlockMsg)
| MRelationsRemove (keys : list string)
| MRelationsAmend (links : list RelationLink)
| MDetailsAmend (details : list (string * Value))
| MDetailsUnset (keys : list string).

Record EventMessage := { em_Virtual : bool; em_Msg : Msg }.

Definition block_event (m : BlockMsg) : EventMessage := {| em_Virtual := false; em_Msg := MBlock m |}.

Definition WrapEventMessages (virtual : bool) (msgs : list Msg) : list EventMessage :=
  map (λ m, {| em_Virtual := virtual; em_Msg := m |}) msgs.

(** Without sub ids and filter keys. *)
Definition StructDiffIntoEvents (diff : Details) (keysToUnset : list string) : list Msg :=
  if (d_Len diff =? 0) && bool_decide (keysToUnset = []) then []
  else (if bool_decide ((d_Iterate diff).*1 = []) then [] else [MDetailsAmend (d_Iterate diff)]) ++
       (if bool_decide (keysToUnset = []) then [] else [MDetailsUnset keysToUnset]).

Definition eventGroup (m : EventMessage) : nat :=
  match em_Msg m with
  | MBlock (BAdd _) => 0
  | MBlock (BDelete _) => 1
  | MBlock (BSetChildrenIds _ _) => 2
  | MDetailsAmend _ => 4
  | MDetailsUnset _ => 5
  | _ => 1000
  end.

(** [sort.SliceStable]: there is one stable order. *)
Fixpoint insert_event (e : EventMessage) (l : list EventMessage) : list EventMessage :=
  match l with
  | [] => [e]
  | x :: l => if (eventGroup x <? eventGroup e)%nat then x :: insert_event e l else e :: x :: l
  end.
Definition sortEventMessages (msgs : list EventMessage) : list EventMessage := foldr insert_event [] msgs.

(** ** Differences between blocks *)

(** [Base.Diff]: attributes every block has. *)
Definition base_Diff (a b : Block) : list BlockMsg :=
  (if bool_decide (b_ChildrenIds b = b_ChildrenIds a) then [] else [BSetChildrenIds (b_Id a) (b_ChildrenIds b)]) ++
  (if bool_decide (b_Fields a = b_Fields b) then [] else [BSetFields (b_Id a) (b_Fields b)]) ++
  (if bool_decide (b_BackgroundColor a = b_BackgroundColor b) then [] else [BSetBackgroundColor (b_Id a) (b_BackgroundColor b)]).

(** The content: [None] for a block of another type.  Layouts, the root, tables, their
    columns and blocks without content are [Base] blocks: their content is not compared. *)
Definition content_Diff (id : string) (a b : Content) : option (list BlockMsg) :=
  let set := if bool_decide (a = b) then [] else [BSetContent id b] in
  match a, b with
  | CText _, CText _ => Some set
  | CFile _ _, CFile _ _ => Some set
  | CTableRow _, CTableRow _ => Some set
  | COther k _, COther k' _ => if bool_decide (k = k') then Some set else None
  | (CText _ | CFile _ _ | CTableRow _ | COther _ _), _ => None
  | _, _ => Some []
  end.

Definition err_diff : string := "can't make diff with different block type".

Definition block_Diff (a b : Block) : res (list BlockMsg) :=
  match content_Diff (b_Id a) (b_Content a) (b_Content b) with
  | None => Err err_diff
  | Some l => Ok (base_Diff a b ++ l)
  end.

(** ** Code around it *)

(** The order of a range over a map. *)
Class MapOrder := map_order : Blocks → list string.
Class MapOrderOk `{!MapOrder} := map_order_perm (m : Blocks) : map_order m ≡ₚ (map_to_list m).*1.

(** [Marshal] of an event message (gogo/protobuf). *)
Class MsgCodec (bytes : Type) := { Marshal : Msg → res bytes; bytes_eq_dec :: EqDecision bytes }.
Class MsgCodecOk (bytes : Type) `{!MsgCodec bytes} := {
  Marshal_block m : ∃ x, Marshal (MBlock m) = Ok x;
  Marshal_inj m x m' : Marshal (MBlock m) = Ok x → Marshal m' = Ok x → m' = MBlock m;
}.

(** [DetailsHandler]: a block that shows a detail.  [dh_apply] lists the details it
    sets, given the previous block and the current details. *)
Class DetailsHandler := {
  dh_is : Block → bool;
  dh_init : Details → Block → Block;
  dh_apply : Block → option Block → Details → list (string * Value);
}.
Class DetailsHandlerOk `{!DetailsHandler} := {
  dh_init_id d b : b_Id (dh_init d b) = b_Id b;
  dh_init_children d b : b_ChildrenIds (dh_init d b) = b_ChildrenIds b;
}.

Abbreviation action := (@Action Block (Details * Details) (list RelationLink * list RelationLink) (list string * list string)).

Definition empty_action : action :=
  {| ac_Add := []; ac_Change := []; ac_Remove := []; ac_Details := None; ac_RelationLinks := None; ac_Group := "";
     ac_ObjectTypes := None; ac_CarriageInfo := {| ci_Before := zero_carriage; ci_After := zero_carriage |} |}.

Section apply.
Context (LocalAndDerivedRelationKeys : list string) (Snippet : State → string).
Context (fillChanges : Doc → list EventMessage → list Change).
Context `{!MapOrder, !DetailsHandler, !MsgCodec bytes}.

Definition RelationKeySnippet : string := "snippet".

(** The parent of a tree. *)
Definition parent_tree (t : State) : option State :=
  match st_parents t with
  | [] => None
  | p :: ps => Some {| st_rootId := st_rootId t; st_blocks := p; st_parents := ps; st_changes := []; st_ignoreIds := [] |}
  end.

(** *** The walk: blocks in use, affected blocks, blocks that set details *)

Record walked := { wa_inUse : gset string; wa_affected : list string; wa_doc : Doc; wa_detailsChanged : bool }.

Definition apply_visit (a : walked) (b : Block) : walked :=
  let id := b_Id b in
  let inUse := {[id]} ∪ wa_inUse a in
  let affected := if InState (dc_tree (wa_doc a)) id then wa_affected a ++ [id] else wa_affected a in
  if dh_is b then
    match Get (dc_tree (wa_doc a)) id with
    | (Some db, t) =>
        let sets := dh_apply db (PickOrigin t id) (doc_Details (wa_doc a)) in
        let d := foldl (λ d '(k, v), SetDetail LocalAndDerivedRelationKeys d k v) (with_tree (wa_doc a) t) sets in
        let changed := wa_detailsChanged a || negb (bool_decide (sets.*1 = [])) in
        {| wa_inUse := inUse;
           wa_affected := if changed && (FindPos affected id =? -1) then affected ++ [id] else affected;
           wa_doc := d; wa_detailsChanged := changed |}
    | (None, t) =>
        {| wa_inUse := inUse; wa_affected := affected; wa_doc := with_tree (wa_doc a) t;
           wa_detailsChanged := wa_detailsChanged a |}
    end
  else {| wa_inUse := inUse; wa_affected := affected; wa_doc := wa_doc a; wa_detailsChanged := wa_detailsChanged a |}.

(** *** New and changed blocks *)

Record compared := { co_doc : Doc; co_newBlocks : list Block; co_msgs : list EventMessage; co_action : action }.

Definition flushNewBlocks (c : compared) : compared :=
  {| co_doc := co_doc c; co_newBlocks := [];
     co_msgs := if bool_decide (co_newBlocks c = []) then co_msgs c else co_msgs c ++ [block_event (BAdd (co_newBlocks c))];
     co_action := co_action c |}.

(** A file that was uploading is recorded as empty, in the parent's own block. *)
Definition settle_file (b : Block) : Block :=
  match b_Content b with
  | CFile FileUploading p =>
      {| b_Id := b_Id b; b_ChildrenIds := b_ChildrenIds b; b_Content := CFile FileEmpty p; b_Fields := b_Fields b; b_BackgroundColor := b_BackgroundColor b |}
  | _ => b
  end.

Fixpoint settle_layers (layers : list Blocks) (id : string) : list Blocks :=
  match layers with
  | [] => []
  | l :: layers => match l !! id with
                   | Some b => <[id:=settle_file b]> l :: layers
                   | None => l :: settle_layers layers id
                   end
  end.

Definition settle_parents (t : State) (id : string) : State :=
  {| st_rootId := st_rootId t; st_blocks := st_blocks t; st_parents := settle_layers (st_parents t) id;
     st_changes := st_changes t; st_ignoreIds := st_ignoreIds t |}.

Definition compare_block (detailsChanged : bool) (c : compared) (id : string) : res compared :=
  match PickOrigin (dc_tree (co_doc c)) id with
  | None =>
      match st_blocks (dc_tree (co_doc c)) !! id with
      | None => Ok c
      | Some b =>
          let bc := if dh_is b then dh_init (doc_Details (co_doc c)) b else b in
          Ok {| co_doc := co_doc c; co_newBlocks := co_newBlocks c ++ [bc]; co_msgs := co_msgs c;
                co_action := with_Add (co_action c) (ac_Add (co_action c) ++ [bc]) |}
      end
  | Some orig =>
      let c := flushNewBlocks c in
      match Get (dc_tree (co_doc c)) id with
      | (None, _) => Ok c
      | (Some b, t) =>
          let b := if detailsChanged && dh_is b then dh_init (doc_Details (co_doc c)) b else b in
          let t := with_blocks t (<[id:=b]> (st_blocks t)) in
          match block_Diff orig b with
          | Err e => Err e
          | Ok [] => Ok {| co_doc := with_tree (co_doc c) t; co_newBlocks := co_newBlocks c; co_msgs := co_msgs c;
                           co_action := co_action c |}
          | Ok diff =>
              Ok {| co_doc := with_tree (co_doc c) (settle_parents t id); co_newBlocks := co_newBlocks c;
                    co_msgs := co_msgs c ++ map block_event diff;
                    co_action := with_Change (co_action c)
                      (ac_Change (co_action c) ++ [{| ch_Before := settle_file orig; ch_After := b |}]) |}
          end
      end
  end.

Fixpoint compare_blocks (detailsChanged : bool) (c : compared) (ids : list string) : res compared :=
  match ids with
  | [] => Ok c
  | id :: ids => match compare_block detailsChanged c id with
                 | Err e => Err e
                 | Ok c => compare_blocks detailsChanged c ids
                 end
  end.

(** *** The end of the messages *)

(** A message equal to the one before it is dropped. *)
Fixpoint drop_duplicated (prev : option bytes) (msgs : list EventMessage) : list EventMessage :=
  match msgs with
  | [] => []
  | e :: msgs =>
      match Marshal (em_Msg e) with
      | Err _ => drop_duplicated prev msgs
      | Ok curr => if bool_decide (prev = Some curr) then drop_duplicated prev msgs
                   else e :: drop_duplicated (Some curr) msgs
      end
  end.
Definition processTrailingDuplicatedEvents (msgs : list EventMessage) : list EventMessage := drop_duplicated None msgs.

(** *** Moving the result into the parent *)

(** Details that are equal to the parent's own are not written. *)
Definition merge_details (new own prev : Details) : Details :=
  match new with
  | None => own
  | Some _ =>
      let '(diff, keysToUnset) := StructDiff prev new in
      if bool_decide (is_Some diff) || negb (bool_decide (keysToUnset = [])) then new
      else if negb (d_Equal new own) then new else own
  end.

(** The parent's layer [p], over the layers [below], after the state's layer [s] was
    merged into it. *)
Definition merge_layer (s p : Layer) (below : list Layer) : Layer :=
  {| ly_details := merge_details (ly_details s) (ly_details p) (inherited ly_details (p :: below));
     ly_localDetails := merge_details (ly_localDetails s) (ly_localDetails p) (inherited ly_localDetails (p :: below));
     ly_relationLinks := match ly_relationLinks s with Some l => Some l | None => ly_relationLinks p end;
     ly_objectTypeKeys := match ly_objectTypeKeys s with
                          | Some keys => if UnsortedEqual (default [] (inherited ly_objectTypeKeys (p :: below))) keys
                                       then ly_objectTypeKeys p else Some keys
                          | None => ly_objectTypeKeys p
                          end;
     ly_changeId := if bool_decide (ly_changeId s = "") then ly_changeId p else ly_changeId s;
     ly_migrationVersion := ly_migrationVersion s;
     ly_uniqueKeyInternal := ly_uniqueKeyInternal s;
     ly_originalCreatedTimestamp := if ly_originalCreatedTimestamp s >? 0 then ly_originalCreatedTimestamp s
                                    else ly_originalCreatedTimestamp p;
     ly_fileInfo := ly_fileInfo s;
     ly_fileKeys := ly_fileKeys p ++ ly_fileKeys s;
     ly_store := match ly_store s with Some x => Some x | None => ly_store p end;
     ly_storeLastChangeIdByPath := match ly_storeLastChangeIdByPath s with Some x => Some x
                                                                        | None => ly_storeLastChangeIdByPath p end;
     ly_storeKeyRemoved := match ly_storeKeyRemoved s with Some x => Some x | None => ly_storeKeyRemoved p end;
     ly_notifications := match ly_notifications s with Some x => Some x | None => ly_notifications p end;
     ly_deviceStore := match ly_deviceStore s with Some x => Some x | None => ly_deviceStore p end |}.

(** The messages of a change of details; also the change itself when there is one. *)
Definition details_change (virtual : bool) (prev new : Details) : list EventMessage * option (Details * Details) :=
  match new with
  | None => ([], None)
  | Some _ =>
      let '(diff, keysToUnset) := StructDiff prev new in
      if bool_decide (is_Some diff) || negb (bool_decide (keysToUnset = []))
      then (WrapEventMessages virtual (StructDiffIntoEvents diff keysToUnset), Some (d_Copy prev, d_Copy new))
      else ([], None)
  end.

Definition links_change (new : option (list RelationLink)) (prev : option (list RelationLink))
    : list EventMessage * option (list RelationLink * list RelationLink) :=
  match new with
  | None => ([], None)
  | Some links =>
      let '(added, removed) := rl_Diff links (default [] prev) in
      (WrapEventMessages false ((if bool_decide (removed = []) then [] else [MRelationsRemove removed]) ++
                                (if (length added =? 0)%nat then [] else [MRelationsAmend added])),
       if (length added + length removed =? 0)%nat then None else Some (default [] prev, links))
  end.

Definition types_change (prev new : option (list string)) : option (list string * list string) :=
  match new with
  | None => None
  | Some keys => if UnsortedEqual (default [] prev) keys then None else Some (default [] prev, keys)
  end.

Definition write_parent (d : Doc) (p : Layer) (below : list Layer) (blocks : Blocks) (ps : list Blocks) (changes : list Change)
    : Doc :=
  {| dc_tree := {| st_rootId := st_rootId (dc_tree d); st_blocks := blocks; st_parents := ps; st_changes := changes;
                   st_ignoreIds := [] |};
     dc_top := merge_layer (dc_top d) p below;
     dc_below := below |}.

Definition delete_ids (ids : list string) (m : Blocks) : Blocks := foldl (λ m id, delete id m) m ids.

(** Writes the blocks in use over the parent's. *)
Definition write_blocks (inUse : gset string) (top p : Blocks) : Blocks :=
  foldl (λ m kb, if bool_decide (b_Id kb.2 ∈ inUse) then <[b_Id kb.2:=kb.2]> m else m) p (map_to_list top).

(** [apply] for a state that is already normalised, over at most one parent (or over
    the last one): the messages, the action, and the parent, or the state itself
    when it has none. *)
Definition apply_normalized (d : Doc) : option (res (list EventMessage * action * Doc)) :=
  let d := match parent_tree (dc_tree d) with
           | Some pt => if bool_decide (Snippet (dc_tree d) = Snippet pt) then d
                        else SetLocalDetail d RelationKeySnippet (String (Snippet (dc_tree d)))
           | None => d
           end in
  let detailsChanged :=
    match dc_below d, ly_details (dc_top d) with
    | _ :: _, Some m => negb (d_Equal (parent_Details d) (Some m))
    | _, _ => false
    end in
  match Iterate (dc_tree d) (λ a b, (apply_visit a b, true))
          {| wa_inUse := ∅; wa_affected := []; wa_doc := d; wa_detailsChanged := detailsChanged |} with
  | None => None
  | Some (_, _, Some err) => Some (Err err)
  | Some (a, _, None) =>
      match compare_blocks (wa_detailsChanged a)
              {| co_doc := wa_doc a; co_newBlocks := []; co_msgs := []; co_action := empty_action |} (wa_affected a) with
      | Err e => Some (Err e)
      | Ok c =>
          let c := flushNewBlocks c in
          let d := co_doc c in
          let t := dc_tree d in
          let bm := match st_parents t with [] => st_blocks t | p :: _ => p end in
          let toRemove := filter (λ id, id ∉ wa_inUse a) (map_order bm) in
          let msgs := co_msgs c ++ (if bool_decide (toRemove = []) then [] else [block_event (BDelete toRemove)]) in
          match st_parents t, dc_below d with
          | p :: ps, pl :: below =>
              let '(linkMsgs, linkChange) := links_change (ly_relationLinks (dc_top d)) (ly_relationLinks pl) in
              let msgs := msgs ++ linkMsgs in
              let changes := fillChanges d msgs in
              let removed := omap (λ id, p !! id) toRemove in
              let blocks := write_blocks (wa_inUse a) (st_blocks t) (delete_ids toRemove p) in
              let '(detMsgs, detChange) := details_change false (inherited ly_details (pl :: below)) (ly_details (dc_top d)) in
              let '(locMsgs, _) := details_change true (inherited ly_localDetails (pl :: below)) (ly_localDetails (dc_top d)) in
              let act :=
                {| ac_Add := ac_Add (co_action c); ac_Change := ac_Change (co_action c); ac_Remove := removed;
                   ac_Details := detChange; ac_RelationLinks := linkChange; ac_Group := "";
                   ac_ObjectTypes := types_change (inherited ly_objectTypeKeys (pl :: below)) (ly_objectTypeKeys (dc_top d));
                   ac_CarriageInfo := ac_CarriageInfo (co_action c) |} in
              Some (Ok (sortEventMessages (processTrailingDuplicatedEvents (msgs ++ detMsgs ++ locMsgs)), act,
                        write_parent d pl below blocks ps changes))
          | _, _ =>
              Some (Ok (sortEventMessages (processTrailingDuplicatedEvents msgs), co_action c,
                        with_tree d (with_blocks (with_changes t (fillChanges d msgs)) (delete_ids toRemove (st_blocks t)))))
          end
      end
  end.

(** ** A chain of states

    With more than one parent the state is first merged into the next one as it is.
    The changes recorded by a parent are not part of the model: it has none of its
    own pending. *)

(** [s.parent.Set(b)] for every block; the details that are set. *)
Definition intermediateApply (d : Doc) : Doc :=
  match st_parents (dc_tree d), dc_below d with
  | p :: ps, pl :: below =>
      let t0 := {| st_rootId := st_rootId (dc_tree d); st_blocks := p; st_parents := ps; st_changes := [];
                   st_ignoreIds := [] |} in
      let t := foldl (λ t kb, Set_ t kb.2) t0 (map_to_list (st_blocks (dc_tree d))) in
      let s := dc_top d in
      {| dc_tree := with_changes t (st_changes (dc_tree d));
         dc_top :=
           {| ly_details := if bool_decide (is_Some (ly_details s)) then ly_details s else ly_details pl;
              ly_localDetails := if bool_decide (is_Some (ly_localDetails s)) then ly_localDetails s else ly_localDetails pl;
              ly_relationLinks := match ly_relationLinks s with Some l => Some l | None => ly_relationLinks pl end;
              ly_objectTypeKeys := match ly_objectTypeKeys s with Some l => Some l | None => ly_objectTypeKeys pl end;
              ly_changeId := if bool_decide (ly_changeId s = "") then ly_changeId pl else ly_changeId s;
              ly_migrationVersion := ly_migrationVersion pl; ly_uniqueKeyInternal := ly_uniqueKeyInternal pl;
              ly_originalCreatedTimestamp := ly_originalCreatedTimestamp pl; ly_fileInfo := ly_fileInfo s;
              ly_fileKeys := ly_fileKeys pl ++ ly_fileKeys s;
              ly_store := match ly_store s with Some x => Some x | None => ly_store pl end;
              ly_storeLastChangeIdByPath := match ly_storeLastChangeIdByPath s with
                                            | Some x => Some x | None => ly_storeLastChangeIdByPath pl end;
              ly_storeKeyRemoved := ly_storeKeyRemoved pl;
              ly_notifications := match ly_notifications s with Some x => Some x | None => ly_notifications pl end;
              ly_deviceStore := ly_deviceStore pl |};
         dc_below := below |}
  | _, _ => d
  end.

(** [normalize] comes first; [None] is a panic or a descent that does not end. *)
Definition apply (normalize : State → option (res State)) (d : Doc) : option (res (list EventMessage * action * Doc)) :=
  match normalize (dc_tree d) with
  | None => None
  | Some (Err e) => Some (Err e)
  | Some (Ok t) => apply_normalized (with_tree d t)
  end.

(** [apply] with any number of parents ([fast] and [one] are not set). *)
Fixpoint apply_chain (fuel : nat) (normalize : State → option (res State)) (d : Doc)
    : option (res (list EventMessage * action * Doc)) :=
  match fuel, st_parents (dc_tree d) with
  | S fuel, _ :: _ :: _ => apply_chain fuel normalize (intermediateApply d)
  | _, _ => apply normalize d
  end.
Definition ApplyState (normalize : State → option (res State)) (d : Doc) : option (res (list EventMessage * action * Doc)) :=
  apply_chain (length (st_parents (dc_tree d))) normalize d.

(** *** Without blocks bound to details *)

Section plain.
Context (Hplain : ∀ b, dh_is b = false).

Lemma fold_always {A} (g : A → Block → A) acc l : fold_stop (λ a b, (g a b, true)) acc l = (foldl g acc l, true).
Proof. revert acc. induction l as [|b l IH]; intros acc; [done|]. simpl. apply IH. Qed.

Lemma apply_visit_fold a l :
  foldl apply_visit a l =
    {| wa_inUse := list_to_set (map b_Id l) ∪ wa_inUse a;
       wa_affected := wa_affected a ++ filter (λ id, is_Some (st_blocks (dc_tree (wa_doc a)) !! id)) (map b_Id l);
       wa_doc := wa_doc a; wa_detailsChanged := wa_detailsChanged a |}.
Proof.
  revert a. induction l as [|b l IH]; intros a; cbn [foldl map list_to_set].
  { rewrite filter_nil, app_nil_r, (left_id_L ∅ (∪)). by destruct a. }
  rewrite IH. unfold apply_visit. rewrite Hplain. cbn [wa_inUse wa_affected wa_doc wa_detailsChanged]. f_equal.
  - set_solver.
  - unfold InState. rewrite filter_cons. destruct (decide (is_Some (st_blocks (dc_tree (wa_doc a)) !! b_Id b))).
    + rewrite bool_decide_eq_true_2 by done. by rewrite <- app_assoc.
    + by rewrite bool_decide_eq_false_2.
Qed.

(** What the comparison of one block with its origin is about. *)
Definition diff_of (p : Blocks) (b : Block) : res (list BlockMsg) :=
  match p !! b_Id b with None => Ok [] | Some orig => block_Diff orig b end.
Definition added_of (p : Blocks) (b : Block) : option Block := match p !! b_Id b with None => Some b | Some _ => None end.
Definition change_of (p : Blocks) (b : Block) : option BChange :=
  match p !! b_Id b with
  | None => None
  | Some orig => match block_Diff orig b with
                 | Ok (_ :: _) => Some {| ch_Before := settle_file orig; ch_After := b |}
                 | _ => None
                 end
  end.

(** The messages about blocks in a list of events and in the blocks not sent yet. *)
Definition said (l : list EventMessage) (m : BlockMsg) : Prop := ∃ e, e ∈ l ∧ em_Msg e = MBlock m.
Definition says (c : compared) (m : BlockMsg) : Prop := said (co_msgs c) m.
Definition says_added (c : compared) (b : Block) : Prop := b ∈ co_newBlocks c ∨ ∃ bs, says c (BAdd bs) ∧ b ∈ bs.
Definition is_set (m : BlockMsg) : Prop := match m with BAdd _ | BDelete _ => False | _ => True end.

#[export] Instance is_set_dec m : Decision (is_set m).
Proof. destruct m; simpl; apply _. Defined.

Lemma diff_is_set a b diff m : block_Diff a b = Ok diff → m ∈ diff → is_set m.
Proof.
  unfold block_Diff, base_Diff. destruct (content_Diff _ _ _) as [l|] eqn:El; [|done]. intros [= <-].
  assert (∀ x, x ∈ l → is_set x) as Hl.
  { intros x Hx. unfold content_Diff in El. destruct (b_Content a), (b_Content b); simplify_eq;
      repeat (case_bool_decide; simplify_eq); try (by apply elem_of_nil in Hx);
      by apply list_elem_of_singleton in Hx as ->. }
  intros [[Hm|[Hm|Hm]%elem_of_app]%elem_of_app|Hm]%elem_of_app; [| | |by apply Hl];
    revert Hm; case_bool_decide; intros Hm; try (by apply elem_of_nil in Hm); by apply list_elem_of_singleton in Hm as ->.
Qed.

Lemma said_app l1 l2 m : said (l1 ++ l2) m ↔ said l1 m ∨ said l2 m.
Proof. unfold said. setoid_rewrite elem_of_app. naive_solver. Qed.
Lemma said_events ms m : said (map block_event ms) m ↔ m ∈ ms.
Proof.
  unfold said. split.
  - intros (e & (m' & -> & Hm)%list_elem_of_fmap & [= ->]). done.
  - intros Hm. exists (block_event m). split; [by apply list_elem_of_fmap_2|done].
Qed.
Lemma said_nil m : ¬ said [] m.
Proof. by intros (e & ?%elem_of_nil & _). Qed.

Lemma flush_said c m :
  says (flushNewBlocks c) m ↔ says c m ∨ co_newBlocks c ≠ [] ∧ m = BAdd (co_newBlocks c).
Proof.
  unfold says, flushNewBlocks. cbn [co_msgs]. case_bool_decide as He; [naive_solver|].
  rewrite said_app. change [block_event ?x] with (map block_event [x]). rewrite said_events, list_elem_of_singleton.
  naive_solver.
Qed.

Lemma flush_says c m : (∀ bs, m ≠ BAdd bs) → says (flushNewBlocks c) m ↔ says c m.
Proof. intros Hm. rewrite flush_said. naive_solver. Qed.

Lemma flush_added c b : says_added (flushNewBlocks c) b ↔ says_added c b.
Proof.
  unfold says_added. setoid_rewrite flush_said. cbn [flushNewBlocks co_newBlocks]. rewrite elem_of_nil. split.
  - intros [[]|(bs & [Hs|[_ [= ->]]] & Hb)]; [right; by exists bs|by left].
  - intros [Hb|(bs & Hs & Hb)]; right; [|exists bs; tauto]. exists (co_newBlocks c). split; [|done]. right.
    split; [|done]. intros E. rewrite E in Hb. by apply elem_of_nil in Hb.
Qed.

(** The effect of the comparison on a document over one parent. *)
Record compared_to (p : Blocks) (bs : list Block) (c c' : compared) : Prop := {
  ct_top : dc_top (co_doc c') = dc_top (co_doc c);
  ct_below : dc_below (co_doc c') = dc_below (co_doc c);
  ct_root : st_rootId (dc_tree (co_doc c')) = st_rootId (dc_tree (co_doc c));
  ct_blocks : st_blocks (dc_tree (co_doc c')) = st_blocks (dc_tree (co_doc c));
  ct_parents pc : st_parents (dc_tree (co_doc c)) = [pc] →
    ∃ pc', st_parents (dc_tree (co_doc c')) = [pc'] ∧ (∀ id, id ∉ map b_Id bs → pc' !! id = pc !! id) ∧
      ∀ id, is_Some (pc' !! id) ↔ is_Some (pc !! id);
  ct_add : ac_Add (co_action c') = ac_Add (co_action c) ++ omap (added_of p) bs;
  ct_change : ac_Change (co_action c') = ac_Change (co_action c) ++ omap (change_of p) bs;
  ct_says_added b : says_added c' b ↔ says_added c b ∨ b ∈ omap (added_of p) bs;
  ct_says m : (∀ bl, m ≠ BAdd bl) →
    says c' m ↔ says c m ∨ ∃ b diff, b ∈ bs ∧ diff_of p b = Ok diff ∧ m ∈ diff;
}.

Lemma compare_block_spec ch p pc c b :
  st_blocks (dc_tree (co_doc c)) !! b_Id b = Some b → st_parents (dc_tree (co_doc c)) = [pc] →
  pc !! b_Id b = p !! b_Id b →
  match diff_of p b with
  | Err e => compare_block ch c (b_Id b) = Err e
  | Ok _ => ∃ c', compare_block ch c (b_Id b) = Ok c' ∧ compared_to p [b] c c'
  end.
Proof.
  intros Hb Hps Hp. unfold diff_of, compare_block, PickOrigin. rewrite Hps. cbn [pick_layers]. rewrite Hp.
  destruct (p !! b_Id b) as [orig|] eqn:Eo.
  - assert (Get (dc_tree (co_doc (flushNewBlocks c))) (b_Id b) = (Some b, dc_tree (co_doc c))) as ->.
    { unfold Get. cbn [flushNewBlocks co_doc]. by rewrite Hb. }
    rewrite Hplain, andb_false_r, insert_id by done.
    assert (with_blocks (dc_tree (co_doc c)) (st_blocks (dc_tree (co_doc c))) = dc_tree (co_doc c)) as -> by (by destruct (dc_tree (co_doc c))).
    destruct (block_Diff orig b) as [diff|e] eqn:Ed; [|done].
    assert (omap (added_of p) [b] = []) as Ha by (cbn; unfold added_of; by rewrite Eo).
    assert (∀ m : BlockMsg, (∃ b' diff', b' ∈ [b] ∧ diff_of p b' = Ok diff' ∧ m ∈ diff') ↔ m ∈ diff) as Hex.
    { intros m. unfold diff_of. split.
      - intros (b' & diff' & ->%list_elem_of_singleton & Hd & Hm). rewrite Eo, Ed in Hd. by simplify_eq.
      - intros Hm. exists b, diff. rewrite Eo. split_and!; [by left|done|done]. }
    destruct diff as [|m0 diff].
    + assert (omap (change_of p) [b] = []) as Hc by (cbn; unfold change_of; by rewrite Eo, Ed).
      eexists. split; [done|]. split; cbn [co_doc co_action co_msgs with_tree dc_top dc_below dc_tree]; try done.
      * intros pc0 ->. exists pc0. split_and!; naive_solver.
      * by rewrite Ha, app_nil_r.
      * by rewrite Hc, app_nil_r.
      * intros b'. rewrite Ha, elem_of_nil, <- (flush_added c b'). unfold says_added, says. cbn [co_newBlocks co_msgs flushNewBlocks]. tauto.
      * intros m Hm. rewrite Hex, elem_of_nil, <- (flush_says c m Hm). unfold says. cbn [co_msgs flushNewBlocks]. tauto.
    + assert (omap (change_of p) [b] = [{| ch_Before := settle_file orig; ch_After := b |}]) as Hc
        by (cbn; unfold change_of; by rewrite Eo, Ed).
      eexists. split; [done|]. split; cbn [co_doc co_action co_msgs with_tree dc_top dc_below dc_tree]; try done.
      * intros pc0 Hpc0. rewrite Hps in Hpc0. injection Hpc0 as <-. cbn [settle_parents st_parents]. rewrite Hps.
        cbn [settle_layers]. rewrite Hp. exists (<[b_Id b:=settle_file orig]> pc). split_and!; [done| |].
        -- intros id Hid. apply lookup_insert_ne. intros E. apply Hid. rewrite <- E. by left.
        -- intros id. destruct (decide (id = b_Id b)) as [->|]; [|by rewrite lookup_insert_ne].
           rewrite lookup_insert_eq, Hp. split; intros _; by eexists.
      * by rewrite Ha, app_nil_r.
      * by rewrite Hc.
      * intros b'. rewrite Ha, elem_of_nil. pose proof (flush_added c b') as Hf.
        rewrite <- Hf. unfold says_added, says. cbn [co_msgs co_newBlocks]. setoid_rewrite said_app.
        setoid_rewrite said_events. split; [|naive_solver]. intros [?|(bl & [Hs|Hs] & Hb')]; [by left; left|left; right; by exists bl|].
        by eapply diff_is_set in Ed; [|exact Hs].
      * intros m Hm. rewrite Hex, <- (flush_says c m Hm). unfold says. cbn [co_msgs]. by rewrite said_app, said_events.
  - rewrite Hb, Hplain. assert (omap (added_of p) [b] = [b]) as Ha by (cbn; unfold added_of; by rewrite Eo).
    assert (omap (change_of p) [b] = []) as Hc by (cbn; unfold change_of; by rewrite Eo).
    eexists. split; [done|]. split; cbn [co_doc co_action co_msgs]; try done.
    + intros pc0 ->. exists pc0. split_and!; naive_solver.
    + by rewrite Ha.
    + by rewrite Hc, app_nil_r.
    + intros b'. rewrite Ha, list_elem_of_singleton. unfold says_added, says. cbn [co_newBlocks co_msgs]. rewrite elem_of_app, list_elem_of_singleton. tauto.
    + intros m Hm. unfold says, diff_of. cbn [co_msgs]. split; [by left|].
      intros [?|(b' & diff & ->%list_elem_of_singleton & Hd & Hin)]; [done|]. rewrite Eo in Hd. simplify_eq.
      by apply elem_of_nil in Hin.
Qed.

Lemma omap_cons_app {A B} (f : A → option B) b bs : omap f (b :: bs) = omap f [b] ++ omap f bs.
Proof. cbn. by destruct (f b). Qed.

Lemma compared_to_cons p b bs c c1 c2 :
  compared_to p [b] c c1 → compared_to p bs c1 c2 → compared_to p (b :: bs) c c2.
Proof.
  intros [T1 B1 R1 K1 P1 A1 C1 SA1 S1] [T2 B2 R2 K2 P2 A2 C2 SA2 S2].
  split; try congruence.
  - intros pc Hpc. destruct (P1 pc Hpc) as (pc1 & Hpc1 & E1 & D1). destruct (P2 pc1 Hpc1) as (pc2 & Hpc2 & E2 & D2).
    exists pc2. split_and!; [done| |].
    + intros id Hid. simpl in Hid. apply not_elem_of_cons in Hid as [? ?]. rewrite E2 by done. apply E1. simpl.
      by rewrite list_elem_of_singleton.
    + intros id. by rewrite D2, D1.
  - by rewrite A2, A1, (omap_cons_app (added_of p) b bs), <- app_assoc.
  - by rewrite C2, C1, (omap_cons_app (change_of p) b bs), <- app_assoc.
  - intros x. rewrite SA2, SA1, (omap_cons_app (added_of p) b bs), elem_of_app. tauto.
  - intros m Hm. rewrite S2, S1 by done. split.
    + intros [[?|(x & diff & ->%list_elem_of_singleton & ? & ?)]|(x & diff & ? & ? & ?)]; [by left| |];
        right; [exists b|exists x]; exists diff; (split_and!; [|done|done]); [by left|by right].
    + intros [?|(x & diff & [->|?]%elem_of_cons & ? & ?)]; [by left; left| |].
      * left. right. exists b, diff. split_and!; [by left|done|done].
      * right. by exists x, diff.
Qed.

Lemma compare_blocks_spec ch p pc bs c :
  NoDup (map b_Id bs) → (∀ b, b ∈ bs → st_blocks (dc_tree (co_doc c)) !! b_Id b = Some b) →
  st_parents (dc_tree (co_doc c)) = [pc] → (∀ b, b ∈ bs → pc !! b_Id b = p !! b_Id b) →
  (∀ b, b ∈ bs → ∃ diff, diff_of p b = Ok diff) →
  ∃ c', compare_blocks ch c (map b_Id bs) = Ok c' ∧ compared_to p bs c c'.
Proof.
  revert pc c. induction bs as [|b bs IH]; intros pc c Hnd Hb Hpc Hp Hd.
  { exists c. split; [done|]. split; try done.
    - intros pc0 ->. exists pc0. split_and!; naive_solver.
    - by rewrite app_nil_r.
    - by rewrite app_nil_r.
    - intros b. cbn. rewrite elem_of_nil. tauto.
    - intros m _. setoid_rewrite elem_of_nil. naive_solver. }
  cbn [map] in Hnd. apply NoDup_cons in Hnd as [Hn Hnd].
  pose proof (compare_block_spec ch p pc c b (Hb b ltac:(by left)) Hpc (Hp b ltac:(by left))) as Hs.
  destruct (Hd b ltac:(by left)) as [diff Ed]. rewrite Ed in Hs. destruct Hs as (c1 & E1 & H1).
  destruct (ct_parents _ _ _ _ H1 pc Hpc) as (pc1 & Hpc1 & K1 & _).
  destruct (IH pc1 c1) as (c2 & E2 & H2).
  - done.
  - intros b' Hb'. rewrite (ct_blocks _ _ _ _ H1). apply Hb. by right.
  - done.
  - intros b' Hb'. rewrite K1; [apply Hp; by right|]. simpl. rewrite list_elem_of_singleton. intros E. apply Hn.
    rewrite <- E. by apply list_elem_of_fmap_2.
  - intros b' Hb'. apply Hd. by right.
  - exists c2. cbn [map compare_blocks]. rewrite E1. split; [done|]. by eapply compared_to_cons.
Qed.

Lemma compare_blocks_err ch p pc bs c :
  NoDup (map b_Id bs) → (∀ b, b ∈ bs → st_blocks (dc_tree (co_doc c)) !! b_Id b = Some b) →
  st_parents (dc_tree (co_doc c)) = [pc] → (∀ b, b ∈ bs → pc !! b_Id b = p !! b_Id b) →
  (∃ b e, b ∈ bs ∧ diff_of p b = Err e) → ∃ e, compare_blocks ch c (map b_Id bs) = Err e.
Proof.
  revert pc c. induction bs as [|b bs IH]; intros pc c Hnd Hb Hpc Hp (b0 & e0 & Hin & He); [by apply elem_of_nil in Hin|].
  cbn [map] in Hnd. apply NoDup_cons in Hnd as [Hn Hnd]. cbn [map compare_blocks].
  pose proof (compare_block_spec ch p pc c b (Hb b ltac:(by left)) Hpc (Hp b ltac:(by left))) as Hs.
  destruct (diff_of p b) as [diff|e] eqn:Ed; [|rewrite Hs; by eexists]. destruct Hs as (c1 & E1 & H1). rewrite E1.
  destruct (ct_parents _ _ _ _ H1 pc Hpc) as (pc1 & Hpc1 & K1 & _). apply (IH pc1 c1); [done| |done| |].
  - intros b' Hb'. rewrite (ct_blocks _ _ _ _ H1). apply Hb. by right.
  - intros b' Hb'. rewrite K1; [apply Hp; by right|]. simpl. rewrite list_elem_of_singleton. intros E. apply Hn.
    rewrite <- E. by apply list_elem_of_fmap_2.
  - exists b0, e0. split; [|done]. apply elem_of_cons in Hin as [->|Hin]; [congruence|done].
Qed.

Lemma delete_ids_lookup ids m id : delete_ids ids m !! id = if decide (id ∈ ids) then None else m !! id.
Proof.
  unfold delete_ids. revert m. induction ids as [|x ids IH]; intros m; cbn [foldl].
  { by rewrite decide_False by (apply not_elem_of_nil). }
  rewrite IH. destruct (decide (id ∈ ids)) as [|Hn]; [rewrite decide_True; [done|by right]|].
  destruct (decide (id = x)) as [->|Hne].
  - rewrite lookup_delete_eq, decide_True; [done|by left].
  - rewrite lookup_delete_ne, decide_False by (rewrite ?elem_of_cons; naive_solver). done.
Qed.

Lemma write_blocks_lookup inUse top p id :
  (∀ id b, top !! id = Some b → b_Id b = id) →
  write_blocks inUse top p !! id =
    match top !! id with
    | Some b => if decide (id ∈ inUse) then Some b else p !! id
    | None => p !! id
    end.
Proof.
  intros Hk. unfold write_blocks.
  assert (∀ (l : list (string * Block)) (m : Blocks), (∀ kb, kb ∈ l → top !! kb.1 = Some kb.2) → NoDup l.*1 →
    foldl (λ m kb, if bool_decide (b_Id kb.2 ∈ inUse) then <[b_Id kb.2:=kb.2]> m else m) m l !! id =
    match (list_to_map l : Blocks) !! id with
    | Some b => if decide (id ∈ inUse) then Some b else m !! id
    | None => m !! id
    end) as Hl.
  { induction l as [|[k b] l IH]; intros m Hl Hnd; [done|]. cbn [foldl]. rewrite list_to_map_cons. cbn [fmap list_fmap] in Hnd.
    apply NoDup_cons in Hnd as [Hn Hnd]. rewrite IH; [|intros; apply Hl; by right|done].
    assert (b_Id b = k) as Hb by (apply Hk, (Hl (k, b)); by left). cbn [snd fst] in *. rewrite Hb.
    destruct (decide (id = k)) as [->|Hne].
    - rewrite lookup_insert_eq, not_elem_of_list_to_map_1 by done. case_bool_decide; case_decide; try done.
      by rewrite lookup_insert_eq.
    - rewrite lookup_insert_ne by done. case_bool_decide; [rewrite lookup_insert_ne by done|]; done. }
  rewrite Hl, list_to_map_to_list; [done| |apply NoDup_fst_map_to_list].
  intros [k b] Hin%elem_of_map_to_list. done.
Qed.

Lemma insert_event_perm e l : insert_event e l ≡ₚ e :: l.
Proof.
  induction l as [|x l IH]; [done|]. cbn [insert_event]. destruct (eventGroup x <? eventGroup e)%nat; [|done].
  rewrite IH. constructor.
Qed.

Lemma sortEventMessages_perm l : sortEventMessages l ≡ₚ l.
Proof. induction l as [|e l IH]; [done|]. cbn [sortEventMessages foldr]. rewrite insert_event_perm. by constructor. Qed.

Lemma said_perm l l' m : l ≡ₚ l' → said l m ↔ said l' m.
Proof. intros Hp. unfold said. by setoid_rewrite Hp. Qed.

Section codec.
Context `{!MsgCodecOk bytes}.

Lemma drop_duplicated_said prev l m :
  (said (drop_duplicated prev l) m → said l m) ∧
  (said l m → said (drop_duplicated prev l) m ∨ ∃ x, Marshal (MBlock m) = Ok x ∧ prev = Some x).
Proof.
  revert prev. induction l as [|e l IH]; intros prev; [split; [done|by left]|].
  assert (∀ l', said (e :: l') m ↔ em_Msg e = MBlock m ∨ said l' m) as Hc.
  { intros l'. unfold said. split.
    - intros (x & [->|Hx]%elem_of_cons & Ex); [by left|]. right. by exists x.
    - intros [Ee|(x & Hx & Ex)]; [exists e; split; [by left|done]|exists x; split; [by right|done]]. }
  rewrite Hc. cbn [drop_duplicated]. destruct (Marshal (em_Msg e)) as [curr|err] eqn:Em.
  - case_bool_decide as Hp.
    + destruct (IH prev) as [I1 I2]. split; [by right; apply I1|]. intros [Ee|Hs]; [|by apply I2].
      right. exists curr. by rewrite <- Ee.
    + destruct (IH (Some curr)) as [I1 I2]. rewrite Hc. split; [tauto|]. intros [Ee|Hs]; [by left; left|].
      destruct (I2 Hs) as [?|(x & Hx & [= ->])]; [by left; right|]. left. left. by eapply Marshal_inj.
  - destruct (IH prev) as [I1 I2]. split; [by right; apply I1|]. intros [Ee|Hs]; [|by apply I2].
    exfalso. rewrite Ee in Em. destruct (Marshal_block m) as [x Hx]. congruence.
Qed.

Lemma said_final l m : said (sortEventMessages (processTrailingDuplicatedEvents l)) m ↔ said l m.
Proof.
  rewrite (said_perm _ _ m (sortEventMessages_perm _)). unfold processTrailingDuplicatedEvents.
  destruct (drop_duplicated_said None l m) as [H1 H2]. split; [done|]. intros Hs. by destruct (H2 Hs) as [?|(? & _ & ?)].
Qed.
End codec.

(** *** The result *)

Section run.
Context (d : Doc) (p : Blocks) (pl : Layer).
Context (Hparents : st_parents (dc_tree d) = [p]) (Hbelow : dc_below d = [pl]).
Context (Hwf : wf (view (dc_tree d)) [st_rootId (dc_tree d)]).
Abbreviation V := (view (dc_tree d)).
Abbreviation root := (st_rootId (dc_tree d)).

(** The reachable blocks, and those of them in the top layer, in the order of the
    walk. *)
Definition walk_of (l : list Block) : Prop :=
  (NoDup (map b_Id l) ∧ StronglySorted (not_over V) l) ∧ (∀ b, b ∈ l ↔ V !! b_Id b = Some b ∧ reach V root (b_Id b)).

Definition affected_of (l : list Block) : list Block := filter (λ b, is_Some (st_blocks (dc_tree d) !! b_Id b)) l.

Lemma V_lookup id : V !! id = match st_blocks (dc_tree d) !! id with Some b => Some b | None => p !! id end.
Proof.
  rewrite <- Pick_view. unfold Pick. simpl. rewrite Hparents. simpl. destruct (st_blocks (dc_tree d) !! id); [done|].
  by destruct (p !! id).
Qed.

(** What [apply] returns, given the walk and the comparison. *)
Record applied (l : list Block) (r : list EventMessage * action * Doc) : Prop := {
  ap_blocks id b : st_blocks (dc_tree r.2) !! id = Some b ↔ V !! id = Some b ∧ reach V root id;
  ap_root : st_rootId (dc_tree r.2) = root;
  ap_parents : st_parents (dc_tree r.2) = [];
  ap_below : dc_below r.2 = [];
  ap_add : ac_Add r.1.2 = omap (added_of p) (affected_of l);
  ap_change : ac_Change r.1.2 = omap (change_of p) (affected_of l);
  ap_remove b : (∃ id, p !! id = Some b ∧ ¬ reach V root id) ↔ b ∈ ac_Remove r.1.2;
}.

(** What the events say about blocks. *)
Record told (l : list Block) (msgs : list EventMessage) : Prop := {
  to_added b : (∃ bs, said msgs (BAdd bs) ∧ b ∈ bs) ↔ b ∈ omap (added_of p) (affected_of l);
  to_set m : is_set m → said msgs m ↔ ∃ b diff, b ∈ affected_of l ∧ diff_of p b = Ok diff ∧ m ∈ diff;
  to_deleted id : (∃ ids, said msgs (BDelete ids) ∧ id ∈ ids) ↔ is_Some (p !! id) ∧ ¬ reach V root id;
}.

Lemma apply_walk :
  ∃ l, walk_of l ∧ ∀ (a : walked),
    wa_doc a = d ∨ (dc_tree (wa_doc a) = dc_tree d) →
    Iterate (dc_tree d) (λ a b, (apply_visit a b, true)) a =
      Some ({| wa_inUse := list_to_set (map b_Id l) ∪ wa_inUse a;
               wa_affected := wa_affected a ++ map b_Id (affected_of l);
               wa_doc := wa_doc a; wa_detailsChanged := wa_detailsChanged a |}, true, None).
Proof.
  destruct (Iterate_walk (dc_tree d)) as (l & cyc & E & HI). exists l.
  assert (cyc = false) as -> by (eapply (walk_acyclic _ _ Hwf); [by left|done]).
  assert (NoDup l) as Hnd by (eapply (walk_NoDup _ _ Hwf); [by left|constructor|done]).
  assert (∀ b, b ∈ l → V !! b_Id b = Some b ∧ reach V root (b_Id b)) as Hl.
  { intros b Hb. destruct (walk_sound _ _ _ _ _ _ _ E Hb) as (id & Hid & Hr).
    by rewrite (wf_keys _ _ Hwf id b Hid) in *. }
  split.
  - split; [split|].
    + apply NoDup_fmap_2_strong; [|done]. intros b1 b2 H1 H2 Eid. destruct (Hl b1 H1) as [E1 _], (Hl b2 H2) as [E2 _].
      rewrite Eid in E1. congruence.
    + eapply walk_down; [exact Hwf|by left|constructor|exact E].
    + intros b. split; [apply Hl|]. intros [Hb Hr]. by eapply walk_complete.
  - intros a Ha. assert (dc_tree (wa_doc a) = dc_tree d) as Ht by (destruct Ha as [->|]; done).
    rewrite HI, fold_always, apply_visit_fold. cbn [finish negb]. rewrite Ht. do 5 f_equal. unfold affected_of. clear.
    induction l as [|b l IH]; [done|]. cbn [map]. rewrite !filter_cons. case_decide; cbn [map]; by rewrite IH.
Qed.

Lemma top_keys id b : st_blocks (dc_tree d) !! id = Some b → b_Id b = id.
Proof. intros Hb. apply (wf_keys _ _ Hwf). by rewrite V_lookup, Hb. Qed.

Lemma details_msgs_said virtual prev new m : ¬ said (details_change virtual prev new).1 m.
Proof.
  unfold details_change. destruct new as [new|]; [|apply said_nil]. destruct (StructDiff _ _) as [diff unset].
  destruct (_ || _); [|apply said_nil]. intros (e & (x & -> & Hx)%list_elem_of_fmap & Ee). simpl in Ee. subst x.
  unfold StructDiffIntoEvents in Hx. destruct (_ && _); [by apply elem_of_nil in Hx|].
  apply elem_of_app in Hx as [Hx|Hx]; revert Hx; case_bool_decide; intros Hx;
    try (by apply elem_of_nil in Hx); by apply list_elem_of_singleton in Hx.
Qed.

Lemma links_msgs_said new prev m : ¬ said (links_change new prev).1 m.
Proof.
  unfold links_change. destruct new as [new|]; [|apply said_nil]. destruct (rl_Diff _ _) as [added removed].
  intros (e & (x & -> & Hx)%list_elem_of_fmap & Ee). simpl in Ee. subst x.
  apply elem_of_app in Hx as [Hx|Hx]; revert Hx; [case_bool_decide|destruct (_ =? _)%nat]; intros Hx;
    try (by apply elem_of_nil in Hx); by apply list_elem_of_singleton in Hx.
Qed.

Context `{!MapOrderOk, !MsgCodecOk bytes}.

Lemma map_order_elem m id : id ∈ map_order m ↔ is_Some (m !! id).
Proof.
  rewrite (map_order_perm m), list_elem_of_fmap. split.
  - intros ([k b] & -> & Hin%elem_of_map_to_list). by eexists.
  - intros [b Hb]. exists (id, b). split; [done|]. by apply elem_of_map_to_list.
Qed.

Lemma NoDup_map_filter {A B} (f : A → B) (P : A → Prop) `{∀ x, Decision (P x)} l : NoDup (map f l) → NoDup (map f (filter P l)).
Proof.
  induction l as [|x l IH]; [done|]. cbn [map]. intros [Hx Hnd]%NoDup_cons. rewrite filter_cons.
  case_decide; [|by apply IH]. cbn [map]. constructor; [|by apply IH].
  intros (y & Ey & [_ Hy]%list_elem_of_filter)%list_elem_of_fmap. apply Hx. rewrite Ey. by apply list_elem_of_fmap_2.
Qed.

Lemma apply_run :
  (∀ id b, reach V root id → st_blocks (dc_tree d) !! id = Some b → ∃ diff, diff_of p b = Ok diff) →
  ∃ l r, apply_normalized d = Some (Ok r) ∧ walk_of l ∧ applied l r ∧ told l r.1.1.
Proof.
  intros Hdiff. destruct apply_walk as (l & Hl & HI). unfold apply_normalized.
  set (d1 := match parent_tree (dc_tree d) with Some pt => _ | None => d end).
  assert (dc_tree d1 = dc_tree d ∧ dc_below d1 = dc_below d) as [Ht1 Hb1].
  { unfold d1. destruct (parent_tree (dc_tree d)); [|done]. case_bool_decide; [done|].
    destruct (SetLocalDetail_spec d RelationKeySnippet (String (Snippet (dc_tree d)))) as ((?&?&_)&_). done. }
  cbv zeta. rewrite Ht1, Hb1, Hbelow. set (ch := match ly_details (dc_top d1) with Some m => _ | None => false end).
  rewrite HI by (by right). cbn [wa_inUse wa_affected wa_doc wa_detailsChanged app]. rewrite (right_id_L ∅ (∪)).
  set (c0 := {| co_doc := d1; co_newBlocks := []; co_msgs := []; co_action := empty_action |}).
  destruct (compare_blocks_spec ch p p (affected_of l) c0) as (c & Ec & Hc).
  - apply NoDup_map_filter, Hl.
  - intros b [[b' Hb'] Hb]%list_elem_of_filter. simpl. rewrite Ht1. apply Hl in Hb as [Hb _].
    rewrite V_lookup, Hb' in Hb. congruence.
  - simpl. by rewrite Ht1.
  - done.
  - intros b [[b' Hb'] Hb]%list_elem_of_filter. apply Hl in Hb as [Hb Hr]. rewrite V_lookup, Hb' in Hb. simplify_eq.
    by eapply Hdiff.
  - rewrite Ec. destruct (ct_parents _ _ _ _ Hc p) as (pc & Hpc & Kpc & Dpc); [simpl; by rewrite Ht1|].
    pose proof (ct_blocks _ _ _ _ Hc) as Hblk. pose proof (ct_root _ _ _ _ Hc) as Hrt.
    pose proof (ct_below _ _ _ _ Hc) as Hblw. cbn [c0 co_doc] in Hblk, Hrt, Hblw. rewrite Ht1 in Hblk, Hrt.
    rewrite Hb1, Hbelow in Hblw. cbn [flushNewBlocks co_doc]. rewrite Hpc, Hblw.
    set (inUse := list_to_set (map b_Id l) : gset string).
    set (toRemove := filter (λ id, id ∉ inUse) (map_order pc)).
    destruct (links_change _ _) as [linkMsgs linkChange] eqn:Elinks.
    destruct (details_change false _ _) as [detMsgs detChange] eqn:Edet.
    destruct (details_change true _ _) as [locMsgs locChange] eqn:Eloc.
    assert (∀ id, id ∈ inUse ↔ is_Some (V !! id) ∧ reach V root id) as HinUse.
    { intros id. unfold inUse. rewrite elem_of_list_to_set, list_elem_of_fmap. split.
      - intros (b & -> & [Hb Hr]%Hl). by split; [eexists|].
      - intros [[b Hb] Hr]. pose proof (wf_keys _ _ Hwf id b Hb) as <-. exists b. split; [done|]. by apply Hl. }
    assert (∀ id, is_Some (p !! id) → is_Some (V !! id)) as HpV.
    { intros id [b Hb]. rewrite V_lookup. destruct (st_blocks (dc_tree d) !! id); [by eexists|by rewrite Hb]. }
    assert (∀ id, id ∈ toRemove ↔ is_Some (p !! id) ∧ ¬ reach V root id) as Hrem.
    { intros id. unfold toRemove. rewrite list_elem_of_filter, map_order_elem, Dpc, HinUse. naive_solver. }
    assert (∀ id, id ∈ toRemove → pc !! id = p !! id) as Hpcr.
    { intros id [_ Hn]%Hrem. apply Kpc. intros (b & -> & [_ [_ Hr]%Hl]%list_elem_of_filter)%list_elem_of_fmap. done. }
    eexists l, _. split; [done|]. split; [done|]. split.
    + split; cbn [fst snd dc_tree write_parent st_blocks st_rootId st_parents ac_Add ac_Change ac_Remove].
      * intros id b. rewrite Hblk, write_blocks_lookup by (apply top_keys). rewrite delete_ids_lookup.
        assert (V !! id = match st_blocks (dc_tree d) !! id with Some b => Some b | None => p !! id end) as HV by apply V_lookup.
        assert (is_Some (p !! id) → id ∈ inUse ∨ id ∈ toRemove) as Hor.
        { intros Hp. destruct (decide (id ∈ inUse)) as [|Hn]; [by left|right]. apply Hrem. split; [done|].
          intros Hr. apply Hn, HinUse. split; [by apply HpV|done]. }
        destruct (st_blocks (dc_tree d) !! id) as [b0|] eqn:Etop.
        -- destruct (decide (id ∈ inUse)) as [Hin|Hn].
           ++ apply HinUse in Hin as [_ Hr]. rewrite HV. naive_solver.
           ++ split; [|intros [Hb Hr]; destruct Hn; apply HinUse; split; [by eexists|done]].
              case_decide as Ht; [done|]. intros Hb. destruct Hor; [|done|done]. apply Dpc. by eexists.
        -- case_decide as Ht.
           ++ apply Hrem in Ht as [_ Hn]. split; [done|]. by intros [_ ?].
           ++ rewrite Kpc, HV.
              ** split; [|by intros [? _]]. intros Hb. split; [done|].
                 destruct Hor as [Hin|]; [by eexists|by apply HinUse|done].
              ** intros (b' & Eid & [[b'' Hb''] _]%list_elem_of_filter)%list_elem_of_fmap. rewrite <- Eid in Hb''. congruence.
      * done.
      * done.
      * done.
      * exact (ct_add _ _ _ _ Hc).
      * exact (ct_change _ _ _ _ Hc).
      * intros b. rewrite list_elem_of_omap. split.
        -- intros (id & Hb & Hn). exists id. rewrite Hpcr; [|apply Hrem; split; [by eexists|done]].
           split; [apply Hrem; split; [by eexists|done]|done].
        -- intros (id & Hin & Hb). exists id. rewrite Hpcr in Hb by done. by apply Hrem in Hin as [_ ?].
    + cbn [fst snd].
      assert (∀ m, said (((co_msgs (flushNewBlocks c) ++ (if bool_decide (toRemove = []) then [] else [block_event (BDelete toRemove)])) ++ linkMsgs) ++ detMsgs ++ locMsgs) m ↔
        says (flushNewBlocks c) m ∨ toRemove ≠ [] ∧ m = BDelete toRemove) as Hsaid.
      { intros m. rewrite !said_app.
        pose proof (links_msgs_said (ly_relationLinks (dc_top (co_doc c))) (ly_relationLinks pl) m) as HL. rewrite Elinks in HL.
        pose proof (details_msgs_said false (inherited ly_details [pl]) (ly_details (dc_top (co_doc c))) m) as HD. rewrite Edet in HD.
        pose proof (details_msgs_said true (inherited ly_localDetails [pl]) (ly_localDetails (dc_top (co_doc c))) m) as HLo.
        rewrite Eloc in HLo. cbn [fst] in *. unfold says.
        case_bool_decide as Htr.
        - pose proof (said_nil m). tauto.
        - change [block_event ?x] with (map block_event [x]). rewrite said_events, list_elem_of_singleton. tauto. }
      split.
      * intros b. setoid_rewrite said_final. setoid_rewrite Hsaid.
        pose proof (ct_says_added _ _ _ _ Hc b) as Ha. rewrite <- flush_added in Ha. unfold says_added in Ha at 1.
        cbn [flushNewBlocks co_newBlocks] in Ha. rewrite elem_of_nil in Ha.
        assert (¬ says_added c0 b) as H0'.
        { unfold says_added, says. cbn. intros [?%elem_of_nil|(bs & ?%said_nil & _)]; done. }
        split.
        -- intros (bs & [Hs|[_ ?]] & Hb); [|done]. destruct Ha as [Ha _]. destruct Ha; [|done|done]. right. by exists bs.
        -- intros Hin. destruct Ha as [_ Ha]. destruct Ha as [[]|(bs & Hs & Hb)]; [by right|]. exists bs. tauto.
      * intros m Hm. rewrite said_final, Hsaid.
        assert (∀ bl, m ≠ BAdd bl) as Hna by (intros bl ->; done).
        rewrite flush_says, (ct_says _ _ _ _ Hc m Hna) by done. split; [|tauto].
        intros [[Hs|?]|[_ ->]]; [|done|done]. by apply said_nil in Hs.
      * intros id. setoid_rewrite said_final. setoid_rewrite Hsaid. rewrite <- Hrem. split.
        -- intros (ids & [Hs|[_ [= ->]]] & Hin); [|done]. rewrite flush_says, (ct_says _ _ _ _ Hc) in Hs by done.
           destruct Hs as [Hs|(b & diff & _ & Hd & Hmd)]; [by apply said_nil in Hs|]. unfold diff_of in Hd.
           destruct (p !! b_Id b); [|simplify_eq; by apply elem_of_nil in Hmd]. by eapply diff_is_set in Hd; [|exact Hmd].
        -- intros Hin. exists toRemove. split; [|done]. right. split; [|done]. intros E. rewrite E in Hin.
           by apply elem_of_nil in Hin.
Qed.
End run.
End plain.
End apply.

(** ** What a client sees

    A client keeps the blocks and changes them by the events it receives. *)

Definition set_fields (b : Block) (f : gmap string FieldValue) : Block :=
  {| b_Id := b_Id b; b_ChildrenIds := b_ChildrenIds b; b_Content := b_Content b; b_Fields := f; b_BackgroundColor := b_BackgroundColor b |}.
Definition set_background (b : Block) (c : string) : Block :=
  {| b_Id := b_Id b; b_ChildrenIds := b_ChildrenIds b; b_Content := b_Content b; b_Fields := b_Fields b; b_BackgroundColor := c |}.
Definition set_content (b : Block) (c : Content) : Block :=
  {| b_Id := b_Id b; b_ChildrenIds := b_ChildrenIds b; b_Content := c; b_Fields := b_Fields b; b_BackgroundColor := b_BackgroundColor b |}.

Definition replay_block (m : Blocks) (x : BlockMsg) : Blocks :=
  match x with
  | BAdd bs => foldl (λ m b, <[b_Id b:=b]> m) m bs
  | BDelete ids => delete_ids ids m
  | BSetChildrenIds id ids => alter (λ b, with_children b ids) id m
  | BSetFields id f => alter (λ b, set_fields b f) id m
  | BSetBackgroundColor id c => alter (λ b, set_background b c) id m
  | BSetContent id c => alter (λ b, set_content b c) id m
  end.

Definition replay (m : Blocks) (msgs : list EventMessage) : Blocks :=
  foldl (λ m e, match em_Msg e with MBlock x => replay_block m x | _ => m end) m msgs.

Section replay.
Context (id : string).

(** Messages about the block [id]. *)
Definition adds (x : BlockMsg) (b : Block) : Prop := match x with BAdd bs => b ∈ bs ∧ b_Id b = id | _ => False end.
Definition deletes (x : BlockMsg) : Prop := match x with BDelete ids => id ∈ ids | _ => False end.
Definition sets_to (x : BlockMsg) (b : Block) : Prop :=
  match x with
  | BSetChildrenIds i ids => i = id → ids = b_ChildrenIds b
  | BSetFields i f => i = id → f = b_Fields b
  | BSetBackgroundColor i c => i = id → c = b_BackgroundColor b
  | BSetContent i c => i = id → c = b_Content b
  | _ => True
  end.
Definition sets_other (x : BlockMsg) : Prop :=
  match x with BSetChildrenIds i _ | BSetFields i _ | BSetBackgroundColor i _ | BSetContent i _ => i ≠ id | _ => True end.

Lemma replay_cons m e msgs : replay m (e :: msgs) = replay (match em_Msg e with MBlock x => replay_block m x | _ => m end) msgs.
Proof. done. Qed.

Lemma add_lookup bs (m : Blocks) (b : Block) :
  (∀ x, x ∈ bs → b_Id x = id → x = b) →
  foldl (λ m b, <[b_Id b:=b]> m) m bs !! id = if decide (id ∈ map b_Id bs) then Some b else m !! id.
Proof.
  revert m. induction bs as [|x bs IH]; intros m Hx; cbn [foldl map]; [by rewrite decide_False by (apply not_elem_of_nil)|].
  rewrite IH by (intros; apply Hx; [by right|done]). destruct (decide (id ∈ map b_Id bs)) as [Hin|Hn].
  { rewrite decide_True; [done|by right]. }
  destruct (decide (b_Id x = id)) as [E|E].
  - rewrite decide_True by (rewrite E; by left). rewrite E, lookup_insert_eq. f_equal. apply Hx; [by left|done].
  - rewrite decide_False by (rewrite elem_of_cons; naive_solver). by rewrite lookup_insert_ne.
Qed.

Lemma said_cons e l x : said (e :: l) x ↔ em_Msg e = MBlock x ∨ said l x.
Proof.
  unfold said. split.
  - intros (y & [->|Hy]%elem_of_cons & Ey); [by left|right; by exists y].
  - intros [Ee|(y & Hy & Ey)]; [exists e; split; [by left|done]|exists y; split; [by right|done]].
Qed.

Lemma add_others bs (m : Blocks) : (∀ b, ¬ (b ∈ bs ∧ b_Id b = id)) → ∀ o, m !! id = o → foldl (λ m b, <[b_Id b:=b]> m) m bs !! id = o.
Proof.
  revert m. induction bs as [|x bs IH]; intros m Ha o Ho; [done|]. cbn [foldl].
  apply IH; [intros b' [Hb Hid]; apply (Ha b'); split; [by right|done]|]. rewrite lookup_insert_ne; [done|].
  intros Hid. apply (Ha x). split; [by left|done].
Qed.

(** A message already seen, or still to come. *)
Ltac still := solve [match goal with H : _ ∨ _ ∨ _ |- _ => destruct H as [?|[?|?]]; [by left|congruence|by right] end].

(** A block that is added and not touched otherwise. *)
Lemma replay_added b msgs m :
  (∀ x, said msgs x → (∀ b', adds x b' → b' = b) ∧ ¬ deletes x ∧ sets_other x) →
  m !! id = Some b ∨ (∃ x, said msgs x ∧ adds x b) → replay m msgs !! id = Some b.
Proof.
  revert m. induction msgs as [|e msgs IH]; intros m Hx Hor.
  { destruct Hor as [?|(x & Hs & _)]; [done|]. by destruct Hs as (? & ?%elem_of_nil & _). }
  rewrite replay_cons. assert (∀ x, said msgs x → (∀ b', adds x b' → b' = b) ∧ ¬ deletes x ∧ sets_other x) as Hx'.
  { intros x Hs. apply Hx, said_cons. by right. }
  destruct (em_Msg e) as [y| | | |] eqn:Ee.
  2-5: apply IH; [done|]; destruct Hor as [?|(x & [Hc|Hs]%said_cons & Ha)]; [by left|congruence|right; by exists x].
  apply IH; [done|]. destruct (Hx y) as (Ha & Hd & Hs); [apply said_cons; by left|].
  assert ((m !! id = Some b ∨ adds y b) → replay_block m y !! id = Some b) as Hstep.
  { intros Ho. destruct y as [bs|ids|i ids|i f|i f|i c]; cbn [replay_block adds deletes sets_other] in *.
    - rewrite (add_lookup bs m b) by (intros; by apply Ha). case_decide as Hin; [done|].
      destruct Ho as [?|[Hb Hid]]; [done|]. destruct Hin. rewrite <- Hid. by apply list_elem_of_fmap_2.
    - rewrite delete_ids_lookup, decide_False by done. tauto.
    - rewrite lookup_alter_ne by done. tauto.
    - rewrite lookup_alter_ne by done. tauto.
    - rewrite lookup_alter_ne by done. tauto.
    - rewrite lookup_alter_ne by done. tauto. }
  destruct Hor as [Hm|(x & [Hc|Hs']%said_cons & Hax)]; [left; by apply Hstep; left| |right; by exists x].
  rewrite Ee in Hc. injection Hc as <-. left. apply Hstep. by right.
Qed.

(** A block that is deleted, or was never there. *)
Lemma replay_deleted msgs m :
  (∀ x, said msgs x → ∀ b', ¬ adds x b') → m !! id = None ∨ (∃ x, said msgs x ∧ deletes x) → replay m msgs !! id = None.
Proof.
  revert m. induction msgs as [|e msgs IH]; intros m Hx Hor.
  { destruct Hor as [?|(x & Hs & _)]; [done|]. by destruct Hs as (? & ?%elem_of_nil & _). }
  rewrite replay_cons. assert (∀ x, said msgs x → ∀ b', ¬ adds x b') as Hx'.
  { intros x Hs. apply Hx, said_cons. by right. }
  destruct (em_Msg e) as [y| | | |] eqn:Ee.
  2-5: apply IH; [done|]; destruct Hor as [?|(x & [Hc|Hs]%said_cons & Ha)]; [by left|congruence|right; by exists x].
  apply IH; [done|]. pose proof (Hx y ltac:(apply said_cons; by left)) as Ha.
  assert ((m !! id = None ∨ deletes y) → replay_block m y !! id = None) as Hstep.
  { intros Ho. destruct y as [bs|ids|i ids|i f|i f|i c]; cbn [replay_block adds deletes] in *.
    - destruct Ho as [Ho|[]]. by apply add_others.
    - rewrite delete_ids_lookup. case_decide; [done|]. by destruct Ho.
    - destruct Ho as [Ho|[]]. destruct (decide (i = id)) as [->|]; [by rewrite lookup_alter_eq, Ho|by rewrite lookup_alter_ne].
    - destruct Ho as [Ho|[]]. destruct (decide (i = id)) as [->|]; [by rewrite lookup_alter_eq, Ho|by rewrite lookup_alter_ne].
    - destruct Ho as [Ho|[]]. destruct (decide (i = id)) as [->|]; [by rewrite lookup_alter_eq, Ho|by rewrite lookup_alter_ne].
    - destruct Ho as [Ho|[]]. destruct (decide (i = id)) as [->|]; [by rewrite lookup_alter_eq, Ho|by rewrite lookup_alter_ne]. }
  destruct Hor as [Hm|(x & [Hc|Hs']%said_cons & Hax)]; [left; by apply Hstep; left| |right; by exists x].
  rewrite Ee in Hc. injection Hc as <-. left. apply Hstep. by right.
Qed.

(** A block that is changed attribute by attribute. *)
Lemma replay_changed b msgs m o :
  (∀ x, said msgs x → (∀ b', ¬ adds x b') ∧ ¬ deletes x ∧ sets_to x b) →
  m !! id = Some o → b_Id o = b_Id b →
  b_ChildrenIds o = b_ChildrenIds b ∨ said msgs (BSetChildrenIds id (b_ChildrenIds b)) →
  b_Fields o = b_Fields b ∨ said msgs (BSetFields id (b_Fields b)) →
  b_BackgroundColor o = b_BackgroundColor b ∨ said msgs (BSetBackgroundColor id (b_BackgroundColor b)) →
  b_Content o = b_Content b ∨ said msgs (BSetContent id (b_Content b)) →
  replay m msgs !! id = Some b.
Proof.
  revert m o. induction msgs as [|e msgs IH]; intros m o Hx Hm Hid Hc Hf Hbg Hct.
  { assert (∀ x, ¬ said [] x) as Hn by (by intros x (? & ?%elem_of_nil & _)).
    destruct Hc as [Hc|Hc%Hn], Hf as [Hf|Hf%Hn], Hbg as [Hbg|Hbg%Hn], Hct as [Hct|Hct%Hn]; try done.
    cbn. rewrite Hm. f_equal. destruct o, b. simpl in *. by subst. }
  assert (∀ x, said msgs x → (∀ b', ¬ adds x b') ∧ ¬ deletes x ∧ sets_to x b) as Hx'.
  { intros x Hs. apply Hx, said_cons. by right. }
  rewrite said_cons in Hc, Hf, Hbg, Hct. rewrite replay_cons.
  destruct (em_Msg e) as [y| | | |] eqn:Ee; [|apply (IH _ o); try done; still..].
  destruct (Hx y) as (Ha & Hd & Hs); [apply said_cons; by left|].
  destruct y as [bs|ids|i ids|i f|i f|i c]; cbn [replay_block adds deletes sets_to] in *.
  - apply (IH _ o); try done; [by apply add_others|still..].
  - apply (IH _ o); try done; [by rewrite delete_ids_lookup, decide_False|still..].
  - destruct (decide (i = id)) as [->|Hne].
    + apply (IH _ (with_children o ids)); try done; [by rewrite lookup_alter_eq, Hm|left; by apply Hs|still..].
    + apply (IH _ o); try done; [by rewrite lookup_alter_ne|still..].
  - destruct (decide (i = id)) as [->|Hne].
    + apply (IH _ (set_fields o f)); try done; [by rewrite lookup_alter_eq, Hm|still|left; by apply Hs|still..].
    + apply (IH _ o); try done; [by rewrite lookup_alter_ne|still..].
  - destruct (decide (i = id)) as [->|Hne].
    + apply (IH _ (set_background o f)); try done; [by rewrite lookup_alter_eq, Hm|still|still|left; by apply Hs|still].
    + apply (IH _ o); try done; [by rewrite lookup_alter_ne|still..].
  - destruct (decide (i = id)) as [->|Hne].
    + apply (IH _ (set_content o c)); try done; [by rewrite lookup_alter_eq, Hm|still|still|still|left; by apply Hs].
    + apply (IH _ o); try done; [by rewrite lookup_alter_ne|still..].
Qed.
End replay.

(** ** The theorems *)

(** Blocks whose type stays: those of type [Base] keep their content. *)
Definition is_base (c : Content) : bool :=
  match c with CLayout _ | CTable | CTableColumn | CSmartblock | CSmartblockNil | CNone => true | _ => false end.
Definition same_kind (o b : Block) : bool :=
  match content_Diff "" (b_Content o) (b_Content b) with
  | None => false
  | Some _ => negb (is_base (b_Content o)) || bool_decide (b_Content b = b_Content o)
  end.

Lemma content_Diff_id i j a b : content_Diff i a b = None → content_Diff j a b = None.
Proof. unfold content_Diff. destruct a, b; try done; case_bool_decide; done. Qed.

Lemma elem_of_unless {A} (P : Prop) `{Decision P} (x y : A) : x ∈ (if bool_decide P then [] else [y]) → x = y.
Proof. case_bool_decide; intros Hx; [by apply elem_of_nil in Hx|]. by apply list_elem_of_singleton in Hx. Qed.

Lemma same_kind_diff o b : same_kind o b = true → ∃ diff, block_Diff o b = Ok diff.
Proof.
  unfold same_kind, block_Diff. destruct (content_Diff "" _ _) as [l|] eqn:E; [|done]. intros _.
  destruct (content_Diff (b_Id o) (b_Content o) (b_Content b)) eqn:E'; [by eexists|].
  apply (content_Diff_id _ "") in E'. congruence.
Qed.

Lemma block_Diff_refl b : block_Diff b b = Ok [].
Proof.
  unfold block_Diff, base_Diff, content_Diff. rewrite !bool_decide_eq_true_2 by done.
  destruct (b_Content b); cbv zeta; by rewrite ?bool_decide_eq_true_2 by done.
Qed.

(** The difference carries every attribute that changed. *)
Lemma block_Diff_carries o b diff :
  same_kind o b = true → block_Diff o b = Ok diff → b_Id o = b_Id b →
  (b_ChildrenIds o = b_ChildrenIds b ∨ BSetChildrenIds (b_Id b) (b_ChildrenIds b) ∈ diff) ∧
  (b_Fields o = b_Fields b ∨ BSetFields (b_Id b) (b_Fields b) ∈ diff) ∧
  (b_BackgroundColor o = b_BackgroundColor b ∨ BSetBackgroundColor (b_Id b) (b_BackgroundColor b) ∈ diff) ∧
  (b_Content o = b_Content b ∨ BSetContent (b_Id b) (b_Content b) ∈ diff) ∧
  ∀ x, x ∈ diff → sets_to (b_Id b) x b ∧ ∀ id, id ≠ b_Id b → sets_other id x.
Proof.
  unfold block_Diff, base_Diff, same_kind. intros Hk Hd Hid. rewrite Hid in *.
  destruct (content_Diff (b_Id b) (b_Content o) (b_Content b)) as [l|] eqn:El; [|done]. injection Hd as <-.
  assert (content_Diff "" (b_Content o) (b_Content b) ≠ None) as Hn.
  { intros E. apply (content_Diff_id _ (b_Id b)) in E. congruence. }
  assert (b_Content o = b_Content b ∧ l = [] ∨ l = [BSetContent (b_Id b) (b_Content b)]) as Hl.
  { unfold content_Diff in El, Hk. destruct (b_Content o), (b_Content b); simpl in *; simplify_eq; try done;
      repeat (case_bool_decide; simplify_eq/=); auto; try done; naive_solver. }
  split_and!.
  - destruct (decide (b_ChildrenIds b = b_ChildrenIds o)) as [|Hc]; [by left|right].
    rewrite (bool_decide_eq_false_2 (b_ChildrenIds b = b_ChildrenIds o)) by done.
    apply elem_of_app. left. apply elem_of_app. left. by left.
  - destruct (decide (b_Fields o = b_Fields b)) as [|Hc]; [by left|right].
    rewrite (bool_decide_eq_false_2 (b_Fields o = b_Fields b)) by done.
    apply elem_of_app. left. apply elem_of_app. right. apply elem_of_app. left. by left.
  - destruct (decide (b_BackgroundColor o = b_BackgroundColor b)) as [|Hc]; [by left|right].
    rewrite (bool_decide_eq_false_2 (b_BackgroundColor o = b_BackgroundColor b)) by done.
    apply elem_of_app. left. apply elem_of_app. right. apply elem_of_app. right. by left.
  - destruct Hl as [[? _]| ->]; [by left|right]. apply elem_of_app. right. by left.
  - intros x [[Hx|[Hx|Hx]%elem_of_app]%elem_of_app|Hx]%elem_of_app.
    + apply elem_of_unless in Hx as ->.
      split; [done|]. intros id Hne. simpl. congruence.
    + apply elem_of_unless in Hx as ->.
      split; [done|]. intros id Hne. simpl. congruence.
    + apply elem_of_unless in Hx as ->.
      split; [done|]. intros id Hne. simpl. congruence.
    + destruct Hl as [[_ ->]| ->]; [by apply elem_of_nil in Hx|]. apply list_elem_of_singleton in Hx as ->.
      split; [done|]. intros id Hne. simpl. congruence.
Qed.

(** A state that can be applied: over one parent with blocks [p] and layer [pl], with
    a well-formed tree, in which no block changed its type. *)
Record ready (d : Doc) (p : Blocks) (pl : Layer) : Prop := {
  re_parents : st_parents (dc_tree d) = [p];
  re_below : dc_below d = [pl];
  re_wf : wf (view (dc_tree d)) [st_rootId (dc_tree d)];
  re_keys id b : p !! id = Some b → b_Id b = id;
  re_kind id o b : reach (view (dc_tree d)) (st_rootId (dc_tree d)) id → p !! id = Some o →
    st_blocks (dc_tree d) !! id = Some b → same_kind o b = true;
}.

(** A document as [apply] leaves it: a tree, and nothing but the tree. *)
Record clean (root : string) (m : Blocks) : Prop := {
  cl_wf : wf m [root];
  cl_reach id b : m !! id = Some b → reach m root id;
}.

(** Merging a state into the next one does not change what the chain shows. *)
Lemma Set_fold_view l t :
  view (foldl (λ t (kb : string * Block), Set_ t kb.2) t l) = foldl (λ m (kb : string * Block), <[b_Id kb.2:=kb.2]> m) (view t) l ∧
  same_below t (foldl (λ t (kb : string * Block), Set_ t kb.2) t l).
Proof.
  revert t. induction l as [|[k b] l IH]; intros t; [split; [done|apply same_below_refl]|]. cbn [foldl snd].
  destruct (IH (Set_ t b)) as [I1 I2]. destruct (Set_spec t b) as [S1 S2].
  rewrite I1, S1. split; [done|by eapply same_below_trans].
Qed.

Lemma foldl_insert_union (l : list (string * Block)) (m : Blocks) :
  (∀ kb, kb ∈ l → b_Id kb.2 = kb.1) → NoDup l.*1 →
  foldl (λ m (kb : string * Block), <[b_Id kb.2:=kb.2]> m) m l = list_to_map l ∪ m.
Proof.
  revert m. induction l as [|[k b] l IH]; intros m Hk Hnd; [by rewrite list_to_map_nil, (left_id_L ∅ (∪))|]. cbn [fmap list_fmap] in Hnd.
  apply NoDup_cons in Hnd as [Hn Hnd]. cbn [foldl snd]. rewrite IH by (done || (intros; apply Hk; by right)).
  assert (b_Id b = k) as -> by (apply (Hk (k, b)); by left). rewrite list_to_map_cons, <- insert_union_l, <- insert_union_r; [done|].
  by apply not_elem_of_list_to_map_1.
Qed.

(** Collapsing a chain of states keeps what it shows: merging the top state into
    its parent leaves the same blocks visible under the same root, over one parent
    less, and the same details, local details, relation links and types. *)
Theorem intermediateApply_correct d p ps pl below :
  st_parents (dc_tree d) = p :: ps → dc_below d = pl :: below →
  (∀ id b, st_blocks (dc_tree d) !! id = Some b → b_Id b = id) →
  let d' := intermediateApply d in
  view (dc_tree d') = view (dc_tree d) ∧ st_rootId (dc_tree d') = st_rootId (dc_tree d) ∧
  st_parents (dc_tree d') = ps ∧ dc_below d' = below ∧
  doc_Details d' = doc_Details d ∧ doc_LocalDetails d' = doc_LocalDetails d ∧
  doc_ObjectTypeKeys d' = doc_ObjectTypeKeys d ∧
  inherited ly_relationLinks (dc_top d' :: dc_below d') = inherited ly_relationLinks (dc_top d :: dc_below d).
Proof.
  intros Hps Hbelow Hk. unfold intermediateApply. rewrite Hps, Hbelow. cbv zeta. cbn [dc_tree dc_top dc_below].
  set (t0 := {| st_rootId := st_rootId (dc_tree d); st_blocks := p; st_parents := ps; st_changes := []; st_ignoreIds := [] |}).
  destruct (Set_fold_view (map_to_list (st_blocks (dc_tree d))) t0) as [Hv [Hroot Hpar]].
  rewrite foldl_insert_union, list_to_map_to_list in Hv.
  2:{ intros [k b] Hin%elem_of_map_to_list. by apply Hk. }
  2:{ apply NoDup_fst_map_to_list. }
  assert (∀ t ch, view (with_changes t ch) = view t) as Hwc by done. rewrite Hwc, Hv.
  split_and!; [|exact Hroot|exact Hpar|done|..].
  - unfold view, t0. simpl. by rewrite Hps.
  - unfold doc_Details. simpl. rewrite Hbelow. simpl. destruct (ly_details (dc_top d)); [done|]. done.
  - unfold doc_LocalDetails. simpl. rewrite Hbelow. simpl. destruct (ly_localDetails (dc_top d)); done.
  - unfold doc_ObjectTypeKeys. simpl. rewrite Hbelow. simpl. destruct (ly_objectTypeKeys (dc_top d)); done.
  - simpl. destruct (ly_relationLinks (dc_top d)); done.
Qed.

Section theorems.
Context (Local : list string) (Snippet : State → string) (fillChanges : Doc → list EventMessage → list Change).
Context `{Hord : !MapOrder, Hordok : !MapOrderOk, Hhandler : !DetailsHandler, Hcodec : !MsgCodec bytes, Hcodecok : !MsgCodecOk bytes}.
Context (Hplain : ∀ b, dh_is b = false).
Abbreviation apply_state := (apply_normalized Local Snippet fillChanges).

Lemma ready_diff d p pl : ready d p pl → ∀ id b, reach (view (dc_tree d)) (st_rootId (dc_tree d)) id →
  st_blocks (dc_tree d) !! id = Some b → ∃ diff, diff_of p b = Ok diff.
Proof.
  intros Hr id b Hre Hb. unfold diff_of. destruct (p !! b_Id b) as [o|] eqn:Eo; [|by eexists].
  assert (b_Id b = id) as Hid.
  { apply (wf_keys _ _ (re_wf _ _ _ Hr)). by rewrite (V_lookup d p (re_parents _ _ _ Hr)), Hb. }
  rewrite Hid in Eo. apply same_kind_diff. by eapply (re_kind _ _ _ Hr).
Qed.

Lemma ready_run d p pl : ready d p pl →
  ∃ l r, apply_state d = Some (Ok r) ∧ walk_of d l ∧ applied d p l r ∧ told d p l r.1.1.
Proof.
  intros Hr. pose proof Hr as [? ? ? _ _]. eapply (apply_run Local Snippet fillChanges Hplain d p pl); try done.
  by eapply ready_diff.
Qed.

(** Restricting a graph to what is reachable. *)
Lemma restrict_clean (V m : Blocks) root :
  wf V [root] → (∀ id b, m !! id = Some b ↔ V !! id = Some b ∧ reach V root id) → clean root m.
Proof.
  intros Hwf Hm.
  assert (∀ x, reach m root x ↔ reach V root x) as Hr.
  { intros x. split; induction 1 as [|q b c Hq IH Hb Hc]; try constructor.
    - apply Hm in Hb as [Hb _]. by eapply reach_child.
    - eapply reach_child; [exact IH|by apply Hm|done]. }
  assert (∀ x, reachable m [root] x → reachable V [root] x) as Hr'.
  { intros x (r & ->%list_elem_of_singleton & Hx). exists root. split; [by left|by apply Hr]. }
  split; [|intros id b [_ Hre]%Hm; by apply Hr]. split.
  - intros id b [Hb _]%Hm. by apply (wf_keys _ _ Hwf).
  - apply NoDup_singleton.
  - intros p1 b1 p2 b2 c H1 H2 [Hb1 _]%Hm [Hb2 _]%Hm. eapply (wf_uniq _ _ Hwf); eauto.
  - intros q b Hq [Hb _]%Hm. eapply (wf_nodup _ _ Hwf); eauto.
  - intros q b r Hq [Hb _]%Hm. eapply (wf_root _ _ Hwf); eauto.
Qed.

Lemma affected_spec d p pl l b :
  ready d p pl → walk_of d l →
  b ∈ affected_of d l ↔
  st_blocks (dc_tree d) !! b_Id b = Some b ∧ reach (view (dc_tree d)) (st_rootId (dc_tree d)) (b_Id b).
Proof.
  intros Hr Hl. unfold affected_of. rewrite list_elem_of_filter, (proj2 Hl b), (V_lookup d p (re_parents _ _ _ Hr)).
  split.
  - intros [[b' Hb'] [Hv ?]]. rewrite Hb' in *. naive_solver.
  - intros [Htop ?]. rewrite Htop. split; [by eexists|done].
Qed.

(** The effect of [apply] on blocks, and the action it records. *)
Record effect (d : Doc) (p : Blocks) (act : action) (d' : Doc) : Prop := {
  ef_blocks id b : st_blocks (dc_tree d') !! id = Some b ↔
    view (dc_tree d) !! id = Some b ∧ reach (view (dc_tree d)) (st_rootId (dc_tree d)) id;
  ef_parents : st_parents (dc_tree d') = [];
  ef_root : st_rootId (dc_tree d') = st_rootId (dc_tree d);
  ef_clean : clean (st_rootId (dc_tree d)) (st_blocks (dc_tree d'));
  ef_add b : b ∈ ac_Add act ↔ st_blocks (dc_tree d') !! b_Id b = Some b ∧ p !! b_Id b = None;
  ef_remove b : b ∈ ac_Remove act ↔ p !! b_Id b = Some b ∧ st_blocks (dc_tree d') !! b_Id b = None;
  ef_change o b : {| ch_Before := o; ch_After := b |} ∈ ac_Change act ↔
    ∃ o', p !! b_Id b = Some o' ∧ o = settle_file o' ∧ st_blocks (dc_tree d') !! b_Id b = Some b ∧ o' ≠ b;
  ef_below : dc_below d' = [];
}.

Lemma apply_effect d p pl :
  ready d p pl → ∃ msgs act d', apply_state d = Some (Ok (msgs, act, d')) ∧ effect d p act d'.
Proof.
  intros Hr. pose proof (re_wf _ _ _ Hr) as Hwf. destruct (ready_run d p pl Hr) as (l & [[msgs act] d'] & E & Hl & Ha & _).
  pose proof (V_lookup d p (re_parents _ _ _ Hr)) as HV.
  exists msgs, act, d'. split; [done|]. pose proof (ap_blocks _ _ _ _ Ha) as Hb. cbn [fst snd] in *.
  pose proof (λ b, affected_spec d p pl l b Hr Hl) as Haff.
  split; [done|apply (ap_parents _ _ _ _ Ha)|apply (ap_root _ _ _ _ Ha)|by eapply restrict_clean| | | |apply (ap_below _ _ _ _ Ha)].
  - intros b. rewrite (ap_add _ _ _ _ Ha : ac_Add act = _), list_elem_of_omap, Hb, HV. unfold added_of. split.
    + intros (x & [Htop Hre]%Haff & Hx). destruct (p !! b_Id x) eqn:Ep; [done|]. simplify_eq. by rewrite Htop.
    + intros [[Hv Hre] Hp]. exists b. rewrite Hp in *. split; [|done]. apply Haff.
      by destruct (st_blocks (dc_tree d) !! b_Id b) as [b'|]; [simplify_eq|].
  - intros b. rewrite <- (ap_remove _ _ _ _ Ha b). split.
    + intros (id & Hp & Hn). pose proof (re_keys _ _ _ Hr id b Hp) as Hid. subst id. split; [done|].
      destruct (st_blocks (dc_tree d') !! b_Id b) eqn:Eb; [|done]. by apply Hb in Eb as [_ ?].
    + intros [Hp Hn]. exists (b_Id b). split; [done|]. intros Hre.
      assert (is_Some (view (dc_tree d) !! b_Id b)) as [b' Hb'].
      { rewrite HV, Hp. destruct (st_blocks (dc_tree d) !! b_Id b); by eexists. }
      assert (st_blocks (dc_tree d') !! b_Id b = Some b') by (by apply Hb). congruence.
  - intros o b. rewrite (ap_change _ _ _ _ Ha : ac_Change act = _), list_elem_of_omap. setoid_rewrite Hb. setoid_rewrite HV. unfold change_of. split.
    + intros (x & [Htop Hre]%Haff & Hx). destruct (p !! b_Id x) as [o'|] eqn:Ep; [|done].
      destruct (block_Diff o' x) as [[|m diff]|] eqn:Ed; [done| |done]. simplify_eq. exists o'. rewrite Htop. split_and!; try done.
      intros ->. by rewrite block_Diff_refl in Ed.
    + intros (o' & Hp & -> & [Hv Hre] & Hne). exists b. rewrite Hp in *.
      assert (st_blocks (dc_tree d) !! b_Id b = Some b) as Htop.
      { destruct (st_blocks (dc_tree d) !! b_Id b); [done|]. congruence. }
      split; [by apply Haff|]. pose proof (re_kind _ _ _ Hr _ _ _ Hre Hp Htop) as Hk.
      destruct (same_kind_diff o' b Hk) as [diff Ed]. rewrite Ed. destruct diff as [|m diff]; [|done].
      destruct (block_Diff_carries o' b [] Hk Ed (re_keys _ _ _ Hr _ _ Hp)) as ([?|?%elem_of_nil] & [?|?%elem_of_nil] & [?|?%elem_of_nil] & [?|?%elem_of_nil] & _); try done.
      exfalso. apply Hne. pose proof (re_keys _ _ _ Hr _ _ Hp). destruct o', b. simpl in *. congruence.
Qed.

(** C4. Applying a state commits exactly its tree: for a well-formed state over one
    parent, whose changed blocks kept their types, [apply] ends without an error, the
    parent then holds the reachable blocks of the state and no others (so it is a
    clean tree again), and the undo action lists exactly the reachable blocks that
    are new, the old blocks that became unreachable, and for every block that
    changed the old and the new one. *)
Theorem apply_commits d p pl :
  ready d p pl →
  ∃ msgs act d', apply_state d = Some (Ok (msgs, act, d')) ∧
    (∀ id b, st_blocks (dc_tree d') !! id = Some b ↔
       view (dc_tree d) !! id = Some b ∧ reach (view (dc_tree d)) (st_rootId (dc_tree d)) id) ∧
    st_parents (dc_tree d') = [] ∧ st_rootId (dc_tree d') = st_rootId (dc_tree d) ∧
    clean (st_rootId (dc_tree d)) (st_blocks (dc_tree d')) ∧
    (∀ b, b ∈ ac_Add act ↔ st_blocks (dc_tree d') !! b_Id b = Some b ∧ p !! b_Id b = None) ∧
    (∀ b, b ∈ ac_Remove act ↔ p !! b_Id b = Some b ∧ st_blocks (dc_tree d') !! b_Id b = None) ∧
    (∀ o b, {| ch_Before := o; ch_After := b |} ∈ ac_Change act ↔
       ∃ o', p !! b_Id b = Some o' ∧ o = settle_file o' ∧ st_blocks (dc_tree d') !! b_Id b = Some b ∧ o' ≠ b).
Proof.
  intros Hr. destruct (apply_effect d p pl Hr) as (msgs & act & d' & E & []). exists msgs, act, d'. by split_and!.
Qed.

(** What the messages about one block can be. *)
Record heard (V p : Blocks) (root : string) (msgs : list EventMessage) : Prop := {
  he_adds id x b : said msgs x → adds id x b → V !! id = Some b ∧ reach V root id ∧ p !! id = None;
  he_added id b : V !! id = Some b → reach V root id → p !! id = None → ∃ x, said msgs x ∧ adds id x b;
  he_deletes id x : said msgs x → deletes id x → is_Some (p !! id) ∧ ¬ reach V root id;
  he_deleted id : is_Some (p !! id) → ¬ reach V root id → ∃ x, said msgs x ∧ deletes id x;
  he_sets id x b : said msgs x → V !! id = Some b → sets_to id x b;
  he_new id x : said msgs x → p !! id = None → sets_other id x;
  he_changed id o b : p !! id = Some o → V !! id = Some b → reach V root id →
    b_Id o = b_Id b ∧
    (b_ChildrenIds o = b_ChildrenIds b ∨ said msgs (BSetChildrenIds id (b_ChildrenIds b))) ∧
    (b_Fields o = b_Fields b ∨ said msgs (BSetFields id (b_Fields b))) ∧
    (b_BackgroundColor o = b_BackgroundColor b ∨ said msgs (BSetBackgroundColor id (b_BackgroundColor b))) ∧
    (b_Content o = b_Content b ∨ said msgs (BSetContent id (b_Content b)));
}.

Lemma told_heard d p pl l msgs :
  ready d p pl → walk_of d l → told d p l msgs → heard (view (dc_tree d)) p (st_rootId (dc_tree d)) msgs.
Proof.
  intros Hr Hl [Tadd Tset Tdel]. pose proof (V_lookup d p (re_parents _ _ _ Hr)) as HV.
  pose proof (re_wf _ _ _ Hr) as Hwf. pose proof (λ b, affected_spec d p pl l b Hr Hl) as Haff.
  set (V := view (dc_tree d)) in *. set (root := st_rootId (dc_tree d)) in *.
  assert (∀ x, said msgs x → is_set x → ∃ o b diff, p !! b_Id b = Some o ∧ V !! b_Id b = Some b ∧ block_Diff o b = Ok diff ∧
    x ∈ diff ∧ same_kind o b = true) as Hsets.
  { intros x Hs Hx. apply (Tset x Hx) in Hs as (b & diff & Hin & Hd & Hxd). apply Haff in Hin as [Htop Hre]. unfold diff_of in Hd.
    destruct (p !! b_Id b) as [o|] eqn:Ep; [|simplify_eq; by apply elem_of_nil in Hxd].
    exists o, b, diff. rewrite HV, Htop. split_and!; try done. by eapply (re_kind _ _ _ Hr). }
  split.
  - intros id x b Hs Hx. destruct x as [bs| | | | |]; try done. destruct Hx as [Hin <-].
    assert (b ∈ omap (added_of p) (affected_of d l)) as (y & [Hy ?]%Haff & Ey)%list_elem_of_omap by (apply Tadd; by exists bs).
    unfold added_of in Ey. destruct (p !! b_Id y) eqn:Ep; [done|]. simplify_eq. by rewrite HV, Hy.
  - intros id b Hv Hre Ep. pose proof (wf_keys _ _ Hwf id b Hv) as Hid.
    destruct (proj2 (Tadd b)) as (bs & Hs & Hin); [|by exists (BAdd bs)].
    apply list_elem_of_omap. exists b. unfold added_of. rewrite Hid, Ep. split; [|done]. apply Haff. rewrite Hid.
    split; [|done]. rewrite HV, Ep in Hv. by destruct (st_blocks (dc_tree d) !! id).
  - intros id x Hs Hx. destruct x as [|ids| | | |]; try done. apply Tdel. by exists ids.
  - intros id Hp Hn. destruct (proj2 (Tdel id) (conj Hp Hn)) as (ids & Hs & Hin). by exists (BDelete ids).
  - intros id x b Hs Hv. destruct (decide (is_set x)) as [Hset|Hset]; [|destruct x; simpl in *; tauto].
    destruct (Hsets x Hs Hset) as (o' & b' & diff & Hp' & Hv' & Hd & Hxd & Hk).
    destruct (block_Diff_carries o' b' diff Hk Hd (re_keys _ _ _ Hr _ _ Hp')) as (_ & _ & _ & _ & Hc).
    destruct (Hc x Hxd) as [Hto Hother]. destruct (decide (b_Id b' = id)) as [<-|Hne]; [rewrite Hv in Hv'; by simplify_eq|].
    assert (sets_other id x) as Ho by (apply Hother; congruence). by destruct x; simpl in *; intros.
  - intros id x Hs Ep. destruct (decide (is_set x)) as [Hset|Hset]; [|destruct x; simpl in *; tauto].
    destruct (Hsets x Hs Hset) as (o' & b' & diff & Hp' & Hv' & Hd & Hxd & Hk).
    destruct (block_Diff_carries o' b' diff Hk Hd (re_keys _ _ _ Hr _ _ Hp')) as (_ & _ & _ & _ & Hc). apply (Hc x Hxd). congruence.
  - intros id o b Ep Hv Hre. pose proof (re_keys _ _ _ Hr _ _ Ep) as Ho. pose proof (wf_keys _ _ Hwf id b Hv) as Hid.
    split; [congruence|]. rewrite HV in Hv. destruct (st_blocks (dc_tree d) !! id) as [b0|] eqn:Etop.
    2:{ rewrite Ep in Hv. injection Hv as ->. split_and!; by left. }
    injection Hv as ->. pose proof (re_kind _ _ _ Hr _ _ _ Hre Ep Etop) as Hk. destruct (same_kind_diff o b Hk) as [diff Hd].
    destruct (block_Diff_carries o b diff Hk Hd ltac:(congruence)) as (C1 & C2 & C3 & C4 & _).
    assert (∀ x, is_set x → x ∈ diff → said msgs x) as Hsaid.
    { intros x Hxs Hxd. apply (Tset x Hxs). exists b, diff. split_and!; [by apply Haff; rewrite Hid| |done].
      unfold diff_of. by rewrite Hid, Ep. }
    rewrite Hid in *. split_and!; [destruct C1|destruct C2|destruct C3|destruct C4]; (by left) || (right; by apply Hsaid).
Qed.

(** C5. The events are complete and exact: a client that holds the parent's blocks and
    replays the events of [apply], in the order in which they are sent (sorted by
    group, duplicates dropped), ends with exactly the blocks the parent holds after
    [apply]. *)
Theorem apply_events_replay d p pl :
  ready d p pl →
  ∃ msgs act d', apply_state d = Some (Ok (msgs, act, d')) ∧ replay p msgs = st_blocks (dc_tree d').
Proof.
  intros Hr. destruct (ready_run d p pl Hr) as (l & [[msgs act] d'] & E & Hl & Ha & Ht).
  exists msgs, act, d'. split; [done|]. pose proof (ap_blocks _ _ _ _ Ha) as Hb. cbn [fst snd] in *.
  apply (told_heard d p pl l msgs Hr Hl) in Ht. destruct Ht as [Hadds Hadded Hdels Hdeleted Hsets Hnew Hch].
  apply map_eq. intros id. destruct (st_blocks (dc_tree d') !! id) as [b|] eqn:Eb.
  - apply Hb in Eb as [Hv Hre]. destruct (p !! id) as [o|] eqn:Ep.
    + destruct (Hch id o b Ep Hv Hre) as (Hid & C1 & C2 & C3 & C4). apply (replay_changed id b msgs p o); try done.
      intros x Hs. split_and!; [|intros Hdel; by destruct (Hdels id x Hs Hdel)|by apply Hsets].
      intros b' Hadd. destruct (Hadds id x b' Hs Hadd) as (_ & _ & ?). congruence.
    + apply replay_added; [|right; by apply Hadded]. intros x Hs. split_and!; [| |by apply Hnew].
      * intros b' Hadd. destruct (Hadds id x b' Hs Hadd) as (? & _). congruence.
      * intros Hdel. destruct (Hdels id x Hs Hdel) as [[? ?] _]. congruence.
  - assert (¬ (is_Some (view (dc_tree d) !! id) ∧ reach (view (dc_tree d)) (st_rootId (dc_tree d)) id)) as Hn.
    { intros [[b Hv] Hre]. assert (st_blocks (dc_tree d') !! id = Some b) by (by apply Hb). congruence. }
    apply replay_deleted.
    + intros x Hs b' Hadd. destruct (Hadds id x b' Hs Hadd) as (? & ? & _). apply Hn. split; [by eexists|done].
    + destruct (p !! id) as [o|] eqn:Ep; [right|by left]. apply Hdeleted; [by eexists|].
      intros Hre. apply Hn. split; [|done]. rewrite (V_lookup d p (re_parents _ _ _ Hr)), Ep.
      by destruct (st_blocks (dc_tree d) !! id); eexists.
Qed.
End theorems.

(** ** Deciding the hypotheses, and the theorems on an example *)

Definition keyed_b (m : Blocks) : bool := forallb (λ kb, bool_decide (b_Id kb.2 = kb.1)) (map_to_list m).
Definition kinds_b (p top : Blocks) : bool :=
  forallb (λ kb, match p !! kb.1 with Some o => same_kind o kb.2 | None => true end) (map_to_list top).

Lemma keyed_b_spec m id b : keyed_b m = true → m !! id = Some b → b_Id b = id.
Proof.
  unfold keyed_b. rewrite forallb_forall. intros H Hb%elem_of_map_to_list%list_elem_of_In. apply H in Hb.
  by apply bool_decide_eq_true in Hb.
Qed.

Lemma kinds_b_spec p top id o b : kinds_b p top = true → p !! id = Some o → top !! id = Some b → same_kind o b = true.
Proof.
  unfold kinds_b. rewrite forallb_forall. intros H Ho Hb%elem_of_map_to_list%list_elem_of_In. apply H in Hb.
  simpl in Hb. by rewrite Ho in Hb.
Qed.

Lemma ready_check d p pl :
  st_parents (dc_tree d) = [p] → dc_below d = [pl] → wf_b (view (dc_tree d)) [st_rootId (dc_tree d)] = true →
  keyed_b p = true → kinds_b p (st_blocks (dc_tree d)) = true → ready d p pl.
Proof.
  intros H1 H2 H3%wf_b_spec H4 H5. split; try done.
  - intros id b. by apply keyed_b_spec.
  - intros id o b _. by apply kinds_b_spec.
Qed.

Module ApplyInst.
Import TreeInst.

#[export] Instance order : MapOrder := λ m, (map_to_list m).*1.
#[export] Instance order_ok : MapOrderOk.
Proof. by intros m. Qed.
#[export] Instance no_handler : DetailsHandler := {| dh_is := λ _, false; dh_init := λ _ b, b; dh_apply := λ _ _ _, [] |}.
#[export] Instance codec : MsgCodec (option BlockMsg) :=
  {| Marshal := λ m, Ok match m with MBlock x => Some x | _ => None end |}.
#[export] Instance codec_ok : MsgCodecOk (option BlockMsg).
Proof.
  split; [intros m; by eexists|]. intros m x m' [= <-] [= E]. destruct m'; simplify_eq. done.
Qed.

Definition no_snippet (t : State) : string := "".
Definition no_changes (d : Doc) (msgs : list EventMessage) : list Change := [].

(** "x" is added under "a", "b" is removed, the text of "c" is changed. *)
Definition edited : State :=
  let s := NewState doc in
  let s := (Add s (text "x" [])).2 in
  let s := setChildrenIds (Get s "a").2 "a" ["c"; "x"] in
  let s := (Unlink s "b").2 in
  Set_ s {| b_Id := "c"; b_ChildrenIds := []; b_Content := CText "new"; b_Fields := ∅; b_BackgroundColor := "" |}.

Definition base_layer : Layer := DetailsInst.layer DetailsInst.base_details None.
Definition d : Doc := {| dc_tree := edited; dc_top := DetailsInst.layer None None; dc_below := [base_layer] |}.

Lemma d_ready : ready d (st_blocks doc) base_layer.
Proof. apply ready_check; vm_compute; reflexivity. Qed.

Lemma apply_commits_witness :
  ∃ msgs act d', apply_normalized [] no_snippet no_changes d = Some (Ok (msgs, act, d')) ∧
    (∀ id b, st_blocks (dc_tree d') !! id = Some b ↔
       view (dc_tree d) !! id = Some b ∧ reach (view (dc_tree d)) "root" id) ∧
    map b_Id (ac_Add act) = ["x"] ∧ map b_Id (ac_Remove act) = ["b"].
Proof.
  destruct (apply_commits [] no_snippet no_changes ltac:(done) d (st_blocks doc) base_layer d_ready)
    as (msgs & act & d' & E & Hb & _). exists msgs, act, d'. split; [exact E|]. split; [exact Hb|].
  vm_compute in E. injection E as <- <- <-. split; reflexivity.
Defined.

Lemma apply_events_replay_witness :
  ∃ msgs act d', apply_normalized [] no_snippet no_changes d = Some (Ok (msgs, act, d')) ∧
    replay (st_blocks doc) msgs = st_blocks (dc_tree d') ∧ length msgs = 5%nat.
Proof.
  destruct (apply_events_replay [] no_snippet no_changes ltac:(done) d (st_blocks doc) base_layer d_ready)
    as (msgs & act & d' & E & Hb). exists msgs, act, d'. split; [exact E|]. split; [exact Hb|].
  vm_compute in E. injection E as <- <- <-. reflexivity.
Defined.

Lemma intermediateApply_correct_witness :
  let d2 := {| dc_tree := (Add (NewState edited) (text "y" [])).2; dc_top := DetailsInst.layer None (Some ∅);
               dc_below := [DetailsInst.layer None None; base_layer] |} in
  view (dc_tree (intermediateApply d2)) = view (dc_tree d2) ∧ doc_Details (intermediateApply d2) = doc_Details d2.
Proof.
  intros d2. destruct (intermediateApply_correct d2 (st_blocks edited) [st_blocks doc] (DetailsInst.layer None None) [base_layer])
    as (H1 & _ & _ & _ & H2 & _).
  - vm_compute. reflexivity.
  - reflexivity.
  - intros id b. apply keyed_b_spec. vm_compute. reflexivity.
  - split; [exact H1|exact H2].
Defined.
End ApplyInst.
