(* ===== verification/Changes.v ===== *)
(** * The log of changes of an object ([core/block/editor/state/change.go])

    An object is stored and synchronised as a log of changes.  [apply] turns the events
    of a state into changes ([fillChanges]); another replica, or this one after a
    restart, builds the object by applying the changes to its own state
    ([applyChange]).

    Structure is recorded as insertions: the children of a block before and after are
    compared, and every block that is new in the list is created or moved next to its
    neighbour.  Removed blocks are listed in one change; what was moved to another
    parent is recorded there. *)

From S2P Require Import Prelude Slice SliceDiff GoFloat Values PbTypes Details StateTree StateDetails StateStore StateApply.

Local Open Scope Z_scope.

(** ** From events to changes *)

Definition ch_URL (typeKey : string) : string := "ot-" +:+ typeKey.

Definition AddChange (cb : changeBuilder) (ch : list Change) : changeBuilder :=
  let cb := cb_Flush cb in
  {| cb_changes := cb_changes cb ++ ch; cb_isLastAdd := cb_isLastAdd cb; cb_lastTargetId := cb_lastTargetId cb;
     cb_lastPosition := cb_lastPosition cb; cb_lastIds := cb_lastIds cb; cb_lastBlocks := cb_lastBlocks cb |}.

Section fill.
Context (LocalAndDerivedRelationKeys : list string).
Context `{!Mb0Diff}.

(** What the loop over the messages collects. *)
Record filled := {
  fl_updMsgs : list BlockMsg;
  fl_delIds : list string;
  fl_delRelIds : list string;
  fl_newRelLinks : list RelationLink;
  fl_structMsgs : list (string * list string);
  fl_newIds : list string;
  fl_changes : list Change;
}.

(** A new block: the root is created at once, with its children. *)
Definition fill_added (rootId : string) (f : filled) (b : Block) : filled :=
  {| fl_updMsgs := fl_updMsgs f; fl_delIds := fl_delIds f; fl_delRelIds := fl_delRelIds f; fl_newRelLinks := fl_newRelLinks f;
     fl_structMsgs := if bool_decide (b_ChildrenIds b = []) then fl_structMsgs f
                      else fl_structMsgs f ++ [(b_Id b, b_ChildrenIds b)];
     fl_newIds := fl_newIds f ++ [b_Id b];
     fl_changes := if bool_decide (b_Id b = rootId) then fl_changes f ++ [ChCreate "" PNone [b]] else fl_changes f |}.
Definition fill_msg (rootId : string) (f : filled) (m : EventMessage) : filled :=
  if em_Virtual m then f
  else
    match em_Msg m with
    | MBlock (BSetChildrenIds id ids) =>
        {| fl_updMsgs := fl_updMsgs f; fl_delIds := fl_delIds f; fl_delRelIds := fl_delRelIds f; fl_newRelLinks := fl_newRelLinks f;
           fl_structMsgs := fl_structMsgs f ++ [(id, ids)]; fl_newIds := fl_newIds f; fl_changes := fl_changes f |}
    | MBlock (BDelete ids) =>
        {| fl_updMsgs := fl_updMsgs f; fl_delIds := fl_delIds f ++ ids; fl_delRelIds := fl_delRelIds f;
           fl_newRelLinks := fl_newRelLinks f; fl_structMsgs := fl_structMsgs f; fl_newIds := fl_newIds f; fl_changes := fl_changes f |}
    | MBlock (BAdd bs) => foldl (fill_added rootId) f bs
    | MBlock x =>
        {| fl_updMsgs := fl_updMsgs f ++ [x]; fl_delIds := fl_delIds f; fl_delRelIds := fl_delRelIds f;
           fl_newRelLinks := fl_newRelLinks f; fl_structMsgs := fl_structMsgs f; fl_newIds := fl_newIds f; fl_changes := fl_changes f |}
    | MRelationsAmend links =>
        {| fl_updMsgs := fl_updMsgs f; fl_delIds := fl_delIds f; fl_delRelIds := fl_delRelIds f;
           fl_newRelLinks := fl_newRelLinks f ++ links; fl_structMsgs := fl_structMsgs f; fl_newIds := fl_newIds f;
           fl_changes := fl_changes f |}
    | MRelationsRemove keys =>
        {| fl_updMsgs := fl_updMsgs f; fl_delIds := fl_delIds f; fl_delRelIds := fl_delRelIds f ++ keys;
           fl_newRelLinks := fl_newRelLinks f; fl_structMsgs := fl_structMsgs f; fl_newIds := fl_newIds f; fl_changes := fl_changes f |}
    | MDetailsAmend _ | MDetailsUnset _ => f
    end.

(** *** Structure *)

(** Where the block at position [pos] of the new list goes: before the first of the
    old list, into an empty block, or behind its neighbour. *)
Definition makeTarget (id : string) (a b : list string) (pos : nat) : string * BlockPosition :=
  match pos with
  | O => match a with [] => (id, PInner) | a0 :: _ => (a0, PTop) end
  | S pos => (default "" (b !! pos), PBottom)
  end.

(** The loop over the inserted blocks of one edit: [prevOp] is the kind of the last
    one, for which the target is kept.  New ids are ids of blocks of the state. *)
Fixpoint struct_inserts (t : State) (newIds : list string) (id : string) (a b : list string) (cb : changeBuilder)
    (target : string * BlockPosition) (prevOp : operation) (pos : nat) (ins : list string) : changeBuilder :=
  match ins with
  | [] => cb
  | x :: ins =>
      let isNew := negb (FindPos newIds x =? -1) in
      let op := if isNew then operationAdd else operationMove in
      let target := if bool_decide (prevOp = op) then target else makeTarget id a b pos in
      let cb := if isNew then match Pick t x with Some bl => cb_Add cb target.1 target.2 bl | None => cb end
                else cb_Move cb target.1 target.2 x in
      struct_inserts t newIds id a b cb target op (S pos) ins
  end.
Definition dstrings_Equal (a b : list string) (i j : nat) : bool :=
  match a !! i, b !! j with Some x, Some y => bool_decide (x = y) | _, _ => false end.
Definition makeStructureChanges (t : State) (newIds : list string) (cb : changeBuilder) (msg : string * list string) : changeBuilder :=
  let '(id, after) := msg in
  if negb (FindPos (st_ignoreIds t) id =? -1) then cb
  else
    let before := match PickOrigin t id with Some orig => b_ChildrenIds orig | None => [] end in
    foldl (λ cb c, struct_inserts t newIds id before after cb ("", PNone) operationNone (eB c) (subslice after (eB c) (eIns c)))
      cb (mb0_Diff (length before) (length after) (dstrings_Equal before after)).
Definition fillStructureChanges (t : State) (newIds : list string) (cb : changeBuilder) (msgs : list (string * list string))
    : changeBuilder :=
  foldl (makeStructureChanges t newIds) cb msgs.

(** *** The rest *)

Definition is_local (key : string) : bool := existsb (λ k, bool_decide (k = key)) LocalAndDerivedRelationKeys.
Definition filterLocalAndDerivedRelations (links : list RelationLink) : list RelationLink :=
  foldl (λ acc l, if is_local (rl_Key l) then acc else rl_Append acc l) [] links.
Definition filterLocalAndDerivedRelationsByKey (keys : list string) : list string :=
  foldl (λ acc k, if is_local k then acc else acc ++ [k]) [] keys.

Definition makeDetailsChanges (d : Doc) : list Change :=
  match ly_details (dc_top d) with
  | None => []
  | Some _ =>
      let prev := match parent_Details d with None => NewDetails | prev => prev end in
      let cur := doc_Details d in
      omap (λ '(k, v), let prevValue := d_Get prev k in
                       if negb (Value_Ok prevValue) || negb (Equal prevValue v) then Some (ChDetailsSet k (ToProto v)) else None)
           (d_Iterate cur) ++
      omap (λ '(k, _), if negb (d_Has cur k) then Some (ChDetailsUnset k) else None) (d_Iterate prev)
  end.

(** The map of the previous types stays empty: every type is added again. *)
Definition makeObjectTypesChanges (d : Doc) : list Change :=
  match ly_objectTypeKeys (dc_top d) with
  | None => []
  | Some keys =>
      let prev := default [] (inherited ly_objectTypeKeys (dc_below d)) in
      let prevMap : gset string := ∅ in
      let curMap : gset string := list_to_set keys in
      omap (λ v, if bool_decide (v ∈ prevMap) then None else Some (ChObjectTypeAdd (ch_URL v) "")) keys ++
      omap (λ v, if bool_decide (v ∈ curMap) then None else Some (ChObjectTypeRemove (ch_URL v) "")) prev
  end.

Definition makeOriginalCreatedChanges (d : Doc) : list Change :=
  let ts := ly_originalCreatedTimestamp (dc_top d) in
  if ts =? 0 then []
  else match dc_below d with
       | p :: _ => if ly_originalCreatedTimestamp p =? ts then [] else [ChOriginalCreatedTimestampSet ts]
       | [] => [ChOriginalCreatedTimestampSet ts]
       end.

Definition diffFileInfo (d : Doc) : list Change :=
  match dc_below d with
  | p :: _ => if fi_Equals (ly_fileInfo p) (ly_fileInfo (dc_top d)) then [] else [ChSetFileInfo (fi_ToModel (ly_fileInfo (dc_top d)))]
  | [] => []
  end.

Definition makeNotificationChanges (d : Doc) : list Change :=
  omap (λ '(id, n),
          match dc_below d with
          | [] => Some (ChNotificationCreate n)
          | below => match GetNotificationById below id with
                     | Some n' => if bool_decide (nt_Status n' = nt_Status n) then None
                                  else Some (ChNotificationUpdate (nt_Id n) (nt_Status n))
                     | None => Some (ChNotificationCreate n)
                     end
          end) (map_to_list (default ∅ (ly_notifications (dc_top d)))).

Definition makeDeviceInfoChanges (d : Doc) : list Change :=
  omap (λ '(id, v),
          match GetDevice (dc_below d) id with
          | Some v' => if bool_decide (dv_Name v = dv_Name v') then None else Some (ChDeviceUpdate (dv_Id v) (dv_Name v))
          | None => Some (ChDeviceAdd v)
          end) (map_to_list (default ∅ (ly_deviceStore (dc_top d)))).

(** Of the changes of one key of the store only the last is kept. *)
Definition store_key (ch : Change) : option (list string) :=
  match ch with ChStoreKeySet path _ | ChStoreKeyUnset path => Some path | _ => None end.
Fixpoint collapse_loop (seen : gset string) (chs : list Change) : list Change :=
  match chs with
  | [] => []
  | ch :: chs =>
      match store_key ch with
      | None => ch :: collapse_loop seen chs
      | Some path => let joined := Join path "/" in
                     if bool_decide (joined ∈ seen) then collapse_loop seen chs else ch :: collapse_loop ({[joined]} ∪ seen) chs
      end
  end.
Definition collapseSameKeyStoreChanges (chs : list Change) : list Change := rev (collapse_loop ∅ (rev chs)).

(** The builder has taken the recorded changes before they are collapsed, and what it
    builds replaces them. *)
Definition fillChanges (d : Doc) (msgs : list EventMessage) : list Change :=
  let t := dc_tree d in
  let f := foldl (fill_msg (st_rootId t))
             {| fl_updMsgs := []; fl_delIds := []; fl_delRelIds := []; fl_newRelLinks := []; fl_structMsgs := []; fl_newIds := [];
                fl_changes := st_changes t |} msgs in
  let cb := new_changeBuilder (fl_changes f) in
  let cb := fillStructureChanges t (fl_newIds f) cb (fl_structMsgs f) in
  let cb := match fl_delIds f with [] => cb | ids => AddChange cb [ChRemove ids] end in
  let cb := match filterLocalAndDerivedRelations (fl_newRelLinks f) with [] => cb | links => AddChange cb [ChRelationAdd links] end in
  let cb := match filterLocalAndDerivedRelationsByKey (fl_delRelIds f) with [] => cb | keys => AddChange cb [ChRelationRemove keys] end in
  let cb := match fl_updMsgs f with [] => cb | evs => AddChange cb [ChUpdate evs] end in
  let _collapsed := collapseSameKeyStoreChanges (fl_changes f) in
  cb_Build cb ++ makeDetailsChanges d ++ makeObjectTypesChanges d ++ makeOriginalCreatedChanges d ++ diffFileInfo d ++
  makeNotificationChanges d ++ makeDeviceInfoChanges d.
End fill.

(** ** Applying changes *)

(** *** Events about blocks ([event.go]) *)

Definition err_not_found : string := "can't apply change: block not found".
Definition err_kind : string := "the event is about a block of another kind".

(** The kind of block an event is for. *)
Definition event_fits (content own : Content) : bool :=
  match content, own with
  | CText _, CText _ | CFile _ _, CFile _ _ | CTableRow _, CTableRow _ => true
  | COther k _, COther k' _ => bool_decide (k = k')
  | _, _ => false
  end.
Definition put_block (s : State) (id : string) (b : Block) : State := with_blocks s (<[id:=b]> (st_blocks s)).
Definition applyEvent (s : State) (ev : BlockMsg) : option string * State :=
  match ev with
  | BSetFields id fields =>
      match Get s id with
      | (Some b, s) => (None, put_block s id (set_fields b fields))
      | (None, s) => (Some err_not_found, s)
      end
  | BSetBackgroundColor id color =>
      match Get s id with
      | (Some b, s) => (None, put_block s id (set_background b color))
      | (None, s) => (Some err_not_found, s)
      end
  | BSetContent id content =>
      match Get s id with
      | (Some b, s) => if event_fits content (b_Content b) then (None, put_block s id (set_content b content)) else (Some err_kind, s)
      | (None, s) => (Some err_not_found, s)
      end
  | _ => (None, s)
  end.

(** *** Blocks *)

Section apply_change.
Context (LocalAndDerivedRelationKeys : list string) (md5hex : string → string).
Context `{!PbCompare, !LoUniqBy}.

(** [Unlink] and [Set] for every block but a root that exists. *)
Fixpoint create_blocks (s : State) (bIds : list string) (blocks : list Block) : list string * State :=
  match blocks with
  | [] => (bIds, s)
  | m :: blocks =>
      if bool_decide (b_Id m = st_rootId s) then
        if Exists s (b_Id m) then create_blocks s bIds blocks else create_blocks (Set_ s m) bIds blocks
      else create_blocks (Set_ (Unlink s (b_Id m)).2 m) (bIds ++ [b_Id m]) blocks
  end.
Definition changeBlockCreate (s : State) (target : string) (pos : BlockPosition) (blocks : list Block) : outcome :=
  let '(bIds, s) := create_blocks s [] blocks in InsertTo md5hex s target pos bIds.
Definition unlink_all (s : State) (ids : list string) : State := foldl (λ s id, (Unlink s id).2) s ids.
Definition changeBlockMove (s : State) (target : string) (pos : BlockPosition) (ids : list string) : outcome :=
  InsertTo md5hex (unlink_all s ids) target pos ids.
Definition changeBlockRemove (s : State) (ids : list string) : State :=
  foldl (λ s id, (CleanupBlock (Unlink s id).2 id).2) s ids.
(** All events are applied; there is an error when one of them failed. *)
Definition changeBlockUpdate (s : State) (events : list BlockMsg) : option string * State :=
  foldl (λ '(err, s) ev, let '(e, s) := applyEvent s ev in (match err with Some _ => err | None => e end, s)) (None, s) events.

(** *** Details, relations, types *)

Definition own_copy (d : Doc) : Details :=
  match ly_details (dc_top d) with
  | Some m => Some m
  | None => match doc_Details d with None => NewDetails | det => d_Copy det end
  end.
(** [own_copy] is never nil. *)
Definition changeBlockDetailsSet (d : Doc) (key : string) (value : PbValue) : Doc :=
  let own := own_copy d in
  let r := match value with PNil => d_Delete own key | _ => d_SetProtoValue own key value end in
  with_top d (set_details (dc_top d) (match r with Ok det => det | Err _ => own end)).
Definition changeBlockDetailsUnset (d : Doc) (key : string) : Doc :=
  let own := own_copy d in
  with_top d (set_details (dc_top d) (match d_Delete own key with Ok det => det | Err _ => own end)).

Definition changeRelationAdd (d : Doc) (links : list RelationLink) : Doc :=
  let '(rl, d) := getRelationLinks d in
  let rl' := foldl (λ rl r, if rl_Has rl (rl_Key r) then rl else rl_Append rl r) rl links in
  with_top d (set_relationLinks (dc_top d)
    (match ly_relationLinks (dc_top d), rl' with None, [] => None | _, _ => Some rl' end)).
Definition changeRelationRemove (d : Doc) (keys : list string) : Doc := RemoveRelation LocalAndDerivedRelationKeys d keys.

Definition trim_prefix (prefix s : string) : option string :=
  if String.prefix prefix s then Some (String.substring (String.length prefix) (String.length s - String.length prefix) s) else None.
Definition migrateObjectTypeIDToKey (old : string) : string :=
  match trim_prefix "ot-" old with
  | Some key => key
  | None => match trim_prefix "_ot" old with Some key => key | None => old end
  end.
Definition changeObjectTypeAdd (d : Doc) (url key : string) : Doc :=
  let key := if bool_decide (url = "") then key else migrateObjectTypeIDToKey url in
  let types := default [] (doc_ObjectTypeKeys d) in
  if bool_decide (key ∈ types) then d else doc_SetObjectTypeKeys d (Some (types ++ [key])).
(** The own list is written also when the type is not found. *)
Definition changeObjectTypeRemove (d : Doc) (url key : string) : Doc :=
  let key := if bool_decide (url = "") then key else migrateObjectTypeIDToKey url in
  doc_SetObjectTypeKeys d (Some (Filter (default [] (doc_ObjectTypeKeys d)) (λ k, negb (bool_decide (k = key))))).

(** *** The store and the rest *)

Definition slice_change (op : StoreSliceOp) : SliceDiff.Change string :=
  match op with
  | SliceAdd ids afterId => ChangeAdd ids afterId
  | SliceRemove ids => ChangeRemove ids
  | SliceMove ids afterId => ChangeMove ids afterId
  end.
Definition changeStoreSliceUpdate (d : Doc) (key : string) (op : option StoreSliceOp) : option Doc :=
  let changes := match op with Some op => [slice_change op] | None => [] end in
  let old := pb_GetStringList (doc_Store d) key in
  cur ← ApplyChanges id old changes;
  snd <$> setInStore d [key] (pb_StringList cur).

Definition changeOriginalCreatedTimestampSet (d : Doc) (ts : Z) : Doc :=
  if ts =? 0 then d else with_top d (set_timestamp (dc_top d) ts).

Definition addNotification (d : Doc) (n : Notification) : Doc :=
  let own := default ∅ (ly_notifications (dc_top d)) in
  let own := match own !! nt_Id n with
             | Some n' => if bool_decide (nt_Status n' = Read) then own else <[nt_Id n:=n]> own
             | None => <[nt_Id n:=n]> own
             end in
  with_top d (set_notifications (dc_top d) (Some own)).
Definition updateNotification (d : Doc) (id : string) (status : NotificationStatus) : Doc :=
  match ly_notifications (dc_top d) with
  | None => d
  | Some own =>
      match own !! id with
      | None => d
      | Some n => if bool_decide (nt_Status n = Read) then d
                  else with_top d (set_notifications (dc_top d)
                         (Some (<[id := {| nt_Id := nt_Id n; nt_Status := status; nt_payload := nt_payload n |}]> own)))
      end
  end.
Definition addDevice (d : Doc) (device : DeviceInfo) : Doc :=
  with_top d (set_deviceStore (dc_top d) (Some (<[dv_Id device:=device]> (default ∅ (ly_deviceStore (dc_top d)))))).
Definition updateDevice (d : Doc) (id name : string) : Doc :=
  match ly_deviceStore (dc_top d) with
  | None => d
  | Some own =>
      match own !! id with
      | None => d
      | Some v => with_top d (set_deviceStore (dc_top d)
                    (Some (<[id := {| dv_Id := dv_Id v; dv_Name := name; dv_AddDate := dv_AddDate v |}]> own)))
      end
  end.

Definition err_unexpected : string := "unexpected changes content type".

(** [None] is a panic.  The state keeps what a failed change has done. *)
Definition applyChange (d : Doc) (ch : Change) : option (option string * Doc) :=
  let ok d : option (option string * Doc) := Some (None, d) in
  let on_tree (r : outcome) : option (option string * Doc) := '(err, t) ← r; Some (err, with_tree d t) in
  match ch with
  | ChCreate target pos blocks => on_tree (changeBlockCreate (dc_tree d) target pos blocks)
  | ChRemove ids => ok (with_tree d (changeBlockRemove (dc_tree d) ids))
  | ChUpdate events => on_tree (Some (changeBlockUpdate (dc_tree d) events))
  | ChMove target pos ids => on_tree (changeBlockMove (dc_tree d) target pos ids)
  | ChDetailsSet key value => ok (changeBlockDetailsSet d key value)
  | ChDetailsUnset key => ok (changeBlockDetailsUnset d key)
  | ChRelationAdd links => ok (changeRelationAdd d links)
  | ChRelationRemove keys => ok (changeRelationRemove d keys)
  | ChObjectTypeAdd url key => ok (changeObjectTypeAdd d url key)
  | ChObjectTypeRemove url key => ok (changeObjectTypeRemove d url key)
  | ChStoreKeySet path value => '(_, d) ← setInStore d path value; ok (record d [ch])
  | ChStoreKeyUnset path => '(_, d) ← removeFromStore d path; ok (record d [ch])
  | ChStoreSliceUpdate key op => d ← changeStoreSliceUpdate d key op; ok d
  | ChOriginalCreatedTimestampSet ts => ok (changeOriginalCreatedTimestampSet d ts)
  | ChSetFileInfo info => ok (setFileInfoFromModel d info)
  | ChNotificationCreate n => ok (addNotification d n)
  | ChNotificationUpdate id status => ok (updateNotification d id status)
  | ChDeviceAdd device => ok (addDevice d device)
  | ChDeviceUpdate id name => ok (updateDevice d id name)
  | ChUnknown => Some (Some err_unexpected, d)
  end.

(** [ApplyChange] stops at the first error, [ApplyChangeIgnoreErr] does not. *)
Fixpoint ApplyChange (d : Doc) (chs : list Change) : option (option string * Doc) :=
  match chs with
  | [] => Some (None, d)
  | ch :: chs =>
      match applyChange d ch with
      | None => None
      | Some (Some err, d) => Some (Some err, d)
      | Some (None, d) => ApplyChange d chs
      end
  end.
Fixpoint ApplyChangeIgnoreErr (d : Doc) (chs : list Change) : option Doc :=
  match chs with
  | [] => Some d
  | ch :: chs => '(_, d) ← applyChange d ch; ApplyChangeIgnoreErr d chs
  end.
End apply_change.
