(* ===== verification/ChangeRuns.v ===== *)
(** * The structure changes of a log as runs

    The builder of changes joins neighbouring insertions.  Its result is described
    here as a list of runs: each inserts blocks of one kind, new or moved, in one
    place, which is the end of the part of the new children list handled so far. *)

From S2P Require Import Prelude Slice SliceDiff GoFloat Values PbTypes Details StateTree StateDetails StateStore StateApply Changes.

Record run := { ru_new : bool; ru_target : string; ru_pos : BlockPosition; ru_ids : list string }.

(** The place behind the handled part [dn] of the children of [id]. *)
Definition place_of (id : string) (before dn : list string) : string * BlockPosition :=
  match last dn with
  | Some t => (t, PBottom)
  | None => match before with [] => (id, PInner) | a0 :: _ => (a0, PTop) end
  end.
Definition start_run (isNew : bool) (t : string * BlockPosition) (x : string) : run :=
  {| ru_new := isNew; ru_target := t.1; ru_pos := t.2; ru_ids := [x] |}.
Definition more_run (r : run) (x : string) : run :=
  {| ru_new := ru_new r; ru_target := ru_target r; ru_pos := ru_pos r; ru_ids := ru_ids r ++ [x] |}.

Section runs.
Context (newIds : list string).
Definition is_new (x : string) : bool := bool_decide (x ∈ newIds).

(** [dn] ends with the ids of the current run. *)
Fixpoint grow (id : string) (before dn : list string) (cur : run) (ins : list string) : list run :=
  match ins with
  | [] => [cur]
  | x :: ins =>
      if bool_decide (is_new x = ru_new cur) then grow id before (dn ++ [x]) (more_run cur x) ins
      else cur :: grow id before (dn ++ [x]) (start_run (is_new x) (place_of id before dn) x) ins
  end.
Definition edit_runs (id : string) (before dn ins : list string) : list run :=
  match ins with
  | [] => []
  | x :: ins => grow id before (dn ++ [x]) (start_run (is_new x) (place_of id before dn) x) ins
  end.
Fixpoint msg_runs (id : string) (before dn : list string) (segs : list (seg string)) : list run :=
  match segs with
  | [] => []
  | SKeep _ x :: segs => msg_runs id before (dn ++ [x]) segs
  | SEdit _ ins :: segs => edit_runs id before dn ins ++ msg_runs id before (dn ++ ins) segs
  end.
End runs.

(** The segments of a comparison of two lists of ids. *)
Lemma dstrings_segs `{!Mb0Diff, !Mb0DiffOk} (a b : list string) :
  ∃ segs, aside segs = a ∧ bside segs = b ∧ mb0_Diff (length a) (length b) (dstrings_Equal a b) = seg_changes 0 0 segs ∧
    Forall (seg_ok id) segs.
Proof.
  pose proof (mb0_Diff_script (length a) (length b) (dstrings_Equal a b)) as Hs.
  destruct (script_segs id a b true 0 0 _ Hs) as (segs & Ea & Eb & Ec & Hok & _). exists segs. rewrite drop_0 in Ea, Eb. done.
Qed.

(** ** The builder *)

Section builder.
Context (blk : string → Block).

Definition change_of_run (r : run) : Change :=
  if ru_new r then ChCreate (ru_target r) (ru_pos r) ((λ x, with_children (blk x) []) <$> ru_ids r)
  else ChMove (ru_target r) (ru_pos r) (ru_ids r).

(** The last run is still open. *)
Definition cb_pending (cb : changeBuilder) (chs : list Change) (r : run) : Prop :=
  cb = {| cb_changes := chs; cb_isLastAdd := ru_new r; cb_lastTargetId := ru_target r; cb_lastPosition := ru_pos r;
          cb_lastIds := if ru_new r then [] else ru_ids r;
          cb_lastBlocks := if ru_new r then (λ x, with_children (blk x) []) <$> ru_ids r else [] |}.
Definition cb_holds (cb : changeBuilder) (chs : list Change) (rs : list run) : Prop :=
  (rs = [] ∧ cb_changes cb = chs ∧ cb_lastTargetId cb = "" ∧ cb_lastIds cb = [] ∧ cb_lastBlocks cb = []) ∨
  ∃ rs' r, rs = rs' ++ [r] ∧ cb_pending cb (chs ++ (change_of_run <$> rs')) r ∧ ru_target r ≠ "" ∧ ru_ids r ≠ [].

Lemma cb_holds_Flush cb chs rs : cb_holds cb chs rs → cb_holds (cb_Flush cb) (chs ++ (change_of_run <$> rs)) [].
Proof.
  intros [(-> & E1 & E2 & E3 & E4)|(rs' & r & -> & -> & Ht & Hi)]; left; unfold cb_Flush.
  - rewrite E2. simpl. by rewrite app_nil_r.
  - cbn [cb_lastTargetId cb_isLastAdd cb_lastIds cb_lastBlocks cb_changes]. rewrite bool_decide_eq_false_2 by done.
    rewrite fmap_app. simpl. assert (∀ l, (chs ++ (change_of_run <$> rs')) ++ l = chs ++ (change_of_run <$> rs') ++ l) as Ha by (intros; by rewrite app_assoc).
    replace (change_of_run r) with (if ru_new r then ChCreate (ru_target r) (ru_pos r) ((λ x, with_children (blk x) []) <$> ru_ids r)
      else ChMove (ru_target r) (ru_pos r) (ru_ids r)) by done.
    destruct (ru_new r); simpl.
    + rewrite bool_decide_eq_false_2 by (by intros ?%fmap_nil_inv). simpl. by rewrite Ha.
    + rewrite bool_decide_eq_false_2 by done. simpl. rewrite Ha. done.
Qed.
Lemma cb_holds_Build cb chs rs : cb_holds cb chs rs → cb_Build cb = chs ++ (change_of_run <$> rs).
Proof. intros [(_ & E & _)|(rs' & ? & E & _)]%cb_holds_Flush; [done|by destruct rs']. Qed.
Lemma cb_holds_AddChange cb chs rs l : cb_holds cb chs rs → cb_holds (AddChange cb l) (chs ++ (change_of_run <$> rs) ++ l) [].
Proof.
  intros [(_ & E1 & E2 & E3 & E4)|(rs' & ? & E & _)]%cb_holds_Flush; [|by destruct rs']. left. unfold AddChange. simpl.
  by rewrite E1, E2, E3, E4, app_assoc.
Qed.
Lemma cb_holds_new chs : cb_holds (new_changeBuilder chs) chs [].
Proof. by left. Qed.

Definition cb_push (cb : changeBuilder) (isNew : bool) (t : string * BlockPosition) (x : string) : changeBuilder :=
  if isNew then cb_Add cb t.1 t.2 (blk x) else cb_Move cb t.1 t.2 x.

Lemma cb_push_more cb chs rs r x :
  cb_holds cb chs (rs ++ [r]) → cb_holds (cb_push cb (ru_new r) (ru_target r, ru_pos r) x) chs (rs ++ [more_run r x]).
Proof.
  intros [(E & _)|(rs' & r' & [<- [= <-]]%app_inj_2 & -> & Ht & Hi)]; [by destruct rs| |done].
  right. exists rs, (more_run r x). split_and!; [done| |done|by intros [? ?]%app_eq_nil].
  unfold cb_push, cb_pending, cb_Add, cb_Move. destruct (ru_new r) eqn:En; simpl; rewrite En; simpl;
    rewrite !bool_decide_eq_true_2 by done; simpl; [by rewrite fmap_app|done].
Qed.

Lemma cb_push_start cb chs rs isNew t x :
  cb_holds cb chs rs → t.1 ≠ "" → (∀ r, last rs = Some r → (ru_new r, (ru_target r, ru_pos r)) ≠ (isNew, t)) →
  cb_holds (cb_push cb isNew t x) chs (rs ++ [start_run isNew t x]).
Proof.
  intros Hcb Ht Hne. right. exists rs, (start_run isNew t x). split_and!; [done| |done|done].
  assert (cb_holds (cb_Flush cb) (chs ++ (change_of_run <$> rs)) []) as [(_ & F1 & F2 & F3 & F4)|(? & ? & E & _)];
    [by apply cb_holds_Flush| |by destruct x0].
  assert ((if isNew then negb (cb_isLastAdd cb) else cb_isLastAdd cb) || negb (bool_decide (cb_lastTargetId cb = t.1))
            || negb (bool_decide (cb_lastPosition cb = t.2)) = true) as Hflush.
  { destruct Hcb as [(-> & _ & E2 & _)|(rs' & r & -> & -> & Ht' & _)].
    - rewrite E2. rewrite (bool_decide_eq_false_2 ("" = t.1)) by done. by rewrite orb_true_r.
    - specialize (Hne r). rewrite last_snoc in Hne. specialize (Hne eq_refl). cbn [cb_isLastAdd cb_lastTargetId cb_lastPosition].
      destruct (decide (ru_target r = t.1)) as [E1|]; [|by rewrite (bool_decide_eq_false_2 (ru_target r = t.1)), orb_true_r by done].
      destruct (decide (ru_pos r = t.2)) as [E2|]; [|by rewrite (bool_decide_eq_false_2 (ru_pos r = t.2)), orb_true_r by done].
      destruct t as [t1 t2]. simpl in E1, E2. subst t1 t2. destruct isNew, (ru_new r); try done. }
  unfold cb_push, cb_pending, cb_Add, cb_Move, start_run. destruct isNew; rewrite Hflush; simpl; by rewrite F1, F3, F4.
Qed.
End builder.

(** ** From the loops to the runs *)

Section loops.
Context (t : State) (newIds : list string) (Hnew : ∀ x, x ∈ newIds → is_Some (Pick t x)).
Definition no_block : Block := {| b_Id := ""; b_ChildrenIds := []; b_Content := CNone; b_Fields := ∅; b_BackgroundColor := "" |}.
Definition picked (x : string) : Block := default no_block (Pick t x).
Abbreviation holds := (cb_holds picked).

Lemma place_of_target id before after dn ins : after = dn ++ ins → makeTarget id before after (length dn) = place_of id before dn.
Proof.
  intros ->. unfold place_of. destruct dn as [|y dn _] using rev_ind; [done|].
  rewrite last_snoc, length_app, Nat.add_1_r. cbn [makeTarget]. rewrite <- app_assoc, lookup_app_r, Nat.sub_diag by lia. done.
Qed.

(** One step of the loop. *)
Lemma insert_push cb (target : string * BlockPosition) x :
  (if negb (FindPos newIds x =? -1)%Z then match Pick t x with Some bl => cb_Add cb target.1 target.2 bl | None => cb end
   else cb_Move cb target.1 target.2 x) = cb_push picked cb (is_new newIds x) target x.
Proof.
  rewrite FindPos_path. unfold cb_push, is_new, picked. case_bool_decide as Hin; [|done].
  destruct (Hnew x Hin) as [b ->]. done.
Qed.

Definition kind_op (isNew : bool) : operation := if isNew then operationAdd else operationMove.

Lemma struct_inserts_grow id before after chs ins : ∀ dn cur cb rs rest,
  holds cb chs (rs ++ [cur]) → after = dn ++ ins ++ rest → dn ≠ [] → "" ∉ dn ++ ins →
  holds (struct_inserts t newIds id before after cb (ru_target cur, ru_pos cur) (kind_op (ru_new cur)) (length dn) ins) chs
    (rs ++ grow newIds id before dn cur ins).
Proof.
  induction ins as [|x ins IH]; intros dn cur cb rs rest Hcb Ea Hd Hne; cbn [struct_inserts grow]; [done|].
  rewrite insert_push, FindPos_path. fold (is_new newIds x).
  replace (if is_new newIds x then operationAdd else operationMove) with (kind_op (is_new newIds x)) by done.
  assert (after = (dn ++ [x]) ++ ins ++ rest) as Ea' by (by rewrite Ea, <- !app_assoc).
  assert ("" ∉ (dn ++ [x]) ++ ins) as Hne' by (by rewrite <- app_assoc).
  replace (S (length dn)) with (length (dn ++ [x])) by (rewrite length_app; simpl; lia).
  destruct (decide (is_new newIds x = ru_new cur)) as [E|E].
  - rewrite (bool_decide_eq_true_2 _ E), E, bool_decide_eq_true_2 by done.
    apply (IH (dn ++ [x]) (more_run cur x) _ rs rest); [by apply cb_push_more|done|by destruct dn|done].
  - rewrite (bool_decide_eq_false_2 _ E), bool_decide_eq_false_2 by (unfold kind_op; destruct (is_new newIds x), (ru_new cur); done).
    rewrite (place_of_target id before after dn (x :: ins ++ rest)) by done.
    set (q := place_of id before dn). change (cur :: grow newIds id before (dn ++ [x]) (start_run (is_new newIds x) q x) ins)
      with ([cur] ++ grow newIds id before (dn ++ [x]) (start_run (is_new newIds x) q x) ins).
    rewrite app_assoc. pose proof (IH (dn ++ [x]) (start_run (is_new newIds x) q x) (cb_push picked cb (is_new newIds x) q x) (rs ++ [cur]) rest) as IH'.
    assert ((ru_target (start_run (is_new newIds x) q x), ru_pos (start_run (is_new newIds x) q x)) = q) as Eq by (by destruct q).
    rewrite Eq in IH'. apply IH'; [|done|by destruct dn|done]. apply cb_push_start; [done| |].
    + unfold q, place_of. destruct (last dn) as [y|] eqn:El; [|by apply last_None in El]. simpl. intros ->.
      apply Hne, elem_of_app. left. apply last_Some in El as [l' ->]. apply elem_of_app. right. by left.
    + intros r. rewrite last_snoc. intros [= <-] [= E1 _]. congruence.
Qed.

(** The target of a run is a place of the list. *)
Definition ends_at (id : string) (before dn : list string) (rs : list run) : Prop :=
  ∀ r, last rs = Some r → (ru_target r, ru_pos r) ≠ place_of id before dn.

Lemma struct_inserts_edit id before after chs dn cb rs ins rest :
  holds cb chs rs → after = dn ++ ins ++ rest → id ≠ "" → "" ∉ before → "" ∉ dn ++ ins → ends_at id before dn rs →
  holds (struct_inserts t newIds id before after cb ("", PNone) operationNone (length dn) ins) chs
    (rs ++ edit_runs newIds id before dn ins).
Proof.
  intros Hcb Ea Hid Hb Hne Hend. destruct ins as [|x ins]; cbn [struct_inserts edit_runs]; [by rewrite app_nil_r|].
  rewrite insert_push, FindPos_path. fold (is_new newIds x).
  replace (if is_new newIds x then operationAdd else operationMove) with (kind_op (is_new newIds x)) by done.
  rewrite bool_decide_eq_false_2 by (by destruct (is_new newIds x)).
  rewrite (place_of_target id before after dn (x :: ins ++ rest)) by done. set (q := place_of id before dn).
  replace (S (length dn)) with (length (dn ++ [x])) by (rewrite length_app; simpl; lia).
  pose proof (struct_inserts_grow id before after chs ins (dn ++ [x]) (start_run (is_new newIds x) q x)
                (cb_push picked cb (is_new newIds x) q x) rs rest) as Hg.
  assert ((ru_target (start_run (is_new newIds x) q x), ru_pos (start_run (is_new newIds x) q x)) = q) as Eq by (by destruct q).
  rewrite Eq in Hg. apply Hg; [|by rewrite Ea, <- !app_assoc|by destruct dn|by rewrite <- app_assoc].
  apply cb_push_start; [done| |].
  - unfold q, place_of. destruct (last dn) as [y|] eqn:El.
    + simpl. intros ->. apply Hne, elem_of_app. left. apply last_Some in El as [l' ->]. apply elem_of_app. right. by left.
    + destruct before; [done|]. simpl. intros ->. apply Hb. by left.
  - intros r Hr [= _ E]. by apply (Hend r Hr).
Qed.

(** Every run of a message starts at a place behind a part of the list. *)
Lemma grow_places id before dn cur ins r :
  r ∈ grow newIds id before dn cur ins →
  (ru_target r, ru_pos r) = (ru_target cur, ru_pos cur) ∨
  ∃ l1 x l2, ins = l1 ++ x :: l2 ∧ (ru_target r, ru_pos r) = place_of id before (dn ++ l1).
Proof.
  revert dn cur. induction ins as [|x ins IH]; intros dn cur; cbn [grow]; [intros ->%list_elem_of_singleton; by left|].
  case_bool_decide.
  - intros [E|(l1 & y & l2 & -> & E)]%IH; [by left|right]. exists (x :: l1), y, l2. by rewrite <- app_assoc in E.
  - intros [->|[E|(l1 & y & l2 & -> & E)]%IH]%elem_of_cons; [by left|right..].
    + exists [], x, ins. rewrite app_nil_r. split; [done|]. rewrite E. by destruct (place_of id before dn).
    + exists (x :: l1), y, l2. by rewrite <- app_assoc in E.
Qed.
Lemma edit_places id before dn ins r :
  r ∈ edit_runs newIds id before dn ins → ∃ l1 x l2, ins = l1 ++ x :: l2 ∧ (ru_target r, ru_pos r) = place_of id before (dn ++ l1).
Proof.
  destruct ins as [|x ins]; cbn [edit_runs]; [by intros ?%elem_of_nil|]. intros [E|(l1 & y & l2 & -> & E)]%grow_places.
  - exists [], x, ins. rewrite app_nil_r. split; [done|]. rewrite E. by destruct (place_of id before dn).
  - exists (x :: l1), y, l2. by rewrite <- app_assoc in E.
Qed.

Lemma place_of_inj id before after done1 done2 :
  NoDup after → done1 `prefix_of` after → done2 `prefix_of` after → place_of id before done1 = place_of id before done2 → done1 = done2.
Proof.
  intros Hn [r1 E1] [r2 E2] E. unfold place_of in E. destruct done1 as [|x done1 _] using rev_ind; destruct done2 as [|y done2 _] using rev_ind; try done.
  - rewrite last_snoc in E. simpl in E. by destruct before.
  - rewrite last_snoc in E. simpl in E. by destruct before.
  - rewrite !last_snoc in E. injection E as ->. f_equal. rewrite E1 in Hn, E2. rewrite <- !app_assoc in E2. rewrite <- app_assoc in Hn.
    cbn [app] in E2, Hn. by destruct (split_unique done1 r1 done2 r2 y Hn E2).
Qed.

Lemma edit_runs_nil id before dn ins : edit_runs newIds id before dn ins = [] → ins = [].
Proof.
  destruct ins as [|x ins]; [done|]. cbn [edit_runs]. intros E. exfalso. revert E. generalize (start_run (is_new newIds x) (place_of id before dn) x).
  generalize (dn ++ [x]). induction ins as [|y ins IH]; intros l r; cbn [grow]; [done|]. case_bool_decide; [apply IH|done].
Qed.

(** The last run does not start at a place from [dn] on. *)
Definition apart (id : string) (before after dn : list string) (rs : list run) : Prop :=
  ∀ r, last rs = Some r → ∀ d, dn `prefix_of` d → d `prefix_of` after → (ru_target r, ru_pos r) ≠ place_of id before d.

Lemma msg_loop id before after chs segs : ∀ dn cb rs x,
  holds cb chs rs → after = dn ++ bside segs → NoDup after → id ≠ "" → "" ∉ before → "" ∉ after → apart id before after dn rs →
  holds (foldl (λ cb c, struct_inserts t newIds id before after cb ("", PNone) operationNone (eB c) (subslice after (eB c) (eIns c)))
           cb (seg_changes x (length dn) segs)) chs (rs ++ msg_runs newIds id before dn segs).
Proof.
  induction segs as [|[y z|d ins] segs IH]; intros dn cb rs x Hcb Ea Hn Hid Hb Hne Hap; cbn [seg_changes msg_runs foldl bside eB eIns] in *.
  - by rewrite app_nil_r.
  - replace (S (length dn)) with (length (dn ++ [z])) by (rewrite length_app; simpl; lia).
    apply IH; try done; [by rewrite <- app_assoc|]. intros r Hr d Hd. apply Hap; [done|]. etrans; [|exact Hd]. by exists [z].
  - rewrite <- length_app, app_assoc. assert (subslice after (length dn) (length ins) = ins) as ->.
    { unfold subslice. by rewrite Ea, drop_app_length, take_app_length. }
    apply IH; try done; [|by rewrite <- app_assoc|].
    + apply (struct_inserts_edit id before after chs dn cb rs ins (bside segs)); try done.
      * rewrite Ea in Hne. set_solver.
      * intros r Hr. apply (Hap r Hr); [done|]. by exists (ins ++ bside segs).
    + intros r Hr d' Hd' Hpre E. destruct ins as [|i ins].
      { rewrite app_nil_r in Hr, Hd'. by apply (Hap r Hr d'). }
      assert (r ∈ edit_runs newIds id before dn (i :: ins)) as (l1 & y & l2 & El & E')%edit_places.
      { rewrite last_app in Hr. destruct (last (edit_runs newIds id before dn (i :: ins))) as [r'|] eqn:El.
        - injection Hr as ->. by apply last_Some_elem_of.
        - apply last_None in El. by apply edit_runs_nil in El. }
      rewrite E in E'. symmetry in E'. apply (place_of_inj id before after) in E'; [|done| |done].
      * apply prefix_length in Hd'. rewrite <- E' in Hd'. rewrite El, !length_app in Hd'. simpl in Hd'. lia.
      * exists (y :: l2 ++ bside segs). rewrite Ea, El. by rewrite <- !app_assoc.
Qed.

Lemma msg_places id before segs r : ∀ dn, r ∈ msg_runs newIds id before dn segs →
  ∃ d, d `prefix_of` dn ++ bside segs ∧ (ru_target r, ru_pos r) = place_of id before d.
Proof.
  induction segs as [|[y z|d ins] segs IH]; intros dn; cbn [msg_runs bside]; [by intros ?%elem_of_nil|..].
  - intros (d & Hd & E)%IH. exists d. by rewrite <- app_assoc in Hd.
  - intros [(l1 & y & l2 & -> & E)%edit_places|(d' & Hd & E)%IH]%elem_of_app.
    + exists (dn ++ l1). split; [|done]. rewrite <- app_assoc, app_assoc. by eexists.
    + exists d'. by rewrite <- app_assoc in Hd.
Qed.

(** *** All messages *)

Context `{!Mb0Diff, !Mb0DiffOk}.
Definition before_of (id : string) : list string := match PickOrigin t id with Some orig => b_ChildrenIds orig | None => [] end.
Definition runs_of_msg (msg : string * list string) (rs : list run) : Prop :=
  ∃ segs, aside segs = before_of msg.1 ∧ bside segs = msg.2 ∧ Forall (seg_ok id) segs ∧
    rs = msg_runs newIds msg.1 (before_of msg.1) [] segs.

(** Lists of ids that have no ids in common with each other. *)
Record msgs_ok (sm : list (string * list string)) : Prop := {
  ms_ids : NoDup sm.*1;
  ms_named : "" ∉ sm.*1;
  ms_lists P a : (P, a) ∈ sm → NoDup a ∧ "" ∉ a ∧ "" ∉ before_of P;
  ms_places P a P' a' d d' : (P, a) ∈ sm → (P', a') ∈ sm → P ≠ P' → d `prefix_of` a → d' `prefix_of` a' →
    place_of P (before_of P) d ≠ place_of P' (before_of P') d';
}.

Lemma fill_runs chs sm : st_ignoreIds t = [] → msgs_ok sm → ∀ cb rs,
  holds cb chs rs → (∀ P a, (P, a) ∈ sm → apart P (before_of P) a [] rs) →
  ∃ rss, Forall2 runs_of_msg sm rss ∧ holds (fillStructureChanges t newIds cb sm) chs (rs ++ concat rss).
Proof.
  intros Hig. induction sm as [|[P a] sm IH]; intros [Hn Hne Hl Hp] cb rs Hcb Hap.
  { exists []. rewrite app_nil_r. done. }
  rewrite fmap_cons in Hn, Hne. apply NoDup_cons in Hn as [HPn Hn]. cbn [fst] in *.
  destruct (Hl P a ltac:(left)) as (Hna & Hea & Heb).
  destruct (dstrings_segs (before_of P) a) as (segs & Ea & Eb & Ed & Hok).
  set (rs1 := msg_runs newIds P (before_of P) [] segs).
  assert (holds (makeStructureChanges t newIds cb (P, a)) chs (rs ++ rs1)) as Hcb1.
  { unfold makeStructureChanges. rewrite Hig. cbn [FindPos]. rewrite FindPos_path, bool_decide_eq_false_2 by apply not_elem_of_nil.
    fold (before_of P). rewrite Ed. apply (msg_loop P (before_of P) a chs segs [] cb rs 0); try done.
    - intros ->. apply Hne. left.
    - apply Hap. left. }
  destruct (IH) with (cb := makeStructureChanges t newIds cb (P, a)) (rs := rs ++ rs1) as (rss & Hf & Hh).
  - split; [done|set_solver|intros; apply Hl; by right|]. intros P1 a1 P2 a2 d d' HP1 HP2. apply (Hp P1 a1 P2 a2); by right.
  - done.
  - intros P' a' Hin r Hr d Hd Hpre. rewrite last_app in Hr. destruct (last rs1) as [r'|] eqn:E1.
    + injection Hr as ->. apply last_Some_elem_of in E1. unfold rs1 in E1. apply msg_places in E1 as (d1 & Hd1 & ->).
      rewrite Eb in Hd1. apply (Hp P a P' a'); [left|by right| |done|done]. intros ->. apply HPn. by apply (list_elem_of_fmap_2 fst) in Hin.
    + apply (Hap P' a'); [by right|done..].
  - exists (rs1 :: rss). cbn [concat]. rewrite app_assoc. split; [|done]. constructor; [|done]. by exists segs.
Qed.
End loops.
