(* ===== verification/ChangeReplay.v ===== *)
(** * Replaying a log of changes

    The changes that [apply] records for a state, applied by a replica that has the
    blocks the state was made from, give the blocks of the state. *)

From S2P Require Import Prelude Slice SliceDiff GoFloat Values PbTypes Details StateTree StateDetails StateStore StateApply Changes ChangeRuns.

(** ** Taking blocks out and putting them in *)

Definition chd (V : Blocks) (q : string) : list string := match V !! q with Some b => b_ChildrenIds b | None => [] end.
Definition all_reach (V : Blocks) (root : string) : Prop := ∀ q b, V !! q = Some b → reach V root q.

Definition detach (ids : list string) (V : Blocks) : Blocks :=
  (λ b, with_children b (filter (λ x, x ∉ ids) (b_ChildrenIds b))) <$> V.

Lemma with_children_same b : with_children b (b_ChildrenIds b) = b.
Proof. by destruct b. Qed.
Lemma detach_lookup ids V q :
  detach ids V !! q = (λ b, with_children b (filter (λ x, x ∉ ids) (b_ChildrenIds b))) <$> V !! q.
Proof. apply lookup_fmap. Qed.
Lemma detach_none ids V : (∀ q b x, V !! q = Some b → x ∈ ids → x ∉ b_ChildrenIds b) → detach ids V = V.
Proof.
  intros Hno. apply map_eq. intros q. rewrite detach_lookup. destruct (V !! q) as [b|] eqn:E; [|done]. simpl. f_equal.
  rewrite filter_all; [apply with_children_same|]. intros x Hx Hin. by eapply Hno.
Qed.

Lemma reach_detach ids V root q :
  reach V root q → (∀ x, x ∈ ids → ¬ reach V x q) → reach (detach ids V) root q.
Proof.
  induction 1 as [|p b c Hp IH Hb Hc]; intros Hno; [constructor|]. eapply reach_child.
  - apply IH. intros x Hx Hr. apply (Hno x Hx). by eapply reach_child.
  - rewrite detach_lookup, Hb. done.
  - simpl. apply list_elem_of_filter. split; [|done]. intros Hin. apply (Hno c Hin). constructor.
Qed.

Lemma has_parent V root x : reach V root x → x ≠ root → ∃ p b, reach V root p ∧ V !! p = Some b ∧ x ∈ b_ChildrenIds b.
Proof. intros Hr Hne. inversion Hr as [|p b ? Hp Hb Hc]; subst; [done|]. by exists p, b. Qed.

Section unlink.
Context (V : Blocks) (root : string) (Hwf : wf V [root]) (Hall : all_reach V root).

Lemma listed_once p1 b1 p2 b2 c : V !! p1 = Some b1 → V !! p2 = Some b2 → c ∈ b_ChildrenIds b1 → c ∈ b_ChildrenIds b2 → p1 = p2.
Proof.
  intros H1 H2. eapply (wf_uniq _ _ Hwf); [| |done|done]; (exists root; split; [left|]); by eapply Hall.
Qed.

Lemma unlink_all_spec ids : ∀ dn s,
  st_rootId s = root → view s = detach dn V → wf (view s) (root :: dn) → NoDup (dn ++ ids) →
  (∀ x, x ∈ ids → x ≠ root ∧ is_Some (V !! x)) → (∀ x y, x ∈ dn ++ ids → y ∈ ids → x ≠ y → ¬ reach V x y) →
  view (unlink_all s ids) = detach (dn ++ ids) V ∧ wf (view (unlink_all s ids)) (root :: dn ++ ids) ∧ same_below s (unlink_all s ids).
Proof.
  induction ids as [|c ids IH]; intros dn s Hroot Hv Hw Hn Hin Hsep.
  { rewrite app_nil_r. split_and!; [done..|apply same_below_refl]. }
  destruct (Hin c ltac:(left)) as [Hcr [bc Hbc]]. destruct (has_parent V root c (Hall _ _ Hbc) Hcr) as (p & b & Hp & Hb & Hc).
  pose proof Hn as (_ & Hdis & [Hcids _]%NoDup_cons)%NoDup_app. assert (c ∉ dn) as Hcdn by (intros Hd; apply (Hdis c Hd); left).
  assert (reach (view s) root p) as Hrp.
  { rewrite Hv. apply reach_detach; [done|]. intros x Hx Hr. apply (Hsep x c); [set_solver|left|by intros ->|]. by eapply reach_child. }
  set (bp := with_children b (filter (λ x, x ∉ dn) (b_ChildrenIds b))).
  assert (view s !! p = Some bp) as Hvp by (rewrite Hv, detach_lookup, Hb; done).
  assert (b_Id bp = p) as Hidp by (by apply (wf_keys _ _ Hwf p b)).
  assert (c ∈ b_ChildrenIds bp) as Hcp by (simpl; apply list_elem_of_filter; done).
  assert (NoDup (b_ChildrenIds bp)) as Hnp by (apply (wf_nodup _ _ Hw p); [exists root; split; [left|done]|done]).
  destruct (list_elem_of_split _ _ Hcp) as (l & r & Elr). rewrite Elr in Hnp.
  assert (c ∉ l ++ r) as Hclr by (rewrite <- Permutation_middle in Hnp; by apply NoDup_cons in Hnp as [? _]).
  destruct (Unlink_parent s c bp l r) as (s1 & E1 & V1 & W1); [|by rewrite Hidp|done|done|].
  { apply (PickParentOf_spec s dn); rewrite Hroot, ?Hidp; done. }
  rewrite Hidp in V1.
  assert (view s1 = detach (dn ++ [c]) V) as Hv1.
  { rewrite V1. apply map_eq. intros q. rewrite detach_lookup. destruct (decide (q = p)) as [->|Hq].
    - rewrite lookup_insert_eq, Hb. simpl. f_equal. unfold bp. simpl. f_equal.
      transitivity (filter (λ x, x ≠ c) (filter (λ x, x ∉ dn) (b_ChildrenIds b))).
      + change (filter (λ x, x ∉ dn) (b_ChildrenIds b)) with (b_ChildrenIds bp). rewrite Elr, filter_app, filter_cons_False by tauto.
        rewrite !filter_all; [done|..]; intros y Hy ->; apply Hclr, elem_of_app; tauto.
      + rewrite list_filter_filter. apply filter_ext_elem. intros y _. rewrite not_elem_of_app, list_elem_of_singleton. tauto.
    - rewrite lookup_insert_ne, Hv, detach_lookup by done. destruct (V !! q) as [bq|] eqn:Eq; [|done]. simpl. do 2 f_equal.
      apply filter_ext_elem. intros y Hy. rewrite not_elem_of_app, list_elem_of_singleton. split; [|tauto]. intros ?. split; [done|].
      intros ->. apply Hq. by eapply listed_once. }
  assert (wf (view s1) (root :: dn ++ [c])) as Hw1.
  { rewrite V1. eapply wf_perm; [|apply (wf_remove (view s) (root :: dn) p bp c l r); [done| |done|done]].
    - rewrite <- Permutation_cons_append. apply perm_swap.
    - exists root. split; [left|done]. }
  cbn [unlink_all foldl]. rewrite E1. cbn [snd].
  destruct (IH (dn ++ [c]) s1) as (R1 & R2 & R3).
  - by rewrite (proj1 W1).
  - done.
  - done.
  - by rewrite <- app_assoc.
  - intros x Hx. apply Hin. by right.
  - intros x y. rewrite <- app_assoc. intros Hx Hy. apply Hsep; [done|by right].
  - rewrite <- app_assoc in R1, R2. split_and!; [done|done|by eapply same_below_trans].
Qed.
End unlink.

(** New blocks. *)
Definition add_new (V : Blocks) (bs : list Block) : Blocks := foldl (λ V b, <[b_Id b:=b]> V) V bs.
Lemma add_new_lookup V (blk : string → Block) ids q : (∀ x, x ∈ ids → b_Id (blk x) = x) →
  add_new V ((λ x, with_children (blk x) []) <$> ids) !! q = if decide (q ∈ ids) then Some (with_children (blk q) []) else V !! q.
Proof.
  intros Hid. induction ids as [|x ids IH] using rev_ind; [done|]. unfold add_new. rewrite fmap_app, foldl_app. simpl.
  rewrite Hid by set_solver. destruct (decide (q = x)) as [->|Hne].
  - rewrite lookup_insert_eq, decide_True by set_solver. done.
  - rewrite lookup_insert_ne by done. fold (add_new V ((λ x, with_children (blk x) []) <$> ids)). rewrite IH by set_solver.
    by apply decide_ext; set_solver.
Qed.

Lemma create_spec root bs : ∀ others acc s,
  st_rootId s = root → wf (view s) (root :: others) → NoDup (b_Id <$> bs) →
  (∀ b, b ∈ bs → b_ChildrenIds b = [] ∧ b_Id b ≠ root ∧ b_Id b ∉ others ∧ view s !! b_Id b = None ∧
     ∀ q bq, view s !! q = Some bq → b_Id b ∉ b_ChildrenIds bq) →
  ∃ s', create_blocks s acc bs = (acc ++ (b_Id <$> bs), s') ∧ view s' = add_new (view s) bs ∧
    wf (view s') (root :: others ++ (b_Id <$> bs)) ∧ same_below s s'.
Proof.
  induction bs as [|b bs IH]; intros others acc s Hroot Hw Hn Hb.
  { exists s. rewrite !app_nil_r. split_and!; [done..|apply same_below_refl]. }
  rewrite fmap_cons in Hn. apply NoDup_cons in Hn as [Hbn Hn]. destruct (Hb b ltac:(left)) as (Hch & Hr & Ho & Hv & Hl).
  cbn [create_blocks]. rewrite Hroot, (bool_decide_eq_false_2 (b_Id b = root)) by done.
  assert (Unlink s (b_Id b) = (false, s)) as ->.
  { unfold Unlink, GetParentOf. rewrite (proj2 (PickParentOf_None s others ltac:(by rewrite Hroot) (b_Id b))); [done|]. intros p bp _. apply Hl. }
  cbn [snd]. destruct (Set_spec s b) as [V1 W1].
  assert (wf (view (Set_ s b)) (root :: others ++ [b_Id b])) as Hw1.
  { rewrite V1. eapply wf_perm; [|apply (wf_new (view s) (root :: others)); [done|done|set_solver| |done|done]].
    - rewrite <- Permutation_cons_append. apply perm_swap.
    - intros p bp _. apply Hl. }
  destruct (IH (others ++ [b_Id b]) (acc ++ [b_Id b]) (Set_ s b)) as (s' & E & V' & W' & B').
  - by rewrite (proj1 W1).
  - done.
  - done.
  - intros b' Hb'. destruct (Hb b') as (? & ? & ? & Hv' & Hl'); [by right|].
    assert (b_Id b' ≠ b_Id b) as Hne by (intros E; apply Hbn; rewrite <- E; by apply list_elem_of_fmap_2).
    split_and!; [done|done|set_solver|rewrite V1, lookup_insert_ne by congruence; done|].
    intros q bq. rewrite V1. intros [[<- <-]|[_ Hq]]%lookup_insert_Some; [rewrite Hch; apply not_elem_of_nil|by eapply Hl'].
  - rewrite <- !app_assoc in *. exists s'. split_and!; [done|by rewrite V', V1|done|by eapply same_below_trans].
Qed.

(** Where a run goes in the list [l ++ r] of [P]. *)
Definition goes_between (P : string) (t : string * BlockPosition) (l r : list string) : Prop :=
  (t.2 = PBottom ∧ ∃ l', l = l' ++ [t.1]) ∨ (t.2 = PTop ∧ ∃ r', r = t.1 :: r') ∨ (t = (P, PInner) ∧ r = []).

Lemma insert_between md5hex s root ids P bP l r t :
  st_rootId s = root → wf (view s) (root :: ids) → ids ≠ [] → view s !! P = Some bP → reach (view s) root P → b_ChildrenIds bP = l ++ r →
  goes_between P t l r → t.1 ≠ "" → is_Some (view s !! t.1) →
  ∃ s', InsertTo md5hex s t.1 t.2 ids = Some (None, s') ∧ view s' = <[P:=with_children bP (l ++ ids ++ r)]> (view s) ∧
    wf (view s') [root] ∧ same_below s s'.
Proof.
  intros Hroot Hw Hids HP HrP Hch Hgo Ht [bt Hbt]. assert (wf (view s) (st_rootId s :: ids)) as Hw' by (by rewrite Hroot).
  assert (wf (<[P:=with_children bP (l ++ ids ++ r)]> (view s)) [root]) as Hres.
  { apply wf_insert; [|done|done]. eapply wf_perm; [|exact Hw]. apply Permutation_cons_append. }
  assert (b_Id bP = P) as HidP by (by eapply (wf_keys _ _ Hw)).
  enough (∃ s', InsertTo md5hex s t.1 t.2 ids = Some (None, s') ∧ view s' = <[P:=with_children bP (l ++ ids ++ r)]> (view s) ∧ same_below s s')
    as (s' & E & V' & B') by (exists s'; split_and!; [done|done|by rewrite V'|done]).
  destruct Hgo as [(-> & l' & ->)|[(-> & r' & ->)|[-> ->]]].
  - assert (listed (view s) (st_rootId s) t.1 P bP l' r) as Hl by (unfold listed; rewrite Hroot, Hch, <- app_assoc; split_and!; [done..|by eexists]).
    destruct (InsertTo_listed md5hex s ids t.1 Hw' Hids Ht P bP bt l' r PBottom Hl Hbt) as (s2 & S2 & _ & B2 & ->); [done..|].
    destruct (insertChildren_at s ids s2 P bP (l' ++ [t.1]) r S2 B2 Hch) as (s3 & E3 & _ & V3 & W3).
    cbn [insert_at]. rewrite HidP. rewrite length_app in E3. cbn [length] in E3.
    replace (Z.of_nat (length l' + 1)) with (Z.of_nat (length l') + 1)%Z in E3 by lia. rewrite E3. by exists s3.
  - assert (listed (view s) (st_rootId s) t.1 P bP l r') as Hl by (unfold listed; rewrite Hroot; split_and!; [done..|by eexists]).
    destruct (InsertTo_listed md5hex s ids t.1 Hw' Hids Ht P bP bt l r' PTop Hl Hbt) as (s2 & S2 & _ & B2 & ->); [done..|].
    destruct (insertChildren_at s ids s2 P bP l (t.1 :: r') S2 B2 Hch) as (s3 & E3 & _ & V3 & W3).
    cbn [insert_at]. rewrite HidP, E3. by exists s3.
  - cbn [fst snd] in *. rewrite HP in Hbt. injection Hbt as <-.
    destruct (InsertTo_inner md5hex s ids P Hw' Hids Ht bP PInner) as (s1 & S1 & B1 & ->); [by rewrite Hroot|done|by left|].
    cbn [insert_at]. unfold prependChildrenIds. rewrite HidP, B1, app_nil_r. rewrite app_nil_r in Hch. rewrite Hch.
    eexists. split; [done|]. by apply (set_view s s1).
Qed.

(** ** One run *)

Definition base (V : Blocks) (q : string) : option Block := (λ b, with_children b []) <$> V !! q.
Lemma base_is_Some V q : is_Some (base V q) ↔ is_Some (V !! q).
Proof. unfold base. by rewrite fmap_is_Some. Qed.
(** A tree is its blocks without children and the lists of children. *)
Lemma base_chd_eq V V' : (∀ q, base V q = base V' q) → (∀ q, is_Some (V !! q) → chd V q = chd V' q) → V = V'.
Proof.
  intros Hb Hc. apply map_eq. intros q. specialize (Hb q). specialize (Hc q). unfold base, chd in *.
  destruct (V !! q) as [b|], (V' !! q) as [b'|]; simpl in *; try done. injection Hb as Hb. specialize (Hc ltac:(by eexists)).
  f_equal. rewrite <- (with_children_same b), <- (with_children_same b'). destruct b, b'. simpl in *. by simplify_eq.
Qed.
Lemma chd_In V q x : x ∈ chd V q ↔ ∃ b, V !! q = Some b ∧ x ∈ b_ChildrenIds b.
Proof. unfold chd. destruct (V !! q) as [b|]; [naive_solver|]. split; [by intros ?%elem_of_nil|naive_solver]. Qed.
Lemma chd_reach V q x : x ∈ chd V q → reach V q x.
Proof. intros (b & Hb & Hx)%chd_In. by eapply reach_step. Qed.

(** Every listed block exists. *)
Definition listed_exist (V : Blocks) : Prop := ∀ q x, x ∈ chd V q → is_Some (V !! x).

Section insertion.
Context (W : Blocks) (root : string) (ids : list string) (P : string) (bP : Block) (l r : list string).
Context (HP : W !! P = Some bP) (Hch : b_ChildrenIds bP = l ++ r) (HrP : reach W root P).
Abbreviation W' := (<[P:=with_children bP (l ++ ids ++ r)]> W).

Lemma reach_inserted x q : reach W x q → reach W' x q.
Proof.
  apply reach_mono. intros p b Hb. destruct (decide (p = P)) as [->|Hp]; [rewrite lookup_insert_eq|rewrite lookup_insert_ne by done].
  - eexists. split; [done|]. rewrite HP in Hb. injection Hb as <-. rewrite Hch. simpl. set_solver.
  - exists b. done.
Qed.
Lemma all_reach_inserted : (∀ q b, W !! q = Some b → reachable W (root :: ids) q) → all_reach W' root.
Proof.
  intros Hall q b Hq. assert (is_Some (W !! q)) as [b0 H0].
  { destruct (decide (q = P)) as [->|Hne]; [by eexists|rewrite lookup_insert_ne in Hq by done; by eexists]. }
  destruct (Hall q b0 H0) as (x & [->|Hx]%elem_of_cons & Hr); [by apply reach_inserted|].
  eapply reach_trans; [|by apply reach_inserted]. eapply reach_child; [by apply reach_inserted| |].
  - apply lookup_insert_eq.
  - simpl. set_solver.
Qed.
Lemma chd_inserted q : chd W' q = if decide (q = P) then l ++ ids ++ r else chd W q.
Proof. unfold chd. case_decide as E; [subst q; by rewrite lookup_insert_eq|by rewrite lookup_insert_ne]. Qed.
Lemma base_inserted q : base W' q = base W q.
Proof.
  unfold base. destruct (decide (q = P)) as [->|E]; [rewrite lookup_insert_eq, HP|by rewrite lookup_insert_ne]. done.
Qed.
End insertion.

Lemma chd_detach ids V q : chd (detach ids V) q = filter (λ x, x ∉ ids) (chd V q).
Proof. unfold chd. rewrite detach_lookup. by destruct (V !! q). Qed.
Lemma base_detach ids V q : base (detach ids V) q = base V q.
Proof. unfold base. rewrite detach_lookup. by destruct (V !! q). Qed.
Lemma all_reach_detach ids V root q b :
  all_reach V root → detach ids V !! q = Some b → reachable (detach ids V) (root :: ids) q.
Proof.
  intros Hall. rewrite detach_lookup. intros (b0 & H0 & _)%fmap_Some. specialize (Hall q b0 H0). clear b H0 b0.
  induction Hall as [|p b c Hp IH Hb Hc]; [apply reachable_root; left|].
  destruct (decide (c ∈ ids)) as [Hin|Hin]; [apply reachable_root; by right|].
  eapply reachable_child; [done|by rewrite detach_lookup, Hb|]. simpl. by apply list_elem_of_filter.
Qed.

Record run_ok (V : Blocks) (root : string) (blk : string → Block) (r : run) (P : string) (l rr : list string) : Prop := {
  ro_parent : is_Some (V !! P);
  ro_list : filter (λ x, x ∉ ru_ids r) (chd V P) = l ++ rr;
  ro_place : goes_between P (ru_target r, ru_pos r) l rr;
  ro_target : ru_target r ≠ "" ∧ is_Some (V !! ru_target r);
  ro_ids : ru_ids r ≠ [] ∧ NoDup (ru_ids r) ∧ root ∉ ru_ids r;
  ro_new x : ru_new r = true → x ∈ ru_ids r → V !! x = None ∧ b_Id (blk x) = x;
  ro_moved x : ru_new r = false → x ∈ ru_ids r → is_Some (V !! x) ∧ ¬ reach V x P;
  ro_apart x y : ru_new r = false → x ∈ ru_ids r → y ∈ ru_ids r → x ≠ y → ¬ reach V x y;
}.

(** What a run does to the tree. *)
Record run_done (V V' : Blocks) (blk : string → Block) (r : run) (P : string) (l rr : list string) : Prop := {
  rd_chd q : chd V' q = if decide (q = P) then l ++ ru_ids r ++ rr else filter (λ x, x ∉ ru_ids r) (chd V q);
  rd_base q : base V' q = if decide (ru_new r = true ∧ q ∈ ru_ids r) then Some (with_children (blk q) []) else base V q;
}.

Section one_run.
Context (LK : list string) (md5hex : string → string) `{!PbCompare, !LoUniqBy}.
Context (blk : string → Block) (root : string).

Lemma move_step d r P l rr :
  st_rootId (dc_tree d) = root → wf (view (dc_tree d)) [root] → all_reach (view (dc_tree d)) root →
  run_ok (view (dc_tree d)) root blk r P l rr → ru_new r = false →
  ∃ s', changeBlockMove md5hex (dc_tree d) (ru_target r) (ru_pos r) (ru_ids r) = Some (None, s') ∧
    wf (view s') [root] ∧ all_reach (view s') root ∧ same_below (dc_tree d) s' ∧ run_done (view (dc_tree d)) (view s') blk r P l rr.
Proof.
  intros Hroot Hw Hall [[bP HP] Hl Hplace [Ht Hte] (Hne & Hnd & Hrt) _ Hmv Hap] Hnew. set (V := view (dc_tree d)) in *.
  destruct (unlink_all_spec V root Hw Hall (ru_ids r) [] (dc_tree d)) as (V1 & W1 & B1).
  - done.
  - unfold V. symmetry. apply detach_none. intros q b x _ Hx. by apply elem_of_nil in Hx.
  - done.
  - done.
  - intros x Hx. split; [by intros ->|by apply Hmv].
  - intros x y Hx Hy. by apply Hap.
  - cbn [app] in V1, W1. set (s1 := unlink_all (dc_tree d) (ru_ids r)) in *.
    set (bP' := with_children bP (filter (λ x, x ∉ ru_ids r) (b_ChildrenIds bP))).
    assert (view s1 !! P = Some bP') as HP1 by (rewrite V1, detach_lookup, HP; done).
    assert (reach (view s1) root P) as HrP.
    { rewrite V1. apply reach_detach; [by eapply Hall|]. intros x Hx. by apply Hmv. }
    assert (b_ChildrenIds bP' = l ++ rr) as Hch by (rewrite <- Hl; unfold chd; by rewrite HP).
    destruct (insert_between md5hex s1 root (ru_ids r) P bP' l rr (ru_target r, ru_pos r)) as (s' & E & V' & W' & B'); try done.
    { by rewrite (proj1 B1). }
    { rewrite V1, detach_lookup. by apply fmap_is_Some. }
    exists s'. split_and!; [done|done| |by eapply same_below_trans|].
    + rewrite V'. apply (all_reach_inserted _ _ _ _ _ l rr); [done|done|done|]. intros q b Hq. rewrite V1 in Hq |- *. by eapply all_reach_detach.
    + rewrite V'. split; intros q.
      * rewrite chd_inserted. case_decide; [done|]. by rewrite V1, chd_detach.
      * rewrite base_inserted by done. rewrite V1, base_detach, decide_False; [done|]. rewrite Hnew. by intros [? _].
Qed.

Lemma create_step d r P l rr :
  st_rootId (dc_tree d) = root → wf (view (dc_tree d)) [root] → all_reach (view (dc_tree d)) root → listed_exist (view (dc_tree d)) →
  run_ok (view (dc_tree d)) root blk r P l rr → ru_new r = true →
  ∃ s', changeBlockCreate md5hex (dc_tree d) (ru_target r) (ru_pos r) ((λ x, with_children (blk x) []) <$> ru_ids r) = Some (None, s') ∧
    wf (view s') [root] ∧ all_reach (view s') root ∧ same_below (dc_tree d) s' ∧ run_done (view (dc_tree d)) (view s') blk r P l rr.
Proof.
  intros Hroot Hw Hall Hcl [[bP HP] Hl Hplace [Ht Hte] (Hne & Hnd & Hrt) Hnw _ _] Hnew. set (V := view (dc_tree d)) in *.
  set (bs := (λ x, with_children (blk x) []) <$> ru_ids r).
  assert (b_Id <$> bs = ru_ids r) as Hbs.
  { unfold bs. rewrite <- list_fmap_compose. rewrite <- (list_fmap_id (ru_ids r)) at 2. apply list_fmap_ext. intros i x Hi. simpl.
    apply Hnw; [done|]. by eapply list_elem_of_lookup_2. }
  assert (∀ x, x ∈ ru_ids r → ∀ q, x ∉ chd V q) as Hfresh.
  { intros x Hx q Hin. destruct (Hcl q x Hin) as [? E]. by rewrite (proj1 (Hnw x Hnew Hx)) in E. }
  destruct (create_spec root bs [] [] (dc_tree d)) as (s1 & E1 & V1 & W1 & B1); rewrite ?Hbs; try done.
  { intros b (x & -> & Hx)%list_elem_of_fmap. destruct (Hnw x Hnew Hx) as [Hx1 Hx2]. simpl. rewrite Hx2.
    split_and!; [done|by intros ->|apply not_elem_of_nil|done|]. intros q bq Hq Hin. apply (Hfresh x Hx q), chd_In. by exists bq. }
  rewrite Hbs in E1, W1. cbn [app] in E1, W1. fold V in V1.
  assert (∀ q, view s1 !! q = if decide (q ∈ ru_ids r) then Some (with_children (blk q) []) else V !! q) as Hlk.
  { intros q. rewrite V1. apply add_new_lookup. intros x Hx. by apply Hnw. }
  assert (P ∉ ru_ids r) as HPn by (intros Hin; by rewrite (proj1 (Hnw P Hnew Hin)) in HP).
  assert (∀ q b, V !! q = Some b → view s1 !! q = Some b) as Hkeep.
  { intros q b Hq. rewrite Hlk, decide_False; [done|]. intros Hin. by rewrite (proj1 (Hnw q Hnew Hin)) in Hq. }
  assert (∀ q x, reach V q x → reach (view s1) q x) as Hmono.
  { intros q x. apply reach_mono. intros p b Hb. exists b. split; [by apply Hkeep|done]. }
  assert (filter (λ x, x ∉ ru_ids r) (b_ChildrenIds bP) = b_ChildrenIds bP) as Hno.
  { apply filter_all. intros x Hx Hin. apply (Hfresh x Hin P), chd_In. by exists bP. }
  destruct (insert_between md5hex s1 root (ru_ids r) P bP l rr (ru_target r, ru_pos r)) as (s' & E & V' & W' & B'); try done.
  { by rewrite (proj1 B1). }
  { by apply Hkeep. }
  { by eapply Hmono, Hall. }
  { unfold chd in Hl. rewrite HP, Hno in Hl. done. }
  { destruct Hte as [bt Hbt]. eexists. by apply Hkeep. }
  unfold chd in Hl. rewrite HP, Hno in Hl.
  exists s'. split_and!; [unfold changeBlockCreate; fold bs; by rewrite E1|done| |by eapply same_below_trans|].
  + rewrite V'. apply (all_reach_inserted _ _ _ _ _ l rr); [by apply Hkeep|done|by eapply Hmono, Hall|]. intros q b. rewrite Hlk.
    case_decide as Hin; [intros _; apply reachable_root; by right|]. intros Hq. exists root. split; [left|]. by eapply Hmono, Hall.
  + rewrite V'. split; intros q.
    * rewrite chd_inserted. case_decide; [done|]. rewrite (filter_all _ (chd V q)) by (intros x Hx Hin; by apply (Hfresh x Hin q)).
      unfold chd. rewrite Hlk. case_decide as Hin; [|done]. by rewrite (proj1 (Hnw q Hnew Hin)).
    * rewrite base_inserted by (by apply Hkeep). unfold base. rewrite Hlk. destruct (decide (q ∈ ru_ids r)); [rewrite decide_True by done|rewrite decide_False by tauto]; done.
Qed.

(** A run that fits is applied without an error. *)
Lemma run_step d r P l rr :
  st_rootId (dc_tree d) = root → wf (view (dc_tree d)) [root] → all_reach (view (dc_tree d)) root → listed_exist (view (dc_tree d)) →
  run_ok (view (dc_tree d)) root blk r P l rr →
  ∃ s', applyChange LK md5hex d (change_of_run blk r) = Some (None, with_tree d s') ∧
    wf (view s') [root] ∧ all_reach (view s') root ∧ same_below (dc_tree d) s' ∧ run_done (view (dc_tree d)) (view s') blk r P l rr.
Proof.
  intros Hroot Hw Hall Hcl Hok. unfold change_of_run. destruct (ru_new r) eqn:En.
  - destruct (create_step d r P l rr) as (s' & E & Hs); [done..|]. exists s'. split; [|done]. cbn [applyChange]. by rewrite E.
  - destruct (move_step d r P l rr) as (s' & E & Hs); [done..|]. exists s'. split; [|done]. cbn [applyChange]. by rewrite E.
Qed.
End one_run.
