(* ===== verification/ChangeStructure.v ===== *)
(** * Replaying the structure of a log

    The runs of a log, applied in their order to the tree [V0], give a tree that has
    the blocks of [V1] in their places; blocks that are not in [V1] may still be
    between them. *)

From S2P Require Import Prelude Slice SliceDiff GoFloat Values PbTypes Details StateTree StateDetails StateStore StateApply Changes ChangeRuns ChangeReplay.

(** A tree: the root is there, everything is below it, every child exists. *)
Record tree (V : Blocks) (root : string) : Prop := {
  tr_wf : wf V [root];
  tr_root : is_Some (V !! root);
  tr_all : all_reach V root;
  tr_closed : listed_exist V;
  tr_named : V !! "" = None;
}.

Section tree_facts.
Context (V : Blocks) (root : string) (HV : tree V root).

Lemma tree_reach q : is_Some (V !! q) → reach V root q.
Proof. intros [b Hb]. by eapply (tr_all _ _ HV). Qed.
Lemma tree_reachable q : is_Some (V !! q) → reachable V [root] q.
Proof. intros Hq. exists root. split; [left|by apply tree_reach]. Qed.
Lemma chd_some q x : x ∈ chd V q → is_Some (V !! q).
Proof. intros (b & Hb & _)%chd_In. by eexists. Qed.
Lemma tree_exists q : reach V root q → is_Some (V !! q).
Proof. intros [|p b c Hp Hb Hc]; [apply HV|]. apply (tr_closed _ _ HV p), chd_In. by exists b. Qed.
Lemma chd_uniq p q x : x ∈ chd V p → x ∈ chd V q → p = q.
Proof.
  intros Hp Hq. pose proof (tree_reachable p (chd_some p x Hp)). pose proof (tree_reachable q (chd_some q x Hq)).
  apply chd_In in Hp as (b1 & Hb1 & ?), Hq as (b2 & Hb2 & ?). by eapply (wf_uniq _ _ (tr_wf _ _ HV) p b1 q b2 x).
Qed.
Lemma chd_NoDup q : NoDup (chd V q).
Proof.
  unfold chd. destruct (V !! q) as [b|] eqn:E; [|constructor]. apply (wf_nodup _ _ (tr_wf _ _ HV) q); [|done]. apply tree_reachable. by eexists.
Qed.
Lemma chd_not_root q : root ∉ chd V q.
Proof.
  intros Hin. pose proof (tree_reachable q (chd_some q root Hin)). apply chd_In in Hin as (b & Hb & Hin).
  by eapply (wf_root _ _ (tr_wf _ _ HV) q b root); [done|done|left|].
Qed.
Lemma tree_parent x : is_Some (V !! x) → x ≠ root → ∃ q, x ∈ chd V q.
Proof. intros Hx Hne. destruct (has_parent V root x (tree_reach x Hx) Hne) as (p & b & _ & Hb & Hin). exists p. apply chd_In. by exists b. Qed.
Lemma tree_chain q : is_Some (V !! q) → ∃ path, chain V root path q.
Proof. intros Hq. apply reach_chain. by apply tree_reach. Qed.
Lemma chain_above path q x : chain V root path q → x ∈ path ++ [q] → reach V x q.
Proof.
  induction 1 as [|path p b c Hc IH Hb Hin]; [intros ->%list_elem_of_singleton; constructor|].
  intros [Hx| ->%list_elem_of_singleton]%elem_of_app; [|constructor]. eapply reach_child; [by apply IH|done|done].
Qed.
Lemma tree_on_path path q x : chain V root path q → is_Some (V !! x) → reach V x q → x ∈ path ++ [q].
Proof. intros Hc Hx. apply (reach_on_path _ _ (tr_wf _ _ HV) root ltac:(left) _ _ _ Hc). by apply tree_reachable. Qed.
Lemma tree_acyclic q x : x ∈ chd V q → ¬ reach V x q.
Proof.
  intros Hx Hr. destruct (tree_chain q (chd_some q x Hx)) as [path Hp]. apply (tree_on_path path) in Hr; [|done|by eapply (tr_closed _ _ HV)].
  apply chd_In in Hx as (b & Hb & Hx). assert (chain V root (path ++ [q]) x) as Hc by (by eapply chain_child).
  by apply (chain_fresh _ _ (tr_wf _ _ HV) root ltac:(left)) in Hc as [? _].
Qed.
End tree_facts.

(** ** The invariant *)

Section structure.
Context (V0 V1 : Blocks) (root : string) (T0 : tree V0 root) (T1 : tree V1 root).
Context (newIds : list string) (Hnew : ∀ x, x ∈ newIds ↔ is_Some (V1 !! x) ∧ V0 !! x = None).
Context (blk : string → Block) (Hblk : ∀ x, x ∈ newIds → V1 !! x = Some (blk x)).

(** The lists that changed, in the order of a walk. *)
Record msgs_walk (sm : list (string * list string)) : Prop := {
  mw_ids : NoDup sm.*1;
  mw_list P a : (P, a) ∈ sm → is_Some (V1 !! P) ∧ a = chd V1 P;
  mw_rest P : is_Some (V1 !! P) → P ∉ sm.*1 → chd V1 P = chd V0 P;
  mw_order l1 P a l2 Q : sm = l1 ++ (P, a) :: l2 → Q ∈ l2.*1 → ¬ reach V1 Q P;
}.
Context (sm : list (string * list string)) (Hsm : msgs_walk sm).

(** [M] are the blocks put in their place, [D] the parents they have there. *)
Record inv (V : Blocks) (M D : list string) : Prop := {
  iv_wf : wf V [root];
  iv_all : all_reach V root;
  iv_base q : base V q = if decide (is_Some (V0 !! q)) then base V0 q else if decide (q ∈ M) then base V1 q else None;
  iv_chd q x : x ∈ chd V q ↔ x ∈ M ∧ x ∈ chd V1 q ∨ x ∉ M ∧ x ∈ chd V0 q;
  iv_M x : x ∈ M → ∃ Q, Q ∈ D ∧ x ∈ chd V1 Q;
  iv_D Q : Q ∈ D → Q ∈ sm.*1;
  iv_todo q : q ∉ D → chd V q = filter (λ x, x ∉ M) (chd V0 q);
}.
Definition settled (V : Blocks) (Q : string) : Prop := filter (λ x, x ∈ chd V1 Q) (chd V Q) = chd V1 Q.

Lemma inv_tree V M D : inv V M D → tree V root.
Proof.
  intros Hi. assert (∀ q, is_Some (V0 !! q) → is_Some (V !! q)) as H0.
  { intros q Hq. apply base_is_Some. rewrite (iv_base _ _ _ Hi), decide_True by done. by apply base_is_Some. }
  split; [apply Hi|apply H0, T0|apply Hi| |].
  - intros q x [[HM Hx]|[_ Hx]]%(iv_chd _ _ _ Hi); [|apply H0; by eapply (tr_closed _ _ T0)].
    apply base_is_Some. rewrite (iv_base _ _ _ Hi). case_decide; [by apply base_is_Some|]. rewrite decide_True by done.
    apply base_is_Some. by eapply (tr_closed _ _ T1).
  - apply eq_None_not_Some. intros Hs%base_is_Some. rewrite (iv_base _ _ _ Hi) in Hs. repeat case_decide; try apply (proj1 (base_is_Some _ _)) in Hs;
      try (rewrite (tr_named _ _ T0) in Hs || rewrite (tr_named _ _ T1) in Hs); by destruct Hs.
Qed.

Lemma settled_chd V Q x : settled V Q → x ∈ chd V1 Q → x ∈ chd V Q.
Proof. intros Hs. rewrite <- Hs at 1. by intros [_ ?]%list_elem_of_filter. Qed.

Lemma link_kept V M D p c : inv V M D → (p ∈ sm.*1 → settled V p) → c ∈ chd V1 p → c ∈ chd V p.
Proof.
  intros Hi Hset Hc. destruct (decide (p ∈ sm.*1)) as [Hp|Hp]; [by apply settled_chd; [apply Hset|]|].
  apply (iv_chd _ _ _ Hi). right. rewrite <- (mw_rest _ Hsm p); [|by eapply chd_some|done]. split; [|done].
  intros (Q & HQ & HcQ)%(iv_M _ _ _ Hi). apply Hp. rewrite (chd_uniq V1 root T1 p Q c Hc HcQ). by eapply (iv_D _ _ _ Hi).
Qed.
Lemma chain_kept V M D path q : inv V M D → chain V1 root path q → (∀ p, p ∈ path → p ∈ sm.*1 → settled V p) → chain V root path q.
Proof.
  intros Hi. induction 1 as [|path p b c Hc IH Hb Hin]; intros Hset; [constructor|].
  assert (c ∈ chd V p) as (b' & Hb' & Hc')%chd_In.
  { eapply link_kept; [done| |apply chd_In; by exists b]. apply Hset, elem_of_app. right. by left. }
  eapply chain_child; [|done|done]. apply IH. intros p' Hp'. apply Hset, elem_of_app. by left.
Qed.

(** *** The message of [P], between done and open ones *)

Section message.
Context (l1 : list (string * list string)) (P : string) (aP : list string) (l2 : list (string * list string)) (Esm : sm = l1 ++ (P, aP) :: l2).
Abbreviation D := (l1.*1).

Lemma P_msg : (P, aP) ∈ sm.
Proof. rewrite Esm. set_solver. Qed.
Lemma P_list : is_Some (V1 !! P) ∧ aP = chd V1 P.
Proof. apply (mw_list _ Hsm), P_msg. Qed.
Lemma P_not_done : P ∉ D ∧ P ∉ l2.*1.
Proof.
  pose proof (mw_ids _ Hsm) as Hn. rewrite Esm, fmap_app, fmap_cons in Hn. cbn [fst] in Hn.
  apply NoDup_app in Hn as (_ & Hd & [Hn _]%NoDup_cons). split; [|done]. intros Hin. apply (Hd P Hin). left.
Qed.
Lemma above_done p : reach V1 p P → p ≠ P → p ∈ sm.*1 → p ∈ D.
Proof.
  intros Hr Hne. rewrite Esm, fmap_app, fmap_cons. intros [?|[->|Hin]%elem_of_cons]%elem_of_app; [done|done|].
  by destruct (mw_order _ Hsm l1 P aP l2 p Esm Hin).
Qed.
Lemma done_above Q p : Q ∈ D → reach V1 p Q → p ≠ Q → p ∈ sm.*1 → p ∈ D.
Proof.
  intros ([Q' a] & -> & HQ)%list_elem_of_fmap Hr Hne Hp. cbn [fst] in *. apply list_elem_of_split in HQ as (m1 & m2 & E).
  assert (sm = m1 ++ (Q', a) :: (m2 ++ (P, aP) :: l2)) as E' by (by rewrite Esm, E, <- app_assoc).
  rewrite E' in Hp. rewrite E. rewrite fmap_app, fmap_cons in Hp |- *. cbn [fst] in *.
  apply elem_of_app in Hp as [?|[->|Hin]%elem_of_cons]; [set_solver|done|]. by destruct (mw_order _ Hsm m1 Q' a _ p E' Hin).
Qed.
Lemma not_below Q : Q ∈ D → ¬ reach V1 P Q.
Proof.
  intros ([Q' a] & -> & HQ)%list_elem_of_fmap. cbn [fst]. apply list_elem_of_split in HQ as (m1 & m2 & E).
  apply (mw_order _ Hsm m1 Q' a (m2 ++ (P, aP) :: l2)); [by rewrite Esm, E, <- app_assoc|]. rewrite fmap_app, fmap_cons. set_solver.
Qed.

(** [dn] is handled, [rest] is not; of it [ks] is kept. *)
Record mid (V : Blocks) (M dn ks rest : list string) : Prop := {
  md_inv : inv V M (P :: D);
  md_set Q : Q ∈ D → settled V Q;
  md_cur : filter (λ x, x ∈ dn ++ ks) (chd V P) = dn ++ ks;
  md_start : dn = [] → chd V P = filter (λ x, x ∉ M) (chd V0 P);
  md_after : chd V1 P = dn ++ rest;
  md_fresh x : x ∈ M → x ∉ rest;
  md_ks : ks `sublist_of` rest;
}.

Lemma chain_same V M dn ks rest Q path :
  mid V M dn ks rest → Q ∈ P :: D → chain V1 root path Q → chain V root path Q.
Proof.
  intros Hm HQ Hc. eapply chain_kept; [apply Hm|done|]. intros p Hp Hps. apply (md_set _ _ _ _ _ Hm).
  assert (reach V1 p Q) as Hr by (eapply chain_above; [done|set_solver]).
  assert (p ≠ Q) as Hne. { intros ->. by apply (chain_fresh _ _ (tr_wf _ _ T1) root ltac:(left)) in Hc as [? _]. }
  apply elem_of_cons in HQ as [->|HQ]; [by apply above_done|by eapply done_above].
Qed.

Lemma msg_exists V M dn ks rest Q : mid V M dn ks rest → Q ∈ P :: D → ∃ path, chain V1 root path Q ∧ chain V root path Q.
Proof.
  intros Hm HQ. assert (is_Some (V1 !! Q)) as HQ1.
  { assert (Q ∈ sm.*1) as ([Q' a] & -> & Hin)%list_elem_of_fmap; [|by apply (mw_list _ Hsm) in Hin as [? _]].
    rewrite Esm, fmap_app, fmap_cons. set_solver. }
  destruct (tree_chain V1 root T1 Q HQ1) as [path Hp]. exists path. split; [done|]. by eapply chain_same.
Qed.

(** In [V] as in [V1], nothing that goes under [P] is above it. *)
Lemma not_above V M dn ks rest x : mid V M dn ks rest → x ∈ chd V1 P → is_Some (V !! x) → ¬ reach V x P.
Proof.
  intros Hm Hx HxV Hr. pose proof (inv_tree _ _ _ (md_inv _ _ _ _ _ Hm)) as TV.
  destruct (msg_exists V M dn ks rest P Hm ltac:(left)) as (path & Hp1 & Hp).
  apply (tree_on_path V root TV path) in Hr; [|done|done]. apply (tree_acyclic V1 root T1 P x Hx). by eapply chain_above.
Qed.

(** What is below a block that still has to be moved was below it from the start. *)
Lemma below_moved V M dn ks rest x y : mid V M dn ks rest → x ∈ rest → is_Some (V !! x) → reach V x y → reach V0 x y.
Proof.
  intros Hm Hx HxV. pose proof (inv_tree _ _ _ (md_inv _ _ _ _ _ Hm)) as TV.
  assert (x ∈ chd V1 P) as HxP by (rewrite (md_after _ _ _ _ _ Hm); set_solver).
  assert (∀ z, reach V x z → z ∉ M) as Hno.
  { intros z Hr HM. inversion Hr as [|p b ? Hp Hb Hc]; subst; [by apply (md_fresh _ _ _ _ _ Hm z)|].
    assert (z ∈ chd V p) as Hz by (apply chd_In; by exists b).
    apply (iv_chd _ _ _ (md_inv _ _ _ _ _ Hm)) in Hz as [[_ Hz]|[? _]]; [|done].
    destruct (iv_M _ _ _ (md_inv _ _ _ _ _ Hm) z HM) as (Q & HQ & HzQ). rewrite (chd_uniq V1 root T1 p Q z Hz HzQ) in Hp.
    destruct (msg_exists V M dn ks rest Q Hm HQ) as (path & Hp1 & HpV). apply (tree_on_path V root TV path) in Hp; [|done|done].
    assert (reach V1 x Q) as HxQ by (by eapply chain_above).
    apply elem_of_cons in HQ as [->|HQ]; [by apply (tree_acyclic V1 root T1 P x)|].
    apply (not_below Q HQ). eapply reach_trans; [by apply chd_reach|done]. }
  induction 1 as [|p b c Hp IH Hb Hc]; [constructor|].
  assert (c ∈ chd V p) as Hcp by (apply chd_In; by exists b).
  apply (iv_chd _ _ _ (md_inv _ _ _ _ _ Hm)) in Hcp as [[HM _]|[_ (b0 & Hb0 & Hc0)%chd_In]].
  - by destruct (Hno c (reach_child _ _ _ _ _ Hp Hb Hc)).
  - by eapply reach_child.
Qed.

(** *** One run of the message *)

Definition run_at (isNew : bool) (dn xs : list string) : run :=
  {| ru_new := isNew; ru_target := (place_of P (chd V0 P) dn).1; ru_pos := (place_of P (chd V0 P) dn).2; ru_ids := xs |}.
(** What the log has to be like: a run is not put before a block that was moved, and
    does not move a block together with one below it. *)
Definition run_safe (M : list string) (r : run) : Prop :=
  (ru_pos r = PTop → ru_target r ∉ M ++ ru_ids r) ∧
  (ru_new r = false → ∀ x y, x ∈ ru_ids r → y ∈ ru_ids r → x ≠ y → ¬ reach V0 x y).

Lemma filter_apart (A xs R : list string) : (∀ x, x ∈ A → x ∉ xs) → filter (λ x, x ∈ A) (filter (λ x, x ∉ xs) R) = filter (λ x, x ∈ A) R.
Proof. intros Hd. rewrite list_filter_filter. apply filter_ext_elem. intros x _. split; [by intros [? _]|]. intros Hx. split; [done|by apply Hd]. Qed.

(** The place of the run in the list without its blocks. *)
Lemma run_place V M dn ks xs rest n :
  mid V M dn ks (xs ++ rest) → ks `sublist_of` rest → run_safe M (run_at n dn xs) →
  ∃ l rr, filter (λ x, x ∉ xs) (chd V P) = l ++ rr ∧ goes_between P (place_of P (chd V0 P) dn) l rr ∧
    filter (λ x, x ∈ (dn ++ xs) ++ ks) (l ++ xs ++ rr) = (dn ++ xs) ++ ks ∧ is_Some (V !! (place_of P (chd V0 P) dn).1).
Proof.
  intros Hm Hks Hsafe. pose proof (inv_tree _ _ _ (md_inv _ _ _ _ _ Hm)) as TV.
  pose proof (chd_NoDup V1 root T1 P) as Hn. rewrite (md_after _ _ _ _ _ Hm) in Hn.
  apply NoDup_app in Hn as (_ & Hdn & (Hnx & Hxs & _)%NoDup_app).
  assert (∀ x, x ∈ ks → x ∈ rest) as Hksr by (intros x Hx; by eapply elem_of_sublist).
  assert (∀ x, x ∈ dn ++ ks → x ∉ xs) as Hap.
  { intros x [Hx|Hx]%elem_of_app Hin; [apply (Hdn x Hx); set_solver|by apply (Hxs x Hin), Hksr]. }
  pose proof (filter_apart (dn ++ ks) xs (chd V P) Hap) as HR. rewrite (md_cur _ _ _ _ _ Hm) in HR.
  set (R := filter (λ x, x ∉ xs) (chd V P)) in *.
  assert (NoDup R) as HnR by (apply NoDup_filter, (chd_NoDup V root TV)).
  assert (∀ x, x ∈ R → x ∉ xs) as HRx by (intros x [? _]%list_elem_of_filter; done).
  assert (∀ l : list string, (∀ x, x ∈ l → x ∉ xs) → filter (λ x, x ∈ (dn ++ xs) ++ ks) l = filter (λ x, x ∈ dn ++ ks) l) as Hsame.
  { intros l Hl. apply filter_ext_elem. intros x Hx. specialize (Hl x Hx). rewrite !elem_of_app. tauto. }
  assert (filter (λ x, x ∈ (dn ++ xs) ++ ks) xs = xs) as Hxx by (apply filter_all; intros x Hx; rewrite !elem_of_app; tauto).
  unfold place_of. destruct dn as [|t dn' _] using rev_ind.
  - simpl in *. assert (R = filter (λ x, x ∉ M ++ xs) (chd V0 P)) as ER.
    { unfold R. rewrite (md_start _ _ _ _ _ Hm eq_refl), list_filter_filter. apply filter_ext_elem. intros x _. rewrite not_elem_of_app. tauto. }
    exists [], R. split; [done|]. cbn [app]. rewrite filter_app, Hxx, (Hsame R HRx), HR. split_and!; [|done|].
    + destruct (chd V0 P) as [|a0 l0] eqn:E0; [right; right; by rewrite ER|]. right. left. split; [done|]. simpl.
      rewrite ER, filter_cons_True; [by eexists|]. destruct Hsafe as [Hs _]. unfold run_at, place_of in Hs. simpl in Hs. rewrite E0 in Hs. by apply Hs.
    + destruct (chd V0 P) as [|a0 l0] eqn:E0; simpl.
      * destruct (msg_exists V M [] ks (xs ++ rest) P Hm ltac:(left)) as (path & Hp1 & Hp).
        eapply (tree_exists V root TV), chain_reach_end, Hp.
      * apply (tr_closed _ _ TV P). destruct Hsafe as [Hs _]. unfold run_at, place_of in Hs. simpl in Hs. rewrite E0 in Hs.
        assert (a0 ∈ R) as [_ Hin]%list_elem_of_filter; [|done]. rewrite ER. apply list_elem_of_filter. split; [by apply Hs|left].
  - rewrite last_snoc. simpl. assert (t ∈ filter (λ x, x ∈ (dn' ++ [t]) ++ ks) R) as [_ Ht]%list_elem_of_filter by (rewrite HR; set_solver).
    destruct (list_elem_of_split _ _ Ht) as (l & rr & ElR). exists (l ++ [t]), rr. rewrite <- app_assoc. split; [done|].
    assert (dn' ++ t :: ks = (dn' ++ [t]) ++ ks) as Ek by (by rewrite <- app_assoc).
    rewrite ElR, filter_app, filter_cons_True in HR by set_solver.
    assert (NoDup (dn' ++ t :: ks)) as Hnd.
    { pose proof (NoDup_filter (λ x, x ∈ (dn' ++ [t]) ++ ks) _ HnR) as Hf.
      rewrite ElR, filter_app, filter_cons_True, HR in Hf by set_solver. by rewrite Ek. }
    destruct (split_unique dn' ks (filter (λ x, x ∈ (dn' ++ [t]) ++ ks) l) (filter (λ x, x ∈ (dn' ++ [t]) ++ ks) rr) t Hnd) as [E1 E2];
      [by rewrite HR|].
    split_and!; [left; split; [done|by exists l]| |].
    + assert (∀ x, x ∈ l ++ [t] → x ∉ xs) as Hl. { intros x Hx. apply HRx. rewrite ElR. rewrite elem_of_app, elem_of_cons. rewrite elem_of_app, list_elem_of_singleton in Hx. tauto. }
      assert (∀ x, x ∈ rr → x ∉ xs) as Hr. { intros x Hx. apply HRx. rewrite ElR. rewrite elem_of_app, elem_of_cons. tauto. }
      rewrite !(filter_app _ _ (xs ++ rr)), (filter_app _ xs), Hxx, (Hsame _ Hl), (Hsame _ Hr), <- E2, filter_app, <- E1.
      rewrite filter_cons_True by (rewrite !elem_of_app; left; right; by left). by rewrite <- !app_assoc.
    + apply (tr_closed _ _ TV P). by apply list_elem_of_filter in Ht as [_ ?].
Qed.

Lemma run_fits V M dn ks xs rest n :
  mid V M dn ks (xs ++ rest) → ks `sublist_of` rest → xs ≠ [] → (∀ x, x ∈ xs → is_new newIds x = n) → run_safe M (run_at n dn xs) →
  ∃ l rr, run_ok V root blk (run_at n dn xs) P l rr ∧ filter (λ x, x ∈ (dn ++ xs) ++ ks) (l ++ xs ++ rr) = (dn ++ xs) ++ ks.
Proof.
  intros Hm Hks Hne Hkind Hsafe. destruct (run_place V M dn ks xs rest n Hm Hks Hsafe) as (l & rr & HR & Hgo & Hf & Ht).
  pose proof (inv_tree _ _ _ (md_inv _ _ _ _ _ Hm)) as TV. exists l, rr. split; [|done].
  pose proof (chd_NoDup V1 root T1 P) as Hn. rewrite (md_after _ _ _ _ _ Hm) in Hn. apply NoDup_app in Hn as (_ & _ & (Hnx & _ & _)%NoDup_app).
  assert (∀ x, x ∈ xs → x ∈ chd V1 P) as HxP by (intros x Hx; rewrite (md_after _ _ _ _ _ Hm); set_solver).
  assert (∀ x, n = false → x ∈ xs → is_Some (V !! x)) as Hold.
  { intros x -> Hx. specialize (Hkind x Hx). apply bool_decide_eq_false in Hkind. apply base_is_Some. rewrite (iv_base _ _ _ (md_inv _ _ _ _ _ Hm)).
    rewrite decide_True; [apply base_is_Some|]; apply not_eq_None_Some; intros E; apply Hkind, Hnew; (split; [|done]); apply (tr_closed _ _ T1 P); by apply HxP. }
  split; cbn [run_at ru_new ru_target ru_pos ru_ids].
  - destruct (msg_exists V M _ _ _ P Hm ltac:(left)) as (path & _ & Hp). eapply (tree_exists V root TV), chain_reach_end, Hp.
  - done.
  - by rewrite <- surjective_pairing.
  - split; [|done]. intros E. rewrite E, (tr_named _ _ TV) in Ht. by destruct Ht.
  - split_and!; [done|done|]. intros Hr. by apply (chd_not_root V1 root T1 P), HxP.
  - intros x -> Hx. specialize (Hkind x Hx). apply bool_decide_eq_true in Hkind. split.
    + apply eq_None_not_Some. intros Hs%base_is_Some. rewrite (iv_base _ _ _ (md_inv _ _ _ _ _ Hm)), decide_False, decide_False in Hs;
        [by destruct Hs| |by rewrite (proj2 (proj1 (Hnew x) Hkind)); intros []].
      intros HM. apply (md_fresh _ _ _ _ _ Hm x HM). set_solver.
    + apply (wf_keys _ _ (tr_wf _ _ T1) x). by apply Hblk.
  - intros x Hn Hx. split; [by apply Hold|]. eapply not_above; [done|by apply HxP|by apply Hold].
  - intros x y Hn Hx Hy Hxy Hr. apply (proj2 Hsafe Hn x y Hx Hy Hxy). eapply below_moved; [done|set_solver|by apply Hold|done].
Qed.

Lemma run_mid V V' M dn ks xs rest n l rr :
  mid V M dn ks (xs ++ rest) → ks `sublist_of` rest → xs ≠ [] → (∀ x, x ∈ xs → is_new newIds x = n) →
  filter (λ x, x ∉ xs) (chd V P) = l ++ rr → filter (λ x, x ∈ (dn ++ xs) ++ ks) (l ++ xs ++ rr) = (dn ++ xs) ++ ks →
  wf V' [root] → all_reach V' root → run_done V V' blk (run_at n dn xs) P l rr → mid V' (M ++ xs) (dn ++ xs) ks rest.
Proof.
  intros Hm Hks Hne Hkind HR Hf Hw' Ha' [Hchd Hbase]. cbn [run_at ru_new ru_ids] in Hchd, Hbase. pose proof (md_inv _ _ _ _ _ Hm) as Hi.
  pose proof (chd_NoDup V1 root T1 P) as Hn. rewrite (md_after _ _ _ _ _ Hm) in Hn. apply NoDup_app in Hn as (_ & _ & (Hnx & Hxr & _)%NoDup_app).
  assert (∀ x, x ∈ xs → x ∈ chd V1 P) as HxP by (intros x Hx; rewrite (md_after _ _ _ _ _ Hm); set_solver).
  assert (∀ x q, x ∈ xs → x ∈ chd V1 q → q = P) as HxU by (intros x q Hx Hq; by eapply (chd_uniq V1 root T1), HxP).
  assert (∀ x, x ∈ xs → x ∉ M) as HxM by (intros x Hx HM; apply (md_fresh _ _ _ _ _ Hm x HM); set_solver).
  assert (∀ x, x ∈ chd V' P ↔ x ∈ chd V P ∨ x ∈ xs) as HP'.
  { intros x. rewrite Hchd, decide_True, !elem_of_app by done. assert (x ∈ l ++ rr ↔ x ∉ xs ∧ x ∈ chd V P) as HX by (by rewrite <- HR, list_elem_of_filter).
    rewrite elem_of_app in HX. destruct (decide (x ∈ xs)); tauto. }
  split.
  - split; [done|done|..].
    + intros q. rewrite Hbase, (iv_base _ _ _ Hi). destruct (decide (n = true ∧ q ∈ xs)) as [[-> Hq]|Hq].
      * specialize (Hkind q Hq). apply bool_decide_eq_true in Hkind. rewrite decide_False by (rewrite (proj2 (proj1 (Hnew q) Hkind)); by intros []).
        rewrite decide_True by set_solver. unfold base. by rewrite (Hblk q Hkind).
      * destruct (decide (is_Some (V0 !! q))) as [H0|H0]; [done|]. destruct (decide (q ∈ M)) as [HM|HM]; [by rewrite decide_True by set_solver|]. rewrite decide_False; [done|].
        intros [?|Hx]%elem_of_app; [done|]. apply Hq. split; [|done]. rewrite <- (Hkind q Hx). apply bool_decide_eq_true, Hnew.
        split; [apply (tr_closed _ _ T1 P); by apply HxP|by apply eq_None_not_Some].
    + intros q x. rewrite (elem_of_app M xs x). destruct (decide (q = P)) as [->|Hq].
      * rewrite HP', (iv_chd _ _ _ Hi). specialize (HxP x). specialize (HxM x). destruct (decide (x ∈ xs)); tauto.
      * rewrite Hchd, decide_False, list_elem_of_filter, (iv_chd _ _ _ Hi) by done. specialize (HxU x q). destruct (decide (x ∈ xs)); tauto.
    + intros x [Hx|Hx]%elem_of_app; [by apply (iv_M _ _ _ Hi)|]. exists P. split; [left|by apply HxP].
    + apply Hi.
    + intros q Hq. rewrite Hchd, decide_False by set_solver. rewrite (iv_todo _ _ _ Hi) by done. rewrite list_filter_filter.
      apply filter_ext_elem. intros x _. rewrite not_elem_of_app. tauto.
  - intros Q HQ. assert (Q ≠ P) as HQP by (intros ->; by apply (proj1 P_not_done)). unfold settled. rewrite Hchd, decide_False by done.
    rewrite filter_apart; [by apply (md_set _ _ _ _ _ Hm)|]. intros x Hx Hin. apply HQP. by eapply HxU.
  - by rewrite Hchd, decide_True.
  - by intros [_ ?]%app_eq_nil.
  - by rewrite (md_after _ _ _ _ _ Hm), app_assoc.
  - intros x [Hx|Hx]%elem_of_app; [|by apply Hxr]. intros Hr. apply (md_fresh _ _ _ _ _ Hm x Hx). set_solver.
  - done.
Qed.

(** *** All runs of the message *)

Inductive cuts : list string → list string → list run → Prop :=
| cuts_nil dn : cuts dn [] []
| cuts_cons dn xs ins n rs :
    xs ≠ [] → (∀ x, x ∈ xs → is_new newIds x = n) → cuts (dn ++ xs) ins rs → cuts dn (xs ++ ins) (run_at n dn xs :: rs).

Lemma grow_cuts ins : ∀ dn c n, c ≠ [] → (∀ x, x ∈ c → is_new newIds x = n) →
  cuts dn (c ++ ins) (grow newIds P (chd V0 P) (dn ++ c) (run_at n dn c) ins).
Proof.
  induction ins as [|x ins IH]; intros dn c n Hc Hn; cbn [grow].
  { apply cuts_cons; [done|done|constructor]. }
  case_bool_decide as Hx; cbn [run_at ru_new] in Hx.
  - change (c ++ x :: ins) with (c ++ [x] ++ ins). rewrite (app_assoc c), <- (app_assoc dn). apply (IH dn (c ++ [x]) n); [by destruct c|].
    intros y [Hy| ->%list_elem_of_singleton]%elem_of_app; auto.
  - apply cuts_cons; [done|done|]. change (x :: ins) with ([x] ++ ins). apply IH; [done|]. by intros y ->%list_elem_of_singleton.
Qed.
Lemma edit_cuts dn ins : cuts dn ins (edit_runs newIds P (chd V0 P) dn ins).
Proof.
  destruct ins as [|x ins]; [constructor|]. cbn [edit_runs]. change (x :: ins) with ([x] ++ ins). apply grow_cuts; [done|].
  by intros y ->%list_elem_of_singleton.
Qed.
End message.

Fixpoint runs_safe (M : list string) (rs : list run) : Prop :=
  match rs with [] => True | r :: rs => run_safe M r ∧ runs_safe (M ++ ru_ids r) rs end.
Definition moved_by (rs : list run) : list string := concat (ru_ids <$> rs).
Lemma runs_safe_app M rs1 rs2 : runs_safe M (rs1 ++ rs2) ↔ runs_safe M rs1 ∧ runs_safe (M ++ moved_by rs1) rs2.
Proof.
  revert M. induction rs1 as [|r rs1 IH]; intros M; cbn [app runs_safe].
  - unfold moved_by. rewrite app_nil_r. tauto.
  - rewrite IH. unfold moved_by. cbn [fmap list_fmap concat]. rewrite <- app_assoc. tauto.
Qed.
Lemma moved_by_app rs1 rs2 : moved_by (rs1 ++ rs2) = moved_by rs1 ++ moved_by rs2.
Proof. unfold moved_by. by rewrite fmap_app, concat_app. Qed.

Section exec.
Context (LK : list string) (md5hex : string → string) `{!PbCompare, !LoUniqBy}.

Lemma ApplyChange_app d l1 l2 d1 : ApplyChange LK md5hex d l1 = Some (None, d1) → ApplyChange LK md5hex d (l1 ++ l2) = ApplyChange LK md5hex d1 l2.
Proof.
  revert d. induction l1 as [|ch l1 IH]; intros d; cbn [app ApplyChange]; [by intros [= ->]|].
  destruct (applyChange LK md5hex d ch) as [[[e|] d']|]; [done|apply IH|done].
Qed.

(** The log is applied without an error; it changes the tree only. *)
Definition replayed (d : Doc) (rs : list run) (Q : Blocks → Prop) : Prop :=
  ∃ s', ApplyChange LK md5hex d (change_of_run blk <$> rs) = Some (None, with_tree d s') ∧ same_below (dc_tree d) s' ∧ Q (view s').
Lemma replayed_nil d (Q : Blocks → Prop) : Q (view (dc_tree d)) → replayed d [] Q.
Proof. intros HQ. exists (dc_tree d). split_and!; [by destruct d|apply same_below_refl|done]. Qed.
Lemma replayed_app d rs1 rs2 Q1 Q2 :
  replayed d rs1 Q1 → (∀ s, same_below (dc_tree d) s → Q1 (view s) → replayed (with_tree d s) rs2 Q2) → replayed d (rs1 ++ rs2) Q2.
Proof.
  intros (s1 & E1 & B1 & H1) Hnext. destruct (Hnext s1 B1 H1) as (s2 & E2 & B2 & H2). exists s2. rewrite fmap_app.
  rewrite (ApplyChange_app _ _ _ _ E1), E2. split_and!; [done|by eapply same_below_trans|done].
Qed.
Lemma replayed_mono d rs (Q Q' : Blocks → Prop) : (∀ V, Q V → Q' V) → replayed d rs Q → replayed d rs Q'.
Proof. intros HQ (s & E & B & Hs). exists s. auto. Qed.

Section message.
Context (l1 : list (string * list string)) (P : string) (aP : list string) (l2 : list (string * list string)) (Esm : sm = l1 ++ (P, aP) :: l2).

Lemma exec_cuts dn ins rs : cuts P dn ins rs → ∀ d M ks rest,
  st_rootId (dc_tree d) = root → mid l1 P (view (dc_tree d)) M dn ks (ins ++ rest) → ks `sublist_of` rest → runs_safe M rs →
  replayed d rs (λ V, mid l1 P V (M ++ moved_by rs) (dn ++ ins) ks rest).
Proof.
  induction 1 as [dn|dn xs ins n rs Hne Hk Hcuts IH]; intros d M ks rest Hroot Hm Hks Hsafe.
  { apply replayed_nil. unfold moved_by. rewrite !app_nil_r. done. }
  destruct Hsafe as [Hs1 Hs]. rewrite <- app_assoc in Hm.
  assert (ks `sublist_of` ins ++ rest) as Hks' by (by apply sublist_inserts_l).
  destruct (run_fits l1 P aP l2 Esm _ M dn ks xs (ins ++ rest) n Hm Hks' Hne Hk Hs1) as (l & rr & Hok & Hf).
  pose proof (inv_tree _ _ _ (md_inv _ _ _ _ _ _ _ Hm)) as TV.
  change (run_at P n dn xs :: rs) with ([run_at P n dn xs] ++ rs).
  eapply (replayed_app _ _ _ (λ V, mid l1 P V (M ++ xs) (dn ++ xs) ks (ins ++ rest))).
  - destruct (run_step LK md5hex blk root d (run_at P n dn xs) P l rr Hroot (tr_wf _ _ TV) (tr_all _ _ TV) (tr_closed _ _ TV) Hok)
      as (s' & E & Hw' & Ha' & B' & Hdone). exists s'. cbn [fmap list_fmap ApplyChange]. rewrite E. split_and!; [done|done|].
    eapply run_mid; [exact Esm|exact Hm|done|done|done|apply (ro_list _ _ _ _ _ _ _ Hok)|done..].
  - intros s B1 Hm1. apply (replayed_mono _ _ (λ V, mid l1 P V ((M ++ xs) ++ moved_by rs) ((dn ++ xs) ++ ins) ks rest)).
    { intros V. rewrite <- !app_assoc. done. }
    apply IH; try done. cbn [with_tree dc_tree]. by rewrite (proj1 B1).
Qed.

Lemma exec_segs segs : ∀ dn d M,
  Forall (seg_ok id) segs → st_rootId (dc_tree d) = root → mid l1 P (view (dc_tree d)) M dn (keepb segs) (bside segs) →
  runs_safe M (msg_runs newIds P (chd V0 P) dn segs) →
  replayed d (msg_runs newIds P (chd V0 P) dn segs)
    (λ V, mid l1 P V (M ++ moved_by (msg_runs newIds P (chd V0 P) dn segs)) (dn ++ bside segs) [] []).
Proof.
  induction segs as [|[x y|dl ins] segs IH]; intros dn d M Hok Hroot Hm Hsafe; cbn [msg_runs bside keepb] in *.
  - apply replayed_nil. unfold moved_by. by rewrite !app_nil_r.
  - apply Forall_cons in Hok as [_ Hok].
    apply (replayed_mono _ _ (λ V, mid l1 P V (M ++ moved_by (msg_runs newIds P (chd V0 P) (dn ++ [y]) segs)) ((dn ++ [y]) ++ bside segs) [] [])).
    { intros V. by rewrite <- app_assoc. }
    apply IH; [done|done| |done]. destruct Hm as [Hi Hs Hc Hst Ha Hf Hk]. split; rewrite <- ?app_assoc; try done.
    + by intros [_ ?]%app_eq_nil.
    + intros z Hz Hin. apply (Hf z Hz). by right.
    + apply keepb_sublist.
  - apply Forall_cons in Hok as [_ Hok]. apply runs_safe_app in Hsafe as [Hs1 Hs2].
    eapply replayed_app; [apply (exec_cuts dn ins _ (edit_cuts P dn ins) d M (keepb segs) (bside segs)); [done|done|apply keepb_sublist|done]|].
    intros s B1 Hm1. cbn beta in Hm1. eapply replayed_mono; [|apply IH; [done| |exact Hm1|done]].
    + intros V. cbn beta. by rewrite moved_by_app, <- !app_assoc.
    + cbn [with_tree dc_tree]. by rewrite (proj1 B1).
Qed.
End message.

Lemma keepb_sublist_a segs : Forall (seg_ok id) segs → keepb segs `sublist_of` aside segs.
Proof.
  induction 1 as [|[x y|dl ins] segs Hok _ IH]; cbn [keepb aside]; [constructor| |by apply sublist_inserts_l].
  unfold seg_ok, id in Hok. subst y. by constructor.
Qed.
Lemma filter_sublist (ks l : list string) : ks `sublist_of` l → NoDup l → filter (λ x, x ∈ ks) l = ks.
Proof.
  induction 1 as [|x ks l Hs IH|x ks l Hs IH]; intros Hn; [done|..]; apply NoDup_cons in Hn as [Hx Hn].
  - rewrite filter_cons_True by left. f_equal. transitivity (filter (λ y, y ∈ ks) l); [|by apply IH].
    apply filter_ext_elem. intros y Hy. rewrite elem_of_cons. naive_solver.
  - rewrite filter_cons_False; [by apply IH|]. intros Hin. apply Hx. by eapply elem_of_sublist.
Qed.

(** The runs of one message. *)
Definition msg_makes (msg : string * list string) (rs : list run) : Prop :=
  ∃ segs, aside segs = chd V0 msg.1 ∧ bside segs = msg.2 ∧ Forall (seg_ok id) segs ∧ rs = msg_runs newIds msg.1 (chd V0 msg.1) [] segs.

Lemma start_msg l1 P aP l2 segs V M :
  sm = l1 ++ (P, aP) :: l2 → inv V M l1.*1 → (∀ Q, Q ∈ l1.*1 → settled V Q) →
  aside segs = chd V0 P → bside segs = aP → Forall (seg_ok id) segs → mid l1 P V M [] (keepb segs) (bside segs).
Proof.
  intros Esm Hi Hset Ea Eb Hok. destruct (P_list l1 P aP l2 Esm) as [HP EP]. destruct (P_not_done l1 P aP l2 Esm) as [HPn _].
  assert (∀ x, x ∈ M → x ∉ chd V1 P) as Hfr.
  { intros x (Q & HQ & Hx)%(iv_M _ _ _ Hi) HxP. apply HPn. by rewrite (chd_uniq V1 root T1 P Q x). }
  assert (∀ x, x ∈ keepb segs → x ∉ M) as Hkm.
  { intros x Hx HM. apply (Hfr x HM). rewrite <- EP, <- Eb. eapply elem_of_sublist; [exact Hx|apply keepb_sublist]. }
  split.
  - destruct Hi as [? ? ? ? HM HD Htodo]. split; try done.
    + intros x (Q & HQ & Hx)%HM. exists Q. split; [by right|done].
    + intros Q [->|HQ]%elem_of_cons; [|by apply HD]. rewrite Esm, fmap_app, fmap_cons. set_solver.
    + intros q Hq. apply Htodo. set_solver.
  - done.
  - cbn [app]. rewrite (iv_todo _ _ _ Hi P HPn), filter_apart by done. apply filter_sublist; [|apply (chd_NoDup V0 root T0)].
    rewrite <- Ea. by apply keepb_sublist_a.
  - intros _. by apply (iv_todo _ _ _ Hi).
  - by rewrite Eb, EP.
  - rewrite Eb, EP. done.
  - apply keepb_sublist.
Qed.

Lemma exec_msgs l2 : ∀ l1 rss d M, sm = l1 ++ l2 → Forall2 msg_makes l2 rss →
  st_rootId (dc_tree d) = root → inv (view (dc_tree d)) M l1.*1 → (∀ Q, Q ∈ l1.*1 → settled (view (dc_tree d)) Q) → runs_safe M (concat rss) →
  replayed d (concat rss) (λ V, inv V (M ++ moved_by (concat rss)) sm.*1 ∧ ∀ Q, Q ∈ sm.*1 → settled V Q).
Proof.
  induction l2 as [|[P aP] l2 IH]; intros l1 rss d M Esm Hrss Hroot Hi Hset Hsafe.
  { apply Forall2_nil_inv_l in Hrss as ->. apply replayed_nil. unfold moved_by. cbn. rewrite app_nil_r in Esm. by rewrite app_nil_r, Esm. }
  apply Forall2_cons_inv_l in Hrss as (rs & rss' & (segs & Ea & Eb & Hok & ->) & Hrss & ->). cbn [fst snd concat] in *.
  apply runs_safe_app in Hsafe as [Hs1 Hs2]. pose proof (start_msg l1 P aP l2 segs _ M Esm Hi Hset Ea Eb Hok) as Hm.
  eapply replayed_app; [by apply (exec_segs l1 P aP l2 Esm segs [])|]. intros s B1 Hm1. cbn beta in Hm1. cbn [app] in Hm1.
  assert (∀ Q, Q ∈ (l1 ++ [(P, aP)]).*1 ↔ Q = P ∨ Q ∈ l1.*1) as HD by (intros Q; rewrite fmap_app, elem_of_app; cbn; rewrite list_elem_of_singleton; tauto).
  eapply replayed_mono; [|apply (IH (l1 ++ [(P, aP)]) rss' (with_tree d s) (M ++ moved_by (msg_runs newIds P (chd V0 P) [] segs)))].
  - intros V. cbn beta. by rewrite moved_by_app, app_assoc.
  - by rewrite <- app_assoc.
  - done.
  - cbn [with_tree dc_tree]. by rewrite (proj1 B1).
  - destruct Hm1 as [[? ? ? ? HM HDs Htodo] _ _ _ _ _ _]. split; try done.
    + intros x (Q & HQ & Hx)%HM. exists Q. split; [|done]. apply HD. by apply elem_of_cons in HQ.
    + intros Q HQ%HD. apply HDs. by apply elem_of_cons.
    + intros q Hq. apply Htodo. intros Hin. apply Hq, HD. by apply elem_of_cons in Hin.
  - intros Q [->|HQ]%HD; [|by apply (md_set _ _ _ _ _ _ _ Hm1)]. unfold settled. pose proof (md_cur _ _ _ _ _ _ _ Hm1) as Hc.
    pose proof (md_after _ _ _ _ _ _ _ Hm1) as Ha. rewrite app_nil_r in Hc, Ha. by rewrite Ha.
  - done.
Qed.

(** The blocks of [V1] are where they belong; others may be between them. *)
Record structured (V : Blocks) : Prop := {
  sd_tree : tree V root;
  sd_base q : base V q = if decide (is_Some (V0 !! q)) then base V0 q else base V1 q;
  sd_chd q : is_Some (V1 !! q) → filter (λ x, is_Some (V1 !! x)) (chd V q) = chd V1 q;
  sd_rest q x : x ∈ chd V q → is_Some (V0 !! x) ∨ is_Some (V1 !! x);
}.

Lemma inv_structured V M : inv V M sm.*1 → (∀ Q, Q ∈ sm.*1 → settled V Q) → structured V.
Proof.
  intros Hi Hset. assert (∀ q x, x ∈ chd V1 q → x ∈ chd V q) as Hlink by (intros q x; eapply link_kept; [done|apply Hset]).
  assert (∀ q x, x ∈ chd V1 q → x ∉ chd V0 q → x ∈ M) as HinM.
  { intros q x Hx Hx0. specialize (Hlink q x Hx). apply (iv_chd _ _ _ Hi) in Hlink as [[? _]|[_ ?]]; done. }
  assert (∀ q x, is_Some (V1 !! x) → x ∈ chd V q → x ∈ chd V1 q) as Hback.
  { intros q x Hx1 Hx. apply (iv_chd _ _ _ Hi) in Hx as [[_ ?]|[HM Hx]]; [done|].
    assert (x ≠ root) as Hxr by (intros ->; by apply (chd_not_root V0 root T0 q)).
    destruct (tree_parent V1 root T1 x Hx1 Hxr) as [p Hp]. destruct (decide (x ∈ chd V0 p)) as [Hs0|Hs0]; [|by destruct HM; eapply HinM].
    by rewrite (chd_uniq V0 root T0 q p x Hx Hs0). }
  split.
  - by eapply inv_tree.
  - intros q. rewrite (iv_base _ _ _ Hi). destruct (decide (is_Some (V0 !! q))) as [Hs0|Hs0]; [done|]. case_decide as HM; [done|].
    unfold base. destruct (V1 !! q) as [b|] eqn:E1; [|done]. exfalso.
    assert (q ≠ root) as Hqr by (intros ->; by apply Hs0, T0).
    destruct (tree_parent V1 root T1 q ltac:(by eexists) Hqr) as [p Hp]. apply HM, (HinM p q Hp). intros Hin. by apply Hs0, (tr_closed _ _ T0 p).
  - intros q Hq. destruct (decide (q ∈ sm.*1)) as [Hs|Hs].
    + transitivity (filter (λ x, x ∈ chd V1 q) (chd V q)); [|by apply Hset]. apply filter_ext_elem. intros x Hx. split; [intros; by apply Hback|intros Hin; by apply (tr_closed _ _ T1 q)].
    + assert (chd V q = chd V1 q) as ->.
      { rewrite (iv_todo _ _ _ Hi q Hs), (mw_rest _ Hsm q Hq Hs). apply filter_all. intros x Hx (Q & HQ & HxQ)%(iv_M _ _ _ Hi).
        rewrite <- (mw_rest _ Hsm q Hq Hs) in Hx. apply Hs. by rewrite (chd_uniq V1 root T1 q Q x Hx HxQ). }
      apply filter_all. intros x Hx. by apply (tr_closed _ _ T1 q).
  - intros q x [[_ Hx]|[_ Hx]]%(iv_chd _ _ _ Hi); [right; by apply (tr_closed _ _ T1 q)|left; by apply (tr_closed _ _ T0 q)].
Qed.

(** Replaying the structure. *)
Lemma exec_structure rss d : Forall2 msg_makes sm rss → runs_safe [] (concat rss) →
  st_rootId (dc_tree d) = root → view (dc_tree d) = V0 → replayed d (concat rss) structured.
Proof.
  intros Hrss Hsafe Hroot Hv. apply (replayed_mono _ _ (λ V, inv V (moved_by (concat rss)) sm.*1 ∧ ∀ Q, Q ∈ sm.*1 → settled V Q)).
  { intros V [Hi Hset]. by eapply inv_structured. }
  apply (exec_msgs sm [] rss d []); rewrite ?Hv; try done; [|by intros Q ?%elem_of_nil]. split.
  - apply T0.
  - apply T0.
  - intros q. case_decide as Hs1; [done|]. rewrite decide_False by apply not_elem_of_nil. unfold base. by rewrite (proj2 (eq_None_not_Some _) Hs1).
  - intros q x. split; [intros ?; right; split; [apply not_elem_of_nil|done]|]. intros [[?%elem_of_nil _]|[_ ?]]; done.
  - by intros x ?%elem_of_nil.
  - by intros x ?%elem_of_nil.
  - intros q _. symmetry. apply filter_all. intros x _. apply not_elem_of_nil.
Qed.
End exec.
End structure.
