(* ===== verification/ChangeBlocks.v ===== *)
(** * Replaying removals and updates of blocks *)

From S2P Require Import Prelude Slice SliceDiff GoFloat Values PbTypes Details StateTree StateDetails StateStore StateApply Changes ChangeRuns ChangeReplay ChangeStructure.

(** Changing what is not reachable keeps a tree well formed. *)
Lemma wf_unreached V V' root c :
  wf V [root] → ¬ reach V root c → (∀ q, q ≠ c → V' !! q = V !! q) → (∀ q b, V' !! q = Some b → b_Id b = q) →
  wf V' [root] ∧ ∀ q, reach V' root q → reach V root q.
Proof.
  intros Hw Hc Heq Hk.
  assert (∀ q, reach V' root q → reach V root q) as Hr.
  { induction 1 as [|p b x Hp IH Hb Hx]; [constructor|]. rewrite Heq in Hb by (by intros ->). by eapply reach_child. }
  assert (∀ q, reachable V' [root] q → reachable V [root] q) as Hre.
  { intros q (r & ->%list_elem_of_singleton & Hq). exists root. split; [left|by apply Hr]. }
  assert (∀ q b, reachable V' [root] q → V' !! q = Some b → V !! q = Some b) as Hlk.
  { intros q b (r & ->%list_elem_of_singleton & Hq%Hr) Hb. rewrite <- Hb. symmetry. apply Heq. by intros ->. }
  split; [|done]. destruct Hw as [_ Hn Hu Hd Hrt]. split; try done.
  - intros p1 b1 p2 b2 x H1 H2 Hb1 Hb2. apply Hu; auto.
  - intros p b Hp Hb. apply (Hd p b); auto.
  - intros p b r Hp Hb. apply (Hrt p b); auto.
Qed.

Definition parents_keyed (s : State) : Prop := ∀ l id b, l ∈ st_parents s → l !! id = Some b → b_Id b = id.

(** [CleanupBlock]: an older copy of the block may come to light. *)
Lemma cleanup_layers_keyed layers id : (∀ l i b, l ∈ layers → l !! i = Some b → b_Id b = i) →
  ∀ l i b, l ∈ (cleanup_layers layers id).2 → l !! i = Some b → b_Id b = i.
Proof.
  induction layers as [|l0 layers IH]; intros Hk; cbn [cleanup_layers]; [done|]. destruct (l0 !! id) as [b0|] eqn:El.
  - cbn [snd]. intros l i b [->|Hl]%elem_of_cons; [|apply Hk; by right]. intros [_ Hb]%lookup_delete_Some. by apply (Hk l0); [left|].
  - destruct (cleanup_layers layers id) as [ok ls]. cbn [snd] in *. intros l i b [->|Hl]%elem_of_cons; [apply Hk; left|].
    apply (IH ltac:(intros; eapply Hk; [by right|done]) l i b Hl).
Qed.
Lemma pick_keyed layers i b : (∀ l i b, l ∈ layers → l !! i = Some b → b_Id b = i) → pick_layers layers i = Some b → b_Id b = i.
Proof.
  induction layers as [|l layers IH]; intros Hk; cbn [pick_layers]; [done|]. destruct (l !! i) as [b0|] eqn:El.
  - intros [= ->]. by apply (Hk l); [left|].
  - apply IH. intros l' i' b' Hl. apply Hk. by right.
Qed.
Lemma CleanupBlock_spec s id : wf (view s) [st_rootId s] → parents_keyed s →
  let s' := (CleanupBlock s id).2 in
  st_rootId s' = st_rootId s ∧ parents_keyed s' ∧ (∀ q b, view s' !! q = Some b → b_Id b = q) ∧ ∀ q, q ≠ id → view s' !! q = view s !! q.
Proof.
  intros Hw Hk. set (layers := st_blocks s :: st_parents s).
  assert (∀ l i b, l ∈ layers → l !! i = Some b → b_Id b = i) as Hall.
  { intros l i b [->|Hl]%elem_of_cons Hb; [|by eapply Hk]. apply (wf_keys _ _ Hw). rewrite <- Pick_view. unfold Pick. cbn [pick_layers]. by rewrite Hb. }
  pose proof (cleanup_layers_keyed layers id Hall) as Hk'. destruct (cleanup_layers_spec layers id) as (_ & L & E).
  unfold CleanupBlock. fold layers. destruct (cleanup_layers layers id) as [ok [|bs ps]]; [done|]. cbn [snd] in *. split_and!.
  - done.
  - intros l i b Hl. apply Hk'. by right.
  - intros q b. rewrite <- Pick_view. apply pick_keyed. exact Hk'.
  - intros q Hq. rewrite <- !Pick_view. by apply E.
Qed.

Section remove.
Context (V0 V1 : Blocks) (root : string) (T1 : tree V1 root).

(** [X] are the removed blocks. *)
Record pruned (V : Blocks) (X : list string) : Prop := {
  pn_wf : wf V [root];
  pn_base q : is_Some (V1 !! q) → base V q = if decide (is_Some (V0 !! q)) then base V0 q else base V1 q;
  pn_chd q : is_Some (V1 !! q) → filter (λ x, is_Some (V1 !! x)) (chd V q) = chd V1 q;
  pn_rest q x : is_Some (V1 !! q) → x ∈ chd V q → (is_Some (V0 !! x) ∨ is_Some (V1 !! x)) ∧ x ∉ X;
}.

Lemma structured_pruned V : structured V0 V1 root V → pruned V [].
Proof.
  intros [T Hb Hc Hr]. split; [apply T|intros q _; apply Hb|done|]. intros q x _ Hx. split; [by eapply Hr|apply not_elem_of_nil].
Qed.
Lemma pruned_reach V X q : pruned V X → is_Some (V1 !! q) → reach V root q.
Proof.
  intros Hp Hq. pose proof (tree_reach V1 root T1 q Hq) as Hr. clear Hq. induction Hr as [|p b c Hp' IH Hb Hc]; [constructor|].
  assert (c ∈ chd V1 p) as Hin by (apply chd_In; by exists b). rewrite <- (pn_chd _ _ Hp p ltac:(by eexists)) in Hin.
  apply list_elem_of_filter in Hin as [_ (b' & Hb' & Hc')%chd_In]. by eapply reach_child.
Qed.

Lemma filter_V1_skip (l r : list string) c : V1 !! c = None →
  filter (λ x, is_Some (V1 !! x)) (l ++ c :: r) = filter (λ x, is_Some (V1 !! x)) (l ++ r).
Proof. intros Hc. rewrite !filter_app, filter_cons_False; [done|]. rewrite Hc. by intros []. Qed.

Lemma unlink_pruned s X c : st_rootId s = root → pruned (view s) X → V1 !! c = None →
  let s' := (Unlink s c).2 in same_below s s' ∧ pruned (view s') (c :: X) ∧ ¬ reach (view s') root c.
Proof.
  intros Hroot Hp Hc. pose proof (pn_wf _ _ Hp) as Hw. assert (wf (view s) [st_rootId s]) as Hw' by (by rewrite Hroot).
  destruct (PickParentOf s c) as [bp|] eqn:Epp.
  - pose proof Epp as Epp0. apply (PickParentOf_spec s [] Hw') in Epp as (Hr & Hbp & Hin). rewrite Hroot in Hr. set (p := b_Id bp) in *.
    assert (reachable (view s) [root] p) as Hrp by (exists root; split; [left|done]).
    destruct (list_elem_of_split _ _ Hin) as (l & r & Elr). pose proof (wf_nodup _ _ Hw p bp Hrp Hbp) as Hn.
    assert (c ∉ l ++ r) as Hclr by (rewrite Elr, <- Permutation_middle in Hn; by apply NoDup_cons in Hn as [? _]).
    destruct (Unlink_parent s c bp l r Epp0 Hbp Elr Hclr) as (s' & E & V' & B'). fold p in V'. rewrite E. cbn [snd].
    assert (wf (view s') [c; root]) as Hwc by (rewrite V'; apply (wf_remove _ _ p bp c l r); done).
    assert (∀ q, chd (view s') q = if decide (q = p) then l ++ r else chd (view s) q) as Hchd.
    { intros q. unfold chd. rewrite V'. case_decide as Eq; [subst q; by rewrite lookup_insert_eq|by rewrite lookup_insert_ne]. }
    assert (chd (view s) p = l ++ c :: r) as Ep by (unfold chd; by rewrite Hbp).
    split_and!; [done| |].
    + split.
      * by eapply wf_drop.
      * intros q Hq. rewrite <- (pn_base _ _ Hp q Hq). unfold base. rewrite V'. destruct (decide (q = p)) as [->|Hne].
        -- rewrite lookup_insert_eq, Hbp. done.
        -- by rewrite lookup_insert_ne.
      * intros q Hq. rewrite <- (pn_chd _ _ Hp q Hq), Hchd. case_decide as Eq; [|done]. by rewrite Eq, Ep, filter_V1_skip.
      * intros q x Hq. rewrite Hchd. case_decide as Eq.
        -- rewrite Eq in Hq. intros Hx. destruct (pn_rest _ _ Hp p x Hq) as [? HX]; [rewrite Ep; set_solver|]. split; [done|].
           intros [->|?]%elem_of_cons; done.
        -- intros Hx. destruct (pn_rest _ _ Hp q x Hq Hx) as [? HX]. split; [done|]. intros [->|?]%elem_of_cons; [|done]. apply Eq.
           apply chd_In in Hx as (bq & Hbq & Hx). eapply (wf_uniq _ _ Hw q bq p bp c); try done. exists root. split; [left|by eapply pruned_reach].
    + intros Hrc. apply (reach_not_other (view s') root [c] c); [|done|left]. eapply wf_perm; [|exact Hwc]. apply perm_swap.
  - unfold Unlink, GetParentOf. rewrite Epp. cbn [snd].
    pose proof (proj1 (PickParentOf_None s [] Hw' c) Epp) as Hno. rewrite Hroot in Hno. split_and!; [apply same_below_refl| |].
    + split; [done|apply Hp|apply Hp|]. intros q x Hq Hx. destruct (pn_rest _ _ Hp q x Hq Hx) as [? HX]. split; [done|].
      intros [->|?]%elem_of_cons; [|done]. apply chd_In in Hx as (bq & Hbq & Hx). by apply (Hno q bq); [eapply pruned_reach| |].
    + intros Hr. inversion Hr as [|p b ? Hp' Hb Hin]; subst; [destruct (tr_root _ _ T1); congruence|]. by apply (Hno p b).
Qed.

Lemma remove_one s X c : st_rootId s = root → parents_keyed s → pruned (view s) X → V1 !! c = None →
  let s' := (CleanupBlock (Unlink s c).2 c).2 in st_rootId s' = root ∧ parents_keyed s' ∧ pruned (view s') (c :: X).
Proof.
  intros Hroot Hk Hp Hc. destruct (unlink_pruned s X c Hroot Hp Hc) as (B & Hp1 & Hr). set (s1 := (Unlink s c).2) in *.
  assert (wf (view s1) [st_rootId s1]) as Hw1 by (rewrite (proj1 B), Hroot; apply Hp1).
  assert (parents_keyed s1) as Hk1 by (unfold parents_keyed; rewrite (proj2 B); done).
  destruct (CleanupBlock_spec s1 c Hw1 Hk1) as (R2 & K2 & Ky2 & V2). set (s2 := (CleanupBlock s1 c).2) in *.
  assert (∀ q, is_Some (V1 !! q) → view s2 !! q = view s1 !! q) as Hsame.
  { intros q [b Hq]. apply V2. intros ->. congruence. }
  destruct (wf_unreached (view s1) (view s2) root c) as [Hw2 _]; [apply Hp1|done|done|done|].
  split_and!; [by rewrite R2, (proj1 B)|done|]. destruct Hp1 as [_ Hb1 Hc1 Hr1]. split; [done|..]; unfold base, chd in *; intros q.
  - intros Hq. rewrite Hsame by done. by apply Hb1.
  - intros Hq. rewrite Hsame by done. by apply Hc1.
  - intros x Hq. rewrite Hsame by done. by apply Hr1.
Qed.

Lemma remove_all ids : ∀ s X, st_rootId s = root → parents_keyed s → pruned (view s) X → (∀ c, c ∈ ids → V1 !! c = None) →
  let s' := changeBlockRemove s ids in st_rootId s' = root ∧ parents_keyed s' ∧ ∃ X', pruned (view s') X' ∧ ∀ x, x ∈ X ++ ids → x ∈ X'.
Proof.
  induction ids as [|c ids IH]; intros s X Hroot Hk Hp Hids.
  { split_and!; [done|done|]. exists X. split; [done|]. intros x. by rewrite app_nil_r. }
  destruct (remove_one s X c Hroot Hk Hp) as (R1 & K1 & P1); [apply Hids; left|].
  destruct (IH _ (c :: X) R1 K1 P1) as (R2 & K2 & X' & P2 & HX'); [intros x Hx; apply Hids; by right|].
  split_and!; [done|done|]. exists X'. split; [done|]. intros x Hx. apply HX'. set_solver.
Qed.

(** In a document without parents the blocks are gone altogether. *)
Lemma Unlink_dom s c : same_below s (Unlink s c).2 ∧ ∀ q, is_Some (view (Unlink s c).2 !! q) → is_Some (view s !! q).
Proof.
  unfold Unlink, GetParentOf. destruct (PickParentOf s c) as [bp|]; [|split; [apply same_below_refl|done]].
  destruct (Get_spec s (b_Id bp)) as (G1 & G2 & G3 & G4). destruct (Get s (b_Id bp)) as [[b|] s1]; cbn [fst snd] in *; [|split; [done|by rewrite G2]].
  unfold removeChildren. destruct (st_blocks s1 !! b_Id b) as [b1|] eqn:Eb.
  - destruct (setChildrenIds_view s1 (b_Id b) b1 (RemoveMut (b_ChildrenIds b) c) Eb) as (Vs & Bs & _). split; [by eapply same_below_trans|].
    intros q. rewrite Vs. intros [b' [[<- _]|[_ Hq]]%lookup_insert_Some]; rewrite <- G2; [|by eexists].
    rewrite <- Pick_view. unfold Pick. cbn [pick_layers]. rewrite Eb. by eexists.
  - unfold setChildrenIds. rewrite Eb. split; [done|by rewrite G2].
Qed.
Lemma Cleanup_dom s c : st_parents s = [] → st_parents (CleanupBlock s c).2 = [] ∧ view (CleanupBlock s c).2 = delete c (view s).
Proof.
  intros Hp. unfold CleanupBlock. rewrite Hp. cbn [cleanup_layers]. assert (view s = st_blocks s) as Ev.
  { unfold view. rewrite Hp. cbn [foldr]. apply (right_id_L ∅ (∪)). }
  rewrite Ev. destruct (st_blocks s !! c) as [b|] eqn:Eb; (split; [done|]); unfold view; cbn [snd st_blocks st_parents foldr]; rewrite (right_id_L ∅ (∪)); [done|].
  symmetry. by apply delete_id.
Qed.
Lemma remove_dom ids : ∀ s, st_parents s = [] →
  st_parents (changeBlockRemove s ids) = [] ∧
  ∀ q, is_Some (view (changeBlockRemove s ids) !! q) → is_Some (view s !! q) ∧ q ∉ ids.
Proof.
  induction ids as [|c ids IH]; intros s Hp; [split; [done|]; intros q Hq; split; [done|apply not_elem_of_nil]|].
  destruct (Unlink_dom s c) as [B1 D1]. destruct (Cleanup_dom (Unlink s c).2 c) as [P2 V2]; [by rewrite (proj2 B1)|].
  destruct (IH _ P2) as [P3 D3]. split; [done|]. intros q Hq. apply D3 in Hq as [Hq Hin]. rewrite V2 in Hq.
  destruct Hq as [b [Hne Hb]%lookup_delete_Some]. split; [apply D1; by eexists|]. by apply not_elem_of_cons.
Qed.
End remove.

(** ** Updates *)

Definition is_upd_msg (m : BlockMsg) : bool := match m with BSetFields _ _ | BSetBackgroundColor _ _ | BSetContent _ _ => true | _ => false end.

(** The event is about a block there is, of its kind. *)
Definition fits_in (V : Blocks) (ev : BlockMsg) : Prop :=
  match ev with
  | BSetFields id _ | BSetBackgroundColor id _ => is_Some (V !! id)
  | BSetContent id c => ∃ b, V !! id = Some b ∧ event_fits c (b_Content b) = true
  | _ => False
  end.
Lemma fits_in_upd V ev : fits_in V ev → is_upd_msg ev = true.
Proof. by destruct ev. Qed.
Lemma event_fits_kind c c' own : event_fits c own = true → event_fits c' own = true → event_fits c' c = true.
Proof. destruct c, c', own; try done; simpl; rewrite !bool_decide_eq_true; congruence. Qed.
Lemma fits_in_replay V ev ev' : fits_in V ev → fits_in V ev' → fits_in (replay_block V ev) ev'.
Proof.
  assert (∀ f id q, is_Some (V !! q) → is_Some (alter f id V !! q)) as Hal.
  { intros f id q [b Hb]. destruct (decide (q = id)) as [->|Hne]; [rewrite lookup_alter_eq|rewrite lookup_alter_ne by done]; rewrite Hb; by eexists. }
  destruct ev as [| | |id f|id f|id c]; try done; destruct ev' as [| | |id' f'|id' f'|id' c']; try done; simpl; try (intros _; apply Hal).
  - intros _ (b & Hb & Hf). destruct (decide (id' = id)) as [->|Hne]; [rewrite lookup_alter_eq|rewrite lookup_alter_ne by done]; rewrite Hb; by eexists.
  - intros _ (b & Hb & Hf). destruct (decide (id' = id)) as [->|Hne]; [rewrite lookup_alter_eq|rewrite lookup_alter_ne by done]; rewrite Hb; by eexists.
  - intros (b & Hb & Hf) (b' & Hb' & Hf'). destruct (decide (id' = id)) as [->|Hne]; [rewrite lookup_alter_eq|rewrite lookup_alter_ne by done].
    + rewrite Hb in Hb' |- *. injection Hb' as <-. eexists. split; [done|]. simpl. by eapply event_fits_kind.
    + by exists b'.
Qed.

Lemma put_view s id b b' f : view s !! id = Some b → b' = f b → view (put_block s id b') = alter f id (view s).
Proof.
  intros Hb ->. unfold put_block. rewrite view_insert. apply map_eq. intros q. destruct (decide (q = id)) as [->|Hne].
  - by rewrite lookup_insert_eq, lookup_alter_eq, Hb.
  - by rewrite lookup_insert_ne, lookup_alter_ne.
Qed.
Lemma applyEvent_spec s ev : fits_in (view s) ev → ∃ s', applyEvent s ev = (None, s') ∧ view s' = replay_block (view s) ev ∧ same_below s s'.
Proof.
  destruct ev as [| | |id f|id f|id c]; try done; cbn [fits_in applyEvent].
  - intros [b Hb]. destruct (Get_some s id b Hb) as (s1 & -> & (V1 & B1 & _) & _). eexists. split; [done|]. split; [|done].
    cbn [replay_block]. rewrite <- V1 in Hb |- *. by apply (put_view s1 id b _ (λ b, set_fields b f)).
  - intros [b Hb]. destruct (Get_some s id b Hb) as (s1 & -> & (V1 & B1 & _) & _). eexists. split; [done|]. split; [|done].
    cbn [replay_block]. rewrite <- V1 in Hb |- *. by apply (put_view s1 id b _ (λ b, set_background b f)).
  - intros (b & Hb & Hf). destruct (Get_some s id b Hb) as (s1 & -> & (V1 & B1 & _) & _). rewrite Hf. eexists. split; [done|]. split; [|done].
    cbn [replay_block]. rewrite <- V1 in Hb |- *. by apply (put_view s1 id b _ (λ b, set_content b c)).
Qed.

Lemma changeBlockUpdate_spec evs : ∀ s, (∀ ev, ev ∈ evs → fits_in (view s) ev) →
  ∃ s', changeBlockUpdate s evs = (None, s') ∧ view s' = replay (view s) (map block_event evs) ∧ same_below s s'.
Proof.
  unfold changeBlockUpdate. induction evs as [|ev evs IH]; intros s Hf; [exists s; split_and!; [done|done|apply same_below_refl]|].
  destruct (applyEvent_spec s ev) as (s1 & E1 & V1 & B1); [apply Hf; left|]. destruct (IH s1) as (s2 & E2 & V2 & B2).
  { intros ev' Hev'. rewrite V1. apply fits_in_replay; apply Hf; [left|by right]. }
  exists s2. cbn [foldl]. rewrite E1. split_and!; [done| |by eapply same_below_trans]. by rewrite V2, V1.
Qed.

Section finish.
Context (V0 V1 : Blocks) (root : string) (T1 : tree V1 root).

(** The events set every attribute that differs, and set it to what it is in [V1]. *)
Record update_events (evs : list BlockMsg) : Prop := {
  ue_each ev : ev ∈ evs → ∃ id o b, V0 !! id = Some o ∧ V1 !! id = Some b ∧
    (ev = BSetFields id (b_Fields b) ∨ ev = BSetBackgroundColor id (b_BackgroundColor b) ∨
     ev = BSetContent id (b_Content b) ∧ event_fits (b_Content b) (b_Content o) = true);
  ue_all id o b : V0 !! id = Some o → V1 !! id = Some b →
    (b_Fields o = b_Fields b ∨ BSetFields id (b_Fields b) ∈ evs) ∧
    (b_BackgroundColor o = b_BackgroundColor b ∨ BSetBackgroundColor id (b_BackgroundColor b) ∈ evs) ∧ (b_Content o = b_Content b ∨ BSetContent id (b_Content b) ∈ evs);
}.

Context (V : Blocks) (X : list string) (Hp : pruned V0 V1 root V X) (HX : ∀ x, is_Some (V0 !! x) → V1 !! x = None → x ∈ X).

(** All that is not in [V1] is gone from the lists. *)
Lemma pruned_chd q : is_Some (V1 !! q) → chd V q = chd V1 q.
Proof.
  intros Hq. rewrite <- (pn_chd _ _ _ _ _ Hp q Hq). symmetry. apply filter_all. intros x Hx.
  destruct (pn_rest _ _ _ _ _ Hp q x Hq Hx) as [[Hx0|?] Hno]; [|done]. destruct (V1 !! x) as [b|] eqn:E; [by eexists|].
  destruct Hno. by apply HX.
Qed.
Lemma pruned_lookup q b : V1 !! q = Some b →
  ∃ o, V !! q = Some (with_children o (b_ChildrenIds b)) ∧ (V0 !! q = Some o ∨ V0 !! q = None ∧ o = b).
Proof.
  intros Hb. pose proof (pruned_chd q ltac:(by eexists)) as Hc. pose proof (pn_base _ _ _ _ _ Hp q ltac:(by eexists)) as Hba.
  unfold chd, base in *. rewrite Hb in Hc, Hba. destruct (V0 !! q) as [o|] eqn:E0.
  - exists o. split; [|by left]. rewrite decide_True in Hba by (by eexists). destruct (V !! q) as [v|]; [|done].
    simpl in Hba. injection Hba as Hba. f_equal. rewrite <- Hc. destruct v, o. unfold with_children in *. simpl in *. by simplify_eq.
  - exists b. split; [|by right]. rewrite decide_False in Hba by (by intros []). destruct (V !! q) as [v|]; [|done].
    simpl in Hba. injection Hba as Hba. f_equal. rewrite <- Hc. destruct v, b. unfold with_children in *. simpl in *. by simplify_eq.
Qed.

Context (evs : list BlockMsg) (Hev : update_events evs) (Hid : ∀ q o b, V0 !! q = Some o → V1 !! q = Some b → b_Id o = b_Id b).

Lemma updates_fit ev : ev ∈ evs → fits_in V ev.
Proof.
  intros (id & o & b & H0 & H1 & Hor)%(ue_each _ Hev). destruct (pruned_lookup id b H1) as (o' & Hv & [Ho|[Ho _]]); [|congruence].
  rewrite H0 in Ho. injection Ho as <-. destruct Hor as [->|[->|[-> Hf]]]; simpl; [by eexists..|]. eexists. split; [exact Hv|done].
Qed.

Lemma updated_lookup q b : V1 !! q = Some b → replay V (map block_event evs) !! q = Some b.
Proof.
  intros Hb. destruct (pruned_lookup q b Hb) as (o & Hv & Ho).
  assert (b_Id o = b_Id b) as Hio by (destruct Ho as [Ho|[_ ->]]; [by eapply Hid|done]).
  eapply (replay_changed q b _ V _); [|exact Hv|exact Hio|by left| | |].
  - intros x (id & o' & b' & H0 & H1 & Hor)%said_events%(ue_each _ Hev). destruct Hor as [->|[->|[-> _]]]; (split_and!; [by intros ? []|by intros []|]); simpl; intros ->; congruence.
  - setoid_rewrite said_events. destruct Ho as [Ho|[_ ->]]; [|by left]. by apply (ue_all _ Hev q o b).
  - setoid_rewrite said_events. destruct Ho as [Ho|[_ ->]]; [|by left]. by apply (ue_all _ Hev q o b).
  - setoid_rewrite said_events. destruct Ho as [Ho|[_ ->]]; [|by left]. by apply (ue_all _ Hev q o b).
Qed.

(** What is reachable after the updates is [V1]. *)
Lemma updated_tree id b :
  let V' := replay V (map block_event evs) in (V' !! id = Some b ∧ reach V' root id) ↔ V1 !! id = Some b.
Proof.
  intros V'. assert (∀ q, reach V' root q → is_Some (V1 !! q)) as Hin.
  { induction 1 as [|p bp c _ [b1 Hb1] Hbp Hc]; [apply T1|]. unfold V' in Hbp. rewrite (updated_lookup p b1 Hb1) in Hbp. injection Hbp as ->.
    apply (tr_closed _ _ T1 p), chd_In. by exists bp. }
  split.
  - intros [Hb Hr]. destruct (Hin id Hr) as [b1 Hb1]. pose proof (updated_lookup id b1 Hb1) as E. fold V' in E. congruence.
  - intros Hb. split; [by apply updated_lookup|]. assert (reach V1 root id) as Hr by (apply (tree_reach V1 root T1); by eexists).
    clear Hb. induction Hr as [|p bp c Hp' IH Hbp Hc]; [constructor|]. eapply reach_child; [done|by apply updated_lookup|done].
Qed.
End finish.

(** Updates add no blocks. *)
Lemma replay_dom evs : ∀ V q, (∀ ev, ev ∈ evs → is_upd_msg ev = true) → is_Some (replay V (map block_event evs) !! q) → is_Some (V !! q).
Proof.
  induction evs as [|ev evs IH]; intros V q Hev Hq; [done|]. cbn [map] in Hq. rewrite replay_cons in Hq.
  apply IH in Hq; [|intros; apply Hev; by right]. specialize (Hev ev ltac:(left)).
  destruct ev as [| | |i f|i f|i c]; try done; cbn in Hq; revert Hq; (destruct (decide (q = i)) as [->|Hne];
    [rewrite lookup_alter_eq; by intros ?%fmap_is_Some|by rewrite lookup_alter_ne]).
Qed.
