(* ===== verification/ChangeLog.v ===== *)
(** * What [apply] writes into the log

    The messages of a state are turned into changes in the order in which the blocks
    are compared, which is the order of the walk from the root. *)

From S2P Require Import Prelude Slice SliceDiff GoFloat Values PbTypes Details StateTree StateDetails StateStore StateApply Changes ChangeRuns ChangeReplay ChangeStructure ChangeBlocks.

(** ** From the comparison to the parts of the log *)

Section logged.
Context (root : string) (p : Blocks).

Definition sofar (f0 : filled) (c : compared) : filled := foldl (fill_added root) (foldl (fill_msg root) f0 (co_msgs c)) (co_newBlocks c).
Definition fill_block (f : filled) (b : Block) : filled :=
  match p !! b_Id b with
  | None => fill_added root f b
  | Some o => match block_Diff o b with Ok diff => foldl (fill_msg root) f (map block_event diff) | Err _ => f end
  end.

Lemma sofar_flush f0 c : foldl (fill_msg root) f0 (co_msgs (flushNewBlocks c)) = sofar f0 c.
Proof.
  unfold sofar, flushNewBlocks. cbn [co_msgs]. case_bool_decide as E; [by rewrite E|]. rewrite foldl_app. done.
Qed.

(** The parent's blocks as the comparison leaves them. *)
Definition same_lists (pc : Blocks) : Prop := ∀ q, chd pc q = chd p q.

Context `{!DetailsHandler} (Hplain : ∀ b, dh_is b = false).

Lemma compare_fill ch pc c b f0 c' :
  st_blocks (dc_tree (co_doc c)) !! b_Id b = Some b → st_parents (dc_tree (co_doc c)) = [pc] → pc !! b_Id b = p !! b_Id b → same_lists pc →
  compare_block ch c (b_Id b) = Ok c' →
  sofar f0 c' = fill_block (sofar f0 c) b ∧ st_changes (dc_tree (co_doc c')) = st_changes (dc_tree (co_doc c)) ∧
  st_ignoreIds (dc_tree (co_doc c')) = st_ignoreIds (dc_tree (co_doc c)) ∧
  ∃ pc', st_parents (dc_tree (co_doc c')) = [pc'] ∧ same_lists pc'.
Proof.
  intros Hb Hps Hp Hsl. unfold fill_block, compare_block, PickOrigin. rewrite Hps. cbn [pick_layers]. rewrite Hp.
  destruct (p !! b_Id b) as [orig|] eqn:Eo.
  - assert (Get (dc_tree (co_doc (flushNewBlocks c))) (b_Id b) = (Some b, dc_tree (co_doc c))) as ->.
    { unfold Get. cbn [flushNewBlocks co_doc]. by rewrite Hb. }
    rewrite Hplain, andb_false_r, insert_id by done.
    assert (with_blocks (dc_tree (co_doc c)) (st_blocks (dc_tree (co_doc c))) = dc_tree (co_doc c)) as -> by (by destruct (dc_tree (co_doc c))).
    destruct (block_Diff orig b) as [[|m0 diff]|e] eqn:Ed; [..|done]; intros [= <-].
    + cbn [with_tree co_doc dc_tree flushNewBlocks]. rewrite <- (sofar_flush f0 c). split_and!; [done..|]. exists pc. done.
    + cbn [co_doc with_tree dc_tree settle_parents st_changes st_ignoreIds st_parents]. rewrite Hps. cbn [settle_layers]. rewrite Hp.
      split_and!; [|done..|].
      * unfold sofar at 1. cbn [co_msgs co_newBlocks flushNewBlocks foldl]. rewrite foldl_app. f_equal. apply sofar_flush.
      * eexists. split; [done|]. intros q. unfold chd. destruct (decide (q = b_Id b)) as [->|Hne].
        -- rewrite lookup_insert_eq, Eo. unfold settle_file. by repeat case_match.
        -- rewrite lookup_insert_ne by done. apply Hsl.
  - rewrite Hb, Hplain. intros [= <-]. cbn [co_doc]. split_and!; [|done..|by exists pc].
    unfold sofar. cbn [co_msgs co_newBlocks]. by rewrite foldl_app.
Qed.

Lemma compare_all_fill ch bs : ∀ pc c f0 c',
  NoDup (map b_Id bs) → (∀ b, b ∈ bs → st_blocks (dc_tree (co_doc c)) !! b_Id b = Some b) →
  st_parents (dc_tree (co_doc c)) = [pc] → (∀ b, b ∈ bs → pc !! b_Id b = p !! b_Id b) → same_lists pc →
  (∀ b, b ∈ bs → ∃ diff, diff_of p b = Ok diff) → compare_blocks ch c (map b_Id bs) = Ok c' →
  sofar f0 c' = foldl fill_block (sofar f0 c) bs ∧ st_changes (dc_tree (co_doc c')) = st_changes (dc_tree (co_doc c)) ∧
  st_ignoreIds (dc_tree (co_doc c')) = st_ignoreIds (dc_tree (co_doc c)) ∧
  ∃ pc', st_parents (dc_tree (co_doc c')) = [pc'] ∧ same_lists pc'.
Proof.
  induction bs as [|b bs IH]; intros pc c f0 c' Hnd Hb Hpc Hp Hsl Hd E.
  { cbn in E. injection E as <-. split_and!; [done..|by exists pc]. }
  cbn [map] in Hnd, E. apply NoDup_cons in Hnd as [Hn Hnd]. cbn [compare_blocks] in E.
  pose proof (compare_block_spec Hplain ch p pc c b (Hb b ltac:(by left)) Hpc (Hp b ltac:(by left))) as Hs.
  destruct (Hd b ltac:(by left)) as [diff Ed]. rewrite Ed in Hs. destruct Hs as (c1 & E1 & H1). rewrite E1 in E.
  destruct (ct_parents _ _ _ _ H1 pc Hpc) as (pc1 & Hpc1 & K1 & _).
  destruct (compare_fill ch pc c b f0 c1) as (F1 & C1 & I1 & pc1' & Hpc1' & S1); [apply Hb; left|done|apply Hp; left|done|done|].
  rewrite Hpc1 in Hpc1'. injection Hpc1' as <-.
  destruct (IH pc1 c1 f0 c') as (F2 & C2 & I2 & Hpc2); try done.
  - intros b' Hb'. rewrite (ct_blocks _ _ _ _ H1). apply Hb. by right.
  - intros b' Hb'. rewrite K1; [apply Hp; by right|]. simpl. rewrite list_elem_of_singleton. intros E'. apply Hn.
    rewrite <- E'. by apply list_elem_of_fmap_2.
  - intros b' Hb'. apply Hd. by right.
  - cbn [foldl]. rewrite F2, F1, C2, C1, I2, I1. done.
Qed.
End logged.

(** ** The parts of the log *)

Definition grown (f : filled) (upd : list BlockMsg) (sm : list (string * list string)) (new : list string) : filled :=
  {| fl_updMsgs := fl_updMsgs f ++ upd; fl_delIds := fl_delIds f; fl_delRelIds := fl_delRelIds f; fl_newRelLinks := fl_newRelLinks f;
     fl_structMsgs := fl_structMsgs f ++ sm; fl_newIds := fl_newIds f ++ new; fl_changes := fl_changes f |}.
Lemma grown_nil f : grown f [] [] [] = f.
Proof. destruct f. unfold grown. simpl. by rewrite !app_nil_r. Qed.
Lemma grown_grown f u1 s1 n1 u2 s2 n2 : grown (grown f u1 s1 n1) u2 s2 n2 = grown f (u1 ++ u2) (s1 ++ s2) (n1 ++ n2).
Proof. unfold grown. simpl. by rewrite !app_assoc. Qed.

Section parts.
Context (root : string) (p : Blocks) (Hkeys : ∀ id b, p !! id = Some b → b_Id b = id) (Hroot : is_Some (p !! root)).

Definition list_msg (m : BlockMsg) : option (string * list string) := match m with BSetChildrenIds id ids => Some (id, ids) | _ => None end.

Lemma fill_diff diff : ∀ f, (∀ m, m ∈ diff → is_set m) →
  foldl (fill_msg root) f (map block_event diff) = grown f (List.filter is_upd_msg diff) (omap list_msg diff) [].
Proof.
  induction diff as [|m diff IH]; intros f Hs; [by rewrite grown_nil|]. cbn [map foldl]. rewrite IH by (intros; apply Hs; by right).
  assert (fill_msg root f (block_event m) = grown f (List.filter is_upd_msg [m]) (omap list_msg [m]) []) as ->.
  { specialize (Hs m ltac:(left)). destruct m; try done; unfold fill_msg, grown; cbn; by rewrite !app_nil_r. }
  rewrite grown_grown. f_equal; [cbn; by destruct (is_upd_msg m)|cbn; by destruct (list_msg m)].
Qed.

Definition struct_of (b : Block) : option (string * list string) :=
  if bool_decide (b_ChildrenIds b = chd p (b_Id b)) then None else Some (b_Id b, b_ChildrenIds b).
Definition upd_of (b : Block) : list BlockMsg := match diff_of p b with Ok diff => List.filter is_upd_msg diff | Err _ => [] end.

Lemma content_diff_lists id a b l : content_Diff id a b = Some l → omap list_msg l = [].
Proof. unfold content_Diff. destruct a, b; intros E; repeat (case_bool_decide; simplify_eq/=); simplify_eq/=; done. Qed.

Lemma fill_block_grown f b diff : diff_of p b = Ok diff →
  fill_block root p f b = grown f (upd_of b) (omap struct_of [b]) (b_Id <$> omap (added_of p) [b]).
Proof.
  unfold upd_of, fill_block, diff_of, added_of, struct_of, chd. cbn [omap list_omap]. destruct (p !! b_Id b) as [o|] eqn:Eo.
  - intros Ed. rewrite Ed, fill_diff by (intros m; by eapply diff_is_set). cbn [fmap list_fmap]. f_equal.
    unfold block_Diff in Ed. destruct (content_Diff _ _ _) as [l|] eqn:El; [|done]. injection Ed as <-.
    rewrite omap_app, (content_diff_lists _ _ _ _ El), app_nil_r. unfold base_Diff. rewrite omap_app.
    rewrite (Hkeys _ _ Eo). repeat (case_bool_decide; cbn); done.
  - intros _. unfold fill_added, grown. cbn [fmap list_fmap]. assert (b_Id b ≠ root) as Hne by (intros E; rewrite <- E, Eo in Hroot; by destruct Hroot).
    rewrite (bool_decide_eq_false_2 _ Hne), !app_nil_r.
    repeat case_bool_decide; rewrite ?app_nil_r; done.
Qed.

Lemma fill_blocks bs : ∀ f, (∀ b, b ∈ bs → ∃ diff, diff_of p b = Ok diff) →
  foldl (fill_block root p) f bs = grown f (concat (upd_of <$> bs)) (omap struct_of bs) (b_Id <$> omap (added_of p) bs).
Proof.
  induction bs as [|b bs IH]; intros f Hd; [by rewrite grown_nil|]. destruct (Hd b ltac:(left)) as [diff Ed]. cbn [foldl].
  rewrite (fill_block_grown f b diff Ed), IH by (intros; apply Hd; by right). rewrite grown_grown. cbn [fmap list_fmap concat].
  rewrite (omap_cons_app struct_of b bs), (omap_cons_app (added_of p) b bs), fmap_app. done.
Qed.
End parts.

Lemma links_fill root new prev f :
  ∃ added removed, foldl (fill_msg root) f (links_change new prev).1 =
    {| fl_updMsgs := fl_updMsgs f; fl_delIds := fl_delIds f; fl_delRelIds := fl_delRelIds f ++ removed;
       fl_newRelLinks := fl_newRelLinks f ++ added; fl_structMsgs := fl_structMsgs f; fl_newIds := fl_newIds f; fl_changes := fl_changes f |}.
Proof.
  unfold links_change. destruct new as [new|]; [|exists [], []; rewrite !app_nil_r; by destruct f].
  destruct (rl_Diff _ _) as [added removed]. exists added, removed. cbn [fst]. unfold WrapEventMessages.
  case_bool_decide as E1; [subst removed|]; (destruct added as [|a added]; [cbn [length Nat.eqb]|]); cbn; rewrite ?app_nil_r; by destruct f.
Qed.

(** ** The log of a state over one parent *)

Section log.
Context (Local : list string) (Snippet : State → string).
Context `{Hord : !MapOrder, Hordok : !MapOrderOk, Hhandler : !DetailsHandler, Hcodec : !MsgCodec bytes, Hcodecok : !MsgCodecOk bytes}.
Context `{Hdiff : !Mb0Diff} (Hplain : ∀ b, dh_is b = false).

(** The parts [fillChanges] makes the log from. *)
Record log_parts (d : Doc) (p : Blocks) (t : State) (f : filled) (l : list Block) : Prop := {
  lp_walk : walk_of d l;
  lp_root : st_rootId t = st_rootId (dc_tree d);
  lp_blocks : st_blocks t = st_blocks (dc_tree d);
  lp_pending : st_changes t = st_changes (dc_tree d);
  lp_ignore : st_ignoreIds t = st_ignoreIds (dc_tree d);
  lp_lists : ∃ pc, st_parents t = [pc] ∧ same_lists p pc;
  lp_struct : fl_structMsgs f = omap (struct_of p) (affected_of d l);
  lp_new : fl_newIds f = b_Id <$> omap (added_of p) (affected_of d l);
  lp_upd : fl_updMsgs f = concat (upd_of p <$> affected_of d l);
  lp_changes : fl_changes f = st_changes (dc_tree d);
  lp_del id : id ∈ fl_delIds f ↔ is_Some (p !! id) ∧ ¬ reach (view (dc_tree d)) (st_rootId (dc_tree d)) id;
}.
Definition log_start (t : State) : filled :=
  {| fl_updMsgs := []; fl_delIds := []; fl_delRelIds := []; fl_newRelLinks := []; fl_structMsgs := []; fl_newIds := []; fl_changes := st_changes t |}.

Lemma apply_log d p pl : ready d p pl → is_Some (p !! st_rootId (dc_tree d)) →
  ∃ msgs act d' d2 evs l,
    apply_normalized Local Snippet (fillChanges Local) d = Some (Ok (msgs, act, d')) ∧
    st_changes (dc_tree d') = fillChanges Local d2 evs ∧
    log_parts d p (dc_tree d2) (foldl (fill_msg (st_rootId (dc_tree d2))) (log_start (dc_tree d2)) evs) l.
Proof.
  intros Hr Hroot. pose proof Hr as [Hparents Hbelow Hwf Hkeys _].
  destruct (apply_walk Local Hplain d Hwf) as (l & Hl & HI). unfold apply_normalized.
  set (d1 := match parent_tree (dc_tree d) with Some pt => _ | None => d end).
  assert (dc_tree d1 = dc_tree d ∧ dc_below d1 = dc_below d) as [Ht1 Hb1].
  { unfold d1. destruct (parent_tree (dc_tree d)); [|done]. case_bool_decide; [done|].
    destruct (SetLocalDetail_spec d RelationKeySnippet (String (Snippet (dc_tree d)))) as ((?&?&_)&_). done. }
  cbv zeta. rewrite Ht1, Hb1, Hbelow. set (ch := match ly_details (dc_top d1) with Some m => _ | None => false end).
  rewrite HI by (by right). cbn [wa_inUse wa_affected wa_doc wa_detailsChanged app]. rewrite (right_id_L ∅ (∪)).
  set (c0 := {| co_doc := d1; co_newBlocks := []; co_msgs := []; co_action := empty_action |}).
  pose proof (λ b, affected_spec (fillChanges Local) d p pl l b Hr Hl) as Haff.
  assert (NoDup (map b_Id (affected_of d l))) as Hnd by (apply NoDup_map_filter, Hl).
  assert (∀ b, b ∈ affected_of d l → st_blocks (dc_tree (co_doc c0)) !! b_Id b = Some b) as Htop by (intros b [Hb _]%Haff; simpl; by rewrite Ht1).
  assert (st_parents (dc_tree (co_doc c0)) = [p]) as Hp0 by (simpl; by rewrite Ht1).
  assert (∀ b, b ∈ affected_of d l → ∃ diff, diff_of p b = Ok diff) as Hd by (intros b [Hb Hre]%Haff; by eapply ready_diff).
  destruct (compare_blocks_spec Hplain ch p p (affected_of d l) c0) as (c & Ec & Hc); [done..|].
  rewrite Ec. destruct (ct_parents _ _ _ _ Hc p Hp0) as (pc & Hpc & _ & Dpc).
  destruct (compare_all_fill (st_rootId (dc_tree d)) p Hplain ch (affected_of d l) p c0 (log_start (dc_tree d)) c) as (Ef & Ech & Eig & pc' & Hpc' & Hsl); try done.
  rewrite Hpc in Hpc'. injection Hpc' as <-.
  pose proof (ct_blocks _ _ _ _ Hc) as Hblk. pose proof (ct_root _ _ _ _ Hc) as Hrt. pose proof (ct_below _ _ _ _ Hc) as Hblw.
  cbn [c0 co_doc] in Hblk, Hrt, Hblw, Ech, Eig. rewrite Ht1 in Hblk, Hrt, Ech, Eig. rewrite Hb1, Hbelow in Hblw.
  cbn [flushNewBlocks co_doc]. rewrite Hpc, Hblw. set (inUse := list_to_set (map b_Id l) : gset string).
  set (toRemove := filter (λ id, id ∉ inUse) (map_order pc)).
  destruct (links_change _ _) as [linkMsgs linkChange] eqn:Elinks.
  destruct (details_change false _ _) as [detMsgs detChange]. destruct (details_change true _ _) as [locMsgs locChange].
  eexists _, _, _, (co_doc c), _, l. split; [done|]. split; [done|].
  rewrite Hrt. unfold log_start at 1. rewrite Ech. fold (log_start (dc_tree d)).
  rewrite !foldl_app. rewrite sofar_flush, Ef. cbn [sofar c0 co_msgs co_newBlocks foldl].
  rewrite (fill_blocks (st_rootId (dc_tree d)) p Hkeys Hroot) by done.
  set (f1 := grown _ _ _ _).
  assert (foldl (fill_msg (st_rootId (dc_tree d))) f1 (if bool_decide (toRemove = []) then [] else [block_event (BDelete toRemove)]) =
    {| fl_updMsgs := fl_updMsgs f1; fl_delIds := toRemove; fl_delRelIds := []; fl_newRelLinks := []; fl_structMsgs := fl_structMsgs f1;
       fl_newIds := fl_newIds f1; fl_changes := fl_changes f1 |}) as ->.
  { case_bool_decide as E; [rewrite E|]; done. }
  destruct (links_fill (st_rootId (dc_tree d)) (ly_relationLinks (dc_top (co_doc c))) (ly_relationLinks pl)
    {| fl_updMsgs := fl_updMsgs f1; fl_delIds := toRemove; fl_delRelIds := []; fl_newRelLinks := []; fl_structMsgs := fl_structMsgs f1;
       fl_newIds := fl_newIds f1; fl_changes := fl_changes f1 |}) as (added & removed & Ek).
  rewrite Elinks in Ek. cbn [fst] in Ek. rewrite Ek. split; try done; [by exists pc|].
  cbn [fl_delIds]. intros id. unfold toRemove. rewrite list_elem_of_filter, map_order_elem, Dpc. unfold inUse. rewrite elem_of_list_to_set.
  pose proof (V_lookup d p Hparents id) as HV. rewrite list_elem_of_fmap. split; intros [H1 H2].
  - split; [done|]. intros Hre. apply H1. assert (is_Some (view (dc_tree d) !! id)) as [b Hb].
    { rewrite HV. destruct (st_blocks (dc_tree d) !! id); [by eexists|done]. }
    exists b. rewrite (wf_keys _ _ Hwf id b Hb). split; [done|]. apply Hl. by rewrite (wf_keys _ _ Hwf id b Hb).
  - split; [|done]. by intros (b & -> & [_ Hre]%Hl).
Qed.
End log.
