(* ===== verification/ChangeSync.v ===== *)
(** * Replicas converge

    What [apply] writes into the log, applied by a replica that holds the old blocks,
    gives the new blocks. *)

From S2P Require Import Prelude Slice SliceDiff GoFloat Values PbTypes Details StateTree StateDetails StateStore StateApply Changes ChangeRuns ChangeReplay ChangeStructure ChangeBlocks ChangeLog.

(** ** The hypothesis on the log

    [M] are the blocks moved or created by earlier changes, [V0] is the tree of the
    replica.  A block is not inserted before one that was moved, and a block is not
    moved together with one below it. *)
Fixpoint safe_log (V0 : Blocks) (M : list string) (chs : list Change) : Prop :=
  match chs with
  | [] => True
  | ChMove target pos ids :: chs =>
      (pos = PTop → target ∉ M ++ ids) ∧ (∀ x y, x ∈ ids → y ∈ ids → x ≠ y → ¬ reach V0 x y) ∧ safe_log V0 (M ++ ids) chs
  | ChCreate target pos bs :: chs => (pos = PTop → target ∉ M ++ (b_Id <$> bs)) ∧ safe_log V0 (M ++ (b_Id <$> bs)) chs
  | _ :: chs => safe_log V0 M chs
  end.

Lemma safe_runs V0 blk rs : ∀ M chs,
  (∀ r x, r ∈ rs → ru_new r = true → x ∈ ru_ids r → b_Id (blk x) = x) → safe_log V0 M ((change_of_run blk <$> rs) ++ chs) → runs_safe V0 M rs.
Proof.
  induction rs as [|r rs IH]; intros M chs Hid; [done|]. cbn [fmap list_fmap app]. unfold change_of_run at 1. destruct (ru_new r) eqn:En; cbn [safe_log runs_safe].
  - assert (b_Id <$> ((λ x, with_children (blk x) []) <$> ru_ids r) = ru_ids r) as Ei.
    { rewrite <- list_fmap_compose, <- (list_fmap_id (ru_ids r)) at 1. rewrite list_fmap_id. transitivity (id <$> ru_ids r); [|apply list_fmap_id].
      apply list_fmap_ext. intros i x Hi. cbn. apply (Hid r x); [left|done|by eapply list_elem_of_lookup_2]. }
    rewrite Ei. intros [Ht Hs]. split; [split; [done|by rewrite En]|]. eapply IH; [|done]. intros r' x Hr'. apply Hid. by right.
  - intros (Ht & Ha & Hs). split; [done|]. eapply IH; [|done]. intros r' x Hr'. apply Hid. by right.
Qed.

(** The blocks of a run are of its kind. *)
Lemma cuts_kind V0 newIds P dn ins rs r x : cuts V0 newIds P dn ins rs → r ∈ rs → x ∈ ru_ids r → is_new newIds x = ru_new r.
Proof. induction 1 as [dn|dn xs ins n rs Hne Hk Hc IH]; [by intros ?%elem_of_nil|]. intros [->|Hr]%elem_of_cons; [apply Hk|by apply IH]. Qed.
Lemma msg_runs_kind V0 newIds P segs r x : ∀ dn, r ∈ msg_runs newIds P (chd V0 P) dn segs → x ∈ ru_ids r → is_new newIds x = ru_new r.
Proof.
  induction segs as [|[y z|dl ins] segs IH]; intros dn; cbn [msg_runs]; [by intros ?%elem_of_nil|apply IH|].
  intros [Hr|Hr]%elem_of_app; [|by eapply IH]. intros Hx. eapply cuts_kind; [apply edit_cuts|exact Hr|done].
Qed.

(** ** Changes that leave the blocks alone *)

Definition neutral (ch : Change) : bool :=
  match ch with
  | ChDetailsSet _ _ | ChDetailsUnset _ | ChRelationAdd _ | ChRelationRemove _ | ChObjectTypeAdd _ _ | ChObjectTypeRemove _ _
  | ChOriginalCreatedTimestampSet _ | ChSetFileInfo _ | ChNotificationCreate _ | ChNotificationUpdate _ _ | ChDeviceAdd _ | ChDeviceUpdate _ _ => true
  | _ => false
  end.

Section neutral.
Context (LK : list string) (md5hex : string → string) `{!PbCompare, !LoUniqBy}.

Lemma SetLocalDetail_tree d k v : dc_tree (SetLocalDetail d k v) = dc_tree d.
Proof. unfold SetLocalDetail. by case_match. Qed.
Lemma SetDetail_tree d k v : dc_tree (SetDetail LK d k v) = dc_tree d.
Proof. unfold SetDetail. case_match; [apply SetLocalDetail_tree|by case_match]. Qed.
Lemma SetDetails_tree d v : dc_tree (SetDetails LK d v) = dc_tree d.
Proof.
  unfold SetDetails. case_match; [|done]. cbn [with_top dc_tree]. generalize (d_Iterate (d_CopyOnlyKeys v LK)) as l. intros l. revert d.
  induction l as [|[k x] l IH]; intros d; [done|]. cbn [foldl]. rewrite IH. apply SetLocalDetail_tree.
Qed.
Lemma RemoveRelation_tree d keys : dc_tree (RemoveRelation LK d keys) = dc_tree d.
Proof.
  unfold RemoveRelation. pose proof (getRelationLinks_spec d) as HR. destruct (getRelationLinks d) as [links d1]. destruct HR as (T1 & _).
  set (d2 := with_top d1 _). assert (dc_tree (RemoveDetail LK d2 keys).2 = dc_tree d) as HT.
  { unfold RemoveDetail. destruct (delete_keys _ _) as [ok det]. set (d3 := if ok then _ else _).
    assert (dc_tree d3 = dc_tree d) as H3 by (unfold d3; destruct ok; [by rewrite SetDetails_tree|done]).
    unfold RemoveLocalDetail. destruct (delete_keys _ _) as [okL detL]. destruct okL; done. }
  case_match; [by rewrite SetDetail_tree|done].
Qed.

Lemma neutral_tree d ch : neutral ch = true → ∃ d', applyChange LK md5hex d ch = Some (None, d') ∧ dc_tree d' = dc_tree d.
Proof.
  destruct ch as [| | | |k v|k|links|keys|u k|u k| | | |ts|info|n|i st|dv|i nm|]; try done; intros _; cbn [applyChange]; eexists; (split; [done|]).
  - unfold changeBlockDetailsSet. by case_match.
  - done.
  - unfold changeRelationAdd. pose proof (getRelationLinks_spec d) as HR. destruct (getRelationLinks d) as [rl d1]. by destruct HR as (? & _).
  - apply RemoveRelation_tree.
  - unfold changeObjectTypeAdd. by case_match.
  - done.
  - unfold changeOriginalCreatedTimestampSet. by case_match.
  - unfold setFileInfoFromModel. by repeat case_match.
  - done.
  - unfold updateNotification. by repeat case_match.
  - done.
  - unfold updateDevice. by repeat case_match.
Qed.
Lemma neutral_log chs : ∀ d, (∀ ch, ch ∈ chs → neutral ch = true) → ∃ d', ApplyChange LK md5hex d chs = Some (None, d') ∧ dc_tree d' = dc_tree d.
Proof.
  induction chs as [|ch chs IH]; intros d Hn; [by exists d|]. destruct (neutral_tree d ch) as (d1 & E1 & T1); [apply Hn; left|].
  destruct (IH d1) as (d2 & E2 & T2); [intros; apply Hn; by right|]. exists d2. cbn [ApplyChange]. rewrite E1, E2. split; [done|congruence].
Qed.
End neutral.

(** The part of the log that is about details and the rest of the document. *)
Lemma omap_neutral {A} (f : A → option Change) (l : list A) : (∀ x ch, f x = Some ch → neutral ch = true) → ∀ ch, ch ∈ omap f l → neutral ch = true.
Proof. intros Hf ch (x & _ & Hx)%list_elem_of_omap. by eapply Hf. Qed.
Lemma rest_neutral d ch :
  ch ∈ makeDetailsChanges d ++ makeObjectTypesChanges d ++ makeOriginalCreatedChanges d ++ diffFileInfo d ++ makeNotificationChanges d ++
    makeDeviceInfoChanges d → neutral ch = true.
Proof.
  rewrite !elem_of_app. intros [Hc|[Hc|[Hc|[Hc|[Hc|Hc]]]]]; revert Hc.
  - unfold makeDetailsChanges. case_match; [|by intros ?%elem_of_nil]. intros [Hc|Hc]%elem_of_app; revert Hc; apply omap_neutral; intros [k v] c; case_match; naive_solver.
  - unfold makeObjectTypesChanges. case_match; [|by intros ?%elem_of_nil]. intros [Hc|Hc]%elem_of_app; revert Hc; apply omap_neutral; intros k c; case_match; naive_solver.
  - unfold makeOriginalCreatedChanges. repeat case_match; intros Hc; try (by apply elem_of_nil in Hc); by apply list_elem_of_singleton in Hc as ->.
  - unfold diffFileInfo. repeat case_match; intros Hc; try (by apply elem_of_nil in Hc); by apply list_elem_of_singleton in Hc as ->.
  - unfold makeNotificationChanges. apply omap_neutral. intros [k v] c. repeat case_match; naive_solver.
  - unfold makeDeviceInfoChanges. apply omap_neutral. intros [k v] c. repeat case_match; naive_solver.
Qed.

(** ** The shape of the log *)

Definition unless_nil {A} (l : list A) (ch : list A → Change) : list Change := match l with [] => [] | _ => [ch l] end.

Section shape.
Context (LK : list string) `{!Mb0Diff, !Mb0DiffOk}.

Lemma Build_AddChange cb l : cb_Build (AddChange cb l) = cb_Build cb ++ l.
Proof.
  assert (cb_lastTargetId (cb_Flush cb) = "") as E by (unfold cb_Flush; case_bool_decide; done).
  unfold cb_Build at 1. unfold AddChange. unfold cb_Flush at 1. cbn [cb_lastTargetId]. by rewrite E, bool_decide_eq_true_2.
Qed.
Lemma Build_unless {A} cb (l : list A) ch :
  cb_Build (match l with [] => cb | x :: l' => AddChange cb [ch (x :: l')] end) = cb_Build cb ++ unless_nil l ch.
Proof. destruct l; [by rewrite app_nil_r|apply Build_AddChange]. Qed.

Lemma fillChanges_shape d evs :
  let t := dc_tree d in
  let f := foldl (fill_msg (st_rootId t)) (log_start t) evs in
  st_ignoreIds t = [] → st_changes t = fl_changes f → (∀ x, x ∈ fl_newIds f → is_Some (Pick t x)) → msgs_ok t (fl_structMsgs f) →
  ∃ rss rel extra, Forall2 (runs_of_msg t (fl_newIds f)) (fl_structMsgs f) rss ∧
    (∀ ch, ch ∈ rel ++ extra → neutral ch = true) ∧
    fillChanges LK d evs = st_changes t ++ (change_of_run (picked t) <$> concat rss) ++ unless_nil (fl_delIds f) ChRemove ++ rel ++
      unless_nil (fl_updMsgs f) ChUpdate ++ extra.
Proof.
  intros t f Hig Hch Hnew Hok. destruct (fill_runs t (fl_newIds f) Hnew (st_changes t) (fl_structMsgs f) Hig Hok
    (new_changeBuilder (st_changes t)) []) as (rss & Hf & Hh); [apply cb_holds_new|by intros|].
  set (links := filterLocalAndDerivedRelations LK (fl_newRelLinks f)). set (keys := filterLocalAndDerivedRelationsByKey LK (fl_delRelIds f)).
  exists rss, (unless_nil links ChRelationAdd ++ unless_nil keys ChRelationRemove),
    (makeDetailsChanges d ++ makeObjectTypesChanges d ++ makeOriginalCreatedChanges d ++ diffFileInfo d ++ makeNotificationChanges d ++ makeDeviceInfoChanges d).
  split_and!; [done| |].
  - intros ch [[Hc|Hc]%elem_of_app|Hc]%elem_of_app; [| |by eapply rest_neutral].
    + destruct links; cbn in Hc; [by apply elem_of_nil in Hc|by apply list_elem_of_singleton in Hc as ->].
    + destruct keys; cbn in Hc; [by apply elem_of_nil in Hc|by apply list_elem_of_singleton in Hc as ->].
  - unfold fillChanges. fold t. fold (log_start t). fold f. fold links. fold keys. cbv zeta. rewrite <- Hch.
    rewrite !app_assoc. f_equal. rewrite <- !app_assoc. rewrite !Build_unless. rewrite (cb_holds_Build _ _ _ _ Hh). by rewrite <- !app_assoc.
Qed.
End shape.

(** ** The messages of a state *)

Section messages.
Context (d : Doc) (p : Blocks) (pl : Layer) (Hr : ready d p pl).
Abbreviation V := (view (dc_tree d)).
Abbreviation root := (st_rootId (dc_tree d)).
Context (T0 : tree p root) (Hwhole : ∀ q, reach V root q → is_Some (V !! q)) (Hnamed : V !! "" = None).
Context (V1 : Blocks) (HV1 : ∀ id b, V1 !! id = Some b ↔ V !! id = Some b ∧ reach V root id).

Lemma V1_some q : is_Some (V1 !! q) ↔ reach V root q.
Proof.
  split; [intros [b [_ ?]%HV1]; done|]. intros Hq. destruct (Hwhole q Hq) as [b Hb]. exists b. by apply HV1.
Qed.
Lemma V1_reach x q : reach V1 x q → reach V x q.
Proof. apply reach_mono. intros q' b [Hb _]%HV1. by exists b. Qed.
Lemma V1_tree : tree V1 root.
Proof.
  pose proof (restrict_clean V V1 root (re_wf _ _ _ Hr) HV1) as [Hw Hre]. split; [done|apply V1_some; constructor|exact Hre| |].
  - intros q x (b & [Hb Hq]%HV1 & Hx)%chd_In. apply V1_some. by eapply reach_child.
  - destruct (V1 !! "") as [b|] eqn:E; [|done]. apply HV1 in E as [E _]. congruence.
Qed.

Context (l : list Block) (Hl : walk_of d l).
Abbreviation aff := (affected_of d l).
Abbreviation sm := (omap (struct_of p) aff).

Lemma aff_V1 b : b ∈ aff → V1 !! b_Id b = Some b.
Proof.
  intros [Ht Hre]%(affected_spec (λ _ _, []) d p pl l b Hr Hl). apply HV1. split; [|done]. by rewrite (V_lookup d p (re_parents _ _ _ Hr)), Ht.
Qed.
(** A block that is not compared is the old one. *)
Lemma old_or_aff q b : V1 !! q = Some b → b ∈ aff ∨ p !! q = Some b.
Proof.
  intros [Hb Hre]%HV1. pose proof (wf_keys _ _ (re_wf _ _ _ Hr) q b Hb) as E. rewrite (V_lookup d p (re_parents _ _ _ Hr)) in Hb.
  destruct (st_blocks (dc_tree d) !! q) as [b'|] eqn:Et; [|by right]. left. injection Hb as ->.
  apply (affected_spec (λ _ _, []) d p pl l b Hr Hl). by rewrite E.
Qed.
Lemma sm_elem P a : (P, a) ∈ sm ↔ ∃ b, b ∈ aff ∧ P = b_Id b ∧ a = b_ChildrenIds b ∧ a ≠ chd p P.
Proof.
  rewrite list_elem_of_omap. unfold struct_of. split.
  - intros (b & Hb & E). case_bool_decide; [done|]. injection E as <- <-. by exists b.
  - intros (b & Hb & -> & -> & Hne). exists b. split; [done|]. by rewrite bool_decide_eq_false_2.
Qed.
Lemma sm_sublist : sm.*1 `sublist_of` map b_Id aff.
Proof.
  induction aff as [|b bs IH]; [constructor|]. rewrite omap_cons_app, fmap_app. cbn [omap list_omap map]. unfold struct_of at 1.
  case_bool_decide; cbn; by constructor.
Qed.
Lemma sm_sorted : StronglySorted (λ x y, ¬ reach V y.1 x.1) sm.
Proof.
  destruct Hl as [[_ Hs] _]. unfold affected_of. clear Hl. induction Hs as [|b bs Hs IH Hb]; [constructor|].
  rewrite filter_cons. case_decide; [|done]. rewrite omap_cons_app. cbn [omap list_omap]. unfold struct_of at 1. case_bool_decide; [exact IH|].
  cbn [app]. constructor; [exact IH|]. apply List.Forall_forall. intros [Q a] Hin%list_elem_of_In.
  apply list_elem_of_omap in Hin as (b' & [_ Hb']%list_elem_of_filter & E). unfold struct_of in E. case_bool_decide; [done|]. injection E as <- <-.
  rewrite List.Forall_forall in Hb. cbn [fst]. apply (Hb b'). by apply list_elem_of_In.
Qed.

Lemma sm_walk : msgs_walk p V1 sm.
Proof.
  split.
  - assert (NoDup (map b_Id aff)) as Hn by (apply NoDup_map_filter, Hl). eapply sublist_NoDup; [exact Hn|apply sm_sublist].
  - intros P a (b & Hb & -> & -> & _)%sm_elem. pose proof (aff_V1 b Hb) as E. split; [by eexists|]. unfold chd. by rewrite E.
  - intros P [b Hb] HP. unfold chd. rewrite Hb. destruct (old_or_aff P b Hb) as [Ha|Ho]; [|by rewrite Ho].
    pose proof (wf_keys _ _ (tr_wf _ _ V1_tree) P b Hb) as E. destruct (decide (b_ChildrenIds b = chd p P)) as [Ec|Ec]; [done|].
    destruct HP. apply list_elem_of_fmap. exists (P, b_ChildrenIds b). split; [done|]. apply sm_elem. by exists b.
  - intros l1 P a l2 Q E ([Q' a'] & -> & HQ)%list_elem_of_fmap Hre%V1_reach. cbn [fst] in Hre.
    pose proof sm_sorted as Hs. rewrite E in Hs. apply StronglySorted_app_1_r in Hs. apply StronglySorted_cons in Hs as [Hs _].
    rewrite Forall_forall in Hs. by apply (Hs (Q', a')).
Qed.

Lemma new_ids x : x ∈ b_Id <$> omap (added_of p) aff ↔ is_Some (V1 !! x) ∧ p !! x = None.
Proof.
  rewrite list_elem_of_fmap. setoid_rewrite list_elem_of_omap. unfold added_of. split.
  - intros (b & -> & b' & Hb' & E). destruct (p !! b_Id b') eqn:Ep; [done|]. injection E as ->. split; [eexists; by apply aff_V1|done].
  - intros [[b Hb] Hp]. pose proof (wf_keys _ _ (tr_wf _ _ V1_tree) x b Hb) as E. destruct (old_or_aff x b Hb) as [Ha|Ho]; [|congruence].
    exists b. split; [done|]. exists b. split; [done|]. by rewrite E, Hp.
Qed.

(** *** Places *)

Context (t : State) (Hpc : ∃ pc, st_parents t = [pc] ∧ same_lists p pc).

Lemma before_chd P : before_of t P = chd p P.
Proof.
  destruct Hpc as (pc & Hp & Hs). unfold before_of, PickOrigin. rewrite Hp. cbn [pick_layers]. rewrite <- Hs. unfold chd. by destruct (pc !! P).
Qed.
Lemma sm_ok : msgs_ok t sm.
Proof.
  pose proof V1_tree as T1. assert (∀ q, "" ∉ chd V1 q) as Hn1.
  { intros q Hin. destruct (tr_closed _ _ T1 q "" Hin) as [? E]. by rewrite (tr_named _ _ T1) in E. }
  assert (∀ q, "" ∉ chd p q) as Hn0.
  { intros q Hin. destruct (tr_closed _ _ T0 q "" Hin) as [? E]. by rewrite (tr_named _ _ T0) in E. }
  split.
  - apply sm_walk.
  - intros ([P a] & E & HP)%list_elem_of_fmap. cbn [fst] in E. subst P. apply sm_walk in HP as [[? E] _]. by rewrite (tr_named _ _ T1) in E.
  - intros P a [_ ->]%sm_walk. rewrite before_chd. split_and!; [by apply (chd_NoDup V1 root T1)|done|done].
  - intros P a P' a' dn dn' [_ ->]%sm_walk [_ ->]%sm_walk Hne Hd Hd'. rewrite !before_chd. unfold place_of.
    assert (∀ q x e, last e = Some x → e `prefix_of` chd V1 q → x ∈ chd V1 q) as Hin.
    { intros q x e El [e' ->]. apply elem_of_app. left. by apply last_Some_elem_of. }
    destruct (last dn) as [x|] eqn:El, (last dn') as [x'|] eqn:El'.
    + intros [= ->]. apply Hne, (chd_uniq V1 root T1 P P' x'); [by apply (Hin P x' dn)|by apply (Hin P' x' dn')].
    + by destruct (chd p P').
    + by destruct (chd p P).
    + destruct (chd p P) as [|a0 r] eqn:E0, (chd p P') as [|a0' r'] eqn:E0'; try done; intros [= E]; [done|].
      apply Hne, (chd_uniq p root T0 P P' a0); [rewrite E0; left|rewrite E0', E; left].
Qed.
Lemma sm_makes newIds rss : Forall2 (runs_of_msg t newIds) sm rss → Forall2 (msg_makes p newIds) sm rss.
Proof.
  intros HF. eapply Forall2_impl; [exact HF|]. intros [P a] rs (segs & Ea & Eb & Hok & Ers). cbn [fst snd] in *. rewrite before_chd in *. by exists segs.
Qed.

(** *** Updates *)

Lemma upd_elem ev : ev ∈ concat (upd_of p <$> aff) ↔ ∃ b diff, b ∈ aff ∧ diff_of p b = Ok diff ∧ ev ∈ diff ∧ is_upd_msg ev = true.
Proof.
  rewrite list_elem_of_In, in_concat. setoid_rewrite <- list_elem_of_In. split.
  - intros (x & (b & -> & Hb)%list_elem_of_fmap & Hx). unfold upd_of in Hx. destruct (diff_of p b) as [diff|] eqn:Ed; [|by apply elem_of_nil in Hx].
    apply list_elem_of_In, filter_In in Hx as [Hx%list_elem_of_In Hu]. by exists b, diff.
  - intros (b & diff & Hb & Ed & Hin & Hu). exists (upd_of p b). split; [by apply list_elem_of_fmap_2|]. unfold upd_of. rewrite Ed.
    apply list_elem_of_In, filter_In. by rewrite <- list_elem_of_In.
Qed.
Lemma sm_updates : update_events p V1 (concat (upd_of p <$> aff)).
Proof.
  split.
  - intros ev (b & diff & Hb & Ed & Hin & Hu)%upd_elem. unfold diff_of in Ed. destruct (p !! b_Id b) as [o|] eqn:Eo; [|injection Ed as <-; by apply elem_of_nil in Hin].
    exists (b_Id b), o, b. split_and!; [done|by apply aff_V1|]. unfold block_Diff in Ed. destruct (content_Diff _ _ _) as [cd|] eqn:Ec; [|done].
    injection Ed as <-. rewrite (re_keys _ _ _ Hr _ _ Eo) in Ec. apply elem_of_app in Hin as [Hin|Hin].
    + unfold base_Diff in Hin. rewrite (re_keys _ _ _ Hr _ _ Eo) in Hin.
      apply elem_of_app in Hin as [->%elem_of_unless|[Hin%elem_of_unless|Hin%elem_of_unless]%elem_of_app]; [done|by left|right; by left].
    + right. right. unfold content_Diff in Ec. destruct (b_Content o), (b_Content b); simplify_eq/=; try (by apply elem_of_nil in Hin);
        repeat (case_bool_decide; simplify_eq/=); try (by apply elem_of_nil in Hin); apply list_elem_of_singleton in Hin as ->; done.
  - intros id o b Ho Hb. destruct (old_or_aff id b Hb) as [Ha|Hp]; [|assert (o = b) as -> by congruence; split_and!; by left].
    pose proof (wf_keys _ _ (tr_wf _ _ V1_tree) id b Hb) as Eid. subst id.
    apply (affected_spec (λ _ _, []) d p pl l b Hr Hl) in Ha as Ha'. destruct Ha' as [Ht Hre].
    pose proof (re_kind _ _ _ Hr _ _ _ Hre Ho Ht) as Hk. destruct (same_kind_diff o b Hk) as [diff Ed].
    assert (diff_of p b = Ok diff) as Ed' by (unfold diff_of; by rewrite Ho).
    destruct (block_Diff_carries o b diff Hk Ed (re_keys _ _ _ Hr _ _ Ho)) as (_ & Hf & Hg & Hc & _).
    split_and!; [destruct Hf as [?|Hf]|destruct Hg as [?|Hg]|destruct Hc as [?|Hc]]; try (by left); right; apply upd_elem; exists b, diff; done.
Qed.
End messages.

(** ** The theorem *)

(** A state [d] over the blocks [p] that is ready to be applied. *)
Record appliable (d : Doc) (p : Blocks) (pl : Layer) : Prop := {
  ap_ready : ready d p pl;
  ap_old : tree p (st_rootId (dc_tree d));
  ap_whole q : reach (view (dc_tree d)) (st_rootId (dc_tree d)) q → is_Some (view (dc_tree d) !! q);
  ap_named : view (dc_tree d) !! "" = None;
  ap_fresh : st_changes (dc_tree d) = [] ∧ st_ignoreIds (dc_tree d) = [];
}.

(** A replica [r] that has the blocks [p]. *)
Definition replica_of (r : Doc) (root : string) (p : Blocks) : Prop :=
  st_rootId (dc_tree r) = root ∧ view (dc_tree r) = p ∧ parents_keyed (dc_tree r).

(** The blocks a document shows. *)
Definition shows (r : Doc) (root : string) (m : Blocks) : Prop :=
  ∀ id b, (view (dc_tree r) !! id = Some b ∧ reach (view (dc_tree r)) root id) ↔ m !! id = Some b.

(** A document of one layer that has the blocks [m] and no others. *)
Definition holds (r : Doc) (root : string) (m : Blocks) : Prop :=
  st_rootId (dc_tree r) = root ∧ st_parents (dc_tree r) = [] ∧ view (dc_tree r) = m.

Lemma shows_holds r root m : shows r root m → st_rootId (dc_tree r) = root → st_parents (dc_tree r) = [] →
  (∀ q, is_Some (view (dc_tree r) !! q) → is_Some (m !! q)) → holds r root m.
Proof.
  intros Hs Hr Hp Hd. split_and!; [done..|]. apply map_eq. intros q. destruct (m !! q) as [b|] eqn:Eb; [by apply Hs in Eb as [? _]|].
  apply eq_None_not_Some. intros Hq%Hd. rewrite Eb in Hq. by destruct Hq.
Qed.

Section theorems.
Context (Local : list string) (Snippet : State → string) (md5hex : string → string).
Context `{Hord : !MapOrder, Hordok : !MapOrderOk, Hhandler : !DetailsHandler, Hcodec : !MsgCodec bytes, Hcodecok : !MsgCodecOk bytes}.
Context `{Hdiff : !Mb0Diff, Hdiffok : !Mb0DiffOk, !PbCompare, !LoUniqBy} (Hplain : ∀ b, dh_is b = false).

Lemma ApplyChange_IgnoreErr chs : ∀ d d', ApplyChange Local md5hex d chs = Some (None, d') → ApplyChangeIgnoreErr Local md5hex d chs = Some d'.
Proof.
  induction chs as [|ch chs IH]; intros d d'; cbn [ApplyChange ApplyChangeIgnoreErr]; [by intros [= ->]|].
  destruct (applyChange Local md5hex d ch) as [[[e|] d1]|]; [done|apply IH|done].
Qed.

(** The removals and updates after the structure. *)
Lemma replay_rest V0 V1 root d ids rel evs extra :
  tree V0 root → tree V1 root → st_rootId (dc_tree d) = root → parents_keyed (dc_tree d) → structured V0 V1 root (view (dc_tree d)) →
  (∀ id, id ∈ ids ↔ is_Some (V0 !! id) ∧ V1 !! id = None) → update_events V0 V1 evs → (∀ ch, ch ∈ rel ++ extra → neutral ch = true) →
  ∃ r', ApplyChange Local md5hex d (unless_nil ids ChRemove ++ rel ++ unless_nil evs ChUpdate ++ extra) = Some (None, r') ∧ shows r' root V1 ∧
    (st_parents (dc_tree d) = [] → holds r' root V1).
Proof.
  intros T0 T1 Hroot Hk Hs Hids Hev Hneu.
  destruct (remove_all V0 V1 root T1 ids (dc_tree d) [] Hroot Hk) as (R1 & K1 & X & P1 & HX); [by apply structured_pruned|intros c [_ ?]%Hids; done|].
  set (s1 := changeBlockRemove (dc_tree d) ids) in *.
  assert (ApplyChange Local md5hex d (unless_nil ids ChRemove) = Some (None, with_tree d s1)) as E1.
  { unfold s1. destruct ids; cbn; [by destruct d|done]. }
  assert (∀ x, is_Some (V0 !! x) → V1 !! x = None → x ∈ X) as HX'.
  { intros x Hx0 Hx1. apply HX. cbn [app]. by apply Hids. }
  destruct (neutral_log Local md5hex rel (with_tree d s1)) as (d2 & E2 & T2); [intros; apply Hneu, elem_of_app; by left|].
  destruct (changeBlockUpdate_spec evs s1) as (s3 & E3 & V3 & B3); [intros ev; by eapply updates_fit|].
  assert (ApplyChange Local md5hex d2 (unless_nil evs ChUpdate) = Some (None, with_tree d2 s3)) as E3'.
  { destruct evs as [|ev evs]; cbn [unless_nil ApplyChange].
    - cbn in E3. injection E3 as <-. do 2 f_equal. cbn [with_tree dc_tree] in T2. rewrite <- T2. by destruct d2.
    - cbn [applyChange]. rewrite T2. cbn [with_tree dc_tree]. rewrite E3. done. }
  destruct (neutral_log Local md5hex extra (with_tree d2 s3)) as (d4 & E4 & T4); [intros; apply Hneu, elem_of_app; by right|].
  assert (shows d4 root V1) as Hshow.
  { intros id b. rewrite T4. cbn [with_tree dc_tree]. rewrite V3. apply (updated_tree V0 V1 root T1 (view s1) X P1 HX' evs Hev).
    intros q o b' Ho Hb'. rewrite (wf_keys _ _ (tr_wf _ _ T0) q o Ho). by rewrite (wf_keys _ _ (tr_wf _ _ T1) q b' Hb'). }
  exists d4. split_and!; [|done|].
  - rewrite (ApplyChange_app _ _ _ _ _ _ E1), (ApplyChange_app _ _ _ _ _ _ E2), (ApplyChange_app _ _ _ _ _ _ E3'). exact E4.
  - intros Hp. destruct (remove_dom ids (dc_tree d) Hp) as [Hp1 Hd1]. apply shows_holds; [done|..]; rewrite T4; cbn [with_tree dc_tree].
    + by rewrite (proj1 B3).
    + by rewrite (proj2 B3).
    + intros q Hq. rewrite V3 in Hq. apply replay_dom in Hq; [|intros ev Hin; eapply fits_in_upd, updates_fit; done].
      apply Hd1 in Hq as [Hq Hnot]. apply base_is_Some in Hq. rewrite (sd_base _ _ _ _ Hs) in Hq.
      destruct (decide (is_Some (V0 !! q))) as [Ho|Ho]; [|by apply base_is_Some in Hq]. apply dec_stable. intros Hn%eq_None_not_Some. by apply Hnot, Hids.
Qed.

(** One state: what [apply] records gives a replica the blocks of the parent. *)
Lemma log_step d p pl : appliable d p pl →
  ∃ msgs act d', apply_normalized Local Snippet (fillChanges Local) d = Some (Ok (msgs, act, d')) ∧
    tree (st_blocks (dc_tree d')) (st_rootId (dc_tree d)) ∧
    (safe_log p [] (st_changes (dc_tree d')) → ∀ r, replica_of r (st_rootId (dc_tree d)) p →
     ∃ r', ApplyChange Local md5hex r (st_changes (dc_tree d')) = Some (None, r') ∧
       shows r' (st_rootId (dc_tree d)) (st_blocks (dc_tree d')) ∧
       (st_parents (dc_tree r) = [] → holds r' (st_rootId (dc_tree d)) (st_blocks (dc_tree d')))).
Proof.
  intros [Hr T0 Hwhole Hnamed [Hch Hig]]. destruct (apply_log Local Snippet Hplain d p pl Hr (tr_root _ _ T0))
    as (msgs & act & d' & d2 & evs & l & E & Elog & [Hl Lroot Lblk Lpend Lig Lpc Lsm Lnew Lupd Lch Ldel]).
  destruct (apply_effect Local Snippet (fillChanges Local) Hplain d p pl Hr) as (msgs2 & act2 & d'2 & E' & Heff).
  rewrite E in E'. injection E' as <- <- <-. exists msgs, act, d'. split; [done|].
  pose proof (ef_blocks _ _ _ _ Heff) as HV1. set (V1 := st_blocks (dc_tree d')) in *. pose proof (V1_tree d p pl Hr Hwhole Hnamed V1 HV1) as T1.
  split; [done|]. intros Hsafe r (Rr & Vr & Kr).
  set (t := dc_tree d2) in *. set (f := foldl (fill_msg (st_rootId t)) (log_start t) evs) in *.
  assert (∀ x, x ∈ fl_newIds f → V1 !! x = Some (picked t x)) as Hblk.
  { intros x Hx. rewrite Lnew in Hx. apply (new_ids d p pl Hr Hwhole Hnamed V1 HV1 l Hl) in Hx as [[b Hb] Hp]. rewrite Hb. f_equal.
    apply HV1 in Hb as [Hb _]. rewrite (V_lookup d p (re_parents _ _ _ Hr)), Hp in Hb. unfold picked, Pick. cbn [pick_layers]. rewrite Lblk.
    destruct (st_blocks (dc_tree d) !! x); [|done]. simpl. congruence. }
  assert (∀ x, x ∈ fl_newIds f → is_Some (Pick t x)) as Hpick.
  { intros x Hx. rewrite Lnew in Hx. apply (new_ids d p pl Hr Hwhole Hnamed V1 HV1 l Hl) in Hx as [[b Hb] Hp].
    apply HV1 in Hb as [Hb _]. rewrite (V_lookup d p (re_parents _ _ _ Hr)), Hp in Hb. unfold Pick. cbn [pick_layers]. rewrite Lblk.
    destruct (st_blocks (dc_tree d) !! x); [by eexists|done]. }
  pose proof (sm_walk d p pl Hr Hwhole Hnamed V1 HV1 l Hl) as Hsm.
  destruct (fillChanges_shape Local d2 evs) as (rss & rel & extra & Hrss & Hneu & Eshape); fold t; fold f.
  - by rewrite Lig.
  - by rewrite Lch, Lpend.
  - done.
  - rewrite Lsm. by eapply sm_ok.
  - fold t in Hrss, Hneu, Eshape. fold f in Hrss, Hneu, Eshape. rewrite Lpend, Hch in Eshape. cbn [app] in Eshape. rewrite <- Elog in Eshape.
    assert (Forall2 (msg_makes p (fl_newIds f)) (fl_structMsgs f) rss) as Hmakes by (rewrite Lsm in *; by eapply sm_makes).
    assert (∀ ru x, ru ∈ concat rss → ru_new ru = true → x ∈ ru_ids ru → x ∈ fl_newIds f) as Hkind.
    { intros ru x Hru Hn Hx. apply list_elem_of_In, in_concat in Hru as (rs & Hrs%list_elem_of_In & Hru%list_elem_of_In).
      apply list_elem_of_lookup in Hrs as [i Hi]. destruct (Forall2_lookup_r _ _ _ _ _ Hmakes Hi) as ([P a] & _ & segs & _ & _ & _ & ->).
      pose proof (msg_runs_kind _ _ _ _ _ _ _ Hru Hx) as Hk. rewrite Hn in Hk. by apply bool_decide_eq_true in Hk. }
    rewrite Eshape in Hsafe. apply safe_runs in Hsafe; [|intros ru x Hru Hn Hx; apply (wf_keys _ _ (tr_wf _ _ T1) x), Hblk; by eapply Hkind].
    assert (∀ x, x ∈ fl_newIds f ↔ is_Some (V1 !! x) ∧ p !! x = None) as Hnew by (intros x; rewrite Lnew; by eapply new_ids).
    rewrite <- Lsm in Hsm.
    destruct (exec_structure p V1 (st_rootId (dc_tree d)) T0 T1 (fl_newIds f) Hnew (picked t) Hblk (fl_structMsgs f) Hsm Local md5hex rss r)
      as (s1 & E1 & B1 & Hs1); [done..|].
    destruct (replay_rest p V1 (st_rootId (dc_tree d)) (with_tree r s1) (fl_delIds f) rel (fl_updMsgs f) extra) as (r' & E2 & Hshow & Hhold); try done.
    + cbn [with_tree dc_tree]. by rewrite (proj1 B1).
    + cbn [with_tree dc_tree]. unfold parents_keyed. by rewrite (proj2 B1).
    + intros id. rewrite Ldel, <- (V1_some d Hwhole V1 HV1 id), eq_None_not_Some. done.
    + rewrite Lupd. by eapply sm_updates.
    + exists r'. split_and!; [by rewrite Eshape, (ApplyChange_app _ _ _ _ _ _ E1)|done|]. intros Hp. apply Hhold. cbn [with_tree dc_tree]. by rewrite (proj2 B1).
Qed.


(** ** Sessions

    A document that starts with the blocks [p], to which states are applied one after
    the other; [log] is what they record and [p'] are the blocks at the end. *)
Inductive session (root : string) : Blocks → list Change → Blocks → Prop :=
  | session_end p : session root p [] p
  | session_apply p d pl msgs act d' log p' :
      appliable d p pl → st_rootId (dc_tree d) = root →
      apply_normalized Local Snippet (fillChanges Local) d = Some (Ok (msgs, act, d')) →
      safe_log p [] (st_changes (dc_tree d')) →
      session root (st_blocks (dc_tree d')) log p' →
      session root p (st_changes (dc_tree d') ++ log) p'.

End theorems.
