(* ===== verification/ChangeTypes.v ===== *)
(** * Every block is stored under its own id

    The layers of a state are maps from ids to blocks.  That a block's own id is its
    key is relied upon wherever a block that was found is written back or named in an
    event; applying changes, whatever they are, keeps it. *)

From S2P Require Import Prelude Slice SliceDiff GoFloat Values PbTypes Details StateTree StateDetails StateStore StateApply Changes ChangeRuns ChangeReplay ChangeStructure ChangeBlocks ChangeLog ChangeSync.

Definition keyed (s : State) : Prop := ∀ l id b, l ∈ st_blocks s :: st_parents s → l !! id = Some b → b_Id b = id.

(** A step of the program: the keys, the root and the number of layers are kept. *)
Definition keeps (s s' : State) : Prop :=
  (keyed s → keyed s') ∧ st_rootId s' = st_rootId s ∧ length (st_parents s') = length (st_parents s).

#[export] Instance keeps_preorder : PreOrder keeps.
Proof.
  split; [intros s; by split_and!|]. intros s1 s2 s3 (K1 & R1 & L1) (K2 & R2 & L2). split_and!; [auto|congruence|congruence].
Qed.
Lemma keeps_with_blocks s id b : (keyed s → b_Id b = id) → keeps s (with_blocks s (<[id:=b]> (st_blocks s))).
Proof.
  intros Hb. split_and!; [|done|done]. intros Hk l id' b' [->|Hl]%elem_of_cons Hb'; [|by apply (Hk l); [right|]].
  cbn [with_blocks st_blocks] in Hb'. apply lookup_insert_Some in Hb' as [[<- <-]|[_ Hb']]; [by apply Hb|]. by apply (Hk (st_blocks s)); [left|].
Qed.
Lemma keyed_Pick s id b : keyed s → Pick s id = Some b → b_Id b = id.
Proof.
  intros Hk. unfold Pick. assert (∀ layers, (∀ l, l ∈ layers → l ∈ st_blocks s :: st_parents s) → pick_layers layers id = Some b → b_Id b = id) as HP.
  { induction layers as [|l layers IH]; intros Hin; [done|]. cbn [pick_layers]. destruct (l !! id) as [b'|] eqn:E.
    - intros [= <-]. apply (Hk l); [apply Hin; left|done].
    - apply IH. intros l' Hl'. apply Hin. by right. }
  by apply HP.
Qed.
Lemma keyed_top s id b : keyed s → st_blocks s !! id = Some b → b_Id b = id.
Proof. intros Hk. apply (Hk (st_blocks s)). left. Qed.

(** ** The operations on blocks *)

Lemma keeps_Get s id : keeps s (Get s id).2.
Proof.
  unfold Get. destruct (st_blocks s !! id); [done|]. destruct (st_parents s) eqn:Ep; [done|].
  destruct (Pick s id) as [b|] eqn:Eb; [|done]. apply keeps_with_blocks. intros Hk. by eapply keyed_Pick.
Qed.
Lemma keeps_setChildrenIds s id ids : keeps s (setChildrenIds s id ids).
Proof. unfold setChildrenIds. destruct (st_blocks s !! id) as [b|] eqn:E; [|done]. apply keeps_with_blocks. intros Hk. exact (keyed_top s id b Hk E). Qed.
Lemma keeps_Add s b : keeps s (Add s b).2.
Proof. unfold Add. destruct (Pick s (b_Id b)); [done|]. by apply keeps_with_blocks. Qed.
Lemma keeps_Set s b : keeps s (Set_ s b).
Proof. unfold Set_. case_match; [by apply keeps_with_blocks|apply keeps_Add]. Qed.
Lemma keeps_with_changes s l : keeps s (with_changes s l).
Proof. by split_and!. Qed.
Lemma keeps_ignore_ids s l : keeps s (ignore_ids s l).
Proof. by split_and!. Qed.
Lemma cleanup_layers_sub layers id : length (cleanup_layers layers id).2 = length layers ∧
  ∀ l i b, l ∈ (cleanup_layers layers id).2 → l !! i = Some b → ∃ l', l' ∈ layers ∧ l' !! i = Some b.
Proof.
  induction layers as [|m layers [IHl IH]]; [split; [done|by intros l i b ?%elem_of_nil]|]. cbn [cleanup_layers].
  destruct (m !! id) as [b0|] eqn:E.
  - split; [done|]. cbn [snd]. intros l i b [->|Hl]%elem_of_cons Hb; [|exists l; split; [by right|done]].
    apply lookup_delete_Some in Hb as [_ Hb]. exists m. split; [left|done].
  - destruct (cleanup_layers layers id) as [ok ls]. cbn [snd] in *. split; [cbn; congruence|].
    intros l i b [->|Hl]%elem_of_cons Hb; [exists m; split; [left|done]|]. destruct (IH l i b Hl Hb) as (l' & ? & ?). exists l'. split; [by right|done].
Qed.
Lemma keeps_CleanupBlock s id : keeps s (CleanupBlock s id).2.
Proof.
  unfold CleanupBlock. destruct (cleanup_layers_sub (st_blocks s :: st_parents s) id) as [Hl Hsub].
  destruct (cleanup_layers _ id) as [ok [|bs ps]]; [done|]. cbn [snd] in *. split_and!; [|done|by injection Hl].
  intros Hk l i b Hin Hb. destruct (Hsub l i b Hin Hb) as (l' & Hl' & Hb'). by apply (Hk l').
Qed.

Create HintDb keeps.
#[export] Hint Resolve keeps_Get keeps_setChildrenIds keeps_Add keeps_Set keeps_with_changes keeps_ignore_ids keeps_CleanupBlock : keeps.
#[export] Hint Extern 1 (keeps _ _) => reflexivity : keeps.
(** Follow one more step of the program. *)
Ltac keeps_then H := etransitivity; [|apply H].

Lemma keeps_Get_eq s id r s' : Get s id = (r, s') → keeps s s'.
Proof. intros E. pose proof (keeps_Get s id) as H. by rewrite E in H. Qed.
Lemma keeps_Add_eq s b r s' : Add s b = (r, s') → keeps s s'.
Proof. intros E. pose proof (keeps_Add s b) as H. by rewrite E in H. Qed.
Lemma keeps_GetParentOf s id : keeps s (GetParentOf s id).2.
Proof. unfold GetParentOf. case_match; auto with keeps. Qed.
Lemma keeps_Unlink s id : keeps s (Unlink s id).2.
Proof.
  unfold Unlink. pose proof (keeps_GetParentOf s id) as H. destruct (GetParentOf s id) as [[p|] s1]; [|done].
  etransitivity; [exact H|]. apply keeps_setChildrenIds.
Qed.
#[export] Hint Resolve keeps_GetParentOf keeps_Unlink : keeps.

Lemma keeps_insertChildrenIds s id pos ids s' : insertChildrenIds s id pos ids = Some s' → keeps s s'.
Proof. unfold insertChildrenIds. destruct (st_blocks s !! id); [destruct (Insert _ _ _)|]; intros E; simplify_eq; auto with keeps. Qed.
Lemma keeps_prepend s id ids : keeps s (prependChildrenIds s id ids).
Proof. unfold prependChildrenIds. case_match; auto with keeps. Qed.
Lemma keeps_append s id ids : keeps s (appendChildrenIds s id ids).
Proof. unfold appendChildrenIds. case_match; auto with keeps. Qed.
#[export] Hint Resolve keeps_prepend keeps_append : keeps.

Lemma keeps_side_moving ids : ∀ s cb t pos lt op, keeps s (side_moving_loop s cb t pos lt op ids).2.
Proof.
  induction ids as [|id ids IH]; intros s cb t pos lt op; [done|]. cbn [side_moving_loop]. case_bool_decide.
  - case_match. apply IH.
  - destruct (Get s id) as [[b|] s1] eqn:E; [case_match|]; (etransitivity; [by eapply keeps_Get_eq|apply IH]).
Qed.
Lemma keeps_addChanges s t pos ids : keeps s (addChangesForSideMoving s t pos ids).
Proof.
  unfold addChangesForSideMoving. pose proof (keeps_side_moving ids s (new_changeBuilder (st_changes s)) t pos t operationNone) as H.
  destruct (side_moving_loop _ _ _ _ _ _ _) as [cb s1]. etransitivity; [exact H|]. apply keeps_with_changes.
Qed.
Lemma keeps_wrapToRow s opId p b : keeps s (wrapToRow s opId p b).2.
Proof.
  unfold wrapToRow, addNewBlockAndWrapToColumn, addNewColumnToRow. destruct (Add s _) as [ok1 s1] eqn:E1. cbn. destruct (Add s1 _) as [ok2 s2] eqn:E2.
  assert (keeps s s2) as H by (etransitivity; eapply keeps_Add_eq; done). case_match; [done|]. etransitivity; [exact H|]. apply keeps_setChildrenIds.
Qed.

Section insert.
Context (md5hex : string → string).

Lemma keeps_moveFromSide s t p pos ids e s' : moveFromSide md5hex s t p pos ids = Some (e, s') → keeps s s'.
Proof.
  unfold moveFromSide. set (s1 := addChangesForSideMoving s (b_Id t) pos ids). assert (keeps s s1) as H1 by apply keeps_addChanges.
  destruct p as [row|]; [|intros [= _ <-]; done]. case_match; [by intros [= _ <-]|]. destruct (if is_row row then _ else _) as [r s2] eqn:E2.
  assert (keeps s s2) as H2.
  { etransitivity; [exact H1|]. destruct (is_row row); [by injection E2 as _ <-|].
    pose proof (keeps_wrapToRow (ignore_ids s1 [b_Id row]) (makeOpId md5hex (b_Id t) pos ids) row t) as Hw.
    destruct (wrapToRow _ _ _ _) as [[[row' ok]|e'] s3]; cbn [snd] in Hw; (etransitivity; [apply keeps_ignore_ids|]; etransitivity; [exact Hw|]).
    - destruct (Get s3 _) as [tg s4] eqn:Eg. injection E2 as _ <-. by eapply keeps_Get_eq.
    - by injection E2 as _ <-. }
  destruct r as [[[row' at'] [tg|]]|e']; [|done|by intros [= _ <-]]. unfold addNewColumn. destruct (Add s2 _) as [ok3 s3] eqn:E3.
  assert (keeps s s3) as H3 by (etransitivity; [exact H2|by eapply keeps_Add_eq]). destruct (FindPos _ _ =? -1)%Z; [by intros [= _ <-]|].
  destruct (Insert _ _ _); [|done]. intros [= _ <-]. etransitivity; [exact H3|]. keeps_then keeps_ignore_ids. destruct at'; auto with keeps.
Qed.
Lemma keeps_insertReplace s t p pos ids s' : insertReplace s t p pos ids = Some s' → keeps s s'.
Proof.
  unfold insertReplace. destruct ids as [|i ids]; [intros [= <-]; done|]. destruct (Get s i) as [[b|] s1] eqn:E; [|done]. apply keeps_Get_eq in E. cbv zeta.
  destruct (insertChildrenIds _ _ _ _) as [s3|] eqn:E3; [|done]. assert (keeps s s3) as H3.
  { etransitivity; [exact E|]. apply keeps_insertChildrenIds in E3. etransitivity; [|exact E3]. destruct (_ && _ && _); auto with keeps. }
  destruct (_ || _); intros [= <-]; [|done]. etransitivity; [exact H3|apply keeps_Unlink].
Qed.
Lemma keeps_insert_at s t p tp pos ids e s' : insert_at md5hex s t p tp pos ids = Some (e, s') → keeps s s'.
Proof.
  unfold insert_at. destruct pos, p as [p|]; try (by intros [= _ <-]); try (intros [= _ <-]; by auto with keeps).
  - destruct (insertChildrenIds _ _ _ _) eqn:E; [|done]. intros [= _ <-]. by eapply keeps_insertChildrenIds.
  - destruct (insertChildrenIds _ _ _ _) eqn:E; [|done]. intros [= _ <-]. by eapply keeps_insertChildrenIds.
  - destruct (Get s (b_Id p)) as [q s1] eqn:E. intros Em. etransitivity; [by eapply keeps_Get_eq|by eapply keeps_moveFromSide].
  - destruct (Get s (b_Id p)) as [q s1] eqn:E. intros Em. etransitivity; [by eapply keeps_Get_eq|by eapply keeps_moveFromSide].
  - destruct (insertReplace _ _ _ _ _) eqn:E; [|done]. intros [= _ <-]. by eapply keeps_insertReplace.
Qed.
Lemma keeps_InsertTo s t pos ids e s' : InsertTo md5hex s t pos ids = Some (e, s') → keeps s s'.
Proof.
  unfold InsertTo. case_bool_decide; [intros [= _ <-]; done|]. case_bool_decide.
  - destruct (Get s _) as [[b|] s1] eqn:E; [|intros [= _ <-]; by eapply keeps_Get_eq].
    intros Ei. etransitivity; [by eapply keeps_Get_eq|by eapply keeps_insert_at].
  - destruct (Get s t) as [[b|] s1] eqn:E; [|intros [= _ <-]; by eapply keeps_Get_eq]. cbv zeta.
    destruct (if bool_decide (pos = PInner) || bool_decide (pos = PInnerFirst) then (None, s1) else GetParentOf s1 t) as [p s2] eqn:Ep. assert (keeps s s2) as H2.
    { etransitivity; [by eapply keeps_Get_eq|]. destruct (_ || _); [by injection Ep as _ <-|]. pose proof (keeps_GetParentOf s1 t) as H'. by rewrite Ep in H'. }
    destruct p as [p|].
    + destruct (contains_id ids t); [by intros [= _ <-]|]. destruct (contains_id ids (b_Id p)); [by intros [= _ <-]|].
      destruct (FindPos _ _ =? -1)%Z; [by intros [= _ <-]|]. intros Ei. etransitivity; [exact H2|by eapply keeps_insert_at].
    + destruct (negb _); [by intros [= _ <-]|]. destruct (contains_id ids t); [by intros [= _ <-]|].
      intros Ei. etransitivity; [exact H2|by eapply keeps_insert_at].
Qed.
End insert.

(** ** Changes *)

Lemma keeps_applyEvent s ev : keeps s (applyEvent s ev).2.
Proof.
  assert (∀ id b s1 f, (∀ b, b_Id (f b) = b_Id b) → Get s id = (Some b, s1) → keeps s (put_block s1 id (f b))) as Hput.
  { intros id b s1 f Hf E. etransitivity; [by eapply keeps_Get_eq|]. apply keeps_with_blocks. intros Hk. rewrite Hf. apply (keyed_top s1); [done|].
    revert E. unfold Get. destruct (st_blocks s !! id) eqn:Eb; [by intros [= <- <-]|]. destruct (st_parents s); [done|].
    destruct (Pick s id); [|done]. intros [= -> <-]. apply lookup_insert_eq. }
  destruct ev as [| | |id f|id f|id c]; try done; cbn [applyEvent]; destruct (Get s id) as [[b|] s1] eqn:E; try (by eapply keeps_Get_eq).
  - by apply (Hput id b s1 (λ b, set_fields b f)).
  - by apply (Hput id b s1 (λ b, set_background b f)).
  - destruct (event_fits _ _); [by apply (Hput id b s1 (λ b, set_content b c))|by eapply keeps_Get_eq].
Qed.
Lemma keeps_update evs : ∀ s e, keeps s (foldl (λ '(err, s) ev, let '(e, s) := applyEvent s ev in
  (match err with Some _ => err | None => e end, s)) (e, s) evs).2.
Proof.
  induction evs as [|ev evs IH]; intros s e; [done|]. cbn [foldl]. pose proof (keeps_applyEvent s ev) as H. destruct (applyEvent s ev) as [e1 s1].
  etransitivity; [exact H|apply IH].
Qed.
Lemma keeps_foldl {A} (f : State → A → State) (l : list A) : (∀ s x, keeps s (f s x)) → ∀ s, keeps s (foldl f s l).
Proof. intros Hf. induction l as [|x l IH]; intros s; [done|]. cbn [foldl]. etransitivity; [apply Hf|apply IH]. Qed.
Lemma keeps_create bs : ∀ s ids, keeps s (create_blocks s ids bs).2.
Proof.
  induction bs as [|b bs IH]; intros s ids; [done|]. cbn [create_blocks]. case_bool_decide.
  - case_match; [apply IH|]. etransitivity; [apply keeps_Set|apply IH].
  - etransitivity; [apply keeps_Unlink|]. etransitivity; [apply keeps_Set|apply IH].
Qed.

Section changes.
Context (LK : list string) (md5hex : string → string) `{!PbCompare, !LoUniqBy}.

Lemma setInStore_tree d path v r : setInStore d path v = Some r → dc_tree r.2 = dc_tree d.
Proof.
  unfold setInStore. destruct path as [|k path]; [by intros [= <-]|]. cbv zeta.
  assert (dc_tree (createOrCopyStoreFromParent d) = dc_tree d) as E0 by (unfold createOrCopyStoreFromParent; by repeat case_match).
  assert (∀ d p c, dc_tree (setStoreChangeId d p c) = dc_tree d) as E1 by (intros d' p c; unfold setStoreChangeId; by repeat case_match).
  destruct v; try (intros [= <-]; cbn [snd]; cbn [with_top dc_tree]; rewrite ?E1; exact E0).
  case_match; [|done]. intros [= <-]. cbn [snd]. rewrite E1. exact E0.
Qed.
Lemma keeps_applyChange d ch e d' : applyChange LK md5hex d ch = Some (e, d') → keeps (dc_tree d) (dc_tree d').
Proof.
  destruct (neutral ch) eqn:En. { destruct (neutral_tree LK md5hex d ch En) as (d1 & E1 & T1). rewrite E1. intros [= _ <-]. by rewrite T1. }
  destruct ch as [target pos ids|target pos blocks|ids|events| | | | | | |path v|path|k op| | | | | | |]; try done; cbn [applyChange]; clear En.
  - unfold changeBlockMove. destruct (InsertTo _ _ _ _ _) as [[e' s2]|] eqn:E; [|done]. intros [= _ <-]. etransitivity; [|by eapply keeps_InsertTo].
    apply keeps_foldl. intros s x. apply keeps_Unlink.
  - unfold changeBlockCreate. pose proof (keeps_create blocks (dc_tree d) []) as HH. destruct (create_blocks _ _ _) as [ids s1].
    destruct (InsertTo _ _ _ _ _) as [[e' s2]|] eqn:E; [|done]. intros [= _ <-]. etransitivity; [exact HH|by eapply keeps_InsertTo].
  - intros [= _ <-]. apply keeps_foldl. intros s x. etransitivity; [apply keeps_Unlink|apply keeps_CleanupBlock].
  - pose proof (keeps_update events (dc_tree d) None) as HH. unfold changeBlockUpdate. destruct (foldl _ _ _) as [e' s1]. by intros [= _ <-].
  - destruct (setInStore d _ _) as [[b d1]|] eqn:E; [|done]. intros [= _ <-]. apply setInStore_tree in E. cbn [snd] in E. rewrite <- E. apply keeps_with_changes.
  - unfold removeFromStore. destruct (ContainsInStore _ _).
    + destruct (setInStore d _ _) as [[b d1]|] eqn:E; [|done]. intros [= _ <-]. apply setInStore_tree in E. cbn [snd] in E. cbn. rewrite <- E. apply keeps_with_changes.
    + intros [= _ <-]. apply keeps_with_changes.
  - unfold changeStoreSliceUpdate. destruct (ApplyChanges _ _ _) as [cur|]; [|done]. cbn [mbind option_bind].
    destruct (setInStore d _ _) as [[b d1]|] eqn:E; [|done]. intros [= _ <-]. apply setInStore_tree in E. cbn [snd] in E. by rewrite E.
  - by intros [= _ <-].
Qed.

(** C13. The type of a document's blocks: whatever changes come in, well formed or not,
    applied or failing half way, every layer still stores every block under its own
    id, the document has the same root, and no layer is added or lost. *)
Theorem changes_keep_keys chs d : keyed (dc_tree d) →
  (∀ e d', ApplyChange LK md5hex d chs = Some (e, d') →
     keyed (dc_tree d') ∧ st_rootId (dc_tree d') = st_rootId (dc_tree d) ∧ length (st_parents (dc_tree d')) = length (st_parents (dc_tree d))) ∧
  (∀ d', ApplyChangeIgnoreErr LK md5hex d chs = Some d' →
     keyed (dc_tree d') ∧ st_rootId (dc_tree d') = st_rootId (dc_tree d) ∧ length (st_parents (dc_tree d')) = length (st_parents (dc_tree d))).
Proof.
  intros Hk. assert (∀ d', keeps (dc_tree d) (dc_tree d') → keyed (dc_tree d') ∧ st_rootId (dc_tree d') = st_rootId (dc_tree d) ∧
    length (st_parents (dc_tree d')) = length (st_parents (dc_tree d))) as Hkeeps by (intros d' (HH & ? & ?); split_and!; auto).
  split; [intros e d' E|intros d' E]; apply Hkeeps; clear Hk Hkeeps; revert d E; induction chs as [|ch chs IH]; intros d;
    cbn [ApplyChange ApplyChangeIgnoreErr]; try (intros [= _ <-]; done); try (intros [= <-]; done);
    destruct (applyChange LK md5hex d ch) as [[e1 d1]|] eqn:E1; try done; apply keeps_applyChange in E1.
  - destruct e1; [by intros [= _ <-]|]. intros E. etransitivity; [exact E1|by eapply IH].
  - intros E. etransitivity; [exact E1|by eapply IH].
Qed.
End changes.
