(* ===== verification/ChangeDetails.v ===== *)
(** * Replaying details and object types

    The rest of a log: what a state sets of its details and types, applied by a
    replica that has the parent's, gives the replica the state's. *)

From S2P Require Import Prelude Slice SliceDiff GoFloat Values PbTypes Details StateTree StateDetails StateStore StateApply Changes ChangeRuns ChangeReplay ChangeStructure ChangeBlocks ChangeLog ChangeSync.

Section details.
Context (LK : list string) (md5hex : string → string) `{!PbCompare, !LoUniqBy}.

Lemma omap_of_fmap {A B C} (f : A → option C) (g : B → C) (h : A → option B) (l : list A) :
  (∀ x, f x = g <$> h x) → omap f l = g <$> omap h l.
Proof. intros Hf. induction l as [|x l IH]; [done|]. rewrite !(omap_cons_app _ x l), fmap_app, IH. f_equal. cbn. rewrite Hf. by destruct (h x). Qed.

Lemma omap_keys {V W} (f : string * V → option (string * W)) (l : list (string * V)) :
  (∀ x y, f x = Some y → y.1 = x.1) → (omap f l).*1 `sublist_of` l.*1.
Proof.
  intros Hf. induction l as [|x l IH]; [constructor|]. rewrite omap_cons_app, fmap_app, fmap_cons. cbn [omap list_omap].
  destruct (f x) as [y|] eqn:E; cbn [fmap list_fmap app]; [rewrite (Hf x y E)|]; by constructor.
Qed.

(** ** Details *)

Lemma own_copy_lookup r k : ∃ m, own_copy r = Some m ∧ m !! k = d_lookup (doc_Details r) k.
Proof.
  unfold own_copy, doc_Details. cbn [inherited]. destruct (ly_details (dc_top r)) as [m|]; [by exists m|].
  destruct (inherited ly_details (dc_below r)) as [m|]; [|exists ∅; by rewrite lookup_empty]. rewrite d_Copy_spec. by exists m.
Qed.
Lemma details_set r k v k' : v ≠ PNil →
  d_lookup (doc_Details (changeBlockDetailsSet r k v)) k' = if decide (k' = k) then Some (ValueFromProto v) else d_lookup (doc_Details r) k'.
Proof.
  intros Hv. destruct (own_copy_lookup r k') as (m & E & Hm). unfold changeBlockDetailsSet. rewrite E.
  assert (match v with PNil => d_Delete (Some m) k | _ => d_SetProtoValue (Some m) k v end = Ok (Some (<[k:=ValueFromProto v]> m))) as ->
    by (destruct v; done).
  change (<[k:=ValueFromProto v]> m !! k' = if decide (k' = k) then Some (ValueFromProto v) else d_lookup (doc_Details r) k').
  case_decide as Ek; [subst; by rewrite lookup_insert_eq|by rewrite lookup_insert_ne].
Qed.
Lemma details_unset r k k' :
  d_lookup (doc_Details (changeBlockDetailsUnset r k)) k' = if decide (k' = k) then None else d_lookup (doc_Details r) k'.
Proof.
  destruct (own_copy_lookup r k') as (m & E & Hm). unfold changeBlockDetailsUnset. rewrite E.
  change (delete k m !! k' = if decide (k' = k) then None else d_lookup (doc_Details r) k').
  case_decide as Ek; [subst; by rewrite lookup_delete_eq|by rewrite lookup_delete_ne].
Qed.

(** A list of settings, and one of removals. *)
Lemma set_all (sets : list (string * PbValue)) : ∀ r, NoDup sets.*1 → (∀ k v, (k, v) ∈ sets → v ≠ PNil) →
  ∃ r', ApplyChange LK md5hex r ((λ kv, ChDetailsSet kv.1 kv.2) <$> sets) = Some (None, r') ∧
    (∀ k v, (k, v) ∈ sets → d_lookup (doc_Details r') k = Some (ValueFromProto v)) ∧
    ∀ k, k ∉ sets.*1 → d_lookup (doc_Details r') k = d_lookup (doc_Details r) k.
Proof.
  induction sets as [|[k v] sets IH]; intros r Hn Hv; [exists r; split_and!; [done|by intros ? ? ?%elem_of_nil|done]|].
  cbn [fmap list_fmap] in Hn. apply NoDup_cons in Hn as [Hk Hn]. cbn [fst] in Hk.
  pose proof (λ k', details_set r k v k' (Hv k v ltac:(left))) as Hset.
  destruct (IH (changeBlockDetailsSet r k v) Hn) as (r' & E & H1 & H2); [intros; eapply Hv; by right|].
  exists r'. split_and!; [done| |].
  - intros k' v' [[= -> ->]|Hin]%elem_of_cons; [|by apply H1]. by rewrite H2, Hset, decide_True.
  - intros k' [Hne Hk']%not_elem_of_cons. rewrite H2 by done. by rewrite Hset, decide_False.
Qed.
Lemma unset_all (keys : list string) : ∀ r,
  ∃ r', ApplyChange LK md5hex r (ChDetailsUnset <$> keys) = Some (None, r') ∧
    ∀ k, d_lookup (doc_Details r') k = if decide (k ∈ keys) then None else d_lookup (doc_Details r) k.
Proof.
  induction keys as [|k keys IH]; intros r; [exists r; split; [done|]; intros k; by rewrite decide_False by apply not_elem_of_nil|].
  destruct (IH (changeBlockDetailsUnset r k)) as (r' & E & H1). exists r'. split; [done|]. intros k'. rewrite H1, details_unset.
  destruct (decide (k' ∈ keys)) as [Hin|Hin]; [by rewrite decide_True by (by right)|]. destruct (decide (k' = k)) as [->|Hne].
  - by rewrite decide_True by left.
  - rewrite decide_False; [done|]. by intros [?|?]%elem_of_cons.
Qed.

(** The value of a replica after the change from [old] to [new]. *)
Definition replayed_value (old new : option Value) : option Value :=
  match new with
  | None => None
  | Some v => match old with
              | Some o => if Value_Ok o && Equal o v then Some o else Some (proto_image v)
              | None => Some (proto_image v)
              end
  end.

(** C14. Details are replayed: a replica whose details are those of the parent applies
    the changes of details of a state without an error, and then has the keys the
    state has and no others; a value that changed is the one the state has (as it is
    after the trip through protobuf), one that did not change in the sense of [Equal]
    is kept. *)
Theorem details_log_replays d cur r :
  ly_details (dc_top d) = Some cur → (∀ k, d_lookup (doc_Details r) k = d_lookup (parent_Details d) k) →
  ∃ r', ApplyChange LK md5hex r (makeDetailsChanges d) = Some (None, r') ∧
    ∀ k, d_lookup (doc_Details r') k = replayed_value (d_lookup (parent_Details d) k) (cur !! k).
Proof.
  intros Hcur Hr. unfold replayed_value, makeDetailsChanges. rewrite Hcur. cbv zeta. set (prev := match parent_Details d with None => NewDetails | x => x end).
  assert (∀ k, d_lookup prev k = d_lookup (parent_Details d) k) as Hprev.
  { intros k. unfold prev. destruct (parent_Details d); [done|]. unfold d_lookup. simpl. apply lookup_empty. }
  assert (doc_Details d = Some cur) as -> by (unfold doc_Details; cbn; by rewrite Hcur).
  set (keep k v := Value_Ok (d_Get prev k) && Equal (d_Get prev k) v).
  set (sets := omap (λ '(k, v), if keep k v then None else Some (k, ToProto v)) (map_to_list cur)).
  set (unsets := omap (λ '(k, _), if bool_decide (is_Some (cur !! k)) then None else Some k) (d_Iterate prev)).
  assert (omap (λ '(k, v),
            if negb (Value_Ok (d_Get prev k)) || negb (Equal (d_Get prev k) v) then Some (ChDetailsSet k (ToProto v)) else None) (d_Iterate (Some cur)) =
          (λ kv, ChDetailsSet kv.1 kv.2) <$> sets) as ->.
  { apply omap_of_fmap. intros [k v]. unfold keep. rewrite <- negb_andb. by destruct (Value_Ok (d_Get prev k) && Equal (d_Get prev k) v). }
  assert (omap (λ '(k, _), if negb (d_Has (Some cur) k) then Some (ChDetailsUnset k) else None) (d_Iterate prev) = ChDetailsUnset <$> unsets) as ->.
  { apply omap_of_fmap. intros [k v]. unfold d_Has. by case_bool_decide. }
  assert (∀ k pv, (k, pv) ∈ sets ↔ ∃ v, cur !! k = Some v ∧ keep k v = false ∧ pv = ToProto v) as Hsets.
  { intros k pv. unfold sets. rewrite list_elem_of_omap. split.
    - intros ([k' v] & Hin%elem_of_map_to_list & E). destruct (keep k' v) eqn:Ek; [done|]. injection E as <- <-. by exists v.
    - intros (v & Hv & Ek & ->). exists (k, v). split; [by apply elem_of_map_to_list|]. by rewrite Ek. }
  assert (NoDup sets.*1) as Hnd.
  { unfold sets. eapply sublist_NoDup; [apply (NoDup_fst_map_to_list cur)|]. apply omap_keys.
    intros [k v] y. destruct (keep k v); naive_solver. }
  destruct (set_all sets r Hnd) as (r1 & E1 & S1 & S2); [intros k v (v0 & _ & _ & ->)%Hsets; by destruct v0|].
  destruct (unset_all unsets r1) as (r2 & E2 & U). exists r2. split; [by rewrite (ApplyChange_app _ _ _ _ _ _ E1)|]. intros k. rewrite U.
  assert (k ∈ unsets ↔ cur !! k = None ∧ is_Some (d_lookup prev k)) as Hun.
  { unfold unsets. rewrite list_elem_of_omap. split.
    - intros ([k' v] & Hin & E). case_bool_decide as Ek; [done|]. injection E as <-. split; [by apply eq_None_not_Some|].
      unfold d_lookup. destruct prev as [pm|]; [|by apply elem_of_nil in Hin]. simpl. apply elem_of_map_to_list in Hin. by eexists.
    - intros [Hc [v Hv]]. exists (k, v). unfold d_lookup in Hv. destruct prev as [pm|]; [|done]. split; [by apply elem_of_map_to_list|].
      by rewrite bool_decide_eq_false_2 by (rewrite Hc; by intros []). }
  destruct (cur !! k) as [v|] eqn:Ec.
  - rewrite decide_False by (intros [? _]%Hun; done). rewrite <- (Hprev k). assert (d_Get prev k = default VInvalid (d_lookup prev k)) as Hget.
    { unfold d_Get, d_lookup. by destruct prev as [pm|]. }
    destruct (keep k v) eqn:Ek.
    + unfold keep in Ek. rewrite Hget in Ek. destruct (d_lookup prev k) as [old|] eqn:Ep; [|done]. cbn [default from_option id] in Ek. rewrite Ek.
      rewrite S2, Hr, <- Hprev, Ep; [done|]. intros ([k' pv] & -> & (v' & Hv' & Ek' & _)%Hsets)%list_elem_of_fmap. cbn [fst] in *.
      rewrite Ec in Hv'. injection Hv' as <-. unfold keep in Ek'. rewrite Hget in Ek'. cbn [default from_option id] in Ek'. congruence.
    + rewrite (S1 k (ToProto v)), ValueFromProto_ToProto by (apply Hsets; by exists v). unfold keep in Ek. rewrite Hget in Ek.
      destruct (d_lookup prev k) as [old|]; [|done]. cbn [default from_option id] in Ek. by rewrite Ek.
  - case_decide as Hin; [done|]. rewrite S2, Hr, <- Hprev.
    + destruct (d_lookup prev k) as [v|] eqn:Ep; [|done]. destruct Hin. apply Hun. split; [done|by eexists].
    + intros ([k' pv] & -> & (v' & Hv' & _)%Hsets)%list_elem_of_fmap. cbn [fst] in *. congruence.
Qed.

(** ** Object types *)

Lemma prefix_append s t : String.prefix s (s +:+ t) = true.
Proof. induction s as [|c s IH]; simpl; [by destruct t|]. destruct (Ascii.ascii_dec c c); [exact IH|done]. Qed.
Lemma substring_append s t : String.substring (String.length s) (String.length t) (s +:+ t) = t.
Proof.
  assert (String.substring 0 (String.length t) t = t) as Ht by (induction t as [|c t IH]; simpl; [done|by rewrite IH]).
  induction s as [|c s IH]; [exact Ht|exact IH].
Qed.
Lemma migrate_URL key : migrateObjectTypeIDToKey (ch_URL key) = key.
Proof.
  unfold migrateObjectTypeIDToKey, trim_prefix, ch_URL. rewrite prefix_append. set (p := "ot-").
  replace (String.length (p +:+ key) - String.length p) with (String.length key); [apply substring_append|].
  assert (String.length (p +:+ key) = String.length p + String.length key) as ->; [|lia]. induction p as [|c p IH]; [done|]. simpl. by rewrite IH.
Qed.

Lemma types_add r key : default [] (doc_ObjectTypeKeys (changeObjectTypeAdd r (ch_URL key) "")) =
  let types := default [] (doc_ObjectTypeKeys r) in if bool_decide (key ∈ types) then types else types ++ [key].
Proof.
  unfold changeObjectTypeAdd. rewrite migrate_URL. cbv zeta. replace (bool_decide (ch_URL key = "")) with false by done. by case_bool_decide.
Qed.
Lemma types_remove r key : default [] (doc_ObjectTypeKeys (changeObjectTypeRemove r (ch_URL key) "")) =
  filter (λ k, k ≠ key) (default [] (doc_ObjectTypeKeys r)).
Proof.
  unfold changeObjectTypeRemove. rewrite migrate_URL. replace (bool_decide (ch_URL key = "")) with false by done.
  change (Filter (default [] (doc_ObjectTypeKeys r)) (λ k, negb (bool_decide (k = key))) = filter (λ k, k ≠ key) (default [] (doc_ObjectTypeKeys r))).
  rewrite Filter_spec. apply filter_ext_elem. intros k _. rewrite negb_True, bool_decide_spec. done.
Qed.

Lemma add_types keys : ∀ r, NoDup keys →
  ∃ r', ApplyChange LK md5hex r ((λ k, ChObjectTypeAdd (ch_URL k) "") <$> keys) = Some (None, r') ∧
    default [] (doc_ObjectTypeKeys r') = default [] (doc_ObjectTypeKeys r) ++ filter (λ k, k ∉ default [] (doc_ObjectTypeKeys r)) keys.
Proof.
  induction keys as [|k keys IH]; intros r Hn; [exists r; by rewrite app_nil_r|]. apply NoDup_cons in Hn as [Hk Hn].
  destruct (IH (changeObjectTypeAdd r (ch_URL k) "") Hn) as (r' & E & Ht). exists r'. split; [done|]. rewrite Ht, types_add. cbv zeta.
  set (T := default [] (doc_ObjectTypeKeys r)). case_bool_decide as Hin.
  - by rewrite filter_cons_False by (intros Hn'; by apply Hn').
  - rewrite filter_cons_True by done. rewrite <- app_assoc. do 2 f_equal. apply filter_ext_elem. intros x Hx. rewrite not_elem_of_app, list_elem_of_singleton.
    split; [tauto|]. intros ?. split; [done|]. by intros ->.
Qed.
Lemma remove_types keys : ∀ r,
  ∃ r', ApplyChange LK md5hex r ((λ k, ChObjectTypeRemove (ch_URL k) "") <$> keys) = Some (None, r') ∧
    default [] (doc_ObjectTypeKeys r') = filter (λ k, k ∉ keys) (default [] (doc_ObjectTypeKeys r)).
Proof.
  induction keys as [|k keys IH]; intros r; [exists r; split; [done|]; symmetry; apply filter_all; intros; apply not_elem_of_nil|].
  destruct (IH (changeObjectTypeRemove r (ch_URL k) "")) as (r' & E & Ht). exists r'. split; [done|]. rewrite Ht, types_remove, list_filter_filter.
  apply filter_ext_elem. intros x _. rewrite not_elem_of_cons. tauto.
Qed.

(** Object types are replayed: a replica whose types are the parent's ends with the
    types of the state, the ones it had in their old order, then the new ones. *)
Theorem types_log_replays d keys r :
  ly_objectTypeKeys (dc_top d) = Some keys → NoDup keys →
  default [] (doc_ObjectTypeKeys r) = default [] (inherited ly_objectTypeKeys (dc_below d)) →
  ∃ r', ApplyChange LK md5hex r (makeObjectTypesChanges d) = Some (None, r') ∧
    default [] (doc_ObjectTypeKeys r') =
      filter (λ k, k ∈ keys) (default [] (doc_ObjectTypeKeys r)) ++ filter (λ k, k ∉ default [] (doc_ObjectTypeKeys r)) keys ∧
    ∀ k, k ∈ default [] (doc_ObjectTypeKeys r') ↔ k ∈ keys.
Proof.
  intros Hkeys Hn Hr. unfold makeObjectTypesChanges. rewrite Hkeys, <- Hr. cbv zeta. set (T := default [] (doc_ObjectTypeKeys r)).
  assert (omap (λ v, if bool_decide (v ∈ (∅ : gset string)) then None else Some (ChObjectTypeAdd (ch_URL v) "")) keys =
          (λ k, ChObjectTypeAdd (ch_URL k) "") <$> keys) as ->.
  { rewrite (omap_of_fmap _ (λ k, ChObjectTypeAdd (ch_URL k) "") Some); [|intros v; by rewrite bool_decide_eq_false_2 by set_solver].
    f_equal. clear. induction keys as [|k keys IH]; [done|]. cbn. f_equal. apply IH. }
  set (gone := filter (λ k, k ∉ keys) T).
  assert (omap (λ v, if bool_decide (v ∈ (list_to_set keys : gset string)) then None else Some (ChObjectTypeRemove (ch_URL v) "")) T =
          (λ k, ChObjectTypeRemove (ch_URL k) "") <$> gone) as ->.
  { unfold gone. clearbody T. clear gone Hr. induction T as [|k T IH]; [done|]. rewrite omap_cons_app, filter_cons, IH. cbn [omap list_omap].
    destruct (decide (k ∈ keys)) as [Hin|Hin].
    - rewrite bool_decide_eq_true_2 by set_solver. by rewrite decide_False by tauto.
    - rewrite bool_decide_eq_false_2 by set_solver. by rewrite decide_True by done. }
  destruct (add_types keys r Hn) as (r1 & E1 & T1). destruct (remove_types gone r1) as (r2 & E2 & T2). fold T in T1.
  assert (default [] (doc_ObjectTypeKeys r2) = filter (λ k, k ∈ keys) T ++ filter (λ k, k ∉ T) keys) as ET.
  { rewrite T2, T1, filter_app. f_equal.
    - apply filter_ext_elem. intros k Hk. unfold gone. rewrite list_elem_of_filter. destruct (decide (k ∈ keys)); tauto.
    - apply filter_all. intros k [Hk1 Hk2]%list_elem_of_filter. unfold gone. rewrite list_elem_of_filter. tauto. }
  exists r2. split_and!; [by rewrite (ApplyChange_app _ _ _ _ _ _ E1)|done|].
  intros k. rewrite ET, elem_of_app, !list_elem_of_filter. destruct (decide (k ∈ T)); tauto.
Qed.
End details.

(** ** The store *)

Section store.
Context (LK : list string) (md5hex : string → string) `{!PbCompare, !PbCompareOk, !LoUniqBy}.

Inductive store_op := SOSet (path : list string) (value : PbValue) | SORemove (path : list string).
Definition run_op (d : Doc) (o : store_op) : option Doc :=
  match o with SOSet path v => snd <$> SetInStore d path v | SORemove path => snd <$> RemoveFromStore d path end.
Fixpoint run_ops (d : Doc) (ops : list store_op) : option Doc :=
  match ops with [] => Some d | o :: ops => d ← run_op d o; run_ops d ops end.

Definition store_of (d : Doc) : gmap string PbValue := default ∅ (doc_Store d).
(** Values that are written, and those they replace, can be compared. *)
Definition op_ok (d : Doc) (o : store_op) : Prop :=
  match o with
  | SOSet path v => path ≠ [] ∧ v ≠ PNil ∧ pb_comparable v ∧ pb_comparable (store_at (store_of d) path)
  | SORemove path => path ≠ []
  end.
Fixpoint ops_ok (d : Doc) (ops : list store_op) : Prop :=
  match ops with [] => True | o :: ops => op_ok d o ∧ ∀ d', run_op d o = Some d' → ops_ok d' ops end.

(** A document in which a key can be removed: the set of removed keys is there. *)
Definition removable (d : Doc) : Prop := ly_store (dc_top d) = None ∨ is_Some (ly_storeKeyRemoved (dc_top d)).

Lemma store_put_same path : ∀ store v, v ≠ PNil → store_at store path = v → store_put store path v = store.
Proof.
  induction path as [|k [|k' path] IH]; intros store v Hv E; [done|..].
  - cbn in *. destruct (store !! k) as [x|] eqn:Ek; cbn in E; [subst x|by subst v]. destruct v; try done; by rewrite insert_id.
  - rewrite store_at_cons in E. rewrite store_put_cons. unfold GetStruct in *. destruct (store !! k) as [[| | | | |m| |]|] eqn:Ek; try by subst v.
    cbn [default from_option id]. rewrite IH by done. cbv zeta. destruct v; try done; by rewrite insert_id.
Qed.

Lemma setInStore_runs d path v : path ≠ [] → removable d →
  ∃ ch d', setInStore d path v = Some (ch, d') ∧ store_of d' = store_put (store_of d) path v ∧ removable d' ∧ dc_tree d' = dc_tree d ∧
    ch = match v with PNil => true | _ => negb (pb_Compare (store_at (store_of d) path) v =? 0)%Z end.
Proof.
  intros Hp Hr. unfold setInStore. destruct path as [|k path]; [done|]. set (p := k :: path) in *. set (d0 := createOrCopyStoreFromParent d).
  assert (default ∅ (ly_store (dc_top d0)) = store_of d ∧ dc_tree d0 = dc_tree d ∧ is_Some (ly_storeKeyRemoved (dc_top d0))) as (Es & Et & r & Er).
  { unfold d0, createOrCopyStoreFromParent, store_of, doc_Store, removable in *. destruct (ly_store (dc_top d)) as [m|] eqn:Em; cbn.
    - rewrite Em. destruct Hr; done.
    - split_and!; try done; by eexists. }
  rewrite Es, Er. destruct v; (eexists _, _; split; [reflexivity|]; split_and!; [reflexivity|right; by eexists|exact Et|reflexivity]).
Qed.

(** One operation and the change it records. *)
Lemma run_op_log d o : op_ok d o → removable d →
  ∃ d' log, run_op d o = Some d' ∧ removable d' ∧ st_changes (dc_tree d') = st_changes (dc_tree d) ++ log ∧
    ∀ r, removable r → store_of r = store_of d →
      ∃ r', ApplyChange LK md5hex r log = Some (None, r') ∧ removable r' ∧ store_of r' = store_of d'.
Proof.
  destruct o as [path v|path]; cbn [op_ok run_op].
  - intros (Hp & Hv & Hc1 & Hc2) Hd. destruct (setInStore_runs d path v Hp Hd) as (ch & d1 & E & Hst & Hr1 & Ht & Ech).
    assert (ch = negb (pb_Compare (store_at (store_of d) path) v =? 0)%Z) as Ech' by (by destruct v). unfold SetInStore. rewrite E.
    destruct ch.
    + exists (record d1 [ChStoreKeySet path v]), [ChStoreKeySet path v]. split_and!; [by destruct v|done|cbn; by rewrite Ht|].
      intros r Hr Er. destruct (setInStore_runs r path v Hp Hr) as (ch2 & r1 & E2 & Hst2 & Hr2 & _).
      exists (record r1 [ChStoreKeySet path v]). cbn [ApplyChange applyChange]. rewrite E2. split_and!; [done|done|].
      change (store_of r1 = store_of d1). by rewrite Hst2, Hst, Er.
    + exists d1, []. split_and!; [done|done|by rewrite Ht, app_nil_r|]. intros r Hr Er. exists r. split_and!; [done|done|].
      symmetry in Ech'. apply negb_false_iff, Z.eqb_eq, pb_Compare_eq in Ech'; [|done|done]. by rewrite Hst, store_put_same, Er.
  - intros Hp Hd. unfold RemoveFromStore, removeFromStore. destruct (ContainsInStore d path) eqn:Ec.
    + destruct (setInStore_runs d path PNil Hp Hd) as (ch & d1 & E & Hst & Hr1 & Ht & _). rewrite E. cbn [fmap option_fmap option_map prod_map snd fst].
      exists (record d1 [ChStoreKeyUnset path]), [ChStoreKeyUnset path]. split_and!; [done|done|cbn; by rewrite Ht|].
      intros r Hr Er. destruct (setInStore_runs r path PNil Hp Hr) as (ch2 & r1 & E2 & Hst2 & Hr2 & _).
      assert (ContainsInStore r path = true) as Ec2.
      { unfold ContainsInStore, store_of in *. destruct path as [|k path]; [done|]. destruct (doc_Store r) as [sr|]; cbn [default from_option id] in Er.
        - rewrite Er. by destruct (doc_Store d).
        - destruct (doc_Store d) as [sd|]; [|done]. cbn [default from_option id] in Er. by rewrite <- Er, store_at_empty in Ec. }
      exists (record r1 [ChStoreKeyUnset path]). cbn [ApplyChange applyChange]. unfold removeFromStore. rewrite Ec2, E2. split_and!; [done|done|].
      change (store_of r1 = store_of d1). by rewrite Hst2, Hst, Er.
    + exists d, []. split_and!; [done|done|by rewrite app_nil_r|]. intros r Hr Er. by exists r.
Qed.

(** C15. The store is replayed: the changes recorded by any sequence of writes and
    removals, applied by a replica with the same store, give it the same store, also
    where a write that changed nothing was not recorded. *)
Theorem store_log_replays ops : ∀ d r, ops_ok d ops → removable d → removable r → store_of r = store_of d →
  ∃ d' log r', run_ops d ops = Some d' ∧ st_changes (dc_tree d') = st_changes (dc_tree d) ++ log ∧
    ApplyChange LK md5hex r log = Some (None, r') ∧ store_of r' = store_of d'.
Proof.
  induction ops as [|o ops IH]; intros d r Hok Hd Hr Er; [exists d, [], r; by rewrite app_nil_r|]. destruct Hok as [Ho Hok].
  destruct (run_op_log d o Ho Hd) as (d1 & log1 & E1 & Hd1 & L1 & Hrep). destruct (Hrep r Hr Er) as (r1 & A1 & Hr1 & Er1).
  destruct (IH d1 r1 (Hok d1 E1) Hd1 Hr1 Er1) as (d2 & log2 & r2 & E2 & L2 & A2 & Er2).
  exists d2, (log1 ++ log2), r2. cbn [run_ops]. rewrite E1. cbn. split_and!; [done|by rewrite L2, L1, app_assoc| |done].
  by rewrite (ApplyChange_app _ _ _ _ _ _ A1).
Qed.
End store.
