(* ===== verification/ChangeInst.v ===== *)
(** * The log of changes on examples

    A comparison of lists that satisfies what is assumed of [mb0/diff], a state whose
    log a replica follows, and two states whose logs no replica can follow. *)

From S2P Require Import Prelude Slice SliceDiff GoFloat Values PbTypes Details StateTree StateDetails StateStore StateApply Changes ChangeRuns ChangeReplay ChangeStructure ChangeBlocks ChangeLog ChangeSync ChangeTypes ChangeDetails.

Module ChangeInst.
Import ApplyInst.

(** ** A comparison: every element is kept at its first match *)

Fixpoint row_match (eq : nat → bool) (j fuel : nat) : option nat :=
  match fuel with O => None | S fuel => if eq j then Some j else row_match eq (S j) fuel end.
Fixpoint first_match (eq : nat → nat → bool) (x y m fuel : nat) : option (nat * nat) :=
  match fuel with
  | O => None
  | S fuel => match row_match (eq x) y (m - y) with Some j => Some (x, j) | None => first_match eq (S x) y m fuel end
  end.
Fixpoint greedy (fuel x y n m : nat) (eq : nat → nat → bool) : list EditChange :=
  match fuel with
  | O => []
  | S fuel =>
      match first_match eq x y m (n - x) with
      | None => if bool_decide (x = n ∧ y = m) then [] else [{| eA := x; eB := y; eDel := n - x; eIns := m - y |}]
      | Some (i, j) => (if bool_decide (i = x ∧ j = y) then [] else [{| eA := x; eB := y; eDel := i - x; eIns := j - y |}]) ++
                       greedy fuel (S i) (S j) n m eq
      end
  end.

Lemma row_match_spec eq j fuel r : row_match eq j fuel = Some r → j ≤ r < j + fuel ∧ eq r = true.
Proof.
  revert j. induction fuel as [|fuel IH]; intros j; simpl; [done|]. destruct (eq j) eqn:E; [intros [= <-]; split; [lia|done]|].
  intros [? ?]%IH. split; [lia|done].
Qed.
Lemma first_match_spec eq x y m fuel i j : first_match eq x y m fuel = Some (i, j) → x ≤ i < x + fuel ∧ y ≤ j < m ∧ eq i j = true.
Proof.
  revert x. induction fuel as [|fuel IH]; intros x; simpl; [done|]. destruct (row_match (eq x) y (m - y)) as [r|] eqn:E.
  - intros [= <- <-]. apply row_match_spec in E as [? ?]. split_and!; [lia..|done].
  - intros (? & ? & ?)%IH. split_and!; [lia..|done].
Qed.
Lemma greedy_script fuel x y n m eq : x ≤ n → y ≤ m → n - x < fuel → edit_script eq n m true x y (greedy fuel x y n m eq).
Proof.
  revert x y. induction fuel as [|fuel IH]; intros x y Hx Hy Hf; simpl; [lia|].
  destruct (first_match eq x y m (n - x)) as [[i j]|] eqn:E.
  - apply first_match_spec in E as (Hi & Hj & He). case_bool_decide as Hd; cbn [app].
    + destruct Hd as [-> ->]. constructor; [lia|lia|done|]. apply IH; lia.
    + constructor; [lia..|]. replace (x + (i - x)) with i by lia. replace (y + (j - y)) with j by lia.
      constructor; [lia|lia|done|]. apply IH; lia.
  - case_bool_decide as Hd; [destruct Hd as [-> ->]; constructor|]. constructor; [lia..|].
    replace (x + (n - x)) with n by lia. replace (y + (m - y)) with m by lia. constructor.
Qed.
#[export] Instance greedy_diff : Mb0Diff := λ n m eq, greedy (S n) 0 0 n m eq.
#[export] Instance greedy_diff_ok : Mb0DiffOk.
Proof. intros n m eq. apply greedy_script; lia. Qed.
(** Strings are compared, other values are taken to differ. *)
#[export] Instance compare : PbCompare := λ a b,
  match a, b with PString x, PString y => if bool_decide (x = y) then 0%Z else 1%Z | _, _ => 1%Z end.
#[export] Instance compare_ok : PbCompareOk.
Proof. exists (λ _, True). intros a b _ _. unfold pb_Compare, compare. destruct a, b; try done. case_bool_decide; [by subst|done]. Defined.
#[export] Instance uniq : LoUniqBy := Instances.uniq_by.

(** ** Trees *)

Definition para (id : string) (children : list string) : Block :=
  {| b_Id := id; b_ChildrenIds := children; b_Content := CText id; b_Fields := ∅; b_BackgroundColor := "" |}.
Definition blocks_of (l : list Block) : Blocks := list_to_map ((λ b, (b_Id b, b)) <$> l).
Definition over (top p : Blocks) : Doc :=
  {| dc_tree := {| st_rootId := "root"; st_blocks := top; st_parents := [p]; st_changes := []; st_ignoreIds := [] |};
     dc_top := DetailsInst.layer None None; dc_below := [base_layer] |}.
Definition replica (p : Blocks) : Doc :=
  {| dc_tree := NewDoc "root" p; dc_top := base_layer; dc_below := [] |}.

(** Deciding the hypotheses. *)
Definition whole_b (V : Blocks) : bool := forallb (λ kb, forallb (λ x, bool_decide (is_Some (V !! x))) (b_ChildrenIds kb.2)) (map_to_list V).
Lemma whole_b_spec V : whole_b V = true → listed_exist V.
Proof.
  unfold whole_b. rewrite forallb_forall. intros H q x (b & Hb%elem_of_map_to_list%list_elem_of_In & Hx)%chd_In.
  specialize (H _ Hb). rewrite forallb_forall in H. apply list_elem_of_In in Hx. specialize (H x Hx). by apply bool_decide_eq_true in H.
Qed.
(** Every block is under a block that is closer to the root. *)
Definition ranked (V : Blocks) (rank : list string) : bool :=
  forallb (λ kb, bool_decide (kb.1 ∈ rank)) (map_to_list V).
Fixpoint grows_from (V : Blocks) (seen rank : list string) : bool :=
  match rank with
  | [] => true
  | x :: rank => existsb (λ p, bool_decide (x ∈ chd V p)) seen && grows_from V (x :: seen) rank
  end.
Lemma grows_from_spec V root rank : ∀ seen, grows_from V seen rank = true → (∀ x, x ∈ seen → reach V root x) → ∀ x, x ∈ seen ++ rank → reach V root x.
Proof.
  induction rank as [|y rank IH]; intros seen Hg Hs x; [rewrite app_nil_r; apply Hs|]. cbn [grows_from] in Hg. apply andb_true_iff in Hg as [Hy Hg].
  intros Hx. apply (IH (y :: seen) Hg); [|set_solver]. intros z [->|Hz]%elem_of_cons; [|by apply Hs].
  apply existsb_exists in Hy as (q & Hq%list_elem_of_In & Hyq%bool_decide_eq_true). eapply reach_trans; [by apply Hs|by apply chd_reach].
Qed.
Definition tree_b (V : Blocks) (root : string) (rank : list string) : bool :=
  wf_b V [root] && bool_decide (is_Some (V !! root)) && ranked V (root :: rank) && grows_from V [root] rank && whole_b V && bool_decide (V !! "" = None).
Lemma tree_b_spec V root rank : tree_b V root rank = true → tree V root.
Proof.
  unfold tree_b. rewrite !andb_true_iff. intros [[[[[Hw%wf_b_spec Hr%bool_decide_eq_true] Hk] Hg] Hc%whole_b_spec] Hn%bool_decide_eq_true].
  split; try done. intros q b Hq%elem_of_map_to_list%list_elem_of_In. apply (grows_from_spec V root rank [root] Hg).
  - intros x ->%list_elem_of_singleton. constructor.
  - unfold ranked in Hk. rewrite forallb_forall in Hk. specialize (Hk _ Hq). by apply bool_decide_eq_true in Hk.
Qed.

Lemma appliable_check top p rank :
  wf_b (view (dc_tree (over top p))) ["root"] = true → keyed_b p = true → kinds_b p top = true → tree_b p "root" rank = true →
  whole_b (view (dc_tree (over top p))) = true → is_Some (view (dc_tree (over top p)) !! "root") → view (dc_tree (over top p)) !! "" = None →
  appliable (over top p) p base_layer.
Proof.
  intros Hw Hk Hkb Ht%tree_b_spec Hc%whole_b_spec Hr Hn. split; [by apply ready_check|done| |done|done].
  intros q [|q' b c _ Hb Hc']; [done|]. apply (Hc q'), chd_In. by exists b.
Qed.
Lemma replica_holds p : holds (replica p) "root" p.
Proof. split_and!; [done..|]. apply map_eq. intros q. rewrite <- Pick_view. unfold Pick. simpl. by destruct (p !! q). Qed.
Lemma replica_replica p : replica_of (replica p) "root" p.
Proof. destruct (replica_holds p) as (? & _ & ?). split_and!; [done..|]. intros m id b Hin. by apply elem_of_nil in Hin. Qed.

(** "a2" moves to the end, "n" is new before "a1", "b" is removed, the text of "c"
    changes. *)
Definition p0 : Blocks := blocks_of [para "root" ["a"; "b"; "c"]; para "a" ["a1"; "a2"]; para "a1" []; para "a2" []; para "b" []; para "c" []].
Definition top0 : Blocks :=
  blocks_of [para "root" ["a"; "c"; "a2"]; para "a" ["n"; "a1"]; para "n" [];
             {| b_Id := "c"; b_ChildrenIds := []; b_Content := CText "new"; b_Fields := ∅; b_BackgroundColor := "" |}].
Definition no_hash (x : string) : string := x.

Lemma example_appliable : appliable (over top0 p0) p0 base_layer.
Proof.
  apply (appliable_check top0 p0 ["a"; "b"; "c"; "a1"; "a2"]); try (vm_compute; reflexivity). vm_compute. by eexists.
Qed.

Definition log0 : list Change :=
  [ChMove "c" PBottom ["a2"]; ChCreate "a1" PTop [para "n" []]; ChRemove ["b"]; ChUpdate [BSetContent "c" (CText "new")]].

Definition log_of (r : option (res (list EventMessage * action * Doc))) : option (list Change) :=
  match r with Some (Ok (_, _, d')) => Some (st_changes (dc_tree d')) | _ => None end.
Example log_of_example : log_of (apply_normalized [] no_snippet (fillChanges []) (over top0 p0)) = Some log0.
Proof. vm_compute. reflexivity. Qed.

Lemma log0_safe : safe_log p0 [] log0.
Proof.
  cbn [log0 safe_log app]. split_and!; [done| | |done].
  - by intros x y ->%list_elem_of_singleton ->%list_elem_of_singleton.
  - intros _ Hin. vm_compute in Hin. by repeat (apply elem_of_cons in Hin as [Hin|Hin]; [done|]); apply elem_of_nil in Hin.
Qed.


(** A second state: "n" moves under "c" and "d" is new. *)
Definition p01 : Blocks :=
  blocks_of [para "root" ["a"; "c"; "a2"]; para "a" ["n"; "a1"]; para "n" []; para "a1" []; para "a2" [];
             {| b_Id := "c"; b_ChildrenIds := []; b_Content := CText "new"; b_Fields := ∅; b_BackgroundColor := "" |}].
Definition top01 : Blocks :=
  blocks_of [para "a" ["a1"]; {| b_Id := "c"; b_ChildrenIds := ["n"; "d"]; b_Content := CText "new"; b_Fields := ∅; b_BackgroundColor := "" |}; para "d" []].
Definition log01 : list Change := [ChMove "c" PInner ["n"]; ChCreate "n" PBottom [para "d" []]].

Definition blocks_after (r : option (res (list EventMessage * action * Doc))) : option Blocks :=
  match r with Some (Ok (_, _, d')) => Some (st_blocks (dc_tree d')) | _ => None end.
Lemma log01_safe : safe_log p01 [] log01.
Proof. cbn [log01 safe_log app]. split_and!; try done. by intros x y ->%list_elem_of_singleton ->%list_elem_of_singleton. Qed.


(** The first change fails: there is no block "zz". *)
Lemma changes_keep_keys_witness :
  ∃ d', ApplyChangeIgnoreErr [] no_hash (replica p0) (ChMove "zz" PTop ["a"] :: log0) = Some d' ∧ keyed (dc_tree d').
Proof.
  assert (keyed (dc_tree (replica p0))) as Hk.
  { intros l id b [->|Hl]%elem_of_cons Hb; [|by apply elem_of_nil in Hl]. apply (keyed_b_spec p0); [vm_compute; reflexivity|exact Hb]. }
  assert (is_Some (ApplyChangeIgnoreErr [] no_hash (replica p0) (ChMove "zz" PTop ["a"] :: log0))) as [d' E] by (vm_compute; by eexists).
  exists d'. split; [exact E|].
  destruct (changes_keep_keys [] no_hash (ChMove "zz" PTop ["a"] :: log0) (replica p0) Hk) as [_ Hkeep].
  exact (proj1 (Hkeep d' E)).
Defined.

(** ** Details, types and the store *)

Definition prev_details : gmap string Value := {["name" := String "a"; "done" := Bool true; "old" := String "x"]}.
Definition cur_details : gmap string Value := {["name" := String "b"; "done" := Bool true; "tags" := StringList ["t"]]}.
Definition doc_over (top below : Layer) : Doc := {| dc_tree := NewDoc "root" ∅; dc_top := top; dc_below := [below] |}.
Definition with_types (keys : list string) : Layer := set_objectTypeKeys (DetailsInst.layer None None) (Some keys).
Definition detail_layer (m : gmap string Value) : Layer := DetailsInst.layer (Some m) None.
Definition single (l : Layer) : Doc := {| dc_tree := NewDoc "root" ∅; dc_top := l; dc_below := [] |}.

Lemma details_log_replays_witness :
  ∃ r', ApplyChange [] no_hash (single (detail_layer prev_details)) (makeDetailsChanges (doc_over (detail_layer cur_details) (detail_layer prev_details)))
          = Some (None, r') ∧
    d_lookup (doc_Details r') "name" = Some (String "b") ∧ d_lookup (doc_Details r') "done" = Some (Bool true) ∧
    d_lookup (doc_Details r') "tags" = Some (StringList ["t"]) ∧ d_lookup (doc_Details r') "old" = None.
Proof.
  destruct (details_log_replays [] no_hash (doc_over (detail_layer cur_details) (detail_layer prev_details)) cur_details
    (single (detail_layer prev_details))) as (r' & E & Hk); [reflexivity|intros k; reflexivity|].
  exists r'. split; [exact E|]. rewrite !Hk. repeat split; vm_compute; reflexivity.
Defined.

Lemma types_log_replays_witness :
  ∃ r', ApplyChange [] no_hash (single (with_types ["page"; "task"])) (makeObjectTypesChanges (doc_over (with_types ["note"; "task"]) (with_types ["page"; "task"])))
          = Some (None, r') ∧ default [] (doc_ObjectTypeKeys r') = ["task"; "note"].
Proof.
  destruct (types_log_replays [] no_hash (doc_over (with_types ["note"; "task"]) (with_types ["page"; "task"])) ["note"; "task"]
    (single (with_types ["page"; "task"]))) as (r' & E & Ht & _); [reflexivity|by apply (bool_decide_unpack (NoDup _))|reflexivity|].
  exists r'. split; [exact E|]. rewrite Ht. vm_compute. reflexivity.
Defined.

Definition plain : Doc := single (DetailsInst.layer None None).
Definition ops0 : list store_op :=
  [SOSet ["settings"; "lang"] (PString "en"); SOSet ["settings"; "lang"] (PString "en"); SOSet ["settings"; "size"] (PString "2"); SORemove ["settings"; "lang"]].
Example ops0_log : (λ d, st_changes (dc_tree d)) <$> run_ops plain ops0 =
  Some [ChStoreKeySet ["settings"; "lang"] (PString "en"); ChStoreKeySet ["settings"; "size"] (PString "2"); ChStoreKeyUnset ["settings"; "lang"]].
Proof. vm_compute. reflexivity. Qed.

Lemma store_log_replays_witness :
  ∃ d' log r', run_ops plain ops0 = Some d' ∧ st_changes (dc_tree d') = st_changes (dc_tree plain) ++ log ∧
    ApplyChange [] no_hash plain log = Some (None, r') ∧ store_of r' = store_of d'.
Proof.
  apply (store_log_replays [] no_hash ops0 plain plain); [|left; reflexivity|left; reflexivity|reflexivity].
  cbn [ops_ok ops0 op_ok]. repeat (split; [repeat split; discriminate|intros ? _]). exact I.
Defined.

Lemma setInStore_correct_witness :
  ∃ ch d' store, setInStore plain ["settings"; "lang"] (PString "en") = Some (ch, d') ∧ doc_Store d' = Some store ∧
    store_at store ["settings"; "lang"] = PString "en" ∧ store_at store ["other"] = PNil.
Proof.
  destruct (setInStore plain ["settings"; "lang"] (PString "en")) as [[ch d']|] eqn:E; [|discriminate].
  destruct (proj2 (setInStore_correct plain ["settings"; "lang"] (PString "en") ltac:(discriminate)) ch d' E) as (store & Es & Hat & _ & _ & Hap & _).
  exists ch, d', store. split; [reflexivity|]. split; [exact Es|]. split; [exact Hat|]. rewrite Hap; [reflexivity|..]; intros [e Ee]; discriminate.
Defined.

(** ** Logs that cannot be followed *)

(** "x" moves to "q" and the new "z" takes its place in "p". *)
Definition p1 : Blocks := blocks_of [para "root" ["q"; "p"]; para "q" []; para "p" ["x"; "y"]; para "x" []; para "y" []].
Definition top1 : Blocks := blocks_of [para "q" ["x"]; para "p" ["z"; "y"]; para "z" []].
(** "i1" moves to "p", and "i2" from "i1" behind it. *)
Definition p2 : Blocks := blocks_of [para "root" ["q"; "p"]; para "q" ["i1"]; para "p" []; para "i1" ["i2"]; para "i2" []].
Definition top2 : Blocks := blocks_of [para "q" []; para "p" ["i1"; "i2"]; para "i1" []].

(** The children of a block in the state that was applied, and in the replica. *)
Definition lists_after (top p : Blocks) (q : string) : option (list string * list string * list Change) :=
  match apply_normalized [] no_snippet (fillChanges []) (over top p) with
  | Some (Ok (_, _, d')) =>
      match ApplyChange [] no_hash (replica p) (st_changes (dc_tree d')) with
      | Some (None, r') => Some (chd (st_blocks (dc_tree d')) q, chd (view (dc_tree r')) q, st_changes (dc_tree d'))
      | _ => None
      end
  | _ => None
  end.

(** C25. The two restrictions on the log are needed, and nothing reports it when they do
    not hold.  When the first child of a block moves to another parent and a new block
    takes its place, the new block is recorded as inserted before the moved one, and
    the replica, which has applied the move, puts it under the other parent.  When a
    block and its child move behind each other into one list, one change moves both,
    and the replica lists the child in the new place and still under its old parent. *)
Theorem unsafe_logs_diverge :
  (appliable (over top1 p1) p1 base_layer ∧ replica_of (replica p1) "root" p1 ∧
   lists_after top1 p1 "q" = Some (["x"], ["z"; "x"], [ChMove "q" PInner ["x"]; ChCreate "x" PTop [para "z" []]]) ∧
   (λ r, (r.1.1, r.1.2)) <$> lists_after top1 p1 "p" = Some (["z"; "y"], ["y"])) ∧
  (appliable (over top2 p2) p2 base_layer ∧ replica_of (replica p2) "root" p2 ∧
   lists_after top2 p2 "p" = Some (["i1"; "i2"], ["i1"; "i2"], [ChMove "p" PInner ["i1"; "i2"]]) ∧
   (λ r, (r.1.1, r.1.2)) <$> lists_after top2 p2 "i1" = Some ([], ["i2"])).
Proof.
  split; (split_and!; [|apply replica_replica|vm_compute; reflexivity..]).
  - apply (appliable_check top1 p1 ["q"; "p"; "x"; "y"]); try (vm_compute; reflexivity). vm_compute. by eexists.
  - apply (appliable_check top2 p2 ["q"; "p"; "i1"; "i2"]); try (vm_compute; reflexivity). vm_compute. by eexists.
Qed.
End ChangeInst.
