(* ===== verification/Table.v ===== *)
(** * Simple tables ([core/block/editor/table/table.go], [block.go], [editor.go])

    A table is a block with two children: a layout that lists the columns and one that
    lists the rows.  A row lists its cells; the id of a cell is made of the ids of its
    row and its column, and a cell that is empty need not exist.  The order of the
    cells of a row is the order of the columns: [normalizeRow] restores it.

    The code works on a state through pointers to blocks.  A pointer is the layer in
    which the block was found and its id: a block that [Pick] found in a layer below is
    written there, a block that [Get] returned is in the top layer.  Operations that
    can fail leave the state as it is at that point; the id generator is a counter.
    Errors are given by their cause, without the texts wrapped around it. *)

From S2P Require Import Prelude Slice GoFloat StateTree StateNormalize.

(** ** Computations on a state *)

(** The state and the number of ids generated so far.  [None] is a panic. *)
Abbreviation genstate := (State * nat)%type.
Definition M (A : Type) : Type := genstate → option (res A * genstate).

#[export] Instance M_ret : MRet M := λ A a g, Some (Ok a, g).
#[export] Instance M_bind : MBind M := λ A B f m g,
  match m g with
  | None => None
  | Some (Err e, g) => Some (Err e, g)
  | Some (Ok a, g) => f a g
  end.

Definition throw {A} (e : string) : M A := λ g, Some (Err e, g).
Definition panic {A} : M A := λ _, None.
Definition gets {A} (f : State → A) : M A := λ g, Some (Ok (f g.1), g).
Definition modify (f : State → State) : M () := λ g, Some (Ok (), (f g.1, g.2)).
(** An operation that returns a value and the state. *)
Definition act {A} (f : State → A * State) : M A := λ g, let '(a, s) := f g.1 in Some (Ok a, (s, g.2)).
Definition lift {A} (r : res A) : M A := λ g, Some (r, g).
Definition some {A} (o : option A) : M A := λ g, match o with Some a => Some (Ok a, g) | None => None end.
(** The error of a computation as a value. *)
Definition attempt {A} (m : M A) : M (res A) := λ g, match m g with None => None | Some (r, g) => Some (Ok r, g) end.

Section loops.
Context {A B : Type}.
Fixpoint for_each (f : A → M ()) (l : list A) : M () :=
  match l with [] => mret () | x :: l => _ ← f x; for_each f l end.
Fixpoint fold_each (f : B → A → M B) (acc : B) (l : list A) : M B :=
  match l with [] => mret acc | x :: l => acc ← f acc x; fold_each f acc l end.
End loops.
Fixpoint times {A} (n : nat) (m : M A) : M (list A) :=
  match n with O => mret [] | S n => x ← m; l ← times n m; mret (x :: l) end.

(** ** Pointers to blocks *)

Record ptr := { p_layer : nat; p_id : string }.
Definition top (id : string) : ptr := {| p_layer := 0; p_id := id |}.

Definition layers (s : State) : list Blocks := st_blocks s :: st_parents s.
Definition with_parents (s : State) (ps : list Blocks) : State :=
  {| st_rootId := st_rootId s; st_blocks := st_blocks s; st_parents := ps; st_changes := st_changes s; st_ignoreIds := st_ignoreIds s |}.

Definition deref (s : State) (p : ptr) : option Block := m ← layers s !! p_layer p; m !! p_id p.
(** Writing through a pointer. *)
Definition write (s : State) (p : ptr) (f : Block → Block) : State :=
  match p_layer p with
  | O => with_blocks s (alter f (p_id p) (st_blocks s))
  | S n => with_parents s (alter (alter f (p_id p)) n (st_parents s))
  end.

Fixpoint pick_ptr (n : nat) (ls : list Blocks) (id : string) : option ptr :=
  match ls with
  | [] => None
  | l :: ls => match l !! id with Some _ => Some {| p_layer := n; p_id := id |} | None => pick_ptr (S n) ls id end
  end.
(** [Pick] and [PickParentOf] as pointers; blocks are stored under their ids. *)
Definition PickPtr (s : State) (id : string) : option ptr := pick_ptr 0 (layers s) id.
Definition PickParentPtr (s : State) (id : string) : option ptr := p ← PickParentOf s id; PickPtr s (b_Id p).

Definition read (p : ptr) : M Block := o ← gets (λ s, deref s p); some o.
Definition set_children (p : ptr) (ids : list string) : M () := modify (λ s, write s p (λ b, with_children b ids)).

(** ** Ids of cells *)

Definition TableCellSeparator : Ascii.ascii := Ascii.Ascii true false true true false true false false.

Definition MakeCellID (rowID colID : string) : string := rowID +:+ "-" +:+ colID.

(** [strings.SplitN(id, "-", 2)]. *)
Fixpoint split_sep (id : string) : option (string * string) :=
  match id with
  | "" => None
  | String.String c id => if bool_decide (c = TableCellSeparator) then Some ("", id) else prod_map (String.String c) (λ x, x) <$> split_sep id
  end.
Definition errCellID : string := "invalid id: must contains rowID and colID".
Definition ParseCellID (id : string) : res (string * string) :=
  match split_sep id with Some p => Ok p | None => Err errCellID end.

(** [simple/table/utils.go]: exactly one separator, neither first nor last. *)
Fixpoint sep_count (id : string) : nat :=
  match id with "" => 0 | String.String c id => (if bool_decide (c = TableCellSeparator) then 1 else 0) + sep_count id end.
Definition IsTableCell (blockId : string) : bool :=
  match split_sep blockId with
  | Some (a, b) => bool_decide (sep_count b = 0%nat) && negb (bool_decide (a = "")) && negb (bool_decide (b = ""))
  | None => false
  end.

(** ** Blocks of a table *)

Definition errNotARow : string := "block is not a row".
Definition errNotAColumn : string := "block is not a column".
Definition errRowNotFound : string := "row is not found".
Definition errColumnNotFound : string := "column is not found".

Definition new_block (id : string) (ids : list string) (c : Content) : Block :=
  {| b_Id := id; b_ChildrenIds := ids; b_Content := c; b_Fields := ∅; b_BackgroundColor := "" |}.
Definition with_id (b : Block) (id : string) : Block :=
  {| b_Id := id; b_ChildrenIds := b_ChildrenIds b; b_Content := b_Content b; b_Fields := b_Fields b; b_BackgroundColor := b_BackgroundColor b |}.

Definition makeRow (id : string) : Block := new_block id [] (CTableRow false).
Definition makeColumn (id : string) : Block := new_block id [] CTableColumn.

Definition is_table (b : Block) : bool := match b_Content b with CTable => true | _ => false end.
Definition as_row (b : Block) : option bool := match b_Content b with CTableRow h => Some h | _ => None end.
Definition is_column (b : Block) : bool := match b_Content b with CTableColumn => true | _ => false end.
Definition is_header (b : Block) : bool := default false (as_row b).

Definition getRow (id : string) : M Block :=
  o ← act (λ s, Get s id);
  match o with
  | None => throw errRowNotFound
  | Some b => match as_row b with Some _ => mret b | None => throw errNotARow end
  end.
Definition pickRow (id : string) : M Block :=
  o ← gets (λ s, Pick s id);
  match o with
  | None => throw errRowNotFound
  | Some b => match as_row b with Some _ => mret b | None => throw errNotARow end
  end.
Definition pickColumn (id : string) : M Block :=
  o ← gets (λ s, Pick s id);
  match o with
  | None => throw errColumnNotFound
  | Some b => if is_column b then mret b else throw errNotAColumn
  end.

(** The text of a block: its payload is the protobuf message of the text. *)
Class TextPayload := {
  tp_new : string;
  tp_text : string → string;
  tp_IsEmpty : string → bool;
}.
Class TextPayloadOk `{!TextPayload} := {
  tp_new_text : tp_text tp_new = "";
  tp_new_empty : tp_IsEmpty tp_new = true;
}.

(** [sort.Sort] of the cells of a row by column; the flag says whether it swapped. *)
Class RowSorter := row_sort : list (nat * string) → list (nat * string) * bool.
Class RowSorterOk `{!RowSorter} := {
  row_sort_perm l : (row_sort l).1 ≡ₚ l;
  row_sort_sorted l : StronglySorted (λ x y, (x.1 ≤ y.1)%nat) (row_sort l).1;
  row_sort_still l : (row_sort l).2 = false → (row_sort l).1 = l;
}.

Section table.
Context (md5hex : string → string) (NewObjectId : nat → string).
Context `{!TextPayload, !RowSorter}.

(** [bson.NewObjectId]. *)
Definition genID : M string := λ g, Some (Ok (NewObjectId g.2), (g.1, S g.2)).

Definition insertTo (target : string) (pos : BlockPosition) (ids : list string) : M () := λ g,
  match InsertTo md5hex g.1 target pos ids with
  | None => None
  | Some (Some e, s) => Some (Err e, (s, g.2))
  | Some (None, s) => Some (Ok (), (s, g.2))
  end.
Definition add (b : Block) (e : string) : M () := ok ← act (λ s, Add s b); if (ok : bool) then mret () else throw e.

Definition addCell (rowID colID : string) : M string :=
  let c := new_block (MakeCellID rowID colID) [] (CText tp_new) in
  _ ← add c "add text block"; mret (b_Id c).

(** ** The table of a block *)

(** The loop over the parents, as long as the tree is. *)
Fixpoint root_table (fuel : nat) (s : State) (next : option ptr) : option (option ptr) :=
  match next with
  | None => Some None
  | Some p =>
      match fuel with
      | O => None
      | S fuel =>
          match deref s p with
          | None => None
          | Some b => if is_table b then Some (Some p) else root_table fuel s (PickParentPtr s (b_Id b))
          end
      end
  end.
Definition PickTableRootBlock (id : string) : M (option ptr) :=
  o ← gets (λ s, root_table (S (iter_fuel s)) s (PickPtr s id)); some o.

(** Only the children of divs are kept when there is a div. *)
Definition destructure_ids (s : State) (ids : list string) : bool * list string :=
  foldl (λ acc id, match Pick s id with
                   | Some b => if isDivLayout b then (true, acc.2 ++ b_ChildrenIds b) else acc
                   | None => acc
                   end) (false, []) ids.
Definition destructureDivs (blockID : string) : M () :=
  o ← gets (λ s, Pick s blockID);
  match o with
  | None => mret ()
  | Some parent =>
      r ← gets (λ s, destructure_ids s (b_ChildrenIds parent));
      if (r.1 : bool) then _ ← act (λ s, Get s blockID); set_children (top blockID) r.2 else mret ()
  end.

(** A table is the pointer to its block.  Its parts are found again at every use;
    [None] is a part that is not there. *)
Definition part (style : LayoutStyle) (i : nat) (tb : ptr) : M (option ptr) :=
  b ← read tb;
  id ← some (b_ChildrenIds b !! i);
  gets (λ s, p ← PickPtr s id; b ← deref s p; if bool_decide (b_Content b = CLayout style) then Some p else None).
Definition Columns (tb : ptr) : M (option ptr) := part LTableColumns 0 tb.
Definition Rows (tb : ptr) : M (option ptr) := part LTableRows 1 tb.
(** [tb.Columns().Id] and the like dereference the part. *)
Definition ColumnsPtr (tb : ptr) : M ptr := o ← Columns tb; some o.
Definition RowsPtr (tb : ptr) : M ptr := o ← Rows tb; some o.
Definition ColumnIDs (tb : ptr) : M (list string) := p ← ColumnsPtr tb; b ← read p; mret (b_ChildrenIds b).
Definition RowIDs (tb : ptr) : M (list string) := p ← RowsPtr tb; b ← read p; mret (b_ChildrenIds b).

Definition index_of (ids : list string) : gmap string nat := list_to_map (reverse (zip ids (seq 0 (length ids)))).
Definition MakeColumnIndex (tb : ptr) : M (gmap string nat) := ids ← ColumnIDs tb; mret (index_of ids).

Definition NewTable (id : string) : M ptr :=
  o ← PickTableRootBlock id;
  match o with
  | None => throw "root table block is not found"
  | Some tb =>
      b ← read tb;
      if (length (b_ChildrenIds b) <? 2)%nat then throw "inconsistent state: table block"
      else
        cols ← Columns tb;
        match cols with
        | None => throw "columns block is not found"
        | Some _ =>
            rows ← Rows tb;
            match rows with
            | None => throw "rows block is not found"
            | Some r =>
                _ ← destructureDivs (p_id r);
                c ← ColumnsPtr tb;
                _ ← destructureDivs (p_id c);
                ids ← RowIDs tb;
                _ ← for_each destructureDivs ids;
                mret tb
            end
        end
  end.

(** The parent of the table is made writable also when there is nothing to move. *)
Definition MoveBlocksUnderTheTable (tb : ptr) (ids : list string) : M () :=
  b ← read tb;
  o ← act (λ s, GetParentOf s (b_Id b));
  match o with
  | None => mret ()
  | Some parent =>
      let pos := FindPos (b_ChildrenIds parent) (b_Id b) in
      if (pos =? -1)%Z then mret ()
      else ch ← some (Insert (b_ChildrenIds parent) (pos + 1) ids); set_children (top (b_Id parent)) ch
  end.

Record CellPosition := { cp_RowID : string; cp_ColID : string; cp_CellID : string; cp_RowNumber : nat; cp_ColNumber : nat }.

(** The existing cells in order, until the callback stops or an error does: what the
    callback made of the cells so far, whether to go on, and the error.  A column that
    is not in the table has number 0. *)
Section iterate.
Context {A : Type} (f : A → option Block → CellPosition → A * bool).

Fixpoint cells_of_row (colIndex : gmap string nat) (rowNumber : nat) (rowID : string) (cells : list string) (acc : A) : M (A * bool * option string) :=
  match cells with
  | [] => mret (acc, true, None)
  | cellID :: cells =>
      match ParseCellID cellID with
      | Err e => mret (acc, false, Some e)
      | Ok (_, colID) =>
          cell ← gets (λ s, Pick s cellID);
          let '(acc, ok) := f acc cell {| cp_RowID := rowID; cp_ColID := colID; cp_CellID := cellID; cp_RowNumber := rowNumber;
                                          cp_ColNumber := default 0%nat (colIndex !! colID) |} in
          if ok then cells_of_row colIndex rowNumber rowID cells acc else mret (acc, false, None)
      end
  end.
Fixpoint rows_of_table (colIndex : gmap string nat) (rowNumber : nat) (rows : list string) (acc : A) : M (A * option string) :=
  match rows with
  | [] => mret (acc, None)
  | rowID :: rows =>
      row ← attempt (pickRow rowID);
      match row with
      | Err e => mret (acc, Some e)
      | Ok row =>
          '(acc, ok, err) ← cells_of_row colIndex rowNumber rowID (b_ChildrenIds row) acc;
          if (ok : bool) then rows_of_table colIndex (S rowNumber) rows acc else mret (acc, err)
      end
  end.
Definition Table_Iterate (tb : ptr) (acc : A) : M (A * option string) :=
  colIndex ← MakeColumnIndex tb;
  rows ← RowIDs tb;
  rows_of_table colIndex 0 rows acc.
End iterate.

Definition ErrCannotMoveTableBlocks : string := "can not move table blocks".

(** [lo.Every]: all of [subset] are in the collection. *)
Definition every (collection subset : list string) : bool := forallb (λ x, bool_decide (x ∈ collection)) subset.

Definition CheckTableBlocksMove (target : string) (pos : BlockPosition) (blockIds : list string) : M (string * BlockPosition) :=
  t ← attempt (NewTable target);
  rows ← match t with Ok tb => ids ← RowIDs tb; mret (every ids (blockIds ++ [target])) | Err _ => mret false end;
  if (rows : bool) then
    match pos with PBottom | PTop => mret (target, pos) | _ => throw "failed to move rows: position should be Top or Bottom" end
  else
    _ ← for_each (λ id,
          t ← PickTableRootBlock id;
          match t with
          | Some p => if bool_decide (p_id p = id) then mret () else throw ErrCannotMoveTableBlocks
          | None => mret ()
          end) blockIds;
    t ← PickTableRootBlock target;
    match t with
    | Some p => if bool_decide (p_id p = target) then mret (target, pos) else mret (p_id p, PBottom)
    | None => mret (target, pos)
    end.

(** ** Normalisation ([block.go]) *)

Definition normalizeHeaderRows (tb : ptr) : M () :=
  p ← RowsPtr tb;
  rows ← act (λ s, Get s (p_id p));
  rows ← some rows;
  hr ← fold_each (λ '(headers, regular) rowID,
         row ← pickRow rowID;
         mret (if is_header row then (headers ++ [rowID], regular) else (headers, regular ++ [rowID]))) ([], []) (b_ChildrenIds rows);
  set_children (top (b_Id rows)) (hr.1 ++ hr.2).

(** The cells that have a column, with its number, and the others. *)
Definition sort_cells (colIdx : gmap string nat) (ids : list string) : list (nat * string) * list string :=
  foldl (λ acc id,
    match ParseCellID id with
    | Err _ => (acc.1, acc.2 ++ [id])
    | Ok (_, colID) => match colIdx !! colID with Some v => (acc.1 ++ [(v, id)], acc.2) | None => (acc.1, acc.2 ++ [id]) end
    end) ([], []) ids.
(** The row is in the top layer. *)
Definition normalizeRow (tb : ptr) (colIdx : option (gmap string nat)) (rowID : string) : M () :=
  row ← read (top rowID);
  colIdx ← match colIdx with Some c => mret c | None => MakeColumnIndex tb end;
  let '(cells, toRemove) := sort_cells colIdx (b_ChildrenIds row) in
  let '(sorted, swapped) := row_sort cells in
  if swapped || negb (bool_decide (toRemove = [])) then
    _ ← MoveBlocksUnderTheTable tb toRemove; set_children (top rowID) (sorted.*2)
  else mret ().

(** The columns block is written where it was found. *)
Definition normalizeColumns (tb : ptr) : M () :=
  ids ← ColumnIDs tb;
  r ← fold_each (λ '(invalid, colIds) colId,
        c ← attempt (pickColumn colId);
        match c with
        | Ok _ => mret (invalid, colIds ++ [colId])
        | Err e =>
            if bool_decide (e = errColumnNotFound) then
              ok ← act (λ s, Add s (makeColumn colId)); mret (true, if (ok : bool) then colIds ++ [colId] else colIds)
            else _ ← MoveBlocksUnderTheTable tb [colId]; mret (true, colIds)
        end) (false, []) ids;
  if (r.1 : bool) then p ← ColumnsPtr tb; set_children p r.2 else mret ().
Definition normalizeRows (tb : ptr) : M () :=
  colIdx ← MakeColumnIndex tb;
  ids ← RowIDs tb;
  r ← fold_each (λ '(invalid, rowIds) rowId,
        c ← attempt (getRow rowId);
        match c with
        | Ok _ => _ ← normalizeRow tb (Some colIdx) rowId; mret (invalid, rowIds ++ [rowId])
        | Err e =>
            if bool_decide (e = errRowNotFound) then
              ok ← act (λ s, Add s (makeRow rowId)); mret (true, if (ok : bool) then rowIds ++ [rowId] else rowIds)
            else _ ← MoveBlocksUnderTheTable tb [rowId]; mret (true, rowIds)
        end) (false, []) ids;
  if (r.1 : bool) then p ← RowsPtr tb; set_children p r.2 else mret ().

(** Errors are logged. *)
Definition Normalize (id : string) : M () :=
  t ← attempt (NewTable id);
  match t with
  | Err _ => _ ← act (λ s, Unlink s id); mret ()
  | Ok tb => _ ← normalizeColumns tb; _ ← normalizeRows tb; _ ← attempt (normalizeHeaderRows tb); mret ()
  end.
End table.
