(* ===== verification/TableEditor.v ===== *)
(** * Editing tables ([core/block/editor/table/editor.go], [Duplicate] of [block.go])

    The operations of the clients on the rows, columns and cells of a table.  The
    checks of the object's restrictions and the cleanup when an object is closed,
    which go through the smartblock, are outside. *)

From S2P Require Import Prelude Slice GoFloat StateTree StateNormalize StateApply Table.

(** What the sort of a table uses of [strings], [strconv] and [x/text/collate]. *)
Class SortText := {
  TrimSpace : string → string;
  ToLower : string → string;
  ParseFloat : string → option float64;
  Collate : string → string → Z;
}.

Section editor.
Context (md5hex : string → string) (NewObjectId : nat → string).
Context `{!TextPayload, !RowSorter, !SortText}.
Abbreviation genID := (genID NewObjectId).
Abbreviation insertTo := (insertTo md5hex).

Definition addColumnHeader : M string := id ← genID; _ ← add (makeColumn id) "add column block"; mret id.
Definition addRow : M string := id ← genID; _ ← add (makeRow id) "add row block"; mret id.

(** ** Rows *)

Definition errPosition : string := "position is not supported".

Definition RowCreate (target : string) (pos : BlockPosition) : M string :=
  target ← match pos with
           | PTop | PBottom => mret target
           | PInner => tb ← NewTable target; p ← RowsPtr tb; mret (p_id p)
           | _ => throw errPosition
           end;
  rowID ← addRow;
  _ ← insertTo target pos [rowID];
  mret rowID.

Definition RowDelete (target : string) : M () :=
  _ ← pickRow target;
  ok ← act (λ s, Unlink s target);
  if (ok : bool) then mret () else throw "unlink row block".

(** The new row is in the state while its cells are copied. *)
Fixpoint copy_cells (newID : string) (i : nat) (cells : list string) : M () :=
  match cells with
  | [] => mret ()
  | srcID :: cells =>
      cell ← gets (λ s, Pick s srcID);
      match cell with
      | None => throw "cell is not found"
      | Some cell =>
          '(_, colID) ← lift (ParseCellID srcID);
          let id := MakeCellID newID colID in
          _ ← add (with_id cell id) "add new cell";
          row ← read (top newID);
          _ ← set_children (top newID) (<[i := id]> (b_ChildrenIds row));
          copy_cells newID (S i) cells
      end
  end.
Definition RowDuplicate (target blockId : string) (pos : BlockPosition) : M string :=
  match pos with
  | PTop | PBottom =>
      srcRow ← pickRow blockId;
      _ ← pickRow target;
      newID ← genID;
      _ ← add (with_id srcRow newID) "add new row";
      _ ← insertTo target pos [newID];
      _ ← copy_cells newID 0 (b_ChildrenIds srcRow);
      mret newID
  | _ => throw errPosition
  end.

(** The cells of the columns that do not exist are created. *)
Definition fill_cell (rowID colID : string) : M () :=
  found ← gets (λ s, Exists s (MakeCellID rowID colID));
  if (found : bool) then mret () else _ ← addCell rowID colID; mret ().
Definition RowListFill (blockIds : list string) : M () :=
  match blockIds with
  | [] => throw "empty row list"
  | id0 :: _ =>
      tb ← NewTable id0;
      columns ← ColumnIDs tb;
      for_each (λ rowID,
        _ ← getRow rowID;
        _ ← for_each (fill_cell rowID) columns;
        set_children (top rowID) (MakeCellID rowID <$> columns)) blockIds
  end.

(** The loop reads the backing array [arr] of the row's children while [Unlink]
    compacts it in place, when the row is in the top layer. *)
Fixpoint clean_cells (row : ptr) (todo i : nat) (arr : list string) : M () :=
  match todo with
  | O => mret ()
  | S todo =>
      match arr !! i with
      | None => mret ()
      | Some cellID =>
          cell ← gets (λ s, Pick s cellID);
          match cell with
          | Some {| b_Content := CText payload |} =>
              if tp_IsEmpty payload then
                own ← read row;
                let kids := b_ChildrenIds own in
                shared ← gets (λ s, bool_decide (p_layer row = 0%nat) &&
                                    match PickParentOf s cellID with Some p => bool_decide (b_Id p = p_id row) | None => false end);
                _ ← act (λ s, Unlink s cellID);
                clean_cells row todo (S i)
                  (if (shared : bool) then (compact_loop (λ _ x, bool_decide (x ≠ cellID)) (length kids) 0 0 kids).1 ++ drop (length kids) arr else arr)
              else clean_cells row todo (S i) arr
          | _ => clean_cells row todo (S i) arr
          end
      end
  end.
Definition RowListClean (blockIds : list string) : M () :=
  match blockIds with
  | [] => throw "empty row list"
  | _ =>
      for_each (λ rowID,
        row ← pickRow rowID;
        p ← gets (λ s, PickPtr s rowID);
        p ← some p;
        clean_cells p (length (b_ChildrenIds row)) 0 (b_ChildrenIds row)) blockIds
  end.

Definition RowSetHeader (target : string) (isHeader : bool) : M () :=
  tb ← NewTable target;
  row ← getRow target;
  if Bool.eqb (is_header row) isHeader then mret ()
  else _ ← modify (λ s, write s (top target) (λ b, set_content b (CTableRow isHeader))); normalizeHeaderRows tb.

(** ** Columns *)

(** The last cell of the row that belongs to the column. *)
Definition proto_cell (colID : string) (cells : list string) : M (option string) :=
  fold_each (λ acc cellID, '(_, c) ← lift (ParseCellID cellID); mret (if bool_decide (c = colID) then Some cellID else acc)) None cells.
Definition cloneColumnStyles (srcColID targetColID : string) : M () :=
  tb ← NewTable srcColID;
  colIdx ← MakeColumnIndex tb;
  rows ← RowIDs tb;
  for_each (λ rowID,
    row ← pickRow rowID;
    proto ← proto_cell srcColID (b_ChildrenIds row);
    proto ← gets (λ s, proto ≫= Pick s);
    match proto with
    | Some b =>
        if bool_decide (b_BackgroundColor b = "") then mret ()
        else
          let target := MakeCellID rowID targetColID in
          _ ← fill_cell rowID targetColID;
          _ ← act (λ s, Get s target);
          _ ← modify (λ s, write s (top target) (λ c, set_background c (b_BackgroundColor b)));
          row ← act (λ s, Get s (b_Id row));
          row ← some row;
          _ ← set_children (top (b_Id row)) (b_ChildrenIds row ++ [target]);
          normalizeRow tb (Some colIdx) (b_Id row)
    | None => mret ()
    end) rows.

(** Beside a column, above or below it in the list of columns. *)
Definition side_pos (pos : BlockPosition) : option BlockPosition :=
  match pos with PLeft => Some PTop | PRight => Some PBottom | _ => None end.

Definition ColumnCreate (target : string) (pos : BlockPosition) : M string :=
  '(target, pos) ← match pos with
                   | PLeft => _ ← pickColumn target; mret (target, PTop)
                   | PRight => _ ← pickColumn target; mret (target, PBottom)
                   | PInner => tb ← NewTable target; p ← ColumnsPtr tb; mret (p_id p, PInner)
                   | _ => throw errPosition
                   end;
  colID ← addColumnHeader;
  _ ← insertTo target pos [colID];
  _ ← cloneColumnStyles target colID;
  mret colID.

(** The first cell of the column is unlinked. *)
Fixpoint delete_cell (colID : string) (cells : list string) : M () :=
  match cells with
  | [] => mret ()
  | cellID :: cells =>
      '(_, c) ← lift (ParseCellID cellID);
      if bool_decide (c = colID) then ok ← act (λ s, Unlink s cellID); if (ok : bool) then mret () else throw "unlink cell"
      else delete_cell colID cells
  end.
Definition ColumnDelete (target : string) : M () :=
  _ ← pickColumn target;
  tb ← NewTable target;
  rows ← RowIDs tb;
  _ ← for_each (λ rowID, row ← pickRow rowID; delete_cell target (b_ChildrenIds row)) rows;
  ok ← act (λ s, Unlink s target);
  if (ok : bool) then mret () else throw "unlink column header".

(** The first cell of the column, [""] when there is none. *)
Fixpoint first_cell (colID : string) (cells : list string) : M string :=
  match cells with
  | [] => mret ""
  | id :: cells => '(_, c) ← lift (ParseCellID id); if bool_decide (c = colID) then mret id else first_cell colID cells
  end.
Definition ColumnDuplicate (target blockId : string) (pos : BlockPosition) : M string :=
  match side_pos pos with
  | None => throw errPosition
  | Some pos =>
      srcCol ← pickColumn blockId;
      _ ← pickColumn target;
      tb ← NewTable target;
      newID ← genID;
      _ ← add (with_id srcCol newID) "add column block";
      _ ← insertTo target pos [newID];
      colIdx ← MakeColumnIndex tb;
      rows ← RowIDs tb;
      _ ← for_each (λ rowID,
            row ← getRow rowID;
            cellID ← first_cell blockId (b_ChildrenIds row);
            if bool_decide (cellID = "") then mret ()
            else
              cell ← gets (λ s, Pick s cellID);
              match cell with
              | None => throw "cell is not found"
              | Some cell =>
                  let id := MakeCellID rowID newID in
                  _ ← add (with_id cell id) "add cell block";
                  _ ← set_children (top rowID) (b_ChildrenIds row ++ [id]);
                  normalizeRow tb (Some colIdx) rowID
              end) rows;
      mret newID
  end.

Definition ColumnMove (target dropTarget : string) (pos : BlockPosition) : M () :=
  match side_pos pos with
  | None => throw errPosition
  | Some pos =>
      _ ← pickColumn target;
      _ ← pickColumn dropTarget;
      tb ← NewTable target;
      ok ← act (λ s, Unlink s target);
      if negb (ok : bool) then throw "unlink target column"
      else
        _ ← insertTo dropTarget pos [target];
        colIdx ← MakeColumnIndex tb;
        rows ← RowIDs tb;
        for_each (λ id, _ ← getRow id; normalizeRow tb (Some colIdx) id) rows
  end.

Definition ColumnListFill (blockIds : list string) : M () :=
  match blockIds with
  | [] => throw "empty row list"
  | id0 :: _ =>
      tb ← NewTable id0;
      rows ← RowIDs tb;
      _ ← for_each (λ colID,
            for_each (λ rowID,
              found ← gets (λ s, Exists s (MakeCellID rowID colID));
              if (found : bool) then mret ()
              else
                id ← addCell rowID colID;
                row ← getRow rowID;
                set_children (top rowID) (b_ChildrenIds row ++ [id])) rows) blockIds;
      colIdx ← MakeColumnIndex tb;
      for_each (λ rowID, _ ← getRow rowID; normalizeRow tb (Some colIdx) rowID) rows
  end.

(** ** Tables *)

(** A cell with given content. *)
Definition CellCreate (rowID colID : string) (content : Content) : M string :=
  tb ← NewTable rowID;
  _ ← getRow rowID;
  _ ← pickColumn colID;
  cellID ← addCell rowID colID;
  _ ← act (λ s, Get s cellID);
  _ ← modify (λ s, write s (top cellID) (λ b, set_content b content));
  _ ← insertTo rowID PInner [cellID];
  _ ← normalizeRow tb None rowID;
  mret cellID.

(** A table without rows has no last row: a panic. *)
Definition Expand (target : string) (columns rows : nat) : M () :=
  tb ← NewTable target;
  _ ← times columns (ColumnCreate target PInner);
  _ ← times rows (ids ← RowIDs tb; last ← some (last ids); RowCreate last PBottom);
  mret ().

(** [restricted]: the error of the check of the object's restrictions. *)
Definition TableCreate (restricted : option string) (target : string) (pos : BlockPosition) (columns rows : nat) (withHeaderRow : bool) : M string :=
  _ ← match restricted with Some e => throw e | None => mret () end;
  id ← genID;
  _ ← add (new_block id [] CTable) "add table block";
  _ ← insertTo target pos [id];
  columnIds ← times columns addColumnHeader;
  colsID ← genID;
  _ ← add (new_block colsID columnIds (CLayout LTableColumns)) "add columns block";
  rowIDs ← times rows addRow;
  rowsID ← genID;
  _ ← add (new_block rowsID rowIDs (CLayout LTableRows)) "add rows block";
  _ ← set_children (top id) [colsID; rowsID];
  if negb withHeaderRow then mret id
  else
    match rowIDs with
    | [] => throw "no rows to make header row"
    | headerID :: _ =>
        _ ← RowSetHeader headerID true;
        _ ← RowListFill [headerID];
        row ← getRow headerID;
        _ ← for_each (λ cellID,
              cell ← act (λ s, Get s cellID);
              match cell with
              | None => throw "get header cell id"
              | Some _ => modify (λ s, write s (top cellID) (λ b, set_background b "grey"))
              end) (b_ChildrenIds row);
        mret id
    end.

(** ** Sorting rows *)

(** [tableSorter.Less]: numbers come before texts. *)
Definition sorter_Less (a b : string) : bool :=
  let a := TrimSpace a in
  let b := TrimSpace b in
  match ParseFloat a, ParseFloat b with
  | Some x, Some y => f_lt x y
  | Some _, None => true
  | None, Some _ => false
  | None, None => (Collate (ToLower a) (ToLower b) <? 0)%Z
  end.

(** [sort.Stable] by values: there is one stable order. *)
Fixpoint insert_row (less : string → string → bool) (x : string * string) (l : list (string * string)) : list (string * string) :=
  match l with
  | [] => [x]
  | y :: l => if less y.1 x.1 then y :: insert_row less x l else x :: y :: l
  end.
Definition stable_rows (less : string → string → bool) (l : list (string * string)) : list (string * string) := foldr (insert_row less) [] l.

(** The value of a row: the text of its cell in the column. *)
Definition cell_text (colID : string) (row : Block) : M string :=
  fold_each (λ acc cellID,
    '(_, c) ← lift (ParseCellID cellID);
    if bool_decide (c = colID) then
      cell ← gets (λ s, Pick s cellID);
      match cell with
      | None => throw "cell is not found"
      | Some b => mret (match b_Content b with CText t => tp_text t | _ => "" end)
      end
    else mret acc) "" (b_ChildrenIds row).
Definition Sort (columnId : string) (asc : bool) : M () :=
  _ ← pickColumn columnId;
  tb ← NewTable columnId;
  p ← RowsPtr tb;
  rows ← act (λ s, Get s (p_id p));
  rows ← some rows;
  hv ← fold_each (λ '(headers, values) rowID,
         row ← pickRow rowID;
         if is_header row then mret (headers ++ [rowID], values)
         else v ← cell_text columnId row; mret (headers, values ++ [(v, rowID)])) ([], []) (b_ChildrenIds rows);
  let less := if asc then sorter_Less else (λ a b, sorter_Less b a) in
  set_children (top (b_Id rows)) (hv.1 ++ (stable_rows less hv.2).*2).

(** ** Copies ([block.Duplicate]) *)

(** The new blocks, not in the state, and the ids of the old ones. *)
Definition dup_cell (colMapping : gmap string string) (newRow : string) (acc : list string * list Block * list string) (cellID : string)
    : M (list string * list Block * list string) :=
  '(_, oldCol) ← lift (ParseCellID cellID);
  match colMapping !! oldCol with
  | None => throw "column mapping is not found"
  | Some newCol =>
      cell ← gets (λ s, Pick s cellID);
      cell ← some cell;
      let id := MakeCellID newRow newCol in
      mret (acc.1.1 ++ [cellID], acc.1.2 ++ [with_id cell id], acc.2 ++ [id])
  end.
Definition Duplicate (id : string) : M (string * list string * list Block) :=
  tb ← NewTable id;
  cp ← ColumnsPtr tb;
  cols ← read cp;
  cm ← fold_each (λ '(mapping, visited, blocks, ids) colID,
         col ← gets (λ s, Pick s colID);
         match col with
         | None => throw "column is not found"
         | Some col =>
             newID ← genID;
             mret (<[colID := newID]> mapping, visited ++ [colID], blocks ++ [with_id col newID], ids ++ [newID])
         end) ((∅ : gmap string string), [id; p_id cp], [], []) (b_ChildrenIds cols);
  let '(mapping, visited, blocks, colIds) := cm in
  colsID ← genID;
  rp ← RowsPtr tb;
  rows ← read rp;
  rm ← fold_each (λ '(visited, blocks, ids) rowID,
         row ← gets (λ s, Pick s rowID);
         row ← some row;
         newID ← genID;
         r ← fold_each (dup_cell mapping newID) (visited ++ [rowID], [], []) (b_ChildrenIds row);
         let '(visited, cells, cellIds) := r in
         mret (visited, blocks ++ with_children (with_id row newID) cellIds :: cells, ids ++ [newID]))
       (visited ++ [p_id rp], blocks ++ [with_children (with_id cols colsID) colIds], []) (b_ChildrenIds rows);
  let '(visited, blocks, rowIds) := rm in
  rowsID ← genID;
  b ← read tb;
  newID ← genID;
  mret (newID, visited, blocks ++ [with_children (with_id rows rowsID) rowIds; with_children (with_id b newID) [colsID; rowsID]]).
End editor.
