(* ===== verification/TableView.v ===== *)
(** * Tables: pointers, edits and the parts of a table *)

From S2P Require Import Prelude Slice GoFloat StateTree StateNormalize StateApply Table TableEditor.

(** ** Running computations *)

(** The computation ends without a panic and without an error. *)
Definition runs {A} (m : M A) (g : genstate) (Q : A → genstate → Prop) : Prop := ∃ a g', m g = Some (Ok a, g') ∧ Q a g'.

Lemma runs_ret {A} (a : A) g (Q : A → genstate → Prop) : Q a g → runs (mret a) g Q.
Proof. intros HQ. by exists a, g. Qed.
Lemma runs_bind {A B} (m : M A) (f : A → M B) g Q : runs m g (λ a g', runs (f a) g' Q) → runs (m ≫= f) g Q.
Proof. intros (a & g' & E & b & g2 & E' & HQ). exists b, g2. split; [|done]. unfold mbind, M_bind. by rewrite E. Qed.
Lemma runs_mono {A} (m : M A) g (P Q : A → genstate → Prop) : runs m g P → (∀ a g', P a g' → Q a g') → runs m g Q.
Proof. intros (a & g' & E & HP) H. exists a, g'. auto. Qed.
Lemma runs_eq {A} (m : M A) g a g' (Q : A → genstate → Prop) : m g = Some (Ok a, g') → Q a g' → runs m g Q.
Proof. intros E HQ. by exists a, g'. Qed.

(** A loop with an invariant about what is done and what is left. *)
Lemma runs_for_each {A} (f : A → M ()) (I : list A → genstate → Prop) (l : list A) : ∀ done g,
  (∀ done x todo g, done ++ x :: todo = l → I done g → runs (f x) g (λ _, I (done ++ [x]))) →
  ∀ todo, done ++ todo = l → I done g → runs (for_each f todo) g (λ _, I l).
Proof.
  intros dn g Hf todo. revert dn g. induction todo as [|x todo IH]; intros dn g E HI.
  - apply runs_ret. by rewrite app_nil_r in E; subst.
  - cbn [for_each]. apply runs_bind. eapply runs_mono; [by eapply Hf|]. intros u g' HI'. apply (IH (dn ++ [x])); [by rewrite <- app_assoc|done].
Qed.
Lemma runs_fold_each {A B} (f : B → A → M B) (I : list A → B → genstate → Prop) (l : list A) : ∀ dn acc g,
  (∀ dn x todo acc g, dn ++ x :: todo = l → I dn acc g → runs (f acc x) g (λ acc', I (dn ++ [x]) acc')) →
  ∀ todo, dn ++ todo = l → I dn acc g → runs (fold_each f acc todo) g (λ acc', I l acc').
Proof.
  intros dn acc g Hf todo. revert dn acc g. induction todo as [|x todo IH]; intros dn acc g E HI.
  - apply runs_ret. by rewrite app_nil_r in E; subst.
  - cbn [fold_each]. apply runs_bind. eapply runs_mono; [by eapply Hf|]. intros acc' g' HI'. apply (IH (dn ++ [x])); [by rewrite <- app_assoc|done].
Qed.

(** ** Pointers *)

Lemma pick_ptr_spec id b : ∀ ls n, pick_layers ls id = Some b →
  ∃ k, pick_ptr n ls id = Some {| p_layer := (n + k)%nat; p_id := id |} ∧ (m ← ls !! k; m !! id) = Some b.
Proof.
  induction ls as [|l ls IH]; intros n; [done|]. cbn [pick_layers pick_ptr]. destruct (l !! id) as [b'|] eqn:E.
  - intros [= ->]. exists 0%nat. by rewrite Nat.add_0_r.
  - intros H. destruct (IH (S n) H) as (k & -> & Hk). exists (S k). split; [do 2 f_equal; lia|done].
Qed.
Lemma PickPtr_spec s id b : view s !! id = Some b → ∃ p, PickPtr s id = Some p ∧ p_id p = id ∧ deref s p = Some b.
Proof.
  rewrite <- Pick_view. intros H. destruct (pick_ptr_spec id b (layers s) 0 H) as (k & E & Hk). eexists. split; [exact E|]. split; [done|exact Hk].
Qed.
Lemma pick_ptr_None id : ∀ ls n, pick_layers ls id = None → pick_ptr n ls id = None.
Proof. induction ls as [|l ls IH]; intros n; [done|]. cbn [pick_layers pick_ptr]. destruct (l !! id); [done|]. apply IH. Qed.
Lemma PickPtr_None s id : view s !! id = None → PickPtr s id = None.
Proof. rewrite <- Pick_view. apply pick_ptr_None. Qed.

(** ** Edits of the top layer *)

(** The state [s'] has the block [b] under [id] in its top layer and otherwise shows
    what [s] shows. *)
Record edit (s s' : State) (id : string) (b : Block) : Prop := {
  ed_view : view s' = <[id:=b]> (view s);
  ed_below : same_below s s';
  ed_top : st_blocks s' !! id = Some b;
  ed_keep i c : i ≠ id → st_blocks s !! i = Some c → st_blocks s' !! i = Some c;
}.

Lemma top_view s id b : st_blocks s !! id = Some b → view s !! id = Some b.
Proof. intros H. rewrite <- Pick_view. unfold Pick. cbn [pick_layers]. by rewrite H. Qed.

(** What a pointer sees is not touched by steps on other blocks. *)
Definition sees (s s' : State) (id : string) : Prop := ∀ p b, p_id p = id → deref s p = Some b → deref s' p = Some b.
Lemma sees_refl s id : sees s s id.
Proof. by intros p b. Qed.
Lemma sees_trans s1 s2 s3 id : sees s1 s2 id → sees s2 s3 id → sees s1 s3 id.
Proof. unfold sees. eauto. Qed.
Lemma sees_grow s s' id : same_below s s' → (∀ b, st_blocks s !! id = Some b → st_blocks s' !! id = Some b) → sees s s' id.
Proof.
  intros [_ Hp] Hk [[|n] i] b; cbn [p_id]; intros -> ; unfold deref; cbn; [apply Hk|by rewrite Hp].
Qed.
Lemma same_view_sees s s' id : same_view s s' → sees s s' id.
Proof. intros (_ & Hb & Hk). apply sees_grow; [done|]. apply Hk. Qed.
Lemma edit_sees s s' i b id : edit s s' i b → id ≠ i → sees s s' id.
Proof. intros [_ Hb _ Hk] Hne. apply sees_grow; [done|]. intros c. by apply Hk. Qed.

Lemma same_view_edit s1 s2 s3 id b : same_view s1 s2 → edit s2 s3 id b → edit s1 s3 id b.
Proof.
  intros (V & B & K) [V' B' T' K']. split; [by rewrite V', V|by eapply same_below_trans|done|auto].
Qed.
Lemma edit_edit s1 s2 s3 id b c : edit s1 s2 id b → edit s2 s3 id c → edit s1 s3 id c.
Proof.
  intros [V B T K] [V' B' T' K']. split; [by rewrite V', V, insert_insert_eq|by eapply same_below_trans|done|auto].
Qed.
(** Writing a block of the top layer. *)
Lemma write_top s id b f : st_blocks s !! id = Some b → edit s (write s (top id) f) id (f b).
Proof.
  intros Hb. assert (alter f id (st_blocks s) = <[id:=f b]> (st_blocks s)) as E.
  { apply map_eq. intros q. destruct (decide (q = id)) as [->|Hne]; [by rewrite lookup_alter_eq, Hb, lookup_insert_eq|by rewrite lookup_alter_ne, lookup_insert_ne]. }
  unfold write. cbn [top p_layer p_id]. rewrite E. split.
  - apply view_insert.
  - done.
  - apply lookup_insert_eq.
  - intros i c Hne Hc. cbn [with_blocks st_blocks]. by rewrite lookup_insert_ne.
Qed.
Lemma Add_edit s b : view s !! b_Id b = None → ∃ s', Add s b = (true, s') ∧ edit s s' (b_Id b) b.
Proof.
  intros Hn. exists (put s b). split; [by apply Add_put|]. split; [apply view_put|apply below_put|by rewrite put_lookup, decide_True|].
  intros i c Hne Hc. by rewrite put_lookup, decide_False.
Qed.
Lemma setChildrenIds_edit s id b ids : st_blocks s !! id = Some b → edit s (setChildrenIds s id ids) id (with_children b ids).
Proof.
  intros Hb. destruct (setChildrenIds_view s id b ids Hb) as (V & B & T). split; [done|done|..]; unfold setChildrenIds; rewrite Hb.
  - apply lookup_insert_eq.
  - intros i c Hne Hc. cbn [with_blocks st_blocks]. by rewrite lookup_insert_ne.
Qed.
Lemma Unlink_edit s c p bp l r : wf (view s) [st_rootId s] → reach (view s) (st_rootId s) p → view s !! p = Some bp → b_ChildrenIds bp = l ++ c :: r →
  ∃ s', Unlink s c = (true, s') ∧ edit s s' p (with_children bp (l ++ r)).
Proof.
  intros Hwf Hr Hp Hch. assert (b_Id bp = p) as Eid by (by eapply (wf_keys _ _ Hwf)).
  assert (PickParentOf s c = Some bp) as HP.
  { apply (PickParentOf_spec s [] Hwf). rewrite Eid, Hch. split_and!; [done|done|]. apply elem_of_app. right. left. }
  assert (c ∉ l ++ r) as Hc.
  { pose proof (wf_nodup _ _ Hwf p bp ltac:(exists (st_rootId s); split; [left|done]) Hp) as Hn. rewrite Hch, <- Permutation_middle in Hn.
    by apply NoDup_cons in Hn as [? _]. }
  unfold Unlink, GetParentOf. rewrite HP, Eid. destruct (Get_some s p bp Hp) as (s1 & -> & S1 & T1).
  eexists. split; [done|]. unfold removeChildren. rewrite Hch, RemoveMut_middle, Eid by done.
  eapply same_view_edit; [done|]. by apply setChildrenIds_edit.
Qed.

Section insert.
Context (md5hex : string → string).

(** Inserting a root of the forest above or below a block. *)
Lemma insertTo_beside s n x t p bp l r (below : bool) :
  wf (view s) [st_rootId s; x] → listed (view s) (st_rootId s) t p bp l r → t ≠ "" →
  let ids := if below then l ++ t :: x :: r else l ++ x :: t :: r in
  ∃ s', insertTo md5hex t (if below then PBottom else PTop) [x] (s, n) = Some (Ok (), (s', n)) ∧ edit s s' p (with_children bp ids).
Proof.
  intros Hwf Hl Ht ids. pose proof Hl as (Hr & Hp & Hch & [bt Hbt]).
  pose proof (listed_facts _ _ _ _ Hwf _ _ _ _ Hl) as (_ & Hid & _).
  destruct (InsertTo_listed md5hex s [x] t Hwf ltac:(done) Ht p bp bt l r (if below then PBottom else PTop) Hl Hbt) as (s2 & S2 & _ & B2 & E);
    [by destruct below..|].
  unfold insertTo. cbn [fst snd]. rewrite E. destruct below; cbn [insert_at]; rewrite Hid.
  - destruct (insertChildren_at s [x] s2 p bp (l ++ [t]) r S2 B2) as (s3 & E3 & -> & _ & _); [by rewrite Hch, <- app_assoc|].
    rewrite length_app in E3. cbn [length] in E3. replace (Z.of_nat (length l + 1)) with (Z.of_nat (length l) + 1)%Z in E3 by lia.
    rewrite E3. eexists. split; [done|]. rewrite <- app_assoc. eapply same_view_edit; [done|]. by apply setChildrenIds_edit.
  - destruct (insertChildren_at s [x] s2 p bp l (t :: r) S2 B2 Hch) as (s3 & -> & -> & _ & _). eexists. split; [done|].
    eapply same_view_edit; [done|]. by apply setChildrenIds_edit.
Qed.
End insert.

(** ** The parts of a table *)

Record table (V : Blocks) (root tid : string) (bt bc br : Block) (cols rows : list string) : Prop := {
  tb_reach : reach V root tid;
  tb_block : V !! tid = Some bt;
  tb_kind : is_table bt = true;
  tb_parts : ∃ rest, b_ChildrenIds bt = b_Id bc :: b_Id br :: rest;
  tb_columns : V !! b_Id bc = Some bc ∧ b_Content bc = CLayout LTableColumns ∧ b_ChildrenIds bc = cols;
  tb_rows : V !! b_Id br = Some br ∧ b_Content br = CLayout LTableRows ∧ b_ChildrenIds br = rows;
}.

(** No child of the block is a div. *)
Definition no_divs (V : Blocks) (q : string) : Prop :=
  ∀ b c bc, V !! q = Some b → c ∈ b_ChildrenIds b → V !! c = Some bc → isDivLayout bc = false.

Lemma destructure_none s ids : (∀ c b, c ∈ ids → view s !! c = Some b → isDivLayout b = false) → destructure_ids s ids = (false, []).
Proof.
  unfold destructure_ids. induction ids as [|c ids IH]; intros Hd; [done|]. cbn [foldl].
  rewrite Pick_view. destruct (view s !! c) as [b|] eqn:Eb; [rewrite (Hd c b ltac:(left) Eb)|]; (apply IH; intros c' b' Hc'; apply Hd; by right).
Qed.
Lemma destructureDivs_none s n q : no_divs (view s) q → destructureDivs q (s, n) = Some (Ok (), (s, n)).
Proof.
  intros Hd. unfold destructureDivs, mbind, M_bind, gets. cbn [fst snd]. rewrite Pick_view. destruct (view s !! q) as [b|] eqn:Eb; [|done].
  rewrite destructure_none; [done|]. intros c bc Hc. by apply (Hd b).
Qed.

Section parts.
Context (s : State) (n : nat) (root tid : string) (bt bc br : Block) (cols rows : list string).
Context (HT : table (view s) root tid bt bc br cols rows) (tb : ptr) (Htb : deref s tb = Some bt).

Lemma read_run p b : deref s p = Some b → read p (s, n) = Some (Ok b, (s, n)).
Proof. intros H. unfold read, mbind, M_bind, gets, some. cbn [fst]. by rewrite H. Qed.

Lemma part_run style i id b : b_ChildrenIds bt !! i = Some id → view s !! id = Some b → b_Content b = CLayout style →
  ∃ p, part style i tb (s, n) = Some (Ok (Some p), (s, n)) ∧ PickPtr s id = Some p ∧ p_id p = id ∧ deref s p = Some b.
Proof.
  intros Hi Hb Hc. destruct (PickPtr_spec s id b Hb) as (p & Ep & Hid & Hd). exists p. split; [|done].
  unfold part, mbind, M_bind. rewrite (read_run tb bt Htb). unfold some. rewrite Hi. unfold gets. cbn [fst]. rewrite Ep. cbn [option_bind].
  rewrite Hd. cbn [option_bind]. by rewrite bool_decide_eq_true_2.
Qed.
Lemma Columns_run : ∃ p, Columns tb (s, n) = Some (Ok (Some p), (s, n)) ∧ PickPtr s (b_Id bc) = Some p ∧ p_id p = b_Id bc ∧ deref s p = Some bc.
Proof. destruct (tb_parts _ _ _ _ _ _ _ _ HT) as [rest E], (tb_columns _ _ _ _ _ _ _ _ HT) as (? & ? & _). apply part_run; [by rewrite E|done..]. Qed.
Lemma Rows_run : ∃ p, Rows tb (s, n) = Some (Ok (Some p), (s, n)) ∧ PickPtr s (b_Id br) = Some p ∧ p_id p = b_Id br ∧ deref s p = Some br.
Proof. destruct (tb_parts _ _ _ _ _ _ _ _ HT) as [rest E], (tb_rows _ _ _ _ _ _ _ _ HT) as (? & ? & _). apply part_run; [by rewrite E|done..]. Qed.
Lemma ColumnsPtr_run : ∃ p, ColumnsPtr tb (s, n) = Some (Ok p, (s, n)) ∧ PickPtr s (b_Id bc) = Some p ∧ p_id p = b_Id bc ∧ deref s p = Some bc.
Proof. destruct Columns_run as (p & E & H). exists p. split; [|done]. unfold ColumnsPtr, mbind, M_bind. by rewrite E. Qed.
Lemma RowsPtr_run : ∃ p, RowsPtr tb (s, n) = Some (Ok p, (s, n)) ∧ PickPtr s (b_Id br) = Some p ∧ p_id p = b_Id br ∧ deref s p = Some br.
Proof. destruct Rows_run as (p & E & H). exists p. split; [|done]. unfold RowsPtr, mbind, M_bind. by rewrite E. Qed.
Lemma ColumnIDs_run : ColumnIDs tb (s, n) = Some (Ok cols, (s, n)).
Proof.
  destruct ColumnsPtr_run as (p & E & _ & _ & Hd). unfold ColumnIDs, mbind, M_bind. rewrite E, (read_run p bc Hd).
  destruct (tb_columns _ _ _ _ _ _ _ _ HT) as (_ & _ & <-). done.
Qed.
Lemma RowIDs_run : RowIDs tb (s, n) = Some (Ok rows, (s, n)).
Proof.
  destruct RowsPtr_run as (p & E & _ & _ & Hd). unfold RowIDs, mbind, M_bind. rewrite E, (read_run p br Hd).
  destruct (tb_rows _ _ _ _ _ _ _ _ HT) as (_ & _ & <-). done.
Qed.
Lemma MakeColumnIndex_run : MakeColumnIndex tb (s, n) = Some (Ok (index_of cols), (s, n)).
Proof. unfold MakeColumnIndex, mbind, M_bind. by rewrite ColumnIDs_run. Qed.
End parts.

Section new_table.
Context (s : State) (n : nat) (tid : string) (bt bc br : Block) (cols rows : list string).
Context (Hwf : wf (view s) [st_rootId s]) (HT : table (view s) (st_rootId s) tid bt bc br cols rows).
Context (Hdc : no_divs (view s) (b_Id bc)) (Hdr : no_divs (view s) (b_Id br)) (Hdrow : ∀ r, r ∈ rows → no_divs (view s) r).

Lemma table_pointer : ∃ tb, PickPtr s tid = Some tb ∧ p_id tb = tid ∧ deref s tb = Some bt.
Proof. apply PickPtr_spec, HT. Qed.

(** A list of rows, or of rows for the loop over them. *)
Lemma destructure_rows ids : (∀ r, r ∈ ids → no_divs (view s) r) → for_each destructureDivs ids (s, n) = Some (Ok (), (s, n)).
Proof.
  induction ids as [|r ids IH]; intros Hd; [done|]. cbn [for_each]. unfold mbind, M_bind. rewrite destructureDivs_none by (apply Hd; left).
  apply IH. intros r' Hr'. apply Hd. by right.
Qed.

(** What [NewTable] finds once it has found the table. *)
Lemma NewTable_run id tb : PickTableRootBlock id (s, n) = Some (Ok (Some tb), (s, n)) → deref s tb = Some bt → NewTable id (s, n) = Some (Ok tb, (s, n)).
Proof.
  intros E Htb. unfold NewTable, mbind, M_bind. rewrite E, (read_run s n tb bt Htb). destruct (tb_parts _ _ _ _ _ _ _ _ HT) as [rest ->].
  cbn [length Nat.ltb Nat.leb]. destruct (Columns_run s n _ _ _ _ _ _ _ HT tb Htb) as (pc & -> & _).
  destruct (Rows_run s n _ _ _ _ _ _ _ HT tb Htb) as (pr & -> & _ & -> & _). rewrite (destructureDivs_none s n _ Hdr).
  destruct (ColumnsPtr_run s n _ _ _ _ _ _ _ HT tb Htb) as (pc' & -> & _ & -> & _). rewrite (destructureDivs_none s n _ Hdc).
  rewrite (RowIDs_run s n _ _ _ _ _ _ _ HT tb Htb), (destructure_rows rows Hdrow). done.
Qed.
Lemma NewTable_root : ∃ tb, NewTable tid (s, n) = Some (Ok tb, (s, n)) ∧ p_id tb = tid ∧ deref s tb = Some bt.
Proof.
  destruct table_pointer as (tb & Ep & Hid & Hd). exists tb. split; [|done]. apply NewTable_run; [|done].
  unfold PickTableRootBlock, mbind, M_bind, gets, some. cbn [fst]. rewrite Ep. cbn [root_table]. by rewrite Hd, (tb_kind _ _ _ _ _ _ _ _ HT).
Qed.

Lemma parent_pointer p bp c : reach (view s) (st_rootId s) p → view s !! p = Some bp → c ∈ b_ChildrenIds bp →
  ∃ q, PickParentPtr s c = Some q ∧ deref s q = Some bp.
Proof.
  intros Hr Hp Hc. assert (b_Id bp = p) as Eid by (by eapply (wf_keys _ _ Hwf)).
  assert (PickParentOf s c = Some bp) as E by (apply (PickParentOf_spec s [] Hwf); by rewrite Eid).
  destruct (PickPtr_spec s p bp Hp) as (q & Eq & _ & Hd). exists q. split; [|done]. unfold PickParentPtr. rewrite E. cbn. by rewrite Eid.
Qed.
Lemma parts_reach : reach (view s) (st_rootId s) (b_Id bc) ∧ reach (view s) (st_rootId s) (b_Id br).
Proof.
  destruct (tb_parts _ _ _ _ _ _ _ _ HT) as [rest E]. split; (eapply reach_child; [apply HT|apply HT|rewrite E]); [left|right; left].
Qed.
(** A block listed by one of the parts leads to the table. *)
Lemma NewTable_member c b part : (part = bc ∨ part = br) → c ∈ b_ChildrenIds part → view s !! c = Some b → is_table b = false →
  ∃ tb, NewTable c (s, n) = Some (Ok tb, (s, n)) ∧ p_id tb = tid ∧ deref s tb = Some bt.
Proof.
  intros Hpart Hc Hb Hnt. destruct parts_reach as [Rc Rr]. destruct (tb_parts _ _ _ _ _ _ _ _ HT) as [rest Ech].
  destruct (tb_columns _ _ _ _ _ _ _ _ HT) as (Lc & Kc & _), (tb_rows _ _ _ _ _ _ _ _ HT) as (Lr & Kr & _).
  assert (reach (view s) (st_rootId s) (b_Id part) ∧ view s !! b_Id part = Some part ∧ is_table part = false ∧ b_Id part ∈ b_ChildrenIds bt) as (Hr & Hp & Hnp & Hin).
  { unfold is_table. destruct Hpart as [->| ->]; rewrite ?Kc, ?Kr, Ech; (split_and!; try done); [left|right; left]. }
  destruct (PickPtr_spec s c b Hb) as (q0 & E0 & _ & D0). destruct (parent_pointer _ _ c Hr Hp Hc) as (q1 & E1 & D1).
  destruct (parent_pointer _ _ (b_Id part) (tb_reach _ _ _ _ _ _ _ _ HT) (tb_block _ _ _ _ _ _ _ _ HT) Hin) as (q2 & E2 & D2).
  assert (p_id q2 = tid) as Hq2.
  { unfold PickParentPtr in E2. destruct (PickParentOf s (b_Id part)) as [bp|] eqn:EP; [|done]. change (PickPtr s (b_Id bp) = Some q2) in E2.
    apply (PickParentOf_spec s [] Hwf) in EP as (Hr' & Hp' & Hin').
    assert (b_Id bp = tid) as Ebp.
    { apply (wf_uniq _ _ Hwf (b_Id bp) bp tid bt (b_Id part)); [by exists (st_rootId s); split; [left|]|exists (st_rootId s); split; [left|apply HT]|done|apply HT|done|done]. }
    destruct (PickPtr_spec s (b_Id bp) bp Hp') as (q' & Eq' & Hid' & _). congruence. }
  exists q2. split; [|done]. apply NewTable_run; [|done]. unfold PickTableRootBlock, mbind, M_bind, gets, some, iter_fuel. cbn [fst].
  assert (size (view s) ≠ 0%nat) as Hsz by (rewrite map_size_non_empty_iff; intros E; by rewrite E in Hb).
  destruct (size (view s)) as [|k]; [done|]. rewrite E0. cbn [root_table]. rewrite D0, Hnt.
  assert (b_Id b = c) as -> by (by eapply (wf_keys _ _ Hwf)). rewrite E1, D1, Hnp, E2, D2, (tb_kind _ _ _ _ _ _ _ _ HT). done.
Qed.
End new_table.
