(* ===== verification/TableColumns.v ===== *)
(** * Tables: the order of the cells of a row, and moving columns *)

From S2P Require Import Prelude Slice GoFloat StateTree StateNormalize StateApply Table TableEditor TableView.

(** ** Ids of cells *)

(** The column of a cell, by its id. *)
Definition col_of (id : string) : option string := snd <$> split_sep id.

Lemma ParseCellID_col id : ParseCellID id = match split_sep id with Some p => Ok p | None => Err errCellID end.
Proof. done. Qed.
(** An id is parsed back if the id of the row has no separator in it. *)
Lemma MakeCellID_split row col : sep_count row = 0%nat → split_sep (MakeCellID row col) = Some (row, col).
Proof.
  unfold MakeCellID. induction row as [|c row IH]; [done|]. cbn [sep_count]. intros Hs.
  change (split_sep ((String.String c row) +:+ "-" +:+ col)) with
    (if bool_decide (c = TableCellSeparator) then Some ("", row +:+ "-" +:+ col) else prod_map (String.String c) (λ x, x) <$> split_sep (row +:+ "-" +:+ col)).
  case_bool_decide; [done|]. by rewrite IH.
Qed.

(** ** The cells of a row in the order of the columns *)

Definition arrange (cols ids : list string) : list string := flat_map (λ c, filter (λ id, col_of id = Some c) ids) cols.
Definition has_column (cols : list string) (id : string) : Prop := ∃ c, col_of id = Some c ∧ c ∈ cols.
(** No two cells of one column. *)
Definition one_each (ids : list string) : Prop := ∀ x y, x ∈ ids → y ∈ ids → col_of x = col_of y → x = y.

Definition bucket (cells : list (nat * string)) (i : nat) : list (nat * string) := filter (λ x, x.1 = i) cells.

Lemma bucket_sorted cells m : ∀ k, StronglySorted (λ x y, (x.1 ≤ y.1)%nat) (flat_map (bucket cells) (seq k m)).
Proof.
  induction m as [|m IH]; intros k; [constructor|]. cbn [seq flat_map]. apply StronglySorted_app_2; [|  |apply IH].
  - intros x y [Hx _]%list_elem_of_filter Hy. apply list_elem_of_In, in_flat_map in Hy as (i & Hi%in_seq & Hy%list_elem_of_In).
    apply list_elem_of_filter in Hy as [Hy _]. lia.
  - clear IH. unfold bucket. induction cells as [|x cells IHc]; [constructor|]. rewrite filter_cons. case_decide; [|done]. constructor; [done|].
    apply List.Forall_forall. intros y [Hy _]%list_elem_of_In%list_elem_of_filter. lia.
Qed.
Lemma filter_split {A} (P Q : A → Prop) `{∀ x, Decision (P x), ∀ x, Decision (Q x)} (l : list A) : (∀ x, x ∈ l → Q x ↔ ¬ P x) →
  filter P l ++ filter Q l ≡ₚ l.
Proof.
  induction l as [|x l IH]; intros HQ; [done|]. rewrite !filter_cons. destruct (decide (P x)) as [Hp|Hp].
  - rewrite decide_False by (by intros ?%(HQ x); [|left]). cbn [app]. f_equiv. apply IH. intros y Hy. apply HQ. by right.
  - rewrite decide_True by (apply HQ; [left|done]). rewrite <- Permutation_middle. f_equiv. apply IH. intros y Hy. apply HQ. by right.
Qed.
Lemma bucket_perm m : ∀ k cells, (∀ x, x ∈ cells → k ≤ x.1 < k + m)%nat → flat_map (bucket cells) (seq k m) ≡ₚ cells.
Proof.
  induction m as [|m IH]; intros k cells Hk.
  { destruct cells as [|x cells]; [done|]. specialize (Hk x ltac:(left)). lia. }
  cbn [seq flat_map]. rewrite <- (filter_split (λ x, x.1 = k) (λ x, x.1 ≠ k) cells) at 3 by done. unfold bucket at 1. f_equiv.
  rewrite <- (IH (S k) (filter (λ x, x.1 ≠ k) cells)).
  - assert (∀ i, i ∈ seq (S k) m → bucket cells i = bucket (filter (λ x, x.1 ≠ k) cells) i) as E.
    { intros i Hi%elem_of_seq. unfold bucket. rewrite list_filter_filter. apply filter_ext_elem. intros x _. split; [intros ->; lia|tauto]. }
    revert E. generalize (seq (S k) m) as l. induction l as [|i l IHl]; intros E; [done|]. cbn [flat_map]. rewrite E by left. f_equiv.
    apply IHl. intros j Hj. apply E. by right.
  - intros x [Hne Hx]%list_elem_of_filter. specialize (Hk x Hx). lia.
Qed.
Lemma fmap_flat_map {A B C} (f : B → C) (g : A → list B) (l : list A) : f <$> flat_map g l = flat_map (λ x, f <$> g x) l.
Proof. induction l as [|x l IH]; [done|]. cbn [flat_map]. by rewrite fmap_app, IH. Qed.

(** The number of a column. *)
Lemma index_of_spec cols c i : NoDup cols → index_of cols !! c = Some i ↔ cols !! i = Some c.
Proof.
  intros Hn. unfold index_of. rewrite <- elem_of_list_to_map.
  - rewrite elem_of_reverse, elem_of_lookup_zip_with. split.
    + intros (j & x & y & [= -> ->] & Hx & Hy). apply lookup_seq in Hy as [-> _]. by rewrite Nat.add_0_l.
    + intros Hi. exists i, c, i. split_and!; [done..|]. apply lookup_seq. split; [done|]. by eapply lookup_lt_Some.
  - rewrite fmap_reverse, reverse_Permutation, fst_zip; [done|]. by rewrite length_seq.
Qed.

(** The numbered cells, and those without a column. *)
Definition numbered (idx : gmap string nat) (id : string) : option (nat * string) := (λ v, (v, id)) <$> (col_of id ≫= λ c, idx !! c).
Lemma sort_cells_spec idx (ids : list string) : sort_cells idx ids = (omap (numbered idx) ids, filter (λ id, numbered idx id = None) ids).
Proof.
  unfold sort_cells. assert (∀ acc, foldl (λ acc id, match ParseCellID id with
    | Err _ => (acc.1, acc.2 ++ [id])
    | Ok (_, colID) => match idx !! colID with Some v => (acc.1 ++ [(v, id)], acc.2) | None => (acc.1, acc.2 ++ [id]) end
    end) acc ids = (acc.1 ++ omap (numbered idx) ids, acc.2 ++ filter (λ id, numbered idx id = None) ids)) as H; [|by rewrite H].
  induction ids as [|id ids IH]; intros [a b]; [cbn; by rewrite !app_nil_r|]. cbn [foldl omap list_omap]. rewrite IH, filter_cons.
  unfold ParseCellID, numbered, col_of. destruct (split_sep id) as [[r c]|]; [|cbn; by rewrite <- app_assoc].
  cbn [fst snd fmap option_fmap option_map mbind option_bind]. destruct (idx !! c) as [v|]; cbn [fmap option_fmap option_map].
  - rewrite decide_False by done. cbn [fst snd]. by rewrite <- app_assoc.
  - rewrite decide_True by done. cbn [fst snd]. by rewrite <- app_assoc.
Qed.

Section sort.
Context (cols : list string) (Hn : NoDup cols).

Lemma numbered_spec (ids : list string) i id : (i, id) ∈ omap (numbered (index_of cols)) ids ↔ id ∈ ids ∧ ∃ c, col_of id = Some c ∧ cols !! i = Some c.
Proof.
  rewrite list_elem_of_omap. unfold numbered. split.
  - intros (x & Hx & E). destruct (col_of x) as [c|] eqn:Ec; [|done]. cbn in E. destruct (index_of cols !! c) as [v|] eqn:Ev; [|done]. injection E as -> ->.
    split; [done|]. exists c. split; [done|]. by apply index_of_spec.
  - intros (Hx & c & Hc & Hi). exists id. split; [done|]. rewrite Hc. cbn. apply index_of_spec in Hi; [|done]. by rewrite Hi.
Qed.
Lemma bucket_column (ids : list string) i c : cols !! i = Some c → (bucket (omap (numbered (index_of cols)) ids) i).*2 = filter (λ id, col_of id = Some c) ids.
Proof.
  intros Hi. unfold bucket. induction ids as [|id ids IH]; [done|]. cbn [omap list_omap]. rewrite filter_cons. unfold numbered at 1.
  destruct (col_of id) as [c'|] eqn:Ec; cbn [mbind option_bind fmap option_fmap option_map]; [|rewrite IH; by rewrite decide_False].
  destruct (index_of cols !! c') as [v|] eqn:Ev; cbn [fmap option_fmap option_map].
  - apply index_of_spec in Ev; [|done]. rewrite filter_cons. cbn [fst]. destruct (decide (v = i)) as [->|Hne].
    + rewrite (decide_True (P := Some c' = Some c)) by congruence. cbn [fmap list_fmap snd]. by rewrite IH.
    + rewrite (decide_False (P := Some c' = Some c)) by (intros [= ->]; by destruct Hne, (NoDup_lookup cols v i c Hn)). exact IH.
  - rewrite IH, decide_False; [done|]. intros [= ->]. apply (index_of_spec cols c i Hn) in Hi. congruence.
Qed.
Lemma buckets_arrange (ids : list string) : (flat_map (bucket (omap (numbered (index_of cols)) ids)) (seq 0 (length cols))).*2 = arrange cols ids.
Proof.
  set (cells := omap (numbered (index_of cols)) ids). rewrite fmap_flat_map. unfold arrange.
  assert (∀ l k, (∀ i c, l !! i = Some c → (bucket cells (k + i)).*2 = filter (λ id, col_of id = Some c) ids) →
    flat_map (λ x, (bucket cells x).*2) (seq k (length l)) = flat_map (λ c, filter (λ id, col_of id = Some c) ids) l) as H.
  { induction l as [|c l IH]; intros k Hk; [done|]. cbn [length seq flat_map]. rewrite <- (Hk 0%nat c), Nat.add_0_r by done. f_equal.
    apply IH. intros i c' Hi. rewrite <- (Hk (S i) c') by done. by rewrite Nat.add_succ_r. }
  apply H. intros i c Hi. by apply bucket_column.
Qed.

Context `{!RowSorter, !RowSorterOk}.

(** Sorting arranges the cells by columns. *)
Lemma row_sort_arrange (ids : list string) : one_each ids → (row_sort (omap (numbered (index_of cols)) ids)).1.*2 = arrange cols ids.
Proof.
  intros Hone. rewrite <- buckets_arrange. f_equal. set (cells := omap (numbered (index_of cols)) ids).
  assert (flat_map (bucket cells) (seq 0 (length cols)) ≡ₚ cells) as Hperm.
  { apply bucket_perm. intros [i id] (_ & c & _ & Hi%lookup_lt_Some)%numbered_spec. cbn. lia. }
  apply (StronglySorted_unique_strong (λ x y, (x.1 ≤ y.1)%nat)); [|apply row_sort_sorted|apply bucket_sorted|by rewrite row_sort_perm, Hperm].
  intros [i x] [j y] Hx Hy H1 H2. cbn in H1, H2. assert (i = j) as -> by lia. f_equal.
  rewrite row_sort_perm in Hx. rewrite Hperm in Hy. apply numbered_spec in Hx as (Hx & c & Hc & Hi), Hy as (Hy & c' & Hc' & Hi').
  apply Hone; [done..|congruence].
Qed.
Lemma all_numbered (ids : list string) : (∀ id, id ∈ ids → has_column cols id) → filter (λ id, numbered (index_of cols) id = None) ids = [] ∧ (omap (numbered (index_of cols)) ids).*2 = ids.
Proof.
  intros Hv. assert (∀ id, id ∈ ids → ∃ v, numbered (index_of cols) id = Some (v, id)) as Hs.
  { intros id (c & Hc & [i Hi]%list_elem_of_lookup)%Hv. exists i. unfold numbered. rewrite Hc. cbn. apply index_of_spec in Hi; [|done]. by rewrite Hi. }
  clear Hv. split.
  - apply filter_none. intros id Hid E. destruct (Hs id Hid). congruence.
  - induction ids as [|id ids IH]; [done|]. cbn [omap list_omap]. destruct (Hs id ltac:(left)) as [v ->]. cbn [fmap list_fmap snd]. f_equal.
    apply IH. intros x Hx. apply Hs. by right.
Qed.
Lemma arrange_elem ids id : id ∈ arrange cols ids ↔ id ∈ ids ∧ has_column cols id.
Proof.
  unfold arrange, has_column. rewrite list_elem_of_In, in_flat_map. setoid_rewrite <- list_elem_of_In. setoid_rewrite list_elem_of_filter. naive_solver.
Qed.
End sort.

(** ** Moving blocks under the table *)

Lemma Move_run s n tb bt ids bp l r :
  deref s tb = Some bt → PickParentOf s (b_Id bt) = Some bp → view s !! b_Id bp = Some bp → b_ChildrenIds bp = l ++ b_Id bt :: r → b_Id bt ∉ l →
  ∃ s', MoveBlocksUnderTheTable tb ids (s, n) = Some (Ok (), (s', n)) ∧ edit s s' (b_Id bp) (with_children bp (l ++ b_Id bt :: ids ++ r)).
Proof.
  intros Htb HP Hv Hch Hl. unfold MoveBlocksUnderTheTable, mbind, M_bind. rewrite (read_run s n tb bt Htb). unfold act, some, set_children, modify.
  cbn [fst snd]. unfold GetParentOf. rewrite HP. destruct (Get_some s (b_Id bp) bp Hv) as (s1 & -> & S1 & T1). rewrite Hch, FindPos_middle by done.
  destruct (Z.eqb_spec (Z.of_nat (length l)) (-1)); [lia|].
  replace (Z.of_nat (length l) + 1)%Z with (Z.of_nat (length (l ++ [b_Id bt]))) by (rewrite length_app; cbn; lia).
  replace (l ++ b_Id bt :: r) with ((l ++ [b_Id bt]) ++ r) by (by rewrite <- app_assoc). rewrite Insert_at. eexists. split; [done|].
  eapply same_view_edit; [done|]. rewrite <- app_assoc. cbn [app]. by apply (write_top s1 (b_Id bp) bp (λ b, with_children b (l ++ b_Id bt :: ids ++ r))).
Qed.
Lemma edit_refl s id b : st_blocks s !! id = Some b → edit s s id b.
Proof. intros H. split; [symmetry; by apply insert_id, top_view|by split|done|done]. Qed.
(** An edit that puts what was there. *)
Lemma edit_same s s' id b : view s !! id = Some b → edit s s' id b → same_view s s'.
Proof.
  intros Hb [V B T K]. split_and!; [by rewrite V, insert_id|done|]. intros i c Hc. destruct (decide (i = id)) as [->|Hne]; [|by apply K].
  apply top_view in Hc. congruence.
Qed.
Lemma with_same_children b : with_children b (b_ChildrenIds b) = b.
Proof. by destruct b. Qed.
Lemma Move_nil s n tb bt : wf (view s) [st_rootId s] → deref s tb = Some bt →
  ∃ s', MoveBlocksUnderTheTable tb [] (s, n) = Some (Ok (), (s', n)) ∧ same_view s s'.
Proof.
  intros Hwf Htb. destruct (PickParentOf s (b_Id bt)) as [bp|] eqn:HP.
  - pose proof (proj1 (PickParentOf_spec s [] Hwf _ _) HP) as (Hr & Hv & Hin).
    apply list_elem_of_split in Hin as (l & r & Hch). destruct (Move_run s n tb bt [] bp l r) as (s' & E & He); try done.
    { pose proof (wf_nodup _ _ Hwf _ bp ltac:(exists (st_rootId s); split; [left|done]) Hv) as Hn. rewrite Hch, <- Permutation_middle in Hn.
      apply NoDup_cons in Hn as [Hn _]. intros H. apply Hn, elem_of_app. by left. }
    exists s'. split; [done|]. cbn [app] in He. rewrite <- Hch, with_same_children in He. by eapply edit_same.
  - exists s. split; [|apply same_view_refl]. unfold MoveBlocksUnderTheTable, mbind, M_bind. rewrite (read_run s n tb bt Htb). unfold act.
    cbn [fst snd]. unfold GetParentOf. by rewrite HP.
Qed.

Section normalize_row.
Context `{!RowSorter, !RowSorterOk}.

Lemma normalizeRow_valid s n tb bt cols r b :
  wf (view s) [st_rootId s] → deref s tb = Some bt → st_blocks s !! r = Some b → NoDup cols →
  (∀ id, id ∈ b_ChildrenIds b → has_column cols id) → one_each (b_ChildrenIds b) →
  ∃ s', normalizeRow tb (Some (index_of cols)) r (s, n) = Some (Ok (), (s', n)) ∧ edit s s' r (with_children b (arrange cols (b_ChildrenIds b))).
Proof.
  intros Hwf Htb Hb Hn Hv Hone. destruct (all_numbered cols Hn (b_ChildrenIds b) Hv) as [Hbad Hall].
  pose proof (row_sort_arrange cols Hn (b_ChildrenIds b) Hone) as Hsort.
  unfold normalizeRow, mbind at 1, M_bind at 1. rewrite (read_run s n (top r) b Hb). unfold mbind at 1, M_bind at 1. cbn [mret M_ret].
  rewrite sort_cells_spec, Hbad. destruct (row_sort _) as [sorted swapped] eqn:Es. cbn [fst] in Hsort. rewrite Hsort.
  destruct swapped; cbn [orb negb bool_decide].
  - unfold mbind, M_bind. destruct (Move_nil s n tb bt Hwf Htb) as (s1 & -> & S1). eexists. split; [done|]. eapply same_view_edit; [done|].
    apply (write_top s1 r b (λ b, with_children b _)). by apply S1.
  - rewrite bool_decide_eq_true_2 by done. exists s. split; [done|]. assert (arrange cols (b_ChildrenIds b) = b_ChildrenIds b) as ->.
    { rewrite <- Hsort. pose proof (row_sort_still (omap (numbered (index_of cols)) (b_ChildrenIds b))) as Hst. rewrite Es in Hst. cbn in Hst.
      by rewrite Hst. }
    rewrite with_same_children. by apply edit_refl.
Qed.
End normalize_row.

(** A path to a block does not need the children of the block. *)
Lemma reach_insert_self V root p b : reach V root p → reach (<[p:=b]> V) root p.
Proof.
  intros Hp. assert (∀ x, reach V root x → reach (<[p:=b]> V) root x ∨ reach (<[p:=b]> V) root p) as H.
  { induction 1 as [|q bq c _ [IH|IH] Hb Hc]; [left; constructor| |by right]. destruct (decide (q = p)) as [->|Hne]; [by right|left].
    eapply reach_child; [done|by rewrite lookup_insert_ne|done]. }
  by destruct (H p Hp).
Qed.

(** ** The same tree with other orders of children *)

Definition similar (V V' : Blocks) : Prop :=
  ∀ q, match V !! q, V' !! q with
       | Some b, Some b' => b_Id b' = b_Id b ∧ b_ChildrenIds b' ≡ₚ b_ChildrenIds b
       | None, None => True
       | _, _ => False
       end.
Lemma similar_at V V' q b' : similar V V' → V' !! q = Some b' → ∃ b, V !! q = Some b ∧ b_Id b' = b_Id b ∧ b_ChildrenIds b' ≡ₚ b_ChildrenIds b.
Proof. intros H E. specialize (H q). rewrite E in H. destruct (V !! q) as [b|]; [by exists b|done]. Qed.
Lemma similar_sym V V' : similar V V' → similar V' V.
Proof. intros H q. specialize (H q). destruct (V !! q), (V' !! q); try done. destruct H as [-> ->]. done. Qed.
Lemma similar_trans V1 V2 V3 : similar V1 V2 → similar V2 V3 → similar V1 V3.
Proof.
  intros H1 H2 q. specialize (H1 q). specialize (H2 q). destruct (V1 !! q), (V2 !! q), (V3 !! q); try done.
  destruct H1 as [I1 P1], H2 as [I2 P2]. split; [congruence|by rewrite P2].
Qed.
Lemma similar_reach V V' r x : similar V V' → reach V r x → reach V' r x.
Proof.
  intros H%similar_sym. induction 1 as [|p b c _ IH Hb Hc]; [constructor|]. destruct (similar_at V' V p b H Hb) as (b' & Hb' & _ & Hp).
  eapply reach_child; [done|done|]. by rewrite <- Hp.
Qed.
Lemma similar_wf V V' roots : similar V V' → wf V roots → wf V' roots.
Proof.
  intros H [Hk Hr Hu Hn Hro]. assert (∀ q, reachable V' roots q → reachable V roots q) as Hre.
  { intros q (r & Hin & Hq). exists r. split; [done|]. eapply similar_reach; [by apply similar_sym|done]. }
  split; [|done|..].
  - intros id b' Hb'. destruct (similar_at V V' id b' H Hb') as (b & Hb & -> & _). by apply Hk.
  - intros p1 b1 p2 b2 c R1 R2 E1 E2 I1 I2. destruct (similar_at V V' p1 b1 H E1) as (b1' & E1' & _ & P1), (similar_at V V' p2 b2 H E2) as (b2' & E2' & _ & P2).
    rewrite P1 in I1. rewrite P2 in I2. apply (Hu p1 b1' p2 b2' c); auto.
  - intros p b R E. destruct (similar_at V V' p b H E) as (b' & E' & _ & P). rewrite P. apply (Hn p b'); auto.
  - intros p b r R E I. destruct (similar_at V V' p b H E) as (b' & E' & _ & P). rewrite P. apply (Hro p b' r); auto.
Qed.
Lemma similar_insert V q b ids : V !! q = Some b → ids ≡ₚ b_ChildrenIds b → similar V (<[q:=with_children b ids]> V).
Proof.
  intros Hb Hp i. destruct (decide (i = q)) as [->|Hne]; [rewrite Hb, lookup_insert_eq; done|rewrite lookup_insert_ne by done]. by destruct (V !! i).
Qed.

(** The listed rows with their cells in the order of the columns. *)
Definition arranged (cols rows : list string) (V : Blocks) : Blocks :=
  map_imap (λ q b, Some (if decide (q ∈ rows) then with_children b (arrange cols (b_ChildrenIds b)) else b)) V.
Lemma arranged_lookup cols rows V q :
  arranged cols rows V !! q = (λ b, if decide (q ∈ rows) then with_children b (arrange cols (b_ChildrenIds b)) else b) <$> V !! q.
Proof. unfold arranged. rewrite map_lookup_imap. by destruct (V !! q). Qed.
Lemma arranged_nil cols V : arranged cols [] V = V.
Proof.
  apply map_eq. intros q. rewrite arranged_lookup. destruct (V !! q); [|done]. cbn. by rewrite decide_False by apply not_elem_of_nil.
Qed.
Lemma arranged_snoc cols rows r b V : V !! r = Some b → r ∉ rows →
  <[r:=with_children b (arrange cols (b_ChildrenIds b))]> (arranged cols rows V) = arranged cols (rows ++ [r]) V.
Proof.
  intros Hb Hr. apply map_eq. intros q. rewrite arranged_lookup. destruct (decide (q = r)) as [->|Hne].
  - rewrite lookup_insert_eq, Hb. cbn. by rewrite decide_True by (apply elem_of_app; right; left).
  - rewrite lookup_insert_ne, arranged_lookup by done. destruct (V !! q); [|done]. cbn. f_equal. destruct (decide (q ∈ rows)).
    + by rewrite decide_True by (apply elem_of_app; by left).
    + rewrite decide_False; [done|]. by intros [?| ->%list_elem_of_singleton]%elem_of_app.
Qed.
Lemma arrange_perm cols ids : NoDup cols → (∀ id, id ∈ ids → has_column cols id) → arrange cols ids ≡ₚ ids.
Proof.
  intros Hn Hv. rewrite <- (buckets_arrange cols Hn). destruct (all_numbered cols Hn ids Hv) as [_ Hall]. rewrite <- Hall at 2. apply fmap_Permutation, bucket_perm.
  intros [i id] (_ & c & _ & Hi%lookup_lt_Some)%(numbered_spec cols Hn). cbn. lia.
Qed.

(** ** Valid tables *)

(** The columns are columns, the rows are rows, their cells belong to the columns, at
    most one to each, and no cell is a div. *)
Record valid (V : Blocks) (root tid : string) (bt bc br : Block) (cols rows : list string) : Prop := {
  vt_table : table V root tid bt bc br cols rows;
  vt_cols c : c ∈ cols → ∃ b, V !! c = Some b ∧ is_column b = true;
  vt_rows r : r ∈ rows → ∃ b, V !! r = Some b ∧ is_Some (as_row b) ∧ (∀ id, id ∈ b_ChildrenIds b → has_column cols id) ∧ one_each (b_ChildrenIds b);
  vt_cells r : r ∈ rows → no_divs V r;
}.

Section valid.
Context (V : Blocks) (root tid : string) (bt bc br : Block) (cols rows : list string).
Context (Hwf : wf V [root]) (HV : valid V root tid bt bc br cols rows).

Lemma valid_no_divs : no_divs V (b_Id bc) ∧ no_divs V (b_Id br).
Proof.
  destruct (tb_columns _ _ _ _ _ _ _ _ (vt_table _ _ _ _ _ _ _ _ HV)) as (Lc & _ & Ec), (tb_rows _ _ _ _ _ _ _ _ (vt_table _ _ _ _ _ _ _ _ HV)) as (Lr & _ & Er).
  split; intros b c x Hb Hc Hx.
  - rewrite Lc in Hb. injection Hb as <-. rewrite Ec in Hc. destruct (vt_cols _ _ _ _ _ _ _ _ HV c Hc) as (x' & Hx' & Hk). rewrite Hx in Hx'. injection Hx' as <-.
    unfold is_column in Hk. unfold isDivLayout. by destruct (b_Content x).
  - rewrite Lr in Hb. injection Hb as <-. rewrite Er in Hc. destruct (vt_rows _ _ _ _ _ _ _ _ HV c Hc) as (x' & Hx' & [h Hk] & _). rewrite Hx in Hx'. injection Hx' as <-.
    unfold as_row in Hk. unfold isDivLayout. by destruct (b_Content x).
Qed.
Lemma valid_reach : reach V root (b_Id bc) ∧ reach V root (b_Id br).
Proof.
  pose proof (vt_table _ _ _ _ _ _ _ _ HV) as HT. destruct (tb_parts _ _ _ _ _ _ _ _ HT) as [rest E].
  split; (eapply reach_child; [apply HT|apply HT|rewrite E]); [left|right; left].
Qed.
Lemma valid_NoDup : NoDup cols ∧ NoDup rows.
Proof.
  destruct valid_reach as [Rc Rr]. pose proof (vt_table _ _ _ _ _ _ _ _ HV) as HT.
  destruct (tb_columns _ _ _ _ _ _ _ _ HT) as (Lc & _ & <-), (tb_rows _ _ _ _ _ _ _ _ HT) as (Lr & _ & <-).
  split; [apply (wf_nodup _ _ Hwf (b_Id bc))|apply (wf_nodup _ _ Hwf (b_Id br))]; try done; (exists root; split; [left|done]).
Qed.
(** The kinds of the blocks tell them apart. *)
Lemma valid_kinds : tid ≠ b_Id bc ∧ tid ≠ b_Id br ∧ b_Id bc ≠ b_Id br ∧ (∀ r, r ∈ rows → r ≠ tid ∧ r ≠ b_Id bc ∧ r ≠ b_Id br) ∧ (∀ c, c ∈ cols → c ≠ tid ∧ c ≠ b_Id bc).
Proof.
  pose proof (vt_table _ _ _ _ _ _ _ _ HV) as HT. destruct (tb_columns _ _ _ _ _ _ _ _ HT) as (Lc & Kc & _), (tb_rows _ _ _ _ _ _ _ _ HT) as (Lr & Kr & _).
  pose proof (tb_block _ _ _ _ _ _ _ _ HT) as Lt. pose proof (tb_kind _ _ _ _ _ _ _ _ HT) as Kt. unfold is_table in Kt.
  split_and!; [intros E; rewrite E, Lc in Lt; injection Lt as <-; by rewrite Kc in Kt|intros E; rewrite E, Lr in Lt; injection Lt as <-; by rewrite Kr in Kt| | |].
  - intros E. rewrite E, Lr in Lc. injection Lc as <-. congruence.
  - intros r Hr. destruct (vt_rows _ _ _ _ _ _ _ _ HV r Hr) as (b & Hb & [h Kb] & _). unfold as_row in Kb.
    split_and!; intros ->; [rewrite Lt in Hb|rewrite Lc in Hb|rewrite Lr in Hb]; injection Hb as <-; [by destruct (b_Content bt)|by rewrite Kc in Kb|by rewrite Kr in Kb].
  - intros c Hc. destruct (vt_cols _ _ _ _ _ _ _ _ HV c Hc) as (b & Hb & Kb). unfold is_column in Kb.
    split; intros ->; [rewrite Lt in Hb|rewrite Lc in Hb]; injection Hb as <-; [by destruct (b_Content bt)|by rewrite Kc in Kb].
Qed.
End valid.

(** ** Moving a column *)

(** The column [t] beside [d]. *)
Definition move_column (below : bool) (t d : string) (cols : list string) : list string :=
  flat_map (λ c, if decide (c = t) then [] else if decide (c = d) then (if below then [d; t] else [t; d]) else [c]) cols.

Lemma move_column_other below t d cols : t ∉ cols → d ∉ cols → move_column below t d cols = cols.
Proof.
  unfold move_column. induction cols as [|c cols IH]; intros Ht Hd; [done|]. apply not_elem_of_cons in Ht as [Ht1 Ht], Hd as [Hd1 Hd].
  cbn [flat_map]. rewrite !decide_False by congruence. cbn [app]. by rewrite IH.
Qed.
Lemma move_column_app below t d l1 l2 : move_column below t d (l1 ++ l2) = move_column below t d l1 ++ move_column below t d l2.
Proof. apply flat_map_app. Qed.
(** Taking [t] out and putting it beside [d]. *)
Lemma move_column_spec below t d cols l r l' r' : NoDup cols → t ≠ d → cols = l ++ t :: r → l ++ r = l' ++ d :: r' →
  move_column below t d cols = if below then l' ++ d :: t :: r' else l' ++ t :: d :: r'.
Proof.
  intros Hn Hne -> E. rewrite <- Permutation_middle in Hn. apply NoDup_cons in Hn as [Ht Hn]. rewrite E in Ht, Hn.
  rewrite move_column_app. change (t :: r) with ([t] ++ r). rewrite move_column_app. assert (move_column below t d [t] = []) as ->.
  { cbn. by rewrite decide_True. }
  cbn [app]. rewrite <- move_column_app, E, move_column_app. change (d :: r') with ([d] ++ r'). rewrite move_column_app.
  rewrite <- Permutation_middle in Hn. apply NoDup_cons in Hn as [Hd _]. rewrite not_elem_of_app, not_elem_of_cons in Ht. rewrite not_elem_of_app in Hd.
  rewrite (move_column_other below t d l'), (move_column_other below t d r') by tauto. cbn. rewrite decide_False, decide_True by congruence.
  by destruct below.
Qed.
Lemma move_column_perm below t d cols : NoDup cols → t ≠ d → t ∈ cols → d ∈ cols → move_column below t d cols ≡ₚ cols.
Proof.
  intros Hn Hne Ht Hd. apply list_elem_of_split in Ht as (l & r & E). assert (d ∈ l ++ r) as Hd'.
  { rewrite E, elem_of_app, elem_of_cons in Hd. rewrite elem_of_app. naive_solver. }
  apply list_elem_of_split in Hd' as (l' & r' & E'). rewrite (move_column_spec below t d cols l r l' r') by done.
  rewrite E. transitivity (t :: l ++ r); [|apply Permutation_middle]. rewrite E'. transitivity (t :: d :: l' ++ r'); [|f_equiv; apply Permutation_middle].
  destruct below; rewrite <- !Permutation_middle; [apply Permutation_swap|done].
Qed.

Lemma arranged_similar cols rows V : NoDup cols →
  (∀ r b id, r ∈ rows → V !! r = Some b → id ∈ b_ChildrenIds b → has_column cols id) → similar V (arranged cols rows V).
Proof.
  intros Hn Hv q. rewrite arranged_lookup. destruct (V !! q) as [b|] eqn:Eb; [|done]. cbn. destruct (decide (q ∈ rows)) as [Hq|Hq]; [|done].
  split; [done|]. apply arrange_perm; [done|]. intros id. by apply (Hv q).
Qed.

Section column_move.
Context (md5hex : string → string) `{!RowSorter, !RowSorterOk}.

Lemma getRow_run s n r b : view s !! r = Some b → is_Some (as_row b) →
  ∃ s', getRow r (s, n) = Some (Ok b, (s', n)) ∧ same_view s s' ∧ st_blocks s' !! r = Some b.
Proof.
  intros Hb [h Hk]. destruct (Get_some s r b Hb) as (s' & E & S & T). exists s'. split; [|done]. unfold getRow, mbind, M_bind, act. cbn [fst snd].
  by rewrite E, Hk.
Qed.
Lemma pickColumn_run s n c b : view s !! c = Some b → is_column b = true → pickColumn c (s, n) = Some (Ok b, (s, n)).
Proof. intros Hb Hk. unfold pickColumn, mbind, M_bind, gets. cbn [fst]. by rewrite Pick_view, Hb, Hk. Qed.

(** The loop that puts the cells of every row in order. *)
Lemma normalize_loop_run s0 n tb bt cols rows : wf (view s0) [st_rootId s0] → NoDup cols → NoDup rows → deref s0 tb = Some bt → p_id tb ∉ rows →
  (∀ r, r ∈ rows → ∃ b, view s0 !! r = Some b ∧ is_Some (as_row b) ∧ (∀ id, id ∈ b_ChildrenIds b → has_column cols id) ∧ one_each (b_ChildrenIds b)) →
  runs (for_each (λ id, _ ← getRow id; normalizeRow tb (Some (index_of cols)) id) rows) (s0, n)
    (λ _ g, g.2 = n ∧ view g.1 = arranged cols rows (view s0) ∧ same_below s0 g.1 ∧ deref g.1 tb = Some bt).
Proof.
  intros Hwf Hn Hnr Htb Htid Hrows.
  eapply (runs_for_each _ (λ dn g, g.2 = n ∧ view g.1 = arranged cols dn (view s0) ∧ same_below s0 g.1 ∧ deref g.1 tb = Some bt) rows [] (s0, n)); [|done|].
  2:{ split_and!; [done|by rewrite arranged_nil|apply same_below_refl|done]. }
  intros dn r todo [s n'] E (H1 & HV & HB & HD). cbn [fst snd] in *. subst n'. assert (r ∈ rows) as Hr by (rewrite <- E; apply elem_of_app; right; left).
  destruct (Hrows r Hr) as (b & Hb & Hk & Hv & Hone). assert (r ∉ dn) as Hrd.
  { rewrite <- E in Hnr. apply NoDup_app in Hnr as (_ & Hdis & _). intros Hin. apply (Hdis r Hin). left. }
  assert (similar (view s0) (view s)) as Hsim.
  { rewrite HV. apply arranged_similar; [done|]. intros q bq id Hq Hbq. destruct (Hrows q) as (bq' & Hbq' & _ & Hvq & _); [rewrite <- E; apply elem_of_app; by left|].
    rewrite Hbq in Hbq'. injection Hbq' as <-. apply Hvq. }
  assert (view s !! r = Some b) as Hbs by (rewrite HV, arranged_lookup, Hb; cbn; by rewrite decide_False).
  apply runs_bind. destruct (getRow_run s n r b Hbs Hk) as (s1 & E1 & S1 & T1). eapply runs_eq; [exact E1|]. pose proof S1 as (V1 & B1 & _).
  destruct (normalizeRow_valid s1 n tb bt cols r b) as (s2 & E2 & He); [|by eapply same_view_sees|done..|].
  { rewrite V1, (proj1 B1), (proj1 HB). by eapply similar_wf. }
  eapply runs_eq; [exact E2|]. cbn [fst snd]. split_and!; [done| |eapply same_below_trans; [done|]; eapply same_below_trans; [done|apply He]|].
  - rewrite (ed_view _ _ _ _ He), V1, HV. by apply arranged_snoc.
  - apply (edit_sees s1 s2 r _ (p_id tb) He); [intros Eid; apply Htid; by rewrite Eid|done|by eapply same_view_sees].
Qed.

(** The table with other columns. *)
Lemma table_columns V root tid bt bc br cols rows cols' :
  wf V [root] → valid V root tid bt bc br cols rows → cols' ≡ₚ cols →
  valid (<[b_Id bc:=with_children bc cols']> V) root tid bt (with_children bc cols') br cols' rows ∧ similar V (<[b_Id bc:=with_children bc cols']> V).
Proof.
  intros Hwf HV Hp. pose proof (vt_table _ _ _ _ _ _ _ _ HV) as HT. destruct (tb_columns _ _ _ _ _ _ _ _ HT) as (Lc & Kc & Ec).
  destruct (tb_rows _ _ _ _ _ _ _ _ HT) as (Lr & Kr & Er). destruct (valid_kinds _ _ _ _ _ _ _ _ HV) as (N1 & N2 & N3 & N4 & N5).
  assert (similar V (<[b_Id bc:=with_children bc cols']> V)) as Hsim by (apply similar_insert; [done|by rewrite Ec]). split; [|done].
  assert (∀ q, q ≠ b_Id bc → <[b_Id bc:=with_children bc cols']> V !! q = V !! q) as Hq by (intros q Hq; by rewrite lookup_insert_ne).
  split; [split|..].
  - eapply similar_reach; [done|apply HT].
  - rewrite Hq by done. apply HT.
  - apply HT.
  - apply (tb_parts _ _ _ _ _ _ _ _ HT).
  - split_and!; [apply lookup_insert_eq|done|done].
  - rewrite Hq by done. by split_and!.
  - intros c Hc. rewrite Hp in Hc. rewrite Hq by (by apply N5). by apply (vt_cols _ _ _ _ _ _ _ _ HV).
  - intros r Hr. rewrite Hq by (by apply N4). destruct (vt_rows _ _ _ _ _ _ _ _ HV r Hr) as (b & Hb & Hk & Hv & Hone). exists b. split_and!; [done|done| |done].
    intros id Hid. destruct (Hv id Hid) as (c & Ecol & Hc). exists c. by rewrite Hp.
  - intros r Hr b c x Hb Hc Hx. rewrite Hq in Hb by (by apply N4). destruct (decide (c = b_Id bc)) as [->|Hne].
    + rewrite lookup_insert_eq in Hx. injection Hx as <-. unfold isDivLayout. cbn. by rewrite Kc.
    + rewrite Hq in Hx by done. by eapply (vt_cells _ _ _ _ _ _ _ _ HV r Hr).
Qed.
Lemma valid_arranged V root tid bt bc br cols rows : wf V [root] → valid V root tid bt bc br cols rows →
  valid (arranged cols rows V) root tid bt bc br cols rows ∧ similar V (arranged cols rows V).
Proof.
  intros Hwf HV. pose proof (vt_table _ _ _ _ _ _ _ _ HV) as HT. destruct (valid_kinds _ _ _ _ _ _ _ _ HV) as (N1 & N2 & N3 & N4 & N5).
  destruct (valid_NoDup _ _ _ _ _ _ _ _ Hwf HV) as [Hn _].
  assert (similar V (arranged cols rows V)) as Hsim.
  { apply arranged_similar; [done|]. intros r b id Hr Hb. destruct (vt_rows _ _ _ _ _ _ _ _ HV r Hr) as (b' & Hb' & _ & Hv & _). rewrite Hb in Hb'. injection Hb' as <-. apply Hv. }
  split; [|done]. assert (∀ q, q ∉ rows → arranged cols rows V !! q = V !! q) as Hq.
  { intros q Hq. rewrite arranged_lookup. destruct (V !! q); [|done]. cbn. by rewrite decide_False. }
  assert (∀ c b, V !! c = Some b → ∃ b', arranged cols rows V !! c = Some b' ∧ b_Content b' = b_Content b) as Hk.
  { intros c b Hb. rewrite arranged_lookup, Hb. eexists. split; [done|]. by case_decide. }
  destruct (tb_columns _ _ _ _ _ _ _ _ HT) as (Lc & Kc & Ec), (tb_rows _ _ _ _ _ _ _ _ HT) as (Lr & Kr & Er).
  split; [split|..].
  - eapply similar_reach; [done|apply HT].
  - rewrite Hq by (by intros (? & _)%N4). apply HT.
  - apply HT.
  - apply (tb_parts _ _ _ _ _ _ _ _ HT).
  - rewrite Hq by (by intros (_ & ? & _)%N4). by split_and!.
  - rewrite Hq by (by intros (_ & _ & ?)%N4). by split_and!.
  - intros c Hc. destruct (vt_cols _ _ _ _ _ _ _ _ HV c Hc) as (b & Hb & Kb). destruct (Hk c b Hb) as (b' & Hb' & Kb'). exists b'. split; [done|].
    unfold is_column in *. by rewrite Kb'.
  - intros r Hr. destruct (vt_rows _ _ _ _ _ _ _ _ HV r Hr) as (b & Hb & Kb & Hv & Hone). rewrite arranged_lookup, Hb. eexists. split; [done|].
    rewrite decide_True by done. split; [done|]. split.
    + intros id Hid%arrange_elem. by apply Hv, Hid.
    + intros x y Hx%arrange_elem Hy%arrange_elem. apply Hone; [apply Hx|apply Hy].
  - intros r Hr b c x Hb Hc Hx. rewrite arranged_lookup in Hb. destruct (V !! r) as [b0|] eqn:Eb; [|done]. injection Hb as <-. rewrite decide_True in Hc by done.
    apply arrange_elem in Hc as [Hc _]. rewrite arranged_lookup in Hx. destruct (V !! c) as [x0|] eqn:Ex; [|done]. injection Hx as <-.
    pose proof (vt_cells _ _ _ _ _ _ _ _ HV r Hr b0 c x0 Eb Hc Ex) as Hd. unfold isDivLayout in *. by destruct (decide (c ∈ rows)).
Qed.

(** Taking a child out and putting it back beside another one. *)
Lemma unlink_insert s n t d p bp (below : bool) :
  wf (view s) [st_rootId s] → reach (view s) (st_rootId s) p → view s !! p = Some bp → t ∈ b_ChildrenIds bp → d ∈ b_ChildrenIds bp →
  t ≠ d → d ≠ "" → d ≠ p → is_Some (view s !! d) →
  ∃ s1 s2, Unlink s t = (true, s1) ∧ insertTo md5hex d (if below then PBottom else PTop) [t] (s1, n) = Some (Ok (), (s2, n)) ∧
    edit s s2 p (with_children bp (move_column below t d (b_ChildrenIds bp))).
Proof.
  intros Hwf Hr Hp Ht Hd Hne Hd0 Hdp Hdv. assert (reachable (view s) [st_rootId s] p) as Hrp by (exists (st_rootId s); split; [left|done]).
  pose proof (wf_nodup _ _ Hwf p bp Hrp Hp) as Hn. apply list_elem_of_split in Ht as (l & r & Esplit).
  destruct (Unlink_edit s t p bp l r Hwf Hr Hp Esplit) as (s1 & E1 & He1).
  assert (d ∈ l ++ r) as Hd' by (rewrite Esplit, elem_of_app, elem_of_cons in Hd; rewrite elem_of_app; naive_solver).
  apply list_elem_of_split in Hd' as (l' & r' & Esplit'). pose proof (ed_below _ _ _ _ He1) as B1.
  assert (wf (view s1) [st_rootId s1; t]) as Hwf1.
  { rewrite (ed_view _ _ _ _ He1), (proj1 B1). apply (wf_perm _ [t; st_rootId s]); [apply Permutation_swap|]. by apply (wf_remove _ _ _ bp t). }
  assert (listed (view s1) (st_rootId s1) d p (with_children bp (l ++ r)) l' r') as Hl1.
  { rewrite (ed_view _ _ _ _ He1), (proj1 B1). split_and!; [by apply reach_insert_self|apply lookup_insert_eq|done|by rewrite lookup_insert_ne]. }
  destruct (insertTo_beside md5hex s1 n t d p _ l' r' below Hwf1 Hl1 Hd0) as (s2 & E2 & He2).
  exists s1, s2. split_and!; [done|done|]. rewrite (move_column_spec below t d _ l r l' r') by done. by eapply edit_edit.
Qed.

(** C21. Moving a column moves exactly that column: in a valid table [ColumnMove] ends
    without an error, the column is listed beside the target, every row lists its cells
    in the new order of the columns, and nothing else in the document changes: no cell
    is lost, the tree stays well-formed, the table stays valid, and the states below
    are not touched. *)
Theorem ColumnMove_correct s n tid bt bc br cols rows t d below :
  let V := view s in
  let cols' := move_column below t d cols in
  wf V [st_rootId s] → valid V (st_rootId s) tid bt bc br cols rows → t ∈ cols → d ∈ cols → t ≠ d → d ≠ "" →
  ∃ s', ColumnMove md5hex t d (if below then PRight else PLeft) (s, n) = Some (Ok (), (s', n)) ∧
    view s' = arranged cols' rows (<[b_Id bc:=with_children bc cols']> V) ∧
    wf (view s') [st_rootId s'] ∧ valid (view s') (st_rootId s') tid bt (with_children bc cols') br cols' rows ∧
    similar V (view s') ∧ same_below s s'.
Proof.
  intros V cols' Hwf HV Ht Hd Hne Hd0. pose proof (vt_table _ _ _ _ _ _ _ _ HV) as HT.
  destruct (valid_NoDup _ _ _ _ _ _ _ _ Hwf HV) as [Hn Hnr]. destruct (valid_reach _ _ _ _ _ _ _ _ HV) as [Rc Rr].
  destruct (valid_no_divs _ _ _ _ _ _ _ _ HV) as [Dc Dr]. destruct (valid_kinds _ _ _ _ _ _ _ _ HV) as (N1 & N2 & N3 & N4 & N5).
  destruct (tb_columns _ _ _ _ _ _ _ _ HT) as (Lc & Kc & Ec). destruct (vt_cols _ _ _ _ _ _ _ _ HV t Ht) as (bt' & Hbt & Kt), (vt_cols _ _ _ _ _ _ _ _ HV d Hd) as (bd & Hbd & Kd).
  pose proof (move_column_perm below t d cols Hn Hne Ht Hd) as Hperm. fold cols' in Hperm.
  destruct (NewTable_member s n tid bt bc br cols rows Hwf HT Dc Dr (vt_cells _ _ _ _ _ _ _ _ HV) t bt' bc) as (tb & Enew & Htid & Dtb);
    [by left|by rewrite Ec|done|unfold is_column, is_table in *; by destruct (b_Content bt')|].
  destruct (unlink_insert s n t d (b_Id bc) bc below) as (s1 & s2 & E1 & E2 & He); rewrite ?Ec; try done; [by apply N5|].
  pose proof (ed_view _ _ _ _ He) as V2. rewrite Ec in V2. fold V cols' in V2. pose proof (ed_below _ _ _ _ He) as B2.
  destruct (table_columns V (st_rootId s) tid bt bc br cols rows cols' Hwf HV Hperm) as [HV2 Hsim].
  assert (deref s2 tb = Some bt) as Dtb2 by (by apply (edit_sees _ _ _ _ tid He)).
  pose proof (vt_table _ _ _ _ _ _ _ _ HV2) as HT2. rewrite <- V2 in HV2, HT2, Hsim.
  destruct (normalize_loop_run s2 n tb bt cols' rows) as (u & [s3 n3] & E3 & En & V3 & B3 & _); try done.
  { rewrite (proj1 B2). by eapply similar_wf. }
  { by rewrite Hperm. }
  { rewrite Htid. by intros (? & _)%N4. }
  { apply (vt_rows _ _ _ _ _ _ _ _ HV2). }
  cbn [fst snd] in *. subst n3. destruct u. rewrite V2 in V3.
  assert (wf (view s2) [st_rootId s]) as Hwf2 by (by eapply similar_wf).
  destruct (valid_arranged _ _ _ _ _ _ _ _ Hwf2 HV2) as [HV3 Hsim3]. rewrite V2, <- V3 in HV3, Hsim3. rewrite V2 in Hsim.
  assert (similar V (view s3)) as Hsim' by (by eapply similar_trans).
  pose proof (same_below_trans _ _ _ B2 B3) as B.
  exists s3. split_and!; [|done|rewrite (proj1 B); by eapply similar_wf|by rewrite (proj1 B)|done|done].
  unfold ColumnMove, side_pos. replace (match (if below then PRight else PLeft) with PLeft => Some PTop | PRight => Some PBottom | _ => None end)
    with (Some (if below then PBottom else PTop)) by (by destruct below).
  unfold mbind, M_bind, act. cbn [fst snd]. rewrite (pickColumn_run s n t bt'), (pickColumn_run s n d bd), Enew by done. cbn [fst snd]. rewrite E1. cbn [negb].
  rewrite E2, (MakeColumnIndex_run s2 n _ _ _ _ _ _ _ HT2 tb Dtb2), (RowIDs_run s2 n _ _ _ _ _ _ _ HT2 tb Dtb2). exact E3.
Qed.
End column_move.
