(* ===== verification/TableShape.v ===== *)
(** * Tables: a document while its table is normalised

    Blocks that do not belong into a table are first listed below it and leave their
    old list at the end of a loop, so the document is not a tree in between.  What is
    kept is that the table has one parent and that there are no cycles. *)

From S2P Require Import Prelude Slice GoFloat StateTree StateNormalize StateApply Table TableEditor TableView TableColumns.

(** ** Strictly below *)

Definition strict (V : Blocks) (x y : string) : Prop := ∃ b c, V !! x = Some b ∧ c ∈ b_ChildrenIds b ∧ reach V c y.

Lemma strict_child V x b y : V !! x = Some b → y ∈ b_ChildrenIds b → strict V x y.
Proof. intros Hb Hy. exists b, y. split_and!; [done|done|constructor]. Qed.
Lemma strict_reach V x y : strict V x y → reach V x y.
Proof. intros (b & c & Hb & Hc & Hy). eapply reach_trans; [by eapply reach_step|done]. Qed.
Lemma strict_trans V x y z : strict V x y → strict V y z → strict V x z.
Proof. intros (b & c & Hb & Hc & Hy) Hz%strict_reach. exists b, c. split_and!; [done|done|by eapply reach_trans]. Qed.
Lemma strict_irreflexive V root x : wf V [root] → reach V root x → ¬ strict V x x.
Proof.
  intros Hwf Hx (b & c & Hb & Hc & Hcx). destruct (reach_chain _ _ _ Hx) as [path Hp].
  assert (c ∈ path ++ [x]) as Hin by (eapply (reach_on_path V [root] Hwf root ltac:(left)); [exact Hp|exists root; split; [left|by eapply reach_child]|exact Hcx]).
  by destruct (chain_fresh V [root] Hwf root ltac:(left) (path ++ [x]) c ltac:(by eapply chain_child)) as [Hf _].
Qed.
(** Where every edge leads strictly down in a tree there is no cycle. *)
Lemma descending_fresh V V' root : wf V [root] → (∀ q b c, reach V root q → V' !! q = Some b → c ∈ b_ChildrenIds b → strict V q c) →
  ∀ path id, chain V' root path id → reach V root id ∧ id ∉ path ∧ ∀ x, x ∈ path → strict V x id.
Proof.
  intros Hwf Hd path id Hc. induction Hc as [|path p b c Hc (IHr & _ & IH) Hb Hin].
  { split_and!; [constructor|apply not_elem_of_nil|by intros x ?%elem_of_nil]. }
  pose proof (Hd p b c IHr Hb Hin) as Hs. assert (reach V root c) as Hrc by (eapply reach_trans; [exact IHr|by apply strict_reach]).
  assert (∀ x, x ∈ path ++ [p] → strict V x c) as Hall.
  { intros x [Hx| ->%list_elem_of_singleton]%elem_of_app; [|done]. eapply strict_trans; [by apply IH|done]. }
  split_and!; [done| |done]. intros Hx. apply (strict_irreflexive V root c Hwf Hrc). by apply Hall.
Qed.

Section shape.
Context (V : Blocks) (root tid p : string) (bp bt : Block) (l r : list string).
Context (Hwf : wf V [root]) (Hp : reach V root p) (Hbp : V !! p = Some bp) (Hch : b_ChildrenIds bp = l ++ tid :: r).
Context (Hbt : V !! tid = Some bt).

(** The document with [mv] below the table, other lists of children, new blocks. *)
Definition look (mv : list string) (kids : string → option (list string)) (new : string → option Block) (q : string) : option Block :=
  if decide (q = p) then Some (with_children bp (l ++ tid :: mv ++ r))
  else match V !! q with
       | Some b => Some (match kids q with Some ids => with_children b ids | None => b end)
       | None => new q
       end.
Record fine (mv : list string) (kids : string → option (list string)) (new : string → option Block) : Prop := {
  fi_mv x : x ∈ mv → strict V tid x;
  fi_kids q ids : kids q = Some ids → strict V tid q ∧ ∃ b, V !! q = Some b ∧ ∀ x, x ∈ ids → x ∈ b_ChildrenIds b;
  fi_new q b : new q = Some b → b_Id b = q ∧ b_ChildrenIds b = [];
}.
Record shape (s : State) (tb : ptr) (mv : list string) (kids : string → option (list string)) (new : string → option Block) : Prop := {
  sh_root : st_rootId s = root;
  sh_view q : view s !! q = look mv kids new q;
  sh_tb : deref s tb = Some bt ∧ p_id tb = tid;
  sh_fine : fine mv kids new;
}.

Lemma parent_not_table : p ≠ tid.
Proof.
  intros E. apply (strict_irreflexive V root tid Hwf); [eapply reach_child; [done|done|rewrite Hch; apply elem_of_app; right; left]|].
  rewrite E in Hbp. eapply strict_child; [exact Hbp|]. rewrite Hch. apply elem_of_app. right. left.
Qed.
Lemma table_reach : reach V root tid.
Proof. eapply reach_child; [done|done|]. rewrite Hch. apply elem_of_app. right. left. Qed.
Lemma strict_table : strict V p tid.
Proof. eapply strict_child; [done|]. rewrite Hch. apply elem_of_app. right. left. Qed.
Lemma not_listed_twice : tid ∉ l ++ r.
Proof.
  pose proof (wf_nodup _ _ Hwf p bp ltac:(exists root; split; [left|done]) Hbp) as Hn. rewrite Hch, <- Permutation_middle in Hn.
  by apply NoDup_cons in Hn as [? _].
Qed.
Lemma below_not_above x : strict V tid x → x ≠ p ∧ x ≠ tid.
Proof.
  intros Hx. split; intros ->.
  - apply (strict_irreflexive V root tid Hwf table_reach). eapply strict_trans; [exact Hx|apply strict_table].
  - by apply (strict_irreflexive V root tid Hwf table_reach).
Qed.

Lemma shape_keys s tb mv kids new q b : shape s tb mv kids new → view s !! q = Some b → b_Id b = q.
Proof.
  intros Hs. rewrite (sh_view _ _ _ _ _ Hs). unfold look. pose proof (wf_keys _ _ Hwf) as Hk. destruct (decide (q = p)) as [->|Hne].
  - intros [= <-]. exact (Hk p bp Hbp).
  - destruct (V !! q) as [bq|] eqn:Eq; [|intros E; by apply (fi_new _ _ _ (sh_fine _ _ _ _ _ Hs))]. intros [= <-].
    destruct (kids q); exact (Hk q bq Eq).
Qed.
(** The edges of the document lead strictly down in the old one. *)
Lemma shape_descends s tb mv kids new q b c : shape s tb mv kids new → view s !! q = Some b → c ∈ b_ChildrenIds b → strict V q c.
Proof.
  intros Hs. rewrite (sh_view _ _ _ _ _ Hs). unfold look. destruct (sh_fine _ _ _ _ _ Hs) as [Hmv Hkids Hnew]. destruct (decide (q = p)) as [->|Hne].
  - intros [= <-]. cbn [with_children b_ChildrenIds]. intros Hc. destruct (decide (c ∈ mv)) as [Hin|Hin].
    + eapply strict_trans; [apply strict_table|by apply Hmv].
    + eapply strict_child; [done|]. rewrite Hch. rewrite !elem_of_app, elem_of_cons, elem_of_app in Hc. rewrite elem_of_app, elem_of_cons. tauto.
  - destruct (V !! q) as [bq|] eqn:Eq.
    + intros [= <-] Hc. eapply strict_child; [exact Eq|]. destruct (kids q) as [ids|] eqn:Ek; [|done].
      destruct (Hkids q ids Ek) as (_ & b' & Hb' & Hsub). rewrite Eq in Hb'. injection Hb' as <-. by apply Hsub.
    + intros Hn Hc. destruct (Hnew q b Hn) as [_ E]. rewrite E in Hc. by apply elem_of_nil in Hc.
Qed.
(** What is above the table is as before. *)
Lemma shape_above s tb mv kids new x : shape s tb mv kids new → reach V root x → reach V x p → reach (view s) root x.
Proof.
  intros Hs Hx. induction Hx as [|q b c Hq IH Hb Hc]; intros Hxp; [constructor|].
  assert (strict V q p) as Hqp by (exists b, c; by split_and!). assert (q ≠ p) as Hne.
  { intros ->. by apply (strict_irreflexive V root p Hwf). }
  assert (view s !! q = Some b) as Hvq.
  { rewrite (sh_view _ _ _ _ _ Hs). unfold look. rewrite decide_False, Hb by done. destruct (kids q) as [ids|] eqn:Ek; [|done].
    destruct (fi_kids _ _ _ (sh_fine _ _ _ _ _ Hs) q ids Ek) as [Hs' _]. destruct (strict_irreflexive V root tid Hwf table_reach).
    eapply strict_trans; [exact Hs'|]. eapply strict_trans; [exact Hqp|apply strict_table]. }
  eapply reach_child; [|exact Hvq|done]. apply IH. by apply strict_reach.
Qed.
(** The table still has one parent. *)
Lemma shape_parent s tb mv kids new : shape s tb mv kids new → PickParentOf s tid = Some (with_children bp (l ++ tid :: mv ++ r)).
Proof.
  intros Hs. pose proof (descending_fresh V (view s) root Hwf (λ q b c _, shape_descends s tb mv kids new q b c Hs)) as Hf.
  assert (view s !! p = Some (with_children bp (l ++ tid :: mv ++ r))) as Hvp by (rewrite (sh_view _ _ _ _ _ Hs); unfold look; by rewrite decide_True).
  apply (PickParentOf_unique s tid p); rewrite ?(sh_root _ _ _ _ _ Hs).
  - intros path id Hc. by apply Hf.
  - apply (shape_above s tb mv kids new p Hs Hp). constructor.
  - done.
  - cbn. apply elem_of_app. right. left.
  - intros q bq Hq Hbq Hin. destruct (reach_chain _ _ _ Hq) as [path [Hrq _]%Hf].
    rewrite (sh_view _ _ _ _ _ Hs) in Hbq. unfold look in Hbq. destruct (decide (q = p)) as [|Hne]; [done|].
    destruct (sh_fine _ _ _ _ _ Hs) as [_ Hkids Hnew]. destruct (V !! q) as [b|] eqn:Eq.
    + injection Hbq as <-. assert (tid ∈ b_ChildrenIds b) as Hin'.
      { destruct (kids q) as [ids|] eqn:Ek; [|done]. destruct (Hkids q ids Ek) as (_ & b' & Hb' & Hsub). rewrite Eq in Hb'. injection Hb' as <-. by apply Hsub. }
      apply (wf_uniq _ _ Hwf q b p bp tid); try done; [exists root; split; [left|done]..|]. rewrite Hch. apply elem_of_app. right. left.
    + destruct (Hnew q bq Hbq) as [_ E]. rewrite E in Hin. by apply elem_of_nil in Hin.
Qed.

(** ** Steps *)

Lemma shape_same s s' tb mv kids new : shape s tb mv kids new → same_view s s' → shape s' tb mv kids new.
Proof.
  intros [R HV [D I] F] Hs. pose proof Hs as (EV & B & _). split; [by rewrite (proj1 B)|intros q; by rewrite EV| |done].
  split; [|done]. by apply (same_view_sees s s' tid Hs).
Qed.
Lemma shape_change s s' tb mv kids new mv' kids' new' q b' : shape s tb mv kids new →
  view s' = <[q:=b']> (view s) → st_rootId s' = st_rootId s → sees s s' tid → fine mv' kids' new' →
  (∀ x, look mv' kids' new' x = if decide (x = q) then Some b' else look mv kids new x) → shape s' tb mv' kids' new'.
Proof.
  intros [R HV [D I] F] EV ER Hs F' EL. split; [by rewrite ER| |by split; [apply Hs|]|done].
  intros x. rewrite EV, EL. destruct (decide (x = q)) as [->|Hne]; [apply lookup_insert_eq|rewrite lookup_insert_ne by done; apply HV].
Qed.
Lemma shape_edit s s' tb mv kids new mv' kids' new' q b' : shape s tb mv kids new → edit s s' q b' → q ≠ tid → fine mv' kids' new' →
  (∀ x, look mv' kids' new' x = if decide (x = q) then Some b' else look mv kids new x) → shape s' tb mv' kids' new'.
Proof. intros Hs He Hq. apply (shape_change s s' tb mv kids new); [done|apply He|apply He|]. by eapply edit_sees. Qed.
Lemma shape_ext s tb mv kids new mv' kids' new' : shape s tb mv kids new → fine mv' kids' new' →
  (∀ x, look mv' kids' new' x = look mv kids new x) → shape s tb mv' kids' new'.
Proof. intros [R HV D F] F' EL. split; [done|intros q; by rewrite EL|done|done]. Qed.

Lemma shape_at_parent s tb mv kids new : shape s tb mv kids new → view s !! p = Some (with_children bp (l ++ tid :: mv ++ r)).
Proof. intros Hs. rewrite (sh_view _ _ _ _ _ Hs). unfold look. by rewrite decide_True. Qed.
Lemma shape_at s tb mv kids new q b : shape s tb mv kids new → V !! q = Some b → q ≠ p →
  view s !! q = Some (match kids q with Some ids => with_children b ids | None => b end).
Proof. intros Hs Hb Hq. rewrite (sh_view _ _ _ _ _ Hs). unfold look. by rewrite decide_False, Hb. Qed.
Lemma shape_missing s tb mv kids new q : shape s tb mv kids new → V !! q = None → view s !! q = new q.
Proof.
  intros Hs Hb. rewrite (sh_view _ _ _ _ _ Hs). unfold look. rewrite decide_False, Hb; [done|]. intros ->. congruence.
Qed.

(** Blocks from below the table are moved next to it. *)
Lemma shape_move s n tb mv kids new ids : shape s tb mv kids new → (∀ x, x ∈ ids → strict V tid x) →
  ∃ s', MoveBlocksUnderTheTable tb ids (s, n) = Some (Ok (), (s', n)) ∧ shape s' tb (ids ++ mv) kids new ∧
    ∀ i b, i ≠ p → st_blocks s !! i = Some b → st_blocks s' !! i = Some b.
Proof.
  intros Hs Hids. pose proof (wf_keys _ _ Hwf _ _ Hbt) as Eid. pose proof (wf_keys _ _ Hwf _ _ Hbp) as Ep.
  assert (tid ∉ l) as Hl by (intros H; apply not_listed_twice, elem_of_app; by left).
  destruct (Move_run s n tb bt ids (with_children bp (l ++ tid :: mv ++ r)) l (mv ++ r)) as (s' & E & He).
  - apply (sh_tb _ _ _ _ _ Hs).
  - rewrite Eid. by eapply shape_parent.
  - change (b_Id (with_children bp (l ++ tid :: mv ++ r))) with (b_Id bp). rewrite Ep. by eapply shape_at_parent.
  - by rewrite Eid.
  - by rewrite Eid.
  - change (b_Id (with_children bp (l ++ tid :: mv ++ r))) with (b_Id bp) in He. rewrite Ep, Eid in He. exists s'. split_and!; [done| |].
    + apply (shape_edit s s' tb mv kids new _ _ _ p _ Hs He parent_not_table).
      * destruct (sh_fine _ _ _ _ _ Hs) as [F1 F2 F3]. split; [|done|done]. intros x [Hx|Hx]%elem_of_app; auto.
      * intros x. unfold look. destruct (decide (x = p)); [|done]. by rewrite <- (assoc_L (++)).
    + intros i b Hi. by apply (ed_keep _ _ _ _ He).
Qed.

(** ** At the end the document is a tree again *)

(** What was moved is no longer where it was, and nothing got lost. *)
Record settled (mv : list string) (kids : string → option (list string)) : Prop := {
  se_nodup : NoDup mv;
  se_kids q ids : kids q = Some ids → NoDup ids;
  se_moved x : x ∈ mv → ∃ q b ids, V !! q = Some b ∧ x ∈ b_ChildrenIds b ∧ reach V root q ∧ strict V tid x ∧ kids q = Some ids ∧ x ∉ ids ∧ q ≠ p;
  se_kept q b ids x : kids q = Some ids → V !! q = Some b → x ∈ b_ChildrenIds b → x ∈ ids ∨ x ∈ mv;
}.

Lemma shape_edge s tb mv kids new q b c : shape s tb mv kids new → view s !! q = Some b → c ∈ b_ChildrenIds b →
  (q = p ∧ c ∈ mv) ∨ ∃ b0, V !! q = Some b0 ∧ c ∈ b_ChildrenIds b0 ∧ ∀ ids, q ≠ p → kids q = Some ids → c ∈ ids.
Proof.
  intros Hs. rewrite (sh_view _ _ _ _ _ Hs). unfold look. destruct (sh_fine _ _ _ _ _ Hs) as [_ Hkids Hnew]. destruct (decide (q = p)) as [->|Hne].
  - intros [= <-]. cbn [with_children b_ChildrenIds]. intros Hc. destruct (decide (c ∈ mv)) as [Hin|Hin]; [by left|right].
    exists bp. split_and!; [done| |done]. rewrite Hch. rewrite !elem_of_app, elem_of_cons, elem_of_app in Hc. rewrite elem_of_app, elem_of_cons. tauto.
  - destruct (V !! q) as [bq|] eqn:Eq.
    + intros [= <-] Hc. right. exists bq. destruct (kids q) as [ids|] eqn:Ek; [|by split_and!].
      destruct (Hkids q ids Ek) as (_ & b' & Hb' & Hsub). rewrite Eq in Hb'. injection Hb' as <-. split_and!; [done|by apply Hsub|]. by intros ? _ [= <-].
    + intros Hn Hc. destruct (Hnew q b Hn) as [_ E]. rewrite E in Hc. by apply elem_of_nil in Hc.
Qed.
Lemma shape_reachable s tb mv kids new q : shape s tb mv kids new → reach (view s) root q → reach V root q.
Proof.
  intros Hs Hq. destruct (reach_chain _ _ _ Hq) as [path Hc]. by apply (descending_fresh V (view s) root Hwf (λ q b c _, shape_descends s tb mv kids new q b c Hs) path).
Qed.
Lemma shape_wf s tb mv kids new : shape s tb mv kids new → settled mv kids → wf (view s) [root].
Proof.
  intros Hs [Sn Sk Sm Sc]. assert (∀ q, reach V root q → reachable V [root] q) as Hre by (intros q Hq; exists root; split; [left|done]).
  assert (∀ q, reachable (view s) [root] q → reach V root q) as Hre'.
  { intros q (r0 & ->%list_elem_of_singleton & Hq). by eapply shape_reachable. }
  (* what was moved has no other parent *)
  assert (∀ q b c, reach V root q → view s !! q = Some b → c ∈ b_ChildrenIds b → c ∈ mv → q = p) as Hmv.
  { intros q b c Hq Hb Hc Hin. destruct (shape_edge _ _ _ _ _ _ _ _ Hs Hb Hc) as [[-> _]|(b0 & Hb0 & Hc0 & Hk)]; [done|].
    destruct (decide (q = p)) as [|Hne]; [done|]. destruct (Sm c Hin) as (q' & b' & ids & Hb' & Hc' & Hr' & _ & Ek & Hnot & _).
    assert (q = q') as <- by (by apply (wf_uniq _ _ Hwf q b0 q' b' c); auto). destruct Hnot. by apply Hk. }
  split.
  - intros id b. by eapply shape_keys.
  - apply NoDup_singleton.
  - intros p1 b1 p2 b2 c R1%Hre' R2%Hre' E1 E2 I1 I2. destruct (decide (c ∈ mv)) as [Hin|Hin].
    + rewrite (Hmv p1 b1 c), (Hmv p2 b2 c); done.
    + destruct (shape_edge _ _ _ _ _ _ _ _ Hs E1 I1) as [[_ ?]|(b1' & E1' & I1' & _)]; [done|].
      destruct (shape_edge _ _ _ _ _ _ _ _ Hs E2 I2) as [[_ ?]|(b2' & E2' & I2' & _)]; [done|].
      apply (wf_uniq _ _ Hwf p1 b1' p2 b2' c); auto.
  - intros q b R%Hre' Hb. rewrite (sh_view _ _ _ _ _ Hs) in Hb. unfold look in Hb. destruct (decide (q = p)) as [->|Hne].
    + injection Hb as <-. cbn [with_children b_ChildrenIds]. pose proof (wf_nodup _ _ Hwf p bp (Hre p Hp) Hbp) as Hn. rewrite Hch in Hn.
      assert (l ++ tid :: mv ++ r ≡ₚ mv ++ l ++ tid :: r) as ->.
      { transitivity (tid :: mv ++ l ++ r); [rewrite <- Permutation_middle; f_equiv; apply Permutation_app_swap_app|].
        rewrite Permutation_middle. f_equiv. apply Permutation_middle. }
      apply NoDup_app. split_and!; [done| |done]. intros x Hx Hin. destruct (Sm x Hx) as (q' & b' & ids & Hb' & Hc' & Hr' & _ & _ & _ & Hqp). apply Hqp.
      apply (wf_uniq _ _ Hwf q' b' p bp x); auto. by rewrite Hch.
    + destruct (V !! q) as [b0|] eqn:Eq.
      * injection Hb as <-. destruct (kids q) as [ids|] eqn:Ek; [exact (Sk q ids Ek)|by apply (wf_nodup _ _ Hwf q); auto].
      * destruct (fi_new _ _ _ (sh_fine _ _ _ _ _ Hs) q b Hb) as [_ ->]. constructor.
  - intros q b x R%Hre' Hb ->%list_elem_of_singleton Hc. pose proof (shape_descends _ _ _ _ _ _ _ _ Hs Hb Hc) as Hst.
    apply (strict_irreflexive V root q Hwf R). destruct Hst as (b0 & c0 & Hb0 & Hc0 & Hrc). exists b0, c0. split_and!; [done|done|by eapply reach_trans].
Qed.
Lemma shape_complete s tb mv kids new x : shape s tb mv kids new → settled mv kids → reach V root x → reach (view s) root x.
Proof.
  intros Hs [_ _ _ Sc] Hx. pose proof (shape_above s tb mv kids new p Hs Hp ltac:(constructor)) as Hvp.
  induction Hx as [|q b c Hq IH Hb Hc]; [constructor|]. destruct (decide (q = p)) as [->|Hne].
  - eapply reach_child; [exact Hvp|by eapply shape_at_parent|]. rewrite Hbp in Hb. injection Hb as <-. rewrite Hch in Hc. cbn [with_children b_ChildrenIds].
    rewrite !elem_of_app, elem_of_cons, elem_of_app. rewrite elem_of_app, elem_of_cons in Hc. tauto.
  - pose proof (shape_at s tb mv kids new q b Hs Hb Hne) as Hv. destruct (kids q) as [ids|] eqn:Ek; [|by eapply reach_child].
    destruct (Sc q b ids c Ek Hb Hc) as [Hin|Hin]; [by eapply reach_child|].
    eapply reach_child; [exact Hvp|by eapply shape_at_parent|]. cbn [with_children b_ChildrenIds]. rewrite !elem_of_app, elem_of_cons, elem_of_app. tauto.
Qed.
End shape.
