(* ===== verification/TableNormal.v ===== *)
(** * Tables: normalisation

    [Normalize] turns any table whose parts are there into a proper one: columns that
    are listed and do not exist are created, so are rows; what is no column, no row or
    no cell of a column is moved below the table; the cells follow the columns and the
    header rows come first. *)

From S2P Require Import Prelude Slice GoFloat StateTree StateNormalize StateApply Table TableEditor TableView TableColumns TableShape.

(** ** Writing through a pointer that was just picked *)

Lemma write_layers s q f : layers (write s q f) = alter (alter f (p_id q)) (p_layer q) (layers s).
Proof. by destruct q as [[|k] i]. Qed.
Lemma pick_alter f id b i : ∀ ls n q, pick_ptr n ls id = Some q → pick_layers ls id = Some b →
  ∃ k, p_layer q = (n + k)%nat ∧ p_id q = id ∧ pick_layers (alter (alter f id) k ls) i = if decide (i = id) then Some (f b) else pick_layers ls i.
Proof.
  induction ls as [|m ls IH]; intros n q; [done|]. cbn [pick_ptr pick_layers]. destruct (m !! id) as [b'|] eqn:Em.
  - intros [= <-] [= ->]. exists 0%nat. split_and!; [cbn; lia|done|]. change (alter (alter f id) 0%nat (m :: ls)) with (alter f id m :: ls). cbn [pick_layers].
    destruct (decide (i = id)) as [->|Hne]; [by rewrite lookup_alter_eq, Em|by rewrite lookup_alter_ne].
  - intros Hq Hb. destruct (IH (S n) q Hq Hb) as (k & Ek & Ei & E). exists (S k). split_and!; [lia|done|].
    change (alter (alter f id) (S k) (m :: ls)) with (m :: alter (alter f id) k ls). cbn [pick_layers]. rewrite E.
    destruct (decide (i = id)) as [->|Hne]; [by rewrite Em|done].
Qed.
Lemma write_view s id q b f : PickPtr s id = Some q → view s !! id = Some b →
  view (write s q f) = <[id:=f b]> (view s) ∧ st_rootId (write s q f) = st_rootId s ∧ ∀ i, i ≠ id → sees s (write s q f) i.
Proof.
  intros Hq Hb. rewrite <- Pick_view in Hb. split_and!.
  - apply map_eq. intros i. destruct (pick_alter f id b i (layers s) 0 q Hq Hb) as (k & Ek & Ei & E). rewrite <- Pick_view.
    change (Pick (write s q f) i) with (pick_layers (layers (write s q f)) i). rewrite write_layers, Ei. replace (p_layer q) with k by lia. rewrite E. destruct (decide (i = id)) as [->|Hne].
    + by rewrite lookup_insert_eq.
    + rewrite lookup_insert_ne, <- Pick_view by done. done.
  - by destruct q as [[|k] x].
  - destruct (pick_alter f id b id (layers s) 0 q Hq Hb) as (_ & _ & Ei & _). intros i Hi [k x] c Ex. cbn in Ex. subst x.
    unfold deref. rewrite write_layers, Ei. cbn [p_layer p_id]. destruct (decide (p_layer q = k)) as [->|Hne].
    + rewrite list_lookup_alter_eq. destruct (layers s !! k) as [m|]; [|done]. cbn. by rewrite lookup_alter_ne.
    + by rewrite list_lookup_alter_ne.
Qed.

(** ** The proper table *)

Section spec.
Context (V : Blocks) (cols rows : list string) `{!RowSorter}.

Definition ok_column (c : string) : bool := match V !! c with Some b => is_column b | None => true end.
Definition ok_row (r : string) : bool := match V !! r with Some b => bool_decide (is_Some (as_row b)) | None => true end.
Definition header_row (r : string) : bool := match V !! r with Some b => is_header b | None => false end.
Definition row_blocks (r : string) : option Block := b ← V !! r; if bool_decide (is_Some (as_row b)) then Some b else None.

(** The columns and the rows that stay. *)
Definition columns_of : list string := filter (λ c, ok_column c = true) cols.
Definition proper_rows : list string := filter (λ r, ok_row r = true) rows.
Definition rows_of : list string :=
  filter (λ r, header_row r = true) proper_rows ++ filter (λ r, header_row r = false) proper_rows.
(** The cells of a row. *)
Definition cells_of (b : Block) : list string := (row_sort (omap (numbered (index_of columns_of)) (b_ChildrenIds b))).1.*2.
Definition strays (b : Block) : list string := filter (λ id, numbered (index_of columns_of) id = None) (b_ChildrenIds b).
(** What a listed row gives away. *)
Definition gone (r : string) : list string :=
  match V !! r with Some b => if bool_decide (is_Some (as_row b)) then strays b else [r] | None => [] end.
(** What is listed below the table, the last one moved first. *)
Definition moved : list string := foldl (λ mv r, gone r ++ mv) (reverse (filter (λ c, ok_column c = false) cols)) rows.
End spec.

Lemma omap_numbered (idx : gmap string nat) (ids : list string) : (omap (numbered idx) ids).*2 = filter (λ id, numbered idx id ≠ None) ids.
Proof.
  induction ids as [|id ids IH]; [done|]. cbn [omap list_omap]. rewrite filter_cons. destruct (numbered idx id) as [[v x]|] eqn:E.
  - rewrite decide_True by done. cbn [fmap list_fmap snd]. f_equal; [|done]. unfold numbered in E. destruct (_ ≫= _); [|done]. by injection E.
  - by rewrite decide_False by (intros H; by apply H).
Qed.
Lemma foldl_gone {A B} (g : A → list B) l : ∀ mv, foldl (λ mv x, g x ++ mv) mv l ≡ₚ mv ++ flat_map g l.
Proof.
  induction l as [|x l IH]; intros mv; [by rewrite app_nil_r|]. cbn [foldl flat_map]. rewrite IH, <- (assoc_L (++)). apply Permutation_app_swap_app.
Qed.
Lemma NoDup_flat_map {A B} (g : A → list B) l : NoDup l → (∀ x, x ∈ l → NoDup (g x)) →
  (∀ x y z, x ∈ l → y ∈ l → z ∈ g x → z ∈ g y → x = y) → NoDup (flat_map g l).
Proof.
  induction 1 as [|x l Hx Hl IH]; intros Hg Hd; [constructor|]. cbn [flat_map]. apply NoDup_app. split_and!; [apply Hg; left| |].
  - intros z Hz Hin. apply list_elem_of_In, in_flat_map in Hin as (y & Hy%list_elem_of_In & Hzy%list_elem_of_In). apply Hx.
    assert (x = y) as -> by (apply (Hd x y z); [left|by right|done|done]). done.
  - apply IH; [intros y Hy; apply Hg; by right|]. intros a b z Ha Hb. apply Hd; by right.
Qed.

(** ** The cells follow the columns *)

Definition col_le (cols : list string) (x y : string) : Prop :=
  ∃ i j c d, col_of x = Some c ∧ col_of y = Some d ∧ cols !! i = Some c ∧ cols !! j = Some d ∧ (i ≤ j)%nat.
Definition in_order (cols ids : list string) : Prop := (∀ id, id ∈ ids → has_column cols id) ∧ StronglySorted (col_le cols) ids.

Lemma sorted_cells `{!RowSorter, !RowSorterOk} cols ids : NoDup cols → in_order cols (row_sort (omap (numbered (index_of cols)) ids)).1.*2.
Proof.
  intros Hn. assert (∀ x, x ∈ (row_sort (omap (numbered (index_of cols)) ids)).1 → ∃ c, col_of x.2 = Some c ∧ cols !! x.1 = Some c) as Hall.
  { intros [i id]. rewrite row_sort_perm. by intros (_ & c & Hc)%(numbered_spec cols Hn); exists c. }
  split.
  - intros id ([i id'] & -> & (c & Hc & Hi)%Hall)%list_elem_of_fmap. exists c. split; [done|]. by eapply list_elem_of_lookup_2.
  - pose proof (row_sort_sorted (omap (numbered (index_of cols)) ids)) as Hs. induction Hs as [|x l Hs IH Hx]; [constructor|]. cbn [fmap list_fmap]. constructor.
    + apply IH. intros y Hy. apply Hall. by right.
    + apply List.Forall_forall. intros y (y' & -> & Hy)%list_elem_of_In%list_elem_of_fmap. rewrite List.Forall_forall in Hx. specialize (Hx y' ltac:(by apply list_elem_of_In)).
      destruct (Hall x ltac:(left)) as (c & Hc & Hi), (Hall y' ltac:(by right)) as (d & Hd & Hj). by exists x.1, y'.1, c, d.
Qed.

Section normal.
Context (V : Blocks) (root tid p : string) (bp bt bc br : Block) (l r cols rows : list string).
Context (Hwf : wf V [root]) (HP : listed V root tid p bp l r) (HT : table V root tid bt bc br cols rows).
Context `{!RowSorter, !RowSorterOk}.
Abbreviation sh := (shape V root tid p bp bt l r).
Abbreviation fi := (fine V tid).
Abbreviation cols' := (columns_of V cols).

(** ** Where the blocks of the table are *)

Lemma kids_below q b c : strict V tid q → V !! q = Some b → c ∈ b_ChildrenIds b → strict V tid c.
Proof. intros Hq Hb Hc. eapply strict_trans; [exact Hq|by eapply strict_child]. Qed.
Lemma parts_below : strict V tid (b_Id bc) ∧ strict V tid (b_Id br).
Proof.
  destruct (tb_parts _ _ _ _ _ _ _ _ HT) as [rest E]. split; (eapply strict_child; [apply HT|rewrite E]); [left|right; left].
Qed.
Lemma members_below : (∀ c, c ∈ cols → strict V tid c) ∧ (∀ x, x ∈ rows → strict V tid x).
Proof.
  destruct parts_below as [Bc Br]. destruct (tb_columns _ _ _ _ _ _ _ _ HT) as (Lc & _ & Ec), (tb_rows _ _ _ _ _ _ _ _ HT) as (Lr & _ & Er).
  split; intros x Hx; [apply (kids_below (b_Id bc) bc x Bc Lc); by rewrite Ec|apply (kids_below (b_Id br) br x Br Lr); by rewrite Er].
Qed.
Lemma table_in : reach V root tid.
Proof. apply HT. Qed.
Lemma below_in x : strict V tid x → reachable V [root] x.
Proof. intros Hx. exists root. split; [left|]. eapply reach_trans; [apply table_in|by apply strict_reach]. Qed.
Lemma below_apart x : strict V tid x → x ≠ p ∧ x ≠ tid.
Proof. destruct HP as (H1 & H2 & H3 & _). by eapply below_not_above. Qed.
Lemma not_own_child q b : strict V tid q → V !! q = Some b → q ∉ b_ChildrenIds b.
Proof.
  intros Hq Hb Hin. destruct (below_in q Hq) as (r0 & ->%list_elem_of_singleton & Hr).
  apply (strict_irreflexive V root q Hwf Hr). by eapply strict_child.
Qed.
(** Every block of the table is listed once. *)
Lemma one_parent q1 b1 q2 b2 c : strict V tid q1 → strict V tid q2 → V !! q1 = Some b1 → V !! q2 = Some b2 →
  c ∈ b_ChildrenIds b1 → c ∈ b_ChildrenIds b2 → q1 = q2.
Proof. intros H1 H2. apply (wf_uniq _ _ Hwf); by apply below_in. Qed.
Lemma parts_apart : b_Id bc ≠ b_Id br.
Proof.
  destruct (tb_columns _ _ _ _ _ _ _ _ HT) as (Lc & Kc & _), (tb_rows _ _ _ _ _ _ _ _ HT) as (Lr & Kr & _). intros E.
  rewrite E, Lr in Lc. injection Lc as <-. congruence.
Qed.
Lemma lists_nodup : NoDup cols ∧ NoDup rows.
Proof.
  destruct parts_below as [Bc Br]. destruct (tb_columns _ _ _ _ _ _ _ _ HT) as (Lc & _ & Ec), (tb_rows _ _ _ _ _ _ _ _ HT) as (Lr & _ & Er).
  rewrite <- Ec, <- Er. split; [apply (wf_nodup _ _ Hwf (b_Id bc))|apply (wf_nodup _ _ Hwf (b_Id br))]; try done; by apply below_in.
Qed.
Lemma member_apart : (∀ x, x ∈ cols → x ∉ rows) ∧ (∀ x, x ∈ cols ∨ x ∈ rows → x ≠ b_Id bc ∧ x ≠ b_Id br).
Proof.
  destruct parts_below as [Bc Br]. destruct (tb_columns _ _ _ _ _ _ _ _ HT) as (Lc & _ & Ec), (tb_rows _ _ _ _ _ _ _ _ HT) as (Lr & _ & Er).
  destruct (tb_parts _ _ _ _ _ _ _ _ HT) as [rest Et]. pose proof (tb_block _ _ _ _ _ _ _ _ HT) as Lt. destruct (below_apart _ Bc) as [_ Nc], (below_apart _ Br) as [_ Nr].
  split.
  - intros x Hc Hr. apply parts_apart. apply (one_parent _ bc _ br x); try done; by rewrite ?Ec, ?Er.
  - assert (∀ q b, reach V root q → V !! q = Some b → q ≠ tid → ∀ x, x ∈ b_ChildrenIds b → x ≠ b_Id bc ∧ x ≠ b_Id br) as Hmem.
    { intros q b Hq Hb Hne x Hx. split; intros ->; apply Hne.
      - apply (wf_uniq _ _ Hwf q b tid bt (b_Id bc)); try done; [by exists root; split; [left|]|exists root; split; [left|apply HT]|rewrite Et; left].
      - apply (wf_uniq _ _ Hwf q b tid bt (b_Id br)); try done; [by exists root; split; [left|]|exists root; split; [left|apply HT]|rewrite Et; right; left]. }
    intros x [Hx|Hx]; [apply (Hmem (b_Id bc) bc)|apply (Hmem (b_Id br) br)]; rewrite ?Ec, ?Er; try done;
      (eapply reach_trans; [apply table_in|by apply strict_reach]).
Qed.

(** ** The document while the loops run *)

Definition no_kids : string → option (list string) := λ _, None.
Definition upd (kids : string → option (list string)) (q : string) (ids : list string) : string → option (list string) :=
  λ x, if decide (x = q) then Some ids else kids x.
Definition at_kids (kids : string → option (list string)) (b : Block) : Block :=
  match kids (b_Id b) with Some ids => with_children b ids | None => b end.

Lemma fine_upd mv kids new q b ids : fi mv kids new → strict V tid q → V !! q = Some b → (∀ x, x ∈ ids → x ∈ b_ChildrenIds b) → fi mv (upd kids q ids) new.
Proof.
  intros [F1 F2 F3] Hq Hb Hin. split; [done| |done]. intros x ids'. unfold upd. destruct (decide (x = q)) as [->|Hne]; [|apply F2].
  intros [= <-]. split; [done|]. by exists b.
Qed.
Lemma look_upd mv kids new q b ids x : V !! q = Some b → q ≠ p →
  look V tid p bp l r mv (upd kids q ids) new x = if decide (x = q) then Some (with_children b ids) else look V tid p bp l r mv kids new x.
Proof.
  intros Hb Hq. unfold look, upd. destruct (decide (x = q)) as [->|Hne]; [by rewrite decide_False, Hb|done].
Qed.
Lemma at_kids_id kids b : b_Id (at_kids kids b) = b_Id b.
Proof. unfold at_kids. by destruct (kids _). Qed.

Lemma shape_parts s tb mv kids new : sh s tb mv kids new →
  table (view s) root tid bt (at_kids kids bc) (at_kids kids br) (b_ChildrenIds (at_kids kids bc)) (b_ChildrenIds (at_kids kids br)).
Proof.
  intros Hs. destruct HP as (Hp & Hbp & Hch & _). destruct parts_below as [Bc Br]. destruct (below_apart _ Bc) as [Nc _], (below_apart _ Br) as [Nr _].
  destruct (tb_columns _ _ _ _ _ _ _ _ HT) as (Lc & Kc & _), (tb_rows _ _ _ _ _ _ _ _ HT) as (Lr & Kr & _).
  assert (∀ b, V !! b_Id b = Some b → b_Id b ≠ p → view s !! b_Id b = Some (at_kids kids b)) as Hat.
  { intros b Hb Hne. by eapply shape_at. }
  split.
  - eapply reach_child; [eapply shape_above; try done; constructor|by eapply shape_at_parent|]. cbn [with_children b_ChildrenIds]. apply elem_of_app. right. left.
  - rewrite (shape_at _ _ _ _ _ _ _ _ s tb mv kids new tid bt Hs); [|apply HT|].
    + destruct (kids tid) as [ids|] eqn:Ek; [|done]. destruct (fi_kids _ _ _ _ _ (sh_fine _ _ _ _ _ _ _ _ _ _ _ _ _ Hs) tid ids Ek) as [Hst _].
      by destruct (below_apart _ Hst).
    + intros E. by apply (parent_not_table V root tid p bp l r Hwf Hp Hbp Hch).
  - apply HT.
  - rewrite !at_kids_id. apply (tb_parts _ _ _ _ _ _ _ _ HT).
  - rewrite at_kids_id. split_and!; [by apply Hat| |done]. unfold at_kids. by destruct (kids _).
  - rewrite at_kids_id. split_and!; [by apply Hat| |done]. unfold at_kids. by destruct (kids _).
Qed.

(** A part is written where it was found. *)
Lemma shape_write s tb mv kids new b q ids : sh s tb mv kids new → b = bc ∨ b = br → PickPtr s (b_Id b) = Some q →
  (∀ x, x ∈ ids → x ∈ b_ChildrenIds b) → sh (write s q (λ x, with_children x ids)) tb mv (upd kids (b_Id b) ids) new.
Proof.
  intros Hs Hb Hq Hin. assert (V !! b_Id b = Some b ∧ strict V tid (b_Id b)) as [Lb Bb].
  { destruct parts_below. by destruct Hb as [->| ->]; (split; [apply HT|]). }
  destruct (below_apart _ Bb) as [Np Nt]. pose proof (shape_at _ _ _ _ _ _ _ _ _ _ _ _ _ _ _ Hs Lb Np) as Hv.
  destruct (write_view s (b_Id b) q _ (λ x, with_children x ids) Hq Hv) as (EV & ER & ES).
  eapply (shape_change V root tid p bp bt l r s); [exact Hs|exact EV|exact ER|by apply ES|eapply fine_upd; try done; apply Hs|].
  intros x. rewrite (look_upd _ _ _ _ b) by done. destruct (decide (x = b_Id b)); [|done]. by destruct (kids (b_Id b)).
Qed.

(** ** Columns *)

Definition new_columns (ids : list string) (q : string) : option Block := if decide (q ∈ ids) then Some (makeColumn q) else None.

Lemma fine_columns mv ids : (∀ x, x ∈ mv → x ∈ cols) → fi mv no_kids (new_columns ids).
Proof.
  intros Hmv. split; [intros x Hx; by apply (proj1 members_below), Hmv|done|]. intros q b. unfold new_columns. destruct (decide _); [|done]. by intros [= <-].
Qed.
Lemma attempt_run {A} (m : M A) g re g' : m g = Some (re, g') → attempt m g = Some (Ok re, g').
Proof. intros E. unfold attempt. by rewrite E. Qed.
Lemma pickColumn_cases s n c : pickColumn c (s, n) =
  Some (match view s !! c with Some b => if is_column b then Ok b else Err errNotAColumn | None => Err errColumnNotFound end, (s, n)).
Proof. unfold pickColumn, mbind, M_bind, gets. cbn [fst]. rewrite Pick_view. destruct (view s !! c) as [b|]; [|done]. by destruct (is_column b). Qed.

(** What the loop has done so far. *)
Record columns_inv (n : nat) (tb : ptr) (dn : list string) (acc : bool * list string) (g : genstate) : Prop := {
  ci_n : g.2 = n;
  ci_kept : acc.2 = filter (λ c, ok_column V c = true) dn;
  ci_all : acc.1 = false → acc.2 = dn;
  ci_shape : sh g.1 tb (reverse (filter (λ c, ok_column V c = false) dn)) no_kids (new_columns dn);
}.
Lemma look_new mv kids new c b x : V !! c = None →
  look V tid p bp l r mv kids (λ q, if decide (q = c) then Some b else new q) x = if decide (x = c) then Some b else look V tid p bp l r mv kids new x.
Proof.
  intros Hc. destruct HP as (_ & Hbp & _). unfold look. destruct (decide (x = c)) as [->|Hne]; [|done]. rewrite decide_False, Hc; [done|]. intros ->. congruence.
Qed.
Lemma new_columns_snoc dn c q : new_columns (dn ++ [c]) q = if decide (q = c) then Some (makeColumn c) else new_columns dn q.
Proof.
  unfold new_columns. destruct (decide (q = c)) as [->|Hne]; [by rewrite decide_True by (apply elem_of_app; right; left)|].
  destruct (decide (q ∈ dn)); [by rewrite decide_True by (apply elem_of_app; by left)|rewrite decide_False; [done|]]. by intros [?| ->%list_elem_of_singleton]%elem_of_app.
Qed.
Lemma look_ext mv kids new kids' new' x : (∀ q, kids q = kids' q) → (∀ q, V !! q = None → new q = new' q) →
  look V tid p bp l r mv kids new x = look V tid p bp l r mv kids' new' x.
Proof. intros Hk Hn. unfold look. destruct (decide (x = p)); [done|]. rewrite Hk. destruct (V !! x) eqn:E; [done|]. by apply Hn. Qed.

Lemma column_step n tb dn c todo acc g : dn ++ c :: todo = cols → columns_inv n tb dn acc g →
  runs ((λ '(invalid, colIds) colId,
        o ← attempt (pickColumn colId);
        match o with
        | Ok _ => mret (invalid, colIds ++ [colId])
        | Err e =>
            if bool_decide (e = errColumnNotFound) then
              ok ← act (λ s, Add s (makeColumn colId)); mret (true, if (ok : bool) then colIds ++ [colId] else colIds)
            else _ ← MoveBlocksUnderTheTable tb [colId]; mret (true, colIds)
        end) acc c) g (λ acc', columns_inv n tb (dn ++ [c]) acc').
Proof.
  intros E [Hn Hk Ha Hs]. destruct acc as [inv kept], g as [s n']. cbn [fst snd] in *. subst n'.
  assert (c ∈ cols) as Hc by (rewrite <- E; apply elem_of_app; right; left). assert (c ∉ dn) as Hcd.
  { pose proof (proj1 lists_nodup) as Hnd. rewrite <- E in Hnd. apply NoDup_app in Hnd as (_ & Hdis & _). intros Hin. apply (Hdis c Hin). left. }
  pose proof (proj1 members_below c Hc) as Bc. destruct (below_apart _ Bc) as [Np Nt].
  assert (∀ x, x ∈ reverse (filter (λ c, ok_column V c = false) (dn ++ [c])) → x ∈ cols) as Hmv.
  { intros x [_ Hx]%elem_of_reverse%list_elem_of_filter. rewrite <- E. apply elem_of_app in Hx as [?| ->%list_elem_of_singleton]; apply elem_of_app; [by left|right; left]. }
  apply runs_bind. destruct (V !! c) as [b|] eqn:Ec.
  - pose proof (shape_at _ _ _ _ _ _ _ _ _ _ _ _ _ _ _ Hs Ec Np) as Hv. cbv beta iota delta [no_kids] in Hv. eapply runs_eq; [apply attempt_run, pickColumn_cases|]. rewrite Hv.
    assert (ok_column V c = is_column b) as Eok by (unfold ok_column; by rewrite Ec).
    assert (∀ q, V !! q = None → new_columns (dn ++ [c]) q = new_columns dn q) as Hnew.
    { intros q Hq. rewrite new_columns_snoc. rewrite decide_False; [done|]. intros ->. congruence. }
    destruct (is_column b) eqn:Ek.
    + apply runs_ret. split; cbn [fst snd]; [done|by rewrite filter_app, Hk, filter_cons_True|by intros ->%Ha|].
      rewrite filter_app, filter_cons_False, filter_nil, app_nil_r by congruence.
      eapply shape_ext; [exact Hs|apply fine_columns; intros x Hx; apply Hmv; by rewrite filter_app, filter_cons_False, filter_nil, app_nil_r by congruence|].
      intros x. by apply look_ext.
    + rewrite bool_decide_eq_false_2 by done. apply runs_bind. destruct HP as (Hp & Hbp & Hch & _).
      destruct (shape_move V root tid p bp bt l r Hwf Hp Hbp Hch (tb_block _ _ _ _ _ _ _ _ HT) s n _ _ _ _ [c] Hs) as (s' & E' & Hs' & _); [by intros x ->%list_elem_of_singleton|].
      eapply runs_eq; [exact E'|]. apply runs_ret. split; cbn [fst snd]; [done|by rewrite filter_app, Hk, filter_cons_False, filter_nil, app_nil_r by congruence|done|].
      assert (filter (λ c, ok_column V c = false) (dn ++ [c]) = filter (λ c, ok_column V c = false) dn ++ [c]) as Ef by (by rewrite filter_app, filter_cons_True).
      rewrite Ef, reverse_snoc in Hmv |- *. eapply shape_ext; [exact Hs'|by apply fine_columns|]. intros x. by apply look_ext.
  - pose proof (shape_missing _ _ _ _ _ _ _ _ ltac:(apply HP) _ _ _ _ _ _ Hs Ec) as Hv. unfold new_columns in Hv. rewrite decide_False in Hv by done.
    eapply runs_eq; [apply attempt_run, pickColumn_cases|]. rewrite Hv, bool_decide_eq_true_2 by done. apply runs_bind.
    destruct (Add_edit s (makeColumn c) Hv) as (s' & E' & He). eapply runs_eq; [unfold act; cbn [fst snd]; by rewrite E'|]. apply runs_ret.
    assert (ok_column V c = true) as Eok by (unfold ok_column; by rewrite Ec).
    split; cbn [fst snd]; [done|by rewrite filter_app, Hk, filter_cons_True|done|].
    assert (filter (λ c, ok_column V c = false) (dn ++ [c]) = filter (λ c, ok_column V c = false) dn) as Ef by (by rewrite filter_app, filter_cons_False, filter_nil, app_nil_r by congruence).
    rewrite Ef in Hmv |- *. eapply (shape_edit V root tid p bp bt l r); [exact Hs|exact He|done|by apply fine_columns|]. intros x.
    rewrite (look_ext _ _ _ no_kids (λ q, if decide (q = c) then Some (makeColumn c) else new_columns dn q)); [by apply look_new|done|]. intros q _. apply new_columns_snoc.
Qed.

Abbreviation bad_cols := (filter (λ c, ok_column V c = false) cols).
(** The documents after [normalizeColumns] and during [normalizeRows]. *)
Definition column_kids : string → option (list string) := upd no_kids (b_Id bc) cols'.

Lemma columns_kept x : x ∈ cols' → x ∈ b_ChildrenIds bc.
Proof. destruct (tb_columns _ _ _ _ _ _ _ _ HT) as (_ & _ & ->). by intros [_ Hx]%list_elem_of_filter. Qed.
Lemma fine_column_kids mv : (∀ x, x ∈ mv → x ∈ cols) → fi mv column_kids (new_columns cols).
Proof. intros Hmv. eapply fine_upd; [by apply fine_columns|apply parts_below|apply HT|apply columns_kept]. Qed.

Lemma normalizeColumns_run s n tb : sh s tb [] no_kids (λ _, None) →
  runs (normalizeColumns tb) (s, n) (λ _ g, g.2 = n ∧ sh g.1 tb (reverse bad_cols) column_kids (new_columns cols)).
Proof.
  intros Hs. pose proof (shape_parts _ _ _ _ _ Hs) as HT0. pose proof (proj1 (sh_tb _ _ _ _ _ _ _ _ _ _ _ _ _ Hs)) as Htb.
  destruct (tb_columns _ _ _ _ _ _ _ _ HT) as (Lc & Kc & Ec). unfold normalizeColumns. apply runs_bind.
  eapply runs_eq; [exact (ColumnIDs_run s n _ _ _ _ _ _ _ HT0 tb Htb)|]. replace (b_ChildrenIds (at_kids no_kids bc)) with cols by (by rewrite <- Ec).
  apply runs_bind. eapply runs_mono.
  { eapply (runs_fold_each _ (columns_inv n tb) cols [] (false, []) (s, n)); [|done|].
    - intros dn c todo acc g E HI. exact (column_step n tb dn c todo acc g E HI).
    - split; [done|done|done|]. eapply shape_ext; [exact Hs|by apply fine_columns; intros x ?%elem_of_nil|]. intros x. apply look_ext; [done|].
      intros q _. unfold new_columns. by rewrite decide_False by apply not_elem_of_nil. }
  intros [inv kept] [s' n'] [Hn Hk Ha Hs']. cbn [fst snd] in *. subst n' kept.
  assert (∀ x, x ∈ reverse bad_cols → x ∈ cols) as Hmv by (by intros x [_ Hx]%elem_of_reverse%list_elem_of_filter). destruct inv.
  - pose proof (shape_parts _ _ _ _ _ Hs') as HT'. pose proof (proj1 (sh_tb _ _ _ _ _ _ _ _ _ _ _ _ _ Hs')) as Htb'.
    destruct (ColumnsPtr_run s' n _ _ _ _ _ _ _ HT' tb Htb') as (q & Eq & Hq & _). apply runs_bind. eapply runs_eq; [exact Eq|].
    eexists _, _. split; [reflexivity|]. split; [done|]. cbn [fst snd]. rewrite at_kids_id in Hq. apply (shape_write _ _ _ _ _ bc); [done|by left|done|apply columns_kept].
  - apply runs_ret. split; [done|]. cbn [fst]. specialize (Ha eq_refl). eapply shape_ext; [exact Hs'|by apply fine_column_kids|].
    intros x. unfold column_kids. rewrite (look_upd _ _ _ _ bc); [|done|by apply below_apart, parts_below]. destruct (decide (x = b_Id bc)) as [->|]; [|done].
    unfold look. rewrite decide_False, Lc by (by apply below_apart, parts_below). cbn [no_kids]. f_equal. fold cols' in Ha. rewrite Ha, <- Ec. apply with_same_children.
Qed.

(** ** Rows *)

Lemma cells_perm b : cells_of V cols b ≡ₚ filter (λ id, numbered (index_of cols') id ≠ None) (b_ChildrenIds b).
Proof. unfold cells_of. by rewrite row_sort_perm, omap_numbered. Qed.
Lemma cells_in b x : x ∈ cells_of V cols b → x ∈ b_ChildrenIds b.
Proof. rewrite cells_perm. by intros [_ Hx]%list_elem_of_filter. Qed.
Lemma strays_in b x : x ∈ strays V cols b → x ∈ b_ChildrenIds b.
Proof. by intros [_ Hx]%list_elem_of_filter. Qed.
(** Nothing to move, nothing swapped: the row is as it was. *)
Lemma cells_still b : (row_sort (omap (numbered (index_of cols')) (b_ChildrenIds b))).2 = false → strays V cols b = [] → cells_of V cols b = b_ChildrenIds b.
Proof.
  intros Hst Hno. unfold cells_of. rewrite (row_sort_still _ Hst), omap_numbered. unfold strays in Hno.
  assert (∀ x, x ∈ b_ChildrenIds b → numbered (index_of cols') x ≠ None) as Hall.
  { intros x Hx Hnone. assert (x ∈ filter (λ id, numbered (index_of cols') id = None) (b_ChildrenIds b)) as Hin by (by apply list_elem_of_filter).
    rewrite Hno in Hin. by apply elem_of_nil in Hin. }
  clear Hno Hst. induction (b_ChildrenIds b) as [|x ids IH]; [done|]. rewrite filter_cons_True by (apply Hall; left). f_equal. apply IH. intros y Hy. apply Hall. by right.
Qed.

Lemma normalizeRow_run s n tb q b mv kids new : sh s tb mv kids new → strict V tid q → V !! q = Some b → kids q = None → st_blocks s !! q = Some b →
  ∃ s', normalizeRow tb (Some (index_of cols')) q (s, n) = Some (Ok (), (s', n)) ∧ sh s' tb (strays V cols b ++ mv) (upd kids q (cells_of V cols b)) new.
Proof.
  intros Hs Bq Hb Hk Ht. destruct (below_apart _ Bq) as [Np Nt]. destruct HP as (Hp & Hbp & Hch & _).
  assert (∀ x, x ∈ strays V cols b → strict V tid x) as Hst by (intros x Hx%strays_in; by eapply kids_below).
  assert (fi (strays V cols b ++ mv) kids new) as Hf.
  { destruct (sh_fine _ _ _ _ _ _ _ _ _ _ _ _ _ Hs) as [F1 F2 F3]. split; [|done|done]. intros x [Hx|Hx]%elem_of_app; auto. }
  unfold normalizeRow, mbind at 1, M_bind at 1. rewrite (read_run s n (top q) b Ht). unfold mbind at 1, M_bind at 1. cbn [mret M_ret].
  rewrite sort_cells_spec. destruct (row_sort (omap (numbered (index_of cols')) (b_ChildrenIds b))) as [sorted swapped] eqn:Es.
  assert (sorted.*2 = cells_of V cols b) as -> by (unfold cells_of; by rewrite Es). fold (strays V cols b).
  destruct (swapped || negb (bool_decide (strays V cols b = []))) eqn:Et.
  - destruct (shape_move V root tid p bp bt l r Hwf Hp Hbp Hch (tb_block _ _ _ _ _ _ _ _ HT) s n _ _ _ _ _ Hs Hst) as (s1 & E1 & Hs1 & Hkeep).
    unfold mbind, M_bind. rewrite E1. eexists. split; [reflexivity|].
    eapply (shape_edit V root tid p bp bt l r); [exact Hs1|apply (write_top s1 q b (λ x, with_children x (cells_of V cols b))); by apply Hkeep|done|by eapply fine_upd, cells_in|].
    intros x. by apply look_upd.
  - apply orb_false_iff in Et as [-> Hno%negb_false_iff%bool_decide_eq_true]. exists s. split; [done|].
    assert (cells_of V cols b = b_ChildrenIds b) as Hcells by (apply cells_still; [by rewrite Es|done]). rewrite Hno in Hf |- *.
    eapply shape_ext; [exact Hs|by eapply fine_upd, cells_in|]. intros x. rewrite (look_upd _ _ _ _ b) by done. destruct (decide (x = q)) as [->|]; [|done].
    unfold look. by rewrite decide_False, Hb, Hk, Hcells, with_same_children.
Qed.

Definition row_kids (dn : list string) (q : string) : option (list string) :=
  if decide (q ∈ dn) then cells_of V cols <$> row_blocks V q else column_kids q.
Definition new_rows (dn : list string) (q : string) : option Block :=
  if decide (q ∈ cols) then Some (makeColumn q) else if decide (q ∈ dn) then Some (makeRow q) else None.
Definition moved_rows (dn : list string) : list string := foldl (λ mv q, gone V cols q ++ mv) (reverse bad_cols) dn.

Lemma gone_below q x : q ∈ rows → x ∈ gone V cols q → strict V tid x.
Proof.
  intros Hq%(proj2 members_below). unfold gone. destruct (V !! q) as [b|] eqn:Eb; [|by intros ?%elem_of_nil]. case_bool_decide.
  - intros Hx%strays_in. by eapply kids_below.
  - by intros ->%list_elem_of_singleton.
Qed.
Lemma fine_rows dn : (∀ q, q ∈ dn → q ∈ rows) → fi (moved_rows dn) (row_kids dn) (new_rows dn).
Proof.
  intros Hdn. split.
  - intros x. unfold moved_rows. rewrite foldl_gone. intros [[_ Hx]%elem_of_reverse%list_elem_of_filter|Hx]%elem_of_app; [by apply (proj1 members_below)|].
    apply list_elem_of_In, in_flat_map in Hx as (q & Hq%list_elem_of_In & Hx%list_elem_of_In). by apply (gone_below q); auto.
  - intros q ids. unfold row_kids. destruct (decide (q ∈ dn)) as [Hq|Hq].
    + unfold row_blocks. destruct (V !! q) as [b|] eqn:Eb; [|done]. cbn [mbind option_bind]. case_bool_decide; [|done]. intros [= <-].
      split; [by apply (proj2 members_below), Hdn|]. exists b. split; [done|]. apply cells_in.
    + apply (fi_kids _ _ _ _ _ (fine_column_kids [] ltac:(by intros x ?%elem_of_nil))).
  - intros q b. unfold new_rows. destruct (decide (q ∈ cols)); [by intros [= <-]|]. destruct (decide _); [|done]. by intros [= <-].
Qed.

Record rows_inv (n : nat) (tb : ptr) (dn : list string) (acc : bool * list string) (g : genstate) : Prop := {
  ri_n : g.2 = n;
  ri_kept : acc.2 = filter (λ q, ok_row V q = true) dn;
  ri_all : acc.1 = false → acc.2 = dn;
  ri_shape : sh g.1 tb (moved_rows dn) (row_kids dn) (new_rows dn);
}.
Lemma getRow_found s n q b : view s !! q = Some b →
  ∃ s', getRow q (s, n) = Some (match as_row b with Some _ => Ok b | None => Err errNotARow end, (s', n)) ∧ same_view s s' ∧ st_blocks s' !! q = Some b.
Proof.
  intros Hb. destruct (Get_some s q b Hb) as (s' & E & S & T). exists s'. split; [|done]. unfold getRow, mbind, M_bind, act. cbn [fst snd]. rewrite E. by destruct (as_row b).
Qed.
Lemma getRow_missing s n q : view s !! q = None → getRow q (s, n) = Some (Err errRowNotFound, (s, n)).
Proof.
  intros Hb. assert (Get s q = (None, s)) as E.
  { pose proof Hb as Hp. rewrite <- Pick_view in Hp. unfold Get. unfold Pick in Hp |- *. cbn [pick_layers] in *. destruct (st_blocks s !! q); [done|]. rewrite Hp. by destruct (st_parents s). }
  unfold getRow, mbind, M_bind, act. cbn [fst snd]. by rewrite E.
Qed.
Lemma moved_rows_snoc dn q : moved_rows (dn ++ [q]) = gone V cols q ++ moved_rows dn.
Proof. unfold moved_rows. by rewrite foldl_app. Qed.
Lemma row_kids_snoc dn q x : row_kids (dn ++ [q]) x = if decide (x = q) then cells_of V cols <$> row_blocks V q else row_kids dn x.
Proof.
  unfold row_kids. destruct (decide (x = q)) as [->|Hne]; [by rewrite decide_True by (apply elem_of_app; right; left)|].
  destruct (decide (x ∈ dn)); [by rewrite decide_True by (apply elem_of_app; by left)|rewrite decide_False; [done|]]. by intros [?| ->%list_elem_of_singleton]%elem_of_app.
Qed.
Lemma new_rows_snoc dn q x : q ∉ cols → new_rows (dn ++ [q]) x = if decide (x = q) then Some (makeRow q) else new_rows dn x.
Proof.
  intros Hq. unfold new_rows. destruct (decide (x = q)) as [->|Hne]; [by rewrite decide_False, decide_True by (done || apply elem_of_app; right; left)|].
  destruct (decide (x ∈ cols)); [done|]. destruct (decide (x ∈ dn)); [by rewrite decide_True by (apply elem_of_app; by left)|rewrite decide_False; [done|]].
  by intros [?| ->%list_elem_of_singleton]%elem_of_app.
Qed.

Section row_step.
Context (n : nat) (tb : ptr) (dn todo : list string) (q : string) (inv : bool) (kept : list string) (s : State).
Context (E : dn ++ q :: todo = rows) (HI : rows_inv n tb dn (inv, kept) (s, n)).

(** One turn of the loop of [normalizeRows]. *)
Definition row_body : M (bool * list string) :=
  c ← attempt (getRow q);
  match c with
  | Ok _ => _ ← normalizeRow tb (Some (index_of cols')) q; mret (inv, kept ++ [q])
  | Err e =>
      if bool_decide (e = errRowNotFound) then
        ok ← act (λ s, Add s (makeRow q)); mret (true, if (ok : bool) then kept ++ [q] else kept)
      else _ ← MoveBlocksUnderTheTable tb [q]; mret (true, kept)
  end.
Lemma row_facts : q ∈ rows ∧ q ∉ dn ∧ q ∉ cols ∧ strict V tid q ∧ q ≠ p ∧ q ≠ tid ∧ q ≠ b_Id bc ∧ (∀ x, x ∈ dn ++ [q] → x ∈ rows).
Proof.
  assert (q ∈ rows) as Hq by (rewrite <- E; apply elem_of_app; right; left). pose proof (proj2 members_below q Hq) as Bq. destruct (below_apart _ Bq) as [Np Nt].
  destruct member_apart as [Hd Ha]. split_and!; try done; [|by intros Hc%Hd|by apply Ha; right|].
  - pose proof (proj2 lists_nodup) as Hnd. rewrite <- E in Hnd. apply NoDup_app in Hnd as (_ & Hdis & _). intros Hin. apply (Hdis q Hin). left.
  - intros x Hx. rewrite <- E. apply elem_of_app in Hx as [?| ->%list_elem_of_singleton]; apply elem_of_app; [by left|right; left].
Qed.
Lemma row_view b : V !! q = Some b → view s !! q = Some b ∧ row_kids dn q = None.
Proof.
  destruct row_facts as (Hq & Hqd & Hqc & Bq & Np & Nt & Nc & _). intros Hb. assert (row_kids dn q = None) as Ek.
  { unfold row_kids, column_kids, upd. by rewrite !decide_False. }
  split; [|done]. pose proof (ri_shape _ _ _ _ _ HI) as Hs. cbn [fst] in Hs. rewrite (shape_at _ _ _ _ _ _ _ _ _ _ _ _ _ _ _ Hs Hb Np). by rewrite Ek.
Qed.
(** The documents before and after differ in the children of the row only. *)
Lemma row_look mv b ids x : V !! q = Some b → (cells_of V cols <$> row_blocks V q = ids) →
  look V tid p bp l r mv (row_kids (dn ++ [q])) (new_rows (dn ++ [q])) x =
  look V tid p bp l r mv (match ids with Some i => upd (row_kids dn) q i | None => row_kids dn end) (new_rows dn) x.
Proof.
  destruct row_facts as (_ & _ & Hqc & _). intros Hb Hids. apply look_ext.
  - intros y. rewrite row_kids_snoc, Hids. destruct ids as [i|]; [by unfold upd; destruct (decide (y = q))|].
    destruct (decide (y = q)) as [->|]; [|done]. by rewrite (proj2 (row_view b Hb)).
  - intros y Hy. rewrite new_rows_snoc by done. rewrite decide_False; [done|]. intros ->. congruence.
Qed.

Lemma row_step_row b : V !! q = Some b → is_Some (as_row b) → runs row_body (s, n) (rows_inv n tb (dn ++ [q])).
Proof.
  unfold row_body.
  intros Hb [h Hh]. destruct row_facts as (Hq & Hqd & Hqc & Bq & Np & Nt & Nc & Hdn). destruct HI as [Hn Hk Ha Hs]. cbn [fst snd] in *.
  destruct (row_view b Hb) as [Hv Ek]. destruct (getRow_found s n q b Hv) as (s1 & E1 & S1 & T1). rewrite Hh in E1.
  apply runs_bind. eapply runs_eq; [by apply attempt_run|]. pose proof (shape_same _ _ _ _ _ _ _ _ _ _ _ _ _ _ Hs S1) as Hs1.
  destruct (normalizeRow_run s1 n tb q b _ _ _ Hs1 Bq Hb Ek T1) as (s2 & E2 & Hs2). apply runs_bind. eapply runs_eq; [exact E2|]. apply runs_ret.
  assert (ok_row V q = true) as Eok by (unfold ok_row; rewrite Hb; apply bool_decide_eq_true; by exists h).
  assert (row_blocks V q = Some b) as Erow by (unfold row_blocks; rewrite Hb; cbn [mbind option_bind]; rewrite bool_decide_eq_true_2 by (by exists h); done).
  split; cbn [fst snd]; [done|by rewrite filter_app, Hk, filter_cons_True|by intros ->%Ha|]. rewrite moved_rows_snoc.
  assert (gone V cols q = strays V cols b) as Eg by (unfold gone; rewrite Hb, bool_decide_eq_true_2 by (by exists h); done).
  eapply shape_ext; [exact Hs2|rewrite <- moved_rows_snoc; by apply fine_rows|]. rewrite Eg. intros x. rewrite (row_look _ b (Some (cells_of V cols b))); [done|done|by rewrite Erow].
Qed.
Lemma row_step_other b : V !! q = Some b → as_row b = None → runs row_body (s, n) (rows_inv n tb (dn ++ [q])).
Proof.
  unfold row_body.
  intros Hb Hh. destruct row_facts as (Hq & Hqd & Hqc & Bq & Np & Nt & Nc & Hdn). destruct HI as [Hn Hk Ha Hs]. cbn [fst snd] in *.
  destruct (row_view b Hb) as [Hv Ek]. destruct (getRow_found s n q b Hv) as (s1 & E1 & S1 & T1). rewrite Hh in E1.
  apply runs_bind. eapply runs_eq; [by apply attempt_run|]. pose proof (shape_same _ _ _ _ _ _ _ _ _ _ _ _ _ _ Hs S1) as Hs1.
  cbv beta iota. rewrite bool_decide_eq_false_2 by done. apply runs_bind. destruct HP as (Hp & Hbp & Hch & _).
  destruct (shape_move V root tid p bp bt l r Hwf Hp Hbp Hch (tb_block _ _ _ _ _ _ _ _ HT) s1 n _ _ _ _ [q] Hs1) as (s2 & E2 & Hs2 & _); [by intros x ->%list_elem_of_singleton|].
  eapply runs_eq; [exact E2|]. apply runs_ret.
  assert (ok_row V q = false) as Eok by (unfold ok_row; rewrite Hb, Hh; done).
  assert (row_blocks V q = None) as Erow by (unfold row_blocks; rewrite Hb; cbn [mbind option_bind]; by rewrite Hh).
  split; cbn [fst snd]; [done|by rewrite filter_app, Hk, filter_cons_False, filter_nil, app_nil_r by congruence|done|]. rewrite moved_rows_snoc.
  assert (gone V cols q = [q]) as Eg by (unfold gone; rewrite Hb, Hh; done).
  eapply shape_ext; [exact Hs2|rewrite <- moved_rows_snoc; by apply fine_rows|]. rewrite Eg. intros x. rewrite (row_look _ b None); [done|done|by rewrite Erow].
Qed.
Lemma row_step_new : V !! q = None → runs row_body (s, n) (rows_inv n tb (dn ++ [q])).
Proof.
  unfold row_body.
  intros Hb. destruct row_facts as (Hq & Hqd & Hqc & Bq & Np & Nt & Nc & Hdn). destruct HI as [Hn Hk Ha Hs]. cbn [fst snd] in *.
  pose proof (shape_missing _ _ _ _ _ _ _ _ ltac:(apply HP) _ _ _ _ _ _ Hs Hb) as Hv. unfold new_rows in Hv. rewrite !decide_False in Hv by done.
  apply runs_bind. eapply runs_eq; [apply attempt_run; by apply getRow_missing|]. cbv beta iota. rewrite bool_decide_eq_true_2 by done. apply runs_bind.
  destruct (Add_edit s (makeRow q) Hv) as (s' & E' & He). eapply runs_eq; [unfold act; cbn [fst snd]; by rewrite E'|]. apply runs_ret.
  assert (ok_row V q = true) as Eok by (unfold ok_row; by rewrite Hb). assert (row_blocks V q = None) as Erow by (unfold row_blocks; by rewrite Hb).
  split; cbn [fst snd]; [done|by rewrite filter_app, Hk, filter_cons_True|done|]. rewrite moved_rows_snoc. assert (gone V cols q = []) as Eg by (unfold gone; by rewrite Hb).
  eapply (shape_edit V root tid p bp bt l r); [exact Hs|exact He|done|rewrite <- moved_rows_snoc; by apply fine_rows|]. rewrite Eg. intros x.
  rewrite (look_ext _ _ _ (row_kids dn) (λ y, if decide (y = q) then Some (makeRow q) else new_rows dn y)); [by apply look_new| |].
  - intros y. rewrite row_kids_snoc, Erow. destruct (decide (y = q)) as [->|]; [|done]. unfold row_kids, column_kids, upd. by rewrite !decide_False.
  - intros y _. by apply new_rows_snoc.
Qed.
End row_step.

Abbreviation rows1 := (proper_rows V rows).

Lemma row_loop n tb s : sh s tb (reverse bad_cols) column_kids (new_columns cols) →
  runs (fold_each (λ '(inv, kept) q, row_body tb q inv kept) (false, []) rows) (s, n) (λ acc g, rows_inv n tb rows acc g).
Proof.
  intros Hs. eapply (runs_fold_each _ (rows_inv n tb) rows [] (false, []) (s, n)); [|done|].
  - intros dn q todo [inv kept] [s' n'] E HI. pose proof (ri_n _ _ _ _ _ HI) as Hn. cbn [snd] in Hn. subst n'. destruct (V !! q) as [b|] eqn:Eb.
    + destruct (as_row b) as [h|] eqn:Eh; [by eapply row_step_row|by eapply row_step_other].
    + by eapply row_step_new.
  - split; [done|done|done|]. eapply shape_ext; [exact Hs|by apply fine_rows; intros x ?%elem_of_nil|]. intros x. apply look_ext.
    + intros q. unfold row_kids. by rewrite decide_False by apply not_elem_of_nil.
    + intros q _. unfold new_rows, new_columns. destruct (decide (q ∈ cols)); [done|]. by rewrite decide_False by apply not_elem_of_nil.
Qed.
Lemma rows_kept x : x ∈ rows1 → x ∈ b_ChildrenIds br.
Proof. destruct (tb_rows _ _ _ _ _ _ _ _ HT) as (_ & _ & ->). by intros [_ Hx]%list_elem_of_filter. Qed.
Lemma fine_all ids : (∀ x, x ∈ ids → x ∈ rows) → fi (moved V cols rows) (upd (row_kids rows) (b_Id br) ids) (new_rows rows).
Proof.
  intros Hids. eapply fine_upd; [by apply fine_rows|apply parts_below|apply HT|]. destruct (tb_rows _ _ _ _ _ _ _ _ HT) as (_ & _ & ->). done.
Qed.
Lemma no_row_kids : row_kids rows (b_Id br) = None.
Proof.
  unfold row_kids, column_kids, upd. rewrite !decide_False; [done|by intros E; apply parts_apart|]. intros Hin. by destruct (proj2 member_apart _ (or_intror Hin)).
Qed.

Lemma normalizeRows_run s n tb : sh s tb (reverse bad_cols) column_kids (new_columns cols) →
  runs (normalizeRows tb) (s, n) (λ _ g, g.2 = n ∧ sh g.1 tb (moved V cols rows) (upd (row_kids rows) (b_Id br) rows1) (new_rows rows)).
Proof.
  intros Hs. pose proof (shape_parts _ _ _ _ _ Hs) as HT0. pose proof (proj1 (sh_tb _ _ _ _ _ _ _ _ _ _ _ _ _ Hs)) as Htb.
  destruct (tb_rows _ _ _ _ _ _ _ _ HT) as (Lr & Kr & Er).
  assert (b_ChildrenIds (at_kids column_kids bc) = cols') as Ecols by (unfold at_kids, column_kids, upd; by rewrite decide_True).
  assert (b_ChildrenIds (at_kids column_kids br) = rows) as Erows.
  { unfold at_kids, column_kids, upd. rewrite decide_False; [done|]. intros E. by apply parts_apart. }
  unfold normalizeRows. apply runs_bind. eapply runs_eq; [exact (MakeColumnIndex_run s n _ _ _ _ _ _ _ HT0 tb Htb)|]. rewrite Ecols.
  apply runs_bind. eapply runs_eq; [exact (RowIDs_run s n _ _ _ _ _ _ _ HT0 tb Htb)|]. rewrite Erows.
  apply runs_bind. eapply runs_mono; [exact (row_loop n tb s Hs)|]. intros [inv kept] [s' n'] [Hn Hk Ha Hs']. cbn [fst snd] in *. subst n' kept. destruct inv.
  - pose proof (shape_parts _ _ _ _ _ Hs') as HT'. pose proof (proj1 (sh_tb _ _ _ _ _ _ _ _ _ _ _ _ _ Hs')) as Htb'.
    destruct (RowsPtr_run s' n _ _ _ _ _ _ _ HT' tb Htb') as (q & Eq & Hq & _). apply runs_bind. eapply runs_eq; [exact Eq|].
    eexists _, _. split; [reflexivity|]. split; [done|]. cbn [fst snd]. rewrite at_kids_id in Hq. apply (shape_write _ _ _ _ _ br); [done|by right|done|apply rows_kept].
  - apply runs_ret. split; [done|]. cbn [fst]. specialize (Ha eq_refl). eapply shape_ext; [exact Hs'|apply fine_all; by intros x [_ Hx]%list_elem_of_filter|].
    intros x. rewrite (look_upd _ _ _ _ br); [|done|by apply below_apart, parts_below]. destruct (decide (x = b_Id br)) as [->|]; [|done].
    unfold look. rewrite decide_False, Lr, no_row_kids by (by apply below_apart, parts_below). f_equal. fold rows1 in Ha. rewrite Ha, <- Er. apply with_same_children.
Qed.

(** ** Header rows *)

Abbreviation all_kids := (upd (row_kids rows) (b_Id br) (rows_of V rows)).

Lemma row_at s tb ids q : sh s tb (moved V cols rows) (upd (row_kids rows) (b_Id br) ids) (new_rows rows) → q ∈ rows1 →
  ∃ b, view s !! q = Some b ∧ is_Some (as_row b) ∧ is_header b = header_row V q ∧
    b_ChildrenIds b = match V !! q with Some b0 => cells_of V cols b0 | None => [] end.
Proof.
  intros Hs [Hok Hq]%list_elem_of_filter. destruct (below_apart _ (proj2 members_below q Hq)) as [Np Nt]. destruct (proj2 member_apart q (or_intror Hq)) as [Nc Nr].
  unfold ok_row in Hok. destruct (V !! q) as [b|] eqn:Eb.
  - apply bool_decide_eq_true in Hok. eexists. split; [by eapply shape_at|]. unfold upd. rewrite decide_False by done. unfold row_kids.
    rewrite decide_True by done. unfold row_blocks. rewrite Eb. cbn [mbind option_bind]. rewrite bool_decide_eq_true_2 by done. cbn [fmap option_fmap option_map].
    split_and!; [exact Hok| |done]. unfold header_row. by rewrite Eb.
  - pose proof (shape_missing _ _ _ _ _ _ _ _ ltac:(apply HP) _ _ _ _ _ _ Hs Eb) as Hv. unfold new_rows in Hv.
    rewrite decide_False, decide_True in Hv by (done || by intros Hc%(proj1 member_apart)). exists (makeRow q). split_and!; [done|by eexists| |done].
    unfold header_row. by rewrite Eb.
Qed.
Lemma pickRow_run s n q b : view s !! q = Some b → is_Some (as_row b) → pickRow q (s, n) = Some (Ok b, (s, n)).
Proof. intros Hb [h Hh]. unfold pickRow, mbind, M_bind, gets. cbn [fst]. by rewrite Pick_view, Hb, Hh. Qed.
Lemma header_loop s n (f : string → bool) ids : (∀ q, q ∈ ids → ∃ b, view s !! q = Some b ∧ is_Some (as_row b) ∧ is_header b = f q) →
  runs (fold_each (λ '(headers, regular) rowID,
         row ← pickRow rowID;
         mret (if is_header row then (headers ++ [rowID], regular) else (headers, regular ++ [rowID]))) ([], []) ids) (s, n)
    (λ hr g, g = (s, n) ∧ hr = (filter (λ q, f q = true) ids, filter (λ q, f q = false) ids)).
Proof.
  intros Hids. eapply (runs_fold_each _ (λ dn hr g, g = (s, n) ∧ hr = (filter (λ q, f q = true) dn, filter (λ q, f q = false) dn)) ids []); [|done|done].
  intros dn q todo [h g0] g E [-> [= -> ->]]. destruct (Hids q) as (b & Hb & Hr & Hh); [rewrite <- E; apply elem_of_app; right; left|].
  apply runs_bind. eapply runs_eq; [by apply pickRow_run|]. apply runs_ret. split; [done|]. rewrite Hh, !filter_app. destruct (f q) eqn:Ef.
  - by rewrite filter_cons_True, filter_cons_False, !filter_nil, app_nil_r by congruence.
  - by rewrite filter_cons_False, filter_cons_True, !filter_nil, app_nil_r by congruence.
Qed.
Lemma rows_of_perm : rows_of V rows ≡ₚ rows1.
Proof. unfold rows_of. apply filter_split. intros x _. by destruct (header_row V x). Qed.
Lemma normalizeHeaderRows_run s n tb : sh s tb (moved V cols rows) (upd (row_kids rows) (b_Id br) rows1) (new_rows rows) →
  runs (normalizeHeaderRows tb) (s, n) (λ _ g, g.2 = n ∧ sh g.1 tb (moved V cols rows) all_kids (new_rows rows)).
Proof.
  intros Hs. pose proof (shape_parts _ _ _ _ _ Hs) as HT0. pose proof (proj1 (sh_tb _ _ _ _ _ _ _ _ _ _ _ _ _ Hs)) as Htb.
  destruct (tb_rows _ _ _ _ _ _ _ _ HT) as (Lr & Kr & Er). destruct (below_apart _ (proj2 parts_below)) as [Np Nt].
  destruct (RowsPtr_run s n _ _ _ _ _ _ _ HT0 tb Htb) as (q & Eq & _ & Hid & _). rewrite at_kids_id in Hid.
  pose proof (shape_at _ _ _ _ _ _ _ _ _ _ _ _ _ _ _ Hs Lr Np) as Hv. unfold upd in Hv. rewrite decide_True in Hv by done.
  destruct (Get_some s _ _ Hv) as (s1 & E1 & S1 & T1). pose proof (shape_same _ _ _ _ _ _ _ _ _ _ _ _ _ _ Hs S1) as Hs1.
  unfold normalizeHeaderRows. apply runs_bind. eapply runs_eq; [exact Eq|]. apply runs_bind. eapply runs_eq; [unfold act; cbn [fst snd]; by rewrite Hid, E1|].
  apply runs_bind. eapply runs_eq; [reflexivity|]. change (b_ChildrenIds (with_children br rows1)) with rows1. apply runs_bind.
  eapply runs_mono; [apply (header_loop s1 n (header_row V))|].
  { intros x Hx. destruct (row_at s1 tb rows1 x Hs1 Hx) as (b & Hb & Hr & Hh & _). by exists b. }
  intros hr g [-> ->]. eexists _, _. split; [reflexivity|]. split; [done|]. cbn [fst snd]. change (b_Id (with_children br rows1)) with (b_Id br).
  eapply (shape_edit V root tid p bp bt l r); [exact Hs1|by apply (write_top s1 (b_Id br) (with_children br rows1) (λ x, with_children x (rows_of V rows)))|done| |].
  - apply fine_all. intros x. rewrite rows_of_perm. by intros [_ Hx]%list_elem_of_filter.
  - intros x. rewrite !(look_upd _ _ _ _ br) by done. by destruct (decide _).
Qed.

(** ** Nothing is lost or listed twice *)

Lemma moved_perm : moved V cols rows ≡ₚ reverse bad_cols ++ flat_map (gone V cols) rows.
Proof. apply foldl_gone. Qed.
Lemma gone_owner q x : q ∈ rows → x ∈ gone V cols q →
  ∃ o b ids, V !! o = Some b ∧ x ∈ b_ChildrenIds b ∧ strict V tid o ∧ all_kids o = Some ids ∧ x ∉ ids ∧ (o = q ∨ o = b_Id br ∧ x = q).
Proof.
  intros Hq Hx. pose proof (proj2 members_below q Hq) as Bq. destruct (proj2 member_apart q (or_intror Hq)) as [Nc Nr].
  destruct (tb_rows _ _ _ _ _ _ _ _ HT) as (Lr & Kr & Er). unfold gone in Hx. destruct (V !! q) as [b|] eqn:Eb; [|by apply elem_of_nil in Hx].
  destruct (bool_decide (is_Some (as_row b))) eqn:Ek.
  - exists q, b, (cells_of V cols b). split_and!; [done|by apply strays_in|done| | |by left].
    + unfold upd, row_kids, row_blocks. rewrite decide_False, decide_True, Eb by done. cbn [mbind option_bind]. by rewrite Ek.
    + rewrite cells_perm. intros [H1 _]%list_elem_of_filter. by apply list_elem_of_filter in Hx as [H2 _].
  - apply list_elem_of_singleton in Hx as ->. exists (b_Id br), br, (rows_of V rows). split_and!; [done|by rewrite Er|apply parts_below| | |by right].
    + unfold upd. by rewrite decide_True.
    + rewrite rows_of_perm. intros [Hok _]%list_elem_of_filter. unfold ok_row in Hok. rewrite Eb in Hok. congruence.
Qed.
Lemma bad_owner x : x ∈ bad_cols → V !! b_Id bc = Some bc ∧ x ∈ b_ChildrenIds bc ∧ all_kids (b_Id bc) = Some cols' ∧ x ∉ cols'.
Proof.
  intros [Hb Hx]%list_elem_of_filter. destruct (tb_columns _ _ _ _ _ _ _ _ HT) as (Lc & Kc & Ec). split_and!; [done|by rewrite Ec| |].
  - unfold upd, row_kids, column_kids, upd. rewrite decide_False by apply parts_apart. rewrite decide_False, decide_True; [done|done|].
    intros Hin. by destruct (proj2 member_apart _ (or_intror Hin)).
  - intros [Hok _]%list_elem_of_filter. congruence.
Qed.
Lemma moved_owner x : x ∈ moved V cols rows → ∃ o b ids, V !! o = Some b ∧ x ∈ b_ChildrenIds b ∧ strict V tid o ∧ all_kids o = Some ids ∧ x ∉ ids.
Proof.
  rewrite moved_perm. intros [Hx|Hx]%elem_of_app.
  - rewrite elem_of_reverse in Hx. destruct (bad_owner x Hx) as (H1 & H2 & H3 & H4). exists (b_Id bc), bc, cols'. split_and!; [done..|apply parts_below|done|done].
  - apply list_elem_of_In, in_flat_map in Hx as (q & Hq%list_elem_of_In & Hx%list_elem_of_In). destruct (gone_owner q x Hq Hx) as (o & b & ids & ? & ? & ? & ? & ? & _). by exists o, b, ids.
Qed.
Lemma gone_nodup q : q ∈ rows → NoDup (gone V cols q).
Proof.
  intros Hq. pose proof (proj2 members_below q Hq) as Bq. unfold gone. destruct (V !! q) as [b|] eqn:Eb; [|constructor]. case_bool_decide; [|apply NoDup_singleton].
  apply NoDup_filter. apply (wf_nodup _ _ Hwf q); [by apply below_in|done].
Qed.
Lemma gone_apart q1 q2 x : q1 ∈ rows → q2 ∈ rows → x ∈ gone V cols q1 → x ∈ gone V cols q2 → q1 = q2.
Proof.
  intros H1 H2 G1 G2. destruct (gone_owner q1 x H1 G1) as (o1 & b1 & i1 & L1 & C1 & B1 & _ & _ & O1), (gone_owner q2 x H2 G2) as (o2 & b2 & i2 & L2 & C2 & B2 & _ & _ & O2).
  assert (o1 = o2) as -> by (by apply (one_parent o1 b1 o2 b2 x)). destruct (proj2 member_apart _ (or_intror H1)) as [_ N1], (proj2 member_apart _ (or_intror H2)) as [_ N2].
  destruct O1 as [->|[-> ->]], O2 as [E2|[E2 ->]]; congruence.
Qed.
Lemma moved_nodup : NoDup (moved V cols rows).
Proof.
  rewrite moved_perm. apply NoDup_app. destruct lists_nodup as [Nc Nr]. split_and!.
  - rewrite reverse_Permutation. by apply NoDup_filter.
  - intros x Hx Hin. rewrite elem_of_reverse in Hx. destruct (bad_owner x Hx) as (Lc & Cc & _). apply list_elem_of_In, in_flat_map in Hin as (q & Hq%list_elem_of_In & Hin%list_elem_of_In).
    destruct (gone_owner q x Hq Hin) as (o & b & i & L & C & B & _ & _ & O). assert (b_Id bc = o) as Eo by (apply (one_parent _ bc o b x); try done; apply parts_below).
    destruct (proj2 member_apart q (or_intror Hq)) as [N1 N2]. destruct O as [->|[-> _]]; [done|by apply parts_apart].
  - apply NoDup_flat_map; [done|apply gone_nodup|]. intros q1 q2 x. apply gone_apart.
Qed.

Lemma all_settled : settled V root tid p (moved V cols rows) all_kids.
Proof.
  destruct lists_nodup as [Nc Nr]. destruct (tb_columns _ _ _ _ _ _ _ _ HT) as (Lc & Kc & Ec), (tb_rows _ _ _ _ _ _ _ _ HT) as (Lr & Kr & Er).
  assert (∀ q ids, all_kids q = Some ids → (q = b_Id br ∧ ids = rows_of V rows) ∨ (q = b_Id bc ∧ ids = cols') ∨
    ∃ b, q ∈ rows ∧ V !! q = Some b ∧ bool_decide (is_Some (as_row b)) = true ∧ ids = cells_of V cols b) as Hk.
  { intros q ids. unfold upd, row_kids, column_kids, upd, no_kids. destruct (decide (q = b_Id br)); [intros [= <-]; by left|]. destruct (decide (q ∈ rows)).
    - unfold row_blocks. destruct (V !! q) as [b|] eqn:Eb; [|done]. cbn [mbind option_bind]. destruct (bool_decide _) eqn:Ek; [|done]. intros [= <-]. right. right. by exists b.
    - destruct (decide (q = b_Id bc)); [|done]. intros [= <-]. right. by left. }
  split.
  - apply moved_nodup.
  - intros q ids [(_ & ->)|[(_ & ->)|(b & Hq & Hb & _ & ->)]]%Hk; [rewrite rows_of_perm; by apply NoDup_filter|by apply NoDup_filter|].
    rewrite cells_perm. apply NoDup_filter, (wf_nodup _ _ Hwf q); [by apply below_in, (proj2 members_below)|done].
  - intros x Hx. destruct (moved_owner x Hx) as (o & b & ids & Lo & Co & Bo & Ko & No). exists o, b, ids. split_and!; try done.
    + eapply reach_trans; [apply table_in|by apply strict_reach].
    + by eapply kids_below.
    + by apply below_apart.
  - intros q b ids x Hids Hb Hx. rewrite moved_perm, elem_of_app. destruct (Hk q ids Hids) as [(-> & ->)|[(-> & ->)|(b' & Hq & Hb' & Er' & ->)]].
    + rewrite Lr in Hb. injection Hb as <-. rewrite Er in Hx. rewrite rows_of_perm. destruct (ok_row V x) eqn:Eok; [left; by apply list_elem_of_filter|right; right].
      apply list_elem_of_In, in_flat_map. exists x. split; [by apply list_elem_of_In|]. unfold ok_row in Eok. unfold gone. destruct (V !! x); [|done].
      rewrite Eok. by left.
    + rewrite Lc in Hb. injection Hb as <-. rewrite Ec in Hx. destruct (ok_column V x) eqn:Eok; [left; by apply list_elem_of_filter|right; left].
      rewrite elem_of_reverse. by apply list_elem_of_filter.
    + rewrite Hb in Hb'. injection Hb' as <-. rewrite cells_perm. destruct (decide (numbered (index_of cols') x = None)) as [Hno|Hno]; [right; right|left; by apply list_elem_of_filter].
      apply list_elem_of_In, in_flat_map. exists q. split; [by apply list_elem_of_In|]. unfold gone. rewrite Hb, Er'. apply list_elem_of_In. by apply list_elem_of_filter.
Qed.

(** What the document shows at the end. *)
Section outcome.
Context (s : State) (tb : ptr) (Hs : sh s tb (moved V cols rows) all_kids (new_rows rows)).

Lemma outcome_table : table (view s) root tid bt (with_children bc cols') (with_children br (rows_of V rows)) cols' (rows_of V rows).
Proof.
  pose proof (shape_parts _ _ _ _ _ Hs) as HT'. unfold at_kids in HT'. replace (all_kids (b_Id br)) with (Some (rows_of V rows)) in HT' by (unfold upd; by rewrite decide_True).
  replace (all_kids (b_Id bc)) with (Some cols') in HT'; [exact HT'|]. unfold upd, row_kids, column_kids, upd.
  rewrite decide_False by apply parts_apart. rewrite decide_False, decide_True; [done|done|]. intros Hin. by destruct (proj2 member_apart _ (or_intror Hin)).
Qed.
Lemma outcome_columns c : c ∈ cols' → ∃ b, view s !! c = Some b ∧ is_column b = true.
Proof.
  intros [Hok Hc]%list_elem_of_filter. destruct (below_apart _ (proj1 members_below c Hc)) as [Np Nt]. destruct (proj2 member_apart c (or_introl Hc)) as [Nc Nr].
  unfold ok_column in Hok. destruct (V !! c) as [b|] eqn:Eb.
  - exists b. split; [|done]. rewrite (shape_at _ _ _ _ _ _ _ _ _ _ _ _ _ _ _ Hs Eb Np). unfold upd, row_kids, column_kids, upd.
    rewrite !decide_False; [done|done|by apply member_apart|done].
  - exists (makeColumn c). split; [|done]. rewrite (shape_missing _ _ _ _ _ _ _ _ ltac:(apply HP) _ _ _ _ _ _ Hs Eb). unfold new_rows. by rewrite decide_True.
Qed.
Lemma outcome_rows q : q ∈ rows_of V rows → ∃ b, view s !! q = Some b ∧ is_Some (as_row b) ∧ is_header b = header_row V q ∧ in_order cols' (b_ChildrenIds b).
Proof.
  rewrite rows_of_perm. intros Hq. destruct (row_at s tb _ q Hs Hq) as (b & Hb & Hr & Hh & Ech). exists b. split_and!; [done..|]. rewrite Ech. destruct (V !! q) as [b0|].
  - apply sorted_cells, NoDup_filter, lists_nodup.
  - split; [by intros id ?%elem_of_nil|constructor].
Qed.
Lemma outcome_others q b : V !! q = Some b → q ∉ p :: b_Id bc :: b_Id br :: rows → view s !! q = Some b.
Proof.
  rewrite !not_elem_of_cons. intros Hb (Np & Nc & Nr & Hq). rewrite (shape_at _ _ _ _ _ _ _ _ _ _ _ _ _ _ _ Hs Hb Np). unfold upd, row_kids, column_kids, upd. by rewrite !decide_False.
Qed.
End outcome.
End normal.

(** C20. Normalising a table makes it proper: whatever the columns, the rows and the row
    blocks list, divs excepted, [Normalize] ends without an error; listed columns and
    rows that are missing are created, everything that is no column, no row or no cell of
    a column is listed right below the table, the cells of every row follow the columns
    and the header rows come first.  The document stays a tree, no block becomes
    unreachable, and blocks outside of the table's lists and of its parent are as before.
    (Of a list with a div, [destructureDivs] loses the blocks that are not in a div.) *)
Theorem Normalize_correct `{!RowSorter, !RowSorterOk} s n tid p bp l r bt bc br cols rows :
  let V := view s in
  let root := st_rootId s in
  let cols' := columns_of V cols in
  let rows' := rows_of V rows in
  wf V [root] → listed V root tid p bp l r → table V root tid bt bc br cols rows →
  no_divs V (b_Id bc) → no_divs V (b_Id br) → (∀ q, q ∈ rows → no_divs V q) →
  ∃ s', Normalize tid (s, n) = Some (Ok (), (s', n)) ∧ st_rootId s' = root ∧ wf (view s') [root] ∧
    table (view s') root tid bt (with_children bc cols') (with_children br rows') cols' rows' ∧
    (∀ c, c ∈ cols' → ∃ b, view s' !! c = Some b ∧ is_column b = true) ∧
    (∀ q, q ∈ rows' → ∃ b, view s' !! q = Some b ∧ is_Some (as_row b) ∧ is_header b = header_row V q ∧ in_order cols' (b_ChildrenIds b)) ∧
    view s' !! p = Some (with_children bp (l ++ tid :: moved V cols rows ++ r)) ∧
    (∀ x, reach V root x → reach (view s') root x) ∧
    (∀ q b, V !! q = Some b → q ∉ p :: b_Id bc :: b_Id br :: rows → view s' !! q = Some b).
Proof.
  intros V root cols' rows' Hwf HP HT Dc Dr Drow. pose proof HP as (Hp & Hbp & Hch & _).
  destruct (NewTable_root s n tid bt bc br cols rows HT Dc Dr Drow) as (tb & Enew & Htid & Dtb).
  assert (shape V root tid p bp bt l r s tb [] no_kids (λ _, None)) as Hs0.
  { split; [done| |done|by split; [intros x ?%elem_of_nil|..]]. intros q. unfold look. destruct (decide (q = p)) as [->|Hne]; [|by destruct (V !! q) eqn:E].
    fold V. rewrite Hbp. cbn [app]. by rewrite <- Hch, with_same_children. }
  destruct (normalizeColumns_run V root tid p bp bt bc br l r cols rows Hwf HP HT s n tb Hs0) as ([] & [s1 n1] & E1 & Hn1 & Hs1). cbn [fst snd] in Hn1, Hs1. subst n1.
  destruct (normalizeRows_run V root tid p bp bt bc br l r cols rows Hwf HP HT s1 n tb Hs1) as ([] & [s2 n2] & E2 & Hn2 & Hs2). cbn [fst snd] in Hn2, Hs2. subst n2.
  destruct (normalizeHeaderRows_run V root tid p bp bt bc br l r cols rows Hwf HP HT s2 n tb Hs2) as ([] & [s3 n3] & E3 & Hn3 & Hs3). cbn [fst snd] in Hn3, Hs3. subst n3.
  pose proof (all_settled V root tid p bp bt bc br l r cols rows Hwf HP HT) as Hset. exists s3. split_and!.
  - unfold Normalize, mbind, M_bind. rewrite (attempt_run _ _ _ _ Enew), E1, E2. cbv beta iota. by rewrite (attempt_run _ _ _ _ E3).
  - apply Hs3.
  - by eapply shape_wf.
  - by eapply outcome_table.
  - intros c. by eapply outcome_columns.
  - intros q. by eapply outcome_rows.
  - by eapply shape_at_parent.
  - intros x. by eapply shape_complete.
  - intros q b. by eapply outcome_others.
Qed.
