(* ===== verification/TableInst.v ===== *)
(** * Tables: a concrete document

    The parameters are instantiated by simple functions (sorting by insertion, texts as
    their own payloads), and the theorems about tables are applied to a document with a
    table of three columns and two rows. *)

From stdpp Require Import pretty.
From S2P Require Import Prelude Slice GoFloat StateTree StateNormalize StateApply Table TableEditor TableView TableColumns TableShape TableNormal.

Module TableInst.

(** ** The parameters *)

#[local] Instance text_payload : TextPayload := {| tp_new := ""; tp_text := λ x, x; tp_IsEmpty := λ x, bool_decide (x = "") |}.
#[local] Instance text_payload_ok : TextPayloadOk.
Proof. by split. Qed.

Fixpoint ins (x : nat * string) (l : list (nat * string)) : list (nat * string) :=
  match l with [] => [x] | y :: l => if (y.1 <? x.1)%nat then y :: ins x l else x :: y :: l end.
Definition isort (l : list (nat * string)) : list (nat * string) := foldr ins [] l.
#[local] Instance sorter : RowSorter := λ l, (isort l, negb (bool_decide (isort l = l))).

Lemma ins_perm x l : ins x l ≡ₚ x :: l.
Proof. induction l as [|y l IH]; [done|]. cbn [ins]. destruct (_ <? _)%nat; [|done]. rewrite IH. apply Permutation_swap. Qed.
Lemma ins_sorted x l : StronglySorted (λ x y, (x.1 ≤ y.1)%nat) l → StronglySorted (λ x y, (x.1 ≤ y.1)%nat) (ins x l).
Proof.
  induction 1 as [|y l Hl IH Hy]; [repeat constructor|]. cbn [ins]. destruct (Nat.ltb_spec y.1 x.1).
  - constructor; [done|]. rewrite List.Forall_forall in *. intros z Hz%list_elem_of_In. rewrite ins_perm in Hz.
    apply elem_of_cons in Hz as [->|Hz]; [lia|]. by apply Hy, list_elem_of_In.
  - constructor; [by constructor|]. constructor; [done|]. rewrite List.Forall_forall in *. intros z Hz. specialize (Hy z Hz). lia.
Qed.
#[local] Instance sorter_ok : RowSorterOk.
Proof.
  split; unfold row_sort, sorter; cbn [fst snd].
  - induction l as [|x l IH]; [done|]. cbn. by rewrite ins_perm, IH.
  - induction l as [|x l IH]; [constructor|]. by apply ins_sorted.
  - intros l H%negb_false_iff%bool_decide_eq_true. done.
Qed.

#[local] Instance sort_text : SortText :=
  {| TrimSpace := λ x, x; ToLower := λ x, x; ParseFloat := λ _, None;
     Collate := λ a b, if String.leb a b then (if String.eqb a b then 0 else -1)%Z else 1%Z |}.
Definition gen (n : nat) : string := "id" +:+ pretty n.
Definition md5hex (x : string) : string := x.

(** ** A document *)

Definition cell (id : string) : Block := new_block id [] (CText "x").
Definition row (id : string) (ids : list string) : Block := new_block id ids (CTableRow false).
Definition cols : list string := ["c1"; "c2"; "c3"].
Definition rows : list string := ["r1"; "r2"].
Definition the_table : Block := new_block "t" ["cs"; "rs"] CTable.
Definition the_columns : Block := new_block "cs" cols (CLayout LTableColumns).
Definition the_rows : Block := new_block "rs" rows (CLayout LTableRows).
Definition doc : State :=
  NewState (NewDoc "root" (list_to_map ((λ b, (b_Id b, b)) <$>
    [new_block "root" ["t"; "p"] CSmartblock; new_block "p" [] (CText "text"); the_table; the_columns; the_rows;
     makeColumn "c1"; makeColumn "c2"; makeColumn "c3"; row "r1" ["r1-c1"; "r1-c3"]; row "r2" ["r2-c2"];
     cell "r1-c1"; cell "r1-c3"; cell "r2-c2"]))).

Lemma doc_wf : wf (view doc) [st_rootId doc].
Proof. apply wf_b_spec. vm_compute. reflexivity. Qed.
Ltac each H := repeat (apply elem_of_cons in H as [->|H]); [..|by apply elem_of_nil in H].
Lemma doc_valid : valid (view doc) (st_rootId doc) "t" the_table the_columns the_rows cols rows.
Proof.
  split; [split|..].
  - eapply reach_child; [constructor|vm_compute; reflexivity|left].
  - vm_compute. reflexivity.
  - reflexivity.
  - by exists [].
  - split_and!; vm_compute; reflexivity.
  - split_and!; vm_compute; reflexivity.
  - intros c Hc. unfold cols in Hc. each Hc; (eexists; split; vm_compute; reflexivity).
  - intros r Hr. unfold rows in Hr. each Hr; (eexists; split; [vm_compute; reflexivity|]; split_and!; [by eexists| |]).
    + intros id Hid. each Hid; eexists; (split; [reflexivity|unfold cols; set_solver]).
    + intros x y Hx Hy. each Hx; each Hy; vm_compute; congruence.
    + intros id Hid. each Hid; eexists; (split; [reflexivity|unfold cols; set_solver]).
    + intros x y Hx Hy. each Hx; each Hy; vm_compute; congruence.
  - intros r Hr b c x Hb Hc Hx. unfold rows in Hr. each Hr; vm_compute in Hb; injection Hb as <-; each Hc; vm_compute in Hx; by injection Hx as <-.
Qed.

(** The third column before the first. *)
Lemma ColumnMove_correct_witness :
  let cols' := move_column false "c3" "c1" cols in
  cols' = ["c3"; "c1"; "c2"] ∧
  ∃ s', ColumnMove md5hex "c3" "c1" PLeft (doc, 0%nat) = Some (Ok (), (s', 0%nat)) ∧
    view s' = arranged cols' rows (<["cs":=with_children the_columns cols']> (view doc)) ∧
    wf (view s') [st_rootId s'] ∧ valid (view s') (st_rootId s') "t" the_table (with_children the_columns cols') the_rows cols' rows ∧
    similar (view doc) (view s') ∧ same_below doc s'.
Proof.
  split; [reflexivity|]. apply (ColumnMove_correct md5hex doc 0%nat "t" the_table the_columns the_rows cols rows "c3" "c1" false);
    [exact doc_wf|exact doc_valid|unfold cols; set_solver|unfold cols; set_solver|done|done].
Defined.

(** ** A broken table *)

(** A text among the columns, a column and a row that do not exist, a text among the
    rows, cells in the wrong order, a cell without a column, and a header row that
    comes last. *)
Definition bad_columns : Block := new_block "cs" ["c1"; "text1"; "c2"; "c4"] (CLayout LTableColumns).
Definition bad_rows : Block := new_block "rs" ["r1"; "text2"; "r3"; "r4"] (CLayout LTableRows).
Definition broken : State :=
  NewState (NewDoc "root" (list_to_map ((λ b, (b_Id b, b)) <$>
    [new_block "root" ["q"; "t"; "p"] CSmartblock; new_block "p" [] (CText "text"); new_block "q" [] (CText "text"); the_table; bad_columns; bad_rows;
     makeColumn "c1"; makeColumn "c2"; cell "text1"; cell "text2"; row "r1" ["r1-c4"; "r1-c9"; "r1-c1"]; new_block "r4" ["r4-c2"] (CTableRow true);
     cell "r1-c4"; cell "r1-c9"; cell "r1-c1"; cell "r4-c2"]))).
Lemma broken_wf : wf (view broken) [st_rootId broken].
Proof. apply wf_b_spec. vm_compute. reflexivity. Qed.
Lemma broken_table : table (view broken) (st_rootId broken) "t" the_table bad_columns bad_rows (b_ChildrenIds bad_columns) (b_ChildrenIds bad_rows).
Proof.
  split; [|vm_compute; reflexivity|reflexivity|by exists []|split_and!; vm_compute; reflexivity|split_and!; vm_compute; reflexivity].
  eapply reach_child; [constructor|vm_compute; reflexivity|right; left].
Qed.
Definition divless (s : State) (q : string) : bool :=
  match view s !! q with
  | Some b => forallb (λ c, match view s !! c with Some bc => negb (isDivLayout bc) | None => true end) (b_ChildrenIds b)
  | None => true
  end.
Lemma divless_spec s q : divless s q = true → no_divs (view s) q.
Proof.
  unfold divless. intros H b c bc Hb Hc Hbc. rewrite Hb, forallb_forall in H. specialize (H c (proj1 (list_elem_of_In _ _) Hc)). rewrite Hbc in H. by apply negb_true_iff.
Qed.

Lemma Normalize_correct_witness :
  let V := view broken in
  let root := st_rootId broken in
  let cols' := columns_of V (b_ChildrenIds bad_columns) in
  let rows' := rows_of V (b_ChildrenIds bad_rows) in
  let mv := moved V (b_ChildrenIds bad_columns) (b_ChildrenIds bad_rows) in
  cols' = ["c1"; "c2"; "c4"] ∧ rows' = ["r4"; "r1"; "r3"] ∧ mv = ["text2"; "r1-c9"; "text1"] ∧
  ∃ s', Normalize "t" (broken, 0%nat) = Some (Ok (), (s', 0%nat)) ∧ st_rootId s' = root ∧ wf (view s') [root] ∧
    table (view s') root "t" the_table (with_children bad_columns cols') (with_children bad_rows rows') cols' rows' ∧
    (∀ c, c ∈ cols' → ∃ b, view s' !! c = Some b ∧ is_column b = true) ∧
    (∀ q, q ∈ rows' → ∃ b, view s' !! q = Some b ∧ is_Some (as_row b) ∧ is_header b = header_row V q ∧ in_order cols' (b_ChildrenIds b)) ∧
    view s' !! "root" = Some (with_children (new_block "root" ["q"; "t"; "p"] CSmartblock) (["q"] ++ "t" :: mv ++ ["p"])) ∧
    (∀ x, reach V root x → reach (view s') root x) ∧
    (∀ q b, V !! q = Some b → q ∉ "root" :: b_Id bad_columns :: b_Id bad_rows :: b_ChildrenIds bad_rows → view s' !! q = Some b).
Proof.
  split_and!; [vm_compute; reflexivity..|].
  apply (Normalize_correct broken 0%nat "t" "root" (new_block "root" ["q"; "t"; "p"] CSmartblock) ["q"] ["p"] the_table bad_columns bad_rows).
  - exact broken_wf.
  - split_and!; [constructor|vm_compute; reflexivity|reflexivity|eexists; vm_compute; reflexivity].
  - exact broken_table.
  - apply divless_spec. vm_compute. reflexivity.
  - apply divless_spec. vm_compute. reflexivity.
  - intros q Hq. apply divless_spec. cbn in Hq. each Hq; vm_compute; reflexivity.
Defined.

(** ** The operations on the document *)

Definition children (s : State) (id : string) : list string := match view s !! id with Some b => b_ChildrenIds b | None => [] end.
Definition after {A} (m : M A) (s : State) (f : A → State → list (list string)) : option (list (list string)) :=
  match m (s, 0%nat) with Some (Ok a, g) => Some (f a g.1) | _ => None end.

Example column_deleted : after (ColumnDelete "c3") doc (λ _ s, [children s "cs"; children s "r1"; children s "r2"]) = Some [["c1"; "c2"]; ["r1-c1"]; ["r2-c2"]].
Proof. vm_compute. reflexivity. Qed.
Example column_duplicated : after (ColumnDuplicate md5hex gen "c1" "c3" PLeft) doc (λ id s, [[id]; children s "cs"; children s "r1"; children s "r2"]) =
  Some [["id0"]; ["id0"; "c1"; "c2"; "c3"]; ["r1-id0"; "r1-c1"; "r1-c3"]; ["r2-c2"]].
Proof. vm_compute. reflexivity. Qed.
Example table_created : after (TableCreate md5hex gen None "p" PBottom 2 2 true) doc
    (λ id s, [[id]; children s id; children s "id3"; children s "id6"; children s "id4"; children s "id5"]) =
  Some [["id0"]; ["id3"; "id6"]; ["id1"; "id2"]; ["id4"; "id5"]; ["id4-id1"; "id4-id2"]; []].
Proof. vm_compute. reflexivity. Qed.
(** The cells in order, with the numbers of their rows and columns; the third stops. *)
Example cells_iterated :
  (match Table_Iterate (λ acc _ pos, (acc ++ [(cp_CellID pos, cp_RowNumber pos, cp_ColNumber pos)], (length acc <? 2)%nat)) {| p_layer := 1; p_id := "t" |} [] (doc, 0%nat) with
   | Some (Ok r, _) => Some r | _ => None end) = Some ([("r1-c1", 0, 0); ("r1-c3", 0, 2); ("r2-c2", 1, 1)]%nat, None).
Proof. vm_compute. reflexivity. Qed.
Example table_normalised : after (Normalize "t") broken (λ _ s, [children s "root"; children s "cs"; children s "rs"; children s "r1"; children s "r3"]) =
  Some [["q"; "t"; "text2"; "r1-c9"; "text1"; "p"]; ["c1"; "c2"; "c4"]; ["r4"; "r1"; "r3"]; ["r1-c1"; "r1-c4"]; []].
Proof. vm_compute. reflexivity. Qed.
(** The rows are sorted by the texts of their cells. *)
Example table_sorted : after (Sort "c1" true) doc (λ _ s, [children s "rs"]) = Some [["r2"; "r1"]].
Proof. vm_compute. reflexivity. Qed.

(** A row whose cells are all empty.  While the row is in the layers below, all of them
    are removed; once it is in the top layer, [Unlink] moves the ids that the loop still
    reads, and every second cell stays. *)
Definition empty_row : State :=
  foldl (λ s c, (Add s (new_block (MakeCellID "r3" c) [] (CText ""))).2)
    (Set_ (Set_ doc (with_children the_rows ["r1"; "r2"; "r3"])) (row "r3" (MakeCellID "r3" <$> cols))) cols.
Example clean_below : after (RowListClean ["r3"]) (NewState empty_row) (λ _ s, [children s "r3"]) = Some [[]].
Proof. vm_compute. reflexivity. Qed.
Example clean_top : after (RowListClean ["r3"]) empty_row (λ _ s, [children s "r3"]) = Some [["r3-c2"]].
Proof. vm_compute. reflexivity. Qed.
End TableInst.
