(* ===== verification/HistoryOps.v ===== *)
(** * Undo and redo on a document ([core/block/editor/basic/history.go])

    An undo takes the previous action of the history, prepares a state over the
    document in which the added blocks are unlinked and the removed and changed
    blocks are set to what they were, and applies it; a redo does the reverse.  The
    document here is a smartblock's state, without parents, with its history. *)

From S2P Require Import Prelude Slice Undo Values PbTypes Details StateTree StateChecks StateNormalize StateDetails StateApply.

Local Open Scope Z_scope.

(** [NewStateCtx]. *)
Definition doc_NewState (d : Doc) : Doc :=
  let l := dc_top d in
  {| dc_tree := NewState (dc_tree d);
     dc_top := {| ly_details := None; ly_localDetails := None; ly_relationLinks := None; ly_objectTypeKeys := None;
                  ly_changeId := ""; ly_migrationVersion := ly_migrationVersion l;
                  ly_uniqueKeyInternal := ly_uniqueKeyInternal l;
                  ly_originalCreatedTimestamp := ly_originalCreatedTimestamp l; ly_fileInfo := ly_fileInfo l;
                  ly_fileKeys := []; ly_store := None; ly_storeLastChangeIdByPath := None; ly_storeKeyRemoved := None;
                  ly_notifications := None; ly_deviceStore := None |};
     dc_below := dc_top d :: dc_below d |}.

Definition unlink_all (t : State) (bs : list Block) : State := foldl (λ t b, (Unlink t (b_Id b)).2) t bs.
Definition set_all (t : State) (bs : list Block) : State := foldl Set_ t bs.

(** The tree of the prepared state. *)
Definition undo_tree (t : State) (a : action) : State :=
  set_all (set_all (unlink_all (NewState t) (ac_Add a)) (ac_Remove a)) (map ch_Before (ac_Change a)).
Definition redo_tree (t : State) (a : action) : State :=
  set_all (unlink_all (set_all (NewState t) (ac_Add a)) (ac_Remove a)) (map ch_After (ac_Change a)).

Section history.
Context (Local : list string).

(** The state an undo applies. *)
Definition undo_state (d : Doc) (a : action) : Doc :=
  let s := with_tree (doc_NewState d) (undo_tree (dc_tree d) a) in
  let s := match ac_ObjectTypes a with Some (before, _) => doc_SetObjectTypeKeys s (Some before) | None => s end in
  match ac_Details a with Some (before, _) => SetDetails Local s (d_Copy before) | None => s end.

Definition redo_state (d : Doc) (a : action) : Doc :=
  let s := with_tree (doc_NewState d) (redo_tree (dc_tree d) a) in
  let s := match ac_ObjectTypes a with Some (_, after) => doc_SetObjectTypeKeys s (Some after) | None => s end in
  match ac_Details a with Some (_, after) => SetDetails Local s (d_Copy after) | None => s end.

Context (Apply : Doc → option (res (list EventMessage * action * Doc))).
Abbreviation hist := (@history Block (Details * Details) (list RelationLink * list RelationLink) (list string * list string)).

(** The document, the history and the carriage to show; [Apply] is called with
    [NoHistory], so the action it returns is not recorded. *)
Definition Undo (d : Doc) (h : hist) : option (res (Doc * CarriageState * (Z * Z)) * Doc * hist) :=
  match Previous h with
  | None => None
  | Some (Err e, h) => Some (Err e, d, h)
  | Some (Ok a, h) =>
      match Apply (undo_state d a) with
      | None => None
      | Some (Err e) => Some (Err e, d, h)
      | Some (Ok (_, _, d')) => Some (Ok (d', ci_Before (ac_CarriageInfo a), Counters h), d', h)
      end
  end.

Definition Redo (d : Doc) (h : hist) : option (res (Doc * CarriageState * (Z * Z)) * Doc * hist) :=
  match Next h with
  | None => None
  | Some (Err e, h) => Some (Err e, d, h)
  | Some (Ok a, h) =>
      match Apply (redo_state d a) with
      | None => None
      | Some (Err e) => Some (Err e, d, h)
      | Some (Ok (_, _, d')) => Some (Ok (d', ci_After (ac_CarriageInfo a), Counters h), d', h)
      end
  end.
End history.

(** ** What the prepared state shows *)

Definition keyed (m : Blocks) : Prop := ∀ id b, m !! id = Some b → b_Id b = id.

(** [Unlink] touches the block that lists the child and no other. *)
Lemma Unlink_frame s x q b :
  keyed (view s) → view s !! q = Some b → x ∉ b_ChildrenIds b → view (Unlink s x).2 !! q = Some b.
Proof.
  intros Hk Hb Hx. unfold Unlink, GetParentOf. destruct (PickParentOf s x) as [p|] eqn:Ep; [|done].
  assert (view s !! b_Id p = Some p ∧ x ∈ b_ChildrenIds p) as [Hp Hin].
  { unfold PickParentOf in Ep. destruct (Iterate_walk s) as (l & cyc & E & HI). rewrite HI in Ep.
    pose proof (fold_find (λ b, has_child b x) None l) as Hf. destruct (fold_stop _ None l) as [r []]; cbn [finish iterated] in Ep.
    - destruct Hf as [-> _]. done.
    - destruct Hf as (b' & -> & Hb' & Hc%has_child_spec). simplify_eq.
      destruct (walk_sound _ _ _ _ _ _ _ E Hb') as (i & Hi & _). by rewrite (Hk i p Hi). }
  destruct (Get_some s (b_Id p) p Hp) as (s' & -> & (Hv & _ & _) & Hk'). cbn [snd removeChildren].
  unfold removeChildren. destruct (setChildrenIds_view s' (b_Id p) p (RemoveMut (b_ChildrenIds p) x) Hk') as (-> & _ & _).
  rewrite Hv, lookup_insert_ne; [done|]. intros Eq. rewrite <- Eq, Hp in Hb. by simplify_eq.
Qed.

Lemma Unlink_keyed s x : keyed (view s) → keyed (view (Unlink s x).2) ∧ same_below s (Unlink s x).2.
Proof.
  intros Hk. unfold Unlink, GetParentOf. destruct (PickParentOf s x) as [p|]; [|split; [done|apply same_below_refl]].
  pose proof (Get_spec s (b_Id p)) as (G1 & G2 & G3 & G4). destruct (Get s (b_Id p)) as [[b|] s']; cbn [fst snd] in *;
    [|split; [by rewrite G2|done]].
  unfold removeChildren. assert (b_Id b = b_Id p) as -> by (by apply Hk). rewrite <- G1 in G4.
  destruct (setChildrenIds_view s' (b_Id p) b (RemoveMut (b_ChildrenIds b) x) G4) as (Hv & Hs & _).
  rewrite Hv, G2. split; [|by eapply same_below_trans]. intros id b'.
  destruct (decide (id = b_Id p)) as [->|]; [rewrite lookup_insert_eq|rewrite lookup_insert_ne by done; apply Hk].
  intros [= <-]. simpl. by apply Hk.
Qed.

Lemma unlink_all_frame t bs q b :
  keyed (view t) → view t !! q = Some b → (∀ x, x ∈ bs → b_Id x ∉ b_ChildrenIds b) →
  view (unlink_all t bs) !! q = Some b.
Proof.
  revert t. induction bs as [|x bs IH]; intros t Hk Hb Hx; [done|]. cbn [unlink_all foldl].
  apply IH; [by apply Unlink_keyed| |intros; apply Hx; by right]. apply Unlink_frame; [done|done|]. apply Hx. by left.
Qed.

Lemma unlink_all_keyed t bs : keyed (view t) → keyed (view (unlink_all t bs)) ∧ same_below t (unlink_all t bs).
Proof.
  revert t. induction bs as [|x bs IH]; intros t Hk; [split; [done|apply same_below_refl]|]. cbn [unlink_all foldl].
  destruct (Unlink_keyed t (b_Id x) Hk) as [K1 S1]. destruct (IH (Unlink t (b_Id x)).2 K1) as [K2 S2].
  split; [done|by eapply same_below_trans].
Qed.

Lemma set_all_view t bs :
  view (set_all t bs) = foldl (λ m b, <[b_Id b:=b]> m) (view t) bs ∧ same_below t (set_all t bs).
Proof.
  revert t. induction bs as [|b bs IH]; intros t; [split; [done|apply same_below_refl]|]. cbn [set_all foldl].
  destruct (IH (Set_ t b)) as [I1 I2]. destruct (Set_spec t b) as [S1 S2]. unfold set_all in *.
  rewrite I1, S1. split; [done|by eapply same_below_trans].
Qed.

Lemma foldl_insert_keyed bs (m : Blocks) : keyed m → keyed (foldl (λ m b, <[b_Id b:=b]> m) m bs).
Proof.
  revert m. induction bs as [|b bs IH]; intros m Hk; [done|]. cbn [foldl]. apply IH. intros id b'.
  destruct (decide (id = b_Id b)) as [->|]; [rewrite lookup_insert_eq; by intros [= <-]|].
  rewrite lookup_insert_ne by done. apply Hk.
Qed.

(** ** Restoring a document *)

(** Every child exists. *)
Definition closed (m : Blocks) : Prop := ∀ q b c, m !! q = Some b → c ∈ b_ChildrenIds b → is_Some (m !! c).

Definition kinds (m1 m2 : Blocks) : Prop := ∀ id a b, m1 !! id = Some a → m2 !! id = Some b → same_kind a b = true.

Lemma same_kind_refl b : same_kind b b = true.
Proof.
  unfold same_kind, content_Diff. rewrite (bool_decide_eq_true_2 (b_Content b = b_Content b)) by done.
  destruct (b_Content b); cbn; rewrite ?bool_decide_eq_true_2 by done; done.
Qed.

Lemma same_kind_sym a b : same_kind a b = true → same_kind b a = true.
Proof.
  unfold same_kind, content_Diff. destruct (b_Content a), (b_Content b); simpl; try done;
    repeat (case_bool_decide; simplify_eq/=); try done.
Qed.

Lemma kinds_sym m1 m2 : kinds m1 m2 → kinds m2 m1.
Proof. intros Hk id a b Ha Hb. by apply same_kind_sym, (Hk id). Qed.

(** A view that shows a clean, closed document [m] shows nothing else from its root. *)
Section restored.
Context (m U : Blocks) (root : string) (Hclean : clean root m) (Hclosed : closed m) (Hroot : is_Some (m !! root)).
Context (Hkeyed : keyed U) (Hshow : ∀ id o, m !! id = Some o → U !! id = Some o).

Lemma restored_reach x : reach U root x ↔ is_Some (m !! x).
Proof.
  split.
  - induction 1 as [|q b c Hq [o Ho] Hb Hc]; [done|]. rewrite (Hshow q o Ho) in Hb. simplify_eq. by eapply Hclosed.
  - intros [b Hb]. pose proof (cl_reach _ _ Hclean x b Hb) as Hr. clear Hb. induction Hr as [|q b' c Hq IH Hb' Hc]; [constructor|].
    eapply reach_child; [exact IH|by apply Hshow|done].
Qed.

Lemma restored_lookup x b : reachable U [root] x → U !! x = Some b → m !! x = Some b ∧ reachable m [root] x.
Proof.
  intros (r & ->%list_elem_of_singleton & [o Ho]%restored_reach) Hb. rewrite (Hshow x o Ho) in Hb. simplify_eq.
  split; [done|]. exists root. split; [by left|]. by eapply (cl_reach _ _ Hclean).
Qed.

Lemma restored_wf : wf U [root].
Proof.
  destruct (cl_wf _ _ Hclean) as [_ _ Hu Hn Hr]. split; [exact Hkeyed|apply NoDup_singleton|..].
  - intros p1 b1 p2 b2 c H1 H2 Hb1 Hb2. destruct (restored_lookup p1 b1 H1 Hb1) as [? ?], (restored_lookup p2 b2 H2 Hb2) as [? ?].
    eapply Hu; eauto.
  - intros q b Hq Hb. destruct (restored_lookup q b Hq Hb) as [? ?]. eapply Hn; eauto.
  - intros q b r Hq Hb. destruct (restored_lookup q b Hq Hb) as [? ?]. eapply Hr; eauto.
Qed.
End restored.

Section roundtrip.
Context (Local : list string) (Snippet : State → string) (fillChanges : Doc → list EventMessage → list Change).
Context `{Hord : !MapOrder, Hordok : !MapOrderOk, Hhandler : !DetailsHandler, Hcodec : !MsgCodec bytes, Hcodecok : !MsgCodecOk bytes}.
Context (Hplain : ∀ b, dh_is b = false) (normalize : State → option (res State)).
Abbreviation Apply := (apply Local Snippet fillChanges normalize).

(** Normalisation finds nothing to repair in the document [m]: when the tree [t] shows
    [m], the normalised tree shows it still. *)
Definition settles (m : Blocks) (t : State) : Prop :=
  keyed (view t) → (∀ id o, m !! id = Some o → view t !! id = Some o) →
  ∃ t', normalize t = Some (Ok t') ∧ same_below t t' ∧ keyed (view t') ∧ ∀ id o, m !! id = Some o → view t' !! id = Some o.

(** Applying a state over [d1] that shows the document [m]. *)
Lemma apply_restores d1 u m root :
  clean root m → closed m → is_Some (m !! root) → keyed (st_blocks (dc_tree d1)) → kinds (st_blocks (dc_tree d1)) m →
  st_parents (dc_tree u) = [st_blocks (dc_tree d1)] → dc_below u = [dc_top d1] → st_rootId (dc_tree u) = root →
  keyed (view (dc_tree u)) → (∀ id o, m !! id = Some o → view (dc_tree u) !! id = Some o) → settles m (dc_tree u) →
  ∃ msgs act d2, Apply u = Some (Ok (msgs, act, d2)) ∧ st_blocks (dc_tree d2) = m ∧ st_parents (dc_tree d2) = [] ∧
    st_rootId (dc_tree d2) = root ∧ dc_below d2 = [].
Proof.
  intros Hcl Hclo Hroot Hk1 Hkinds Hpar0 Hbel0 Hrt0 Hku Hsu Hset. destruct (Hset Hku Hsu) as (t' & Hnorm & [Sr Sp] & HkU & Hshow).
  unfold apply. rewrite Hnorm.
  set (u' := with_tree u t'). assert (st_parents (dc_tree u') = [st_blocks (dc_tree d1)]) as Hpar by (simpl; congruence).
  assert (st_rootId (dc_tree u') = root) as Hrt by (simpl; congruence).
  assert (ready u' (st_blocks (dc_tree d1)) (dc_top d1)) as Hready.
  { split; [done|done| |done|].
    - rewrite Hrt. by eapply restored_wf.
    - intros id o b Hre Ho Hb. rewrite Hrt in Hre. eapply (restored_reach m _ root Hcl Hclo Hroot Hshow) in Hre as [x Hx].
      pose proof (Hshow id x Hx) as Hv. change (view t') with (view (dc_tree u')) in Hv. rewrite (V_lookup u' _ Hpar), Hb in Hv. simplify_eq. by eapply Hkinds. }
  destruct (ready_run Local Snippet fillChanges Hplain u' _ _ Hready) as (l & [[msgs act] d2] & E & _ & Ha & _).
  exists msgs, act, d2. split_and!; [done| |apply (ap_parents _ _ _ _ Ha)| |].
  - apply map_eq. intros id. apply option_eq. intros b. rewrite (ap_blocks _ _ _ _ Ha id b : st_blocks (dc_tree d2) !! id = Some b ↔ _), Hrt.
    change (view (dc_tree u')) with (view t'). rewrite (restored_reach m _ root Hcl Hclo Hroot Hshow). split.
    + intros [Hb [o Ho]]. rewrite (Hshow id o Ho) in Hb. by simplify_eq.
    + intros Hb. split; [by apply Hshow|by eexists].
  - rewrite (ap_root _ _ _ _ Ha : st_rootId (dc_tree d2) = _). done.
  - apply (ap_below _ _ _ _ Ha).
Qed.

(** What an action says about the blocks before and after it. *)
Section action.
Context (d : Doc) (p : Blocks) (pl : Layer) (act : action) (d1 : Doc).
Context (Hready : ready d p pl) (Heff : effect d p act d1) (Hsettled : ∀ id o, p !! id = Some o → settle_file o = o).
Abbreviation B := (st_blocks (dc_tree d1)).

Lemma B_keyed : keyed B.
Proof. intros id b. apply (wf_keys _ _ (cl_wf _ _ (ef_clean _ _ _ _ Heff))). Qed.

Lemma p_B_kinds : kinds p B.
Proof.
  intros id o b Ho [Hv Hre]%(ef_blocks _ _ _ _ Heff). rewrite (V_lookup d p (re_parents _ _ _ Hready)) in Hv.
  destruct (st_blocks (dc_tree d) !! id) as [b'|] eqn:E; simplify_eq; [by eapply (re_kind _ _ _ Hready)|].
  apply same_kind_refl.
Qed.

Lemma change_before o : o ∈ map ch_Before (ac_Change act) → p !! b_Id o = Some o.
Proof.
  intros ([o' b] & -> & Hin)%list_elem_of_fmap. apply (ef_change _ _ _ _ Heff) in Hin as (o & Ho & -> & _ & _).
  simpl. rewrite (Hsettled _ o Ho). by rewrite (re_keys _ _ _ Hready _ _ Ho).
Qed.

Lemma change_after b : b ∈ map ch_After (ac_Change act) → B !! b_Id b = Some b ∧ is_Some (p !! b_Id b).
Proof.
  intros ([o' b'] & -> & Hin)%list_elem_of_fmap. apply (ef_change _ _ _ _ Heff) in Hin as (o & Ho & -> & Hb & _).
  simpl. split; [done|by eexists].
Qed.

Lemma before_or_same id o :
  p !! id = Some o → o ∈ ac_Remove act ∨ o ∈ map ch_Before (ac_Change act) ∨ B !! id = Some o.
Proof.
  intros Ho. pose proof (re_keys _ _ _ Hready id o Ho) as Hid. destruct (B !! id) as [b|] eqn:Eb.
  - pose proof (B_keyed id b Eb) as Hidb. destruct (decide (o = b)) as [->|Hne]; [by right; right|]. right. left.
    apply list_elem_of_fmap. exists {| ch_Before := o; ch_After := b |}. split; [done|].
    apply (ef_change _ _ _ _ Heff). exists o. rewrite Hidb. split_and!; try done. by rewrite (Hsettled id o Ho).
  - left. apply (ef_remove _ _ _ _ Heff). by rewrite Hid.
Qed.

Lemma after_or_same id b :
  B !! id = Some b → b ∈ ac_Add act ∨ b ∈ map ch_After (ac_Change act) ∨ p !! id = Some b.
Proof.
  intros Hb. pose proof (B_keyed id b Hb) as Hid. destruct (p !! id) as [o|] eqn:Eo.
  - destruct (decide (o = b)) as [->|Hne]; [by right; right|]. right. left.
    apply list_elem_of_fmap. exists {| ch_Before := settle_file o; ch_After := b |}. split; [done|].
    apply (ef_change _ _ _ _ Heff). exists o. by rewrite Hid.
  - left. apply (ef_add _ _ _ _ Heff). by rewrite Hid.
Qed.

(** The types and details set at the end leave the tree alone. *)
Lemma finish_state (s : Doc) (types : option (list string)) (details : option Details) :
  let s1 := match types with Some x => doc_SetObjectTypeKeys s (Some x) | None => s end in
  let s2 := match details with Some x => SetDetails Local s1 (d_Copy x) | None => s1 end in
  dc_tree s2 = dc_tree s ∧ dc_below s2 = dc_below s.
Proof.
  cbv zeta. set (s1 := match types with Some x => _ | None => s end).
  assert (dc_tree s1 = dc_tree s ∧ dc_below s1 = dc_below s) as [T1 B1] by (by destruct types).
  destruct details as [x|]; [|done]. rewrite d_Copy_spec.
  destruct (SetDetails_spec Local s1 (default ∅ x)) as ((-> & -> & _) & _). done.
Qed.

Lemma undo_state_tree d0 a :
  dc_tree (undo_state Local d0 a) = undo_tree (dc_tree d0) a ∧
  dc_below (undo_state Local d0 a) = dc_top d0 :: dc_below d0.
Proof.
  unfold undo_state. cbv zeta. set (s := with_tree (doc_NewState d0) _).
  pose proof (finish_state s (fst <$> ac_ObjectTypes a) (fst <$> ac_Details a)) as H. cbv zeta in H.
  destruct (ac_ObjectTypes a) as [[]|], (ac_Details a) as [[]|]; exact H.
Qed.

Lemma redo_state_tree d0 a :
  dc_tree (redo_state Local d0 a) = redo_tree (dc_tree d0) a ∧
  dc_below (redo_state Local d0 a) = dc_top d0 :: dc_below d0.
Proof.
  unfold redo_state. cbv zeta. set (s := with_tree (doc_NewState d0) _).
  pose proof (finish_state s (snd <$> ac_ObjectTypes a) (snd <$> ac_Details a)) as H. cbv zeta in H.
  destruct (ac_ObjectTypes a) as [[]|], (ac_Details a) as [[]|]; exact H.
Qed.

Lemma NewState_view t : st_parents t = [] → view (NewState t) = st_blocks t.
Proof. intros Hp. unfold view, NewState. simpl. rewrite Hp. simpl. by rewrite (left_id_L ∅ (∪)), (right_id_L ∅ (∪)). Qed.

Lemma undo_shows (d0 : Doc) :
  closed p → st_blocks (dc_tree d0) = B → st_parents (dc_tree d0) = [] →
  keyed (view (dc_tree (undo_state Local d0 act))) ∧
  (∀ id o, p !! id = Some o → view (dc_tree (undo_state Local d0 act)) !! id = Some o) ∧
  same_below (NewState (dc_tree d0)) (dc_tree (undo_state Local d0 act)).
Proof.
  intros Hclo HB Hpar. destruct (undo_state_tree d0 act) as [-> _]. unfold undo_tree.
  assert (keyed (view (NewState (dc_tree d0)))) as K0 by (rewrite NewState_view, HB by done; apply B_keyed).
  destruct (unlink_all_keyed (NewState (dc_tree d0)) (ac_Add act) K0) as [K1 S1].
  set (t1 := unlink_all _ _) in *. destruct (set_all_view t1 (ac_Remove act)) as [V2 S2].
  set (t2 := set_all t1 _) in *. destruct (set_all_view t2 (map ch_Before (ac_Change act))) as [V3 S3].
  split_and!.
  - rewrite V3, V2. by apply foldl_insert_keyed, foldl_insert_keyed.
  - intros id o Ho. pose proof (re_keys _ _ _ Hready id o Ho) as Hid. rewrite V3.
    rewrite (add_lookup id _ _ o) by (intros x Hx Hxi; apply change_before in Hx; congruence).
    case_decide as Hin1; [done|]. rewrite V2.
    rewrite (add_lookup id _ _ o) by (intros x Hx Hxi; apply (ef_remove _ _ _ _ Heff) in Hx as [? _]; congruence).
    case_decide as Hin2; [done|].
    destruct (before_or_same id o Ho) as [Hr|[Hc|Hb]].
    + destruct Hin2. rewrite <- Hid. by apply list_elem_of_fmap_2.
    + destruct Hin1. rewrite <- Hid. by apply list_elem_of_fmap_2.
    + apply unlink_all_frame; [done|by rewrite NewState_view, HB|].
      intros x [_ Hx]%(ef_add _ _ _ _ Heff) Hc. destruct (Hclo id o (b_Id x) Ho Hc). congruence.
  - eapply same_below_trans; [exact S1|]. by eapply same_below_trans.
Qed.

Lemma redo_shows (d0 : Doc) :
  closed B → st_blocks (dc_tree d0) = p → st_parents (dc_tree d0) = [] →
  keyed (view (dc_tree (redo_state Local d0 act))) ∧
  (∀ id b, B !! id = Some b → view (dc_tree (redo_state Local d0 act)) !! id = Some b) ∧
  same_below (NewState (dc_tree d0)) (dc_tree (redo_state Local d0 act)).
Proof.
  intros Hclo Hp Hpar. destruct (redo_state_tree d0 act) as [-> _]. unfold redo_tree.
  assert (keyed (view (NewState (dc_tree d0)))) as K0.
  { rewrite NewState_view, Hp by done. intros id b. apply (re_keys _ _ _ Hready). }
  destruct (set_all_view (NewState (dc_tree d0)) (ac_Add act)) as [V1 S1]. set (t1 := set_all _ (ac_Add act)) in *.
  assert (keyed (view t1)) as K1 by (rewrite V1; by apply foldl_insert_keyed).
  destruct (unlink_all_keyed t1 (ac_Remove act) K1) as [K2 S2]. set (t2 := unlink_all t1 _) in *.
  destruct (set_all_view t2 (map ch_After (ac_Change act))) as [V3 S3]. split_and!.
  - rewrite V3. by apply foldl_insert_keyed.
  - intros id b Hb. pose proof (B_keyed id b Hb) as Hid. rewrite V3.
    rewrite (add_lookup id _ _ b) by (intros x Hx Hxi; apply change_after in Hx as [? _]; congruence).
    case_decide as Hin1; [done|].
    apply unlink_all_frame; [done| |].
    + rewrite V1, (add_lookup id _ _ b) by (intros x Hx Hxi; apply (ef_add _ _ _ _ Heff) in Hx as [? _]; congruence).
      case_decide as Hin2; [done|]. rewrite NewState_view, Hp by done.
      destruct (after_or_same id b Hb) as [Ha|[Hc|?]]; [| |done].
      * destruct Hin2. rewrite <- Hid. by apply list_elem_of_fmap_2.
      * destruct Hin1. rewrite <- Hid. by apply list_elem_of_fmap_2.
    + intros x [_ Hx]%(ef_remove _ _ _ _ Heff) Hc. destruct (Hclo id b (b_Id x) Hb Hc). congruence.
  - eapply same_below_trans; [exact S1|]. by eapply same_below_trans.
Qed.
End action.
End roundtrip.

Lemma Previous_Next {A B C D} (h1 h2 : @history A B C D) a :
  Previous h1 = Some (Ok a, h2) → Next h2 = Some (Ok a, h1).
Proof.
  unfold Previous, Next. destruct (0 <? h_pointer h1) eqn:E0; [|done].
  destruct (action_at _ _) as [x|] eqn:Ea; [|done]. simpl. intros [= -> <-]. cbn [with_pointer h_pointer h_actions] in *.
  unfold action_at in *. cbn [with_pointer h_actions] in *. destruct (h_pointer h1 - 1 <? 0) eqn:E1; [done|].
  apply lookup_lt_Some in Ea as Hlt. assert (h_pointer h1 - 1 <? Z.of_nat (length (h_actions h1)) = true) as -> by lia.
  simpl. rewrite Ea. simpl. do 2 f_equal. destruct h1. simpl. unfold with_pointer. simpl. f_equal. lia.
Qed.

Lemma NewState_doc t : st_parents t = [] → NewState t = NewState (NewDoc (st_rootId t) (st_blocks t)).
Proof. intros Hp. unfold NewState. simpl. by rewrite Hp. Qed.

(** C3. Undo and redo are inverse to editing: let a document [p] be a clean tree whose
    children all exist, with no file being uploaded, and let [apply] of a state
    over it return [act] and the document [d1], whose children all exist.  If the
    history gives [act] back, then the states that undo and redo prepare show all blocks
    of [p] and of [d1]; so, when normalisation finds nothing to repair in such a state,
    [Undo] succeeds and the document holds exactly the blocks [p], and [Redo] after it
    succeeds and restores exactly the blocks of [d1]. *)
Theorem undo_redo_restore Local Snippet fillChanges `{!MapOrder, !MapOrderOk, !DetailsHandler, !MsgCodec bytes, !MsgCodecOk bytes}
    normalize d p pl msgs act d1 h1 h2 :
  (∀ b, dh_is b = false) → ready d p pl → clean (st_rootId (dc_tree d)) p → closed p →
  is_Some (p !! st_rootId (dc_tree d)) → (∀ id o, p !! id = Some o → settle_file o = o) →
  apply_normalized Local Snippet fillChanges d = Some (Ok (msgs, act, d1)) → closed (st_blocks (dc_tree d1)) →
  Previous h1 = Some (Ok act, h2) →
  settles normalize p (undo_tree (dc_tree d1) act) →
  settles normalize (st_blocks (dc_tree d1)) (redo_tree (NewDoc (st_rootId (dc_tree d)) p) act) →
  let Apply := apply Local Snippet fillChanges normalize in
  ∃ r1 r2 d2 d3,
    Undo Local Apply d1 h1 = Some (Ok r1, d2, h2) ∧ st_blocks (dc_tree d2) = p ∧ st_parents (dc_tree d2) = [] ∧
    Redo Local Apply d2 h2 = Some (Ok r2, d3, h1) ∧ st_blocks (dc_tree d3) = st_blocks (dc_tree d1) ∧ st_parents (dc_tree d3) = [].
Proof.
  intros Hplain Hr Hcl Hclo Hroot Hset Happ HcloB Hprev HnU HnR Apply.
  destruct (apply_effect Local Snippet fillChanges Hplain d p pl Hr) as (msgs' & act' & d1' & E & Heff). rewrite Happ in E.
  injection E as <- <- <-. pose proof (ef_parents _ _ _ _ Heff) as Hp1. pose proof (ef_root _ _ _ _ Heff) as Hr1.
  pose proof (ef_below _ _ _ _ Heff) as Hb1. pose proof (ef_clean _ _ _ _ Heff) as HclB.
  pose proof (p_B_kinds d p pl act d1 Hr Heff) as Hkinds.
  destruct (undo_state_tree Local d1 act) as [TU BU].
  assert (keyed (view (undo_tree (dc_tree d1) act)) ∧ (∀ id o, p !! id = Some o → view (undo_tree (dc_tree d1) act) !! id = Some o) ∧
    same_below (NewState (dc_tree d1)) (undo_tree (dc_tree d1) act)) as (KU & VU & SU1 & SU2).
  { rewrite <- TU. by apply (undo_shows Local d p pl act d1). }
  destruct (apply_restores Local Snippet fillChanges Hplain normalize d1 (undo_state Local d1 act) p (st_rootId (dc_tree d)))
    as (m2 & a2 & d2 & E2 & Hd2 & Hpar2 & Hroot2 & Hbel2); try done.
  { by apply (B_keyed d p act d1). }
  { by apply kinds_sym. }
  { rewrite TU, SU2. simpl. by rewrite Hp1. }
  { by rewrite BU, Hb1. }
  { rewrite TU, SU1. done. }
  { by rewrite TU. }
  { by rewrite TU. }
  { by rewrite TU. }
  destruct (redo_state_tree Local d2 act) as [TR BR].
  assert (redo_tree (dc_tree d2) act = redo_tree (NewDoc (st_rootId (dc_tree d)) p) act) as Hrt.
  { unfold redo_tree. rewrite (NewState_doc (dc_tree d2)), Hroot2, Hd2; done. }
  assert (keyed (view (redo_tree (dc_tree d2) act)) ∧
    (∀ id b, st_blocks (dc_tree d1) !! id = Some b → view (redo_tree (dc_tree d2) act) !! id = Some b) ∧
    same_below (NewState (dc_tree d2)) (redo_tree (dc_tree d2) act)) as (KR & VR & SR1 & SR2).
  { rewrite <- TR. by apply (redo_shows Local d p pl act d1). }
  destruct (apply_restores Local Snippet fillChanges Hplain normalize d2 (redo_state Local d2 act) (st_blocks (dc_tree d1)) (st_rootId (dc_tree d)))
    as (m3 & a3 & d3 & E3 & Hd3 & Hpar3 & _ & _); try done.
  { destruct Hroot as [o Ho]. eexists. apply (ef_blocks _ _ _ _ Heff). split; [|constructor].
    rewrite (V_lookup d p (re_parents _ _ _ Hr)), Ho.
    instantiate (1 := default o (st_blocks (dc_tree d) !! st_rootId (dc_tree d))).
    by destruct (st_blocks (dc_tree d) !! st_rootId (dc_tree d)). }
  { rewrite Hd2. intros id b. apply (re_keys _ _ _ Hr). }
  { by rewrite Hd2. }
  { rewrite TR, SR2. simpl. by rewrite Hpar2. }
  { by rewrite BR, Hbel2. }
  { rewrite TR, SR1. simpl. done. }
  { by rewrite TR. }
  { by rewrite TR. }
  { by rewrite TR, Hrt. }
  eexists _, _, d2, d3. unfold Undo, Redo. rewrite Hprev, (Previous_Next h1 h2 act Hprev). unfold Apply. rewrite E2, E3.
  by split_and!.
Qed.

(** ** Deciding the hypotheses, and the theorem on an example *)

(** ** The normalisation of [StateNormalize] settles on plain documents *)

Section plain.
Context (md5hex : string → string) (NewObjectId : nat → string) (Normalizable : Block → option (State → option (res State))) (sc : schedule).

(** A block that is no layout and has no normalisation of its own. *)
Definition plain_block (b : Block) : Prop :=
  (∀ style, b_Content b ≠ CLayout style) ∧ ∀ ids, Normalizable (with_children b ids) = None.
(** A document whose root has its content and no list of children is too long. *)
Record normal_doc (root : string) (m : Blocks) : Prop := {
  nd_root : ∃ r, m !! root = Some r ∧ b_Content r = CSmartblock;
  nd_short : ∀ id b, m !! id = Some b → (length (b_ChildrenIds b) ≤ 40)%nat;
}.
Definition header_first (root : string) (m : Blocks) : Prop := ∃ r rest, m !! root = Some r ∧ b_ChildrenIds r = headerId :: rest.

Lemma range_idle (f : State → string → option State) s order :
  (∀ id, InState s id = true → f s id = Some s) → range_blocks f order s = Some s.
Proof.
  intros Hf. unfold range_blocks. induction order as [|id order IH]; [done|]. cbn [foldl].
  destruct (InState s id) eqn:E; [by rewrite Hf|done].
Qed.

Section settled.
Context (m : Blocks) (t : State).
Context (Hcl : clean (st_rootId t) m) (Hclo : closed m) (Hnd : normal_doc (st_rootId t) m).
Context (Hk : keyed (view t)) (Hshow : ∀ id o, m !! id = Some o → view t !! id = Some o).
Context (Hplain : ∀ id b, st_blocks t !! id = Some b → plain_block b).

Lemma top_shown s id b : st_blocks s !! id = Some b → view s !! id = Some b.
Proof. intros E. rewrite <- Pick_view. unfold Pick. simpl. by rewrite E. Qed.

Lemma size_settles : normalizeSize t = Some (Ok t).
Proof.
  unfold normalizeSize. destruct (Iterate_walk t) as (l & cyc & E & ->).
  assert (wf (view t) [st_rootId t]) as Hwf.
  { destruct (nd_root _ _ Hnd) as (r & Hr & _). by apply (restored_wf m). }
  assert (cyc = false) as -> by (eapply (walk_acyclic _ _ Hwf); [by left|done]).
  rewrite (fold_always (λ (u : unit) _, u)). done.
Qed.

(** Removing missing children changes blocks outside of the document at most. *)
Lemma children_settle : NoDup (sc_children sc) →
  ∃ s, normalizeAllChildren (sc_children sc) t = Some s ∧ same_below t s ∧ keyed (view s) ∧
    (∀ id o, m !! id = Some o → view s !! id = Some o) ∧ (∀ id b, st_blocks s !! id = Some b → plain_block b) ∧
    ∀ id, is_Some (view s !! id) ↔ is_Some (view t !! id).
Proof.
  intros Hn. destruct (normalizeAll_spec (sc_children sc) t) as (s & E & B & Hout & Hin); [|done|].
  { intros id b Hb. by apply Hk, top_shown. }
  exists s. assert (∀ id, st_blocks s !! id = st_blocks t !! id ∨ st_blocks s !! id = prune t <$> st_blocks t !! id) as Htop.
  { intros id. destruct (decide (id ∈ sc_children sc)); [right; by apply Hin|left; by apply Hout]. }
  assert (∀ id, view s !! id = match st_blocks s !! id with Some b => Some b | None => pick_layers (st_parents t) id end) as Vs.
  { intros id. rewrite <- Pick_view. unfold Pick. simpl. destruct B as [_ ->]. done. }
  assert (∀ id, view t !! id = match st_blocks t !! id with Some b => Some b | None => pick_layers (st_parents t) id end) as Vt.
  { intros id. by rewrite <- Pick_view. }
  split_and!; [done|done|..].
  - intros id b. rewrite Vs. pose proof (Hk id) as Hki. rewrite Vt in Hki. destruct (Htop id) as [->| ->]; [apply Hki|].
    destruct (st_blocks t !! id) as [b0|]; [|apply Hki]. simpl. intros [= <-]. change (b_Id b0 = id). by apply Hki.
  - intros id o Ho. pose proof (Hshow id o Ho) as Hv. rewrite Vs. rewrite Vt in Hv. destruct (Htop id) as [->| ->]; [done|].
    destruct (st_blocks t !! id) as [b0|]; [|done]. injection Hv as ->. simpl. f_equal. unfold prune, existing.
    rewrite filter_all; [by destruct o|]. intros c Hc. apply Exists_spec. destruct (Hclo id o c Ho Hc) as [oc Hoc]. eauto.
  - intros id b Hb. destruct (Htop id) as [Et|Et]; rewrite Et in Hb; [by eapply Hplain|].
    destruct (st_blocks t !! id) as [b0|] eqn:E0; [|done]. injection Hb as <-. destruct (Hplain id b0 E0) as [P1 P2]. by split.
  - intros id. rewrite Vs, Vt. destruct (Htop id) as [->| ->]; [done|]. destruct (st_blocks t !! id); [|done]. simpl. split; intros _; eauto.
Qed.
End settled.

Section idle.
Context (m : Blocks) (s : State).
Context (Hcl : clean (st_rootId s) m) (Hclo : closed m) (Hnd : normal_doc (st_rootId s) m).
Context (Hk : keyed (view s)) (Hshow : ∀ id o, m !! id = Some o → view s !! id = Some o).
Context (Hplain : ∀ id b, st_blocks s !! id = Some b → plain_block b).

Lemma custom_settles order : doCustomBlockNormalizations Normalizable order s = Some (Ok s).
Proof.
  induction order as [|id order IH]; [done|]. cbn [doCustomBlockNormalizations]. destruct (st_blocks s !! id) as [b|] eqn:Eb; [|done].
  destruct (Hplain id b Eb) as [_ Hn]. specialize (Hn (b_ChildrenIds b)). replace (with_children b (b_ChildrenIds b)) with b in Hn by (by destruct b). rewrite Hn.
  case_bool_decide as Hr; [|done]. rewrite Eb. destruct (nd_root _ _ Hnd) as (r & Hrm & Hc). pose proof (top_shown s id b Eb) as Hv.
  rewrite (Hk id b Hv) in Hr. subst id. rewrite (Hshow _ _ Hrm) in Hv. injection Hv as ->.
  unfold normalizeSmartBlock, isBlockEmpty. by rewrite Hc.
Qed.

Lemma layout_settles o1 o2 : normalizeLayout md5hex o1 o2 s = Some s.
Proof.
  unfold normalizeLayout, removeEmptyLayoutBlocks. rewrite range_idle; [apply range_idle|]; intros id _.
  - unfold normalizeLayoutRow. destruct (st_blocks s !! id) as [b|] eqn:Eb; [|done]. destruct (Hplain id b Eb) as [Hp _].
    unfold is_row. destruct (b_Content b) eqn:Ec; try done. by destruct (Hp style).
  - unfold removeEmptyLayout. destruct (st_blocks s !! id) as [b|] eqn:Eb; [|done]. destruct (Hplain id b Eb) as [Hp _].
    destruct (b_Content b) eqn:Ec; try done. by destruct (Hp style).
Qed.

Lemma branch_settles n fuel : ∀ path x, chain m (st_rootId s) path x → (size m < fuel + length path)%nat → is_Some (m !! x) →
  normalizeTreeBranch md5hex NewObjectId fuel (s, n) x = Some (s, n).
Proof.
  induction fuel as [|fuel IH]; intros path x Hc Hf [o Ho].
  - destruct (chain_fresh m [st_rootId s] (cl_wf _ _ Hcl) (st_rootId s) ltac:(left) path x Hc) as (_ & Hn & Hdom).
    assert (length path ≤ size m)%nat; [|lia]. rewrite <- size_dom, <- (size_list_to_set (C:=gset string) path Hn). apply subseteq_size.
    intros p [b Hb]%elem_of_list_to_set%Hdom. by apply elem_of_dom.
  - cbn [normalizeTreeBranch fst]. rewrite Pick_view, (Hshow x o Ho).
    assert ((Z.of_nat (length (b_ChildrenIds o)) >? maxChildrenThreshold) = false) as ->.
    { pose proof (nd_short _ _ Hnd x o Ho). unfold maxChildrenThreshold. lia. }
    assert (∀ ids, (∀ c, c ∈ ids → c ∈ b_ChildrenIds o) →
      foldl (λ s chId, match s with None => None | Some s => normalizeTreeBranch md5hex NewObjectId fuel s chId end) (Some (s, n)) ids = Some (s, n)) as Hb.
    { intros ids. induction ids as [|c ids IHids]; intros Hin; [done|]. cbn [foldl].
      rewrite (IH (path ++ [x])); [apply IHids; intros; apply Hin; by right|eapply chain_child; [done..|apply Hin; by left]| |].
      - rewrite length_app. cbn [length]. lia.
      - eapply Hclo; [done|]. apply Hin. by left. }
    destruct (b_Content o) as [[]| | | | | | | | |]; try done; by apply Hb.
Qed.

Lemma tree_settles n fuel : (size m < fuel)%nat → view s !! headerId = None ∨ header_first (st_rootId s) m →
  normalizeTree md5hex NewObjectId fuel (s, n) = Some (s, n).
Proof.
  intros Hf Hh. destruct (nd_root _ _ Hnd) as (r & Hr & _). unfold normalizeTree.
  rewrite (branch_settles n fuel []); [|constructor|simpl; lia|by eexists]. rewrite !Pick_view, (Hshow _ _ Hr).
  destruct Hh as [->|(r' & rest & Hr' & Ec)]; [done|]. rewrite Hr in Hr'. injection Hr' as <-. rewrite Ec.
  by destruct (view s !! headerId).
Qed.
End idle.

(** Undo and redo prepare states of this kind when the two documents are plain. *)
Lemma normalize_settles m t :
  clean (st_rootId t) m → closed m → normal_doc (st_rootId t) m → (∀ id b, st_blocks t !! id = Some b → plain_block b) →
  NoDup (sc_children sc) → (size m < sc_fuel sc)%nat → view t !! headerId = None ∨ header_first (st_rootId t) m →
  settles (normalize md5hex NewObjectId Normalizable sc true) m t.
Proof.
  intros Hcl Hclo Hnd Hp Hn Hf Hh Hk Hshow. destruct (children_settle m t Hclo Hk Hshow Hp Hn) as (s & E & B & Ks & Vs & Ps & Ds).
  exists s. split_and!; [|done..]. pose proof B as [Br _].
  assert (view s !! headerId = None ∨ header_first (st_rootId s) m) as Hh'.
  { rewrite Br. destruct Hh as [Hh|Hh]; [left|by right]. destruct (view s !! headerId) eqn:Eh; [|done].
    destruct (proj1 (Ds headerId)) as [? ?]; [by eexists|congruence]. }
  unfold normalize. rewrite (size_settles m t), E by done. rewrite <- Br in Hcl, Hnd.
  by rewrite (custom_settles m), layout_settles, (tree_settles m).
Qed.
End plain.

Definition closed_b (m : Blocks) : bool :=
  forallb (λ kb, forallb (λ c, bool_decide (is_Some (m !! c))) (b_ChildrenIds kb.2)) (map_to_list m).

Lemma closed_b_spec m : closed_b m = true → closed m.
Proof.
  unfold closed_b. rewrite forallb_forall. intros H q b c Hb%elem_of_map_to_list%list_elem_of_In Hc.
  apply H in Hb. rewrite forallb_forall in Hb. apply list_elem_of_In, Hb, bool_decide_eq_true in Hc. done.
Qed.

(** The ids a walk visits. *)
Definition visited (s : State) : list string := iterated [] (Iterate s (λ l b, (b_Id b :: l, true)) []).

Definition clean_b (root : string) (m : Blocks) : bool :=
  wf_b m [root] && forallb (λ kb, bool_decide (kb.1 ∈ visited (NewDoc root m))) (map_to_list m).

Lemma NewDoc_view root m : view (NewDoc root m) = m.
Proof. unfold view. simpl. by rewrite (right_id_L ∅ (∪)). Qed.

Lemma visited_reach root m id : keyed m → id ∈ visited (NewDoc root m) → reach m root id.
Proof.
  intros Hk. unfold visited. destruct (Iterate_walk (NewDoc root m)) as (l & cyc & E & HI). rewrite HI.
  rewrite (fold_always (λ l b, b_Id b :: l)). rewrite NewDoc_view in E. cbn [finish].
  assert (∀ acc, id ∈ foldl (λ l b, b_Id b :: l) acc l → id ∈ acc ∨ ∃ b, b ∈ l ∧ b_Id b = id) as Hf.
  { clear E HI. induction l as [|b l IH]; intros acc Hin; [by left|]. cbn [foldl] in Hin.
    destruct (IH _ Hin) as [[->|?]%elem_of_cons|(x & Hx & Hid)]; [|by left|].
    - right. exists b. split; [by left|done].
    - right. exists x. split; [by right|done]. }
  intros Hin. assert (id ∈ foldl (λ l b, b_Id b :: l) [] l) as [?%elem_of_nil|(b & Hb & Hid)]%Hf by (by destruct cyc); [done|].
  destruct (walk_sound _ _ _ _ _ _ _ E Hb) as (i & Hi & Hr). rewrite (Hk i b Hi) in Hid. by subst.
Qed.

Lemma clean_b_spec root m : clean_b root m = true → clean root m.
Proof.
  unfold clean_b. intros [Hwf%wf_b_spec Hv]%andb_true_iff. split; [done|]. intros id b Hb.
  rewrite forallb_forall in Hv. apply elem_of_map_to_list, list_elem_of_In, Hv, bool_decide_eq_true in Hb.
  apply visited_reach; [|done]. intros i x. apply (wf_keys _ _ Hwf).
Qed.

(** A check of what [normalize_settles] asks for. *)
Definition settled_b (m : Blocks) (t : State) : bool :=
  clean_b (st_rootId t) m && closed_b m &&
  match m !! st_rootId t with Some r => bool_decide (b_Content r = CSmartblock) | None => false end &&
  forallb (λ kb, length (b_ChildrenIds kb.2) <=? 40)%nat (map_to_list m) &&
  forallb (λ kb, match b_Content kb.2 with CLayout _ => false | _ => true end) (map_to_list (st_blocks t)) &&
  bool_decide (view t !! headerId = None).

Lemma settled_b_spec md5hex NewObjectId sc m t :
  settled_b m t = true → NoDup (sc_children sc) → (size m < sc_fuel sc)%nat →
  settles (normalize md5hex NewObjectId (λ _, None) sc true) m t.
Proof.
  unfold settled_b. rewrite !andb_true_iff, !forallb_forall, bool_decide_eq_true. intros [[[[[Hcl Hclo] Hr] Hs] Hp] Hh] Hn Hf.
  apply normalize_settles; [by apply clean_b_spec|by apply closed_b_spec| | |done|done|by left].
  - split.
    + destruct (m !! st_rootId t) as [r|]; [|done]. exists r. by apply bool_decide_eq_true in Hr.
    + intros id b Hb%elem_of_map_to_list%list_elem_of_In. by apply Hs, Nat.leb_le in Hb.
  - intros id b Hb%elem_of_map_to_list%list_elem_of_In. apply Hp in Hb. simpl in Hb. split; [|done]. intros style E. by rewrite E in Hb.
Qed.

Module HistoryInst.
Import TreeInst ApplyInst.

(** The normalisation of [StateNormalize] with all blocks visited. *)
Definition all_ids : list string := ["root"; "a"; "b"; "c"; "x"].
Definition norm : State → option (res State) :=
  normalize (λ _, "op") (λ _, "id") (λ _, None)
    {| sc_children := all_ids; sc_custom := all_ids; sc_empty := all_ids; sc_rows := all_ids; sc_nextId := 0; sc_fuel := 10 |} true.

Definition result : action * Doc :=
  match apply_normalized [] no_snippet no_changes d with
  | Some (Ok (_, act, d1)) => (act, d1)
  | _ => (empty_action, d)
  end.

Definition h1 : @history Block (Details * Details) (list RelationLink * list RelationLink) (list string * list string) :=
  {| h_limit := 300; h_actions := [result.1]; h_pointer := 1; h_beforeState := zero_carriage; h_afterState := zero_carriage |}.

Lemma undo_redo_restore_witness :
  ∃ d2 d3 r1 r2, let Apply := apply [] no_snippet no_changes norm in
    Undo [] Apply result.2 h1 = Some (Ok r1, d2, with_pointer h1 0) ∧ st_blocks (dc_tree d2) = st_blocks doc ∧
    Redo [] Apply d2 (with_pointer h1 0) = Some (Ok r2, d3, h1) ∧ st_blocks (dc_tree d3) = st_blocks (dc_tree result.2).
Proof.
  destruct (apply_normalized [] no_snippet no_changes d) as [[[[msgs act] d1]|]|] eqn:E; [|vm_compute in E; discriminate..].
  assert (result = (act, d1)) as Hres by (unfold result; rewrite E; reflexivity).
  assert (act = result.1) as Hact by (rewrite Hres; reflexivity).
  assert (d1 = result.2) as Hd1 by (rewrite Hres; reflexivity).
  destruct (undo_redo_restore [] no_snippet no_changes norm d (st_blocks doc) base_layer msgs act d1 h1 (with_pointer h1 0))
    as (r1 & r2 & d2 & d3 & H1 & H2 & _ & H3 & H4 & _).
  - done.
  - apply d_ready.
  - apply clean_b_spec. vm_compute. reflexivity.
  - apply closed_b_spec. vm_compute. reflexivity.
  - eexists. vm_compute. reflexivity.
  - intros id o Ho%elem_of_map_to_list%list_elem_of_In. revert id o Ho.
    assert (Forall (λ kb, settle_file kb.2 = kb.2) (map_to_list (st_blocks doc))) as Hf by (vm_compute; repeat constructor).
    intros id o Ho. rewrite Forall_forall in Hf. by apply list_elem_of_In, Hf in Ho.
  - exact E.
  - rewrite Hd1. apply closed_b_spec. vm_compute. reflexivity.
  - rewrite Hact. vm_compute. reflexivity.
  - rewrite Hact, Hd1. apply settled_b_spec; [vm_compute; reflexivity|apply (bool_decide_unpack _); vm_compute; exact I|].
    apply Nat.ltb_lt. vm_compute. reflexivity.
  - rewrite Hact, Hd1. apply settled_b_spec; [vm_compute; reflexivity|apply (bool_decide_unpack _); vm_compute; exact I|].
    apply Nat.ltb_lt. vm_compute. reflexivity.
  - exists d2, d3, r1, r2. rewrite Hres. split_and!; [exact H1|exact H2|exact H3|exact H4].
Defined.
End HistoryInst.
