(* ===== verification/Basic.v ===== *)
(** * Editing blocks ([core/block/editor/basic/basic.go])

    The operations of the clients on the blocks of an object: creating, copying,
    moving, unlinking and replacing them.  They work on a state that the caller applies
    afterwards; applying it goes through the smartblock and is outside.

    [Duplicate] and [Move] take two states, which may be one and the same.  The state of
    the computation is the one written to; a source that is another state is passed
    along and returned, since copying a table out of it may change it. *)

From S2P Require Import Prelude Slice GoFloat StateTree StateChecks StateNormalize StateApply Table TableEditor.

Definition HeaderLayoutId : string := "header".
Definition TitleBlockID : string := "title".
Definition DescriptionBlockID : string := "description".
Definition FeaturedRelationsID : string := "featuredRelations".
Definition IsRequiredBlockId (id : string) : bool :=
  bool_decide (id = TitleBlockID) || bool_decide (id = DescriptionBlockID) || bool_decide (id = FeaturedRelationsID) || bool_decide (id = HeaderLayoutId).

Definition ErrSimpleBlockNotFound : string := "simple block not found".

(** [Validate] of a block, by its kind. *)
Class BlockValidate := validate_block : Block → option string.
(** What moving reads and writes of a text: whether it is an empty paragraph, and its colour. *)
Class TextColour := {
  tx_empty_paragraph : string → bool;
  tx_Color : string → string;
  tx_set_Color : string → string → string;
}.
(** [processFileBlock]: the file object of a copy in another space. *)
Class FileImport := import_file : Content → Content.

Section basic.
Context (md5hex : string → string) (NewObjectId : nat → string).
Context `{!BlockValidate, !TextColour, !FileImport}.
Abbreviation genID := (genID NewObjectId).
Abbreviation insertTo := (insertTo md5hex).

(** ** Creating and replacing *)

(** [restricted]: the error of the check of the object's restrictions. *)
Definition CreateBlock (restricted : option string) (target : string) (pos : BlockPosition) (block : Block) : M string :=
  _ ← match restricted with Some e => throw e | None => mret () end;
  '(target, pos) ← (if bool_decide (target = "") then mret (target, pos)
                    else c ← gets (λ s, IsChild s HeaderLayoutId target);
                         c ← some c;
                         mret (if (c : bool) then (HeaderLayoutId, PBottom) else (target, pos)));
  if bool_decide (b_Content block = CNone) then throw "no block content"
  else
    id ← genID;
    let b := with_children (with_id block id) [] in
    _ ← match validate_block b with Some e => throw e | None => mret () end;
    _ ← act (λ s, Add s b);
    _ ← insertTo target pos [id];
    mret id.

(** A block that comes with an id keeps it. *)
Definition Replace (id : string) (block : Block) : M string :=
  if IsRequiredBlockId id then throw "can not replace required block"
  else if bool_decide (b_Content block = CNone) then throw "no block content"
  else
    newId ← (if bool_decide (b_Id block = "") then genID else mret (b_Id block));
    let b := with_children (with_id block newId) [] in
    _ ← match validate_block b with Some e => throw e | None => mret () end;
    _ ← act (λ s, Add s b);
    _ ← insertTo id PReplace [newId];
    mret newId.

(** ** Copying *)

(** A computation on the source. *)
Definition on_src {A} (src : option State) (m : M A) : M (A * option State) :=
  match src with
  | None => a ← m; mret (a, None)
  | Some s0 => λ g,
      match m (s0, g.2) with
      | None => None
      | Some (Err e, (_, n)) => Some (Err e, (g.1, n))
      | Some (Ok a, (s0, n)) => Some (Ok (a, Some s0), (g.1, n))
      end
  end.
Definition src_of (src : option State) (s : State) : State := default s src.

(** The copies of the children take their places one by one. *)
Fixpoint copy_children (copy : option State → string → M (string * option State)) (src : option State) (newId : string) (i : nat)
    (ids : list string) : M (option State) :=
  match ids with
  | [] => mret src
  | childrenId :: ids =>
      '(cid, src) ← copy src childrenId;
      row ← read (top newId);
      _ ← set_children (top newId) (<[i := cid]> (b_ChildrenIds row));
      copy_children copy src newId (S i) ids
  end.
(** The recursion follows the tree of the source; on a cycle it does not end. *)
Fixpoint copyBlocks (fuel : nat) (other_space : bool) (src : option State) (sourceId : string) : M (string * option State) :=
  match fuel with
  | O => panic
  | S fuel =>
      '(b, src) ← on_src src (gets (λ s, Pick s sourceId));
      match b with
      | None => throw ErrSimpleBlockNotFound
      | Some b =>
          if is_table b then
            '((newId, _, blocks), src) ← on_src src (TableEditor.Duplicate NewObjectId sourceId);
            _ ← for_each (λ b, _ ← act (λ s, Add s b); mret ()) blocks;
            mret (newId, src)
          else
            newId ← genID;
            _ ← act (λ s, Add s (with_id b newId));
            src ← copy_children (copyBlocks fuel other_space) src newId 0 (b_ChildrenIds b);
            _ ← match b_Content b with
                | CFile _ _ => if other_space then modify (λ s, write s (top newId) (λ b, set_content b (import_file (b_Content b)))) else mret ()
                | _ => mret ()
                end;
            mret (newId, src)
      end
  end.
Fixpoint duplicate_all (other_space : bool) (src : option State) (target : string) (pos : BlockPosition) (ids : list string) : M (list string * option State) :=
  match ids with
  | [] => mret ([], src)
  | id :: ids =>
      fuel ← gets (λ s, iter_fuel (src_of src s));
      '(copyId, src) ← copyBlocks fuel other_space src id;
      _ ← insertTo target pos [copyId];
      '(newIds, src) ← duplicate_all other_space src copyId PBottom ids;
      mret (copyId :: newIds, src)
  end.
Definition Duplicate (other_space : bool) (src : option State) (target : string) (pos : BlockPosition) (ids : list string) : M (list string * option State) :=
  roots ← gets (λ s, SelectRoots (src_of src s) ids);
  roots ← some roots;
  duplicate_all other_space src target pos roots.

(** ** Unlinking and moving *)

(** Required blocks are skipped; there is an error when nothing was unlinked. *)
Definition Unlink_ids (ids : list string) : M () :=
  some_unlinked ← fold_each (λ acc id,
    if IsRequiredBlockId id then mret acc else ok ← act (λ s, StateTree.Unlink s id); mret ((ok : bool) || acc)) false ids;
  if (some_unlinked : bool) then mret () else throw ErrSimpleBlockNotFound.

(** The loop over the blocks to move; the first one that exists is copied up. *)
Fixpoint take_out (target : string) (candidate : option string) (ids : list string) : M (option string) :=
  match ids with
  | [] => mret candidate
  | id :: ids =>
      b ← gets (λ s, Pick s id);
      match b with
      | None => take_out target candidate ids
      | Some b =>
          candidate ← match candidate with
                      | Some c => mret (Some c)
                      | None => o ← act (λ s, Get s id); mret (b_Id <$> o)
                      end;
          if bool_decide (target ∈ b_ChildrenIds b) then throw "cannot move block to its child"
          else _ ← act (λ s, StateTree.Unlink s id); take_out target candidate ids
      end
  end.
(** A block that replaces an empty paragraph takes its colours where it has none. *)
Definition recolour (target : Block) (b : Block) : Block :=
  let b := if bool_decide (b_BackgroundColor b = "") then set_background b (b_BackgroundColor target) else b in
  match b_Content b, b_Content target with
  | CText t, CText t0 => if bool_decide (tx_Color t = "") then set_content b (CText (tx_set_Color t (tx_Color t0))) else b
  | _, _ => b
  end.
Definition lands_on_paragraph (target : Block) (pos : BlockPosition) : bool :=
  match b_Content target with CText t => tx_empty_paragraph t && bool_decide (pos = PInnerFirst) | _ => false end.

(** Where the blocks go: below the header if the target is there, and not into a table. *)
Definition aim (target : string) (pos : BlockPosition) (ids : list string) : M (string * BlockPosition) :=
  '(target, pos) ← (if bool_decide (target = "") then mret (target, pos)
                    else c ← gets (λ s, IsChild s HeaderLayoutId target);
                         c ← some c;
                         mret (if (c : bool) || bool_decide (target = HeaderLayoutId) then (HeaderLayoutId, PBottom) else (target, pos)));
  CheckTableBlocksMove target pos ids.

(** Within one state.  Without a candidate an empty paragraph as target is a panic. *)
Definition Move (target : string) (pos : BlockPosition) (ids : list string) : M () :=
  if existsb IsRequiredBlockId ids then throw "can not move required block"
  else
    '(target, pos) ← aim target pos ids;
    candidate ← take_out target None ids;
    '(target, pos) ← (if bool_decide (target = "") then root ← gets st_rootId; mret (root, PInner) else mret (target, pos));
    t ← act (λ s, Get s target);
    match t with
    | None => throw "target block not found"
    | Some t =>
        pos ← (if lands_on_paragraph t pos then
                 c ← some candidate;
                 _ ← modify (λ s, write s (top c) (recolour t));
                 mret PReplace
               else mret pos);
        insertTo target pos ids
    end.
(** Between two states: the blocks are copied and unlinked in the source, which is
    returned. *)
Definition Move_between (other_space : bool) (src : State) (target : string) (pos : BlockPosition) (ids : list string) : M State :=
  if existsb IsRequiredBlockId ids then throw "can not move required block"
  else
    '(_, src') ← Duplicate other_space (Some src) target pos ids;
    mret (foldl (λ s id, (StateTree.Unlink s id).2) (default src src') ids).

(** ** Fields *)

Definition SetFields (fields : list (string * gmap string FieldValue)) : M () :=
  for_each (λ '(id, f),
    b ← act (λ s, Get s id);
    match b with Some _ => modify (λ s, write s (top id) (λ b, set_fields b f)) | None => mret () end) fields.
(** [f] is applied to every block until it fails; what it did before is kept. *)
Definition Update (f : Block → Block * option string) (ids : list string) : M () :=
  for_each (λ id,
    b ← act (λ s, Get s id);
    match b with
    | None => throw ErrSimpleBlockNotFound
    | Some b => _ ← modify (λ s, write s (top id) (λ b, (f b).1)); match (f b).2 with Some e => throw e | None => mret () end
    end) ids.
End basic.
