(* ===== verification/BasicMove.v ===== *)
(** * Moving blocks within a document *)

From S2P Require Import Prelude Slice GoFloat StateTree StateChecks StateNormalize StateApply Changes ChangeReplay Table TableEditor TableView TableColumns Basic.

Section move.
Context (md5hex : string → string) `{!TextColour}.

(** The document without the moved blocks, the first of them in its new colours, and
    the position in which they are inserted. *)
Definition taken (V : Blocks) (ids : list string) (c : string) (target : Block) (pos : BlockPosition) : Blocks :=
  if lands_on_paragraph target pos then alter (recolour target) c (detach ids V) else detach ids V.
Definition landing (target : Block) (pos : BlockPosition) : BlockPosition := if lands_on_paragraph target pos then PReplace else pos.
(** The tree below [x] is no longer reached, and nothing else is lost. *)
Definition loses_only (V V' : Blocks) (root x : string) : Prop :=
  (∀ q, reach V x q → ¬ reach V' root q) ∧ (∀ q, reach V root q → ¬ reach V x q → reach V' root q).

(** ** Taking the blocks out *)

Lemma Unlink_keeps_top s x i : is_Some (st_blocks s !! i) → is_Some (st_blocks (StateTree.Unlink s x).2 !! i).
Proof.
  intros Hi. unfold StateTree.Unlink, GetParentOf. destruct (PickParentOf s x) as [bp|]; [|done]. pose proof (Get_same_view s (b_Id bp)) as (_ & _ & Hk).
  destruct Hi as [b Hb]. apply Hk in Hb. destruct (Get s (b_Id bp)) as [[b'|] s1]; cbn [fst snd] in *; [|by exists b].
  unfold removeChildren, setChildrenIds. destruct (st_blocks s1 !! b_Id b') as [b1|]; [|by exists b]. cbn [with_blocks st_blocks].
  destruct (decide (i = b_Id b')) as [->|Hne]; [rewrite lookup_insert_eq|rewrite lookup_insert_ne by done]; by eexists.
Qed.
Lemma unlink_all_keeps_top ids : ∀ s i, is_Some (st_blocks s !! i) → is_Some (st_blocks (unlink_all s ids) !! i).
Proof. induction ids as [|x ids IH]; intros s i Hi; [done|]. apply IH. by apply Unlink_keeps_top. Qed.

Section take_out.
Context (V : Blocks) (root : string) (Hwf : wf V [root]) (Hall : all_reach V root) (t c : string) (n : nat).

Lemma take_out_run ids : ∀ dn s,
  st_rootId s = root → view s = detach dn V → wf (view s) (root :: dn) → NoDup (dn ++ ids) →
  (∀ x, x ∈ ids → x ≠ root ∧ is_Some (V !! x)) → (∀ x y, x ∈ dn ++ ids → y ∈ ids → x ≠ y → ¬ reach V x y) →
  (∀ x b, x ∈ ids → V !! x = Some b → t ∉ b_ChildrenIds b) →
  take_out t (Some c) ids (s, n) = Some (Ok (Some c), (unlink_all s ids, n)).
Proof.
  induction ids as [|x ids IH]; intros dn s Hroot Hv Hw Hn Hin Hsep Ht; [done|]. cbn [take_out]. unfold mbind, M_bind, gets, act. cbn [fst snd].
  destruct (Hin x ltac:(left)) as [Hxr [b Hb]]. rewrite Pick_view, Hv, detach_lookup, Hb. cbn [fmap option_fmap option_map with_children b_ChildrenIds mret M_ret].
  rewrite bool_decide_eq_false_2.
  2:{ intros [_ Hc]%list_elem_of_filter. by apply (Ht x b ltac:(left)). }
  destruct (unlink_all_spec V root Hwf Hall [x] dn s Hroot Hv Hw) as (V1 & W1 & B1).
  - apply NoDup_app in Hn as (H1 & H2 & [H3 H4]%NoDup_cons). apply NoDup_app. split_and!; [done| |by apply NoDup_singleton].
    intros y Hy ->%list_elem_of_singleton. apply (H2 x Hy). left.
  - intros y ->%list_elem_of_singleton. apply Hin. left.
  - intros y z Hy ->%list_elem_of_singleton. apply Hsep; [|left]. apply elem_of_app in Hy as [?| ->%list_elem_of_singleton]; apply elem_of_app; [by left|right; left].
  - cbn [unlink_all foldl] in V1, W1, B1. change (unlink_all s (x :: ids)) with (unlink_all (StateTree.Unlink s x).2 ids).
    destruct (StateTree.Unlink s x) as [ok s1] eqn:Eu. cbn [fst snd] in *. rewrite Eu. apply (IH (dn ++ [x])).
    + by rewrite (proj1 B1).
    + done.
    + done.
    + by rewrite <- (assoc_L (++)).
    + intros y Hy. apply Hin. by right.
    + intros y z. rewrite <- (assoc_L (++)). intros Hy Hz. apply Hsep; [done|by right].
    + intros y by' Hy. apply Ht. by right.
Qed.
End take_out.

(** The first block is copied up before it is unlinked. *)
Lemma take_out_first s n t c ids b : view s !! c = Some b → b_Id b = c →
  ∃ s1, take_out t None (c :: ids) (s, n) = take_out t (Some c) (c :: ids) (s1, n) ∧ same_view s s1 ∧ is_Some (st_blocks s1 !! c).
Proof.
  intros Hb Hid. destruct (Get_some s c b Hb) as (s1 & E & S1 & T1). exists s1. split; [|split; [done|by exists b]].
  cbn [take_out]. unfold mbind, M_bind, gets, act. cbn [fst snd]. rewrite !Pick_view, (proj1 S1), Hb. cbv beta iota. cbn [fst snd]. rewrite E. cbn [fst snd fmap option_fmap option_map mret M_ret]. by rewrite Hid.
Qed.

Lemma recolour_frame bt b : b_Id (recolour bt b) = b_Id b ∧ b_ChildrenIds (recolour bt b) = b_ChildrenIds b.
Proof.
  unfold recolour. set (b' := if bool_decide (b_BackgroundColor b = "") then _ else b).
  assert (b_Id b' = b_Id b ∧ b_ChildrenIds b' = b_ChildrenIds b) as [<- <-] by (by subst b'; case_bool_decide).
  destruct (b_Content b'), (b_Content bt); try done. by case_bool_decide.
Qed.


(** ** A block moved into its own subtree *)

Lemma lost_subtree V root x t b ids : wf V [root] → all_reach V root → x ≠ root → reach V x t → is_Some (V !! x) →
  let W := <[t:=with_children b ids]> (detach [x] V) in
  (∀ q, reach W root q → ¬ reach V x q) ∧ (∀ q, reach V root q → ¬ reach V x q → reach W root q).
Proof.
  intros Hwf Hall Hx Ht [bx Hbx] W. split.
  - induction 1 as [|p bp c Hp IH Hb Hc].
    + intros Hr. inversion Hr as [|p b0 ? Hp Hb Hc]; subst; [done|]. apply (wf_root _ _ Hwf p b0 root); [|done|left|done].
      exists root. split; [left|by eapply Hall].
    + assert (p ≠ t) as Hpt by (by intros ->). subst W. rewrite lookup_insert_ne, detach_lookup in Hb by done.
      destruct (V !! p) as [b0|] eqn:Ep; [|done]. injection Hb as <-. cbn [with_children b_ChildrenIds] in Hc. apply list_elem_of_filter in Hc as [Hcx Hc].
      intros Hr. inversion Hr as [|p' b' ? Hp' Hb' Hc']; subst; [apply Hcx; left|]. apply IH. by rewrite (listed_once V root Hwf Hall p b0 p' b' c).
  - induction 1 as [|p bp c Hp IH Hb Hc]; intros Hno; [constructor|]. assert (¬ reach V x p) as Hnp by (intros Hr; apply Hno; by eapply reach_child).
    eapply reach_child; [by apply IH| |].
    + subst W. rewrite lookup_insert_ne by (by intros ->). by rewrite detach_lookup, Hb.
    + cbn [with_children b_ChildrenIds]. apply list_elem_of_filter. split; [|done]. intros ->%list_elem_of_singleton. apply Hno. constructor.
Qed.

(** C19. Only the children of a block are refused as targets: moving a block inside a
    block further below it ends without an error and loses its whole subtree, and
    nothing else. *)
Theorem Move_into_own_subtree s n x t bx bt :
  let V := view s in
  let root := st_rootId s in
  wf V [root] → all_reach V root → x ≠ root → IsRequiredBlockId x = false → V !! x = Some bx → V !! t = Some bt →
  reach V x t → t ≠ x → t ∉ b_ChildrenIds bx → t ≠ "" → aim t PInner [x] (s, n) = Some (Ok (t, PInner), (s, n)) →
  ∃ s', Move md5hex t PInner [x] (s, n) = Some (Ok (), (s', n)) ∧ loses_only V (view s') root x.
Proof.
  intros V root Hwf Hall Hx Hreq Hbx Hbt Hxt Hne Hkids Ht0 Haim.
  destruct (take_out_first s n t x [] bx Hbx (wf_keys _ _ Hwf x bx Hbx)) as (s0 & E0 & S0 & _). pose proof S0 as (V0 & B0 & _).
  assert (view s0 = detach [] V) as Hv0 by (rewrite V0, detach_none; [done|by intros q b y _ ?%elem_of_nil]).
  assert (∀ y, y ∈ [x] → y ≠ root ∧ is_Some (V !! y)) as Hin by (by intros y ->%list_elem_of_singleton).
  assert (∀ y z, y ∈ [x] → z ∈ [x] → y ≠ z → ¬ reach V y z) as Hsep by (by intros y z ->%list_elem_of_singleton ->%list_elem_of_singleton).
  assert (wf (view s0) [root]) as Hwf0 by (by rewrite V0). pose proof (NoDup_singleton x) as Hnd.
  rewrite (take_out_run V root Hwf Hall t x n [x] [] s0) in E0; [|by rewrite (proj1 B0)|done..|by intros y b ->%list_elem_of_singleton; rewrite Hbx; intros [= <-]].
  destruct (unlink_all_spec V root Hwf Hall [x] [] s0) as (V1 & W1 & B1); [by rewrite (proj1 B0)|done..|]. cbn [app] in V1, W1.
  set (s1 := unlink_all s0 [x]) in *. clearbody s1. set (bt2 := with_children bt (filter (λ y, y ∉ [x]) (b_ChildrenIds bt))).
  assert (view s1 !! t = Some bt2) as Hvt by (by rewrite V1, detach_lookup, Hbt). destruct (Get_some s1 t bt2 Hvt) as (s2 & E2 & S2 & T2).
  assert (view s2 !! t = Some bt2) as Hvt2 by (by rewrite (proj1 S2)). destruct (Get_some s2 t bt2 Hvt2) as (s3 & E3 & S3 & T3).
  assert (b_Id bt2 = t) as Eid by (exact (wf_keys _ _ Hwf t bt Hbt)).
  exists (setChildrenIds s3 t (b_ChildrenIds bt2 ++ [x])). split.
  - unfold Move. cbn [existsb]. rewrite Hreq. unfold mbind at 1, M_bind at 1. cbn [orb]. rewrite Haim. unfold mbind at 1, M_bind at 1. rewrite E0.
    unfold mbind at 1, M_bind at 1. rewrite bool_decide_eq_false_2 by done. cbn [mret M_ret]. unfold mbind at 1, M_bind at 1, act at 1. cbn [fst snd]. rewrite E2.
    unfold mbind at 1, M_bind at 1. replace (lands_on_paragraph bt2 PInner) with false by (unfold lands_on_paragraph; destruct (b_Content bt2); try done; by rewrite andb_false_r).
    cbn [mret M_ret]. unfold insertTo, InsertTo. rewrite !bool_decide_eq_false_2 by done. cbn [fst snd]. rewrite E3. cbn [orb negb].
    rewrite bool_decide_eq_true_2 by done. cbn [orb negb]. rewrite contains_id_false by (by intros ->%list_elem_of_singleton). cbn [insert_at]. unfold prependChildrenIds. by rewrite Eid, T3.
  - destruct (setChildrenIds_view s3 t bt2 (b_ChildrenIds bt2 ++ [x]) T3) as (V4 & _ & _). rewrite V4, (proj1 S3), (proj1 S2), V1.
    destruct (lost_subtree V root x t bt2 (b_ChildrenIds bt2 ++ [x]) Hwf Hall Hx Hxt ltac:(by exists bx)) as [H1 H2]. split; [|done]. intros q Hq Hr. by apply (H1 q).
Qed.
End move.
