(* ===== verification/BasicCopy.v ===== *)
(** * Copying blocks within a document

    [plan] is what [copyBlocks] does to a tree, as a function: the new blocks with their
    fresh ids.  The computation adds exactly these blocks ([copy_run]); they form a tree
    of their own beside the document. *)

From S2P Require Import Prelude Slice GoFloat StateTree StateChecks StateNormalize StateApply Table TableEditor TableView Basic.

Section copy.
Context (md5hex : string → string) (Obj : nat → string) (Hinj : ∀ i j, Obj i = Obj j → i = j).
Context `{!TextColour, !FileImport}.

(** ** The new blocks *)

Section plan.
Context (V : Blocks).

(** The next number, the ids of the copies of the listed blocks, and all new blocks. *)
Fixpoint plan_children (plan : string → nat → nat * list Block) (ids : list string) (n : nat) : nat * list string * list Block :=
  match ids with
  | [] => (n, [], [])
  | x :: ids =>
      let '(m, bs) := plan x n in
      let '(m', ys, bs') := plan_children plan ids m in
      (m', Obj n :: ys, bs' ++ bs)
  end.
(** A block before the ones below it; its copy gets the first number. *)
Fixpoint plan (fuel : nat) (x : string) (n : nat) : nat * list Block :=
  match fuel with
  | O => (n, [])
  | S fuel =>
      match V !! x with
      | None => (n, [])
      | Some b =>
          let '(m, ys, bs) := plan_children (plan fuel) (b_ChildrenIds b) (S n) in
          (m, with_children (with_id b (Obj n)) ys :: bs)
      end
  end.

(** The tree below [x] has at most [fuel] levels, and all of its blocks exist. *)
Inductive copyable : nat → string → Prop :=
| cp_intro fuel x b : V !! x = Some b → is_table b = false → (∀ c, c ∈ b_ChildrenIds b → copyable fuel c) → copyable (S fuel) x.

(** The ids are the numbers in turn; every new block but the first is listed once. *)
Lemma plan_spec fuel : ∀ x n, copyable fuel x →
  let '(m, bs) := plan fuel x n in
  (n < m)%nat ∧ (b_Id <$> bs) ≡ₚ (Obj <$> seq n (m - n)) ∧ concat (map b_ChildrenIds bs) ≡ₚ (Obj <$> seq (S n) (m - S n)) ∧
  ∃ b, V !! x = Some b ∧ ∃ ys rest, bs = with_children (with_id b (Obj n)) ys :: rest.
Proof.
  induction fuel as [|fuel IH]; intros x n Hx; inversion Hx as [f x' b Hb Ht Hch]; subst. cbn [plan]. rewrite Hb.
  assert (∀ ids k, (∀ c, c ∈ ids → copyable fuel c) →
    let '(m, ys, bs) := plan_children (plan fuel) ids k in
    (k ≤ m)%nat ∧ (b_Id <$> bs) ≡ₚ (Obj <$> seq k (m - k)) ∧ ys ++ concat (map b_ChildrenIds bs) ≡ₚ (Obj <$> seq k (m - k))) as Hl.
  { clear Hb Ht Hch Hx. induction ids as [|c ids IHl]; intros k Hc; cbn [plan_children].
    - rewrite Nat.sub_diag. split_and!; [lia|done|done].
    - specialize (IH c k (Hc c ltac:(left))). destruct (plan fuel c k) as [m bs]. destruct IH as (Hkm & Hi & Hcs & _).
      specialize (IHl m (λ y Hy, Hc y ltac:(by right))). destruct (plan_children (plan fuel) ids m) as [[m' ys] bs']. destruct IHl as (Hmm & Hi' & Hcs').
      assert (seq k (m' - k) = seq k (m - k) ++ seq m (m' - m)) as Eseq by (replace (m' - k)%nat with ((m - k) + (m' - m))%nat by lia; rewrite seq_app; do 2 f_equal; lia). split_and!; [lia| |].
      + rewrite fmap_app, Eseq, fmap_app, Hi, Hi'. apply Permutation_app_comm.
      + rewrite map_app, concat_app, Eseq, fmap_app, <- Hcs'. replace (seq k (m - k)) with (k :: seq (S k) (m - S k)) by (replace (m - k)%nat with (S (m - S k)) by lia; done).
        cbn [fmap list_fmap app]. constructor. fold (Obj <$> seq (S k) (m - S k)). rewrite <- Hcs, (assoc_L (++)). apply Permutation_app_comm. }
  specialize (Hl (b_ChildrenIds b) (S n) Hch). destruct (plan_children (plan fuel) (b_ChildrenIds b) (S n)) as [[m ys] bs]. destruct Hl as (Hnm & Hi & Hcs).
  split_and!; [lia| | |].
  - replace (m - n)%nat with (S (m - S n)) by lia. cbn [seq fmap list_fmap]. by f_equiv.
  - exact Hcs.
  - exists b. split; [done|]. by exists ys, bs.
Qed.
End plan.

(** ** The computation adds them *)

Definition new_map (bs : list Block) : Blocks := list_to_map ((λ b, (b_Id b, b)) <$> bs).
Definition add_all (s : State) (bs : list Block) : State := with_blocks s (new_map bs ∪ st_blocks s).
(** All new ids have numbers from [n] to below [m]. *)
Definition numbered_in (n m : nat) (bs : list Block) : Prop := ∀ b, b ∈ bs → ∃ k, (n ≤ k < m)%nat ∧ b_Id b = Obj k.

Lemma new_map_None bs q : (∀ b, b ∈ bs → b_Id b ≠ q) → new_map bs !! q = None.
Proof.
  intros Hno. apply not_elem_of_list_to_map. intros ([i b'] & -> & (b & [= -> ->] & Hb)%list_elem_of_fmap)%list_elem_of_fmap. by apply (Hno b).
Qed.
Lemma new_map_number n m bs k : numbered_in n m bs → (k < n ∨ m ≤ k)%nat → new_map bs !! Obj k = None.
Proof. intros Hb Hk. apply new_map_None. intros b (j & Hj & ->)%Hb ->%Hinj. lia. Qed.
Lemma new_map_app l1 l2 : new_map (l1 ++ l2) = new_map l1 ∪ new_map l2.
Proof. unfold new_map. by rewrite fmap_app, list_to_map_app. Qed.
Lemma view_add_all s bs : view (add_all s bs) = new_map bs ∪ view s.
Proof. unfold add_all. rewrite view_with_blocks. by rewrite <- (assoc_L (∪)). Qed.
Lemma plan_numbered V fuel x n : copyable V fuel x → numbered_in n (plan V fuel x n).1 (plan V fuel x n).2.
Proof.
  intros Hx. pose proof (plan_spec V fuel x n Hx) as Hp. destruct (plan V fuel x n) as [m bs]. destruct Hp as (Hnm & Hi & _). cbn [fst snd].
  intros b Hb. assert (b_Id b ∈ Obj <$> seq n (m - n)) as (k & E & Hk%elem_of_seq)%list_elem_of_fmap by (rewrite <- Hi; by apply list_elem_of_fmap_2). exists k. split; [lia|done].
Qed.

(** A block that was added is read and written in the top layer. *)
Lemma add_all_write s P bs bs' k n m ids ids' : b_Id P = Obj k → numbered_in n m bs' → (k < n)%nat →
  deref (add_all (add_all s (with_children P ids :: bs)) bs') (top (Obj k)) = Some (with_children P ids) ∧
  write (add_all (add_all s (with_children P ids :: bs)) bs') (top (Obj k)) (λ b, with_children b ids') = add_all s (with_children P ids' :: bs' ++ bs).
Proof.
  intros HP Hbs Hk. pose proof (new_map_number n m bs' k Hbs ltac:(lia)) as Hno. split.
  - unfold deref. cbn. rewrite lookup_union_r by done. unfold new_map. cbn. rewrite HP. by rewrite <- insert_union_l, lookup_insert_eq.
  - unfold write, add_all, with_blocks. cbn [top p_layer p_id st_rootId st_blocks st_parents st_changes st_ignoreIds]. f_equal. apply map_eq. intros q.
    assert (∀ i, new_map (with_children P i :: bs) = <[Obj k:=with_children P i]> (new_map bs)) as E by (intros i; unfold new_map; cbn; by rewrite HP).
    assert (∀ i L, new_map (with_children P i :: L) = <[Obj k:=with_children P i]> (new_map L)) as E' by (intros i L; unfold new_map; cbn; by rewrite HP).
    rewrite E, E', new_map_app. destruct (decide (q = Obj k)) as [->|Hne].
    + rewrite lookup_alter_eq, lookup_union_r, <- !insert_union_l, !lookup_insert_eq by done. done.
    + rewrite lookup_alter_ne by done. rewrite <- !insert_union_l, lookup_union, !lookup_insert_ne, <- lookup_union by done. by rewrite (assoc_L (∪)).
Qed.
Abbreviation copyBlocks := (copyBlocks Obj).
(** The blocks of the source are seen, and the ids to come are free. *)
Definition ready (V : Blocks) (s : State) (n : nat) : Prop :=
  (∀ q b, V !! q = Some b → view s !! q = Some b) ∧ (∀ k, (n ≤ k)%nat → view s !! Obj k = None).

Lemma ready_add V s n m bs : ready V s n → (n ≤ m)%nat → numbered_in n m bs → ready V (add_all s bs) m.
Proof.
  intros [H1 H2] Hnm Hbs. split.
  - intros q b Hb. rewrite view_add_all, lookup_union_r; [by apply H1|]. apply new_map_None. intros c (k & Hk & E)%Hbs Eq.
    rewrite <- Eq, E in Hb. apply H1 in Hb. rewrite H2 in Hb by lia. done.
  - intros k Hk. rewrite view_add_all, lookup_union_r by (eapply new_map_number; [exact Hbs|lia]). apply H2. lia.
Qed.

Section run.
Context (V : Blocks) (fuel : nat).
Context (IH : ∀ x n s, copyable V fuel x → ready V s n →
  copyBlocks fuel false None x (s, n) = Some (Ok (Obj n, None), (add_all s (plan V fuel x n).2, (plan V fuel x n).1))).

Lemma children_run s n P ids : ∀ pre bs k, b_Id P = Obj n → (∀ c, c ∈ ids → copyable V fuel c) → (n < k)%nat →
  numbered_in n k (with_children P (pre ++ ids) :: bs) → ready V s n →
  let '(k', ys, bs') := plan_children (plan V fuel) ids k in
  copy_children (copyBlocks fuel false) None (Obj n) (length pre) ids (add_all s (with_children P (pre ++ ids) :: bs), k) =
  Some (Ok None, (add_all s (with_children P (pre ++ ys) :: bs' ++ bs), k')).
Proof.
  induction ids as [|c ids IHl]; intros pre bs k HP Hc Hk Hbs Hr; [done|]. cbn [plan_children copy_children].
  pose proof (Hc c ltac:(left)) as Hcc. pose proof (plan_spec V fuel c k Hcc) as Hp. pose proof (plan_numbered V fuel c k Hcc) as Hnum.
  pose proof (IH c k _ Hcc (ready_add V s n k _ Hr ltac:(lia) Hbs)) as E. destruct (plan V fuel c k) as [m bsc]. destruct Hp as (Hkm & _). cbn [fst snd] in *.
  destruct (add_all_write s P bs bsc n k m (pre ++ c :: ids) (pre ++ Obj k :: ids) HP Hnum Hk) as [Hd Hw].
  specialize (IHl (pre ++ [Obj k]) (bsc ++ bs) m HP (λ y Hy, Hc y ltac:(by right)) ltac:(lia)). rewrite <- !(assoc_L (++)) in IHl. cbn [app] in IHl.
  assert (numbered_in n m (with_children P (pre ++ Obj k :: ids) :: bsc ++ bs)) as Hbs'.
  { intros b [->|[Hb|Hb]%elem_of_app]%elem_of_cons.
    - exists n. split; [lia|done].
    - destruct (Hnum b Hb) as (j & ? & ?). exists j. split; [lia|done].
    - destruct (Hbs b ltac:(by right)) as (j & ? & ?). exists j. split; [lia|done]. }
  specialize (IHl Hbs' Hr). destruct (plan_children (plan V fuel) ids m) as [[k' ys] bs'] eqn:Epl. cbv beta iota in IHl |- *. rewrite <- (app_assoc pre) in IHl. rewrite <- (app_assoc bs'). cbn [app] in IHl.
  unfold mbind at 1, M_bind at 1. rewrite E. unfold mbind at 1, M_bind at 1. rewrite (read_run _ m (top (Obj n)) _ Hd). unfold mbind at 1, M_bind at 1.
  unfold set_children, modify. cbn [fst snd with_children b_ChildrenIds]. replace (<[length pre:=Obj k]> (pre ++ c :: ids)) with (pre ++ Obj k :: ids) by (rewrite <- (Nat.add_0_r (length pre)), insert_app_r; done).
  rewrite Hw. rewrite length_app in IHl. cbn [length] in IHl. replace (length pre + 1)%nat with (S (length pre)) in IHl by lia. exact IHl.
Qed.
End run.

Lemma copy_run V fuel : ∀ x n s, copyable V fuel x → ready V s n →
  copyBlocks fuel false None x (s, n) = Some (Ok (Obj n, None), (add_all s (plan V fuel x n).2, (plan V fuel x n).1)).
Proof.
  induction fuel as [|fuel IH]; intros x n s Hx Hr; inversion Hx as [f x' b Hb Ht Hch]; subst.
  pose proof (children_run V fuel IH s n (with_id b (Obj n)) (b_ChildrenIds b) [] [] (S n) eq_refl Hch ltac:(lia)) as Hc.
  assert (numbered_in n (S n) [with_children (with_id b (Obj n)) ([] ++ b_ChildrenIds b)]) as Hn.
  { intros c ->%list_elem_of_singleton. exists n. split; [lia|done]. }
  specialize (Hc Hn Hr). cbn [plan]. rewrite Hb. destruct (plan_children (plan V fuel) (b_ChildrenIds b) (S n)) as [[m ys] bs]. cbn [app fst snd] in *. rewrite app_nil_r in Hc.
  destruct Hr as [Hv Hf]. cbn [Basic.copyBlocks]. unfold mbind at 1, M_bind at 1. unfold on_src at 1, gets, mbind, M_bind. cbn [fst snd mret M_ret].
  rewrite Pick_view, (Hv x b Hb), Ht. unfold Table.genID, act. cbn [fst snd].
  assert (Add s (with_id b (Obj n)) = (true, add_all s [with_children (with_id b (Obj n)) (b_ChildrenIds b)])) as ->.
  { unfold Add. rewrite Pick_view. change (b_Id (with_id b (Obj n))) with (Obj n). rewrite Hf by done. unfold add_all, new_map. cbn. f_equal. f_equal.
    rewrite <- insert_union_l, (left_id_L ∅ (∪)). done. }
  cbn [fst snd length] in *. rewrite Hc. by destruct (b_Content b).
Qed.

(** ** The copies are a tree of their own *)

(** The tree below [y] has the blocks of the tree below [x], but for the ids. *)
Inductive tree_copy (V W : Blocks) : string → string → Prop :=
| tc_intro x y b ys : V !! x = Some b → W !! y = Some (with_children (with_id b y) ys) →
    Forall2 (tree_copy V W) (b_ChildrenIds b) ys → tree_copy V W x y.

Lemma plan_copy V W fuel : ∀ x n, copyable V fuel x → (∀ b, b ∈ (plan V fuel x n).2 → W !! b_Id b = Some b) → tree_copy V W x (Obj n).
Proof.
  induction fuel as [|fuel IH]; intros x n Hx HW; inversion Hx as [f x' b Hb Ht Hch]; subst. cbn [plan] in HW. rewrite Hb in HW.
  destruct (plan_children (plan V fuel) (b_ChildrenIds b) (S n)) as [[m ys] bs] eqn:Ep. cbn [snd] in HW.
  apply (tc_intro V W x (Obj n) b ys Hb (HW _ ltac:(left))). assert (∀ b, b ∈ bs → W !! b_Id b = Some b) as HW' by (intros c Hc; apply HW; by right). clear HW Hb Hx.
  revert ys bs m Ep HW'. generalize (S n) as k. induction (b_ChildrenIds b) as [|c ids IHl]; intros k ys bs m; cbn [plan_children]; [by intros [= <- <- <-]|].
  destruct (plan V fuel c k) as [m1 bs1] eqn:E1. destruct (plan_children (plan V fuel) ids m1) as [[m2 ys2] bs2] eqn:E2. intros [= <- <- <-] HW. constructor.
  - apply IH; [apply Hch; left|]. rewrite E1. intros d Hd. apply HW, elem_of_app. by right.
  - apply (IHl ltac:(intros d Hd; apply Hch; by right) m1 ys2 bs2 m2 E2). intros d Hd. apply HW, elem_of_app. by left.
Qed.

Section wf.
Context (V : Blocks) (root x : string) (fuel n m : nat) (bs : list Block).
Context (Hwf : wf V [root]) (Hroot : is_Some (V !! root)) (Hx : copyable V fuel x) (Hplan : plan V fuel x n = (m, bs)).
Context (Hfresh : ∀ k, (n ≤ k)%nat → V !! Obj k = None ∧ ∀ p b, V !! p = Some b → Obj k ∉ b_ChildrenIds b).
Abbreviation W := (new_map bs ∪ V).

Lemma new_map_elem q b : new_map bs !! q = Some b → b ∈ bs ∧ b_Id b = q.
Proof. intros Hq. apply elem_of_list_to_map_2 in Hq. apply list_elem_of_fmap in Hq as (c & [= -> ->] & Hc). done. Qed.
Lemma new_id_number b : b ∈ bs → ∃ k, (n ≤ k)%nat ∧ b_Id b = Obj k.
Proof.
  intros Hb. pose proof (plan_numbered V fuel x n Hx) as Hn. rewrite Hplan in Hn. cbn [fst snd] in Hn. destruct (Hn b Hb) as (k & ? & ?). exists k. split; [lia|done].
Qed.
Lemma new_children : NoDup (concat (map b_ChildrenIds bs)) ∧ ∀ c, c ∈ concat (map b_ChildrenIds bs) → ∃ k, (n < k)%nat ∧ c = Obj k.
Proof.
  pose proof (plan_spec V fuel x n Hx) as Hp. rewrite Hplan in Hp. destruct Hp as (_ & _ & Hc & _). split.
  - rewrite Hc. apply NoDup_fmap_2; [exact Hinj|apply NoDup_seq].
  - intros c. rewrite Hc. intros (k & -> & Hk%elem_of_seq)%list_elem_of_fmap. exists k. split; [lia|done].
Qed.
Lemma new_child b c : b ∈ bs → c ∈ b_ChildrenIds b → c ∈ concat (map b_ChildrenIds bs).
Proof. intros Hb Hc. apply list_elem_of_In, in_concat. exists (b_ChildrenIds b). split; [by apply in_map, list_elem_of_In|by apply list_elem_of_In]. Qed.
Lemma old_not_new q : is_Some (V !! q) → new_map bs !! q = None.
Proof.
  intros [b Hb]. destruct (new_map bs !! q) as [c|] eqn:E; [|done]. apply new_map_elem in E as [Hc <-]. destruct (new_id_number c Hc) as (k & Hk & E). rewrite E in Hb.
  by rewrite (proj1 (Hfresh k Hk)) in Hb.
Qed.
Lemma listed_not_new p b c : V !! p = Some b → c ∈ b_ChildrenIds b → new_map bs !! c = None.
Proof.
  intros Hb Hc. destruct (new_map bs !! c) as [d|] eqn:E; [|done]. apply new_map_elem in E as [Hd <-]. destruct (new_id_number d Hd) as (k & Hk & E). rewrite E in Hc.
  by destruct (proj2 (Hfresh k Hk) p b Hb).
Qed.
Lemma reach_old q : reach W root q → reach V root q ∧ new_map bs !! q = None.
Proof.
  induction 1 as [|p b c Hp [IHr IHn] Hb Hc]; [split; [constructor|by apply old_not_new]|]. rewrite lookup_union_r in Hb by done.
  split; [by eapply reach_child|by eapply listed_not_new].
Qed.
Lemma reach_new q : reach W (Obj n) q → V !! q = None.
Proof.
  enough (reach W (Obj n) q → ∃ k, (n ≤ k)%nat ∧ q = Obj k) as Hgo by (intros (k & Hk & ->)%Hgo; by apply Hfresh).
  induction 1 as [|p b c Hp (k & Hk & ->) Hb Hc]; [by exists n|]. rewrite lookup_union_l in Hb by (by apply Hfresh).
  apply new_map_elem in Hb as [Hb _]. destruct (proj2 new_children c (new_child b c Hb Hc)) as (j & Hj & ->). exists j. split; [lia|done].
Qed.
(** A block that is reached is an old one or a new one. *)
Lemma reached q b : reachable W [root; Obj n] q → W !! q = Some b →
  (V !! q = Some b ∧ reachable V [root] q) ∨ (b ∈ bs ∧ b_Id b = q).
Proof.
  intros (r & Hr & Hq) Hb. apply elem_of_cons in Hr as [->|Hr].
  - left. apply reach_old in Hq as [Hq Hno]. rewrite lookup_union_r in Hb by done. split; [done|]. exists root. split; [left|done].
  - apply list_elem_of_singleton in Hr as ->. right. apply reach_new in Hq. rewrite lookup_union_l in Hb by done. by apply new_map_elem.
Qed.
Lemma copy_wf : wf W [root; Obj n].
Proof.
  assert (∀ p b c, V !! p = Some b → c ∈ b_ChildrenIds b → ∀ d, d ∈ bs → c ∉ b_ChildrenIds d) as Hsep.
  { intros p b c Hb Hc d Hd Hcd. destruct (proj2 new_children c (new_child d c Hd Hcd)) as (k & Hk & ->). by apply (proj2 (Hfresh k ltac:(lia)) p b). }
  assert (∀ k, (n ≤ k)%nat → root ≠ Obj k) as Hrk.
  { intros k Hk E. destruct Hroot as [b Hb]. rewrite E in Hb. by rewrite (proj1 (Hfresh k Hk)) in Hb. }
  split.
  - intros q b [Hb|[_ Hb]]%lookup_union_Some_raw; [by apply new_map_elem in Hb as [_ ?]|by apply (wf_keys _ _ Hwf)].
  - apply NoDup_cons. split; [|apply NoDup_singleton]. intros E%list_elem_of_singleton. by apply (Hrk n).
  - intros p1 b1 p2 b2 c R1 R2 E1 E2 C1 C2. destruct (reached p1 b1 R1 E1) as [[V1 Q1]|[N1 I1]], (reached p2 b2 R2 E2) as [[V2 Q2]|[N2 I2]].
    + by apply (wf_uniq _ _ Hwf p1 b1 p2 b2 c).
    + by destruct (Hsep p1 b1 c V1 C1 b2 N2).
    + by destruct (Hsep p2 b2 c V2 C2 b1 N1).
    + assert ((p1, b1) = (p2, b2)) as [= ? ?]; [|done]. apply (concat_owner ((λ b, (b_Id b, b)) <$> bs) p1 b1 p2 b2 c); try done.
      * change (((λ b, (b_Id b, b)) <$> bs)) with (map (λ b, (b_Id b, b)) bs). rewrite map_map. apply new_children.
      * apply list_elem_of_fmap. exists b1. by rewrite I1.
      * apply list_elem_of_fmap. exists b2. by rewrite I2.
  - intros p b R E. destruct (reached p b R E) as [[Vb Q]|[N I]]; [by apply (wf_nodup _ _ Hwf p)|].
    pose proof (proj1 new_children) as Hnd. apply list_elem_of_split in N as (l1 & l2 & ->). rewrite map_app, concat_app in Hnd. cbn [map concat] in Hnd.
    apply NoDup_app in Hnd as (_ & _ & Hnd). by apply NoDup_app in Hnd as (? & _ & _).
  - intros p b r R E Hr Hc. destruct (reached p b R E) as [[Vb Q]|[N I]]; apply elem_of_cons in Hr as [->|Hr%list_elem_of_singleton].
    + by apply (wf_root _ _ Hwf p b root Q Vb ltac:(left)).
    + subst r. by apply (proj2 (Hfresh n ltac:(lia)) p b).
    + destruct (proj2 new_children root (new_child b root N Hc)) as (k & Hk & E'). apply (Hrk k); [lia|done].
    + subst r. destruct (proj2 new_children (Obj n) (new_child b _ N Hc)) as (k & Hk & E'%Hinj). lia.
Qed.
End wf.

(** The fuel is enough: a path in a tree is no longer than the tree has blocks. *)
Lemma copyable_tree V root fuel : wf V [root] → ∀ path x, chain V root path x → (size V < fuel + length path)%nat →
  (∀ q, reach V x q → ∃ b, V !! q = Some b ∧ is_table b = false) → copyable V fuel x.
Proof.
  intros Hwf. induction fuel as [|fuel IH]; intros path x Hc Hf Hall.
  - destruct (chain_fresh V [root] Hwf root ltac:(left) path x Hc) as (_ & Hnd & Hdom).
    assert (length path ≤ size V)%nat; [|lia]. rewrite <- size_dom, <- (size_list_to_set (C:=gset string) path Hnd). apply subseteq_size.
    intros p [b Hb]%elem_of_list_to_set%Hdom. by apply elem_of_dom.
  - destruct (Hall x (reach_root _ _)) as (b & Hb & Ht). apply (cp_intro V fuel x b Hb Ht). intros c Hcin. apply (IH (path ++ [x])).
    + by eapply chain_child.
    + rewrite length_app. cbn [length]. lia.
    + intros q Hq. apply Hall. eapply reach_trans; [by eapply reach_step|done].
Qed.
Lemma SelectRoots_one s x : is_Some (view s !! x) → SelectRoots s [x] = Some [x].
Proof.
  intros Hx. unfold SelectRoots. cbn [length replicate select_loop]. unfold Exists. rewrite Pick_view, bool_decide_eq_true_2 by done. done.
Qed.

Lemma new_map_in n m bs b : (b_Id <$> bs) ≡ₚ (Obj <$> seq n (m - n)) → b ∈ bs → new_map bs !! b_Id b = Some b.
Proof.
  intros Hp Hb. apply elem_of_list_to_map_1.
  - rewrite <- list_fmap_compose. change (fst ∘ (λ b, (b_Id b, b))) with b_Id. rewrite Hp. apply NoDup_fmap_2; [exact Hinj|apply NoDup_seq].
  - apply list_elem_of_fmap. by exists b.
Qed.

(** C18. Duplicating a block with no table in its tree, within a document, puts a copy
    of the whole tree at the target: every block
    below it is there once more under a fresh id, with its content and in its order,
    the copies are listed by nothing else, and the document stays a tree with the copy
    inserted as the position means; no block of the document is changed otherwise. *)
Theorem Duplicate_correct s n x t pos V' :
  let V := view s in
  let root := st_rootId s in
  let new := plan V (iter_fuel s) x n in
  let W := new_map new.2 ∪ V in
  let opId := makeOpId md5hex t pos [Obj n] in
  wf V [root] → is_Some (V !! root) → reach V root x →
  (∀ q, reach V x q → ∃ b, V !! q = Some b ∧ is_table b = false) →
  (∀ k, (n ≤ k)%nat → V !! Obj k = None ∧ ∀ p b, V !! p = Some b → Obj k ∉ b_ChildrenIds b) →
  t ≠ "" → fresh_op W root opId [Obj n] → tree_edit W root opId [Obj n] t pos V' →
  tree_copy V W x (Obj n) ∧ (∀ q b, V !! q = Some b → W !! q = Some b) ∧
  (∀ q, is_Some (W !! q) → is_Some (V !! q) ∨ ∃ k, (n ≤ k < new.1)%nat ∧ q = Obj k) ∧
  ∃ s', Duplicate md5hex Obj false None t pos [x] (s, n) = Some (Ok ([Obj n], None), (s', new.1)) ∧ view s' = V' ∧ wf V' [root] ∧ same_below s s'.
Proof.
  intros V root new W opId Hwf Hroot Hx Hall Hfresh Ht Hop Hed. destruct (reach_chain _ _ _ Hx) as [path Hpath].
  assert (copyable V (iter_fuel s) x) as Hc by (apply (copyable_tree V root (iter_fuel s) Hwf path x Hpath); [unfold iter_fuel, V; lia|done]).
  assert (ready V s n) as Hr by (split; [done|intros k Hk; by apply Hfresh]).
  pose proof (plan_numbered V _ x n Hc) as Hnum. pose proof (copy_wf V root x (iter_fuel s) n new.1 new.2 Hwf Hroot Hc (surjective_pairing _) Hfresh) as HW.
  pose proof (copy_run V (iter_fuel s) x n s Hc Hr) as Hrun. fold new in Hnum, Hrun.
  assert (∀ q b, V !! q = Some b → W !! q = Some b) as Hold.
  { intros q b Hb. unfold W. rewrite lookup_union_r; [done|]. apply new_map_None. intros d (k & Hk & E)%Hnum Eq. rewrite <- Eq, E in Hb. by rewrite (proj1 (Hfresh k ltac:(lia))) in Hb. }
  split_and!; [|done| |].
  - apply plan_copy with (fuel := iter_fuel s); [done|]. fold new. intros b Hb. apply lookup_union_Some_l, (new_map_in n new.1); [|done].
    pose proof (plan_spec V (iter_fuel s) x n Hc) as Hp. fold new in Hp. destruct new as [m bs]. apply Hp.
  - intros q [b [Hb|[_ Hb]]%lookup_union_Some_raw]; [right|left; by exists b]. apply new_map_elem in Hb as [Hb <-]. by apply Hnum.
  - destruct (InsertTo_edit md5hex (add_all s new.2) [Obj n] t pos V') as (s' & E & EV & HW' & B); rewrite ?view_add_all; try done.
    exists s'. split_and!; [|done|by rewrite <- EV|done].
    assert (SelectRoots s [x] = Some [x]) as Hsel by (destruct (Hall x (reach_root _ _)) as (b & Hb & _); apply SelectRoots_one; by exists b).
    unfold Duplicate, gets, some, insertTo, mbind, M_bind. cbn [fst snd]. change (src_of None s) with s. rewrite Hsel. cbn [duplicate_all].
    unfold gets, insertTo, mbind, M_bind. cbn [fst snd]. change (src_of None s) with s. rewrite Hrun. cbn [fst snd]. by rewrite E.
Qed.
End copy.
