(* ===== verification/BasicInst.v ===== *)
(** * Editing blocks: a concrete document

    The theorems about moving and copying blocks, applied to a small document, and the
    other operations on it. *)

From stdpp Require Import pretty.
From S2P Require Import Prelude Slice GoFloat StateTree StateChecks StateNormalize StateApply Changes ChangeReplay Table TableEditor TableView TableColumns Basic BasicMove BasicCopy.

Module BasicInst.

(** A text is its colour, and an empty one is an empty paragraph. *)
#[local] Instance colours : TextColour := {| tx_empty_paragraph := λ t, bool_decide (t = ""); tx_Color := λ t, t; tx_set_Color := λ _ c, c |}.
#[local] Instance all_valid : BlockValidate := λ _, None.
#[local] Instance keep_files : FileImport := λ c, c.
Definition md5 (x : string) : string := "op".
Definition gen (n : nat) : string := "id" +:+ pretty n.

Definition text (id : string) (ids : list string) : Block := new_block id ids (CText "text").
Definition blocks : list Block :=
  [new_block "root" ["a"; "b"; "e"] CSmartblock; text "a" ["c"]; text "c" ["d"]; text "d" []; text "b" []; new_block "e" [] (CText "")].
Definition doc : State := NewState (NewDoc "root" (list_to_map ((λ b, (b_Id b, b)) <$> blocks))).

(** ** Deciding what is below what *)

Definition closed_b (V : Blocks) (S : list string) : bool :=
  forallb (λ q, match V !! q with Some b => forallb (λ c, bool_decide (c ∈ S)) (b_ChildrenIds b) | None => true end) S.
Lemma closed_reach V S x y : closed_b V S = true → x ∈ S → reach V x y → y ∈ S.
Proof.
  unfold closed_b. rewrite forallb_forall. intros Hc Hx. induction 1 as [|q b c Hq IH Hb Hin]; [done|]. specialize (Hc q (proj1 (list_elem_of_In _ _) IH)).
  rewrite Hb, forallb_forall in Hc. specialize (Hc c (proj1 (list_elem_of_In _ _) Hin)). by apply bool_decide_eq_true in Hc.
Qed.
Lemma closed_not_below V S x y : closed_b V S = true → x ∈ S → y ∉ S → ¬ reach V x y.
Proof. intros Hc Hx Hy Hr. apply Hy. by eapply closed_reach. Qed.
Lemma doc_is_tree : wf (view doc) [st_rootId doc].
Proof. apply wf_b_spec. vm_compute. reflexivity. Qed.
Ltac each H := repeat (apply elem_of_cons in H as [->|H]); [..|by apply elem_of_nil in H].
Ltac absent := rewrite ?not_elem_of_cons; split_and?; try done; apply not_elem_of_nil.
Lemma doc_reach : all_reach (view doc) (st_rootId doc).
Proof.
  assert (reach (view doc) "root" "a") as Ha by (eapply reach_child; [constructor|vm_compute; reflexivity|left]).
  assert (reach (view doc) "root" "c") as Hc by (eapply reach_child; [exact Ha|vm_compute; reflexivity|left]).
  intros q b Hq. apply elem_of_map_to_list in Hq. vm_compute in Hq.
  repeat (apply elem_of_cons in Hq as [Hq|Hq]; [injection Hq as -> _|]); [..|by apply elem_of_nil in Hq];
    first [exact Ha|exact Hc|constructor|eapply reach_child; [exact Hc|vm_compute; reflexivity|left]|
      eapply reach_child; [constructor|vm_compute; reflexivity|right; first [left|right; left]]].
Qed.

(** ** Moving *)


(** "a" inside its grandchild "d". *)
Lemma Move_into_own_subtree_witness :
  ∃ s', Move md5 "d" PInner ["a"] (doc, 0%nat) = Some (Ok (), (s', 0%nat)) ∧ loses_only (view doc) (view s') "root" "a".
Proof.
  apply (Move_into_own_subtree md5 doc 0%nat "a" "d" (text "a" ["c"]) (text "d" [])); try done.
  - exact doc_is_tree.
  - exact doc_reach.
  - eapply reach_child; [eapply reach_child; [constructor|vm_compute; reflexivity|left]|vm_compute; reflexivity|left].
  - cbn. absent.
Defined.

(** ** Copying *)

Lemma gen_inj i j : gen i = gen j → i = j.
Proof. unfold gen. intros E. by apply (inj (String.append "id")), (inj pretty) in E. Qed.
Lemma doc_fresh k : view doc !! gen k = None ∧ ∀ p b, view doc !! p = Some b → gen k ∉ b_ChildrenIds b.
Proof.
  split.
  - destruct (view doc !! gen k) as [b|] eqn:Hq; [|done]. apply elem_of_map_to_list in Hq. vm_compute map_to_list in Hq.
    repeat (apply elem_of_cons in Hq as [Hq|Hq]; [discriminate Hq|]). by apply elem_of_nil in Hq.
  - intros p b Hq. apply elem_of_map_to_list in Hq. vm_compute map_to_list in Hq.
    repeat (apply elem_of_cons in Hq as [Hq|Hq]; [injection Hq as -> ->; cbn; absent|]). by apply elem_of_nil in Hq.
Qed.

(** A copy of "a" below "e". *)
Lemma Duplicate_correct_witness :
  let V := view doc in
  let new := plan gen V (iter_fuel doc) "a" 0%nat in
  let W := new_map new.2 ∪ V in
  let V' := <["root":=with_children (new_block "root" ["a"; "b"; "e"] CSmartblock) ["a"; "b"; "e"; "id0"]]> W in
  (b_Id <$> new.2) = ["id0"; "id1"; "id2"] ∧ tree_copy V W "a" "id0" ∧ (∀ q b, V !! q = Some b → W !! q = Some b) ∧
  (∀ q, is_Some (W !! q) → is_Some (V !! q) ∨ ∃ k, (0 ≤ k < new.1)%nat ∧ q = gen k) ∧
  ∃ s', Duplicate md5 gen false None "e" PBottom ["a"] (doc, 0%nat) = Some (Ok (["id0"], None), (s', new.1)) ∧ view s' = V' ∧ wf V' ["root"] ∧ same_below doc s'.
Proof.
  cbv zeta. split; [vm_compute; reflexivity|].
  apply (Duplicate_correct md5 gen gen_inj doc 0%nat "a" "e" PBottom).
  - exact doc_is_tree.
  - eexists. vm_compute. reflexivity.
  - apply (doc_reach "a" (text "a" ["c"])). vm_compute. reflexivity.
  - intros q Hq. assert (q ∈ ["a"; "c"; "d"]) as Hin by (eapply (closed_reach (view doc)); [vm_compute; reflexivity|left|exact Hq]).
    each Hin; (eexists; split; [vm_compute; reflexivity|reflexivity]).
  - intros k _. apply doc_fresh.
  - done.
  - apply fresh_b_spec. vm_compute. reflexivity.
  - apply (te_bottom (new_map (plan gen (view doc) (iter_fuel doc) "a" 0%nat).2 ∪ view doc) "root" _ [gen 0] "e" "root" (new_block "root" ["a"; "b"; "e"] CSmartblock) ["a"; "b"] []).
    split_and!; [constructor|vm_compute; reflexivity|reflexivity|eexists; vm_compute; reflexivity].
Defined.

(** ** The operations on the document *)

Definition children (s : State) (id : string) : list string := match view s !! id with Some b => b_ChildrenIds b | None => [] end.
Definition after {A} (m : M A) (f : A → State → list (list string)) : option (res (list (list string))) :=
  match m (doc, 0%nat) with Some (Ok a, g) => Some (Ok (f a g.1)) | Some (Err e, _) => Some (Err e) | None => None end.

Example created : after (CreateBlock md5 gen None "b" PTop (text "" ["x"])) (λ id s, [[id]; children s "root"; children s id]) = Some (Ok [["id0"]; ["a"; "id0"; "b"; "e"]; []]).
Proof. vm_compute. reflexivity. Qed.
Example created_empty : after (CreateBlock md5 gen None "b" PTop (new_block "" [] CNone)) (λ id s, []) = Some (Err "no block content").
Proof. vm_compute. reflexivity. Qed.
(** The new block takes over the children of the text it replaces. *)
Example replaced : after (Replace md5 gen "a" (text "n" [])) (λ id s, [[id]; children s "root"; children s "n"]) = Some (Ok [["n"]; ["n"; "b"; "e"]; ["c"]]).
Proof. vm_compute. reflexivity. Qed.
Example unlinked : after (Unlink_ids ["title"; "zz"; "c"]) (λ _ s, [children s "a"]) = Some (Ok [[]]).
Proof. vm_compute. reflexivity. Qed.
Example nothing_unlinked : after (Unlink_ids ["title"; "zz"]) (λ _ s, []) = Some (Err ErrSimpleBlockNotFound).
Proof. vm_compute. reflexivity. Qed.
(** The first block moved into an empty paragraph takes its place. *)
Example moved_into_paragraph : after (Move md5 "e" PInnerFirst ["b"; "d"]) (λ _ s, [children s "root"; children s "c"]) = Some (Ok [["a"; "b"; "d"]; []]).
Proof. vm_compute. reflexivity. Qed.
Example moved_into_child : after (Move md5 "c" PInner ["a"]) (λ _ s, []) = Some (Err "cannot move block to its child").
Proof. vm_compute. reflexivity. Qed.
(** No block to move and an empty paragraph as the target: a panic. *)
Example moved_nothing : after (Move md5 "e" PInnerFirst ["zz"]) (λ _ s, []) = None.
Proof. vm_compute. reflexivity. Qed.
End BasicInst.
