(* ===== verification/Dataview.v ===== *)
(** * Dataview blocks ([core/block/simple/dataview], [core/block/editor/dataview])

    A dataview shows the objects of a set or a collection: its content lists the
    views (each with filters, sorts and relations, its columns), the links of the
    relations it offers, and the orders in which a user arranged groups and objects.
    This file has the content and every operation on it; [DataviewDiff] has the
    messages that carry a change of it to clients and to other devices.

    A [*View] the code looked up is changed in place: here [change_view] rewrites the
    first view with the id.  Enumerations of the protocol are numbers.  An operation
    returns the content it leaves and its error, if any, because some change the
    content before they fail. *)

From S2P Require Import Prelude Slice GoFloat Values PbTypes SliceDiff Filter.

(** ** Data *)

Record ViewRelation := {
  vr_Key : string; vr_IsVisible : bool; vr_Width : Z; vr_DateIncludeTime : bool;
  vr_TimeFormat : Z; vr_DateFormat : Z; vr_Formula : Z; vr_Align : Z;
}.

Record ViewSort := {
  vs_RelationKey : string; vs_Type : Z; vs_CustomOrder : list PbValue; vs_Format : Z;
  vs_IncludeTime : bool; vs_Id : string; vs_EmptyPlacement : Z; vs_NoCollate : bool;
}.

Inductive ViewFilter := {
  vf_Id : string; vf_Operator : Z; vf_RelationKey : string; vf_RelationProperty : string;
  vf_Condition : Z; vf_Value : PbValue; vf_QuickOption : Z; vf_Format : Z; vf_IncludeTime : bool;
  vf_NestedFilters : list ViewFilter;
}.

(** The plain fields of a view, which travel together in a [ViewUpdate] message. *)
Record ViewFields := {
  f_Type : Z; f_Name : string; f_CoverRelationKey : string; f_HideIcon : bool; f_CardSize : Z;
  f_CoverFit : bool; f_GroupRelationKey : string; f_EndRelationKey : string;
  f_GroupBackgroundColors : bool; f_PageLimit : Z; f_DefaultTemplateId : string;
  f_DefaultObjectTypeId : string; f_WrapContent : bool;
}.

Record View := {
  vw_Id : string;
  vw_Fields : ViewFields;
  vw_Sorts : list ViewSort;
  vw_Filters : list ViewFilter;
  vw_Relations : list ViewRelation;
}.

Record ViewGroup := {
  vg_GroupId : string; vg_Index : Z; vg_Hidden : bool; vg_BackgroundColor : string;
}.
Record GroupOrder := { gro_ViewId : string; gro_ViewGroups : list ViewGroup }.
Record ObjectOrder := { oo_ViewId : string; oo_GroupId : string; oo_ObjectIds : list string }.

(** Deprecated: a relation with its definition, as old changes carry it. *)
Record OldOption := {
  oo_Id : string; oo_Text : string; oo_Color : string; oo_RelationKey : string; oo_OrderId : string;
}.
Record OldRelation := {
  or_Id : string; or_Key : string; or_Format : Z; or_Name : string; or_DefaultValue : PbValue;
  or_DataSource : Z; or_Hidden : bool; or_ReadOnly : bool; or_ReadOnlyRelation : bool; or_Multi : bool;
  or_ObjectTypes : list string; or_SelectDict : list OldOption; or_MaxCount : Z;
  or_Description : string; or_Scope : Z; or_Creator : string; or_Revision : Z; or_IncludeTime : bool;
}.

Record Dataview := {
  dv_Source : list string;
  dv_Views : list View;
  dv_ActiveView : string;
  dv_Relations : list OldRelation;
  dv_GroupOrders : list GroupOrder;
  dv_ObjectOrders : list ObjectOrder;
  dv_RelationLinks : list RelationLink;
  dv_TargetObjectId : string;
  dv_IsCollection : bool;
}.

Definition RelationFormat_longtext : Z := 0.
Definition RelationFormat_status : Z := 3.
Definition RelationFormat_file : Z := 5.
Definition RelationFormat_tag : Z := 11.
Definition RelationFormat_object : Z := 100.

(** *** Assignments to a field *)

Definition with_sorts (v : View) l : View :=
  {| vw_Id := vw_Id v; vw_Fields := vw_Fields v; vw_Sorts := l; vw_Filters := vw_Filters v;
     vw_Relations := vw_Relations v |}.
Definition with_filters (v : View) l : View :=
  {| vw_Id := vw_Id v; vw_Fields := vw_Fields v; vw_Sorts := vw_Sorts v; vw_Filters := l;
     vw_Relations := vw_Relations v |}.
Definition with_relations (v : View) l : View :=
  {| vw_Id := vw_Id v; vw_Fields := vw_Fields v; vw_Sorts := vw_Sorts v; vw_Filters := vw_Filters v;
     vw_Relations := l |}.

(** The assignments [v.Name = f.Name], ..., [v.WrapContent = f.WrapContent]. *)
Definition assign_fields (v : View) (f : ViewFields) : View :=
  {| vw_Id := vw_Id v;
     vw_Fields := {|
       f_Type := f_Type f; f_Name := f_Name f; f_CoverRelationKey := f_CoverRelationKey f;
       f_HideIcon := f_HideIcon f; f_CardSize := f_CardSize f; f_CoverFit := f_CoverFit f;
       f_GroupRelationKey := f_GroupRelationKey f; f_EndRelationKey := f_EndRelationKey f;
       f_GroupBackgroundColors := f_GroupBackgroundColors f; f_PageLimit := f_PageLimit f;
       f_DefaultTemplateId := f_DefaultTemplateId f; f_DefaultObjectTypeId := f_DefaultObjectTypeId f;
       f_WrapContent := f_WrapContent f |};
     vw_Sorts := vw_Sorts v; vw_Filters := vw_Filters v; vw_Relations := vw_Relations v |}.

Definition with_views (d : Dataview) l : Dataview :=
  {| dv_Source := dv_Source d; dv_Views := l; dv_ActiveView := dv_ActiveView d;
     dv_Relations := dv_Relations d; dv_GroupOrders := dv_GroupOrders d;
     dv_ObjectOrders := dv_ObjectOrders d; dv_RelationLinks := dv_RelationLinks d;
     dv_TargetObjectId := dv_TargetObjectId d; dv_IsCollection := dv_IsCollection d |}.
Definition with_old (d : Dataview) l : Dataview :=
  {| dv_Source := dv_Source d; dv_Views := dv_Views d; dv_ActiveView := dv_ActiveView d;
     dv_Relations := l; dv_GroupOrders := dv_GroupOrders d;
     dv_ObjectOrders := dv_ObjectOrders d; dv_RelationLinks := dv_RelationLinks d;
     dv_TargetObjectId := dv_TargetObjectId d; dv_IsCollection := dv_IsCollection d |}.
Definition with_groups (d : Dataview) l : Dataview :=
  {| dv_Source := dv_Source d; dv_Views := dv_Views d; dv_ActiveView := dv_ActiveView d;
     dv_Relations := dv_Relations d; dv_GroupOrders := l;
     dv_ObjectOrders := dv_ObjectOrders d; dv_RelationLinks := dv_RelationLinks d;
     dv_TargetObjectId := dv_TargetObjectId d; dv_IsCollection := dv_IsCollection d |}.
Definition with_orders (d : Dataview) l : Dataview :=
  {| dv_Source := dv_Source d; dv_Views := dv_Views d; dv_ActiveView := dv_ActiveView d;
     dv_Relations := dv_Relations d; dv_GroupOrders := dv_GroupOrders d;
     dv_ObjectOrders := l; dv_RelationLinks := dv_RelationLinks d;
     dv_TargetObjectId := dv_TargetObjectId d; dv_IsCollection := dv_IsCollection d |}.
Definition with_links (d : Dataview) l : Dataview :=
  {| dv_Source := dv_Source d; dv_Views := dv_Views d; dv_ActiveView := dv_ActiveView d;
     dv_Relations := dv_Relations d; dv_GroupOrders := dv_GroupOrders d;
     dv_ObjectOrders := dv_ObjectOrders d; dv_RelationLinks := l;
     dv_TargetObjectId := dv_TargetObjectId d; dv_IsCollection := dv_IsCollection d |}.

Definition SetSource (d : Dataview) (source : list string) : Dataview :=
  {| dv_Source := source; dv_Views := dv_Views d; dv_ActiveView := dv_ActiveView d;
     dv_Relations := dv_Relations d; dv_GroupOrders := dv_GroupOrders d;
     dv_ObjectOrders := dv_ObjectOrders d; dv_RelationLinks := dv_RelationLinks d;
     dv_TargetObjectId := dv_TargetObjectId d; dv_IsCollection := dv_IsCollection d |}.
Definition SetActiveView (d : Dataview) (activeView : string) : Dataview :=
  {| dv_Source := dv_Source d; dv_Views := dv_Views d; dv_ActiveView := activeView;
     dv_Relations := dv_Relations d; dv_GroupOrders := dv_GroupOrders d;
     dv_ObjectOrders := dv_ObjectOrders d; dv_RelationLinks := dv_RelationLinks d;
     dv_TargetObjectId := dv_TargetObjectId d; dv_IsCollection := dv_IsCollection d |}.
Definition SetTargetObjectID (d : Dataview) (targetObjectID : string) : Dataview :=
  {| dv_Source := dv_Source d; dv_Views := dv_Views d; dv_ActiveView := dv_ActiveView d;
     dv_Relations := dv_Relations d; dv_GroupOrders := dv_GroupOrders d;
     dv_ObjectOrders := dv_ObjectOrders d; dv_RelationLinks := dv_RelationLinks d;
     dv_TargetObjectId := targetObjectID; dv_IsCollection := dv_IsCollection d |}.
Definition SetIsCollection (d : Dataview) (value : bool) : Dataview :=
  {| dv_Source := dv_Source d; dv_Views := dv_Views d; dv_ActiveView := dv_ActiveView d;
     dv_Relations := dv_Relations d; dv_GroupOrders := dv_GroupOrders d;
     dv_ObjectOrders := dv_ObjectOrders d; dv_RelationLinks := dv_RelationLinks d;
     dv_TargetObjectId := dv_TargetObjectId d; dv_IsCollection := value |}.

(** What [ModelToSave] keeps. *)
Definition ModelToSave (d : Dataview) : Dataview := SetActiveView (with_old d []) "".

Definition dv_IsEmpty (d : Dataview) : bool :=
  bool_decide (dv_TargetObjectId d = "") && bool_decide (length (dv_Views d) = 0).

(** ** Views *)

Definition ErrViewNotFound : string := "view not found".
Definition ErrRelationExists : string := "relation exists".
Definition ErrRelationNotFound : string := "relation not found".

Fixpoint find_view (views : list View) (viewId : string) : option View :=
  match views with
  | [] => None
  | view :: views => if bool_decide (vw_Id view = viewId) then Some view else find_view views viewId
  end.

Definition GetView (d : Dataview) (viewId : string) : res View :=
  match find_view (dv_Views d) viewId with
  | Some view => Ok view
  | None => Err ("view '" +:+ viewId +:+ "' not found")
  end.

Definition change_view (f : View → View) (viewId : string) (views : list View) : list View :=
  default views (replace_first (λ v, bool_decide (vw_Id v = viewId)) f views).

(** [view, err := d.GetView(viewID); if err != nil { return err }] and changes of [*view]. *)
Definition on_view (d : Dataview) (viewID : string) (f : View → View) : Dataview * option string :=
  match GetView d viewID with
  | Err e => (d, Some e)
  | Ok _ => (with_views d (change_view f viewID (dv_Views d)), None)
  end.

Fixpoint delete_view (views : list View) (viewID : string) : option (list View) :=
  match views with
  | [] => None
  | v :: views => if bool_decide (vw_Id v = viewID) then Some views else cons v <$> delete_view views viewID
  end.

Definition DeleteView (d : Dataview) (viewID : string) : Dataview * option string :=
  match delete_view (dv_Views d) viewID with
  | Some views => (with_views d views, None)
  | None => (d, Some ErrViewNotFound)
  end.

Definition SetViewFields (d : Dataview) (viewID : string) (view : View) : Dataview * option string :=
  on_view d viewID (λ v, assign_fields v (vw_Fields view)).

Definition SetView (d : Dataview) (viewID : string) (view : View) : Dataview * option string :=
  on_view d viewID (λ v,
    assign_fields (with_filters (with_sorts (with_relations v (vw_Relations view)) (vw_Sorts view))
                     (vw_Filters view)) (vw_Fields view)).

Definition SetViewOrder (d : Dataview) (viewIds : list string) : Dataview :=
  let newViews := foldl (λ newViews viewId,
                    match GetView d viewId with
                    | Ok view => newViews ++ [view]
                    | Err _ => newViews
                    end) [] viewIds in
  with_views d (foldl (λ newViews view,
                  if bool_decide (FindPos viewIds (vw_Id view) = -1)%Z then newViews ++ [view] else newViews)
                  newViews (dv_Views d)).

(** ** Orders of groups and objects *)

Definition SetViewGroupOrder (d : Dataview) (order : GroupOrder) : Dataview :=
  with_groups d
    (match replace_first (λ o, bool_decide (gro_ViewId o = gro_ViewId order))
             (λ o, {| gro_ViewId := gro_ViewId o; gro_ViewGroups := gro_ViewGroups order |})
             (dv_GroupOrders d) with
     | Some orders => orders
     | None => dv_GroupOrders d ++ [order]
     end).

Definition is_order (viewId groupId : string) (o : ObjectOrder) : bool :=
  bool_decide (oo_ViewId o = viewId) && bool_decide (oo_GroupId o = groupId).

Definition with_objects (ids : list string) (o : ObjectOrder) : ObjectOrder :=
  {| oo_ViewId := oo_ViewId o; oo_GroupId := oo_GroupId o; oo_ObjectIds := ids |}.

Definition SetViewObjectOrder (d : Dataview) (orders : list ObjectOrder) : Dataview :=
  foldl (λ d reqOrder,
    with_orders d
      (match replace_first (is_order (oo_ViewId reqOrder) (oo_GroupId reqOrder))
               (with_objects (oo_ObjectIds reqOrder)) (dv_ObjectOrders d) with
       | Some orders => orders
       | None => dv_ObjectOrders d ++ [reqOrder]
       end)) d orders.

(** The ids are taken out and inserted behind [afterId]; [None] where
    [slice.Insert] would panic. *)
Definition move_objects (ids objectIds : list string) (afterId : string) : option (list string) :=
  let rest := Difference ids objectIds in
  let pos := FindPos rest afterId in
  Insert rest (pos + 1) objectIds.

Fixpoint move_in_orders (orders : list ObjectOrder) (viewId groupId afterId : string)
    (objectIds : list string) : option (option (list ObjectOrder)) :=
  match orders with
  | [] => Some None
  | order :: orders =>
      if is_order viewId groupId order
      then ids ← move_objects (oo_ObjectIds order) objectIds afterId;
           Some (Some (with_objects ids order :: orders))
      else r ← move_in_orders orders viewId groupId afterId objectIds;
           Some (match r with Some orders => Some (order :: orders) | None => None end)
  end.

Definition MoveObjectsInView (d : Dataview) (viewId groupId afterId : string) (objectIds : list string) :
    option (Dataview * option string) :=
  r ← move_in_orders (dv_ObjectOrders d) viewId groupId afterId objectIds;
  Some (match r with
        | Some orders => (with_orders d orders, None)
        | None => (d, Some "object order is not found")
        end).

Definition resetObjectOrderForView (d : Dataview) (viewId : string) : Dataview :=
  with_orders d (map (λ order, if bool_decide (oo_ViewId order = viewId) then with_objects [] order else order)
                   (dv_ObjectOrders d)).

(** ** Relations *)

Section relations.
Context `{!SamberLo}.

Definition AddRelation (d : Dataview) (relation : RelationLink) : Dataview * option string :=
  if rl_Has (dv_RelationLinks d) (rl_Key relation) then (d, Some ErrRelationExists)
  else (with_links d (dv_RelationLinks d ++ [relation]), None).

Definition remove_by_keys (keys : list string) (view : View) : View :=
  with_sorts (with_filters view
      (lo_Filter (vw_Filters view) (λ filter _, negb (bool_decide (vf_RelationKey filter ∈ keys)))))
    (lo_Filter (vw_Sorts view) (λ sort _, negb (bool_decide (vs_RelationKey sort ∈ keys)))).

Definition removeSortsAndFiltersByKeys (d : Dataview) (keys : list string) : Dataview :=
  match keys with
  | [] => d
  | _ => with_views d (map (remove_by_keys keys) (dv_Views d))
  end.

Definition DeleteRelations (d : Dataview) (relationKeys : list string) : Dataview :=
  removeSortsAndFiltersByKeys (with_links d (rl_Remove (dv_RelationLinks d) relationKeys)) relationKeys.

Definition SetRelations (d : Dataview) (relationLinks : list RelationLink) : Dataview :=
  let removed := (rl_Diff relationLinks (dv_RelationLinks d)).2 in
  removeSortsAndFiltersByKeys (with_links d relationLinks) removed.

(** The filters and sorts go even when the relation is not found. *)
Definition DeleteRelationOld (d : Dataview) (relationKey : string) : Dataview * option string :=
  let found := existsb (λ r, bool_decide (or_Key r = relationKey)) (dv_Relations d) in
  let fix remove l := match l with
                      | [] => []
                      | r :: l => if bool_decide (or_Key r = relationKey) then l else r :: remove l
                      end in
  let d := with_old d (remove (dv_Relations d)) in
  let d := with_views d (map (λ view,
             with_sorts (with_filters view
                 (foldl (λ l filter, if bool_decide (vf_RelationKey filter ≠ relationKey) then l ++ [filter] else l)
                    [] (vw_Filters view)))
               (foldl (λ l sort, if bool_decide (vs_RelationKey sort ≠ relationKey) then l ++ [sort] else l)
                  [] (vw_Sorts view))) (dv_Views d)) in
  (d, if found then None else Some ErrRelationNotFound).

(** [pbtypes.CopyRelation] copies through the encoding. *)
Definition UpdateRelationOld (d : Dataview) (relationKey : string) (rel : OldRelation) : Dataview * option string :=
  if bool_decide (relationKey ≠ or_Key rel)
  then (d, Some "changing key of existing relation is retricted")
  else match replace_first (λ v, bool_decide (or_Key v = relationKey)) (λ _, rel) (dv_Relations d) with
       | Some l => (with_old d l, None)
       | None => (d, Some ErrRelationNotFound)
       end.
End relations.

(** ** Filters, sorts and relations of a view ([views.go])

    New ids come from generators, functions of a counter. *)

Section views.
Context (NewObjectId : nat → string).

Definition set_filter_id (f : ViewFilter) (id : string) : ViewFilter :=
  {| vf_Id := id; vf_Operator := vf_Operator f; vf_RelationKey := vf_RelationKey f;
     vf_RelationProperty := vf_RelationProperty f; vf_Condition := vf_Condition f; vf_Value := vf_Value f;
     vf_QuickOption := vf_QuickOption f; vf_Format := vf_Format f; vf_IncludeTime := vf_IncludeTime f;
     vf_NestedFilters := vf_NestedFilters f |}.
Definition set_filter_format (f : ViewFilter) (format : Z) : ViewFilter :=
  {| vf_Id := vf_Id f; vf_Operator := vf_Operator f; vf_RelationKey := vf_RelationKey f;
     vf_RelationProperty := vf_RelationProperty f; vf_Condition := vf_Condition f; vf_Value := vf_Value f;
     vf_QuickOption := vf_QuickOption f; vf_Format := format; vf_IncludeTime := vf_IncludeTime f;
     vf_NestedFilters := vf_NestedFilters f |}.
Definition set_filter_value (f : ViewFilter) (value : PbValue) : ViewFilter :=
  {| vf_Id := vf_Id f; vf_Operator := vf_Operator f; vf_RelationKey := vf_RelationKey f;
     vf_RelationProperty := vf_RelationProperty f; vf_Condition := vf_Condition f; vf_Value := value;
     vf_QuickOption := vf_QuickOption f; vf_Format := vf_Format f; vf_IncludeTime := vf_IncludeTime f;
     vf_NestedFilters := vf_NestedFilters f |}.
Definition set_sort_id (s : ViewSort) (id : string) : ViewSort :=
  {| vs_RelationKey := vs_RelationKey s; vs_Type := vs_Type s; vs_CustomOrder := vs_CustomOrder s;
     vs_Format := vs_Format s; vs_IncludeTime := vs_IncludeTime s; vs_Id := id;
     vs_EmptyPlacement := vs_EmptyPlacement s; vs_NoCollate := vs_NoCollate s |}.

(** [if x.Id == "" { x.Id = bson.NewObjectId().Hex() }] *)
Definition fill_id (id : string) (n : nat) : string * nat :=
  if bool_decide (id = "") then (NewObjectId n, S n) else (id, n).

(** A filter gets the format of every link with its key in turn. *)
Definition setRelationFormat (d : Dataview) (filter : ViewFilter) : ViewFilter :=
  foldl (λ filter relLink,
    if bool_decide (rl_Key relLink = vf_RelationKey filter)
    then set_filter_format filter (rl_Format relLink) else filter) filter (dv_RelationLinks d).

Definition AddFilter (d : Dataview) (viewID : string) (filter : ViewFilter) (n : nat) :
    Dataview * option string * nat :=
  let d := resetObjectOrderForView d viewID in
  match GetView d viewID with
  | Err e => (d, Some e, n)
  | Ok _ =>
      let '(id, n) := fill_id (vf_Id filter) n in
      let filter := setRelationFormat d (set_filter_id filter id) in
      (on_view d viewID (λ view, with_filters view (vw_Filters view ++ [filter])), n)
  end.

Definition RemoveFilters (d : Dataview) (viewID : string) (filterIDs : list string) : Dataview * option string :=
  on_view (resetObjectOrderForView d viewID) viewID (λ view,
    with_filters view (Slice.Filter (vw_Filters view) (λ f, bool_decide (FindPos filterIDs (vf_Id f) = -1)%Z))).

Definition ReplaceFilter (d : Dataview) (viewID filterID : string) (filter : ViewFilter) (n : nat) :
    Dataview * option string * nat :=
  let d := resetObjectOrderForView d viewID in
  match GetView d viewID with
  | Err e => (d, Some e, n)
  | Ok view =>
      let idx := Slice.Find (vw_Filters view) (λ f, bool_decide (vf_Id f = filterID)) in
      if (idx <? 0)%Z then AddFilter d viewID filter n
      else let filter := setRelationFormat d (set_filter_id filter filterID) in
           (on_view d viewID (λ view, with_filters view (<[Z.to_nat idx := filter]> (vw_Filters view))), n)
  end.

(** A map from ids, the last element of an id winning, read in the requested order. *)
Definition by_ids {T} (getID : T → string) (l : list T) (ids : list string) : list T :=
  let m : gmap string T := foldl (λ m f, <[getID f := f]> m) ∅ l in
  foldl (λ res id, match m !! id with Some f => res ++ [f] | None => res end) [] ids.

Definition ReorderFilters (d : Dataview) (viewID : string) (ids : list string) : Dataview * option string :=
  on_view d viewID (λ view, with_filters view (by_ids vf_Id (vw_Filters view) ids)).

Definition AddSort (d : Dataview) (viewID : string) (sort : ViewSort) (n : nat) :
    Dataview * option string * nat :=
  let d := resetObjectOrderForView d viewID in
  match GetView d viewID with
  | Err e => (d, Some e, n)
  | Ok _ =>
      let '(id, n) := fill_id (vs_Id sort) n in
      (on_view d viewID (λ view, with_sorts view (vw_Sorts view ++ [set_sort_id sort id])), n)
  end.

Definition RemoveSorts (d : Dataview) (viewID : string) (ids : list string) : Dataview * option string :=
  on_view (resetObjectOrderForView d viewID) viewID (λ view,
    with_sorts view (Slice.Filter (vw_Sorts view) (λ f, bool_decide (FindPos ids (vs_Id f) = -1)%Z))).

Definition ReplaceSort (d : Dataview) (viewID id : string) (sort : ViewSort) (n : nat) :
    Dataview * option string * nat :=
  let d := resetObjectOrderForView d viewID in
  match GetView d viewID with
  | Err e => (d, Some e, n)
  | Ok view =>
      let idx := Slice.Find (vw_Sorts view) (λ f, bool_decide (vs_Id f = id)) in
      if (idx <? 0)%Z then AddSort d viewID sort n
      else (on_view d viewID (λ view, with_sorts view (<[Z.to_nat idx := sort]> (vw_Sorts view))), n)
  end.

Definition ReorderSorts (d : Dataview) (viewID : string) (ids : list string) : Dataview * option string :=
  on_view (resetObjectOrderForView d viewID) viewID (λ view, with_sorts view (by_ids vs_Id (vw_Sorts view) ids)).

Definition replace_relation (relationKey : string) (relation : ViewRelation) (view : View) : View :=
  let idx := Slice.Find (vw_Relations view) (λ f, bool_decide (vr_Key f = relationKey)) in
  if (idx <? 0)%Z then with_relations view (vw_Relations view ++ [relation])
  else with_relations view (<[Z.to_nat idx := relation]> (vw_Relations view)).

Definition ReplaceViewRelation (d : Dataview) (viewID relationKey : string) (relation : ViewRelation) :
    Dataview * option string :=
  on_view d viewID (replace_relation relationKey relation).

Definition AddViewRelation (d : Dataview) (viewID : string) (relation : ViewRelation) : Dataview * option string :=
  ReplaceViewRelation d viewID (vr_Key relation) relation.

Definition RemoveViewRelations (d : Dataview) (viewID : string) (relationKeys : list string) :
    Dataview * option string :=
  on_view d viewID (λ view,
    with_relations view (Slice.Filter (vw_Relations view) (λ f, bool_decide (FindPos relationKeys (vr_Key f) = -1)%Z))).

(** The keys that the request misses are added behind it. *)
Definition ReorderViewRelations (d : Dataview) (viewID : string) (relationKeys : list string) :
    Dataview * option string :=
  on_view d viewID (λ view,
    let keys := foldl (λ keys r, if bool_decide (vr_Key r ∈ keys) then keys else keys ++ [vr_Key r])
                  relationKeys (vw_Relations view) in
    with_relations view (by_ids vr_Key (vw_Relations view) keys)).

Fixpoint fill_ids {T} (get : T → string) (set : T → string → T) (l : list T) (n : nat) : list T * nat :=
  match l with
  | [] => ([], n)
  | x :: l =>
      let '(id, n) := fill_id (get x) n in
      let '(l, n) := fill_ids get set l n in
      (set x id :: l, n)
  end.

Definition set_view_id (v : View) (id : string) : View :=
  {| vw_Id := id; vw_Fields := vw_Fields v; vw_Sorts := vw_Sorts v; vw_Filters := vw_Filters v;
     vw_Relations := vw_Relations v |}.

(** [Validate] of the block names views without an id. *)
Definition dv_Validate (d : Dataview) (n : nat) : Dataview * nat :=
  let '(views, n) := fill_ids vw_Id set_view_id (dv_Views d) n in
  (with_views d views, n).

Context (NewUuid : nat → string).

(** The filters and sorts are those of the caller's view: it sees their ids as well. *)
Definition added_view (view : View) (n : nat) : View * nat :=
  let '(id, n) := if bool_decide (vw_Id view = "") then (NewUuid n, S n) else (vw_Id view, n) in
  let '(filters, n) := fill_ids vf_Id set_filter_id (vw_Filters view) n in
  let '(sorts, n) := fill_ids vs_Id set_sort_id (vw_Sorts view) n in
  (with_sorts (with_filters (set_view_id view id) filters) sorts, n).

Definition AddView (d : Dataview) (view : View) (n : nat) : Dataview * nat :=
  let '(view, n) := added_view view n in
  (with_views d (dv_Views d ++ [view]), n).

Definition set_option_id (o : OldOption) (id : string) : OldOption :=
  {| oo_Id := id; oo_Text := oo_Text o; oo_Color := oo_Color o; oo_RelationKey := oo_RelationKey o;
     oo_OrderId := oo_OrderId o |}.

Definition AddRelationOld (d : Dataview) (r : OldRelation) (n : nat) : Dataview * nat :=
  let '(key, n) := fill_id (or_Key r) n in
  let '(dict, n) := fill_ids oo_Id set_option_id (or_SelectDict r) n in
  let r := {| or_Id := or_Id r; or_Key := key; or_Format := or_Format r; or_Name := or_Name r;
              or_DefaultValue := or_DefaultValue r; or_DataSource := or_DataSource r;
              or_Hidden := or_Hidden r; or_ReadOnly := or_ReadOnly r;
              or_ReadOnlyRelation := or_ReadOnlyRelation r; or_Multi := or_Multi r;
              or_ObjectTypes := or_ObjectTypes r; or_SelectDict := dict; or_MaxCount := or_MaxCount r;
              or_Description := or_Description r; or_Scope := or_Scope r; or_Creator := or_Creator r;
              or_Revision := or_Revision r; or_IncludeTime := or_IncludeTime r |} in
  (with_old d (dv_Relations d ++ [r]), n).
End views.

(** ** Object ids in a dataview *)

Definition GetStringValue (v : PbValue) : string := match v with PString s => s | _ => "" end.

Definition filter_ids (filter : ViewFilter) : list string :=
  if bool_decide (vf_Format filter ≠ RelationFormat_object) && bool_decide (vf_Format filter ≠ RelationFormat_status)
     && bool_decide (vf_Format filter ≠ RelationFormat_tag)
  then []
  else if bool_decide (GetStringValue (vf_Value filter) ≠ "") then [GetStringValue (vf_Value filter)]
  else match vf_Value filter with PList l => map GetStringValue l | _ => [] end.

Definition getIdsFromFilters (filters : list ViewFilter) : list string :=
  foldl (λ ids filter, ids ++ filter_ids filter) [] filters.

Definition FillSmartIds (d : Dataview) (ids : list string) : list string :=
  let ids := if bool_decide (dv_TargetObjectId d ≠ "") then ids ++ [dv_TargetObjectId d] else ids in
  foldl (λ ids view,
    let f := vw_Fields view in
    let ids := if bool_decide (f_DefaultObjectTypeId f ≠ "") then ids ++ [f_DefaultObjectTypeId f] else ids in
    let ids := if bool_decide (f_DefaultTemplateId f ≠ "") then ids ++ [f_DefaultTemplateId f] else ids in
    ids ++ getIdsFromFilters (vw_Filters view)) ids (dv_Views d).

Definition HasSmartIds (d : Dataview) : bool :=
  existsb (λ view, bool_decide (f_DefaultObjectTypeId (vw_Fields view) ≠ "")
                   || bool_decide (f_DefaultTemplateId (vw_Fields view) ≠ "")) (dv_Views d)
  || bool_decide (0 < length (dv_RelationLinks d)) || bool_decide (dv_TargetObjectId d ≠ "").

Definition ReplaceLinkIds (d : Dataview) (replacer : string → string) : Dataview :=
  if bool_decide (dv_TargetObjectId d ≠ "") then SetTargetObjectID d (replacer (dv_TargetObjectId d)) else d.

Definition migrateFilesInFilter (migrateFunc : string → string) (filter : ViewFilter) : ViewFilter :=
  if bool_decide (vf_Format filter ≠ RelationFormat_object) && bool_decide (vf_Format filter ≠ RelationFormat_file)
  then filter
  else match vf_Value filter with
       | PString v => set_filter_value filter (pb_String (migrateFunc v))
       | PList l =>
           let ids := ListValueToStrings l in
           if existsb (λ id, bool_decide (migrateFunc id ≠ id)) ids
           then set_filter_value filter (pb_StringList (map migrateFunc ids)) else filter
       | _ => filter
       end.

Definition MigrateFile (d : Dataview) (migrateFunc : string → string) : Dataview :=
  with_views d (map (λ view, with_filters view (map (migrateFilesInFilter migrateFunc) (vw_Filters view))) (dv_Views d)).

(** ** The editor ([core/block/editor/dataview/dataview.go])

    What the handlers do to the block's content between looking it up and applying
    the state; a handler that fails applies nothing. *)

Section editor.
Context (NewObjectId NewUuid : nat → string).

Definition editor_DeleteView (d : Dataview) (viewId : string) : res Dataview :=
  match DeleteView d viewId with
  | (_, Some e) => Err e
  | (d, None) => if bool_decide (length (dv_Views d) = 0) then Err "cannot remove the last view" else Ok d
  end.

Definition editor_SetActiveView (d : Dataview) (activeViewId : string) : res Dataview :=
  match GetView d activeViewId with
  | Err e => Err e
  | Ok _ => Ok (SetActiveView d activeViewId)
  end.

(** [newViews] grows along [views]; the moved view [v] is put where it has [newPos] views. *)
Fixpoint place_view (i curPos newPos : nat) (v : View) (views newViews : list View) : list View :=
  match views with
  | [] => if bool_decide (length newViews = newPos) then newViews ++ [v] else newViews
  | view :: views =>
      let newViews := if bool_decide (length newViews = newPos) then newViews ++ [v] else newViews in
      place_view (S i) curPos newPos v views (if bool_decide (i ≠ curPos) then newViews ++ [view] else newViews)
  end.

Definition editor_SetViewPosition (d : Dataview) (viewId : string) (position : nat) : res Dataview :=
  let views := dv_Views d in
  let curPos := Slice.Find views (λ view, bool_decide (vw_Id view = viewId)) in
  match views !! Z.to_nat curPos with
  | Some v =>
      if (curPos <? 0)%Z then Err "view not found"
      else let newPos := if bool_decide (length views - 1 < position) then length views - 1 else position in
           Ok (with_views d (place_view 0 (Z.to_nat curPos) newPos v views []))
  | None => Err "view not found"
  end.

Definition RelationKeyName : string := "name".
Definition RelationKeyLastModifiedDate : string := "lastModifiedDate".

Definition plain_relation (key : string) (isVisible : bool) : ViewRelation :=
  {| vr_Key := key; vr_IsVisible := isVisible; vr_Width := 0; vr_DateIncludeTime := false;
     vr_TimeFormat := 0; vr_DateFormat := 0; vr_Formula := 0; vr_Align := 0 |}.

Definition DefaultLastModifiedDateSort (n : nat) : list ViewSort * nat :=
  ([{| vs_RelationKey := RelationKeyLastModifiedDate; vs_Type := 1; vs_CustomOrder := [];
       vs_Format := RelationFormat_longtext; vs_IncludeTime := false; vs_Id := NewObjectId n;
       vs_EmptyPlacement := 0; vs_NoCollate := false |}], S n).

Definition editor_CreateView (d : Dataview) (view : View) (n : nat) : Dataview * View * nat :=
  let view := set_view_id view (NewUuid n) in
  let n := S n in
  let view := if bool_decide (length (vw_Relations view) = 0)
              then with_relations view (foldl (λ l rl, l ++ [plain_relation (rl_Key rl)
                     (bool_decide (rl_Key rl = RelationKeyName))]) (vw_Relations view) (dv_RelationLinks d))
              else view in
  let '(view, n) := if bool_decide (length (vw_Sorts view) = 0)
                    then let '(sorts, n) := DefaultLastModifiedDateSort n in (with_sorts view sorts, n)
                    else (view, n) in
  let '(d', n') := AddView NewObjectId NewUuid d view n in
  (d', (added_view NewObjectId NewUuid view n).1, n').
End editor.

(** ** Well-formed dataviews

    Ids are there and tell the elements of a list apart. *)

Definition ids_ok {T} (getID : T → string) (l : list T) : Prop :=
  NoDup (getID <$> l) ∧ "" ∉ getID <$> l.

Record wf_view (v : View) : Prop := {
  wfv_filters : ids_ok vf_Id (vw_Filters v);
  wfv_sorts : ids_ok vs_Id (vw_Sorts v);
  wfv_relations : ids_ok vr_Key (vw_Relations v);
}.

Definition order_key (o : ObjectOrder) : string * string := (oo_ViewId o, oo_GroupId o).

Record wf_dv (d : Dataview) : Prop := {
  wfd_ids : ids_ok vw_Id (dv_Views d);
  wfd_views : Forall wf_view (dv_Views d);
  wfd_groups : NoDup (gro_ViewId <$> dv_GroupOrders d);
  wfd_orders : NoDup (order_key <$> dv_ObjectOrders d);
  wfd_objects : Forall (λ o, ids_ok id (oo_ObjectIds o)) (dv_ObjectOrders d);
}.

(** ** Lists of views *)

Lemma ids_ok_filter {T} (getID : T → string) (P : T → Prop) `{∀ x, Decision (P x)} l :
  ids_ok getID l → ids_ok getID (filter P l).
Proof.
  intros [Hn He]. split; [by apply NoDup_ids_filter|].
  intros (x & E & [_ Hx]%list_elem_of_filter)%list_elem_of_fmap. apply He. rewrite E. by apply list_elem_of_fmap_2.
Qed.

Lemma foldl_flat_map {A B} (F : list B → A → list B) (f : A → list B) (acc : list B) l :
  (∀ acc x, F acc x = acc ++ f x) → foldl F acc l = acc ++ flat_map f l.
Proof.
  intros HF. revert acc. induction l as [|x l IH]; intros acc; simpl; [by rewrite app_nil_r|].
  by rewrite IH, HF, <- app_assoc.
Qed.

Section lists.
Notation ids := (fmap (M := list) vw_Id).


Lemma find_view_None W i : find_view W i = None ↔ i ∉ ids W.
Proof.
  induction W as [|v W IH]; simpl; [set_solver|]. case_bool_decide as E; [set_solver|].
  rewrite IH, not_elem_of_cons. naive_solver.
Qed.

Lemma find_view_Some W i v : find_view W i = Some v → v ∈ W ∧ vw_Id v = i.
Proof.
  induction W as [|w W IH]; simpl; [done|]. case_bool_decide as E; [intros [= ->]; split; [by left|done]|].
  intros [? ?]%IH. split; [by right|done].
Qed.

Lemma find_view_elem W v : NoDup (ids W) → v ∈ W → find_view W (vw_Id v) = Some v.
Proof.
  intros Hn Hv. destruct (find_view W (vw_Id v)) as [w|] eqn:E.
  - apply find_view_Some in E as [Hw E]. f_equal. by apply (NoDup_ids_inj vw_Id W).
  - apply find_view_None in E. destruct E. by apply list_elem_of_fmap_2.
Qed.

Lemma change_view_map f i W :
  NoDup (ids W) → change_view f i W = map (λ v, if bool_decide (vw_Id v = i) then f v else v) W.
Proof.
  unfold change_view. induction W as [|v W IH]; intros Hn; [done|]. apply NoDup_cons in Hn as [Hv Hn]. simpl.
  case_bool_decide as E.
  - simpl. f_equal. rewrite <- (list_fmap_id W) at 1. apply list_fmap_ext. intros k w Hw. rewrite bool_decide_eq_false_2; [done|].
    intros E'. apply Hv. rewrite E, <- E'. eapply list_elem_of_fmap_2, list_elem_of_lookup_2; done.
  - rewrite <- IH by done. by destruct (replace_first _ f W).
Qed.

Lemma delete_view_filter W i :
  NoDup (ids W) → default W (delete_view W i) = filter (λ v, vw_Id v ≠ i) W.
Proof.
  induction W as [|v W IH]; intros Hn; [done|]. apply NoDup_cons in Hn as [Hv Hn]. simpl.
  rewrite filter_cons. case_bool_decide as E.
  - rewrite decide_False by tauto. simpl. symmetry. apply filter_all. intros w Hw E'. apply Hv.
    rewrite E, <- E'. by apply list_elem_of_fmap_2.
  - rewrite decide_True by done. rewrite <- IH by done. by destruct (delete_view W i).
Qed.

Lemma ids_without (D : list string) W : ids (filter (λ v, vw_Id v ∉ D) W) = filter (λ i, i ∉ D) (ids W).
Proof.
  induction W as [|v W IH]; [done|]. rewrite fmap_cons, !filter_cons.
  case_decide; [rewrite fmap_cons|]; by rewrite IH.
Qed.
End lists.

(** A view that has its ids is added as it is. *)

Section added.
Context (NewObjectId NewUuid : nat → string).

Lemma fill_ids_same {T} (get : T → string) (set : T → string → T) l n :
  (∀ x, set x (get x) = x) → "" ∉ get <$> l → fill_ids NewObjectId get set l n = (l, n).
Proof.
  intros Hset. induction l as [|x l IH]; intros He; [done|]. simpl. unfold fill_id.
  rewrite fmap_cons, not_elem_of_cons in He. rewrite bool_decide_eq_false_2 by naive_solver.
  rewrite IH by tauto. by rewrite Hset.
Qed.

Lemma AddView_wf d v n :
  vw_Id v ≠ "" → wf_view v → AddView NewObjectId NewUuid d v n = (with_views d (dv_Views d ++ [v]), n).
Proof.
  intros Hv [[_ F] [_ S] _]. unfold AddView, added_view. rewrite bool_decide_eq_false_2 by done.
  rewrite !fill_ids_same by (done || (intros []; done)). by destruct v.
Qed.
End added.
