(* ===== verification/DataviewDiff.v ===== *)
(** * Messages of dataview blocks ([core/block/simple/dataview/diff.go], [view_changes.go])

    [Diff] compares the dataview blocks of two states; its messages are sent to the
    clients and recorded in the log, and [apply_event] is what another device does with
    one ([applyEvent] of [core/block/editor/state/event.go]).  [DataviewReplay] proves what
    they carry.  [proto.Equal] of the protobuf library is a parameter. *)

From S2P Require Import Prelude Slice GoFloat Values PbTypes SliceDiff Filter Dataview.

Class ProtoEqual (T : Type) := proto_Equal : T → T → bool.

(** ** Messages *)

(** One operation of a [ViewUpdate] on a list; the last is a message of no kind. *)
Inductive ViewOp (T : Type) : Type :=
| OpAdd (AfterId : string) (Items : list T)
| OpRemove (Ids : list string)
| OpMove (AfterId : string) (Ids : list string)
| OpUpdate (Id : string) (Item : T)
| OpNone.
Arguments OpAdd {T} _ _.
Arguments OpRemove {T} _.
Arguments OpMove {T} _ _.
Arguments OpUpdate {T} _ _.
Arguments OpNone {T}.

Record ViewUpdate := {
  vu_ViewId : string;
  vu_Fields : option ViewFields;
  vu_Filter : list (ViewOp ViewFilter);
  vu_Relation : list (ViewOp ViewRelation);
  vu_Sort : list (ViewOp ViewSort);
}.

Inductive SliceOperation :=
| SliceOperationNone | SliceOperationAdd | SliceOperationMove | SliceOperationRemove | SliceOperationReplace.
Record SliceChange := { sc_Op : SliceOperation; sc_Ids : list string; sc_AfterId : string }.

Inductive DvEvent :=
| SourceSet (Source : list string)
| ViewSet (ViewId : string) (View : option View)
| ViewOrder (ViewIds : list string)
| ViewDelete (ViewId : string)
| OldRelationSet (RelationKey : string) (Relation : option OldRelation)
| OldRelationDelete (RelationKey : string)
| RelationSet (RelationLinks : list RelationLink)
| RelationDelete (RelationKeys : list string)
| GroupOrderUpdate (Order : GroupOrder)
| ObjectOrderUpdate (ViewId GroupId : string) (SliceChanges : list SliceChange)
| ViewUpdated (upd : ViewUpdate)
| TargetObjectIdSet (TargetObjectId : string)
| IsCollectionSet (Value : bool).

(** ** Diff *)

Section diff.
Context `{!LoUniqBy, !Mb0Diff}.
Context `{!ProtoEqual ViewFilter, !ProtoEqual ViewRelation, !ProtoEqual ViewSort, !ProtoEqual GroupOrder}.

Definition fields_equal (a b : ViewFields) : bool :=
  bool_decide (f_Type a = f_Type b) &&
  bool_decide (f_Name a = f_Name b) &&
  bool_decide (f_CoverRelationKey a = f_CoverRelationKey b) &&
  bool_decide (f_HideIcon a = f_HideIcon b) &&
  bool_decide (f_CardSize a = f_CardSize b) &&
  bool_decide (f_CoverFit a = f_CoverFit b) &&
  bool_decide (f_GroupRelationKey a = f_GroupRelationKey b) &&
  bool_decide (f_EndRelationKey a = f_EndRelationKey b) &&
  bool_decide (f_GroupBackgroundColors a = f_GroupBackgroundColors b) &&
  bool_decide (f_PageLimit a = f_PageLimit b) &&
  bool_decide (f_DefaultTemplateId a = f_DefaultTemplateId b) &&
  bool_decide (f_DefaultObjectTypeId a = f_DefaultObjectTypeId b) &&
  bool_decide (f_WrapContent a = f_WrapContent b).

Definition diffViewFields (a b : View) : option ViewFields :=
  if fields_equal (vw_Fields a) (vw_Fields b) then None else Some (vw_Fields b).

Definition unwrap_ops {T} (diff : list (Change T)) : list (ViewOp T) :=
  if bool_decide (length diff = 0) then []
  else UnwrapChanges diff (λ afterID items, OpAdd afterID items) (λ ids, OpRemove ids)
         (λ afterID ids, OpMove afterID ids) (λ id item, OpUpdate id item).

Definition diffViewFilters (a b : View) : list (ViewOp ViewFilter) :=
  unwrap_ops (SliceDiff.Diff vf_Id proto_Equal (vw_Filters a) (vw_Filters b)).
Definition diffViewRelations (a b : View) : list (ViewOp ViewRelation) :=
  unwrap_ops (SliceDiff.Diff vr_Key proto_Equal (vw_Relations a) (vw_Relations b)).
Definition diffViewSorts (a b : View) : list (ViewOp ViewSort) :=
  unwrap_ops (SliceDiff.Diff vs_Id proto_Equal (vw_Sorts a) (vw_Sorts b)).

(** Replacements are not supported: equal ids are equal objects. *)
Definition slice_change (c : Change string) : list SliceChange :=
  match c with
  | ChangeAdd items afterID => [{| sc_Op := SliceOperationAdd; sc_Ids := items; sc_AfterId := afterID |}]
  | ChangeMove ids afterID => [{| sc_Op := SliceOperationMove; sc_Ids := ids; sc_AfterId := afterID |}]
  | ChangeRemove ids => [{| sc_Op := SliceOperationRemove; sc_Ids := ids; sc_AfterId := "" |}]
  | ChangeReplace _ _ => []
  end.

Definition diffViewObjectOrder (a b : ObjectOrder) : list SliceChange :=
  foldl (λ res sliceCh, res ++ slice_change sliceCh) []
    (SliceDiff.Diff (λ s, s) (λ x y, bool_decide (x = y)) (oo_ObjectIds a) (oo_ObjectIds b)).

Implicit Types (d other : Dataview) (msgs : list DvEvent).

Definition find_group (viewId : string) (l : list GroupOrder) : option GroupOrder :=
  List.find (λ order1, bool_decide (gro_ViewId order1 = viewId)) l.

Definition diffGroupOrders d other : list DvEvent :=
  foldl (λ msgs order2,
    let '(found, changed) :=
      match find_group (gro_ViewId order2) (dv_GroupOrders d) with
      | Some order1 => (true, negb (proto_Equal order1 order2))
      | None => (false, false)
      end in
    if negb found || changed then msgs ++ [GroupOrderUpdate order2] else msgs) [] (dv_GroupOrders other).

Definition find_order (viewId groupId : string) (l : list ObjectOrder) : option ObjectOrder :=
  List.find (is_order viewId groupId) l.

Definition diffObjectOrders d other : list DvEvent :=
  foldl (λ msgs order2,
    match find_order (oo_ViewId order2) (oo_GroupId order2) (dv_ObjectOrders d) with
    | Some order1 =>
        let changes := diffViewObjectOrder order1 order2 in
        if bool_decide (0 < length changes)
        then msgs ++ [ObjectOrderUpdate (oo_ViewId order2) (oo_GroupId order2) changes] else msgs
    | None =>
        msgs ++ [ObjectOrderUpdate (oo_ViewId order2) (oo_GroupId order2)
          [{| sc_Op := SliceOperationAdd; sc_Ids := oo_ObjectIds order2; sc_AfterId := "" |}]]
    end) [] (dv_ObjectOrders other).

Definition diffRelationLinks d other : list DvEvent :=
  let '(added, removed) := rl_Diff (dv_RelationLinks other) (dv_RelationLinks d) in
  (if bool_decide (0 < length removed) then [RelationDelete removed] else []) ++
  (if bool_decide (0 < length added) then [RelationSet added] else []).

Definition diff_view (views1 : list View) (view2 : View) : list DvEvent :=
  match find_view views1 (vw_Id view2) with
  | Some view1 =>
      let upd := {| vu_ViewId := vw_Id view2; vu_Fields := diffViewFields view1 view2;
                    vu_Filter := diffViewFilters view1 view2; vu_Relation := diffViewRelations view1 view2;
                    vu_Sort := diffViewSorts view1 view2 |} in
      if bool_decide (0 < length (vu_Filter upd)) || bool_decide (0 < length (vu_Relation upd))
         || bool_decide (0 < length (vu_Sort upd)) || bool_decide (is_Some (vu_Fields upd))
      then [ViewUpdated upd] else []
  | None => [ViewSet (vw_Id view2) (Some view2)]
  end.

Definition diffViews d other : list DvEvent :=
  let msgs := foldl (λ msgs view2, msgs ++ diff_view (dv_Views d) view2) [] (dv_Views other) in
  foldl (λ msgs view1,
    let found := existsb (λ view2, bool_decide (vw_Id view1 = vw_Id view2)) (dv_Views other) in
    if negb found then msgs ++ [ViewDelete (vw_Id view1)] else msgs) msgs (dv_Views d).

Definition diffSources d other : list DvEvent :=
  if UnsortedEqual (dv_Source other) (dv_Source d) then [] else [SourceSet (dv_Source other)].

Definition diffOrderOfViews d other : list DvEvent :=
  let viewIds1 := map vw_Id (dv_Views d) in
  let viewIds2 := map vw_Id (dv_Views other) in
  if SortedEquals viewIds1 viewIds2 then [] else [ViewOrder viewIds2].

Definition diffTargetObjectIDs d other : list DvEvent :=
  if bool_decide (dv_TargetObjectId other ≠ dv_TargetObjectId d)
  then [TargetObjectIdSet (dv_TargetObjectId other)] else [].

Definition diffIsCollections d other : list DvEvent :=
  if bool_decide (dv_IsCollection other ≠ dv_IsCollection d) then [IsCollectionSet (dv_IsCollection other)] else [].

(** The messages on the content; those on the rest of the block come before them
    ([base_Diff] of [StateApply]). *)
Definition Diff d other : list DvEvent :=
  diffGroupOrders d other ++ diffObjectOrders d other ++ diffRelationLinks d other ++ diffViews d other ++
  diffSources d other ++ diffOrderOfViews d other ++ diffTargetObjectIDs d other ++ diffIsCollections d other.
End diff.

(** ** Applying messages *)

Section apply.
Context `{!LoUniqBy, !SamberLo} (NewObjectId NewUuid : nat → string).

Definition op_change {T} (r : ViewOp T) : option (Change T) :=
  match r with
  | OpUpdate id item => Some (ChangeReplace item id)
  | OpAdd afterId items => Some (ChangeAdd items afterId)
  | OpRemove ids => Some (ChangeRemove ids)
  | OpMove afterId ids => Some (ChangeMove ids afterId)
  | OpNone => None
  end.

Definition update_view (upd : ViewUpdate) (view : View) : option View :=
  let view := match vu_Fields upd with Some f => assign_fields view f | None => view end in
  relations ← ApplyChanges vr_Key (vw_Relations view) (omap op_change (vu_Relation upd));
  filters ← ApplyChanges vf_Id (vw_Filters view) (omap op_change (vu_Filter upd));
  sorts ← ApplyChanges vs_Id (vw_Sorts view) (omap op_change (vu_Sort upd));
  Some (with_sorts (with_filters (with_relations view relations) filters) sorts).

Definition ApplyViewUpdate (d : Dataview) (upd : ViewUpdate) : option Dataview :=
  match find_view (dv_Views d) (vu_ViewId upd) with
  | None => Some d
  | Some view =>
      view' ← update_view upd view;
      Some (with_views d (change_view (λ _, view') (vu_ViewId upd) (dv_Views d)))
  end.

(** [ApplyChanges] does nothing for the zero [Change] of an unsupported operation. *)
Definition sc_change (c : SliceChange) : option (Change string) :=
  match sc_Op c with
  | SliceOperationAdd => Some (ChangeAdd (sc_Ids c) (sc_AfterId c))
  | SliceOperationMove => Some (ChangeMove (sc_Ids c) (sc_AfterId c))
  | SliceOperationRemove => Some (ChangeRemove (sc_Ids c))
  | SliceOperationReplace | SliceOperationNone => None
  end.

Definition ApplyObjectOrderUpdate (d : Dataview) (viewId groupId : string) (rawChanges : list SliceChange) :
    option Dataview :=
  let existOrder := foldl (λ ex order, if is_order viewId groupId order then oo_ObjectIds order else ex)
                      [] (dv_ObjectOrders d) in
  changedIds ← ApplyChanges (λ s, s) existOrder (omap sc_change rawChanges);
  Some (SetViewObjectOrder d [{| oo_ViewId := viewId; oo_GroupId := groupId; oo_ObjectIds := changedIds |}]).

(** A message on the dataview block it names: the content, the counter of ids and the
    error it leaves; [None] is a panic. *)
Definition apply_event (st : Dataview * nat) (ev : DvEvent) : option (Dataview * nat * option string) :=
  let '(d, n) := st in
  match ev with
  | SourceSet source => Some (SetSource d source, n, None)
  | ViewSet viewId (Some view) =>
      match SetView d viewId view with
      | (d, None) => Some (d, n, None)
      | (d, Some _) => let '(d, n) := AddView NewObjectId NewUuid d view n in Some (d, n, None)
      end
  | ViewSet _ None => Some (d, n, Some "not a dataview block")
  | ViewOrder viewIds => Some (SetViewOrder d viewIds, n, None)
  | ViewDelete viewId =>
      let '(d, err) := DeleteView d viewId in
      Some (d, n, match err with
                  | Some e => if bool_decide (e ≠ ErrViewNotFound) then Some e else None
                  | None => None
                  end)
  | OldRelationSet relationKey (Some rel) =>
      match UpdateRelationOld d relationKey rel with
      | (d, Some er) =>
          if bool_decide (er = ErrRelationNotFound)
          then let '(d, n) := AddRelationOld NewObjectId d rel n in
               let d := (AddRelation d {| rl_Key := or_Key rel; rl_Format := or_Format rel |}).1 in
               Some (d, n, Some "not a dataview block")
          else Some (d, n, Some er)
      | (d, None) => Some (d, n, None)
      end
  | OldRelationSet _ None => Some (d, n, Some "not a dataview block")
  | OldRelationDelete relationKey =>
      match DeleteRelationOld d relationKey with
      | (d, Some e) => Some (d, n, Some e)
      | (d, None) => Some (DeleteRelations d [relationKey], n, Some "not a dataview block")
      end
  | RelationSet links => Some (foldl (λ d rel, (AddRelation d rel).1) d links, n, None)
  | RelationDelete keys => Some (DeleteRelations d keys, n, None)
  | GroupOrderUpdate order => Some (SetViewGroupOrder d order, n, None)
  | ObjectOrderUpdate viewId groupId changes =>
      d ← ApplyObjectOrderUpdate d viewId groupId changes; Some (d, n, None)
  | ViewUpdated upd => d ← ApplyViewUpdate d upd; Some (d, n, None)
  | TargetObjectIdSet target => Some (SetTargetObjectID d target, n, None)
  | IsCollectionSet value => Some (SetIsCollection d value, n, None)
  end.

(** The events of one recorded update; the errors are collected
    ([changeBlockUpdate] of [change.go]). *)
Fixpoint apply_events (st : Dataview * nat) (evs : list DvEvent) : option (Dataview * nat * list string) :=
  match evs with
  | [] => Some (st, [])
  | ev :: evs =>
      '(st, err) ← apply_event st ev;
      '(st, errs) ← apply_events st evs;
      Some (st, match err with Some e => e :: errs | None => errs end)
  end.
End apply.
