(* ===== verification/DataviewReplay.v ===== *)
(** * Replaying the messages of dataview blocks

    A replica that applies the messages of [DataviewDiff] to the dataview as it was gets
    the dataview as it is.  The messages come in phases (orders of groups, orders of
    objects, links, views, sources, order of the views, settings) and each phase changes
    its own part of the content; the parts meet where a removed link takes filters and
    sorts along. *)

From S2P Require Import Prelude Slice GoFloat Values PbTypes SliceDiff Filter Dataview DataviewDiff.

(** The keys of links that the second dataview does not have. *)
Definition removed_keys (o c : Dataview) : list string := (rl_Diff (dv_RelationLinks c) (dv_RelationLinks o)).2.

(** No filter and no sort that stays is on a relation that is removed. *)
Definition removed_unused (o c : Dataview) : Prop :=
  ∀ v v', v ∈ dv_Views o → v' ∈ dv_Views c → vw_Id v = vw_Id v' →
    (∀ f, f ∈ vw_Filters v → vf_Id f ∈ vf_Id <$> vw_Filters v' → vf_RelationKey f ∉ removed_keys o c) ∧
    (∀ s, s ∈ vw_Sorts v → vs_Id s ∈ vs_Id <$> vw_Sorts v' → vs_RelationKey s ∉ removed_keys o c).

Section replay.
Context `{!LoUniqBy, !LoUniqByOk, !Mb0Diff, !Mb0DiffOk, !SamberLo, !SamberLoOk}.
Context `{!ProtoEqual ViewFilter, !ProtoEqual ViewRelation, !ProtoEqual ViewSort, !ProtoEqual GroupOrder}.
Context (NewObjectId NewUuid : nat → string).
Abbreviation apply_event := (apply_event NewObjectId NewUuid).
Abbreviation apply_events := (apply_events NewObjectId NewUuid).

(** The elements of one list are those of the other, or ones that [proto.Equal]
    accepts for them. *)
Definition alike {T} `{!ProtoEqual T} (getID : T → string) (l1 l2 : list T) : Prop :=
  Forall2 (λ r b, getID r = getID b ∧ same proto_Equal r b) l1 l2.

Record view_match (r b : View) : Prop := {
  vm_id : vw_Id r = vw_Id b;
  vm_fields : vw_Fields r = vw_Fields b;
  vm_filters : alike vf_Id (vw_Filters r) (vw_Filters b);
  vm_relations : alike vr_Key (vw_Relations r) (vw_Relations b);
  vm_sorts : alike vs_Id (vw_Sorts r) (vw_Sorts b);
}.

(** *** One view *)

Lemma fields_equal_spec a b : fields_equal a b = true → a = b.
Proof.
  unfold fields_equal. rewrite !andb_true_iff, !bool_decide_eq_true.
  destruct a, b; simpl; intros; destruct_and?; by subst.
Qed.

Lemma unwrap_ops_changes {T} (diff : list (Change T)) : omap op_change (unwrap_ops diff) = diff.
Proof.
  unfold unwrap_ops. case_bool_decide as Hl; [by destruct diff|]. clear Hl. unfold UnwrapChanges.
  enough (∀ acc, omap op_change (foldl (λ (res : list (ViewOp T)) c, res ++
    match c with
    | ChangeAdd items afterID => [OpAdd afterID items]
    | ChangeRemove ids => [OpRemove ids]
    | ChangeMove ids afterID => [OpMove afterID ids]
    | ChangeReplace item id => [OpUpdate id item]
    end) acc diff) = omap op_change acc ++ diff) as E by apply (E []).
  induction diff as [|c diff IH]; intros acc; cbn [foldl]; [by rewrite app_nil_r|].
  rewrite IH, omap_app, <- app_assoc. by destruct c.
Qed.

Lemma list_diff_ok {T} `{!ProtoEqual T} (getID : T → string) (P : T → Prop) `{∀ x, Decision (P x)} (l1 l2 : list T) :
  ids_ok getID l1 → ids_ok getID l2 → (∀ x, x ∈ l1 → getID x ∈ getID <$> l2 → P x) →
  ∃ res, ApplyChanges getID (filter P l1) (omap op_change (unwrap_ops (SliceDiff.Diff getID proto_Equal l1 l2))) = Some res ∧
    alike getID res l2.
Proof.
  intros [N1 E1] [N2 E2] HP. rewrite unwrap_ops_changes.
  destruct (Diff_replays getID proto_Equal P l1 (filter P l1) l2) as (res & Hap & Hf); try done.
  - by apply NoDup_ids_inj.
  - intros x [_ Hx]%list_elem_of_filter. done.
  - rewrite !UniqBy_id; [done|done|by apply NoDup_ids_filter].
  - exists res. split; [done|]. by rewrite UniqBy_id in Hf.
Qed.

Lemma remove_by_keys_spec keys v :
  remove_by_keys keys v =
    with_sorts (with_filters v (filter (λ f, vf_RelationKey f ∉ keys) (vw_Filters v)))
      (filter (λ s, vs_RelationKey s ∉ keys) (vw_Sorts v)).
Proof.
  unfold remove_by_keys. rewrite !lo_Filter_spec.
  assert (∀ T (key : T → string) l, List.filter (λ x, negb (bool_decide (key x ∈ keys))) l = filter (λ x, key x ∉ keys) l) as E.
  { intros T key l. induction l as [|x l IH]; [done|]. rewrite filter_cons. simpl. rewrite IH.
    case_bool_decide; case_decide; tauto || done. }
  by rewrite !E.
Qed.

Lemma update_view_ok keys v1 v2 :
  wf_view v1 → wf_view v2 → vw_Id v1 = vw_Id v2 →
  (∀ f, f ∈ vw_Filters v1 → vf_Id f ∈ vf_Id <$> vw_Filters v2 → vf_RelationKey f ∉ keys) →
  (∀ s, s ∈ vw_Sorts v1 → vs_Id s ∈ vs_Id <$> vw_Sorts v2 → vs_RelationKey s ∉ keys) →
  ∃ w, update_view {| vu_ViewId := vw_Id v2; vu_Fields := diffViewFields v1 v2;
                      vu_Filter := diffViewFilters v1 v2; vu_Relation := diffViewRelations v1 v2;
                      vu_Sort := diffViewSorts v1 v2 |} (remove_by_keys keys v1) = Some w ∧ view_match w v2.
Proof.
  intros [F1 S1 R1] [F2 S2 R2] Hid HF HS.
  destruct (list_diff_ok vf_Id (λ f, vf_RelationKey f ∉ keys) _ _ F1 F2 HF) as (fs & Hfs & Af).
  destruct (list_diff_ok vs_Id (λ s, vs_RelationKey s ∉ keys) _ _ S1 S2 HS) as (ss & Hss & As).
  destruct (list_diff_ok vr_Key (λ _, True) _ _ R1 R2) as (rs & Hrs & Ar); [done|].
  rewrite filter_all in Hrs by done.
  unfold update_view, diffViewFields. rewrite remove_by_keys_spec. cbn [vu_Fields vu_Filter vu_Relation vu_Sort].
  assert (∀ v : View, vw_Relations v = vw_Relations v1 →
    vw_Filters v = filter (λ f, vf_RelationKey f ∉ keys) (vw_Filters v1) →
    vw_Sorts v = filter (λ s, vs_RelationKey s ∉ keys) (vw_Sorts v1) →
    vw_Id v = vw_Id v2 → vw_Fields v = vw_Fields v2 →
    ∃ w, (relations ← ApplyChanges vr_Key (vw_Relations v) (omap op_change (diffViewRelations v1 v2));
          filters ← ApplyChanges vf_Id (vw_Filters v) (omap op_change (diffViewFilters v1 v2));
          sorts ← ApplyChanges vs_Id (vw_Sorts v) (omap op_change (diffViewSorts v1 v2));
          Some (with_sorts (with_filters (with_relations v relations) filters) sorts)) = Some w ∧ view_match w v2) as Hgo.
  { intros v Er Ef Es Ei Efd. rewrite Er, Ef, Es. unfold diffViewRelations, diffViewFilters, diffViewSorts.
    rewrite Hrs. simpl. rewrite Hfs. simpl. rewrite Hss. simpl. eexists. split; [done|]. by split. }
  destruct (fields_equal _ _) eqn:Ef.
  - apply fields_equal_spec in Ef. by apply Hgo.
  - apply Hgo; [done..|]. simpl. by destruct (vw_Fields v2).
Qed.

(** A view without changes to send stays as it is. *)
Lemma update_view_nothing id v :
  wf_view v →
  update_view {| vu_ViewId := id; vu_Fields := None; vu_Filter := []; vu_Relation := []; vu_Sort := [] |} v = Some v.
Proof.
  intros [[F _] [S _] [R _]]. unfold update_view, ApplyChanges. cbn [vu_Fields vu_Filter vu_Relation vu_Sort omap list_omap].
  simpl. rewrite !UniqBy_id by done. by destruct v.
Qed.

Lemma remove_by_keys_wf keys v : wf_view v → wf_view (remove_by_keys keys v).
Proof. rewrite remove_by_keys_spec. intros [F S R]. split; [by apply ids_ok_filter..|done]. Qed.

(** *** Sequences of messages *)

Lemma apply_events_app st st' evs1 evs2 :
  apply_events st evs1 = Some (st', []) → apply_events st (evs1 ++ evs2) = apply_events st' evs2.
Proof.
  revert st. induction evs1 as [|e evs1 IH]; intros st; simpl; [by intros [= ->]|].
  destruct (apply_event st e) as [[st1 err]|]; [|done]. simpl.
  destruct (apply_events st1 evs1) as [[st2 errs]|] eqn:E; [|done]. simpl.
  destruct err as [e1|]; intros [= -> ->]. rewrite (IH _ E).
  by destruct (apply_events st' evs2) as [[? ?]|].
Qed.

Lemma apply_events_trans st st1 st2 evs1 evs2 :
  apply_events st evs1 = Some (st1, []) → apply_events st1 evs2 = Some (st2, []) →
  apply_events st (evs1 ++ evs2) = Some (st2, []).
Proof. intros E1 E2. by rewrite (apply_events_app _ _ _ _ E1). Qed.

Notation ids := (fmap (M := list) vw_Id).

(** *** The views *)

Section views_phase.
Context (views1 views2 : list View) (keys : list string).
Context (Hids1 : ids_ok vw_Id views1) (Hids2 : ids_ok vw_Id views2).
Context (Hwf1 : Forall wf_view views1) (Hwf2 : Forall wf_view views2).
Context (Hunused : ∀ v v', v ∈ views1 → v' ∈ views2 → vw_Id v = vw_Id v' →
  (∀ f, f ∈ vw_Filters v → vf_Id f ∈ vf_Id <$> vw_Filters v' → vf_RelationKey f ∉ keys) ∧
  (∀ s, s ∈ vw_Sorts v → vs_Id s ∈ vs_Id <$> vw_Sorts v' → vs_RelationKey s ∉ keys)).

(** The replica's views when the messages of [pre] are applied. *)
Record views_inv (pre W : list View) : Prop := {
  vi_ids : ids W = ids views1 ++ filter (λ i, i ∉ ids views1) (ids pre);
  vi_done : ∀ v, v ∈ pre → ∃ w, w ∈ W ∧ view_match w v;
  vi_rest : ∀ v, v ∈ views1 → vw_Id v ∉ ids pre → remove_by_keys keys v ∈ W;
}.

Lemma remove_by_keys_id v : vw_Id (remove_by_keys keys v) = vw_Id v.
Proof. done. Qed.

Lemma views_inv_start : views_inv [] (map (remove_by_keys keys) views1).
Proof.
  split; [|intros v Hv; by apply elem_of_nil in Hv|].
  - rewrite app_nil_r. clear. induction views1 as [|v l IH]; [done|]. simpl. by f_equal.
  - intros v Hv _. by apply list_elem_of_fmap_2.
Qed.

Lemma views_inv_NoDup pre W : NoDup (ids pre) → views_inv pre W → NoDup (ids W).
Proof.
  intros Hp [-> _ _]. apply NoDup_app. split_and!; [apply Hids1| |by apply NoDup_filter].
  intros i Hi [? _]%list_elem_of_filter. done.
Qed.

(** A view that the replica has. *)
Lemma views_inv_update pre W v1 v2 w :
  NoDup (ids (pre ++ [v2])) → views_inv pre W → v1 ∈ views1 → vw_Id v1 = vw_Id v2 → view_match w v2 →
  views_inv (pre ++ [v2]) (map (λ v, if bool_decide (vw_Id v = vw_Id v2) then w else v) W).
Proof.
  intros Hn HW Hv1 E Hm. rewrite fmap_app in Hn. apply NoDup_app in Hn as (Hn & Hp & _).
  pose proof (views_inv_NoDup pre W Hn HW) as HnW. destruct HW as [Hi Hd Hr].
  assert (Hput : ∀ x, x ∈ W → vw_Id x ≠ vw_Id v2 →
    x ∈ map (λ v, if bool_decide (vw_Id v = vw_Id v2) then w else v) W).
  { intros x Hx Hne. apply list_elem_of_fmap. exists x. by rewrite bool_decide_eq_false_2. }
  split.
  - rewrite fmap_app, filter_app. cbn [fmap list_fmap]. rewrite filter_cons_False, app_nil_r, <- Hi.
    + clear -Hm. induction W as [|v W IH]; [done|]. simpl. f_equal; [|done].
      case_bool_decide as Ev; [by rewrite Ev, (vm_id _ _ Hm)|done].
    + intros Hc. apply Hc. rewrite <- E. by apply list_elem_of_fmap_2.
  - intros v [Hv|Hv%list_elem_of_singleton]%elem_of_app.
    + destruct (Hd v Hv) as (x & Hx & Mx). exists x. split; [|done]. apply Hput; [done|].
      rewrite (vm_id _ _ Mx). intros Ev. apply (Hp (vw_Id v2)); [|by left]. rewrite <- Ev. by apply list_elem_of_fmap_2.
    + subst v. exists w. split; [|done]. apply list_elem_of_fmap. exists (remove_by_keys keys v1).
      rewrite remove_by_keys_id, bool_decide_eq_true_2 by done. split; [done|]. apply Hr; [done|].
      rewrite E. intros Hc. apply (Hp _ Hc). by left.
  - intros v Hv Hnin. rewrite fmap_app, not_elem_of_app in Hnin. destruct Hnin as [Hn1 Hn2].
    apply Hput; [by apply Hr|]. rewrite remove_by_keys_id. set_solver.
Qed.

(** A view that is new to it. *)
Lemma views_inv_add pre W v2 :
  vw_Id v2 ∉ ids views1 → views_inv pre W → views_inv (pre ++ [v2]) (W ++ [v2]).
Proof.
  intros Hv2 [Hi Hd Hr]. split.
  - rewrite !fmap_app, filter_app. cbn [fmap list_fmap]. rewrite filter_cons_True by done.
    by rewrite Hi, <- app_assoc.
  - intros v [Hv|Hv%list_elem_of_singleton]%elem_of_app.
    + destruct (Hd v Hv) as (x & Hx & Mx). exists x. split; [by apply elem_of_app; left|done].
    + subst v. exists v2. split; [apply elem_of_app; right; by left|].
      split; [done|done|..]; apply Forall_Forall2_diag, Forall_forall; intros x _; (split; [done|by left]).
  - intros v Hv Hnin. rewrite fmap_app, not_elem_of_app in Hnin. apply elem_of_app. left. apply Hr; tauto.
Qed.

(** The messages about one view. *)
Lemma diff_view_step d n pre W v2 :
  v2 ∈ views2 → NoDup (ids (pre ++ [v2])) → views_inv pre W →
  ∃ W', apply_events (with_views d W, n) (diff_view views1 v2) = Some (with_views d W', n, []) ∧
    views_inv (pre ++ [v2]) W'.
Proof.
  intros Hv2 Hn HW. unfold diff_view.
  assert (Hwf : wf_view v2) by (rewrite Forall_forall in Hwf2; auto).
  assert (Hnp : NoDup (ids pre) ∧ vw_Id v2 ∉ ids pre).
  { rewrite fmap_app in Hn. apply NoDup_app in Hn as (? & Hp & _). split; [done|]. intros Hc. apply (Hp _ Hc). by left. }
  destruct Hnp as [Hnp Hnin]. pose proof (views_inv_NoDup pre W Hnp HW) as HnW.
  destruct (find_view views1 (vw_Id v2)) as [v1|] eqn:Ef.
  - apply find_view_Some in Ef as [Hv1 E].
    assert (Hwf1' : wf_view v1) by (rewrite Forall_forall in Hwf1; auto).
    destruct (Hunused v1 v2 Hv1 Hv2 E) as [HF HS].
    destruct (update_view_ok keys v1 v2 Hwf1' Hwf E HF HS) as (w & Hw & Hm).
    pose proof (views_inv_update pre W v1 v2 w Hn HW Hv1 E Hm) as Hinv.
    assert (Hin : remove_by_keys keys v1 ∈ W) by (apply (vi_rest _ _ HW); [done|by rewrite E]).
    cbn [vu_Filter vu_Relation vu_Sort vu_Fields]. case_match eqn:Es.
    + eexists. split; [|exact Hinv]. simpl. unfold ApplyViewUpdate. cbn [vu_ViewId with_views dv_Views].
      rewrite <- E at 1. rewrite <- (remove_by_keys_id v1), (find_view_elem W) by done. simpl. rewrite Hw. simpl.
      by rewrite change_view_map.
    + exists W. split; [done|]. rewrite !orb_false_iff, !bool_decide_eq_false in Es. destruct Es as [[[E1 E2] E3] E4].
      assert (w = remove_by_keys keys v1) as ->.
      { destruct (diffViewFields v1 v2); [by destruct E4|]. rewrite !(nil_length_inv (diffViewFilters v1 v2)),
          !(nil_length_inv (diffViewRelations v1 v2)), !(nil_length_inv (diffViewSorts v1 v2)) in Hw by lia.
        rewrite update_view_nothing in Hw by by apply remove_by_keys_wf. congruence. }
      replace W with (map (λ v, if bool_decide (vw_Id v = vw_Id v2) then remove_by_keys keys v1 else v) W); [done|].
      rewrite <- (list_fmap_id W) at 2. apply list_fmap_ext. intros k x Hx%list_elem_of_lookup_2.
      case_bool_decide as Ex; [|done]. apply (NoDup_ids_inj vw_Id W); [done..|].
      rewrite remove_by_keys_id. simpl. congruence.
  - apply find_view_None in Ef. exists (W ++ [v2]). split; [|by apply views_inv_add].
    assert (Hw0 : find_view W (vw_Id v2) = None).
    { apply find_view_None. rewrite (vi_ids _ _ HW), elem_of_app. intros [?|[_ ?]%list_elem_of_filter]; done. }
    simpl. unfold SetView, on_view, GetView. cbn [with_views dv_Views]. rewrite Hw0.
    rewrite AddView_wf; [done| |done]. intros E. apply (proj2 Hids2). rewrite <- E. by apply list_elem_of_fmap_2.
Qed.

Lemma diff_views_run d n suf pre W :
  views2 = pre ++ suf → views_inv pre W →
  ∃ W', apply_events (with_views d W, n) (flat_map (diff_view views1) suf) = Some (with_views d W', n, []) ∧
    views_inv views2 W'.
Proof.
  revert pre W. induction suf as [|v suf IH]; intros pre W E HW.
  { exists W. rewrite app_nil_r in E. subst pre. done. }
  assert (E' : views2 = (pre ++ [v]) ++ suf) by by rewrite <- app_assoc.
  destruct (diff_view_step d n pre W v) as (W1 & Hap1 & HW1); [|..|done|].
  { rewrite E. set_solver. }
  { pose proof (proj1 Hids2) as Hn. rewrite E', fmap_app in Hn. by apply NoDup_app in Hn as [? _]. }
  destruct (IH _ _ E' HW1) as (W' & Hap2 & HW'). exists W'. split; [|done].
  cbn [flat_map]. by eapply apply_events_trans.
Qed.

Lemma delete_views_run d n W dels :
  NoDup (ids W) →
  apply_events (with_views d W, n) (map ViewDelete dels) =
    Some (with_views d (filter (λ v, vw_Id v ∉ dels) W), n, []).
Proof.
  revert W. induction dels as [|i dels IH]; intros W Hn.
  { simpl. rewrite filter_all; [done|]. intros v _ Hv. by apply elem_of_nil in Hv. }
  cbn [map apply_events apply_event]. unfold DeleteView. cbn [with_views dv_Views].
  pose proof (delete_view_filter W i Hn) as Hf.
  assert (E : filter (λ v, vw_Id v ∉ dels) (filter (λ v, vw_Id v ≠ i) W) = filter (λ v, vw_Id v ∉ i :: dels) W).
  { rewrite list_filter_filter. apply list_filter_iff. intros v. rewrite not_elem_of_cons. tauto. }
  pose proof (NoDup_ids_filter vw_Id (λ v, vw_Id v ≠ i) W Hn) as Hn'.
  destruct (delete_view W i) as [W'|]; simpl in Hf.
  - subst W'. simpl. pose proof (IH _ Hn') as IH'. unfold with_views in *. simpl in *. rewrite IH'. simpl.
    by rewrite E.
  - simpl. rewrite <- Hf in E. pose proof (IH _ Hn) as IH'. unfold with_views in *. simpl in *. rewrite IH'.
    simpl. by rewrite E.
Qed.

(** The messages about views give the replica the views, in an order of its own. *)
Lemma views_run d n :
  ∃ W, apply_events (with_views d (map (remove_by_keys keys) views1), n)
         (flat_map (diff_view views1) views2 ++
          map ViewDelete (filter (λ i, i ∉ ids views2) (ids views1))) = Some (with_views d W, n, []) ∧
    ids W = filter (λ i, i ∈ ids views2) (ids views1) ++ filter (λ i, i ∉ ids views1) (ids views2) ∧
    ∀ v, v ∈ views2 → ∃ w, w ∈ W ∧ view_match w v.
Proof.
  destruct (diff_views_run d n views2 [] _ eq_refl views_inv_start) as (W & HW & Hinv).
  pose proof (views_inv_NoDup _ _ (proj1 Hids2) Hinv) as HnW.
  eexists. split; [eapply apply_events_trans; [exact HW|by apply delete_views_run]|].
  destruct Hinv as [Hi Hd _]. split.
  - pose proof (λ i, list_elem_of_filter (λ i, i ∉ ids views2) (ids views1) i) as HD.
    revert HD. generalize (filter (λ i, i ∉ ids views2) (ids views1)). intros D HD.
    rewrite ids_without, Hi, filter_app. f_equal.
    + apply filter_ext_elem. intros i Hin. rewrite HD. destruct (decide (i ∈ ids views2)); tauto.
    + rewrite list_filter_filter. apply list_filter_iff. intros i. rewrite HD. tauto.
  - intros v Hv. destruct (Hd v Hv) as (w & Hw & Hm). exists w. split; [|done].
    apply list_elem_of_filter. split; [|done]. rewrite (vm_id _ _ Hm), list_elem_of_filter.
    intros [Hc _]. by apply Hc, list_elem_of_fmap_2.
Qed.

End views_phase.

(** The order of the views comes last. *)
Lemma view_order_ok (views2 : list View) d W :
  NoDup (ids W) → (∀ v, v ∈ views2 → ∃ w, w ∈ W ∧ view_match w v) → (∀ i, i ∈ ids W → i ∈ ids views2) →
  ∃ W', SetViewOrder (with_views d W) (ids views2) = with_views d W' ∧ Forall2 view_match W' views2.
Proof.
  intros HnW Hd Hsub. unfold SetViewOrder. cbn [with_views dv_Views].
  assert (Hpick : ∀ suf acc, suf ⊆ views2 →
    ∃ l, foldl (λ newViews viewId, match GetView (with_views d W) viewId with
                                   | Ok view => newViews ++ [view] | Err _ => newViews end) acc (ids suf) = acc ++ l ∧
      Forall2 view_match l suf).
  { induction suf as [|v suf IH]; intros acc Hs; [exists []; rewrite app_nil_r; by split|].
    destruct (Hd v) as (w & Hw & Hm); [apply Hs; by left|]. cbn [fmap list_fmap foldl].
    unfold GetView at 2. cbn [with_views dv_Views]. rewrite <- (vm_id _ _ Hm), find_view_elem by done.
    destruct (IH (acc ++ [w])) as (l & El & Hl); [set_solver|].
    exists (w :: l). rewrite El, <- app_assoc. split; [done|by constructor]. }
  destruct (Hpick views2 [] (reflexivity _)) as (l & El & Hl). simpl in El.
  exists l. split; [|done]. unfold with_views. simpl. f_equal. unfold with_views in El. simpl in El.
  rewrite El. clear -Hsub. induction W as [|v W IH]; [done|]. cbn [foldl].
  rewrite bool_decide_eq_false_2; [apply IH; intros i Hi; apply Hsub; by right|].
  rewrite FindPos_absent. intros Hc. apply Hc, Hsub. by left.
Qed.

Lemma same_order_ok (views2 : list View) W :
  NoDup (ids views2) → ids W = ids views2 → (∀ v, v ∈ views2 → ∃ w, w ∈ W ∧ view_match w v) → Forall2 view_match W views2.
Proof.
  intros Hn2 E Hd. assert (HnW : NoDup (ids W)) by by rewrite E.
  assert (Hd' : ∀ v w, v ∈ views2 → w ∈ W → vw_Id w = vw_Id v → view_match w v).
  { intros v w Hv Hw Ei. destruct (Hd v Hv) as (w' & Hw' & Hm).
    rewrite (NoDup_ids_inj vw_Id W HnW w w' Hw Hw'); [done|]. by rewrite (vm_id _ _ Hm). }
  clear -E Hd'. revert views2 E Hd'. induction W as [|w W IH]; intros [|v V] E Hd'; simplify_eq/=; [done|].
  constructor; [apply Hd'; [by left|by left|done]|]. apply IH; [done|]. intros x y Hx Hy. apply Hd'; by right.
Qed.

(** *** Orders, kept under a key *)

Section upsert.
Context {T K : Type} `{!EqDecision K} (key : T → K) (R : T → T → Prop) (Hrefl : ∀ x, R x x).

Definition upsert (x : T) (l : list T) : list T :=
  match replace_first (λ y, bool_decide (key y = key x)) (λ _, x) l with
  | Some l' => l'
  | None => l ++ [x]
  end.

Lemma upsert_spec x l :
  NoDup (key <$> l) →
  NoDup (key <$> upsert x l) ∧ ∀ y, y ∈ upsert x l ↔ y = x ∨ (y ∈ l ∧ key y ≠ key x).
Proof.
  intros Hn. unfold upsert.
  pose proof (replace_first_spec (λ y, bool_decide (key y = key x)) (λ _, x) l) as Hs.
  destruct (replace_first _ _ l) as [l'|].
  - destruct Hs as (l1 & z & l2 & -> & -> & Hz & _). apply bool_decide_eq_true in Hz.
    rewrite fmap_app, fmap_cons, Hz in Hn. rewrite fmap_app, fmap_cons. split; [done|].
    apply NoDup_app in Hn as (_ & Ha & [Hb _]%NoDup_cons).
    intros y. rewrite !elem_of_app, !elem_of_cons. split.
    + intros [Hy|[->|Hy]]; [right|by left|right].
      * split; [by left|]. intros E. apply (Ha (key y)); [by apply list_elem_of_fmap_2|rewrite E; by left].
      * split; [by right; right|]. intros E. apply Hb. rewrite <- E. by apply list_elem_of_fmap_2.
    + intros [->|[[?|[->|?]] Hne]]; [by right; left|by left|done|by right; right].
  - assert (Hx : key x ∉ key <$> l).
    { intros (y & E & Hy)%list_elem_of_fmap. apply Hs in Hy. rewrite bool_decide_eq_false in Hy. by apply Hy. }
    rewrite fmap_app. split.
    + apply NoDup_app. split_and!; [done| |apply NoDup_singleton]. intros k Hk ->%list_elem_of_singleton. done.
    + intros y. rewrite elem_of_app, list_elem_of_singleton. split; [|tauto]. intros [Hy|?]; [right|by left].
      split; [done|]. intros E. apply Hx. rewrite <- E. by apply list_elem_of_fmap_2.
Qed.

(** The list after the messages about [pre], from [l0]. *)
Record upsert_inv (l0 pre l : list T) : Prop := {
  ui_nodup : NoDup (key <$> l);
  ui_done : ∀ x, x ∈ pre → ∃ y, y ∈ l ∧ key y = key x ∧ R y x;
  ui_rest : ∀ y, y ∈ l0 → key y ∉ key <$> pre → y ∈ l;
}.

Lemma upsert_inv_message l0 pre l x :
  key x ∉ key <$> pre → upsert_inv l0 pre l → upsert_inv l0 (pre ++ [x]) (upsert x l).
Proof.
  intros Hx [Hn Hd Hr]. destruct (upsert_spec x l Hn) as [Hn' Hel]. split; [done|..].
  - intros z [Hz|Hz%list_elem_of_singleton]%elem_of_app.
    + destruct (Hd z Hz) as (y & Hy & E & HR). exists y. rewrite Hel. split; [|done]. right. split; [done|].
      intros E'. apply Hx. rewrite <- E', E. by apply list_elem_of_fmap_2.
    + subst z. exists x. rewrite Hel. auto.
  - intros y Hy Hk. rewrite fmap_app, not_elem_of_app in Hk. rewrite Hel. right.
    split; [apply Hr; tauto|]. set_solver.
Qed.

Lemma upsert_inv_silent l0 pre l x y :
  key x ∉ key <$> pre → upsert_inv l0 pre l → y ∈ l0 → key y = key x → R y x → upsert_inv l0 (pre ++ [x]) l.
Proof.
  intros Hx [Hn Hd Hr] Hy E HR. split; [done|..].
  - intros z [Hz|Hz%list_elem_of_singleton]%elem_of_app; [auto|]. subst z. exists y. split; [|done].
    apply Hr; [done|]. by rewrite E.
  - intros z Hz Hk. rewrite fmap_app, not_elem_of_app in Hk. apply Hr; tauto.
Qed.

(** A run of messages, each upserting or saying nothing for good reason. *)
Lemma upsert_run (set : list T → Dataview) (ev : T → list DvEvent) (n : nat) (l0 todo : list T) :
  NoDup (key <$> l0) → NoDup (key <$> todo) →
  (∀ x l, x ∈ todo → NoDup (key <$> l) → (∀ y, y ∈ l0 → key y = key x → y ∈ l) →
     (∀ y, y ∈ l → key y = key x → y ∈ l0) →
     (apply_events (set l, n) (ev x) = Some (set (upsert x l), n, [])) ∨
     (ev x = [] ∧ ∃ y, y ∈ l0 ∧ key y = key x ∧ R y x)) →
  ∃ l, apply_events (set l0, n) (flat_map ev todo) = Some (set l, n, []) ∧
    ∀ x, x ∈ todo → ∃ y, y ∈ l ∧ key y = key x ∧ R y x.
Proof.
  intros Hn0 Hnt Hstep.
  enough (∀ suf pre l, todo = pre ++ suf → upsert_inv l0 pre l →
      (∀ y, y ∈ l → key y ∉ key <$> pre → y ∈ l0) →
      ∃ l', apply_events (set l, n) (flat_map ev suf) = Some (set l', n, []) ∧ upsert_inv l0 todo l') as Hgo.
  { destruct (Hgo todo [] l0 eq_refl) as (l & Hl & [_ Hd _]); [split; [done| |done]|done|eauto].
    intros x Hx. by apply elem_of_nil in Hx. }
  induction suf as [|x suf IH]; intros pre l E Hinv Hback.
  { exists l. rewrite app_nil_r in E. subst pre. done. }
  assert (E' : todo = (pre ++ [x]) ++ suf) by by rewrite <- app_assoc.
  assert (Hx : key x ∉ key <$> pre).
  { rewrite E', fmap_app in Hnt. apply NoDup_app in Hnt as [Hnt _]. rewrite fmap_app in Hnt.
    apply NoDup_app in Hnt as (_ & Hp & _). intros Hc. apply (Hp _ Hc). by left. }
  destruct (Hstep x l) as [Hm|[Hs (y & Hy & Ey & HR)]].
  { rewrite E. set_solver. }
  { apply Hinv. }
  { intros y Hy Ey. apply (ui_rest _ _ _ Hinv); [done|]. by rewrite Ey. }
  { intros y Hy Ey. apply Hback; [done|]. by rewrite Ey. }
  - destruct (IH _ _ E' (upsert_inv_message _ _ _ _ Hx Hinv)) as (l' & Hl' & Hinv').
    { destruct (upsert_spec x l (ui_nodup _ _ _ Hinv)) as [_ Hel]. intros y Hy Hk.
      rewrite fmap_app, not_elem_of_app in Hk. apply Hel in Hy as [->|[Hy _]]; [set_solver|]. apply Hback; tauto. }
    exists l'. split; [|done]. cbn [flat_map]. by eapply apply_events_trans.
  - destruct (IH _ _ E' (upsert_inv_silent _ _ _ _ _ Hx Hinv Hy Ey HR)) as (l' & Hl' & Hinv').
    { intros z Hz Hk. rewrite fmap_app, not_elem_of_app in Hk. apply Hback; tauto. }
    exists l'. split; [|done]. cbn [flat_map]. by rewrite Hs.
Qed.
End upsert.

Lemma replace_first_same {T} (p q : T → bool) (f g : T → T) l :
  (∀ y, p y = q y) → (∀ y, p y = true → f y = g y) → replace_first p f l = replace_first q g l.
Proof.
  intros Hpq Hfg. induction l as [|y l IH]; [done|]. simpl. rewrite <- Hpq.
  destruct (p y) eqn:E; [by rewrite Hfg|]. by rewrite IH.
Qed.

Lemma SetViewGroupOrder_upsert d x l :
  SetViewGroupOrder (with_groups d l) x = with_groups d (upsert gro_ViewId x l).
Proof.
  unfold SetViewGroupOrder, upsert. cbn [with_groups dv_GroupOrders].
  rewrite (replace_first_same _ (λ y, bool_decide (gro_ViewId y = gro_ViewId x)) _ (λ _, x)); [done..|].
  intros y ->%bool_decide_eq_true. by destruct x.
Qed.

Lemma SetViewObjectOrder_upsert d x l :
  SetViewObjectOrder (with_orders d l) [x] = with_orders d (upsert order_key x l).
Proof.
  unfold SetViewObjectOrder, upsert. cbn [foldl with_orders dv_ObjectOrders].
  rewrite (replace_first_same _ (λ y, bool_decide (order_key y = order_key x)) _ (λ _, x)); [done|..].
  - intros y. unfold is_order, order_key. apply eq_true_iff_eq.
    rewrite andb_true_iff, !bool_decide_eq_true.
    split; [by intros [-> ->]|intros E; injection E; auto].
  - intros y. unfold is_order. rewrite andb_true_iff, !bool_decide_eq_true. intros [E1 E2].
    unfold with_objects. rewrite E1, E2. by destruct x.
Qed.

Lemma groups_run d n (gs1 gs2 : list GroupOrder) :
  NoDup (gro_ViewId <$> gs1) → NoDup (gro_ViewId <$> gs2) →
  ∃ G, apply_events (with_groups d gs1, n)
         (diffGroupOrders (with_groups d gs1) (with_groups d gs2)) = Some (with_groups d G, n, []) ∧
    ∀ x, x ∈ gs2 → ∃ y, y ∈ G ∧ gro_ViewId y = gro_ViewId x ∧ same proto_Equal y x.
Proof.
  intros N1 N2. unfold diffGroupOrders. cbn [with_groups dv_GroupOrders].
  rewrite (foldl_flat_map _ (λ x, match find_group (gro_ViewId x) gs1 with
    | Some y => if proto_Equal y x then [] else [GroupOrderUpdate x] | None => [GroupOrderUpdate x] end)).
  2:{ intros acc x. destruct (find_group _ _) as [y|]; [|done]. simpl.
      destruct (proto_Equal y x); [by rewrite app_nil_r|done]. }
  apply (upsert_run gro_ViewId (same proto_Equal) ltac:(by left) (with_groups d)); [done..|].
  intros x l _ Hn _ _. destruct (find_group (gro_ViewId x) gs1) as [y|] eqn:Ef.
  - apply List.find_some in Ef as [Hy%list_elem_of_In Ey%bool_decide_eq_true].
    destruct (proto_Equal y x) eqn:Ep; [right|left].
    + split; [done|]. exists y. split_and!; [done..|by right].
    + simpl. by rewrite SetViewGroupOrder_upsert.
  - left. simpl. by rewrite SetViewGroupOrder_upsert.
Qed.

(** Object ids are changed by insertions, moves and a removal. *)
Definition no_replace {T} (c : Change T) : Prop := match c with ChangeReplace _ _ => False | _ => True end.

Lemma flush_no_replace {T} (c : option (Change T)) r :
  (∀ x, c = Some x → no_replace x) → Forall no_replace r → Forall no_replace (flush c r).
Proof.
  intros Hc Hr. unfold flush. destruct c as [x|]; [|done]. case_bool_decide; [|done].
  apply Forall_app. split; [done|]. apply Forall_singleton. by apply Hc.
Qed.

Lemma diff_inserts_no_replace {T} (getID : T → string) l after c D r :
  (∀ x, c = Some x → no_replace x) → Forall no_replace r →
  Forall no_replace (diff_inserts getID l after c D r).1.
Proof.
  revert after c D r. induction l as [|it l IH]; intros after c D r Hc Hr; simpl; [by apply flush_no_replace|].
  pose proof (flush_no_replace c r Hc Hr) as Hf.
  case_bool_decide; destruct c as [[]|]; apply IH; try done; by intros x [= <-].
Qed.

Lemma Diff_no_replace (l1 l2 : list string) :
  Forall no_replace (SliceDiff.Diff (λ s, s) (λ x y, bool_decide (x = y)) l1 l2).
Proof.
  unfold SliceDiff.Diff.
  set (A := lo_UniqBy (λ s, s) l1). set (B := lo_UniqBy (λ s, s) l2). set (cs := mb0_Diff _ _ _).
  assert (Forall no_replace (diff_replaces (λ s : string, s) (λ x y, bool_decide (x = y)) A B)) as Hr.
  { rewrite diff_replaces_rep. set (CM := foldl _ ∅ B).
    assert (∀ x, rep (λ s : string, s) (λ x y, bool_decide (x = y)) CM x = []) as Hrep.
    { intros x. unfold rep. destruct (CM !! x) as [v|] eqn:E; [|done].
      apply foldl_items_Some in E as [[_ ->]|E]; [|by simplify_map_eq]. by rewrite bool_decide_eq_true_2. }
    clearbody A. induction A as [|x A IH]; simpl; [constructor|]. by rewrite Hrep. }
  assert (Hgo : ∀ st : list (Change string) * gset string, Forall no_replace st.1 →
    Forall no_replace (foldl (diff_change (λ s, s) A B) st cs).1).
  { clearbody A B cs. clear Hr. induction cs as [|c cs IH]; intros st Hst; [done|]. simpl. apply IH.
    unfold diff_change. case_bool_decide; [done|]. by apply diff_inserts_no_replace. }
  specialize (Hgo (diff_replaces (λ s, s) (λ x y, bool_decide (x = y)) A B, diff_deleted (λ s, s) A cs) Hr).
  destruct (foldl _ _ _) as [result delMap]. simpl in Hgo.
  case_bool_decide; [|done]. apply Forall_app. split; [done|]. by apply Forall_singleton.
Qed.

Lemma diffViewObjectOrder_changes a b :
  omap sc_change (diffViewObjectOrder a b) =
    SliceDiff.Diff (λ s, s) (λ x y, bool_decide (x = y)) (oo_ObjectIds a) (oo_ObjectIds b).
Proof.
  unfold diffViewObjectOrder. pose proof (Diff_no_replace (oo_ObjectIds a) (oo_ObjectIds b)) as Hn.
  rewrite (foldl_flat_map _ slice_change) by done. simpl.
  induction Hn as [|c cs Hc _ IH]; [done|]. cbn [flat_map]. rewrite omap_app, IH. by destruct c.
Qed.

Lemma order_diff_ok a b :
  ids_ok id (oo_ObjectIds a) → ids_ok id (oo_ObjectIds b) →
  ApplyChanges (λ s, s) (oo_ObjectIds a) (omap sc_change (diffViewObjectOrder a b)) = Some (oo_ObjectIds b).
Proof.
  intros [Na Ea] [Nb Eb]. rewrite diffViewObjectOrder_changes.
  destruct (Diff_ApplyChanges (λ s : string, s) (λ x y, bool_decide (x = y)) (oo_ObjectIds a) (oo_ObjectIds b))
    as (res & -> & Hf); [done..|].
  f_equal. rewrite UniqBy_id in Hf by done. clear -Hf. induction Hf as [|x y l1 l2 [-> _] _ IH]; [done|]. by f_equal.
Qed.

Lemma exist_order v g (l : list ObjectOrder) :
  NoDup (order_key <$> l) →
  foldl (λ ex order, if is_order v g order then oo_ObjectIds order else ex) [] l =
    match find_order v g l with Some o => oo_ObjectIds o | None => [] end.
Proof.
  assert (Hnone : ∀ l acc, (∀ y, y ∈ l → is_order v g y = false) →
    foldl (λ ex order, if is_order v g order then oo_ObjectIds order else ex) acc l = acc).
  { clear. induction l as [|y l IH]; intros acc Hl; [done|]. simpl. rewrite Hl by (by left).
    apply IH. intros z Hz. apply Hl. by right. }
  induction l as [|y l IH]; intros Hn; [done|]. apply NoDup_cons in Hn as [Hy Hn]. simpl.
  destruct (is_order v g y) eqn:E; [|by apply IH]. apply Hnone. intros z Hz.
  destruct (is_order v g z) eqn:Ez; [|done]. destruct Hy.
  unfold is_order in E, Ez. rewrite andb_true_iff, !bool_decide_eq_true in E, Ez.
  replace (order_key y) with (order_key z); [by apply list_elem_of_fmap_2|]. unfold order_key. destruct E, Ez; congruence.
Qed.

Lemma find_order_Some v g l o : find_order v g l = Some o → o ∈ l ∧ order_key o = (v, g).
Proof.
  intros [Ho%list_elem_of_In E]%List.find_some. split; [done|].
  unfold is_order in E. rewrite andb_true_iff, !bool_decide_eq_true in E. unfold order_key. by destruct E as [-> ->].
Qed.

Lemma find_order_None v g l o : find_order v g l = None → o ∈ l → order_key o ≠ (v, g).
Proof.
  intros Hn Ho%list_elem_of_In [= E1 E2]. pose proof (List.find_none _ _ Hn _ Ho) as E.
  unfold is_order in E. by rewrite E1, E2, !bool_decide_eq_true_2 in E.
Qed.

Lemma find_order_elem l o : NoDup (order_key <$> l) → o ∈ l → find_order (oo_ViewId o) (oo_GroupId o) l = Some o.
Proof.
  intros Hn Ho. destruct (find_order _ _ l) as [o'|] eqn:E; [|by destruct (find_order_None _ _ _ _ E Ho)].
  apply find_order_Some in E as [Ho' E]. f_equal.
  apply list_elem_of_lookup in Ho as [i Hi]. apply list_elem_of_lookup in Ho' as [j Hj].
  assert (i = j) as ->; [|by simplify_eq].
  eapply (NoDup_lookup (order_key <$> l)); [done|..]; rewrite list_lookup_fmap; [by rewrite Hi|rewrite Hj; simpl; by rewrite E].
Qed.

Lemma orders_run d n (os1 os2 : list ObjectOrder) :
  NoDup (order_key <$> os1) → NoDup (order_key <$> os2) →
  Forall (λ o, ids_ok id (oo_ObjectIds o)) os1 → Forall (λ o, ids_ok id (oo_ObjectIds o)) os2 →
  ∃ O, apply_events (with_orders d os1, n)
         (diffObjectOrders (with_orders d os1) (with_orders d os2)) = Some (with_orders d O, n, []) ∧
    ∀ x, x ∈ os2 → x ∈ O.
Proof.
  intros N1 N2 F1 F2. rewrite Forall_forall in F1, F2. unfold diffObjectOrders. cbn [with_orders dv_ObjectOrders].
  rewrite (foldl_flat_map _ (λ x, match find_order (oo_ViewId x) (oo_GroupId x) os1 with
    | Some y => if bool_decide (0 < length (diffViewObjectOrder y x))
                then [ObjectOrderUpdate (oo_ViewId x) (oo_GroupId x) (diffViewObjectOrder y x)] else []
    | None => [ObjectOrderUpdate (oo_ViewId x) (oo_GroupId x)
                 [{| sc_Op := SliceOperationAdd; sc_Ids := oo_ObjectIds x; sc_AfterId := "" |}]] end)).
  2:{ intros acc x. destruct (find_order _ _ _) as [y|]; [|done].
      case_bool_decide; [done|]. by rewrite app_nil_r. }
  destruct (upsert_run order_key eq ltac:(done) (with_orders d)
    (λ x, match find_order (oo_ViewId x) (oo_GroupId x) os1 with
    | Some y => if bool_decide (0 < length (diffViewObjectOrder y x))
                then [ObjectOrderUpdate (oo_ViewId x) (oo_GroupId x) (diffViewObjectOrder y x)] else []
    | None => [ObjectOrderUpdate (oo_ViewId x) (oo_GroupId x)
                 [{| sc_Op := SliceOperationAdd; sc_Ids := oo_ObjectIds x; sc_AfterId := "" |}]] end) n os1 os2)
    as (O & HO & Hd); [done|done| |].
  - intros x l Hx Hn Hin Hback.
    assert (Hap : ∀ ids1 chs, foldl (λ ex order, if is_order (oo_ViewId x) (oo_GroupId x) order then oo_ObjectIds order else ex) [] l = ids1 →
      ApplyChanges (λ s, s) ids1 (omap sc_change chs) = Some (oo_ObjectIds x) →
      apply_events (with_orders d l, n) [ObjectOrderUpdate (oo_ViewId x) (oo_GroupId x) chs] =
        Some (with_orders d (upsert order_key x l), n, [])).
    { intros ids1 chs E1 E2. cbn [apply_events apply_event]. unfold ApplyObjectOrderUpdate. cbn [with_orders dv_ObjectOrders].
      rewrite E1, E2. cbn [mbind option_bind]. rewrite <- SetViewObjectOrder_upsert. by destruct x. }
    destruct (find_order (oo_ViewId x) (oo_GroupId x) os1) as [y|] eqn:Ef.
    + apply find_order_Some in Ef as [Hy Ey].
      pose proof (order_diff_ok y x (F1 y Hy) (F2 x Hx)) as Hok.
      assert (oo_ViewId y = oo_ViewId x ∧ oo_GroupId y = oo_GroupId x) as [E1 E2] by (by injection Ey).
      case_bool_decide as Hl; [left|right].
      * apply (Hap (oo_ObjectIds y)); [|done]. rewrite exist_order by done.
        rewrite <- E1, <- E2, find_order_elem; [done|done|by apply Hin].
      * split; [done|]. exists y. split_and!; [done..|].
        rewrite (nil_length_inv (diffViewObjectOrder y x)) in Hok by lia. simpl in Hok.
        unfold ApplyChanges in Hok. simpl in Hok. rewrite UniqBy_id in Hok by apply (F1 y Hy).
        injection Hok as Hok. destruct x, y. simpl in *. by subst.
    + left. apply (Hap []).
      * rewrite exist_order by done. destruct (find_order _ _ l) as [z|] eqn:Ez; [|done].
        apply find_order_Some in Ez as [Hz Ez]. destruct (find_order_None _ _ _ z Ef); [by apply Hback|done].
      * unfold ApplyChanges. rewrite UniqBy_nil. done.
  - exists O. split; [done|]. intros x (y & Hy & _ & ->)%Hd. done.
Qed.

(** *** The relation links *)

Lemma add_links_has d links key :
  rl_Has (dv_RelationLinks (foldl (λ d rel, (AddRelation d rel).1) d links)) key =
    rl_Has (dv_RelationLinks d ++ links) key.
Proof.
  revert d. induction links as [|l links IH]; intros d; cbn [foldl]; [by rewrite app_nil_r|].
  rewrite IH. apply eq_true_iff_eq. rewrite !rl_Has_keys, !fmap_app, !elem_of_app, fmap_cons, elem_of_cons.
  unfold AddRelation. destruct (rl_Has (dv_RelationLinks d) (rl_Key l)) eqn:E; cbn [fst with_links dv_RelationLinks].
  - apply rl_Has_keys in E. naive_solver.
  - rewrite fmap_app, elem_of_app. simpl. rewrite list_elem_of_singleton. tauto.
Qed.

Lemma add_links_frame d links :
  ∃ L, foldl (λ d rel, (AddRelation d rel).1) d links = with_links d L.
Proof.
  revert d. induction links as [|l links IH]; intros d; [exists (dv_RelationLinks d); by destruct d|].
  cbn [foldl]. destruct (IH (AddRelation d l).1) as [L ->]. exists L. unfold AddRelation. by destruct (rl_Has _ _).
Qed.

Lemma remove_by_no_keys v : remove_by_keys [] v = v.
Proof.
  rewrite remove_by_keys_spec, !filter_all; [by destruct v|..]; intros x _ Hx; by apply elem_of_nil in Hx.
Qed.

Lemma map_remove_none l : map (remove_by_keys []) l = l.
Proof. induction l as [|v l IH]; [done|]. simpl. by rewrite remove_by_no_keys, IH. Qed.

Lemma DeleteRelations_views d keys :
  DeleteRelations d keys =
    with_views (with_links d (rl_Remove (dv_RelationLinks d) keys)) (map (remove_by_keys keys) (dv_Views d)).
Proof.
  unfold DeleteRelations, removeSortsAndFiltersByKeys. destruct keys; [|done].
  rewrite map_remove_none. by destruct d.
Qed.

Lemma links_run d o c n :
  dv_RelationLinks d = dv_RelationLinks o →
  ∃ L, apply_events (d, n) (diffRelationLinks o c) =
         Some (with_views (with_links d L) (map (remove_by_keys (removed_keys o c)) (dv_Views d)), n, []) ∧
    ∀ key, rl_Has L key = rl_Has (dv_RelationLinks c) key.
Proof.
  intros Ed. unfold diffRelationLinks, removed_keys.
  pose proof (rl_Diff_patch (dv_RelationLinks c) (dv_RelationLinks o)) as Hp.
  destruct (rl_Diff _ _) as [added removed]. cbn [snd]. destruct Hp as [Hp _].
  assert (Hdel : apply_events (d, n) (if bool_decide (0 < length removed) then [RelationDelete removed] else []) =
    Some (DeleteRelations d removed, n, [])).
  { case_bool_decide; [done|]. destruct removed; [|simpl in *; lia]. rewrite DeleteRelations_views. simpl.
    rewrite map_remove_none, rl_Remove_spec, filter_all by (intros x _ Hx; by apply elem_of_nil in Hx). by destruct d. }
  destruct (add_links_frame (DeleteRelations d removed) added) as [L HL].
  exists L. split.
  - eapply apply_events_trans; [exact Hdel|].
    assert (apply_events (DeleteRelations d removed, n) (if bool_decide (0 < length added) then [RelationSet added] else []) =
      Some (with_links (DeleteRelations d removed) L, n, [])) as ->.
    { clear Hdel. case_bool_decide; [cbn [apply_events apply_event]; by rewrite HL|]. destruct added; [|simpl in *; lia].
      cbn [foldl] in HL. by rewrite <- HL. }
    by rewrite DeleteRelations_views.
  - intros key. rewrite <- Hp, <- Ed. pose proof (add_links_has (DeleteRelations d removed) added key) as Hh.
    rewrite HL, DeleteRelations_views in Hh. cbn [with_links with_views dv_RelationLinks] in Hh. done.
Qed.

(** *** All messages *)

Lemma views_phase_run d n o c :
  wf_dv o → wf_dv c → removed_unused o c →
  ∃ W, apply_events (with_views d (map (remove_by_keys (removed_keys o c)) (dv_Views o)), n) (diffViews o c) =
         Some (with_views d W, n, []) ∧
    ids W = filter (λ i, i ∈ ids (dv_Views c)) (ids (dv_Views o)) ++
            filter (λ i, i ∉ ids (dv_Views o)) (ids (dv_Views c)) ∧
    ∀ v, v ∈ dv_Views c → ∃ w, w ∈ W ∧ view_match w v.
Proof.
  intros [I1 V1 _ _ _] [I2 V2 _ _ _] Hu.
  destruct (views_run (dv_Views o) (dv_Views c) (removed_keys o c) I1 I2 V1 V2 Hu d n) as (W & HW & Hids & Hd).
  exists W. split; [|done]. unfold diffViews.
  rewrite (foldl_flat_map (λ msgs view2, msgs ++ diff_view (dv_Views o) view2) (diff_view (dv_Views o))) by done.
  rewrite (foldl_flat_map _ (λ v, if bool_decide (vw_Id v ∈ ids (dv_Views c)) then [] else [ViewDelete (vw_Id v)])).
  - rewrite <- HW, app_nil_l. do 2 f_equal. clear. induction (dv_Views o) as [|v l IH]; [done|].
    rewrite fmap_cons, filter_cons. cbn [flat_map]. rewrite IH.
    destruct (decide (vw_Id v ∈ ids (dv_Views c))) as [Hi|Hi];
      [rewrite bool_decide_eq_true_2, decide_False by tauto|rewrite bool_decide_eq_false_2, decide_True by tauto]; done.
  - intros acc v. assert (existsb (λ view2, bool_decide (vw_Id v = vw_Id view2)) (dv_Views c) =
      bool_decide (vw_Id v ∈ ids (dv_Views c))) as ->.
    { apply eq_true_iff_eq. rewrite existsb_exists, bool_decide_eq_true, list_elem_of_fmap.
      setoid_rewrite bool_decide_eq_true. setoid_rewrite <- list_elem_of_In. naive_solver. }
    case_bool_decide; [by rewrite app_nil_r|done].
Qed.

(** The order of the views: a message when the ids differ. *)
Lemma order_phase_run d n o c W :
  wf_dv o → wf_dv c →
  ids W = filter (λ i, i ∈ ids (dv_Views c)) (ids (dv_Views o)) ++
          filter (λ i, i ∉ ids (dv_Views o)) (ids (dv_Views c)) →
  (∀ v, v ∈ dv_Views c → ∃ w, w ∈ W ∧ view_match w v) →
  ∃ W', apply_events (with_views d W, n) (diffOrderOfViews o c) = Some (with_views d W', n, []) ∧
    Forall2 view_match W' (dv_Views c).
Proof.
  intros [I1 _ _ _ _] [I2 _ _ _ _] Hids Hd. unfold diffOrderOfViews.
  destruct (SortedEquals _ _) eqn:E.
  - apply SortedEquals_spec in E. exists W. split; [done|]. apply same_order_ok; [apply I2| |done].
    change (map vw_Id (dv_Views o)) with (ids (dv_Views o)) in E. change (map vw_Id (dv_Views c)) with (ids (dv_Views c)) in E.
    rewrite Hids, E, filter_all, filter_none, app_nil_r by tauto. done.
  - destruct (view_order_ok (dv_Views c) d W) as (W' & HW' & Hf); [|done| |].
    + rewrite Hids. apply NoDup_app. split_and!.
      * apply NoDup_filter, I1.
      * intros i [_ Hi]%list_elem_of_filter [Hn _]%list_elem_of_filter. done.
      * apply NoDup_filter, I2.
    + intros i. rewrite Hids, elem_of_app, !list_elem_of_filter. tauto.
    + exists W'. split; [|done]. cbn [apply_events apply_event].
      change (map vw_Id (dv_Views c)) with (ids (dv_Views c)). by rewrite HW'.
Qed.

Lemma tail_run d n o c :
  dv_Source d = dv_Source o → 
  ∃ src, apply_events (d, n) (diffSources o c) = Some (SetSource d src, n, []) ∧ src ≡ₚ dv_Source c.
Proof.
  intros E. unfold diffSources. destruct (UnsortedEqual _ _) eqn:Eu.
  - apply UnsortedEqual_spec in Eu. exists (dv_Source d). split; [by destruct d|]. by rewrite E, Eu.
  - by exists (dv_Source c).
Qed.

Lemma settings_run d n o c :
  dv_TargetObjectId d = dv_TargetObjectId o → dv_IsCollection d = dv_IsCollection o →
  apply_events (d, n) (diffTargetObjectIDs o c ++ diffIsCollections o c) =
    Some (SetIsCollection (SetTargetObjectID d (dv_TargetObjectId c)) (dv_IsCollection c), n, []).
Proof.
  intros E1 E2. unfold diffTargetObjectIDs, diffIsCollections. eapply apply_events_trans.
  - instantiate (1 := (SetTargetObjectID d (dv_TargetObjectId c), n)). case_bool_decide as Ht; [done|].
    simpl. rewrite Ht, <- E1. by destruct d.
  - case_bool_decide as Hc; [done|]. simpl. rewrite Hc, <- E2. by destruct d.
Qed.
End replay.

(** What a replica has in common with the dataview whose changes it applied: all that
    is said in messages.  The order of the sources and of the links, the formats of
    links, and orders that were dropped are not. *)
Record dv_match `{!ProtoEqual ViewFilter, !ProtoEqual ViewRelation, !ProtoEqual ViewSort, !ProtoEqual GroupOrder}
    (o r c : Dataview) : Prop := {
  dm_views : Forall2 view_match (dv_Views r) (dv_Views c);
  dm_source : dv_Source r ≡ₚ dv_Source c;
  dm_groups : ∀ x, x ∈ dv_GroupOrders c →
    ∃ y, y ∈ dv_GroupOrders r ∧ gro_ViewId y = gro_ViewId x ∧ same proto_Equal y x;
  dm_orders : ∀ x, x ∈ dv_ObjectOrders c → x ∈ dv_ObjectOrders r;
  dm_links : ∀ key, rl_Has (dv_RelationLinks r) key = rl_Has (dv_RelationLinks c) key;
  dm_target : dv_TargetObjectId r = dv_TargetObjectId c;
  dm_collection : dv_IsCollection r = dv_IsCollection c;
  dm_local : dv_ActiveView r = dv_ActiveView o ∧ dv_Relations r = dv_Relations o;
}.

(** The phases one after the other. *)
Lemma Diff_match `{!LoUniqBy, !LoUniqByOk, !Mb0Diff, !Mb0DiffOk, !SamberLo, !SamberLoOk}
    `{!ProtoEqual ViewFilter, !ProtoEqual ViewRelation, !ProtoEqual ViewSort, !ProtoEqual GroupOrder}
    (NewObjectId NewUuid : nat → string) (o c : Dataview) (n : nat) :
  wf_dv o → wf_dv c → removed_unused o c →
  ∃ r, apply_events NewObjectId NewUuid (o, n) (Diff o c) = Some (r, n, []) ∧ dv_match o r c.
Proof.
  intros Ho Hc Hu. unfold Diff.
  destruct (groups_run NewObjectId NewUuid (with_groups o (dv_GroupOrders o)) n (dv_GroupOrders o) (dv_GroupOrders c))
    as (G & HG & HGc); [apply Ho|apply Hc|].
  destruct (orders_run NewObjectId NewUuid (with_groups o G) n (dv_ObjectOrders o) (dv_ObjectOrders c))
    as (O & HO & HOc); [apply Ho|apply Hc|apply Ho|apply Hc|].
  destruct (links_run NewObjectId NewUuid (with_orders (with_groups o G) O) o c n) as (L & HL & HLc); [done|].
  destruct (views_phase_run NewObjectId NewUuid (with_links (with_orders (with_groups o G) O) L) n o c Ho Hc Hu)
    as (W & HW & HWi & HWc).
  set (d1 := with_links (with_orders (with_groups o G) O) L) in *.
  destruct (tail_run NewObjectId NewUuid (with_views d1 W) n o c) as (src & Hsrc & Psrc); [done|].
  destruct (order_phase_run NewObjectId NewUuid (SetSource d1 src) n o c W Ho Hc HWi HWc) as (W' & HW' & Hmatch).
  pose proof (settings_run NewObjectId NewUuid (with_views (SetSource d1 src) W') n o c) as Hset.
  eexists. split.
  - eapply apply_events_trans; [destruct o; exact HG|].
    eapply apply_events_trans; [exact HO|].
    eapply apply_events_trans; [exact HL|].
    eapply apply_events_trans; [exact HW|].
    eapply apply_events_trans; [exact Hsrc|].
    eapply apply_events_trans; [exact HW'|].
    by apply Hset.
  - by split.
Qed.

(** C22. The messages about a dataview block, applied to the block as it was, are
    applied without an error or a panic and give the new block: the same views in the
    same order with the same fields, filters, sorts and relations (up to [proto.Equal]),
    the same sources, target and relation links, and its orders of groups and objects.
    No new ids are made.  The blocks are well-formed (ids are there and unique), and
    no filter or sort that stays is on a relation whose link is removed; see
    [removed_link_drops_filter] for what happens otherwise. *)
Theorem dataview_replays `{!LoUniqBy, !LoUniqByOk, !Mb0Diff, !Mb0DiffOk, !SamberLo, !SamberLoOk}
    `{!ProtoEqual ViewFilter, !ProtoEqual ViewRelation, !ProtoEqual ViewSort, !ProtoEqual GroupOrder}
    (NewObjectId NewUuid : nat → string) (o c : Dataview) (n : nat) :
  wf_dv o → wf_dv c → removed_unused o c →
  ∃ r, apply_events NewObjectId NewUuid (o, n) (Diff o c) = Some (r, n, []) ∧ dv_match o r c.
Proof. apply Diff_match. Qed.
