(* ===== verification/DataviewEdits.v ===== *)
(** * Requests on dataviews

    The requests of clients ([core/block/editor/dataview], [views.go]) as a step
    relation, and what they keep: ids stay unique, and the messages about one request
    lead any replica to the same dataview. *)

From S2P Require Import Prelude Slice GoFloat Values PbTypes SliceDiff Filter Dataview DataviewDiff DataviewReplay.

(** ** Lists with ids *)

Section ids.
Context {T : Type} (getID : T → string).
Implicit Types (l : list T).
Notation ids := (fmap (M := list) getID).

Lemma ids_ok_snoc l x : ids_ok getID l → getID x ≠ "" → getID x ∉ ids l → ids_ok getID (l ++ [x]).
Proof.
  intros [Hn He] Hx Hin. split; rewrite fmap_app.
  - apply NoDup_app. split_and!; [done| |apply NoDup_singleton]. intros i Hi ->%list_elem_of_singleton. done.
  - simpl. set_solver.
Qed.

Lemma Find_cases (p : T → bool) l :
  (Slice.Find l p = (-1)%Z ∧ ∀ x, x ∈ l → p x = false) ∨
  ∃ l1 x l2, l = l1 ++ x :: l2 ∧ p x = true ∧ Slice.Find l p = Z.of_nat (length l1).
Proof.
  destruct (find_loop_spec p 0 l) as [Hf|(l1 & x & l2 & -> & Hx & _ & Hf)].
  - left. split; [by apply (find_loop_absent p 0)|done].
  - right. exists l1, x, l2. split_and!; done.
Qed.

(** Assigning to the cell of an id an element with that id. *)
Lemma ids_ok_assign l1 x y l2 :
  ids_ok getID (l1 ++ x :: l2) → getID y = getID x →
  ids_ok getID (<[Z.to_nat (Z.of_nat (length l1)) := y]> (l1 ++ x :: l2)).
Proof.
  intros Hok E. rewrite Nat2Z.id, insert_app_r_alt, Nat.sub_diag by lia. simpl.
  unfold ids_ok in *. rewrite !fmap_app, !fmap_cons in *. by rewrite E.
Qed.

(** Elements looked up by id, in the order asked for. *)
Lemma by_ids_spec l keys :
  NoDup (ids l) →
  ids (by_ids getID l keys) = filter (λ i, i ∈ ids l) keys ∧ by_ids getID l keys ⊆ l.
Proof.
  intros Hn. unfold by_ids. set (M := foldl _ ∅ l).
  assert (HM : ∀ i, i ∈ ids l → ∃ x, M !! i = Some x ∧ x ∈ l ∧ getID x = i).
  { intros i (x & -> & Hx)%list_elem_of_fmap. exists x. split; [|done].
    apply foldl_items_lookup; [|done]. by apply NoDup_ids_inj. }
  assert (HMn : ∀ i, i ∉ ids l → M !! i = None).
  { intros i Hi. destruct (M !! i) as [x|] eqn:E; [|done].
    apply foldl_items_Some in E as [[Hx <-]|E]; [destruct Hi; by apply list_elem_of_fmap_2|by simplify_map_eq]. }
  clearbody M.
  enough (∀ acc, ∃ r, foldl (λ res id, match M !! id with Some f => res ++ [f] | None => res end) acc keys = acc ++ r ∧
    ids r = filter (λ i, i ∈ ids l) keys ∧ r ⊆ l) as Hgo.
  { destruct (Hgo []) as (r & -> & ? & ?). done. }
  induction keys as [|i keys IH]; intros acc; [exists []; rewrite app_nil_r; set_solver|].
  cbn [foldl]. rewrite filter_cons. case_decide as Hi.
  - destruct (HM i Hi) as (x & -> & Hx & <-). destruct (IH (acc ++ [x])) as (r & -> & Hr & Hs).
    exists (x :: r). rewrite <- app_assoc, fmap_cons, Hr. split_and!; [done..|set_solver].
  - rewrite HMn by done. apply IH.
Qed.

Lemma by_ids_ok l keys : ids_ok getID l → NoDup keys → ids_ok getID (by_ids getID l keys).
Proof.
  intros [Hn He] Hk. destruct (by_ids_spec l keys Hn) as [E _]. unfold ids_ok. rewrite E. split.
  - by apply NoDup_filter.
  - rewrite list_elem_of_filter. tauto.
Qed.

(** A request that names every id only permutes the list. *)
Lemma by_ids_perm l keys : NoDup (ids l) → NoDup keys → ids l ⊆ keys → by_ids getID l keys ≡ₚ l.
Proof.
  intros Hn Hk Hsub. destruct (by_ids_spec l keys Hn) as [E Hs].
  assert (NoDup (by_ids getID l keys)) as Hnd.
  { apply (NoDup_fmap_1 getID). rewrite E. by apply NoDup_filter. }
  apply NoDup_Permutation; [done|by eapply NoDup_fmap_1|]. intros x. split; [apply Hs|]. intros Hx.
  assert (getID x ∈ ids (by_ids getID l keys)) as (y & Ey & Hy)%list_elem_of_fmap.
  { rewrite E, list_elem_of_filter. pose proof (list_elem_of_fmap_2 getID l x Hx). auto. }
  replace x with y; [done|]. apply (NoDup_ids_inj getID l); [done|by apply Hs|done|done].
Qed.

Lemma Filter_ids_ok (p : T → bool) l : ids_ok getID l → ids_ok getID (Slice.Filter l p).
Proof. rewrite Filter_spec. apply ids_ok_filter. Qed.
End ids.

(** ** One view *)

Section view.
Notation ids := (fmap (M := list) vw_Id).
Implicit Types (d : Dataview) (v : View).

Lemma change_view_wf f i (l : list View) :
  ids_ok vw_Id l → Forall wf_view l →
  (∀ v, v ∈ l → vw_Id v = i → vw_Id (f v) = i ∧ wf_view (f v)) →
  ids (change_view f i l) = ids l ∧ Forall wf_view (change_view f i l).
Proof.
  intros [Hn _] Hw Hf. rewrite change_view_map by done. rewrite Forall_forall in Hw. split.
  - clear Hn Hw. induction l as [|v l IH]; [done|]. simpl. f_equal; [|apply IH; intros; apply Hf; [by right|done]].
    case_bool_decide as E; [|done]. rewrite E. apply Hf; [by left|done].
  - apply Forall_forall. intros w (v & <- & Hv%list_elem_of_In)%list_elem_of_In%in_map_iff. case_bool_decide; [by apply Hf|auto].
Qed.

Lemma on_view_wf d i f :
  wf_dv d → (∀ v, v ∈ dv_Views d → vw_Id v = i → wf_view v → vw_Id (f v) = i ∧ wf_view (f v)) →
  wf_dv (on_view d i f).1.
Proof.
  intros Hwf Hf. pose proof Hwf as [I V G O B]. unfold on_view. destruct (GetView d i); [|done].
  destruct (change_view_wf f i (dv_Views d) I V) as [Ei Ef].
  { intros v Hv E. apply Hf; [done..|]. rewrite Forall_forall in V. auto. }
  split; cbn [fst with_views dv_Views dv_GroupOrders dv_ObjectOrders]; try done.
  unfold ids_ok. by rewrite Ei.
Qed.

Lemma reset_wf d i : wf_dv d → wf_dv (resetObjectOrderForView d i).
Proof.
  intros [I V G O B]. split; cbn [resetObjectOrderForView with_orders dv_Views dv_GroupOrders dv_ObjectOrders]; try done.
  - replace (order_key <$> map _ (dv_ObjectOrders d)) with (order_key <$> dv_ObjectOrders d); [done|].
    clear. induction (dv_ObjectOrders d) as [|o l IH]; [done|]. rewrite fmap_cons. cbn [map]. rewrite fmap_cons, IH.
    by case_bool_decide.
  - apply Forall_forall. intros w (o & <- & Ho%list_elem_of_In)%list_elem_of_In%in_map_iff. rewrite Forall_forall in B.
    case_bool_decide; [split; [constructor|apply not_elem_of_nil]|auto].
Qed.
End view.

(** ** The position of a view *)

Definition without {T} (i cur : nat) (l : list T) : list T := if bool_decide (i ≤ cur) then delete (cur - i) l else l.

Lemma place_view_after cur p v views i acc :
  p < length acc → place_view i cur p v views acc = acc ++ without i cur views.
Proof.
  revert i acc. induction views as [|w views IH]; intros i acc Hp; simpl.
  - rewrite (bool_decide_eq_false_2 (length acc = p)) by lia. unfold without. case_bool_decide; by rewrite ?app_nil_r.
  - rewrite (bool_decide_eq_false_2 (length acc = p)) by lia. case_bool_decide as Hi.
    + rewrite IH by (rewrite length_app; simpl; lia). rewrite <- app_assoc. f_equal. unfold without.
      repeat case_bool_decide; try lia; [|done]. replace (cur - i) with (S (cur - S i)) by lia. done.
    + assert (i = cur) as -> by lia. rewrite IH by done. f_equal. unfold without.
      repeat case_bool_decide; try lia. by rewrite Nat.sub_diag.
Qed.

Lemma place_view_spec cur p v views i acc :
  length acc ≤ p → p ≤ length acc + length (without i cur views) →
  place_view i cur p v views acc =
    acc ++ take (p - length acc) (without i cur views) ++ v :: drop (p - length acc) (without i cur views).
Proof.
  revert i acc. induction views as [|w views IH]; intros i acc Hp Hl.
  - assert (without i cur ([] : list View) = []) as E by (unfold without; by case_bool_decide).
    rewrite E in *. simpl in *. rewrite bool_decide_eq_true_2, take_nil, drop_nil by lia. done.
  - cbn [place_view]. destruct (decide (length acc = p)) as [Ha|Ha];
      [rewrite (bool_decide_eq_true_2 (length acc = p)) by done|rewrite (bool_decide_eq_false_2 (length acc = p)) by done].
    + rewrite Ha, Nat.sub_diag, take_0, drop_0.
      assert (Ew : without i cur (w :: views) =
        if bool_decide (i ≠ cur) then w :: without (S i) cur views else without (S i) cur views).
      { unfold without. repeat case_bool_decide; try lia; try done.
        - replace (cur - i) with (S (cur - S i)) by lia. done.
        - subst. by rewrite Nat.sub_diag. }
      case_bool_decide; rewrite place_view_after by (rewrite !length_app; simpl; lia); rewrite Ew, <- !app_assoc; done.
    + case_bool_decide as Hi.
      * assert (Ew : without i cur (w :: views) = w :: without (S i) cur views).
        { unfold without. repeat case_bool_decide; try lia; [|done].
          replace (cur - i) with (S (cur - S i)) by lia. done. }
        rewrite Ew in *. simpl in Hl. rewrite IH by (rewrite length_app; simpl; lia).
        rewrite length_app. simpl. replace (p - length acc) with (S (p - (length acc + 1))) by lia.
        by rewrite <- app_assoc.
      * assert (i = cur) as -> by lia.
        assert (Ew : without cur cur (w :: views) = without (S cur) cur views).
        { unfold without. repeat case_bool_decide; try lia. by rewrite Nat.sub_diag. }
        rewrite Ew in *. by apply IH.
Qed.

(** Moving a view to a position takes it out and puts it behind that many others, at
    the end when there are fewer. *)
Theorem SetViewPosition_correct (d : Dataview) (viewId : string) (position : nat) :
  match editor_SetViewPosition d viewId position with
  | Err e => e = "view not found" ∧ find_view (dv_Views d) viewId = None
  | Ok d' => ∃ l1 v l2, dv_Views d = l1 ++ v :: l2 ∧ vw_Id v = viewId ∧
      d' = with_views d (take position (l1 ++ l2) ++ v :: drop position (l1 ++ l2))
  end.
Proof.
  unfold editor_SetViewPosition.
  destruct (Find_cases (λ v, bool_decide (vw_Id v = viewId)) (dv_Views d)) as [[-> Hn]|(l1 & v & l2 & Ev & Hv & ->)].
  - assert (find_view (dv_Views d) viewId = None) as Hf.
    { apply find_view_None. intros (x & -> & Hx)%list_elem_of_fmap. apply Hn in Hx.
      by rewrite bool_decide_eq_true_2 in Hx. }
    change (Z.to_nat (-1)) with 0. destruct (dv_Views d !! 0); (split; [done|exact Hf]).
  - rewrite Nat2Z.id, Ev, list_lookup_middle by done.
    replace (Z.of_nat (length l1) <? 0)%Z with false by lia. apply bool_decide_eq_true in Hv.
    exists l1, v, l2. split_and!; [done..|]. f_equal.
    assert (without 0 (length l1) (l1 ++ v :: l2) = l1 ++ l2) as Ew.
    { unfold without. rewrite bool_decide_eq_true_2, Nat.sub_0_r, delete_middle by lia. done. }
    assert (length (l1 ++ v :: l2) - 1 = length (l1 ++ l2)) as El by (rewrite !length_app; simpl; lia).
    rewrite El. case_bool_decide as Hp; rewrite place_view_spec, Ew by (rewrite ?Ew; simpl; lia); simpl;
      rewrite Nat.sub_0_r; [|done].
    by rewrite !take_ge, !drop_ge by lia.
Qed.

(** Moving objects takes them out of the order and puts them behind [afterId], or
    first when that is not in the rest of the order; the call never panics. *)
Theorem move_objects_correct (ids objectIds : list string) (afterId : string) :
  NoDup ids →
  ∃ l1 l2, filter (λ i, i ∉ objectIds) ids = l1 ++ l2 ∧
    move_objects ids objectIds afterId = Some (l1 ++ objectIds ++ l2) ∧
    (if bool_decide (afterId ∈ ids ∧ afterId ∉ objectIds) then last l1 = Some afterId else l1 = []).
Proof.
  intros Hn. unfold move_objects. rewrite Difference_spec.
  set (rest := filter (λ i, i ∉ objectIds) ids).
  assert (Hin : afterId ∈ rest ↔ afterId ∈ ids ∧ afterId ∉ objectIds) by (unfold rest; rewrite list_elem_of_filter; tauto).
  destruct (find_loop_spec (λ sv, bool_decide (sv = afterId)) 0 rest) as [Hf|(l & x & r & E & Hx & _ & Hf)].
  - assert (FindPos rest afterId = (-1)%Z) as -> by by apply (find_loop_absent (λ sv, bool_decide (sv = afterId)) 0).
    exists [], rest. split_and!; [done|exact (Insert_at [] rest objectIds)|].
    rewrite bool_decide_eq_false_2; [done|]. intros Hc%Hin%Hf. by rewrite bool_decide_eq_true_2 in Hc.
  - apply bool_decide_eq_true in Hx as ->. fold (FindPos rest afterId) in Hf.
    exists (l ++ [afterId]), r. rewrite E, <- app_assoc. split_and!; [done| |].
    + rewrite E in Hf. rewrite Hf.
      pose proof (Insert_at (l ++ [afterId]) r objectIds) as HI. rewrite length_app, <- !app_assoc in HI. simpl in HI.
      rewrite <- app_assoc. simpl. rewrite <- HI. f_equal. lia.
    + rewrite bool_decide_eq_true_2; [apply last_snoc|]. apply Hin. rewrite E. set_solver.
Qed.

(** ** Requests *)

Section requests.
Context `{!SamberLo, !SamberLoOk} (NewObjectId NewUuid : nat → string).
Implicit Types (d : Dataview).

(** The id of a new element of a list of the view. *)
Definition new_id {T} (getID : T → string) (get : View → list T) d (viewID id : string) : Prop :=
  id ≠ "" ∧ ∀ v, v ∈ dv_Views d → vw_Id v = viewID → id ∉ getID <$> get v.

(** What requests do to a dataview, failed ones included.  The premises are what the
    operations leave to the client and to the generators of ids: new ids are new, a
    replaced sort or relation keeps its id, and a request does not name an id twice. *)
Inductive request d : Dataview → Prop :=
| rq_create view n d' v' n' :
    editor_CreateView NewObjectId NewUuid d view n = (d', v', n') →
    wf_view v' → vw_Id v' ≠ "" → vw_Id v' ∉ vw_Id <$> dv_Views d → request d d'
| rq_delete viewId d' : editor_DeleteView d viewId = Ok d' → request d d'
| rq_update viewId view : request d (SetViewFields d viewId view).1
| rq_position viewId position d' : editor_SetViewPosition d viewId position = Ok d' → request d d'
| rq_active viewId d' : editor_SetActiveView d viewId = Ok d' → request d d'
| rq_source source : request d (SetSource d source)
| rq_add_relation link : request d (AddRelation d link).1
| rq_delete_relations keys : request d (DeleteRelations d keys)
| rq_set_relations links : request d (SetRelations d links)
| rq_group_order order : request d (SetViewGroupOrder d order)
| rq_object_order orders :
    Forall (λ o, ids_ok id (oo_ObjectIds o)) orders → request d (SetViewObjectOrder d orders)
| rq_move viewId groupId afterId ids d' e :
    MoveObjectsInView d viewId groupId afterId ids = Some (d', e) → ids_ok id ids → request d d'
| rq_add_filter viewID filter n d' e n' :
    AddFilter NewObjectId d viewID filter n = (d', e, n') →
    new_id vf_Id vw_Filters d viewID (fill_id NewObjectId (vf_Id filter) n).1 → request d d'
| rq_remove_filters viewID ids : request d (RemoveFilters d viewID ids).1
| rq_replace_filter viewID filterID filter n d' e n' :
    ReplaceFilter NewObjectId d viewID filterID filter n = (d', e, n') →
    new_id vf_Id vw_Filters d viewID (fill_id NewObjectId (vf_Id filter) n).1 → request d d'
| rq_reorder_filters viewID ids : NoDup ids → request d (ReorderFilters d viewID ids).1
| rq_add_sort viewID sort n d' e n' :
    AddSort NewObjectId d viewID sort n = (d', e, n') →
    new_id vs_Id vw_Sorts d viewID (fill_id NewObjectId (vs_Id sort) n).1 → request d d'
| rq_remove_sorts viewID ids : request d (RemoveSorts d viewID ids).1
| rq_replace_sort viewID sort n d' e n' :
    ReplaceSort NewObjectId d viewID (vs_Id sort) sort n = (d', e, n') → vs_Id sort ≠ "" → request d d'
| rq_reorder_sorts viewID ids : NoDup ids → request d (ReorderSorts d viewID ids).1
| rq_add_relation_to_view viewID relation :
    vr_Key relation ≠ "" → request d (AddViewRelation d viewID relation).1
| rq_replace_relation viewID relation :
    vr_Key relation ≠ "" → request d (ReplaceViewRelation d viewID (vr_Key relation) relation).1
| rq_remove_relations viewID keys : request d (RemoveViewRelations d viewID keys).1
| rq_reorder_relations viewID keys : NoDup keys → request d (ReorderViewRelations d viewID keys).1.

(** *** They keep the ids in order *)

Lemma with_views_wf d l : wf_dv d → ids_ok vw_Id l → Forall wf_view l → wf_dv (with_views d l).
Proof. by intros [? ? ? ? ?]. Qed.

Lemma with_filters_wf v l : wf_view v → ids_ok vf_Id l → wf_view (with_filters v l).
Proof. by intros [? ? ?]. Qed.
Lemma with_sorts_wf v l : wf_view v → ids_ok vs_Id l → wf_view (with_sorts v l).
Proof. by intros [? ? ?]. Qed.
Lemma with_relations_wf v l : wf_view v → ids_ok vr_Key l → wf_view (with_relations v l).
Proof. by intros [? ? ?]. Qed.
Hint Resolve with_filters_wf with_sorts_wf with_relations_wf Filter_ids_ok by_ids_ok reset_wf : dv.

Lemma reset_views d i : dv_Views (resetObjectOrderForView d i) = dv_Views d.
Proof. done. Qed.

Lemma GetView_Ok d i v : GetView d i = Ok v → v ∈ dv_Views d ∧ vw_Id v = i.
Proof. unfold GetView. destruct (find_view _ _) as [w|] eqn:E; [|done]. intros [= ->]. by apply find_view_Some. Qed.

Lemma setRelationFormat_id d f : vf_Id (setRelationFormat d f) = vf_Id f.
Proof.
  unfold setRelationFormat. revert f. induction (dv_RelationLinks d) as [|l ls IH]; intros f; [done|]. simpl.
  rewrite IH. by case_bool_decide.
Qed.

(** An operation on the list of one view. *)
Lemma view_list_wf d i f :
  wf_dv d → (∀ v, v ∈ dv_Views d → vw_Id v = i → wf_view v → vw_Id (f v) = vw_Id v ∧ wf_view (f v)) →
  wf_dv (on_view d i f).1.
Proof. intros Hw Hf. apply on_view_wf; [done|]. intros v Hv E Hwv. destruct (Hf v Hv E Hwv) as [E' ?]. split; [congruence|done]. Qed.

Lemma AddFilter_wf d viewID filter n d' e n' :
  AddFilter NewObjectId d viewID filter n = (d', e, n') →
  new_id vf_Id vw_Filters d viewID (fill_id NewObjectId (vf_Id filter) n).1 → wf_dv d → wf_dv d'.
Proof.
  unfold AddFilter. intros Ha [Hne Hnew] Hw. apply (reset_wf d viewID) in Hw.
  destruct (GetView _ _); [|by injection Ha as <- <- <-].
  destruct (fill_id NewObjectId (vf_Id filter) n) as [i k] eqn:Ef. simpl in *.
  injection Ha as Ha _. apply (f_equal fst) in Ha. cbn [fst] in Ha. subst d'. apply view_list_wf; [done|].
  intros v Hv E Hwv. split; [done|]. apply with_filters_wf; [done|]. apply ids_ok_snoc; [apply Hwv|..]; rewrite setRelationFormat_id; [done|].
  by apply Hnew.
Qed.

Lemma AddSort_wf d viewID sort n d' e n' :
  AddSort NewObjectId d viewID sort n = (d', e, n') →
  new_id vs_Id vw_Sorts d viewID (fill_id NewObjectId (vs_Id sort) n).1 → wf_dv d → wf_dv d'.
Proof.
  unfold AddSort. intros Ha [Hne Hnew] Hw. apply (reset_wf d viewID) in Hw.
  destruct (GetView _ _); [|by injection Ha as <- <- <-].
  destruct (fill_id NewObjectId (vs_Id sort) n) as [i k] eqn:Ef. simpl in *.
  injection Ha as Ha _. apply (f_equal fst) in Ha. cbn [fst] in Ha. subst d'. apply view_list_wf; [done|].
  intros v Hv E Hwv. split; [done|]. apply with_sorts_wf; [done|]. apply ids_ok_snoc; [apply Hwv|done|].
  by apply Hnew.
Qed.

Lemma view_by_id d v w : wf_dv d → v ∈ dv_Views d → w ∈ dv_Views d → vw_Id v = vw_Id w → v = w.
Proof. intros [[Hn _] _ _ _ _] Hv Hw E. by apply (NoDup_ids_inj vw_Id (dv_Views d)). Qed.

Lemma ReplaceFilter_wf d viewID filterID filter n d' e n' :
  ReplaceFilter NewObjectId d viewID filterID filter n = (d', e, n') →
  new_id vf_Id vw_Filters d viewID (fill_id NewObjectId (vf_Id filter) n).1 → wf_dv d → wf_dv d'.
Proof.
  unfold ReplaceFilter. intros Ha Hnew Hw. pose proof (reset_wf d viewID Hw) as Hr.
  destruct (GetView _ _) as [view|] eqn:Eg; [|by injection Ha as <- <- <-].
  apply GetView_Ok in Eg as [Hview Eview].
  destruct (Find_cases (λ f, bool_decide (vf_Id f = filterID)) (vw_Filters view)) as [[EF _]|(l1 & f & l2 & El & Hf & EF)];
    rewrite EF in Ha; simpl in Ha.
  - by eapply AddFilter_wf.
  - replace (Z.of_nat (length l1) <? 0)%Z with false in Ha by lia.
    injection Ha as Ha _. apply (f_equal fst) in Ha. cbn [fst] in Ha. subst d'. apply view_list_wf; [done|]. intros v Hv E Hwv.
    split; [done|]. apply with_filters_wf; [done|].
    assert (v = view) as -> by (eapply view_by_id; [exact Hr|done|done|congruence]).
    pose proof (wfv_filters _ Hwv) as Hok. rewrite El in *. apply ids_ok_assign; [done|].
    rewrite setRelationFormat_id. apply bool_decide_eq_true in Hf. done.
Qed.

Lemma ReplaceSort_wf d viewID sort n d' e n' :
  ReplaceSort NewObjectId d viewID (vs_Id sort) sort n = (d', e, n') → vs_Id sort ≠ "" → wf_dv d → wf_dv d'.
Proof.
  unfold ReplaceSort. intros Ha Hne Hw. pose proof (reset_wf d viewID Hw) as Hr.
  destruct (GetView _ _) as [view|] eqn:Eg; [|by injection Ha as <- <- <-].
  apply GetView_Ok in Eg as [Hview Eview].
  destruct (Find_cases (λ f, bool_decide (vs_Id f = vs_Id sort)) (vw_Sorts view)) as [[EF Hno]|(l1 & f & l2 & El & Hf & EF)];
    rewrite EF in Ha; simpl in Ha.
  - eapply AddSort_wf; [exact Ha| |done]. unfold fill_id. rewrite bool_decide_eq_false_2 by done. split; [done|].
    intros v Hv E (x & Ex & Hx)%list_elem_of_fmap.
    assert (v = view) as -> by (eapply view_by_id; [exact Hr|done|done|congruence]).
    apply Hno in Hx. by rewrite bool_decide_eq_true_2 in Hx.
  - replace (Z.of_nat (length l1) <? 0)%Z with false in Ha by lia.
    injection Ha as Ha _. apply (f_equal fst) in Ha. cbn [fst] in Ha. subst d'. apply view_list_wf; [done|]. intros v Hv E Hwv.
    split; [done|]. apply with_sorts_wf; [done|].
    assert (v = view) as -> by (eapply view_by_id; [exact Hr|done|done|congruence]).
    pose proof (wfv_sorts _ Hwv) as Hok. rewrite El in *. apply ids_ok_assign; [done|].
    apply bool_decide_eq_true in Hf. done.
Qed.

Lemma replace_relation_wf relation v :
  vr_Key relation ≠ "" → wf_view v →
  vw_Id (replace_relation (vr_Key relation) relation v) = vw_Id v ∧ wf_view (replace_relation (vr_Key relation) relation v).
Proof.
  intros Hne Hwv. unfold replace_relation. pose proof (wfv_relations _ Hwv) as Hok.
  destruct (Find_cases (λ f, bool_decide (vr_Key f = vr_Key relation)) (vw_Relations v)) as [[EF Hno]|(l1 & f & l2 & El & Hf & EF)];
    rewrite EF.
  - split; [done|]. apply with_relations_wf; [done|]. apply ids_ok_snoc; [done..|].
    intros (x & Ex & Hx)%list_elem_of_fmap. apply Hno in Hx. by rewrite bool_decide_eq_true_2 in Hx.
  - replace (Z.of_nat (length l1) <? 0)%Z with false by lia. split; [done|]. apply with_relations_wf; [done|].
    rewrite El in *. apply ids_ok_assign; [done|]. apply bool_decide_eq_true in Hf. done.
Qed.

Lemma delete_view_wf d l viewId : wf_dv d → delete_view (dv_Views d) viewId = Some l → wf_dv (with_views d l).
Proof.
  intros Hw Hd. pose proof Hw as [[Hn He] Hv _ _ _].
  pose proof (delete_view_filter (dv_Views d) viewId Hn) as Hf. rewrite Hd in Hf. simpl in Hf. subst l.
  apply with_views_wf; [done|by apply ids_ok_filter|].
  rewrite Forall_forall in Hv |- *. intros v [_ Hin]%list_elem_of_filter. auto.
Qed.

Lemma SetViewPosition_wf d viewId position d' :
  wf_dv d → editor_SetViewPosition d viewId position = Ok d' → wf_dv d'.
Proof.
  intros Hw Hp. pose proof (SetViewPosition_correct d viewId position) as Hc. rewrite Hp in Hc.
  destruct Hc as (l1 & v & l2 & E & _ & ->). pose proof Hw as [I V _ _ _]. rewrite E in I, V.
  assert (Hperm : take position (l1 ++ l2) ++ v :: drop position (l1 ++ l2) ≡ₚ l1 ++ v :: l2).
  { rewrite <- !Permutation_middle. by rewrite take_drop. }
  apply with_views_wf; [done|unfold ids_ok in *|]; by rewrite Hperm.
Qed.

Lemma groups_wf d x : wf_dv d → wf_dv (SetViewGroupOrder d x).
Proof.
  intros [I V G O B]. replace d with (with_groups d (dv_GroupOrders d)) by by destruct d.
  rewrite SetViewGroupOrder_upsert. split; try done. by apply upsert_spec.
Qed.

Lemma order_wf d x : ids_ok id (oo_ObjectIds x) → wf_dv d → wf_dv (SetViewObjectOrder d [x]).
Proof.
  intros Hx [I V G O B]. replace d with (with_orders d (dv_ObjectOrders d)) by by destruct d.
  rewrite SetViewObjectOrder_upsert. destruct (upsert_spec order_key x (dv_ObjectOrders d) O) as [Hn Hel].
  split; try done. apply Forall_forall. intros y [->|[Hy _]]%Hel; [done|]. rewrite Forall_forall in B. auto.
Qed.

Lemma orders_wf d orders :
  Forall (λ o, ids_ok id (oo_ObjectIds o)) orders → wf_dv d → wf_dv (SetViewObjectOrder d orders).
Proof.
  intros Ho. revert d. induction Ho as [|o orders Hx _ IH]; intros d Hw; [done|].
  apply IH. by apply (order_wf d o).
Qed.

Lemma move_objects_ok ids objectIds afterId l :
  ids_ok id ids → ids_ok id objectIds → move_objects ids objectIds afterId = Some l → ids_ok id l.
Proof.
  unfold ids_ok. rewrite !list_fmap_id. intros [Hn He] [Hn' He'] Hm.
  destruct (move_objects_correct ids objectIds afterId Hn) as (l1 & l2 & El & Hm' & _).
  rewrite Hm in Hm'. injection Hm' as ->.
  assert (Hel : ∀ i, i ∈ l1 ++ l2 → i ∉ objectIds ∧ i ∈ ids) by (intros i; rewrite <- El, list_elem_of_filter; tauto).
  assert (Hnd : NoDup (l1 ++ l2)) by (rewrite <- El; by apply NoDup_filter).
  rewrite (Permutation_app_comm objectIds l2), app_assoc. split.
  - apply NoDup_app. split_and!; [done| |done]. intros i Hi Hi'. by apply Hel in Hi as [? _].
  - rewrite elem_of_app. intros [[_ ?]%Hel|?]; done.
Qed.

Lemma move_in_orders_wf orders viewId groupId afterId ids l :
  ids_ok id ids → Forall (λ o, ids_ok id (oo_ObjectIds o)) orders →
  move_in_orders orders viewId groupId afterId ids = Some (Some l) →
  order_key <$> l = order_key <$> orders ∧ Forall (λ o, ids_ok id (oo_ObjectIds o)) l.
Proof.
  intros Hids. revert l. induction orders as [|o orders IH]; intros l Hf; [done|]. apply Forall_cons in Hf as [Ho Hf]. simpl.
  destruct (is_order viewId groupId o).
  - destruct (move_objects _ _ _) as [r|] eqn:Em; [|done]. intros [= <-]. split; [done|].
    constructor; [|done]. exact (move_objects_ok _ _ _ _ Ho Hids Em).
  - destruct (move_in_orders orders viewId groupId afterId ids) as [[r|]|] eqn:Em; [|done..]. intros [= <-].
    destruct (IH r Hf eq_refl) as [E Hr]. rewrite !fmap_cons, E. split; [done|by constructor].
Qed.

Lemma map_remove_ids keys l : vw_Id <$> map (remove_by_keys keys) l = vw_Id <$> l.
Proof. induction l as [|v l IH]; [done|]. cbn [map]. by rewrite !fmap_cons, IH. Qed.

Lemma map_remove_wf keys d d' :
  wf_dv d → dv_Views d' = map (remove_by_keys keys) (dv_Views d) →
  dv_GroupOrders d' = dv_GroupOrders d → dv_ObjectOrders d' = dv_ObjectOrders d → wf_dv d'.
Proof.
  intros [I V G O B] E1 E2 E3. split; rewrite ?E1, ?E2, ?E3; try done.
  - unfold ids_ok in *. by rewrite map_remove_ids.
  - apply Forall_forall. intros w (v & <- & Hv%list_elem_of_In)%list_elem_of_In%in_map_iff.
    rewrite Forall_forall in V. apply remove_by_keys_wf. auto.
Qed.

Lemma removeSorts_views d keys :
  removeSortsAndFiltersByKeys d keys = with_views d (map (remove_by_keys keys) (dv_Views d)).
Proof.
  unfold removeSortsAndFiltersByKeys. destruct keys; [|done]. rewrite map_remove_none. by destruct d.
Qed.

Lemma ReorderViewRelations_keys (l : list ViewRelation) keys :
  NoDup keys →
  let keys' := foldl (λ keys r, if bool_decide (vr_Key r ∈ keys) then keys else keys ++ [vr_Key r]) keys l in
  NoDup keys' ∧ keys ⊆ keys' ∧ vr_Key <$> l ⊆ keys'.
Proof.
  revert keys. induction l as [|r l IH]; intros keys Hk; [simpl; split_and!; [done|done|set_solver]|].
  cbn [foldl fmap list_fmap]. case_bool_decide as Hr.
  - destruct (IH keys Hk) as (? & ? & ?). split_and!; [done..|]. set_solver.
  - destruct (IH (keys ++ [vr_Key r])) as (? & ? & ?).
    { apply NoDup_app. split_and!; [done| |apply NoDup_singleton]. intros i Hi ->%list_elem_of_singleton. done. }
    split_and!; [done|set_solver..].
Qed.

Lemma CreateView_adds d view n d' v' n' :
  editor_CreateView NewObjectId NewUuid d view n = (d', v', n') → d' = with_views d (dv_Views d ++ [v']).
Proof.
  unfold editor_CreateView, AddView. set (w := if bool_decide (length (vw_Relations _) = 0) then _ else _).
  case_bool_decide; cbn [DefaultLastModifiedDateSort];
    destruct (added_view _ _ _ _) as [x k] eqn:Ea; intros [= <- <- <-]; by rewrite ?Ea.
Qed.

Lemma request_wf d d' : request d d' → wf_dv d → wf_dv d'.
Proof.
  intros Hr Hw. destruct Hr as [view n d' v' n' Hcv Hwv Hvne Hnin|viewId d' Hdel|viewId view|viewId position d' Hpos
    |viewId d' Hact|source|link|keys|links|order|orders Hok|viewId groupId afterId ids d' e Hmv Hids
    |viewID filter n d' e n' Hadd Hnew|viewID ids|viewID filterID filter n d' e n' Hrep Hnew|viewID ids Hnd
    |viewID sort n d' e n' Hadd Hnew|viewID ids|viewID sort n d' e n' Hrep Hne|viewID ids Hnd
    |viewID relation Hne|viewID relation Hne|viewID keys|viewID keys Hnd].
  - apply CreateView_adds in Hcv as ->. pose proof Hw as [I V _ _ _].
    apply with_views_wf; [done|by apply ids_ok_snoc|]. apply Forall_app. split; [done|by apply Forall_singleton].
  - unfold editor_DeleteView, DeleteView in Hdel. destruct (delete_view _ _) as [l|] eqn:Ed; [|done].
    case_bool_decide; [done|]. injection Hdel as <-. by eapply delete_view_wf.
  - apply view_list_wf; [done|]. intros v _ _ []. by split.
  - by eapply SetViewPosition_wf.
  - unfold editor_SetActiveView in Hact. destruct (GetView _ _); [|done]. injection Hact as <-. by destruct Hw.
  - by destruct Hw.
  - unfold AddRelation. destruct (rl_Has _ _); [done|]. by destruct Hw.
  - eapply (map_remove_wf keys); [exact Hw|by rewrite DeleteRelations_views..].
  - unfold SetRelations. eapply map_remove_wf; [exact Hw|by rewrite removeSorts_views..].
  - by apply groups_wf.
  - by apply orders_wf.
  - unfold MoveObjectsInView in Hmv. destruct (move_in_orders _ _ _ _ _) as [r|] eqn:Em; [|done].
    destruct r as [l|]; injection Hmv as <- _; [|done]. pose proof Hw as [I V G O B].
    destruct (move_in_orders_wf _ _ _ _ _ _ Hids B Em) as [E Hl]. split; try done. cbn [with_orders dv_ObjectOrders]. by rewrite E.
  - by eapply AddFilter_wf.
  - apply view_list_wf; [by apply reset_wf|]. intros v _ _ Hv. split; [done|]. apply with_filters_wf; [done|].
    by apply Filter_ids_ok, Hv.
  - by eapply ReplaceFilter_wf.
  - apply view_list_wf; [done|]. intros v _ _ Hv. split; [done|]. apply with_filters_wf; [done|]. by apply by_ids_ok; [apply Hv|].
  - by eapply AddSort_wf.
  - apply view_list_wf; [by apply reset_wf|]. intros v _ _ Hv. split; [done|]. apply with_sorts_wf; [done|].
    by apply Filter_ids_ok, Hv.
  - by eapply ReplaceSort_wf.
  - apply view_list_wf; [by apply reset_wf|]. intros v _ _ Hv. split; [done|]. apply with_sorts_wf; [done|]. by apply by_ids_ok; [apply Hv|].
  - apply view_list_wf; [done|]. intros v _ _ Hv. by apply replace_relation_wf.
  - apply view_list_wf; [done|]. intros v _ _ Hv. by apply replace_relation_wf.
  - apply view_list_wf; [done|]. intros v _ _ Hv. split; [done|]. apply with_relations_wf; [done|]. by apply Filter_ids_ok, Hv.
  - apply view_list_wf; [done|]. intros v _ _ Hv. split; [done|]. apply with_relations_wf; [done|].
    apply by_ids_ok; [apply Hv|]. by apply ReorderViewRelations_keys.
Qed.

(** *** They remove what is on a removed link *)

Lemma removed_keys_elem (o c : Dataview) k :
  k ∈ removed_keys o c ↔ k ∈ rl_Key <$> dv_RelationLinks o ∧ k ∉ rl_Key <$> dv_RelationLinks c.
Proof. unfold removed_keys. rewrite rl_Diff_spec. simpl. rewrite list_elem_of_filter. tauto. Qed.

Lemma nothing_removed (o c : Dataview) :
  (∀ k, k ∈ rl_Key <$> dv_RelationLinks o → k ∈ rl_Key <$> dv_RelationLinks c) → removed_unused o c.
Proof. intros Hk v v' _ _ _. split; intros x _ _ [Hx Hx']%removed_keys_elem; by apply Hx', Hk. Qed.

Lemma removed_with_uses keys (o c : Dataview) :
  wf_dv o → dv_Views c = map (remove_by_keys keys) (dv_Views o) →
  (∀ k, k ∈ removed_keys o c → k ∈ keys) → removed_unused o c.
Proof.
  intros Hw E Hk v v' Hv Hv' Ei. rewrite E in Hv'.
  apply list_elem_of_In, in_map_iff in Hv' as (w & <- & Hin%list_elem_of_In).
  assert (v = w) as -> by (by eapply view_by_id). rewrite remove_by_keys_spec.
  cbn [with_filters with_sorts vw_Filters vw_Sorts]. pose proof Hw as [_ V _ _ _].
  rewrite Forall_forall in V. destruct (V _ Hv) as [[Fn _] [Sn _] _]. split.
  - intros f Hf (g & Eg & [Hg Hgin]%list_elem_of_filter)%list_elem_of_fmap Hr%Hk.
    rewrite (NoDup_ids_inj vf_Id _ Fn f g Hf Hgin Eg) in Hr. done.
  - intros f Hf (g & Eg & [Hg Hgin]%list_elem_of_filter)%list_elem_of_fmap Hr%Hk.
    rewrite (NoDup_ids_inj vs_Id _ Sn f g Hf Hgin Eg) in Hr. done.
Qed.

Lemma on_view_links d i f : dv_RelationLinks (on_view d i f).1 = dv_RelationLinks d.
Proof. unfold on_view. by destruct (GetView d i). Qed.

Lemma AddFilter_links d viewID f n d' e n' :
  AddFilter NewObjectId d viewID f n = (d', e, n') → dv_RelationLinks d' = dv_RelationLinks d.
Proof.
  unfold AddFilter. destruct (GetView _ _); [|by intros [= <- _ _]].
  destruct (fill_id _ _ _). intros [= Ha _]. apply (f_equal fst) in Ha. cbn [fst] in Ha. subst d'. by rewrite on_view_links.
Qed.

Lemma AddSort_links d viewID s n d' e n' :
  AddSort NewObjectId d viewID s n = (d', e, n') → dv_RelationLinks d' = dv_RelationLinks d.
Proof.
  unfold AddSort. destruct (GetView _ _); [|by intros [= <- _ _]].
  destruct (fill_id _ _ _). intros [= Ha _]. apply (f_equal fst) in Ha. cbn [fst] in Ha. subst d'. by rewrite on_view_links.
Qed.

Lemma orders_links d orders : dv_RelationLinks (SetViewObjectOrder d orders) = dv_RelationLinks d.
Proof. unfold SetViewObjectOrder. revert d. induction orders as [|o l IH]; intros d; [done|]. cbn [foldl]. by rewrite IH. Qed.

Lemma DeleteView_links d viewId d' : editor_DeleteView d viewId = Ok d' → dv_RelationLinks d' = dv_RelationLinks d.
Proof.
  unfold editor_DeleteView, DeleteView. destruct (delete_view _ _); [|done]. case_bool_decide; [done|]. by intros [= <-].
Qed.

Lemma request_unused d d' : request d d' → wf_dv d → removed_unused d d'.
Proof.
  intros Hr Hw.
  enough (dv_RelationLinks d' = dv_RelationLinks d ∨ removed_unused d d') as [E|?]; [|done|].
  { apply nothing_removed. by rewrite E. }
  destruct Hr as [view n d' v' n' Hcv Hwv Hvne Hnin|viewId d' Hdel|viewId view|viewId position d' Hpos
    |viewId d' Hact|source|link|keys|links|order|orders Hok|viewId groupId afterId ids d' e Hmv Hids
    |viewID filter n d' e n' Hadd Hnew|viewID ids|viewID filterID filter n d' e n' Hrep Hnew|viewID ids Hnd
    |viewID sort n d' e n' Hadd Hnew|viewID ids|viewID sort n d' e n' Hrep Hne|viewID ids Hnd
    |viewID relation Hne|viewID relation Hne|viewID keys|viewID keys Hnd];
    try (left; etransitivity; [apply on_view_links|done]); try (by left).
  - left. by apply CreateView_adds in Hcv as ->.
  - left. by eapply DeleteView_links.
  - left. pose proof (SetViewPosition_correct d viewId position) as Hc. rewrite Hpos in Hc.
    by destruct Hc as (l1 & v & l2 & _ & _ & ->).
  - left. unfold editor_SetActiveView in Hact. destruct (GetView _ _); [|done]. by injection Hact as <-.
  - right. apply nothing_removed. intros k Hk. unfold AddRelation. destruct (rl_Has _ _); [done|].
    cbn [fst with_links dv_RelationLinks]. rewrite fmap_app. apply elem_of_app. by left.
  - right. apply (removed_with_uses keys); [done|by rewrite DeleteRelations_views|].
    intros k [Hk Hn]%removed_keys_elem. rewrite DeleteRelations_views in Hn.
    cbn [with_views with_links dv_RelationLinks] in Hn. rewrite rl_Remove_spec in Hn.
    destruct (decide (k ∈ keys)) as [|Hc]; [done|]. destruct Hn.
    apply list_elem_of_fmap in Hk as (l & -> & Hl). apply list_elem_of_fmap_2, list_elem_of_filter. done.
  - right. unfold SetRelations. apply (removed_with_uses (removed_keys d (with_links d links))); [done|by rewrite removeSorts_views|].
    intros k Hk. rewrite removeSorts_views in Hk. done.
  - left. by rewrite orders_links.
  - left. unfold MoveObjectsInView in Hmv. destruct (move_in_orders _ _ _ _ _) as [r|]; [|done].
    destruct r as [l|]; by injection Hmv as <- _.
  - left. by eapply AddFilter_links.
  - left. unfold ReplaceFilter in Hrep. destruct (GetView _ _) as [view|]; [|by injection Hrep as <- _ _].
    destruct (_ <? 0)%Z; [by eapply AddFilter_links in Hrep|].
    injection Hrep as Ha _. apply (f_equal fst) in Ha. cbn [fst] in Ha. subst d'. by rewrite on_view_links.
  - left. by eapply AddSort_links.
  - left. unfold ReplaceSort in Hrep. destruct (GetView _ _) as [view|]; [|by injection Hrep as <- _ _].
    destruct (_ <? 0)%Z; [by eapply AddSort_links in Hrep|].
    injection Hrep as Ha _. apply (f_equal fst) in Ha. cbn [fst] in Ha. subst d'. by rewrite on_view_links.
Qed.
End requests.

(** C23. A dataview stays well-formed under any sequence of requests, failed ones
    included, in which new views, filters and sorts have new ids, a replaced sort or view
    relation keeps its id, and no id is empty or named twice; and the messages about what
    such a request has changed, applied by a replica that holds the old dataview, are
    applied without an error or a panic and give it the new one.  The operations do not
    check these conditions: a sort replaced by one with another id may double it. *)
Theorem requests_replay `{!LoUniqBy, !LoUniqByOk, !Mb0Diff, !Mb0DiffOk, !SamberLo, !SamberLoOk}
    `{!ProtoEqual ViewFilter, !ProtoEqual ViewRelation, !ProtoEqual ViewSort, !ProtoEqual GroupOrder}
    (NewObjectId NewUuid : nat → string) (o d c : Dataview) (n : nat) :
  wf_dv o → rtc (request NewObjectId NewUuid) o d → request NewObjectId NewUuid d c →
  wf_dv c ∧ ∃ r, apply_events NewObjectId NewUuid (d, n) (Diff d c) = Some (r, n, []) ∧ dv_match d r c.
Proof.
  intros Ho Hsteps Hr.
  assert (Hd : wf_dv d) by (clear Hr; induction Hsteps; [done|eauto using request_wf]).
  pose proof (request_wf NewObjectId NewUuid d c Hr Hd) as Hc. split; [done|].
  apply Diff_match; [done..|]. by eapply request_unused.
Qed.
