(* ===== verification/DataviewInst.v ===== *)
(** * Dataviews: examples

    A set of tasks with two views.  The theorems of [DataviewReplay] and [DataviewEdits]
    on it, and what the code does where their hypotheses fail. *)

From S2P Require Import Prelude Slice GoFloat Values PbTypes SliceDiff Filter Dataview DataviewDiff DataviewReplay DataviewEdits.

Module DataviewInst.

#[local] Existing Instances SliceDiff.Instances.uniq_by SliceDiff.Instances.uniq_by_ok
  SliceDiff.Instances.prefix_diff SliceDiff.Instances.prefix_diff_ok Filter.FilterInst.lo Filter.FilterInst.lo_ok.

(** ** Equality of messages *)

(** Numbers and structs, which the examples do not have, count as different. *)
Fixpoint pb_eqb (a b : PbValue) : bool :=
  match a, b with
  | PNil, PNil | PNoKind, PNoKind | PNull, PNull => true
  | PBool x, PBool y => Bool.eqb x y
  | PString x, PString y => String.eqb x y
  | PList l1, PList l2 =>
      (fix go l1 l2 := match l1, l2 with
                       | [], [] => true
                       | x :: l1, y :: l2 => pb_eqb x y && go l1 l2
                       | _, _ => false
                       end) l1 l2
  | _, _ => false
  end.

#[local] Instance filter_equal : ProtoEqual ViewFilter := λ a b,
  bool_decide (vf_Id a = vf_Id b) && bool_decide (vf_Operator a = vf_Operator b) &&
  bool_decide (vf_RelationKey a = vf_RelationKey b) && bool_decide (vf_RelationProperty a = vf_RelationProperty b) &&
  bool_decide (vf_Condition a = vf_Condition b) && pb_eqb (vf_Value a) (vf_Value b) &&
  bool_decide (vf_QuickOption a = vf_QuickOption b) && bool_decide (vf_Format a = vf_Format b) &&
  bool_decide (vf_IncludeTime a = vf_IncludeTime b) &&
  bool_decide (length (vf_NestedFilters a) = 0) && bool_decide (length (vf_NestedFilters b) = 0).

#[local] Instance sort_equal : ProtoEqual ViewSort := λ a b,
  bool_decide (vs_RelationKey a = vs_RelationKey b) && bool_decide (vs_Type a = vs_Type b) &&
  pb_eqb (PList (vs_CustomOrder a)) (PList (vs_CustomOrder b)) && bool_decide (vs_Format a = vs_Format b) &&
  bool_decide (vs_IncludeTime a = vs_IncludeTime b) && bool_decide (vs_Id a = vs_Id b) &&
  bool_decide (vs_EmptyPlacement a = vs_EmptyPlacement b) && bool_decide (vs_NoCollate a = vs_NoCollate b).

#[local] Instance relation_eq_dec : EqDecision ViewRelation.
Proof. solve_decision. Defined.
#[local] Instance relation_equal : ProtoEqual ViewRelation := λ a b, bool_decide (a = b).

#[local] Instance group_eq_dec : EqDecision ViewGroup.
Proof. solve_decision. Defined.
#[local] Instance group_order_eq_dec : EqDecision GroupOrder.
Proof. solve_decision. Defined.
#[local] Instance group_equal : ProtoEqual GroupOrder := λ a b, bool_decide (a = b).

(** ** A set of tasks *)

Definition objectId (n : nat) : string := ("obj" +:+ pretty.pretty n)%string.
Definition uuid (n : nat) : string := ("uuid" +:+ pretty.pretty n)%string.

Definition filter_on (id key : string) (v : PbValue) : ViewFilter :=
  {| vf_Id := id; vf_Operator := 0; vf_RelationKey := key; vf_RelationProperty := ""; vf_Condition := 1;
     vf_Value := v; vf_QuickOption := 0; vf_Format := 0; vf_IncludeTime := false; vf_NestedFilters := [] |}.
Definition sort_on (id key : string) : ViewSort :=
  {| vs_RelationKey := key; vs_Type := 0; vs_CustomOrder := []; vs_Format := 0; vs_IncludeTime := false;
     vs_Id := id; vs_EmptyPlacement := 0; vs_NoCollate := false |}.
Definition fields (name : string) : ViewFields :=
  {| f_Type := 0; f_Name := name; f_CoverRelationKey := ""; f_HideIcon := false; f_CardSize := 0;
     f_CoverFit := false; f_GroupRelationKey := ""; f_EndRelationKey := ""; f_GroupBackgroundColors := false;
     f_PageLimit := 0; f_DefaultTemplateId := ""; f_DefaultObjectTypeId := ""; f_WrapContent := false |}.

Definition all_tasks : View :=
  {| vw_Id := "all"; vw_Fields := fields "All"; vw_Sorts := [sort_on "s1" "due"]; vw_Filters := [];
     vw_Relations := [plain_relation "name" true; plain_relation "due" true] |}.
Definition open_tasks : View :=
  {| vw_Id := "open"; vw_Fields := fields "Open"; vw_Sorts := [sort_on "s1" "due"; sort_on "s2" "name"];
     vw_Filters := [filter_on "f1" "done" (PBool false); filter_on "f2" "tag" (PString "home")];
     vw_Relations := [plain_relation "name" true; plain_relation "done" true; plain_relation "tag" false] |}.

Definition link_of (key : string) : RelationLink := {| rl_Key := key; rl_Format := 0 |}.

Definition tasks : Dataview :=
  {| dv_Source := ["task"]; dv_Views := [all_tasks; open_tasks]; dv_ActiveView := "all"; dv_Relations := [];
     dv_GroupOrders := [{| gro_ViewId := "all"; gro_ViewGroups := [] |}];
     dv_ObjectOrders := [{| oo_ViewId := "all"; oo_GroupId := ""; oo_ObjectIds := ["o1"; "o2"; "o3"] |}];
     dv_RelationLinks := [link_of "name"; link_of "due"; link_of "done"; link_of "tag"];
     dv_TargetObjectId := ""; dv_IsCollection := false |}.

(** The same set after many edits: a link and what used it is gone, a view is new and
    first, filters, sorts and relations are moved, added, changed and removed. *)
Definition board : View :=
  {| vw_Id := "board"; vw_Fields := fields "Board"; vw_Sorts := []; vw_Filters := [filter_on "f9" "due" PNull];
     vw_Relations := [plain_relation "name" true] |}.
Definition edited_tasks : Dataview :=
  {| dv_Source := ["task"; "bug"];
     dv_Views := [board;
       {| vw_Id := "open"; vw_Fields := fields "To do"; vw_Sorts := [sort_on "s2" "name"; sort_on "s1" "due"];
          vw_Filters := [filter_on "f3" "due" PNull; filter_on "f1" "done" (PBool true)];
          vw_Relations := [plain_relation "done" false; plain_relation "name" true; plain_relation "due" true] |}];
     dv_ActiveView := "open"; dv_Relations := [];
     dv_GroupOrders := [{| gro_ViewId := "all"; gro_ViewGroups := [] |}; {| gro_ViewId := "board"; gro_ViewGroups := [] |}];
     dv_ObjectOrders := [{| oo_ViewId := "all"; oo_GroupId := ""; oo_ObjectIds := ["o3"; "o1"; "o4"] |};
                         {| oo_ViewId := "board"; oo_GroupId := "g"; oo_ObjectIds := ["o1"] |}];
     dv_RelationLinks := [link_of "name"; link_of "due"; link_of "done"; link_of "assignee"];
     dv_TargetObjectId := "target"; dv_IsCollection := true |}.

(** *** Deciding the hypotheses *)

Definition ids_okb {T} (getID : T → string) (l : list T) : bool :=
  bool_decide (NoDup (getID <$> l)) && bool_decide ("" ∉ getID <$> l).

Definition wf_viewb (v : View) : bool :=
  ids_okb vf_Id (vw_Filters v) && ids_okb vs_Id (vw_Sorts v) && ids_okb vr_Key (vw_Relations v).

Definition wf_dvb (d : Dataview) : bool :=
  ids_okb vw_Id (dv_Views d) && forallb wf_viewb (dv_Views d) && bool_decide (NoDup (gro_ViewId <$> dv_GroupOrders d)) &&
  bool_decide (NoDup (order_key <$> dv_ObjectOrders d)) && forallb (λ o, ids_okb id (oo_ObjectIds o)) (dv_ObjectOrders d).

Definition unusedb {T} (getID getKey : T → string) (removed : list string) (l l' : list T) : bool :=
  forallb (λ x, negb (bool_decide (getID x ∈ getID <$> l') && bool_decide (getKey x ∈ removed))) l.

Definition removed_unusedb (o c : Dataview) : bool :=
  forallb (λ v, forallb (λ v', negb (bool_decide (vw_Id v = vw_Id v')) ||
      (unusedb vf_Id vf_RelationKey (removed_keys o c) (vw_Filters v) (vw_Filters v') &&
       unusedb vs_Id vs_RelationKey (removed_keys o c) (vw_Sorts v) (vw_Sorts v'))) (dv_Views c)) (dv_Views o).

Lemma forallb_elem {T} (f : T → bool) l x : forallb f l = true → x ∈ l → f x = true.
Proof. rewrite forallb_forall. intros Hf Hx. by apply Hf, list_elem_of_In. Qed.

Lemma ids_okb_ok {T} (getID : T → string) l : ids_okb getID l = true → ids_ok getID l.
Proof. unfold ids_okb. rewrite andb_true_iff, !bool_decide_eq_true. done. Qed.

Lemma wf_viewb_ok v : wf_viewb v = true → wf_view v.
Proof. unfold wf_viewb. rewrite !andb_true_iff. intros [[? ?] ?]. split; by apply ids_okb_ok. Qed.

Lemma wf_dvb_ok d : wf_dvb d = true → wf_dv d.
Proof.
  unfold wf_dvb. rewrite !andb_true_iff, !bool_decide_eq_true. intros [[[[? Hv] ?] ?] Ho].
  split; [by apply ids_okb_ok| |done|done|]; apply Forall_forall; intros x Hx.
  - apply wf_viewb_ok. by eapply forallb_elem.
  - apply ids_okb_ok. by apply (forallb_elem (λ o, ids_okb id (oo_ObjectIds o)) (dv_ObjectOrders d)).
Qed.

Lemma unusedb_ok {T} (getID getKey : T → string) removed (l l' : list T) x :
  unusedb getID getKey removed l l' = true → x ∈ l → getID x ∈ getID <$> l' → getKey x ∉ removed.
Proof.
  intros Hu Hx Hi. pose proof (forallb_elem _ _ _ Hu Hx) as E. simpl in E.
  rewrite bool_decide_eq_true_2 in E by done. by case_bool_decide.
Qed.

Lemma removed_unusedb_ok o c : removed_unusedb o c = true → removed_unused o c.
Proof.
  intros Hu v v' Hv Hv' E. pose proof (forallb_elem _ _ _ (forallb_elem _ _ _ Hu Hv) Hv') as Hb.
  cbv beta in Hb. rewrite (bool_decide_eq_true_2 (vw_Id v = vw_Id v')) in Hb by done. cbn [negb orb] in Hb.
  apply andb_true_iff in Hb as [Hf Hs].
  split; intros x; by apply unusedb_ok.
Qed.

(** ** The theorems on the example *)

(** The messages from [tasks] to [edited_tasks], and what a replica makes of them. *)
Example messages :
  length (Diff tasks edited_tasks) = 12 ∧
  match apply_events objectId uuid (tasks, 0) (Diff tasks edited_tasks) with
  | Some (r, n, errs) =>
      dv_Views r = dv_Views edited_tasks ∧ dv_ObjectOrders r = dv_ObjectOrders edited_tasks ∧
      dv_GroupOrders r = dv_GroupOrders edited_tasks ∧ n = 0 ∧ errs = []
  | None => False
  end.
Proof. vm_compute. split_and!; reflexivity. Qed.

Lemma dataview_replays_witness :
  ∃ r, apply_events objectId uuid (tasks, 0) (Diff tasks edited_tasks) = Some (r, 0, []) ∧ dv_match tasks r edited_tasks.
Proof.
  apply (dataview_replays objectId uuid tasks edited_tasks 0).
  - by apply wf_dvb_ok; vm_compute.
  - by apply wf_dvb_ok; vm_compute.
  - by apply removed_unusedb_ok; vm_compute.
Defined.

(** Two requests and a third one whose changes are replayed. *)
Definition after_two : Dataview :=
  (ReorderViewRelations (DeleteRelations tasks ["tag"]) "open" ["done"; "name"]).1.
Definition after_three : Dataview := (AddFilter objectId after_two "open" (filter_on "" "due" PNull) 7).1.1.

Lemma requests_replay_witness :
  wf_dv after_three ∧
  ∃ r, apply_events objectId uuid (after_two, 0) (Diff after_two after_three) = Some (r, 0, []) ∧
       dv_match after_two r after_three.
Proof.
  apply (requests_replay objectId uuid tasks after_two after_three 0).
  - by apply wf_dvb_ok; vm_compute.
  - eapply rtc_l; [apply (rq_delete_relations _ _ _ ["tag"])|].
    apply rtc_once. apply (rq_reorder_relations _ _ _ "open" ["done"; "name"]).
    apply (bool_decide_unpack _). by vm_compute.
  - eapply (rq_add_filter _ _ _ "open" (filter_on "" "due" PNull) 7 _ None 8); [by vm_compute|].
    split; [by vm_compute|]. intros v Hv E.
    assert (forallb (λ v, negb (bool_decide (vw_Id v = "open")) || bool_decide ("obj7" ∉ vf_Id <$> vw_Filters v))
              (dv_Views after_two) = true) as Hb by by vm_compute.
    apply (forallb_elem _ _ v Hb) in Hv. rewrite bool_decide_eq_true_2 in Hv by done.
    by apply bool_decide_eq_true in Hv.
Defined.

(** ** Where the hypotheses fail *)

(** A view may have a filter on a relation that the dataview does not link. *)
Definition no_link : Dataview :=
  {| dv_Source := []; dv_Views := [board]; dv_ActiveView := ""; dv_Relations := []; dv_GroupOrders := [];
     dv_ObjectOrders := []; dv_RelationLinks := []; dv_TargetObjectId := ""; dv_IsCollection := false |}.
Definition with_link : Dataview := (AddRelation no_link (link_of "due")).1.

(** C24. Undoing a request can lose a filter on other devices.  A view has a filter on a
    relation that is not with_link; a client adds the link and undoes that.  The undone
    dataview has the filter, as before, but the message that removes the link makes a
    replica drop all filters and sorts on the relation, and no message restores them.
    Nothing reports an error. *)
Theorem removed_link_drops_filter :
  request objectId uuid no_link with_link ∧ wf_dv no_link ∧ wf_dv with_link ∧
  Diff with_link no_link = [RelationDelete ["due"]] ∧
  vw_Filters <$> dv_Views no_link = [[filter_on "f9" "due" PNull]] ∧
  ∃ r, apply_events objectId uuid (with_link, 0) (Diff with_link no_link) = Some (r, 0, []) ∧
    vw_Filters <$> dv_Views r = [[]].
Proof.
  split; [apply (rq_add_relation objectId uuid)|].
  split; [by apply wf_dvb_ok; vm_compute|]. split; [by apply wf_dvb_ok; vm_compute|].
  split; [by vm_compute|]. split; [by vm_compute|]. eexists. by split; vm_compute.
Qed.

(** Undoing the first arrangement of objects leaves it on other devices: no message
    removes an order. *)
Definition arranged_board : Dataview :=
  SetViewObjectOrder no_link [{| oo_ViewId := "board"; oo_GroupId := ""; oo_ObjectIds := ["o1"; "o2"] |}].

Example dropped_order_stays : Diff arranged_board no_link = [] ∧ dv_ObjectOrders arranged_board ≠ dv_ObjectOrders no_link.
Proof. by split; vm_compute. Qed.

(** The order of the sources is not sent. *)
Example sources_reordered_silently : Diff (SetSource tasks ["a"; "b"]) (SetSource tasks ["b"; "a"]) = [].
Proof. by vm_compute. Qed.

(** A sort that replaces another keeps its own id, empty or not: the next request for
    the old id adds a second sort. *)
Definition sort_replaced : Dataview := (ReplaceSort objectId tasks "all" "s1" (sort_on "" "name") 0).1.1.
Example replaced_sort_loses_id :
  vw_Sorts <$> dv_Views sort_replaced !! 0 = Some [sort_on "" "name"] ∧
  vw_Sorts <$> dv_Views (ReplaceSort objectId sort_replaced "all" "s1" (sort_on "s1" "due") 0).1.1 !! 0 =
    Some [sort_on "" "name"; sort_on "s1" "due"].
Proof. by split; vm_compute. Qed.

(** A request to reorder that misses an element keeps a relation and deletes a filter. *)
Example reorder_forgets_filters :
  vw_Filters <$> dv_Views (ReorderFilters tasks "open" ["f2"]).1 !! 1 =
    Some [filter_on "f2" "tag" (PString "home")] ∧
  vw_Relations <$> dv_Views (ReorderViewRelations tasks "open" ["tag"]).1 !! 1 =
    Some [plain_relation "tag" false; plain_relation "name" true; plain_relation "done" true].
Proof. by split; vm_compute. Qed.

(** Ids in nested filters are not found. *)
Definition nested : ViewFilter :=
  {| vf_Id := "g"; vf_Operator := 2; vf_RelationKey := ""; vf_RelationProperty := ""; vf_Condition := 0;
     vf_Value := PNil; vf_QuickOption := 0; vf_Format := 0; vf_IncludeTime := false;
     vf_NestedFilters := [set_filter_format (filter_on "f" "assignee" (PString "anna")) RelationFormat_object] |}.
Example nested_ids_missed :
  getIdsFromFilters [nested] = [] ∧ getIdsFromFilters (vf_NestedFilters nested) = ["anna"].
Proof. by split; vm_compute. Qed.

(** An old change that adds a relation is applied and reported as failed; so is one that
    deletes a relation. *)
Definition old_relation (key : string) : OldRelation :=
  {| or_Id := ""; or_Key := key; or_Format := 0; or_Name := ""; or_DefaultValue := PNil; or_DataSource := 0;
     or_Hidden := false; or_ReadOnly := false; or_ReadOnlyRelation := false; or_Multi := false; or_ObjectTypes := [];
     or_SelectDict := []; or_MaxCount := 0; or_Description := ""; or_Scope := 0; or_Creator := ""; or_Revision := 0;
     or_IncludeTime := false |}.
Example old_relations_always_fail :
  match apply_event objectId uuid (no_link, 0) (OldRelationSet "due" (Some (old_relation "due"))) with
  | Some (d, n, e) => dv_Relations d = [old_relation "due"] ∧ dv_RelationLinks d = [link_of "due"] ∧
      e = Some "not a dataview block" ∧
      option_map snd (apply_event objectId uuid (d, n) (OldRelationDelete "due")) = Some (Some "not a dataview block")
  | None => False
  end.
Proof. by vm_compute. Qed.

(** An object that is moved behind itself goes to the front. *)
Example moved_behind_itself :
  move_objects ["o1"; "o2"; "o3"] ["o3"] "o3" = Some ["o3"; "o1"; "o2"].
Proof. by vm_compute. Qed.
End DataviewInst.
