(* ===== verification/SubCache.v ===== *)
(** * Cached objects of the subscriptions ([core/subscription/cache.go])

    The subscriptions of a space share one cache of the objects they show.  An
    entry knows the subscriptions it belongs to, for which of them it is inside the
    pagination window ("active"), and for which the full details were sent.

    Entries are pointers: the cache, the entries of a batch of changes and the
    subscriptions refer to the same objects and change them through any of the
    references.  A [world] has the heap of entries and the cache as a map from ids
    to locations. *)

From S2P Require Import Prelude Slice Values Details.

Record entry := {
  e_id : string;
  e_data : Details;
  e_subIds : list string;
  e_subIsActive : gmap string bool;
  e_subFullDetailsSent : gmap string bool;
}.

Definition newEntry (id : string) (data : Details) : entry :=
  {| e_id := id; e_data := data; e_subIds := []; e_subIsActive := ∅; e_subFullDetailsSent := ∅ |}.

(** A copy has its own list and maps and shares the details. *)
Definition e_Copy (e : entry) : entry :=
  {| e_id := e_id e; e_data := e_data e; e_subIds := e_subIds e; e_subIsActive := e_subIsActive e;
     e_subFullDetailsSent := e_subFullDetailsSent e |}.

(** A missing key of a map reads as [false]. *)
Definition flag (m : gmap string bool) (k : string) : bool := default false (m !! k).

Definition SetSub (e : entry) (subId : string) (isActive isFullDetailSent : bool) : entry :=
  if (FindPos (e_subIds e) subId =? -1)%Z then
    {| e_id := e_id e; e_data := e_data e; e_subIds := e_subIds e ++ [subId];
       e_subIsActive := <[subId:=isActive]> (e_subIsActive e);
       e_subFullDetailsSent := <[subId:=isFullDetailSent]> (e_subFullDetailsSent e) |}
  else
    {| e_id := e_id e; e_data := e_data e; e_subIds := e_subIds e;
       e_subIsActive := <[subId:=isActive]> (e_subIsActive e);
       e_subFullDetailsSent :=
         if flag (e_subFullDetailsSent e) subId then e_subFullDetailsSent e
         else <[subId:=isFullDetailSent]> (e_subFullDetailsSent e) |}.

(** The receiver may be nil. *)
Definition IsInSub (e : option entry) (subId : string) : bool :=
  match e with
  | None => false
  | Some e => existsb (λ id, bool_decide (id = subId)) (e_subIds e)
  end.

(** In the order of the map, which the callers do not rely on. *)
Definition flagged (m : gmap string bool) : list string := (filter (λ kb, kb.2 = true) (map_to_list m)).*1.
Definition GetActive (e : entry) : list string := flagged (e_subIsActive e).
Definition GetFullDetailsSent (e : entry) : list string := flagged (e_subFullDetailsSent e).

Definition e_RemoveSubId (e : entry) (subId : string) : entry :=
  if (FindPos (e_subIds e) subId =? -1)%Z then e
  else
    {| e_id := e_id e; e_data := e_data e; e_subIds := RemoveMut (e_subIds e) subId;
       e_subIsActive := delete subId (e_subIsActive e);
       e_subFullDetailsSent := delete subId (e_subFullDetailsSent e) |}.

(** ** The heap and the cache *)

Definition loc := positive.
Record world := { w_heap : gmap loc entry; w_cache : gmap string loc }.

(** Reading a pointer.  Every location a function is given is allocated. *)
Definition ent (w : world) (l : loc) : entry := default (newEntry "" None) (w_heap w !! l).
Definition upd (w : world) (l : loc) (f : entry → entry) : world :=
  {| w_heap := alter f l (w_heap w); w_cache := w_cache w |}.
Definition alloc (w : world) (e : entry) : loc * world :=
  let l := fresh (dom (w_heap w)) in
  (l, {| w_heap := <[l:=e]> (w_heap w); w_cache := w_cache w |}).
Definition with_cache (w : world) (c : gmap string loc) : world := {| w_heap := w_heap w; w_cache := c |}.

Definition newCache : gmap string loc := ∅.
Definition c_Get (w : world) (id : string) : option loc := w_cache w !! id.
Definition c_GetOrSet (w : world) (l : loc) : loc * world :=
  match w_cache w !! e_id (ent w l) with
  | Some res => (res, w)
  | None => (l, with_cache w (<[e_id (ent w l):=l]> (w_cache w)))
  end.
Definition c_Set (w : world) (l : loc) : world := with_cache w (<[e_id (ent w l):=l]> (w_cache w)).
Definition c_Remove (w : world) (id : string) : world := with_cache w (delete id (w_cache w)).
Definition c_RemoveSubId (w : world) (id subId : string) : world :=
  match c_Get w id with
  | None => w
  | Some l =>
      let w := upd w l (λ e, e_RemoveSubId e subId) in
      if bool_decide (e_subIds (ent w l) = []) then c_Remove w id else w
  end.

(** ** Entries stay well-formed

    The list has no repetition and the two maps are defined exactly on it, so the
    three always agree on the subscriptions of an entry. *)
Record entry_wf (e : entry) : Prop := {
  ew_nodup : NoDup (e_subIds e);
  ew_active : ∀ s, is_Some (e_subIsActive e !! s) ↔ s ∈ e_subIds e;
  ew_sent : ∀ s, is_Some (e_subFullDetailsSent e !! s) ↔ s ∈ e_subIds e;
}.

Lemma newEntry_wf id data : entry_wf (newEntry id data).
Proof. split; simpl; [constructor|..]; intros s; rewrite lookup_empty, elem_of_nil; split; [intros [? ?]|..]; done. Qed.

Lemma IsInSub_spec e s : IsInSub (Some e) s = true ↔ s ∈ e_subIds e.
Proof.
  simpl. rewrite existsb_exists. setoid_rewrite bool_decide_eq_true. setoid_rewrite <- list_elem_of_In. naive_solver.
Qed.

Lemma is_Some_insert {A} (m : gmap string A) k v s : is_Some (<[k:=v]> m !! s) ↔ s = k ∨ is_Some (m !! s).
Proof.
  destruct (decide (s = k)) as [->|]; [rewrite lookup_insert_eq|rewrite lookup_insert_ne by done]; naive_solver.
Qed.

Lemma SetSub_subIds e s a d x : x ∈ e_subIds (SetSub e s a d) ↔ x = s ∨ x ∈ e_subIds e.
Proof.
  unfold SetSub. destruct (_ =? _)%Z eqn:E; simpl.
  - rewrite elem_of_app, list_elem_of_singleton. tauto.
  - apply Z.eqb_neq in E. rewrite FindPos_absent in E. apply dec_stable in E. naive_solver.
Qed.

Lemma SetSub_wf e s a d : entry_wf e → entry_wf (SetSub e s a d).
Proof.
  intros [Hn Ha Hd]. pose proof (SetSub_subIds e s a d) as Hs. unfold SetSub in *.
  destruct (_ =? _)%Z eqn:E; simpl in *.
  - apply Z.eqb_eq in E. rewrite FindPos_absent in E. split; simpl.
    + apply NoDup_app. split_and!; [done| |apply NoDup_singleton]. intros x ? ->%list_elem_of_singleton. done.
    + intros x. rewrite is_Some_insert, Hs, Ha. done.
    + intros x. rewrite is_Some_insert, Hs, Hd. done.
  - split; simpl; [done|..]; intros x.
    + rewrite is_Some_insert, Hs, Ha. done.
    + destruct (flag _ _); [apply Hd|]. rewrite is_Some_insert, Hs, Hd. done.
Qed.

Lemma e_RemoveSubId_subIds e s : e_subIds (e_RemoveSubId e s) = filter (λ x, x ≠ s) (e_subIds e).
Proof.
  unfold e_RemoveSubId. destruct (_ =? _)%Z eqn:E; simpl; [|apply RemoveMut_spec].
  apply Z.eqb_eq in E. rewrite FindPos_absent in E. symmetry. apply filter_all. naive_solver.
Qed.

Lemma e_RemoveSubId_wf e s : entry_wf e → entry_wf (e_RemoveSubId e s).
Proof.
  intros [Hn Ha Hd]. pose proof (e_RemoveSubId_subIds e s) as Hs. unfold e_RemoveSubId in *.
  destruct (_ =? _)%Z eqn:E; simpl in *; [done|].
  split; simpl; rewrite ?Hs; [by apply NoDup_filter|..]; intros x; rewrite list_elem_of_filter;
    destruct (decide (x = s)) as [->|];
    rewrite ?lookup_delete_eq, ?lookup_delete_ne by done; rewrite ?Ha, ?Hd; (split; [|tauto]); try tauto; by intros [? ?].
Qed.

Lemma flagged_spec m s : s ∈ flagged m ↔ flag m s = true.
Proof.
  unfold flagged, flag. rewrite list_elem_of_fmap. split.
  - intros ([k b] & -> & [? ?%elem_of_map_to_list]%list_elem_of_filter). simpl in *. by simplify_option_eq.
  - destruct (m !! s) as [b|] eqn:E; [|done]. simpl. intros ->.
    exists (s, true). split; [done|]. apply list_elem_of_filter. split; [done|]. by apply elem_of_map_to_list.
Qed.

Lemma flagged_NoDup m : NoDup (flagged m).
Proof.
  unfold flagged. eapply sublist_NoDup; [|apply fmap_sublist, sublist_filter]. apply NoDup_fst_map_to_list.
Qed.
