(* ===== verification/SubContext.v ===== *)
(** * A batch of changes and its events ([core/subscription/diff.go], [context.go])

    A batch of changed objects is handed to every subscription in turn; each one
    collects operations (changes, positions, removals, counters, groups) in the
    context, and [apply] turns them into the events sent to the clients. *)

From S2P Require Import Prelude Slice SliceDiff GoFloat Values Details SubCache.

Record opChange := { oc_id : string; oc_subId : string; oc_keys : list string }.
Record opRemove := { or_id : string; or_subId : string }.
Record opPosition := {
  op_id : string; op_subId : string; op_afterId : string; op_keys : list string; op_isAdd : bool }.
Record opCounter := { cnt_subId : string; cnt_total : Z; cnt_prevCount : Z; cnt_nextCount : Z }.
(** A group of a kanban view: its id and its tags. *)
Record Group := { g_Id : string; g_Tags : list string }.
Record opGroup := { og_subId : string; og_group : Group; og_remove : bool }.
Record keysInfo := { ki_id : string; ki_subIds : list string; ki_keys : list string }.

#[export] Instance opChange_eq_dec : EqDecision opChange. Proof. solve_decision. Defined.
#[export] Instance opRemove_eq_dec : EqDecision opRemove. Proof. solve_decision. Defined.
#[export] Instance opPosition_eq_dec : EqDecision opPosition. Proof. solve_decision. Defined.
#[export] Instance opCounter_eq_dec : EqDecision opCounter. Proof. solve_decision. Defined.
#[export] Instance Group_eq_dec : EqDecision Group. Proof. solve_decision. Defined.

(** The events; the space id is the same in all of them and left out. *)
Inductive Event :=
| DetailsSet (id : string) (details : Details) (subIds : list string)
| DetailsAmend (id : string) (details : list (string * Value)) (subIds : list string)
| DetailsUnset (id : string) (keys : list string) (subIds : list string)
| SubAdd (id afterId subId : string)
| SubPosition (id afterId subId : string)
| SubRemove (id subId : string)
| SubCounters (total nextCount prevCount : Z) (subId : string)
| SubGroups (subId : string) (group : Group) (remove : bool).

Record opCtx := {
  cx_outputs : gmap string (list Event);
  cx_remove : list opRemove;
  cx_change : list opChange;
  cx_position : list opPosition;
  cx_counters : list opCounter;
  cx_entries : list loc;
  cx_groups : list opGroup;
  cx_keysBuf : list keysInfo;
}.

Definition defaultOutput : string := "_default".

Definition add_remove (c : opCtx) (l : list opRemove) : opCtx :=
  {| cx_outputs := cx_outputs c; cx_remove := cx_remove c ++ l; cx_change := cx_change c; cx_position := cx_position c;
     cx_counters := cx_counters c; cx_entries := cx_entries c; cx_groups := cx_groups c; cx_keysBuf := cx_keysBuf c |}.
Definition add_change (c : opCtx) (l : list opChange) : opCtx :=
  {| cx_outputs := cx_outputs c; cx_remove := cx_remove c; cx_change := cx_change c ++ l; cx_position := cx_position c;
     cx_counters := cx_counters c; cx_entries := cx_entries c; cx_groups := cx_groups c; cx_keysBuf := cx_keysBuf c |}.
Definition add_position (c : opCtx) (l : list opPosition) : opCtx :=
  {| cx_outputs := cx_outputs c; cx_remove := cx_remove c; cx_change := cx_change c; cx_position := cx_position c ++ l;
     cx_counters := cx_counters c; cx_entries := cx_entries c; cx_groups := cx_groups c; cx_keysBuf := cx_keysBuf c |}.
Definition add_counter (c : opCtx) (l : list opCounter) : opCtx :=
  {| cx_outputs := cx_outputs c; cx_remove := cx_remove c; cx_change := cx_change c; cx_position := cx_position c;
     cx_counters := cx_counters c ++ l; cx_entries := cx_entries c; cx_groups := cx_groups c; cx_keysBuf := cx_keysBuf c |}.
Definition add_entries (c : opCtx) (l : list loc) : opCtx :=
  {| cx_outputs := cx_outputs c; cx_remove := cx_remove c; cx_change := cx_change c; cx_position := cx_position c;
     cx_counters := cx_counters c; cx_entries := cx_entries c ++ l; cx_groups := cx_groups c; cx_keysBuf := cx_keysBuf c |}.
Definition add_group (c : opCtx) (l : list opGroup) : opCtx :=
  {| cx_outputs := cx_outputs c; cx_remove := cx_remove c; cx_change := cx_change c; cx_position := cx_position c;
     cx_counters := cx_counters c; cx_entries := cx_entries c; cx_groups := cx_groups c ++ l; cx_keysBuf := cx_keysBuf c |}.
Definition with_keysBuf (c : opCtx) (l : list keysInfo) : opCtx :=
  {| cx_outputs := cx_outputs c; cx_remove := cx_remove c; cx_change := cx_change c; cx_position := cx_position c;
     cx_counters := cx_counters c; cx_entries := cx_entries c; cx_groups := cx_groups c; cx_keysBuf := l |}.
Definition with_outputs (c : opCtx) (m : gmap string (list Event)) : opCtx :=
  {| cx_outputs := m; cx_remove := cx_remove c; cx_change := cx_change c; cx_position := cx_position c;
     cx_counters := cx_counters c; cx_entries := cx_entries c; cx_groups := cx_groups c; cx_keysBuf := cx_keysBuf c |}.

(** ** Differences of lists of ids *)

Record listDiff := {
  ld_beforeIds : list string;
  ld_afterIds : list string;
  ld_beforeIdsM : gset string;
  ld_afterIdsM : gset string;
}.

Definition newListDiff (ids : list string) : listDiff :=
  {| ld_beforeIds := ids; ld_afterIds := [];
     ld_beforeIdsM := foldl (λ m id, {[id]} ∪ m) ∅ ids; ld_afterIdsM := ∅ |}.
Definition ld_Equal (ld : listDiff) (i j : nat) : bool :=
  match ld_beforeIds ld !! i, ld_afterIds ld !! j with
  | Some a, Some b => bool_decide (a = b)
  | _, _ => false
  end.
Definition with_after (ld : listDiff) (l : list string) : listDiff :=
  {| ld_beforeIds := ld_beforeIds ld; ld_afterIds := l; ld_beforeIdsM := ld_beforeIdsM ld; ld_afterIdsM := ld_afterIdsM ld |}.
Definition fillAfter (ld : listDiff) (id : string) : listDiff := with_after ld (ld_afterIds ld ++ [id]).
Definition ld_reverse (ld : listDiff) : listDiff := with_after ld (reverse (ld_afterIds ld)).
(** The two arrays change roles; the new [afterIds] is empty. *)
Definition ld_reset (ld : listDiff) : listDiff :=
  {| ld_beforeIds := ld_afterIds ld; ld_afterIds := []; ld_beforeIdsM := ld_afterIdsM ld; ld_afterIdsM := ∅ |}.

Definition at_ (l : list string) (i : nat) : string := default "" (l !! i).
Definition getPrevId (s : list string) (i : nat) : string := match i with O => "" | S j => at_ s j end.

(** What one call of [diff] adds to the context, and its results. *)
Record listChanges := {
  lc_position : list opPosition;
  lc_remove : list opRemove;
  lc_added : list string;
  lc_removed : list string;
  lc_was : bool;
}.

Section list_diff.
Context `{!Mb0Diff}.

Definition ld_insert (ld : listDiff) (subId : string) (keys : list string) (r : listChanges) (idx : nat) : listChanges :=
  let id := at_ (ld_afterIds ld) idx in
  let isAdd := bool_decide (id ∉ ld_beforeIdsM ld) in
  {| lc_position := lc_position r ++
       [{| op_id := id; op_subId := subId; op_afterId := getPrevId (ld_afterIds ld) idx; op_keys := keys; op_isAdd := isAdd |}];
     lc_remove := lc_remove r;
     lc_added := if isAdd then lc_added r ++ [id] else lc_added r;
     lc_removed := lc_removed r;
     lc_was := lc_was r || isAdd |}.

Definition ld_delete (ld : listDiff) (subId : string) (r : listChanges) (idx : nat) : listChanges :=
  let id := at_ (ld_beforeIds ld) idx in
  if bool_decide (id ∈ ld_afterIdsM ld) then r
  else {| lc_position := lc_position r; lc_remove := lc_remove r ++ [{| or_id := id; or_subId := subId |}];
          lc_added := lc_added r; lc_removed := lc_removed r ++ [id]; lc_was := true |}.

Definition ld_change (ld : listDiff) (subId : string) (keys : list string) (r : listChanges) (ch : EditChange) : listChanges :=
  let r := foldl (λ r i, ld_insert ld subId keys r (eB ch + i)) r (seq 0 (eIns ch)) in
  foldl (λ r i, ld_delete ld subId r (eA ch + i)) r (seq 0 (eDel ch)).

Definition ld_diff (ctx : opCtx) (ld : listDiff) (subId : string) (keys : list string) :
    opCtx * listDiff * (bool * list string * list string) :=
  let ld := {| ld_beforeIds := ld_beforeIds ld; ld_afterIds := ld_afterIds ld; ld_beforeIdsM := ld_beforeIdsM ld;
               ld_afterIdsM := foldl (λ m id, {[id]} ∪ m) (ld_afterIdsM ld) (ld_afterIds ld) |} in
  let r := foldl (ld_change ld subId keys)
             {| lc_position := []; lc_remove := []; lc_added := []; lc_removed := []; lc_was := false |}
             (mb0_Diff (length (ld_beforeIds ld)) (length (ld_afterIds ld)) (ld_Equal ld)) in
  (add_remove (add_position ctx (lc_position r)) (lc_remove r), ld, (lc_was r, lc_added r, lc_removed r)).
End list_diff.

(** ** What a client does with the events of a list

    An object that is added or moved is taken out, if it is there, and put behind
    [afterId], or first when that is empty; then the removed ones go. *)

Fixpoint behind (afterId id : string) (l : list string) : list string :=
  match l with
  | [] => []
  | x :: l => if bool_decide (x = afterId) then x :: id :: l else x :: behind afterId id l
  end.
Definition place (l : list string) (p : opPosition) : list string :=
  let l := filter (λ x, x ≠ op_id p) l in
  if bool_decide (op_afterId p = "") then op_id p :: l else behind (op_afterId p) (op_id p) l.
Definition client_list (l : list string) (ps : list opPosition) (rs : list opRemove) : list string :=
  filter (λ x, x ∉ (or_id <$> rs)) (foldl place l ps).

Lemma behind_split a id l1 l2 : a ∉ l1 → behind a id (l1 ++ a :: l2) = l1 ++ a :: id :: l2.
Proof.
  induction l1 as [|x l1 IH]; intros Ha; simpl; [by rewrite bool_decide_eq_true_2|].
  rewrite bool_decide_eq_false_2 by set_solver. rewrite IH; set_solver.
Qed.

Lemma behind_elem a id l x : x ∈ behind a id l → x = id ∨ x ∈ l.
Proof.
  induction l as [|y l IH]; simpl; [set_solver|]. case_bool_decide; set_solver.
Qed.

Lemma place_elem l p x : x ∈ place l p → x = op_id p ∨ x ∈ l.
Proof.
  unfold place. case_bool_decide.
  - intros [->|[_ ?]%list_elem_of_filter]%elem_of_cons; tauto.
  - intros [->|[_ ?]%list_elem_of_filter]%behind_elem; tauto.
Qed.

Lemma place_all_elem L ps x : x ∈ foldl place L ps → x ∈ L ∨ x ∈ (op_id <$> ps).
Proof.
  revert L. induction ps as [|p ps IH]; intros L; simpl; [tauto|].
  intros [[->|?]%place_elem|?]%IH; set_solver.
Qed.

(** The ids a client has settled: [S], in the order of the target so far. *)
Lemma place_settles (S : string → Prop) `{∀ x, Decision (S x)} l p pre suf :
  NoDup l → filter S l = pre ++ suf → ¬ S (op_id p) →
  (op_afterId p = "" ∧ pre = [] ∨ op_afterId p ≠ "" ∧ last pre = Some (op_afterId p)) →
  NoDup (place l p) ∧
  filter (λ x, S x ∨ x = op_id p) (place l p) = pre ++ op_id p :: suf.
Proof.
  intros Hn Hf Hid Hpre. unfold place. cbv zeta. set (id := op_id p) in *. set (l' := filter (λ x, x ≠ id) l).
  assert (NoDup l') as Hn' by by apply NoDup_filter.
  assert (id ∉ l') as Hid' by (unfold l'; rewrite list_elem_of_filter; tauto).
  assert (filter (λ x, S x ∨ x = id) l' = pre ++ suf) as Hf'.
  { rewrite <- Hf. unfold l'. rewrite list_filter_filter. apply filter_ext_elem. intros x _. split; [tauto|].
    intros Hx. split; [by left|]. intros ->. done. }
  clearbody l'. clearbody id. destruct Hpre as [[-> ->]|[Hne [pre' ->]%last_Some]].
  { rewrite bool_decide_eq_true_2 by done. split; [by constructor|].
    rewrite filter_cons_True by tauto. by rewrite Hf'. }
  rewrite bool_decide_eq_false_2 by done. set (a := op_afterId p) in *.
  assert (a ∈ l') as Hal.
  { eapply list_elem_of_filter. rewrite Hf'. set_solver. }
  apply list_elem_of_split in Hal as (l1 & l2 & El). rewrite El in *.
  pose proof Hn' as (Hn1 & Hn2 & Hn3)%NoDup_app.
  assert (a ∉ l1) as Ha1 by (intros ?; apply (Hn2 a); [done|left]).
  rewrite behind_split by done. split.
  - rewrite cons_middle, app_assoc in Hn' |- *. 
    apply NoDup_app in Hn' as (? & ? & ?). apply NoDup_app. split_and!; [done| |constructor; [set_solver|done]].
    intros x Hx [->|?]%elem_of_cons; [set_solver|naive_solver].
  - assert (S a ∨ a = id) as HSa.
    { eapply (list_elem_of_filter (λ x, S x ∨ x = id)). rewrite Hf'. set_solver. }
    rewrite filter_app, filter_cons_True in Hf' |- * by done. rewrite filter_cons_True by tauto.
    rewrite <- app_assoc in Hf' |- *. simpl in Hf' |- *.
    assert (NoDup (filter (λ x, S x ∨ x = id) l1 ++ a :: filter (λ x, S x ∨ x = id) l2)) as Hnf.
    { pose proof (NoDup_filter (λ x, S x ∨ x = id) _ Hn') as Hx. rewrite filter_app, filter_cons_True in Hx by done. done. }
    pose proof (split_unique _ _ _ _ _ Hnf Hf') as [-> ->]. done.
Qed.

(** ** The events lead from the old list to the new one *)

Lemma foldl_union_spec (l : list string) (m : gset string) x : x ∈ foldl (λ m id, {[id]} ∪ m) m l ↔ x ∈ l ∨ x ∈ m.
Proof. revert m. induction l as [|y l IH]; intros m; simpl; [set_solver|]. rewrite IH. set_solver. Qed.

Lemma sublist_filter_eq (ms l : list string) : NoDup l → ms `sublist_of` l → filter (λ x, x ∈ ms) l = ms.
Proof.
  intros Hn Hs. induction Hs as [|x ms l Hs IH|x ms l Hs IH]; [done|..]; apply NoDup_cons in Hn as [Hx Hn].
  - rewrite filter_cons_True by left. f_equal. etrans; [|exact (IH Hn)]. apply filter_ext_elem. intros y Hy. set_solver.
  - rewrite filter_cons_False; [auto|]. intros ?. apply Hx. eapply elem_of_submseteq; [done|by apply sublist_submseteq].
Qed.

Section list_replay.
Context (ld : listDiff) (subId : string) (keys : list string).
Local Notation A := (ld_beforeIds ld).
Local Notation B := (ld_afterIds ld).
Context (HA : NoDup A) (HB : NoDup B) (HneB : "" ∉ B).
Context (HmA : ∀ x, x ∈ ld_beforeIdsM ld ↔ x ∈ A) (HmB : ∀ x, x ∈ ld_afterIdsM ld ↔ x ∈ B).

Definition pos_of (idx : nat) : opPosition :=
  {| op_id := at_ B idx; op_subId := subId; op_afterId := getPrevId B idx; op_keys := keys;
     op_isAdd := bool_decide (at_ B idx ∉ ld_beforeIdsM ld) |}.

(** [r'] continues [r] with the positions [ps] and the removals of [rm]. *)
Record continues (r r' : listChanges) (ps : list opPosition) (rm : list string) : Prop := {
  ct_position : lc_position r' = lc_position r ++ ps;
  ct_remove : lc_remove r' = lc_remove r ++ ((λ id, {| or_id := id; or_subId := subId |}) <$> rm);
  ct_added : lc_added r' = lc_added r ++ (op_id <$> filter (λ p, op_isAdd p = true) ps);
  ct_removed : lc_removed r' = lc_removed r ++ rm;
  ct_was : lc_was r' = lc_was r || existsb op_isAdd ps || bool_decide (rm ≠ []);
}.

Lemma continues_refl r : continues r r [] [].
Proof. split; simpl; rewrite ?app_nil_r; [done..|]. by destruct (lc_was r). Qed.

Lemma continues_trans r1 r2 r3 ps1 ps2 rm1 rm2 :
  continues r1 r2 ps1 rm1 → continues r2 r3 ps2 rm2 → continues r1 r3 (ps1 ++ ps2) (rm1 ++ rm2).
Proof.
  intros [] []. split.
  - by rewrite app_assoc, <- ct_position0.
  - by rewrite fmap_app, app_assoc, <- ct_remove0.
  - by rewrite filter_app, fmap_app, app_assoc, <- ct_added0.
  - by rewrite app_assoc, <- ct_removed0.
  - rewrite existsb_app, ct_was1, ct_was0.
    replace (bool_decide (rm1 ++ rm2 ≠ [])) with (bool_decide (rm1 ≠ []) || bool_decide (rm2 ≠ [])) by (destruct rm1, rm2; done).
    destruct (lc_was r1), (existsb _ ps1), (bool_decide (rm1 ≠ [])), (existsb _ ps2), (bool_decide (rm2 ≠ [])); done.
Qed.

Lemma insert_continues r idx : continues r (ld_insert ld subId keys r idx) [pos_of idx] [].
Proof.
  unfold ld_insert, pos_of. split; simpl; rewrite ?app_nil_r; try done.
  - rewrite filter_cons. simpl. case_bool_decide; simpl; [done|by rewrite app_nil_r].
  - by destruct (lc_was r), (bool_decide _).
Qed.

Lemma delete_continues r idx :
  continues r (ld_delete ld subId r idx) [] (filter (λ x, x ∉ ld_afterIdsM ld) [at_ A idx]).
Proof.
  unfold ld_delete. rewrite filter_cons. case_bool_decide.
  - rewrite decide_False by tauto. apply continues_refl.
  - rewrite decide_True by done. split; simpl; rewrite ?app_nil_r; try done. by destruct (lc_was r).
Qed.

Lemma inserts_continue r y i :
  continues r (foldl (λ r i, ld_insert ld subId keys r (y + i)) r (seq 0 i)) (pos_of <$> seq y i) [].
Proof.
  induction i as [|i IH]; [apply continues_refl|].
  rewrite !seq_S, foldl_app, fmap_app. simpl.
  exact (continues_trans _ _ _ _ _ [] [] IH (insert_continues _ _)).
Qed.

Lemma deletes_continue r x d :
  continues r (foldl (λ r i, ld_delete ld subId r (x + i)) r (seq 0 d)) []
    (filter (λ x, x ∉ ld_afterIdsM ld) (at_ A <$> seq x d)).
Proof.
  induction d as [|d IH]; [apply continues_refl|].
  rewrite !seq_S, foldl_app, fmap_app, filter_app.
  exact (continues_trans _ _ _ [] [] _ _ IH (delete_continues _ _)).
Qed.

Lemma at_lookup (l : list string) i : (i < length l)%nat → l !! i = Some (at_ l i).
Proof. intros Hi. unfold at_. destruct (lookup_lt_is_Some_2 l i Hi) as [v ->]. done. Qed.

Lemma at_seq (l : list string) x d : (x + d ≤ length l)%nat → at_ l <$> seq x d = take d (drop x l).
Proof.
  revert x. induction d as [|d IH]; intros x Hx; [done|]. cbn [seq]. rewrite fmap_cons, IH by lia.
  rewrite (drop_S l (at_ l x) x) by (apply at_lookup; lia). done.
Qed.

(** One insertion, at index [y] of the target. *)
Lemma place_step L y ms :
  (y < length B)%nat → NoDup L → ms `sublist_of` drop (S y) B →
  filter (λ x, x ∈ take y B ++ ms) L = take y B ++ ms →
  NoDup (place L (pos_of y)) ∧ filter (λ x, x ∈ take (S y) B ++ ms) (place L (pos_of y)) = take (S y) B ++ ms.
Proof.
  intros Hy Hn Hms Hf. pose proof (at_lookup B y Hy) as Ey. rewrite (take_S_r B y (at_ B y)) by done.
  pose proof (take_drop_middle B y _ Ey) as Hmid.
  assert (at_ B y ∉ take y B ++ ms) as Hnot.
  { rewrite <- Hmid in HB. apply NoDup_app in HB as (_ & H1 & [H2 _]%NoDup_cons).
    rewrite elem_of_app. intros [?|?]; [by eapply (H1 (at_ B y)); [|left]|].
    apply H2. eapply elem_of_submseteq; [done|by apply sublist_submseteq]. }
  destruct (place_settles (λ x, x ∈ take y B ++ ms) L (pos_of y) (take y B) ms) as [Hn' Hf']; try done.
  { destruct y as [|y]; [left; done|right]. simpl. pose proof (at_lookup B y ltac:(lia)) as E. split.
    - intros E0. apply HneB. rewrite <- E0. by eapply list_elem_of_lookup_2.
    - rewrite (take_S_r B y _ E), last_snoc. done. }
  split; [done|]. cbn [op_id pos_of] in Hf'. rewrite <- app_assoc. etrans; [|exact Hf'].
  apply filter_ext_elem. intros x _. rewrite !elem_of_app, list_elem_of_singleton. tauto.
Qed.

Lemma place_steps L y i ms :
  (y + i ≤ length B)%nat → NoDup L → ms `sublist_of` drop (y + i) B →
  filter (λ x, x ∈ take y B ++ ms) L = take y B ++ ms →
  let L' := foldl place L (pos_of <$> seq y i) in
  NoDup L' ∧ filter (λ x, x ∈ take (y + i) B ++ ms) L' = take (y + i) B ++ ms.
Proof.
  revert L y. induction i as [|i IH]; intros L y Hy Hn Hms Hf; [by rewrite Nat.add_0_r|].
  cbn [seq]. rewrite fmap_cons. cbn [foldl]. rewrite <- Nat.add_succ_comm in *.
  destruct (place_step L y ms) as [Hn' Hf']; [lia|done| |done|by apply IH].
  etrans; [done|].
  rewrite <- drop_drop. apply sublist_drop.
Qed.


(** The changes of a script from [x] of the old list and [y] of the new one on:
    [ms] are the ids that are kept in place. *)
Lemma script_replays b x y cs :
  edit_script (ld_Equal ld) (length A) (length B) b x y cs →
  ∃ ms, ms `sublist_of` drop x A ∧ ms `sublist_of` drop y B ∧
  ∀ r, ∃ ps rm, continues r (foldl (ld_change ld subId keys) r cs) ps rm ∧
    (∀ L, NoDup L → filter (λ z, z ∈ take y B ++ ms) L = take y B ++ ms →
       NoDup (foldl place L ps) ∧ filter (λ z, z ∈ B) (foldl place L ps) = B) ∧
    (∀ z, z ∈ rm ↔ z ∈ drop x A ∧ z ∉ B) ∧
    (∀ p, p ∈ ps → op_id p ∈ B) ∧
    (∀ z, z ∈ drop y B → z ∈ ms ∨ z ∈ op_id <$> ps) ∧
    (∀ p, p ∈ ps → (op_isAdd p = true ↔ op_id p ∉ A) ∧ op_subId p = subId ∧ op_keys p = keys).
Proof.
  induction 1 as [b|b x y cs Hx Hy He Hs IH|x y d i cs Hx Hy Hs IH].
  - exists []. split_and!; [apply sublist_nil_l..|]. intros r. exists [], []. split_and!; [apply continues_refl|..].
    + intros L HL Hf. simpl. rewrite app_nil_r, firstn_all in Hf. done.
    + intros z. rewrite drop_all. set_solver.
    + set_solver.
    + intros z. rewrite drop_all. set_solver.
    + set_solver.
  - destruct IH as (ms & H1 & H2 & IH). pose proof (at_lookup A x Hx) as Ex. pose proof (at_lookup B y Hy) as Ey.
    assert (at_ A x = at_ B y) as Exy.
    { unfold ld_Equal in He. rewrite Ex, Ey in He. by apply bool_decide_eq_true in He. }
    exists (at_ B y :: ms). split_and!.
    { rewrite (drop_S A _ x Ex), Exy. by constructor. }
    { rewrite (drop_S B _ y Ey). by constructor. }
    intros r. destruct (IH r) as (ps & rm & Hc & HL & Hrm & Hps & Hd & Had). exists ps, rm. split_and!; [done|..].
    + intros L Hn Hf. apply HL; [done|]. rewrite (take_S_r B y _ Ey), <- app_assoc. done.
    + intros z. rewrite Hrm, (drop_S A _ x Ex), elem_of_cons. split; [tauto|]. intros [[->|?] ?]; [|done].
      exfalso. rewrite Exy in *. eapply list_elem_of_lookup_2 in Ey. done.
    + done.
    + intros z. rewrite (drop_S B _ y Ey), !elem_of_cons. intros [->|?%Hd]; tauto.
    + done.
  - destruct IH as (ms & H1 & H2 & IH). exists ms. split_and!.
    { etrans; [exact H1|]. rewrite <- drop_drop. apply sublist_drop. }
    { etrans; [exact H2|]. rewrite <- drop_drop. apply sublist_drop. }
    intros r. simpl. unfold ld_change at 2. simpl.
    pose proof (inserts_continue r y i) as Hci. set (r1 := foldl _ r (seq 0 i)) in *.
    pose proof (deletes_continue r1 x d) as Hcd. set (r2 := foldl _ r1 (seq 0 d)) in *.
    destruct (IH r2) as (ps & rm & Hc & HL & Hrm & Hps & Hd & Had).
    exists ((pos_of <$> seq y i) ++ ps), (filter (λ x, x ∉ ld_afterIdsM ld) (at_ A <$> seq x d) ++ rm).
    assert (∀ z, z ∈ op_id <$> (pos_of <$> seq y i) ↔ z ∈ take i (drop y B)) as Hins.
    { intros z. rewrite <- at_seq by lia. rewrite <- list_fmap_compose. done. }
    assert (∀ z, z ∈ drop y B ↔ z ∈ take i (drop y B) ∨ z ∈ drop (y + i) B) as HdB.
    { intros z. rewrite <- (take_drop i (drop y B)) at 1. by rewrite elem_of_app, drop_drop. }
    assert (∀ z, z ∈ drop y B → z ∈ B) as HinB.
    { intros z Hz. rewrite <- (take_drop y B), elem_of_app. tauto. }
    split_and!.
    + pose proof (continues_trans _ _ _ _ _ _ _ Hci Hcd) as Hc1. rewrite app_nil_r in Hc1.
      exact (continues_trans _ _ _ _ _ _ _ Hc1 Hc).
    + intros L Hn Hf. rewrite foldl_app. destruct (place_steps L y i ms) as [Hn' Hf']; [done..|]. by apply HL.
    + intros z. rewrite elem_of_app, list_elem_of_filter, HmB, at_seq, Hrm by lia.
      rewrite <- (take_drop d (drop x A)) at 2. rewrite elem_of_app, drop_drop. tauto.
    + intros p [Hp|Hp]%elem_of_app; [|auto]. apply HinB, HdB. left. apply Hins. by apply list_elem_of_fmap_2.
    + intros z Hz%HdB. rewrite fmap_app, elem_of_app, Hins. destruct Hz as [?|?%Hd]; tauto.
    + intros p [Hp|Hp]%elem_of_app; [|auto]. apply list_elem_of_fmap in Hp as (j & -> & _). simpl.
      rewrite bool_decide_eq_true, HmA. done.
Qed.
End list_replay.

(** What one call of [diff] reports about the lists. *)
Record list_told (A B : list string) (ps : list opPosition) (rs : list opRemove) (was : bool) (added removed : list string) : Prop := {
  lt_replay : client_list A ps rs = B;
  lt_added : ∀ z, z ∈ added ↔ z ∈ B ∧ z ∉ A;
  lt_removed : ∀ z, z ∈ removed ↔ z ∈ A ∧ z ∉ B;
  lt_was : was = true ↔ ∃ z, z ∈ added ∨ z ∈ removed;
  lt_isAdd : ∀ p, p ∈ ps → op_isAdd p = true ↔ op_id p ∉ A;
  lt_kept : ∀ z, z ∈ B → z ∉ (op_id <$> ps) → z ∈ A;
  lt_removes : (or_id <$> rs) = removed;
}.

Lemma ld_diff_told `{!Mb0Diff, !Mb0DiffOk} ctx ld subId keys :
  NoDup (ld_beforeIds ld) → NoDup (ld_afterIds ld) → "" ∉ ld_afterIds ld →
  (∀ x, x ∈ ld_beforeIdsM ld ↔ x ∈ ld_beforeIds ld) → ld_afterIdsM ld = ∅ →
  ∃ ps rs was added removed ld',
    ld_diff ctx ld subId keys = (add_remove (add_position ctx ps) rs, ld', (was, added, removed)) ∧
    (∀ p, p ∈ ps → op_subId p = subId ∧ op_keys p = keys) ∧ (∀ r, r ∈ rs → or_subId r = subId) ∧
    ld_beforeIds ld' = ld_beforeIds ld ∧ ld_afterIds ld' = ld_afterIds ld ∧
    (∀ x, x ∈ ld_afterIdsM ld' ↔ x ∈ ld_afterIds ld) ∧
    list_told (ld_beforeIds ld) (ld_afterIds ld) ps rs was added removed.
Proof.
  intros HA HB He HmA HmB. unfold ld_diff.
  set (ld' := {| ld_beforeIds := _; ld_afterIds := _; ld_beforeIdsM := _; ld_afterIdsM := _ |}).
  assert (∀ x, x ∈ ld_afterIdsM ld' ↔ x ∈ ld_afterIds ld') as HmB'.
  { intros x. simpl. rewrite HmB, foldl_union_spec. set_solver. }
  destruct (script_replays ld' subId keys HA HB He HmA HmB' _ _ _ _
              (mb0_Diff_script (length (ld_beforeIds ld')) (length (ld_afterIds ld')) (ld_Equal ld')))
    as (ms & Hs1 & Hs2 & Hr).
  edestruct Hr as (ps & rm & [] & HL & Hrm & Hps & Hd & Had).
  cbn [lc_position lc_remove lc_added lc_removed lc_was app orb ld_beforeIds ld_afterIds drop take ld'] in *.
  set (r := foldl _ _ _) in *. rewrite ct_position0, ct_remove0, ct_added0, ct_removed0, ct_was0.
  cbn [lc_position lc_remove lc_added lc_removed lc_was app orb].
  eexists ps, _, _, _, rm, ld'. split_and!; [reflexivity|..]; try done; [naive_solver|set_solver|].
  destruct (HL (ld_beforeIds ld)) as [HnL HfL]; [done|by apply sublist_filter_eq|].
  assert (∀ z, z ∈ op_id <$> filter (λ p, op_isAdd p = true) ps ↔ z ∈ ld_afterIds ld ∧ z ∉ ld_beforeIds ld) as Hadd.
  { intros z. rewrite list_elem_of_fmap. split.
    - intros (p & -> & [Hp Hin]%list_elem_of_filter). split; [by apply Hps|]. by apply Had.
    - intros [Hz Hz']. destruct (Hd z Hz) as [Hm|Hm].
      + exfalso. apply Hz'. eapply elem_of_submseteq; [done|by apply sublist_submseteq].
      + apply list_elem_of_fmap in Hm as (p & -> & Hp). exists p. split; [done|]. apply list_elem_of_filter.
        split; [by apply Had|done]. }
  assert (or_id <$> ((λ id, {| or_id := id; or_subId := subId |}) <$> rm) = rm) as Hrs.
  { clear. induction rm as [|z rm IH]; [done|]. rewrite !fmap_cons. simpl. f_equal. exact IH. }
  split; try done.
  - unfold client_list. rewrite Hrs. etrans; [|exact HfL]. apply filter_ext_elem.
    intros z Hz. rewrite Hrm.
    destruct (decide (z ∈ ld_afterIds ld)); [tauto|].
    apply place_all_elem in Hz as [Hz|(p & -> & Hp)%list_elem_of_fmap]; [tauto|by apply Hps in Hp].
  - rewrite orb_true_iff, bool_decide_eq_true. split.
    + intros [(p & Hp & Ep)%existsb_exists|Hne].
      * exists (op_id p). left. apply list_elem_of_fmap_2, list_elem_of_filter. split; [done|by apply list_elem_of_In].
      * destruct rm as [|z rm]; [done|]. exists z. right. left.
    + intros [z [(p & -> & [Hp Hin]%list_elem_of_filter)%list_elem_of_fmap|Hz]].
      * left. apply existsb_exists. exists p. split; [by apply list_elem_of_In|done].
      * right. intros ->. by apply elem_of_nil in Hz.
  - naive_solver.
  - intros z Hz Hz'. destruct (Hd z Hz) as [Hm|Hm]; [|done]. eapply elem_of_submseteq; [done|by apply sublist_submseteq].
Qed.

(** ** Collecting the keys of the changes *)

Fixpoint collect (buf : list keysInfo) (id subId : string) (keys : list string) : list keysInfo :=
  match buf with
  | [] => [{| ki_id := id; ki_subIds := [subId]; ki_keys := keys |}]
  | kb :: buf =>
      if bool_decide (ki_id kb = id) then
        {| ki_id := ki_id kb;
           ki_subIds := if (FindPos (ki_subIds kb) subId =? -1)%Z then go_sort (ki_subIds kb ++ [subId]) else ki_subIds kb;
           ki_keys := foldl (λ ks k, if (FindPos ks k =? -1)%Z then ks ++ [k] else ks) (ki_keys kb) keys |} :: buf
      else kb :: collect buf id subId keys
  end.
Definition collectKeys (ctx : opCtx) (id subId : string) (keys : list string) : opCtx :=
  with_keysBuf ctx (collect (cx_keysBuf ctx) id subId keys).

Definition getEntry (w : world) (ctx : opCtx) (id : string) : option loc :=
  find (λ l, bool_decide (e_id (ent w l) = id)) (cx_entries ctx).

(** ** Events about details

    The messages are built first, then sent to the outputs of their subscriptions.
    Their [SubIds] are slices of arrays, and the two messages of one amended entry
    share theirs: an array is an index into the list of arrays. *)

(** [lo.Intersect]. *)
Class LoIntersect := lo_Intersect : list string → list string → list string.
Class LoIntersectOk `{!LoIntersect} := {
  lo_Intersect_elem a b x : x ∈ lo_Intersect a b ↔ x ∈ a ∧ x ∈ b;
  lo_Intersect_NoDup a b : NoDup a → NoDup b → NoDup (lo_Intersect a b);
}.

Inductive DMsg :=
| MSet (id : string) (details : Details) (arr : nat)
| MAmend (id : string) (details : list (string * Value)) (arr : nat)
| MUnset (id : string) (keys : list string) (arr : nat).

(** [StructDiffIntoEventsWithSubIds] of [state/event.go]: no filter when it is
    empty. *)
Definition StructDiffIntoEventsWithSubIds (contextId : string) (diff : Details) (filterKeys keysToUnset : list string) (arr : nat)
    : list DMsg :=
  if (d_Len diff =? 0)%Z && bool_decide (keysToUnset = []) then []
  else
    let details := filter (λ kv, filterKeys = [] ∨ kv.1 ∈ filterKeys) (map_to_list (default ∅ diff)) in
    let unset := filter (λ k, filterKeys = [] ∨ k ∈ filterKeys) keysToUnset in
    (if bool_decide (details = []) then [] else [MAmend contextId details arr]) ++
    (if bool_decide (unset = []) then [] else [MUnset contextId unset arr]).

Section details_events.
Context `{!LoIntersect}.

(** The messages and the arrays made so far. *)
Definition addDetailsEvents (prev : option entry) (curr : entry) (info : keysInfo) (st : list DMsg * list (list string))
    : list DMsg * list (list string) :=
  let '(msgs, arrs) := st in
  match prev with
  | Some prev =>
      let amend := go_sort (lo_Intersect (GetActive prev) (GetFullDetailsSent prev)) in
      let set := go_sort (Difference (ki_subIds info) amend) in
      let '(diff, keysToUnset) := StructDiff (e_data prev) (e_data curr) in
      let msgs :=
        if bool_decide (amend = []) then msgs
        else msgs ++ StructDiffIntoEventsWithSubIds (ki_id info) diff (ki_keys info) keysToUnset (length arrs) in
      let msgs :=
        if bool_decide (set = []) then msgs
        else msgs ++ [MSet (e_id curr) (d_CopyOnlyKeys (e_data curr) (ki_keys info)) (S (length arrs))] in
      (msgs, arrs ++ [amend; set])
  | None =>
      (msgs ++ [MSet (e_id curr) (d_CopyOnlyKeys (e_data curr) (ki_keys info)) (length arrs)], arrs ++ [ki_subIds info])
  end.

(** One array is compacted in place while it is read: index [i] is read, the ids
    without an output of their own move to [j]. *)
Definition group_step (mk : list string → Event) (st : gmap string (list Event) * list string * nat) (i : nat)
    : gmap string (list Event) * list string * nat :=
  let '(outs, arr, j) := st in
  let subId := at_ arr i in
  match outs !! subId with
  | Some msgs => (<[subId:=msgs ++ [mk [subId]]]> outs, arr, j)
  | None => (outs, <[j:=subId]> arr, S j)
  end.
Definition push (outs : gmap string (list Event)) (subId : string) (ev : Event) : gmap string (list Event) :=
  <[subId:=default [] (outs !! subId) ++ [ev]]> outs.
Definition group_event (mk : list string → Event) (outs : gmap string (list Event)) (arr : list string)
    : gmap string (list Event) * list string :=
  let '(outs, arr, j) := foldl (group_step mk) (outs, arr, O) (seq 0 (length arr)) in
  (if bool_decide (0 < j)%nat then push outs defaultOutput (mk (take j arr)) else outs, arr).

Definition groupDetailsEvent (st : gmap string (list Event) * list (list string)) (m : DMsg)
    : gmap string (list Event) * list (list string) :=
  let '(outs, arrs) := st in
  let '(arr, mk) := match m with
                    | MSet id d a => (a, DetailsSet id d)
                    | MAmend id d a => (a, DetailsAmend id d)
                    | MUnset id ks a => (a, DetailsUnset id ks)
                    end in
  let '(outs, l) := group_event mk outs (default [] (arrs !! arr)) in
  (outs, <[arr:=l]> arrs).
Definition groupDetailsEvents (outs : gmap string (list Event)) (arrs : list (list string)) (msgs : list DMsg)
    : gmap string (list Event) := (foldl groupDetailsEvent (outs, arrs) msgs).1.

(** An entry that is in the changes but not in the list is logged and skipped. *)
Definition detailsEvent (ctx : opCtx) (st : world * (list DMsg * list (list string))) (info : keysInfo)
    : world * (list DMsg * list (list string)) :=
  let '(w, ms) := st in
  match getEntry w ctx (ki_id info) with
  | None => st
  | Some l =>
      let ms := addDetailsEvents (ent w <$> c_Get w (ki_id info)) (ent w l) info ms in
      (foldl (λ w sub, upd w l (λ e, SetSub e sub true true)) w (ki_subIds info), ms)
  end.
Definition detailsEvents (w : world) (ctx : opCtx) : world * opCtx :=
  let '(w, (msgs, arrs)) := foldl (detailsEvent ctx) (w, ([], [])) (cx_keysBuf ctx) in
  (w, with_outputs ctx (groupDetailsEvents (cx_outputs ctx) arrs msgs)).

(** ** The events of the batch *)

Definition addEvent (ctx : opCtx) (subId : string) (ev : Event) : opCtx :=
  match cx_outputs ctx !! subId with
  | Some msgs => with_outputs ctx (<[subId:=msgs ++ [ev]]> (cx_outputs ctx))
  | None => with_outputs ctx (push (cx_outputs ctx) defaultOutput ev)
  end.
Definition position_event (ctx : opCtx) (p : opPosition) : opCtx :=
  if op_isAdd p then
    let ctx := collectKeys ctx (op_id p) (op_subId p) (op_keys p) in
    addEvent ctx (op_subId p) (SubAdd (op_id p) (op_afterId p) (op_subId p))
  else addEvent ctx (op_subId p) (SubPosition (op_id p) (op_afterId p) (op_subId p)).
Definition remove_event (ctx : opCtx) (r : opRemove) : opCtx := addEvent ctx (or_subId r) (SubRemove (or_id r) (or_subId r)).
Definition counter_event (ctx : opCtx) (c : opCounter) : opCtx :=
  addEvent ctx (cnt_subId c) (SubCounters (cnt_total c) (cnt_nextCount c) (cnt_prevCount c) (cnt_subId c)).
Definition group_op_event (ctx : opCtx) (g : opGroup) : opCtx :=
  addEvent ctx (og_subId g) (SubGroups (og_subId g) (og_group g) (og_remove g)).
Definition apply_entry (w : world) (l : loc) : world :=
  match e_subIds (ent w l) with
  | [] => c_Remove w (e_id (ent w l))
  | _ => c_Set w l
  end.

Definition ctx_apply (w : world) (ctx : opCtx) : world * opCtx :=
  let ctx := foldl (λ ctx ch, collectKeys ctx (oc_id ch) (oc_subId ch) (oc_keys ch)) ctx (cx_change ctx) in
  let '(w, ctx) := detailsEvents w ctx in
  let ctx := foldl position_event ctx (cx_position ctx) in
  let ctx := foldl remove_event ctx (cx_remove ctx) in
  let ctx := foldl counter_event ctx (cx_counters ctx) in
  let w := foldl apply_entry w (cx_entries ctx) in
  let ctx := foldl group_op_event ctx (cx_groups ctx) in
  (w, ctx).
End details_events.

(** The outputs are kept, and made when there are none. *)
Definition ctx_reset (outs : option (gmap string (list Event))) : opCtx :=
  {| cx_outputs := default {[defaultOutput := []]} outs; cx_remove := []; cx_change := []; cx_position := [];
     cx_counters := []; cx_entries := []; cx_groups := []; cx_keysBuf := [] |}.
