(* ===== verification/SubDep.v ===== *)
(** * Dependent objects ([core/subscription/dep.go], [simple.go])

    A subscription that shows relations with objects, files or tags also needs the
    objects these relations point to.  They are kept in a dependent subscription, a
    [simpleSub], which is refilled whenever the shown objects change.  The code
    makes simple subscriptions for dependencies only, so they have no dependent
    subscription of their own. *)

From S2P Require Import Prelude Slice SliceDiff GoFloat Values Details Filter SubCache SubContext.

(** What the subscriptions ask the object store: [QueryByIds], whose error is only
    logged, and the format of a relation. *)
Class SubStore := {
  store_QueryByIds : list string → list Details;
  store_GetRelationFormatByKey : string → res RelationFormat;
}.

Definition RelationKeyId : string := "id".
Definition RelationKeyName : string := "name".
Definition RelationKeyOrderId : string := "orderId".
Definition RelationKeySpaceId : string := "spaceId".
Definition RelationKeyFeaturedRelations : string := "featuredRelations".

Record depService := {
  ds_isRelationObjMap : gmap string bool;
  ds_sorts : gmap string (gmap string bool);
  ds_depOrderObjects : gmap string (gset string);
}.
Definition newDependencyService : depService :=
  {| ds_isRelationObjMap := ∅; ds_sorts := ∅; ds_depOrderObjects := ∅ |}.

(** What a call works on: the entries with their cache, the state of the
    dependency service and the context of the batch. *)
Record env := { en_w : world; en_ds : depService; en_ctx : opCtx }.
Definition with_w (v : env) (w : world) : env := {| en_w := w; en_ds := en_ds v; en_ctx := en_ctx v |}.
Definition with_ds (v : env) (d : depService) : env := {| en_w := en_w v; en_ds := d; en_ctx := en_ctx v |}.
Definition with_ctx (v : env) (c : opCtx) : env := {| en_w := en_w v; en_ds := en_ds v; en_ctx := c |}.
Definition v_SetSub (v : env) (l : loc) (subId : string) (isActive sent : bool) : env :=
  with_w v (upd (en_w v) l (λ e, SetSub e subId isActive sent)).

(** ** Sorts *)

Definition isSortKey (m : gmap string (gmap string bool)) (subId key : string) : bool :=
  match m !! subId with
  | None => false
  | Some keys => bool_decide (is_Some (keys !! key))
  end.
Definition isTagFormat (f : RelationFormat) : bool := match f with RF_tag | RF_status => true | _ => false end.
Definition setSortKey (m : gmap string (gmap string bool)) (subId key : string) (format : RelationFormat)
    : gmap string (gmap string bool) :=
  <[subId:=<[key:=isTagFormat format]> (default ∅ (m !! subId))]> m.
Definition getOrderKeys (m : gmap string (gmap string bool)) (subId : string) : list string :=
  match m !! subId with
  | None => []
  | Some keys =>
      let tags := (map_to_list keys).*2 in
      let hasOrderId := existsb (λ isTag : bool, isTag) tags in
      let hasName := existsb negb tags in
      if hasName && hasOrderId then [RelationKeyOrderId; RelationKeyName]
      else if hasName then [RelationKeyName]
      else if hasOrderId then [RelationKeyOrderId]
      else []
  end.

(** ** Relations that hold objects *)

Definition ignoredKeys : list string := [RelationKeyId; RelationKeySpaceId; RelationKeyFeaturedRelations].

Section dep.
Context `{!SubStore}.

(** The answer of the store is remembered; an error counts as no object, and is
    not remembered unless the key is ["pageCover"]. *)
Definition isRelationObject (d : depService) (key : string) : bool * depService :=
  if bool_decide (key = "") then (false, d)
  else if bool_decide (key ∈ ignoredKeys) then (false, d)
  else if strings_Contains key "." then (false, d)
  else
    match ds_isRelationObjMap d !! key with
    | Some isObj => (isObj, d)
    | None =>
        let remember isObj :=
          (isObj, {| ds_isRelationObjMap := <[key:=isObj]> (ds_isRelationObjMap d); ds_sorts := ds_sorts d;
                     ds_depOrderObjects := ds_depOrderObjects d |}) in
        match store_GetRelationFormatByKey key with
        | Err _ => if bool_decide (key ≠ "pageCover") then (false, d) else remember false
        | Ok f => remember (match f with RF_object | RF_file | RF_tag | RF_status => true | _ => false end)
        end
    end.

Definition depKeys (d : depService) (keys : list string) : list string * depService :=
  foldl (λ '(acc, d) key, let '(isObj, d) := isRelationObject d key in (if isObj then acc ++ [key] else acc, d)) ([], d) keys.

Definition depSubKeys (d : depService) (subId : string) (keys : list string) : list string :=
  foldl (λ keys key, if bool_decide (key ∈ keys) then keys else keys ++ [key]) keys (getOrderKeys (ds_sorts d) subId).

Definition addDepOrderObject (d : depService) (dependentObjectId subId : string) : depService :=
  {| ds_isRelationObjMap := ds_isRelationObjMap d; ds_sorts := ds_sorts d;
     ds_depOrderObjects :=
       <[dependentObjectId:={[subId]} ∪ default ∅ (ds_depOrderObjects d !! dependentObjectId)]> (ds_depOrderObjects d) |}.

Definition registerObjectSorts (d : depService) (subId : string) (sorts : list (string * RelationFormat)) : depService :=
  foldl (λ d '(key, format),
           let '(isObj, d) := isRelationObject d key in
           if isObj then {| ds_isRelationObjMap := ds_isRelationObjMap d; ds_sorts := setSortKey (ds_sorts d) subId key format;
                            ds_depOrderObjects := ds_depOrderObjects d |}
           else d) d sorts.

(** ** The objects an entry depends on *)

Definition dep_id (subId : string) (isSort : bool) (eid : string) (st : list string * depService) (depId : string)
    : list string * depService :=
  let '(depIds, d) := st in
  if bool_decide (depId = "") then st
  else
    (if (FindPos depIds depId =? -1)%Z && bool_decide (depId ≠ eid) then depIds ++ [depId] else depIds,
     if isSort then addDepOrderObject d depId subId else d).
Definition depIdsByEntries (d : depService) (subId : string) (entries : list (string * Details)) (keys forceIds : list string)
    : list string * depService :=
  foldl (λ st '(eid, data),
           foldl (λ st k, foldl (dep_id subId (isSortKey (ds_sorts d) subId k) eid) st (d_WrapToStringList data k)) st keys)
    (forceIds, d) entries.

(** Entries of the batch first, then copies of cached ones, then the store. *)
Definition dep_entry (st : env * list loc * list string) (id : string) : env * list loc * list string :=
  let '(v, depEntries, missIds) := st in
  match getEntry (en_w v) (en_ctx v) id with
  | Some l => (v, depEntries ++ [l], missIds)
  | None =>
      match c_Get (en_w v) id with
      | Some l =>
          let '(l, w) := alloc (en_w v) (e_Copy (ent (en_w v) l)) in
          (with_ctx (with_w v w) (add_entries (en_ctx v) [l]), depEntries ++ [l], missIds)
      | None => (v, depEntries, missIds ++ [id])
      end
  end.
Definition dep_record (st : env * list loc) (r : Details) : env * list loc :=
  let '(v, depEntries) := st in
  let '(l, w) := alloc (en_w v) (newEntry (d_GetString r RelationKeyId) r) in
  (with_ctx (with_w v w) (add_entries (en_ctx v) [l]), depEntries ++ [l]).
Definition depEntriesByEntries (v : env) (depIds : list string) : env * list loc :=
  let '(v, depEntries, missIds) := foldl dep_entry (v, [], []) depIds in
  if bool_decide (missIds = []) then (v, depEntries)
  else foldl dep_record (v, depEntries) (store_QueryByIds missIds).

(** ** Simple subscriptions *)

Record simpleSub := {
  sp_id : string;
  sp_set : gset string;
  sp_keys : list string;
  sp_forceIds : list string;
}.
Definition newSimpleSub (id : string) (keys : list string) : simpleSub :=
  {| sp_id := id; sp_set := ∅; sp_keys := keys; sp_forceIds := [] |}.

Definition sp_init (w : world) (s : simpleSub) (entries : list loc) : world * simpleSub :=
  let '(w, set) :=
    foldl (λ '(w, set) l,
             let '(l, w) := c_GetOrSet w l in
             (upd w l (λ e, SetSub e (sp_id s) true true), {[e_id (ent w l)]} ∪ set)) (w, ∅) entries in
  (w, {| sp_id := sp_id s; sp_set := set; sp_keys := sp_keys s; sp_forceIds := sp_forceIds s |}).

Definition isEqualIds (s : simpleSub) (ids : list string) : bool :=
  (size (sp_set s) =? length ids)%nat && forallb (λ id, bool_decide (id ∈ sp_set s)) ids.

Definition refill_entry (s : simpleSub) (st : env * gset string) (l : loc) : env * gset string :=
  let '(v, newSet) := st in
  let id := e_id (ent (en_w v) l) in
  let ctx :=
    if bool_decide (id ∈ sp_set s)
    then add_change (en_ctx v) [{| oc_id := id; oc_subId := sp_id s; oc_keys := sp_keys s |}]
    else add_position (en_ctx v)
           [{| op_id := id; op_subId := sp_id s; op_afterId := ""; op_keys := sp_keys s; op_isAdd := true |}] in
  (v_SetSub (with_ctx v ctx) l (sp_id s) true false, {[id]} ∪ newSet).
Definition refill_old (s : simpleSub) (newSet : gset string) (v : env) (oldId : string) : env :=
  if bool_decide (oldId ∈ newSet) then v
  else with_w (with_ctx v (add_remove (en_ctx v) [{| or_id := oldId; or_subId := sp_id s |}]))
         (c_RemoveSubId (en_w v) oldId (sp_id s)).
Definition refill (v : env) (s : simpleSub) (entries : list loc) : env * simpleSub :=
  let '(v, newSet) := foldl (refill_entry s) (v, ∅) entries in
  let v := foldl (refill_old s newSet) v (elements (sp_set s)) in
  (v, {| sp_id := sp_id s; sp_set := newSet; sp_keys := sp_keys s; sp_forceIds := sp_forceIds s |}).

(** The changes of the batch; the parent is reordered by the caller. *)
Definition sp_change (s : simpleSub) (v : env) (l : loc) : env :=
  let id := e_id (ent (en_w v) l) in
  if bool_decide (id ∈ sp_set s) then
    v_SetSub (with_ctx v (add_change (en_ctx v) [{| oc_id := id; oc_subId := sp_id s; oc_keys := sp_keys s |}]))
      l (sp_id s) true false
  else v.
Definition sp_onChange (v : env) (s : simpleSub) : env := foldl (sp_change s) v (cx_entries (en_ctx v)).

Definition sp_getActiveRecords (w : world) (s : simpleSub) : list Details :=
  (λ id, d_CopyOnlyKeys (from_option (λ l, e_data (ent w l)) None (c_Get w id)) (sp_keys s)) <$> elements (sp_set s).
Definition sp_close (w : world) (s : simpleSub) : world := foldl (λ w id, c_RemoveSubId w id (sp_id s)) w (elements (sp_set s)).

(** ** Making and refilling a dependent subscription *)

(** The entries of a subscription as the functions read them. *)
Definition read (w : world) (ls : list loc) : list (string * Details) := (λ l, (e_id (ent w l), e_data (ent w l))) <$> ls.

(** [subId] is the parent's id followed by ["/dep"]. *)
Definition makeSubscriptionByEntries (v : env) (parentSubId : string) (allEntries : list loc) (active : list (string * Details))
    (keys dKeys filterDepIds : list string) : env * simpleSub :=
  let subId := parentSubId +:+ "/dep" in
  let depSub := newSimpleSub subId (depSubKeys (en_ds v) subId keys) in
  let depSub := {| sp_id := sp_id depSub; sp_set := sp_set depSub; sp_keys := sp_keys depSub; sp_forceIds := filterDepIds |} in
  let '(depIds, d) := depIdsByEntries (en_ds v) parentSubId active dKeys filterDepIds in
  let '(v', depEntries) := depEntriesByEntries (with_ctx (with_ds v d) (add_entries (ctx_reset None) allEntries)) depIds in
  let '(w, depSub) := sp_init (en_w v') depSub depEntries in
  (with_ctx (with_w v' w) (en_ctx v), depSub).

Definition refillSubscription (v : env) (subId : string) (depSub : simpleSub) (active : list (string * Details)) (dKeys : list string)
    : env * simpleSub :=
  let '(depIds, d) := depIdsByEntries (en_ds v) subId active dKeys (sp_forceIds depSub) in
  let v := with_ds v d in
  if isEqualIds depSub depIds then (v, depSub)
  else
    let '(v, depEntries) := depEntriesByEntries v depIds in
    refill v depSub depEntries.

Definition isDepOrder (d : depService) (parentSubId id : string) : bool :=
  match ds_depOrderObjects d !! id with
  | Some subs => bool_decide (parentSubId ∈ subs)
  | None => false
  end.

(** The details of the batch's entries that the order of a subscription reads. *)
Definition updatedDepObjects (v : env) (parentSubId : string) : list Details :=
  (λ l, e_data (ent (en_w v) l)) <$>
  filter (λ l, isDepOrder (en_ds v) parentSubId (e_id (ent (en_w v) l)) = true) (cx_entries (en_ctx v)).
End dep.
