(* ===== verification/SubSorted.v ===== *)
(** * Sorted subscriptions ([core/subscription/sorted.go])

    A sorted subscription keeps the objects that pass its filter in a skip list
    ordered by the requested sorts, and shows a window of it: a number of objects
    behind an anchor.  A batch of changes updates the list and tells the client how
    its window changes. *)

From S2P Require Import Prelude Slice SliceDiff GoFloat Values Details Filter SubCache SubContext SubDep.

(** ** The libraries around it *)

(** [database.Order]: the comparison of two objects, and the update of the names
    and positions it has remembered about other objects. *)
Class SubOrder (order : Type) := {
  order_Compare : order → Details → Details → Z;
  order_UpdateOrderMap : order → list Details → bool * order;
}.

(** The keys of the list are entries.  The id and the details of an entry never
    change, and nothing else is read through the list, so a key is the pair. *)
Definition skey : Type := string * Details.

(** [huandu/skiplist]; the comparison is the one of the subscription at the time of
    the call. *)
Class SkipList := {
  skl : Type;
  elem : Type;
  sk_New : skl;
  sk_Init : skl → skl;
  sk_Set : (skey → skey → Z) → skl → skey → skl;
  sk_Remove : (skey → skey → Z) → skl → skey → skl;
  sk_Get : (skey → skey → Z) → skl → skey → option elem;
  sk_Len : skl → nat;
  sk_Front : skl → option elem;
  sk_Next : skl → elem → option elem;
  sk_Prev : skl → elem → option elem;
  sk_Key : elem → skey;
}.

(** Keys that are listed once are kept in the order of a comparison that is a total
    order on them; the elements of other keys stay.  [sk_elems] lists the elements. *)
Definition sorted_by (cmp : skey → skey → Z) (ks : list skey) : Prop := StronglySorted (λ x y, cmp x y < 0)%Z ks.
Class SkipListOk `{!SkipList} := {
  sk_elems : skl → list elem;
  sk_New_elems : sk_elems sk_New = [];
  sk_Init_elems l : sk_elems (sk_Init l) = [];
  sk_Len_elems l : sk_Len l = length (sk_elems l);
  sk_Front_elems l : sk_Front l = head (sk_elems l);
  sk_Next_elems l i el : sk_elems l !! i = Some el → sk_Next l el = sk_elems l !! S i;
  sk_Prev_elems l i el : sk_elems l !! i = Some el → sk_Prev l el = match i with O => None | S j => sk_elems l !! j end;
  sk_Set_elems cmp l k :
    cmp_on (λ x, x ∈ k :: (sk_Key <$> sk_elems l)) cmp → sorted_by cmp (sk_Key <$> sk_elems l) →
    (∀ x, x ∈ sk_Key <$> sk_elems l → cmp k x ≠ 0%Z) →
    ∃ l1 el l2, sk_elems l = l1 ++ l2 ∧ sk_elems (sk_Set cmp l k) = l1 ++ el :: l2 ∧ sk_Key el = k ∧
      sorted_by cmp (sk_Key <$> (l1 ++ el :: l2));
  sk_Set_present cmp l k :
    cmp_on (λ x, x ∈ k :: (sk_Key <$> sk_elems l)) cmp → sorted_by cmp (sk_Key <$> sk_elems l) →
    k ∈ (sk_Key <$> sk_elems l) → sk_elems (sk_Set cmp l k) = sk_elems l;
  sk_Remove_elems cmp l l1 el l2 :
    cmp_on (λ x, x ∈ sk_Key <$> sk_elems l) cmp → sorted_by cmp (sk_Key <$> sk_elems l) →
    sk_elems l = l1 ++ el :: l2 → sk_elems (sk_Remove cmp l (sk_Key el)) = l1 ++ l2;
  sk_Remove_absent cmp l k :
    cmp_on (λ x, x ∈ k :: (sk_Key <$> sk_elems l)) cmp → sorted_by cmp (sk_Key <$> sk_elems l) →
    (∀ x, x ∈ sk_Key <$> sk_elems l → cmp k x ≠ 0%Z) → sk_elems (sk_Remove cmp l k) = sk_elems l;
}.

Section sorted.
Context `{!SubStore, !Mb0Diff, !LoIntersect, !SkipList} {order : Type} `{!SubOrder order}.

(** [ss_diff] is nil before [init] has succeeded.  Nested subscriptions are
    disabled in the code, so [parent] and [nested] are left out. *)
Record sortedSub := {
  ss_id : string;
  ss_started : bool;
  ss_entriesBeforeStarted : list loc;
  ss_keys : list string;
  ss_filter : option (Details → bool);
  ss_order : option order;
  ss_afterId : string;
  ss_beforeId : string;
  ss_limit : Z;
  ss_offset : Z;
  ss_skl : skl;
  ss_afterEl : option elem;
  ss_beforeEl : option elem;
  ss_depSub : option simpleSub;
  ss_depKeys : list string;
  ss_forceSubIds : list string;
  ss_disableDep : bool;
  ss_diff : option listDiff;
  ss_compCountBefore : opCounter;
}.

Definition newSortedSub (id : string) (keys : list string) (filter : option (Details → bool)) (ord : option order) (limit offset : Z)
    : sortedSub :=
  {| ss_id := id; ss_started := false; ss_entriesBeforeStarted := []; ss_keys := keys; ss_filter := filter; ss_order := ord;
     ss_afterId := ""; ss_beforeId := ""; ss_limit := limit; ss_offset := offset; ss_skl := sk_New; ss_afterEl := None;
     ss_beforeEl := None; ss_depSub := None; ss_depKeys := []; ss_forceSubIds := []; ss_disableDep := false; ss_diff := None;
     ss_compCountBefore := {| cnt_subId := ""; cnt_total := 0; cnt_prevCount := 0; cnt_nextCount := 0 |} |}.

Definition with_skl (s : sortedSub) (l : skl) : sortedSub :=
  {| ss_id := ss_id s; ss_started := ss_started s; ss_entriesBeforeStarted := ss_entriesBeforeStarted s; ss_keys := ss_keys s;
     ss_filter := ss_filter s; ss_order := ss_order s; ss_afterId := ss_afterId s; ss_beforeId := ss_beforeId s;
     ss_limit := ss_limit s; ss_offset := ss_offset s; ss_skl := l; ss_afterEl := ss_afterEl s; ss_beforeEl := ss_beforeEl s;
     ss_depSub := ss_depSub s; ss_depKeys := ss_depKeys s; ss_forceSubIds := ss_forceSubIds s; ss_disableDep := ss_disableDep s;
     ss_diff := ss_diff s; ss_compCountBefore := ss_compCountBefore s |}.
Definition with_start (s : sortedSub) (started : bool) (before : list loc) : sortedSub :=
  {| ss_id := ss_id s; ss_started := started; ss_entriesBeforeStarted := before; ss_keys := ss_keys s;
     ss_filter := ss_filter s; ss_order := ss_order s; ss_afterId := ss_afterId s; ss_beforeId := ss_beforeId s;
     ss_limit := ss_limit s; ss_offset := ss_offset s; ss_skl := ss_skl s; ss_afterEl := ss_afterEl s; ss_beforeEl := ss_beforeEl s;
     ss_depSub := ss_depSub s; ss_depKeys := ss_depKeys s; ss_forceSubIds := ss_forceSubIds s; ss_disableDep := ss_disableDep s;
     ss_diff := ss_diff s; ss_compCountBefore := ss_compCountBefore s |}.
Definition with_anchors (s : sortedSub) (afterId : string) (afterEl beforeEl : option elem) : sortedSub :=
  {| ss_id := ss_id s; ss_started := ss_started s; ss_entriesBeforeStarted := ss_entriesBeforeStarted s; ss_keys := ss_keys s;
     ss_filter := ss_filter s; ss_order := ss_order s; ss_afterId := afterId; ss_beforeId := ss_beforeId s;
     ss_limit := ss_limit s; ss_offset := ss_offset s; ss_skl := ss_skl s; ss_afterEl := afterEl; ss_beforeEl := beforeEl;
     ss_depSub := ss_depSub s; ss_depKeys := ss_depKeys s; ss_forceSubIds := ss_forceSubIds s; ss_disableDep := ss_disableDep s;
     ss_diff := ss_diff s; ss_compCountBefore := ss_compCountBefore s |}.
Definition with_shown (s : sortedSub) (d : option listDiff) (c : opCounter) : sortedSub :=
  {| ss_id := ss_id s; ss_started := ss_started s; ss_entriesBeforeStarted := ss_entriesBeforeStarted s; ss_keys := ss_keys s;
     ss_filter := ss_filter s; ss_order := ss_order s; ss_afterId := ss_afterId s; ss_beforeId := ss_beforeId s;
     ss_limit := ss_limit s; ss_offset := ss_offset s; ss_skl := ss_skl s; ss_afterEl := ss_afterEl s; ss_beforeEl := ss_beforeEl s;
     ss_depSub := ss_depSub s; ss_depKeys := ss_depKeys s; ss_forceSubIds := ss_forceSubIds s; ss_disableDep := ss_disableDep s;
     ss_diff := d; ss_compCountBefore := c |}.
Definition with_dep (s : sortedSub) (dep : option simpleSub) (keys : list string) : sortedSub :=
  {| ss_id := ss_id s; ss_started := ss_started s; ss_entriesBeforeStarted := ss_entriesBeforeStarted s; ss_keys := ss_keys s;
     ss_filter := ss_filter s; ss_order := ss_order s; ss_afterId := ss_afterId s; ss_beforeId := ss_beforeId s;
     ss_limit := ss_limit s; ss_offset := ss_offset s; ss_skl := ss_skl s; ss_afterEl := ss_afterEl s; ss_beforeEl := ss_beforeEl s;
     ss_depSub := dep; ss_depKeys := keys; ss_forceSubIds := ss_forceSubIds s; ss_disableDep := ss_disableDep s;
     ss_diff := ss_diff s; ss_compCountBefore := ss_compCountBefore s |}.
Definition with_order (s : sortedSub) (o : option order) : sortedSub :=
  {| ss_id := ss_id s; ss_started := ss_started s; ss_entriesBeforeStarted := ss_entriesBeforeStarted s; ss_keys := ss_keys s;
     ss_filter := ss_filter s; ss_order := o; ss_afterId := ss_afterId s; ss_beforeId := ss_beforeId s;
     ss_limit := ss_limit s; ss_offset := ss_offset s; ss_skl := ss_skl s; ss_afterEl := ss_afterEl s; ss_beforeEl := ss_beforeEl s;
     ss_depSub := ss_depSub s; ss_depKeys := ss_depKeys s; ss_forceSubIds := ss_forceSubIds s; ss_disableDep := ss_disableDep s;
     ss_diff := ss_diff s; ss_compCountBefore := ss_compCountBefore s |}.

(** [NoDepSubscription] of the request. *)
Definition noDep (s : sortedSub) : sortedSub :=
  {| ss_id := ss_id s; ss_started := ss_started s; ss_entriesBeforeStarted := ss_entriesBeforeStarted s; ss_keys := ss_keys s;
     ss_filter := ss_filter s; ss_order := ss_order s; ss_afterId := ss_afterId s; ss_beforeId := ss_beforeId s;
     ss_limit := ss_limit s; ss_offset := ss_offset s; ss_skl := ss_skl s; ss_afterEl := ss_afterEl s; ss_beforeEl := ss_beforeEl s;
     ss_depSub := ss_depSub s; ss_depKeys := ss_depKeys s; ss_forceSubIds := ss_forceSubIds s; ss_disableDep := true;
     ss_diff := ss_diff s; ss_compCountBefore := ss_compCountBefore s |}.

(** ** The order of the list *)

Definition ss_Compare (ord : option order) (le re : skey) : Z :=
  if bool_decide (le.1 = re.1) then 0%Z
  else
    let comp := match ord with Some o => order_Compare o le.2 re.2 | None => 0%Z end in
    if (comp =? 0)%Z then (if (strings_Compare le.1 re.1 =? 1)%Z then 1 else -1)%Z else comp.

(** ** The window *)

(** From [el] on along [next]; the walk ends with the list, which bounds [fuel]. *)
Fixpoint el_walk (next : elem → option elem) (limit : Z) (fuel : nat) (i : Z) (el : option elem) : list elem :=
  match fuel, el with
  | S fuel, Some el =>
      el :: (let i := (i + 1)%Z in
             if (0 <? limit)%Z && (limit <=? i)%Z then [] else el_walk next limit fuel i (next el))
  | _, _ => []
  end.

(** The elements in the order the loop visits them, and whether that is reversed. *)
Definition iterateActive (s : sortedSub) : list elem * bool :=
  let l := ss_skl s in
  match ss_beforeEl s with
  | Some b => (el_walk (sk_Prev l) (ss_limit s) (sk_Len l) 0 (sk_Prev l b), true)
  | None =>
      let start := match ss_afterEl s with Some a => sk_Next l a | None => sk_Front l end in
      (el_walk (sk_Next l) (ss_limit s) (sk_Len l) 0 start, false)
  end.
Definition getActiveEntries (s : sortedSub) : list skey := sk_Key <$> (iterateActive s).1.
Definition getActiveRecords (s : sortedSub) : list Details :=
  let '(els, rev) := iterateActive s in
  let res := (λ el, d_CopyOnlyKeys (sk_Key el).2 (ss_keys s)) <$> els in
  if rev then reverse res else res.

(** The number of elements from [el] on, itself included. *)
Definition count_from (next : elem → option elem) (l : skl) (el : option elem) : Z :=
  Z.of_nat (length (el_walk next 0 (sk_Len l) 0 el)).

Definition at_least_0 (z : Z) : Z := if (z <? 0)%Z then 0 else z.
Definition counters (s : sortedSub) : Z * Z :=
  let l := ss_skl s in
  let limit := ss_limit s in
  match ss_beforeEl s, ss_afterEl s with
  | None, None => if (limit <=? 0)%Z then (0, 0)%Z else (0, at_least_0 (Z.of_nat (sk_Len l) - limit))%Z
  | _, Some a =>
      let next := count_from (sk_Next l) l (Some a) in
      let prev := count_from (sk_Prev l) l (Some a) in
      (prev, if (0 <? limit)%Z then at_least_0 (next - 1 - limit) else 0)%Z
  | Some b, None =>
      let next := count_from (sk_Next l) l (Some b) in
      let prev := count_from (sk_Prev l) l (Some b) in
      (if (0 <? limit)%Z then at_least_0 (prev - 1 - limit) else 0, next)%Z
  end.
Definition counter_of (s : sortedSub) : opCounter :=
  {| cnt_subId := ss_id s; cnt_total := Z.of_nat (sk_Len (ss_skl s)); cnt_prevCount := (counters s).1;
     cnt_nextCount := (counters s).2 |}.

(** ** Anchors *)

Definition ErrAfterId : string := "after id not in set".
Definition ErrBeforeId : string := "before id not in set".
Definition ErrNoRecords : string := "no records with given offset".

(** The element with the number [offset], counted from one. *)
Fixpoint nth_el (next : elem → option elem) (fuel : nat) (i offset : Z) (el : option elem) : option elem :=
  match fuel, el with
  | S fuel, Some e =>
      let i := (i + 1)%Z in
      if (i =? offset)%Z then Some e else nth_el next fuel i offset (next e)
  | _, _ => None
  end.

(** The element of an id: an entry that is not cached is not looked for. *)
Definition find_el (w : world) (s : sortedSub) (id : string) : option (option elem) :=
  match c_Get w id with
  | None => None
  | Some l => Some (sk_Get (ss_Compare (ss_order s)) (ss_skl s) (e_id (ent w l), e_data (ent w l)))
  end.

Definition setBeforeAndAfterElements (w : world) (s : sortedSub) : option string * sortedSub :=
  if bool_decide (ss_afterId s ≠ "") then
    match find_el w s (ss_afterId s) with
    | None => (Some ErrAfterId, s)
    | Some el => (if bool_decide (is_Some el) then None else Some ErrAfterId, with_anchors s (ss_afterId s) el (ss_beforeEl s))
    end
  else if bool_decide (ss_beforeId s ≠ "") then
    match find_el w s (ss_beforeId s) with
    | None => (Some ErrBeforeId, s)
    | Some el => (if bool_decide (is_Some el) then None else Some ErrBeforeId, with_anchors s (ss_afterId s) (ss_afterEl s) el)
    end
  else if (0 <? ss_offset s)%Z then
    let l := ss_skl s in
    let s := match nth_el (sk_Next l) (sk_Len l) 0 (ss_offset s) (sk_Front l) with
             | Some el => with_anchors s (sk_Key el).1 (Some el) (ss_beforeEl s)
             | None => s
             end in
    match ss_afterEl s with
    | None => (Some ErrNoRecords, s)
    | Some _ => (None, s)
    end
  else (None, s).

(** ** Closing and starting *)

(** All elements, from the first one on. *)
Definition all_elems (l : skl) : list elem := el_walk (sk_Next l) 0 (sk_Len l) 0 (sk_Front l).

Definition ss_close (w : world) (s : sortedSub) : world :=
  if negb (ss_started s) then w
  else
    let w := foldl (λ w el, c_RemoveSubId w (sk_Key el).1 (ss_id s)) w (all_elems (ss_skl s)) in
    match ss_depSub s with Some d => sp_close w d | None => w end.

(** One of the first entries: the cached version is used when there is one. *)
Definition init_entry (s : sortedSub) (st : world * skl * list loc) (l : loc) : world * skl * list loc :=
  let '(w, sk, entries) := st in
  let '(l, w) := c_GetOrSet w l in
  let w := upd w l (λ e, SetSub e (ss_id s) false false) in
  (w, sk_Set (ss_Compare (ss_order s)) sk (e_id (ent w l), e_data (ent w l)), entries ++ [l]).

(** The active elements are the entries that have just been put in the cache, so
    they are reached through it. *)
Definition activate (subId : string) (w : world) (id : string) : world :=
  match c_Get w id with
  | Some l => upd w l (λ e, SetSub e subId true true)
  | None => w
  end.

Definition ss_init (v : env) (s : sortedSub) (entries : list loc) : option string * env * sortedSub :=
  let s := with_start s true (ss_entriesBeforeStarted s) in
  let '(w, sk, entries) := foldl (init_entry s) (en_w v, sk_New, []) entries in
  let s := with_skl s sk in
  match setBeforeAndAfterElements w s with
  | (Some err, s) => (Some err, with_w v (ss_close w s), s)
  | (None, s) =>
      let active := getActiveEntries s in
      let w := foldl (activate (ss_id s)) w active.*1 in
      let v := with_w v w in
      let s := with_shown s (Some (newListDiff active.*1)) (counter_of s) in
      if ss_disableDep s then (None, v, s)
      else
        let '(dKeys, d) := depKeys (en_ds v) (ss_keys s) in
        let v := with_ds v d in
        if bool_decide (dKeys = []) && bool_decide (ss_forceSubIds s = []) then (None, v, with_dep s None dKeys)
        else
          let '(v, dep) := makeSubscriptionByEntries v (ss_id s) entries active (ss_keys s) dKeys (ss_forceSubIds s) in
          (None, v, with_dep s (Some dep) dKeys)
  end.

(** ** A changed entry *)

Definition onEntryChange (w : world) (s : sortedSub) (l : loc) : bool * world * sortedSub :=
  let e := ent w l in
  let newInSet := match ss_filter s with Some f => f (e_data e) | None => true end in
  if negb (ss_started s) then
    (false, w, if newInSet then with_start s false (ss_entriesBeforeStarted s ++ [l]) else s)
  else
    let curr := ent w <$> c_Get w (e_id e) in
    let curInSet := IsInSub curr (ss_id s) in
    let cmp := ss_Compare (ss_order s) in
    let removed := match curr with Some c => sk_Remove cmp (ss_skl s) (e_id c, e_data c) | None => ss_skl s end in
    let subscribed := upd w l (λ e, SetSub e (ss_id s) false false) in
    match curInSet, newInSet with
    | false, false => (false, w, s)
    | true, false => (true, upd w l (λ e, e_RemoveSubId e (ss_id s)), with_skl s removed)
    | false, true => (true, subscribed, with_skl s (sk_Set cmp (ss_skl s) (e_id e, e_data e)))
    | true, true => (true, subscribed, with_skl s (sk_Set cmp removed (e_id e, e_data e)))
    end.

(** ** The window after the changes *)

(** Entries of the batch that are shown. *)
Definition tell_change (s : sortedSub) (after : gset string) (st : env * bool) (l : loc) : env * bool :=
  let '(v, hasChanges) := st in
  let id := e_id (ent (en_w v) l) in
  if bool_decide (id ∈ after) then
    (with_ctx (v_SetSub v l (ss_id s) true false)
       (add_change (en_ctx v) [{| oc_id := id; oc_subId := ss_id s; oc_keys := ss_keys s |}]), true)
  else st.
Definition deactivate (subId : string) (w : world) (id : string) : world :=
  match c_Get w id with
  | Some l => upd w l (λ e, SetSub e subId false false)
  | None => w
  end.

(** [None] is the panic of a subscription whose [diff] is nil. *)
Definition onSklChange (v : env) (s : sortedSub) : option (env * sortedSub) :=
  match ss_diff s with
  | None => None
  | Some ld =>
      let '(els, rev) := iterateActive s in
      let active := sk_Key <$> els in
      let ld := foldl fillAfter ld active.*1 in
      let ld := if rev then ld_reverse ld else ld in
      let count := counter_of s in
      let ctx := if bool_decide (count = ss_compCountBefore s) then en_ctx v else add_counter (en_ctx v) [count] in
      let '(ctx, ld, (was, added, removed)) := ld_diff ctx ld (ss_id s) (ss_keys s) in
      let '(v, _) := depEntriesByEntries (with_ctx v ctx) added in
      let '(v, hasChanges) := foldl (tell_change s (ld_afterIdsM ld)) (v, false) (cx_entries (en_ctx v)) in
      let v := with_w v (foldl (deactivate (ss_id s)) (en_w v) removed) in
      let s := with_shown s (Some (ld_reset ld)) count in
      match ss_depSub s with
      | Some dep =>
          if was || hasChanges then
            let '(v, dep) := refillSubscription v (ss_id s) dep active (ss_depKeys s) in
            Some (v, with_dep s (Some dep) (ss_depKeys s))
          else Some (v, s)
      | None => Some (v, s)
      end
  end.

Definition entry_changes (w : world) (s : sortedSub) (ls : list loc) : bool * world * sortedSub :=
  foldl (λ '(changed, w, s) l, let '(c, w, s) := onEntryChange w s l in (c || changed, w, s)) (false, w, s) ls.

Definition ss_onChange (v : env) (s : sortedSub) : option (env * sortedSub) :=
  let '(changed, w, s) := entry_changes (en_w v) s (cx_entries (en_ctx v)) in
  let v := with_w v w in
  if negb changed || negb (ss_started s) then Some (v, s) else onSklChange v s.

(** ** Objects the order depends on have changed *)

(** The error of the anchors is logged. *)
Definition reorder (v : env) (s : sortedSub) (depDetails : list Details) : option (env * sortedSub) :=
  match ss_order s with
  | None => None
  | Some o =>
      let '(changed, o) := order_UpdateOrderMap o depDetails in
      let s := with_order s (Some o) in
      if negb changed then Some (v, s)
      else
        let keys := sk_Key <$> all_elems (ss_skl s) in
        let s := with_skl s (foldl (sk_Set (ss_Compare (ss_order s))) (sk_Init (ss_skl s)) keys) in
        let s := with_anchors s "" (ss_afterEl s) (ss_beforeEl s) in
        onSklChange v (setBeforeAndAfterElements (en_w v) s).2
  end.

(** The dependent subscription's part of a batch: its own changes, then the
    reordering of the parent when objects its sorts read have changed. *)
Definition dep_onChange (v : env) (s : sortedSub) : option (env * sortedSub) :=
  match ss_depSub s with
  | None => Some (v, s)
  | Some dep =>
      let v := sp_onChange v dep in
      match updatedDepObjects v (ss_id s) with
      | [] => Some (v, s)
      | objs => reorder v s objs
      end
  end.

(** What [spaceSubscriptions.onChange] does with one subscription. *)
Definition sub_onChange (v : env) (s : sortedSub) : option (env * sortedSub) :=
  '(v, s) ← ss_onChange v s;
  dep_onChange v s.
End sorted.
Arguments sortedSub {_} order.
