(* ===== verification/SubTracking.v ===== *)
(** * What a sorted subscription guarantees

    After every batch the list of a subscription holds exactly the current objects
    that pass its filter, in the requested order; the events lead the client from
    the old window to the new one; and the cache knows who is subscribed to what. *)

From S2P Require Import Prelude Slice SliceDiff GoFloat Values Details Filter SubCache SubContext SubDep SubSorted.

(** ** The order of the list *)

Lemma strings_Compare_cases x y :
  (x = y ∧ strings_Compare x y = 0 ∨ x ≠ y ∧ strings_Compare x y = 1 ∨ x ≠ y ∧ strings_Compare x y = -1)%Z.
Proof.
  unfold strings_Compare. destruct (String.compare x y) eqn:E.
  - left. split; [by apply String.compare_eq_iff|done].
  - right; right. split; [|done]. intros ->. by rewrite string_compare_refl in E.
  - right; left. split; [|done]. intros ->. by rewrite string_compare_refl in E.
Qed.

Section compare.
Context {order : Type} `{!SubOrder order} (ord : option order) (orderable : Details → Prop).
Context (Hord : ∀ o, ord = Some o → cmp_on orderable (order_Compare o)).

Definition ord_cmp (a b : Details) : Z := match ord with Some o => order_Compare o a b | None => 0%Z end.

Lemma ord_cmp_on : cmp_on orderable ord_cmp.
Proof.
  unfold ord_cmp. destruct ord as [o|]; [by apply Hord|]. split; [done|]. intros. split; lia.
Qed.

(** Keys with different ids, or the same key. *)
Definition distinct (ks : list skey) : Prop := NoDup ks.*1 ∧ Forall (λ k, orderable k.2) ks.

Lemma distinct_inj ks x y : distinct ks → x ∈ ks → y ∈ ks → x.1 = y.1 → x = y.
Proof.
  intros [Hn _] Hx Hy E. apply list_elem_of_lookup in Hx as [i Hi], Hy as [j Hj].
  assert (i = j) as ->; [|congruence].
  eapply NoDup_lookup; [exact Hn|by rewrite list_lookup_fmap, Hi|]. rewrite list_lookup_fmap, Hj. simpl. by rewrite E.
Qed.

Lemma ss_Compare_chain x y :
  orderable x.2 → orderable y.2 → (x.1 = y.1 → x = y) →
  ss_Compare ord x y = chain (ord_cmp x.2 y.2) (strings_Compare x.1 y.1).
Proof.
  intros Hx Hy Heq. unfold ss_Compare, chain. fold (ord_cmp x.2 y.2). case_bool_decide as E.
  - rewrite (Heq E). pose proof (cmp_antisym _ _ ord_cmp_on y.2 y.2 Hy Hy) as H0.
    assert (ord_cmp y.2 y.2 = 0%Z) as -> by lia. simpl.
    destruct (strings_Compare_cases y.1 y.1) as [[_ ->]|[[? _]|[? _]]]; done.
  - destruct (ord_cmp x.2 y.2 =? 0)%Z; [|done].
    destruct (strings_Compare_cases x.1 y.1) as [[? _]|[[_ ->]|[_ ->]]]; done.
Qed.

Lemma ss_Compare_cmp_on ks : distinct ks → cmp_on (λ x, x ∈ ks) (ss_Compare ord).
Proof.
  intros Hd. pose proof Hd as [_ Ho]. rewrite Forall_forall in Ho.
  apply (cmp_on_ext _ (λ x y, chain (ord_cmp x.2 y.2) (strings_Compare x.1 y.1))).
  - intros x y Hx Hy. symmetry. apply ss_Compare_chain; [auto..|]. by eapply distinct_inj.
  - apply cmp_on_chain.
    + apply (cmp_on_map snd _ orderable); [auto|apply ord_cmp_on].
    + intros x y _ _ _. by apply (cmp_antisym _ _ strings_cmp_on).
    + intros x y z _ _ _ _ _. by apply (cmp_trans3 _ _ strings_cmp_on).
Qed.

Lemma ss_Compare_zero x y : ss_Compare ord x y = 0%Z → x.1 = y.1.
Proof.
  unfold ss_Compare. case_bool_decide as E; [done|]. fold (ord_cmp x.2 y.2).
  destruct (ord_cmp x.2 y.2 =? 0)%Z eqn:E0; [|lia]. by destruct (_ =? 1)%Z.
Qed.
End compare.

(** ** Walking the list *)

Section walks.
Context `{!SkipList, !SkipListOk}.

Definition take_limit {A} (limit : Z) (l : list A) : list A := if (0 <? limit)%Z then take (Z.to_nat limit) l else l.

Lemma el_walk_step (next : elem → option elem) limit fuel i e :
  el_walk next limit (S fuel) i (Some e) =
  e :: (if (0 <? limit)%Z && (limit <=? i + 1)%Z then [] else el_walk next limit fuel (i + 1) (next e)).
Proof. done. Qed.

(** A walk along the elements [els], from the first of them. *)
Lemma el_walk_list (next : elem → option elem) limit fuel i els :
  (∀ j e, els !! j = Some e → next e = els !! S j) → (length els ≤ fuel)%nat → (0 ≤ i)%Z → (0 < limit → i < limit)%Z →
  el_walk next limit fuel i (head els) = if (0 <? limit)%Z then take (Z.to_nat (limit - i)) els else els.
Proof.
  revert fuel i. induction els as [|e els IH]; intros fuel i Hn Hf Hi Hl.
  - simpl. rewrite take_nil. destruct fuel; by destruct (0 <? limit)%Z.
  - destruct fuel as [|fuel]; [simpl in Hf; lia|]. cbn [head]. rewrite el_walk_step.
    assert (next e = head els) as ->.
    { rewrite (Hn O e) by done. by destruct els. }
    assert (∀ j e', els !! j = Some e' → next e' = els !! S j) as Hn' by (intros j e' Hj; exact (Hn (S j) e' Hj)).
    simpl in Hf. destruct (0 <? limit)%Z eqn:El; simpl.
    + destruct (Z.to_nat (limit - i)) as [|n] eqn:En; [lia|]. simpl. f_equal.
      destruct (limit <=? i + 1)%Z eqn:Ei.
      * assert (n = O) as -> by lia. done.
      * rewrite IH by (try done; lia). f_equal. lia.
    + f_equal. rewrite IH by (try done; lia). done.
Qed.

Lemma next_suffix (l : skl) l1 els : sk_elems l = l1 ++ els → ∀ j e, els !! j = Some e → sk_Next l e = els !! S j.
Proof.
  intros E j e Hj. rewrite (sk_Next_elems l (length l1 + j) e).
  - rewrite E, lookup_app_r by lia. f_equal. lia.
  - rewrite E, lookup_app_r by lia. rewrite <- Hj. f_equal. lia.
Qed.

Lemma walk_suffix (l : skl) l1 els limit :
  sk_elems l = l1 ++ els → el_walk (sk_Next l) limit (sk_Len l) 0 (head els) = take_limit limit els.
Proof.
  intros E. rewrite el_walk_list; [|by eapply next_suffix|rewrite sk_Len_elems, E, length_app; lia|lia..].
  unfold take_limit. by rewrite Z.sub_0_r.
Qed.

Lemma all_elems_eq (l : skl) : all_elems l = sk_elems l.
Proof. unfold all_elems. rewrite sk_Front_elems. by rewrite (walk_suffix l [] (sk_elems l)). Qed.

(** The elements the window starts with. *)
Definition behind_anchor (els : list elem) (anchor : option elem) (rest : list elem) : Prop :=
  match anchor with
  | None => rest = els
  | Some el => ∃ l1, els = l1 ++ el :: rest
  end.

Lemma iterateActive_eq {order} (s : sortedSub order) rest :
  ss_beforeEl s = None → behind_anchor (sk_elems (ss_skl s)) (ss_afterEl s) rest →
  iterateActive s = (take_limit (ss_limit s) rest, false).
Proof.
  intros Hb Ha. unfold iterateActive. rewrite Hb. f_equal. destruct (ss_afterEl s) as [el|]; simpl in Ha.
  - destruct Ha as [l1 E].
    rewrite (sk_Next_elems (ss_skl s) (length l1) el) by (rewrite E; by apply list_lookup_middle).
    assert (sk_elems (ss_skl s) = (l1 ++ [el]) ++ rest) as E' by (rewrite E, <- app_assoc; done).
    rewrite <- (walk_suffix _ _ _ (ss_limit s) E'). f_equal. rewrite E'.
    rewrite lookup_app_r by (rewrite length_app; simpl; lia). rewrite length_app. simpl.
    replace (S (length l1) - (length l1 + 1))%nat with O by lia. by destruct rest.
  - subst rest. rewrite sk_Front_elems. by rewrite (walk_suffix _ [] (sk_elems (ss_skl s))).
Qed.
End walks.

(** ** One changed entry *)

Lemma sorted_sublist {A} (R : A → A → Prop) l1 l2 : l1 `sublist_of` l2 → StronglySorted R l2 → StronglySorted R l1.
Proof.
  induction 1 as [|x l1 l2 Hl IH|x l1 l2 Hl IH]; [done|..]; intros [Hs Hf]%StronglySorted_inv; [|auto].
  constructor; [auto|]. rewrite Forall_forall in *. intros y Hy. apply Hf.
  eapply elem_of_submseteq; [done|by apply sublist_submseteq].
Qed.

Section tracking.
Context `{Hstore : !SubStore, Hdiff : !Mb0Diff, Hdiffok : !Mb0DiffOk, Hint : !LoIntersect, Hskl : !SkipList, Hsklok : !SkipListOk}.
Context {order : Type} `{Hso : !SubOrder order} (orderable : Details → Prop).
Implicit Types (s : sortedSub order) (w : world).

Definition keys_of s : list skey := sk_Key <$> sk_elems (ss_skl s).
Definition passes s (d : Details) : bool := match ss_filter s with Some f => f d | None => true end.
Definition order_ok s : Prop := ∀ o, ss_order s = Some o → cmp_on orderable (order_Compare o).

(** The list is in order and has an object at most once. *)
Record tracked s : Prop := {
  tr_order : order_ok s;
  tr_distinct : distinct orderable (keys_of s);
  tr_sorted : sorted_by (ss_Compare (ss_order s)) (keys_of s);
}.

(** [s'] differs from [s] in its list only, which keeps the elements of all ids
    but [id]. *)
Record relisted (id : string) s s' : Prop := {
  rl_same : s' = with_skl s (ss_skl s');
  rl_elems : ∀ el, (sk_Key el).1 ≠ id → el ∈ sk_elems (ss_skl s) ↔ el ∈ sk_elems (ss_skl s');
}.

Lemma keys_elem s k : k ∈ keys_of s ↔ ∃ el, el ∈ sk_elems (ss_skl s) ∧ sk_Key el = k.
Proof. unfold keys_of. rewrite list_elem_of_fmap. naive_solver. Qed.

Lemma set_tracked s k :
  tracked s → orderable k.2 → (∀ x, x ∈ keys_of s → x.1 ≠ k.1) →
  let s' := with_skl s (sk_Set (ss_Compare (ss_order s)) (ss_skl s) k) in
  tracked s' ∧ relisted k.1 s s' ∧ ∀ x, x ∈ keys_of s' ↔ x = k ∨ x ∈ keys_of s.
Proof.
  intros [Ho [Hn Hf] Hs] Hk Hx s'.
  assert (distinct orderable (k :: keys_of s)) as Hd.
  { split; [|by constructor]. rewrite fmap_cons. constructor; [|done]. intros (x & E & Hin)%list_elem_of_fmap.
    by apply (Hx x). }
  destruct (sk_Set_elems (ss_Compare (ss_order s)) (ss_skl s) k) as (l1 & el & l2 & E1 & E2 & Ek & Hs'); [|done|..].
  { by apply (ss_Compare_cmp_on _ orderable Ho). }
  { intros x Hxin E0%ss_Compare_zero. by apply (Hx x Hxin). }
  assert (keys_of s' ≡ₚ k :: keys_of s) as Hp.
  { unfold keys_of. simpl. rewrite E2, E1, <- Ek, fmap_app, fmap_cons, fmap_app. apply Permutation_sym, Permutation_middle. }
  split_and!.
  - split; [done|..].
    + destruct Hd as [Hd1 Hd2]. split; [by rewrite Hp|by rewrite Hp].
    + unfold keys_of. simpl. rewrite E2. done.
  - split; [done|]. intros el' Hne. simpl. rewrite E2, E1. rewrite !elem_of_app, elem_of_cons. split; [tauto|].
    intros [?|[->|?]]; [tauto| |tauto]. congruence.
  - intros x. rewrite Hp, elem_of_cons. done.
Qed.

Lemma remove_tracked s id d :
  tracked s → (id, d) ∈ keys_of s →
  let s' := with_skl s (sk_Remove (ss_Compare (ss_order s)) (ss_skl s) (id, d)) in
  tracked s' ∧ relisted id s s' ∧ ∀ x, x ∈ keys_of s' ↔ x.1 ≠ id ∧ x ∈ keys_of s.
Proof.
  intros [Ho Hd Hs] (el & Hel & Ek)%keys_elem s'. pose proof Hd as [Hn Hf].
  apply list_elem_of_split in Hel as (l1 & l2 & E).
  assert (sk_elems (ss_skl s') = l1 ++ l2) as E'.
  { simpl. rewrite <- Ek. eapply sk_Remove_elems; [|done|done]. by apply (ss_Compare_cmp_on _ orderable Ho). }
  assert (keys_of s = (sk_Key <$> l1) ++ (id, d) :: (sk_Key <$> l2)) as Eks.
  { unfold keys_of. by rewrite E, fmap_app, fmap_cons, Ek. }
  assert (keys_of s' = (sk_Key <$> l1) ++ (sk_Key <$> l2)) as Eks'.
  { unfold keys_of. by rewrite E', fmap_app. }
  rewrite Eks in Hn, Hf, Hs. rewrite fmap_app, fmap_cons in Hn. simpl in Hn.
  apply NoDup_app in Hn as (Hn1 & Hn12 & [Hn2 Hn3]%NoDup_cons).
  assert (∀ x, x ∈ (sk_Key <$> l1) ++ (sk_Key <$> l2) → x.1 ≠ id) as Hne.
  { intros x [Hx|Hx]%elem_of_app E0; apply (list_elem_of_fmap_2 fst) in Hx; rewrite E0 in Hx; [|done].
    apply (Hn12 id Hx). left. }
  split_and!.
  - split; [done|..]; rewrite ?Eks'.
    + split; rewrite ?Eks'.
      * rewrite fmap_app. apply NoDup_app. split_and!; [done| |done]. intros x Hx Hx'. apply (Hn12 x Hx). by right.
      * apply Forall_app in Hf as [? [_ ?]%Forall_cons]. by apply Forall_app.
    + unfold sorted_by in *. eapply sorted_sublist; [|exact Hs]. apply sublist_app; [done|]. by constructor.
  - split; [done|]. intros el' Hne'. rewrite E', E, !elem_of_app, elem_of_cons. split; [|tauto].
    intros [?|[->|?]]; [tauto| |tauto]. rewrite Ek in Hne'. done.
  - intros x. rewrite Eks', Eks. split.
    + intros Hx. split; [by apply Hne|]. apply elem_of_app in Hx. rewrite elem_of_app, elem_of_cons. tauto.
    + rewrite !elem_of_app, elem_of_cons. intros [? [?|[->|?]]]; [tauto| |tauto]. done.
Qed.

(** ** Entries and worlds *)

Definition live w (l : loc) : Prop := is_Some (w_heap w !! l).

(** The same object; the membership in subscriptions other than [sid] is the same. *)
Record same_but (sid : string) (e e' : entry) : Prop := {
  sb_id : e_id e' = e_id e;
  sb_data : e_data e' = e_data e;
  sb_subs : ∀ x, x ≠ sid → x ∈ e_subIds e' ↔ x ∈ e_subIds e;
}.
Lemma same_but_refl sid e : same_but sid e e.
Proof. by split. Qed.
Lemma same_but_trans sid e1 e2 e3 : same_but sid e1 e2 → same_but sid e2 e3 → same_but sid e1 e3.
Proof. intros [] []. split; [congruence..|]. intros x Hx. rewrite sb_subs1, sb_subs0 by done. done. Qed.
Lemma SetSub_same sid e a d : same_but sid e (SetSub e sid a d).
Proof.
  split; [unfold SetSub; by destruct (_ =? _)%Z..|]. intros x Hx. rewrite SetSub_subIds. naive_solver.
Qed.
Lemma e_RemoveSubId_same sid e : same_but sid e (e_RemoveSubId e sid).
Proof.
  split; [unfold e_RemoveSubId; by destruct (_ =? _)%Z..|]. intros x Hx. rewrite e_RemoveSubId_subIds, list_elem_of_filter. tauto.
Qed.

(** [w'] changes the entries at [ls] only, and there the subscription [sid] only. *)
Record touched (sid : string) (ls : list loc) w w' : Prop := {
  to_cache : w_cache w' = w_cache w;
  to_live : ∀ l, live w l → live w' l;
  to_same : ∀ l, live w l → same_but sid (ent w l) (ent w' l);
  to_rest : ∀ l, l ∉ ls → ent w' l = ent w l;
}.
Lemma touched_refl sid ls w : touched sid ls w w.
Proof. split; eauto using same_but_refl. Qed.
Lemma touched_trans sid ls1 ls2 ls w1 w2 w3 :
  ls1 ⊆ ls → ls2 ⊆ ls → touched sid ls1 w1 w2 → touched sid ls2 w2 w3 → touched sid ls w1 w3.
Proof.
  intros Hs1 Hs2 [] []. split; [congruence|eauto|..].
  - intros l Hl. eapply same_but_trans; eauto.
  - intros l Hl. rewrite to_rest1, to_rest0; [done|set_solver..].
Qed.

Lemma ent_upd w l f l' : live w l → ent (upd w l f) l' = if bool_decide (l' = l) then f (ent w l) else ent w l'.
Proof.
  intros [e He]. unfold ent, upd. simpl. case_bool_decide as E.
  - subst l'. by rewrite lookup_alter_eq, He.
  - by rewrite lookup_alter_ne by congruence.
Qed.

Lemma live_upd w l f l' : live w l' → live (upd w l f) l'.
Proof. unfold live, upd. simpl. destruct (decide (l' = l)) as [->|]; [rewrite lookup_alter_eq|rewrite lookup_alter_ne by congruence]; [|done]. intros [e ->]. by eexists. Qed.

Lemma upd_touched sid w l f : live w l → (∀ e, same_but sid e (f e)) → touched sid [l] w (upd w l f).
Proof.
  intros Hl Hf. split; [done|intros; by apply live_upd|..]; intros l' Hl'; rewrite ent_upd by done; case_bool_decide; subst.
  - apply Hf.
  - apply same_but_refl.
  - set_solver.
  - done.
Qed.

Definition ids_of w (ls : list loc) : list string := (λ l, e_id (ent w l)) <$> ls.
Lemma ids_of_cons w l ls : ids_of w (l :: ls) = e_id (ent w l) :: ids_of w ls.
Proof. done. Qed.
Lemma ids_of_elem w l ls : l ∈ ls → e_id (ent w l) ∈ ids_of w ls.
Proof. intros Hl. unfold ids_of. apply list_elem_of_fmap. eauto. Qed.

Lemma ids_of_app w ls1 ls2 : ids_of w (ls1 ++ ls2) = ids_of w ls1 ++ ids_of w ls2.
Proof. apply fmap_app. Qed.
Lemma ids_of_inv w ls id : id ∈ ids_of w ls → ∃ l, l ∈ ls ∧ e_id (ent w l) = id.
Proof. intros (l & -> & Hl)%list_elem_of_fmap. eauto. Qed.
Lemma ids_of_ext w w' ls : (∀ l, l ∈ ls → e_id (ent w' l) = e_id (ent w l)) → ids_of w' ls = ids_of w ls.
Proof. intros H. apply list_fmap_ext. intros i l Hl%list_elem_of_lookup_2. auto. Qed.
Lemma ids_of_inj w ls l l' : NoDup (ids_of w ls) → l ∈ ls → l' ∈ ls → e_id (ent w l) = e_id (ent w l') → l = l'.
Proof.
  intros Hn [i Hi]%list_elem_of_lookup [j Hj]%list_elem_of_lookup E. assert (i = j) as ->; [|congruence].
  eapply NoDup_lookup; [exact Hn|unfold ids_of; by rewrite list_lookup_fmap, Hi|].
  unfold ids_of. rewrite list_lookup_fmap, Hj. simpl. by rewrite E.
Qed.

(** A batch for [s]: entries with different ids that are not in the cache; for
    their ids the list of [s] agrees with the cache. *)
Record batch_ok w s (ls : list loc) : Prop := {
  bo_live : ∀ l, l ∈ ls → live w l;
  bo_ids : NoDup (ids_of w ls);
  bo_order : ∀ l, l ∈ ls → orderable (e_data (ent w l));
  bo_fresh : ∀ id lc, c_Get w id = Some lc → lc ∉ ls;
  bo_cache : ∀ id lc, c_Get w id = Some lc → e_id (ent w lc) = id;
  bo_keys : ∀ l d, l ∈ ls → (e_id (ent w l), d) ∈ keys_of s ↔
    ∃ lc, c_Get w (e_id (ent w l)) = Some lc ∧ e_data (ent w lc) = d ∧ ss_id s ∈ e_subIds (ent w lc);
  bo_subs : ∀ l, l ∈ ls → ss_id s ∈ e_subIds (ent w l) → ∃ d, (e_id (ent w l), d) ∈ keys_of s;
}.

Lemma onEntryChange_spec w s l ls :
  tracked s → ss_started s = true → batch_ok w s (l :: ls) →
  let e := ent w l in
  let '(c, w', s') := onEntryChange w s l in
  tracked s' ∧ relisted (e_id e) s s' ∧
  (∀ x, x ∈ keys_of s' ↔ (x = (e_id e, e_data e) ∧ passes s (e_data e) = true) ∨ (x.1 ≠ e_id e ∧ x ∈ keys_of s)) ∧
  touched (ss_id s) [l] w w' ∧ (ss_id s ∈ e_subIds (ent w' l) ↔ passes s (e_data e) = true) ∧
  (c = false → w' = w ∧ s' = s ∧ passes s (e_data e) = false).
Proof.
  intros Ht Hst Hb e. pose proof (bo_live _ _ _ Hb l ltac:(left)) as Hl.
  pose proof (bo_keys _ _ _ Hb l) as Hk. specialize (λ d, Hk d ltac:(left)).
  pose proof (bo_subs _ _ _ Hb l ltac:(left)) as Hsub. pose proof (bo_order _ _ _ Hb l ltac:(left)) as Ho.
  unfold onEntryChange. rewrite Hst. cbn [negb]. fold e in Hk, Hsub, Ho |- *. fold (passes s (e_data e)).
  assert (IsInSub (ent w <$> c_Get w (e_id e)) (ss_id s) = true ↔ ∃ d, (e_id e, d) ∈ keys_of s) as Hcur.
  { destruct (c_Get w (e_id e)) as [lc|] eqn:Ec; cbn [fmap option_fmap option_map].
    - rewrite IsInSub_spec. setoid_rewrite Hk. split; [intros ?; by eexists _, lc|]. by intros (d & ? & [= <-] & _ & ?).
    - split; [done|]. intros [d (lc & ? & _)%Hk]. done. }
  assert (touched (ss_id s) [l] w (upd w l (λ e0, SetSub e0 (ss_id s) false false)) ∧
          ss_id s ∈ e_subIds (ent (upd w l (λ e0, SetSub e0 (ss_id s) false false)) l)) as [Hset Hset'].
  { split; [apply upd_touched; [done|]; intros; apply SetSub_same|].
    rewrite ent_upd, bool_decide_eq_true_2 by done. apply SetSub_subIds. by left. }
  destruct (IsInSub _ _) eqn:Ein.
  - assert (∃ d, (e_id e, d) ∈ keys_of s ∧
      sk_Remove (ss_Compare (ss_order s)) (ss_skl s) (e_id e, d) =
      match ent w <$> c_Get w (e_id e) with
      | Some c => sk_Remove (ss_Compare (ss_order s)) (ss_skl s) (e_id c, e_data c)
      | None => ss_skl s
      end) as (d & Hd & <-).
    { destruct (proj1 Hcur eq_refl) as [d Hd]. pose proof Hd as (lc & Hlc & Ed & _)%Hk.
      exists d. split; [done|]. rewrite Hlc. simpl. rewrite (bo_cache _ _ _ Hb _ _ Hlc), Ed. done. }
    destruct (remove_tracked s (e_id e) d Ht Hd) as (Ht1 & Hr1 & Hk1).
    set (s1 := with_skl s (sk_Remove (ss_Compare (ss_order s)) (ss_skl s) (e_id e, d))) in *.
    destruct (passes s (e_data e)).
    + destruct (set_tracked s1 (e_id e, e_data e) Ht1 Ho) as (Ht2 & Hr2 & Hk2).
      { intros x [? _]%Hk1. done. }
      split_and!; try done.
      * split; [done|]. intros el Hel. rewrite (rl_elems _ _ _ Hr1) by done. by apply (rl_elems _ _ _ Hr2).
      * intros x. etrans; [apply Hk2|]. rewrite Hk1. tauto.
    + split_and!; try done.
      * intros x. rewrite Hk1. naive_solver.
      * apply upd_touched; [done|]. intros. apply e_RemoveSubId_same.
      * rewrite ent_upd, bool_decide_eq_true_2 by done. rewrite e_RemoveSubId_subIds, list_elem_of_filter. naive_solver.
  - assert (∀ x, x ∈ keys_of s → x.1 ≠ e_id e) as Hno.
    { intros [i d] Hx E. simpl in E. subst i. assert (false = true); [|done]. apply Hcur. eauto. }
    destruct (passes s (e_data e)).
    + destruct (set_tracked s (e_id e, e_data e) Ht Ho) as (Ht2 & Hr2 & Hk2); [done|].
      split_and!; try done. intros x. etrans; [apply Hk2|]. naive_solver.
    + split_and!; try done.
      * split; [by destruct s|done].
      * intros x. naive_solver.
      * split; [|done]. intros [d Hd]%Hsub. exfalso. by apply (Hno _ Hd).
Qed.

(** ** The changed entries of a batch *)

Lemma with_skl_skl s l1 l2 : with_skl (with_skl s l1) l2 = with_skl s l2.
Proof. done. Qed.

Lemma batch_ok_step w s l ls w' s' :
  batch_ok w s (l :: ls) → relisted (e_id (ent w l)) s s' → touched (ss_id s) [l] w w' →
  (∀ x, x.1 ≠ e_id (ent w l) → x ∈ keys_of s' ↔ x ∈ keys_of s) →
  batch_ok w' s' ls ∧ ids_of w' ls = ids_of w ls ∧ (∀ l', l' ∈ ls → ent w' l' = ent w l').
Proof.
  intros [Hl Hi Ho Hf Hc Hk Hs] [Er _] [Ec Hl' _ Hrest] Hx.
  rewrite ids_of_cons in Hi. apply NoDup_cons in Hi as [Hn Hi].
  assert (∀ l', l' ∈ ls → ent w' l' = ent w l') as He.
  { intros l' Hin. apply Hrest. intros ->%list_elem_of_singleton. by apply Hn, ids_of_elem. }
  assert (∀ id lc, c_Get w id = Some lc → ent w' lc = ent w lc) as Hce.
  { intros id lc Hlc. apply Hrest. intros ->%list_elem_of_singleton. apply (Hf _ _ Hlc). left. }
  assert (ids_of w' ls = ids_of w ls) as Eids.
  { apply ids_of_ext. intros l' Hin. by rewrite He. }
  assert (∀ l', l' ∈ ls → e_id (ent w l') ≠ e_id (ent w l)) as Hne.
  { intros l' Hin E. apply Hn. rewrite <- E. by apply ids_of_elem. }
  assert (ss_id s' = ss_id s) as Eid by (by rewrite Er).
  assert (∀ id, c_Get w' id = c_Get w id) as EC by (intros; unfold c_Get; by rewrite Ec).
  split_and!; [|done|done]. split.
  - intros l' ?. apply Hl', Hl. by right.
  - by rewrite Eids.
  - intros l' ?. rewrite He by done. apply Ho. by right.
  - intros id lc. rewrite EC. intros Hlc Hin. apply (Hf id lc Hlc). by right.
  - intros id lc. rewrite EC. intros Hlc. rewrite (Hce id) by done. by apply Hc.
  - intros l' d Hin. rewrite He by done. rewrite Hx by (by apply Hne). rewrite Hk by (by right). rewrite Eid.
    split; intros (lc & Hlc & ? & ?); exists lc; rewrite EC in *; rewrite (Hce _ _ Hlc) in *; done.
  - intros l' Hin. rewrite He, Eid by done. intros Hs'. destruct (Hs l') as [d Hd]; [by right|done|].
    exists d. rewrite Hx; [done|]. by apply Hne.
Qed.

Lemma entry_changes_spec ls : ∀ c0 w s,
  tracked s → ss_started s = true → batch_ok w s ls →
  let '(c, w', s') :=
    foldl (λ '(changed, w, s) l, let '(c, w, s) := onEntryChange w s l in (c || changed, w, s)) (c0, w, s) ls in
  tracked s' ∧ s' = with_skl s (ss_skl s') ∧
  (∀ el, (sk_Key el).1 ∉ ids_of w ls → el ∈ sk_elems (ss_skl s) ↔ el ∈ sk_elems (ss_skl s')) ∧
  (∀ x, x ∈ keys_of s' ↔ (∃ l, l ∈ ls ∧ x = (e_id (ent w l), e_data (ent w l)) ∧ passes s x.2 = true) ∨
                          (x.1 ∉ ids_of w ls ∧ x ∈ keys_of s)) ∧
  touched (ss_id s) ls w w' ∧
  (∀ l, l ∈ ls → ss_id s ∈ e_subIds (ent w' l) ↔ passes s (e_data (ent w l)) = true) ∧
  (c = false → c0 = false ∧ w' = w ∧ s' = s ∧ ∀ l, l ∈ ls → passes s (e_data (ent w l)) = false).
Proof.
  induction ls as [|l ls IH]; intros c0 w s Ht Hst Hb; cbn [foldl].
  { split_and!; try done; [by destruct s|set_solver|set_solver|]. intros ->. split_and!; [done..|set_solver]. }
  pose proof (onEntryChange_spec w s l ls Ht Hst Hb) as H1. destruct (onEntryChange w s l) as [[c w1] s1].
  destruct H1 as (Ht1 & Hr1 & Hk1 & Hto1 & Hin1 & Hc1).
  destruct (batch_ok_step w s l ls w1 s1 Hb Hr1 Hto1) as (Hb1 & Eids & He1).
  { intros x Hx. rewrite Hk1. naive_solver. }
  pose proof (rl_same _ _ _ Hr1) as Es1. 
  specialize (IH (c || c0) w1 s1 Ht1 ltac:(rewrite Es1; done) Hb1).
  destruct (foldl _ (c || c0, w1, s1) ls) as [[c2 w2] s2]. destruct IH as (Ht2 & Es2 & Hel2 & Hk2 & Hto2 & Hin2 & Hc2).
  assert (ss_id s1 = ss_id s) as Eid by by rewrite Es1.
  assert (∀ d, passes s1 d = passes s d) as Ep by (intros; by rewrite Es1).
  pose proof (bo_ids _ _ _ Hb) as Hnd. rewrite ids_of_cons in Hnd. apply NoDup_cons in Hnd as [Hnl _].
  rewrite Eids in *.
  split_and!; try done.
  - rewrite Es2, Es1. done.
  - intros el. rewrite ids_of_cons, not_elem_of_cons. intros [H1 H2].
    rewrite (rl_elems _ _ _ Hr1) by done. by apply Hel2.
  - intros x. rewrite Hk2, Hk1, Ep. rewrite ids_of_cons, not_elem_of_cons.
    setoid_rewrite elem_of_cons. split.
    + intros [(l' & Hl' & -> & Hp)|(Hn & [[-> Hp]|[? ?]])]; [left|left; exists l; split_and!; [by left|done|done]|tauto].
      exists l'. rewrite He1 in * by done. tauto.
    + intros [(l' & [->|Hl'] & -> & Hp)|[[? ?] ?]]; [right; split; [done|by left]|left|tauto].
      exists l'. rewrite He1 by done. done.
  - eapply touched_trans; [| |exact Hto1|rewrite <- Eid; exact Hto2]; set_solver.
  - intros l' [->|Hl']%elem_of_cons.
    + rewrite (to_rest _ _ _ _ Hto2); [done|]. intros Hin. by apply Hnl, ids_of_elem.
    + rewrite <- Eid, Hin2, Ep, He1 by done. done.
  - intros Ec2. destruct (Hc2 Ec2) as ([-> ->]%orb_false_iff & -> & -> & Hp). destruct (Hc1 eq_refl) as (-> & -> & Hp1).
    split_and!; [done..|]. intros l' [->|Hl']%elem_of_cons; [done|auto].
Qed.

(** ** Copies of cached entries *)

(** [w'] has the new entries [news]; the others are as before. *)
Record grown w w' (news : list loc) : Prop := {
  gr_cache : w_cache w' = w_cache w;
  gr_live : ∀ l, live w l → live w' l;
  gr_old : ∀ l, live w l → ent w' l = ent w l;
  gr_fresh : ∀ l, l ∈ news → ¬ live w l ∧ live w' l;
  gr_copy : ∀ l, l ∈ news → ∃ lc, c_Get w (e_id (ent w' l)) = Some lc ∧ ent w' l = ent w lc;
}.

Lemma e_Copy_eq e : e_Copy e = e.
Proof. by destruct e. Qed.

Lemma alloc_spec w e l w' :
  alloc w e = (l, w') →
  ¬ live w l ∧ live w' l ∧ ent w' l = e ∧ w_cache w' = w_cache w ∧
  ∀ l', live w l' → live w' l' ∧ ent w' l' = ent w l'.
Proof.
  unfold alloc. intros [= <- <-]. set (f := fresh (dom (w_heap w))).
  assert (¬ live w f) as Hf. { unfold live. rewrite <- elem_of_dom. apply is_fresh. }
  split_and!; [done|by eexists; apply lookup_insert_eq|by unfold ent; simpl; rewrite lookup_insert_eq|done|].
  intros l' Hl'. assert (f ≠ l') as Hne by (intros ->; done). split.
  - unfold live. simpl. by rewrite lookup_insert_ne.
  - unfold ent. simpl. by rewrite lookup_insert_ne.
Qed.

Lemma getEntry_Some w ctx id l : getEntry w ctx id = Some l → l ∈ cx_entries ctx ∧ e_id (ent w l) = id.
Proof.
  unfold getEntry. intros [Hin Hb]%find_some. apply bool_decide_eq_true in Hb. by rewrite list_elem_of_In.
Qed.
Lemma getEntry_None w ctx id : getEntry w ctx id = None → id ∉ ids_of w (cx_entries ctx).
Proof.
  unfold getEntry, ids_of. intros Hn (l & -> & Hl)%list_elem_of_fmap. rewrite list_elem_of_In in Hl.
  pose proof (find_none _ _ Hn l Hl) as Hb. by apply bool_decide_eq_false in Hb.
Qed.

Lemma dep_entries_spec ids : ∀ v acc,
  NoDup (ids_of (en_w v) (cx_entries (en_ctx v))) →
  (∀ l, l ∈ cx_entries (en_ctx v) → live (en_w v) l) →
  (∀ id lc, c_Get (en_w v) id = Some lc → live (en_w v) lc ∧ e_id (ent (en_w v) lc) = id) →
  (∀ z, z ∈ ids → z ∈ ids_of (en_w v) (cx_entries (en_ctx v)) ∨ is_Some (c_Get (en_w v) z)) →
  ∃ w' news acc',
    foldl dep_entry (v, acc, []) ids = (with_ctx (with_w v w') (add_entries (en_ctx v) news), acc', []) ∧
    grown (en_w v) w' news ∧
    NoDup (ids_of w' (cx_entries (en_ctx v) ++ news)) ∧
    (∀ z, z ∈ ids → z ∈ ids_of w' (cx_entries (en_ctx v) ++ news)).
Proof.
  induction ids as [|z ids IH]; intros v acc Hn Hl Hc Hz; cbn [foldl].
  { exists (en_w v), [], acc. split_and!.
    - destruct v as [w d [o r c p n e g k]]. unfold with_ctx, with_w, add_entries. simpl. by rewrite app_nil_r.
    - split; set_solver.
    - by rewrite app_nil_r.
    - set_solver. }
  unfold dep_entry at 2. destruct (getEntry (en_w v) (en_ctx v) z) as [l|] eqn:Eg.
  { destruct (IH v (acc ++ [l])) as (w' & news & acc' & E & Hg & Hn' & Hz'); [done..|intros; apply Hz; by right|].
    exists w', news, acc'. split_and!; [done..|]. intros z' [->|?]%elem_of_cons; [|auto].
    apply getEntry_Some in Eg as [Hin <-]. unfold ids_of. apply list_elem_of_fmap. exists l.
    rewrite (gr_old _ _ _ Hg) by auto. split; [done|set_solver]. }
  apply getEntry_None in Eg. destruct (Hz z) as [?|[lc Hlc]]; [left|done|]. rewrite Hlc.
  destruct (alloc (en_w v) (e_Copy (ent (en_w v) lc))) as [l w1] eqn:Ea.
  apply alloc_spec in Ea as (Hnl & Hll & He & Ec & Hold). rewrite e_Copy_eq in He.
  destruct (Hc _ _ Hlc) as [Hllc Eidc].
  set (v1 := with_ctx (with_w v w1) (add_entries (en_ctx v) [l])).
  assert (ids_of w1 (cx_entries (en_ctx v)) = ids_of (en_w v) (cx_entries (en_ctx v))) as Eids.
  { apply ids_of_ext. intros l' Hin. destruct (Hold l') as [_ ->]; auto. }
  assert (ids_of w1 (cx_entries (en_ctx v1)) = ids_of (en_w v) (cx_entries (en_ctx v)) ++ [z]) as Eids1.
  { simpl. unfold ids_of at 1. rewrite fmap_app. fold (ids_of w1 (cx_entries (en_ctx v))). rewrite Eids. simpl. by rewrite He, Eidc. }
  destruct (IH v1 (acc ++ [l])) as (w' & news & acc' & E & Hg & Hn' & Hz').
  - change (en_w v1) with w1. rewrite Eids1. apply NoDup_app. split_and!; [done| |apply NoDup_singleton]. intros x ? ->%list_elem_of_singleton. done.
  - intros l' [?| ->%list_elem_of_singleton]%elem_of_app; [|done]. apply Hold. auto.
  - simpl. unfold c_Get. rewrite Ec. intros id lc' Hlc'. destruct (Hc id lc' Hlc') as [? ?].
    destruct (Hold lc') as [? ->]; auto.
  - intros z' Hz'. change (en_w v1) with w1. rewrite Eids1. unfold c_Get. rewrite Ec.
    destruct (Hz z') as [?|?]; [by right|set_solver|by right].
  - exists w', (l :: news), acc'. destruct Hg as [g1 g2 g3 g4 g5]. simpl in g1, g2, g3, g4, g5.
    assert (∀ x, cx_entries (en_ctx v) ++ l :: x = cx_entries (en_ctx v1) ++ x) as Eapp.
    { intros x. simpl. by rewrite <- app_assoc. }
    split_and!.
    + rewrite E. unfold v1, with_ctx, with_w, add_entries. simpl. by rewrite <- app_assoc.
    + split.
      * congruence.
      * intros l' ?. apply g2, Hold. done.
      * intros l' ?. rewrite g3; apply Hold; done.
      * intros l' [->|Hin]%elem_of_cons; [auto|]. destruct (g4 l' Hin) as [Hl1 ?]. split; [|done]. intros ?. apply Hl1, Hold. done.
      * intros l' [->|Hin]%elem_of_cons.
        -- exists lc. rewrite g3, He by done. by rewrite Eidc.
        -- destruct (g5 l' Hin) as (lc' & Hlc' & E'). exists lc'. unfold c_Get in *. rewrite <- Ec. split; [done|].
           rewrite E'. rewrite Ec in Hlc'. destruct (Hc _ _ Hlc') as [? _]. by apply Hold.
    + by rewrite Eapp.
    + intros z' [->|?]%elem_of_cons; rewrite Eapp; [|auto].
      unfold ids_of. rewrite fmap_app, elem_of_app. left. apply list_elem_of_fmap. exists l.
      rewrite g3, He by done. split; [done|]. simpl. set_solver.
Qed.

(** ** Steps that leave the membership in a subscription alone *)

Record steady (sid : string) w w' : Prop := {
  sd_cache : w_cache w' = w_cache w;
  sd_live : ∀ l, live w l → live w' l;
  sd_id : ∀ l, live w l → e_id (ent w' l) = e_id (ent w l);
  sd_data : ∀ l, live w l → e_data (ent w' l) = e_data (ent w l);
  sd_subs : ∀ l, live w l → sid ∈ e_subIds (ent w' l) ↔ sid ∈ e_subIds (ent w l);
}.
Lemma steady_refl sid w : steady sid w w.
Proof. by split. Qed.
Lemma steady_trans sid w1 w2 w3 : steady sid w1 w2 → steady sid w2 w3 → steady sid w1 w3.
Proof.
  intros [] []. split; [congruence|auto|..]; intros l Hl.
  - rewrite sd_id1, sd_id0; auto.
  - rewrite sd_data1, sd_data0; auto.
  - rewrite sd_subs1, sd_subs0; auto.
Qed.
Lemma SetSub_id e x a d : e_id (SetSub e x a d) = e_id e ∧ e_data (SetSub e x a d) = e_data e.
Proof. unfold SetSub. by destruct (_ =? _)%Z. Qed.
Lemma SetSub_steady sid w l x a d :
  live w l → (x = sid → sid ∈ e_subIds (ent w l)) → steady sid w (upd w l (λ e, SetSub e x a d)).
Proof.
  intros Hl Hx. split; [done|intros; by apply live_upd|..]; intros l' Hl'; rewrite ent_upd by done; case_bool_decide; subst;
    try done; try apply SetSub_id.
  rewrite SetSub_subIds. naive_solver.
Qed.

Lemma steady_fold {A} sid (f : world → A → world) (P : world → A → Prop) (xs : list A) w :
  (∀ w w' x, steady sid w w' → P w x → P w' x) → (∀ w x, P w x → steady sid w (f w x)) →
  (∀ x, x ∈ xs → P w x) → steady sid w (foldl f w xs).
Proof.
  intros Hst Hf. revert w. induction xs as [|x xs IH]; intros w Hx; [apply steady_refl|]. simpl.
  assert (steady sid w (f w x)) as H1 by (apply Hf, Hx; left).
  eapply steady_trans; [exact H1|]. apply IH. intros y Hy. eapply Hst; [exact H1|]. apply Hx. by right.
Qed.

Lemma deactivate_steady x sid w ids :
  (∀ id lc, c_Get w id = Some lc → live w lc) →
  (∀ z lc, x = sid → z ∈ ids → c_Get w z = Some lc → sid ∈ e_subIds (ent w lc)) → steady x w (foldl (deactivate sid) w ids).
Proof.
  intros Hl Hs. apply steady_fold with (P := λ w z, ∀ lc, c_Get w z = Some lc → live w lc ∧ (x = sid → sid ∈ e_subIds (ent w lc))).
  - intros w0 w1 z [E Hl1 _ _ Hsub] HP lc. unfold c_Get. rewrite E. intros [? Hx]%HP. split; [auto|]. intros ->. apply Hsub; auto.
  - intros w0 z HP. unfold deactivate. destruct (c_Get w0 z) as [lc|]; [|apply steady_refl].
    destruct (HP lc eq_refl) as [? Hx]. apply SetSub_steady; [done|]. intros ->. auto.
  - intros z Hz lc Hlc. split; [eauto|]. intros ->. eauto.
Qed.

(** The batch's entries that are shown, as the loop over them reports them. *)
Definition shown_changes s (after : gset string) w (ls : list loc) : list opChange :=
  (λ id, {| oc_id := id; oc_subId := ss_id s; oc_keys := ss_keys s |}) <$> filter (λ id, id ∈ after) (ids_of w ls).

Lemma tell_changes_spec s (after : gset string) ls : ∀ v b,
  (∀ l, l ∈ ls → live (en_w v) l) →
  (∀ l, l ∈ ls → e_id (ent (en_w v) l) ∈ after → ss_id s ∈ e_subIds (ent (en_w v) l)) →
  ∃ w', (foldl (tell_change s after) (v, b) ls).1 =
          with_ctx (with_w v w') (add_change (en_ctx v) (shown_changes s after (en_w v) ls)) ∧
        ∀ x, steady x (en_w v) w'.
Proof.
  induction ls as [|l ls IH]; intros v b Hl Hs; cbn [foldl].
  { exists (en_w v). split; [|intros; apply steady_refl]. destruct v as [w d [o r c p n e g k]].
    unfold with_ctx, with_w, add_change. simpl. by rewrite app_nil_r. }
  unfold tell_change at 2, shown_changes. rewrite ids_of_cons, filter_cons. case_bool_decide as Hin.
  - rewrite decide_True by done. rewrite fmap_cons.
    set (v1 := with_ctx _ _). assert (∀ x, steady x (en_w v) (en_w v1)) as Hstx.
    { intros x. apply SetSub_steady; [apply Hl; left|intros <-; apply Hs; [left|done]]. }
    pose proof (Hstx (ss_id s)) as Hst.
    destruct (IH v1 true) as (w' & E & Hst').
    + intros l' ?. apply (sd_live _ _ _ Hst), Hl. by right.
    + intros l' ?. rewrite (sd_id _ _ _ Hst) by (apply Hl; by right). intros ?.
      apply (sd_subs _ _ _ Hst); [apply Hl; by right|]. apply Hs; [by right|done].
    + exists w'. split; [|intros x; by eapply steady_trans]. rewrite E. unfold shown_changes.
      assert (ids_of (en_w v1) ls = ids_of (en_w v) ls) as ->.
      { apply ids_of_ext. intros l' Hin'. apply (sd_id _ _ _ Hst), Hl. by right. }
      unfold v1, with_ctx, with_w, add_change. simpl. by rewrite <- app_assoc.
  - rewrite decide_False by done. apply IH; intros l' ?; [apply Hl|apply Hs]; by right.
Qed.

(** ** The window after a batch *)

Definition window s : list string := (getActiveEntries s).*1.

Lemma window_eq s rest :
  ss_beforeEl s = None → behind_anchor (sk_elems (ss_skl s)) (ss_afterEl s) rest →
  window s = (sk_Key <$> take_limit (ss_limit s) rest).*1 ∧ (iterateActive s).2 = false.
Proof. intros Hb Ha. unfold window, getActiveEntries. by rewrite (iterateActive_eq s rest). Qed.

Lemma take_limit_sublist {A} n (l : list A) : take_limit n l `sublist_of` l.
Proof. unfold take_limit. destruct (0 <? n)%Z; [apply sublist_take|done]. Qed.

Lemma rest_sublist (els : list elem) anchor rest : behind_anchor els anchor rest → rest `sublist_of` els.
Proof.
  destruct anchor as [el|]; simpl; [|by intros ->]. intros [l1 ->]. apply sublist_inserts_l. by constructor.
Qed.

Lemma window_keys s rest :
  ss_beforeEl s = None → behind_anchor (sk_elems (ss_skl s)) (ss_afterEl s) rest →
  window s `sublist_of` (keys_of s).*1.
Proof.
  intros Hb Ha. destruct (window_eq s rest Hb Ha) as [-> _]. unfold keys_of.
  apply fmap_sublist, fmap_sublist. etrans; [apply take_limit_sublist|by eapply rest_sublist].
Qed.

Lemma fill_all ids : ∀ ld, foldl fillAfter ld ids = with_after ld (ld_afterIds ld ++ ids).
Proof.
  induction ids as [|id ids IH]; intros ld; simpl; [destruct ld; unfold with_after; simpl; by rewrite app_nil_r|].
  rewrite IH. unfold with_after. simpl. by rewrite <- app_assoc.
Qed.

(** The list of shown ids, ready for the next comparison. *)
Record diff_ready (A : list string) (ld : listDiff) : Prop := {
  dr_before : ld_beforeIds ld = A;
  dr_beforeM : ∀ x, x ∈ ld_beforeIdsM ld ↔ x ∈ A;
  dr_after : ld_afterIds ld = [];
  dr_afterM : ld_afterIdsM ld = ∅;
}.

Lemma onSklChange_spec v s ld A rest :
  let w := en_w v in
  let ls := cx_entries (en_ctx v) in
  ss_diff s = Some ld → diff_ready A ld → NoDup A → ss_beforeEl s = None → ss_depSub s = None →
  behind_anchor (sk_elems (ss_skl s)) (ss_afterEl s) rest → NoDup (window s) → "" ∉ window s →
  NoDup (ids_of w ls) → (∀ l, l ∈ ls → live w l) →
  (∀ id lc, c_Get w id = Some lc → live w lc ∧ e_id (ent w lc) = id) →
  (∀ z, z ∈ window s → z ∈ ids_of w ls ∨ ∃ lc, c_Get w z = Some lc ∧ ss_id s ∈ e_subIds (ent w lc)) →
  (∀ l, l ∈ ls → e_id (ent w l) ∈ window s → ss_id s ∈ e_subIds (ent w l)) →
  (∀ z lc, z ∈ A → c_Get w z = Some lc → ss_id s ∈ e_subIds (ent w lc)) →
  ∃ v' ld' ps rs was added removed w1 news after,
    onSklChange v s = Some (v', with_shown s (Some ld') (counter_of s)) ∧
    diff_ready (window s) ld' ∧
    list_told A (window s) ps rs was added removed ∧
    (∀ p, p ∈ ps → op_subId p = ss_id s) ∧ (∀ r, r ∈ rs → or_subId r = ss_id s) ∧
    grown w w1 news ∧ (∀ x, steady x w1 (en_w v')) ∧ NoDup (ids_of w1 (ls ++ news)) ∧
    (∀ z, z ∈ after ↔ z ∈ window s) ∧
    en_ds v' = en_ds v ∧
    en_ctx v' =
      add_change (add_entries (add_remove (add_position
        (if bool_decide (counter_of s = ss_compCountBefore s) then en_ctx v else add_counter (en_ctx v) [counter_of s]) ps) rs) news)
        (shown_changes s after w1 (ls ++ news)).
Proof.
  intros w ls Ed [E1 E2 E3 E4] HnA Hb Hdep Ha HnW HeW Hnls Hlive Hc HW Hsub HA.
  unfold onSklChange. rewrite Ed.
  pose proof (window_eq s rest Hb Ha) as [EW Er]. unfold window in EW. unfold getActiveEntries in EW.
  pose proof (iterateActive_eq s rest Hb Ha) as Ei. rewrite Ei. cbv zeta.
  rewrite fill_all, E3. cbn [app].
  assert ((sk_Key <$> take_limit (ss_limit s) rest).*1 = window s) as EW'.
  { unfold window, getActiveEntries. by rewrite Ei. }
  rewrite EW'. set (ctx0 := if bool_decide (counter_of s = _) then _ else _).
  destruct (ld_diff_told ctx0 (with_after ld (window s)) (ss_id s) (ss_keys s))
    as (ps & rs & was & added & removed & ld1 & Ediff & Hps & Hrs & Eb & Ea & HaM & Htold).
  { simpl. by rewrite E1. }
  { done. }
  { done. }
  { intros x. simpl. by rewrite E1, E2. }
  { done. }
  rewrite Ediff. cbn [ld_beforeIds ld_afterIds with_after] in *. rewrite E1 in *.
  assert (cx_entries ctx0 = ls) as Ectx0 by (unfold ctx0; by case_bool_decide).
  set (ctx1 := add_remove (add_position ctx0 ps) rs).
  assert (cx_entries ctx1 = ls) as Ectx1 by done || (simpl; done).
  destruct (dep_entries_spec added (with_ctx v ctx1) []) as (w1 & news & acc & Edep & Hg & Hn1 & Hin1);
    [change (cx_entries (en_ctx (with_ctx v ctx1))) with (cx_entries ctx0); rewrite ?Ectx0; done..|idtac|].
  { change (cx_entries (en_ctx (with_ctx v ctx1))) with (cx_entries ctx0). rewrite Ectx0.
    intros z [Hz _]%(lt_added _ _ _ _ _ _ _ Htold). destruct (HW z Hz) as [?|(lc & ? & _)]; [by left|right]. by eexists. }
  unfold depEntriesByEntries. rewrite Edep. rewrite bool_decide_eq_true_2 by done. cbv zeta. simpl in Hg, Hn1. rewrite Ectx0 in Hn1.
  change (en_ctx (with_ctx v ctx1)) with ctx1.
  set (v1 := with_ctx (with_w (with_ctx v ctx1) w1) (add_entries ctx1 news)).
  assert (cx_entries (en_ctx v1) = ls ++ news) as Els by (simpl; by rewrite Ectx0).
  assert (∀ l, l ∈ ls ++ news → live w1 l) as Hlive1.
  { intros l [?|?]%elem_of_app; [apply (gr_live _ _ _ Hg); auto|by apply (gr_fresh _ _ _ Hg)]. }
  destruct (tell_changes_spec s (ld_afterIdsM ld1) (ls ++ news) v1 false) as (w2 & Etell & Hst); [done|..].
  { intros l Hl. change (en_w v1) with w1. rewrite HaM. apply elem_of_app in Hl as [Hl|Hl].
    - rewrite (gr_old _ _ _ Hg) by auto. auto.
    - destruct (gr_copy _ _ _ Hg l Hl) as (lc & Hlc & Ee). rewrite Ee. intros Hw.
      destruct (HW _ Hw) as [Hi|(lc' & Hlc' & Hin)].
      + exfalso. unfold ids_of in Hn1. rewrite fmap_app in Hn1. apply NoDup_app in Hn1 as (_ & Hn1 & _).
        apply (Hn1 (e_id (ent w lc))).
        * unfold ids_of in Hi. apply list_elem_of_fmap in Hi as (l' & E' & Hl'). apply list_elem_of_fmap.
          exists l'. rewrite (gr_old _ _ _ Hg) by auto. done.
        * apply list_elem_of_fmap. exists l. by rewrite Ee.
      + destruct (Hc _ _ Hlc) as [_ Eid]. rewrite Ee in Hlc. simpl in Hlc.
        assert (lc' = lc) as <- by (apply (inj Some); etrans; [symmetry; exact Hlc'|exact Hlc]). exact Hin. }
  rewrite Els. destruct (foldl (tell_change s (ld_afterIdsM ld1)) (v1, false) (ls ++ news)) as [v2 has]. simpl in Etell. subst v2.
  cbn [ss_depSub with_shown]. rewrite Hdep.
  eexists _, _, ps, rs, was, added, removed, w1, news, (ld_afterIdsM ld1). split_and!; [reflexivity|..]; try done.
  - intros p Hp. by destruct (Hps p Hp).
  - intros x. eapply steady_trans; [apply Hst|]. pose proof (Hst (ss_id s)) as Hst'. clear Hst. rename Hst' into Hst. apply deactivate_steady.
    + intros id lc. unfold c_Get. simpl. rewrite (sd_cache _ _ _ Hst). simpl. rewrite (gr_cache _ _ _ Hg). intros [? _]%Hc.
      apply (sd_live _ _ _ Hst), (gr_live _ _ _ Hg). done.
    + intros z lc _ [Hz _]%(lt_removed _ _ _ _ _ _ _ Htold). unfold c_Get. simpl. rewrite (sd_cache _ _ _ Hst). simpl.
      rewrite (gr_cache _ _ _ Hg). intros Hlc. destruct (Hc _ _ Hlc) as [? _].
      rewrite (sd_subs _ _ _ Hst); [|by apply (gr_live _ _ _ Hg)]. simpl. rewrite (gr_old _ _ _ Hg) by done. by apply (HA z).
Qed.
End tracking.
