(* ===== verification/SubBatch.v ===== *)
(** * A batch of changes, from the entries to the cache

    What one sorted subscription without dependent objects guarantees when a batch
    of changed objects goes through [onChange] and [apply], and from there for every
    sequence of batches after [init]. *)

From S2P Require Import Prelude Slice SliceDiff GoFloat Values Details Filter SubCache SubContext SubDep SubSorted SubTracking.

(** ** Applying the context *)

Lemma collect_subs buf id subId keys info x :
  info ∈ collect buf id subId keys → x ∈ ki_subIds info →
  (ki_id info = id ∧ x = subId) ∨ ∃ info', info' ∈ buf ∧ ki_id info' = ki_id info ∧ x ∈ ki_subIds info'.
Proof.
  induction buf as [|kb buf IH]; simpl.
  - intros ->%list_elem_of_singleton. simpl. intros ->%list_elem_of_singleton. by left.
  - case_bool_decide as E.
    + intros [->|Hin]%elem_of_cons Hx; [|right; exists info; set_solver]. simpl in *.
      destruct (_ =? _)%Z; [|right; exists kb; set_solver].
      rewrite go_sort_elem_of, elem_of_app, list_elem_of_singleton in Hx. destruct Hx as [?| ->]; [|by left].
      right. exists kb. set_solver.
    + intros [->|Hin]%elem_of_cons Hx; [right; exists kb; set_solver|].
      destruct (IH Hin Hx) as [?|(i' & ? & ? & ?)]; [by left|]. right. exists i'. set_solver.
Qed.

Lemma collected_subs chs : ∀ ctx info x,
  info ∈ cx_keysBuf (foldl (λ ctx ch, collectKeys ctx (oc_id ch) (oc_subId ch) (oc_keys ch)) ctx chs) → x ∈ ki_subIds info →
  (∃ ch, ch ∈ chs ∧ oc_id ch = ki_id info ∧ oc_subId ch = x) ∨
  ∃ info', info' ∈ cx_keysBuf ctx ∧ ki_id info' = ki_id info ∧ x ∈ ki_subIds info'.
Proof.
  induction chs as [|ch chs IH]; intros ctx info x Hi Hx; simpl in Hi; [right; by exists info|].
  destruct (IH _ _ _ Hi Hx) as [(c & ? & ? & ?)|(i' & Hi' & E & Hx')]; [left; exists c; set_solver|].
  simpl in Hi'. destruct (collect_subs _ _ _ _ _ _ Hi' Hx') as [[? ->]|(i2 & ? & ? & ?)].
  - left. exists ch. split_and!; [left|congruence|done].
  - right. exists i2. split_and!; [done|congruence|done].
Qed.

(** What every step keeps, the loop keeps. *)
Lemma fold_keeps {A B} (π : opCtx → B) (f : opCtx → A → opCtx) xs : ∀ ctx,
  (∀ c x, π (f c x) = π c) → π (foldl f ctx xs) = π ctx.
Proof. induction xs as [|x xs IH]; intros ctx Hf; simpl; [done|]. rewrite IH by done. apply Hf. Qed.

Lemma addEvent_entries ctx sub ev : cx_entries (addEvent ctx sub ev) = cx_entries ctx.
Proof. unfold addEvent. by destruct (cx_outputs ctx !! sub). Qed.

Section apply.
Context `{Hint : !LoIntersect}.
Implicit Types (w : world) (ctx : opCtx).

(** [sid] is only marked on entries that have it. *)
Lemma detailsEvents_steady sid w ctx :
  (∀ l, l ∈ cx_entries ctx → live w l) →
  (∀ info l, info ∈ cx_keysBuf ctx → sid ∈ ki_subIds info → l ∈ cx_entries ctx → e_id (ent w l) = ki_id info →
     sid ∈ e_subIds (ent w l)) →
  steady sid w (detailsEvents w ctx).1.
Proof.
  intros Hl Hi. unfold detailsEvents.
  enough (∀ infos w ms, infos ⊆ cx_keysBuf ctx →
    (∀ l, l ∈ cx_entries ctx → live w l) →
    (∀ info l, info ∈ cx_keysBuf ctx → sid ∈ ki_subIds info → l ∈ cx_entries ctx → e_id (ent w l) = ki_id info →
     sid ∈ e_subIds (ent w l)) → steady sid w (foldl (detailsEvent ctx) (w, ms) infos).1) as Hgen.
  { specialize (Hgen (cx_keysBuf ctx) w ([], []) ltac:(done) Hl Hi). by destruct (foldl _ _ _) as [w' [msgs arrs]]. }
  clear w Hl Hi. induction infos as [|info infos IH]; intros w ms Hsub Hl Hi; [apply steady_refl|]. cbn [foldl].
  destruct (detailsEvent ctx (w, ms) info) as [w1 ms1] eqn:E.
  assert (steady sid w w1) as H1.
  { unfold detailsEvent in E. destruct (getEntry w ctx (ki_id info)) as [l|] eqn:Eg; [|injection E as <- _; apply steady_refl].
    injection E as <- _. apply getEntry_Some in Eg as [Hin Eid].
    apply steady_fold with (P := λ w x, live w l ∧ (x = sid → sid ∈ e_subIds (ent w l))).
    - intros w0 w2 x Hst [? ?]. split; [by apply (sd_live _ _ _ Hst)|]. intros ->. apply (sd_subs _ _ _ Hst); auto.
    - intros w0 x [? ?]. by apply SetSub_steady.
    - intros x Hx. split; [auto|]. intros ->. apply (Hi info l); [set_solver|done..]. }
  eapply steady_trans; [exact H1|]. apply IH; [set_solver|..].
  - intros l Hin. apply (sd_live _ _ _ H1). auto.
  - intros info' l H2 H3 H4. rewrite (sd_id _ _ _ H1) by auto. intros E'. apply (sd_subs _ _ _ H1); [auto|]. by apply (Hi info').
Qed.

Lemma commit_spec ls : ∀ w, NoDup (ids_of w ls) →
  let w' := foldl apply_entry w ls in
  w_heap w' = w_heap w ∧
  (∀ l, l ∈ ls → c_Get w' (e_id (ent w l)) = match e_subIds (ent w l) with [] => None | _ => Some l end) ∧
  (∀ id, id ∉ ids_of w ls → c_Get w' id = c_Get w id).
Proof.
  induction ls as [|l ls IH]; intros w Hn; [set_solver|]. cbn [foldl]. rewrite ids_of_cons in Hn. apply NoDup_cons in Hn as [Hnl Hn].
  assert (∀ l', ent (apply_entry w l) l' = ent w l') as Ee by (intros l'; unfold apply_entry; by destruct (e_subIds (ent w l))).
  assert (ids_of (apply_entry w l) ls = ids_of w ls) as Ei by (unfold ids_of; apply list_fmap_ext; intros; by rewrite Ee).
  destruct (IH (apply_entry w l)) as (Hh & Hin & Hout); [by rewrite Ei|]. rewrite Ei in Hout.
  assert (w_heap (apply_entry w l) = w_heap w) as Eh by (unfold apply_entry; by destruct (e_subIds (ent w l))).
  split_and!.
  - congruence.
  - intros l' [->|Hl']%elem_of_cons.
    + rewrite Hout by done. unfold apply_entry, c_Get. destruct (e_subIds (ent w l)) eqn:E; simpl;
        [by rewrite lookup_delete_eq|by rewrite lookup_insert_eq].
    + rewrite <- (Ee l'), Hin by done. done.
  - intros id. rewrite ids_of_cons, not_elem_of_cons. intros [Hne Hni]. rewrite Hout by done.
    unfold apply_entry, c_Get. destruct (e_subIds (ent w l)); simpl; [by rewrite lookup_delete_ne|by rewrite lookup_insert_ne].
Qed.

(** What [apply] does to the cache: the marks of the details that were sent, then the
    entries. *)
Lemma ctx_apply_world w ctx :
  cx_keysBuf ctx = [] → (∀ l, l ∈ cx_entries ctx → live w l) →
  ∃ w1, (ctx_apply w ctx).1 = foldl apply_entry w1 (cx_entries ctx) ∧
    ∀ sid, (∀ ch l, ch ∈ cx_change ctx → oc_subId ch = sid → l ∈ cx_entries ctx → e_id (ent w l) = oc_id ch → sid ∈ e_subIds (ent w l)) →
      steady sid w w1.
Proof.
  intros Hk Hl. unfold ctx_apply.
  set (ctx1 := foldl _ ctx (cx_change ctx)).
  assert (cx_entries ctx1 = cx_entries ctx) as E1 by (by apply (fold_keeps cx_entries)).
  exists (detailsEvents w ctx1).1. split.
  - assert (cx_entries (detailsEvents w ctx1).2 = cx_entries ctx1) as E2.
    { unfold detailsEvents. by destruct (foldl (detailsEvent ctx1) (w, ([], [])) (cx_keysBuf ctx1)) as [? [? ?]]. }
    destruct (detailsEvents w ctx1) as [w1 ctx2]. simpl in *. f_equal. rewrite <- E1, <- E2.
    rewrite !(fold_keeps cx_entries); [done|..]; intros c x.
    + unfold position_event. destruct (op_isAdd x); by rewrite addEvent_entries.
    + apply addEvent_entries.
    + apply addEvent_entries.
  - intros sid Hc. apply detailsEvents_steady; rewrite ?E1; [done|]. intros info l Hi Hs Hin E.
    destruct (collected_subs _ _ _ _ Hi Hs) as [(ch & ? & ? & ?)|(i' & Hi' & _)].
    + apply (Hc ch l); [done..|congruence].
    + rewrite Hk in Hi'. by apply elem_of_nil in Hi'.
Qed.
End apply.

(** ** The state of a subscription between batches *)

Section batch.
Context `{Hstore : !SubStore, Hdiff : !Mb0Diff, Hdiffok : !Mb0DiffOk, Hint : !LoIntersect, Hskl : !SkipList, Hsklok : !SkipListOk}.
Context {order : Type} `{Hso : !SubOrder order} (orderable : Details → Prop).
Implicit Types (s : sortedSub order) (w : world) (v : env).

(** The cache holds allocated entries under their ids. *)
Definition cache_ok w : Prop := ∀ id lc, c_Get w id = Some lc → live w lc ∧ e_id (ent w lc) = id.

(** The list is in order and holds exactly the cached objects that are marked with
    the subscription; the remembered window and counters are the current ones.
    Dependent objects are switched off, and the window is not anchored from its end
    (no request sets [beforeId]). *)
Record sub_ok w s : Prop := {
  so_tracked : tracked orderable s;
  so_started : ss_started s = true;
  so_cache : cache_ok w;
  so_keys : ∀ id d, (id, d) ∈ keys_of s ↔ ∃ lc, c_Get w id = Some lc ∧ e_data (ent w lc) = d ∧ ss_id s ∈ e_subIds (ent w lc);
  so_ne : ∀ x, x ∈ keys_of s → x.1 ≠ "";
  so_before : ss_beforeEl s = None;
  so_dep : ss_depSub s = None;
  so_anchor : ∀ el, ss_afterEl s = Some el → el ∈ sk_elems (ss_skl s);
  so_diff : ∃ ld, ss_diff s = Some ld ∧ diff_ready (window s) ld;
  so_count : ss_compCountBefore s = counter_of s;
}.

(** A batch: allocated entries that are not cached, one per object, whose details
    the order can compare.  The anchor of the window is not among them. *)
Record batch w s (ls : list loc) : Prop := {
  ba_live : ∀ l, l ∈ ls → live w l;
  ba_ids : NoDup (ids_of w ls);
  ba_ne : "" ∉ ids_of w ls;
  ba_order : ∀ l, l ∈ ls → orderable (e_data (ent w l));
  ba_fresh : ∀ id lc, c_Get w id = Some lc → lc ∉ ls;
  ba_subs : ∀ l, l ∈ ls → ss_id s ∈ e_subIds (ent w l) → ∃ d, (e_id (ent w l), d) ∈ keys_of s;
  ba_anchor : ∀ el, ss_afterEl s = Some el → (sk_Key el).1 ∉ ids_of w ls;
}.

(** The objects of the list after the batch [ls]. *)
Definition after_batch w s (ls : list loc) (x : skey) : Prop :=
  (∃ l, l ∈ ls ∧ x = (e_id (ent w l), e_data (ent w l)) ∧ passes s x.2 = true) ∨ (x.1 ∉ ids_of w ls ∧ x ∈ keys_of s).

Lemma batch_batch_ok w s ls : sub_ok w s → batch w s ls → batch_ok orderable w s ls.
Proof.
  intros Hok [H1 H2 H3 H4 H5 H6 H7]. split; try done.
  - intros id lc Hlc. by apply (so_cache _ _ Hok id lc).
  - intros l d Hl. apply (so_keys _ _ Hok).
Qed.

Lemma anchor_rest s : (∀ el, ss_afterEl s = Some el → el ∈ sk_elems (ss_skl s)) →
  ∃ rest, behind_anchor (sk_elems (ss_skl s)) (ss_afterEl s) rest.
Proof.
  intros Ha. destruct (ss_afterEl s) as [el|] eqn:E; simpl; [|by eexists].
  destruct (list_elem_of_split _ el (Ha el eq_refl)) as (l1 & l2 & ->). by exists l2, l1.
Qed.

Lemma window_in_keys s z :
  ss_beforeEl s = None → (∀ el, ss_afterEl s = Some el → el ∈ sk_elems (ss_skl s)) → z ∈ window s → ∃ d, (z, d) ∈ keys_of s.
Proof.
  intros Hb Ha Hz. destruct (anchor_rest s Ha) as [rest Hr].
  assert (z ∈ (keys_of s).*1) as ([i d] & -> & Hin)%list_elem_of_fmap; [|by exists d].
  eapply elem_of_submseteq; [exact Hz|]. apply sublist_submseteq. by eapply window_keys.
Qed.

Lemma window_NoDup s :
  tracked orderable s → ss_beforeEl s = None → (∀ el, ss_afterEl s = Some el → el ∈ sk_elems (ss_skl s)) → NoDup (window s).
Proof.
  intros Ht Hb Ha. destruct (anchor_rest s Ha) as [rest Hr].
  eapply sublist_NoDup; [|by eapply window_keys]. apply (tr_distinct _ _ Ht).
Qed.

(** The list and the marks of the entries after the changed entries were handled. *)
Record listed w s (ls : list loc) w' s' : Prop := {
  li_tracked : tracked orderable s';
  li_same : s' = with_skl s (ss_skl s');
  li_keys : ∀ x, x ∈ keys_of s' ↔ after_batch w s ls x;
  li_touched : touched (ss_id s) ls w w';
  li_subs : ∀ l, l ∈ ls → ss_id s ∈ e_subIds (ent w' l) ↔ passes s (e_data (ent w l)) = true;
  li_anchor : ∀ el, ss_afterEl s' = Some el → el ∈ sk_elems (ss_skl s');
}.

Lemma entry_changes_listed w s ls c w' s' :
  sub_ok w s → batch w s ls → entry_changes w s ls = (c, w', s') →
  listed w s ls w' s' ∧ (c = false → w' = w ∧ s' = s ∧ ∀ l, l ∈ ls → passes s (e_data (ent w l)) = false).
Proof.
  intros Hok Hb E. unfold entry_changes in E.
  pose proof (entry_changes_spec orderable ls false w s (so_tracked _ _ Hok) (so_started _ _ Hok) (batch_batch_ok _ _ _ Hok Hb)) as H.
  rewrite E in H. destruct H as (H1 & H2 & H3 & H4 & H5 & H6 & H7). split; [|naive_solver]. split; try done.
  intros el Hel. rewrite H2 in Hel. simpl in Hel. apply H3; [by eapply ba_anchor|]. by apply (so_anchor _ _ Hok).
Qed.

(** The cached entries are not part of the batch. *)
Lemma listed_cached w s ls w' s' id lc :
  sub_ok w s → batch w s ls → listed w s ls w' s' → c_Get w id = Some lc → ent w' lc = ent w lc ∧ live w' lc.
Proof.
  intros Hok Hb Hl Hlc. split; [apply (to_rest _ _ _ _ (li_touched _ _ _ _ _ Hl)); by eapply ba_fresh|].
  apply (to_live _ _ _ _ (li_touched _ _ _ _ _ Hl)). by eapply so_cache.
Qed.

Lemma listed_same w s ls w' s' l :
  batch w s ls → listed w s ls w' s' → l ∈ ls → live w' l ∧ e_id (ent w' l) = e_id (ent w l) ∧ e_data (ent w' l) = e_data (ent w l).
Proof.
  intros Hb Hl Hin. pose proof (li_touched _ _ _ _ _ Hl) as Ht. pose proof (ba_live _ _ _ Hb l Hin) as L.
  destruct (to_same _ _ _ _ Ht l L). split_and!; [by apply (to_live _ _ _ _ Ht)|done..].
Qed.

(** ** The cache after the context was applied *)

Section commit.
Context (w : world) s (ls : list loc) (w1 : world) s1 (w2 : world) (news : list loc) (w3 : world).
Context (Hok : sub_ok w s) (Hb : batch w s ls) (Hl : listed w s ls w1 s1) (Hg : grown w1 w2 news).
Context (Hn : NoDup (ids_of w2 (ls ++ news))) (Hst : steady (ss_id s) w2 w3).
Local Notation w4 := (foldl apply_entry w3 (ls ++ news)).

Lemma commit_entry l : l ∈ ls ++ news →
  live w3 l ∧ e_id (ent w3 l) = e_id (ent w2 l) ∧ e_data (ent w3 l) = e_data (ent w2 l) ∧
  (ss_id s ∈ e_subIds (ent w3 l) ↔ ss_id s ∈ e_subIds (ent w2 l)).
Proof.
  intros Hin. assert (live w2 l) as L.
  { apply elem_of_app in Hin as [Hin|Hin]; [|by apply (gr_fresh _ _ _ Hg)]. apply (gr_live _ _ _ Hg). by eapply listed_same. }
  split_and!; [by apply (sd_live _ _ _ Hst)|by apply (sd_id _ _ _ Hst)|by apply (sd_data _ _ _ Hst)|by apply (sd_subs _ _ _ Hst)].
Qed.

Lemma commit_batch l : l ∈ ls →
  ent w2 l = ent w1 l ∧ e_id (ent w3 l) = e_id (ent w l) ∧ e_data (ent w3 l) = e_data (ent w l) ∧
  (ss_id s ∈ e_subIds (ent w3 l) ↔ passes s (e_data (ent w l)) = true).
Proof.
  intros Hin. destruct (commit_entry l) as (_ & -> & -> & ->); [apply elem_of_app; by left|].
  destruct (listed_same _ _ _ _ _ _ Hb Hl Hin) as (L & E1 & E2). rewrite (gr_old _ _ _ Hg) by done.
  split_and!; [done..|by eapply li_subs].
Qed.

Lemma commit_cached id lc : c_Get w id = Some lc →
  live w3 lc ∧ e_id (ent w3 lc) = id ∧ e_data (ent w3 lc) = e_data (ent w lc) ∧
  (ss_id s ∈ e_subIds (ent w3 lc) ↔ ss_id s ∈ e_subIds (ent w lc)).
Proof.
  intros Hlc. destruct (listed_cached _ _ _ _ _ _ _ Hok Hb Hl Hlc) as [E1 L1].
  pose proof (gr_live _ _ _ Hg _ L1) as L2. rewrite (sd_id _ _ _ Hst), (sd_data _ _ _ Hst), (sd_subs _ _ _ Hst) by done.
  rewrite (gr_old _ _ _ Hg), E1 by done. split_and!; [by apply (sd_live _ _ _ Hst)|by eapply so_cache|done..].
Qed.

(** A copy stands for a cached entry that is not part of the batch. *)
Lemma commit_copy l : l ∈ news →
  e_id (ent w3 l) ∉ ids_of w ls ∧
  ∃ lc, c_Get w (e_id (ent w3 l)) = Some lc ∧ e_data (ent w3 l) = e_data (ent w lc) ∧
    (ss_id s ∈ e_subIds (ent w3 l) ↔ ss_id s ∈ e_subIds (ent w lc)).
Proof.
  intros Hin. destruct (commit_entry l) as (_ & -> & -> & Hs3); [apply elem_of_app; by right|].
  destruct (gr_copy _ _ _ Hg l Hin) as (lc & Hlc & Ecp). unfold c_Get in Hlc.
  rewrite (to_cache _ _ _ _ (li_touched _ _ _ _ _ Hl)) in Hlc. fold (c_Get w (e_id (ent w2 l))) in Hlc.
  destruct (listed_cached _ _ _ _ _ _ _ Hok Hb Hl Hlc) as [E1 _]. split; [|exists lc; rewrite Hs3, Ecp, E1 in *; done].
  intros (l' & Hl' & E')%ids_of_inv. rewrite ids_of_app in Hn. apply NoDup_app in Hn as (_ & Hn' & _).
  apply (Hn' (e_id (ent w2 l))); [|by apply ids_of_elem]. rewrite <- E'.
  destruct (listed_same _ _ _ _ _ _ Hb Hl Hl') as (_ & <- & _). destruct (commit_batch l' Hl') as (<- & _).
  by apply ids_of_elem.
Qed.

Lemma commit_marked l d : l ∈ ls ++ news → (e_id (ent w3 l), d) ∈ keys_of s1 → ss_id s ∈ e_subIds (ent w3 l).
Proof.
  intros Hin Hd. apply (li_keys _ _ _ _ _ Hl) in Hd. apply elem_of_app in Hin as [Hin|Hin].
  - destruct (commit_batch l Hin) as (_ & E & _ & ->). rewrite E in Hd.
    destruct Hd as [(l' & Hl' & [= E' ->] & Hp)|[Hno _]]; [|exfalso; by apply Hno, ids_of_elem].
    assert (l = l') as <-; [|done]. by eapply ids_of_inj; [eapply ba_ids|..].
  - destruct (commit_copy l Hin) as (Hno & lc & Hlc & _ & ->).
    destruct Hd as [(l' & Hl' & [= E' ->] & Hp)|[_ Hd]]; [exfalso; apply Hno; rewrite E'; by apply ids_of_elem|].
    apply (so_keys _ _ Hok) in Hd as (lc' & Hlc' & _ & ?). rewrite Hlc in Hlc'. by injection Hlc' as <-.
Qed.

Lemma commit_get id : c_Get w3 id = c_Get w id.
Proof. unfold c_Get. by rewrite (sd_cache _ _ _ Hst), (gr_cache _ _ _ Hg), (to_cache _ _ _ _ (li_touched _ _ _ _ _ Hl)). Qed.
Lemma commit_cache_ok : cache_ok w3.
Proof. intros id lc Hlc. rewrite commit_get in Hlc. by destruct (commit_cached _ _ Hlc) as (? & ? & _). Qed.
Lemma commit_fresh id lc : c_Get w3 id = Some lc → lc ∉ ls ++ news.
Proof.
  rewrite commit_get. intros Hlc [Hin|Hin]%elem_of_app; [by eapply ba_fresh|].
  destruct (gr_fresh _ _ _ Hg _ Hin) as [Hnl _]. apply Hnl. by eapply listed_cached.
Qed.
Lemma commit_ids : NoDup (ids_of w3 (ls ++ news)).
Proof. assert (ids_of w3 (ls ++ news) = ids_of w2 (ls ++ news)) as -> by (apply ids_of_ext; intros l Hin; by apply commit_entry). done. Qed.

(** The list agrees with the entries of the batch and their marks, and with the cache
    for the other objects. *)
Lemma commit_keys id d :
  (id, d) ∈ keys_of s1 ↔
  (∃ l, l ∈ ls ++ news ∧ id = e_id (ent w3 l) ∧ d = e_data (ent w3 l) ∧ ss_id s ∈ e_subIds (ent w3 l)) ∨
  (id ∉ ids_of w3 (ls ++ news) ∧ ∃ lc, c_Get w3 id = Some lc ∧ e_data (ent w3 lc) = d ∧ ss_id s ∈ e_subIds (ent w3 lc)).
Proof.
  rewrite (li_keys _ _ _ _ _ Hl). unfold after_batch. simpl. rewrite (so_keys _ _ Hok), commit_get.
  assert (∀ l, l ∈ ls → e_id (ent w l) ∈ ids_of w3 (ls ++ news)) as Hids.
  { intros l Hin. destruct (commit_batch l Hin) as (_ & <- & _). apply ids_of_elem, elem_of_app. by left. }
  split.
  - intros [(l & Hin & [= -> ->] & Hp)|(Hno & lc & Hlc & Ed & Hs)].
    + left. exists l. destruct (commit_batch l Hin) as (_ & -> & -> & ->). split_and!; [apply elem_of_app; by left|done..].
    + destruct (decide (id ∈ ids_of w3 (ls ++ news))) as [(l & Hin & <-)%ids_of_inv|Hn'].
      * left. exists l. apply elem_of_app in Hin as [Hin|Hin].
        { exfalso. apply Hno. destruct (commit_batch l Hin) as (_ & -> & _). by apply ids_of_elem. }
        destruct (commit_copy l Hin) as (_ & lc' & Hlc' & -> & ->). rewrite Hlc in Hlc'. injection Hlc' as <-.
        split_and!; [apply elem_of_app; by right|done..].
      * right. split; [done|]. exists lc. destruct (commit_cached _ _ Hlc) as (_ & _ & -> & ->). done.
  - intros [(l & [Hin|Hin]%elem_of_app & -> & -> & Hs)|(Hno & lc & Hlc & Ed & Hs)].
    + left. exists l. destruct (commit_batch l Hin) as (_ & -> & -> & Hp). split_and!; [done..|]. by apply Hp.
    + right. destruct (commit_copy l Hin) as (Hno & lc & Hlc & -> & Hs'). split; [done|]. exists lc. by rewrite <- Hs'.
    + right. split; [intros (l & Hin & <-)%ids_of_inv; by apply Hno, Hids|]. exists lc.
      destruct (commit_cached _ _ Hlc) as (_ & _ & E & Hs'). rewrite <- Hs', <- E. done.
Qed.
End commit.

(** ** A subscription whose batch is not applied yet *)

(** The list agrees with the entries of the batch and, for other objects, with the
    cache.  [chs] are the changes to tell. *)
Record pending w s (ls : list loc) (chs : list opChange) : Prop := {
  pe_tracked : tracked orderable s;
  pe_started : ss_started s = true;
  pe_cache : cache_ok w;
  pe_live : ∀ l, l ∈ ls → live w l;
  pe_ids : NoDup (ids_of w ls);
  pe_fresh : ∀ id lc, c_Get w id = Some lc → lc ∉ ls;
  pe_keys : ∀ id d, (id, d) ∈ keys_of s ↔
    (∃ l, l ∈ ls ∧ id = e_id (ent w l) ∧ d = e_data (ent w l) ∧ ss_id s ∈ e_subIds (ent w l)) ∨
    (id ∉ ids_of w ls ∧ ∃ lc, c_Get w id = Some lc ∧ e_data (ent w lc) = d ∧ ss_id s ∈ e_subIds (ent w lc));
  pe_ne : ∀ x, x ∈ keys_of s → x.1 ≠ "";
  pe_before : ss_beforeEl s = None;
  pe_dep : ss_depSub s = None;
  pe_anchor : ∀ el, ss_afterEl s = Some el → el ∈ sk_elems (ss_skl s);
  pe_diff : ∃ ld, ss_diff s = Some ld ∧ diff_ready (window s) ld;
  pe_count : ss_compCountBefore s = counter_of s;
  pe_told : ∀ ch, ch ∈ chs → oc_subId ch = ss_id s → oc_id ch ∈ ids_of w ls;
  pe_changes : ∀ ch l, ch ∈ chs → oc_subId ch = ss_id s → l ∈ ls → e_id (ent w l) = oc_id ch → ss_id s ∈ e_subIds (ent w l);
}.

(** Applying the context ends the batch: the entries go to the cache. *)
Lemma pending_commit w s ctx :
  pending w s (cx_entries ctx) (cx_change ctx) → cx_keysBuf ctx = [] → sub_ok (ctx_apply w ctx).1 s.
Proof.
  intros Hp Hk. destruct (ctx_apply_world w ctx Hk (pe_live _ _ _ _ Hp)) as (w1 & -> & Hst).
  specialize (Hst (ss_id s) (pe_changes _ _ _ _ Hp)). set (ls := cx_entries ctx) in *.
  assert (ids_of w1 ls = ids_of w ls) as Eids by (apply ids_of_ext; intros l Hin; apply (sd_id _ _ _ Hst); by apply (pe_live _ _ _ _ Hp)).
  destruct (commit_spec ls w1) as (Eh & Hin & Hout); [rewrite Eids; apply (pe_ids _ _ _ _ Hp)|].
  set (w2 := foldl apply_entry w1 ls) in *.
  assert (∀ l, ent w2 l = ent w1 l) as Ee by (intros; unfold ent; by rewrite Eh).
  assert (∀ id, c_Get w1 id = c_Get w id) as Ec by (intros; unfold c_Get; by rewrite (sd_cache _ _ _ Hst)).
  assert (∀ id lc, c_Get w id = Some lc → live w1 lc ∧ e_id (ent w1 lc) = id ∧ e_data (ent w1 lc) = e_data (ent w lc) ∧
            (ss_id s ∈ e_subIds (ent w1 lc) ↔ ss_id s ∈ e_subIds (ent w lc))) as Hc.
  { intros id lc Hlc. destruct (pe_cache _ _ _ _ Hp _ _ Hlc) as [L <-].
    split_and!; [by apply (sd_live _ _ _ Hst)|by apply (sd_id _ _ _ Hst)|by apply (sd_data _ _ _ Hst)|by apply (sd_subs _ _ _ Hst)]. }
  split; try (by destruct Hp).
  - intros id lc. rewrite Ee. unfold live. rewrite Eh. destruct (decide (id ∈ ids_of w1 ls)) as [(l & Hl & <-)%ids_of_inv|Hid].
    + rewrite Hin by done. destruct (e_subIds (ent w1 l)); [done|]. intros [= <-]. split; [|done].
      apply (sd_live _ _ _ Hst). by apply (pe_live _ _ _ _ Hp).
    + rewrite Hout, Ec by done. intros Hlc. by destruct (Hc _ _ Hlc) as (? & ? & _).
  - intros id d. rewrite (pe_keys _ _ _ _ Hp). setoid_rewrite Ee.
    destruct (decide (id ∈ ids_of w1 ls)) as [(l & Hl & <-)%ids_of_inv|Hid].
    + pose proof (pe_live _ _ _ _ Hp l Hl) as L. rewrite (Hin l Hl), (sd_id _ _ _ Hst) by done.
      trans (e_data (ent w1 l) = d ∧ ss_id s ∈ e_subIds (ent w1 l)).
      * rewrite (sd_data _ _ _ Hst), (sd_subs _ _ _ Hst) by done. split.
        -- intros [(l' & Hl' & E & -> & ?)|[Hno _]]; [|exfalso; by apply Hno, ids_of_elem].
           assert (l = l') as <-; [|done]. eapply ids_of_inj; [apply (pe_ids _ _ _ _ Hp)|done..].
        -- intros [<- ?]. left. by exists l.
      * destruct (e_subIds (ent w1 l)) as [|x xs] eqn:Es.
        -- split; [intros [_ H0]; by apply elem_of_nil in H0|by intros (? & ? & _)].
        -- rewrite <- Es. split; [intros [? ?]; by exists l|by intros (? & [= <-] & ? & ?)].
    + rewrite Hout, Ec by done. rewrite Eids in Hid. split.
      * intros [(l & Hl & -> & _)|(_ & lc & Hlc & ? & ?)]; [exfalso; by apply Hid, ids_of_elem|].
        exists lc. destruct (Hc _ _ Hlc) as (_ & _ & -> & ->). done.
      * intros (lc & Hlc & Ed & Hs). right. split; [done|]. exists lc. destruct (Hc _ _ Hlc) as (_ & _ & E & Hs').
        rewrite <- E, <- Hs'. done.
Qed.

(** ** The other subscriptions *)

(** The change of another subscription: the marks of [x] stay, and copies of cached
    entries join the batch. *)
Record moved (x : string) w (ls : list loc) w' (news : list loc) : Prop := {
  mv_steady : steady x w w';
  mv_ids : NoDup (ids_of w' (ls ++ news));
  mv_fresh : ∀ l, l ∈ news → ¬ live w l ∧ live w' l;
  mv_copy : ∀ l, l ∈ news → ∃ lc, c_Get w (e_id (ent w' l)) = Some lc ∧ e_data (ent w' l) = e_data (ent w lc) ∧
    (x ∈ e_subIds (ent w' l) ↔ x ∈ e_subIds (ent w lc));
}.

Lemma steady_get x w w' id : steady x w w' → c_Get w' id = c_Get w id.
Proof. intros H. unfold c_Get. by rewrite (sd_cache _ _ _ H). Qed.
Lemma steady_cache_ok x w w' : steady x w w' → cache_ok w → cache_ok w'.
Proof.
  intros H Hc id lc. rewrite (steady_get x w w') by done. intros Hlc. destruct (Hc _ _ Hlc) as [? <-].
  split; [by apply (sd_live _ _ _ H)|by apply (sd_id _ _ _ H)].
Qed.
Lemma steady_marked x w w' id d : steady x w w' → cache_ok w →
  (∃ lc, c_Get w' id = Some lc ∧ e_data (ent w' lc) = d ∧ x ∈ e_subIds (ent w' lc)) ↔
  (∃ lc, c_Get w id = Some lc ∧ e_data (ent w lc) = d ∧ x ∈ e_subIds (ent w lc)).
Proof.
  intros H Hc. setoid_rewrite (steady_get x w w' id H). split; intros (lc & Hlc & Hd & Hs); exists lc; destruct (Hc _ _ Hlc) as [L _].
  - by rewrite <- (sd_data _ _ _ H), <- (sd_subs _ _ _ H).
  - by rewrite (sd_data _ _ _ H), (sd_subs _ _ _ H).
Qed.
Lemma steady_ids x w w' ls : steady x w w' → (∀ l, l ∈ ls → live w l) → ids_of w' ls = ids_of w ls.
Proof. intros H Hl. apply ids_of_ext. intros l Hin. apply (sd_id _ _ _ H). auto. Qed.

Lemma moved_sub_ok w s ls w' news : moved (ss_id s) w ls w' news → sub_ok w s → sub_ok w' s.
Proof.
  intros [Hst _ _ _] Hok. pose proof (so_cache _ _ Hok) as Hc. destruct Hok. split; try done.
  - by eapply steady_cache_ok.
  - intros id d. rewrite (steady_marked _ w w') by done. auto.
Qed.

(** The cached objects can be ordered. *)
Definition cache_orderable w : Prop := ∀ id lc, c_Get w id = Some lc → id ≠ "" ∧ orderable (e_data (ent w lc)).

Lemma moved_orderable x w ls w' news : moved x w ls w' news → cache_ok w → cache_orderable w → cache_orderable w'.
Proof.
  intros [Hst _ _ _] Hc Ho id lc. rewrite (steady_get x w w') by done. intros Hlc. destruct (Hc _ _ Hlc) as [L _].
  rewrite (sd_data _ _ _ Hst) by done. by apply Ho.
Qed.

Lemma moved_fresh x w ls w' news id lc :
  moved x w ls w' news → cache_ok w → (∀ id lc, c_Get w id = Some lc → lc ∉ ls) → c_Get w' id = Some lc → lc ∉ ls ++ news.
Proof.
  intros [Hst _ Hf _] Hc Hold. rewrite (steady_get x w w') by done. intros Hlc [Hin|Hin]%elem_of_app; [by eapply Hold|].
  destruct (Hf _ Hin) as [Hn _]. apply Hn. by eapply Hc.
Qed.

Lemma moved_batch w s ls w' news :
  moved (ss_id s) w ls w' news → sub_ok w s → ss_afterEl s = None → cache_orderable w → batch w s ls → batch w' s (ls ++ news).
Proof.
  intros Hm Hok Ha Ho [H1 H2 H3 H4 H5 H6 _]. pose proof Hm as [Hst Hn Hf Hcp]. pose proof (so_cache _ _ Hok) as Hc.
  assert (ids_of w' ls = ids_of w ls) as Eids by (by eapply steady_ids).
  split.
  - intros l [Hin|Hin]%elem_of_app; [by apply (sd_live _ _ _ Hst), H1|by apply Hf].
  - done.
  - rewrite ids_of_app, Eids. intros [?|(l & Hin & E)%ids_of_inv]%elem_of_app; [done|].
    destruct (Hcp l Hin) as (lc & Hlc & _). rewrite E in Hlc. by destruct (Ho _ _ Hlc).
  - intros l [Hin|Hin]%elem_of_app; [rewrite (sd_data _ _ _ Hst) by auto; auto|].
    destruct (Hcp l Hin) as (lc & Hlc & -> & _). by destruct (Ho _ _ Hlc).
  - intros id lc. by apply (moved_fresh (ss_id s) w).
  - intros l [Hin|Hin]%elem_of_app.
    + rewrite (sd_id _ _ _ Hst), (sd_subs _ _ _ Hst) by auto. auto.
    + destruct (Hcp l Hin) as (lc & Hlc & _ & ->). intros Hs. exists (e_data (ent w lc)). apply (so_keys _ _ Hok). eauto.
  - by rewrite Ha.
Qed.

Lemma moved_pending w s ls w' news chs chs' :
  moved (ss_id s) w ls w' news → (∀ ch, ch ∈ chs' → oc_subId ch ≠ ss_id s) →
  pending w s ls chs → pending w' s (ls ++ news) (chs ++ chs').
Proof.
  intros Hm Hch Hp. pose proof Hm as [Hst Hn Hf Hcp]. pose proof (pe_cache _ _ _ _ Hp) as Hc. pose proof (pe_live _ _ _ _ Hp) as Hl.
  assert (ids_of w' ls = ids_of w ls) as Eids by (by eapply steady_ids).
  assert (∀ l, l ∈ news → e_id (ent w' l) ∉ ids_of w ls) as Hdis.
  { intros l Hin Hid. rewrite ids_of_app, Eids in Hn. apply NoDup_app in Hn as (_ & Hn & _). apply (Hn _ Hid). by apply ids_of_elem. }
  split; try (by destruct Hp).
  - by eapply steady_cache_ok.
  - intros l [Hin|Hin]%elem_of_app; [by apply (sd_live _ _ _ Hst), Hl|by apply Hf].
  - intros id lc. apply (moved_fresh (ss_id s) w); [done..|]. apply (pe_fresh _ _ _ _ Hp).
  - intros id d. rewrite (pe_keys _ _ _ _ Hp). rewrite (steady_marked _ w w') by done. rewrite ids_of_app, Eids. split.
    + intros [(l & Hin & -> & -> & Hs)|(Hno & lc & Hlc & Ed & Hs)].
      * left. exists l. rewrite (sd_id _ _ _ Hst), (sd_data _ _ _ Hst), (sd_subs _ _ _ Hst) by auto.
        split_and!; [apply elem_of_app; by left|done..].
      * destruct (decide (id ∈ ids_of w' news)) as [(l & Hin & <-)%ids_of_inv|Hnew].
        -- left. exists l. destruct (Hcp l Hin) as (lc' & Hlc' & -> & ->). rewrite Hlc in Hlc'. injection Hlc' as <-.
           split_and!; [apply elem_of_app; by right|done..].
        -- right. split; [by rewrite elem_of_app; intros [?|?]|]. eauto.
    + intros [(l & [Hin|Hin]%elem_of_app & -> & -> & Hs)|(Hno & Hlc)].
      * left. exists l. rewrite <- (sd_subs _ _ _ Hst), (sd_id _ _ _ Hst), (sd_data _ _ _ Hst) by auto. done.
      * right. split; [by apply Hdis|]. destruct (Hcp l Hin) as (lc & Hlc & -> & Hs'). exists lc. by rewrite <- Hs'.
      * right. split; [|done]. intros ?. apply Hno, elem_of_app. by left.
  - intros ch [Hch1|Hch1]%elem_of_app Es; [|by destruct (Hch _ Hch1)]. rewrite ids_of_app, Eids, elem_of_app. left.
    by apply (pe_told _ _ _ _ Hp).
  - intros ch l [Hch1|Hch1]%elem_of_app Es; [|by destruct (Hch _ Hch1)]. intros [Hin|Hin]%elem_of_app.
    + rewrite (sd_id _ _ _ Hst), (sd_subs _ _ _ Hst) by auto. by apply (pe_changes _ _ _ _ Hp).
    + intros E. destruct (Hdis l Hin). rewrite E. by apply (pe_told _ _ _ _ Hp).
Qed.
(** ** A batch *)

(** What a batch did: the operations added to the context, the new list and window,
    what the entries and the cache agree on, and what the other subscriptions see. *)
Record batch_done v s v' s' (ps : list opPosition) (rs : list opRemove) (chs : list opChange) (news : list loc) : Prop := {
  bd_position : cx_position (en_ctx v') = cx_position (en_ctx v) ++ ps;
  bd_remove : cx_remove (en_ctx v') = cx_remove (en_ctx v) ++ rs;
  bd_groups : cx_groups (en_ctx v') = cx_groups (en_ctx v);
  bd_keysBuf : cx_keysBuf (en_ctx v') = cx_keysBuf (en_ctx v);
  bd_change : cx_change (en_ctx v') = cx_change (en_ctx v) ++ chs;
  bd_entries : cx_entries (en_ctx v') = cx_entries (en_ctx v) ++ news;
  bd_subId : (∀ p, p ∈ ps → op_subId p = ss_id s) ∧ (∀ r, r ∈ rs → or_subId r = ss_id s) ∧ (∀ ch, ch ∈ chs → oc_subId ch = ss_id s);
  bd_counters : cx_counters (en_ctx v') = cx_counters (en_ctx v) ++ (if bool_decide (counter_of s' = counter_of s) then [] else [counter_of s']);
  bd_keys : ∀ x, x ∈ keys_of s' ↔ after_batch (en_w v) s (cx_entries (en_ctx v)) x;
  bd_window : client_list (window s) ps rs = window s';
  bd_changes : ∀ l, l ∈ cx_entries (en_ctx v) → e_id (ent (en_w v) l) ∈ window s' →
    {| oc_id := e_id (ent (en_w v) l); oc_subId := ss_id s; oc_keys := ss_keys s |} ∈ chs;
  bd_pending : pending (en_w v') s' (cx_entries (en_ctx v')) (cx_change (en_ctx v'));
  bd_others : ∀ x, x ≠ ss_id s → moved x (en_w v) (cx_entries (en_ctx v)) (en_w v') news;
}.

Lemma grown_refl w : grown w w [].
Proof. split; set_solver. Qed.

Lemma touched_steady x sid ls w w' : x ≠ sid → touched sid ls w w' → steady x w w'.
Proof. intros Hx [E1 E2 E3 E4]. split; [done..| | |]; intros l Hl; destruct (E3 l Hl) as [? ? Hs]; auto. Qed.

(** No entry of the batch concerns the subscription. *)
Lemma idle_batch v s w1 s1 :
  sub_ok (en_w v) s → batch (en_w v) s (cx_entries (en_ctx v)) →
  (∀ ch, ch ∈ cx_change (en_ctx v) → oc_subId ch ≠ ss_id s) →
  listed (en_w v) s (cx_entries (en_ctx v)) w1 s1 → w1 = en_w v → s1 = s →
  (∀ l, l ∈ cx_entries (en_ctx v) → passes s (e_data (ent (en_w v) l)) = false) →
  batch_done v s (with_w v w1) s1 [] [] [] [].
Proof.
  intros Hok Hb Hch Hl -> -> Hp. split; simpl; rewrite ?app_nil_r, ?bool_decide_eq_true_2 by done; rewrite ?app_nil_r; try done.
  - set_solver.
  - apply (li_keys _ _ _ _ _ Hl).
  - unfold client_list. simpl. apply filter_all. set_solver.
  - intros l Hin Hw. exfalso.
    destruct (window_in_keys s _ (so_before _ _ Hok) (so_anchor _ _ Hok) Hw) as [d Hd].
    apply (li_keys _ _ _ _ _ Hl) in Hd as [(l' & Hl' & [= _ ->] & Hp')|[Hno _]]; [|by apply Hno, ids_of_elem].
    simpl in Hp'. by rewrite (Hp l' Hl') in Hp'.
  - pose proof (commit_keys (en_w v) s (cx_entries (en_ctx v)) (en_w v) s (en_w v) [] (en_w v) Hok Hb Hl (grown_refl _)) as Hc.
    rewrite app_nil_r in Hc. specialize (Hc (ba_ids _ _ _ Hb) (steady_refl _ _)).
    pose proof Hb. pose proof Hok. destruct Hb, Hok. split; try done; [by intros ch ?%Hch|by intros ch l ?%Hch].
  - intros x _. split; rewrite ?app_nil_r; [apply steady_refl|by eapply ba_ids|set_solver..].
Qed.

(** The state after the events of a batch were collected. *)
Lemma batch_pending v s w1 s1 v' ld' w2 news after ctx :
  sub_ok (en_w v) s → batch (en_w v) s (cx_entries (en_ctx v)) → listed (en_w v) s (cx_entries (en_ctx v)) w1 s1 →
  (∀ x, x ∈ keys_of s1 → x.1 ≠ "") → (∀ ch, ch ∈ cx_change ctx → oc_subId ch ≠ ss_id s) →
  cx_entries ctx = cx_entries (en_ctx v) ++ news → (∀ z, z ∈ after ↔ z ∈ window s1) →
  grown w1 w2 news → NoDup (ids_of w2 (cx_entries (en_ctx v) ++ news)) → steady (ss_id s) w2 (en_w v') →
  en_ctx v' = add_change ctx (shown_changes s1 after w2 (cx_entries (en_ctx v) ++ news)) → diff_ready (window s1) ld' →
  pending (en_w v') (with_shown s1 (Some ld') (counter_of s1)) (cx_entries (en_ctx v')) (cx_change (en_ctx v')).
Proof.
  intros Hok Hb Hl Hne Hch Els Haft Hg Hn Hst Ectx Hr. pose proof (li_same _ _ _ _ _ Hl) as Es.
  assert (ss_beforeEl s1 = None) as Hbe by (rewrite Es; apply (so_before _ _ Hok)).
  assert (ss_id s1 = ss_id s) as Eid by (rewrite Es; done).
  rewrite Ectx. simpl. rewrite Els. split; simpl; try done.
  - by destruct (li_tracked _ _ _ _ _ Hl).
  - rewrite Es. apply (so_started _ _ Hok).
  - by eapply commit_cache_ok.
  - intros l Hin. by apply (commit_entry _ _ _ _ _ _ _ _ Hb Hl Hg Hst).
  - by eapply commit_ids.
  - intros id lc. by eapply (commit_fresh (en_w v) s _ w1 s1 w2).
  - intros id d. rewrite Eid. by apply (commit_keys (en_w v) s _ w1 s1 w2).
  - rewrite Es. apply (so_dep _ _ Hok).
  - apply (li_anchor _ _ _ _ _ Hl).
  - by exists ld'.
  - intros ch [Hin|Hin]%elem_of_app; [rewrite Eid; by intros ?%Hch|]. intros _.
    apply list_elem_of_fmap in Hin as (id & -> & [_ Hid]%list_elem_of_filter). simpl.
    assert (ids_of (en_w v') (cx_entries (en_ctx v) ++ news) = ids_of w2 (cx_entries (en_ctx v) ++ news)) as ->; [|done].
    apply ids_of_ext. intros l Hl'. by apply (commit_entry _ _ _ _ _ _ _ _ Hb Hl Hg Hst).
  - intros ch l [Hin|Hin]%elem_of_app; [rewrite Eid; by intros ?%Hch|].
    apply list_elem_of_fmap in Hin as (id & -> & [Hid%Haft _]%list_elem_of_filter). simpl. intros _ Hin E. rewrite Eid.
    destruct (window_in_keys s1 id Hbe (li_anchor _ _ _ _ _ Hl) Hid) as [d Hd]. rewrite <- E in Hd.
    by eapply (commit_marked _ _ _ _ _ _ _ _ Hok Hb Hl Hg Hn Hst).
Qed.

Lemma batch_moved v s w1 s1 v' w2 news x :
  sub_ok (en_w v) s → batch (en_w v) s (cx_entries (en_ctx v)) → listed (en_w v) s (cx_entries (en_ctx v)) w1 s1 → grown w1 w2 news →
  NoDup (ids_of w2 (cx_entries (en_ctx v) ++ news)) → steady (ss_id s) w2 (en_w v') → steady x w2 (en_w v') → x ≠ ss_id s →
  moved x (en_w v) (cx_entries (en_ctx v)) (en_w v') news.
Proof.
  intros Hok Hb Hl Hg Hn Hst Hstx Hx. pose proof (li_touched _ _ _ _ _ Hl) as Ht.
  assert (steady x w1 w2) as H12.
  { split; [apply (gr_cache _ _ _ Hg)|apply (gr_live _ _ _ Hg)|..]; intros l L; by rewrite (gr_old _ _ _ Hg). }
  assert (steady x (en_w v) (en_w v')) as Hall.
  { eapply steady_trans; [by eapply touched_steady|]. by eapply steady_trans. }
  split; [done|by eapply commit_ids|..].
  - intros l Hin. destruct (gr_fresh _ _ _ Hg l Hin) as [Hnl L2]. split; [|by apply (sd_live _ _ _ Hstx)].
    intros L. apply Hnl. by apply (to_live _ _ _ _ Ht).
  - intros l Hin. destruct (gr_fresh _ _ _ Hg l Hin) as [_ L2]. destruct (gr_copy _ _ _ Hg l Hin) as (lc & Hlc & E).
    unfold c_Get in Hlc. rewrite (to_cache _ _ _ _ Ht) in Hlc. exists lc.
    rewrite (sd_id _ _ _ Hstx), (sd_data _ _ _ Hstx), (sd_subs _ _ _ Hstx) by done. split; [exact Hlc|].
    rewrite E. destruct (listed_cached _ _ _ _ _ _ _ Hok Hb Hl Hlc) as [-> _]. done.
Qed.

Lemma busy_batch v s w1 s1 :
  sub_ok (en_w v) s → batch (en_w v) s (cx_entries (en_ctx v)) →
  (∀ ch, ch ∈ cx_change (en_ctx v) → oc_subId ch ≠ ss_id s) →
  listed (en_w v) s (cx_entries (en_ctx v)) w1 s1 →
  ∃ v' s' ps rs chs news, onSklChange (with_w v w1) s1 = Some (v', s') ∧ batch_done v s v' s' ps rs chs news.
Proof.
  intros Hok Hb Hch Hl. set (w := en_w v) in *. set (ls := cx_entries (en_ctx v)) in *.
  pose proof (li_same _ _ _ _ _ Hl) as Es. pose proof (li_tracked _ _ _ _ _ Hl) as Ht.
  assert (ss_id s1 = ss_id s) as Eid by (rewrite Es; done).
  assert (ss_beforeEl s1 = None) as Hbe by (rewrite Es; apply (so_before _ _ Hok)).
  assert (ids_of w1 ls = ids_of w ls) as Eids by (apply ids_of_ext; intros l Hin; by eapply listed_same).
  assert (∀ x, x ∈ keys_of s1 → x.1 ≠ "") as Hne.
  { intros x [(l & Hin & -> & _)|[_ Hx]]%(li_keys _ _ _ _ _ Hl); [|by apply (so_ne _ _ Hok)].
    simpl. intros E. apply (ba_ne _ _ _ Hb). rewrite <- E. by apply ids_of_elem. }
  pose proof (window_NoDup s1 Ht Hbe (li_anchor _ _ _ _ _ Hl)) as HnW.
  pose proof (window_in_keys s1) as HWk. specialize (λ z, HWk z Hbe (li_anchor _ _ _ _ _ Hl)).
  destruct (so_diff _ _ Hok) as (ld & Ed & Hr). destruct (anchor_rest s1 (li_anchor _ _ _ _ _ Hl)) as [rest Hrest].
  assert (∀ id lc, c_Get w1 id = Some lc ↔ c_Get w id = Some lc) as Ec.
  { intros id lc. unfold c_Get. by rewrite (to_cache _ _ _ _ (li_touched _ _ _ _ _ Hl)). }
  assert (∀ l, l ∈ ls → e_id (ent w1 l) ∈ window s1 → ss_id s ∈ e_subIds (ent w1 l)) as Hshown.
  { intros l Hin [d Hd]%HWk. destruct (listed_same _ _ _ _ _ _ Hb Hl Hin) as (_ & E1 & _). rewrite E1 in Hd.
    apply (li_subs _ _ _ _ _ Hl); [done|].
    apply (li_keys _ _ _ _ _ Hl) in Hd as [(l' & Hl' & [= E ->] & Hp)|[Hno _]]; [|exfalso; by apply Hno, ids_of_elem].
    assert (l = l') as <-; [|done]. by eapply ids_of_inj; [eapply ba_ids|..]. }
  destruct (onSklChange_spec (with_w v w1) s1 ld (window s) rest)
    as (v' & ld' & ps & rs & was & added & removed & w2 & news & after & Eo & Hr' & Htold & Hps & Hrs & Hg & Hst & Hn & Haft & Eds & Ectx);
    simpl; try done.
  - by rewrite Es.
  - apply window_NoDup; [apply (so_tracked _ _ Hok)|apply (so_before _ _ Hok)|apply (so_anchor _ _ Hok)].
  - rewrite Es. apply (so_dep _ _ Hok).
  - intros Hw. apply HWk in Hw as [d Hd]. by apply (Hne _ Hd).
  - fold ls. rewrite Eids. by eapply ba_ids.
  - intros l Hin. by eapply listed_same.
  - intros id lc Hlc%Ec. destruct (listed_cached _ _ _ _ _ _ _ Hok Hb Hl Hlc) as [-> ?]. split; [done|]. by eapply so_cache.
  - intros z Hz. fold ls. rewrite Eids. apply HWk in Hz as [d Hd].
    apply (li_keys _ _ _ _ _ Hl) in Hd as [(l & Hin & [= -> ->] & _)|[_ Hd]]; [left; by apply ids_of_elem|right].
    apply (so_keys _ _ Hok) in Hd as (lc & Hlc & _ & Hs). exists lc. rewrite Ec, Eid.
    destruct (listed_cached _ _ _ _ _ _ _ Hok Hb Hl Hlc) as [-> _]. done.
  - rewrite Eid. done.
  - intros z lc Hz Hlc%Ec. rewrite Eid. destruct (listed_cached _ _ _ _ _ _ _ Hok Hb Hl Hlc) as [-> _].
    destruct (window_in_keys s z (so_before _ _ Hok) (so_anchor _ _ Hok) Hz) as [d (lc' & Hlc' & _ & ?)%(so_keys _ _ Hok)]. congruence.
  - eexists v', _, ps, rs, _, news. split; [exact Eo|]. rewrite Eid in *. simpl in Ectx. fold ls in Hn, Ectx.
    assert (ss_compCountBefore s1 = counter_of s) as Ecnt by (rewrite Es; apply (so_count _ _ Hok)). rewrite Ecnt in Ectx.
    set (ctx0 := if bool_decide (counter_of s1 = counter_of s) then en_ctx v else add_counter (en_ctx v) [counter_of s1]) in Ectx.
    assert (cx_position ctx0 = cx_position (en_ctx v) ∧ cx_remove ctx0 = cx_remove (en_ctx v) ∧ cx_entries ctx0 = ls ∧
            cx_change ctx0 = cx_change (en_ctx v) ∧ cx_keysBuf ctx0 = cx_keysBuf (en_ctx v) ∧ cx_groups ctx0 = cx_groups (en_ctx v))
      as (Ep & Er & Ee & Ech & Ekb & Egr) by (unfold ctx0; by case_bool_decide).
    split; try (rewrite Ectx; simpl); try done.
    + by rewrite Ep.
    + by rewrite Er.
    + by rewrite Ech.
    + by rewrite Ee.
    + split_and!; [done..|]. unfold shown_changes. intros ch (id & -> & _)%list_elem_of_fmap. done.
    + change (counter_of (with_shown s1 (Some ld') (counter_of s1))) with (counter_of s1). unfold ctx0.
      destruct (bool_decide _); [by rewrite app_nil_r|done].
    + apply (li_keys _ _ _ _ _ Hl).
    + apply (lt_replay _ _ _ _ _ _ _ Htold).
    + intros l Hin Hw. unfold shown_changes. apply list_elem_of_fmap.
      destruct (listed_same _ _ _ _ _ _ Hb Hl Hin) as (L & E1 & _). exists (e_id (ent w l)).
      rewrite Es. split; [done|]. apply list_elem_of_filter. split; [by apply Haft|].
      rewrite ids_of_app, elem_of_app. left. rewrite <- E1.
      change (ent w1 l) with (ent (en_w (with_w v w1)) l). rewrite <- (gr_old _ _ _ Hg) by done. by apply ids_of_elem.
    + pose proof (batch_pending v s w1 s1 v' ld' w2 news after (add_entries (add_remove (add_position ctx0 ps) rs) news)) as Hp.
      rewrite Ectx in Hp. simpl in Hp. rewrite Ee in Hp |- *. apply Hp; try done. by rewrite Ech.
    + intros x Hx. by eapply (batch_moved v s w1 s1 v' w2).
Qed.

Lemma onChange_batch v s :
  sub_ok (en_w v) s → batch (en_w v) s (cx_entries (en_ctx v)) →
  (∀ ch, ch ∈ cx_change (en_ctx v) → oc_subId ch ≠ ss_id s) →
  ∃ v' s' ps rs chs news, ss_onChange v s = Some (v', s') ∧ batch_done v s v' s' ps rs chs news.
Proof.
  intros Hok Hb Hch. unfold ss_onChange.
  destruct (entry_changes (en_w v) s (cx_entries (en_ctx v))) as [[c w1] s1] eqn:E.
  destruct (entry_changes_listed _ _ _ _ _ _ Hok Hb E) as [Hl Hc].
  assert (ss_started s1 = true) as -> by (rewrite (li_same _ _ _ _ _ Hl); apply (so_started _ _ Hok)).
  rewrite orb_false_r. destruct c; simpl.
  - by apply busy_batch.
  - destruct (Hc eq_refl) as (Ew & Es & Hp). exists (with_w v w1), s1, [], [], [], []. split; [done|]. by apply idle_batch.
Qed.

(** ** Starting a subscription *)

(** The list agrees with the cache while the first entries are added. *)
Record starting w s : Prop := {
  sg_tracked : tracked orderable s;
  sg_cache : cache_ok w;
  sg_keys : ∀ id d, (id, d) ∈ keys_of s ↔ ∃ lc, c_Get w id = Some lc ∧ e_data (ent w lc) = d ∧ ss_id s ∈ e_subIds (ent w lc);
  sg_ne : ∀ x, x ∈ keys_of s → x.1 ≠ "";
  sg_orderable : ∀ id lc, c_Get w id = Some lc → orderable (e_data (ent w lc));
}.

(** The entries stay allocated and keep their id and details; the cache only grows. *)
Record kept w w' : Prop := {
  kp_live : ∀ l, live w l → live w' l;
  kp_id : ∀ l, live w l → e_id (ent w' l) = e_id (ent w l);
  kp_data : ∀ l, live w l → e_data (ent w' l) = e_data (ent w l);
  kp_cache : ∀ id lc, c_Get w id = Some lc → c_Get w' id = Some lc;
}.
Lemma kept_trans w1 w2 w3 : kept w1 w2 → kept w2 w3 → kept w1 w3.
Proof.
  intros [] []. split; auto.
  - intros l Hl. rewrite kp_id1, kp_id0; auto.
  - intros l Hl. rewrite kp_data1, kp_data0; auto.
Qed.

(** The version of an entry that is shown: the cached one when there is one. *)
Definition shown_of w (l : loc) : loc := default l (c_Get w (e_id (ent w l))).

(** Putting a key that may be listed already. *)
Lemma set_shown s sk id d0 :
  tracked orderable (with_skl s sk) → orderable d0 → (∀ d, (id, d) ∈ keys_of (with_skl s sk) → d = d0) →
  let s' := with_skl s (sk_Set (ss_Compare (ss_order s)) sk (id, d0)) in
  tracked orderable s' ∧ ∀ x, x ∈ keys_of s' ↔ x = (id, d0) ∨ x ∈ keys_of (with_skl s sk).
Proof.
  intros Ht Ho Hold s'. destruct (decide (id ∈ (keys_of (with_skl s sk)).*1)) as [([i d] & E0 & Hin)%list_elem_of_fmap|Hnin].
  - simpl in E0. subst i. rewrite (Hold d Hin) in Hin.
    assert (sk_elems (sk_Set (ss_Compare (ss_order s)) sk (id, d0)) = sk_elems sk) as E.
    { apply sk_Set_present; [|by apply (tr_sorted _ _ Ht)|done].
      eapply cmp_on_impl; [|apply (ss_Compare_cmp_on _ orderable (tr_order _ _ Ht) _ (tr_distinct _ _ Ht))].
      simpl. intros x [->|?]%elem_of_cons; done. }
    subst s'. unfold keys_of in *. simpl in *. rewrite E. split; [|naive_solver].
    destruct Ht. split; unfold keys_of in *; simpl in *; rewrite ?E; done.
  - destruct (set_tracked orderable (with_skl s sk) (id, d0) Ht Ho) as (H1 & _ & H2); [|done].
    intros [i d] Hx E. simpl in E. subst i. apply Hnin. by apply (list_elem_of_fmap_2 fst) in Hx.
Qed.

Lemma init_entry_spec w s sk ents l w' sk' ents' :
  starting w (with_skl s sk) → live w l → e_id (ent w l) ≠ "" → orderable (e_data (ent w l)) →
  init_entry s (w, sk, ents) l = (w', sk', ents') →
  starting w' (with_skl s sk') ∧ kept w w' ∧ c_Get w' (e_id (ent w l)) = Some (shown_of w l) ∧
  (∀ x, x ∈ keys_of (with_skl s sk') ↔
     x = (e_id (ent w l), e_data (ent w (shown_of w l))) ∨ x ∈ keys_of (with_skl s sk)) ∧
  (∀ id lc, c_Get w' id = Some lc → c_Get w id = Some lc ∨ lc = shown_of w l).
Proof.
  intros [Ht Hc Hk Hne Ho] Hl Hid Hol. unfold init_entry, c_GetOrSet, shown_of, c_Get.
  set (id := e_id (ent w l)) in *. set (l' := default l (w_cache w !! id)).
  set (w1 := with_cache w (<[id:=l']> (w_cache w))).
  assert (match w_cache w !! id with Some res => (res, w) | None => (l, with_cache w (<[id:=l]> (w_cache w))) end = (l', w1)) as ->.
  { unfold w1, l'. destruct (w_cache w !! id) as [lc|] eqn:E; simpl; [|done]. rewrite insert_id by done. by destruct w. }
  assert (live w l' ∧ e_id (ent w l') = id ∧ orderable (e_data (ent w l'))) as (Hl' & Eid & Hol').
  { unfold l'. destruct (w_cache w !! id) as [lc|] eqn:E; simpl; [|done]. destruct (Hc _ _ E). split_and!; [done..|]. by eapply Ho. }
  intros [= <- <- <-]. set (w2 := upd w1 l' _).
  assert (∀ x, live w x → live w2 x ∧ e_id (ent w2 x) = e_id (ent w x) ∧ e_data (ent w2 x) = e_data (ent w x)) as Hsame.
  { intros x Hx. assert (live w1 l') by done. split; [by apply live_upd|]. unfold w2. rewrite ent_upd by done.
    case_bool_decide as E; [subst x; apply SetSub_id|done]. }
  assert (∀ id' lc, c_Get w2 id' = Some lc ↔ (id' = id ∧ lc = l') ∨ (id' ≠ id ∧ c_Get w id' = Some lc)) as Hget.
  { intros id' lc. unfold c_Get. simpl. rewrite lookup_insert_Some. naive_solver. }
  assert (∀ x, live w x → ss_id s ∈ e_subIds (ent w2 x) ↔ x = l' ∨ ss_id s ∈ e_subIds (ent w x)) as Hsub.
  { intros x Hx. unfold w2. rewrite ent_upd by done. case_bool_decide; [subst x; rewrite SetSub_subIds; naive_solver|].
    change (ent w1 x) with (ent w x). naive_solver. }
  destruct (Hsame l' Hl') as (_ & Ei2 & Ed2). rewrite Ei2, Ed2, Eid.
  assert (∀ d, (id, d) ∈ keys_of (with_skl s sk) → d = e_data (ent w l')) as Hold.
  { intros d (lc & Hlc & <- & _)%Hk. unfold c_Get in Hlc. unfold l'. by rewrite Hlc. }
  set (k := (id, e_data (ent w l'))) in *.
  destruct (set_shown s sk id (e_data (ent w l')) Ht Hol' Hold) as [Ht' Hk']. fold k in Ht', Hk'.
  split_and!.
  - split; [done|..].
    + intros id' lc [[-> ->]|[? Hlc]]%Hget; [|destruct (Hc _ _ Hlc) as [Hlv <-]].
      * by destruct (Hsame l' Hl') as (? & -> & _).
      * by destruct (Hsame lc Hlv) as (? & -> & _).
    + intros id' d. rewrite Hk', Hk. simpl. setoid_rewrite Hget. split.
      * intros [[= -> ->]|(lc & Hlc & <- & Hs)].
        -- exists l'. split_and!; [by left|done|]. apply Hsub; [done|by left].
        -- destruct (Hc _ _ Hlc) as [Hlv Elc]. exists lc. destruct (Hsame lc Hlv) as (_ & _ & ->).
           split_and!; [|done|apply Hsub; [done|by right]]. destruct (decide (id' = id)) as [->|]; [left|by right].
           split; [done|]. unfold l', c_Get in *. by rewrite Hlc.
      * intros (lc & [[-> ->]|[Hne' Hlc]] & <- & Hs); [left; by rewrite Ed2|right]. destruct (Hc _ _ Hlc) as [Hlv Elc].
        exists lc. destruct (Hsame lc Hlv) as (_ & _ & ->). split_and!; [done..|]. apply Hsub in Hs as [->|?]; [|done|done]. congruence.
    + intros x [->|?]%Hk'; [done|by apply Hne].
    + intros id' lc [[_ ->]|[? Hlc]]%Hget; [by rewrite Ed2|]. destruct (Hc _ _ Hlc) as [Hlv _].
      destruct (Hsame lc Hlv) as (_ & _ & ->). by eapply Ho.
  - split; [intros x Hx; by apply Hsame..|]. intros id' lc Hlc. apply Hget. destruct (decide (id' = id)) as [->|]; [left|by right].
    split; [done|]. unfold l', c_Get in *. by rewrite Hlc.
  - apply Hget. by left.
  - done.
  - intros id' lc [[_ ->]|[_ ?]]%Hget; [by right|by left].
Qed.

(** The entries a new subscription may show: the given ones and the cached ones. *)
Definition candidate w (ents : list loc) (x : skey) : Prop :=
  ∃ l, (l ∈ ents ∨ ∃ id, c_Get w id = Some l) ∧ x = (e_id (ent w l), e_data (ent w l)).

Lemma init_entries_spec s ents : ∀ w sk acc w' sk' acc',
  starting w (with_skl s sk) →
  (∀ l, l ∈ ents → live w l ∧ e_id (ent w l) ≠ "" ∧ orderable (e_data (ent w l))) →
  foldl (init_entry s) (w, sk, acc) ents = (w', sk', acc') →
  starting w' (with_skl s sk') ∧ kept w w' ∧
  (∀ id, id ∈ (keys_of (with_skl s sk')).*1 ↔ id ∈ ids_of w ents ∨ id ∈ (keys_of (with_skl s sk)).*1) ∧
  (∀ x, x ∈ keys_of (with_skl s sk') → x ∈ keys_of (with_skl s sk) ∨ candidate w ents x).
Proof.
  induction ents as [|l ents IH]; intros w sk acc w' sk' acc' Hs He; cbn [foldl].
  { intros [= <- <- <-]. split_and!; [done|by split|intros id; set_solver|by left]. }
  destruct (init_entry s (w, sk, acc) l) as [[w1 sk1] acc1] eqn:E1. intros E.
  destruct (He l ltac:(left)) as (Hl & Hid & Ho).
  destruct (init_entry_spec _ _ _ _ _ _ _ _ Hs Hl Hid Ho E1) as (Hs1 & Hk1 & _ & Hkeys & Hnew).
  destruct (IH w1 sk1 acc1 w' sk' acc' Hs1) as (Hs2 & Hk2 & Hkeys2 & Hcand); [|exact E|].
  { intros l' Hin. destruct (He l') as (? & ? & ?); [by right|].
    split_and!; [by apply (kp_live _ _ Hk1)|by rewrite (kp_id _ _ Hk1)|by rewrite (kp_data _ _ Hk1)]. }
  assert (live w (shown_of w l) ∧ e_id (ent w (shown_of w l)) = e_id (ent w l) ∧
          (shown_of w l ∈ l :: ents ∨ ∃ id, c_Get w id = Some (shown_of w l))) as (Lsh & Esh & Hsh).
  { unfold shown_of. destruct (c_Get w (e_id (ent w l))) as [lc|] eqn:Ec; simpl; [|split_and!; [done|done|left; left]].
    destruct (sg_cache _ _ Hs _ _ Ec). split_and!; [done..|right; eauto]. }
  split_and!; [done|by eapply kept_trans|..].
  2:{ intros x [[->|?]%Hkeys|(l' & Hl' & ->)]%Hcand; [right; exists (shown_of w l); by rewrite Esh|by left|right].
      assert (live w l' ∧ (l' ∈ l :: ents ∨ ∃ id, c_Get w id = Some l')) as [L Hin].
      { destruct Hl' as [Hin|(id & [Hlc| ->]%Hnew)]; [split; [apply He; by right|left; by right]| |done].
        split; [by eapply (sg_cache _ _ Hs)|right; eauto]. }
      exists l'. rewrite (kp_id _ _ Hk1), (kp_data _ _ Hk1) by done. done. }
  intros id. rewrite Hkeys2, ids_of_cons, elem_of_cons.
  assert (ids_of w1 ents = ids_of w ents) as ->.
  { apply ids_of_ext. intros l' Hin. apply (kp_id _ _ Hk1). apply He. by right. }
  assert (id ∈ (keys_of (with_skl s sk1)).*1 ↔ id = e_id (ent w l) ∨ id ∈ (keys_of (with_skl s sk)).*1) as ->; [|tauto].
  rewrite !list_elem_of_fmap. setoid_rewrite Hkeys. split.
  - intros (x & -> & [->|?]); [by left|right; eauto].
  - intros [->|(x & -> & ?)]; [|eauto]. eexists. split; [|by left]. done.
Qed.

(** The first version of an object that was not cached is the one that is shown. *)
Lemma init_entries_first s ents : ∀ w sk acc w' sk' acc',
  starting w (with_skl s sk) →
  (∀ l, l ∈ ents → live w l ∧ e_id (ent w l) ≠ "" ∧ orderable (e_data (ent w l))) →
  foldl (init_entry s) (w, sk, acc) ents = (w', sk', acc') →
  (∀ x, x ∈ keys_of (with_skl s sk) → x ∈ keys_of (with_skl s sk')) ∧
  ∀ l1 l l2, ents = l1 ++ l :: l2 → e_id (ent w l) ∉ ids_of w l1 → c_Get w (e_id (ent w l)) = None →
    (e_id (ent w l), e_data (ent w l)) ∈ keys_of (with_skl s sk').
Proof.
  induction ents as [|l ents IH]; intros w sk acc w' sk' acc' Hs He; cbn [foldl].
  { intros [= <- <- <-]. split; [done|]. intros l1 l l2 E. by destruct l1. }
  destruct (init_entry s (w, sk, acc) l) as [[w1 sk1] acc1] eqn:E1. intros E.
  destruct (He l ltac:(left)) as (Hl & Hid & Ho).
  destruct (init_entry_spec _ _ _ _ _ _ _ _ Hs Hl Hid Ho E1) as (Hs1 & Hk1 & _ & Hkeys & Hnew).
  destruct (IH w1 sk1 acc1 w' sk' acc' Hs1) as [Hmono Hfirst]; [|exact E|].
  { intros l' Hin. destruct (He l') as (? & ? & ?); [by right|].
    split_and!; [by apply (kp_live _ _ Hk1)|by rewrite (kp_id _ _ Hk1)|by rewrite (kp_data _ _ Hk1)]. }
  split; [intros x Hx; apply Hmono, Hkeys; by right|]. intros [|l0 l1] l' l2 [= -> Eents] Hno Hnc.
  - apply Hmono, Hkeys. left. unfold shown_of. by rewrite Hnc.
  - rewrite ids_of_cons, not_elem_of_cons in Hno. destruct Hno as [Hne Hno].
    assert (l' ∈ l0 :: ents) as Hin' by (rewrite Eents; set_solver). destruct (He l' Hin') as (L' & _ & _).
    rewrite <- (kp_id _ _ Hk1 l' L'), <- (kp_data _ _ Hk1 l' L'). apply (Hfirst l1 l' l2 Eents).
    + rewrite (kp_id _ _ Hk1 l' L'). rewrite (ids_of_ext w); [done|]. intros l3 Hl3. apply (kp_id _ _ Hk1). apply He. rewrite Eents. set_solver.
    + rewrite (kp_id _ _ Hk1 l' L'). destruct (c_Get w1 (e_id (ent w l'))) as [lc|] eqn:Ec; [|done]. exfalso.
      destruct (Hnew _ _ Ec) as [?|Elc]; [congruence|]. destruct (sg_cache _ _ Hs1 _ _ Ec) as [_ Eid]. apply Hne. rewrite <- Eid, Elc.
      assert (live w (shown_of w l0) ∧ e_id (ent w (shown_of w l0)) = e_id (ent w l0)) as [Lsh Esh].
      { unfold shown_of. destruct (c_Get w (e_id (ent w l0))) as [lc0|] eqn:Ec0; simpl; [|done]. by apply (sg_cache _ _ Hs). }
      by rewrite (kp_id _ _ Hk1), Esh.
Qed.

Lemma take_limit_fmap {A B} (f : A → B) n l : f <$> take_limit n l = take_limit n (f <$> l).
Proof. unfold take_limit. destruct (0 <? n)%Z; [apply fmap_take|done]. Qed.

Lemma nth_el_list (next : elem → option elem) els : ∀ fuel i offset,
  (∀ j e, els !! j = Some e → next e = els !! S j) → (length els ≤ fuel)%nat → (i < offset)%Z →
  nth_el next fuel i offset (head els) = els !! Z.to_nat (offset - i - 1).
Proof.
  induction els as [|e els IH]; intros fuel i offset Hn Hf Hi; [by destruct fuel|].
  destruct fuel as [|fuel]; [simpl in Hf; lia|]. cbn [head nth_el]. destruct (i + 1 =? offset)%Z eqn:E.
  - replace (Z.to_nat (offset - i - 1)) with O by lia. done.
  - replace (Z.to_nat (offset - i - 1)) with (S (Z.to_nat (offset - (i + 1) - 1))) by lia. cbn [lookup list_lookup].
    assert (next e = head els) as -> by (rewrite (Hn O e) by done; by destruct els).
    apply IH; [intros j e' Hj; exact (Hn (S j) e' Hj)|simpl in Hf; lia|lia].
Qed.

Lemma activate_steady x sid w ids :
  cache_ok w → (∀ z lc, x = sid → z ∈ ids → c_Get w z = Some lc → sid ∈ e_subIds (ent w lc)) → steady x w (foldl (activate sid) w ids).
Proof.
  intros Hc Hs. apply steady_fold with (P := λ w z, ∀ lc, c_Get w z = Some lc → live w lc ∧ (x = sid → sid ∈ e_subIds (ent w lc))).
  - intros w0 w1 z [E Hl1 _ _ Hsub] HP lc. unfold c_Get. rewrite E. intros [? Hx]%HP. split; [auto|]. intros ->. apply Hsub; auto.
  - intros w0 z HP. unfold activate. destruct (c_Get w0 z) as [lc|]; [|apply steady_refl].
    destruct (HP lc eq_refl) as [? Hx]. apply SetSub_steady; [done|]. intros ->. auto.
  - intros z Hz lc Hlc. split; [by eapply Hc|]. intros ->. by eapply Hs.
Qed.

(** The anchor of a subscription with an offset: the last object that is skipped. *)
Definition anchor_of s : option elem :=
  if (0 <? ss_offset s)%Z then sk_elems (ss_skl s) !! Z.to_nat (ss_offset s - 1) else None.
Lemma set_anchor_spec w s :
  ss_afterId s = "" → ss_beforeId s = "" → ss_afterEl s = None → ss_beforeEl s = None →
  (setBeforeAndAfterElements w s = (Some ErrNoRecords, s) ∧ (Z.of_nat (length (keys_of s)) < ss_offset s)%Z) ∨
  ∃ s2, setBeforeAndAfterElements w s = (None, s2) ∧ (ss_offset s ≤ Z.of_nat (length (keys_of s)))%Z ∧
    s2 = with_anchors s (ss_afterId s2) (ss_afterEl s2) None ∧
    (∀ el, ss_afterEl s2 = Some el → el ∈ sk_elems (ss_skl s)) ∧ ss_afterEl s2 = anchor_of s ∧
    window s2 = take_limit (ss_limit s) (drop (Z.to_nat (ss_offset s)) (keys_of s)).*1.
Proof.
  intros Ha Hb Hae Hbe. unfold setBeforeAndAfterElements. rewrite Ha, Hb. simpl.
  assert (length (keys_of s) = length (sk_elems (ss_skl s))) as Elen by (unfold keys_of; apply length_fmap).
  destruct (0 <? ss_offset s)%Z eqn:Eo.
  - rewrite sk_Front_elems, (nth_el_list _ (sk_elems (ss_skl s))); [|intros j e; apply sk_Next_elems|by rewrite sk_Len_elems|lia].
    replace (ss_offset s - 0 - 1)%Z with (ss_offset s - 1)%Z by lia.
    destruct (sk_elems (ss_skl s) !! Z.to_nat (ss_offset s - 1)) as [el|] eqn:El.
    + right. simpl. eexists. split; [done|]. simpl. rewrite Hbe. pose proof (lookup_lt_Some _ _ _ El) as Hlt.
      split_and!; [lia|done|intros ? [= <-]; by eapply list_elem_of_lookup_2|unfold anchor_of; by rewrite Eo, El|].
      pose proof (take_drop_middle _ _ _ El) as Hmid. replace (S (Z.to_nat (ss_offset s - 1))) with (Z.to_nat (ss_offset s)) in Hmid by lia.
      set (s2 := with_anchors s _ _ _). destruct (window_eq s2 (drop (Z.to_nat (ss_offset s)) (sk_elems (ss_skl s)))) as [-> _]; [done| |].
      { simpl. by eexists. }
      unfold keys_of. by rewrite take_limit_fmap, take_limit_fmap, fmap_drop.
    + left. rewrite Hae. split; [done|]. apply lookup_ge_None in El. lia.
  - right. exists s. split_and!; [done|lia|by destruct s; simpl in *; subst|by rewrite Hae|unfold anchor_of; by rewrite Eo|].
    destruct (window_eq s (sk_elems (ss_skl s))) as [-> _]; [done|by rewrite Hae|].
    replace (Z.to_nat (ss_offset s)) with O by lia. unfold keys_of. by rewrite take_limit_fmap, take_limit_fmap.
Qed.

Lemma diff_ready_new ids : diff_ready ids (newListDiff ids).
Proof. split; simpl; try done. intros x. rewrite foldl_union_spec. set_solver. Qed.

Lemma started_ok w s s2 :
  starting w s → ss_started s = true → ss_depSub s = None →
  s2 = with_anchors s (ss_afterId s2) (ss_afterEl s2) None → (∀ el, ss_afterEl s2 = Some el → el ∈ sk_elems (ss_skl s)) →
  sub_ok (foldl (activate (ss_id s2)) w (window s2)) (with_shown s2 (Some (newListDiff (window s2))) (counter_of s2)).
Proof.
  intros [Ht Hc Hk Hne Ho] Hst Hdep Es Hanc.
  assert (ss_id s2 = ss_id s) as Eid by (by rewrite Es). assert (keys_of s2 = keys_of s) as Ek by (by rewrite Es).
  assert (ss_skl s2 = ss_skl s) as Esk by (by rewrite Es). assert (ss_beforeEl s2 = None) as Hbe by (by rewrite Es).
  rewrite <- Esk in Hanc.
  assert (steady (ss_id s2) w (foldl (activate (ss_id s2)) w (window s2))) as Hsd.
  { apply activate_steady; [done|]. intros z lc _ Hz Hlc.
    destruct (window_in_keys s2 z Hbe Hanc Hz) as [d (lc' & Hlc' & _ & ?)%(eq_ind_r (λ ks, (z, d) ∈ ks → _) (proj1 (Hk z d)) Ek)].
    rewrite Eid. congruence. }
  set (w' := foldl _ w _) in *.
  assert (∀ id lc, c_Get w' id = Some lc ↔ c_Get w id = Some lc) as Ec by (intros; unfold c_Get; by rewrite (sd_cache _ _ _ Hsd)).
  split; simpl; try done.
  - destruct Ht as [T1 T2 T3]. rewrite Es. by split.
  - by rewrite Es.
  - intros id lc Hlc%Ec. destruct (Hc _ _ Hlc) as [? <-]. split; [by apply (sd_live _ _ _ Hsd)|by apply (sd_id _ _ _ Hsd)].
  - intros id d. change (keys_of (with_shown s2 (Some (newListDiff (window s2))) (counter_of s2))) with (keys_of s2).
    rewrite Ek, Hk, <- Eid. setoid_rewrite Ec. split; intros (lc & Hlc & Ed & Hs); destruct (Hc _ _ Hlc) as [L _]; exists lc.
    + by rewrite (sd_data _ _ _ Hsd), (sd_subs _ _ _ Hsd).
    + by rewrite (sd_data _ _ _ Hsd) in Ed; rewrite (sd_subs _ _ _ Hsd) in Hs.
  - intros x. change (keys_of (with_shown s2 (Some (newListDiff (window s2))) (counter_of s2))) with (keys_of s2). rewrite Ek. apply Hne.
  - by rewrite Es.
  - eexists. split; [done|]. apply diff_ready_new.
Qed.

(** The empty list. *)
Lemma new_starting w s :
  order_ok orderable s → cache_ok w → (∀ id lc, c_Get w id = Some lc → ss_id s ∉ e_subIds (ent w lc) ∧ orderable (e_data (ent w lc))) →
  starting w (with_skl s sk_New).
Proof.
  intros Ho Hc Hcs. assert (keys_of (with_skl s sk_New) = []) as Ek by (unfold keys_of; simpl; by rewrite sk_New_elems).
  split; [split; [done|..]; rewrite Ek|done|..]; rewrite ?Ek.
  - split; constructor.
  - constructor.
  - intros id d. split; [set_solver|]. intros (lc & Hlc & _ & Hin). by apply Hcs in Hlc as [? _].
  - set_solver.
  - intros id lc Hlc. by eapply Hcs.
Qed.

Lemma set_anchors_same w s : ∃ a b c, (setBeforeAndAfterElements w s).2 = with_anchors s a b c.
Proof.
  assert (∀ s : sortedSub order, ∃ a b c, s = with_anchors s a b c) as Hid by (intros [] ; by eexists _, _, _).
  unfold setBeforeAndAfterElements. destruct (bool_decide (ss_afterId s ≠ "")).
  { destruct (find_el w s (ss_afterId s)); [|apply Hid]. by eexists _, _, _. }
  destruct (bool_decide (ss_beforeId s ≠ "")). { destruct (find_el w s (ss_beforeId s)); [|apply Hid]. by eexists _, _, _. }
  destruct (0 <? ss_offset s)%Z; [|apply Hid]. cbv zeta.
  destruct (nth_el _ _ _ _ _) as [el|]; [by eexists _, _, _|]. destruct (ss_afterEl s); apply Hid.
Qed.

(** A new subscription whose dependent objects are switched off: [init] adds the
    entries, places the anchor and shows the window. *)
Lemma ss_init_spec v s ents :
  order_ok orderable s → ss_disableDep s = true → ss_depSub s = None →
  ss_afterId s = "" → ss_beforeId s = "" → ss_afterEl s = None → ss_beforeEl s = None →
  cache_ok (en_w v) → (∀ id lc, c_Get (en_w v) id = Some lc → ss_id s ∉ e_subIds (ent (en_w v) lc) ∧ orderable (e_data (ent (en_w v) lc))) →
  (∀ l, l ∈ ents → live (en_w v) l ∧ e_id (ent (en_w v) l) ≠ "" ∧ orderable (e_data (ent (en_w v) l))) →
  let '(err, v', s') := ss_init v s ents in
  (∀ id, id ∈ (keys_of s').*1 ↔ id ∈ ids_of (en_w v) ents) ∧ NoDup (keys_of s').*1 ∧
  (∀ x, x ∈ keys_of s' → candidate (en_w v) ents x) ∧
  (err = None ∧ sub_ok (en_w v') s' ∧ (ss_offset s ≤ Z.of_nat (length (keys_of s')))%Z ∧ ss_afterEl s' = anchor_of s' ∧
     window s' = take_limit (ss_limit s) (drop (Z.to_nat (ss_offset s)) (keys_of s')).*1 ∨
   err = Some ErrNoRecords ∧ (Z.of_nat (length (keys_of s')) < ss_offset s)%Z ∧ ss_diff s' = ss_diff s).
Proof.
  intros Ho Hd Hdep Ha Hb Hae Hbe Hc Hcs He. unfold ss_init.
  set (s0 := with_start s true (ss_entriesBeforeStarted s)).
  destruct (foldl (init_entry s0) (en_w v, sk_New, []) ents) as [[w sk] ents'] eqn:E.
  destruct (init_entries_spec s0 ents (en_w v) sk_New [] w sk ents') as (Hs & Hk & Hkeys & Hcand); [by apply new_starting|done..|].
  set (s1 := with_skl s0 sk) in *.
  assert (∀ id, id ∈ (keys_of s1).*1 ↔ id ∈ ids_of (en_w v) ents) as Hids.
  { intros id. rewrite Hkeys. unfold keys_of at 1. simpl. rewrite sk_New_elems. set_solver. }
  assert (∀ x, x ∈ keys_of s1 → candidate (en_w v) ents x) as Hcand1.
  { intros x [Hx|?]%Hcand; [|done]. unfold keys_of in Hx. simpl in Hx. rewrite sk_New_elems in Hx. by apply elem_of_nil in Hx. }
  assert (NoDup (keys_of s1).*1) as Hnd by apply (tr_distinct _ _ (sg_tracked _ _ Hs)).
  destruct (set_anchor_spec w s1) as [(Ea & Hoff)|(s2 & Ea & Hoff & Es2 & Hanc & Hao & HW)]; [done..| |]; rewrite Ea.
  - split_and!; [done..|]. right. done.
  - rewrite Es2. cbn [ss_disableDep with_shown with_anchors]. change (ss_disableDep s1) with (ss_disableDep s). rewrite Hd.
    rewrite <- Es2. assert (keys_of s2 = keys_of s1) as Ek by (by rewrite Es2).
    change (keys_of (with_shown s2 _ _)) with (keys_of s2). rewrite Ek. split_and!; [done..|]. left. split; [done|]. split_and!.
    + by apply (started_ok w s1 s2).
    + done.
    + change (ss_afterEl s2 = anchor_of s2). rewrite Hao, Es2. done.
    + exact HW.
Qed.

Lemma ss_init_first v s ents l1 l l2 :
  order_ok orderable s → cache_ok (en_w v) →
  (∀ id lc, c_Get (en_w v) id = Some lc → ss_id s ∉ e_subIds (ent (en_w v) lc) ∧ orderable (e_data (ent (en_w v) lc))) →
  (∀ l, l ∈ ents → live (en_w v) l ∧ e_id (ent (en_w v) l) ≠ "" ∧ orderable (e_data (ent (en_w v) l))) →
  ents = l1 ++ l :: l2 → e_id (ent (en_w v) l) ∉ ids_of (en_w v) l1 → c_Get (en_w v) (e_id (ent (en_w v) l)) = None →
  ss_disableDep s = true →
  (e_id (ent (en_w v) l), e_data (ent (en_w v) l)) ∈ keys_of (ss_init v s ents).2.
Proof.
  intros Ho Hc Hcs He Eents Hno Hnc Hdd. unfold ss_init. set (s0 := with_start s true (ss_entriesBeforeStarted s)).
  destruct (foldl (init_entry s0) (en_w v, sk_New, []) ents) as [[w sk] ents'] eqn:E.
  destruct (init_entries_first s0 ents (en_w v) sk_New [] w sk ents') as [_ Hf]; [by apply new_starting|done..|].
  specialize (Hf l1 l l2 Eents Hno Hnc). destruct (set_anchors_same w (with_skl s0 sk)) as (a & b & c & Ea).
  destruct (setBeforeAndAfterElements w (with_skl s0 sk)) as [[err|] s2]; simpl in Ea; subst s2; [done|].
  cbn [ss_disableDep with_shown with_anchors with_skl with_start s0]. by rewrite Hdd.
Qed.
End batch.
