(* ===== verification/SubKinds.v ===== *)
(** * Subscriptions to given objects and to groups

    [core/subscription/ids.go] follows a fixed set of ids, [group.go] the groups of
    a kanban view, which [core/kanban/group_tag.go] computes from the tags of the
    objects. *)

From S2P Require Import Prelude Slice SliceDiff GoFloat Values Details Filter SubCache SubContext SubDep.

(** ** Subscriptions to ids *)

(** The map holds a nil pointer for an id whose object is not known yet; of an
    entry only the details are read.  [is_hasDs] tells whether the dependency
    service is set. *)
Record idsSub := {
  is_id : string;
  is_keys : list string;
  is_started : bool;
  is_entriesBeforeStarted : list loc;
  is_entryMap : gmap string (option Details);
  is_depKeys : list string;
  is_depSub : option simpleSub;
  is_hasDs : bool;
}.

Definition newIdsSub (id : string) (keys : list string) (isDep : bool) : idsSub :=
  {| is_id := id; is_keys := keys; is_started := false; is_entriesBeforeStarted := []; is_entryMap := ∅; is_depKeys := [];
     is_depSub := None; is_hasDs := negb isDep |}.
Definition with_entryMap (s : idsSub) (m : gmap string (option Details)) : idsSub :=
  {| is_id := is_id s; is_keys := is_keys s; is_started := is_started s; is_entriesBeforeStarted := is_entriesBeforeStarted s;
     is_entryMap := m; is_depKeys := is_depKeys s; is_depSub := is_depSub s; is_hasDs := is_hasDs s |}.
Definition with_is_start (s : idsSub) (b : bool) (ls : list loc) : idsSub :=
  {| is_id := is_id s; is_keys := is_keys s; is_started := b; is_entriesBeforeStarted := ls;
     is_entryMap := is_entryMap s; is_depKeys := is_depKeys s; is_depSub := is_depSub s; is_hasDs := is_hasDs s |}.
Definition with_is_dep (s : idsSub) (keys : list string) (d : option simpleSub) : idsSub :=
  {| is_id := is_id s; is_keys := is_keys s; is_started := is_started s; is_entriesBeforeStarted := is_entriesBeforeStarted s;
     is_entryMap := is_entryMap s; is_depKeys := keys; is_depSub := d; is_hasDs := is_hasDs s |}.

(** In the order of the map. *)
Definition is_getActiveEntries (s : idsSub) : list (string * Details) :=
  omap (λ kv, (λ d, (kv.1, d)) <$> kv.2) (map_to_list (is_entryMap s)).
Definition is_getActiveRecords (s : idsSub) : list Details := (λ kd, d_CopyOnlyKeys kd.2 (is_keys s)) <$> is_getActiveEntries s.
Definition is_close (w : world) (s : idsSub) : world :=
  let w := foldl (λ w id, c_RemoveSubId w id (is_id s)) w (map_to_list (is_entryMap s)).*1 in
  match is_depSub s with Some d => sp_close w d | None => w end.

Definition addId (st : world * idsSub) (id : string) : world * idsSub :=
  let '(w, s) := st in
  match is_entryMap s !! id with
  | Some _ => st
  | None =>
      match c_Get w id with
      | Some l => (upd w l (λ e, SetSub e (is_id s) true false), with_entryMap s (<[id:=Some (e_data (ent w l))]> (is_entryMap s)))
      | None => (w, with_entryMap s (<[id:=None]> (is_entryMap s)))
      end
  end.
Definition addIds (w : world) (s : idsSub) (ids : list string) : world * idsSub := foldl addId (w, s) ids.

Section ids.
Context `{!SubStore}.

Definition is_init (v : env) (s : idsSub) (entries : list loc) : env * idsSub :=
  let s := with_is_start s true (is_entriesBeforeStarted s) in
  let '(w, s) :=
    foldl (λ '(w, s) l,
             let '(l, w) := c_GetOrSet w l in
             (upd w l (λ e, SetSub e (is_id s) true true),
              with_entryMap s (<[e_id (ent w l):=Some (e_data (ent w l))]> (is_entryMap s)))) (en_w v, s) entries in
  let v := with_w v w in
  if negb (is_hasDs s) then (v, s)
  else
    let '(dKeys, d) := depKeys (en_ds v) (is_keys s) in
    let v := with_ds v d in
    match dKeys with
    | [] => (v, with_is_dep s [] (is_depSub s))
    | _ =>
        let '(v, dep) := makeSubscriptionByEntries v (is_id s) entries (is_getActiveEntries s) (is_keys s) dKeys [] in
        (v, with_is_dep s dKeys (Some dep))
    end.

Definition is_entryChange (st : env * idsSub * bool) (l : loc) : env * idsSub * bool :=
  let '(v, s, changed) := st in
  let id := e_id (ent (en_w v) l) in
  match is_entryMap s !! id with
  | None => st
  | Some oldEntry =>
      if negb (is_started s) then (v, with_is_start s false (is_entriesBeforeStarted s ++ [l]), changed)
      else
        let ctx := en_ctx v in
        let ctx := if bool_decide (is_Some oldEntry) then ctx
                   else add_position ctx [{| op_id := id; op_subId := is_id s; op_afterId := ""; op_keys := is_keys s; op_isAdd := true |}] in
        let ctx := add_change ctx [{| oc_id := id; oc_subId := is_id s; oc_keys := is_keys s |}] in
        (v_SetSub (with_ctx v ctx) l (is_id s) true false,
         with_entryMap s (<[id:=Some (e_data (ent (en_w v) l))]> (is_entryMap s)), true)
  end.
Definition is_onChange (v : env) (s : idsSub) : env * idsSub :=
  let '(v, s, changed) := foldl is_entryChange (v, s, false) (cx_entries (en_ctx v)) in
  match is_depSub s with
  | Some dep =>
      if changed then
        let '(v, dep) := refillSubscription v (is_id s) dep (is_getActiveEntries s) (is_depKeys s) in
        (v, with_is_dep s (is_depKeys s) (Some dep))
      else (v, s)
  | None => (v, s)
  end.
End ids.

(** ** Groups by tag *)

Record KGroup := { kg_Id : string; kg_Ids : list string }.

(** [sort.Sort] with a longer id before a shorter one, which is not stable; and the
    hex form of an md5 sum. *)
Class Kanban := { sort_groups : list KGroup → list KGroup; Hash : string → string }.
Class KanbanOk `{!Kanban} := {
  sort_groups_perm gs : sort_groups gs ≡ₚ gs;
  sort_groups_sorted gs : StronglySorted (λ a b, String.length (kg_Id b) ≤ String.length (kg_Id a)) (sort_groups gs);
}.

Definition RelationKeyRelationKey : string := "relationKey".

(** The options of the relation first: they are objects too. *)
Definition single_group (key : string) (st : list KGroup * gset string) (rec : Details) : list KGroup * gset string :=
  let '(groups, uniq) := st in
  if bool_decide (d_GetString rec RelationKeyRelationKey = key) then
    let id := d_GetString rec RelationKeyId in
    if bool_decide (id ∈ uniq) then st else (groups ++ [{| kg_Id := id; kg_Ids := [id] |}], {[id]} ∪ uniq)
  else st.
Definition multi_group (key : string) (st : list KGroup * gset string) (rec : Details) : list KGroup * gset string :=
  let '(groups, uniq) := st in
  let tagIDs := Slice.Filter (d_GetStringList rec key) (λ tag, bool_decide (tag ∈ uniq)) in
  if bool_decide (1 < length tagIDs)%nat then
    let tagIDs := go_sort tagIDs in
    let hash := String.concat "" tagIDs in
    if bool_decide (hash ∈ uniq) then st else (groups ++ [{| kg_Id := hash; kg_Ids := tagIDs |}], {[hash]} ∪ uniq)
  else st.
Definition MakeGroups (key : string) (records : list Details) : list KGroup :=
  let st := foldl (single_group key) ([], ∅) records in
  (foldl (multi_group key) st records).1.
Definition MakeDataViewGroups `{!Kanban} (key : string) (records : list Details) : list Group :=
  {| g_Id := "empty"; g_Tags := [] |} ::
  ((λ g, {| g_Id := Hash (kg_Id g); g_Tags := kg_Ids g |}) <$> sort_groups (MakeGroups key records)).
Definition GroupsToStrSlice (groups : list Group) : list string := g_Id <$> groups.

(** ** Subscriptions to groups *)

Record groupSub := {
  gs_id : string;
  gs_relKey : string;
  gs_set : gset string;
  gs_filter : Details → bool;
  gs_groups : list Group;
}.
Definition newGroupSub (id relKey : string) (f : Details → bool) (groups : list Group) : groupSub :=
  {| gs_id := id; gs_relKey := relKey; gs_set := ∅; gs_filter := f; gs_groups := groups |}.
Definition with_gs (s : groupSub) (set : gset string) (groups : list Group) : groupSub :=
  {| gs_id := gs_id s; gs_relKey := gs_relKey s; gs_set := set; gs_filter := gs_filter s; gs_groups := groups |}.

Definition gs_init (w : world) (s : groupSub) (entries : list loc) : world * groupSub :=
  foldl (λ '(w, s) l,
           let '(l, w) := c_GetOrSet w l in
           (upd w l (λ e, SetSub e (gs_id s) true false), with_gs s ({[e_id (ent w l)]} ∪ gs_set s) (gs_groups s))) (w, s) entries.
Definition gs_close (w : world) (s : groupSub) : world := foldl (λ w id, c_RemoveSubId w id (gs_id s)) w (elements (gs_set s)).

Section groups.
Context `{!Kanban}.

Definition gs_entryChange (st : world * groupSub * bool) (l : loc) : world * groupSub * bool :=
  let '(w, s, checkGroups) := st in
  let e := ent w l in
  let inFilter := gs_filter s (e_data e) in
  if bool_decide (e_id e ∈ gs_set s) then
    let checkGroups :=
      match checkGroups, c_Get w (e_id e) with
      | false, Some c => negb (UnsortedEqual (d_GetStringList (e_data (ent w c)) (gs_relKey s)) (d_GetStringList (e_data e) (gs_relKey s)))
      | b, _ => b
      end in
    if inFilter then (w, s, checkGroups)
    else (c_RemoveSubId w (e_id e) (gs_id s), with_gs s (gs_set s ∖ {[e_id e]}) (gs_groups s), true)
  else if inFilter then (c_Set w l, with_gs s ({[e_id e]} ∪ gs_set s) (gs_groups s), true)
  else st.

(** The objects of the set, as the batch or else the cache has them. *)
Definition gs_records (v : env) (s : groupSub) : list Details :=
  omap (λ id, match getEntry (en_w v) (en_ctx v) id with
              | Some l => Some (e_data (ent (en_w v) l))
              | None => (λ l, e_data (ent (en_w v) l)) <$> c_Get (en_w v) id
              end) (elements (gs_set s)).

(** The groups with one of the ids, in the order of the ids. *)
Definition groups_with (groups : list Group) (ids : list string) : list Group :=
  ids ≫= λ id, filter (λ g, g_Id g = id) groups.
Definition gs_regroup (v : env) (s : groupSub) : env * groupSub :=
  let newGroups := MakeDataViewGroups (gs_relKey s) (gs_records v s) in
  let '(removedIds, addedIds) := DifferenceRemovedAdded (GroupsToStrSlice (gs_groups s)) (GroupsToStrSlice newGroups) in
  if bool_decide (removedIds = []) && bool_decide (addedIds = []) then (v, s)
  else
    (with_ctx v (add_group (en_ctx v)
       (((λ g, {| og_subId := gs_id s; og_group := g; og_remove := true |}) <$> groups_with (gs_groups s) removedIds) ++
        ((λ g, {| og_subId := gs_id s; og_group := g; og_remove := false |}) <$> groups_with newGroups addedIds))),
     with_gs s (gs_set s) newGroups).
Definition gs_onChange (v : env) (s : groupSub) : env * groupSub :=
  let '(w, s, checkGroups) := foldl gs_entryChange (en_w v, s, false) (cx_entries (en_ctx v)) in
  let v := with_w v w in
  if checkGroups then gs_regroup v s else (v, s).
End groups.
