(* ===== verification/SubService.v ===== *)
(** * The subscriptions of a space ([core/subscription/service.go])

    Changed records are collected, every subscription gets the batch in turn, and
    the events are sent to the outputs of the subscriptions. *)

From S2P Require Import Prelude Slice SliceDiff GoFloat Values Details Filter SubCache SubContext SubDep SubSorted SubTracking SubBatch SubKinds.

(** ** Collecting records *)

(** The previous version of a record that came twice is replaced by nil. *)
Fixpoint nilIfExists (id : string) (es : list (option (string * Details))) : list (option (string * Details)) :=
  match es with
  | [] => []
  | Some e :: es => if bool_decide (e.1 = id) then None :: es else Some e :: nilIfExists id es
  | None :: es => None :: nilIfExists id es
  end.
Definition collect_record (es : list (option (string * Details))) (rec : Details) : list (option (string * Details)) :=
  let id := d_GetString rec RelationKeyId in
  nilIfExists id es ++ [Some (id, rec)].
Fixpoint not_nil {A} (es : list (option A)) : list A :=
  match es with
  | [] => []
  | Some e :: es => e :: not_nil es
  | None :: es => not_nil es
  end.
Definition collect_records (recs : list Details) : list (string * Details) := not_nil (foldl collect_record [] recs).

(** The entries are allocated in the order of the list. *)
Definition new_entry (st : list loc * world) (r : string * Details) : list loc * world :=
  let '(ls, w) := st in
  let '(l, w) := alloc w (newEntry r.1 r.2) in
  (ls ++ [l], w).
Definition new_entries (w : world) (recs : list (string * Details)) : list loc * world := foldl new_entry ([], w) recs.

(** ** The subscriptions *)

(** [cheggaaa/mb]: closing the queue of a subscription gives an error when it was
    closed before. *)
Class SubQueue := queue_Close : string → option string.

Section service.
Context `{Hstore : !SubStore, Hdiff : !Mb0Diff, Hint : !LoIntersect, Hskl : !SkipList, Hkan : !Kanban, Hqueue : !SubQueue}.
Context {order : Type} `{Hso : !SubOrder order}.

(** A subscription to a collection is a sorted one whose filter also asks the
    observer of the collection. *)
Inductive subscription :=
| SubSorted (s : sortedSub order)
| SubIds (s : idsSub)
| SubGroup (s : groupSub).

(** An output of its own: whether its queue was given by the request. *)
Record internalSubOutput := { io_externallyManaged : bool }.
Definition newInternalSubOutput (given : bool) : internalSubOutput := {| io_externallyManaged := given |}.
(** A queue of its own is closed with it. *)
Definition output_close (subId : string) (o : internalSubOutput) : option string :=
  if io_externallyManaged o then None else queue_Close subId.

(** [Some None] in the map of the outputs is a nil pointer. *)
Record spaceSubs := {
  sv_keys : list string;
  sv_subs : gmap string subscription;
  sv_customOutput : gmap string (option internalSubOutput);
  sv_outputs : option (gmap string (list Event));
  sv_w : world;
  sv_ds : depService;
}.

Definition setSubscription (p : spaceSubs) (id : string) (sub : subscription) : spaceSubs :=
  {| sv_keys := if bool_decide (id ∈ sv_keys p) then sv_keys p else sv_keys p ++ [id];
     sv_subs := <[id:=sub]> (sv_subs p); sv_customOutput := sv_customOutput p; sv_outputs := sv_outputs p;
     sv_w := sv_w p; sv_ds := sv_ds p |}.
Definition deleteSubscription (p : spaceSubs) (id : string) : spaceSubs :=
  {| sv_keys := RemoveMut (sv_keys p) id; sv_subs := delete id (sv_subs p); sv_customOutput := sv_customOutput p;
     sv_outputs := sv_outputs p; sv_w := sv_w p; sv_ds := sv_ds p |}.
Definition with_sv_w (p : spaceSubs) (w : world) : spaceSubs :=
  {| sv_keys := sv_keys p; sv_subs := sv_subs p; sv_customOutput := sv_customOutput p; sv_outputs := sv_outputs p;
     sv_w := w; sv_ds := sv_ds p |}.
Definition with_sv_env (p : spaceSubs) (v : env) : spaceSubs :=
  {| sv_keys := sv_keys p; sv_subs := sv_subs p; sv_customOutput := sv_customOutput p; sv_outputs := sv_outputs p;
     sv_w := en_w v; sv_ds := en_ds v |}.
Definition with_customOutput (p : spaceSubs) (c : gmap string (option internalSubOutput)) : spaceSubs :=
  {| sv_keys := sv_keys p; sv_subs := sv_subs p; sv_customOutput := c; sv_outputs := sv_outputs p;
     sv_w := sv_w p; sv_ds := sv_ds p |}.

Definition sub_close (w : world) (sub : subscription) : world :=
  match sub with
  | SubSorted s => ss_close w s
  | SubIds s => is_close w s
  | SubGroup s => gs_close w s
  end.

Definition sub_records (sub : subscription) : list Details :=
  match sub with
  | SubSorted s => getActiveRecords s
  | SubIds s => is_getActiveRecords s
  | SubGroup _ => []
  end.

(** The output is closed first; its key stays in the map with a nil output.  When the
    queue cannot be closed the subscription stays. *)
Definition unsubscribe (p : spaceSubs) (subId : string) (sub : subscription) : option string * spaceSubs :=
  let finish p := deleteSubscription (with_sv_w p (sub_close (sv_w p) sub)) subId in
  match sv_customOutput p !! subId with
  | Some (Some out) =>
      match output_close subId out with
      | Some err => (Some err, p)
      | None => (None, finish (with_customOutput p (<[subId:=None]> (sv_customOutput p))))
      end
  | _ => (None, finish p)
  end.
Fixpoint Unsubscribe (p : spaceSubs) (subIds : list string) : option string * spaceSubs :=
  match subIds with
  | [] => (None, p)
  | subId :: subIds =>
      match sv_subs p !! subId with
      | None => Unsubscribe p subIds
      | Some sub =>
          match unsubscribe p subId sub with
          | (Some err, p) => (Some err, p)
          | (None, p) => Unsubscribe p subIds
          end
      end
  end.

Definition ErrNotFound : string := "subscription not found".
Definition UnsubscribeAndReturnIds (p : spaceSubs) (subId : string) : res (list string) * spaceSubs :=
  match sv_subs p !! subId with
  | None => (Err ErrNotFound, p)
  | Some sub =>
      match unsubscribe p subId sub with
      | (Some err, p) => (Err err, p)
      | (None, p) => (Ok ((λ r, d_GetString r RelationKeyId) <$> sub_records sub), p)
      end
  end.

(** The outputs stay as they are. *)
Definition UnsubscribeAll (p : spaceSubs) : spaceSubs :=
  {| sv_keys := []; sv_subs := ∅; sv_customOutput := sv_customOutput p; sv_outputs := sv_outputs p;
     sv_w := foldl sub_close (sv_w p) (map_to_list (sv_subs p)).*2; sv_ds := sv_ds p |}.
Definition SubscriptionIDs (p : spaceSubs) : list string := sv_keys p.

(** ** A batch *)

(** The change of a subscription, then of its dependent one. *)
Definition sub_change (v : env) (sub : subscription) : option (env * subscription) :=
  match sub with
  | SubSorted s => '(v, s) ← sub_onChange v s; Some (v, SubSorted s)
  | SubIds s =>
      let '(v, s) := is_onChange v s in
      Some (match is_depSub s with Some dep => sp_onChange v dep | None => v end, SubIds s)
  | SubGroup s => let '(v, s) := gs_onChange v s in Some (v, SubGroup s)
  end.
Fixpoint iterateSubscriptions (keys : list string) (v : env) (subs : gmap string subscription)
    : option (env * gmap string subscription) :=
  match keys with
  | [] => Some (v, subs)
  | id :: keys =>
      match subs !! id with
      | None => iterateSubscriptions keys v subs
      | Some sub => '(v, sub) ← sub_change v sub; iterateSubscriptions keys v (<[id:=sub]> subs)
      end
  end.

(** The outputs before the events are added: the default one and those of the
    subscriptions that have their own. *)
Definition reset_outputs (custom : gmap string (option internalSubOutput)) : gmap string (list Event) :=
  gset_to_gmap [] ({[defaultOutput]} ∪ dom custom).

(** Events for a nil output are a panic. *)
Definition deliverable (custom : gmap string (option internalSubOutput)) (outs : gmap string (list Event)) : bool :=
  forallb (λ '(id, msgs),
             bool_decide (msgs = []) || bool_decide (id = defaultOutput) ||
             match custom !! id with Some (Some _) => true | _ => false end) (map_to_list outs).

(** [proc] handles the entries [ls] in the order of the subscriptions; then the events
    are collected and sent.  [None] is a panic. *)
Definition onChangeWithinContext (p : spaceSubs) (ls : list loc)
    (proc : env → gmap string subscription → option (env * gmap string subscription))
    : option (spaceSubs * gmap string (list Event)) :=
  let v := {| en_w := sv_w p; en_ds := sv_ds p; en_ctx := add_entries (ctx_reset (sv_outputs p)) ls |} in
  '(v, subs) ← proc v (sv_subs p);
  let ctx := with_outputs (en_ctx v) (reset_outputs (sv_customOutput p)) in
  let '(w, ctx) := ctx_apply (en_w v) ctx in
  if deliverable (sv_customOutput p) (cx_outputs ctx) then
    Some ({| sv_keys := sv_keys p; sv_subs := subs; sv_customOutput := sv_customOutput p; sv_outputs := Some (cx_outputs ctx);
             sv_w := w; sv_ds := en_ds v |}, cx_outputs ctx)
  else None.
Definition onChange (p : spaceSubs) (entries : list (string * Details)) : option (spaceSubs * gmap string (list Event)) :=
  let '(ls, w) := new_entries (sv_w p) entries in
  onChangeWithinContext (with_sv_w p w) ls (iterateSubscriptions (sv_keys p)).
Definition recordsHandler (p : spaceSubs) (recs : list Details) : option (spaceSubs * gmap string (list Event)) :=
  onChange p (collect_records recs).

(** ** Subscribing to a query *)

Record Counters := { rc_Total : Z; rc_NextCount : Z; rc_PrevCount : Z }.
Record SubscribeResponse := {
  sr_Records : list Details;
  sr_Dependencies : list Details;
  sr_SubId : string;
  sr_Counters : Counters;
}.

(** [Search] for a query, from the point where the filters are compiled, up to the
    query itself, which runs outside the lock: an older subscription of the same id
    is closed and the new one registered, with its output when the request is an
    internal one ([Some given]).  Batches that arrive before the second part reach it,
    see [ss_entriesBeforeStarted]. *)
Definition close_existing (p : spaceSubs) (id : string) : spaceSubs :=
  match sv_subs p !! id with
  | Some existing => let p := deleteSubscription p id in with_sv_w p (sub_close (sv_w p) existing)
  | None => p
  end.
Definition set_output (p : spaceSubs) (id : string) (internal : option bool) : spaceSubs :=
  match internal with
  | Some given => with_customOutput p (<[id:=Some (newInternalSubOutput given)]> (sv_customOutput p))
  | None => p
  end.
Definition subscribe_begin (p : spaceSubs) (s : sortedSub order) (internal : option bool) : spaceSubs :=
  set_output (setSubscription (close_existing p (ss_id s)) (ss_id s) (SubSorted s)) (ss_id s) internal.

(** The response of the code exchanges the two counts. *)
Definition response_of (w : world) (s : sortedSub order) : SubscribeResponse :=
  let '(prev, next) := counters s in
  {| sr_Records := getActiveRecords s;
     sr_Dependencies := match ss_depSub s with Some dep => sp_getActiveRecords w dep | None => [] end;
     sr_SubId := ss_id s;
     sr_Counters := {| rc_Total := Z.of_nat (sk_Len (ss_skl s)); rc_NextCount := prev; rc_PrevCount := next |} |}.

(** The second part, with the result of the query, for a request that is answered at
    once.  [s] is the registered subscription, as the batches left it. *)
Definition subscribe_end (p : spaceSubs) (s : sortedSub order) (sorts : list (string * RelationFormat))
    (queried : res (list (string * Details))) : res SubscribeResponse * spaceSubs :=
  match queried with
  | Err e => (Err e, p)
  | Ok recs =>
      let '(ls, w) := new_entries (sv_w p) recs in
      let ls := ls ++ ss_entriesBeforeStarted s in
      let s := with_start s (ss_started s) [] in
      let d := registerObjectSorts (sv_ds p) (ss_id s) sorts in
      let '(err, v, s) := ss_init {| en_w := w; en_ds := d; en_ctx := ctx_reset None |} s ls in
      let p := setSubscription (with_sv_env p v) (ss_id s) (SubSorted s) in
      match err with
      | Some e => (Err e, p)
      | None => (Ok (response_of (en_w v) s), p)
      end
  end.

(** The entries of an asynchronous request, with their cached versions. *)
Definition async_entry (subId : string) (st : list loc * world) (l : loc) : list loc * world :=
  let '(ls, w) := st in
  let '(l, w) := c_GetOrSet w l in
  (ls ++ [l], upd w l (λ e, SetSub e subId false false)).

(** The second part of an asynchronous request: an empty subscription is started, and
    the entries are told with events, by the change of this subscription alone.  The
    outer [None] is a panic. *)
Definition subscribe_async (p : spaceSubs) (s : sortedSub order) (sorts : list (string * RelationFormat))
    (queried : res (list (string * Details))) : option (res SubscribeResponse * spaceSubs * gmap string (list Event)) :=
  match queried with
  | Err e => Some (Err e, p, ∅)
  | Ok recs =>
      let '(ls, w) := new_entries (sv_w p) recs in
      let ls := ls ++ ss_entriesBeforeStarted s in
      let s := with_start s (ss_started s) [] in
      let d := registerObjectSorts (sv_ds p) (ss_id s) sorts in
      let '(err, v, s) := ss_init {| en_w := w; en_ds := d; en_ctx := ctx_reset None |} s [] in
      let p := setSubscription (with_sv_env p v) (ss_id s) (SubSorted s) in
      match err with
      | Some e => Some (Err e, p, ∅)
      | None =>
          let '(ls, w) := foldl (async_entry (ss_id s)) ([], sv_w p) ls in
          '(p, outs) ← onChangeWithinContext (with_sv_w p w) ls
                         (λ v subs, '(v, s) ← ss_onChange v s; Some (v, <[ss_id s := SubSorted s]> subs));
          match sv_subs p !! ss_id s with
          | Some (SubSorted s) =>
              let resp := response_of (sv_w p) s in
              Some (Ok {| sr_Records := []; sr_Dependencies := []; sr_SubId := sr_SubId resp; sr_Counters := sr_Counters resp |}, p, outs)
          | _ => None
          end
      end
  end.

(** ** Subscribing to ids *)

Record IdsResponse := { ir_Records : list Details; ir_Dependencies : list Details; ir_SubId : string }.

(** The subscription is made before the query and registered after it. *)
Definition subscribeIds_begin (p : spaceSubs) (id : string) (keys ids : list string) (noDepSubscription : bool) : spaceSubs * idsSub :=
  let '(w, s) := addIds (sv_w p) (newIdsSub id keys noDepSubscription) ids in
  (with_sv_w p w, s).
Definition subscribeIds_end (p : spaceSubs) (s : idsSub) (queried : res (list (string * Details))) : res IdsResponse * spaceSubs :=
  match queried with
  | Err e => (Err e, p)
  | Ok recs =>
      let '(ls, w) := new_entries (sv_w p) recs in
      let ls := ls ++ is_entriesBeforeStarted s in
      let s := with_is_start s (is_started s) [] in
      let '(v, s) := is_init {| en_w := w; en_ds := sv_ds p; en_ctx := ctx_reset None |} s ls in
      (Ok {| ir_Records := is_getActiveRecords s;
             ir_Dependencies := match is_depSub s with Some dep => sp_getActiveRecords (en_w v) dep | None => [] end;
             ir_SubId := is_id s |},
       setSubscription (with_sv_env p v) (is_id s) (SubIds s))
  end.

(** ** Subscribing to groups *)

(** From the point where the grouper has its records. *)
Definition subscribeGroups_tag (p : spaceSubs) (subId relKey : string) (f : Details → bool) (records : list Details)
    : list Group * spaceSubs :=
  let groups := MakeDataViewGroups relKey records in
  let s := newGroupSub subId relKey f groups in
  let '(ls, w) := new_entries (sv_w p) ((λ r, (d_GetString r RelationKeyId, r)) <$> records) in
  let '(w, s) := gs_init w s ls in
  (groups, setSubscription (with_sv_w p w) subId (SubGroup s)).
End service.
Arguments subscription {_} order.
Arguments spaceSubs {_} order.
