(* ===== verification/SubServed.v ===== *)
(** * What the clients of a space's subscriptions see

    The stream of events of a sorted subscription, replayed by the client, keeps the
    client's list equal to a window of the sorted list of the objects that pass the
    filter, for every sequence of batches of changed records. *)

From S2P Require Import Prelude Slice SliceDiff GoFloat Values Details Filter SubCache SubContext SubDep SubSorted SubTracking SubBatch SubKinds SubService.

(** ** The records of a batch *)

Definition rec_id (r : Details) : string := d_GetString r RelationKeyId.

Lemma not_nil_app {A} (l1 l2 : list (option A)) : not_nil (l1 ++ l2) = not_nil l1 ++ not_nil l2.
Proof. induction l1 as [|[x|] l1 IH]; simpl; congruence. Qed.

Lemma nilIfExists_not_nil id es :
  NoDup (not_nil es).*1 → not_nil (nilIfExists id es) = filter (λ e, e.1 ≠ id) (not_nil es).
Proof.
  induction es as [|[e|] es IH]; simpl; [done| |done]. intros [Hn Hd]%NoDup_cons.
  rewrite filter_cons. case_bool_decide as E.
  - rewrite decide_False by tauto. simpl. symmetry. apply filter_all. intros x Hx Ex. apply Hn.
    rewrite E, <- Ex. by apply list_elem_of_fmap_2.
  - rewrite decide_True by done. simpl. by rewrite IH.
Qed.

Lemma collect_records_snoc recs r :
  NoDup (collect_records recs).*1 →
  collect_records (recs ++ [r]) = filter (λ e, e.1 ≠ rec_id r) (collect_records recs) ++ [(rec_id r, r)].
Proof.
  intros Hn. unfold collect_records. rewrite foldl_app. simpl. unfold collect_record at 1.
  rewrite not_nil_app. by rewrite nilIfExists_not_nil.
Qed.

Lemma collect_records_NoDup recs : NoDup (collect_records recs).*1.
Proof.
  induction recs as [|r recs IH] using rev_ind; [constructor|]. rewrite collect_records_snoc, fmap_app by done.
  apply NoDup_app. split_and!; [| |apply NoDup_singleton].
  - eapply sublist_NoDup; [exact IH|]. apply fmap_sublist, sublist_filter.
  - intros x (e & -> & [Hne _]%list_elem_of_filter)%list_elem_of_fmap E%list_elem_of_singleton. by apply Hne.
Qed.

(** What the objects of a query are after some records: the last version of each
    counts. *)
Definition absorb (pass : Details → bool) (M : gmap string Details) (recs : list Details) : gmap string Details :=
  foldl (λ M r, if pass r then <[rec_id r:=r]> M else delete (rec_id r) M) M recs.

Lemma absorb_app pass M rs1 rs2 : absorb pass M (rs1 ++ rs2) = absorb pass (absorb pass M rs1) rs2.
Proof. apply foldl_app. Qed.
Lemma absorb_ext (f g : Details → bool) M rs : (∀ d, f d = g d) → absorb f M rs = absorb g M rs.
Proof.
  intros H. revert M. induction rs as [|r rs IH]; intros M; [done|]. unfold absorb. cbn [foldl]. rewrite (H r). apply IH.
Qed.

Lemma absorb_collected pass M recs id d :
  absorb pass M recs !! id = Some d ↔
  ((id, d) ∈ collect_records recs ∧ pass d = true) ∨ (id ∉ (collect_records recs).*1 ∧ M !! id = Some d).
Proof.
  revert d. induction recs as [|r recs IH] using rev_ind; intros d; [set_solver|].
  unfold absorb. rewrite foldl_app. fold (absorb pass M recs). simpl.
  rewrite collect_records_snoc by apply collect_records_NoDup.
  rewrite fmap_app. setoid_rewrite elem_of_app. simpl. rewrite !list_elem_of_singleton, list_elem_of_filter. simpl.
  assert (id ∈ (filter (λ e, e.1 ≠ rec_id r) (collect_records recs)).*1 ↔ id ≠ rec_id r ∧ id ∈ (collect_records recs).*1) as ->.
  { rewrite !list_elem_of_fmap. setoid_rewrite list_elem_of_filter. naive_solver. }
  destruct (decide (id = rec_id r)) as [->|Hne].
  - destruct (pass r) eqn:Ep; [rewrite lookup_insert_eq|rewrite lookup_delete_eq].
    + split; [intros [= <-]; left; by split; [right|]|].
      intros [[[[? _]|[= ->]] _]|[Hn _]]; [done|done|exfalso; apply Hn; by right].
    + split; [done|]. intros [[[[? _]|[= ->]] ?]|[Hn _]]; [done|congruence|exfalso; apply Hn; by right].
  - assert ((if pass r then <[rec_id r:=r]> (absorb pass M recs) else delete (rec_id r) (absorb pass M recs)) !! id = absorb pass M recs !! id) as ->.
    { destruct (pass r); [by rewrite lookup_insert_ne|by rewrite lookup_delete_ne]. }
    rewrite IH. split.
    + intros [[? ?]|[? ?]]; [left|right; naive_solver]. split; [by left|done].
    + intros [[[[_ ?]|[= ? _]] ?]|[Hn ?]]; [by left|done|right]. split; [|done]. intros ?. apply Hn. by left.
Qed.

Lemma collected_id recs e : e ∈ collect_records recs → e.2 ∈ recs ∧ e.1 = rec_id e.2.
Proof.
  induction recs as [|r recs IH] using rev_ind; [set_solver|].
  rewrite collect_records_snoc by apply collect_records_NoDup.
  intros [[_ ?]%list_elem_of_filter|E%list_elem_of_singleton]%elem_of_app.
  - destruct (IH ltac:(done)). split; [set_solver|done].
  - subst e. simpl. split; [set_solver|done].
Qed.

Lemma filter_own {A} (f : A → string) k (xs : list A) : (∀ x, x ∈ xs → f x = k) → filter (λ x, f x = k) xs = xs.
Proof. intros H. apply filter_all. done. Qed.

(** ** The new entries *)

Lemma new_entries_spec recs : ∀ ls w ls' w',
  foldl new_entry (ls, w) recs = (ls', w') →
  ∃ news, ls' = ls ++ news ∧ w_cache w' = w_cache w ∧
    (∀ l, live w l → live w' l ∧ ent w' l = ent w l) ∧
    (∀ l, l ∈ news → ¬ live w l ∧ live w' l) ∧
    Forall2 (λ l r, ent w' l = newEntry r.1 r.2) news recs.
Proof.
  induction recs as [|r recs IH]; intros ls w ls' w' E; cbn [foldl] in E.
  { injection E as <- <-. exists []. rewrite app_nil_r. split_and!; try done. set_solver. }
  unfold new_entry at 2 in E. destruct (alloc w (newEntry r.1 r.2)) as [l w1] eqn:Ea.
  apply alloc_spec in Ea as (Hnl & Hl & He & Ec & Hold). destruct (IH _ _ _ _ E) as (news & -> & Ec' & Hold' & Hnew & Hf).
  exists (l :: news). rewrite <- app_assoc. split_and!; [done|congruence|..].
  - intros l' Hl'. destruct (Hold l' Hl') as [L1 E1]. destruct (Hold' l' L1) as [L2 E2]. split; [done|congruence].
  - intros l' [->|Hin]%elem_of_cons.
    + split; [done|]. by apply Hold'.
    + destruct (Hnew l' Hin) as [Hn ?]. split; [|done]. intros L. apply Hn. by apply Hold.
  - constructor; [|done]. destruct (Hold' l Hl) as [_ ->]. done.
Qed.

Lemma Forall2_ids w news (recs : list (string * Details)) :
  Forall2 (λ l r, ent w l = newEntry r.1 r.2) news recs → ids_of w news = recs.*1 ∧
  (∀ l, l ∈ news → ∃ r, r ∈ recs ∧ ent w l = newEntry r.1 r.2) ∧ (∀ r, r ∈ recs → ∃ l, l ∈ news ∧ ent w l = newEntry r.1 r.2).
Proof.
  induction 1 as [|l r news recs E Hf (IH1 & IH2 & IH3)]; [set_solver|]. rewrite ids_of_cons, fmap_cons, E, IH1.
  split_and!; [done|..].
  - intros l' [->|Hl']%elem_of_cons; [exists r; set_solver|]. destruct (IH2 l' Hl') as (r' & ? & ?). exists r'. set_solver.
  - intros r' [->|Hr']%elem_of_cons; [exists l; set_solver|]. destruct (IH3 r' Hr') as (l' & ? & ?). exists l'. set_solver.
Qed.

(** ** The stream of events *)

(** What a client does with an event for its list [l] of the subscription [sub]. *)
Definition put (l : list string) (afterId id : string) : list string :=
  place l {| op_id := id; op_subId := ""; op_afterId := afterId; op_keys := []; op_isAdd := false |}.
Definition client_event (sub : string) (l : list string) (ev : Event) : list string :=
  match ev with
  | SubAdd id afterId s | SubPosition id afterId s => if bool_decide (s = sub) then put l afterId id else l
  | SubRemove id s => if bool_decide (s = sub) then filter (λ x, x ≠ id) l else l
  | _ => l
  end.

Definition position_ev (p : opPosition) : Event :=
  if op_isAdd p then SubAdd (op_id p) (op_afterId p) (op_subId p) else SubPosition (op_id p) (op_afterId p) (op_subId p).
Definition remove_ev (r : opRemove) : Event := SubRemove (or_id r) (or_subId r).
Definition counter_ev (c : opCounter) : Event := SubCounters (cnt_total c) (cnt_nextCount c) (cnt_prevCount c) (cnt_subId c).

(** Every client picks the operations of its own subscription. *)
Lemma client_positions sub ps : ∀ l,
  foldl (client_event sub) l (position_ev <$> ps) = foldl place l (filter (λ p, op_subId p = sub) ps).
Proof.
  induction ps as [|p ps IH]; intros l; [done|]. rewrite fmap_cons, filter_cons. cbn [foldl]. rewrite IH.
  unfold position_ev. destruct (decide (op_subId p = sub)) as [E|E]; destruct (op_isAdd p); simpl; case_bool_decide; done.
Qed.

Lemma client_removes sub rs : ∀ l,
  foldl (client_event sub) l (remove_ev <$> rs) = filter (λ x, x ∉ (or_id <$> filter (λ r, or_subId r = sub) rs)) l.
Proof.
  induction rs as [|r rs IH]; intros l.
  - simpl. symmetry. apply filter_all. set_solver.
  - rewrite fmap_cons, filter_cons. cbn [foldl]. rewrite IH. simpl. destruct (decide (or_subId r = sub)) as [E|E].
    + rewrite bool_decide_eq_true_2 by done. rewrite list_filter_filter. apply filter_ext_elem.
      intros x _. rewrite fmap_cons, elem_of_cons. tauto.
    + by rewrite bool_decide_eq_false_2 by done.
Qed.

Lemma client_operations sub ps rs l :
  foldl (client_event sub) l ((position_ev <$> ps) ++ (remove_ev <$> rs)) =
  client_list l (filter (λ p, op_subId p = sub) ps) (filter (λ r, or_subId r = sub) rs).
Proof. by rewrite foldl_app, client_positions, client_removes. Qed.

(** Events the list does not depend on. *)
Definition silent (ev : Event) : Prop := match ev with SubAdd _ _ _ | SubPosition _ _ _ | SubRemove _ _ => False | _ => True end.
Lemma client_silent sub evs l : Forall silent evs → foldl (client_event sub) l evs = l.
Proof. induction 1 as [|ev evs Hs _ IH]; [done|]. simpl. by destruct ev. Qed.

(** The events the client of [sub] receives: those of the subscription's own output
    when it has one, and those of the default output otherwise. *)
Definition stream (sub : string) (outs : gmap string (list Event)) : list Event :=
  match outs !! sub with
  | Some msgs => msgs
  | None => default [] (outs !! defaultOutput)
  end.

(** The outputs [outs'] have more events than [outs], which change the list of the
    client of [sub] by [F]; there are no new outputs. *)
Record told (sub : string) (outs outs' : gmap string (list Event)) (F : list string → list string) : Prop := {
  tl_outputs : ∀ k, k ≠ defaultOutput → is_Some (outs' !! k) ↔ is_Some (outs !! k);
  tl_default : is_Some (outs !! defaultOutput) → is_Some (outs' !! defaultOutput);
  tl_events : ∃ evs, stream sub outs' = stream sub outs ++ evs ∧ ∀ l, foldl (client_event sub) l evs = F l;
}.
Lemma told_refl sub outs : told sub outs outs id.
Proof. split; [done..|]. exists []. by rewrite app_nil_r. Qed.
Lemma told_trans sub o1 o2 o3 F G : told sub o1 o2 F → told sub o2 o3 G → told sub o1 o3 (G ∘ F).
Proof.
  intros [H1 H2 (e1 & E1 & F1)] [H3 H4 (e2 & E2 & F2)]. split; [intros; by rewrite H3, H1|auto|].
  exists (e1 ++ e2). split; [by rewrite E2, E1, app_assoc|]. intros l. by rewrite foldl_app, F1, F2.
Qed.
Lemma told_ext sub o1 o2 F G : (∀ l, F l = G l) → told sub o1 o2 F → told sub o1 o2 G.
Proof. intros HF [H1 H2 (evs & E & He)]. split; [done..|]. exists evs. split; [done|]. intros l. by rewrite He, HF. Qed.

(** One event in the output [k], which is that of the client or carries nothing that
    concerns it. *)
Lemma insert_told sub outs k msgs ev (F : list string → list string) :
  sub ≠ defaultOutput → (outs !! k = Some msgs ∨ (k = defaultOutput ∧ msgs = default [] (outs !! k))) →
  ((k = sub ∨ (k = defaultOutput ∧ outs !! sub = None)) → ∀ l, client_event sub l ev = F l) →
  ((k ≠ sub ∧ (k = defaultOutput → is_Some (outs !! sub))) → ∀ l, F l = l) →
  told sub outs (<[k:=msgs ++ [ev]]> outs) F.
Proof.
  intros Hsub Hk Hin Hout. split.
  - intros k' Hk'. destruct (decide (k = k')) as [->|]; [|by rewrite lookup_insert_ne]. rewrite lookup_insert_eq.
    destruct Hk as [->|[-> _]]; [done|done].
  - intros Hd. destruct (decide (k = defaultOutput)) as [->|]; [by rewrite lookup_insert_eq|by rewrite lookup_insert_ne].
  - unfold stream. destruct (decide (k = sub)) as [->|Hne].
    { rewrite lookup_insert_eq. destruct Hk as [->|[? _]]; [|done]. exists [ev]. split; [done|]. intros l. apply Hin. by left. }
    rewrite lookup_insert_ne by done. destruct (outs !! sub) as [m|] eqn:Es.
    { exists []. rewrite app_nil_r. split; [done|]. intros l. symmetry. apply Hout. split; [done|]. by eexists. }
    destruct (decide (k = defaultOutput)) as [->|Hd].
    { rewrite lookup_insert_eq. exists [ev]. split; [|intros l; apply Hin; by right]. simpl.
      destruct Hk as [->|[_ ->]]; done. }
    rewrite lookup_insert_ne by done. exists []. rewrite app_nil_r. split; [done|]. intros l. symmetry. apply Hout. done.
Qed.

Lemma push_told sub outs ev :
  sub ≠ defaultOutput → (outs !! sub = None → ∀ l, client_event sub l ev = l) → told sub outs (push outs defaultOutput ev) id.
Proof.
  intros Hsub Hev. unfold push. apply insert_told; [done|by right|intros [<-|[_ ?]]; [done|by apply Hev]|done].
Qed.

(** The client gets exactly the events that carry its subscription. *)
Definition for_client (sub x : string) (ev : Event) : list string → list string :=
  λ l, if bool_decide (x = sub) then client_event sub l ev else l.

Lemma addEvent_told sub ctx x ev :
  sub ≠ defaultOutput → x ≠ defaultOutput → (∀ k l, k ≠ x → client_event k l ev = l) →
  told sub (cx_outputs ctx) (cx_outputs (addEvent ctx x ev)) (for_client sub x ev).
Proof.
  intros Hsub Hx Hev. unfold addEvent, for_client. destruct (cx_outputs ctx !! x) as [msgs|] eqn:E; simpl.
  - apply insert_told; [done|by left|..].
    + intros [->|[? _]] l; [|done]. by rewrite bool_decide_eq_true_2.
    + intros [Hne _] l. by rewrite bool_decide_eq_false_2.
  - unfold push. apply insert_told; [done|by right|..].
    + intros [<-|[_ _]] l; [done|]. case_bool_decide; [done|]. apply Hev. done.
    + intros [_ Hs] l. rewrite bool_decide_eq_false_2; [done|]. intros ->. destruct (Hs eq_refl). congruence.
Qed.

Lemma addEvents_told {A} (f : opCtx → A → opCtx) (g : A → Event) (x : A → string) sub xs : ∀ ctx,
  sub ≠ defaultOutput → (∀ a, a ∈ xs → x a ≠ defaultOutput) → (∀ a k l, k ≠ x a → client_event k l (g a) = l) →
  (∀ c a, ∃ c', cx_outputs c' = cx_outputs c ∧ f c a = addEvent c' (x a) (g a)) →
  told sub (cx_outputs ctx) (cx_outputs (foldl f ctx xs)) (λ l, foldl (client_event sub) l (g <$> xs)).
Proof.
  induction xs as [|a xs IH]; intros ctx Hs Hx Hev Hf; [apply told_refl|]. cbn [foldl].
  destruct (Hf ctx a) as (c' & Ec & Efa).
  eapply told_ext; [|eapply told_trans; [|by apply IH; [|intros; apply Hx; by right|..]]].
  2:{ rewrite Efa, <- Ec. apply addEvent_told; [done|apply Hx; left|apply Hev]. }
  intros l. rewrite fmap_cons. cbn [foldl]. unfold compose, for_client. case_bool_decide; [done|].
  rewrite Hev by done. done.
Qed.

(** Events about details do not change the lists. *)
Lemma group_steps_told sub mk idx : sub ≠ defaultOutput → (∀ l, silent (mk l)) → ∀ outs arr j,
  told sub outs (foldl (group_step mk) (outs, arr, j) idx).1.1 id.
Proof.
  intros Hsub Hm. induction idx as [|i idx IH]; intros outs arr j; [apply told_refl|].
  cbn [foldl]. unfold group_step at 2. destruct (outs !! at_ arr i) as [msgs|] eqn:E; [|apply IH].
  eapply told_ext; [|eapply told_trans; [|apply IH]]; [done|].
  apply insert_told; [done|by left|intros _ l; by apply (client_silent sub [_] l); constructor|done].
Qed.

Lemma group_event_told sub mk outs arr : sub ≠ defaultOutput → (∀ l, silent (mk l)) → told sub outs (group_event mk outs arr).1 id.
Proof.
  intros Hsub Hm. unfold group_event. pose proof (group_steps_told sub mk (seq 0 (length arr)) Hsub Hm outs arr O) as H1.
  destruct (foldl _ _ _) as [[outs' arr'] j]. simpl in *. case_bool_decide; [|done].
  eapply told_ext; [|eapply told_trans; [exact H1|]]; [done|]. apply push_told; [done|].
  intros _ l. by apply (client_silent sub [_] l); constructor.
Qed.

Lemma groupDetails_told sub msgs : sub ≠ defaultOutput → ∀ outs arrs, told sub outs (foldl groupDetailsEvent (outs, arrs) msgs).1 id.
Proof.
  intros Hsub. induction msgs as [|m msgs IH]; intros outs arrs; [apply told_refl|].
  cbn [foldl]. destruct (groupDetailsEvent (outs, arrs) m) as [o a] eqn:E.
  eapply told_ext; [|eapply told_trans; [|apply IH]]; [done|].
  enough (∀ mk arr, (∀ l, silent (mk l)) →
    (let '(o', l) := group_event mk outs (default [] (arrs !! arr)) in (o', <[arr:=l]> arrs)) = (o, a) → told sub outs o id) as Hmk.
  { destruct m as [id d arr|id d arr|id ks arr]; [apply (Hmk (DetailsSet id d) arr)|apply (Hmk (DetailsAmend id d) arr)|
      apply (Hmk (DetailsUnset id ks) arr)]; done. }
  intros mk arr Hm E'. pose proof (group_event_told sub mk outs (default [] (arrs !! arr)) Hsub Hm) as H1.
  destruct (group_event mk outs (default [] (arrs !! arr))) as [o' l]. by injection E' as <- _.
Qed.

Lemma detailsEvents_told `{!LoIntersect} sub w ctx :
  sub ≠ defaultOutput → told sub (cx_outputs ctx) (cx_outputs (detailsEvents w ctx).2) id.
Proof.
  intros Hsub. unfold detailsEvents. destruct (foldl (detailsEvent ctx) (w, ([], [])) (cx_keysBuf ctx)) as [w' [msgs arrs]].
  by apply groupDetails_told.
Qed.

Definition ops (c : opCtx) : list opPosition * list opRemove * list opCounter * list opGroup :=
  (cx_position c, cx_remove c, cx_counters c, cx_groups c).
Lemma addEvent_ops c sub ev : ops (addEvent c sub ev) = ops c.
Proof. unfold addEvent. by destruct (cx_outputs c !! sub). Qed.
Lemma position_event_ops c p : ops (position_event c p) = ops c.
Proof. unfold position_event. destruct (op_isAdd p); by rewrite addEvent_ops. Qed.

(** The client of [sub] sees the positions and removals of its subscription, in
    order. *)
Lemma apply_stream `{!LoIntersect} sub w ctx :
  sub ≠ defaultOutput →
  (∀ p, p ∈ cx_position ctx → op_subId p ≠ defaultOutput) → (∀ r, r ∈ cx_remove ctx → or_subId r ≠ defaultOutput) →
  (∀ c, c ∈ cx_counters ctx → cnt_subId c ≠ defaultOutput) → cx_groups ctx = [] →
  told sub (cx_outputs ctx) (cx_outputs (ctx_apply w ctx).2)
    (λ l, client_list l (filter (λ p, op_subId p = sub) (cx_position ctx)) (filter (λ r, or_subId r = sub) (cx_remove ctx))).
Proof.
  intros Hs Hp Hr Hc Hg. unfold ctx_apply. set (ctx1 := foldl _ ctx (cx_change ctx)).
  assert (ops ctx1 = ops ctx) as E1 by (by apply (fold_keeps ops)).
  assert (cx_outputs ctx1 = cx_outputs ctx) as Eo by (by apply (fold_keeps cx_outputs)).
  pose proof (detailsEvents_told sub w ctx1 Hs) as T2. rewrite Eo in T2.
  assert (ops (detailsEvents w ctx1).2 = ops ctx) as E2.
  { rewrite <- E1. unfold detailsEvents. by destruct (foldl (detailsEvent ctx1) (w, ([], [])) (cx_keysBuf ctx1)) as [? [? ?]]. }
  destruct (detailsEvents w ctx1) as [w2 ctx2]. cbn [snd] in T2, E2. pose proof E2 as [= F1 F2 F3 F4].
  set (ctx3 := foldl position_event ctx2 (cx_position ctx2)).
  assert (ops ctx3 = ops ctx) as E3 by (rewrite <- E2; apply (fold_keeps ops), position_event_ops).
  pose proof E3 as [= G1 G2 G3 G4]. set (ctx4 := foldl remove_event ctx3 (cx_remove ctx3)).
  assert (ops ctx4 = ops ctx) as E4 by (rewrite <- E3; apply (fold_keeps ops); intros; apply addEvent_ops).
  pose proof E4 as [= J1 J2 J3 J4]. set (ctx5 := foldl counter_event ctx4 (cx_counters ctx4)).
  assert (cx_groups ctx5 = []) as E5.
  { rewrite <- Hg, <- J4. apply (fold_keeps cx_groups). intros c x. pose proof (addEvent_ops c (cnt_subId x) (counter_ev x)) as [= _ _ _ E].
    exact E. }
  assert (told sub (cx_outputs ctx2) (cx_outputs ctx3) (λ l, foldl (client_event sub) l (position_ev <$> cx_position ctx))) as T3.
  { unfold ctx3. rewrite F1. apply (addEvents_told _ _ op_subId); [done|done|..].
    - intros p k l Hk. unfold position_ev. destruct (op_isAdd p); simpl; by rewrite bool_decide_eq_false_2.
    - intros c p. unfold position_event, position_ev. destruct (op_isAdd p); eexists; (split; [|reflexivity]); done. }
  assert (told sub (cx_outputs ctx3) (cx_outputs ctx4) (λ l, foldl (client_event sub) l (remove_ev <$> cx_remove ctx))) as T4.
  { unfold ctx4. rewrite G2. apply (addEvents_told _ _ or_subId); [done|done|..].
    - intros r k l Hk. simpl. by rewrite bool_decide_eq_false_2.
    - intros c r. by exists c. }
  assert (told sub (cx_outputs ctx4) (cx_outputs ctx5) (λ l, foldl (client_event sub) l (counter_ev <$> cx_counters ctx))) as T5.
  { unfold ctx5. rewrite J3. apply (addEvents_told _ _ cnt_subId); [done|done|done|]. intros c x. by exists c. }
  cbv zeta. fold ctx3. fold ctx4. fold ctx5. rewrite E5. cbn [foldl snd].
  eapply told_ext; [|exact (told_trans _ _ _ _ _ _ (told_trans _ _ _ _ _ _ (told_trans _ _ _ _ _ _ T2 T3) T4) T5)].
  intros l. unfold compose. rewrite client_silent by (apply Forall_fmap, Forall_forall; done).
  by rewrite <- client_operations, foldl_app.
Qed.

Lemma reset_outputs_lookup custom k : is_Some (reset_outputs custom !! k) ↔ k = defaultOutput ∨ k ∈ dom custom.
Proof.
  unfold reset_outputs. rewrite <- elem_of_dom, dom_gset_to_gmap. set_solver.
Qed.
Lemma reset_outputs_stream custom sub : stream sub (reset_outputs custom) = [].
Proof.
  unfold stream, reset_outputs. rewrite !lookup_gset_to_gmap.
  destruct (decide (sub ∈ {[defaultOutput]} ∪ dom custom)); [by rewrite option_guard_True|rewrite option_guard_False by done].
  by rewrite option_guard_True by set_solver.
Qed.

(** No output is nil. *)
Definition outputs_open (custom : gmap string (option internalSubOutput)) : Prop := ∀ k, custom !! k ≠ Some None.
Lemma open_deliverable custom outs :
  outputs_open custom → (∀ k, k ≠ defaultOutput → is_Some (outs !! k) → k ∈ dom custom) → deliverable custom outs = true.
Proof.
  intros Ho Hd. unfold deliverable. apply forallb_forall. intros [k msgs] Hin.
  apply list_elem_of_In, elem_of_map_to_list in Hin. destruct (bool_decide (msgs = [])); [done|]. simpl.
  case_bool_decide as Ek; [done|]. simpl. assert (k ∈ dom custom) as [[o|] Ec]%elem_of_dom.
  { apply (Hd k Ek). by eexists. }
  - by rewrite Ec.
  - by destruct (Ho k).
Qed.

(** ** A space with one sorted subscription *)

Section served.
Context `{Hstore : !SubStore, Hdiff : !Mb0Diff, Hdiffok : !Mb0DiffOk, Hint : !LoIntersect, Hskl : !SkipList, Hsklok : !SkipListOk, Hkan : !Kanban}.
Context {order : Type} `{Hso : !SubOrder order} (orderable : Details → Prop).
Implicit Types (s : sortedSub order) (p : spaceSubs order) (w : world).

(** The space [p] serves [s] to a client whose list is [c], and [M] are the objects
    that pass the filter. *)
Record serves p s (M : gmap string Details) (c : list string) : Prop := {
  sv_only : sv_keys p = [ss_id s] ∧ sv_subs p = {[ss_id s := SubSorted s]};
  sv_output : ss_id s ≠ defaultOutput ∧ outputs_open (sv_customOutput p);
  sv_ok : sub_ok orderable (sv_w p) s;
  sv_objects : ∀ id d, (id, d) ∈ keys_of s ↔ M !! id = Some d;
  sv_client : c = window s;
}.

(** Records that may arrive: they have an id, their details can be compared, and
    they do not concern the object the window is anchored at. *)
Definition arrives s (r : Details) : Prop :=
  rec_id r ≠ "" ∧ orderable r ∧ ∀ el, ss_afterEl s = Some el → (sk_Key el).1 ≠ rec_id r.

(** The request is the same. *)
Definition same_request s s' : Prop :=
  ss_id s' = ss_id s ∧ ss_keys s' = ss_keys s ∧ ss_filter s' = ss_filter s ∧ ss_order s' = ss_order s ∧
  ss_limit s' = ss_limit s ∧ ss_afterEl s' = ss_afterEl s.

(** The entries made of the records are a batch for the subscription. *)
Lemma arriving_batch p s recs ls w :
  sub_ok orderable (sv_w p) s → Forall (arrives s) recs → new_entries (sv_w p) (collect_records recs) = (ls, w) →
  sub_ok orderable w s ∧ batch orderable w s ls ∧
  ∀ x, after_batch w s ls x ↔ (x ∈ collect_records recs ∧ passes s x.2 = true) ∨ (x.1 ∉ (collect_records recs).*1 ∧ x ∈ keys_of s).
Proof.
  intros Hok Ha E. rewrite Forall_forall in Ha.
  destruct (new_entries_spec _ _ _ _ _ E) as (news & El & Ec & Hold & Hnew & Hf). simpl in El. subst news.
  destruct (Forall2_ids _ _ _ Hf) as (Eids & Hl1 & Hl2).
  assert (∀ id lc, c_Get w id = Some lc ↔ c_Get (sv_w p) id = Some lc) as Eg by (intros; unfold c_Get; by rewrite Ec).
  assert (sub_ok orderable w s) as Hok'.
  { destruct Hok as [T1 T2 T3 T4 T5 T6 T7 T8 T9 T10]. split; try done.
    - intros id lc Hlc%Eg. destruct (T3 _ _ Hlc) as [L <-]. destruct (Hold lc L) as [? ->]. done.
    - intros id d. rewrite T4. setoid_rewrite Eg. split; intros (lc & Hlc & ? & ?); exists lc;
        destruct (T3 _ _ Hlc) as [L _]; destruct (Hold lc L) as [_ E']; rewrite E' in *; done. }
  split_and!; [done|split|].
  - intros l Hl. by apply Hnew.
  - rewrite Eids. apply collect_records_NoDup.
  - rewrite Eids. intros (e & Ee & He)%list_elem_of_fmap. destruct (collected_id _ _ He) as [Hr Ei].
    destruct (Ha _ Hr) as (Hne & _). congruence.
  - intros l Hl. destruct (Hl1 l Hl) as (e & He & ->). destruct (collected_id _ _ He) as [Hr _]. by apply (Ha _ Hr).
  - intros id lc Hlc%Eg Hin. destruct (Hnew lc Hin) as [Hn _]. apply Hn. by eapply so_cache.
  - intros l Hl. destruct (Hl1 l Hl) as (e & _ & ->). simpl. intros Hx. by apply elem_of_nil in Hx.
  - intros el Hel. rewrite Eids. intros (e & Ee & He)%list_elem_of_fmap. destruct (collected_id _ _ He) as [Hr Ei].
    destruct (Ha _ Hr) as (_ & _ & Hanc). apply (Hanc el Hel). congruence.
  - intros x. unfold after_batch. rewrite Eids. split; (intros [Hx|?]; [left|by right]).
    + destruct Hx as (l & Hl & -> & Hp). destruct (Hl1 l Hl) as (e & He & Ee). rewrite Ee in *. simpl in *. by destruct e.
    + destruct Hx as [Hx Hp]. destruct (Hl2 x Hx) as (l & Hl & Ee). exists l. rewrite Ee. simpl. by destruct x.
Qed.

Lemma entry_changes_same w s ls c w' s' : ∀ c0,
  foldl (λ '(changed, w, s) l, let '(c, w, s) := onEntryChange w s l in (c || changed, w, s)) (c0, w, s) ls = (c, w', s') →
  ss_started s = true → s' = with_skl s (ss_skl s').
Proof.
  revert w s. induction ls as [|l ls IH]; intros w s c0 E Hst; cbn [foldl] in E.
  { injection E as _ _ <-. by destruct s. }
  destruct (onEntryChange w s l) as [[c1 w1] s1] eqn:E1.
  assert (s1 = with_skl s (ss_skl s1)) as Es1.
  { unfold onEntryChange in E1. rewrite Hst in E1. cbn [negb] in E1.
    destruct (IsInSub _ _), (match ss_filter s with Some f => f _ | None => true end); injection E1 as _ _ <-; by destruct s. }
  rewrite (IH _ _ _ E) by (by rewrite Es1). by rewrite Es1.
Qed.

Lemma onChange_same_request v s v' s' : ss_depSub s = None → ss_started s = true → ss_onChange v s = Some (v', s') → same_request s s'.
Proof.
  intros Hd Hst. unfold ss_onChange, entry_changes. destruct (foldl _ _ _) as [[c w1] s1] eqn:E.
  pose proof (entry_changes_same _ _ _ _ _ _ _ E Hst) as Es.
  destruct (negb c || negb (ss_started s1)); [intros [= _ <-]; rewrite Es; by split_and!|].
  unfold onSklChange. destruct (ss_diff s1) as [ld|]; [|done]. destruct (iterateActive s1) as [els rev].
  destruct (ld_diff _ _ _ _) as [[ctx ld1] [[was added] removed]]. destruct (depEntriesByEntries _ _) as [v1 acc].
  match goal with |- context [foldl (tell_change ?a ?b) ?x ?l] => destruct (foldl (tell_change a b) x l) as [v2 has] end.
  cbn [ss_depSub with_shown]. assert (ss_depSub s1 = None) as -> by (by rewrite Es). intros [= _ <-]. rewrite Es. by split_and!.
Qed.

Lemma serve_batch p s M c recs :
  serves p s M c → Forall (arrives s) recs →
  ∃ p' outs s', recordsHandler p recs = Some (p', outs) ∧ same_request s s' ∧
    serves p' s' (absorb (passes s) M recs) (foldl (client_event (ss_id s)) c (stream (ss_id s) outs)).
Proof.
  intros [[Hk Hs] [Hd Ho] Hok Hobj ->] Ha. unfold recordsHandler, onChange.
  destruct (new_entries (sv_w p) (collect_records recs)) as [ls w] eqn:E.
  destruct (arriving_batch p s recs ls w Hok Ha E) as (Hok' & Hb & Haft). unfold onChangeWithinContext.
  cbn [sv_w sv_subs sv_ds sv_outputs sv_customOutput sv_keys with_sv_w].
  set (v := {| en_w := w; en_ds := _; en_ctx := _ |}).
  destruct (onChange_batch orderable v s) as (v' & s' & ps & rs & chs & news & Eon & Hdone); [done..|set_solver|].
  destruct (onChange_same_request v s v' s' (so_dep _ _ _ Hok) (so_started _ _ _ Hok) Eon) as (R1 & R2 & R3 & R4 & R5 & R6).
  rewrite Hk, Hs. cbn [iterateSubscriptions]. rewrite lookup_singleton_eq. cbn [sub_change]. unfold sub_onChange. rewrite Eon.
  cbn [mbind option_bind]. unfold dep_onChange. rewrite (pe_dep _ _ _ _ _ (bd_pending _ _ _ _ _ _ _ _ _ Hdone)). cbn [mbind option_bind].
  set (ctx := with_outputs (en_ctx v') _).
  assert (sub_ok orderable (ctx_apply (en_w v') ctx).1 s') as Hfin.
  { apply pending_commit; [apply (bd_pending _ _ _ _ _ _ _ _ _ Hdone)|]. apply (bd_keysBuf _ _ _ _ _ _ _ _ _ Hdone). }
  destruct Hdone as [B1 B2 B3 B4 B5 B6 (B7a & B7b & B7c) B8 B9 B10 _ _ _]. simpl in B1, B2, B3, B8.
  assert (told (ss_id s) (reset_outputs (sv_customOutput p)) (cx_outputs (ctx_apply (en_w v') ctx).2) (λ l, client_list l ps rs)) as Ht.
  { pose proof (apply_stream (ss_id s) (en_w v') ctx Hd) as T. simpl in T. rewrite B1, B2, B3, B8 in T.
    rewrite !filter_own in T by done. apply T; [intros x ?; by rewrite B7a|intros x ?; by rewrite B7b| |done].
    intros c. destruct (bool_decide _); [set_solver|]. intros ->%list_elem_of_singleton. simpl. by rewrite R1. }
  destruct (ctx_apply (en_w v') ctx) as [w' ctx']. cbn [fst snd] in Hfin, Ht. destruct Ht as [T1 _ (evs & T2 & T3)].
  rewrite open_deliverable; [|done|].
  2:{ intros k Hkd Hkin. apply T1, reset_outputs_lookup in Hkin as [->|?]; done. }
  eexists _, _, s'. split; [reflexivity|]. split; [by split_and!|]. split; simpl.
  - rewrite R1. split; [done|]. by rewrite insert_singleton_eq.
  - by rewrite R1.
  - done.
  - intros id d. rewrite B9. change (after_batch w s ls (id, d) ↔ absorb (passes s) M recs !! id = Some d).
    rewrite Haft, absorb_collected, Hobj. done.
  - rewrite T2, reset_outputs_stream. cbn [app]. rewrite T3. exact B10.
Qed.

(** ** A sequence of batches *)

Fixpoint run (sub : string) p (c : list string) (batches : list (list Details)) : option (spaceSubs order * list string) :=
  match batches with
  | [] => Some (p, c)
  | recs :: batches =>
      '(p, outs) ← recordsHandler p recs;
      run sub p (foldl (client_event sub) c (stream sub outs)) batches
  end.

Lemma same_request_arrives s s' r : same_request s s' → arrives s r → arrives s' r.
Proof. intros (_ & _ & _ & _ & _ & E) (? & ? & ?). unfold arrives. by rewrite E. Qed.
Lemma same_request_passes s s' d : same_request s s' → passes s' d = passes s d.
Proof. intros (_ & _ & E & _). unfold passes. by rewrite E. Qed.

Lemma run_serves batches : ∀ p s M c,
  serves p s M c → Forall (Forall (arrives s)) batches →
  ∃ p' s' c', run (ss_id s) p c batches = Some (p', c') ∧ same_request s s' ∧
    serves p' s' (absorb (passes s) M (concat batches)) c'.
Proof.
  induction batches as [|recs batches IH]; intros p s M c Hs Hb.
  { exists p, s, c. split_and!; [done|by split_and!|done]. }
  apply Forall_cons in Hb as [Hr Hb]. destruct (serve_batch p s M c recs Hs Hr) as (p1 & outs & s1 & E1 & Hreq & Hs1).
  destruct (IH p1 s1 _ _ Hs1) as (p2 & s2 & c2 & E2 & Hreq2 & Hs2).
  { eapply Forall_impl; [exact Hb|]. intros rs Hrs. eapply Forall_impl; [exact Hrs|]. intros r. by apply same_request_arrives. }
  exists p2, s2, c2. assert (ss_id s1 = ss_id s) as Eid by apply Hreq. split_and!.
  - cbn [run]. rewrite E1. cbn [mbind option_bind]. by rewrite <- Eid at 1.
  - destruct Hreq as (? & ? & ? & ? & ? & ?), Hreq2 as (? & ? & ? & ? & ? & ?). unfold same_request. split_and!; congruence.
  - cbn [concat]. rewrite absorb_app. rewrite (absorb_ext (passes s) (passes s1)); [done|].
    intros d. symmetry. by apply same_request_passes.
Qed.

(** ** Subscribing *)

Lemma NoDup_same_length (l1 l2 : list string) : NoDup l1 → NoDup l2 → (∀ x, x ∈ l1 ↔ x ∈ l2) → length l1 = length l2.
Proof. intros H1 H2 H. by apply Permutation_length, NoDup_Permutation. Qed.

Lemma init_id v s ls : let '(_, _, s') := ss_init v s ls in
  ss_id s' = ss_id s ∧ ss_started s' = true ∧ ss_filter s' = ss_filter s ∧ ss_offset s' = ss_offset s.
Proof.
  unfold ss_init. destruct (foldl _ _ ls) as [[w sk] ents]. set (s1 := with_skl _ sk).
  assert (∀ e s2, setBeforeAndAfterElements w s1 = (e, s2) → ss_id s2 = ss_id s ∧ ss_started s2 = true ∧
            ss_filter s2 = ss_filter s ∧ ss_offset s2 = ss_offset s) as Hset.
  { intros e s2. unfold setBeforeAndAfterElements. destruct (bool_decide (ss_afterId s1 ≠ "")).
    { by destruct (find_el w s1 (ss_afterId s1)); injection 1 as _ <-. }
    destruct (bool_decide (ss_beforeId s1 ≠ "")). { by destruct (find_el w s1 (ss_beforeId s1)); injection 1 as _ <-. }
    destruct (0 <? ss_offset s1)%Z; [|by injection 1 as _ <-]. cbv zeta.
    destruct (nth_el _ _ _ _ _) as [el|]; [by injection 1 as _ <-|]. by destruct (ss_afterEl s1); injection 1 as _ <-. }
  destruct (setBeforeAndAfterElements w s1) as [[err|] s2]; [by eapply Hset|]. destruct (Hset _ _ eq_refl) as (? & ? & ? & ?).
  cbn [ss_disableDep with_shown]. destruct (ss_disableDep s2); [done|]. destruct (depKeys _ _) as [dk d].
  destruct (bool_decide (dk = []) && _); [done|]. by destruct (makeSubscriptionByEntries _ _ _ _ _ _ _) as [v2 dep].
Qed.

(** A space without subscriptions, and a query whose records have different ids. *)
Record fresh_query p s (queried : list (string * Details)) : Prop := {
  fq_none : sv_keys p = [] ∧ sv_subs p = ∅ ∧ w_cache (sv_w p) = ∅;
  fq_order : order_ok orderable s;
  fq_new : ∃ id keys f ord limit offset, s = noDep (newSortedSub id keys f ord limit offset);
  fq_output : ss_id s ≠ defaultOutput ∧ outputs_open (sv_customOutput p);
  fq_ids : NoDup queried.*1 ∧ "" ∉ queried.*1;
  fq_orderable : Forall (λ r, orderable r.2) queried;
}.

Lemma set_output_same p k internal :
  sv_keys (set_output p k internal) = sv_keys p ∧ sv_subs (set_output p k internal) = sv_subs p ∧
  sv_w (set_output p k internal) = sv_w p ∧ sv_ds (set_output p k internal) = sv_ds p ∧
  (outputs_open (sv_customOutput p) → outputs_open (sv_customOutput (set_output p k internal))).
Proof.
  destruct internal as [given|]; simpl; split_and!; try done. intros Ho k'.
  destruct (decide (k = k')) as [->|]; [by rewrite lookup_insert_eq|by rewrite lookup_insert_ne].
Qed.

(** The only subscription after the request. *)
Lemma fresh_registered p s s' internal v :
  sv_keys p = [] → sv_subs p = ∅ → ss_id s' = ss_id s →
  let p' := setSubscription (with_sv_env (set_output (setSubscription p (ss_id s) (SubSorted s)) (ss_id s) internal) v) (ss_id s') (SubSorted s') in
  sv_keys p' = [ss_id s'] ∧ sv_subs p' = {[ss_id s' := SubSorted s']}.
Proof.
  intros Hk Hs Eid p'. destruct (set_output_same (setSubscription p (ss_id s) (SubSorted s)) (ss_id s) internal) as (Ek & Es & _).
  unfold p'. unfold setSubscription at 1 3. cbn [sv_keys sv_subs with_sv_env]. rewrite Ek, Es, Eid. simpl. rewrite Hk, Hs. simpl.
  rewrite bool_decide_eq_true_2 by set_solver. split; [done|]. by rewrite insert_insert_eq.
Qed.

(** The second part of the request, in terms of [init]. *)
Lemma subscribe_init p s internal sorts queried :
  fresh_query p s queried →
  ∃ v ls err v' s', ss_init v s ls = (err, v', s') ∧
    ids_of (en_w v) ls = queried.*1 ∧
    (∀ l, l ∈ ls → ∃ r, r ∈ queried ∧ ent (en_w v) l = newEntry r.1 r.2) ∧ (∀ r, r ∈ queried → ∃ l, l ∈ ls ∧ ent (en_w v) l = newEntry r.1 r.2) ∧
    (∀ l, l ∈ ls → live (en_w v) l) ∧ w_cache (en_w v) = ∅ ∧
    (subscribe_end (subscribe_begin p s internal) s sorts (Ok queried)) =
    (match err with
     | Some e => Err e
     | None => Ok (response_of (en_w v') s')
     end, setSubscription (with_sv_env (set_output (setSubscription p (ss_id s) (SubSorted s)) (ss_id s) internal) v') (ss_id s') (SubSorted s')).
Proof.
  intros [(Hk & Hs & Hc) Ho (id & keys & f & ord & limit & offset & ->) Hout Hids Hf].
  unfold subscribe_begin, subscribe_end, close_existing. rewrite Hs, lookup_empty. set (s := noDep _).
  set (p1 := set_output (setSubscription p _ _) _ _). assert (sv_w p1 = sv_w p) as Ew.
  { unfold p1. destruct (set_output_same (setSubscription p (ss_id s) (SubSorted s)) (ss_id s) internal) as (_ & _ & -> & _). done. }
  destruct (new_entries (sv_w p1) queried) as [ls w] eqn:E.
  destruct (new_entries_spec _ _ _ _ _ E) as (news & El & Ec & _ & Hnew & Hf2). simpl in El. subst news.
  destruct (Forall2_ids _ _ _ Hf2) as (Eids & Hl1 & Hl2). cbn [ss_entriesBeforeStarted]. rewrite app_nil_r.
  set (v := {| en_w := w; en_ds := _; en_ctx := _ |}). change (with_start s (ss_started s) []) with s.
  destruct (ss_init v s ls) as [[err v'] s'] eqn:Ei. exists v, ls, err, v', s'. split_and!; try done.
  - intros l Hl. by apply Hnew.
  - simpl. by rewrite Ec, Ew.
  - by destruct err.
Qed.

Lemma init_fresh p s queried v ls :
  fresh_query p s queried → ids_of (en_w v) ls = queried.*1 →
  (∀ l, l ∈ ls → ∃ r, r ∈ queried ∧ ent (en_w v) l = newEntry r.1 r.2) → (∀ l, l ∈ ls → live (en_w v) l) → w_cache (en_w v) = ∅ →
  let '(err, v', s') := ss_init v s ls in
  keys_of s' ≡ₚ queried ∧
  (err = None ∧ sub_ok orderable (en_w v') s' ∧ (ss_offset s ≤ Z.of_nat (length queried))%Z ∧ ss_afterEl s' = anchor_of s' ∧
     window s' = take_limit (ss_limit s) (drop (Z.to_nat (ss_offset s)) (keys_of s')).*1 ∨
   err = Some ErrNoRecords ∧ (Z.of_nat (length queried) < ss_offset s)%Z ∧ ss_diff s' = None).
Proof.
  intros [(_ & _ & _) Ho (id & keys & f & ord & limit & offset & Es) _ [Hn Hne] Hf] Eids Hl Hlive Hc. rewrite Forall_forall in Hf.
  pose proof (ss_init_spec orderable v s ls Ho) as H. destruct (ss_init v s ls) as [[err v'] s'].
  assert (∀ i lc, c_Get (en_w v) i = Some lc → False) as Hno by (intros i lc; unfold c_Get; by rewrite Hc, lookup_empty).
  destruct H as (Hk & Hnd & Hcand & Hcase); try (by rewrite Es).
  { intros i lc Hi. by destruct (Hno i lc Hi). }
  { intros i lc Hi. by destruct (Hno i lc Hi). }
  { intros l Hin. destruct (Hl l Hin) as (r & Hr & E). rewrite E. simpl. split_and!; [auto| |by apply Hf].
    intros E0. apply Hne. rewrite <- E0. by apply list_elem_of_fmap_2. }
  rewrite Eids in Hk.
  assert (keys_of s' ≡ₚ queried) as Hp.
  { assert (∀ x, x ∈ keys_of s' → x ∈ queried) as Hsub.
    { intros x (l & [Hin|[i Hi]] & ->)%Hcand; [|by destruct (Hno i l Hi)]. destruct (Hl l Hin) as ([i d] & Hr & ->). done. }
    apply NoDup_Permutation; [by eapply NoDup_fmap_1|by eapply NoDup_fmap_1|]. intros [i d]. split; [auto|]. intros Hin.
    assert (i ∈ (keys_of s').*1) as ([i' d'] & Ei & Hin')%list_elem_of_fmap by (apply Hk; by apply (list_elem_of_fmap_2 fst) in Hin).
    simpl in Ei. subst i'. assert ((i, d) = (i, d')) as ->; [|done].
    apply (distinct_inj (λ _, True) queried); [split; [done|by apply Forall_true]|done|by apply Hsub|done]. }
  split; [done|]. rewrite <- Hp. destruct Hcase as [?|(? & ? & E)]; [by left|right]. split_and!; [done..|]. rewrite E, Es. done.
Qed.

Lemma subscribe_ok p s internal sorts queried :
  fresh_query p s queried → (ss_offset s ≤ Z.of_nat (length queried))%Z →
  ∃ resp p' s',
    subscribe_end (subscribe_begin p s internal) s sorts (Ok queried) = (Ok resp, p') ∧
    serves p' s' (list_to_map queried) (window s') ∧
    keys_of s' ≡ₚ queried ∧ sorted_by (ss_Compare (ss_order s')) (keys_of s') ∧
    ss_offset s' = ss_offset s ∧ ss_afterEl s' = anchor_of s' ∧ window s' = take_limit (ss_limit s) (drop (Z.to_nat (ss_offset s)) (keys_of s')).*1 ∧
    sr_Records resp = (λ k, d_CopyOnlyKeys k.2 (ss_keys s')) <$> getActiveEntries s' ∧
    rc_Total (sr_Counters resp) = Z.of_nat (length queried).
Proof.
  intros Hq Hoff. destruct (subscribe_init p s internal sorts queried Hq) as (v & ls & err & v' & s' & Ei & E1 & E2 & _ & E4 & E5 & ->).
  pose proof (init_fresh p s queried v ls Hq E1 E2 E4 E5) as H. rewrite Ei in H.
  destruct H as (Hp & [(-> & Hok & _ & Hao & HW)|(_ & Hlt & _)]); [|lia].
  assert (ss_id s' = ss_id s ∧ ss_offset s' = ss_offset s) as [Eid Eoff].
  { pose proof (init_id v s ls) as H. rewrite Ei in H. tauto. }
  eexists _, _, s'. split; [reflexivity|]. pose proof Hq as [(Hk & Hs & _) _ _ [Ho1 Ho2] [Hn _] _].
  split_and!; [split|done|apply (tr_sorted _ _ (so_tracked _ _ _ Hok))|done|done|done|..].
  - by apply fresh_registered.
  - rewrite Eid. split; [done|]. by apply set_output_same.
  - done.
  - intros i d. rewrite Hp. by apply elem_of_list_to_map.
  - done.
  - unfold response_of. destruct (counters s'). simpl. unfold getActiveRecords, getActiveEntries. destruct (anchor_rest s' (so_anchor _ _ _ Hok)) as [rest Hr].
    rewrite (iterateActive_eq s' rest (so_before _ _ _ Hok) Hr). simpl. by rewrite <- list_fmap_compose.
  - unfold response_of. destruct (counters s'). simpl. rewrite sk_Len_elems. f_equal. etrans; [|exact (Permutation_length Hp)]. unfold keys_of. by rewrite length_fmap.
Qed.

(** C8. The first request of a space, for a sorted subscription without dependent
    objects, that the query answers with enough records succeeds: the list holds exactly
    the records of the query in the requested order, the client is shown the window
    behind the offset, the response has the records of the window and the number of all
    objects, and from then on the space serves the subscription.  (With other
    subscriptions the versions in their cache are used instead of the queried ones.) *)
Theorem subscribe_serves p s internal sorts queried :
  fresh_query p s queried → (ss_offset s ≤ Z.of_nat (length queried))%Z →
  ∃ resp p' s',
    subscribe_end (subscribe_begin p s internal) s sorts (Ok queried) = (Ok resp, p') ∧
    serves p' s' (list_to_map queried) (window s') ∧
    keys_of s' ≡ₚ queried ∧ sorted_by (ss_Compare (ss_order s')) (keys_of s') ∧
    ss_offset s' = ss_offset s ∧ ss_afterEl s' = anchor_of s' ∧ window s' = take_limit (ss_limit s) (drop (Z.to_nat (ss_offset s)) (keys_of s')).*1 ∧
    sr_Records resp = (λ k, d_CopyOnlyKeys k.2 (ss_keys s')) <$> getActiveEntries s' ∧
    rc_Total (sr_Counters resp) = Z.of_nat (length queried).
Proof. apply subscribe_ok. Qed.

(** C7. A space with one sorted subscription, without dependent objects: whatever batches
    of changed records arrive, as long as none is about the object the window is anchored
    at (a window from the top of the list has none), the handler never panics, the list
    always holds exactly the objects that pass the filter in their last version and in
    the requested order, and the client that replays the events sees exactly the window
    of that list.  A record of the anchor empties the window
    ([resent_anchor_empties_window]). *)
Theorem subscription_tracks p s M c batches :
  serves p s M c → Forall (Forall (arrives s)) batches →
  ∃ p' s' c', run (ss_id s) p c batches = Some (p', c') ∧ same_request s s' ∧
    serves p' s' (absorb (passes s) M (concat batches)) c' ∧
    sorted_by (ss_Compare (ss_order s)) (keys_of s') ∧
    (∀ id d, (id, d) ∈ keys_of s' ↔ absorb (passes s) M (concat batches) !! id = Some d) ∧
    ∃ rest, behind_anchor (sk_elems (ss_skl s')) (ss_afterEl s) rest ∧ c' = (sk_Key <$> take_limit (ss_limit s) rest).*1.
Proof.
  intros Hs Hb. destruct (run_serves batches p s M c Hs Hb) as (p' & s' & c' & E & Hreq & Hs').
  exists p', s', c'. pose proof Hreq as (_ & _ & _ & Eo & El & Ea). pose proof (sv_ok _ _ _ _ Hs') as Hok.
  split_and!; [done..| |apply (sv_objects _ _ _ _ Hs')|].
  - rewrite <- Eo. apply (tr_sorted _ _ (so_tracked _ _ _ Hok)).
  - destruct (anchor_rest s' (so_anchor _ _ _ Hok)) as [rest Hr]. exists rest. rewrite <- Ea, <- El. split; [done|].
    rewrite (sv_client _ _ _ _ Hs'). by destruct (window_eq s' rest (so_before _ _ _ Hok) Hr).
Qed.

(** An entry that passes the filter changes the list. *)
Lemma passing_changes w s l c w' s' :
  ss_started s = true → passes s (e_data (ent w l)) = true → onEntryChange w s l = (c, w', s') → c = true ∧ ss_diff s' = ss_diff s ∧ ss_started s' = true.
Proof.
  intros Hst Hp. unfold onEntryChange. rewrite Hst. cbn [negb]. fold (passes s (e_data (ent w l))). rewrite Hp.
  by destruct (IsInSub _ _); intros [= <- _ <-].
Qed.

(** C36. A request whose offset is behind the last record fails, but the subscription
    stays registered without a list to compare with: the next object that passes its
    filter makes the handler of the batch panic. *)
Theorem failed_subscription_panics p s internal sorts queried id d :
  fresh_query p s queried → (Z.of_nat (length queried) < ss_offset s)%Z → passes s d = true →
  ∃ p', subscribe_end (subscribe_begin p s internal) s sorts (Ok queried) = (Err ErrNoRecords, p') ∧
        onChange p' [(id, d)] = None.
Proof.
  intros Hq Hoff Hpass. destruct (subscribe_init p s internal sorts queried Hq) as (v & ls & err & v' & s' & Ei & E1 & E2 & _ & E4 & E5 & ->).
  pose proof (init_fresh p s queried v ls Hq E1 E2 E4 E5) as H. pose proof (init_id v s ls) as Hi. rewrite Ei in H, Hi.
  destruct Hi as (Eid & Est & Ef & _). destruct H as (_ & [(_ & _ & ? & _)|(-> & _ & Ed)]); [lia|].
  eexists. split; [reflexivity|]. pose proof Hq as [(Hk & Hs & _) _ _ _ _ _]. unfold onChange.
  destruct (new_entries _ [(id, d)]) as [ls' w] eqn:E.
  destruct (new_entries_spec _ _ _ _ _ E) as (news & El & _ & _ & _ & Hf). simpl in El. subst news.
  destruct (Forall2_cons_inv_r _ _ _ _ Hf) as (l & ls0 & He & Hf0 & ->). apply Forall2_nil_inv_r in Hf0 as ->.
  destruct (fresh_registered p s s' internal v' Hk Hs Eid) as [Ek Es]. unfold onChangeWithinContext.
  cbn [sv_w sv_subs sv_ds sv_outputs sv_customOutput sv_keys with_sv_w]. rewrite Ek, Es.
  cbn [iterateSubscriptions]. rewrite lookup_singleton_eq. cbn [sub_change].
  assert (∀ v0, en_w v0 = w → cx_entries (en_ctx v0) = [l] → sub_onChange v0 s' = None) as ->; [|done..].
  intros v0 Ew Ee. unfold sub_onChange, ss_onChange, entry_changes. rewrite Ew, Ee. cbn [foldl].
  destruct (onEntryChange w s' l) as [[c w1] s1] eqn:Eo.
  destruct (passing_changes w s' l c w1 s1) as (-> & Ed1 & Est1); [done| |done|].
  { rewrite He. unfold passes in *. simpl. by rewrite Ef. }
  rewrite Est1. simpl. unfold onSklChange. by rewrite Ed1, Ed.
Qed.
End served.
