(* ===== verification/SubSpace.v ===== *)
(** * Any number of subscriptions in one space

    The subscriptions of a space share the cache and the entries of a batch: the
    change of one subscription copies cached entries into the batch of the next
    ones.  For all requests, batches and cancellations, every client sees exactly the
    first objects of the space that pass its filter, in its order. *)

From S2P Require Import Prelude Slice SliceDiff GoFloat Values Details Filter SubCache SubContext SubDep SubSorted SubTracking SubBatch SubKinds SubService SubServed.

Section space.
Context `{Hstore : !SubStore, Hdiff : !Mb0Diff, Hdiffok : !Mb0DiffOk, Hint : !LoIntersect, Hskl : !SkipList, Hsklok : !SkipListOk,
          Hkan : !Kanban, Hqueue : !SubQueue}.
Context {order : Type} `{Hso : !SubOrder order} (orderable : Details → Prop).
Implicit Types (s : sortedSub order) (p : spaceSubs order) (w : world) (v : env) (D : gmap string Details) (cs : gmap string (list string)).

(** ** A space whose clients are in sync *)

(** [D] are the objects of the space, as its records left them; [c] is the list the
    client has.  The window starts at the top. *)
Record in_sync D w s (c : list string) : Prop := {
  sy_ok : sub_ok orderable w s;
  sy_top : ss_afterEl s = None;
  sy_objects : ∀ id d, (id, d) ∈ keys_of s ↔ D !! id = Some d ∧ passes s d = true;
  sy_client : c = window s;
}.

Definition objects_ok D : Prop := ∀ id d, D !! id = Some d → id ≠ "" ∧ orderable d ∧ rec_id d = id.
Definition cached_from D w : Prop := ∀ id lc, c_Get w id = Some lc → D !! id = Some (e_data (ent w lc)).

Record space_ok p D cs : Prop := {
  sc_keys : NoDup (sv_keys p);
  sc_registered : ∀ k, k ∈ sv_keys p ↔ is_Some (sv_subs p !! k);
  sc_sync : ∀ k sub, sv_subs p !! k = Some sub →
    ∃ s c, sub = SubSorted s ∧ ss_id s = k ∧ cs !! k = Some c ∧ in_sync D (sv_w p) s c;
  sc_default : defaultOutput ∉ sv_keys p;
  sc_cache : cache_ok (sv_w p);
  sc_data : cached_from D (sv_w p);
  sc_marks : ∀ x id lc, x ∉ sv_keys p → c_Get (sv_w p) id = Some lc → x ∉ e_subIds (ent (sv_w p) lc);
  sc_objects : objects_ok D;
}.

(** ** In the middle of a batch *)

(** The objects after the batch are [D']. *)
Record handled D' v s (c : list string) : Prop := {
  ha_pending : pending orderable (en_w v) s (cx_entries (en_ctx v)) (cx_change (en_ctx v));
  ha_top : ss_afterEl s = None;
  ha_objects : ∀ id d, (id, d) ∈ keys_of s ↔ D' !! id = Some d ∧ passes s d = true;
  ha_client : client_list c (filter (λ q, op_subId q = ss_id s) (cx_position (en_ctx v)))
                (filter (λ r, or_subId r = ss_id s) (cx_remove (en_ctx v))) = window s;
}.

(** The operations collected so far belong to the subscriptions [ks]. *)
Record ops_of (ks : list string) (ctx : opCtx) : Prop := {
  oo_position : ∀ q, q ∈ cx_position ctx → op_subId q ∈ ks;
  oo_remove : ∀ r, r ∈ cx_remove ctx → or_subId r ∈ ks;
  oo_counters : ∀ c, c ∈ cx_counters ctx → cnt_subId c ∈ ks;
  oo_change : ∀ ch, ch ∈ cx_change ctx → oc_subId ch ∈ ks;
  oo_groups : cx_groups ctx = [];
  oo_keysBuf : cx_keysBuf ctx = [];
}.

Record midway D D' v (subs : gmap string (subscription order)) cs (ks todo : list string) : Prop := {
  mw_keys : NoDup (ks ++ todo);
  mw_todo : ∀ k, k ∈ todo → ∃ s c, subs !! k = Some (SubSorted s) ∧ ss_id s = k ∧ cs !! k = Some c ∧
    in_sync D (en_w v) s c ∧ batch orderable (en_w v) s (cx_entries (en_ctx v));
  mw_done : ∀ k, k ∈ ks → ∃ s c, subs !! k = Some (SubSorted s) ∧ ss_id s = k ∧ cs !! k = Some c ∧ handled D' v s c;
  mw_cache : cache_ok (en_w v);
  mw_data : cached_from D (en_w v);
  mw_live : ∀ l, l ∈ cx_entries (en_ctx v) → live (en_w v) l;
  mw_ids : NoDup (ids_of (en_w v) (cx_entries (en_ctx v)));
  mw_fresh : ∀ id lc, c_Get (en_w v) id = Some lc → lc ∉ cx_entries (en_ctx v);
  mw_entries : ∀ l, l ∈ cx_entries (en_ctx v) → D' !! e_id (ent (en_w v) l) = Some (e_data (ent (en_w v) l));
  mw_rest : ∀ id, id ∉ ids_of (en_w v) (cx_entries (en_ctx v)) → D' !! id = D !! id;
  mw_ops : ops_of ks (en_ctx v);
  mw_marks : ∀ x l, x ∉ ks ++ todo → (l ∈ cx_entries (en_ctx v) ∨ ∃ id, c_Get (en_w v) id = Some l) → x ∉ e_subIds (ent (en_w v) l);
}.

(** The list after the batch holds the objects after the batch. *)
Lemma after_objects D D' v s x :
  (∀ l, l ∈ cx_entries (en_ctx v) → D' !! e_id (ent (en_w v) l) = Some (e_data (ent (en_w v) l))) →
  (∀ id, id ∉ ids_of (en_w v) (cx_entries (en_ctx v)) → D' !! id = D !! id) →
  (∀ id d, (id, d) ∈ keys_of s ↔ D !! id = Some d ∧ passes s d = true) →
  after_batch (en_w v) s (cx_entries (en_ctx v)) x ↔ D' !! x.1 = Some x.2 ∧ passes s x.2 = true.
Proof.
  intros He Hr Hk. destruct x as [id d]. unfold after_batch. simpl. split.
  - intros [(l & Hl & [= -> ->] & Hp)|[Hno Hin]]; [by rewrite He|]. rewrite Hr by done. by apply Hk.
  - intros [Hd Hp]. destruct (decide (id ∈ ids_of (en_w v) (cx_entries (en_ctx v)))) as [(l & Hl & <-)%ids_of_inv|Hno].
    + left. exists l. rewrite He in Hd by done. by injection Hd as <-.
    + right. split; [done|]. apply Hk. by rewrite <- Hr.
Qed.

Lemma filter_app_own {A} (f : A → string) k (xs ys : list A) :
  (∀ x, x ∈ xs → f x ≠ k) → (∀ y, y ∈ ys → f y = k) → filter (λ x, f x = k) (xs ++ ys) = ys.
Proof. intros Hx Hy. rewrite filter_app, (filter_own f k ys Hy). by rewrite (filter_none _ xs). Qed.
Lemma filter_app_other {A} (f : A → string) k (xs ys : list A) :
  (∀ y, y ∈ ys → f y ≠ k) → filter (λ x, f x = k) (xs ++ ys) = filter (λ x, f x = k) xs.
Proof. intros Hy. rewrite filter_app, (filter_none _ ys) by done. by rewrite app_nil_r. Qed.

Lemma moved_cached_from x D w ls w' news : moved x w ls w' news → cache_ok w → cached_from D w → cached_from D w'.
Proof.
  intros [Hst _ _ _] Hc Hd id lc. rewrite (steady_get x w w') by done. intros Hlc. destruct (Hc _ _ Hlc) as [L _].
  rewrite (sd_data _ _ _ Hst) by done. by apply Hd.
Qed.

(** What the other subscriptions keep. *)
Lemma moved_in_sync D w s c ls w' news : moved (ss_id s) w ls w' news → in_sync D w s c → in_sync D w' s c.
Proof. intros Hm [H1 H2 H3 H4]. split; try done. by eapply moved_sub_ok. Qed.

Lemma moved_handled D' v v' s c k news ps rs chs :
  moved (ss_id s) (en_w v) (cx_entries (en_ctx v)) (en_w v') news → ss_id s ≠ k →
  cx_entries (en_ctx v') = cx_entries (en_ctx v) ++ news →
  cx_position (en_ctx v') = cx_position (en_ctx v) ++ ps → cx_remove (en_ctx v') = cx_remove (en_ctx v) ++ rs →
  cx_change (en_ctx v') = cx_change (en_ctx v) ++ chs →
  (∀ q, q ∈ ps → op_subId q = k) → (∀ r, r ∈ rs → or_subId r = k) → (∀ ch, ch ∈ chs → oc_subId ch = k) →
  handled D' v s c → handled D' v' s c.
Proof.
  intros Hm Hne Ee Ep Er Ec Hp Hr Hc [H1 H2 H3 H4]. split; try done.
  - rewrite Ee, Ec. eapply moved_pending; [done| |done]. intros ch Hch. rewrite (Hc ch Hch). congruence.
  - rewrite Ep, Er, !filter_app_other; [done|intros r Hin; rewrite (Hr r Hin); congruence|intros q Hin; rewrite (Hp q Hin); congruence].
Qed.

Lemma other_name (k : string) : ∃ x, x ≠ k.
Proof. exists (fresh [k]). intros E. apply (infinite_is_fresh [k]). rewrite E. left. Qed.

Lemma cached_orderable D w : objects_ok D → cached_from D w → cache_orderable orderable w.
Proof. intros Ho Hd id lc Hlc%Hd. by destruct (Ho _ _ Hlc) as (? & ? & _). Qed.

(** The copies that joined the batch are objects of the space. *)
Lemma moved_entries x D D' w ls w' news :
  moved x w ls w' news → cached_from D w → (∀ l, l ∈ ls → live w l) →
  (∀ l, l ∈ ls → D' !! e_id (ent w l) = Some (e_data (ent w l))) → (∀ id, id ∉ ids_of w ls → D' !! id = D !! id) →
  (∀ l, l ∈ ls ++ news → D' !! e_id (ent w' l) = Some (e_data (ent w' l))) ∧ (∀ id, id ∉ ids_of w' (ls ++ news) → D' !! id = D !! id).
Proof.
  intros [Hst Hn Hf Hcp] Hd Hl He Hr. assert (ids_of w' ls = ids_of w ls) as Eids by (by eapply steady_ids).
  rewrite ids_of_app, Eids in *. split.
  - intros l [Hin|Hin]%elem_of_app; [rewrite (sd_id _ _ _ Hst), (sd_data _ _ _ Hst) by auto; auto|].
    destruct (Hcp l Hin) as (lc & Hlc & -> & _). rewrite Hr; [by apply Hd|]. intros Hid.
    apply NoDup_app in Hn as (_ & Hn & _). apply (Hn _ Hid). by apply ids_of_elem.
  - intros id Hid. apply Hr. intros ?. apply Hid, elem_of_app. by left.
Qed.

Lemma moved_marks x w ls w' news l :
  moved x w ls w' news → cache_ok w → (∀ l, l ∈ ls → live w l) →
  (∀ l, (l ∈ ls ∨ ∃ id, c_Get w id = Some l) → x ∉ e_subIds (ent w l)) →
  (l ∈ ls ++ news ∨ ∃ id, c_Get w' id = Some l) → x ∉ e_subIds (ent w' l).
Proof.
  intros [Hst _ _ Hcp] Hc Hl Hm [[Hin|Hin]%elem_of_app|[id Hlc]].
  - rewrite (sd_subs _ _ _ Hst) by auto. auto.
  - destruct (Hcp l Hin) as (lc & Hlc & _ & ->). apply Hm. eauto.
  - rewrite (steady_get x w w') in Hlc by done. destruct (Hc _ _ Hlc) as [L _]. rewrite (sd_subs _ _ _ Hst) by done. apply Hm. eauto.
Qed.

Lemma ops_of_more ks k ctx ctx' ps rs cnts chs :
  ops_of ks ctx → cx_position ctx' = cx_position ctx ++ ps → cx_remove ctx' = cx_remove ctx ++ rs →
  cx_counters ctx' = cx_counters ctx ++ cnts → cx_change ctx' = cx_change ctx ++ chs →
  cx_groups ctx' = cx_groups ctx → cx_keysBuf ctx' = cx_keysBuf ctx →
  (∀ q, q ∈ ps → op_subId q = k) → (∀ r, r ∈ rs → or_subId r = k) → (∀ c, c ∈ cnts → cnt_subId c = k) → (∀ ch, ch ∈ chs → oc_subId ch = k) →
  ops_of (ks ++ [k]) ctx'.
Proof.
  intros [H1 H2 H3 H4 H5 H6] E1 E2 E3 E4 E5 E6 K1 K2 K3 K4. split; rewrite ?E1, ?E2, ?E3, ?E4, ?E5, ?E6; try done.
  - intros x [?|?]%elem_of_app; [set_solver|rewrite K1; set_solver].
  - intros x [?|?]%elem_of_app; [set_solver|rewrite K2; set_solver].
  - intros x [?|?]%elem_of_app; [set_solver|rewrite K3; set_solver].
  - intros x [?|?]%elem_of_app; [set_solver|rewrite K4; set_solver].
Qed.

(** The two subscriptions ask for the same. *)
Definition asks_same s s' : Prop := ss_keys s' = ss_keys s ∧ ss_filter s' = ss_filter s ∧ ss_order s' = ss_order s ∧ ss_limit s' = ss_limit s.

(** The change of one subscription. *)
Lemma midway_step D D' v subs cs ks k todo :
  objects_ok D → midway D D' v subs cs ks (k :: todo) →
  ∃ v' s s', subs !! k = Some (SubSorted s) ∧ sub_change v (SubSorted s) = Some (v', SubSorted s') ∧ asks_same s s' ∧
    midway D D' v' (<[k:=SubSorted s']> subs) cs (ks ++ [k]) todo.
Proof.
  intros Ho [Hk Htodo Hdone Hc Hd Hl Hi Hf He Hr Hops Hmk]. destruct (Htodo k ltac:(left)) as (s & c & Esub & Eid & Ec & Hsy & Hb).
  pose proof Hk as (Hnks & Hdis & [Hnk Hntodo]%NoDup_cons)%NoDup_app.
  assert (k ∉ ks) as Hkks by (intros Hin; apply (Hdis k Hin); left).
  destruct (onChange_batch orderable v s (sy_ok _ _ _ _ Hsy) Hb) as (v' & s' & ps & rs & chs & news & Eon & Hbd).
  { intros ch Hch. rewrite Eid. intros E. apply Hkks. rewrite <- E. by apply (oo_change _ _ Hops). }
  destruct (onChange_same_request v s v' s' (so_dep _ _ _ (sy_ok _ _ _ _ Hsy)) (so_started _ _ _ (sy_ok _ _ _ _ Hsy)) Eon)
    as (R1 & R2 & R3 & R4 & R5 & R6).
  pose proof Hbd as [B1 B2 B3 B4 B5 B6 (B7a & B7b & B7c) B8 B9 B10 _ B12 B13].
  rewrite Eid in B7a, B7b, B7c, B13, R1.
  exists v', s, s'. split; [done|]. split.
  { cbn [sub_change]. unfold sub_onChange. rewrite Eon. cbn [mbind option_bind]. unfold dep_onChange.
    by rewrite (pe_dep _ _ _ _ _ B12). }
  split; [by split_and!|]. destruct (other_name k) as [x0 Hx0]. pose proof (B13 x0 Hx0) as Hm0. pose proof (cached_orderable D _ Ho Hd) as Hco.
  destruct (moved_entries x0 D D' _ _ _ _ Hm0 Hd Hl He Hr) as [He' Hr']. rewrite <- B6 in He', Hr'.
  split; try done.
  - by rewrite <- app_assoc.
  - intros k' Hk'. destruct (Htodo k') as (s2 & c2 & E2 & Eid2 & Ec2 & Hsy2 & Hb2); [by right|].
    assert (k' ≠ k) as Hne by (intros ->; done). exists s2, c2. rewrite lookup_insert_ne by done.
    assert (moved (ss_id s2) (en_w v) (cx_entries (en_ctx v)) (en_w v') news) as Hm by (apply B13; congruence).
    split_and!; [done..|by eapply moved_in_sync|]. rewrite B6.
    eapply moved_batch; [done|apply (sy_ok _ _ _ _ Hsy2)|apply (sy_top _ _ _ _ Hsy2)|done|done].
  - intros k' [Hk'| ->%list_elem_of_singleton]%elem_of_app.
    + destruct (Hdone k' Hk') as (s2 & c2 & E2 & Eid2 & Ec2 & Hha). assert (k' ≠ k) as Hne by (intros ->; done).
      exists s2, c2. rewrite lookup_insert_ne by done. split_and!; [done..|].
      apply (moved_handled D' v v' s2 c2 k news ps rs chs); try done; [apply B13|]; congruence.
    + exists s', c. rewrite lookup_insert_eq. split_and!; [done|congruence|done|]. split.
      * done.
      * rewrite R6. apply (sy_top _ _ _ _ Hsy).
      * intros id d. rewrite B9, (after_objects D D' v s (id, d)); [|done..|apply (sy_objects _ _ _ _ Hsy)]. simpl.
        unfold passes. by rewrite R3.
      * rewrite B1, B2, R1. rewrite !filter_app_own; [|try done..].
        -- by rewrite (sy_client _ _ _ _ Hsy).
        -- intros q Hq E. apply Hkks. rewrite <- E. by apply (oo_remove _ _ Hops).
        -- intros q Hq E. apply Hkks. rewrite <- E. by apply (oo_position _ _ Hops).
  - by apply (pe_cache _ _ _ _ _ B12).
  - by eapply moved_cached_from.
  - apply (pe_live _ _ _ _ _ B12).
  - apply (pe_ids _ _ _ _ _ B12).
  - apply (pe_fresh _ _ _ _ _ B12).
  - eapply (ops_of_more ks k (en_ctx v) (en_ctx v') ps rs _ chs); try done.
    intros cnt. destruct (bool_decide _); [set_solver|]. intros ->%list_elem_of_singleton. simpl. congruence.
  - intros x l Hx. rewrite <- app_assoc in Hx. cbn [app] in Hx. rewrite B6. eapply moved_marks; [apply B13; set_solver|done|done|].
    intros l'. by apply Hmk.
Qed.

(** The subscriptions are the same requests. *)
Definition same_requests (subs subs' : gmap string (subscription order)) : Prop :=
  dom subs' = dom subs ∧ ∀ k s, subs !! k = Some (SubSorted s) → ∃ s', subs' !! k = Some (SubSorted s') ∧ asks_same s s'.

Lemma midway_all D D' todo : objects_ok D → ∀ v subs cs ks,
  midway D D' v subs cs ks todo →
  ∃ v' subs', iterateSubscriptions todo v subs = Some (v', subs') ∧ midway D D' v' subs' cs (ks ++ todo) [] ∧ same_requests subs subs'.
Proof.
  intros Ho. induction todo as [|k todo IH]; intros v subs cs ks Hm.
  { exists v, subs. rewrite app_nil_r. split_and!; [done..|]. split; [done|]. intros k s ?. by exists s. }
  destruct (midway_step _ _ _ _ _ _ _ _ Ho Hm) as (v1 & s & s' & Esub & Ech & Hask & Hm1).
  destruct (IH _ _ _ _ Hm1) as (v2 & subs2 & E2 & Hm2 & Ed & Hreq). exists v2, subs2. cbn [iterateSubscriptions].
  rewrite Esub, Ech. cbn [mbind option_bind]. split_and!; [done|by rewrite <- app_assoc in Hm2|]. split.
  - rewrite Ed. apply dom_insert_lookup_L. by eexists.
  - intros k' s0 E0. destruct (decide (k' = k)) as [->|Hne]; [|apply Hreq; by rewrite lookup_insert_ne].
    rewrite Esub in E0. injection E0 as <-. destruct (Hreq k s') as (s2 & E & H2); [by rewrite lookup_insert_eq|].
    exists s2. split; [done|]. destruct Hask as (? & ? & ? & ?), H2 as (? & ? & ? & ?). unfold asks_same. split_and!; congruence.
Qed.

(** ** A batch *)

Definition arrives_at (r : Details) : Prop := rec_id r ≠ "" ∧ orderable r.
(** The objects of the space after some records. *)
Definition objects_after D (recs : list Details) : gmap string Details := absorb (λ _, true) D recs.
Lemma objects_after_ok D recs : objects_ok D → Forall arrives_at recs → objects_ok (objects_after D recs).
Proof.
  intros Ho Hr id d. rewrite Forall_forall in Hr. unfold objects_after. rewrite absorb_collected.
  intros [[Hin _]|[_ ?]]; [|by apply Ho]. destruct (collected_id _ _ Hin) as [Hin' E]. simpl in *. subst id. by destruct (Hr _ Hin').
Qed.

Lemma midway_start p D cs recs ls w :
  space_ok p D cs → Forall arrives_at recs → new_entries (sv_w p) (collect_records recs) = (ls, w) →
  midway D (objects_after D recs) {| en_w := w; en_ds := sv_ds p; en_ctx := add_entries (ctx_reset (sv_outputs p)) ls |} (sv_subs p) cs [] (sv_keys p).
Proof.
  intros [Hk Hreg Hsy Hdef Hc Hd Hmk Ho] Hr E.
  destruct (new_entries_spec _ _ _ _ _ E) as (news & El & Ec & Hold & Hnew & Hf). simpl in El. subst news.
  destruct (Forall2_ids _ _ _ Hf) as (Eids & Hl1 & Hl2).
  assert (∀ id, c_Get w id = c_Get (sv_w p) id) as Eg by (intros; unfold c_Get; by rewrite Ec).
  split; simpl; try done.
  - intros k [sub Esub]%Hreg. destruct (Hsy k sub Esub) as (s & c & -> & Eid & Ecs & Hs). exists s, c.
    destruct (arriving_batch orderable p s recs ls w (sy_ok _ _ _ _ Hs)) as (Hok & Hb & _); [|done|].
    { eapply Forall_impl; [exact Hr|]. intros r [? ?]. split_and!; [done..|]. by rewrite (sy_top _ _ _ _ Hs). }
    split_and!; [done..| |done]. destruct Hs. by split.
  - set_solver.
  - intros id lc. rewrite Eg. intros Hlc. destruct (Hc _ _ Hlc) as [L <-]. by destruct (Hold lc L) as [? ->].
  - intros id lc. rewrite Eg. intros Hlc. destruct (Hc _ _ Hlc) as [L _]. destruct (Hold lc L) as [? ->]. by apply Hd.
  - intros l Hl. by apply Hnew.
  - rewrite Eids. apply collect_records_NoDup.
  - intros id lc. rewrite Eg. intros Hlc Hin. destruct (Hnew lc Hin) as [Hn _]. apply Hn. by eapply Hc.
  - intros l Hl. destruct (Hl1 l Hl) as ([i d] & Hin & ->). apply absorb_collected. left. done.
  - intros id. rewrite Eids. intros Hid. apply option_eq. intros d. unfold objects_after. rewrite absorb_collected. split; [|by right].
    intros [[Hin _]|[_ ?]]; [|done]. exfalso. apply Hid. by apply (list_elem_of_fmap_2 fst) in Hin.
  - split; simpl; set_solver.
  - intros x l Hx [Hin|[id Hlc]].
    + destruct (Hl1 l Hin) as (r & _ & ->). simpl. set_solver.
    + rewrite Eg in Hlc. destruct (Hc _ _ Hlc) as [L _]. destruct (Hold l L) as [_ ->]. by eapply Hmk.
Qed.

Lemma midway_cached D D' v subs cs ks ctx :
  midway D D' v subs cs ks [] → defaultOutput ∉ ks → cx_entries ctx = cx_entries (en_ctx v) → cx_change ctx = cx_change (en_ctx v) →
  cx_keysBuf ctx = [] →
  cache_ok (ctx_apply (en_w v) ctx).1 ∧ cached_from D' (ctx_apply (en_w v) ctx).1 ∧
  ∀ x id lc, x ∉ ks → c_Get (ctx_apply (en_w v) ctx).1 id = Some lc → x ∉ e_subIds (ent (ctx_apply (en_w v) ctx).1 lc).
Proof.
  intros Hm Hdef Ee Ech Hk. destruct (ctx_apply_world (en_w v) ctx Hk) as (w1 & -> & Hst).
  { rewrite Ee. apply (mw_live _ _ _ _ _ _ _ Hm). }
  assert (∀ x, x ∉ ks → steady x (en_w v) w1) as Hstx.
  { intros x Hx. apply Hst. intros ch l Hch E. exfalso. apply Hx. rewrite <- E. apply (oo_change _ _ (mw_ops _ _ _ _ _ _ _ Hm)). by rewrite <- Ech. }
  pose proof (Hstx _ Hdef) as Hst1. clear Hst. rewrite Ee. set (ls := cx_entries (en_ctx v)). pose proof (mw_live _ _ _ _ _ _ _ Hm) as Hl.
  assert (ids_of w1 ls = ids_of (en_w v) ls) as Eids by (by eapply steady_ids).
  destruct (commit_spec ls w1) as (Eh & Hin & Hout); [rewrite Eids; apply (mw_ids _ _ _ _ _ _ _ Hm)|].
  set (w2 := foldl apply_entry w1 ls) in *. assert (∀ l, ent w2 l = ent w1 l) as Eent by (intros; unfold ent; by rewrite Eh).
  assert (∀ id lc, c_Get w2 id = Some lc →
    (lc ∈ ls ∧ e_id (ent w1 lc) = id) ∨ (id ∉ ids_of (en_w v) ls ∧ c_Get (en_w v) id = Some lc)) as Hget.
  { intros id lc. destruct (decide (id ∈ ids_of w1 ls)) as [(l & Hin' & <-)%ids_of_inv|Hno].
    - rewrite Hin by done. destruct (e_subIds (ent w1 l)); [done|]. intros [= <-]. by left.
    - rewrite Hout by done. rewrite (steady_get _ _ _ _ Hst1). rewrite Eids in Hno. by right. }
  split_and!; [intros id lc [[Hin' E]|[Hno Hlc]]%Hget..|intros x id lc Hx [[Hin' E]|[Hno Hlc]]%Hget]; rewrite Eent.
  - split; [|done]. unfold live. rewrite Eh. by apply (sd_live _ _ _ Hst1), Hl.
  - destruct (mw_cache _ _ _ _ _ _ _ Hm _ _ Hlc) as [L E]. rewrite (sd_id _ _ _ Hst1) by done. split; [|done].
    unfold live. rewrite Eh. by apply (sd_live _ _ _ Hst1).
  - rewrite <- E, (sd_id _ _ _ Hst1), (sd_data _ _ _ Hst1) by (by apply Hl). by apply (mw_entries _ _ _ _ _ _ _ Hm).
  - destruct (mw_cache _ _ _ _ _ _ _ Hm _ _ Hlc) as [L _]. rewrite (sd_data _ _ _ Hst1) by done.
    rewrite (mw_rest _ _ _ _ _ _ _ Hm) by done. by apply (mw_data _ _ _ _ _ _ _ Hm).
  - rewrite (sd_subs _ _ _ (Hstx x Hx)) by (by apply Hl). apply (mw_marks _ _ _ _ _ _ _ Hm); [by rewrite app_nil_r|by left].
  - destruct (mw_cache _ _ _ _ _ _ _ Hm _ _ Hlc) as [L _]. rewrite (sd_subs _ _ _ (Hstx x Hx)) by done.
    apply (mw_marks _ _ _ _ _ _ _ Hm); [by rewrite app_nil_r|right; eauto].
Qed.

(** What the clients have after the events of a batch. *)
Definition clients cs (outs : gmap string (list Event)) : gmap string (list string) :=
  map_imap (λ k c, Some (foldl (client_event k) c (stream k outs))) cs.
Lemma clients_lookup cs outs k c : cs !! k = Some c → clients cs outs !! k = Some (foldl (client_event k) c (stream k outs)).
Proof. intros E. unfold clients. by rewrite map_lookup_imap, E. Qed.

Lemma space_events p D cs recs :
  space_ok p D cs → Forall arrives_at recs →
  ∃ p' outs, recordsHandler p recs = (if deliverable (sv_customOutput p) outs then Some (p', outs) else None) ∧
    sv_customOutput p' = sv_customOutput p ∧ same_requests (sv_subs p) (sv_subs p') ∧ (∀ k, k ≠ defaultOutput → is_Some (outs !! k) ↔ k ∈ dom (sv_customOutput p)) ∧
    space_ok p' (objects_after D recs) (clients cs outs).
Proof.
  intros Hs Hr. unfold recordsHandler, onChange. destruct (new_entries (sv_w p) (collect_records recs)) as [ls w] eqn:E.
  pose proof (midway_start p D cs recs ls w Hs Hr E) as Hm. unfold onChangeWithinContext.
  cbn [sv_w sv_subs sv_ds sv_outputs sv_customOutput sv_keys with_sv_w].
  destruct (midway_all _ _ _ (sc_objects _ _ _ Hs) _ _ _ _ Hm) as (v & subs & Eit & Hend & Hreq). pose proof Hreq as [Edom _]. rewrite Eit. cbn [mbind option_bind].
  cbn [app] in Hend. set (ctx := with_outputs (en_ctx v) _). pose proof (mw_ops _ _ _ _ _ _ _ Hend) as Hops.
  pose proof (sc_default _ _ _ Hs) as Hdef.
  assert (∀ k, k ∈ sv_keys p → told k (reset_outputs (sv_customOutput p)) (cx_outputs (ctx_apply (en_w v) ctx).2)
    (λ l, client_list l (filter (λ q, op_subId q = k) (cx_position (en_ctx v))) (filter (λ r, or_subId r = k) (cx_remove (en_ctx v))))) as Htold.
  { intros k Hk. apply (apply_stream k (en_w v) ctx); [intros ->; done| | | |apply (oo_groups _ _ Hops)]; intros q Hq E'; apply Hdef; rewrite <- E'.
    - by apply (oo_position _ _ Hops).
    - by apply (oo_remove _ _ Hops).
    - by apply (oo_counters _ _ Hops). }
  destruct (midway_cached _ _ _ _ _ _ ctx Hend Hdef) as (Hcok & Hcfrom & Hmarks); [done..|apply (oo_keysBuf _ _ Hops)|].
  assert (∀ k s, k ∈ sv_keys p → handled (objects_after D recs) v s (default [] (cs !! k)) → sub_ok orderable (ctx_apply (en_w v) ctx).1 s) as Hok.
  { intros k s _ Hh. apply pending_commit; [apply (ha_pending _ _ _ _ Hh)|apply (oo_keysBuf _ _ Hops)]. }
  assert (∀ k, k ≠ defaultOutput → is_Some (cx_outputs (ctx_apply (en_w v) ctx).2 !! k) ↔ k ∈ dom (sv_customOutput p)) as Houts.
  { intros k Hk. destruct (other_name defaultOutput) as [x Hx].
    destruct (apply_stream x (en_w v) ctx Hx) as [T _ _]; try (intros q Hq E'; apply Hdef; rewrite <- E').
    - by apply (oo_position _ _ Hops).
    - by apply (oo_remove _ _ Hops).
    - by apply (oo_counters _ _ Hops).
    - apply (oo_groups _ _ Hops).
    - rewrite T by done. simpl. rewrite reset_outputs_lookup. naive_solver. }
  destruct (ctx_apply (en_w v) ctx) as [w' ctx']. cbn [fst snd] in *.
  eexists _, _. split_and!; [reflexivity|done..|].
  split; simpl; try (by destruct Hs).
  - intros k. rewrite (sc_registered _ _ _ Hs), <- !elem_of_dom. by rewrite Edom.
  - intros k sub Esub. assert (k ∈ sv_keys p) as Hk.
    { apply (sc_registered _ _ _ Hs). apply elem_of_dom. rewrite <- Edom. apply elem_of_dom. by eexists. }
    destruct (mw_done _ _ _ _ _ _ _ Hend k Hk) as (s & c & Es & Eid & Ec & Hh). rewrite Esub in Es. injection Es as ->.
    exists s, (foldl (client_event k) c (stream k (cx_outputs ctx'))). split_and!; [done|done|by apply clients_lookup|].
    destruct (Htold k Hk) as [_ _ (evs & T2 & T3)]. split.
    + apply (Hok k); [done|]. by rewrite Ec.
    + apply (ha_top _ _ _ _ Hh).
    + apply (ha_objects _ _ _ _ Hh).
    + rewrite T2, reset_outputs_stream. cbn [app]. rewrite T3, <- Eid. apply (ha_client _ _ _ _ Hh).
  - apply objects_after_ok; [apply (sc_objects _ _ _ Hs)|done].
Qed.

Lemma space_batch p D cs recs :
  space_ok p D cs → outputs_open (sv_customOutput p) → Forall arrives_at recs →
  ∃ p' outs, recordsHandler p recs = Some (p', outs) ∧ outputs_open (sv_customOutput p') ∧
    space_ok p' (objects_after D recs) (clients cs outs).
Proof.
  intros Hs Ho Hr. destruct (space_events p D cs recs Hs Hr) as (p' & outs & -> & Ec & _ & Hd & Hs'). exists p', outs.
  rewrite open_deliverable, Ec; [done|done|]. intros k Hk. by apply Hd.
Qed.

(** ** Cancelling *)

Definition marked (x : string) w (id : string) (d : Details) : Prop :=
  ∃ lc, c_Get w id = Some lc ∧ e_data (ent w lc) = d ∧ x ∈ e_subIds (ent w lc).

(** Only the marks matter to a subscription. *)
Lemma marked_sub_ok w w' s :
  sub_ok orderable w s → cache_ok w' → (∀ id d, marked (ss_id s) w' id d ↔ marked (ss_id s) w id d) → sub_ok orderable w' s.
Proof. intros [] Hc Hm. split; try done. intros id d. fold (marked (ss_id s) w' id d). by rewrite Hm. Qed.

(** [w'] drops the subscription [k] from some cached entries of [w]. *)
Record dropped (k : string) w w' : Prop := {
  dr_cache : cache_ok w';
  dr_get : ∀ id lc, c_Get w' id = Some lc → c_Get w id = Some lc ∧ e_data (ent w' lc) = e_data (ent w lc) ∧
    ∀ x, x ∈ e_subIds (ent w' lc) → x ∈ e_subIds (ent w lc);
  dr_others : ∀ x id d, x ≠ k → marked x w' id d ↔ marked x w id d;
}.
Lemma dropped_refl k w : cache_ok w → dropped k w w.
Proof. by split. Qed.
Lemma dropped_trans k w1 w2 w3 : dropped k w1 w2 → dropped k w2 w3 → dropped k w1 w3.
Proof.
  intros [A1 A2 A3] [B1 B2 B3]. split; [done|..].
  - intros id lc Hlc. destruct (B2 _ _ Hlc) as (Hlc2 & E2 & M2). destruct (A2 _ _ Hlc2) as (Hlc1 & E1 & M1).
    split_and!; [done|congruence|auto].
  - intros x id d Hx. by rewrite B3, A3.
Qed.

Lemma RemoveSubId_dropped k w id : cache_ok w →
  dropped k w (c_RemoveSubId w id k) ∧ ∀ lc, c_Get (c_RemoveSubId w id k) id = Some lc → k ∉ e_subIds (ent (c_RemoveSubId w id k) lc).
Proof.
  intros Hc. unfold c_RemoveSubId. destruct (c_Get w id) as [l|] eqn:El.
  2:{ split; [by apply dropped_refl|]. intros lc Hlc. congruence. }
  destruct (Hc _ _ El) as [L Eid]. set (w1 := upd w l _).
  assert (∀ l', ent w1 l' = if bool_decide (l' = l) then e_RemoveSubId (ent w l) k else ent w l') as Ee by (intros; by apply ent_upd).
  assert (∀ id', c_Get w1 id' = c_Get w id') as Eg by done.
  assert (∀ e, e_id (e_RemoveSubId e k) = e_id e ∧ e_data (e_RemoveSubId e k) = e_data e) as Hsame by (intros e; by destruct (e_RemoveSubId_same k e)).
  assert (∀ x, x ∈ e_subIds (e_RemoveSubId (ent w l) k) ↔ x ≠ k ∧ x ∈ e_subIds (ent w l)) as Hsubs.
  { intros x. rewrite e_RemoveSubId_subIds, list_elem_of_filter. done. }
  assert (dropped k w w1) as Hd1.
  { split.
    - intros id' lc Hlc. rewrite Eg in Hlc. destruct (Hc _ _ Hlc) as [L' <-]. split; [by apply live_upd|]. rewrite Ee.
      case_bool_decide; [subst lc; by apply Hsame|done].
    - intros id' lc Hlc. rewrite Eg in Hlc. split; [done|]. rewrite Ee. case_bool_decide; [subst lc|done].
      split; [by apply Hsame|]. intros x [_ ?]%Hsubs. done.
    - intros x id' d Hx. unfold marked. setoid_rewrite Eg. split; intros (lc & Hlc & Hd & Hm); exists lc; (split; [done|]).
      + rewrite Ee in Hd, Hm. case_bool_decide; [subst lc|done]. split; [by rewrite <- Hd; symmetry; apply Hsame|by apply Hsubs].
      + rewrite Ee. case_bool_decide; [subst lc|done]. split; [rewrite <- Hd; by apply Hsame|by apply Hsubs]. }
  assert (∀ lc, c_Get w1 id = Some lc → k ∉ e_subIds (ent w1 lc)) as Hk1.
  { intros lc. rewrite Eg, El. intros [= <-]. rewrite Ee, bool_decide_eq_true_2 by done. intros [? _]%Hsubs. done. }
  case_bool_decide as Es; [|done].
  assert (∀ id' lc, c_Get (c_Remove w1 id) id' = Some lc ↔ id' ≠ id ∧ c_Get w1 id' = Some lc) as Hget.
  { intros id' lc. unfold c_Get, c_Remove. simpl. rewrite lookup_delete_Some. naive_solver. }
  split; [|intros lc [? _]%Hget; done]. eapply dropped_trans; [exact Hd1|]. pose proof (dr_cache _ _ _ Hd1) as Hc1. split.
  - intros id' lc [_ Hlc]%Hget. by apply Hc1.
  - intros id' lc [_ Hlc]%Hget. done.
  - intros x id' d Hx. unfold marked. setoid_rewrite Hget. split; intros (lc & Hlc & Hd & Hm); exists lc; [tauto|].
    split_and!; [|done..]. intros ->. rewrite Eg, El in Hlc. injection Hlc as <-. change (ent (c_Remove w1 id) l) with (ent w1 l) in *.
    rewrite Es in Hm. by apply elem_of_nil in Hm.
Qed.

Lemma close_dropped k ids : ∀ w, cache_ok w →
  let w' := foldl (λ w id, c_RemoveSubId w id k) w ids in
  dropped k w w' ∧ ∀ id lc, id ∈ ids → c_Get w' id = Some lc → k ∉ e_subIds (ent w' lc).
Proof.
  induction ids as [|id ids IH]; intros w Hc; cbn [foldl]; [split; [by apply dropped_refl|set_solver]|].
  destruct (RemoveSubId_dropped k w id Hc) as [Hd1 Hk1]. destruct (IH _ (dr_cache _ _ _ Hd1)) as [Hd2 Hk2].
  split; [by eapply dropped_trans|]. intros id' lc [->|Hin]%elem_of_cons Hlc; [|by eapply Hk2].
  destruct (dr_get _ _ _ Hd2 _ _ Hlc) as (Hlc1 & _ & Hm). intros Hk. by apply (Hk1 lc Hlc1), Hm.
Qed.

(** Closing a subscription takes its mark from the whole cache. *)
Lemma ss_close_dropped w s :
  sub_ok orderable w s → dropped (ss_id s) w (ss_close w s) ∧
  ∀ id lc, c_Get (ss_close w s) id = Some lc → ss_id s ∉ e_subIds (ent (ss_close w s) lc).
Proof.
  intros Hok. unfold ss_close. rewrite (so_started _ _ _ Hok), (so_dep _ _ _ Hok). simpl. rewrite all_elems_eq.
  assert (∀ els w, foldl (λ w el, c_RemoveSubId w (sk_Key el).1 (ss_id s)) w els =
            foldl (λ w id, c_RemoveSubId w id (ss_id s)) w (sk_Key <$> els).*1) as ->.
  { induction els as [|el els IH]; intros w0; [done|]. simpl. apply IH. }
  fold (keys_of s). destruct (close_dropped (ss_id s) (keys_of s).*1 w (so_cache _ _ _ Hok)) as [Hd Hk].
  split; [done|]. intros id lc Hlc Hin. destruct (dr_get _ _ _ Hd _ _ Hlc) as (Hlc0 & Ed & Hm).
  assert (id ∈ (keys_of s).*1) as Hid; [|by apply (Hk id lc)].
  apply list_elem_of_fmap. exists (id, e_data (ent w lc)). split; [done|]. apply (so_keys _ _ _ Hok). exists lc. auto.
Qed.

Lemma dropped_cached_from k D w w' : dropped k w w' → cached_from D w → cached_from D w'.
Proof. intros Hd Hc id lc Hlc. destruct (dr_get _ _ _ Hd _ _ Hlc) as (Hlc0 & -> & _). by apply Hc. Qed.

Definition without p k (sub : subscription order) : spaceSubs order := deleteSubscription (with_sv_w p (sub_close (sv_w p) sub)) k.

Lemma without_ok p D cs k sub :
  space_ok p D cs → sv_subs p !! k = Some sub → space_ok (without p k sub) D cs ∧ k ∉ sv_keys (without p k sub).
Proof.
  intros Hs Esub. pose proof (sc_sync _ _ _ Hs k sub Esub) as (s & c & -> & Eid & Ec & Hsy).
  destruct (ss_close_dropped (sv_w p) s (sy_ok _ _ _ _ Hsy)) as [Hd Hk]. rewrite Eid in Hd, Hk.
  assert (∀ k', k' ∈ RemoveMut (sv_keys p) k ↔ k' ≠ k ∧ k' ∈ sv_keys p) as Hin.
  { intros k'. rewrite RemoveMut_spec, list_elem_of_filter. done. }
  split; [|simpl; rewrite Hin; by intros [? _]]. split; simpl.
  - rewrite RemoveMut_spec. apply NoDup_filter, (sc_keys _ _ _ Hs).
  - intros k'. rewrite Hin, (sc_registered _ _ _ Hs), lookup_delete_is_Some. naive_solver.
  - intros k' sub' [Hne E']%lookup_delete_Some. destruct (sc_sync _ _ _ Hs k' sub' E') as (s2 & c2 & -> & Eid2 & Ec2 & [Y1 Y2 Y3 Y4]).
    exists s2, c2. split_and!; [done..|]. split; try done. eapply marked_sub_ok; [exact Y1|apply (dr_cache _ _ _ Hd)|].
    intros id d. apply (dr_others _ _ _ Hd). congruence.
  - rewrite Hin. intros [_ ?]. by apply (sc_default _ _ _ Hs).
  - apply (dr_cache _ _ _ Hd).
  - eapply dropped_cached_from; [done|apply (sc_data _ _ _ Hs)].
  - intros x id lc Hx Hlc. destruct (decide (x = k)) as [->|Hne]; [by eapply Hk|].
    destruct (dr_get _ _ _ Hd _ _ Hlc) as (Hlc0 & _ & Hm). intros Hxs%Hm. eapply (sc_marks _ _ _ Hs); [|exact Hlc0|exact Hxs].
    intros ?. apply Hx. by apply Hin.
  - apply (sc_objects _ _ _ Hs).
Qed.

(** ** Subscribing *)

(** Adding entries of the space that carry no marks. *)
Lemma init_entry_others D s x w sk acc l w' sk' acc' :
  x ≠ ss_id s → cache_ok w → cached_from D w → live w l → x ∉ e_subIds (ent w l) → D !! e_id (ent w l) = Some (e_data (ent w l)) →
  init_entry s (w, sk, acc) l = (w', sk', acc') →
  cache_ok w' ∧ cached_from D w' ∧ (∀ id d, marked x w' id d ↔ marked x w id d) ∧
  ∀ l, live w l → live w' l ∧ e_id (ent w' l) = e_id (ent w l) ∧ e_data (ent w' l) = e_data (ent w l) ∧
    (x ∈ e_subIds (ent w' l) ↔ x ∈ e_subIds (ent w l)).
Proof.
  intros Hx Hc Hd Hl Hnx HD. unfold init_entry.
  destruct (c_GetOrSet w l) as [l0 w0] eqn:E0.
  assert (live w0 l0 ∧ cache_ok w0 ∧ cached_from D w0 ∧ (∀ id d, marked x w0 id d ↔ marked x w id d) ∧ w_heap w0 = w_heap w) as (L0 & Hc0 & Hd0 & Hm0 & Eh).
  { unfold c_GetOrSet in E0. destruct (w_cache w !! e_id (ent w l)) as [lc|] eqn:Ec; injection E0 as <- <-.
    { split_and!; try done. by eapply Hc. }
    assert (∀ id lc, c_Get (with_cache w (<[e_id (ent w l):=l]> (w_cache w))) id = Some lc ↔
              (id = e_id (ent w l) ∧ lc = l) ∨ c_Get w id = Some lc) as Hget.
    { intros id lc. unfold c_Get. simpl. rewrite lookup_insert_Some. split; [naive_solver|].
      intros [[-> ->]|Hlc]; [by left|right]. split; [|done]. intros <-. congruence. }
    split_and!; try done.
    - intros id lc [[-> ->]|Hlc]%Hget; [done|by apply Hc].
    - intros id lc [[-> ->]|Hlc]%Hget; [done|by apply Hd].
    - intros id d. unfold marked. setoid_rewrite Hget. split.
      + intros (lc & [[-> ->]|Hlc] & ? & ?); [done|by exists lc].
      + intros (lc & ? & ? & ?). exists lc. split_and!; [by right|done..]. }
  intros [= <- _ _]. assert (∀ l', ent w0 l' = ent w l') as Ee0 by (intros; unfold ent; by rewrite Eh).
  assert (steady x w0 (upd w0 l0 (λ e, SetSub e (ss_id s) false false))) as Hst by (by apply SetSub_steady).
  split_and!.
  - by eapply steady_cache_ok.
  - intros id lc. rewrite (steady_get x w0) by done. intros Hlc. destruct (Hc0 _ _ Hlc) as [L _].
    rewrite (sd_data _ _ _ Hst) by done. by apply Hd0.
  - intros id d. unfold marked. rewrite (steady_marked x w0) by done. apply Hm0.
  - intros l' L'. assert (live w0 l') as L'0 by (unfold live; by rewrite Eh).
    rewrite (sd_id _ _ _ Hst), (sd_data _ _ _ Hst), (sd_subs _ _ _ Hst), Ee0 by done.
    split_and!; [by apply (sd_live _ _ _ Hst)|done..].
Qed.

Lemma init_entries_others D s x ents : ∀ w sk acc w' sk' acc',
  x ≠ ss_id s → cache_ok w → cached_from D w →
  (∀ l, l ∈ ents → live w l ∧ x ∉ e_subIds (ent w l) ∧ D !! e_id (ent w l) = Some (e_data (ent w l))) →
  foldl (init_entry s) (w, sk, acc) ents = (w', sk', acc') →
  cache_ok w' ∧ cached_from D w' ∧ ∀ id d, marked x w' id d ↔ marked x w id d.
Proof.
  induction ents as [|l ents IH]; intros w sk acc w' sk' acc' Hx Hc Hd He; cbn [foldl]; [by intros [= <- _ _]|].
  destruct (init_entry s (w, sk, acc) l) as [[w1 sk1] acc1] eqn:E1. intros E. destruct (He l ltac:(left)) as (Hl & Hnx & HD).
  destruct (init_entry_others D s x _ _ _ _ _ _ _ Hx Hc Hd Hl Hnx HD E1) as (Hc1 & Hd1 & Hm1 & Hsame).
  destruct (IH w1 sk1 acc1 w' sk' acc' Hx Hc1 Hd1) as (Hc2 & Hd2 & Hm2); [|exact E|].
  { intros l' Hin. destruct (He l') as (L & Hn & HD'); [by right|]. destruct (Hsame l' L) as (? & -> & -> & ->). done. }
  split_and!; [done..|]. intros id d. by rewrite Hm2.
Qed.

(** What the start of a subscription leaves to the others. *)
Lemma ss_init_others D v s ents x :
  ss_disableDep s = true → x ≠ ss_id s → cache_ok (en_w v) → cached_from D (en_w v) →
  (∀ l, l ∈ ents → live (en_w v) l ∧ x ∉ e_subIds (ent (en_w v) l) ∧ D !! e_id (ent (en_w v) l) = Some (e_data (ent (en_w v) l))) →
  let '(err, v', s') := ss_init v s ents in
  err = None → cached_from D (en_w v') ∧ ∀ id d, marked x (en_w v') id d ↔ marked x (en_w v) id d.
Proof.
  intros Hdd Hx Hc Hd He. unfold ss_init. set (s0 := with_start s true _).
  destruct (foldl (init_entry s0) (en_w v, sk_New, []) ents) as [[w sk] ents'] eqn:E.
  destruct (init_entries_others D s0 x ents _ _ _ _ _ _ Hx Hc Hd He E) as (Hc1 & Hd1 & Hm1).
  destruct (set_anchors_same w (with_skl s0 sk)) as (a & b & c & Ea).
  destruct (setBeforeAndAfterElements w (with_skl s0 sk)) as [[err|] s2]; [done|]. simpl in Ea. subst s2. cbv zeta.
  cbn [ss_disableDep with_shown with_anchors with_skl with_start s0]. rewrite Hdd. intros _. cbn [en_w with_w].
  set (ids := (getActiveEntries _).*1). set (w2 := foldl _ w ids).
  assert (steady x w w2) as Hst by (apply activate_steady; [done|]; intros z lc Ex; by destruct Hx).
  split.
  - intros id lc. rewrite (steady_get x w) by done. intros Hlc. destruct (Hc1 _ _ Hlc) as [L _].
    rewrite (sd_data _ _ _ Hst) by done. by apply Hd1.
  - intros id d. unfold marked. rewrite (steady_marked x w w2) by done. apply Hm1.
Qed.

(** A request from the top of the list, without dependent objects, and the answer of
    the store: every object that passes the filter, once. *)
Record query_ok D s (queried : list (string * Details)) : Prop := {
  qo_order : order_ok orderable s;
  qo_new : ∃ id keys f ord limit, s = noDep (newSortedSub id keys f ord limit 0);
  qo_name : ss_id s ≠ defaultOutput;
  qo_id : RelationKeyId ∈ ss_keys s;
  qo_ids : NoDup queried.*1;
  qo_answer : ∀ id d, (id, d) ∈ queried ↔ D !! id = Some d ∧ passes s d = true;
}.

Lemma newer_world w w' : w_cache w' = w_cache w → (∀ l, live w l → live w' l ∧ ent w' l = ent w l) → cache_ok w →
  cache_ok w' ∧ ∀ x id d, marked x w' id d ↔ marked x w id d.
Proof.
  intros Ec Hold Hc. assert (∀ id, c_Get w' id = c_Get w id) as Eg by (intros; unfold c_Get; by rewrite Ec). split.
  - intros id lc. rewrite Eg. intros Hlc. destruct (Hc _ _ Hlc) as [L <-]. by destruct (Hold lc L) as [? ->].
  - intros x id d. unfold marked. setoid_rewrite Eg. split; intros (lc & Hlc & Hd & Hm); exists lc; destruct (Hc _ _ Hlc) as [L _];
      destruct (Hold lc L) as [_ E]; rewrite E in *; done.
Qed.

(** The ids of the records in the response. *)
Definition shown_ids (resp : SubscribeResponse) : list string := rec_id <$> sr_Records resp.

Lemma CopyOnlyKeys_id d keys : RelationKeyId ∈ keys → rec_id (d_CopyOnlyKeys d keys) = rec_id d.
Proof.
  intros Hk. rewrite d_CopyOnlyKeys_lookup. unfold rec_id, d_GetString, d_Get. f_equal. destruct d as [m|]; simpl.
  - f_equal. apply option_eq. intros x. rewrite map_lookup_filter_Some. simpl. naive_solver.
  - by rewrite map_filter_empty, lookup_empty.
Qed.

Lemma init_keys v s ls : let '(_, _, s') := ss_init v s ls in ss_disableDep s = true → asks_same s s'.
Proof.
  unfold ss_init, asks_same. destruct (foldl _ _ ls) as [[w sk] ents].
  destruct (set_anchors_same w (with_skl (with_start s true (ss_entriesBeforeStarted s)) sk)) as (a & b & c & E).
  destruct (setBeforeAndAfterElements _ _) as [[err|] s2]; simpl in E; subst s2; [done|].
  cbn [ss_disableDep with_shown with_anchors with_skl with_start]. destruct (ss_disableDep s); [done|].
  destruct (depKeys _ _) as [dk d]. destruct (_ && _); [done|]. by destruct (makeSubscriptionByEntries _ _ _ _ _ _ _).
Qed.

(** The start of a subscription on a world that knows nothing of it. *)
Lemma init_synced D v s queried ls :
  query_ok D s queried → objects_ok D → cache_ok (en_w v) → cached_from D (en_w v) →
  (∀ id lc, c_Get (en_w v) id = Some lc → ss_id s ∉ e_subIds (ent (en_w v) lc)) →
  ids_of (en_w v) ls = queried.*1 →
  (∀ l, l ∈ ls → live (en_w v) l ∧ ∃ r, r ∈ queried ∧ ent (en_w v) l = newEntry r.1 r.2) →
  ∃ v' s', ss_init v s ls = (None, v', s') ∧ ss_id s' = ss_id s ∧ in_sync D (en_w v') s' (window s') ∧ cached_from D (en_w v') ∧
    (∀ x id d, x ≠ ss_id s → marked x (en_w v') id d ↔ marked x (en_w v) id d) ∧
    window s' = take_limit (ss_limit s) (keys_of s').*1 ∧ asks_same s s'.
Proof.
  intros [Ho (id0 & keys & f & ord & limit & Es) _ _ Hn Hans] HD Hc Hd Hmk Eids Hl.
  assert (∀ l, l ∈ ls → live (en_w v) l ∧ (∀ x, x ∉ e_subIds (ent (en_w v) l)) ∧
            D !! e_id (ent (en_w v) l) = Some (e_data (ent (en_w v) l))) as He.
  { intros l Hin. destruct (Hl l Hin) as (L & [i d] & Hr & ->). simpl. split_and!; [done|set_solver|]. by apply Hans. }
  pose proof (ss_init_spec orderable v s ls Ho) as Hsp. pose proof (init_id v s ls) as Hid. pose proof (init_keys v s ls) as Hkeys.
  assert (ss_disableDep s = true) as Hdd by (by rewrite Es). pose proof (λ x Hx, ss_init_others D v s ls x Hdd Hx Hc Hd) as Hoth.
  destruct (ss_init v s ls) as [[err v'] s']. destruct Hid as (Eid & _ & Ef & Eoff).
  destruct Hsp as (Hk & Hnd & Hcand & Hcase); try done; try (by rewrite Es).
  { intros id lc Hlc. split; [by eapply Hmk|]. by destruct (HD _ _ (Hd _ _ Hlc)) as (_ & ? & _). }
  { intros l Hin. destruct (He l Hin) as (L & _ & HDl). by destruct (HD _ _ HDl) as (? & ? & _). }
  assert (ss_offset s = 0%Z) as Eo by (by rewrite Es).
  destruct Hcase as [(-> & Hok & _ & Hanc & HW)|(_ & Hlt & _)]; [|rewrite Eo in Hlt; lia].
  exists v', s'. split; [done|]. split; [done|]. rewrite Eo in HW. simpl in HW.
  assert (ss_afterEl s' = None) as Htop by (rewrite Hanc; unfold anchor_of; by rewrite Eoff, Eo).
  assert (∀ id d, (id, d) ∈ keys_of s' → D !! id = Some d) as HkD.
  { intros id d (l & [Hin|[i Hi]] & [= -> ->])%Hcand; [by apply He|]. destruct (Hc _ _ Hi) as [_ <-]. by apply Hd in Hi. }
  split_and!.
  - split; [done|done| |done]. intros id d. split.
    + intros Hin. pose proof (HkD _ _ Hin) as HDd. split; [done|].
      assert (id ∈ queried.*1) as ([i d'] & E & Hr)%list_elem_of_fmap.
      { rewrite <- Eids. apply Hk. by apply (list_elem_of_fmap_2 fst) in Hin. }
      simpl in E. subst i. apply Hans in Hr as [HD' Hp]. rewrite HDd in HD'. injection HD' as <-. unfold passes. by rewrite Ef.
    + intros [HDd Hp]. assert ((id, d) ∈ queried) as Hr by (apply Hans; split; [done|]; unfold passes in *; by rewrite <- Ef).
      assert (id ∈ (keys_of s').*1) as ([i d'] & E & Hin)%list_elem_of_fmap.
      { apply Hk. rewrite Eids. by apply (list_elem_of_fmap_2 fst) in Hr. }
      simpl in E. subst i. pose proof (HkD _ _ Hin) as HD'. rewrite HDd in HD'. by injection HD' as <-.
  - destruct (other_name (ss_id s)) as [x Hx]. apply (Hoth x Hx); [|done]. intros l Hin. destruct (He l Hin) as (? & ? & ?). auto.
  - intros x id d Hx. apply (Hoth x Hx); [|done]. intros l Hin. destruct (He l Hin) as (? & ? & ?). auto.
  - exact HW.
  - by apply Hkeys.
Qed.

(** What the response shows is the window. *)
Lemma response_shown D w s c : in_sync D w s c → objects_ok D → RelationKeyId ∈ ss_keys s → shown_ids (response_of w s) = window s.
Proof.
  intros Hsy HD Hid. pose proof (sy_ok _ _ _ _ Hsy) as Hok. unfold shown_ids, response_of. destruct (counters s). simpl.
  unfold getActiveRecords, window, getActiveEntries. destruct (anchor_rest s (so_anchor _ _ _ Hok)) as [rest Hr].
  rewrite (iterateActive_eq s rest (so_before _ _ _ Hok) Hr). simpl. rewrite <- !list_fmap_compose. apply list_fmap_ext.
  intros i el Hel. simpl. rewrite CopyOnlyKeys_id by done.
  assert ((sk_Key el).1 = (sk_Key el).1 ∧ sk_Key el ∈ keys_of s) as [_ Hin].
  { split; [done|]. apply keys_elem. exists el. split; [|done]. apply list_elem_of_lookup_2 in Hel.
    eapply elem_of_submseteq; [exact Hel|]. apply sublist_submseteq. etrans; [apply take_limit_sublist|by eapply rest_sublist]. }
  destruct (sk_Key el) as [id d]. apply (sy_objects _ _ _ _ Hsy) in Hin as [Hin _]. by destruct (HD _ _ Hin) as (_ & _ & ?).
Qed.

(** What a client sees of the object [id] when the objects are [D]. *)
Definition shown_version (D : gmap string Details) (keys : list string) (id : string) : Details := d_CopyOnlyKeys (default (None : Details) (D !! id)) keys.

(** The records of the response are the versions of the objects, in the order of the
    window. *)
Lemma response_records D w s c : in_sync D w s c → sr_Records (response_of w s) = shown_version D (ss_keys s) <$> window s.
Proof.
  intros Hsy. pose proof (sy_ok _ _ _ _ Hsy) as Hok. unfold response_of. destruct (counters s). simpl.
  unfold getActiveRecords, window, getActiveEntries. destruct (anchor_rest s (so_anchor _ _ _ Hok)) as [rest Hr].
  rewrite (iterateActive_eq s rest (so_before _ _ _ Hok) Hr). simpl. rewrite <- !list_fmap_compose. apply list_fmap_ext.
  intros i el Hel. simpl. assert (sk_Key el ∈ keys_of s) as Hin.
  { apply keys_elem. exists el. split; [|done]. apply list_elem_of_lookup_2 in Hel.
    eapply elem_of_submseteq; [exact Hel|]. apply sublist_submseteq. etrans; [apply take_limit_sublist|by eapply rest_sublist]. }
  unfold shown_version. destruct (sk_Key el) as [id d]. apply (sy_objects _ _ _ _ Hsy) in Hin as [Hin _]. cbn [fst snd].
  by rewrite Hin.
Qed.

Lemma space_subscribe p D cs s internal sorts queried :
  space_ok p D cs → query_ok D s queried →
  ∃ resp p' s', subscribe_end (subscribe_begin p s internal) s sorts (Ok queried) = (Ok resp, p') ∧
    sv_subs p' !! ss_id s = Some (SubSorted s') ∧ asks_same s s' ∧
    sv_customOutput p' = match internal with
                         | Some given => <[ss_id s := Some (newInternalSubOutput given)]> (sv_customOutput p)
                         | None => sv_customOutput p
                         end ∧
    space_ok p' D (<[ss_id s := shown_ids resp]> cs).
Proof.
  intros Hs0 Hq. set (k := ss_id s).
  assert (space_ok (close_existing p k) D cs ∧ k ∉ sv_keys (close_existing p k)) as [Hs Hk].
  { unfold close_existing. destruct (sv_subs p !! k) as [sub|] eqn:E; [by apply (without_ok p D cs k sub)|].
    split; [done|]. rewrite (sc_registered _ _ _ Hs0), E. by intros [? ?]. }
  unfold subscribe_begin. fold k. set (p0 := close_existing p k) in *.
  destruct (set_output_same (setSubscription p0 k (SubSorted s)) k internal) as (Ek & Es & Ew & Eds & Hop).
  set (p1 := set_output _ k internal) in *. unfold subscribe_end.
  destruct (new_entries (sv_w p1) queried) as [ls w] eqn:E. rewrite Ew in E.
  destruct (new_entries_spec _ _ _ _ _ E) as (news & El & Ecache & Hold & Hnew & Hf). simpl in El. subst news.
  destruct (Forall2_ids _ _ _ Hf) as (Eids & Hl1 & _). change (sv_w (setSubscription p0 k (SubSorted s))) with (sv_w p0) in *.
  destruct (newer_world (sv_w p0) w Ecache Hold (sc_cache _ _ _ Hs)) as [Hc Hm].
  assert (cached_from D w) as Hd.
  { intros id lc Hlc. unfold c_Get in Hlc. rewrite Ecache in Hlc. destruct (sc_cache _ _ _ Hs _ _ Hlc) as [L _].
    destruct (Hold lc L) as [_ ->]. by apply (sc_data _ _ _ Hs). }
  assert (∀ x id lc, x ∉ sv_keys p0 → c_Get w id = Some lc → x ∉ e_subIds (ent w lc)) as Hmk.
  { intros x id lc Hx Hlc. unfold c_Get in Hlc. rewrite Ecache in Hlc. destruct (sc_cache _ _ _ Hs _ _ Hlc) as [L _].
    destruct (Hold lc L) as [_ ->]. by eapply (sc_marks _ _ _ Hs). }
  pose proof (qo_new _ _ _ Hq) as (id0 & keys & f & ord & limit & Enew).
  assert (ss_entriesBeforeStarted s = []) as -> by (by rewrite Enew). rewrite app_nil_r.
  assert (with_start s (ss_started s) [] = s) as -> by (by rewrite Enew).
  set (v := {| en_w := w; en_ds := _; en_ctx := _ |}).
  destruct (init_synced D v s queried ls Hq (sc_objects _ _ _ Hs) Hc Hd) as (v' & s' & Ei & Eid & Hsy & Hd' & Hm' & HW & Ekeys').
  { intros id lc. by apply Hmk. }
  { done. }
  { intros l Hin. split; [by apply Hnew|by apply Hl1]. }
  rewrite Ei. eexists _, _, s'. split; [reflexivity|]. pose proof (sy_ok _ _ _ _ Hsy) as Hok. rewrite Eid. fold k. split_and!.
  - simpl. by rewrite lookup_insert_eq.
  - done.
  - simpl. unfold p1, p0, close_existing. destruct internal; simpl; by destruct (sv_subs p !! k).
  - rewrite (response_shown D (en_w v') s' _ Hsy (sc_objects _ _ _ Hs)) by (rewrite (proj1 Ekeys'); apply (qo_id _ _ _ Hq)).
    assert (sv_keys (setSubscription (with_sv_env p1 v') k (SubSorted s')) = sv_keys p0 ++ [k]) as Ekeys.
    { simpl. rewrite Ek. simpl. rewrite (bool_decide_eq_false_2 _ Hk), bool_decide_eq_true_2 by set_solver. done. }
    assert (∀ k', sv_subs (setSubscription (with_sv_env p1 v') k (SubSorted s')) !! k' =
              if decide (k' = k) then Some (SubSorted s') else sv_subs p0 !! k') as Esubs.
    { intros k'. simpl. rewrite Es. simpl. rewrite insert_insert_eq. destruct (decide (k' = k)) as [->|]; [by rewrite lookup_insert_eq|].
      by rewrite lookup_insert_ne. }
    split; rewrite ?Ekeys; try (setoid_rewrite Esubs).
    + apply NoDup_app. split_and!; [apply (sc_keys _ _ _ Hs)| |apply NoDup_singleton]. intros x Hx ->%list_elem_of_singleton. done.
    + intros k'. rewrite elem_of_app, list_elem_of_singleton, (sc_registered _ _ _ Hs). destruct (decide (k' = k)); naive_solver.
    + intros k' sub. destruct (decide (k' = k)) as [->|Hne].
      * intros [= <-]. exists s', (window s'). rewrite lookup_insert_eq. done.
      * intros (s2 & c2 & -> & Eid2 & Ec2 & [Y1 Y2 Y3 Y4])%(sc_sync _ _ _ Hs). exists s2, c2. rewrite lookup_insert_ne by done.
        split_and!; [done..|]. split; try done. eapply marked_sub_ok; [exact Y1|apply (so_cache _ _ _ Hok)|].
        intros id d. rewrite Eid2. simpl. rewrite Hm' by done. simpl. apply Hm.
    + rewrite elem_of_app, list_elem_of_singleton. intros [?|E']; [by apply (sc_default _ _ _ Hs)|]. by apply (qo_name _ _ _ Hq).
    + apply (so_cache _ _ _ Hok).
    + exact Hd'.
    + intros x id lc Hx Hlc Hin. rewrite elem_of_app, list_elem_of_singleton in Hx.
      assert (marked x (en_w v') id (e_data (ent (en_w v') lc))) as Hmx by (by exists lc).
      apply Hm' in Hmx; [|intros ->; apply Hx; by right]. destruct Hmx as (lc' & Hlc' & _ & Hin').
      apply (Hmk x id lc'); [|done..]. intros ?. apply Hx. by left.
    + apply (sc_objects _ _ _ Hs).
Qed.


(** ** Sessions *)

(** No output of its own. *)
Definition plain_output p (k : string) : Prop := ∀ o, sv_customOutput p !! k ≠ Some (Some o).

Lemma space_unsubscribe subIds : ∀ p D cs,
  space_ok p D cs → Forall (plain_output p) subIds →
  ∃ p', Unsubscribe p subIds = (None, p') ∧ sv_customOutput p' = sv_customOutput p ∧ space_ok p' D cs ∧ ∀ k, k ∈ subIds → sv_subs p' !! k = None.
Proof.
  induction subIds as [|k subIds IH]; intros p D cs Hs Hp; [exists p; split_and!; [done..|set_solver]|].
  apply Forall_cons in Hp as [Hk Hp]. cbn [Unsubscribe].
  assert (∀ p' k, sv_subs p' !! k = None → ∀ ids err p'', Unsubscribe p' ids = (err, p'') → sv_subs p'' !! k = None) as Hgone.
  { clear. intros p' k Hn ids. revert p' Hn. induction ids as [|k' ids IH]; intros p' Hn err p''; cbn [Unsubscribe]; [by intros [= _ <-]|].
    destruct (sv_subs p' !! k') as [sub|]; [|by apply IH]. unfold unsubscribe.
    destruct (sv_customOutput p' !! k') as [[o|]|]; [destruct (output_close k' o); [by intros [= _ <-]|]|..]; apply IH; simpl;
      apply lookup_delete_None; by right. }
  destruct (sv_subs p !! k) as [sub|] eqn:E.
  2:{ destruct (IH p D cs Hs Hp) as (p' & E' & Ec' & Hs' & Hall). exists p'. split_and!; [done..|]. intros k' [->|?]%elem_of_cons; [|auto]. by eapply Hgone. }
  assert (unsubscribe p k sub = (None, without p k sub)) as ->.
  { unfold unsubscribe. destruct (sv_customOutput p !! k) as [[o|]|] eqn:Eo; [by destruct (Hk o)|done|done]. }
  destruct (without_ok p D cs k sub Hs E) as [Hs1 Hnk]. destruct (IH _ D cs Hs1) as (p' & E' & Ec' & Hs' & Hall).
  { eapply Forall_impl; [exact Hp|]. done. }
  exists p'. split_and!; [done..|]. intros k' [->|?]%elem_of_cons; [|auto]. eapply Hgone; [|exact E']. simpl. by rewrite lookup_delete_eq.
Qed.

(** What happens in a space: its state, the objects its records tell of, and the lists
    of the clients.  A client starts with the records of the response and then
    follows its events. *)
Inductive step : spaceSubs order * gmap string Details * gmap string (list string) →
                 spaceSubs order * gmap string Details * gmap string (list string) → Prop :=
| step_batch p D cs recs p' outs :
    Forall arrives_at recs → recordsHandler p recs = Some (p', outs) →
    step (p, D, cs) (p', objects_after D recs, clients cs outs)
| step_subscribe p D cs s internal sorts queried resp p' :
    query_ok D s queried → subscribe_end (subscribe_begin p s internal) s sorts (Ok queried) = (Ok resp, p') →
    step (p, D, cs) (p', D, <[ss_id s := shown_ids resp]> cs)
| step_unsubscribe p D cs subIds p' :
    Forall (plain_output p) subIds → Unsubscribe p subIds = (None, p') → step (p, D, cs) (p', D, cs).

(** The clients are in sync and every output is there. *)
Definition served_ok (st : spaceSubs order * gmap string Details * gmap string (list string)) : Prop :=
  space_ok st.1.1 st.1.2 st.2 ∧ outputs_open (sv_customOutput st.1.1).

Lemma open_insert custom k o : outputs_open custom → outputs_open (<[k := Some o]> custom).
Proof. intros Ho k'. destruct (decide (k = k')) as [->|]; [by rewrite lookup_insert_eq|by rewrite lookup_insert_ne]. Qed.

Lemma step_ok st st' : step st st' → served_ok st → served_ok st'.
Proof.
  intros [p D cs recs p' outs Hr E|p D cs s internal sorts queried resp p' Hq E|p D cs subIds p' Hp E] [Hs Ho]; cbn [fst snd] in Hs, Ho.
  - destruct (space_batch p D cs recs Hs Ho Hr) as (p1 & o1 & E1 & Ho1 & Hs1). rewrite E in E1. by injection E1 as <- <-.
  - destruct (space_subscribe p D cs s internal sorts queried Hs Hq) as (r1 & p1 & s1 & E1 & _ & _ & Ec & Hs1).
    rewrite E in E1. injection E1 as <- <-. split; [done|]. simpl. rewrite Ec. destruct internal; [by apply open_insert|done].
  - destruct (space_unsubscribe subIds p D cs Hs Hp) as (p1 & E1 & Ec & Hs1 & _). rewrite E in E1. injection E1 as <-.
    split; [done|]. simpl. by rewrite Ec.
Qed.

(** A space before its first subscription. *)
Definition new_space p D : Prop :=
  sv_keys p = [] ∧ sv_subs p = ∅ ∧ w_cache (sv_w p) = ∅ ∧ sv_customOutput p = ∅ ∧ objects_ok D.
Lemma new_space_ok p D cs : new_space p D → space_ok p D cs.
Proof.
  intros (Ek & Es & Ec & Eo & HD). assert (∀ id lc, c_Get (sv_w p) id = Some lc → False) as Hno.
  { intros id lc. unfold c_Get. by rewrite Ec, lookup_empty. }
  split; rewrite ?Ek, ?Es, ?Eo; try done.
  - constructor.
  - intros k. rewrite lookup_empty. split; [set_solver|by intros [? ?]].
  - set_solver.
  - intros id lc Hlc. by destruct (Hno id lc).
  - intros id lc Hlc. by destruct (Hno id lc).
  - intros x id lc _ Hlc. by destruct (Hno id lc).
Qed.

Lemma reachable_ok st st' : rtc step st st' → served_ok st → served_ok st'.
Proof. induction 1 as [|st st1 st' Hst _ IH]; [done|]. intros Hs. by eapply IH, step_ok. Qed.

(** What a client of the subscription [s] should see: the first objects that pass its
    filter, in its order. *)
Definition expected D s (c : list string) : Prop :=
  ∃ ks, sorted_by (ss_Compare (ss_order s)) ks ∧ NoDup ks.*1 ∧ (∀ id d, (id, d) ∈ ks ↔ D !! id = Some d ∧ passes s d = true) ∧
    c = take_limit (ss_limit s) ks.*1.

Lemma sync_expected D w s c : in_sync D w s c → expected D s c.
Proof.
  intros [Hok Ht Hobj ->]. pose proof (so_tracked _ _ _ Hok) as Htr. exists (keys_of s). split_and!.
  - apply (tr_sorted _ _ Htr).
  - apply (tr_distinct _ _ Htr).
  - done.
  - destruct (window_eq s (sk_elems (ss_skl s)) (so_before _ _ _ Hok)) as [-> _]; [by rewrite Ht|].
    unfold keys_of. by rewrite !take_limit_fmap.
Qed.

Lemma asks_expected D s s' c : asks_same s s' → expected D s' c → expected D s c.
Proof. intros (_ & Ef & Eo & El) (ks & H). exists ks. unfold passes in *. by rewrite <- Ef, <- Eo, <- El. Qed.


(** ** A cancelled output *)

(** A nil output panics as soon as its client has to be told something. *)
Lemma nil_output_panics p D cs k s c recs :
  space_ok p D cs → sv_subs p !! k = Some (SubSorted s) → sv_customOutput p !! k = Some None → cs !! k = Some c →
  Forall arrives_at recs → ¬ expected (objects_after D recs) s c → recordsHandler p recs = None.
Proof.
  intros Hs Esub Eo Ec Hr Hne. destruct (sc_sync _ _ _ Hs _ _ Esub) as (s0 & c0 & [= <-] & Eid & Ec0 & _).
  rewrite Ec in Ec0. injection Ec0 as <-. assert (k ∈ sv_keys p) as Hk by (apply (sc_registered _ _ _ Hs); by eexists).
  assert (k ≠ defaultOutput) as Hkd by (intros ->; by apply (sc_default _ _ _ Hs)).
  destruct (space_events p D cs recs Hs Hr) as (p' & outs & -> & _ & [_ Hreq] & Houts & Hs').
  assert (is_Some (outs !! k)) as [msgs Em] by (apply Houts; [done|]; apply elem_of_dom; by eexists).
  assert (msgs ≠ []) as Hmsgs.
  { intros ->. apply Hne. destruct (Hreq k s Esub) as (s' & Esub' & Hask).
    destruct (sc_sync _ _ _ Hs' _ _ Esub') as (s1 & c1 & [= <-] & _ & Ec1 & Hsy1). rewrite (clients_lookup _ _ _ _ Ec) in Ec1.
    unfold stream in Ec1. rewrite Em in Ec1. injection Ec1 as <-. eapply asks_expected; [exact Hask|]. by eapply sync_expected. }
  assert (deliverable (sv_customOutput p) outs = false) as ->; [|done].
  apply not_true_iff_false. unfold deliverable. rewrite forallb_forall. intros Hall.
  specialize (Hall (k, msgs)). rewrite <- list_elem_of_In, elem_of_map_to_list in Hall. specialize (Hall Em). simpl in Hall.
  rewrite !bool_decide_eq_false_2, Eo in Hall by done. done.
Qed.

(** An internal subscription leaves a nil output behind when it is cancelled.  When
    the same id then subscribes without an output of its own, the first batch that
    changes what its client sees makes the handler of the batch panic. *)
Theorem cancelled_output_panics p D s given sorts sorts' queried :
  new_space p D → query_ok D s queried → (given = true ∨ queue_Close (ss_id s) = None) →
  ∃ resp p1 p2 resp' p3,
    subscribe_end (subscribe_begin p s (Some given)) s sorts (Ok queried) = (Ok resp, p1) ∧
    Unsubscribe p1 [ss_id s] = (None, p2) ∧
    subscribe_end (subscribe_begin p2 s None) s sorts' (Ok queried) = (Ok resp', p3) ∧
    ∀ recs, Forall arrives_at recs → ¬ expected (objects_after D recs) s (shown_ids resp') → recordsHandler p3 recs = None.
Proof.
  intros Hn Hq Hclose. set (k := ss_id s).
  destruct (space_subscribe p D ∅ s (Some given) sorts queried (new_space_ok p D ∅ Hn) Hq) as (resp & p1 & s1 & E1 & Esub1 & _ & Ec1 & Hs1).
  destruct (without_ok p1 D _ k _ Hs1 Esub1) as [Hs2 _].
  set (p2 := without (with_customOutput p1 (<[k := None]> (sv_customOutput p1))) k (SubSorted s1)).
  assert (space_ok p2 D (<[k := shown_ids resp]> ∅)) as Hs2'.
  { destruct Hs2. by split. }
  assert (Unsubscribe p1 [k] = (None, p2)) as E2.
  { unfold p2. cbn [Unsubscribe]. unfold k. rewrite Esub1. unfold unsubscribe. rewrite Ec1, lookup_insert_eq. unfold output_close, newInternalSubOutput.
    cbn [io_externallyManaged]. destruct given; [done|]. destruct Hclose as [?|Hcl]; [done|]. by rewrite Hcl. }
  destruct (space_subscribe p2 D _ s None sorts' queried Hs2' Hq) as (resp' & p3 & s3 & E3 & Esub3 & Hask & Ec3 & Hs3).
  exists resp, p1, p2, resp', p3. split_and!; [done..|]. intros recs Hr Hne.
  eapply nil_output_panics; [exact Hs3|exact Esub3| |by rewrite lookup_insert_eq|done|].
  - rewrite Ec3. unfold p2. simpl. fold k. by rewrite lookup_insert_eq.
  - intros He. apply Hne. by eapply asks_expected.
Qed.
End space.
