(* ===== verification/SubRace.v ===== *)
(** * Changes that arrive while a request is being answered

    A request registers its subscription, queries the store outside the lock and then
    starts the subscription.  The entries of the batches in between are kept and added
    to the answer of the query. *)

From S2P Require Import Prelude Slice SliceDiff GoFloat Values Details Filter SubCache SubContext SubDep SubSorted SubTracking SubBatch SubKinds SubService SubServed SubSpace.

Section race.
Context `{Hstore : !SubStore, Hdiff : !Mb0Diff, Hdiffok : !Mb0DiffOk, Hint : !LoIntersect, Hskl : !SkipList, Hsklok : !SkipListOk,
          Hkan : !Kanban, Hqueue : !SubQueue}.
Context {order : Type} `{Hso : !SubOrder order} (orderable : Details → Prop).
Implicit Types (s : sortedSub order) (p : spaceSubs order) (w : world) (v : env) (D : gmap string Details).

(** A subscription that has not started keeps the entries that pass its filter. *)
Lemma unstarted_changes w s ls : ss_started s = false →
  entry_changes w s ls = (false, w, with_start s false (ss_entriesBeforeStarted s ++ filter (λ l, passes s (e_data (ent w l)) = true) ls)).
Proof.
  unfold entry_changes. assert (∀ s, ss_started s = false → s = with_start s false (ss_entriesBeforeStarted s ++ [])) as Hid.
  { intros [] E. simpl in E. subst. unfold with_start. simpl. by rewrite app_nil_r. }
  revert s. induction ls as [|l ls IH]; intros s Hs; cbn [foldl]; [by rewrite <- Hid|].
  unfold onEntryChange at 2. fold (passes s (e_data (ent w l))). rewrite Hs. cbn [negb]. rewrite filter_cons.
  destruct (passes s (e_data (ent w l))) eqn:Ep.
  - rewrite decide_True by done. rewrite orb_false_r. rewrite IH by done. unfold with_start. simpl. by rewrite <- app_assoc.
  - rewrite decide_False by done. rewrite orb_false_r. by rewrite IH.
Qed.

(** Nothing was collected: only the cache is brought up to date. *)
Lemma quiet_apply w outs ls m :
  ctx_apply w (with_outputs (add_entries (ctx_reset outs) ls) m) = (foldl apply_entry w ls, with_outputs (add_entries (ctx_reset outs) ls) m).
Proof. reflexivity. Qed.
Lemma quiet_deliverable custom : deliverable custom (reset_outputs custom) = true.
Proof.
  apply forallb_forall. intros [k msgs] Hin. apply list_elem_of_In, elem_of_map_to_list in Hin.
  apply lookup_gset_to_gmap_Some in Hin as [_ <-]. done.
Qed.

(** Entries without subscriptions do not reach the cache. *)
Lemma unmarked_commit w ls : (∀ id, c_Get w id = None) → (∀ l, l ∈ ls → e_subIds (ent w l) = []) → 
  w_heap (foldl apply_entry w ls) = w_heap w ∧ ∀ id, c_Get (foldl apply_entry w ls) id = None.
Proof.
  revert w. induction ls as [|l ls IH]; intros w Hc Hl; cbn [foldl]; [done|]. unfold apply_entry at 2 4. rewrite (Hl l) by left.
  apply (IH (c_Remove w (e_id (ent w l)))).
  - intros id. unfold c_Get, c_Remove. simpl. apply lookup_delete_None. right. apply Hc.
  - intros l' Hin. apply Hl. by right.
Qed.

(** A subscription before its start. *)
Definition waiting s : Prop := ss_started s = false ∧ ss_entriesBeforeStarted s = [] ∧ ss_depSub s = None.

(** A batch for the only subscription, which has not started. *)
Lemma waiting_batch p D s internal recs :
  new_space orderable p D → waiting s →
  ∃ p1 outs ls, recordsHandler (subscribe_begin p s internal) recs = Some (p1, outs) ∧
    sv_keys p1 = [ss_id s] ∧
    sv_subs p1 = {[ss_id s := SubSorted (with_start s false (filter (λ l, passes s (e_data (ent (sv_w p1) l)) = true) ls))]} ∧
    (∀ id, c_Get (sv_w p1) id = None) ∧ (∀ l, l ∈ ls → live (sv_w p1) l) ∧
    Forall2 (λ l r, ent (sv_w p1) l = newEntry r.1 r.2) ls (collect_records recs).
Proof.
  intros (Ek & Es & Ec & Eo & _) (Hst & Heb & Hdep). unfold subscribe_begin, close_existing. rewrite Es, lookup_empty.
  destruct (set_output_same (setSubscription p (ss_id s) (SubSorted s)) (ss_id s) internal) as (Ek1 & Es1 & Ew1 & _).
  set (p1 := set_output _ _ internal) in *. simpl in Ek1, Es1, Ew1. rewrite Ek in Ek1. rewrite Es in Es1.
  unfold recordsHandler, onChange. destruct (new_entries (sv_w p1) (collect_records recs)) as [ls w] eqn:E.
  destruct (new_entries_spec _ _ _ _ _ E) as (news & El & Ecw & _ & Hnew & Hf). simpl in El. subst news.
  destruct (Forall2_ids _ _ _ Hf) as (_ & Hl1 & _).
  destruct (unmarked_commit w ls) as [Eh Hc2].
  { intros id. unfold c_Get. by rewrite Ecw, Ew1, Ec, lookup_empty. }
  { intros l Hin. destruct (Hl1 l Hin) as (r & _ & ->). done. }
  assert (∀ l, ent (foldl apply_entry w ls) l = ent w l) as Eent by (intros; unfold ent; by rewrite Eh).
  unfold onChangeWithinContext. cbn [sv_w sv_subs sv_ds sv_outputs sv_customOutput sv_keys with_sv_w]. rewrite Ek1, Es1.
  cbn [iterateSubscriptions]. simpl (bool_decide _). cbn [app]. cbn [iterateSubscriptions]. rewrite lookup_insert_eq. cbn [sub_change].
  unfold sub_onChange, ss_onChange. cbn [en_w en_ctx cx_entries add_entries ctx_reset app].
  rewrite (unstarted_changes w s ls Hst), Heb. cbn [app negb orb mbind option_bind]. unfold dep_onChange. cbn [ss_depSub with_start].
  rewrite Hdep. cbn [mbind option_bind iterateSubscriptions with_w en_w en_ctx en_ds]. rewrite quiet_apply. cbn [cx_outputs with_outputs].
  rewrite quiet_deliverable. eexists _, _, ls. split; [reflexivity|]. cbn [sv_keys sv_subs sv_w]. split_and!.
  - done.
  - rewrite insert_insert_eq.
    assert (filter (λ l, passes s (e_data (ent (foldl apply_entry w ls) l)) = true) ls = filter (λ l, passes s (e_data (ent w l)) = true) ls) as ->;
      [|done]. apply list_filter_iff. intros l. by rewrite Eent.
  - done.
  - intros l Hin. unfold live. rewrite Eh. by apply Hnew.
  - eapply Forall2_impl; [exact Hf|]. intros l r <-. by rewrite Eent.
Qed.
(** The first version of every object counts. *)
Definition first_seen s (queried : list (string * Details)) (recs : list Details) : gmap string Details :=
  list_to_map queried ∪ absorb (passes s) ∅ recs.
Lemma first_seen_lookup s queried recs id d : NoDup queried.*1 →
  first_seen s queried recs !! id = Some d ↔
  (id, d) ∈ queried ∨ (id ∉ queried.*1 ∧ (id, d) ∈ collect_records recs ∧ passes s d = true).
Proof.
  intros Hn. unfold first_seen. rewrite lookup_union_Some_raw, <- elem_of_list_to_map, <- not_elem_of_list_to_map by done.
  rewrite absorb_collected, lookup_empty. naive_solver.
Qed.
Lemma first_seen_ok D s queried recs :
  objects_ok orderable D → query_ok orderable D s queried → Forall (arrives_at orderable) recs → objects_ok orderable (first_seen s queried recs).
Proof.
  intros HD Hq Hr id d. rewrite first_seen_lookup by apply (qo_ids _ _ _ _ Hq). intros [Hin|(_ & Hin & _)].
  - apply (qo_answer _ _ _ _ Hq) in Hin as [Hin _]. by apply HD.
  - destruct (collected_id _ _ Hin) as [Hin' E]. simpl in *. subst id. rewrite Forall_forall in Hr. by destruct (Hr _ Hin').
Qed.

(** What the start of a subscription makes of the answer and of the entries kept. *)
Lemma init_first_seen D v s queried recs ls ls2 :
  objects_ok orderable D → query_ok orderable D s queried → Forall (arrives_at orderable) recs → (∀ id, c_Get (en_w v) id = None) →
  (∀ l, l ∈ ls ++ ls2 → live (en_w v) l) → Forall2 (λ l r, ent (en_w v) l = newEntry r.1 r.2) ls queried →
  Forall2 (λ l r, ent (en_w v) l = newEntry r.1 r.2) ls2 (filter (λ r, passes s r.2 = true) (collect_records recs)) →
  ∃ v' s', ss_init v s (ls ++ ls2) = (None, v', s') ∧ ss_id s' = ss_id s ∧ asks_same s s' ∧
    in_sync orderable (first_seen s queried recs) (en_w v') s' (window s').
Proof.
  intros HD Hq Hr Hc Hl Hf1 Hf2. pose proof (qo_new _ _ _ _ Hq) as (id0 & keys & f & ord & limit & Es).
  destruct (Forall2_ids _ _ _ Hf1) as (Ei1 & A1 & B1). destruct (Forall2_ids _ _ _ Hf2) as (Ei2 & A2 & B2).
  set (M := first_seen s queried recs). set (w := en_w v) in *. pose proof (first_seen_ok D s queried recs HD Hq Hr) as HM. fold M in HM.
  assert (NoDup queried.*1) as Hnq by apply (qo_ids _ _ _ _ Hq).
  assert (NoDup (filter (λ r, passes s r.2 = true) (collect_records recs)).*1) as Hnr.
  { eapply sublist_NoDup; [apply collect_records_NoDup|]. apply fmap_sublist, sublist_filter. }
  assert (∀ l, l ∈ ls ++ ls2 → e_id (ent w l) ≠ "" ∧ orderable (e_data (ent w l))) as Hgood.
  { intros l [(r & Hin & ->)%A1|(r & [_ Hin]%list_elem_of_filter & ->)%A2]%elem_of_app; destruct r as [id d]; simpl.
    - apply (qo_answer _ _ _ _ Hq) in Hin as [Hin _]. by destruct (HD _ _ Hin) as (? & ? & _).
    - destruct (collected_id _ _ Hin) as [Hin' E]. simpl in *. subst id. rewrite Forall_forall in Hr. by destruct (Hr _ Hin'). }
  assert (cache_ok w) as Hcok by (intros id lc Hlc; by rewrite Hc in Hlc).
  assert (∀ id lc, c_Get w id = Some lc → ss_id s ∉ e_subIds (ent w lc) ∧ orderable (e_data (ent w lc))) as Hnone
    by (intros id lc Hlc; by rewrite Hc in Hlc).
  assert (∀ l, l ∈ ls ++ ls2 → live w l ∧ e_id (ent w l) ≠ "" ∧ orderable (e_data (ent w l))) as He by auto.
  pose proof (ss_init_spec orderable v s (ls ++ ls2) (qo_order _ _ _ _ Hq)) as Hsp. pose proof (init_id v s (ls ++ ls2)) as Hid.
  pose proof (init_keys v s (ls ++ ls2)) as Hkeys.
  assert (∀ l1 l l2, ls ++ ls2 = l1 ++ l :: l2 → e_id (ent w l) ∉ ids_of w l1 →
            (e_id (ent w l), e_data (ent w l)) ∈ keys_of (ss_init v s (ls ++ ls2)).2) as Hfirst.
  { intros l1 l l2 El Hno. eapply (ss_init_first orderable); [apply (qo_order _ _ _ _ Hq)|done|done|done|exact El|done|by apply Hc|by rewrite Es]. }
  destruct (ss_init v s (ls ++ ls2)) as [[err v'] s']. destruct Hid as (Eid & _ & Ef & Eoff). cbn [snd] in Hfirst.
  destruct Hsp as (Hk & Hnd & Hcand & Hcase); try done; try (by rewrite Es).
  change (en_w v) with w in Hk. assert (ss_offset s = 0%Z) as Eo by (by rewrite Es).
  destruct Hcase as [(-> & Hok & _ & Hanc & HW)|(_ & Hlt & _)]; [|rewrite Eo in Hlt; lia].
  exists v', s'. split_and!; [done|done|apply Hkeys; by rewrite Es|].
  assert (∀ id d, M !! id = Some d → (id, d) ∈ keys_of s') as Hin.
  { intros id d HMd. unfold M in HMd. rewrite first_seen_lookup in HMd by done. destruct HMd as [Hq'|(Hno & Hc' & Hp)].
    - destruct (B1 _ Hq') as (l & Hin & El). apply list_elem_of_split in Hin as (l1 & l2 & ->).
      specialize (Hfirst l1 l (l2 ++ ls2)). rewrite El in Hfirst. apply Hfirst; [by rewrite <- app_assoc|].
      rewrite ids_of_app, ids_of_cons, El in Ei1. cbn [e_id newEntry fst] in *. rewrite <- Ei1 in Hnq. apply NoDup_app in Hnq as (_ & Hnq & _).
      intros Hin. apply (Hnq _ Hin). left.
    - assert ((id, d) ∈ filter (λ r, passes s r.2 = true) (collect_records recs)) as Hin' by (by apply list_elem_of_filter).
      destruct (B2 _ Hin') as (l & Hin & El). apply list_elem_of_split in Hin as (l1 & l2 & ->).
      specialize (Hfirst (ls ++ l1) l l2). rewrite El in Hfirst. apply Hfirst; [by rewrite <- app_assoc|].
      rewrite ids_of_app, ids_of_cons, El in Ei2. cbn [e_id newEntry fst] in *. rewrite <- Ei2 in Hnr. apply NoDup_app in Hnr as (_ & Hnr & _).
      rewrite ids_of_app, Ei1. intros [Hx|Hx]%elem_of_app; [done|]. apply (Hnr _ Hx). left. }
  assert (∀ id, id ∈ (keys_of s').*1 → is_Some (M !! id)) as Hsome.
  { intros id Hx. rewrite Hk, ids_of_app, Ei1, Ei2 in Hx. unfold M.
    destruct (decide (id ∈ queried.*1)) as [([i d] & -> & Hin')%list_elem_of_fmap|Hno].
    - exists d. apply first_seen_lookup; [done|]. by left.
    - apply elem_of_app in Hx as [?|([i d] & -> & [Hp Hin']%list_elem_of_filter)%list_elem_of_fmap]; [done|].
      exists d. apply first_seen_lookup; [done|]. by right. }
  split; [done|by rewrite Hanc; unfold anchor_of; rewrite Eoff, Eo| |done]. intros id d. split.
  - intros Hx. destruct (Hsome id) as [d' HMd]; [by apply (list_elem_of_fmap_2 fst) in Hx|].
    pose proof (Hin _ _ HMd) as Hx'. apply (elem_of_list_to_map_1 (M:=gmap string)) in Hx, Hx'; try done.
    rewrite Hx in Hx'. injection Hx' as <-. split; [done|].
    unfold M in HMd. rewrite first_seen_lookup in HMd by done. unfold passes. rewrite Ef. fold (passes s d).
    destruct HMd as [Hq'|(_ & _ & ?)]; [|done]. by apply (qo_answer _ _ _ _ Hq) in Hq' as [_ ?].
  - intros [HMd _]. by apply Hin.
Qed.

Lemma Forall2_filter {A B} (P : A → B → Prop) (f : A → bool) (g : B → bool) xs ys :
  (∀ x y, P x y → f x = g y) → Forall2 P xs ys → Forall2 P (filter (λ x, f x = true) xs) (filter (λ y, g y = true) ys).
Proof.
  intros Hfg. induction 1 as [|x y xs ys Hxy _ IH]; [constructor|]. rewrite !filter_cons, (Hfg _ _ Hxy).
  destruct (g y); [|done]. by constructor.
Qed.
Lemma Forall2_old w w' (ls : list loc) (rs : list (string * Details)) :
  (∀ l, l ∈ ls → ent w' l = ent w l) → Forall2 (λ l r, ent w l = newEntry r.1 r.2) ls rs → Forall2 (λ l r, ent w' l = newEntry r.1 r.2) ls rs.
Proof.
  intros Ho Hf. induction Hf as [|l r ls rs E _ IH]; [constructor|]. constructor; [rewrite Ho by left; done|]. apply IH. intros l' ?. apply Ho. by right.
Qed.

(** C37. A batch that arrives between the query of the first request of a space and the
    start of its subscription (from the top of the list, without dependent objects):
    the response has the first objects in the requested order, each in the version
    first seen.  Of an object the query has found this is the queried version,
    whatever the batch says, also when the object has left the filter; of the others
    it is the version of the batch, when it passes the filter. *)
Theorem change_during_subscribe p D s internal sorts queried recs :
  new_space orderable p D → query_ok orderable D s queried → Forall (arrives_at orderable) recs →
  ∃ p1 outs s1 resp p2,
    recordsHandler (subscribe_begin p s internal) recs = Some (p1, outs) ∧ sv_subs p1 !! ss_id s = Some (SubSorted s1) ∧
    subscribe_end p1 s1 sorts (Ok queried) = (Ok resp, p2) ∧ expected (first_seen s queried recs) s (shown_ids resp) ∧
    sr_Records resp = shown_version (first_seen s queried recs) (ss_keys s) <$> shown_ids resp.
Proof.
  intros Hn Hq Hr. pose proof (qo_new _ _ _ _ Hq) as (id0 & keys & f & ord & limit & Es).
  destruct (waiting_batch p D s internal recs Hn) as (p1 & outs & ls & E1 & Ek1 & Es1 & Hc1 & Hl1 & Hf1); [by rewrite Es|].
  set (s1 := with_start s false _) in Es1. exists p1, outs, s1. rewrite Es1, lookup_singleton_eq. unfold subscribe_end.
  destruct (new_entries (sv_w p1) queried) as [qs w] eqn:E.
  destruct (new_entries_spec _ _ _ _ _ E) as (news & El & Ecw & Hold & Hnew & Hf). simpl in El. subst news.
  assert (with_start s1 (ss_started s1) [] = s) as -> by (unfold s1; by rewrite Es).
  set (v := {| en_w := w; en_ds := _; en_ctx := _ |}). cbn [ss_entriesBeforeStarted with_start s1].
  destruct (init_first_seen D v s queried recs qs (filter (λ l, passes s (e_data (ent (sv_w p1) l)) = true) ls)) as (v' & s' & -> & Eid & Hask & Hsy).
  - by destruct Hn as (_ & _ & _ & _ & ?).
  - done.
  - done.
  - intros id. unfold c_Get. simpl. rewrite Ecw. apply Hc1.
  - intros l [Hin|[_ Hin]%list_elem_of_filter]%elem_of_app; [by apply Hnew|by apply Hold, Hl1].
  - done.
  - apply (Forall2_filter _ (λ l, passes s (e_data (ent (sv_w p1) l))) (λ r, passes s r.2)) in Hf1; [|by intros l r ->].
    eapply Forall2_old; [|exact Hf1]. intros l [_ Hin]%list_elem_of_filter. by apply Hold, Hl1.
  - assert (shown_ids (response_of (en_w v') s') = window s') as Hw.
    { apply (response_shown orderable _ _ _ _ Hsy); [eapply first_seen_ok; [by destruct Hn as (_ & _ & _ & _ & ?)|done..]|].
      destruct Hask as [-> _]. apply (qo_id _ _ _ _ Hq). }
    cbv zeta. eexists _, _. split_and!; [done..| |].
    + rewrite Hw. eapply asks_expected; [exact Hask|]. by eapply sync_expected.
    + rewrite Hw, (response_records orderable _ _ _ _ Hsy). by destruct Hask as [-> _].
Qed.
End race.
