(* ===== verification/SubInst.v ===== *)
(** * The subscriptions on concrete data

    Instances of the interfaces of the subscription files: a sorted list for the skip
    list, the sort orders of [Order] for the order, and a store.  The theorems of
    [SubServed] are applied to a small space. *)

From S2P Require Import Prelude Slice SliceDiff GoFloat Values Details Calendar Filter Order SubCache SubContext SubDep SubSorted SubTracking SubBatch SubKinds SubService SubServed SubSpace SubRace.
Import FilterInst TreeEnc OrderInst.
#[local] Existing Instances SliceDiff.Instances.prefix_diff SliceDiff.Instances.prefix_diff_ok.

(** ** A list as skip list

    An element is numbered when its key is put. *)

Definition sk_rep : Type := { l : list (nat * skey) | NoDup l.*1 }.

Definition fresh_no (l : list (nat * skey)) : nat := S (foldr Nat.max 0 l.*1).
Lemma fresh_no_spec l : fresh_no l ∉ l.*1.
Proof.
  assert (∀ n, n ∈ l.*1 → n ≤ foldr Nat.max 0 l.*1) as H.
  { intros n. induction l.*1 as [|m ms IH]; simpl; [set_solver|]. intros [->|?%IH]%elem_of_cons; lia. }
  intros ?%H. unfold fresh_no in *. lia.
Qed.

Fixpoint list_put (cmp : skey → skey → Z) (e : nat * skey) (l : list (nat * skey)) : list (nat * skey) :=
  match l with
  | [] => [e]
  | x :: l => if (cmp e.2 x.2 <? 0)%Z then e :: x :: l else x :: list_put cmp e l
  end.
Lemma list_put_split cmp e l :
  ∃ l1 l2, l = l1 ++ l2 ∧ list_put cmp e l = l1 ++ e :: l2 ∧ (∀ x, x ∈ l1 → (0 ≤ cmp e.2 x.2)%Z) ∧
    (∀ x, head l2 = Some x → (cmp e.2 x.2 < 0)%Z).
Proof.
  induction l as [|x l IH]; simpl; [exists [], []; split_and!; set_solver|].
  destruct (cmp e.2 x.2 <? 0)%Z eqn:E.
  - exists [], (x :: l). split_and!; [done..|set_solver|]. intros ? [= <-]. lia.
  - destruct IH as (l1 & l2 & -> & -> & H1 & H2). exists (x :: l1), l2. split_and!; [done..| |done].
    intros y [->|?]%elem_of_cons; [lia|auto].
Qed.

Fixpoint list_drop (cmp : skey → skey → Z) (k : skey) (l : list (nat * skey)) : list (nat * skey) :=
  match l with
  | [] => []
  | x :: l => if (cmp k x.2 =? 0)%Z then l else x :: list_drop cmp k l
  end.
Lemma list_drop_sublist cmp k l : list_drop cmp k l `sublist_of` l.
Proof. induction l as [|x l IH]; simpl; [done|]. destruct (_ =? 0)%Z; by constructor. Qed.
Lemma list_drop_split cmp k l1 x l2 :
  (∀ y, y ∈ l1 → cmp k y.2 ≠ 0%Z) → cmp k x.2 = 0%Z → list_drop cmp k (l1 ++ x :: l2) = l1 ++ l2.
Proof.
  induction l1 as [|y l1 IH]; intros H1 H2; simpl; [by rewrite H2|].
  rewrite (proj2 (Z.eqb_neq _ _)) by (apply H1; left). f_equal. apply IH; [|done]. intros z ?. apply H1. by right.
Qed.
Lemma list_drop_absent cmp k l : (∀ y, y ∈ l → cmp k y.2 ≠ 0%Z) → list_drop cmp k l = l.
Proof.
  induction l as [|y l IH]; intros H1; simpl; [done|]. rewrite (proj2 (Z.eqb_neq _ _)) by (apply H1; left).
  f_equal. apply IH. intros z ?. apply H1. by right.
Qed.

Definition has_key (cmp : skey → skey → Z) (k : skey) (l : list (nat * skey)) : bool := existsb (λ x, (cmp k x.2 =? 0)%Z) l.

Lemma put_NoDup cmp k l : NoDup l.*1 → NoDup (list_put cmp (fresh_no l, k) l).*1.
Proof.
  intros Hn. destruct (list_put_split cmp (fresh_no l, k) l) as (l1 & l2 & E & -> & _). pose proof (fresh_no_spec l) as Hf.
  rewrite fmap_app, fmap_cons. rewrite E in Hn, Hf at 1. rewrite fmap_app in Hn. rewrite E in Hf. rewrite fmap_app in Hf. simpl.
  assert (fresh_no l = fresh_no (l1 ++ l2)) as -> by (by rewrite E).
  rewrite <- Permutation_middle. constructor; [done|done].
Qed.

Definition rep_put (cmp : skey → skey → Z) (l : sk_rep) (k : skey) : sk_rep :=
  if has_key cmp k (proj1_sig l) then l else exist _ _ (put_NoDup cmp k (proj1_sig l) (proj2_sig l)).
Lemma drop_NoDup cmp k l : NoDup l.*1 → NoDup (list_drop cmp k l).*1.
Proof. intros Hn. eapply sublist_NoDup; [exact Hn|]. apply fmap_sublist, list_drop_sublist. Qed.
Definition rep_drop (cmp : skey → skey → Z) (l : sk_rep) (k : skey) : sk_rep :=
  exist _ _ (drop_NoDup cmp k (proj1_sig l) (proj2_sig l)).

(** The element with the number of [el], and its neighbours. *)
Fixpoint next_of (n : nat) (l : list (nat * skey)) : option (nat * skey) :=
  match l with
  | [] => None
  | x :: l => if bool_decide (x.1 = n) then head l else next_of n l
  end.
Fixpoint prev_of (n : nat) (prev : option (nat * skey)) (l : list (nat * skey)) : option (nat * skey) :=
  match l with
  | [] => None
  | x :: l => if bool_decide (x.1 = n) then prev else prev_of n (Some x) l
  end.

#[export] Instance list_skl : SkipList := {|
  skl := sk_rep; elem := nat * skey;
  sk_New := exist _ [] (NoDup_nil_2);
  sk_Init _ := exist _ [] (NoDup_nil_2);
  sk_Set := rep_put; sk_Remove := rep_drop;
  sk_Get cmp l k := find (λ x, (cmp k x.2 =? 0)%Z) (proj1_sig l);
  sk_Len l := length (proj1_sig l);
  sk_Front l := head (proj1_sig l);
  sk_Next l el := next_of el.1 (proj1_sig l);
  sk_Prev l el := prev_of el.1 None (proj1_sig l);
  sk_Key := snd;
|}.

Lemma next_of_lookup l i el : NoDup l.*1 → l !! i = Some el → next_of el.1 l = l !! S i.
Proof.
  revert i. induction l as [|x l IH]; intros i Hn Hi; [done|]. rewrite fmap_cons in Hn. apply NoDup_cons in Hn as [Hx Hn].
  destruct i as [|i]; simpl in Hi.
  - injection Hi as ->. simpl. rewrite bool_decide_eq_true_2 by done. by destruct l.
  - simpl. rewrite bool_decide_eq_false_2; [by apply IH|]. intros E. apply Hx. rewrite E.
    by eapply list_elem_of_fmap_2, list_elem_of_lookup_2.
Qed.
Lemma prev_of_lookup l : ∀ i el p, NoDup l.*1 → l !! i = Some el →
  prev_of el.1 p l = match i with O => p | S j => l !! j end.
Proof.
  induction l as [|x l IH]; intros i el p Hn Hi; [done|]. rewrite fmap_cons in Hn. apply NoDup_cons in Hn as [Hx Hn].
  destruct i as [|i]; simpl in Hi.
  - injection Hi as ->. simpl. by rewrite bool_decide_eq_true_2.
  - simpl. rewrite bool_decide_eq_false_2.
    + rewrite (IH i el (Some x) Hn Hi). by destruct i.
    + intros E. apply Hx. rewrite E. by eapply list_elem_of_fmap_2, list_elem_of_lookup_2.
Qed.

Lemma sorted_insert (cmp : skey → skey → Z) k l1 l2 :
  cmp_on (λ x, x ∈ k :: l1 ++ l2) cmp → StronglySorted (λ x y, cmp x y < 0)%Z (l1 ++ l2) →
  (∀ x, x ∈ l1 → (0 < cmp k x)%Z) → (∀ x, head l2 = Some x → (cmp k x < 0)%Z) →
  StronglySorted (λ x y, cmp x y < 0)%Z (l1 ++ k :: l2).
Proof.
  intros [Ha Ht]. induction l1 as [|x l1 IH]; simpl; intros Hs H1 H2.
  - constructor; [done|]. destruct l2 as [|y l2]; [constructor|]. pose proof (H2 y eq_refl) as Hy.
    apply StronglySorted_inv in Hs as [_ Hf]. constructor; [done|]. rewrite Forall_forall in *. intros z Hz.
    destruct (Ht k y z) as [Hz' _]; [set_solver..|]. specialize (Hf z Hz). apply Hz'; [lia|lia|by left].
  - apply StronglySorted_inv in Hs as [Hs Hf]. constructor.
    + apply IH; [..|done|intros; apply H1; by right|done]; intros; [apply Ha|apply Ht]; set_solver.
    + rewrite Forall_forall in *. intros z [Hz|[->|Hz]%elem_of_cons]%elem_of_app; [apply Hf; set_solver| |apply Hf; set_solver].
      rewrite Ha by set_solver. specialize (H1 x ltac:(left)). lia.
Qed.

#[export] Instance list_skl_ok : SkipListOk.
Proof.
  refine {| sk_elems := @proj1_sig _ _ : @skl list_skl → list (@elem list_skl) |}; try done.
  - intros [l Hl] i el. apply next_of_lookup, Hl.
  - intros [l Hl] i el Hi. simpl. by apply prev_of_lookup.
  - intros cmp [l Hl] k Hc Hs Hne. simpl in *. unfold rep_put. simpl.
    assert (has_key cmp k l = false) as ->.
    { apply not_true_iff_false. unfold has_key. rewrite existsb_exists. intros (x & Hx & E%Z.eqb_eq).
      apply (Hne x.2); [|done]. apply list_elem_of_fmap_2. by apply list_elem_of_In. }
    destruct (list_put_split cmp (fresh_no l, k) l) as (l1 & l2 & El & Ep & H1 & H2). simpl in H1, H2. rewrite El in Hs, Hc.
    exists l1, (fresh_no l, k), l2. simpl. split_and!; [done|done|done|]. unfold sorted_by. rewrite fmap_app, fmap_cons. simpl.
    rewrite fmap_app in Hs, Hc. apply sorted_insert; [done|done|..].
    + intros y (x & -> & Hx)%list_elem_of_fmap. specialize (H1 x Hx).
      assert (cmp k x.2 ≠ 0%Z); [|lia]. apply Hne. rewrite El. apply list_elem_of_fmap_2. set_solver.
    + intros y Hy. destruct l2 as [|x l2]; [done|]. simpl in Hy. injection Hy as <-. by apply H2.
  - intros cmp [l Hl] k Hc Hs (x & -> & Hx)%list_elem_of_fmap. simpl in *. unfold rep_put. simpl.
    assert (has_key cmp x.2 l = true) as ->; [|done]. apply existsb_exists. exists x. split; [by apply list_elem_of_In|].
    pose proof (cmp_antisym _ _ Hc x.2 x.2 ltac:(left) ltac:(left)). lia.
  - intros cmp [l Hl] l1 el l2 Hc Hs E. simpl in *. subst l. apply list_drop_split.
    + intros y Hy E. rewrite fmap_app, fmap_cons in Hs. apply list_elem_of_split in Hy as (a & b & ->).
      rewrite fmap_app, fmap_cons, <- app_assoc in Hs. unfold sorted_by in Hs.
      assert (cmp y.2 el.2 < 0)%Z as Hlt.
      { clear -Hs. induction (snd <$> a) as [|z zs IH]; simpl in Hs; apply StronglySorted_inv in Hs as [Hs Hf]; [|auto].
        rewrite Forall_forall in Hf. apply Hf. set_solver. }
      rewrite (cmp_antisym _ _ Hc) in Hlt; [lia|..]; apply list_elem_of_fmap_2; set_solver.
    + pose proof (cmp_antisym _ _ Hc el.2 el.2) as H0. assert (el.2 ∈ snd <$> l1 ++ el :: l2); [apply list_elem_of_fmap_2; set_solver|].
      specialize (H0 ltac:(done) ltac:(done)). lia.
  - intros cmp [l Hl] k Hc Hs Hne. simpl in *. apply list_drop_absent. intros y Hy. apply Hne. by apply list_elem_of_fmap_2.
Qed.

(** ** A small space *)

Module SubInst.
#[export] Instance store : SubStore := {| store_QueryByIds _ := []; store_GetRelationFormatByKey _ := Ok RF_longtext |}.
#[export] Instance intersect : LoIntersect := λ a b, filter (λ x, x ∈ a) b.
#[export] Instance intersect_ok : LoIntersectOk.
Proof. split; [intros a b x; unfold lo_Intersect, intersect; rewrite list_elem_of_filter; done|intros a b _ Hb; by apply NoDup_filter]. Qed.
Definition longer (a b : KGroup) : Prop := String.length (kg_Id b) ≤ String.length (kg_Id a).
#[export] Instance longer_dec : RelDecision longer.
Proof. intros a b. unfold longer. apply _. Defined.
#[export] Instance queues : SubQueue := λ _, None.
#[export] Instance kanban : Kanban := {| sort_groups := merge_sort longer; Hash := λ s, s |}.

(** The orders of a query as the order of a subscription. *)
#[export] Instance query_order : SubOrder (list Order) := {|
  order_Compare so a b := (so_Compare marshal UTC so a b).2;
  order_UpdateOrderMap so depDetails := let '(so, u) := so_UpdateOrderMap so depDetails in (u, so);
|}.

Definition by_rank : list Order :=
  extractOrder marshal
    [{| sr_RelationKey := "rank"; sr_Type := Sort_Asc; sr_CustomOrder := []; sr_Format := RF_number;
        sr_IncludeTime := false; sr_Id := ""; sr_EmptyPlacement := Empty_NotSpecified; sr_NoCollate := false |}].
Definition rankable : Details → Prop := all_orderable by_rank.
Definition not_done (d : Details) : bool := FilterObject (FilterNot (Some (FilterEq "done" Cond_Equal (Bool true)))) d.

Definition obj (id : string) (rank : Z) (finished : bool) : Details :=
  Some {["id" := VString id; "rank" := VFloat (float_of_Z rank); "done" := Bool finished]}.
Definition p0 : spaceSubs (list Order) :=
  {| sv_keys := []; sv_subs := ∅; sv_customOutput := ∅; sv_outputs := None; sv_w := {| w_heap := ∅; w_cache := ∅ |};
     sv_ds := newDependencyService |}.
Definition request (offset : Z) : sortedSub (list Order) :=
  noDep (newSortedSub "sub" ["id"; "rank"] (Some not_done) (Some by_rank) 2 offset).
Definition queried : list (string * Details) := [("a", obj "a" 3 false); ("b", obj "b" 1 false); ("c", obj "c" 2 false)].

(** A closed check of what the order can compare. *)
Lemma obj_rankable id r b : is_nan (float_of_Z r) = false → rankable (obj id r b).
Proof.
  intros Hr. apply Forall_cons. split; [|constructor]. split; [|done].
  unfold sort_value, d_Get, obj. simpl. by repeat constructor.
Qed.

Lemma request_fresh offset : fresh_query rankable p0 (request offset) queried.
Proof.
  split.
  - done.
  - intros o [= <-]. apply so_Compare_cmp_on.
  - by eexists _, _, _, _, _, _.
  - done.
  - split; [|set_solver]. repeat constructor; set_solver.
  - repeat constructor; by apply obj_rankable.
Qed.

Lemma subscribe_serves_witness :
  ∃ resp p' s',
    subscribe_end (subscribe_begin p0 (request 1) None) (request 1) [] (Ok queried) = (Ok resp, p') ∧
    serves rankable p' s' (list_to_map queried) (window s') ∧
    keys_of s' ≡ₚ queried ∧ sorted_by (ss_Compare (ss_order s')) (keys_of s') ∧
    ss_offset s' = ss_offset (request 1) ∧ ss_afterEl s' = anchor_of s' ∧
    window s' = take_limit (ss_limit (request 1)) (drop (Z.to_nat (ss_offset (request 1))) (keys_of s')).*1 ∧
    sr_Records resp = (λ k, d_CopyOnlyKeys k.2 (ss_keys s')) <$> getActiveEntries s' ∧
    rc_Total (sr_Counters resp) = Z.of_nat (length queried).
Proof. apply (subscribe_serves rankable p0 (request 1) None [] queried); [apply request_fresh|simpl; lia]. Defined.

(** The subscription without an offset, after its request. *)
Definition p1 : spaceSubs (list Order) := (subscribe_end (subscribe_begin p0 (request 0) None) (request 0) [] (Ok queried)).2.
Definition batches : list (list Details) := [[obj "d" 0 false; obj "a" 5 false; obj "d" 2 false]; [obj "b" 1 true]].

(** The window was [b], [c]; then [d] appears (its last version between [c] and [a])
    and [b] is finished. *)
Example run_batches : snd <$> run "sub" p1 ["b"; "c"] batches = Some ["c"; "d"].
Proof. vm_compute. reflexivity. Qed.

Lemma subscription_tracks_witness :
  ∃ p s, serves rankable p s (list_to_map queried) (window s) ∧ Forall (Forall (arrives rankable s)) batches ∧
  ∃ p' s' c', run (ss_id s) p (window s) batches = Some (p', c') ∧ same_request s s' ∧
    serves rankable p' s' (absorb (passes s) (list_to_map queried) (concat batches)) c' ∧
    sorted_by (ss_Compare (ss_order s)) (keys_of s') ∧
    (∀ id d, (id, d) ∈ keys_of s' ↔ absorb (passes s) (list_to_map queried) (concat batches) !! id = Some d) ∧
    ∃ rest, behind_anchor (sk_elems (ss_skl s')) (ss_afterEl s) rest ∧ c' = (sk_Key <$> take_limit (ss_limit s) rest).*1.
Proof.
  destruct (subscribe_ok rankable p0 (request 0) None [] queried (request_fresh 0))
    as (resp & p & s & _ & Hs & _ & _ & Eo & Ea & _); [simpl; lia|].
  assert (Forall (Forall (arrives rankable s)) batches) as Hb.
  { unfold anchor_of in Ea. rewrite Eo in Ea. simpl in Ea.
    repeat constructor; try (by apply obj_rankable); try (rewrite Ea; done); done. }
  exists p, s. split; [done|]. split; [done|]. by apply (subscription_tracks rankable p s _ _ batches).
Defined.

Lemma failed_subscription_panics_witness :
  (Z.of_nat (length queried) < ss_offset (request 5))%Z ∧ passes (request 5) (obj "d" 0 false) = true ∧
  ∃ p', subscribe_end (subscribe_begin p0 (request 5) (Some false)) (request 5) [] (Ok queried) = (Err ErrNoRecords, p') ∧
        onChange p' [("d", obj "d" 0 false)] = None.
Proof.
  split; [simpl; lia|]. split; [vm_compute; reflexivity|].
  apply (failed_subscription_panics rankable p0 (request 5) (Some false) [] queried "d" (obj "d" 0 false));
    [apply request_fresh|simpl; lia|vm_compute; reflexivity].
Defined.

(** ** Sessions of the small space *)

Definition objects : gmap string Details := list_to_map queried.
Lemma queried_distinct : NoDup queried.*1.
Proof. repeat constructor; set_solver. Qed.
Lemma p0_new : new_space rankable p0 objects.
Proof.
  split_and!; [done..|]. intros id d Hd. apply elem_of_list_to_map_2 in Hd.
  repeat (apply elem_of_cons in Hd as [[= -> ->]|Hd]; [split_and!; [done|by apply obj_rankable|done]|]). by apply elem_of_nil in Hd.
Qed.
Lemma request_query : query_ok rankable objects (request 0) queried.
Proof.
  split; [|by eexists _, _, _, _, _|done|left|apply queried_distinct|].
  - intros o [= <-]. apply so_Compare_cmp_on.
  - intros id d. unfold objects. rewrite <- elem_of_list_to_map by apply queried_distinct. split; [|by intros [? _]].
    intros Hd. split; [done|].
    repeat (apply elem_of_cons in Hd as [[= -> ->]|Hd]; [vm_compute; reflexivity|]). by apply elem_of_nil in Hd.
Qed.
Definition later : list Details := [obj "d" 0 false; obj "b" 1 true].
Lemma later_arrives : Forall (arrives_at rankable) later.
Proof. repeat constructor; try (by apply obj_rankable); done. Qed.


Lemma cancelled_output_panics_witness :
  ∃ resp p1 p2 resp' p3,
    subscribe_end (subscribe_begin p0 (request 0) (Some true)) (request 0) [] (Ok queried) = (Ok resp, p1) ∧
    Unsubscribe p1 [ss_id (request 0)] = (None, p2) ∧
    subscribe_end (subscribe_begin p2 (request 0) None) (request 0) [] (Ok queried) = (Ok resp', p3) ∧
    ∀ recs, Forall (arrives_at rankable) recs → ¬ expected (objects_after objects recs) (request 0) (shown_ids resp') → recordsHandler p3 recs = None.
Proof.
  apply (cancelled_output_panics rankable p0 objects (request 0) true [] [] queried); [apply p0_new|apply request_query|by left].
Defined.
(** The handler does panic on the batch above. *)
Example cancelled_output_run :
  let p1 := (subscribe_end (subscribe_begin p0 (request 0) (Some true)) (request 0) [] (Ok queried)).2 in
  let p3 := (subscribe_end (subscribe_begin (Unsubscribe p1 ["sub"]).2 (request 0) None) (request 0) [] (Ok queried)).2 in
  (match recordsHandler p3 later with None => true | Some _ => false end) = true.
Proof. vm_compute. reflexivity. Qed.

(** [b] is finished while the request is answered, and stays shown. *)
Lemma change_during_subscribe_witness :
  ∃ p1 outs s1 resp p2,
    recordsHandler (subscribe_begin p0 (request 0) None) later = Some (p1, outs) ∧ sv_subs p1 !! ss_id (request 0) = Some (SubSorted s1) ∧
    subscribe_end p1 s1 [] (Ok queried) = (Ok resp, p2) ∧ expected (first_seen (request 0) queried later) (request 0) (shown_ids resp) ∧
    sr_Records resp = shown_version (first_seen (request 0) queried later) (ss_keys (request 0)) <$> shown_ids resp.
Proof.
  apply (change_during_subscribe rankable p0 objects (request 0) None [] queried later); [apply p0_new|apply request_query|apply later_arrives].
Defined.
Example change_during_run :
  match recordsHandler (subscribe_begin p0 (request 0) None) later with
  | Some (p1, _) => match sv_subs p1 !! "sub" with
      | Some (SubSorted s1) => match (subscribe_end p1 s1 [] (Ok queried)).1 with Ok resp => shown_ids resp | Err _ => [] end
      | _ => []
      end
  | None => []
  end = ["d"; "b"].
Proof. vm_compute. reflexivity. Qed.

(** A window with an offset is anchored at the object before it, as a place in the list.
    When a record of that object arrives, even an unchanged one, the place is removed
    from the list and made anew, and the window behind it is lost. *)
Definition p2 : spaceSubs (list Order) := (subscribe_end (subscribe_begin p0 (request 1) None) (request 1) [] (Ok queried)).2.
Theorem resent_anchor_empties_window :
  shown_ids <$> match (subscribe_end (subscribe_begin p0 (request 1) None) (request 1) [] (Ok queried)).1 with Ok r => Some r | Err _ => None end =
    Some ["c"; "a"] ∧
  snd <$> run "sub" p2 ["c"; "a"] [[obj "b" 1 false]] = Some [].
Proof. split; vm_compute; reflexivity. Qed.
End SubInst.
